(* ===== verification/_CoqProject ===== *)
-Q . S2P
Prelude.v
Float32.v
Bits.v
ByteBuffer.v
ByteBufferSpec.v
Reputation.v
ReputationSpec.v
EventProcessor.v
EventProcessorSpec.v
UpdateMask.v
BigNumber.v
AuthSocket.v
AuthSocketSpec.v
WorldCrypt.v
WorldSocket.v
WorldSession.v
WorldSessionSpec.v
WorldSocketSpec.v
WorldInputSpec.v
WorldAuthSpec.v
WorldLogin.v
LfgRoles.v
LfgQueue.v
LfgQueueSpec.v
Currency.v
CurrencySpec.v
CurrencyResetSpec.v
FloatOrder.v
Threat.v
ThreatSpec.v
ThreatSafety.v
ThreatSelect.v
Motion.v
MotionSpec.v
MotionSafety.v
MotionHistory.v
BattlegroundQueue.v
BgQueueSpec.v
BgQueueInvite.v
BgQueueUpdate.v
BgQueueMatch.v
BgQueueRated.v
BgQueueLeave.v
BgQueueJoin.v
BgQueueHistory.v
BgQueueProps.v
AuctionHouse.v
AuctionHandler.v
AuctionSpec.v
AuctionEnd.v
AuctionSafety.v
AuctionBid.v
AuctionSell.v
AuctionList.v
AuctionHistory.v
AuctionItems.v
AuctionSales.v
AuctionMoney.v
AuctionRestart.v
AuctionTick.v
AuctionProps.v
Channel.v
ChannelMgr.v
ChannelSpec.v
ChannelSafety.v
ChannelOwner.v
ChannelRule.v
ChannelSettings.v
ChannelAuthority.v
ChannelProps.v
Pool.v
PoolLoad.v
PoolSpec.v
PoolHistory.v
PoolForest.v
PoolTables.v
PoolGrid.v
PoolQuest.v
PoolProps.v
