(* ===== verification/Prelude.v ===== *)
(** * EvaCore 4.3.4 game server: verification library

    The program is a server for a massively multiplayer game in two processes.  The
    login server (src/src/server/authserver) proves who a client is and hands out the
    list of game servers; the game server (src/src/server/game over
    src/src/server/shared) holds the world.  The two meet in the database: the login
    server stores a session key, the game server lets in whoever knows it.  Inside the
    game server a connection feeds packets to a session, the session dispatches them to
    handlers, and the handlers work on players, creatures and the managers around them,
    all in one world thread.

    The library models parts of that program function by function, as executable
    definitions, and proves what makes each part correct.  A tag above a definition,
    such as [game/Movement/MotionMaster.cpp:558-581] with a function's name, says which
    lines of src/src/server it translates.

    ** How the code is modelled

    Integers are [Z], with [u8] ... [u64] and [i8] ... [i64] where the code wraps or
    converts; floats are the specification floats of the Standard Library at single
    precision ([Float32]).  A method that changes its object and may throw, assert or
    misuse memory is a program of the monad [M S E] below: the state survives the
    exception.  Where pointers are shared and freed (packets, events, threat references,
    movement generators) the model has a heap, and following a freed pointer is a fault
    of its own, so that memory safety is a theorem.  What leaves the process (packets,
    SQL statements, messages) is output, kept in order in the state; what enters it
    (bytes, database answers, configuration, random numbers) is an argument or a record
    of arguments.  Libraries that are not under src/ (OpenSSL, zlib) are type classes
    with their documented laws; so are the parts of the program a model only calls, as
    records with contracts.  Loops that are not structural take fuel; for each of them a
    theorem or lemma gives a bound that is enough.

    ** The parts

    - Foundations: this file (machine integers, the monad with its two program logics
      [preserves] and [runs], ordered maps); [Bits] (bit strings), [Float32],
      [FloatOrder] (comparison of floats as an order).
    - Packets: [ByteBuffer] is shared/Packets/ByteBuffer.h.  [ByteBufferSpec] shows that
      whatever is written is read back, that [WriteBits] appends exactly the bits of the
      value, and that no input makes a reader leave the buffer.
    - Update masks: [UpdateMask] is Entities/Object/Updates/UpdateMask.h, with the form a
      mask has in a packet.
    - Login: [BigNumber] (Cryptography/BigNumber.cpp over the class [OpenSSL]) and
      [AuthSocket] (authserver/Server/AuthSocket.cpp, Realms/RealmList.cpp).
      [AuthSocketSpec]: success is answered only to a command that carries a right proof,
      and a realm list needs one; an honest SRP6 exchange ends with equal keys; and the
      ways around both that the code leaves open.
    - World connection: [WorldCrypt] (header encryption over the classes [Cipher] and
      [Zlib]), [WorldSocket] (Server/WorldSocket.cpp) and [WorldSession]
      (Server/WorldSession.cpp: the packet queue and the life cycle).
      [WorldInputSpec]: the pieces in which bytes arrive do not matter.
      [WorldSocketSpec]: the output is a byte queue that loses and reorders nothing but a
      dropped block, and drains.  [WorldSessionSpec]: every queued packet is decided
      once.  [WorldAuthSpec]: no session without the key.  [WorldLogin] composes both
      servers: the key of an honest login opens the world.
    - Timed events: [EventProcessor] (shared/Utilities/EventProcessor.cpp, Timer.h);
      [EventProcessorSpec]: what is due runs once and in order, what is killed is freed
      once.
    - Reputation: [Reputation] (Reputation/ReputationMgr.cpp); [ReputationSpec]: the
      counters agree with the standings, one change does what it says, the login table.
    - Dungeon finder: [LfgRoles] ([LFGMgr::CheckGroupRoles], against a reference
      definition) and [LfgQueue] (DungeonFinding/LFGQueue.cpp); [LfgQueueSpec]: only
      sound groups are proposed and the search ends.
    - Currencies: [Currency] (Entities/Player/CurrencyMgr.cpp and the currency functions
      of Player.cpp); [CurrencySpec]: caps, and saving and loading; [CurrencyResetSpec]:
      the weekly reset treats everyone due, once.
    - Threat: [Threat] (Combat/ThreatManager.cpp, HostileRefManager.cpp and the
      intrusive lists under shared/Dynamic); [ThreatSpec] and [ThreatSafety]: the shared
      references stay consistent in any history; [ThreatSelect]: the choice of the victim
      against a reference definition, for any list and any victim.
    - Movement: [Motion] (Movement/MotionMaster.cpp), reentrant through the callbacks of
      the generators; [MotionSpec], [MotionSafety] and [MotionHistory]: any history of
      commands and updates keeps the slots stacked and frees every generator once, and
      what a generator may not do during its update.
    - Battleground queues: [BattlegroundQueue] (Battlegrounds/BattlegroundQueue.cpp with the
      counters of Battleground.cpp, the life of battlegrounds in BattlegroundMgr.cpp and
      [HandleBattleFieldPortOpcode]).  [BgQueueSpec]: the invariant and the selection pools;
      [BgQueueInvite], [BgQueueUpdate], [BgQueueMatch], [BgQueueRated]: invitations, running
      and new battlegrounds, the matches, the update; [BgQueueLeave], [BgQueueJoin]: leaving
      and joining; [BgQueueHistory] and [BgQueueProps]: any history is free of faults and
      keeps the counters exact, filling ends balanced, and what absent players break.
    - Auction house: [AuctionHouse] (AuctionHouse/AuctionHouseMgr.cpp with what it uses of
      mails, items, purses and the database: the tables are part of the state, every state
      they go through is kept) and [AuctionHandler] (Handlers/AuctionHouseHandler.cpp).
      [AuctionSpec]: the invariant that ties houses, heap, store and tables together, and
      the letters of every mail; [AuctionEnd], [AuctionSafety], [AuctionBid],
      [AuctionSell], [AuctionList]: what each command does to the state;
      [AuctionHistory]: any sequence of them; [AuctionItems], [AuctionSales] and
      [AuctionMoney]: where items and money are; [AuctionTick]: what an update closes;
      [AuctionRestart]: a start on the tables; [AuctionProps]: no history ends in
      a fault, but for an update that reads a deleted auction whose memory has been reused,
      or makes items or money; a restart brings the houses back; and where items are lost.
    - Chat channels: [Channel] (Chat/Channels/Channel.cpp and Channel.h: a channel, its
      members, its packets and its row in the table) and [ChannelMgr]
      (Chat/Channels/ChannelMgr.cpp with the channel lists of Player.cpp and
      Handlers/ChannelHandler.cpp: the heap of channels, who finds and deletes them, every
      command).  [ChannelSpec]: each method as an operation on the channel;
      [ChannelSafety]: lists and managers point to channels that live; [ChannelOwner] and
      [ChannelRule]: owners and members, first of a channel, then of all;
      [ChannelSettings]: what the table keeps; [ChannelAuthority]: who may change what;
      [ChannelProps]: the properties of any history, and how an owner locks himself in.
    - Pools: [Pool] (Pools/PoolMgr.cpp: spawns of which only some are active at a time, the
      rolls, pools of pools, the daily quests) and [PoolLoad] (its tables from the rows of
      the database).  [PoolSpec]: the counters are exact and within the limits, and what
      despawning and spawning a pool does below it; [PoolHistory]: any history;
      [PoolForest]: the check for circular references leaves a forest; [PoolTables]: tidy
      rows, stricter than what the loader accepts, give well-formed tables; [PoolGrid]: the grids show what is active;
      [PoolQuest]: the quests of a new day; [PoolProps]: the properties, from the rows on.

    ** Bounds and fuel

    The read loops of the sockets need one turn per byte received at most; the output
    loop one per queued block and one for the buffer; [UpdateEvents] as many as there are
    queued events and newly added ones due at once; the group search more than there are
    candidates; the threat loops one per reference; the movement loops four;
    filling a battleground twice the length of its two queues, leaving a rated queue one
    per player of the group.  The auction house and the channels have loops over lists
    only; logging out takes a turn per channel listed.  Pools in pools call each other
    as deep as there are pools, at most.  The theorems
    state each of these bounds as a hypothesis on the fuel, or quantify over any fuel
    above it, and conclude that the loop ends.

    ** Not modelled

    The objects of the world (Unit, Player, Creature, Item, Map and Spell, and the
    scripts that drive them) are some hundred thousand lines that all call each other;
    only what belongs to the parts above is translated, the rest of them is arguments.
    The handlers of packets, the stores filled from files and tables, the database layer,
    threads, logging and configuration are input and output.  Collision and the vendored
    libraries under dep/ are third-party code.  Groups, guilds, the battlegrounds themselves,
    instances, loot and the calendar work directly on players and their items, maps and
    sessions, none of which the library has as a component; they are not modelled.  Of the
    auction house the packets that only list auctions are not, except for the page of a
    search; the ids of auctions, items and mails are not wrapped at 32 bits, since their
    generators stop the server before.  Of the channels [Player::LeaveLFGChannel] is not,
    which nothing calls; what the database makes of a string that is longer than its column
    is an argument.  The commands and links of the chat are not
    modelled, nor are the schedules of the game events, which spawn and despawn pools:
    those are commands of a history. *)

From Stdlib Require Export ZArith Lia.
From stdpp Require Export base list gmap option strings numbers sorting.

#[global] Open Scope Z_scope.

(** ** Machine-width integers

    Unsigned w-bit values are integers in [0, 2^w); signed ones are two's
    complement.  [uN] is the conversion a C++ cast or store performs. *)
Definition wrap (w z : Z) : Z := z mod 2 ^ w.
Definition swrap (w z : Z) : Z := (z + 2 ^ (w - 1)) mod 2 ^ w - 2 ^ (w - 1).

Abbreviation u8 := (wrap 8).
Abbreviation u16 := (wrap 16).
Abbreviation u32 := (wrap 32).
Abbreviation u64 := (wrap 64).
Abbreviation i8 := (swrap 8).
Abbreviation i16 := (swrap 16).
Abbreviation i32 := (swrap 32).
Abbreviation i64 := (swrap 64).

Abbreviation in_u w z := (0 <= z < 2 ^ w).
Abbreviation in_i w z := (- 2 ^ (w - 1) <= z < 2 ^ (w - 1)).

Create HintDb machine.
Create Rewrite HintDb machine.

Lemma wrap_range w z : 0 <= w -> in_u w (wrap w z).
Proof. intros Hw. apply Z.mod_pos_bound. lia. Qed.

Lemma wrap_small w z : in_u w z -> wrap w z = z.
Proof. apply Z.mod_small. Qed.

Lemma wrap_wrap w z : wrap w (wrap w z) = wrap w z.
Proof. unfold wrap. apply Zmod_mod. Qed.

Lemma swrap_range w z : 0 < w -> in_i w (swrap w z).
Proof.
  intros Hw. unfold swrap.
  assert (2 ^ w = 2 * 2 ^ (w - 1)) as E.
  { rewrite <- Z.pow_succ_r by lia. f_equal. lia. }
  pose proof (Z.mod_pos_bound (z + 2 ^ (w - 1)) (2 ^ w) ltac:(lia)). lia.
Qed.

Lemma swrap_small w z : 0 < w -> in_i w z -> swrap w z = z.
Proof.
  intros Hw Hz. unfold swrap.
  assert (2 ^ w = 2 * 2 ^ (w - 1)) as E.
  { rewrite <- Z.pow_succ_r by lia. f_equal. lia. }
  rewrite Z.mod_small; lia.
Qed.

#[export] Hint Rewrite wrap_wrap : machine.
#[export] Hint Resolve wrap_range swrap_range : machine.

(** ** Flag words *)

(** [flags & mask] used as a C++ condition. *)
Definition has_flag (flags mask : Z) : bool := negb (Z.land flags mask =? 0).

Lemma has_flag_bit flags n :
  0 <= n -> has_flag flags (2 ^ n) = Z.testbit flags n.
Proof.
  intros Hn. unfold has_flag.
  assert (Z.land flags (2 ^ n) = if Z.testbit flags n then 2 ^ n else 0) as ->.
  { apply Z.bits_inj'. intros i Hi. rewrite Z.land_spec, Z.pow2_bits_eqb by lia.
    destruct (Z.eqb_spec n i) as [->|Hne].
    - destruct (Z.testbit flags i); rewrite ?andb_true_r; [|by rewrite Z.bits_0].
      by rewrite Z.pow2_bits_true.
    - rewrite andb_false_r. destruct (Z.testbit flags n); [|by rewrite Z.bits_0].
      by rewrite Z.pow2_bits_false by lia. }
  destruct (Z.testbit flags n); [|done].
  destruct (Z.eqb_spec (2 ^ n) 0); [|done]. pose proof (Z.pow_pos_nonneg 2 n). lia.
Qed.

Lemma has_flag_wrap w x n :
  0 <= n < w -> has_flag (wrap w x) (2 ^ n) = Z.testbit x n.
Proof. intros Hn. rewrite has_flag_bit by lia. apply Z.mod_pow2_bits_low. lia. Qed.

(** ** State and exceptions

    A C++ method that mutates its object and may throw: the state survives the
    exception, since the handler that catches it still sees the object. *)
Inductive result (E A : Type) : Type :=
| Ok (a : A)
| Throw (e : E).
Arguments Ok {E A} a.
Arguments Throw {E A} e.

Definition M (S E A : Type) : Type := S -> result E A * S.

#[export] Instance M_ret {S E} : MRet (M S E) := fun A a s => (Ok a, s).
#[export] Instance M_bind {S E} : MBind (M S E) := fun A B f m s =>
  match m s with
  | (Ok a, s') => f a s'
  | (Throw e, s') => (Throw e, s')
  end.

Definition throw {S E A} (e : E) : M S E A := fun s => (Throw e, s).
Definition get {S E} : M S E S := fun s => (Ok s, s).
Definition modify {S E} (f : S -> S) : M S E unit := fun s => (Ok tt, f s).

Lemma bind_ok {S E A B} (m : M S E A) (f : A -> M S E B) s a s' :
  m s = (Ok a, s') -> (m ≫= f) s = f a s'.
Proof. intros H. unfold mbind, M_bind. by rewrite H. Qed.

Lemma bind_throw {S E A B} (m : M S E A) (f : A -> M S E B) s e s' :
  m s = (Throw e, s') -> (m ≫= f) s = (Throw e, s').
Proof. intros H. unfold mbind, M_bind. by rewrite H. Qed.

(** Loops of a fixed body over a list, in order. *)
Fixpoint mapM_ {S E A} (f : A -> M S E unit) (l : list A) : M S E unit :=
  match l with
  | [] => mret tt
  | x :: l' => f x ;; mapM_ f l'
  end.

Lemma mapM__app {S E A} (f : A -> M S E unit) l1 l2 s :
  mapM_ f (l1 ++ l2) s = (mapM_ f l1 ;; mapM_ f l2) s.
Proof.
  revert s. induction l1 as [|x l1 IH]; intros s; [done|].
  cbn. unfold mbind, M_bind in *. cbn.
  destruct (f x s) as [[[]|e] s1]; [|done]. apply IH.
Qed.

(** What a program does to the state, whatever its result: a relation between the
    state before and after that composes.  An invariant [P] is the relation
    [fun s s' => P s -> P s']. *)
Section Preserves.
Context {S E : Type} (R : S -> S -> Prop) {HR : Reflexive R} {HT : Transitive R}.

Definition preserves {A} (m : M S E A) : Prop := forall s, R s (m s).2.

Lemma preserves_ret {A} (a : A) : preserves (mret a).
Proof. intros s. apply HR. Qed.

Lemma preserves_throw {A} (e : E) : preserves (throw e : M S E A).
Proof. intros s. apply HR. Qed.

Lemma preserves_get : preserves (get : M S E S).
Proof. intros s. apply HR. Qed.

Lemma preserves_modify f : (forall s, R s (f s)) -> preserves (modify f).
Proof. intros Hf s. apply Hf. Qed.

Lemma preserves_bind {A B} (m : M S E A) (f : A -> M S E B) :
  preserves m -> (forall a, preserves (f a)) -> preserves (m ≫= f).
Proof.
  intros Hm Hf s. unfold mbind, M_bind. specialize (Hm s).
  destruct (m s) as [[a|e] s1]; [|done]. cbn in *. etransitivity; [exact Hm|apply Hf].
Qed.
End Preserves.

Create HintDb preserves.
#[export] Hint Resolve preserves_ret preserves_throw preserves_get preserves_modify preserves_bind : preserves.

(** *** Programs that end well

    [runs m s Q]: run from [s], the program [m] ends without an exception, with a
    result and a state in [Q]. *)
Definition runs {S E A} (m : M S E A) (s : S) (Q : A -> S -> Prop) : Prop :=
  match m s with (Ok a, s') => Q a s' | (Throw _, _) => False end.

Lemma runs_ret {S E A} (a : A) (s : S) (Q : A -> S -> Prop) : Q a s -> runs (mret a : M S E A) s Q.
Proof. done. Qed.

Lemma runs_bind {S E A B} (m : M S E A) (f : A -> M S E B) s Q :
  runs m s (fun a s' => runs (f a) s' Q) -> runs (m ≫= f) s Q.
Proof. unfold runs, mbind, M_bind. by destruct (m s) as [[a|e] s']. Qed.

Lemma runs_mono {S E A} (m : M S E A) s (P Q : A -> S -> Prop) :
  runs m s P -> (forall a s', P a s' -> Q a s') -> runs m s Q.
Proof. unfold runs. destruct (m s) as [[a|e] s']; [|done]. eauto. Qed.

Lemma runs_get {S E} (s : S) (Q : S -> S -> Prop) : Q s s -> runs (get : M S E S) s Q.
Proof. done. Qed.

Lemma runs_modify {S E} (f : S -> S) s (Q : unit -> S -> Prop) : Q tt (f s) -> runs (modify f : M S E unit) s Q.
Proof. done. Qed.

Lemma runs_inv {S E A} (m : M S E A) s Q : runs m s Q -> exists a s', m s = (Ok a, s') /\ Q a s'.
Proof. unfold runs. destruct (m s) as [[a|e] s']; [|done]. eauto. Qed.

Lemma runs_and {S E A} (m : M S E A) s (P Q : A -> S -> Prop) :
  runs m s P -> runs m s Q -> runs m s (fun a s' => P a s' /\ Q a s').
Proof. unfold runs. by destruct (m s) as [[a|e] s']. Qed.

(** [throws m s e]: run from [s], the program [m] ends with the exception [e]. *)
Definition throws {S E A} (m : M S E A) (s : S) (e : E) : Prop := exists s', m s = (Throw e, s').

Lemma throws_after {S E A B} (m : M S E A) (f : A -> M S E B) s e :
  runs m s (fun a s' => throws (f a) s' e) -> throws (m ≫= f) s e.
Proof. unfold runs, throws, mbind, M_bind. by destruct (m s) as [[a|e'] s']. Qed.

Lemma throws_bind {S E A B} (m : M S E A) (f : A -> M S E B) s e : throws m s e -> throws (m ≫= f) s e.
Proof. intros [s' E1]. exists s'. by apply bind_throw. Qed.

(** One step of a program that does not look into the state. *)
Ltac plain_step :=
  lazymatch goal with
  | |- runs (mret _) _ _ => apply runs_ret
  | |- runs (_ ≫= _) _ _ => apply runs_bind
  | |- runs get _ _ => apply runs_get
  | |- runs (modify _) _ _ => apply runs_modify
  end; cbn beta.

(** ** Lists indexed by integers *)
Definition znth {A} (l : list A) (i : Z) : option A :=
  if i <? 0 then None else l !! Z.to_nat i.
Definition zset {A} (l : list A) (i : Z) (x : A) : list A :=
  if i <? 0 then l else <[Z.to_nat i := x]> l.
Definition zlen {A} (l : list A) : Z := Z.of_nat (length l).

Lemma list_snoc_inv {A} (l : list A) : l = [] \/ exists l' x, l = l' ++ [x].
Proof.
  induction l as [|x l _] using rev_ind; [by left|]. right. by exists l, x.
Qed.

Lemma zlen_nonneg {A} (l : list A) : 0 <= zlen l.
Proof. unfold zlen. lia. Qed.

(** ** [std::map] with integer keys

    A finite map traversed in the order of its keys. *)
Definition key_le {A} (p q : Z * A) : Prop := p.1 <= q.1.

#[export] Instance key_le_dec {A} (p q : Z * A) : Decision (key_le p q).
Proof. unfold key_le. apply _. Defined.

#[export] Instance key_le_trans {A} : Transitive (@key_le A).
Proof. unfold key_le. intros [] [] []; cbn. lia. Qed.

#[export] Instance key_le_total {A} : Total (@key_le A).
Proof. unfold key_le. intros [] []; cbn. lia. Qed.

Definition ordered {A} (m : gmap Z A) : list (Z * A) := merge_sort key_le (map_to_list m).

Lemma ordered_Permutation {A} (m : gmap Z A) : ordered m ≡ₚ map_to_list m.
Proof. apply merge_sort_Permutation. Qed.

Lemma elem_of_ordered {A} (m : gmap Z A) k x : (k, x) ∈ ordered m <-> m !! k = Some x.
Proof. by rewrite ordered_Permutation, elem_of_map_to_list. Qed.

Lemma NoDup_ordered {A} (m : gmap Z A) : NoDup (ordered m).*1.
Proof. rewrite ordered_Permutation. apply NoDup_fst_map_to_list. Qed.

Lemma ordered_sorted {A} (m : gmap Z A) : StronglySorted key_le (ordered m).
Proof. apply StronglySorted_merge_sort; apply _. Qed.

Lemma list_to_map_ordered {A} (m : gmap Z A) : list_to_map (ordered m) = m.
Proof.
  rewrite <- (list_to_map_to_list m) at 2. apply list_to_map_proper.
  - apply NoDup_ordered.
  - apply ordered_Permutation.
Qed.

(** ** Counting the entries of a map *)
Definition countP {K A} `{Countable K} (P : A -> bool) (m : gmap K A) : Z :=
  Z.of_nat (size (filter (fun kv => P kv.2 = true) m)).

Lemma countP_empty {K A} `{Countable K} (P : A -> bool) : countP P (∅ : gmap K A) = 0.
Proof. unfold countP. by rewrite map_filter_empty. Qed.

Lemma countP_insert_new {K A} `{Countable K} (P : A -> bool) (m : gmap K A) k x :
  m !! k = None -> countP P (<[k := x]> m) = countP P m + Z.b2z (P x).
Proof.
  intros Hk. unfold countP. destruct (P x) eqn:E.
  - rewrite map_filter_insert_True by done.
    rewrite map_size_insert_None; [cbn; lia|]. apply map_lookup_filter_None. by left.
  - rewrite map_filter_insert_not', Z.add_0_r by (cbn; intros; congruence). done.
Qed.

Lemma countP_delete {K A} `{Countable K} (P : A -> bool) (m : gmap K A) k x :
  m !! k = Some x -> countP P (delete k m) = countP P m - Z.b2z (P x).
Proof.
  intros Hk. rewrite <- (insert_delete_id m k x) at 2 by done.
  rewrite countP_insert_new by apply lookup_delete_eq. lia.
Qed.

Lemma countP_update {K A} `{Countable K} (P : A -> bool) (m : gmap K A) k x y :
  m !! k = Some x -> countP P (<[k := y]> m) = countP P m - Z.b2z (P x) + Z.b2z (P y).
Proof.
  intros Hk. rewrite <- insert_delete_eq.
  rewrite countP_insert_new by apply lookup_delete_eq. by rewrite (countP_delete P m k x).
Qed.

Lemma countP_fmap {K A B} `{Countable K} (P : B -> bool) (f : A -> B) (m : gmap K A) :
  countP P (f <$> m) = countP (fun x => P (f x)) m.
Proof. unfold countP. rewrite map_filter_fmap, map_size_fmap. done. Qed.

Lemma countP_ext {K A} `{Countable K} (P Q : A -> bool) (m : gmap K A) :
  (forall k x, m !! k = Some x -> P x = Q x) -> countP P m = countP Q m.
Proof.
  intros E. unfold countP. do 2 f_equal. apply map_filter_ext. cbn. intros k x Hk.
  by rewrite (E k x).
Qed.

Lemma countP_nonneg {K A} `{Countable K} (P : A -> bool) (m : gmap K A) : 0 <= countP P m.
Proof. unfold countP. lia. Qed.

(** ** Adding up the entries of a map *)
Definition total {K A} `{Countable K} (f : A -> Z) (m : gmap K A) : Z := map_fold (fun _ x acc => f x + acc) 0 m.

Lemma total_empty {K A} `{Countable K} (f : A -> Z) : total f (∅ : gmap K A) = 0.
Proof. apply map_fold_empty. Qed.

Lemma total_insert_new {K A} `{Countable K} (f : A -> Z) (m : gmap K A) k x :
  m !! k = None -> total f (<[k := x]> m) = f x + total f m.
Proof. intros Hk. unfold total. rewrite map_fold_insert_L; [done|intros; lia|done]. Qed.

Lemma total_delete {K A} `{Countable K} (f : A -> Z) (m : gmap K A) k x :
  m !! k = Some x -> total f (delete k m) = total f m - f x.
Proof.
  intros Hk. rewrite <- (insert_delete_id m k x) at 2 by done.
  rewrite total_insert_new by apply lookup_delete_eq. lia.
Qed.

Lemma total_update {K A} `{Countable K} (f : A -> Z) (m : gmap K A) k x y :
  m !! k = Some x -> total f (<[k := y]> m) = total f m - f x + f y.
Proof.
  intros Hk. rewrite <- insert_delete_eq.
  rewrite total_insert_new by apply lookup_delete_eq. rewrite (total_delete f m k x) by done. lia.
Qed.

Lemma total_zero {K A} `{Countable K} (f : A -> Z) (m : gmap K A) :
  (forall k x, m !! k = Some x -> f x = 0) -> total f m = 0.
Proof.
  induction m as [|k x m Hk IH] using map_ind; intros Hz; [apply total_empty|].
  rewrite total_insert_new, (Hz k x) by (done || apply lookup_insert_eq). rewrite IH; [done|].
  intros k' x' Hk'. apply (Hz k'). rewrite lookup_insert_ne; [done|]. intros ->. congruence.
Qed.

Lemma total_nonneg {K A} `{Countable K} (f : A -> Z) (m : gmap K A) : (forall x, 0 <= f x) -> 0 <= total f m.
Proof.
  intros Hf. induction m as [|k x m Hk IH] using map_ind; [by rewrite total_empty|].
  rewrite total_insert_new by done. specialize (Hf x). lia.
Qed.

Lemma total_lookup {K A} `{Countable K} (f : A -> Z) (m : gmap K A) k x :
  (forall x, 0 <= f x) -> m !! k = Some x -> f x <= total f m.
Proof. intros Hf Hk. pose proof (total_delete f m k x Hk). pose proof (total_nonneg f (delete k m) Hf). lia. Qed.

Lemma foldl_inv {A B} (P : A -> Prop) (f : A -> B -> A) (l : list B) a :
  P a -> (forall a b, b ∈ l -> P a -> P (f a b)) -> P (foldl f a l).
Proof.
  revert a. induction l as [|b l IH]; intros a Ha Hf; [done|]. cbn. apply IH.
  - apply Hf; [constructor|done].
  - intros a' b' Hb. apply Hf. by constructor.
Qed.

(** ** Tactics *)

(** An equation both sides of which evaluate, without normalising its type. *)
Ltac by_vm := match goal with |- ?a = ?b => vm_cast_no_check (eq_refl b) end.

(** Case split on every boolean comparison in sight, as propositions. *)
Ltac bdestr :=
  match goal with
  | |- context [Z.eqb ?a ?b] => destruct (Z.eqb_spec a b)
  | |- context [Z.ltb ?a ?b] => destruct (Z.ltb_spec a b)
  | |- context [Z.leb ?a ?b] => destruct (Z.leb_spec a b)
  | |- context [Z.gtb ?a ?b] => rewrite (Z.gtb_ltb a b)
  | |- context [Z.geb ?a ?b] => rewrite (Z.geb_leb a b)
  | H : context [Z.eqb ?a ?b] |- _ => destruct (Z.eqb_spec a b)
  | H : context [Z.ltb ?a ?b] |- _ => destruct (Z.ltb_spec a b)
  | H : context [Z.leb ?a ?b] |- _ => destruct (Z.leb_spec a b)
  | H : context [Z.gtb ?a ?b] |- _ => rewrite (Z.gtb_ltb a b) in H
  | H : context [Z.geb ?a ?b] |- _ => rewrite (Z.geb_leb a b) in H
  end.
