(* ===== verification/Float32.v ===== *)
(** * IEEE single precision, as the C++ [float] of the program

    The Standard Library's specification floats at 24 bits of significand and
    exponents below 128, computed with after every operation as SSE2 code does. *)

From S2P Require Import Prelude.
From Stdlib Require Import Floats.SpecFloat.

Abbreviation float32 := spec_float.

Definition fadd : float32 -> float32 -> float32 := SFadd 24 128.
Definition fsub : float32 -> float32 -> float32 := SFsub 24 128.
Definition fmul : float32 -> float32 -> float32 := SFmul 24 128.
Definition fdiv : float32 -> float32 -> float32 := SFdiv 24 128.
Definition flt : float32 -> float32 -> bool := SFltb.
Definition fle : float32 -> float32 -> bool := SFleb.
Definition feq : float32 -> float32 -> bool := SFeqb.

(** Conversion of an integer, rounded to nearest even. *)
Definition f_of_Z (z : Z) : float32 := binary_normalize 24 128 z 0 false.

Definition f_zero : float32 := S754_zero false.
Definition f_one : float32 := f_of_Z 1.
Definition f_half : float32 := fdiv f_one (f_of_Z 2).
Definition f_quarter : float32 := fdiv f_one (f_of_Z 4).
Definition f_hundred : float32 := f_of_Z 100.

(** The integer below the value, and the integer toward zero. *)
Definition f_floor (f : float32) : option Z :=
  match f with
  | S754_zero _ => Some 0
  | S754_finite s m e =>
    let v := if s then Z.neg m else Z.pos m in
    Some (if 0 <=? e then v * 2 ^ e else v / 2 ^ (- e))
  | _ => None
  end.

Definition f_trunc (f : float32) : option Z :=
  match f with
  | S754_zero _ => Some 0
  | S754_finite s m e =>
    let a := if 0 <=? e then Z.pos m * 2 ^ e else Z.pos m / 2 ^ (- e) in
    Some (if s then - a else a)
  | _ => None
  end.

(** A value the target type cannot hold is undefined in C++: the x86
    conversion gives the "integer indefinite" value. *)
Definition to_i32 (v : option Z) : Z :=
  match v with
  | Some v => if (- 2 ^ 31 <=? v) && (v <? 2 ^ 31) then v else - 2 ^ 31
  | None => - 2 ^ 31
  end.

Definition f_to_i32 (f : float32) : Z := to_i32 (f_trunc f).
Definition f_floor_i32 (f : float32) : Z := to_i32 (f_floor f).

(** [uint32(f)]: through a 64-bit conversion, truncated. *)
Definition f_to_u32 (f : float32) : Z :=
  match f_trunc f with
  | Some v => if (- 2 ^ 63 <=? v) && (v <? 2 ^ 63) then u32 v else 0
  | None => 0
  end.

(** [T(base * float(pct) / 100.0f)]: CalculatePctF and friends. *)
Definition pct_of (base pct : float32) : float32 := fdiv (fmul base pct) f_hundred.
