(* ===== verification/Bits.v ===== *)
(** * Bit strings of integers

    The most-significant-bit-first view of bytes and integers that the
    bit-packed packet fields are specified with. *)

From S2P Require Import Prelude.

(** The [n] low bits of [v], most significant first. *)
Fixpoint bits_of (n : nat) (v : Z) : list bool :=
  match n with
  | O => []
  | S n' => Z.testbit v (Z.of_nat n') :: bits_of n' v
  end.

Definition Z_of_bits (l : list bool) : Z :=
  foldl (fun a (b : bool) => 2 * a + Z.b2z b) 0 l.

Definition bitstream (l : list Z) : list bool := l ≫= bits_of 8.

(** Bits missing to the next byte boundary after [k] bits. *)
Definition pad (k : nat) : nat := ((8 - k mod 8) mod 8)%nat.

#[global] Arguments pad : simpl never.
#[global] Arguments bits_of : simpl nomatch.
#[global] Arguments bitstream : simpl never.

Lemma length_bits_of n v : length (bits_of n v) = n.
Proof. induction n; cbn; congruence. Qed.

Lemma lookup_bits_of n v i :
  bits_of n v !! i = if decide (i < n)%nat
                     then Some (Z.testbit v (Z.of_nat (n - 1 - i))) else None.
Proof.
  revert i. induction n as [|n IH]; intros i; cbn.
  - case_decide; [lia|done].
  - destruct i as [|i]; cbn.
    + case_decide; [|lia]. do 3 f_equal. lia.
    + rewrite IH. repeat case_decide; try lia; [|done]. do 3 f_equal. lia.
Qed.

Lemma bits_of_split k n v :
  (k <= n)%nat ->
  bits_of n v = bits_of k (Z.shiftr v (Z.of_nat (n - k))) ++ bits_of (n - k) v.
Proof.
  intros Hk. apply list_eq. intros i. rewrite lookup_bits_of.
  destruct (decide (i < k)%nat).
  - rewrite lookup_app_l by (rewrite length_bits_of; lia).
    rewrite lookup_bits_of. repeat case_decide; try lia.
    rewrite Z.shiftr_spec by lia. do 2 f_equal. lia.
  - rewrite lookup_app_r by (rewrite length_bits_of; lia).
    rewrite length_bits_of, lookup_bits_of. repeat case_decide; try lia; [|done].
    do 3 f_equal. lia.
Qed.

Lemma take_drop_bits_of p k n v :
  (p + k <= n)%nat ->
  take k (drop p (bits_of n v)) = bits_of k (Z.shiftr v (Z.of_nat (n - p - k))).
Proof.
  intros H. apply list_eq. intros i. rewrite lookup_bits_of.
  case_decide.
  - rewrite lookup_take_lt, lookup_drop, lookup_bits_of by lia.
    case_decide; [|lia]. rewrite Z.shiftr_spec by lia. do 2 f_equal. lia.
  - rewrite lookup_take_ge by lia. done.
Qed.

(** Or-ing a [k]-bit chunk into the zero bits that follow the first [p]. *)
Lemma bits_of_or_chunk x c p k :
  (p + k <= 8)%nat ->
  drop p (bits_of 8 x) = replicate (8 - p) false ->
  bits_of 8 (u8 (Z.lor x (Z.shiftl (Z.land c (Z.shiftl 1 (Z.of_nat k) - 1))
                                    (8 - (Z.of_nat p + Z.of_nat k)))))
  = take p (bits_of 8 x) ++ bits_of k c ++ replicate (8 - p - k) false.
Proof.
  intros Hpk Hz. apply list_eq. intros i.
  assert (Hbit : (p <= i < 8)%nat -> Z.testbit x (Z.of_nat (7 - i)) = false).
  { intros Hi. assert (drop p (bits_of 8 x) !! (i - p)%nat = Some false) as E.
    { rewrite Hz. apply lookup_replicate_2. lia. }
    rewrite lookup_drop, lookup_bits_of in E. case_decide; [|lia].
    injection E as E. rewrite <- E. f_equal. lia. }
  replace (Z.shiftl 1 (Z.of_nat k) - 1) with (Z.ones (Z.of_nat k)) by (rewrite Z.ones_equiv, Z.shiftl_1_l; lia).
  rewrite lookup_bits_of. case_decide as Hi.
  2:{ symmetry. apply lookup_ge_None.
      rewrite !length_app, length_take, !length_bits_of, length_replicate. lia. }
  unfold wrap. rewrite Z.mod_pow2_bits_low, Z.lor_spec, Z.shiftl_spec, Z.land_spec by lia.
  destruct (decide (i < p)%nat).
  - rewrite lookup_app_l by (rewrite length_take, length_bits_of; lia).
    rewrite lookup_take_lt, lookup_bits_of by lia. case_decide; [|lia]. f_equal.
    rewrite (Z.ones_spec_high (Z.of_nat k)) by lia. rewrite andb_false_r, orb_false_r.
    f_equal.
  - replace (8 - 1 - i)%nat with (7 - i)%nat by lia. rewrite Hbit by lia. cbn [orb].
    rewrite lookup_app_r by (rewrite length_take, length_bits_of; lia).
    rewrite length_take, length_bits_of.
    destruct (decide (i < p + k)%nat).
    + rewrite lookup_app_l by (rewrite length_bits_of; lia).
      rewrite lookup_bits_of. case_decide; [|lia]. f_equal.
      rewrite Z.ones_spec_low, andb_true_r by lia. f_equal. lia.
    + rewrite lookup_app_r by (rewrite length_bits_of; lia).
      rewrite length_bits_of. rewrite lookup_replicate_2 by lia. f_equal.
      rewrite (Z.testbit_neg_r c), andb_false_l by lia. done.
Qed.

Lemma Z_of_bits_acc l a :
  foldl (fun a (b : bool) => 2 * a + Z.b2z b) a l
  = a * 2 ^ Z.of_nat (length l) + Z_of_bits l.
Proof.
  unfold Z_of_bits. revert a. induction l as [|b l IH]; intros a; cbn [foldl length].
  - rewrite Z.pow_0_r. lia.
  - rewrite IH, (IH (2 * 0 + Z.b2z b)). rewrite Nat2Z.inj_succ, Z.pow_succ_r by lia. ring.
Qed.

Lemma Z_of_bits_cons b l :
  Z_of_bits (b :: l) = Z.b2z b * 2 ^ Z.of_nat (length l) + Z_of_bits l.
Proof. unfold Z_of_bits at 1. cbn [foldl]. rewrite Z_of_bits_acc. f_equal. Qed.

Lemma Z_of_bits_range l : in_u (Z.of_nat (length l)) (Z_of_bits l).
Proof.
  induction l as [|b l IH]; [cbn; lia|].
  rewrite Z_of_bits_cons. cbn [length]. rewrite Nat2Z.inj_succ, Z.pow_succ_r by lia.
  destruct b; cbn [Z.b2z]; lia.
Qed.

Lemma testbit_high n b i : in_u n b -> n <= i -> Z.testbit b i = false.
Proof.
  intros Hb Hi. destruct (decide (n < 0)).
  { rewrite Z.pow_neg_r in Hb by done. lia. }
  rewrite <- (Z.mod_small b (2 ^ n)) by done. apply Z.mod_pow2_bits_high. lia.
Qed.

Lemma in_u_bits n b :
  0 <= n -> (forall i, n <= i -> Z.testbit b i = false) -> in_u n b.
Proof.
  intros Hn H. assert (b = wrap n b) as ->; [|by apply wrap_range].
  apply Z.bits_inj'. intros i Hi. unfold wrap. destruct (decide (i < n)).
  - by rewrite Z.mod_pow2_bits_low.
  - rewrite Z.mod_pow2_bits_high by lia. apply H. lia.
Qed.

Lemma lor_range w a b : 0 <= w -> in_u w a -> in_u w b -> in_u w (Z.lor a b).
Proof.
  intros Hw Ha Hb. apply in_u_bits; [done|]. intros i Hi.
  by rewrite Z.lor_spec, (testbit_high w a), (testbit_high w b).
Qed.

Lemma lxor_range w a b : 0 <= w -> in_u w a -> in_u w b -> in_u w (Z.lxor a b).
Proof.
  intros Hw Ha Hb. apply in_u_bits; [done|]. intros i Hi.
  by rewrite Z.lxor_spec, (testbit_high w a), (testbit_high w b).
Qed.

Lemma shiftl_lor_add a b n : 0 <= n -> in_u n b -> Z.lor (Z.shiftl a n) b = a * 2 ^ n + b.
Proof.
  intros Hn Hb. rewrite <- Z.shiftl_mul_pow2, <- Z.add_lor_land by done.
  assert (Z.land (Z.shiftl a n) b = 0) as ->; [|lia].
  apply Z.bits_inj'. intros i Hi. rewrite Z.land_spec, Z.bits_0, Z.shiftl_spec by lia.
  destruct (decide (i < n)).
  - by rewrite Z.testbit_neg_r by lia.
  - rewrite (testbit_high n b) by lia. apply andb_false_r.
Qed.

Lemma Z_of_bits_app l1 l2 :
  Z_of_bits (l1 ++ l2)
  = Z.lor (Z.shiftl (Z_of_bits l1) (Z.of_nat (length l2))) (Z_of_bits l2).
Proof.
  rewrite shiftl_lor_add; [|lia|apply Z_of_bits_range].
  unfold Z_of_bits at 1. rewrite foldl_app. apply Z_of_bits_acc.
Qed.

Lemma Z_of_bits_of n v : Z_of_bits (bits_of n v) = wrap (Z.of_nat n) v.
Proof.
  unfold wrap. induction n as [|n IH]; [cbn; by rewrite Z.mod_1_r|].
  cbn [bits_of]. rewrite Z_of_bits_cons, IH, length_bits_of.
  rewrite Nat2Z.inj_succ, Z.pow_succ_r by lia.
  rewrite (Z.mul_comm 2), Z.rem_mul_r by lia.
  rewrite Z.testbit_spec' by lia. ring.
Qed.

Lemma bitstream_app l1 l2 : bitstream (l1 ++ l2) = bitstream l1 ++ bitstream l2.
Proof. apply bind_app. Qed.

Lemma length_bitstream l : length (bitstream l) = (8 * length l)%nat.
Proof.
  induction l as [|x l IH]; [done|].
  change (bitstream (x :: l)) with (bits_of 8 x ++ bitstream l).
  rewrite length_app, length_bits_of, IH. cbn [length]. lia.
Qed.

Lemma bitstream_inj l1 l2 :
  Forall (fun x => in_u 8 x) l1 -> Forall (fun x => in_u 8 x) l2 ->
  bitstream l1 = bitstream l2 -> l1 = l2.
Proof.
  intros H1. revert l2. induction H1 as [|x l1 Hx H1 IH]; intros l2 H2 E.
  - destruct l2; [done|discriminate].
  - destruct H2 as [|y l2 Hy H2]; [discriminate|].
    change (bits_of 8 x ++ bitstream l1 = bits_of 8 y ++ bitstream l2) in E.
    apply app_inj_1 in E as [E1 E2]; [|by rewrite !length_bits_of].
    f_equal; [|by apply IH].
    rewrite <- (wrap_small 8 x), <- (wrap_small 8 y) by done.
    change 8 with (Z.of_nat 8) at 1 2. rewrite <- !Z_of_bits_of. by rewrite E1.
Qed.

Lemma pad_lt k : (pad k < 8)%nat.
Proof. unfold pad. apply Nat.mod_upper_bound. lia. Qed.

Lemma pad_mod k : ((k + pad k) mod 8 = 0)%nat.
Proof.
  unfold pad. pose proof (Nat.mod_upper_bound k 8 ltac:(lia)) as Hr.
  pose proof (Nat.div_mod_eq k 8) as Ek.
  destruct (decide (k mod 8 = 0)%nat) as [E|E].
  - rewrite E. change ((8 - 0) mod 8)%nat with 0%nat. by rewrite Nat.add_0_r.
  - rewrite (Nat.mod_small (8 - k mod 8)) by lia.
    replace (k + (8 - k mod 8))%nat with ((k / 8 + 1) * 8)%nat by lia.
    apply Nat.Div0.mod_mul.
Qed.

Lemma pad_unique k f : (f < 8)%nat -> ((k + f) mod 8 = 0)%nat -> pad k = f.
Proof.
  intros Hf H. rewrite <- Nat.Div0.add_mod_idemp_l in H. unfold pad.
  pose proof (Nat.mod_upper_bound k 8 ltac:(lia)) as Hr.
  revert H Hr. generalize (k mod 8)%nat. intros r H Hr.
  do 8 (destruct r as [|r];
    [do 8 (destruct f as [|f]; [first [reflexivity|discriminate]|]); lia|]). lia.
Qed.

Lemma pad_aligned k n : (((k + pad k) + 8 * n) mod 8 = 0)%nat.
Proof. rewrite (Nat.mul_comm 8), Nat.Div0.mod_add. apply pad_mod. Qed.
