(* ===== verification/ByteBuffer.v ===== *)
(** * ByteBuffer: the packet buffer (src/src/server/shared/Packets/ByteBuffer.h)

    The buffer every packet of the game and auth protocols is built in and
    parsed from: a byte vector with a read and a write position and the
    position inside a partly used byte for the bit-packed fields.  Methods are
    programs of the state and exception monad of the prelude: the buffer as the
    method leaves it survives the exception, as the code that catches
    [ByteBufferException] sees it. *)

From S2P Require Import Prelude.
From S2P Require Import Float32.

(** ** State *)

(* [shared/Packets/ByteBuffer.h:839-844] ByteBuffer *)
Record ByteBuffer := mkByteBuffer {
  _storage : list Z;      (* std::vector<uint8> *)
  _rpos : Z;              (* size_t *)
  _wpos : Z;              (* size_t *)
  _bitpos : Z             (* uint8 *)
}.

(** [OutOfBounds] is an access outside [_storage], undefined in C++;
    [AssertFailed] is a failed [ASSERT], which stops the server. *)
(* [shared/Packets/ByteBuffer.h:28-47] ByteBufferException *)
Inductive bb_exn :=
| ByteBufferException (add : bool) (pos esize size : Z)
| AssertFailed
| OutOfBounds.

Abbreviation BB := (M ByteBuffer bb_exn).

(* [shared/Packets/ByteBuffer.h:89-92] ByteBuffer::ByteBuffer *)
Definition new_ByteBuffer : ByteBuffer := mkByteBuffer [] 0 0 8.

(* [shared/Packets/ByteBuffer.h:95-102] ByteBuffer::ByteBuffer *)
Definition new_ByteBuffer_res (res : Z) (init : bool) : ByteBuffer :=
  mkByteBuffer (if init then replicate (Z.to_nat res) 0 else []) 0 0 8.

(* [shared/Packets/ByteBuffer.h:110-115] ByteBuffer::clear *)
Definition clear : BB unit := modify (fun _ => mkByteBuffer [] 0 0 8).

(* [shared/Packets/ByteBuffer.h:688-688] ByteBuffer::size *)
Definition size (b : ByteBuffer) : Z := zlen (_storage b).

(* [shared/Packets/ByteBuffer.h:689-689] ByteBuffer::empty *)
Definition empty (b : ByteBuffer) : bool := size b =? 0.

Definition set_storage (l : list Z) : BB unit := modify (fun b => {| b with _storage := l |}).
Definition set_bitpos (p : Z) : BB unit := modify (fun b => {| b with _bitpos := p |}).

(* [shared/Packets/ByteBuffer.h:573-577] ByteBuffer::rpos *)
Definition set_rpos (p : Z) : BB unit := modify (fun b => {| b with _rpos := p |}).

(* [shared/Packets/ByteBuffer.h:588-592] ByteBuffer::wpos *)
Definition set_wpos (p : Z) : BB unit := modify (fun b => {| b with _wpos := p |}).

(* [shared/Packets/ByteBuffer.h:581-584] ByteBuffer::rfinish *)
Definition rfinish : BB unit := modify (fun b => {| b with _rpos := _wpos b |}).

(* [shared/Packets/ByteBuffer.h:124-127] ByteBuffer::ResetBits *)
Definition ResetBits : BB unit := set_bitpos 8.

(* [shared/Packets/ByteBuffer.h:691-696] ByteBuffer::resize *)
Definition resize (newsize : Z) : BB unit :=
  modify (fun b => {| b with
    _storage := take (Z.to_nat newsize) (_storage b)
                ++ replicate (Z.to_nat newsize - length (_storage b)) 0;
    _rpos := 0; _wpos := newsize |}).

(** ** Raw access to the vector *)

Definition storage_at (i : Z) : BB Z := fun b =>
  match znth (_storage b) i with
  | Some x => (Ok x, b)
  | None => (Throw OutOfBounds, b)
  end.

(** [_storage[i] |= x]: the result is truncated to [uint8]. *)
Definition storage_or (i x : Z) : BB unit :=
  old ← storage_at i;
  modify (fun b => {| b with _storage := zset (_storage b) i (u8 (Z.lor old x)) |}).

(** [memcpy(&_storage[pos], src, cnt)]. *)
(* [shared/Packets/ByteBuffer.h:769-774] ByteBuffer::put *)
Definition memcpy_to (pos : Z) (src : list Z) : BB unit := fun b =>
  if pos + zlen src <=? size b
  then (Ok tt, {| b with _storage :=
          take (Z.to_nat pos) (_storage b) ++ src
          ++ drop (Z.to_nat pos + length src) (_storage b) |})
  else (Throw OutOfBounds, b).

(** ** Appending *)

(* [shared/Packets/ByteBuffer.h:714-727] ByteBuffer::append *)
Definition append (src : list Z) : BB unit :=
  ResetBits ;;
  let cnt := zlen src in
  if cnt =? 0 then mret tt else
  b ← get;
  if negb (size b <? 10000000) then throw AssertFailed else
  (if size b <? u64 (_wpos b + cnt)
   then set_storage (_storage b
          ++ replicate (Z.to_nat (u64 (_wpos b + cnt)) - length (_storage b)) 0)
   else mret tt) ;;
  memcpy_to (_wpos b) src ;;
  set_wpos (_wpos b + cnt).

(** The [n] bytes of an integer, least significant first: [EndianConvert] is
    the identity on a little-endian host and swaps on a big-endian one. *)
(* [shared/Packets/ByteBuffer.h:117-122] ByteBuffer::append<T> *)
Fixpoint le_bytes (n : nat) (v : Z) : list Z :=
  match n with
  | O => []
  | S n' => u8 v :: le_bytes n' (Z.shiftr v 8)
  end.

(* [shared/Packets/ByteBuffer.h:616-624] ByteBuffer::read<T>(size_t) *)
Fixpoint le_value (l : list Z) : Z :=
  match l with
  | [] => 0
  | x :: l' => Z.lor x (Z.shiftl (le_value l') 8)
  end.

(* [shared/Packets/ByteBuffer.h:117-122] ByteBuffer::append<T> *)
Definition append_T (n : nat) (v : Z) : BB unit := append (le_bytes n v).

(* [shared/Packets/ByteBuffer.h:381-384] ByteBuffer::operator<<(uint8) *)
Definition put_uint8 (v : Z) : BB unit := append_T 1 v.
(* [shared/Packets/ByteBuffer.h:386-389] ByteBuffer::operator<<(uint16) *)
Definition put_uint16 (v : Z) : BB unit := append_T 2 v.
(* [shared/Packets/ByteBuffer.h:391-394] ByteBuffer::operator<<(uint32) *)
Definition put_uint32 (v : Z) : BB unit := append_T 4 v.
(* [shared/Packets/ByteBuffer.h:396-399] ByteBuffer::operator<<(uint64) *)
Definition put_uint64 (v : Z) : BB unit := append_T 8 v.
(* [shared/Packets/ByteBuffer.h:402-405] ByteBuffer::operator<<(int8) *)
Definition put_int8 (v : Z) : BB unit := append_T 1 v.
(* [shared/Packets/ByteBuffer.h:407-410] ByteBuffer::operator<<(int16) *)
Definition put_int16 (v : Z) : BB unit := append_T 2 v.
(* [shared/Packets/ByteBuffer.h:412-415] ByteBuffer::operator<<(int32) *)
Definition put_int32 (v : Z) : BB unit := append_T 4 v.
(* [shared/Packets/ByteBuffer.h:417-420] ByteBuffer::operator<<(int64) *)
Definition put_int64 (v : Z) : BB unit := append_T 8 v.

(* [shared/Packets/ByteBuffer.h:433-436] ByteBuffer::operator<<(ByteBuffer) *)
(* [shared/Packets/ByteBuffer.h:729-732] ByteBuffer::append(ByteBuffer) *)
Definition put_buffer (value : ByteBuffer) : BB unit :=
  if size value <? _wpos value then throw OutOfBounds else append (take (Z.to_nat (_wpos value)) (_storage value)).

(** A [std::string] is the list of its bytes, NUL allowed. *)
(* [shared/Packets/ByteBuffer.h:438-441] ByteBuffer::operator<<(std::string) *)
Definition put_string (value : list Z) : BB unit := append value ;; append_T 1 0.

(* [shared/Packets/ByteBuffer.h:187-193] ByteBuffer::WriteString *)
Definition WriteString (str : list Z) : BB unit :=
  if zlen str =? 0 then mret tt else append str.

(* [shared/Packets/ByteBuffer.h:704-707] ByteBuffer::append(std::string) *)
Definition append_string (str : list Z) : BB unit := append (str ++ [0]).

(* [shared/Packets/ByteBuffer.h:769-774] ByteBuffer::put *)
Definition put (pos : Z) (src : list Z) : BB unit :=
  b ← get;
  if size b <? u64 (pos + zlen src)
  then throw (ByteBufferException true pos (zlen src) (size b))
  else memcpy_to pos src.

(* [shared/Packets/ByteBuffer.h:375-379] ByteBuffer::put<T> *)
Definition put_T (n : nat) (pos v : Z) : BB unit := put pos (le_bytes n v).

(* [shared/Packets/ByteBuffer.h:557-569] ByteBuffer::operator[] *)
Definition at_ (pos : Z) : BB Z :=
  b ← get;
  if size b <=? pos
  then throw (ByteBufferException false pos 1 (size b))
  else storage_at pos.

(** ** Bit-packed fields *)

(* [shared/Packets/ByteBuffer.h:129-142] ByteBuffer::WriteBit *)
Definition WriteBit (bit : bool) : BB unit :=
  b ← get;
  (if _bitpos b =? 8 then put_uint8 0 ;; set_bitpos 0 else mret tt) ;;
  b ← get;
  set_bitpos (_bitpos b + 1) ;;
  b ← get;
  if bit then storage_or (_wpos b - 1) (Z.shiftl 1 (8 - _bitpos b)) else mret tt.

(* [shared/Packets/ByteBuffer.h:597-605] ByteBuffer::read_skip *)
Definition read_skip (skip : Z) : BB unit :=
  ResetBits ;;
  b ← get;
  if size b <? u64 (_rpos b + skip)
  then throw (ByteBufferException false (_rpos b) skip (size b))
  else set_rpos (u64 (_rpos b + skip)).

(* [shared/Packets/ByteBuffer.h:144-154] ByteBuffer::ReadBit *)
Definition ReadBit : BB bool :=
  b ← get;
  (if _bitpos b =? 8 then read_skip 1 ;; set_bitpos 0 else mret tt) ;;
  b ← get;
  set_bitpos (_bitpos b + 1) ;;
  b ← get;
  x ← storage_at (_rpos b - 1);
  mret (negb (Z.land (Z.shiftr x (8 - _bitpos b)) 1 =? 0)).

(** One turn of the loop takes the bits left in the current byte, or the bits
    left to write if they are fewer, so [bits] turns are always enough. *)
(* [shared/Packets/ByteBuffer.h:229-255] ByteBuffer::WriteBits *)
Fixpoint WriteBits_loop (fuel : nat) (value bits : Z) : BB unit :=
  match fuel with
  | O => mret tt
  | S fuel' =>
    if negb (0 <? bits) then mret tt else
    b ← get;
    (if _bitpos b =? 8 then put_uint8 0 ;; set_bitpos 0 else mret tt) ;;
    b ← get;
    let writtenThisCycle :=
      let w := 8 - _bitpos b in if bits <? w then bits else w in
    let bits' := bits - writtenThisCycle in
    set_bitpos (_bitpos b + writtenThisCycle) ;;
    storage_or (_wpos b - 1)
      (Z.shiftl (Z.land (Z.shiftr value bits') (Z.shiftl 1 writtenThisCycle - 1))
                (8 - (_bitpos b + writtenThisCycle))) ;;
    WriteBits_loop fuel' value bits'
  end.

(* [shared/Packets/ByteBuffer.h:229-255] ByteBuffer::WriteBits *)
Definition WriteBits (value bits : Z) : BB unit :=
  WriteBits_loop (Z.to_nat bits) value bits.

(* [shared/Packets/ByteBuffer.h:257-287] ByteBuffer::WriteUnaligned *)
Definition WriteUnaligned (BITS value : Z) : BB unit :=
  if negb (BITS <=? 32) then throw AssertFailed
  else WriteBits_loop (Z.to_nat BITS) value BITS.

(* [shared/Packets/ByteBuffer.h:201-227] ByteBuffer::WriteBitsAt *)
Fixpoint WriteBitsAt_loop (fuel : nat) (value bits pos bitpos : Z) : BB unit :=
  match fuel with
  | O => mret tt
  | S fuel' =>
    if negb (0 <? bits) then mret tt else
    let '(pos, bitpos) := if bitpos =? 8 then (pos + 1, 0) else (pos, bitpos) in
    let writtenThisCycle :=
      let w := 8 - bitpos in if bits <? w then bits else w in
    let bits := bits - writtenThisCycle in
    let bitpos := bitpos + writtenThisCycle in
    storage_or (pos - 1)
      (Z.shiftl (Z.land (Z.shiftr value bits) (Z.shiftl 1 writtenThisCycle - 1))
                (8 - bitpos)) ;;
    WriteBitsAt_loop fuel' value bits pos bitpos
  end.

(* [shared/Packets/ByteBuffer.h:201-227] ByteBuffer::WriteBitsAt *)
Definition WriteBitsAt (value bits pos bitpos : Z) : BB unit :=
  WriteBitsAt_loop (Z.to_nat bits) value bits pos bitpos.

(* [shared/Packets/ByteBuffer.h:298-315] ByteBuffer::ReadBits *)
Fixpoint ReadBits_loop (fuel : nat) (value bits : Z) : BB Z :=
  match fuel with
  | O => mret value
  | S fuel' =>
    if negb (0 <? bits) then mret value else
    b ← get;
    (if _bitpos b =? 8 then read_skip 1 ;; set_bitpos 0 else mret tt) ;;
    b ← get;
    let readThisCycle :=
      let w := 8 - _bitpos b in if bits <? w then bits else w in
    let bits' := bits - readThisCycle in
    let bitpos' := _bitpos b + readThisCycle in
    set_bitpos bitpos' ;;
    x ← storage_at (_rpos b - 1);
    ReadBits_loop fuel'
      (Z.lor value (u32 (Z.shiftl
         (Z.land (Z.shiftr x (8 - bitpos')) (Z.shiftl 1 readThisCycle - 1)) bits')))
      bits'
  end.

(* [shared/Packets/ByteBuffer.h:289-316] ByteBuffer::ReadBits *)
Definition ReadBits (bits : Z) : BB Z :=
  if (bits <? 0) || (32 <? bits)
  then b ← get; throw (ByteBufferException false (_rpos b) (u64 bits) 32)
  else ReadBits_loop (Z.to_nat bits) 0 bits.

(* [shared/Packets/ByteBuffer.h:318-343] ByteBuffer::ReadUnaligned *)
Definition ReadUnaligned (BITS : Z) : BB Z :=
  if negb (BITS <=? 32) then throw AssertFailed
  else ReadBits_loop (Z.to_nat BITS) 0 BITS.

(** ** Reading *)

(* [shared/Packets/ByteBuffer.h:616-624] ByteBuffer::read<T>(size_t) *)
Definition read_at (n : nat) (pos : Z) : BB Z :=
  b ← get;
  if size b <? u64 (pos + Z.of_nat n)
  then throw (ByteBufferException false pos (Z.of_nat n) (size b))
  else if pos + Z.of_nat n <=? size b
  then mret (le_value (take n (drop (Z.to_nat pos) (_storage b))))
  else throw OutOfBounds.

(* [shared/Packets/ByteBuffer.h:607-613] ByteBuffer::read<T> *)
Definition read_T (n : nat) : BB Z :=
  ResetBits ;;
  b ← get;
  r ← read_at n (_rpos b);
  set_rpos (_rpos b + Z.of_nat n) ;;
  mret r.

(* [shared/Packets/ByteBuffer.h:483-487] ByteBuffer::operator>>(uint8) *)
Definition get_uint8 : BB Z := read_T 1.
(* [shared/Packets/ByteBuffer.h:489-493] ByteBuffer::operator>>(uint16) *)
Definition get_uint16 : BB Z := read_T 2.
(* [shared/Packets/ByteBuffer.h:495-499] ByteBuffer::operator>>(uint32) *)
Definition get_uint32 : BB Z := read_T 4.
(* [shared/Packets/ByteBuffer.h:501-505] ByteBuffer::operator>>(uint64) *)
Definition get_uint64 : BB Z := read_T 8.
(* [shared/Packets/ByteBuffer.h:508-512] ByteBuffer::operator>>(int8) *)
Definition get_int8 : BB Z := x ← read_T 1; mret (i8 x).
(* [shared/Packets/ByteBuffer.h:514-518] ByteBuffer::operator>>(int16) *)
Definition get_int16 : BB Z := x ← read_T 2; mret (i16 x).
(* [shared/Packets/ByteBuffer.h:520-524] ByteBuffer::operator>>(int32) *)
Definition get_int32 : BB Z := x ← read_T 4; mret (i32 x).
(* [shared/Packets/ByteBuffer.h:526-530] ByteBuffer::operator>>(int64) *)
Definition get_int64 : BB Z := x ← read_T 8; mret (i64 x).
(* [shared/Packets/ByteBuffer.h:464-468] ByteBuffer::operator>>(bool) *)
Definition get_bool : BB bool := x ← read_T 1; mret (negb (x =? 0)).

(* [shared/Packets/ByteBuffer.h:626-641] ByteBuffer::read(uint8 ptr) *)
Definition read_bytes (len : Z) : BB (list Z) :=
  b ← get;
  if size b <? u64 (_rpos b + len)
  then throw (ByteBufferException false (_rpos b) len (size b))
  else
    ResetBits ;;
    if len =? 0 then mret [] else
    if _rpos b + len <=? size b then
      set_rpos (_rpos b + len) ;;
      mret (take (Z.to_nat len) (drop (Z.to_nat (_rpos b)) (_storage b)))
    else throw OutOfBounds.

(** Building a [std::string] from a C buffer stops at the first NUL. *)
(* [shared/Packets/ByteBuffer.h:175-185] ByteBuffer::ReadString *)
Fixpoint until_nul (l : list Z) : list Z :=
  match l with
  | [] => []
  | x :: l' => if x =? 0 then [] else x :: until_nul l'
  end.

(* [shared/Packets/ByteBuffer.h:175-185] ByteBuffer::ReadString *)
Definition ReadString (length : Z) : BB (list Z) :=
  if length =? 0 then mret [] else
  buffer ← read_bytes length; mret (until_nul buffer).

(* [shared/Packets/ByteBuffer.h:547-553] ByteBuffer::operator>>(std::string) *)
Fixpoint get_string_loop (fuel : nat) (value : list Z) : BB (list Z) :=
  match fuel with
  | O => mret value
  | S fuel' =>
    b ← get;
    if negb (_rpos b <? size b) then mret value else
    c ← read_T 1;
    if c =? 0 then mret value else get_string_loop fuel' (value ++ [c])
  end.

(** Each turn reads a byte, so the bytes left bound the turns. *)
(* [shared/Packets/ByteBuffer.h:544-555] ByteBuffer::operator>>(std::string) *)
Definition get_string : BB (list Z) :=
  b ← get; get_string_loop (Z.to_nat (size b - _rpos b)) [].

(** ** Masked GUID bytes *)

(* [shared/Packets/ByteBuffer.h:345-349] ByteBuffer::ReadByteMask *)
Definition ReadByteMask : BB Z := b ← ReadBit; mret (if b : bool then 1 else 0).

(* [shared/Packets/ByteBuffer.h:351-360] ByteBuffer::ReadByteSeq *)
Definition ReadByteSeq (b : Z) : BB Z :=
  ResetBits ;;
  if negb (b =? 0) then
    if negb (b =? 1) then throw AssertFailed
    else x ← read_T 1; mret (Z.lxor b x)
  else mret b.

(* [shared/Packets/ByteBuffer.h:362-365] ByteBuffer::WriteByteMask *)
Definition WriteByteMask (b : Z) : BB unit := WriteBit (negb (b =? 0)).

(* [shared/Packets/ByteBuffer.h:367-373] ByteBuffer::WriteByteSeq *)
Definition WriteByteSeq (b : Z) : BB unit :=
  if negb (b =? 0) then append_T 1 (Z.lxor b 1) else mret tt.

(** ** Packed GUIDs *)

(** [packGUID[0]] is [mask], [packGUID[1..size-1]] the bytes so far; a 64-bit
    value is zero after eight shifts. *)
(* [shared/Packets/ByteBuffer.h:749-759] ByteBuffer::appendPackGUID *)
Fixpoint packGUID_loop (fuel : nat) (guid i mask : Z) (bytes : list Z) : Z * list Z :=
  match fuel with
  | O => (mask, bytes)
  | S fuel' =>
    if guid =? 0 then (mask, bytes) else
    let '(mask, bytes) :=
      if negb (Z.land guid 255 =? 0)
      then (u8 (Z.lor mask (u8 (Z.shiftl 1 i))), bytes ++ [u8 (Z.land guid 255)])
      else (mask, bytes) in
    packGUID_loop fuel' (Z.shiftr guid 8) (u8 (i + 1)) mask bytes
  end.

(* [shared/Packets/ByteBuffer.h:744-761] ByteBuffer::appendPackGUID *)
Definition appendPackGUID (guid : Z) : BB unit :=
  let '(mask, bytes) := packGUID_loop 8 guid 0 0 [] in
  append (mask :: bytes).

(* [shared/Packets/ByteBuffer.h:672-683] ByteBuffer::readPackGUID *)
Fixpoint readPackGUID_loop (todo : nat) (i guidmark guid : Z) : BB Z :=
  match todo with
  | O => mret guid
  | S todo' =>
    if has_flag guidmark (u8 (Z.shiftl 1 i)) then
      b ← get;
      if size b <? u64 (_rpos b + 1)
      then throw (ByteBufferException false (_rpos b) 1 (size b))
      else
        bit ← get_uint8;
        readPackGUID_loop todo' (i + 1) guidmark
          (Z.lor guid (u64 (Z.shiftl bit (i * 8))))
    else readPackGUID_loop todo' (i + 1) guidmark guid
  end.

(* [shared/Packets/ByteBuffer.h:661-684] ByteBuffer::readPackGUID *)
Definition readPackGUID : BB Z :=
  b ← get;
  if size b <? u64 (_rpos b + 1)
  then throw (ByteBufferException false (_rpos b) 1 (size b))
  else
    ResetBits ;;
    guidmark ← get_uint8;
    readPackGUID_loop 8 0 guidmark 0.

(** ** Packed coordinates *)

(* [shared/Packets/ByteBuffer.h:735-742] ByteBuffer::appendPackXYZ *)
Definition appendPackXYZ (x y z : float32) : BB unit :=
  let q f := f_to_i32 (fdiv f f_quarter) in
  let packed := u32 (Z.land (q x) 2047) in
  let packed := Z.lor packed (u32 (Z.shiftl (Z.land (q y) 2047) 11)) in
  let packed := Z.lor packed (u32 (Z.shiftl (Z.land (q z) 1023) 22)) in
  put_uint32 packed.

(** ** Packed dates

    [localtime] and [mktime] are the C library's; [now] is [time(NULL)]. *)
Record tm := mk_tm {
  tm_sec : Z; tm_min : Z; tm_hour : Z; tm_mday : Z; tm_mon : Z;
  tm_year : Z; tm_wday : Z; tm_yday : Z; tm_isdst : Z
}.

Section PackedTime.
Context (localtime : Z -> tm) (mktime : tm -> Z).

(* [shared/Packets/ByteBuffer.h:763-767] ByteBuffer::AppendPackedTime *)
Definition AppendPackedTime (time : Z) : BB unit :=
  let lt := localtime time in
  put_uint32 (Z.lor (Z.lor (Z.lor (Z.lor (Z.lor
    (Z.shiftl (tm_year lt - 100) 24)
    (Z.shiftl (tm_mon lt) 20))
    (Z.shiftl (tm_mday lt - 1) 14))
    (Z.shiftl (tm_wday lt) 11))
    (Z.shiftl (tm_hour lt) 6))
    (tm_min lt)).

(* [shared/Packets/ByteBuffer.h:156-173] ByteBuffer::ReadPackedTime *)
Definition ReadPackedTime (now : Z) : BB Z :=
  packedDate ← read_T 4;
  let lt := localtime now in
  let lt := {| lt with
    tm_sec := 0;
    tm_min := Z.land packedDate 63;
    tm_hour := Z.land (Z.shiftr packedDate 6) 31;
    tm_wday := 0;
    tm_mday := Z.land (Z.shiftr packedDate 14) 63 + 1;
    tm_mon := Z.land (Z.shiftr packedDate 20) 15;
    tm_year := Z.land (Z.shiftr packedDate 24) 31 + 100 |} in
  mret (u32 (mktime lt)).
End PackedTime.

(** ** Containers, for any element reader *)

(* [shared/Packets/ByteBuffer.h:857-870] operator>>(std::vector) *)
Fixpoint read_n {A} (rd : BB A) (n : nat) (v : list A) : BB (list A) :=
  match n with
  | O => mret v
  | S n' => t ← rd; read_n rd n' (v ++ [t])
  end.

(* [shared/Packets/ByteBuffer.h:857-870] operator>>(std::vector) *)
Definition get_vector {A} (rd : BB A) : BB (list A) :=
  vsize ← get_uint32; read_n rd (Z.to_nat vsize) [].

(** [std::map::insert] keeps the first value of a repeated key. *)
(* [shared/Packets/ByteBuffer.h:909-923] operator>>(std::map) *)
Definition get_map {V} (rdk : BB Z) (rdv : BB V) : BB (gmap Z V) :=
  msize ← get_uint32;
  kvs ← read_n (k ← rdk; v ← rdv; mret (k, v)) (Z.to_nat msize) [];
  mret (list_to_map kvs).
