(* ===== verification/ByteBufferSpec.v ===== *)
(** * ByteBuffer: what a packet holds, and reading back what was written *)

From S2P Require Import Prelude.
From S2P Require Import Bits.
From S2P Require Import ByteBuffer.

Abbreviation bytes l := (Forall (fun x => in_u 8 x) l).

(** ** The writing side

    [wrep b bs]: the buffer, written from empty, holds exactly the bits [bs]
    and zero bits up to the next byte boundary. *)
Record wrep (b : ByteBuffer) (bs : list bool) : Prop := {
  wrep_bits : bitstream (_storage b) = bs ++ replicate (pad (length bs)) false;
  wrep_wpos : _wpos b = size b;
  wrep_bitpos : _bitpos b = 8 - Z.of_nat (pad (length bs));
  wrep_bytes : bytes (_storage b)
}.

(** ** The reading side

    [rrep b seen rest]: [seen] has been read and [rest] is still to come. *)
Record rrep (b : ByteBuffer) (seen rest : list bool) : Prop := {
  rrep_bits : bitstream (_storage b) = seen ++ rest;
  rrep_rpos : 8 * _rpos b = Z.of_nat (length seen + pad (length seen));
  rrep_bitpos : _bitpos b = 8 - Z.of_nat (pad (length seen));
  rrep_bytes : bytes (_storage b);
  rrep_size : size b < 2 ^ 60
}.

Ltac run := cbv [mbind M_bind mret M_ret get modify throw set_bitpos set_storage
                 set_rpos set_wpos ResetBits] in *; cbn beta iota in *.

Lemma wrep_length b bs : wrep b bs -> 8 * size b = Z.of_nat (length bs + pad (length bs)).
Proof.
  intros H. pose proof (f_equal length (wrep_bits _ _ H)) as E.
  rewrite length_bitstream, length_app, length_replicate in E. unfold size, zlen. lia.
Qed.

Lemma wrep_new : wrep new_ByteBuffer [].
Proof. split; [done|done|done|constructor]. Qed.

(** ** Appending bytes *)

Definition appended (b : ByteBuffer) (src : list Z) : ByteBuffer :=
  mkByteBuffer (_storage b ++ src) (_rpos b) (_wpos b + zlen src) 8.

Lemma append_run b src :
  _wpos b = size b -> size b < 10000000 -> zlen src < 2 ^ 32 ->
  append src b = (Ok tt, appended b src).
Proof.
  intros Hw Hs Hl. pose proof (zlen_nonneg src). pose proof (zlen_nonneg (_storage b)).
  unfold append, appended. run. cbn.
  destruct (Z.eqb_spec (zlen src) 0) as [E|E].
  { assert (src = []) as -> by (destruct src; [done|cbn in E; unfold zlen in E; cbn in E; lia]).
    rewrite app_nil_r, E, Z.add_0_r. done. }
  change (size {| _storage := _storage b; _rpos := _rpos b; _wpos := _wpos b; _bitpos := 8 |})
    with (size b).
  destruct (Z.ltb_spec (size b) 10000000); [|lia]. cbn.
  rewrite wrap_small by (unfold size in *; lia).
  destruct (Z.ltb_spec (size b) (_wpos b + zlen src)); [|lia]. cbn.
  rewrite Hw. unfold memcpy_to, size. cbn.
  unfold size, zlen in *. rewrite length_app, length_replicate, Nat2Z.id.
  destruct (Z.leb_spec (Z.of_nat (length (_storage b)) + Z.of_nat (length src))
    (Z.of_nat (length (_storage b) + (Z.to_nat (Z.of_nat (length (_storage b)) + Z.of_nat (length src))
       - length (_storage b))))); [|lia].
  cbn. do 2 f_equal.
  rewrite take_app_length, drop_ge by (rewrite length_app, length_replicate; lia).
  by rewrite app_nil_r.
Qed.

Lemma length_wrep_appended (bs : list bool) (src : list Z) :
  (((length bs + pad (length bs)) + 8 * length src) mod 8 = 0)%nat ->
  pad (length (bs ++ replicate (pad (length bs)) false ++ bitstream src)) = 0%nat.
Proof.
  intros H. rewrite !length_app, length_replicate, length_bitstream, Nat.add_assoc.
  unfold pad at 1. by rewrite H.
Qed.

Lemma append_wrep b bs src :
  wrep b bs -> bytes src -> size b < 10000000 -> zlen src < 2 ^ 32 ->
  append src b = (Ok tt, appended b src) /\
  wrep (appended b src) (bs ++ replicate (pad (length bs)) false ++ bitstream src).
Proof.
  intros H Hsrc Hs Hl. split; [by apply append_run; [apply H|..]|].
  pose proof (length_wrep_appended bs src (pad_aligned _ _)) as Hp.
  split; unfold appended; cbn.
  - rewrite bitstream_app, (wrep_bits _ _ H), Hp. cbn. by rewrite app_nil_r, <- app_assoc.
  - rewrite (wrep_wpos _ _ H). unfold size, zlen. cbn. rewrite length_app. lia.
  - by rewrite Hp.
  - apply Forall_app. split; [apply H|done].
Qed.

Lemma bytes_le_bytes n v : bytes (le_bytes n v).
Proof.
  revert v. induction n as [|n IH]; intros v; cbn; constructor; [|apply IH].
  apply wrap_range. lia.
Qed.

Lemma length_le_bytes n v : length (le_bytes n v) = n.
Proof. revert v. induction n; intros; cbn; congruence. Qed.

Lemma le_value_bytes n v : le_value (le_bytes n v) = wrap (8 * Z.of_nat n) v.
Proof.
  revert v. unfold wrap. induction n as [|n IH]; intros v; [cbn; by rewrite Z.mod_1_r|].
  cbn [le_bytes le_value]. rewrite IH, Z.lor_comm.
  rewrite shiftl_lor_add; [|lia|apply wrap_range; lia]. unfold wrap.
  replace (8 * Z.of_nat (S n)) with (8 + 8 * Z.of_nat n) by lia.
  rewrite Z.pow_add_r, Z.rem_mul_r, Z.shiftr_div_pow2 by lia. ring.
Qed.

(** ** Appending bits

    [wfree b bs f]: [f] zero bits of the last byte are still free; a full byte
    is free just after the buffer was extended. *)
Record wfree (b : ByteBuffer) (bs : list bool) (f : nat) : Prop := {
  wfree_bits : bitstream (_storage b) = bs ++ replicate f false;
  wfree_wpos : _wpos b = size b;
  wfree_bitpos : _bitpos b = 8 - Z.of_nat f;
  wfree_bytes : bytes (_storage b);
  wfree_le : (f <= 8)%nat
}.

Lemma wfree_wrep b bs f : (f < 8)%nat -> wfree b bs f -> wrep b bs.
Proof.
  intros Hf H. assert (pad (length bs) = f) as Hp.
  { apply pad_unique; [done|]. pose proof (f_equal length (wfree_bits _ _ _ H)) as E.
    rewrite length_bitstream, length_app, length_replicate in E. rewrite <- E.
    rewrite Nat.mul_comm. apply Nat.Div0.mod_mul. }
  split; rewrite ?Hp; apply H.
Qed.

Lemma wrep_wfree b bs : wrep b bs -> wfree b bs (pad (length bs)).
Proof.
  intros H. split; try apply H. pose proof (pad_lt (length bs)). lia.
Qed.

(** The last, partly used byte of the buffer. *)
Lemma wfree_last b bs f :
  wfree b bs f -> (0 < f)%nat ->
  exists l x, _storage b = l ++ [x] /\ bytes l /\ in_u 8 x /\
    bs = bitstream l ++ take (8 - f) (bits_of 8 x) /\
    drop (8 - f) (bits_of 8 x) = replicate f false.
Proof.
  intros H Hp. pose proof (wfree_le _ _ _ H) as Hf.
  pose proof (wfree_bits _ _ _ H) as E. pose proof (wfree_bytes _ _ _ H) as Hb.
  destruct (list_snoc_inv (_storage b)) as [Es|(l & x & Es)].
  { pose proof (f_equal length E) as El. rewrite Es in El.
    rewrite length_bitstream, length_app, length_replicate in El. cbn in El. lia. }
  exists l, x. rewrite Es in *. apply Forall_app in Hb as [Hl Hx].
  rewrite Forall_singleton in Hx. do 3 (split; [done|]).
  rewrite bitstream_app in E. change (bitstream [x]) with (bits_of 8 x ++ []) in E.
  rewrite app_nil_r in E.
  rewrite <- (take_drop (8 - f) (bits_of 8 x)), app_assoc in E.
  apply app_inj_2 in E as [E1 E2]; [done|].
  rewrite length_drop, length_bits_of, length_replicate. lia.
Qed.

Lemma wfree_or_chunk b bs f c k :
  wfree b bs f -> (0 < k <= f)%nat ->
  exists b'',
    storage_or (_wpos b - 1)
      (Z.shiftl (Z.land c (Z.shiftl 1 (Z.of_nat k) - 1))
                (8 - (_bitpos b + Z.of_nat k)))
      {| b with _bitpos := _bitpos b + Z.of_nat k |} = (Ok tt, b'')
    /\ wfree b'' (bs ++ bits_of k c) (f - k) /\ _rpos b'' = _rpos b
    /\ size b'' = size b.
Proof.
  intros H [Hk0 Hk].
  destruct (wfree_last _ _ _ H ltac:(lia)) as (l & x & Es & Hl & Hx & Ebs & Ez).
  pose proof (wfree_le _ _ _ H) as Hf. pose proof (wfree_bitpos _ _ _ H) as Hbp.
  assert (Hw : _wpos b - 1 = Z.of_nat (length l)).
  { rewrite (wfree_wpos _ _ _ H). unfold size, zlen. rewrite Es, length_app. cbn. lia. }
  set (x' := u8 (Z.lor x (Z.shiftl (Z.land c (Z.shiftl 1 (Z.of_nat k) - 1))
                           (8 - (Z.of_nat (8 - f) + Z.of_nat k))))).
  exists {| b with _storage := l ++ [x']; _bitpos := _bitpos b + Z.of_nat k |}.
  split_and!; [| |done|unfold size, zlen; cbn; by rewrite Es, !length_app].
  - unfold storage_or, storage_at, znth, zset. run. cbn [_storage]. rewrite Hw, Es.
    destruct (Z.ltb_spec (Z.of_nat (length l)) 0); [lia|].
    rewrite Nat2Z.id, list_lookup_middle by done. cbn [_storage _rpos _wpos _bitpos].
    replace (length l) with (length l + 0)%nat by lia. rewrite insert_app_r.
    subst x'. replace (8 - (_bitpos b + Z.of_nat k))
      with (8 - (Z.of_nat (8 - f) + Z.of_nat k)) by lia. done.
  - split; cbn [_storage _rpos _wpos _bitpos].
    + rewrite bitstream_app. unfold bitstream at 2. cbn [mbind list_bind app].
      subst x'. rewrite app_nil_r, bits_of_or_chunk by (first [lia|rewrite Ez; f_equal; lia]).
      rewrite Ebs at 1. rewrite <- !app_assoc. do 4 f_equal. lia.
    + rewrite (wfree_wpos _ _ _ H). unfold size, zlen. cbn. by rewrite Es, !length_app.
    + rewrite Hbp. lia.
    + apply Forall_app. split; [done|]. constructor; [|done]. apply wrap_range. lia.
    + lia.
Qed.

(** The common start of every bit writer: a fresh byte if the last one is full. *)
Definition open_byte : BB unit :=
  b ← get; if _bitpos b =? 8 then put_uint8 0 ;; set_bitpos 0 else mret tt.

Lemma open_byte_wfree b bs :
  wrep b bs -> size b < 10000000 ->
  exists b' f, open_byte b = (Ok tt, b') /\ wfree b' bs f /\ (0 < f)%nat
    /\ _rpos b' = _rpos b /\ size b' * 8 = Z.of_nat (length bs + f).
Proof.
  intros H Hs. unfold open_byte. run. rewrite (wrep_bitpos _ _ H).
  pose proof (wrep_length _ _ H) as Hlen.
  destruct (Z.eqb_spec (8 - Z.of_nat (pad (length bs))) 8) as [E|E].
  - assert (Hp : pad (length bs) = 0%nat) by lia.
    change (put_uint8 0 b) with (append [0] b).
    destruct (append_wrep b bs [0] H) as [-> Ha];
      [by repeat constructor|lia|done|].
    exists {| (appended b [0]) with _bitpos := 0 |}, 8%nat. split_and!; [done| |lia|done|].
    + split; try apply Ha; [|done|lia].
      cbn. rewrite bitstream_app, (wrep_bits _ _ H), Hp. cbn. by rewrite app_nil_r.
    + unfold size, zlen in *. cbn. rewrite length_app. cbn. lia.
  - exists b, (pad (length bs)). split_and!; [done|by apply wrep_wfree|lia|done|lia].
Qed.

Lemma WriteBit_wrep b bs bit :
  wrep b bs -> size b < 10000000 ->
  exists b', WriteBit bit b = (Ok tt, b') /\ wrep b' (bs ++ [bit]) /\ _rpos b' = _rpos b.
Proof.
  intros H Hs. destruct (open_byte_wfree _ _ H Hs) as (b1 & f & E1 & H1 & Hf & Hr & _).
  assert (WriteBit bit b = (open_byte ;; b ← get; set_bitpos (_bitpos b + 1) ;; b ← get;
    if bit then storage_or (_wpos b - 1) (Z.shiftl 1 (8 - _bitpos b)) else mret tt) b) as ->.
  { unfold WriteBit, open_byte. run. by destruct (_bitpos b =? 8). }
  erewrite bind_ok by exact E1. run. cbn [_wpos _bitpos].
  destruct (wfree_or_chunk _ _ _ (Z.b2z bit) 1 H1 ltac:(lia)) as (b2 & E2 & H2 & Hr2 & _).
  pose proof (wfree_le _ _ _ H1). destruct bit.
  - exists b2. split_and!; [exact E2| |by rewrite Hr2].
    apply (wfree_wrep _ _ (f - 1)); [lia|exact H2].
  - eexists. split_and!; [done| |exact Hr]. apply (wfree_wrep _ _ (f - 1)); [lia|].
    split; cbn; [|apply H1|rewrite (wfree_bitpos _ _ _ H1); lia|apply H1|lia].
    rewrite (wfree_bits _ _ _ H1). destruct f; [lia|]. cbn.
    by rewrite Nat.sub_0_r, <- app_assoc.
Qed.

Lemma WriteBits_loop_wrep fuel value n b bs :
  (n <= fuel)%nat -> wrep b bs -> Z.of_nat (length bs + n) <= 79999992 ->
  exists b', WriteBits_loop fuel value (Z.of_nat n) b = (Ok tt, b')
    /\ wrep b' (bs ++ bits_of n value) /\ _rpos b' = _rpos b.
Proof.
  revert n b bs. induction fuel as [|fuel IH]; intros n b bs Hn H Hs.
  { assert (n = 0%nat) as -> by lia. exists b. cbn. by rewrite app_nil_r. }
  cbn [WriteBits_loop]. destruct (Z.ltb_spec 0 (Z.of_nat n)) as [Hn0|Hn0]; cbn [negb].
  2:{ assert (n = 0%nat) as -> by lia. exists b. cbn. by rewrite app_nil_r. }
  pose proof (wrep_length _ _ H) as Hlen. pose proof (pad_lt (length bs)) as Hpl.
  destruct (open_byte_wfree _ _ H ltac:(lia)) as (b1 & f & E1 & H1 & Hf & Hr & Hs1).
  pose proof (wfree_le _ _ _ H1) as Hf8.
  assert (exists k, k = Nat.min n f) as [k Hk] by eauto.
  destruct (wfree_or_chunk _ _ _ (Z.shiftr value (Z.of_nat (n - k))) k H1 ltac:(lia))
    as (b2 & E2 & H2 & Hr2 & Hs2).
  apply wfree_wrep in H2; [|lia].
  destruct (IH (n - k)%nat b2 _ ltac:(lia) H2) as (b3 & E3 & H3 & Hr3).
  { rewrite length_app, length_bits_of. lia. }
  exists b3. split_and!.
  - unfold open_byte in E1. run. destruct (_bitpos b =? 8); rewrite E1 || injection E1 as <-.
    all: cbn beta iota; cbn [_wpos _bitpos].
    all: rewrite (wfree_bitpos _ _ _ H1) in *.
    all: assert ((if Z.of_nat n <? 8 - (8 - Z.of_nat f) then Z.of_nat n else 8 - (8 - Z.of_nat f))
      = Z.of_nat k) as -> by (bdestr; lia).
    all: replace (Z.of_nat n - Z.of_nat k) with (Z.of_nat (n - k)) by lia.
    all: rewrite E2; exact E3.
  - rewrite (bits_of_split k n) by lia. by rewrite app_assoc.
  - congruence.
Qed.

(** ** Reading bits *)

(** [f] bits of the byte before [_rpos] are still unread. *)
Record rfree (b : ByteBuffer) (seen rest : list bool) (f : nat) : Prop := {
  rfree_bits : bitstream (_storage b) = seen ++ rest;
  rfree_rpos : 8 * _rpos b = Z.of_nat (length seen + f);
  rfree_bitpos : _bitpos b = 8 - Z.of_nat f;
  rfree_bytes : bytes (_storage b);
  rfree_size : size b < 2 ^ 60;
  rfree_le : (f <= 8)%nat;
  rfree_rest : (f <= length rest)%nat
}.

Lemma bitstream_total b seen rest :
  bitstream (_storage b) = seen ++ rest -> 8 * size b = Z.of_nat (length seen + length rest).
Proof.
  intros E. pose proof (f_equal length E) as El.
  rewrite length_bitstream, length_app in El. unfold size, zlen. lia.
Qed.

Lemma rrep_rest b seen rest : rrep b seen rest -> (pad (length seen) <= length rest)%nat.
Proof.
  intros H. pose proof (bitstream_total _ _ _ (rrep_bits _ _ _ H)).
  pose proof (rrep_rpos _ _ _ H). pose proof (pad_lt (length seen)). lia.
Qed.

Lemma rrep_rfree b seen rest : rrep b seen rest -> rfree b seen rest (pad (length seen)).
Proof.
  intros H. pose proof (pad_lt (length seen)). pose proof (rrep_rest _ _ _ H).
  split; try apply H; lia.
Qed.

Lemma rfree_rrep b seen rest f : (f < 8)%nat -> rfree b seen rest f -> rrep b seen rest.
Proof.
  intros Hf H. assert (pad (length seen) = f) as Hp.
  { apply pad_unique; [done|]. pose proof (rfree_rpos _ _ _ _ H) as E.
    replace (length seen + f)%nat with (Z.to_nat (_rpos b) * 8)%nat by lia.
    apply Nat.Div0.mod_mul. }
  split; rewrite ?Hp; apply H.
Qed.

Lemma read_skip_run b n :
  0 <= _rpos b -> 0 <= n -> _rpos b + n <= size b -> size b < 2 ^ 60 ->
  read_skip n b = (Ok tt, {| b with _rpos := _rpos b + n; _bitpos := 8 |}).
Proof.
  intros H0 Hn H Hs. unfold read_skip. run. cbn [_rpos].
  change (size {| _storage := _storage b; _rpos := _rpos b; _wpos := _wpos b; _bitpos := 8 |})
    with (size b).
  rewrite wrap_small by lia. by destruct (Z.ltb_spec (size b) (_rpos b + n)); [lia|].
Qed.

Definition next_byte : BB unit :=
  b ← get; if _bitpos b =? 8 then read_skip 1 ;; set_bitpos 0 else mret tt.

Lemma next_byte_rfree b seen rest :
  rrep b seen rest -> rest <> [] ->
  exists b' f, next_byte b = (Ok tt, b') /\ rfree b' seen rest f /\ (0 < f)%nat.
Proof.
  intros H Hr. unfold next_byte. run. rewrite (rrep_bitpos _ _ _ H).
  pose proof (bitstream_total _ _ _ (rrep_bits _ _ _ H)) as Hlen.
  pose proof (rrep_rpos _ _ _ H) as Hrp. pose proof (rrep_size _ _ _ H) as Hsz.
  destruct (Z.eqb_spec (8 - Z.of_nat (pad (length seen))) 8) as [E|E].
  - assert (Hp : pad (length seen) = 0%nat) by lia.
    destruct rest as [|x rest]; [done|]. cbn in Hlen.
    rewrite read_skip_run by lia. cbn.
    eexists _, 8%nat. split_and!; [done| |lia].
    split; cbn [_storage _rpos _bitpos length]; try apply H; unfold size in *; cbn; try lia.
  - exists b, (pad (length seen)). split_and!; [done|by apply rrep_rfree|lia].
Qed.

(** The byte the next bits come from. *)
Lemma rfree_byte b seen rest f :
  rfree b seen rest f -> (0 < f)%nat ->
  exists x, storage_at (_rpos b - 1) b = (Ok x, b)
    /\ take f rest = drop (8 - f) (bits_of 8 x).
Proof.
  intros H Hf. pose proof (bitstream_total _ _ _ (rfree_bits _ _ _ _ H)) as Hlen.
  pose proof (rfree_rpos _ _ _ _ H) as Hrp. pose proof (rfree_le _ _ _ _ H) as Hf8.
  pose proof (rfree_bits _ _ _ _ H) as E. pose proof (rfree_rest _ _ _ _ H) as Hfr.
  assert (Hi : (Z.to_nat (_rpos b - 1) < length (_storage b))%nat)
    by (unfold size, zlen in Hlen; lia).
  apply lookup_lt_is_Some in Hi as [x Hx]. exists x. split.
  - unfold storage_at, znth. destruct (Z.ltb_spec (_rpos b - 1) 0); [lia|]. by rewrite Hx.
  - apply take_drop_middle in Hx. rewrite <- Hx, bitstream_app in E.
    change (bitstream (x :: drop (S (Z.to_nat (_rpos b - 1))) (_storage b)))
      with (bits_of 8 x ++ bitstream (drop (S (Z.to_nat (_rpos b - 1))) (_storage b))) in E.
    apply (f_equal (fun l => take f (drop (length seen) l))) in E.
    rewrite drop_app_length in E. rewrite <- E.
    rewrite drop_app_ge by (rewrite length_bitstream, length_take; lia).
    rewrite length_bitstream, length_take_le by (unfold size, zlen in Hlen; lia).
    replace (length seen - 8 * Z.to_nat (_rpos b - 1))%nat with (8 - f)%nat by lia.
    rewrite drop_app_le by (rewrite length_bits_of; lia).
    rewrite take_app_le by (rewrite length_drop, length_bits_of; lia).
    rewrite take_ge; [done|]. rewrite length_drop, length_bits_of. lia.
Qed.

(** Reading the first [k] of them. *)
Lemma rfree_chunk b seen bs rest f k :
  rfree b seen (bs ++ rest) f -> length bs = k -> (0 < k <= f)%nat ->
  exists x b', storage_at (_rpos b - 1) {| b with _bitpos := _bitpos b + Z.of_nat k |}
      = (Ok x, b')
    /\ Z.land (Z.shiftr x (8 - (_bitpos b + Z.of_nat k))) (Z.shiftl 1 (Z.of_nat k) - 1)
       = Z_of_bits bs
    /\ rrep b' (seen ++ bs) rest /\ rfree b' (seen ++ bs) rest (f - k).
Proof.
  intros H Hbs Hk. destruct (rfree_byte _ _ _ _ H ltac:(lia)) as (x & E & Ex).
  pose proof (rfree_rpos _ _ _ _ H) as Hrp. pose proof (rfree_le _ _ _ _ H) as Hf8.
  pose proof (rfree_bitpos _ _ _ _ H) as Hbp. pose proof (rfree_rest _ _ _ _ H) as Hfr.
  exists x, {| b with _bitpos := _bitpos b + Z.of_nat k |}.
  assert (Hfree : rfree {| b with _bitpos := _bitpos b + Z.of_nat k |} (seen ++ bs) rest (f - k)).
  { split; cbn [_storage _rpos _bitpos]; rewrite ?length_app in *; try apply H; try lia.
    by rewrite (rfree_bits _ _ _ _ H), app_assoc. }
  split_and!; [| |apply (rfree_rrep _ _ _ (f - k)); [lia|exact Hfree]|exact Hfree].
  - unfold storage_at in *. cbn [_storage]. by destruct (znth _ _); injection E as ->.
  - assert (bs = bits_of k (Z.shiftr x (Z.of_nat (f - k)))) as ->.
    { apply (f_equal (take k)) in Ex.
      rewrite take_take, Nat.min_l, take_drop_bits_of in Ex by lia.
      rewrite take_app_le, take_ge in Ex by lia. rewrite Ex. do 2 f_equal. lia. }
    rewrite Z_of_bits_of. unfold wrap. rewrite <- Z.land_ones, Z.ones_equiv, Z.shiftl_1_l by lia.
    replace (8 - (_bitpos b + Z.of_nat k)) with (Z.of_nat (f - k)) by lia.
    by rewrite Z.sub_1_r.
Qed.

Lemma ReadBit_rrep b seen x rest :
  rrep b seen (x :: rest) ->
  exists b', ReadBit b = (Ok x, b') /\ rrep b' (seen ++ [x]) rest.
Proof.
  intros H. destruct (next_byte_rfree _ _ _ H ltac:(done)) as (b1 & f & E1 & H1 & Hf).
  destruct (rfree_chunk b1 seen [x] rest f 1 H1 eq_refl ltac:(lia)) as (y & b2 & E2 & Ey & H2 & _).
  exists b2. split; [|exact H2].
  transitivity ((next_byte ;; b ← get; set_bitpos (_bitpos b + 1) ;; b ← get;
    x ← storage_at (_rpos b - 1);
    mret (negb (Z.land (Z.shiftr x (8 - _bitpos b)) 1 =? 0))) b).
  { unfold ReadBit, next_byte. run. by destruct (_bitpos b =? 8). }
  erewrite bind_ok by exact E1. run. cbn [_rpos _bitpos] in *.
  change (Z.of_nat 1) with 1 in *. rewrite E2.
  change (Z.shiftl 1 1 - 1) with 1 in Ey. rewrite Ey. by destruct x.
Qed.

Lemma ReadBits_loop_rrep fuel n value b seen bs rest :
  (n <= fuel)%nat -> (n <= 32)%nat -> length bs = n -> rrep b seen (bs ++ rest) ->
  exists b', ReadBits_loop fuel value (Z.of_nat n) b = (Ok (Z.lor value (Z_of_bits bs)), b')
    /\ rrep b' (seen ++ bs) rest.
Proof.
  revert n value b seen bs. induction fuel as [|fuel IH]; intros n value b seen bs Hn H32 Hbs H.
  { destruct bs; [|cbn in Hbs; lia]. exists b. cbn. by rewrite app_nil_r, Z.lor_0_r. }
  cbn [ReadBits_loop]. destruct (Z.ltb_spec 0 (Z.of_nat n)) as [Hn0|Hn0]; cbn [negb].
  2:{ destruct bs; [|cbn in Hbs; lia]. exists b. cbn. by rewrite app_nil_r, Z.lor_0_r. }
  destruct (next_byte_rfree _ _ _ H) as (b1 & f & E1 & H1 & Hf).
  { destruct bs; [cbn in Hbs; lia|done]. }
  pose proof (rfree_le _ _ _ _ H1) as Hf8.
  assert (exists k, k = Nat.min n f) as [k Hk] by eauto.
  rewrite <- (take_drop k bs), <- app_assoc in H1.
  assert (Hl1 : length (take k bs) = k) by (rewrite length_take; lia).
  assert (Hl2 : length (drop k bs) = (n - k)%nat) by (rewrite length_drop; lia).
  destruct (rfree_chunk _ _ _ _ _ k H1 Hl1 ltac:(lia)) as (x & b2 & E2 & Ex & H2 & _).
  pose proof (Z_of_bits_range (take k bs)) as Hr. rewrite Hl1 in Hr.
  destruct (IH (n - k)%nat (Z.lor value (Z.shiftl (Z_of_bits (take k bs)) (Z.of_nat (n - k))))
    b2 _ (drop k bs) ltac:(lia) ltac:(lia) Hl2 H2) as (b3 & E3 & H3).
  exists b3. rewrite <- app_assoc, take_drop in H3. split; [|exact H3].
  unfold next_byte in E1. run. destruct (_bitpos b =? 8); rewrite E1 || injection E1 as <-.
  all: cbn beta iota; cbn [_rpos _bitpos].
  all: rewrite (rfree_bitpos _ _ _ _ H1) in *.
  all: assert ((if Z.of_nat n <? 8 - (8 - Z.of_nat f) then Z.of_nat n else 8 - (8 - Z.of_nat f))
      = Z.of_nat k) as -> by (bdestr; lia).
  all: replace (Z.of_nat n - Z.of_nat k) with (Z.of_nat (n - k)) by lia.
  all: rewrite E2, Ex, wrap_small.
  all: try (rewrite E3; f_equal; f_equal; rewrite <- Z.lor_assoc, <- Hl2, <- Z_of_bits_app;
            by rewrite take_drop).
  all: rewrite Z.shiftl_mul_pow2 by lia; split; [nia|];
    apply Z.lt_le_trans with (2 ^ Z.of_nat k * 2 ^ Z.of_nat (n - k));
    [apply Z.mul_lt_mono_pos_r; lia|rewrite <- Z.pow_add_r by lia; apply Z.pow_le_mono_r; lia].
Qed.

(** ** Reading whole bytes

    A byte read first drops the bits left in the current byte. *)
Lemma bytes_drop n l : bytes l -> bytes (drop n l).
Proof. apply Forall_drop. Qed.

Lemma rrep_aligned b seen skip src rest :
  rrep b seen (skip ++ bitstream src ++ rest) -> length skip = pad (length seen) ->
  bytes src ->
  0 <= _rpos b /\ _rpos b + zlen src <= size b /\
  take (length src) (drop (Z.to_nat (_rpos b)) (_storage b)) = src /\
  rrep {| b with _rpos := _rpos b + zlen src; _bitpos := 8 |}
       (seen ++ skip ++ bitstream src) rest.
Proof.
  intros H Hs Hsrc. pose proof (bitstream_total _ _ _ (rrep_bits _ _ _ H)) as Ht.
  pose proof (rrep_rpos _ _ _ H) as Hrp.
  rewrite !length_app, length_bitstream in Ht.
  assert (0 <= _rpos b /\ _rpos b + zlen src <= size b) as [H0 H1] by (unfold zlen; lia).
  assert (Hp : pad (length (seen ++ skip ++ bitstream src)) = 0%nat).
  { rewrite !length_app, Hs, length_bitstream, Nat.add_assoc. unfold pad at 1.
    by rewrite pad_aligned. }
  split_and!; [done|done| |].
  - pose proof (rrep_bits _ _ _ H) as E.
    rewrite <- (take_drop (Z.to_nat (_rpos b)) (_storage b)), bitstream_app, (app_assoc seen) in E.
    apply app_inj_1 in E as [_ E].
    2:{ rewrite length_bitstream, length_take_le, length_app by (unfold size, zlen in *; lia). lia. }
    rewrite <- (take_drop (length src) (drop _ _)), bitstream_app in E.
    apply app_inj_1 in E as [E _].
    2:{ rewrite !length_bitstream, length_take_le; [lia|].
        rewrite length_drop. unfold size, zlen in *. lia. }
    apply bitstream_inj in E; [done| |done].
    apply Forall_take, bytes_drop, H.
  - split; cbn [_storage _rpos _wpos _bitpos]; rewrite ?Hp; try apply H.
    + by rewrite (rrep_bits _ _ _ H), <- !app_assoc.
    + rewrite !length_app, length_bitstream. unfold zlen. lia.
    + done.
Qed.

Lemma read_T_rrep b seen skip src rest :
  rrep b seen (skip ++ bitstream src ++ rest) -> length skip = pad (length seen) ->
  bytes src -> zlen src < 2 ^ 32 ->
  exists b', read_T (length src) b = (Ok (le_value src), b')
    /\ rrep b' (seen ++ skip ++ bitstream src) rest.
Proof.
  intros H Hs Hsrc Hl. destruct (rrep_aligned _ _ _ _ _ H Hs Hsrc) as (H0 & H1 & E & H').
  pose proof (rrep_size _ _ _ H). eexists. split; [|exact H'].
  unfold read_T, read_at. run. cbn [_storage _rpos _wpos _bitpos].
  change (size {| _storage := _storage b; _rpos := _rpos b; _wpos := _wpos b; _bitpos := 8 |})
    with (size b).
  fold (zlen src). rewrite wrap_small by (pose proof (zlen_nonneg src); lia).
  destruct (Z.ltb_spec (size b) (_rpos b + zlen src)); [lia|].
  destruct (Z.leb_spec (_rpos b + zlen src) (size b)); [|lia].
  by rewrite E.
Qed.

Lemma read_bytes_rrep b seen skip src rest :
  rrep b seen (skip ++ bitstream src ++ rest) -> length skip = pad (length seen) ->
  bytes src -> zlen src < 2 ^ 32 ->
  exists b', read_bytes (zlen src) b = (Ok src, b')
    /\ rrep b' (seen ++ skip ++ bitstream src) rest.
Proof.
  intros H Hs Hsrc Hl. destruct (rrep_aligned _ _ _ _ _ H Hs Hsrc) as (H0 & H1 & E & H').
  pose proof (rrep_size _ _ _ H). eexists. split; [|exact H'].
  unfold read_bytes. run. cbn [_storage _rpos _wpos _bitpos].
  rewrite wrap_small by (pose proof (zlen_nonneg src); lia).
  destruct (Z.ltb_spec (size b) (_rpos b + zlen src)); [lia|].
  destruct (Z.eqb_spec (zlen src) 0) as [Ez|Ez].
  - destruct src; [|unfold zlen in Ez; cbn in Ez; lia]. by rewrite Ez, Z.add_0_r.
  - change (size {| _storage := _storage b; _rpos := _rpos b; _wpos := _wpos b; _bitpos := 8 |})
      with (size b).
    destruct (Z.leb_spec (_rpos b + zlen src) (size b)); [|lia].
    unfold zlen. by rewrite Nat2Z.id, E.
Qed.

(** ** Packets as sequences of fields *)

Inductive field :=
| FBit (x : bool)                 (* WriteBit / ReadBit *)
| FBits (n : nat) (v : Z)         (* WriteBits / ReadBits *)
| FInt (n : nat) (v : Z)          (* operator<< / operator>>, n bytes *)
| FString (s : list Z)            (* operator<< / operator>>, NUL-terminated *)
| FRaw (s : list Z)               (* WriteString / ReadString, length sent apart *)
| FByteSeq (x : Z)                (* WriteByteSeq / ReadByteSeq, mask sent apart *)
| FPackGUID (g : Z).              (* appendPackGUID / readPackGUID *)

Definition write_field (f : field) : BB unit :=
  match f with
  | FBit x => WriteBit x
  | FBits n v => WriteBits v (Z.of_nat n)
  | FInt n v => append_T n v
  | FString s => put_string s
  | FRaw s => WriteString s
  | FByteSeq x => WriteByteSeq x
  | FPackGUID g => appendPackGUID g
  end.

(** The reader knows the layout: the kind of the field, its width, and what
    the packet carried earlier (a length, a mask). *)
Definition read_field (f : field) : BB field :=
  match f with
  | FBit _ => x ← ReadBit; mret (FBit x)
  | FBits n _ => v ← ReadBits (Z.of_nat n); mret (FBits n v)
  | FInt n _ => v ← read_T n; mret (FInt n v)
  | FString _ => s ← get_string; mret (FString s)
  | FRaw s => r ← ReadString (zlen s); mret (FRaw r)
  | FByteSeq x => r ← ReadByteSeq (if x =? 0 then 0 else 1); mret (FByteSeq r)
  | FPackGUID _ => g ← readPackGUID; mret (FPackGUID g)
  end.

Fixpoint read_packet (fs : list field) : BB (list field) :=
  match fs with
  | [] => mret []
  | f :: fs' => x ← read_field f; xs ← read_packet fs'; mret (x :: xs)
  end.

(** The bytes of a byte field; [None] for a bit field or a field that leaves
    the buffer alone. *)
Definition payload (f : field) : option (list Z) :=
  match f with
  | FBit _ | FBits _ _ => None
  | FInt n v => Some (le_bytes n v)
  | FString s => Some (s ++ [0])
  | FRaw s => if decide (s = []) then None else Some s
  | FByteSeq x => if x =? 0 then None else Some [Z.lxor x 1]
  | FPackGUID g => let '(m, l) := packGUID_loop 8 g 0 0 [] in Some (m :: l)
  end.

(** The bits a field adds after [k] bits. *)
Definition field_bits (k : nat) (f : field) : list bool :=
  match f, payload f with
  | FBit x, _ => [x]
  | FBits n v, _ => bits_of n v
  | _, Some l => replicate (pad k) false ++ bitstream l
  | _, None => []
  end.

Fixpoint packet_bits (k : nat) (fs : list field) : list bool :=
  match fs with
  | [] => []
  | f :: fs' => field_bits k f ++ packet_bits (k + length (field_bits k f)) fs'
  end.

Definition nul_free (s : list Z) : Prop := Forall (fun x => 0 < x < 256) s.

(** What a field may hold after [k] bits.  An absent byte of a masked GUID
    must come on a byte boundary: [ReadByteSeq] leaves the current byte even
    when there is nothing to read, [WriteByteSeq] does not. *)
Definition field_ok (k : nat) (f : field) : Prop :=
  match f with
  | FBit _ => True
  | FBits n v => (n <= 32)%nat /\ in_u (Z.of_nat n) v
  | FInt n v => (n <= 8)%nat /\ in_u (8 * Z.of_nat n) v
  | FString s => nul_free s /\ zlen s < 2 ^ 31
  | FRaw s => nul_free s /\ zlen s < 2 ^ 31
  | FByteSeq x => in_u 8 x /\ (x = 0 -> pad k = 0%nat)
  | FPackGUID g => in_u 64 g
  end.

Fixpoint packet_ok (k : nat) (fs : list field) : Prop :=
  match fs with
  | [] => True
  | f :: fs' => field_ok k f /\ packet_ok (k + length (field_bits k f)) fs'
  end.

(** ** Packed GUIDs *)

Definition nonzero (l : list Z) : list Z := List.filter (fun x => negb (x =? 0)) l.

Fixpoint mask_of (i : Z) (l : list Z) : Z :=
  match l with
  | [] => 0
  | x :: l' => Z.lor (if x =? 0 then 0 else Z.shiftl 1 i) (mask_of (i + 1) l')
  end.

Lemma shiftl_1_range i : 0 <= i < 8 -> in_u 8 (Z.shiftl 1 i).
Proof.
  intros Hi. rewrite Z.shiftl_1_l. split; [lia|]. apply Z.pow_lt_mono_r; lia.
Qed.

Lemma mask_of_range i l : 0 <= i -> i + zlen l <= 8 -> in_u 8 (mask_of i l).
Proof.
  revert i. induction l as [|x l IH]; intros i Hi Hl; [cbn; lia|].
  unfold zlen in *. cbn [mask_of length] in *. apply lor_range; [lia| |apply IH; lia].
  destruct (x =? 0); [lia|]. apply shiftl_1_range. lia.
Qed.

Lemma testbit_mask_of i l j :
  0 <= i -> 0 <= j -> Z.testbit (mask_of i l) j
  = (i <=? j) && match l !! Z.to_nat (j - i) with Some x => negb (x =? 0) | None => false end.
Proof.
  revert i. induction l as [|x l IH]; intros i Hi Hj; cbn [mask_of].
  - rewrite Z.bits_0. by rewrite andb_false_r.
  - rewrite Z.lor_spec, IH by lia. destruct (Z.leb_spec i j).
    + destruct (decide (i = j)) as [->|].
      * rewrite Z.sub_diag. change ((x :: l) !! Z.to_nat 0) with (Some x).
        destruct (Z.leb_spec (j + 1) j); [lia|].
        destruct (x =? 0); [by rewrite ?Z.bits_0|].
        by rewrite Z.shiftl_1_l, Z.pow2_bits_true by lia.
      * replace (Z.to_nat (j - i)) with (S (Z.to_nat (j - (i + 1)))) by lia. cbn.
        destruct (Z.leb_spec (i + 1) j); [|lia]. cbn.
        destruct (x =? 0); [by rewrite ?Z.bits_0|].
        by rewrite Z.shiftl_1_l, Z.pow2_bits_false by lia.
    + destruct (Z.leb_spec (i + 1) j); [lia|]. cbn. rewrite orb_false_r.
      destruct (x =? 0); [by rewrite ?Z.bits_0|].
      by rewrite Z.shiftl_1_l, Z.pow2_bits_false by lia.
Qed.

Lemma le_bytes_zero n : le_bytes n 0 = replicate n 0.
Proof. induction n as [|n IH]; [done|]. cbn [le_bytes]. rewrite Z.shiftr_0_l, IH. done. Qed.

Lemma nonzero_zeros n : nonzero (replicate n 0) = [].
Proof. by induction n. Qed.

Lemma mask_of_zeros i n : mask_of i (replicate n 0) = 0.
Proof. revert i. induction n as [|n IH]; intros i; [done|]. cbn. apply IH. Qed.

Lemma packGUID_loop_spec n v i mask l :
  0 <= v -> 0 <= i -> i + Z.of_nat n <= 8 -> in_u 8 mask ->
  packGUID_loop n v i mask l
  = (Z.lor mask (mask_of i (le_bytes n v)), l ++ nonzero (le_bytes n v)).
Proof.
  revert v i mask l. induction n as [|n IH]; intros v i mask l Hv Hi Hn Hm.
  { cbn. by rewrite Z.lor_0_r, app_nil_r. }
  cbn [packGUID_loop]. destruct (Z.eqb_spec v 0) as [->|Hv0].
  { by rewrite le_bytes_zero, nonzero_zeros, mask_of_zeros, Z.lor_0_r, app_nil_r. }
  pose proof (shiftl_1_range i ltac:(lia)) as Hs.
  change 255 with (Z.ones 8). rewrite Z.land_ones by lia. fold (u8 v).
  assert (Hsh : 0 <= Z.shiftr v 8) by (apply Z.shiftr_nonneg; lia).
  cbn [le_bytes mask_of nonzero List.filter].
  rewrite (wrap_wrap 8 v), (wrap_small 8 (Z.shiftl 1 i)) by done.
  destruct (u8 v =? 0); cbn [negb].
  - rewrite IH; try lia. 2:{ rewrite wrap_small by lia. lia. } 2:{ rewrite wrap_small by lia. lia. }
    rewrite (wrap_small 8 (i + 1)) by lia. by rewrite Z.lor_0_l.
  - rewrite (wrap_small 8 (Z.lor _ _)) by (apply lor_range; [lia|done..]).
    rewrite IH; try lia. 2:{ rewrite wrap_small by lia. lia. } 2:{ rewrite wrap_small by lia. lia. }
    2:{ apply lor_range; [lia|done..]. }
    rewrite (wrap_small 8 (i + 1)) by lia. rewrite <- Z.lor_assoc, <- app_assoc. done.
Qed.

(** The wire form of a packed GUID: a byte saying which bytes are not zero,
    then those bytes, low ones first. *)
Lemma packGUID_spec g :
  in_u 64 g ->
  packGUID_loop 8 g 0 0 [] = (mask_of 0 (le_bytes 8 g), nonzero (le_bytes 8 g)).
Proof. intros H. rewrite packGUID_loop_spec by lia. by rewrite Z.lor_0_l. Qed.

Lemma bytes_nonzero l : bytes l -> bytes (nonzero l).
Proof.
  unfold nonzero. induction 1 as [|x l Hx _ IH]; cbn; [constructor|].
  destruct (negb (x =? 0)); [by constructor|done].
Qed.

Lemma pad_app_bytes (seen : list bool) l :
  pad (length seen) = 0%nat -> pad (length (seen ++ bitstream l)) = 0%nat.
Proof.
  intros H. apply pad_unique; [lia|]. rewrite length_app, length_bitstream, Nat.add_0_r.
  pose proof (pad_aligned (length seen) (length l)) as E. by rewrite H, Nat.add_0_r in E.
Qed.

Lemma bytes_one x : in_u 8 x -> bytes [x].
Proof. intros H. by apply Forall_singleton. Qed.

(** One byte, on a byte boundary. *)
Lemma read_byte_aligned b seen x rest :
  rrep b seen (bits_of 8 x ++ rest) -> pad (length seen) = 0%nat -> in_u 8 x ->
  (size b <? u64 (_rpos b + 1)) = false /\
  exists b', read_T 1 b = (Ok x, b') /\ rrep b' (seen ++ bits_of 8 x) rest
    /\ pad (length (seen ++ bits_of 8 x)) = 0%nat.
Proof.
  intros H Hp Hx. assert (E : bits_of 8 x = bitstream [x]) by (unfold bitstream; cbn; done).
  rewrite E in *. change (rrep b seen ([] ++ bitstream [x] ++ rest)) in H.
  destruct (rrep_aligned _ _ _ _ _ H (eq_sym Hp) (bytes_one x Hx)) as (H0 & H1 & _ & _).
  pose proof (rrep_size _ _ _ H). change (zlen [x]) with 1 in H1. split.
  { rewrite wrap_small by lia. by destruct (Z.ltb_spec (size b) (_rpos b + 1)); [lia|]. }
  destruct (read_T_rrep b seen [] [x] rest H (eq_sym Hp) (bytes_one x Hx)
    eq_refl) as (b' & E1 & H').
  exists b'. split_and!; [|exact H'|by apply pad_app_bytes].
  cbn in E1. rewrite E1. do 2 f_equal. by rewrite Z.lor_0_r.
Qed.

Lemma readPackGUID_loop_rrep l i mark guid b seen rest :
  bytes l -> 0 <= i -> i + zlen l <= 8 ->
  (forall j, i <= j < i + zlen l -> Z.testbit mark j = Z.testbit (mask_of i l) j) ->
  rrep b seen (bitstream (nonzero l) ++ rest) -> pad (length seen) = 0%nat ->
  exists b', readPackGUID_loop (length l) i mark guid b
      = (Ok (Z.lor guid (Z.shiftl (le_value l) (i * 8))), b')
    /\ rrep b' (seen ++ bitstream (nonzero l)) rest.
Proof.
  revert i guid b seen. induction l as [|x l IH]; intros i guid b seen Hl Hi Hlen Hmark H Hp.
  { exists b. cbn. change (bitstream (nonzero [])) with (@nil bool).
    by rewrite Z.shiftl_0_l, Z.lor_0_r, app_nil_r. }
  rewrite Forall_cons_iff in Hl. destruct Hl as [Hx Hl]. unfold zlen in *. cbn [length] in *.
  assert (Hflag : has_flag mark (u8 (Z.shiftl 1 i)) = negb (x =? 0)).
  { rewrite wrap_small by (apply shiftl_1_range; lia).
    rewrite Z.shiftl_1_l, has_flag_bit, Hmark, testbit_mask_of by lia.
    rewrite Z.leb_refl, Z.sub_diag. done. }
  assert (Hmark' : forall j, i + 1 <= j < i + 1 + Z.of_nat (length l) ->
    Z.testbit mark j = Z.testbit (mask_of (i + 1) l) j).
  { intros j Hj. rewrite Hmark, !testbit_mask_of by lia.
    replace (Z.to_nat (j - i)) with (S (Z.to_nat (j - (i + 1)))) by lia. cbn.
    destruct (Z.leb_spec i j), (Z.leb_spec (i + 1) j); try lia. done. }
  assert (Hval : forall g, Z.lor (Z.lor g (Z.shiftl x (i * 8)))
      (Z.shiftl (le_value l) ((i + 1) * 8)) = Z.lor g (Z.shiftl (le_value (x :: l)) (i * 8))).
  { intros g. cbn [le_value]. rewrite Z.shiftl_lor, Z.shiftl_shiftl, Z.lor_assoc by lia.
    do 2 f_equal. lia. }
  cbn [readPackGUID_loop]. rewrite Hflag. cbn [nonzero List.filter] in *.
  fold (nonzero l) in *. destruct (Z.eqb_spec x 0) as [->|Hx0]; cbn [negb] in *.
  - destruct (IH (i + 1) guid b seen) as (b' & E' & H'); try done; [lia..|].
    exists b'. split; [|done]. rewrite E', <- Hval, Z.shiftl_0_l, Z.lor_0_r. done.
  - change (bitstream (x :: nonzero l)) with (bits_of 8 x ++ bitstream (nonzero l)) in *.
    rewrite <- app_assoc in H.
    destruct (read_byte_aligned _ _ _ _ H Hp Hx) as (Hchk & b1 & E1 & H1 & Hp1).
    destruct (IH (i + 1) (Z.lor guid (u64 (Z.shiftl x (i * 8)))) b1 _ ltac:(done)
      ltac:(lia) ltac:(lia) Hmark' H1 Hp1) as (b' & E' & H').
    exists b'. rewrite <- app_assoc in H'. split; [|done].
    run. rewrite Hchk. unfold get_uint8. rewrite E1, E'.
    rewrite <- Hval, (wrap_small 64); [done|].
    rewrite Z.shiftl_mul_pow2 by lia. split; [nia|].
    apply Z.lt_le_trans with (2 ^ 8 * 2 ^ (i * 8)); [apply Z.mul_lt_mono_pos_r; lia|].
    rewrite <- Z.pow_add_r by lia. apply Z.pow_le_mono_r; lia.
Qed.

Lemma readPackGUID_rrep g b seen skip rest :
  in_u 64 g -> length skip = pad (length seen) ->
  rrep b seen (skip ++ bitstream (mask_of 0 (le_bytes 8 g) :: nonzero (le_bytes 8 g)) ++ rest) ->
  exists b', readPackGUID b = (Ok g, b')
    /\ rrep b' (seen ++ skip ++ bitstream (mask_of 0 (le_bytes 8 g) :: nonzero (le_bytes 8 g))) rest.
Proof.
  intros Hg Hs H. pose proof (bytes_le_bytes 8 g) as Hb.
  pose proof (length_le_bytes 8 g) as Hl. pose proof (le_value_bytes 8 g) as Hv.
  rewrite wrap_small in Hv by done. revert Hb Hl Hv H. generalize (le_bytes 8 g).
  intros L Hb Hl Hv H. pose proof (mask_of_range 0 L ltac:(lia) ltac:(unfold zlen; lia)) as Hm.
  change (mask_of 0 L :: nonzero L) with ([mask_of 0 L] ++ nonzero L) in *.
  rewrite bitstream_app, <- app_assoc in H.
  destruct (rrep_aligned _ _ _ _ _ H Hs (bytes_one _ Hm)) as (H0 & H1 & _ & _).
  destruct (read_T_rrep _ _ _ _ _ H Hs (bytes_one _ Hm) eq_refl) as (b1 & E1 & H2).
  pose proof (rrep_size _ _ _ H). change (zlen [mask_of 0 L]) with 1 in H1.
  assert (Hp : pad (length (seen ++ skip ++ bitstream [mask_of 0 L])) = 0%nat).
  { rewrite !length_app, Hs, length_bitstream, Nat.add_assoc. unfold pad at 1.
    by rewrite pad_aligned. }
  destruct (readPackGUID_loop_rrep L 0 (mask_of 0 L) 0 b1 _ rest Hb ltac:(lia)
    ltac:(unfold zlen; lia) ltac:(done) H2 Hp) as (b' & E' & H').
  exists b'. rewrite bitstream_app. rewrite <- !app_assoc in H'. split; [|done].
  unfold readPackGUID, get_uint8. run. rewrite wrap_small by lia.
  destruct (Z.ltb_spec (size b) (_rpos b + 1)); [lia|].
  change (read_T 1 {| b with _bitpos := 8 |}) with (read_T 1 b).
  cbn [length le_value] in E1. rewrite E1, Z.shiftl_0_l, Z.lor_0_r.
  rewrite Hl in E'. by rewrite E', Z.lor_0_l, Z.shiftl_0_r, Hv.
Qed.

Lemma get_string_loop_rrep s fuel b seen skip rest acc :
  nul_free s -> (length s < fuel)%nat -> length skip = pad (length seen) ->
  rrep b seen (skip ++ bitstream (s ++ [0]) ++ rest) ->
  exists b', get_string_loop fuel acc b = (Ok (acc ++ s), b')
    /\ rrep b' (seen ++ skip ++ bitstream (s ++ [0])) rest.
Proof.
  intros Hs. revert fuel b seen skip acc. induction Hs as [|x s Hx Hs IH];
    intros fuel b seen skip acc Hf Hsk H; (destruct fuel as [|fuel]; [cbn in Hf; lia|]).
  - cbn [app] in *. destruct (rrep_aligned _ _ _ _ _ H Hsk (bytes_one 0 ltac:(lia))) as (_ & H1 & _).
    destruct (read_T_rrep _ _ _ _ _ H Hsk (bytes_one 0 ltac:(lia)) eq_refl) as (b1 & E1 & H2).
    exists b1. split; [|done]. cbn [get_string_loop]. run. change (zlen [0]) with 1 in H1.
    destruct (Z.ltb_spec (_rpos b) (size b)); [|lia]. cbn [negb].
    cbn [length] in E1. rewrite E1. cbn. by rewrite app_nil_r.
  - change ((x :: s) ++ [0]) with ([x] ++ (s ++ [0])) in *.
    rewrite bitstream_app, <- app_assoc in H.
    assert (Hx8 : in_u 8 x) by lia.
    destruct (rrep_aligned _ _ _ _ _ H Hsk (bytes_one _ Hx8)) as (_ & H1 & _).
    destruct (read_T_rrep _ _ _ _ _ H Hsk (bytes_one _ Hx8) eq_refl) as (b1 & E1 & H2).
    assert (Hp : pad (length (seen ++ skip ++ bitstream [x])) = 0%nat).
    { rewrite !length_app, Hsk, length_bitstream, Nat.add_assoc. unfold pad at 1.
      by rewrite pad_aligned. }
    destruct (IH fuel b1 _ [] (acc ++ [x]) ltac:(cbn in Hf; lia) (eq_sym Hp) H2) as (b2 & E2 & H3).
    exists b2. rewrite bitstream_app. rewrite <- !app_assoc in H3. split; [|done].
    cbn [get_string_loop]. run. change (zlen [x]) with 1 in H1.
    destruct (Z.ltb_spec (_rpos b) (size b)); [|lia]. cbn [negb].
    cbn [length] in E1. rewrite E1. cbn [le_value]. rewrite Z.shiftl_0_l, Z.lor_0_r.
    destruct (Z.eqb_spec x 0); [lia|]. by rewrite E2, <- app_assoc.
Qed.

Lemma nul_free_bytes s : nul_free s -> bytes s.
Proof. unfold nul_free. induction 1; constructor; [lia|done]. Qed.

Lemma until_nul_free s : nul_free s -> until_nul s = s.
Proof.
  induction 1 as [|x s Hx _ IH]; [done|]. cbn. destruct (Z.eqb_spec x 0); [lia|]. by rewrite IH.
Qed.

(** ** Writing and reading one field *)

Lemma payload_guid g :
  in_u 64 g ->
  payload (FPackGUID g) = Some (mask_of 0 (le_bytes 8 g) :: nonzero (le_bytes 8 g)).
Proof. intros H. unfold payload. by rewrite (packGUID_spec g H). Qed.

Lemma payload_bytes k f l : field_ok k f -> payload f = Some l -> bytes l.
Proof.
  destruct f as [| |n v|s|s|x|g]; [cbn [field_ok payload]; intros Hok E; try discriminate..|].
  - injection E as <-. apply bytes_le_bytes.
  - injection E as <-. apply Forall_app. split; [apply nul_free_bytes, Hok|apply bytes_one; lia].
  - destruct (decide (s = [])); [discriminate|]. injection E as <-. apply nul_free_bytes, Hok.
  - destruct (x =? 0); [discriminate|]. injection E as <-. apply bytes_one.
    apply lxor_range; [lia|apply Hok|lia].
  - intros Hok E. rewrite (payload_guid g Hok) in E. apply (inj Some) in E as <-. constructor.
    + apply mask_of_range; [lia|]. unfold zlen. by rewrite length_le_bytes.
    + apply bytes_nonzero, bytes_le_bytes.
Qed.

Lemma length_nonzero l : (length (nonzero l) <= length l)%nat.
Proof. unfold nonzero. apply List.filter_length_le. Qed.

Lemma payload_length k f l : field_ok k f -> payload f = Some l -> zlen l < 2 ^ 32.
Proof.
  unfold zlen. destruct f as [| |n v|s|s|x|g];
    [cbn [field_ok payload]; intros Hok E; try discriminate..|].
  - injection E as <-. rewrite length_le_bytes. lia.
  - injection E as <-. rewrite length_app. unfold zlen in Hok. cbn. lia.
  - destruct (decide (s = [])); [discriminate|]. injection E as <-. unfold zlen in Hok. lia.
  - destruct (x =? 0); [discriminate|]. injection E as <-. cbn. lia.
  - intros Hok E. rewrite (payload_guid g Hok) in E. apply (inj Some) in E as <-. cbn [length].
    pose proof (length_nonzero (le_bytes 8 g)) as Hn. rewrite length_le_bytes in Hn. lia.
Qed.

Lemma field_bits_payload k f l :
  payload f = Some l -> field_bits k f = replicate (pad k) false ++ bitstream l.
Proof. destruct f; intros E; try discriminate; unfold field_bits; by rewrite E. Qed.

(** Appending the payload is all a byte field's writer does. *)
Lemma write_field_payload k f l b :
  field_ok k f -> payload f = Some l ->
  write_field f b = append l b \/ exists s, f = FString s.
Proof.
  destruct f; cbn [field_ok payload write_field]; intros Hok E; try discriminate.
  - left. by injection E as <-.
  - right. eauto.
  - left. unfold WriteString. destruct (decide (s = [])); [discriminate|]. injection E as <-.
    destruct (Z.eqb_spec (zlen s) 0) as [Ez|]; [|done].
    destruct s; [done|unfold zlen in Ez; cbn in Ez; lia].
  - left. unfold WriteByteSeq. destruct (x =? 0) eqn:Ex; [discriminate|]. injection E as <-.
    cbn [negb]. unfold append_T. cbn [le_bytes].
    by rewrite wrap_small by (apply lxor_range; [lia|apply Hok|lia]).
  - left. unfold appendPackGUID. destruct (packGUID_loop 8 g 0 0 []) as [m bs].
    by injection E as <-.
Qed.

(** A packet must stay below the ten million bytes [append] asserts. *)
Abbreviation budget := 79999992.

Lemma size_budget b bs n :
  wrep b bs -> Z.of_nat (length bs + n) <= budget -> size b < 10000000.
Proof.
  intros H Hn. pose proof (wrep_length _ _ H). pose proof (pad_lt (length bs)). lia.
Qed.

Lemma write_field_wrep f b bs :
  wrep b bs -> field_ok (length bs) f ->
  Z.of_nat (length bs + length (field_bits (length bs) f)) <= budget ->
  exists b', write_field f b = (Ok tt, b') /\ wrep b' (bs ++ field_bits (length bs) f)
    /\ _rpos b' = _rpos b.
Proof.
  intros H Hok Hn. pose proof (size_budget _ _ _ H Hn) as Hs.
  destruct (payload f) as [l|] eqn:E.
  - pose proof (payload_bytes _ _ _ Hok E) as Hb. pose proof (payload_length _ _ _ Hok E) as Hl.
    rewrite (field_bits_payload _ _ _ E) in *.
    destruct (write_field_payload _ _ _ b Hok E) as [->|[s ->]].
    + destruct (append_wrep _ _ _ H Hb Hs Hl) as [-> Hw]. eauto.
    + cbn in E. injection E as <-. cbn [field_ok] in Hok. destruct Hok as [Hnf Hsl].
      cbn [write_field]. unfold put_string.
      pose proof (nul_free_bytes _ Hnf) as Hsb.
      destruct (append_wrep _ _ s H Hsb Hs ltac:(lia)) as [E1 Hw].
      erewrite bind_ok by exact E1.
      pose proof (length_wrep_appended bs s (pad_aligned _ _)) as Hp.
      change (append_T 1 0) with (append [0]).
      destruct (append_wrep _ _ [0] Hw (bytes_one 0 ltac:(lia))) as [E2 Hw2]; [|done|].
      { pose proof (wrep_length _ _ Hw) as Hlw. rewrite Hp in Hlw.
        rewrite !length_app, length_bitstream, length_replicate in *.
        rewrite length_app in Hn. cbn [length] in Hn. lia. }
      exists (appended (appended b s) [0]). split; [exact E2|]. split; [|done].
      rewrite Hp in Hw2. rewrite bitstream_app. cbn [replicate app] in Hw2.
      by rewrite <- !app_assoc in Hw2.
  - destruct f; cbn [payload] in E; try discriminate.
    + apply WriteBit_wrep; [done|lia].
    + unfold field_bits in *. rewrite length_bits_of in Hn. cbn [write_field].
      unfold WriteBits. rewrite Nat2Z.id. by apply WriteBits_loop_wrep.
    + cbn [write_field]. unfold field_bits, payload. destruct (decide (s = [])) as [->|]; [|done].
      exists b. by rewrite app_nil_r.
    + cbn [write_field]. unfold field_bits, payload, WriteByteSeq.
      destruct (x =? 0); [|done]. exists b. by rewrite app_nil_r.
    + by destruct (packGUID_loop 8 g 0 0 []).
Qed.

Lemma write_packet_wrep fs b bs :
  wrep b bs -> packet_ok (length bs) fs ->
  Z.of_nat (length bs + length (packet_bits (length bs) fs)) <= budget ->
  exists b', mapM_ write_field fs b = (Ok tt, b') /\ wrep b' (bs ++ packet_bits (length bs) fs)
    /\ _rpos b' = _rpos b.
Proof.
  revert b bs. induction fs as [|f fs IH]; intros b bs H Hok Hn; cbn [mapM_ packet_bits packet_ok] in *.
  { exists b. by rewrite app_nil_r. }
  destruct Hok as [Hf Hok]. rewrite length_app in Hn.
  destruct (write_field_wrep f b bs H Hf ltac:(lia)) as (b1 & E1 & H1 & Hr1).
  rewrite <- length_app in Hok, Hn.
  destruct (IH b1 _ H1 Hok) as (b2 & E2 & H2 & Hr2).
  { rewrite length_app in Hn |- *. lia. }
  exists b2. erewrite bind_ok by exact E1. split_and!; [exact E2| |congruence].
  rewrite length_app, <- app_assoc in H2. done.
Qed.

Lemma read_field_rrep f b seen rest :
  field_ok (length seen) f -> rrep b seen (field_bits (length seen) f ++ rest) ->
  exists b', read_field f b = (Ok f, b')
    /\ rrep b' (seen ++ field_bits (length seen) f) rest.
Proof.
  intros Hok H. pose proof (fun l => payload_bytes (length seen) f l Hok) as Hpb.
  pose proof (fun l => payload_length (length seen) f l Hok) as Hpl.
  pose proof (fun l => field_bits_payload (length seen) f l) as Hfb.
  destruct f as [x|n v|n v|s|s|x|g]; cbn [read_field].
  - destruct (ReadBit_rrep b seen x rest H) as (b' & E & H').
    exists b'. by erewrite bind_ok by exact E.
  - destruct Hok as [Hn Hv]. unfold ReadBits.
    destruct (Z.ltb_spec (Z.of_nat n) 0); [lia|]. destruct (Z.ltb_spec 32 (Z.of_nat n)); [lia|].
    cbn [orb]. rewrite Nat2Z.id. unfold field_bits in *.
    destruct (ReadBits_loop_rrep n n 0 b seen (bits_of n v) rest ltac:(lia) Hn
      (length_bits_of n v) H) as (b' & E & H').
    exists b'. erewrite bind_ok by exact E.
    by rewrite Z.lor_0_l, Z_of_bits_of, wrap_small.
  - destruct Hok as [Hn Hv]. rewrite (Hfb _ eq_refl), <- app_assoc in H. rewrite (Hfb _ eq_refl).
    destruct (read_T_rrep _ _ _ _ _ H (length_replicate _ _) (Hpb _ eq_refl) (Hpl _ eq_refl))
      as (b' & E & H').
    exists b'. rewrite length_le_bytes in E. erewrite bind_ok by exact E.
    by rewrite le_value_bytes, wrap_small.
  - rewrite (Hfb _ eq_refl), <- app_assoc in H. rewrite (Hfb _ eq_refl).
    pose proof (rrep_aligned _ _ _ _ _ H (length_replicate _ _) (Hpb _ eq_refl)) as (H0 & H1 & _).
    unfold zlen in H1. rewrite length_app in H1. cbn [length] in H1.
    destruct (get_string_loop_rrep s (Z.to_nat (size b - _rpos b)) b seen _ rest []
      (proj1 Hok) ltac:(lia) (length_replicate _ _) H) as (b' & E & H').
    exists b'. split; [|done]. unfold get_string. run. by rewrite E.
  - unfold ReadString. destruct (decide (s = [])) as [->|Hs].
    + exists b. unfold field_bits. cbn. by rewrite app_nil_r.
    + unfold payload in Hfb, Hpb, Hpl. destruct (decide (s = [])); [done|].
      rewrite (Hfb _ eq_refl), <- app_assoc in H. rewrite (Hfb _ eq_refl).
      destruct (read_bytes_rrep _ _ _ _ _ H (length_replicate _ _) (Hpb _ eq_refl) (Hpl _ eq_refl))
        as (b' & E & H').
      exists b'. split; [|done]. destruct (Z.eqb_spec (zlen s) 0) as [Ez|].
      { destruct s; [done|unfold zlen in Ez; cbn in Ez; lia]. }
      run. rewrite E. by rewrite (until_nul_free s (proj1 Hok)).
  - destruct Hok as [Hx H0]. unfold payload in Hfb, Hpb, Hpl. unfold ReadByteSeq.
    destruct (Z.eqb_spec x 0) as [->|Hx0].
    + exists {| b with _bitpos := 8 |}. unfold field_bits in *. cbn in H |- *. split; [done|].
      specialize (H0 eq_refl). rewrite app_nil_r. split; cbn; try apply H. by rewrite H0.
    + rewrite (Hfb _ eq_refl), <- app_assoc in H. rewrite (Hfb _ eq_refl).
      destruct (read_T_rrep _ _ _ _ _ H (length_replicate _ _) (Hpb _ eq_refl) (Hpl _ eq_refl))
        as (b' & E & H').
      exists b'. split; [|done]. cbn [Z.eqb Pos.eqb negb]. run. cbn [length] in E.
      change (read_T 1 {| b with _bitpos := 8 |}) with (read_T 1 b). rewrite E.
      cbn [le_value]. by rewrite Z.shiftl_0_l, Z.lor_0_r, Z.lxor_comm, Z.lxor_assoc,
        Z.lxor_nilpotent, Z.lxor_0_r.
  - rewrite (payload_guid g Hok) in Hfb. specialize (Hfb _ eq_refl). rewrite Hfb in *.
    rewrite <- app_assoc in H.
    destruct (readPackGUID_rrep g b seen _ rest Hok (length_replicate _ _) H) as (b' & E & H').
    exists b'. by erewrite bind_ok by exact E.
Qed.

Lemma read_packet_rrep fs b seen rest :
  packet_ok (length seen) fs -> rrep b seen (packet_bits (length seen) fs ++ rest) ->
  exists b', read_packet fs b = (Ok fs, b')
    /\ rrep b' (seen ++ packet_bits (length seen) fs) rest.
Proof.
  revert b seen. induction fs as [|f fs IH]; intros b seen Hok H;
    cbn [read_packet packet_bits packet_ok] in *.
  { exists b. by rewrite app_nil_r. }
  destruct Hok as [Hf Hok]. rewrite <- app_assoc in H.
  destruct (read_field_rrep f b seen _ Hf H) as (b1 & E1 & H1).
  rewrite <- length_app in Hok, H1.
  destruct (IH b1 _ Hok H1) as (b2 & E2 & H2).
  exists b2. erewrite bind_ok by exact E1. erewrite bind_ok by exact E2.
  rewrite <- app_assoc, length_app in H2. done.
Qed.

(** The buffer the receiver builds from the bytes of the wire. *)
Definition received (b : ByteBuffer) : ByteBuffer := mkByteBuffer (_storage b) 0 (_wpos b) 8.

(** ** Hostile packets *)

(** What every reader keeps: no read can leave the bytes of the packet. *)
Record read_ok (b : ByteBuffer) : Prop := {
  read_ok_rpos : 0 <= _rpos b <= size b;
  read_ok_bits : 0 <= _bitpos b <= 8 /\ (_bitpos b < 8 -> 1 <= _rpos b);
  read_ok_size : size b < 2 ^ 60
}.

(** A reader that ends normally or with the exception the session catches. *)
Definition safe {A} (m : BB A) : Prop := forall b, read_ok b ->
  match m b with
  | (Ok _, b') => read_ok b' /\ size b' = size b
  | (Throw (ByteBufferException _ _ _ _), b') => read_ok b' /\ size b' = size b
  | _ => False
  end.

Lemma safe_ret {A} (x : A) : safe (mret x).
Proof. by intros b H. Qed.

Lemma safe_bind {A B} (m : BB A) (f : A -> BB B) :
  safe m -> (forall x, safe (f x)) -> safe (m ≫= f).
Proof.
  intros Hm Hf b H. specialize (Hm b H). run.
  destruct (m b) as [[x|[]] b']; try done. destruct Hm as [Hm Hs].
  specialize (Hf x b' Hm). rewrite Hs in Hf. exact Hf.
Qed.

Lemma safe_get {A} (f : ByteBuffer -> BB A) :
  (forall b, read_ok b -> match f b b with
    | (Ok _, b') => read_ok b' /\ size b' = size b
    | (Throw (ByteBufferException _ _ _ _), b') => read_ok b' /\ size b' = size b
    | _ => False end) ->
  safe (b ← get; f b).
Proof. intros H b Hb. run. by apply H. Qed.

Lemma read_ok_advance b n :
  read_ok b -> 0 <= n -> _rpos b + n <= size b ->
  read_ok {| b with _rpos := _rpos b + n; _bitpos := 8 |}.
Proof. intros [] ? ?. split; cbn; unfold size in *; cbn in *; lia. Qed.

Lemma safe_read_skip n : 0 <= n < 2 ^ 60 -> safe (read_skip n).
Proof.
  intros Hn b Hb. pose proof (read_ok_rpos _ Hb). pose proof (read_ok_size _ Hb).
  unfold read_skip. run. cbn [_rpos].
  change (size {| _storage := _storage b; _rpos := _rpos b; _wpos := _wpos b; _bitpos := 8 |})
    with (size b).
  rewrite wrap_small by lia. destruct (Z.ltb_spec (size b) (_rpos b + n)); (split; [|done]).
  - split; cbn; [apply Hb|lia|apply Hb].
  - apply (read_ok_advance b n); [done|lia|lia].
Qed.

Lemma safe_read_T n : Z.of_nat n < 2 ^ 60 -> safe (read_T n).
Proof.
  intros Hn b Hb. pose proof (read_ok_rpos _ Hb). pose proof (read_ok_size _ Hb).
  unfold read_T, read_at. run. cbn [_rpos _storage].
  change (size {| _storage := _storage b; _rpos := _rpos b; _wpos := _wpos b; _bitpos := 8 |})
    with (size b).
  rewrite wrap_small by lia. destruct (Z.ltb_spec (size b) (_rpos b + Z.of_nat n)).
  - split; [|done]. split; cbn; [apply Hb|lia|apply Hb].
  - destruct (Z.leb_spec (_rpos b + Z.of_nat n) (size b)); [|lia].
    split; [|done]. apply (read_ok_advance b); [done|lia|lia].
Qed.

Lemma safe_read_bytes n : 0 <= n < 2 ^ 60 -> safe (read_bytes n).
Proof.
  intros Hn b Hb. pose proof (read_ok_rpos _ Hb). pose proof (read_ok_size _ Hb).
  unfold read_bytes. run. cbn [_rpos _storage].
  rewrite wrap_small by lia. destruct (Z.ltb_spec (size b) (_rpos b + n)); [done|].
  destruct (Z.eqb_spec n 0).
  - split; [|done]. split; cbn; [apply Hb|lia|apply Hb].
  - change (size {| _storage := _storage b; _rpos := _rpos b; _wpos := _wpos b; _bitpos := 8 |})
      with (size b).
    destruct (Z.leb_spec (_rpos b + n) (size b)); [|lia].
    split; [|done]. apply (read_ok_advance b); [done|lia|lia].
Qed.

(** Taking [k] more bits of the current byte never leaves the packet. *)
Lemma storage_at_bits b k :
  read_ok b -> _bitpos b < 8 -> 0 <= k -> _bitpos b + k <= 8 ->
  exists x, storage_at (_rpos b - 1) {| b with _bitpos := _bitpos b + k |}
      = (Ok x, {| b with _bitpos := _bitpos b + k |})
    /\ read_ok {| b with _bitpos := _bitpos b + k |}.
Proof.
  intros Hb Hb8 Hk Hbk. pose proof (read_ok_bits _ Hb). pose proof (read_ok_rpos _ Hb).
  assert (Hi : (Z.to_nat (_rpos b - 1) < length (_storage b))%nat)
    by (unfold size, zlen in *; lia).
  apply lookup_lt_is_Some in Hi as [x Hx]. exists x. split.
  - unfold storage_at, znth. cbn. destruct (Z.ltb_spec (_rpos b - 1) 0); [lia|]. by rewrite Hx.
  - split; cbn; [apply Hb|lia|apply Hb].
Qed.

Lemma next_byte_safe b :
  read_ok b ->
  match next_byte b with
  | (Ok _, b') => read_ok b' /\ size b' = size b /\ _bitpos b' < 8
  | (Throw (ByteBufferException _ _ _ _), b') => read_ok b' /\ size b' = size b
  | _ => False
  end.
Proof.
  intros Hb. pose proof (read_ok_bits _ Hb). unfold next_byte. run.
  destruct (Z.eqb_spec (_bitpos b) 8).
  - pose proof (safe_read_skip 1 ltac:(lia) b Hb) as Hs.
    pose proof (read_ok_rpos _ Hb). pose proof (read_ok_size _ Hb).
    unfold read_skip in *. run. cbn [_rpos] in *.
    rewrite wrap_small in * by lia.
    destruct (_ <? _); [done|]. destruct Hs as [[] ?]. cbn in *.
    unfold size in *. cbn in *.
    split_and!; [split; unfold size; cbn; lia|done|lia].
  - split_and!; [done|done|lia].
Qed.

Lemma safe_ReadBit : safe ReadBit.
Proof.
  intros b Hb. pose proof (next_byte_safe b Hb) as Hn.
  assert (ReadBit b = (next_byte ;; b ← get; set_bitpos (_bitpos b + 1) ;; b ← get;
    x ← storage_at (_rpos b - 1);
    mret (negb (Z.land (Z.shiftr x (8 - _bitpos b)) 1 =? 0))) b) as ->.
  { unfold ReadBit, next_byte. run. by destruct (_bitpos b =? 8). }
  run. destruct (next_byte b) as [[[]|[]] b1]; try done.
  destruct Hn as (H1 & Hs & Hp). cbn [_rpos _bitpos].
  destruct (storage_at_bits b1 1 H1 Hp ltac:(lia) ltac:(lia)) as (x & -> & H2).
  split; [exact H2|exact Hs].
Qed.

Lemma safe_ReadBits_loop fuel value bits : safe (ReadBits_loop fuel value bits).
Proof.
  revert value bits. induction fuel as [|fuel' IH]; intros value bits b Hb; [done|].
  cbn [ReadBits_loop]. destruct (negb (0 <? bits)) eqn:Hbits; [done|].
  apply negb_false_iff, Z.ltb_lt in Hbits.
  pose proof (next_byte_safe b Hb) as Hn. unfold next_byte in Hn. run.
  set (r := if _bitpos b =? 8 then _ else _) in Hn.
  replace ((if _bitpos b =? 8 then _ else _) b) with (r b) by (subst r; by destruct (_bitpos b =? 8)).
  destruct (r b) as [[[]|[]] b1]; try done. clear r.
  destruct Hn as (H1 & Hs & Hp). cbn [_rpos _bitpos].
  pose proof (read_ok_bits _ H1) as Hbits1.
  assert (exists k, k = (if bits <? 8 - _bitpos b1 then bits else 8 - _bitpos b1)) as [k Hk] by eauto.
  rewrite <- Hk.
  assert (0 <= k /\ _bitpos b1 + k <= 8) as [Hk0 Hk8]
    by (destruct (Z.ltb_spec bits (8 - _bitpos b1)); lia).
  destruct (storage_at_bits b1 k H1 Hp Hk0 Hk8) as (x & -> & H2).
  specialize (IH (Z.lor value (u32 (Z.shiftl (Z.land (Z.shiftr x (8 - (_bitpos b1 + k)))
    (Z.shiftl 1 k - 1)) (bits - k)))) (bits - k) _ H2).
  change (size {| b1 with _bitpos := _bitpos b1 + k |}) with (size b1) in IH.
  rewrite Hs in IH. exact IH.
Qed.

Lemma safe_ReadBits n : safe (ReadBits n).
Proof.
  unfold ReadBits. destruct ((n <? 0) || (32 <? n)); [|apply safe_ReadBits_loop].
  by apply safe_get.
Qed.

Lemma safe_ResetBits : safe ResetBits.
Proof. intros b Hb. split; [|done]. split; cbn; [apply Hb|lia|apply Hb]. Qed.

Lemma safe_get_string_loop fuel v : safe (get_string_loop fuel v).
Proof.
  revert v. induction fuel as [|fuel IH]; intros v; cbn [get_string_loop]; [apply safe_ret|].
  apply safe_get. intros b Hb. destruct (negb (_rpos b <? size b)); [done|].
  assert (safe (c ← read_T 1; if c =? 0 then mret v else get_string_loop fuel (v ++ [c]))) as Hs.
  { apply safe_bind; [by apply safe_read_T|]. intros c. destruct (c =? 0); [apply safe_ret|apply IH]. }
  exact (Hs b Hb).
Qed.

Lemma safe_readPackGUID_loop todo i mark guid : safe (readPackGUID_loop todo i mark guid).
Proof.
  revert i guid. induction todo as [|todo IH]; intros i guid; cbn [readPackGUID_loop]; [apply safe_ret|].
  destruct (has_flag mark _); [|apply IH].
  apply safe_get. intros b Hb. destruct (size b <? _); [done|].
  assert (safe (bit ← get_uint8; readPackGUID_loop todo (i + 1) mark
    (Z.lor guid (u64 (Z.shiftl bit (i * 8)))))) as Hs.
  { apply safe_bind; [by apply safe_read_T|]. intros c. apply IH. }
  exact (Hs b Hb).
Qed.

Lemma safe_readPackGUID : safe readPackGUID.
Proof.
  apply safe_get. intros b Hb. destruct (size b <? _); [done|].
  assert (safe (ResetBits ;; guidmark ← get_uint8; readPackGUID_loop 8 0 guidmark 0)) as Hs.
  { apply safe_bind; [apply safe_ResetBits|]. intros _. apply safe_bind; [by apply safe_read_T|].
    intros m. apply safe_readPackGUID_loop. }
  exact (Hs b Hb).
Qed.

(** Widths the layout of a packet may ask for: anything a [uint32] can say. *)
Definition layout_ok (f : field) : Prop :=
  match f with
  | FInt n _ => Z.of_nat n < 2 ^ 32
  | FRaw s => zlen s < 2 ^ 32
  | _ => True
  end.

Lemma safe_read_field f : layout_ok f -> safe (read_field f).
Proof.
  destruct f as [x|n v|n v|s|s|x|g]; cbn [layout_ok read_field]; intros Hf;
    (apply safe_bind; [|intros; apply safe_ret]).
  - apply safe_ReadBit.
  - apply safe_ReadBits.
  - apply safe_read_T. lia.
  - unfold get_string. apply safe_get. intros b Hb. by apply safe_get_string_loop.
  - unfold ReadString. destruct (zlen s =? 0); [apply safe_ret|].
    apply safe_bind; [|intros; apply safe_ret]. apply safe_read_bytes.
    pose proof (zlen_nonneg s). lia.
  - unfold ReadByteSeq. apply safe_bind; [apply safe_ResetBits|]. intros _.
    destruct (x =? 0); cbn [Z.eqb Pos.eqb negb]; [apply safe_ret|].
    apply safe_bind; [by apply safe_read_T|intros; apply safe_ret].
  - apply safe_readPackGUID.
Qed.

Lemma safe_read_packet fs : Forall layout_ok fs -> safe (read_packet fs).
Proof.
  induction 1 as [|f fs Hf _ IH]; cbn [read_packet]; [apply safe_ret|].
  apply safe_bind; [by apply safe_read_field|]. intros x.
  apply safe_bind; [exact IH|]. intros xs. apply safe_ret.
Qed.

(** ** The theorems *)

(** C1: A sequence of bit fields, integers, strings, masked bytes and packed GUIDs written
    into an empty packet is read back: the writers succeed, and the matching readers applied
    to the bytes of the packet give exactly the values written and end at the end of the
    packet.  Bit fields have at most 32 bits and integers at most 8 bytes, every value fits
    its width, strings have no zero byte and less than 2^31 others, a masked byte that is
    absent stands on a byte boundary (elsewhere see [ByteSeq_absent_desync]), and the packet
    has at most 9,999,999 bytes. *)
Theorem packet_roundtrip (fs : list field) :
  packet_ok 0 fs -> Z.of_nat (length (packet_bits 0 fs)) <= budget ->
  exists b b', mapM_ write_field fs new_ByteBuffer = (Ok tt, b)
    /\ read_packet fs (received b) = (Ok fs, b') /\ _rpos b' = size b.
Proof.
  intros Hok Hn. destruct (write_packet_wrep fs _ [] wrep_new Hok Hn) as (b & E & H & _).
  cbn [app length] in H. pose proof (size_budget b _ 0 H ltac:(lia)) as Hs.
  assert (Hr : rrep (received b) [] (packet_bits 0 fs
                     ++ replicate (pad (length (packet_bits 0 fs))) false)).
  { split; cbn; [apply H|done|done|apply H|unfold received, size in *; cbn; lia]. }
  destruct (read_packet_rrep fs _ [] _ Hok Hr) as (b' & E' & H').
  exists b, b'. split_and!; [done|done|].
  pose proof (rrep_rpos _ _ _ H') as Hp. pose proof (wrep_length _ _ H) as Hl.
  cbn [app length] in Hp. lia.
Qed.

(** A packet as the server builds them: a masked GUID with its bits first, an
    opcode word, a name, a packed GUID and a 3-bit field. *)
Definition sample_packet : list field :=
  [FBit true; FBits 7 5; FByteSeq 0; FByteSeq 77; FBits 3 6; FBits 12 2748; FInt 4 305419896;
   FString [72; 105]; FPackGUID 1152921504606846977; FRaw [65; 66]; FBits 32 4294967295; FBit true].

Lemma packet_roundtrip_witness :
  packet_ok 0 sample_packet /\
  exists b b', mapM_ write_field sample_packet new_ByteBuffer = (Ok tt, b)
    /\ read_packet sample_packet (received b) = (Ok sample_packet, b') /\ _rpos b' = size b.
Proof.
  assert (packet_ok 0 sample_packet) as H.
  { unfold sample_packet, nul_free. cbn [packet_ok field_ok]. unfold nul_free.
    repeat first [ exact I | lia | apply conj | apply List.Forall_nil | apply List.Forall_cons
                 | reflexivity ]. }
  split; [exact H|]. apply (packet_roundtrip sample_packet H). vm_compute. intros E; discriminate E.
Defined.

(** the chunked loop of [WriteBits] stores exactly the [n] low bits of the
    value, most significant first, after the bits already written - whatever
    the position in the current byte - and changes nothing else. *)
Theorem WriteBits_appends (b : ByteBuffer) (bs : list bool) (value : Z) (n : nat) :
  wrep b bs -> Z.of_nat (length bs + n) <= budget ->
  exists b', WriteBits value (Z.of_nat n) b = (Ok tt, b')
    /\ wrep b' (bs ++ bits_of n value) /\ _rpos b' = _rpos b.
Proof. intros H Hn. unfold WriteBits. rewrite Nat2Z.id. by apply WriteBits_loop_wrep. Qed.

Lemma WriteBits_appends_witness :
  wrep new_ByteBuffer [] /\
  exists b', WriteBits 1234 (Z.of_nat 19) new_ByteBuffer = (Ok tt, b')
    /\ wrep b' ([] ++ bits_of 19 1234) /\ _rpos b' = _rpos new_ByteBuffer.
Proof.
  split; [exact wrep_new|]. apply (WriteBits_appends new_ByteBuffer [] 1234 19 wrep_new).
  vm_compute. discriminate.
Defined.

(** C2: no packet a client can send makes the readers touch memory outside the
    packet or stop the server: whatever the bytes and whatever layout is read
    from them, the read ends normally or with the [ByteBufferException] the
    session catches, the read position is inside the packet and the packet
    keeps its size. *)
Theorem hostile_packet_safe (fs : list field) (b : ByteBuffer) :
  Forall layout_ok fs -> read_ok b ->
  match read_packet fs b with
  | (Ok _, b') => read_ok b' /\ size b' = size b
  | (Throw (ByteBufferException _ _ _ _), b') => read_ok b' /\ size b' = size b
  | _ => False
  end.
Proof. intros Hf Hb. exact (safe_read_packet fs Hf b Hb). Qed.

Definition truncated_packet : ByteBuffer := mkByteBuffer [255; 1; 2] 0 3 8.

Lemma hostile_packet_safe_witness :
  read_ok truncated_packet /\
  match read_packet [FPackGUID 0; FBits 31 0] truncated_packet with
  | (Ok _, b') => read_ok b' /\ size b' = size truncated_packet
  | (Throw (ByteBufferException _ _ _ _), b') => read_ok b' /\ size b' = size truncated_packet
  | _ => False
  end.
Proof.
  assert (read_ok truncated_packet) as H by (split; vm_compute; intuition congruence).
  split; [exact H|]. apply (hostile_packet_safe [FPackGUID 0; FBits 31 0] truncated_packet); [|exact H].
  repeat constructor.
Defined.

(** The asymmetry [field_ok] records: after a bit, an absent byte of a masked
    GUID is nothing to the writer but a byte boundary to the reader, so the bit
    that follows is not read back. *)
Theorem ByteSeq_absent_desync :
  exists b b', mapM_ write_field [FBit true; FByteSeq 0; FBit true] new_ByteBuffer = (Ok tt, b)
    /\ read_packet [FBit true; FByteSeq 0; FBit true] (received b)
       = (Throw (ByteBufferException false 1 1 1), b').
Proof.
  exists (mkByteBuffer [192] 0 1 2), (mkByteBuffer [192] 1 1 8). by split.
Qed.
