(* ===== verification/Reputation.v ===== *)
(** * ReputationMgr: standings, ranks and flags of a player with every faction
      (src/src/server/game/Reputation/ReputationMgr.cpp, .h)

    The faction tables (DBC stores and the spillover table) and the facts about
    the player the manager asks for are the fields of [Env]; messages, criteria
    updates and SQL statements are the events of [out], in order. *)

From S2P Require Import Prelude.
From S2P Require Import Float32.

(** ** Data *)

(* [game/DataStores/DBCStructure.h:1038-1060] FactionEntry *)
Record FactionEntry := mkFactionEntry {
  fe_ID : Z;
  reputationListID : Z;                  (* int32 *)
  BaseRepRaceMask : list Z;              (* [4] *)
  BaseRepClassMask : list Z;             (* [4] *)
  BaseRepValue : list Z;                 (* [4], int32 *)
  ReputationFlags : list Z;              (* [4] *)
  team : Z;
  spilloverRateIn : float32;
  spilloverRateOut : float32;
  spilloverMaxRankIn : Z
}.

(* [game/Globals/ObjectMgr.h:473-478] RepSpilloverTemplate *)
Record RepSpilloverTemplate := mkSpillover {
  sp_faction : list Z;                   (* [MAX_SPILLOVER_FACTIONS] *)
  sp_faction_rate : list float32;
  sp_faction_rank : list Z
}.

(* [game/Reputation/ReputationMgr.h:35-46] FactionFlags *)
Definition FACTION_FLAG_VISIBLE := 1.
Definition FACTION_FLAG_AT_WAR := 2.
Definition FACTION_FLAG_HIDDEN := 4.
Definition FACTION_FLAG_INVISIBLE_FORCED := 8.
Definition FACTION_FLAG_PEACE_FORCED := 16.
Definition FACTION_FLAG_INACTIVE := 32.
Definition FACTION_FLAG_SPECIAL := 128.

(* [game/Reputation/ReputationMgr.h:49-57] FactionState *)
Record FactionState := mkFactionState {
  fs_ID : Z;
  ReputationListID : Z;
  Standing : Z;                          (* int32 *)
  Flags : Z;                             (* uint8 *)
  needSend : bool;
  needSave : bool
}.

(* [game/Miscellaneous/SharedDefines.h:148-158] ReputationRank *)
Definition REP_HATED := 0.
Definition REP_HOSTILE := 1.
Definition REP_NEUTRAL := 3.
Definition REP_HONORED := 5.
Definition REP_REVERED := 6.
Definition REP_EXALTED := 7.

Inductive criteria := KNOWN_FACTIONS | GAIN_REPUTATION | GAIN_EXALTED | GAIN_REVERED
  | GAIN_HONORED | GUILD_GAIN_REPUTATION | GUILD_GAIN_EXALTED | GUILD_REACH_LEVEL.

Inductive rep_event :=
| SMSG_SET_FACTION_STANDING (increased : Z) (count : Z) (entries : list (Z * Z))
| SMSG_INITIALIZE_FACTIONS (count : Z) (entries : list (Z * Z))
| SMSG_SET_FACTION_VISIBLE (listID : Z)
| SMSG_SET_FORCED_REACTIONS (size : Z) (entries : list (Z * Z))
| ReputationChanged (faction : Z)
| UpdateCriteria (c : criteria) (value : Z)
| SqlDelete (faction : Z)
| SqlInsert (faction standing flags : Z).

(* [game/Reputation/ReputationMgr.h:154-162] ReputationMgr *)
Record RepMgr := mkRepMgr {
  _factions : gmap Z FactionState;       (* by RepListID *)
  _forcedReactions : gmap Z Z;
  _visibleFactionCount : Z;              (* uint8 :8 *)
  _honoredFactionCount : Z;
  _reveredFactionCount : Z;
  _exaltedFactionCount : Z;
  _sendFactionIncreased : bool;
  out : list rep_event
}.

(** What the manager reads elsewhere: the faction stores and the player. *)
Record Env := mkEnv {
  sFactionStore : gmap Z FactionEntry;
  NumRows : Z;
  FactionTeamList : gmap Z (list Z);
  SpilloverTemplate : gmap Z RepSpilloverTemplate;
  raceMask : Z;
  classMask : Z;
  level : Z;
  PlayerLoading : bool;
  IsPremium : bool;
  RATE_REPUTATION_GAIN : float32;
  RATE_REPUTATION_GAIN_PREMIUM : float32
}.

(* [game/Reputation/ReputationMgr.h:75-76] ReputationMgr::Reputation_Cap, Reputation_Bottom *)
Definition Reputation_Cap := 42999.
Definition Reputation_Bottom := -42000.

(* [game/Reputation/ReputationMgr.cpp:29-29] ReputationMgr::PointsInRank *)
Definition PointsInRank : list Z := [36000; 3000; 3000; 3000; 6000; 12000; 21000; 1000].

(** The loop over the ranks from the highest, with the limit so far. *)
Fixpoint rank_loop (points_desc : list Z) (limit i standing : Z) : Z :=
  match points_desc with
  | [] => REP_HATED
  | p :: ps => if limit - p <=? standing then i else rank_loop ps (limit - p) (i - 1) standing
  end.

(* [game/Reputation/ReputationMgr.cpp:31-41] ReputationMgr::ReputationToRank *)
Definition ReputationToRank (standing : Z) : Z :=
  rank_loop (rev PointsInRank) (Reputation_Cap + 1) 7 standing.

Definition emit (e : list rep_event) (r : RepMgr) : RepMgr := {| r with out := out r ++ e |}.

(** Writing through a pointer to the state kept under [k]. *)
Definition store_state (k : Z) (f : FactionState) (r : RepMgr) : RepMgr :=
  {| r with _factions := <[k := f]> (_factions r) |}.

Section ReputationMgr.
Context (env : Env).

(** The slot of the race and class masks a player falls in. *)
Fixpoint rep_slot (races classes : list Z) (i : nat) : option nat :=
  match races, classes with
  | rm :: races', cm :: classes' =>
    if (has_flag rm (raceMask env) || ((rm =? 0) && negb (cm =? 0)))
       && (has_flag cm (classMask env) || (cm =? 0))
    then Some i else rep_slot races' classes' (S i)
  | _, _ => None
  end.

(* [game/Reputation/ReputationMgr.cpp:79-99] ReputationMgr::GetBaseReputation *)
Definition GetBaseReputation (factionEntry : option FactionEntry) : Z :=
  match factionEntry with
  | None => 0
  | Some fe => match rep_slot (BaseRepRaceMask fe) (BaseRepClassMask fe) 0 with
               | Some i => nth i (BaseRepValue fe) 0
               | None => 0
               end
  end.

(* [game/Reputation/ReputationMgr.cpp:133-151] ReputationMgr::GetDefaultStateFlags *)
Definition GetDefaultStateFlags (factionEntry : option FactionEntry) : Z :=
  match factionEntry with
  | None => 0
  | Some fe => match rep_slot (BaseRepRaceMask fe) (BaseRepClassMask fe) 0 with
               | Some i => nth i (ReputationFlags fe) 0
               | None => 0
               end
  end.

(* [game/Reputation/ReputationMgr.h:87-96] ReputationMgr::GetState *)
Definition GetState (r : RepMgr) (fe : FactionEntry) : option FactionState :=
  if 0 <=? reputationListID fe then _factions r !! u32 (reputationListID fe) else None.

(* [game/Reputation/ReputationMgr.cpp:101-111] ReputationMgr::GetReputation *)
Definition GetReputation (r : RepMgr) (factionEntry : option FactionEntry) : Z :=
  match factionEntry with
  | None => 0
  | Some fe => match GetState r fe with
               | Some state => i32 (GetBaseReputation (Some fe) + Standing state)
               | None => 0
               end
  end.

(* [game/Reputation/ReputationMgr.cpp:66-77] ReputationMgr::GetReputation(uint32) *)
Definition GetReputation_id (r : RepMgr) (faction_id : Z) : Z :=
  match sFactionStore env !! faction_id with
  | None => 0
  | Some fe => GetReputation r (Some fe)
  end.

(* [game/Reputation/ReputationMgr.cpp:113-117] ReputationMgr::GetRank *)
Definition GetRank (r : RepMgr) (factionEntry : option FactionEntry) : Z :=
  ReputationToRank (GetReputation r factionEntry).

(* [game/Reputation/ReputationMgr.cpp:119-123] ReputationMgr::GetBaseRank *)
Definition GetBaseRank (factionEntry : option FactionEntry) : Z :=
  ReputationToRank (GetBaseReputation factionEntry).

(* [game/Entities/Player/Player.cpp:6955-6959] Player::GetReputationRank *)
Definition GetReputationRank (r : RepMgr) (faction : Z) : Z :=
  GetRank r (sFactionStore env !! faction).

(* [game/Reputation/ReputationMgr.cpp:56-64] ReputationMgr::IsAtWar *)
Definition IsAtWar (r : RepMgr) (factionEntry : option FactionEntry) : bool :=
  match factionEntry with
  | None => false
  | Some fe => match GetState r fe with
               | Some state => has_flag (Flags state) FACTION_FLAG_AT_WAR
               | None => false
               end
  end.

(* [game/Reputation/ReputationMgr.cpp:43-54] ReputationMgr::IsAtWar(uint32) *)
Definition IsAtWar_id (r : RepMgr) (faction_id : Z) : bool :=
  match sFactionStore env !! faction_id with
  | None => false
  | Some fe => IsAtWar r (Some fe)
  end.

(* [game/Reputation/ReputationMgr.cpp:125-131] ReputationMgr::ApplyForceReaction *)
Definition ApplyForceReaction (faction_id rank : Z) (apply : bool) (r : RepMgr) : RepMgr :=
  {| r with _forcedReactions :=
       if apply then <[faction_id := rank]> (_forcedReactions r)
       else delete faction_id (_forcedReactions r) |}.

(** ** Messages *)

(* [game/Reputation/ReputationMgr.cpp:153-164] ReputationMgr::SendForceReactions *)
Definition SendForceReactions (r : RepMgr) : RepMgr :=
  emit [SMSG_SET_FORCED_REACTIONS (zlen (ordered (_forcedReactions r)))
          (ordered (_forcedReactions r))] r.

(** [count], patched into the packet afterwards, is one more than the other
    changed factions. *)
(* [game/Reputation/ReputationMgr.cpp:166-197] ReputationMgr::SendState *)
Definition SendState (faction : FactionState) (r : RepMgr) : RepMgr :=
  let others := List.filter (fun kv => needSend kv.2
      && negb (ReputationListID kv.2 =? ReputationListID faction)) (ordered (_factions r)) in
  emit [SMSG_SET_FACTION_STANDING (Z.b2z (_sendFactionIncreased r)) (u32 (1 + zlen others))
          ((ReputationListID faction, u32 (Standing faction))
           :: map (fun kv => (ReputationListID kv.2, u32 (Standing kv.2))) others)]
    {| r with _sendFactionIncreased := false;
       _factions := (fun f => {| f with needSend := false |}) <$> _factions r |}.

(** The packet has a slot per list id: absent ones are filled with zeros up to
    the next faction, then up to 256. *)
Fixpoint initial_entries (a : Z) (l : list (Z * FactionState)) : list (Z * Z) :=
  match l with
  | [] => replicate (Z.to_nat (u32 (256 - a))) (0, 0)
  | (k, f) :: l' => replicate (Z.to_nat (u32 (k - a))) (0, 0)
                    ++ (u8 (Flags f), u32 (Standing f)) :: initial_entries (u32 (k + 1)) l'
  end.

(* [game/Reputation/ReputationMgr.cpp:199-232] ReputationMgr::SendInitialReputations *)
Definition SendInitialReputations (r : RepMgr) : RepMgr :=
  emit [SMSG_INITIALIZE_FACTIONS 256 (initial_entries 0 (ordered (_factions r)))]
    {| r with _factions := (fun f => {| f with needSend := false |}) <$> _factions r |}.

(** Each state is sent as it is when the loop comes to it. *)
(* [game/Reputation/ReputationMgr.cpp:234-238] ReputationMgr::SendStates *)
Definition SendStates (r : RepMgr) : RepMgr :=
  foldl (fun r kv => match _factions r !! (kv.1 : Z) with
                     | Some f => SendState f r
                     | None => r
                     end) r (ordered (_factions r)).

(* [game/Reputation/ReputationMgr.cpp:240-249] ReputationMgr::SendVisible *)
Definition SendVisible (faction : FactionState) (r : RepMgr) : RepMgr :=
  if PlayerLoading env then r else emit [SMSG_SET_FACTION_VISIBLE (ReputationListID faction)] r.

(** ** Changing the state of one faction *)

(* [game/Reputation/ReputationMgr.cpp:586-601] ReputationMgr::UpdateRankCounters *)
Definition UpdateRankCounters (old_rank new_rank : Z) (r : RepMgr) : RepMgr :=
  let step (least c : Z) :=
    let c := if least <=? old_rank then u8 (c - 1) else c in
    if least <=? new_rank then u8 (c + 1) else c in
  {| r with _exaltedFactionCount := step REP_EXALTED (_exaltedFactionCount r);
     _reveredFactionCount := step REP_REVERED (_reveredFactionCount r);
     _honoredFactionCount := step REP_HONORED (_honoredFactionCount r) |}.

(** The [FactionState*] methods take the key the pointer was found under. *)
(* [game/Reputation/ReputationMgr.cpp:432-450] ReputationMgr::SetVisible(FactionState) *)
Definition SetVisible_state (k : Z) (faction : FactionState) (r : RepMgr) : RepMgr :=
  if has_flag (Flags faction) (Z.lor FACTION_FLAG_INVISIBLE_FORCED FACTION_FLAG_HIDDEN)
     && negb (has_flag (Flags faction) FACTION_FLAG_SPECIAL) then r
  else if has_flag (Flags faction) FACTION_FLAG_VISIBLE then r
  else
    let faction := {| faction with Flags := u8 (Z.lor (Flags faction) FACTION_FLAG_VISIBLE);
                      needSend := true; needSave := true |} in
    SendVisible faction
      {| (store_state k faction r) with
         _visibleFactionCount := u8 (_visibleFactionCount r + 1) |}.

(* [game/Reputation/ReputationMgr.cpp:420-430] ReputationMgr::SetVisible(FactionEntry) *)
Definition SetVisible_entry (fe : FactionEntry) (r : RepMgr) : RepMgr :=
  if reputationListID fe <? 0 then r else
  match _factions r !! u32 (reputationListID fe) with
  | None => r
  | Some f => SetVisible_state (u32 (reputationListID fe)) f r
  end.

(** [tmpl_faction] is the faction of the template. *)
(* [game/Reputation/ReputationMgr.cpp:409-418] ReputationMgr::SetVisible(FactionTemplateEntry) *)
Definition SetVisible (tmpl_faction : Z) (r : RepMgr) : RepMgr :=
  if tmpl_faction =? 0 then r else
  match sFactionStore env !! tmpl_faction with
  | None => r
  | Some fe =>
    if has_flag (nth 1 (BaseRepRaceMask fe) 0) (raceMask env)
       && (nth 1 (BaseRepValue fe) 0 =? Reputation_Bottom)
    then r else SetVisible_entry fe r
  end.

(* [game/Reputation/ReputationMgr.cpp:465-482] ReputationMgr::SetAtWar(FactionState) *)
Definition SetAtWar_state (k : Z) (faction : FactionState) (atWar : bool) (r : RepMgr) : RepMgr :=
  if atWar && has_flag (Flags faction) FACTION_FLAG_PEACE_FORCED then r
  else if Bool.eqb (has_flag (Flags faction) FACTION_FLAG_AT_WAR) atWar then r
  else store_state k {| faction with
         Flags := if atWar then u8 (Z.lor (Flags faction) FACTION_FLAG_AT_WAR)
                  else u8 (Z.land (Flags faction) (Z.lnot FACTION_FLAG_AT_WAR));
         needSend := true; needSave := true |} r.

(* [game/Reputation/ReputationMgr.cpp:452-463] ReputationMgr::SetAtWar(RepListID) *)
Definition SetAtWar (repListID : Z) (on : bool) (r : RepMgr) : RepMgr :=
  match _factions r !! repListID with
  | None => r
  | Some f =>
    if has_flag (Flags f) (Z.lor FACTION_FLAG_INVISIBLE_FORCED FACTION_FLAG_HIDDEN) then r
    else SetAtWar_state repListID f on r
  end.

(* [game/Reputation/ReputationMgr.cpp:493-510] ReputationMgr::SetInactive(FactionState) *)
Definition SetInactive_state (k : Z) (faction : FactionState) (inactive : bool) (r : RepMgr) : RepMgr :=
  if inactive && (has_flag (Flags faction) (Z.lor FACTION_FLAG_INVISIBLE_FORCED FACTION_FLAG_HIDDEN)
                  || negb (has_flag (Flags faction) FACTION_FLAG_VISIBLE)) then r
  else if Bool.eqb (has_flag (Flags faction) FACTION_FLAG_INACTIVE) inactive then r
  else store_state k {| faction with
         Flags := if inactive then u8 (Z.lor (Flags faction) FACTION_FLAG_INACTIVE)
                  else u8 (Z.land (Flags faction) (Z.lnot FACTION_FLAG_INACTIVE));
         needSend := true; needSave := true |} r.

(* [game/Reputation/ReputationMgr.cpp:484-491] ReputationMgr::SetInactive(RepListID) *)
Definition SetInactive (repListID : Z) (on : bool) (r : RepMgr) : RepMgr :=
  match _factions r !! repListID with
  | None => r
  | Some f => SetInactive_state repListID f on r
  end.

(** [standing *= rate], rounded to nearest by adding one half. *)
Definition apply_rate (standing : Z) (rate : float32) : Z :=
  f_floor_i32 (fadd (fmul (f_of_Z standing) rate) f_half).

(** Reading a state back through the iterator after a method changed it. *)
Definition state_at (k : Z) (d : FactionState) (r : RepMgr) : FactionState :=
  default d (_factions r !! k).

Definition clamp_standing (standing : Z) : Z :=
  if Reputation_Cap <? standing then Reputation_Cap
  else if standing <? Reputation_Bottom then Reputation_Bottom
  else standing.

(* [game/Reputation/ReputationMgr.cpp:354-407] ReputationMgr::SetOneFactionReputation *)
Definition SetOneFactionReputation (fe : FactionEntry) (standing : Z) (incremental : bool)
    (r : RepMgr) : bool * RepMgr :=
  let k := u32 (reputationListID fe) in
  match _factions r !! k with
  | None => (false, r)
  | Some f =>
    let BaseRep := GetBaseReputation (Some fe) in
    let standing :=
      if incremental then
        let standing := apply_rate standing (RATE_REPUTATION_GAIN env) in
        let standing := if IsPremium env
          then apply_rate standing (RATE_REPUTATION_GAIN_PREMIUM env) else standing in
        i32 (standing + i32 (Standing f + BaseRep))
      else standing in
    let standing := clamp_standing standing in
    let old_rank := ReputationToRank (i32 (Standing f + BaseRep)) in
    let new_rank := ReputationToRank standing in
    let f := {| f with Standing := i32 (standing - BaseRep);
                needSend := true; needSave := true |} in
    let r := SetVisible_state k f (store_state k f r) in
    let r := if new_rank <=? REP_HOSTILE then SetAtWar_state k (state_at k f r) true r else r in
    let r := if old_rank <? new_rank then {| r with _sendFactionIncreased := true |} else r in
    let r := UpdateRankCounters old_rank new_rank r in
    let id := fe_ID fe in
    (true, emit ([ReputationChanged id; UpdateCriteria KNOWN_FACTIONS id;
        UpdateCriteria GAIN_REPUTATION id; UpdateCriteria GAIN_EXALTED id;
        UpdateCriteria GAIN_REVERED id; UpdateCriteria GAIN_HONORED id;
        UpdateCriteria GUILD_GAIN_REPUTATION id; UpdateCriteria GUILD_GAIN_EXALTED id]
        ++ (if id =? 1168 then [UpdateCriteria GUILD_REACH_LEVEL (level env)] else [])) r)
  end.

(** The five spillover factions of a template, in order. *)
Definition spill_template (tm : RepSpilloverTemplate) (standing : Z) (incremental : bool)
    (r : RepMgr) : RepMgr :=
  foldl (fun r i =>
    let fid := nth i (sp_faction tm) 0 in
    if fid =? 0 then r else
    if GetReputationRank r fid <=? nth i (sp_faction_rank tm) 0 then
      match sFactionStore env !! fid with
      | Some fe => (SetOneFactionReputation fe
          (f_to_i32 (fmul (f_of_Z standing) (nth i (sp_faction_rate tm) f_zero))) incremental r).2
      | None => r
      end
    else r) r (seq 0 5).

(** The affiliated factions of a team list. *)
Definition spill_list (self : FactionEntry) (flist : list Z) (spillOverRepOut : float32)
    (incremental : bool) (res : bool) (r : RepMgr) : bool * RepMgr :=
  foldl (fun (a : bool * RepMgr) fid =>
    let '(res, r) := a in
    match sFactionStore env !! fid with
    | None => (res, r)
    | Some calc =>
      if (fe_ID calc =? fe_ID self) || (spilloverMaxRankIn calc <? GetRank r (Some calc))
      then (res, r)
      else
        let spilloverRep := f_to_i32 (fmul spillOverRepOut (spilloverRateIn calc)) in
        if negb (spilloverRep =? 0) || negb incremental
        then SetOneFactionReputation calc spilloverRep incremental r
        else (res, r)
    end) (res, r) flist.

(* [game/Reputation/ReputationMgr.cpp:284-352] ReputationMgr::SetReputation *)
Definition SetReputation (fe : FactionEntry) (standing : Z) (incremental : bool) (r : RepMgr)
    : bool * RepMgr :=
  let '(res, r) :=
    match SpilloverTemplate env !! fe_ID fe with
    | Some tm => (false, spill_template tm standing incremental r)
    | None =>
      let out0 := f_of_Z standing in
      let flist := FactionTeamList env !! fe_ID fe in
      let '(flist, spillOverRepOut, r) :=
        match flist with
        | None =>
          if negb (team fe =? 0) && negb (feq (spilloverRateOut fe) f_zero) then
            let spillOverRepOut := fmul out0 (spilloverRateOut fe) in
            match sFactionStore env !! team fe with
            | None => (None, spillOverRepOut, r)
            | Some parent =>
              match _factions r !! u32 (reputationListID parent) with
              | Some ps =>
                if has_flag (Flags ps) FACTION_FLAG_SPECIAL
                then (None, spillOverRepOut,
                      (SetOneFactionReputation parent (f_to_i32 spillOverRepOut) incremental r).2)
                else (FactionTeamList env !! team fe, spillOverRepOut, r)
              | None => (FactionTeamList env !! team fe, spillOverRepOut, r)
              end
            end
          else (None, out0, r)
        | Some l => (Some l, out0, r)
        end in
      match flist with
      | Some l => spill_list fe l spillOverRepOut incremental false r
      | None => (false, r)
      end
    end in
  let k := u32 (reputationListID fe) in
  match _factions r !! k with
  | Some f =>
    let '(res, r) := SetOneFactionReputation fe standing incremental r in
    (res, SendState (state_at k f r) r)
  | None => (res, r)
  end.

(** ** Login and logout *)

(* [game/Reputation/ReputationMgr.cpp:251-282] ReputationMgr::Initialize *)
Definition Initialize (r : RepMgr) : RepMgr :=
  foldl (fun r i =>
    match sFactionStore env !! Z.of_nat i with
    | Some fe =>
      if 0 <=? reputationListID fe then
        let newFaction := mkFactionState (fe_ID fe) (u32 (reputationListID fe)) 0
          (u8 (GetDefaultStateFlags (Some fe))) true true in
        let r := if has_flag (Flags newFaction) FACTION_FLAG_VISIBLE
          then {| r with _visibleFactionCount := u8 (_visibleFactionCount r + 1) |} else r in
        let r := UpdateRankCounters REP_HOSTILE (GetBaseRank (Some fe)) r in
        store_state (ReputationListID newFaction) newFaction r
      else r
    | None => r
    end)
    {| r with _factions := ∅; _visibleFactionCount := 0; _honoredFactionCount := 0;
       _reveredFactionCount := 0; _exaltedFactionCount := 0; _sendFactionIncreased := false |}
    (seq 1 (Z.to_nat (NumRows env) - 1)).

(** A row of character_reputation: faction, standing, flags. *)
Definition load_row (r : RepMgr) (row : Z * Z * Z) : RepMgr :=
  let '(faction_id, standing, dbFactionFlags) := row in
  match sFactionStore env !! faction_id with
  | Some fe =>
    if 0 <=? reputationListID fe then
      let k := u32 (reputationListID fe) in
      let f := {| (default (mkFactionState 0 0 0 0 false false) (_factions r !! k)) with
                  Standing := standing |} in
      let r := store_state k f r in
      let BaseRep := GetBaseReputation (Some fe) in
      let r := UpdateRankCounters (ReputationToRank BaseRep)
                 (ReputationToRank (i32 (BaseRep + standing))) r in
      let r := if has_flag dbFactionFlags FACTION_FLAG_VISIBLE
               then SetVisible_state k f r else r in
      let r := if has_flag dbFactionFlags FACTION_FLAG_INACTIVE
               then SetInactive_state k (state_at k f r) true r else r in
      let r := if has_flag dbFactionFlags FACTION_FLAG_AT_WAR
               then SetAtWar_state k (state_at k f r) true r
               else if has_flag (Flags (state_at k f r)) FACTION_FLAG_VISIBLE
               then SetAtWar_state k (state_at k f r) false r else r in
      let r := if GetRank r (Some fe) <=? REP_HOSTILE
               then SetAtWar_state k (state_at k f r) true r else r in
      if Flags (state_at k f r) =? dbFactionFlags
      then store_state k {| (state_at k f r) with needSend := false; needSave := false |} r
      else r
    else r
  | None => r
  end.

(* [game/Reputation/ReputationMgr.cpp:512-570] ReputationMgr::LoadFromDB *)
Definition LoadFromDB (rows : list (Z * Z * Z)) (r : RepMgr) : RepMgr :=
  foldl load_row (Initialize r) rows.

(* [game/Reputation/ReputationMgr.cpp:572-584] ReputationMgr::SaveToDB *)
Definition SaveToDB (r : RepMgr) : RepMgr :=
  emit (mbind (fun kv => if needSave kv.2
          then [SqlDelete (fs_ID kv.2); SqlInsert (fs_ID kv.2) (Standing kv.2) (Flags kv.2)]
          else []) (ordered (_factions r)))
    {| r with _factions := (fun f => if needSave f then {| f with needSave := false |} else f)
                           <$> _factions r |}.

End ReputationMgr.
