(* ===== verification/ReputationSpec.v ===== *)
(** * ReputationMgr: ranks, ranges and the faction counters *)

From S2P Require Import Prelude.
From S2P Require Import Float32.
From S2P Require Import Reputation.

(** ** Ranks *)

Lemma ReputationToRank_thresholds s :
  ReputationToRank s =
    if 42000 <=? s then 7 else if 21000 <=? s then 6 else if 9000 <=? s then 5
    else if 3000 <=? s then 4 else if 0 <=? s then 3 else if -3000 <=? s then 2
    else if -6000 <=? s then 1 else 0.
Proof.
  unfold ReputationToRank, PointsInRank, Reputation_Cap. cbn [rev app rank_loop].
  repeat match goal with |- context [?a <=? s] =>
    match a with context [_ - _] => let v := eval vm_compute in a in change a with v end end.
  destruct (-42000 <=? s); done.
Qed.

Section Spec.
Context (env : Env).

(** The faction stores: rows are kept under their id, a list id belongs to one
    faction, and base standings are standings. *)
Record env_ok : Prop := {
  env_ID : forall i fe, sFactionStore env !! i = Some fe -> fe_ID fe = i;
  env_listID : forall i fe, sFactionStore env !! i = Some fe ->
    in_i 32 (reputationListID fe);
  env_inj : forall i j fe fe', sFactionStore env !! i = Some fe ->
    sFactionStore env !! j = Some fe' -> 0 <= reputationListID fe ->
    reputationListID fe = reputationListID fe' -> i = j;
  env_rows : forall i, is_Some (sFactionStore env !! i) -> 1 <= i < NumRows env;
  env_base : forall i fe, sFactionStore env !! i = Some fe ->
    Reputation_Bottom <= GetBaseReputation env (Some fe) <= Reputation_Cap
}.

Definition base_of (f : FactionState) : Z := GetBaseReputation env (sFactionStore env !! fs_ID f).
Definition rank_of (f : FactionState) : Z := ReputationToRank (i32 (base_of f + Standing f)).
Definition visible (f : FactionState) : bool := has_flag (Flags f) FACTION_FLAG_VISIBLE.
Definition at_least (least : Z) (f : FactionState) : bool := least <=? rank_of f.

(** A state kept under its list id, for a faction of the store, with a total
    standing in range. *)
Record state_ok (k : Z) (f : FactionState) : Prop := {
  state_key : ReputationListID f = k;
  state_faction : exists fe, sFactionStore env !! fs_ID f = Some fe
    /\ 0 <= reputationListID fe /\ u32 (reputationListID fe) = k;
  state_range : Reputation_Bottom <= base_of f + Standing f <= Reputation_Cap
}.

Record rep_ok (r : RepMgr) : Prop := {
  rep_states : map_Forall state_ok (_factions r);
  rep_visible : _visibleFactionCount r = u8 (countP visible (_factions r));
  rep_honored : _honoredFactionCount r = u8 (countP (at_least REP_HONORED) (_factions r));
  rep_revered : _reveredFactionCount r = u8 (countP (at_least REP_REVERED) (_factions r));
  rep_exalted : _exaltedFactionCount r = u8 (countP (at_least REP_EXALTED) (_factions r))
}.

Lemma u8_add a b : u8 (u8 a + b) = u8 (a + b).
Proof. unfold wrap. by rewrite Zplus_mod_idemp_l. Qed.

Lemma u8_sub a b : u8 (u8 a - b) = u8 (a - b).
Proof. unfold wrap. by rewrite Zminus_mod_idemp_l. Qed.

(** A counter follows its count when one faction goes from [old] to [new]. *)
Lemma counter_step (least old new n : Z) :
  (let c := if least <=? old then u8 (u8 n - 1) else u8 n in
   if least <=? new then u8 (c + 1) else c)
  = u8 (n - Z.b2z (least <=? old) + Z.b2z (least <=? new)).
Proof.
  destruct (least <=? old), (least <=? new); cbn; rewrite ?u8_sub, ?u8_add; f_equal; lia.
Qed.

Lemma range_i32 z : Reputation_Bottom <= z <= Reputation_Cap -> i32 z = z.
Proof. intros H. apply swrap_small; unfold Reputation_Bottom, Reputation_Cap in *; lia. Qed.

Lemma emit_ok e r : rep_ok r -> rep_ok (emit e r).
Proof. by intros []. Qed.

Lemma SendVisible_ok f r : rep_ok r -> rep_ok (SendVisible env f r).
Proof. intros H. unfold SendVisible. destruct (PlayerLoading env); [done|by apply emit_ok]. Qed.

(** Replacing a state by one with the same faction and standing. *)
Lemma store_flags_ok k f f' r :
  rep_ok r -> _factions r !! k = Some f ->
  fs_ID f' = fs_ID f -> ReputationListID f' = ReputationListID f -> Standing f' = Standing f ->
  rep_ok {| (store_state k f' r) with
    _visibleFactionCount := u8 (_visibleFactionCount r - Z.b2z (visible f) + Z.b2z (visible f')) |}.
Proof.
  intros H Hk E1 E2 E3. pose proof (rep_states _ H k f Hk) as Hf.
  assert (Hrank : forall least, at_least least f' = at_least least f)
    by (intros; unfold at_least, rank_of, base_of; by rewrite E1, E3).
  split; cbn.
  - apply map_Forall_insert_2; [|apply H]. destruct Hf as [].
    split; unfold base_of in *; rewrite ?E1, ?E2, ?E3; done.
  - rewrite (countP_update _ _ _ _ _ Hk), (rep_visible _ H).
    rewrite <- Z.add_sub_swap, <- Z.add_sub_assoc, u8_add. f_equal. lia.
  - rewrite (countP_update _ _ _ _ _ Hk), Hrank, (rep_honored _ H). f_equal. lia.
  - rewrite (countP_update _ _ _ _ _ Hk), Hrank, (rep_revered _ H). f_equal. lia.
  - rewrite (countP_update _ _ _ _ _ Hk), Hrank, (rep_exalted _ H). f_equal. lia.
Qed.

(** The same when the faction stays visible, or stays not visible. *)
Lemma store_same_visible_ok k f f' r :
  rep_ok r -> _factions r !! k = Some f ->
  fs_ID f' = fs_ID f -> ReputationListID f' = ReputationListID f -> Standing f' = Standing f ->
  visible f' = visible f -> rep_ok (store_state k f' r).
Proof.
  intros H Hk E1 E2 E3 E4. pose proof (store_flags_ok k f f' r H Hk E1 E2 E3) as H'.
  destruct H' as [Hs Hv H1 H2 H3]. split; try done. cbn in *. rewrite <- Hv, E4.
  replace (_visibleFactionCount r - Z.b2z (visible f) + Z.b2z (visible f))
    with (_visibleFactionCount r) by lia.
  rewrite (rep_visible _ H). by rewrite wrap_wrap.
Qed.

(** ** Flags *)

Lemma flag_set x n m : 0 <= n < 8 -> 0 <= m < 8 ->
  has_flag (u8 (Z.lor x (2 ^ m))) (2 ^ n) = (n =? m) || has_flag x (2 ^ n).
Proof.
  intros Hn Hm. rewrite has_flag_wrap, has_flag_bit, Z.lor_spec, Z.pow2_bits_eqb by lia.
  rewrite orb_comm. f_equal. apply Z.eqb_sym.
Qed.

Lemma flag_clear x n m : 0 <= n < 8 -> 0 <= m < 8 ->
  has_flag (u8 (Z.land x (Z.lnot (2 ^ m)))) (2 ^ n) = negb (n =? m) && has_flag x (2 ^ n).
Proof.
  intros Hn Hm. rewrite has_flag_wrap, has_flag_bit, Z.land_spec, Z.lnot_spec, Z.pow2_bits_eqb by lia.
  rewrite andb_comm. do 2 f_equal. apply Z.eqb_sym.
Qed.

Lemma SetVisible_state_ok k f r :
  rep_ok r -> _factions r !! k = Some f -> rep_ok (SetVisible_state env k f r).
Proof.
  intros H Hk. unfold SetVisible_state.
  destruct (_ && _); [done|]. destruct (has_flag (Flags f) FACTION_FLAG_VISIBLE) eqn:E; [done|].
  apply SendVisible_ok.
  match goal with |- rep_ok {| (store_state k ?f' r) with _visibleFactionCount := _ |} =>
    pose proof (store_flags_ok k f f' r H Hk eq_refl eq_refl eq_refl) as H' end.
  unfold visible in H' at 1. rewrite E in H'. unfold visible in H' at 1. cbn [Flags] in H'.
  change FACTION_FLAG_VISIBLE with (2 ^ 0) in *. rewrite flag_set in H' by lia.
  cbn [Z.eqb orb Z.b2z] in H'. by rewrite Z.sub_0_r in H'.
Qed.

Lemma SetAtWar_state_ok k f w r :
  rep_ok r -> _factions r !! k = Some f -> rep_ok (SetAtWar_state k f w r).
Proof.
  intros H Hk. unfold SetAtWar_state. destruct (_ && _); [done|]. destruct (Bool.eqb _ _); [done|].
  apply (store_same_visible_ok k f); try done. unfold visible. cbn [Flags].
  change FACTION_FLAG_VISIBLE with (2 ^ 0). change FACTION_FLAG_AT_WAR with (2 ^ 1).
  destruct w; [rewrite flag_set by lia|rewrite flag_clear by lia]; done.
Qed.

Lemma SetInactive_state_ok k f w r :
  rep_ok r -> _factions r !! k = Some f -> rep_ok (SetInactive_state k f w r).
Proof.
  intros H Hk. unfold SetInactive_state. destruct (_ && _); [done|]. destruct (Bool.eqb _ _); [done|].
  apply (store_same_visible_ok k f); try done. unfold visible. cbn [Flags].
  change FACTION_FLAG_VISIBLE with (2 ^ 0). change FACTION_FLAG_INACTIVE with (2 ^ 5).
  destruct w; [rewrite flag_set by lia|rewrite flag_clear by lia]; done.
Qed.

(** The flag writers keep the standing, and every other faction. *)
Lemma SetVisible_state_lookup k f r j :
  _factions r !! k = Some f ->
  exists g, _factions (SetVisible_state env k f r) !! k = Some g
    /\ Standing g = Standing f /\ fs_ID g = fs_ID f
    /\ (j <> k -> _factions (SetVisible_state env k f r) !! j = _factions r !! j).
Proof.
  intros Hk. unfold SetVisible_state, SendVisible.
  destruct (_ && _); [by exists f|]. destruct (has_flag _ _); [by exists f|].
  destruct (PlayerLoading env); cbn; rewrite lookup_insert_eq; eexists; split_and!; try done;
    intros; by rewrite lookup_insert_ne.
Qed.

Definition at_war (f : FactionState) : bool := has_flag (Flags f) FACTION_FLAG_AT_WAR.
Definition peace_forced (f : FactionState) : bool := has_flag (Flags f) FACTION_FLAG_PEACE_FORCED.

Lemma SetAtWar_state_true k f r g :
  _factions r !! k = Some f -> _factions (SetAtWar_state k f true r) !! k = Some g ->
  at_war g || peace_forced g = true.
Proof.
  intros Hk. unfold SetAtWar_state, at_war, peace_forced. cbn [andb].
  destruct (has_flag (Flags f) FACTION_FLAG_PEACE_FORCED) eqn:E1.
  { rewrite Hk. intros [= <-]. by rewrite E1, orb_true_r. }
  destruct (has_flag (Flags f) FACTION_FLAG_AT_WAR) eqn:E2; cbn [Bool.eqb].
  { rewrite Hk. intros [= <-]. by rewrite E2. }
  cbn. rewrite lookup_insert_eq. intros [= <-]. cbn [Flags].
  change FACTION_FLAG_AT_WAR with (2 ^ 1). by rewrite flag_set by lia.
Qed.

Lemma SetAtWar_state_lookup k f w r j :
  _factions r !! k = Some f ->
  exists g, _factions (SetAtWar_state k f w r) !! k = Some g
    /\ Standing g = Standing f /\ fs_ID g = fs_ID f
    /\ (j <> k -> _factions (SetAtWar_state k f w r) !! j = _factions r !! j).
Proof.
  intros Hk. unfold SetAtWar_state. destruct (_ && _); [by exists f|].
  destruct (Bool.eqb _ _); [by exists f|]. cbn. rewrite lookup_insert_eq.
  eexists; split_and!; try done. intros. by rewrite lookup_insert_ne.
Qed.

(** [UpdateRankCounters] touches the counters only, the flag writers nothing
    it reads. *)
Lemma UpdateRankCounters_SetVisible o n k f r :
  UpdateRankCounters o n (SetVisible_state env k f r)
  = SetVisible_state env k f (UpdateRankCounters o n r).
Proof.
  unfold SetVisible_state, SendVisible. destruct (_ && _); [done|]. destruct (has_flag _ _); [done|].
  by destruct (PlayerLoading env).
Qed.

Lemma UpdateRankCounters_SetAtWar o n k f w r :
  UpdateRankCounters o n (SetAtWar_state k f w r)
  = SetAtWar_state k f w (UpdateRankCounters o n r).
Proof. unfold SetAtWar_state. destruct (_ && _); [done|]. by destruct (Bool.eqb _ _). Qed.

(** A new standing and the counters that follow it. *)
Lemma store_standing_ok k f f' r :
  rep_ok r -> _factions r !! k = Some f ->
  fs_ID f' = fs_ID f -> ReputationListID f' = ReputationListID f -> visible f' = visible f ->
  Reputation_Bottom <= base_of f + Standing f' <= Reputation_Cap ->
  rep_ok (UpdateRankCounters (rank_of f) (rank_of f') (store_state k f' r)).
Proof.
  intros H Hk E1 E2 E3 Hr. pose proof (rep_states _ H k f Hk) as Hf.
  split; cbn [_factions UpdateRankCounters store_state _visibleFactionCount
              _honoredFactionCount _reveredFactionCount _exaltedFactionCount].
  - apply map_Forall_insert_2; [|apply H]. destruct Hf as [].
    split; unfold base_of in *; rewrite ?E1, ?E2; done.
  - rewrite (countP_update _ _ _ _ _ Hk), (rep_visible _ H), E3. f_equal. lia.
  - rewrite (countP_update _ _ _ _ _ Hk), (rep_honored _ H). apply counter_step.
  - rewrite (countP_update _ _ _ _ _ Hk), (rep_revered _ H). apply counter_step.
  - rewrite (countP_update _ _ _ _ _ Hk), (rep_exalted _ H). apply counter_step.
Qed.

Lemma clamp_range s : Reputation_Bottom <= clamp_standing s <= Reputation_Cap.
Proof. unfold clamp_standing, Reputation_Bottom, Reputation_Cap. bdestr; [lia|]. bdestr; lia. Qed.

(** The faction entry is the row of the store under its id. *)
Definition entry_ok (fe : FactionEntry) : Prop := sFactionStore env !! fe_ID fe = Some fe.

(** What a wanted change of standing aims at, before the clamp. *)
Definition target (fe : FactionEntry) (f : FactionState) (standing : Z) (incremental : bool) : Z :=
  if incremental then
    let s := apply_rate standing (RATE_REPUTATION_GAIN env) in
    let s := if IsPremium env then apply_rate s (RATE_REPUTATION_GAIN_PREMIUM env) else s in
    i32 (s + i32 (Standing f + GetBaseReputation env (Some fe)))
  else standing.

Lemma state_of_entry r k f fe :
  env_ok -> rep_ok r -> _factions r !! k = Some f -> entry_ok fe ->
  0 <= reputationListID fe -> k = u32 (reputationListID fe) -> fs_ID f = fe_ID fe.
Proof.
  intros He H Hk Hfe Hl ->. destruct (rep_states _ H _ _ Hk) as [_ (fe' & E & Hl' & Eu) _].
  pose proof (env_listID He _ _ E). pose proof (env_listID He _ _ Hfe).
  rewrite !wrap_small in Eu by lia. symmetry. eapply (env_inj He); eauto.
Qed.

Lemma UpdateRankCounters_factions o n r : _factions (UpdateRankCounters o n r) = _factions r.
Proof. done. Qed.

(** What one faction looks like after its standing was set. *)
Record set_outcome (fe : FactionEntry) (k : Z) (f : FactionState) (aim : Z) (r r' : RepMgr) : Prop := {
  outcome_ok : rep_ok r';
  outcome_state : exists g, _factions r' !! k = Some g /\ fs_ID g = fs_ID f
    /\ GetBaseReputation env (Some fe) + Standing g = clamp_standing aim
    /\ (ReputationToRank (clamp_standing aim) <= REP_HOSTILE -> at_war g || peace_forced g = true);
  outcome_others : forall j, j <> k -> _factions r' !! j = _factions r !! j;
  outcome_rank : GetRank env r' (Some fe) = ReputationToRank (clamp_standing aim)
}.

(** The flag updates that follow a change of standing. *)
Lemma flags_after k f b o n r :
  _factions r !! k = Some f ->
  let r1 := SetVisible_state env k f r in
  let r2 := if (b : bool) then SetAtWar_state k (state_at k f r1) true r1 else r1 in
  (exists g, _factions r2 !! k = Some g /\ Standing g = Standing f /\ fs_ID g = fs_ID f
     /\ (b = true -> at_war g || peace_forced g = true))
  /\ (forall j, j <> k -> _factions r2 !! j = _factions r !! j)
  /\ (rep_ok (UpdateRankCounters o n r) -> rep_ok (UpdateRankCounters o n r2)).
Proof.
  intros Hk r1 r2. destruct (SetVisible_state_lookup k f r k Hk) as (g & E & S & I & _).
  assert (Ho : forall j, j <> k -> _factions r1 !! j = _factions r !! j).
  { intros j. by destruct (SetVisible_state_lookup k f r j Hk) as (? & _ & _ & _ & Ho). }
  assert (H1 : rep_ok (UpdateRankCounters o n r) -> rep_ok (UpdateRankCounters o n r1)).
  { intros H. subst r1. rewrite UpdateRankCounters_SetVisible. by apply SetVisible_state_ok. }
  fold r1 in E. subst r2. unfold state_at. rewrite E. cbn [default from_option id].
  destruct b.
  2:{ split_and!; [by exists g|done|done]. }
  destruct (SetAtWar_state_lookup k g true r1 k E) as (g' & E' & S' & I' & _). split_and!.
  - exists g'. rewrite S', I'. split_and!; try done. intros _. exact (SetAtWar_state_true k g r1 g' E E').
  - intros j Hj. destruct (SetAtWar_state_lookup k g true r1 j E) as (_ & _ & _ & _ & ->); auto.
  - intros H. rewrite UpdateRankCounters_SetAtWar. apply SetAtWar_state_ok; auto.
Qed.

Lemma SetOneFactionReputation_spec fe standing incremental r f :
  env_ok -> rep_ok r -> entry_ok fe -> 0 <= reputationListID fe ->
  _factions r !! u32 (reputationListID fe) = Some f ->
  exists r', SetOneFactionReputation env fe standing incremental r = (true, r')
    /\ set_outcome fe (u32 (reputationListID fe)) f (target fe f standing incremental) r r'.
Proof.
  intros He H Hfe Hl Hk. unfold SetOneFactionReputation. rewrite Hk.
  fold (target fe f standing incremental).
  generalize (target fe f standing incremental). intros aim. set (k := u32 (reputationListID fe)) in *.
  pose proof (state_of_entry r k f fe He H Hk Hfe Hl eq_refl) as Hid.
  pose proof (env_base He _ _ Hfe) as Hbase. pose proof (clamp_range aim) as Hclamp.
  assert (Hb : base_of f = GetBaseReputation env (Some fe)) by (unfold base_of; by rewrite Hid, Hfe).
  set (base := GetBaseReputation env (Some fe)) in *.
  rewrite (swrap_small 32 (clamp_standing aim - base))
    by (unfold Reputation_Bottom, Reputation_Cap in *; lia).
  set (f' := {| f with Standing := _; needSend := true; needSave := true |}).
  rewrite (Z.add_comm (Standing f) base).
  assert (Sf' : Standing f' = clamp_standing aim - base) by reflexivity.
  assert (Hb' : base_of f' = base) by exact Hb.
  replace (ReputationToRank (i32 (base + Standing f))) with (rank_of f)
    by (unfold rank_of; by rewrite Hb).
  assert (Hnew : ReputationToRank (clamp_standing aim) = rank_of f').
  { unfold rank_of. rewrite Hb', Sf', Zplus_minus. by rewrite range_i32. }
  rewrite Hnew.
  destruct (flags_after k f' (rank_of f' <=? REP_HOSTILE) (rank_of f) (rank_of f')
    (store_state k f' r)) as ((g & E2 & S2 & I2 & W2) & Hoth & H2); [apply lookup_insert_eq|].
  specialize (H2 ltac:(apply (store_standing_ok k f f'); try done; rewrite Hb, Sf'; lia)).
  set (r2 := if rank_of f' <=? REP_HOSTILE then _ else _) in *.
  set (r3 := if rank_of f <? rank_of f' then {| r2 with _sendFactionIncreased := true |} else r2).
  assert (Hf3 : _factions r3 = _factions r2) by (subst r3; by destruct (_ <? _)).
  eexists. split; [reflexivity|]. split.
  - apply emit_ok. subst r3. destruct (_ <? _); [|done]. destruct H2; by split.
  - exists g. split_and!; [|done|rewrite S2, Sf'; apply Zplus_minus|].
    2:{ rewrite Hnew. intros Hh. apply W2. by apply Z.leb_le. }
    change (_factions r3 !! k = Some g). by rewrite Hf3.
  - intros j Hj. change (_factions r3 !! j = _factions r !! j). rewrite Hf3, Hoth by done.
    cbn. by rewrite lookup_insert_ne.
  - unfold GetRank, GetReputation, GetState. destruct (Z.leb_spec 0 (reputationListID fe)); [|lia].
    change (_factions (emit _ _)) with (_factions r3). rewrite Hf3. fold k. rewrite E2, S2, Sf'.
    fold base. rewrite Zplus_minus, range_i32; done.
Qed.

(** ** Every operation keeps the invariant *)

Lemma negative_listID r fe :
  env_ok -> rep_ok r -> entry_ok fe -> reputationListID fe < 0 ->
  _factions r !! u32 (reputationListID fe) = None.
Proof.
  intros He H Hfe Hl. destruct (_factions r !! _) as [f|] eqn:E; [|done].
  destruct (rep_states _ H _ _ E) as [_ (fe' & E' & Hl' & Eu) _].
  pose proof (env_listID He _ _ E') as Hr'. pose proof (env_listID He _ _ Hfe) as Hr.
  rewrite (wrap_small 32 (reputationListID fe')) in Eu by lia.
  unfold wrap in Eu. rewrite <- (Z.mod_add _ 1) in Eu by lia. rewrite Z.mod_small in Eu; lia.
Qed.

Lemma SetOne_ok fe standing incremental r :
  env_ok -> rep_ok r -> entry_ok fe ->
  rep_ok (SetOneFactionReputation env fe standing incremental r).2.
Proof.
  intros He H Hfe. destruct (Z.lt_ge_cases (reputationListID fe) 0) as [Hl|Hl].
  { unfold SetOneFactionReputation. by rewrite (negative_listID r fe). }
  destruct (_factions r !! u32 (reputationListID fe)) as [f|] eqn:E.
  - destruct (SetOneFactionReputation_spec fe standing incremental r f) as (r' & -> & Ho); try done.
    apply Ho.
  - unfold SetOneFactionReputation. by rewrite E.
Qed.

(** Rewriting every state without touching its faction, standing or
    visibility. *)
Lemma fmap_states_ok (h : FactionState -> FactionState) r :
  rep_ok r ->
  (forall f, fs_ID (h f) = fs_ID f /\ ReputationListID (h f) = ReputationListID f
             /\ Standing (h f) = Standing f /\ Flags (h f) = Flags f) ->
  rep_ok {| r with _factions := h <$> _factions r |}.
Proof.
  intros H Hh.
  assert (Hb : forall f, base_of (h f) = base_of f)
    by (intros f; unfold base_of; by rewrite (proj1 (Hh f))).
  assert (Hrk : forall least f, at_least least (h f) = at_least least f).
  { intros least f. unfold at_least, rank_of. rewrite Hb. destruct (Hh f) as (_ & _ & -> & _). done. }
  split; cbn.
  - intros k f Hf. rewrite lookup_fmap in Hf. apply fmap_Some in Hf as (g & Hg & ->).
    destruct (rep_states _ H k g Hg) as []. destruct (Hh g) as (E1 & E2 & E3 & E4).
    split; rewrite ?Hb, ?E1, ?E2, ?E3; done.
  - rewrite countP_fmap, (rep_visible _ H). f_equal. apply countP_ext. intros k f _.
    unfold visible. destruct (Hh f) as (_ & _ & _ & ->). done.
  - rewrite countP_fmap, (rep_honored _ H). f_equal. apply countP_ext. intros k f _. by rewrite Hrk.
  - rewrite countP_fmap, (rep_revered _ H). f_equal. apply countP_ext. intros k f _. by rewrite Hrk.
  - rewrite countP_fmap, (rep_exalted _ H). f_equal. apply countP_ext. intros k f _. by rewrite Hrk.
Qed.

Lemma SendState_ok f r : rep_ok r -> rep_ok (SendState f r).
Proof.
  intros H. unfold SendState. apply emit_ok.
  pose proof (fmap_states_ok (fun f => {| f with needSend := false |}) r H ltac:(done)) as [].
  by split.
Qed.

Lemma entry_of_store i fe : env_ok -> sFactionStore env !! i = Some fe -> entry_ok fe.
Proof. intros He E. unfold entry_ok. by rewrite (env_ID He _ _ E). Qed.

Lemma spill_template_ok tm standing incremental r :
  env_ok -> rep_ok r -> rep_ok (spill_template env tm standing incremental r).
Proof.
  intros He H. unfold spill_template. apply (foldl_inv rep_ok); [done|]. intros r' i _ H'.
  destruct (_ =? 0); [done|]. destruct (_ <=? _); [|done].
  destruct (sFactionStore env !! _) as [fe|] eqn:E; [|done].
  apply SetOne_ok; [done|done|]. by eapply entry_of_store.
Qed.

Lemma spill_list_ok self flist out0 incremental res r :
  env_ok -> rep_ok r -> rep_ok (spill_list env self flist out0 incremental res r).2.
Proof.
  intros He H. unfold spill_list. apply (foldl_inv (fun a => rep_ok a.2)); [done|].
  intros [res' r'] fid _ H'. cbn in H'.
  destruct (sFactionStore env !! fid) as [fe|] eqn:E; [|done].
  destruct (_ || _); [done|]. destruct (_ || _); [|done].
  apply SetOne_ok; [done|done|]. by eapply entry_of_store.
Qed.

Lemma SetReputation_ok fe standing incremental r :
  env_ok -> rep_ok r -> entry_ok fe -> rep_ok (SetReputation env fe standing incremental r).2.
Proof.
  intros He H Hfe. unfold SetReputation.
  match goal with |- context [let '(_, _) := ?m in _] => assert (rep_ok m.2) as Hm end.
  { destruct (SpilloverTemplate env !! _); [by apply spill_template_ok|].
    destruct (FactionTeamList env !! fe_ID fe) as [l|]; [by apply spill_list_ok|].
    destruct (_ && _); [|done]. destruct (sFactionStore env !! team fe) as [parent|] eqn:E; [|done].
    destruct (_factions r !! _) as [ps|].
    - destruct (has_flag _ _).
      + apply SetOne_ok; [done|done|]. by eapply entry_of_store.
      + destruct (FactionTeamList env !! team fe); [by apply spill_list_ok|done].
    - destruct (FactionTeamList env !! team fe); [by apply spill_list_ok|done]. }
  match goal with |- context [let '(_, _) := ?m in _] => destruct m as [res r'] end.
  cbn in Hm. destruct (_factions r' !! _) as [f|]; [|done].
  pose proof (SetOne_ok fe standing incremental r' He Hm Hfe) as Ho.
  destruct (SetOneFactionReputation env fe standing incremental r') as [res' r''].
  by apply SendState_ok.
Qed.

(** *** Login *)

Definition init_step (r : RepMgr) (i : nat) : RepMgr :=
  match sFactionStore env !! Z.of_nat i with
  | Some fe =>
    if 0 <=? reputationListID fe then
      let newFaction := mkFactionState (fe_ID fe) (u32 (reputationListID fe)) 0
        (u8 (GetDefaultStateFlags env (Some fe))) true true in
      let r := if has_flag (Flags newFaction) FACTION_FLAG_VISIBLE
        then {| r with _visibleFactionCount := u8 (_visibleFactionCount r + 1) |} else r in
      let r := UpdateRankCounters REP_HOSTILE (GetBaseRank env (Some fe)) r in
      store_state (ReputationListID newFaction) newFaction r
    else r
  | None => r
  end.

(** After the first rows: exactly their factions, all at the base standing. *)
Record init_inv (n : nat) (r : RepMgr) : Prop := {
  init_rep : rep_ok r;
  init_states : forall k f, _factions r !! k = Some f ->
    Standing f = 0 /\ 1 <= fs_ID f < Z.of_nat n;
  init_all : forall i fe, sFactionStore env !! i = Some fe -> 0 <= reputationListID fe ->
    1 <= i < Z.of_nat n ->
    exists f, _factions r !! u32 (reputationListID fe) = Some f /\ fs_ID f = i /\ Standing f = 0
}.

Lemma counter_new (least rank n : Z) : REP_HONORED <= least ->
  (let c := if least <=? REP_HOSTILE then u8 (u8 n - 1) else u8 n in
   if least <=? rank then u8 (c + 1) else c) = u8 (n + Z.b2z (least <=? rank)).
Proof.
  intros Hl. rewrite counter_step. f_equal. unfold REP_HONORED, REP_HOSTILE in *.
  destruct (Z.leb_spec least 1); [lia|]. cbn. lia.
Qed.

Lemma init_step_inv n r : env_ok -> (1 <= n)%nat -> init_inv n r -> init_inv (S n) (init_step r n).
Proof.
  intros He Hn [H Hs Ha]. unfold init_step.
  assert (Hskip : (forall fe, sFactionStore env !! Z.of_nat n = Some fe -> reputationListID fe < 0) ->
    init_inv (S n) r).
  { intros Hneg. split; [done| |].
    - intros k f Hk. destruct (Hs k f Hk). split; [done|lia].
    - intros i fe Ei Hl Hi. apply (Ha i fe Ei Hl). destruct (decide (i = Z.of_nat n)) as [->|]; [|lia].
      specialize (Hneg fe Ei). lia. }
  destruct (sFactionStore env !! Z.of_nat n) as [fe|] eqn:E; [|by apply Hskip].
  destruct (Z.leb_spec 0 (reputationListID fe)) as [Hl|Hl].
  2:{ apply Hskip. intros fe' [= <-]. done. }
  set (f := mkFactionState _ _ _ _ _ _). set (k := ReputationListID f).
  pose proof (env_ID He _ _ E) as Hid. pose proof (env_listID He _ _ E) as Hrange.
  assert (Hk : k = reputationListID fe) by (subst k f; cbn; apply wrap_small; lia).
  assert (Hfree : _factions r !! k = None).
  { destruct (_factions r !! k) as [g|] eqn:Eg; [|done]. destruct (Hs _ _ Eg) as [_ Hlt].
    destruct (rep_states _ H _ _ Eg) as [_ (fe' & E' & Hl' & Eu) _].
    pose proof (env_listID He _ _ E') as Hr'. rewrite wrap_small in Eu by lia.
    pose proof (env_inj He _ _ _ _ E E' Hl ltac:(lia)). lia. }
  assert (Hbase : base_of f = GetBaseReputation env (Some fe))
    by (unfold base_of; subst f; cbn; by rewrite Hid, E).
  pose proof (env_base He _ _ E) as Hb.
  assert (Hrank : rank_of f = GetBaseRank env (Some fe)).
  { unfold rank_of, GetBaseRank. rewrite Hbase. subst f. cbn [Standing].
    rewrite Z.add_0_r. by rewrite range_i32. }
  assert (Hal : forall least, at_least least f = (least <=? GetBaseRank env (Some fe)))
    by (intros; unfold at_least; by rewrite Hrank).
  split.
  - split; cbn [_factions store_state UpdateRankCounters _visibleFactionCount _honoredFactionCount
                _reveredFactionCount _exaltedFactionCount].
    + assert (map_Forall state_ok (<[k := f]> (_factions r))) as Hm; [|by destruct (has_flag _ _)].
      apply map_Forall_insert_2; [|apply H]. split.
      * done.
      * exists fe. subst f. cbn. rewrite Hid. subst k. done.
      * rewrite Hbase. subst f. cbn [Standing]. lia.
    + change (has_flag (Flags f) FACTION_FLAG_VISIBLE) with (visible f).
      destruct (visible f) eqn:Ev; cbn [_factions _visibleFactionCount];
        rewrite countP_insert_new, Ev, (rep_visible _ H) by done; cbn [Z.b2z];
        [apply u8_add|by rewrite Z.add_0_r].
    + destruct (has_flag _ _); cbn [_factions _honoredFactionCount];
        rewrite countP_insert_new, (rep_honored _ H) by done; rewrite Hal;
        by apply counter_new.
    + destruct (has_flag _ _); cbn [_factions _reveredFactionCount];
        rewrite countP_insert_new, (rep_revered _ H) by done; rewrite Hal;
        by apply counter_new.
    + destruct (has_flag _ _); cbn [_factions _exaltedFactionCount];
        rewrite countP_insert_new, (rep_exalted _ H) by done; rewrite Hal;
        by apply counter_new.
  - assert (forall j g, <[k := f]> (_factions r) !! j = Some g ->
      Standing g = 0 /\ 1 <= fs_ID g < Z.of_nat (S n)) as Hm; [|by destruct (has_flag _ _)].
    intros j g Hj. apply lookup_insert_Some in Hj as [[_ <-]|[_ Hj]].
    + subst f. cbn. lia.
    + destruct (Hs _ _ Hj). split; [done|lia].
  - assert (forall i fe', sFactionStore env !! i = Some fe' -> 0 <= reputationListID fe' ->
      1 <= i < Z.of_nat (S n) -> exists g, <[k := f]> (_factions r) !! u32 (reputationListID fe') = Some g
        /\ fs_ID g = i /\ Standing g = 0) as Hm; [|by destruct (has_flag _ _)].
    intros i fe' E' Hl' Hi. pose proof (env_listID He _ _ E') as Hr'.
    destruct (decide (i = Z.of_nat n)) as [->|Hne].
    + assert (fe' = fe) as -> by congruence. exists f. rewrite wrap_small, <- Hk by lia.
      by rewrite lookup_insert_eq.
    + destruct (Ha i fe' E' Hl' ltac:(lia)) as (g & Eg & Ig & Sg). exists g.
      rewrite lookup_insert_ne; [done|]. intros Ek. apply Hne. rewrite wrap_small, Hk in Ek by lia.
      symmetry. eapply (env_inj He); eauto.
Qed.

Lemma Initialize_inv r : env_ok -> init_inv (Z.to_nat (NumRows env)) (Initialize env r) \/ NumRows env <= 0.
Proof.
  intros He. destruct (Z.le_gt_cases (NumRows env) 0) as [|Hn]; [by right|left].
  unfold Initialize. change (foldl _ ?r0 ?l) with (foldl init_step r0 l).
  assert (forall m r0, init_inv 1 r0 -> init_inv (S m) (foldl init_step r0 (seq 1 m))) as Hm.
  { intros m r0 H0. induction m as [|m IH]; [done|]. rewrite seq_S, foldl_app. cbn [foldl].
    by apply (init_step_inv (S m)); [|lia|]. }
  replace (Z.to_nat (NumRows env)) with (S (Z.to_nat (NumRows env) - 1)) at 1 by lia.
  apply Hm. split; cbn; [|done|intros; lia]. split; cbn; try by rewrite countP_empty. done.
Qed.

(** Writers of flags: the invariant, the faction and the standing stay. *)
Definition flag_step (k : Z) (r r' : RepMgr) : Prop :=
  rep_ok r' /\ (forall j, j <> k -> _factions r' !! j = _factions r !! j)
  /\ is_Some (_factions r' !! k).

Lemma flag_step_refl k r : rep_ok r -> is_Some (_factions r !! k) -> flag_step k r r.
Proof. by intros. Qed.

Lemma flag_step_trans k r1 r2 r3 : flag_step k r1 r2 -> flag_step k r2 r3 -> flag_step k r1 r3.
Proof.
  intros (_ & O1 & _) (H2 & O2 & S2). split_and!; [done| |done].
  intros j Hj. by rewrite O2, O1.
Qed.

Lemma SetVisible_step k r : rep_ok r -> is_Some (_factions r !! k) ->
  flag_step k r (SetVisible_state env k (state_at k (mkFactionState 0 0 0 0 false false) r) r).
Proof.
  intros H [f E]. unfold state_at. rewrite E. cbn. split_and!.
  - by apply SetVisible_state_ok.
  - intros j. by destruct (SetVisible_state_lookup k f r j E) as (? & _ & _ & _ & ?).
  - destruct (SetVisible_state_lookup k f r k E) as (g & -> & _). done.
Qed.

Lemma SetAtWar_step k d w r : rep_ok r -> is_Some (_factions r !! k) ->
  flag_step k r (SetAtWar_state k (state_at k d r) w r).
Proof.
  intros H [f E]. unfold state_at. rewrite E. cbn. split_and!.
  - by apply SetAtWar_state_ok.
  - intros j. by destruct (SetAtWar_state_lookup k f w r j E) as (? & _ & _ & _ & ?).
  - destruct (SetAtWar_state_lookup k f w r k E) as (g & -> & _). done.
Qed.

Lemma SetInactive_step k d w r : rep_ok r -> is_Some (_factions r !! k) ->
  flag_step k r (SetInactive_state k (state_at k d r) w r).
Proof.
  intros H [f E]. unfold state_at. rewrite E. cbn. split_and!.
  - by apply SetInactive_state_ok.
  - intros j Hj. unfold SetInactive_state. destruct (_ && _); [done|].
    destruct (Bool.eqb _ _); [done|]. cbn. by rewrite lookup_insert_ne.
  - unfold SetInactive_state. destruct (_ && _); [done|]. destruct (Bool.eqb _ _); [done|].
    cbn. by rewrite lookup_insert_eq.
Qed.

Lemma store_sent_step k d r : rep_ok r -> is_Some (_factions r !! k) ->
  flag_step k r (store_state k {| (state_at k d r) with needSend := false; needSave := false |} r).
Proof.
  intros H [f E]. unfold state_at. rewrite E. cbn. split_and!.
  - by apply (store_same_visible_ok k f).
  - intros j Hj. cbn. by rewrite lookup_insert_ne.
  - cbn. by rewrite lookup_insert_eq.
Qed.

(** A row of the saved standings: its standing is in range for the faction. *)
Definition row_ok (row : Z * Z * Z) : Prop :=
  forall fe, sFactionStore env !! row.1.1 = Some fe ->
    Reputation_Bottom <= GetBaseReputation env (Some fe) + row.1.2 <= Reputation_Cap.

(** The faction of a row is still as [Initialize] left it. *)
Definition fresh (r : RepMgr) (row : Z * Z * Z) : Prop :=
  forall fe, sFactionStore env !! row.1.1 = Some fe -> 0 <= reputationListID fe ->
    exists f, _factions r !! u32 (reputationListID fe) = Some f
      /\ fs_ID f = row.1.1 /\ Standing f = 0.

Lemma load_row_ok r row : env_ok -> rep_ok r -> row_ok row -> fresh r row ->
  rep_ok (load_row env r row)
  /\ (forall fe, sFactionStore env !! row.1.1 = Some fe ->
      forall j, j <> u32 (reputationListID fe) -> _factions (load_row env r row) !! j = _factions r !! j)
  /\ (sFactionStore env !! row.1.1 = None -> load_row env r row = r).
Proof.
  intros He H Hrow Hfr. destruct row as [[fid st] fl]. unfold load_row, row_ok, fresh in *. cbn [fst snd] in *.
  destruct (sFactionStore env !! fid) as [fe|] eqn:E; [|done].
  destruct (Z.leb_spec 0 (reputationListID fe)) as [Hl|]; [|done].
  destruct (Hfr fe eq_refl Hl) as (f & Ef & If & Sf). specialize (Hrow fe eq_refl).
  set (k := u32 (reputationListID fe)) in *. rewrite Ef. cbn [default from_option id].
  set (f1 := {| f with Standing := st |}).
  assert (Hb : base_of f = GetBaseReputation env (Some fe)) by (unfold base_of; by rewrite If, E).
  assert (H1 : rep_ok (UpdateRankCounters (ReputationToRank (GetBaseReputation env (Some fe)))
    (ReputationToRank (i32 (GetBaseReputation env (Some fe) + st))) (store_state k f1 r))).
  { pose proof (env_base He _ _ E) as Hbase.
    replace (ReputationToRank (GetBaseReputation env (Some fe))) with (rank_of f)
      by (unfold rank_of; rewrite Hb, Sf, Z.add_0_r, range_i32; done).
    change st with (Standing f1). rewrite <- Hb. apply (store_standing_ok k f f1); try done.
    rewrite Hb. exact Hrow. }
  set (r1 := UpdateRankCounters _ _ _) in *.
  assert (E1 : _factions r1 !! k = Some f1) by apply lookup_insert_eq.
  set (r2 := if has_flag fl FACTION_FLAG_VISIBLE then _ else _).
  assert (S2 : flag_step k r1 r2).
  { subst r2. destruct (has_flag fl FACTION_FLAG_VISIBLE); [|by apply flag_step_refl].
    replace f1 with (state_at k (mkFactionState 0 0 0 0 false false) r1) by (unfold state_at; by rewrite E1).
    by apply SetVisible_step. }
  clearbody r2.
  assert (step : forall b d w ra, flag_step k r1 ra ->
     flag_step k r1 (if (b : bool) then SetAtWar_state k (state_at k d ra) w ra else ra)).
  { intros [] d w ra Hra; [|done]. eapply flag_step_trans; [done|]. by apply SetAtWar_step; apply Hra. }
  set (r3 := if has_flag fl FACTION_FLAG_INACTIVE then _ else _).
  assert (S3 : flag_step k r1 r3).
  { subst r3. destruct (has_flag fl FACTION_FLAG_INACTIVE). 2:{ exact S2. } eapply flag_step_trans; [exact S2|].
    by apply SetInactive_step; apply S2. }
  clearbody r3.
  set (r4 := if has_flag fl FACTION_FLAG_AT_WAR then _ else _).
  assert (S4 : flag_step k r1 r4).
  { subst r4. destruct (has_flag fl FACTION_FLAG_AT_WAR); [by apply (step true)|by apply step]. }
  clearbody r4.
  set (r5 := if GetRank env r4 (Some fe) <=? REP_HOSTILE then _ else _).
  assert (S5 : flag_step k r1 r5) by (subst r5; by apply step).
  assert (S6 : flag_step k r1 (if Flags (state_at k f1 r5) =? fl
    then store_state k {| (state_at k f1 r5) with needSend := false; needSave := false |} r5 else r5)).
  { destruct (_ =? _); [|done]. eapply flag_step_trans; [done|]. by apply store_sent_step; apply S5. }
  destruct S6 as (H6 & O6 & _). split_and!; [exact H6| |done].
  intros fe' [= <-] j Hj. rewrite O6 by done. subst r1. cbn. by rewrite lookup_insert_ne.
Qed.

Lemma load_rows_ok rows r : env_ok -> rep_ok r -> Forall row_ok rows -> Forall (fresh r) rows ->
  NoDup rows.*1.*1 -> rep_ok (foldl (load_row env) r rows).
Proof.
  intros He. revert r. induction rows as [|row rows IH]; intros r H Hr Hf Hnd; [done|].
  apply Forall_cons_iff in Hr as [Hr Hrs]. apply Forall_cons_iff in Hf as [Hf Hfs].
  cbn in Hnd. apply NoDup_cons in Hnd as [Hnin Hnd].
  destruct (load_row_ok r row He H Hr Hf) as (H' & Ho & Hn). cbn. apply IH; try done.
  apply list.Forall_forall. intros row' Hin. pose proof (proj1 (list.Forall_forall _ _) Hfs row' Hin) as Hf'.
  intros fe' E' Hl'. destruct (sFactionStore env !! row.1.1) as [fe|] eqn:E.
  - rewrite (Ho fe eq_refl); [by apply Hf'|]. intros Ek.
    pose proof (env_listID He _ _ E). pose proof (env_listID He _ _ E').
    destruct (Z.lt_ge_cases (reputationListID fe) 0) as [Hneg|].
    + unfold wrap in Ek. rewrite <- (Z.mod_add (reputationListID fe) 1) in Ek by lia.
      rewrite !Z.mod_small in Ek by lia. lia.
    + rewrite !wrap_small in Ek by lia. apply Hnin. rewrite <- (env_inj He _ _ _ _ E' E Hl' Ek).
      apply list_elem_of_fmap. exists row'.1. split; [done|]. apply list_elem_of_fmap. by exists row'.
  - rewrite Hn by done. by apply Hf'.
Qed.

Lemma LoadFromDB_ok rows r : env_ok -> 0 < NumRows env -> Forall row_ok rows -> NoDup rows.*1.*1 ->
  rep_ok (LoadFromDB env rows r).
Proof.
  intros He Hn Hr Hnd. destruct (Initialize_inv r He) as [Hi|]; [|lia].
  unfold LoadFromDB. apply load_rows_ok; try done; [apply Hi|].
  apply list.Forall_forall. intros row _ fe E Hl.
  pose proof (env_rows He row.1.1 ltac:(by eexists)) as Hrow.
  destruct (init_all _ _ Hi _ _ E Hl ltac:(lia)) as (f & ? & ? & ?). by exists f.
Qed.

(** *** Sessions *)

(** What the session does with the manager after login. *)
Inductive rep_op :=
| OpSetReputation (faction_id standing : Z) (incremental : bool)
| OpSetVisible (tmpl_faction : Z)
| OpSetAtWar (listID : Z) (on : bool)
| OpSetInactive (listID : Z) (on : bool)
| OpSendStates
| OpSendInitial
| OpForceReaction (faction_id rank : Z) (apply : bool)
| OpSave.

Definition run_op (r : RepMgr) (o : rep_op) : RepMgr :=
  match o with
  | OpSetReputation fid standing incremental =>
    match sFactionStore env !! fid with
    | Some fe => (SetReputation env fe standing incremental r).2
    | None => r
    end
  | OpSetVisible t => SetVisible env t r
  | OpSetAtWar id on => SetAtWar id on r
  | OpSetInactive id on => SetInactive id on r
  | OpSendStates => SendStates r
  | OpSendInitial => SendInitialReputations r
  | OpForceReaction fid rank apply => ApplyForceReaction fid rank apply r
  | OpSave => SaveToDB r
  end.

Lemma SetVisible_ok t r : rep_ok r -> rep_ok (SetVisible env t r).
Proof.
  intros H. unfold SetVisible, SetVisible_entry. destruct (t =? 0); [done|].
  destruct (sFactionStore env !! t); [|done]. destruct (_ && _); [done|].
  destruct (_ <? 0); [done|]. destruct (_factions r !! _) eqn:E; [|done].
  by apply SetVisible_state_ok.
Qed.

Lemma SendStates_ok r : rep_ok r -> rep_ok (SendStates r).
Proof.
  intros H. apply (foldl_inv rep_ok); [done|]. intros r' [k f] _ H'. cbn.
  destruct (_factions r' !! k); [by apply SendState_ok|done].
Qed.

Lemma run_op_ok r o : env_ok -> rep_ok r -> rep_ok (run_op r o).
Proof.
  intros He H. destruct o as [fid st inc|t|id on|id on| | |fid rank apply|]; cbn [run_op].
  - destruct (sFactionStore env !! fid) eqn:E; [|done].
    apply SetReputation_ok; try done. by eapply entry_of_store.
  - by apply SetVisible_ok.
  - unfold SetAtWar. destruct (_factions r !! id) eqn:E; [|done].
    destruct (has_flag _ _); [done|]. by apply SetAtWar_state_ok.
  - unfold SetInactive. destruct (_factions r !! id) eqn:E; [|done]. by apply SetInactive_state_ok.
  - by apply SendStates_ok.
  - apply emit_ok. pose proof (fmap_states_ok (fun f => {| f with needSend := false |}) r H ltac:(done)).
    done.
  - destruct H. by split.
  - apply emit_ok.
    pose proof (fmap_states_ok (fun f => if needSave f then {| f with needSave := false |} else f) r H) as H'.
    apply H'. intros f. by destruct (needSave f).
Qed.

End Spec.

(** ** The table sent at login *)

Lemma initial_entries_lookup l a :
  0 <= a <= 256 -> StronglySorted key_le l -> NoDup l.*1 ->
  Forall (fun kf => a <= kf.1 < 256) l ->
  zlen (initial_entries a l) = 256 - a /\
  forall i, a <= i < 256 -> znth (initial_entries a l) (i - a) =
    Some (match (list_to_map l : gmap Z FactionState) !! i with
          | Some f => (u8 (Flags f), u32 (Standing f))
          | None => (0, 0)
          end).
Proof.
  revert a. induction l as [|[k f] l IH]; intros a Ha Hs Hnd Hk; cbn [initial_entries].
  - rewrite (wrap_small 32) by lia. split.
    + unfold zlen. rewrite length_replicate. lia.
    + intros i Hi. unfold znth. destruct (Z.ltb_spec (i - a) 0); [lia|].
      rewrite lookup_replicate_2 by lia. cbn [list_to_map foldr]. by rewrite lookup_empty.
  - apply Forall_cons_iff in Hk as [Hk Hks]. cbn in Hk, Hnd. apply NoDup_cons in Hnd as [Hnin Hnd].
    apply StronglySorted_inv in Hs as [Hs Hle].
    rewrite (wrap_small 32 (k - a)), (wrap_small 32 (k + 1)) by lia.
    assert (Forall (fun kf : Z * FactionState => k + 1 <= kf.1 < 256) l) as Hks'.
    { apply list.Forall_forall. intros kf Hin.
      pose proof (proj1 (list.Forall_forall _ _) Hks _ Hin). cbn in *.
      pose proof (proj1 (list.Forall_forall _ _) Hle _ Hin) as Hl. unfold key_le in Hl. cbn in Hl.
      assert (kf.1 <> k) by (intros <-; apply Hnin; apply list_elem_of_fmap; by exists kf). lia. }
    destruct (IH (k + 1) ltac:(lia) Hs Hnd Hks') as [Hlen Hnth]. split.
    { unfold zlen in *. rewrite length_app, length_replicate. cbn [length]. lia. }
    intros i Hi. unfold znth. destruct (Z.ltb_spec (i - a) 0); [lia|]. cbn [list_to_map foldr].
    destruct (Z.lt_trichotomy i k) as [Hlt|[->|Hgt]].
    + rewrite lookup_app_l by (rewrite length_replicate; lia).
      rewrite lookup_replicate_2 by lia. cbn. rewrite lookup_insert_ne by lia.
      destruct (list_to_map l !! i) eqn:E; [|done]. apply elem_of_list_to_map_2 in E.
      pose proof (proj1 (list.Forall_forall _ _) Hks' _ E) as Hb. cbn in Hb. lia.
    + rewrite lookup_app_r by (rewrite length_replicate; lia). rewrite length_replicate.
      replace (Z.to_nat (k - a) - Z.to_nat (k - a))%nat with 0%nat by lia.
      cbn. by rewrite lookup_insert_eq.
    + rewrite lookup_app_r by (rewrite length_replicate; lia). rewrite length_replicate.
      replace (Z.to_nat (i - a) - Z.to_nat (k - a))%nat with (S (Z.to_nat (i - (k + 1)))) by lia.
      cbn [lookup list_lookup]. specialize (Hnth i ltac:(lia)). unfold znth in Hnth.
      destruct (Z.ltb_spec (i - (k + 1)) 0); [lia|]. cbn. rewrite lookup_insert_ne by lia. exact Hnth.
Qed.

(** ** Properties *)

(** The login packet is the client's fixed table: exactly 256 entries, entry
    [i] holding the flags and standing of the faction with list id [i] and
    zeros where the player has none. *)
Theorem SendInitialReputations_table r :
  map_Forall (fun k _ => 0 <= k < 256) (_factions r) ->
  exists entries, out (SendInitialReputations r) = out r ++ [SMSG_INITIALIZE_FACTIONS 256 entries]
    /\ zlen entries = 256
    /\ forall i, 0 <= i < 256 -> znth entries i =
         Some (match _factions r !! i with
               | Some f => (u8 (Flags f), u32 (Standing f))
               | None => (0, 0)
               end).
Proof.
  intros Hk. eexists. split; [reflexivity|].
  assert (Forall (fun kf : Z * FactionState => 0 <= kf.1 < 256) (ordered (_factions r))) as Hall.
  { apply list.Forall_forall. intros [k f] Hin. apply elem_of_ordered in Hin. by apply (Hk k f). }
  destruct (initial_entries_lookup (ordered (_factions r)) 0 ltac:(lia) (ordered_sorted _)
    (NoDup_ordered _) Hall) as [Hlen Hnth]. split; [exact Hlen|].
  intros i Hi. specialize (Hnth i Hi). rewrite Z.sub_0_r in Hnth. rewrite Hnth. do 2 f_equal.
  assert (list_to_map (ordered (_factions r)) = _factions r) as ->; [|done].
  rewrite <- (list_to_map_to_list (_factions r)) at 2. apply list_to_map_proper.
  - apply NoDup_ordered.
  - apply ordered_Permutation.
Qed.

(** Setting one faction's standing succeeds for every faction of the store
    the player has, whatever value is asked for (rates, premium and 32-bit
    wrap-around of the sum included): the new total standing is the aim clamped
    to [-42000, 42999], the rank read back is the rank of that total, a hostile
    or hated faction is at war unless peace is forced, the other factions keep
    their states, and the faction counters stay right. *)
Theorem SetOneFactionReputation_outcome (env : Env) fe standing incremental r f :
  env_ok env -> rep_ok env r -> entry_ok env fe -> 0 <= reputationListID fe ->
  _factions r !! u32 (reputationListID fe) = Some f ->
  let '(res, r') := SetOneFactionReputation env fe standing incremental r in
  let aim := clamp_standing (target env fe f standing incremental) in
  res = true /\ rep_ok env r'
  /\ (exists g, _factions r' !! u32 (reputationListID fe) = Some g
      /\ GetBaseReputation env (Some fe) + Standing g = aim
      /\ (ReputationToRank aim <= REP_HOSTILE -> at_war g || peace_forced g = true))
  /\ GetRank env r' (Some fe) = ReputationToRank aim
  /\ (forall j, j <> u32 (reputationListID fe) -> _factions r' !! j = _factions r !! j).
Proof.
  intros He H Hfe Hl Hk.
  destruct (SetOneFactionReputation_spec env fe standing incremental r f He H Hfe Hl Hk)
    as (r' & -> & [H1 (g & Eg & _ & S & W) H3 H4]).
  split_and!; try done. by exists g.
Qed.

(** C17: The rows loaded are of distinct factions and their standings are in range; the faction
    data are valid: ids and list ids name one faction each, base standings are in range.
    Then, whatever the session does after loading, every standing stays in [-42000, 42999],
    and the four counters that the achievements read, 8 bits wide, are the numbers of
    visible, honored, revered and exalted factions modulo 256. *)
Theorem session_counters (env : Env) rows ops r :
  env_ok env -> 0 < NumRows env -> Forall (row_ok env) rows -> NoDup rows.*1.*1 ->
  let r' := foldl (run_op env) (LoadFromDB env rows r) ops in
  map_Forall (fun k f => ReputationListID f = k
     /\ Reputation_Bottom <= base_of env f + Standing f <= Reputation_Cap) (_factions r')
  /\ _visibleFactionCount r' = u8 (countP visible (_factions r'))
  /\ _honoredFactionCount r' = u8 (countP (at_least env REP_HONORED) (_factions r'))
  /\ _reveredFactionCount r' = u8 (countP (at_least env REP_REVERED) (_factions r'))
  /\ _exaltedFactionCount r' = u8 (countP (at_least env REP_EXALTED) (_factions r')).
Proof.
  intros He Hn Hr Hnd r'.
  assert (rep_ok env r') as [].
  { apply foldl_inv; [by apply LoadFromDB_ok|]. intros r0 o _ H0. by apply run_op_ok. }
  split_and!; try done. intros k f Hf. destruct (rep_states0 k f Hf). done.
Qed.

(** *** A concrete realm: two factions of a team, one of them honored at
    creation, the other at war. *)
Definition demo_faction (id list base flags : Z) : FactionEntry :=
  mkFactionEntry id list [0; 0; 0; 0] [1; 0; 0; 0] [base; 0; 0; 0] [flags; 0; 0; 0] 0 f_one f_one 7.

Definition demo_env : Env := mkEnv
  {[ 1 := demo_faction 1 0 9000 1; 2 := demo_faction 2 5 0 2 ]} 3 ∅ ∅ 1 1 80 false false f_one f_one.

Lemma demo_env_ok : env_ok demo_env.
Proof.
  assert (forall i fe, sFactionStore demo_env !! i = Some fe ->
    (i = 1 /\ fe = demo_faction 1 0 9000 1) \/ (i = 2 /\ fe = demo_faction 2 5 0 2)) as Hrow.
  { intros i fe Hi. cbn in Hi. apply lookup_insert_Some in Hi as [[<- <-]|[_ Hi]]; [by left|].
    apply lookup_singleton_Some in Hi as [<- <-]. by right. }
  split.
  - intros i fe Hi. by destruct (Hrow i fe Hi) as [[-> ->]|[-> ->]].
  - intros i fe Hi. destruct (Hrow i fe Hi) as [[-> ->]|[-> ->]]; cbn; lia.
  - intros i j fe fe' Hi Hj. destruct (Hrow i fe Hi) as [[-> ->]|[-> ->]],
      (Hrow j fe' Hj) as [[-> ->]|[-> ->]]; cbn; lia.
  - intros i [fe Hi]. destruct (Hrow i fe Hi) as [[-> ->]|[-> ->]]; cbn; lia.
  - intros i fe Hi. unfold Reputation_Bottom, Reputation_Cap.
    destruct (Hrow i fe Hi) as [[-> ->]|[-> ->]]; vm_compute; split; discriminate.
Qed.

Definition empty_mgr : RepMgr := mkRepMgr ∅ ∅ 0 0 0 0 false [].
Definition demo_mgr : RepMgr := LoadFromDB demo_env [(2, 3500, 3)] empty_mgr.

Lemma demo_rows_ok : Forall (row_ok demo_env) [(2, 3500, 3)].
Proof.
  apply Forall_cons_iff. split; [|done]. intros fe Hfe. cbn in Hfe.
  apply lookup_insert_Some in Hfe as [[? _]|[_ Hfe]]; [done|].
  apply lookup_singleton_Some in Hfe as [_ <-].
  unfold Reputation_Bottom, Reputation_Cap. vm_compute. split; discriminate.
Qed.

Lemma SetOneFactionReputation_outcome_witness :
  _factions demo_mgr !! 5 = Some (mkFactionState 2 5 3500 3 false false) /\
  let '(res, r') := SetOneFactionReputation demo_env (demo_faction 2 5 0 2) (-50000) true demo_mgr in
  res = true /\ option_map Standing (_factions r' !! 5) = Some (-42000).
Proof.
  split; [vm_compute; reflexivity|].
  pose proof (SetOneFactionReputation_outcome demo_env (demo_faction 2 5 0 2) (-50000) true demo_mgr
    (mkFactionState 2 5 3500 3 false false) demo_env_ok
    (LoadFromDB_ok demo_env [(2, 3500, 3)] empty_mgr demo_env_ok ltac:(cbn; lia) demo_rows_ok
       ltac:(cbn; apply NoDup_singleton))
    eq_refl ltac:(cbn; lia) ltac:(vm_compute; reflexivity)) as H.
  destruct (SetOneFactionReputation _ _ _ _ _) as [res r'].
  destruct H as (-> & _ & (g & Eg & S & _) & _). split; [reflexivity|].
  change (u32 (reputationListID (demo_faction 2 5 0 2))) with 5 in Eg. rewrite Eg. cbn [option_map].
  f_equal. replace (clamp_standing _) with (-42000) in S by (vm_compute; reflexivity).
  change (GetBaseReputation demo_env (Some (demo_faction 2 5 0 2))) with 0 in S. lia.
Defined.

Lemma session_counters_witness :
  _honoredFactionCount (foldl (run_op demo_env) demo_mgr [OpSetReputation 2 6000 true; OpSave]) = 2
  /\ u8 (countP (at_least demo_env REP_HONORED)
       (_factions (foldl (run_op demo_env) demo_mgr [OpSetReputation 2 6000 true; OpSave]))) = 2.
Proof.
  pose proof (session_counters demo_env [(2, 3500, 3)] [OpSetReputation 2 6000 true; OpSave] empty_mgr
    demo_env_ok ltac:(cbn; lia) demo_rows_ok ltac:(cbn; apply NoDup_singleton))
    as (_ & _ & H & _).
  assert (_honoredFactionCount (foldl (run_op demo_env) demo_mgr
    [OpSetReputation 2 6000 true; OpSave]) = 2) as E by (vm_compute; reflexivity).
  split; [exact E|]. etransitivity; [symmetry; exact H|exact E].
Defined.

Lemma SendInitialReputations_table_witness :
  exists entries, out (SendInitialReputations demo_mgr)
      = out demo_mgr ++ [SMSG_INITIALIZE_FACTIONS 256 entries]
    /\ znth entries 5 = Some (3, 3500) /\ znth entries 4 = Some (0, 0).
Proof.
  destruct (SendInitialReputations_table demo_mgr) as (entries & E & _ & Hn).
  - apply (bool_decide_unpack _). vm_compute. exact I.
  - exists entries. split; [exact E|]. split; rewrite Hn by lia; vm_compute; reflexivity.
Defined.
