(* ===== verification/EventProcessor.v ===== *)
(** * EventProcessor and the timers
      (src/src/server/shared/Utilities/EventProcessor.cpp, .h, Timer.h)

    A queue of events kept in the order of their times.  Events are shared
    objects: the queue holds pointers into [heap], the code that created an
    event may still abort it through its own pointer, and the processor deletes
    the events it is done with.  What an event does when it runs is virtual in
    the source, a parameter here. *)

From S2P Require Import Prelude.

(** ** Timers *)

(* [shared/Utilities/Timer.h:31-38] getMSTimeDiff *)
Definition getMSTimeDiff (oldMSTime newMSTime : Z) : Z :=
  if newMSTime <? oldMSTime then u32 (u32 (4294967295 - oldMSTime) + newMSTime)
  else u32 (newMSTime - oldMSTime).

(* [shared/Utilities/Timer.h:45-95] IntervalTimer *)
Record IntervalTimer := mkIntervalTimer {
  _interval : Z;     (* time_t *)
  _current : Z
}.

(* [shared/Utilities/Timer.h:54-59] IntervalTimer::Update *)
Definition IntervalTimer_Update (diff : Z) (t : IntervalTimer) : IntervalTimer :=
  let c := i64 (_current t + diff) in
  {| t with _current := if c <? 0 then 0 else c |}.

(* [shared/Utilities/Timer.h:61-64] IntervalTimer::Passed *)
Definition IntervalTimer_Passed (t : IntervalTimer) : bool := _interval t <=? _current t.

(* [shared/Utilities/Timer.h:66-70] IntervalTimer::Reset *)
Definition IntervalTimer_Reset (t : IntervalTimer) : IntervalTimer :=
  if _interval t <=? _current t
  then {| t with _current := i64 (_current t - _interval t) |} else t.

(* [shared/Utilities/Timer.h:97-129] TimeTracker *)
Record TimeTracker := mkTimeTracker { i_expiryTime : Z }.

(* [shared/Utilities/Timer.h:106-109] TimeTracker::Update *)
Definition TimeTracker_Update (diff : Z) (t : TimeTracker) : TimeTracker :=
  mkTimeTracker (i64 (i_expiryTime t - diff)).

(* [shared/Utilities/Timer.h:111-114] TimeTracker::Passed *)
Definition TimeTracker_Passed (t : TimeTracker) : bool := i_expiryTime t <=? 0.

(* [shared/Utilities/Timer.h:165-201] PeriodicTimer *)
Record PeriodicTimer := mkPeriodicTimer {
  i_period : Z;      (* int32 *)
  i_expireTime : Z   (* int32 *)
}.

(** [i_expireTime -= diff] is computed in [uint32]; the second addend is the
    [uint32] common type of [i_period] and [diff]. *)
(* [shared/Utilities/Timer.h:174-181] PeriodicTimer::Update *)
Definition PeriodicTimer_Update (diff : Z) (t : PeriodicTimer) : bool * PeriodicTimer :=
  let e := i32 (i_expireTime t - diff) in
  if 0 <? e then (false, {| t with i_expireTime := e |})
  else (true, {| t with i_expireTime :=
                  i32 (e + (if i32 diff <? i_period t then i_period t else diff)) |}).

(** ** Events *)

(* [shared/Utilities/EventProcessor.h:28-49] BasicEvent *)
Record BasicEvent := mkBasicEvent {
  to_Abort : bool;
  m_addTime : Z;
  m_execTime : Z;
  IsDeletable : bool
}.

(** The calls the processor makes on its events, in order. *)
Inductive ev_call :=
| CallExecute (p : Z)
| CallAbort (p : Z)
| CallDelete (p : Z).

(* [shared/Utilities/EventProcessor.h:53-67] EventProcessor *)
Record EventProcessor := mkEventProcessor {
  m_time : Z;                       (* uint64 *)
  m_events : list (Z * Z);          (* std::multimap<uint64, BasicEvent*> *)
  m_aborting : bool;
  heap : gmap Z BasicEvent;
  calls : list ev_call
}.

(** A [multimap] keeps equal keys in the order of their insertion. *)
(* [shared/Utilities/EventProcessor.h:51-51] EventList *)
Fixpoint insert_event (t p : Z) (l : list (Z * Z)) : list (Z * Z) :=
  match l with
  | [] => [(t, p)]
  | (t', p') :: l' => if t' <=? t then (t', p') :: insert_event t p l' else (t, p) :: l
  end.

(* [shared/Utilities/EventProcessor.cpp:21-25] EventProcessor::EventProcessor *)
Definition new_EventProcessor : EventProcessor := mkEventProcessor 0 [] false ∅ [].

(* [shared/Utilities/EventProcessor.cpp:88-93] EventProcessor::AddEvent *)
Definition AddEvent (p e_time : Z) (set_addtime : bool) (ep : EventProcessor) : EventProcessor :=
  {| ep with
     heap := alter (fun e =>
       let e := if set_addtime then {| e with m_addTime := m_time ep |} else e in
       {| e with m_execTime := e_time |}) p (heap ep);
     m_events := insert_event e_time p (m_events ep) |}.

(* [shared/Utilities/EventProcessor.cpp:95-98] EventProcessor::CalculateTime *)
Definition CalculateTime (t_offset : Z) (ep : EventProcessor) : Z := u64 (m_time ep + t_offset).

Definition called (c : ev_call) (ep : EventProcessor) : EventProcessor :=
  {| ep with calls := calls ep ++ [c] |}.

Definition delete_event (p : Z) (ep : EventProcessor) : EventProcessor :=
  called (CallDelete p) {| ep with heap := delete p (heap ep) |}.

(** Reading an event that was deleted is undefined: [UseAfterFree]. *)
Inductive run_result :=
| Finished (ep : EventProcessor)
| UseAfterFree
| OutOfFuel.

Section Update.
(** [Execute p e_time p_time ep]: the virtual method, with everything it does to
    the processor and the events. *)
Context (Execute : Z -> Z -> Z -> EventProcessor -> bool * EventProcessor).

(* [shared/Utilities/EventProcessor.cpp:37-58] EventProcessor::Update *)
Fixpoint Update_loop (fuel : nat) (p_time : Z) (ep : EventProcessor) : run_result :=
  match fuel with
  | O => OutOfFuel
  | S fuel' =>
    match m_events ep with
    | [] => Finished ep
    | (t, p) :: rest =>
      if t <=? m_time ep then
        let ep := {| ep with m_events := rest |} in
        match heap ep !! p with
        | None => UseAfterFree
        | Some e =>
          if negb (to_Abort e) then
            let '(done, ep) := Execute p (m_time ep) p_time (called (CallExecute p) ep) in
            Update_loop fuel' p_time (if done then delete_event p ep else ep)
          else Update_loop fuel' p_time (delete_event p (called (CallAbort p) ep))
        end
      else Finished ep
    end
  end.

(* [shared/Utilities/EventProcessor.cpp:32-59] EventProcessor::Update *)
Definition Update (fuel : nat) (p_time : Z) (ep : EventProcessor) : run_result :=
  Update_loop fuel p_time {| ep with m_time := u64 (m_time ep + p_time) |}.
End Update.

(** One entry of the queue while everything is aborted: [Abort] leaves the
    queue alone. *)
(* [shared/Utilities/EventProcessor.cpp:67-81] EventProcessor::KillAllEvents *)
Fixpoint Kill_loop (force : bool) (todo kept : list (Z * Z)) (ep : EventProcessor) : run_result :=
  match todo with
  | [] => Finished {| ep with m_events := kept |}
  | (t, p) :: todo' =>
    match heap ep !! p with
    | None => UseAfterFree
    | Some e =>
      let ep := called (CallAbort p)
        {| ep with heap := <[p := {| e with to_Abort := true |}]> (heap ep) |} in
      if force || IsDeletable e
      then Kill_loop force todo' (if force then kept ++ [(t, p)] else kept) (delete_event p ep)
      else Kill_loop force todo' (kept ++ [(t, p)]) ep
    end
  end.

(* [shared/Utilities/EventProcessor.cpp:61-86] EventProcessor::KillAllEvents *)
Definition KillAllEvents (force : bool) (ep : EventProcessor) : run_result :=
  match Kill_loop force (m_events ep) [] {| ep with m_aborting := true |} with
  | Finished ep => Finished (if force then {| ep with m_events := [] |} else ep)
  | r => r
  end.
