(* ===== verification/EventProcessorSpec.v ===== *)
(** * EventProcessor: what is due runs, once, in order, and is freed once *)

From S2P Require Import Prelude.
From S2P Require Import EventProcessor.

(** A well-formed queue: in time order, no event queued twice, every queued
    event alive. *)
Record queue_ok (ep : EventProcessor) : Prop := {
  q_sorted : StronglySorted (@key_le Z) (m_events ep);
  q_nodup : NoDup (m_events ep).*2;
  q_live : Forall (fun p => is_Some (heap ep !! p)) (m_events ep).*2
}.

Definition due (now : Z) (l : list (Z * Z)) : list (Z * Z) := filter (fun tp => tp.1 <= now) l.

Definition visited (cs : list ev_call) : list Z :=
  omap (fun c => match c with CallExecute p | CallAbort p => Some p | CallDelete _ => None end) cs.

Definition deleted (cs : list ev_call) : list Z :=
  omap (fun c => match c with CallDelete p => Some p | _ => None end) cs.

(** ** The multimap *)

Lemma insert_event_Permutation t p l : insert_event t p l ≡ₚ (t, p) :: l.
Proof.
  induction l as [|[t' p'] l IH]; [done|]. cbn. destruct (t' <=? t); [|done].
  rewrite IH. constructor.
Qed.

Lemma insert_event_sorted t p l :
  StronglySorted key_le l -> StronglySorted key_le (insert_event t p l).
Proof.
  induction 1 as [|[t' p'] l Hs IH Hle]; [by repeat constructor|]. cbn.
  destruct (Z.leb_spec t' t).
  - constructor; [done|]. rewrite insert_event_Permutation. by constructor.
  - constructor; [by constructor|]. constructor; [unfold key_le; cbn; lia|].
    eapply list.Forall_impl; [done|]. unfold key_le. cbn. intros. lia.
Qed.

Lemma due_sorted_cons now t p l :
  StronglySorted key_le ((t, p) :: l) -> now < t -> due now ((t, p) :: l) = [].
Proof.
  intros Hs Ht. apply StronglySorted_inv in Hs as [_ Hle]. unfold due.
  rewrite filter_cons_False by (cbn; lia).
  induction Hle as [|[t' p'] l Hx _ IH]; [done|]. unfold key_le in Hx. cbn in Hx.
  by rewrite filter_cons_False by (cbn; lia).
Qed.

(** Events added later than now do not change what is due now. *)
Lemma due_insert now t p l :
  now < t -> due now (insert_event t p l) = due now l.
Proof.
  intros Ht. unfold due. induction l as [|[t' p'] l IH]; cbn [insert_event].
  - by rewrite filter_cons_False by (cbn; lia).
  - destruct (Z.leb_spec t' t).
    + destruct (decide (t' <= now)).
      * by rewrite !filter_cons_True, IH by (cbn; lia).
      * by rewrite !filter_cons_False, IH by (cbn; lia).
    + by rewrite filter_cons_False by (cbn; lia).
Qed.

Lemma AddEvent_ok p t b ep :
  queue_ok ep -> is_Some (heap ep !! p) -> p ∉ (m_events ep).*2 -> queue_ok (AddEvent p t b ep).
Proof.
  intros [Hs Hn Hl] Hp Hnew. split; cbn.
  - by apply insert_event_sorted.
  - rewrite insert_event_Permutation. cbn. by apply NoDup_cons.
  - assert (Hlive : forall q, is_Some (heap ep !! q) -> is_Some (alter (fun e =>
      let e := if b then {| e with m_addTime := m_time ep |} else e in
       {| e with m_execTime := t |}) p (heap ep) !! q)).
    { intros q Hq. destruct (decide (p = q)) as [->|].
      - rewrite lookup_alter_eq. by destruct Hq as [? ->].
      - by rewrite lookup_alter_ne. }
    rewrite insert_event_Permutation. cbn. constructor; [by apply Hlive|].
    eapply list.Forall_impl; [done|]. auto.
Qed.

Section Update.
Context (Execute : Z -> Z -> Z -> EventProcessor -> bool * EventProcessor).

(** The contract of the virtual method: it may queue events for later (itself
    included, when it returns false), create and abort events, but what is due
    stays due, aborted events stay aborted, and an event that lets itself be
    deleted is not queued. *)
Definition execute_ok : Prop := forall p p_time ep,
  queue_ok ep -> is_Some (heap ep !! p) -> p ∉ (m_events ep).*2 ->
  let '(done, ep') := Execute p (m_time ep) p_time ep in
  m_time ep' = m_time ep /\ calls ep' = calls ep /\ queue_ok ep'
  /\ due (m_time ep) (m_events ep') = due (m_time ep) (m_events ep)
  /\ (forall q e, heap ep !! q = Some e -> q ∈ (m_events ep).*2 -> to_Abort e = true ->
      exists e', heap ep' !! q = Some e' /\ to_Abort e' = true)
  /\ (done = true -> p ∉ (m_events ep').*2).

Lemma queue_tail t p rest ep :
  queue_ok ep -> m_events ep = (t, p) :: rest ->
  queue_ok {| ep with m_events := rest |} /\ (p ∉ rest.*2) /\ is_Some (heap ep !! p).
Proof.
  intros [Hs Hn Hl] E. rewrite E in *. cbn in Hn, Hl.
  apply NoDup_cons in Hn as [Hnin Hn]. apply Forall_cons_iff in Hl as [Hp Hl].
  apply StronglySorted_inv in Hs as [Hs _]. split; [by split|done].
Qed.

Lemma called_ok c ep : queue_ok ep -> queue_ok (called c ep).
Proof. intros []. by split. Qed.

Lemma delete_event_ok p ep : queue_ok ep -> p ∉ (m_events ep).*2 -> queue_ok (delete_event p ep).
Proof.
  intros [Hs Hn Hl] Hp. split; cbn; [done|done|]. apply list.Forall_forall. intros q Hq.
  rewrite lookup_delete_ne by (intros <-; done). by apply (proj1 (list.Forall_forall _ _) Hl).
Qed.

(** The events marked as aborted when the loop starts. *)
Definition aborted (ep : EventProcessor) (p : Z) : Prop :=
  exists e, heap ep !! p = Some e /\ to_Abort e = true.

(** What one pass does with the queue it starts from. *)
Record pass (ep ep' : EventProcessor) (new : list ev_call) : Prop := {
  pass_ok : queue_ok ep';
  pass_time : m_time ep' = m_time ep;
  pass_calls : calls ep' = calls ep ++ new;
  pass_visited : visited new = (due (m_time ep) (m_events ep)).*2;
  pass_rest : due (m_time ep) (m_events ep') = [];
  pass_aborted : forall p, p ∈ (m_events ep).*2 -> aborted ep p -> CallExecute p ∉ new
}.

Lemma visited_app a b : visited (a ++ b) = visited a ++ visited b.
Proof. apply omap_app. Qed.

Lemma due_head t p l now : t <= now -> due now ((t, p) :: l) = (t, p) :: due now l.
Proof. intros. unfold due. by rewrite filter_cons_True. Qed.

Lemma elem_of_visited q cs : CallExecute q ∈ cs -> q ∈ visited cs.
Proof. intros Hq. apply list_elem_of_omap. by exists (CallExecute q). Qed.

Lemma elem_of_due q now l : q ∈ (due now l).*2 -> q ∈ l.*2.
Proof.
  intros Hq. apply list_elem_of_fmap in Hq as ([t p] & -> & Hq).
  apply list_elem_of_filter in Hq as [_ Hq]. apply list_elem_of_fmap. by exists (t, p).
Qed.

(** The processing of the first event, then a pass from the state it left. *)
Lemma step_pass t p rest ep mid ep' new c post :
  m_events ep = (t, p) :: rest -> t <= m_time ep ->
  m_time mid = m_time ep -> calls mid = calls ep ++ c :: post ->
  visited (c :: post) = [p] ->
  (forall q, aborted ep q -> CallExecute q ∉ c :: post) ->
  due (m_time ep) (m_events mid) = due (m_time ep) rest ->
  (forall q, q ∈ rest.*2 -> aborted ep q -> aborted mid q) ->
  pass mid ep' new -> pass ep ep' ((c :: post) ++ new).
Proof.
  intros E Ht Em Ec Ev Hpost Ed Hab [H1 H2 H3 H4 H5 H6].
  split; [done|by rewrite H2| | | |].
  - by rewrite H3, Ec, <- app_assoc.
  - rewrite visited_app, Ev, H4, Em, Ed, E, due_head by done. done.
  - by rewrite <- Em.
  - intros q Hq Hqa Hin. apply elem_of_app in Hin as [Hin|Hin]; [by apply (Hpost q)|].
    pose proof (elem_of_visited q new Hin) as Hv. rewrite H4, Em in Hv.
    apply (H6 q); [by eapply elem_of_due| |done]. apply Hab; [|done].
    rewrite Ed in Hv. by eapply elem_of_due.
Qed.

Lemma Update_loop_pass (n : nat) p_time ep :
  execute_ok -> queue_ok ep -> (length (due (m_time ep) (m_events ep)) < n)%nat ->
  exists ep' new, Update_loop Execute n p_time ep = Finished ep' /\ pass ep ep' new.
Proof.
  intros Hx. revert ep. induction n as [|n IH]; intros ep Hok Hn; [lia|]. cbn [Update_loop].
  destruct (m_events ep) as [|[t p] rest] eqn:E.
  { exists ep, []. split; [done|]. split; rewrite ?E, ?app_nil_r; try done. intros q Hq. set_solver. }
  destruct (Z.leb_spec t (m_time ep)) as [Ht|Ht].
  2:{ exists ep, []. split; [done|]. pose proof (q_sorted _ Hok) as Hs. rewrite E in Hs.
      split; rewrite ?E, ?app_nil_r, ?(due_sorted_cons _ _ _ _ Hs Ht); try done.
      intros q _ _ Hin. set_solver. }
  rewrite due_head in Hn by done. cbn [length] in Hn.
  destruct (queue_tail t p rest ep Hok E) as (Hok1 & Hp & [e He]).
  set (ep1 := {| ep with m_events := rest |}) in *.
  assert (He1 : heap ep1 !! p = Some e) by done. rewrite He1.
  destruct (to_Abort e) eqn:Ea; cbn [negb].
  - set (mid := delete_event p (called (CallAbort p) ep1)).
    assert (Hmid : queue_ok mid) by (apply delete_event_ok; [by apply called_ok|done]).
    destruct (IH mid Hmid) as (ep' & new & -> & Hpass).
    { change (length (due (m_time ep) rest) < n)%nat. lia. }
    exists ep', ((CallAbort p :: [CallDelete p]) ++ new). split; [done|].
    apply (step_pass t p rest ep mid); try done.
    + cbn. by rewrite <- app_assoc.
    + intros q _ Hq. rewrite !elem_of_cons, elem_of_nil in Hq. naive_solver.
    + intros q Hq [e' [Hq1 Hq2]]. exists e'. cbn. rewrite lookup_delete_ne by (intros <-; done). done.
  - pose proof (Hx p p_time (called (CallExecute p) ep1) (called_ok _ _ Hok1) ltac:(by eexists) Hp) as Hex.
    change (m_time (called (CallExecute p) ep1)) with (m_time ep) in Hex.
    change (m_time ep1) with (m_time ep).
    destruct (Execute p (m_time ep) p_time (called (CallExecute p) ep1)) as [don ep2].
    destruct Hex as (Hm & Hc & Hok2 & Hd & Hab & Hdone).
    change (m_events (called (CallExecute p) ep1)) with rest in *.
    change (heap (called (CallExecute p) ep1)) with (heap ep) in *.
    change (calls (called (CallExecute p) ep1)) with (calls ep ++ [CallExecute p]) in *.
    assert (Hhead : forall q, aborted ep q -> q <> p).
    { intros q [e' [Hq1 Hq2]] ->. congruence. }
    destruct don.
    + destruct (IH (delete_event p ep2)) as (ep' & new & -> & Hpass).
      { apply delete_event_ok; auto. }
      { change (length (due (m_time ep2) (m_events ep2)) < n)%nat. rewrite Hm, Hd. lia. }
      exists ep', ((CallExecute p :: [CallDelete p]) ++ new). split; [done|].
      apply (step_pass t p rest ep (delete_event p ep2)); try done.
      * cbn. by rewrite Hc, <- app_assoc.
      * intros q Hq Hin. specialize (Hhead q Hq).
        rewrite ?elem_of_cons, elem_of_nil in Hin. naive_solver.
      * intros q Hq [e' [Hq1 Hq2]]. destruct (Hab q e' Hq1 Hq Hq2) as (e'' & ? & ?).
        exists e''. cbn. rewrite lookup_delete_ne by (intros <-; done). done.
    + destruct (IH ep2 Hok2) as (ep' & new & -> & Hpass); [rewrite Hm, Hd; lia|].
      exists ep', ((CallExecute p :: []) ++ new). split; [done|].
      apply (step_pass t p rest ep ep2); try done.
      * intros q Hq Hin. specialize (Hhead q Hq).
        rewrite ?elem_of_cons, elem_of_nil in Hin. naive_solver.
      * intros q Hq [e' [Hq1 Hq2]]. destruct (Hab q e' Hq1 Hq Hq2) as (e'' & ? & ?). by exists e''.
Qed.
End Update.

(** ** Properties *)

(** C18: One tick of the processor always ends (fuel: one more than the events
    due), touches no freed event, and runs exactly the events due at the new
    time, each once, in the order of their times and, for equal times, in the
    order they were queued; events aborted before are not executed, and every
    event left is due later. *)
Theorem Update_runs_due Execute (p_time : Z) (ep : EventProcessor) :
  execute_ok Execute -> queue_ok ep -> in_u 64 (m_time ep + p_time) ->
  let now := m_time ep + p_time in
  exists ep' new, Update Execute (S (length (due now (m_events ep)))) p_time ep = Finished ep'
    /\ calls ep' = calls ep ++ new
    /\ visited new = (due now (m_events ep)).*2
    /\ (forall p, p ∈ (m_events ep).*2 -> aborted ep p -> CallExecute p ∉ new)
    /\ Forall (fun tp => now < tp.1) (m_events ep') /\ queue_ok ep'.
Proof.
  intros Hx Hok Ht now. unfold Update. rewrite wrap_small by done. fold now.
  set (ep0 := {| ep with m_time := now |}).
  destruct (Update_loop_pass Execute (S (length (due now (m_events ep)))) p_time ep0 Hx)
    as (ep' & new & -> & [H1 H2 H3 H4 H5 H6]); [by destruct Hok|apply Nat.lt_succ_diag_r|].
  exists ep', new. split_and!; try done.
  apply list.Forall_forall. intros tp Hin. destruct (Z.lt_ge_cases now tp.1); [done|].
  assert (Hd : tp ∈ due now (m_events ep')) by (by apply list_elem_of_filter).
  change (m_time ep0) with now in H5. rewrite H5 in Hd. set_solver.
Qed.

(** A spell that ticks every second (event 1) and events that end when run. *)
Definition tick (p e_time p_time : Z) (ep : EventProcessor) : bool * EventProcessor :=
  if p =? 1 then (false, AddEvent 1 (e_time + 1000) true ep) else (true, ep).

Lemma tick_ok : execute_ok tick.
Proof.
  intros p pt ep Hok Hp Hnin. unfold tick. destruct (Z.eqb_spec p 1) as [->|].
  - split_and!; try done.
    + by apply AddEvent_ok.
    + cbn. apply due_insert. lia.
    + intros q e Hq _ Ha. cbn. destruct (decide (q = 1)) as [->|].
      * rewrite lookup_alter_eq, Hq. eexists. by split.
      * rewrite lookup_alter_ne by done. eauto.
  - split_and!; try done. eauto.
Qed.

Definition demo_queue : EventProcessor :=
  mkEventProcessor 5000 [(5100, 2); (5200, 1); (5200, 3); (9000, 4)] false
    {[ 1 := mkBasicEvent false 0 0 true; 2 := mkBasicEvent true 0 0 true;
       3 := mkBasicEvent false 0 0 true; 4 := mkBasicEvent false 0 0 true ]} [].

Lemma demo_queue_ok : queue_ok demo_queue.
Proof.
  split.
  - repeat constructor; unfold key_le; cbn; lia.
  - apply (bool_decide_unpack _). vm_compute. exact I.
  - repeat constructor; eexists; vm_compute; reflexivity.
Qed.

Lemma Update_runs_due_witness :
  exists ep' new, Update tick 4 250 demo_queue = Finished ep' /\ visited new = [2; 1; 3]
    /\ calls ep' = calls demo_queue ++ new /\ CallExecute 2 ∉ new.
Proof.
  destruct (Update_runs_due tick 250 demo_queue tick_ok demo_queue_ok ltac:(cbn; lia))
    as (ep' & new & H1 & H2 & H3 & H4 & _ & _).
  exists ep', new. split; [exact H1|]. split; [rewrite H3; vm_compute; reflexivity|].
  split; [exact H2|]. apply H4.
  - cbn. set_solver.
  - eexists. split; vm_compute; reflexivity.
Defined.

(** The millisecond clock difference is exact while the clock does not
    wrap, and one millisecond short when it does. *)
Theorem getMSTimeDiff_elapsed (old elapsed : Z) :
  in_u 32 old -> in_u 32 elapsed ->
  getMSTimeDiff old (u32 (old + elapsed)) =
    if old + elapsed <? 2 ^ 32 then elapsed else elapsed - 1.
Proof.
  intros Ho He. unfold getMSTimeDiff. destruct (Z.ltb_spec (old + elapsed) (2 ^ 32)) as [H|H].
  - rewrite (wrap_small 32 (old + elapsed)) by lia. bdestr; [lia|].
    rewrite wrap_small; lia.
  - assert (u32 (old + elapsed) = old + elapsed - 2 ^ 32) as ->.
    { unfold wrap. rewrite <- (Z.mod_add _ (-1)) by lia. apply Z.mod_small. lia. }
    bdestr; [|lia]. rewrite (wrap_small 32 (4294967295 - old)) by lia. rewrite wrap_small; lia.
Qed.

Lemma getMSTimeDiff_elapsed_witness : getMSTimeDiff 4294967290 4 = 9.
Proof. exact (getMSTimeDiff_elapsed 4294967290 10 ltac:(lia) ltac:(lia)). Defined.

(** ** Killing the events *)

Definition kill_calls (force : bool) (h : gmap Z BasicEvent) (p : Z) : list ev_call :=
  CallAbort p :: if force || from_option IsDeletable false (h !! p) then [CallDelete p] else [].

Definition survives (force : bool) (h : gmap Z BasicEvent) (p : Z) : bool :=
  negb (from_option IsDeletable false (h !! p)) && negb force.

Lemma Kill_loop_spec force todo kept ep :
  NoDup todo.*2 -> Forall (fun p => is_Some (heap ep !! p)) todo.*2 ->
  exists ep', Kill_loop force todo kept ep = Finished ep'
    /\ calls ep' = calls ep ++ mbind (kill_calls force (heap ep)) todo.*2
    /\ m_events ep' = kept ++ List.filter (fun tp => force || survives force (heap ep) tp.2) todo
    /\ m_aborting ep' = m_aborting ep
    /\ (forall q, q ∉ todo.*2 -> heap ep' !! q = heap ep !! q)
    /\ (forall q, q ∈ todo.*2 -> is_Some (heap ep' !! q) <-> survives force (heap ep) q = true).
Proof.
  revert kept ep. induction todo as [|[t p] todo IH]; intros kept ep Hn Hl.
  { exists {| ep with m_events := kept |}. cbn. rewrite !app_nil_r. split_and!; try done. set_solver. }
  cbn in Hn, Hl. apply NoDup_cons in Hn as [Hp Hn]. apply Forall_cons_iff in Hl as [[e He] Hl].
  cbn [Kill_loop]. rewrite He. set (ep1 := called (CallAbort p) _).
  set (b := force || IsDeletable e).
  set (ep2 := if b then delete_event p ep1 else ep1).
  assert (Hh : forall q, q <> p -> heap ep2 !! q = heap ep !! q).
  { intros q Hq. subst ep2. destruct b; cbn; rewrite ?lookup_delete_ne, lookup_insert_ne; done. }
  assert (Hext : forall q, q ∈ todo.*2 -> heap ep2 !! q = heap ep !! q).
  { intros q Hq. apply Hh. intros ->. done. }
  destruct (IH (if negb b || force then kept ++ [(t, p)] else kept) ep2 Hn) as (ep' & E & H1 & H2 & H3 & H4 & H5).
  { apply list.Forall_forall. intros q Hq. rewrite Hext by done. by apply (proj1 (list.Forall_forall _ _) Hl). }
  exists ep'. split.
  { rewrite <- E. subst ep2 b. by destruct force, (IsDeletable e). }
  assert (E1 : mbind (kill_calls force (heap ep2)) todo.*2 = mbind (kill_calls force (heap ep)) todo.*2).
  { clear -Hext. induction (todo.*2) as [|q l IH]; [done|].
    assert (kill_calls force (heap ep2) q = kill_calls force (heap ep) q) as Eq
      by (unfold kill_calls; rewrite Hext; [done|by constructor]).
    rewrite !bind_cons, Eq. f_equal. apply IH. intros q' Hq'. apply Hext. by constructor. }
  assert (E2 : forall q, q ∈ todo.*2 -> survives force (heap ep2) q = survives force (heap ep) q).
  { intros q Hq. unfold survives. by rewrite Hext. }
  split_and!.
  - rewrite H1, E1. cbn [fmap list_fmap snd]. rewrite bind_cons. unfold kill_calls at 2. rewrite He. cbn [from_option]. fold b.
    subst ep2. destruct b; cbn; rewrite <- ?app_assoc; done.
  - rewrite H2. cbn [List.filter]. unfold survives at 2. cbn [snd]. rewrite He. cbn [from_option].
    assert (List.filter (fun tp : Z * Z => force || survives force (heap ep2) tp.2) todo
      = List.filter (fun tp : Z * Z => force || survives force (heap ep) tp.2) todo) as ->.
    { apply List.filter_ext_in. intros [t' q] Hq. cbn. rewrite E2; [done|].
      apply list_elem_of_fmap. exists (t', q). split; [done|]. by apply list_elem_of_In. }
    subst b. destruct force, (IsDeletable e); cbn; rewrite <- ?app_assoc; done.
  - rewrite H3. subst ep2. by destruct b.
  - intros q Hq. rewrite H4 by set_solver. apply Hh. set_solver.
  - intros q Hq. cbn in Hq. destruct (decide (q = p)) as [->|Hne].
    + rewrite H4 by done. unfold survives. rewrite He. cbn [from_option]. subst ep2 b.
      destruct force, (IsDeletable e); cbn;
        rewrite ?lookup_delete_eq, ?lookup_insert_eq; split; try done; intros [? ?]; done.
    + assert (q ∈ todo.*2) as Hq' by set_solver. rewrite H5 by done. by rewrite E2.
Qed.

(** Killing the events aborts every queued event once, deletes once each
    those that may be deleted (all of them when forced) and leaves queued and
    alive exactly the others. *)
Theorem KillAllEvents_frees force (ep : EventProcessor) :
  queue_ok ep ->
  exists ep', KillAllEvents force ep = Finished ep'
    /\ calls ep' = calls ep ++ mbind (kill_calls force (heap ep)) (m_events ep).*2
    /\ m_events ep' = List.filter (fun tp => survives force (heap ep) tp.2) (m_events ep)
    /\ forall p, p ∈ (m_events ep).*2 ->
         is_Some (heap ep' !! p) <-> p ∈ (m_events ep').*2.
Proof.
  intros [_ Hn Hl]. unfold KillAllEvents.
  destruct (Kill_loop_spec force (m_events ep) [] {| ep with m_aborting := true |} Hn Hl)
    as (ep' & -> & H1 & H2 & _ & _ & H5).
  cbn [heap m_events calls app] in *.
  assert (m_events (if force then {| ep' with m_events := [] |} else ep')
    = List.filter (fun tp => survives force (heap ep) tp.2) (m_events ep)) as Hm.
  { destruct force; [cbn|exact H2]. symmetry. clear.
    induction (m_events ep) as [|tp l IH]; [done|]. cbn. unfold survives at 1. by rewrite andb_false_r. }
  eexists. split; [reflexivity|]. split_and!; [by destruct force|exact Hm|].
  intros p Hp. rewrite Hm. transitivity (is_Some (heap ep' !! p)); [by destruct force|]. rewrite H5 by done.
  split.
  - intros Hs. apply list_elem_of_fmap in Hp as (tp & -> & Hin). apply list_elem_of_fmap. exists tp.
    split; [done|]. apply list_elem_of_In, filter_In. split; [by apply list_elem_of_In|done].
  - intros Hin. apply list_elem_of_fmap in Hin as (tp & -> & Hin).
    apply list_elem_of_In, filter_In in Hin as [_ ?]. done.
Qed.

Lemma KillAllEvents_frees_witness :
  exists ep', KillAllEvents true demo_queue = Finished ep' /\ m_events ep' = []
    /\ deleted (calls ep') = [2; 1; 3; 4].
Proof.
  destruct (KillAllEvents_frees true demo_queue demo_queue_ok) as (ep' & H1 & H2 & H3 & _).
  exists ep'. split; [exact H1|]. rewrite H3, H2. split; vm_compute; reflexivity.
Defined.
