(* ===== verification/UpdateMask.v ===== *)
(** * UpdateMask: which fields of an object a client is told about
      (src/src/server/game/Entities/Object/Updates/UpdateMask.h)

    One byte cell per field on the server, one bit per field in the packet.
    Accesses outside the array are undefined in C++: [None]. *)

From S2P Require Import Prelude.
From S2P Require Import Bits.
From S2P Require Import ByteBuffer.
From S2P Require Import ByteBufferSpec.

(* [game/Entities/Object/Updates/UpdateMask.h:119-122] UpdateMask *)
Record UpdateMask := mkUpdateMask {
  _fieldCount : Z;     (* uint32 *)
  _blockCount : Z;     (* uint32 *)
  _bits : list Z       (* uint8[_blockCount * 32] *)
}.

(* [game/Entities/Object/Updates/UpdateMask.h:37-37] UpdateMask::UpdateMask *)
Definition new_UpdateMask : UpdateMask := mkUpdateMask 0 0 [].

(* [game/Entities/Object/Updates/UpdateMask.h:67-76] UpdateMask::SetCount *)
Definition SetCount (valuesCount : Z) : UpdateMask :=
  let blocks := u32 (valuesCount + 32 - 1) / 32 in
  mkUpdateMask valuesCount blocks (replicate (Z.to_nat (u32 (blocks * 32))) 0).

Definition write_cell (index v : Z) (um : UpdateMask) : option UpdateMask :=
  match znth (_bits um) index with
  | Some _ => Some {| um with _bits := zset (_bits um) index v |}
  | None => None
  end.

(* [game/Entities/Object/Updates/UpdateMask.h:47-47] UpdateMask::SetBit *)
Definition SetBit (index : Z) (um : UpdateMask) : option UpdateMask := write_cell index 1 um.

(* [game/Entities/Object/Updates/UpdateMask.h:48-48] UpdateMask::UnsetBit *)
Definition UnsetBit (index : Z) (um : UpdateMask) : option UpdateMask := write_cell index 0 um.

(* [game/Entities/Object/Updates/UpdateMask.h:49-49] UpdateMask::GetBit *)
Definition GetBit (index : Z) (um : UpdateMask) : option bool :=
  option_map (fun x => negb (x =? 0)) (znth (_bits um) index).

(* [game/Entities/Object/Updates/UpdateMask.h:78-82] UpdateMask::Clear *)
Definition Clear (um : UpdateMask) : UpdateMask :=
  {| um with _bits := replicate (length (_bits um)) 0 |}.

(* [game/Entities/Object/Updates/UpdateMask.h:84-92] UpdateMask::operator= *)
Definition assign (right : UpdateMask) : UpdateMask :=
  {| (SetCount (_fieldCount right)) with _bits := _bits right |}.

(** The 32 cells of one block as a word; [1 << j] is taken in [int]. *)
(* [game/Entities/Object/Updates/UpdateMask.h:55-58] UpdateMask::AppendToPacket *)
Fixpoint maskPart (cells : list Z) (j : Z) (acc : Z) : Z :=
  match cells with
  | [] => acc
  | x :: cells' =>
    maskPart cells' (j + 1) (if x =? 0 then acc else u32 (Z.lor acc (i32 (Z.shiftl 1 j))))
  end.

(* [game/Entities/Object/Updates/UpdateMask.h:51-62] UpdateMask::AppendToPacket *)
Fixpoint AppendToPacket (cells : list Z) (blocks : nat) : M ByteBuffer bb_exn unit :=
  match blocks with
  | O => mret tt
  | S blocks' =>
    if 32 <=? zlen cells
    then put_uint32 (maskPart (take 32 cells) 0 0) ;; AppendToPacket (drop 32 cells) blocks'
    else throw OutOfBounds
  end.

(** The common loop of [&=] and [|=]: over the fields of the left mask, after
    the assertion on the counts. *)
Fixpoint combine_cells (f : Z -> Z -> Z) (n : nat) (l r : list Z) : option (list Z) :=
  match n, l, r with
  | O, _, _ => Some l
  | S n', x :: l', y :: r' => option_map (cons (f x y)) (combine_cells f n' l' r')
  | S _, _, _ => None
  end.

Inductive mask_result :=
| MaskOk (um : UpdateMask)
| MaskAssert
| MaskOutOfBounds.

Definition combine (f : Z -> Z -> Z) (um right : UpdateMask) : mask_result :=
  if _fieldCount right <=? _fieldCount um then
    match combine_cells f (Z.to_nat (_fieldCount um)) (_bits um) (_bits right) with
    | Some l => MaskOk {| um with _bits := l |}
    | None => MaskOutOfBounds
    end
  else MaskAssert.

(* [game/Entities/Object/Updates/UpdateMask.h:94-101] UpdateMask::operator&= *)
Definition and_assign (um right : UpdateMask) : mask_result := combine Z.land um right.

(* [game/Entities/Object/Updates/UpdateMask.h:103-110] UpdateMask::operator|= *)
Definition or_assign (um right : UpdateMask) : mask_result := combine Z.lor um right.

(* [game/Entities/Object/Updates/UpdateMask.h:112-117] UpdateMask::operator| *)
Definition mask_or (um right : UpdateMask) : mask_result := or_assign (assign um) right.

(** ** Properties *)

Record mask_ok (um : UpdateMask) : Prop := {
  mask_blocks : _blockCount um = (_fieldCount um + 31) / 32;
  mask_count : 0 <= _fieldCount um < 2 ^ 32 - 32;
  mask_len : zlen (_bits um) = 32 * _blockCount um
}.

Lemma SetCount_ok n : 0 <= n < 2 ^ 32 - 32 -> mask_ok (SetCount n).
Proof.
  intros Hn. unfold SetCount. rewrite (wrap_small 32 (n + 32 - 1)) by lia.
  replace (n + 32 - 1) with (n + 31) by lia.
  pose proof (Z.div_pos (n + 31) 32 ltac:(lia) ltac:(lia)).
  pose proof (Z.mul_div_le (n + 31) 32 ltac:(lia)).
  split; cbn; [done|done|]. unfold zlen. rewrite length_replicate.
  rewrite wrap_small by lia. lia.
Qed.

Lemma maskPart_spec cells j acc :
  0 <= j -> j + zlen cells <= 32 -> in_u j acc ->
  in_u 32 (maskPart cells j acc) /\
  forall i, 0 <= i -> Z.testbit (maskPart cells j acc) i =
    if i <? j then Z.testbit acc i
    else from_option (fun x => negb (x =? 0)) false (znth cells (i - j)).
Proof.
  revert j acc. induction cells as [|x cells IH]; intros j acc Hj Hl Ha; cbn [maskPart].
  - assert (2 ^ j <= 2 ^ 32) by (apply Z.pow_le_mono_r; unfold zlen in Hl; cbn in Hl; lia).
    split; [lia|]. intros i Hi. unfold znth. bdestr; [done|].
    rewrite (testbit_high j) by lia. by destruct (i - j <? 0).
  - unfold zlen in Hl. cbn [length] in Hl.
    assert (Hp : 2 ^ (j + 1) = 2 * 2 ^ j) by (rewrite Z.pow_add_r by lia; lia).
    assert (Hp32 : 2 ^ (j + 1) <= 2 ^ 32) by (apply Z.pow_le_mono_r; lia).
    set (acc' := if x =? 0 then acc else _).
    assert (Hacc : in_u (j + 1) acc' /\ forall i, 0 <= i -> Z.testbit acc' i =
      if i =? j then negb (x =? 0) else Z.testbit acc i).
    { subst acc'. destruct (Z.eqb_spec x 0) as [->|Hx].
      - split; [lia|]. intros i Hi. bdestr; [|done]. subst. by rewrite (testbit_high j) by lia.
      - assert (Hw : forall i, 0 <= i < 32 -> Z.testbit (i32 (Z.shiftl 1 j)) i = (i =? j)).
        { intros i Hi. assert (u32 (i32 (Z.shiftl 1 j)) = 2 ^ j) as E.
          { unfold swrap, wrap. rewrite Zminus_mod_idemp_l, Z.add_simpl_r, Z.shiftl_1_l.
            apply Z.mod_small. lia. }
          rewrite <- (Z.mod_pow2_bits_low _ 32) by lia. fold (u32 (i32 (Z.shiftl 1 j))).
          rewrite E, Z.pow2_bits_eqb by lia. apply Z.eqb_sym. }
        assert (Hb : forall i, 0 <= i -> Z.testbit (u32 (Z.lor acc (i32 (Z.shiftl 1 j)))) i =
          if i =? j then true else Z.testbit acc i).
        { intros i Hi. unfold wrap. destruct (Z.lt_ge_cases i 32).
          - rewrite Z.mod_pow2_bits_low, Z.lor_spec, Hw by lia. destruct (i =? j); [apply orb_true_r|].
            apply orb_false_r.
          - rewrite Z.mod_pow2_bits_high by lia. bdestr; [lia|]. by rewrite (testbit_high j) by lia. }
        split; [|exact Hb]. apply in_u_bits; [lia|]. intros i Hi. rewrite Hb by lia.
        bdestr; [lia|]. by rewrite (testbit_high j) by lia. }
    destruct Hacc as [Hr Hb]. destruct (IH (j + 1) acc' ltac:(lia) ltac:(unfold zlen; lia) Hr) as [H1 H2].
    split; [done|]. intros i Hi. rewrite H2 by done.
    destruct (Z.ltb_spec i (j + 1)); rewrite ?Hb by lia; unfold znth.
    + bdestr; [subst; rewrite Z.sub_diag; by destruct (Z.ltb_spec j j); [lia|]|].
      destruct (Z.ltb_spec i j); [done|lia].
    + destruct (Z.ltb_spec i j); [lia|]. destruct (Z.ltb_spec (i - (j + 1)) 0); [lia|].
      destruct (Z.ltb_spec (i - j) 0); [lia|].
      replace (Z.to_nat (i - j)) with (S (Z.to_nat (i - (j + 1)))) by lia. done.
Qed.

Lemma AppendToPacket_spec blocks : forall cells b,
  zlen cells = 32 * Z.of_nat blocks -> _wpos b = size b ->
  size b + 4 * Z.of_nat blocks < 10000000 ->
  exists words b', AppendToPacket cells blocks b = (Ok tt, b')
    /\ _storage b' = _storage b ++ mbind (le_bytes 4) words
    /\ zlen words = Z.of_nat blocks /\ Forall (fun w => in_u 32 w) words
    /\ forall i, 0 <= i < zlen cells ->
       option_map (fun x => negb (x =? 0)) (znth cells i)
       = option_map (fun w => Z.testbit w (i mod 32)) (znth words (i / 32)).
Proof.
  induction blocks as [|blocks IH]; intros cells b Hl Hw Hs; cbn [AppendToPacket].
  { exists [], b. rewrite app_nil_r. split_and!; try done. intros i Hi. lia. }
  destruct (Z.leb_spec 32 (zlen cells)) as [H32|]; [|lia].
  set (w := maskPart (take 32 cells) 0 0).
  assert (Htake : zlen (take 32 cells) = 32) by (unfold zlen in *; rewrite length_take; lia).
  destruct (maskPart_spec (take 32 cells) 0 0 ltac:(lia) ltac:(lia) ltac:(lia)) as [Hwr Hwb].
  fold w in Hwr, Hwb.
  assert (E1 : put_uint32 w b = (Ok tt, appended b (le_bytes 4 w))).
  { apply append_run; [done|lia|]. unfold zlen. rewrite length_le_bytes. lia. }
  rewrite (bind_ok _ _ _ _ _ E1).
  destruct (IH (drop 32 cells) (appended b (le_bytes 4 w))) as (words & b' & E2 & Hst & Hlen & Hall & Hbit).
  - unfold zlen in *. rewrite length_drop. lia.
  - unfold appended, size, zlen in *. cbn [_wpos _storage]. rewrite length_app. lia.
  - unfold appended, size, zlen in *. cbn [_storage]. rewrite length_app, length_le_bytes. lia.
  - exists (w :: words), b'. split_and!; [done| | |by constructor|].
    + rewrite Hst. cbn [appended _storage]. by rewrite bind_cons, app_assoc.
    + unfold zlen in *. cbn [length]. lia.
    + intros i Hi. destruct (Z.lt_ge_cases i 32).
      * rewrite (Z.div_small i 32), (Z.mod_small i 32) by lia.
        change (znth (w :: words) 0) with (Some w). cbn [option_map].
        rewrite Hwb by lia. destruct (Z.ltb_spec i 0); [lia|]. rewrite Z.sub_0_r.
        unfold znth. destruct (Z.ltb_spec i 0); [lia|].
        rewrite lookup_take_lt by lia.
        destruct (cells !! Z.to_nat i) eqn:E; [done|]. apply lookup_ge_None in E. unfold zlen in *. lia.
      * specialize (Hbit (i - 32)). unfold zlen in Hbit at 1. rewrite length_drop in Hbit.
        specialize (Hbit ltac:(unfold zlen in *; lia)).
        replace (i / 32) with ((i - 32) / 32 + 1).
        2:{ replace i with ((i - 32) + 1 * 32) at 2 by lia. rewrite Z.div_add; lia. }
        replace (i mod 32) with ((i - 32) mod 32).
        2:{ replace i with ((i - 32) + 1 * 32) at 2 by lia. by rewrite Z.mod_add by lia. }
        pose proof (Z.div_pos (i - 32) 32 ltac:(lia) ltac:(lia)).
        unfold znth in *. destruct (Z.ltb_spec (i - 32) 0); [lia|].
        destruct (Z.ltb_spec ((i - 32) / 32) 0); [lia|]. destruct (Z.ltb_spec i 0); [lia|].
        destruct (Z.ltb_spec ((i - 32) / 32 + 1) 0); [lia|].
        replace (Z.to_nat ((i - 32) / 32 + 1)) with (S (Z.to_nat ((i - 32) / 32))) by lia.
        cbn [lookup list_lookup]. etransitivity; [|exact Hbit].
        rewrite lookup_drop. do 2 f_equal. lia.
Qed.

(** A mask is sent as one 32-bit word per block, and field [i] is marked
    exactly when bit [i mod 32] of word [i / 32] is set, for every field
    [GetBit] can be asked about. *)
Theorem AppendToPacket_bits (um : UpdateMask) (b : ByteBuffer) :
  mask_ok um -> _wpos b = size b -> size b + 4 * _blockCount um < 10000000 ->
  exists words b', AppendToPacket (_bits um) (Z.to_nat (_blockCount um)) b = (Ok tt, b')
    /\ _storage b' = _storage b ++ mbind (le_bytes 4) words
    /\ zlen words = _blockCount um
    /\ forall i, 0 <= i < 32 * _blockCount um ->
       GetBit i um = option_map (fun w => Z.testbit w (i mod 32)) (znth words (i / 32)).
Proof.
  intros [Hb Hc Hl] Hw Hs. pose proof (zlen_nonneg (_bits um)).
  destruct (AppendToPacket_spec (Z.to_nat (_blockCount um)) (_bits um) b)
    as (words & b' & E & H1 & H2 & _ & H3); [lia|done|lia|].
  exists words, b'. split_and!; [done|done|lia|]. intros i Hi. apply H3. lia.
Qed.

Lemma AppendToPacket_bits_witness :
  exists words b', AppendToPacket (_bits (SetCount 40)) 2 new_ByteBuffer = (Ok tt, b')
    /\ _storage b' = mbind (le_bytes 4) words /\ zlen words = 2.
Proof.
  destruct (AppendToPacket_bits (SetCount 40) new_ByteBuffer (SetCount_ok 40 ltac:(lia)) eq_refl
    ltac:(vm_compute; reflexivity)) as (words & b' & H1 & H2 & H3 & _).
  exists words, b'. split; [exact H1|]. split; [exact H2|exact H3].
Defined.

(** The combining operators read the right mask up to the left one's count: a
    smaller right mask, which the assertion allows, is read past its end. *)
Lemma combine_reads_past_right : or_assign (SetCount 40) (SetCount 10) = MaskOutOfBounds.
Proof. vm_compute. reflexivity. Qed.
