(* ===== verification/BigNumber.v ===== *)
(** * BigNumber and SHA1: the arithmetic of the login protocol
      (src/src/server/shared/Cryptography/BigNumber.cpp, SHA1.cpp)

    The numbers of the protocol are never negative: a [BIGNUM] is an integer.
    The functions of OpenSSL the wrappers call are an interface, with the
    documented behaviour the protocol relies on as its laws. *)

From S2P Require Import Prelude.
From S2P Require Import Bits.
From S2P Require Import ByteBuffer.
From S2P Require Import ByteBufferSpec.

Class OpenSSL := {
  SHA1 : list Z -> list Z;
  BN_mod_exp : Z -> Z -> Z -> Z;
  BN_hex2bn : list Z -> option Z;      (* [None]: no digits, number unchanged *)
  BN_bn2hex : Z -> list Z;
  SHA1_length : forall l, length (SHA1 l) = 20%nat;
  SHA1_bytes : forall l, bytes (SHA1 l);
  BN_mod_exp_spec : forall a p m, 0 <= a -> 0 <= p -> 0 < m -> BN_mod_exp a p m = a ^ p mod m;
  BN_hex2bn_nil : BN_hex2bn [] = None;
  BN_hex2bn_bn2hex : forall n, 0 <= n -> BN_hex2bn (BN_bn2hex n) = Some n
}.

(** [BN_num_bytes]. *)
(* [shared/Cryptography/BigNumber.cpp:155-158] BigNumber::GetNumBytes *)
Definition GetNumBytes (bn : Z) : Z := if bn =? 0 then 0 else Z.log2 bn / 8 + 1.

(** [BN_bin2bn] reads big-endian bytes, [SetBinary] reverses first. *)
(* [shared/Cryptography/BigNumber.cpp:61-66] BigNumber::SetBinary *)
Definition SetBinary (l : list Z) : Z := le_value l.

(* [shared/Cryptography/BigNumber.cpp:52-52] BigNumber::SetDword *)
Definition SetDword (val : Z) : Z := u32 val.

(* [shared/Cryptography/BigNumber.cpp:54-59] BigNumber::SetQword *)
Definition SetQword (bn val : Z) : Z :=
  Z.shiftl (bn + u32 (Z.shiftr val 32)) 32 + Z.land val 4294967295.

(* [shared/Cryptography/BigNumber.cpp:165-168] BigNumber::isZero *)
Definition isZero (bn : Z) : bool := bn =? 0.

(** [BN_bn2bin] writes the significant bytes, most significant first, at the
    start of the array; the rest of a longer array keeps its zeros. *)
(* [shared/Cryptography/BigNumber.cpp:170-193] BigNumber::AsByteArray *)
Definition AsByteArray_rev (bn minSize : Z) (reverse : bool) : list Z :=
  let length := if GetNumBytes bn <=? minSize then minSize else GetNumBytes bn in
  let array := rev (le_bytes (Z.to_nat (GetNumBytes bn)) bn)
               ++ replicate (Z.to_nat (length - GetNumBytes bn)) 0 in
  if reverse then rev array else array.

(* [shared/Cryptography/BigNumber.h:85-85] BigNumber::AsByteArray *)
Definition AsByteArray (bn minSize : Z) : list Z := AsByteArray_rev bn minSize true.

Section SHA.
Context `{OpenSSL}.

(* [shared/Cryptography/BigNumber.cpp:68-71] BigNumber::SetHexStr *)
Definition SetHexStr (bn : Z) (str : list Z) : Z := default bn (BN_hex2bn str).

(* [shared/Cryptography/BigNumber.cpp:143-153] BigNumber::ModExp *)
Definition ModExp (bn e m : Z) : Z := BN_mod_exp bn e m.

(* [shared/Cryptography/BigNumber.cpp:195-198] BigNumber::AsHexStr *)
Definition AsHexStr (bn : Z) : list Z := BN_bn2hex bn.

(** What [UpdateBigNumbers] feeds to the hash. *)
(* [shared/Cryptography/SHA1.cpp:43-57] SHA1Hash::UpdateBigNumbers *)
Definition UpdateBigNumbers (l : list Z) : list Z := l ≫= fun bn => AsByteArray bn 0.
End SHA.

(** ** What the byte array holds *)

Lemma GetNumBytes_bound bn : 0 <= bn ->
  0 <= GetNumBytes bn /\ bn < 2 ^ (8 * GetNumBytes bn)
  /\ (0 < bn -> 2 ^ (8 * (GetNumBytes bn - 1)) <= bn).
Proof.
  intros Hb. unfold GetNumBytes. destruct (Z.eqb_spec bn 0) as [->|Hne]; [cbn; lia|].
  pose proof (Z.log2_nonneg bn). pose proof (Z.log2_spec bn ltac:(lia)) as [Hl Hu].
  pose proof (Z.div_pos (Z.log2 bn) 8 ltac:(lia) ltac:(lia)).
  pose proof (Z.mul_div_le (Z.log2 bn) 8 ltac:(lia)).
  pose proof (Z.mul_succ_div_gt (Z.log2 bn) 8 ltac:(lia)). split_and!; [lia| |].
  - eapply Z.lt_le_trans; [exact Hu|]. apply Z.pow_le_mono_r; lia.
  - intros _. etransitivity; [|exact Hl]. apply Z.pow_le_mono_r; lia.
Qed.

Lemma GetNumBytes_le bn n : 0 <= n -> 0 <= bn < 2 ^ (8 * n) -> GetNumBytes bn <= n.
Proof.
  intros Hn Hb. destruct (Z.le_gt_cases (GetNumBytes bn) n) as [|Hgt]; [done|].
  destruct (GetNumBytes_bound bn ltac:(lia)) as (_ & _ & Hlow).
  destruct (Z.eqb_spec bn 0) as [->|]; [cbn in *; lia|].
  specialize (Hlow ltac:(lia)).
  assert (2 ^ (8 * n) <= 2 ^ (8 * (GetNumBytes bn - 1))) by (apply Z.pow_le_mono_r; lia). lia.
Qed.

Lemma rev_replicate {A} n (x : A) : rev (replicate n x) = replicate n x.
Proof.
  induction n as [|n IH]; [done|]. cbn. rewrite IH. change [x] with (replicate 1 x).
  rewrite <- replicate_add, Nat.add_comm. done.
Qed.

Lemma AsByteArray_eq bn minSize :
  AsByteArray bn minSize =
    replicate (Z.to_nat (minSize - GetNumBytes bn)) 0 ++ le_bytes (Z.to_nat (GetNumBytes bn)) bn.
Proof.
  unfold AsByteArray, AsByteArray_rev. rewrite rev_app_distr, rev_involutive, rev_replicate.
  do 2 f_equal. bdestr; lia.
Qed.

Lemma le_value_zeros n l : le_value (replicate n 0 ++ l) = le_value l * 2 ^ (8 * Z.of_nat n).
Proof.
  induction n as [|n IH]; cbn [replicate app le_value]; [rewrite Z.mul_1_r; done|].
  rewrite IH, Z.lor_0_l, Z.shiftl_mul_pow2 by lia.
  replace (8 * Z.of_nat (S n)) with (8 * Z.of_nat n + 8) by lia.
  rewrite Z.pow_add_r by lia. ring.
Qed.

(** The bytes of a number read back as the number shifted up by the bytes of
    padding: asked for [minSize] bytes, the array is the little-endian number
    only when it has [minSize] significant bytes (or more), because the padding
    goes below the number, not above. *)
Theorem AsByteArray_shift bn minSize :
  0 <= bn -> 0 <= minSize ->
  zlen (AsByteArray bn minSize) = Z.max minSize (GetNumBytes bn)
  /\ SetBinary (AsByteArray bn minSize) = bn * 2 ^ (8 * Z.max 0 (minSize - GetNumBytes bn)).
Proof.
  intros Hb Hm. destruct (GetNumBytes_bound bn Hb) as (Hn & Hu & _). rewrite AsByteArray_eq. split.
  - unfold zlen. rewrite length_app, length_replicate, length_le_bytes. lia.
  - unfold SetBinary. rewrite le_value_zeros, le_value_bytes.
    rewrite wrap_small by (rewrite Z2Nat.id by lia; lia). do 2 f_equal. lia.
Qed.

Lemma AsByteArray_shift_witness :
  zlen (AsByteArray 258 4) = 4 /\ SetBinary (AsByteArray 258 4) = 258 * 65536.
Proof.
  destruct (AsByteArray_shift 258 4 ltac:(lia) ltac:(lia)) as [H1 H2].
  split; [rewrite H1; reflexivity|rewrite H2; reflexivity].
Defined.

Lemma AsByteArray_zero n : AsByteArray 0 n = replicate (Z.to_nat n) 0.
Proof. rewrite AsByteArray_eq. cbn [GetNumBytes Z.eqb Z.to_nat le_bytes]. by rewrite app_nil_r, Z.sub_0_r. Qed.
