(* ===== verification/AuthSocket.v ===== *)
(** * AuthSocket: the login server's conversation with one client
      (src/src/server/authserver/Server/AuthSocket.cpp, RealmSocket.cpp,
      Authentication/AuthCodes.cpp, Realms/RealmList.cpp)

    SRP6 logon, reconnection with the session key and the realm list.  The
    socket's input buffer, everything sent and every statement executed are
    part of the state; what the database answers and the random numbers drawn
    while one command is handled are the fields of [Env]. *)

From S2P Require Import Prelude.
From S2P Require Import ByteBuffer.
From S2P Require Import BigNumber.

(** ** Client builds *)

(* [authserver/Authentication/AuthCodes.h:75-82] RealmBuildInfo *)
Record RealmBuildInfo := mkBuild {
  Build : Z;
  MajorVersion : Z;
  MinorVersion : Z;
  BugfixVersion : Z;
  HotfixVersion : Z
}.

(* [authserver/Authentication/AuthCodes.cpp:23-36] AuthHelper::PostBcAcceptedClientBuilds *)
Definition PostBcAcceptedClientBuilds : list RealmBuildInfo :=
  [mkBuild 15595 4 3 4 32; mkBuild 14545 4 2 2 32; mkBuild 13623 4 0 6 97;
   mkBuild 12340 3 3 5 97; mkBuild 11723 3 3 3 97; mkBuild 11403 3 3 2 32;
   mkBuild 11159 3 3 0 97; mkBuild 10505 3 2 2 97; mkBuild 9947 3 1 3 32;
   mkBuild 8606 2 4 3 32; mkBuild 0 0 0 0 32].

(* [authserver/Authentication/AuthCodes.cpp:38-43] AuthHelper::PreBcAcceptedClientBuilds *)
Definition PreBcAcceptedClientBuilds : list RealmBuildInfo :=
  [mkBuild 6005 1 12 2 32; mkBuild 5875 1 12 1 32; mkBuild 0 0 0 0 32].

(** The search up to the terminator. *)
Fixpoint find_build (l : list RealmBuildInfo) (build : Z) : option RealmBuildInfo :=
  match l with
  | [] => None
  | x :: l' => if Build x =? 0 then None else if Build x =? build then Some x else find_build l' build
  end.

(* [authserver/Authentication/AuthCodes.cpp:45-52] AuthHelper::IsPreBCAcceptedClientBuild *)
Definition IsPreBCAcceptedClientBuild (build : Z) : bool :=
  match find_build PreBcAcceptedClientBuilds build with Some _ => true | None => false end.

(* [authserver/Authentication/AuthCodes.cpp:54-61] AuthHelper::IsPostBCAcceptedClientBuild *)
Definition IsPostBCAcceptedClientBuild (build : Z) : bool :=
  match find_build PostBcAcceptedClientBuilds build with Some _ => true | None => false end.

(* [authserver/Authentication/AuthCodes.cpp:63-66] AuthHelper::IsAcceptedClientBuild *)
Definition IsAcceptedClientBuild (build : Z) : bool :=
  IsPostBCAcceptedClientBuild build || IsPreBCAcceptedClientBuild build.

(* [authserver/Authentication/AuthCodes.cpp:68-79] AuthHelper::GetBuildInfo *)
Definition GetBuildInfo (build : Z) : option RealmBuildInfo :=
  match find_build PostBcAcceptedClientBuilds build with
  | Some x => Some x
  | None => find_build PreBcAcceptedClientBuilds build
  end.

(* [authserver/Authentication/AuthCodes.h:68-73] ExpansionFlags *)
Definition POST_BC_EXP_FLAG := 2.
Definition PRE_BC_EXP_FLAG := 1.
Definition NO_VALID_EXP_FLAG := 0.

Definition expansion_of_build (build : Z) : Z :=
  if IsPostBCAcceptedClientBuild build then POST_BC_EXP_FLAG
  else if IsPreBCAcceptedClientBuild build then PRE_BC_EXP_FLAG else NO_VALID_EXP_FLAG.

(* [authserver/Authentication/AuthCodes.h:22-45] AuthResult *)
Definition WOW_SUCCESS := 0.
Definition WOW_FAIL_BANNED := 3.
Definition WOW_FAIL_UNKNOWN_ACCOUNT := 4.
Definition WOW_FAIL_VERSION_INVALID := 9.
Definition WOW_FAIL_SUSPENDED := 12.

(* [authserver/Server/AuthSocket.cpp:35-47] eAuthCmd *)
Definition AUTH_LOGON_CHALLENGE := 0.
Definition AUTH_LOGON_PROOF := 1.
Definition AUTH_RECONNECT_CHALLENGE := 2.
Definition AUTH_RECONNECT_PROOF := 3.
Definition REALM_LIST := 16.
Definition XFER_ACCEPT := 50.
Definition XFER_RESUME := 51.
Definition XFER_CANCEL := 52.

Definition SEC_PLAYER := 0.
(* [shared/Common.h:150-162] AccountTypes *)
Definition SEC_ADMINISTRATOR := 8.

(** "enUS", "koKR", ... as bytes. *)
(* [shared/Common.cpp:21-31] localeNames *)
Definition localeNames : list (list Z) :=
  [[101;110;85;83]; [107;111;75;82]; [102;114;70;82]; [100;101;68;69]; [122;104;67;78];
   [122;104;84;87]; [101;115;69;83]; [101;115;77;88]; [114;117;82;85]].

(* [shared/Common.cpp:33-40] GetLocaleByName *)
Definition GetLocaleByName (name : list Z) : Z :=
  match list_find (fun l => l = name) localeNames with
  | Some (i, _) => Z.of_nat i
  | None => 0
  end.

(** ** The realm list *)

(* [authserver/Realms/RealmList.h:40-51] Realm *)
Record Realm := mkRealm {
  m_ID : Z;
  name : list Z;
  address : list Z;
  icon : Z;                    (* uint8 *)
  flag : Z;
  timezone : Z;
  allowedSecurityLevel : Z;
  populationLevel : Z;         (* float, its 32-bit image *)
  gamebuild : Z
}.

(* [authserver/Realms/RealmList.h:26-37] RealmFlags *)
Definition REALM_FLAG_OFFLINE := 2.
Definition REALM_FLAG_SPECIFYBUILD := 4.

(* [authserver/Realms/RealmList.h:54-81] RealmList *)
Record RealmList := mkRealmList {
  m_realms : list (list Z * Realm);      (* std::map, in the order of the names *)
  m_UpdateInterval : Z;
  m_NextUpdateTime : Z
}.

Fixpoint bytes_lt (a b : list Z) : bool :=
  match a, b with
  | _, [] => false
  | [], _ :: _ => true
  | x :: a', y :: b' => (x <? y) || ((x =? y) && bytes_lt a' b')
  end.

Fixpoint insert_realm (k : list Z) (r : Realm) (l : list (list Z * Realm)) : list (list Z * Realm) :=
  match l with
  | [] => [(k, r)]
  | (k', r') :: l' =>
    if decide (k' = k) then (k, r) :: l'
    else if bytes_lt k k' then (k, r) :: l else (k', r') :: insert_realm k r l'
  end.

(** Decimal digits of a 16-bit port or of a version number. *)
Fixpoint dec_digits (fuel : nat) (n : Z) : list Z :=
  match fuel with
  | O => []
  | S fuel' => (if n <? 10 then [] else dec_digits fuel' (n / 10)) ++ [48 + n mod 10]
  end.

Definition dec (n : Z) : list Z :=
  if n <? 0 then 45 :: dec_digits 10 (- n) else dec_digits 10 n.

(** A row of the realmlist table: id, name, address, port, icon, flag, timezone,
    security level, population, build. *)
Record realm_row := mkRealmRow {
  rr_id : Z; rr_name : list Z; rr_address : list Z; rr_port : Z; rr_icon : Z;
  rr_flag : Z; rr_timezone : Z; rr_security : Z; rr_population : Z; rr_build : Z
}.

(* [authserver/Realms/RealmList.cpp:34-52] RealmList::UpdateRealm *)
Definition UpdateRealm (ID : Z) (nm addr : list Z) (port ic fl tz sec popu build : Z)
    (rl : RealmList) : RealmList :=
  {| rl with m_realms := insert_realm nm
       (mkRealm ID nm (addr ++ 58 :: dec port) ic fl tz sec popu build) (m_realms rl) |}.

(* [authserver/Realms/RealmList.cpp:69-100] RealmList::UpdateRealms *)
Definition UpdateRealms (rows : list realm_row) (rl : RealmList) : RealmList :=
  foldl (fun rl r => UpdateRealm (rr_id r) (rr_name r) (rr_address r) (rr_port r) (rr_icon r)
    (rr_flag r) (rr_timezone r)
    (if rr_security r <=? SEC_ADMINISTRATOR then rr_security r else SEC_ADMINISTRATOR)
    (rr_population r) (rr_build r) rl) rl rows.

(* [authserver/Realms/RealmList.cpp:54-67] RealmList::UpdateIfNeed *)
Definition UpdateIfNeed (now : Z) (rows : list realm_row) (rl : RealmList) : RealmList :=
  if (m_UpdateInterval rl =? 0) || (now <? m_NextUpdateTime rl) then rl
  else UpdateRealms rows {| rl with m_NextUpdateTime := now + m_UpdateInterval rl; m_realms := [] |}.

(** ** The session *)

Inductive auth_event :=
| SocketSend (data : list Z)
| SocketShutdown
| DbUpdateVS (v_hex s_hex login : list Z)
| DbUpdateLogonProof (K_hex addr : list Z) (locale : Z) (os login : list Z)
| DbDelExpiredIpBans
| DbUpdateExpiredAccountBans
| DbUpdateAccountPremium
| DbUpdateFailedLogins (login : list Z)
| DbBanAccount (id banTime : Z)
| DbBanIp (addr : list Z) (banTime : Z).

(* [authserver/Server/AuthSocket.h:27-75] AuthSocket *)
Record AuthSocket := mkAuthSocket {
  N : Z; s : Z; g : Z; v : Z;
  b : Z; B : Z;
  K : Z;
  _reconnectProof : Z;
  _authed : bool;
  _login : list Z;
  _localizationName : list Z;
  _os : list Z;
  _build : Z;
  _expversion : Z;
  _accountSecurityLevel : Z;
  input_buffer_ : list Z;
  sRealmList : RealmList;
  out : list auth_event
}.

Inductive auth_exn := AssertFailed | OutOfBounds.
Abbreviation Auth := (M AuthSocket auth_exn).

Record LogonRow := mkLogonRow {
  sha_pass_hash : list Z;
  account_id : Z;
  locked_ip : Z;
  last_ip : list Z;
  gmlevel : Z;
  databaseV : list Z;
  databaseS : list Z
}.

(** What the database, the configuration, the clock and the random generator
    answer while a command is handled. *)
Record Env := mkEnv {
  remoteAddress : list Z;
  sel_ip_banned : bool;
  sel_logonchallenge : list Z -> option LogonRow;
  sel_account_banned : Z -> option (Z * Z);
  sel_sessionkey : list Z -> option (list Z * Z);        (* session key, security level *)
  sel_failedlogins : list Z -> option (Z * Z);           (* account, count *)
  sel_account_id : list Z -> option Z;
  sel_num_chars : Z -> Z -> option Z;
  sel_realmlist : list realm_row;
  MaxWrongPassCount : Z;
  WrongPassBanTime : Z;
  WrongPassBanType : bool;
  now : Z;
  rand_s : Z; rand_b : Z; rand_unk3 : Z; rand_reconnect : Z
}.

Definition srp_N : Z := 0x894B645E89E1535BBDAD5B8B290650530801B18EBFBF5E8FAB3C82872A3E9BB7.

(** [_build] and [_expversion] are not initialised: any value. *)
(* [authserver/Server/AuthSocket.cpp:199-205] AuthSocket::AuthSocket *)
Definition new_AuthSocket (build0 exp0 : Z) (rl : RealmList) : AuthSocket :=
  mkAuthSocket srp_N 0 (SetDword 7) 0 0 0 0 0 false [] [] [] build0 exp0 SEC_PLAYER [] rl [].

Definition auth_emit (e : auth_event) : Auth unit := modify (fun x => {| x with out := out x ++ [e] |}).
Definition send (data : list Z) : Auth unit := auth_emit (SocketSend data).
Definition shutdown : Auth unit := auth_emit SocketShutdown.

(* [authserver/Server/RealmSocket.cpp:103-106] RealmSocket::recv_len *)
Definition recv_len (x : AuthSocket) : Z := zlen (input_buffer_ x).

(* [authserver/Server/RealmSocket.cpp:128-131] RealmSocket::recv_skip *)
Definition recv_skip (len : Z) : Auth unit :=
  modify (fun x => {| x with input_buffer_ := drop (Z.to_nat len) (input_buffer_ x) |}).

(* [authserver/Server/RealmSocket.cpp:108-116] RealmSocket::recv_soft *)
Definition recv_soft (len : Z) (x : AuthSocket) : option (list Z) :=
  if recv_len x <? len then None else Some (take (Z.to_nat len) (input_buffer_ x)).

(* [authserver/Server/RealmSocket.cpp:118-126] RealmSocket::recv *)
Definition recv (len : Z) : Auth (option (list Z)) :=
  x ← get;
  match recv_soft len x with
  | None => mret None
  | Some l => recv_skip len ;; mret (Some l)
  end.

(** Fields of a packed structure. *)
Definition field_bytes (l : list Z) (off len : Z) : list Z := take (Z.to_nat len) (drop (Z.to_nat off) l).
Definition field_le (l : list Z) (off len : Z) : Z := le_value (field_bytes l off len).

(* [authserver/Server/AuthSocket.cpp:62-79] sAuthLogonChallenge_C *)
Definition sizeof_sAuthLogonChallenge_C := 35.
(* [authserver/Server/AuthSocket.cpp:81-89] sAuthLogonProof_C *)
Definition sizeof_sAuthLogonProof_C := 75.
(* [authserver/Server/AuthSocket.cpp:109-116] sAuthReconnectProof_C *)
Definition sizeof_sAuthReconnectProof_C := 58.

Section Session.
Context `{OpenSSL}.
Context (env : Env).

(** ** SRP6 *)

(* [authserver/Server/AuthSocket.cpp:259-295] AuthSocket::_SetVSFields *)
Definition _SetVSFields (rI : list Z) : Auth unit :=
  let s' := rand_s env in
  let I := SetHexStr 0 rI in
  let mDigest := if GetNumBytes I <=? 20
    then AsByteArray I 0 ++ replicate (Z.to_nat (20 - GetNumBytes I)) 0 else replicate 20 0 in
  let mDigest := rev mDigest in
  let x := SetBinary (SHA1 (AsByteArray s' 0 ++ mDigest)) in
  modify (fun st => {| st with s := s'; v := ModExp (g st) x (N st) |}) ;;
  st ← get;
  auth_emit (DbUpdateVS (AsHexStr (v st)) (AsHexStr (s st)) (_login st)).

(** The even and odd bytes of the premaster secret, hashed apart and
    interleaved. *)
Fixpoint evens (l : list Z) : list Z :=
  match l with
  | x :: _ :: l' => x :: evens l'
  | _ => []
  end.
Fixpoint odds (l : list Z) : list Z :=
  match l with
  | _ :: y :: l' => y :: odds l'
  | _ => []
  end.
Fixpoint interleave (a b : list Z) : list Z :=
  match a, b with
  | x :: a', y :: b' => x :: y :: interleave a' b'
  | _, _ => []
  end.

(* [authserver/Server/AuthSocket.cpp:547-572] AuthSocket::_HandleLogonProof *)
Definition session_key (S : Z) : Z :=
  let t := take 32 (AsByteArray S 32) in
  SetBinary (interleave (SHA1 (evens t)) (SHA1 (odds t))).

(* [authserver/Server/AuthSocket.cpp:540-544] AuthSocket::_HandleLogonProof *)
Definition scramble (A B : Z) : Z := SetBinary (SHA1 (UpdateBigNumbers [A; B])).

(* [authserver/Server/AuthSocket.cpp:545-545] AuthSocket::_HandleLogonProof *)
Definition premaster (A v u b N : Z) : Z := ModExp (A * ModExp v u N) b N.

Fixpoint xor_bytes (a b : list Z) : list Z :=
  match a, b with
  | x :: a', y :: b' => Z.lxor x y :: xor_bytes a' b'
  | _, _ => []
  end.

(* [authserver/Server/AuthSocket.cpp:574-602] AuthSocket::_HandleLogonProof *)
Definition proof_M (N g : Z) (login : list Z) (s A B K : Z) : Z :=
  let hash := xor_bytes (SHA1 (UpdateBigNumbers [N])) (SHA1 (UpdateBigNumbers [g])) in
  let t3 := SetBinary hash in
  let t4 := SHA1 login in
  SetBinary (SHA1 (UpdateBigNumbers [t3] ++ t4 ++ UpdateBigNumbers [s; A; B; K])).

(* [authserver/Server/AuthSocket.cpp:446-446] AuthSocket::_HandleLogonChallenge *)
Definition public_B (v gmod N : Z) : Z := (v * 3 + gmod) mod N.

(** ** Commands *)

(** Reading the challenge: header, body, and the fields both challenges use.
    [None] is a handler that returns false. *)
(* [authserver/Server/AuthSocket.cpp:301-326] AuthSocket::_HandleLogonChallenge *)
Definition read_challenge : Auth (option (list Z)) :=
  x ← get;
  if recv_len x <? sizeof_sAuthLogonChallenge_C then mret None else
  hdr ← recv 4;
  let hdr := default [0; 0; 0; 0] hdr in
  let remaining := field_le hdr 2 2 in
  x ← get;
  if (remaining <? sizeof_sAuthLogonChallenge_C - 4) || (recv_len x <? remaining) then mret None else
  body ← recv remaining;
  mret (Some (hdr ++ default [] body ++ [0])).

Definition ch_build (ch : list Z) : Z := field_le ch 11 2.
Definition ch_os (ch : list Z) : list Z := until_nul (drop 17 ch).
Definition ch_country (ch : list Z) : list Z := field_bytes ch 21 4.
Definition ch_I (ch : list Z) : list Z := until_nul (drop 34 ch).

(** The part of the challenge that draws [b] and answers with [B], for an
    account that may log in. *)
(* [authserver/Server/AuthSocket.cpp:426-494] AuthSocket::_HandleLogonChallenge *)
Definition challenge_account (ch : list Z) (row : LogonRow) (pkt : list Z) : Auth (list Z) :=
  (if negb (zlen (databaseV row) =? 64) || negb (zlen (databaseS row) =? 64)
   then _SetVSFields (sha_pass_hash row)
   else modify (fun st => {| st with s := SetHexStr (s st) (databaseS row);
                                     v := SetHexStr (v st) (databaseV row) |})) ;;
  modify (fun st => {| st with b := rand_b env |}) ;;
  st ← get;
  let gmod := ModExp (g st) (b st) (N st) in
  modify (fun st => {| st with B := public_B (v st) gmod (N st) |}) ;;
  if negb (GetNumBytes gmod <=? 32) then throw AssertFailed else
  st ← get;
  let pkt := pkt ++ [if IsAcceptedClientBuild (_build st) then WOW_SUCCESS else WOW_FAIL_VERSION_INVALID]
    ++ take 32 (AsByteArray (B st) 32) ++ [1] ++ take 1 (AsByteArray (g st) 0) ++ [32]
    ++ take 32 (AsByteArray (N st) 32) ++ AsByteArray (s st) 0
    ++ take 16 (AsByteArray (rand_unk3 env) 16) ++ [0] in
  modify (fun st => {| st with
    _accountSecurityLevel :=
      if gmlevel row <=? SEC_ADMINISTRATOR then gmlevel row else SEC_ADMINISTRATOR;
    _localizationName := rev (ch_country ch) |}) ;;
  mret pkt.

(* [authserver/Server/AuthSocket.cpp:298-507] AuthSocket::_HandleLogonChallenge *)
Definition _HandleLogonChallenge : Auth bool :=
  c ← read_challenge;
  match c with
  | None => mret false
  | Some ch =>
    modify (fun st => {| st with _login := ch_I ch; _build := ch_build ch;
      _expversion := expansion_of_build (ch_build ch); _os := ch_os ch |}) ;;
    if 4 <? zlen (ch_os ch) then mret false else
    modify (fun st => {| st with _os := rev (ch_os ch) |}) ;;
    let pkt := [AUTH_LOGON_CHALLENGE; 0] in
    auth_emit DbDelExpiredIpBans ;;
    pkt ← (if sel_ip_banned env then mret (pkt ++ [WOW_FAIL_BANNED]) else
      st ← get;
      match sel_logonchallenge env (_login st) with
      | None => mret (pkt ++ [WOW_FAIL_UNKNOWN_ACCOUNT])
      | Some row =>
        if (locked_ip row =? 1)
           && negb (bool_decide (until_nul (last_ip row) = remoteAddress env))
        then mret (pkt ++ [WOW_FAIL_SUSPENDED])
        else
          auth_emit DbUpdateExpiredAccountBans ;;
          auth_emit DbUpdateAccountPremium ;;
          match sel_account_banned env (account_id row) with
          | Some (bandate, unbandate) =>
            mret (pkt ++ [if bandate =? unbandate then WOW_FAIL_BANNED else WOW_FAIL_SUSPENDED])
          | None => challenge_account ch row pkt
          end
      end);
    send pkt ;;
    mret true
  end.

(** What happens to the account after a wrong proof. *)
(* [authserver/Server/AuthSocket.cpp:653-701] AuthSocket::_HandleLogonProof *)
Definition wrong_password : Auth unit :=
  send [AUTH_LOGON_PROOF; WOW_FAIL_UNKNOWN_ACCOUNT; 3; 0] ;;
  if negb (0 <? MaxWrongPassCount env) then mret tt else
  st ← get;
  auth_emit (DbUpdateFailedLogins (_login st)) ;;
  match sel_failedlogins env (_login st) with
  | None => mret tt
  | Some (acc_id, failed_logins) =>
    if MaxWrongPassCount env <=? failed_logins then
      if WrongPassBanType env then auth_emit (DbBanAccount acc_id (WrongPassBanTime env))
      else auth_emit (DbBanIp (remoteAddress env) (WrongPassBanTime env))
    else mret tt
  end.

(* [authserver/Server/AuthSocket.cpp:606-650] AuthSocket::_HandleLogonProof *)
Definition right_password (A M : Z) : Auth unit :=
  st ← get;
  auth_emit (DbUpdateLogonProof (AsHexStr (K st)) (remoteAddress env)
               (GetLocaleByName (_localizationName st)) (_os st) (_login st)) ;;
  let M2 := SHA1 (UpdateBigNumbers [A; M; K st]) in
  send (if has_flag (_expversion st) POST_BC_EXP_FLAG
        then [AUTH_LOGON_PROOF; 0] ++ M2 ++ le_bytes 4 0x00800000 ++ le_bytes 4 0 ++ le_bytes 2 0
        else [AUTH_LOGON_PROOF; 0] ++ M2 ++ le_bytes 4 0) ;;
  modify (fun st => {| st with _authed := true |}).

(** [memcmp] of 20 bytes on an array that may be shorter. *)
Definition memcmp20 (a b : list Z) : Auth bool :=
  if zlen a <? 20 then throw OutOfBounds else mret (bool_decide (take 20 a = b)).

(* [authserver/Server/AuthSocket.cpp:510-706] AuthSocket::_HandleLogonProof *)
Definition _HandleLogonProof : Auth bool :=
  lp ← recv sizeof_sAuthLogonProof_C;
  match lp with
  | None => mret false
  | Some lp =>
    st ← get;
    if _expversion st =? NO_VALID_EXP_FLAG then shutdown ;; mret true else
    let A := SetBinary (field_bytes lp 1 32) in
    if isZero A then shutdown ;; mret true else
    let u := scramble A (B st) in
    let S := premaster A (v st) u (b st) (N st) in
    modify (fun st => {| st with K := session_key S |}) ;;
    st ← get;
    let M := proof_M (N st) (g st) (_login st) (s st) A (B st) (K st) in
    ok ← memcmp20 (AsByteArray M 0) (field_bytes lp 33 20);
    (if (ok : bool) then right_password A M else wrong_password) ;;
    mret true
  end.

(* [authserver/Server/AuthSocket.cpp:709-781] AuthSocket::_HandleReconnectChallenge *)
Definition _HandleReconnectChallenge : Auth bool :=
  c ← read_challenge;
  match c with
  | None => mret false
  | Some ch =>
    modify (fun st => {| st with _login := ch_I ch |}) ;;
    match sel_sessionkey env (ch_I ch) with
    | None => shutdown ;; mret false
    | Some (sessionkey, secLevel) =>
      modify (fun st => {| st with _build := ch_build ch;
        _expversion := expansion_of_build (ch_build ch); _os := ch_os ch |}) ;;
      if 4 <? zlen (ch_os ch) then mret false else
      modify (fun st => {| st with _os := rev (ch_os ch);
        _accountSecurityLevel := if secLevel <=? SEC_ADMINISTRATOR then secLevel else SEC_ADMINISTRATOR;
        K := SetHexStr (K st) sessionkey;
        _reconnectProof := rand_reconnect env |}) ;;
      st ← get;
      send ([AUTH_RECONNECT_CHALLENGE; 0] ++ take 16 (AsByteArray (_reconnectProof st) 16)
            ++ le_bytes 8 0 ++ le_bytes 8 0) ;;
      mret true
    end
  end.

(* [authserver/Server/AuthSocket.cpp:784-821] AuthSocket::_HandleReconnectProof *)
Definition _HandleReconnectProof : Auth bool :=
  lp ← recv sizeof_sAuthReconnectProof_C;
  match lp with
  | None => mret false
  | Some lp =>
    st ← get;
    if bool_decide (_login st = []) || (GetNumBytes (_reconnectProof st) =? 0)
       || (GetNumBytes (K st) =? 0) then mret false else
    let t1 := SetBinary (field_bytes lp 1 16) in
    let digest := SHA1 (_login st ++ UpdateBigNumbers [t1; _reconnectProof st; K st]) in
    if bool_decide (digest = field_bytes lp 17 20) then
      send [AUTH_RECONNECT_PROOF; 0; 0; 0] ;;
      modify (fun st => {| st with _authed := true |}) ;;
      mret true
    else shutdown ;; mret false
  end.

(** One realm of the answer; [None] is a realm the client cannot be shown. *)
(* [authserver/Server/AuthSocket.cpp:855-911] AuthSocket::_HandleRealmList *)
Definition realm_entry (st : AuthSocket) (id : Z) (nr : list Z * Realm) : option (list Z) :=
  let r := nr.2 in
  let post := has_flag (_expversion st) POST_BC_EXP_FLAG in
  let pre := has_flag (_expversion st) PRE_BC_EXP_FLAG in
  let okBuild := (post && (gamebuild r =? _build st))
                 || (pre && negb (IsPreBCAcceptedClientBuild (i32 (gamebuild r)))) in
  let buildInfo := GetBuildInfo (i32 (gamebuild r)) in
  match okBuild, buildInfo with
  | false, None => None
  | _, _ =>
    let fl := if okBuild then flag r
              else Z.lor (flag r) (Z.lor REALM_FLAG_OFFLINE REALM_FLAG_SPECIFYBUILD) in
    let fl := match buildInfo with
              | None => Z.land fl (Z.lnot REALM_FLAG_SPECIFYBUILD)
              | Some _ => fl
              end in
    let bi := default (mkBuild 0 0 0 0 0) buildInfo in
    let nm := if pre && has_flag fl REALM_FLAG_SPECIFYBUILD
      then nr.1 ++ [32; 40] ++ dec (MajorVersion bi) ++ [46] ++ dec (MinorVersion bi)
           ++ [46] ++ dec (BugfixVersion bi) ++ [41]
      else nr.1 in
    let lock := if _accountSecurityLevel st <? allowedSecurityLevel r then 1 else 0 in
    let AmountOfCharacters := default 0 (sel_num_chars env (m_ID r) id) in
    Some ([icon r] ++ (if post then [lock] else []) ++ [u8 fl] ++ nm ++ [0] ++ address r ++ [0]
      ++ le_bytes 4 (populationLevel r) ++ [AmountOfCharacters; timezone r]
      ++ [if post then 0x2C else 0]
      ++ (if post && has_flag fl REALM_FLAG_SPECIFYBUILD
          then [u8 (MajorVersion bi); u8 (MinorVersion bi); u8 (BugfixVersion bi)]
               ++ le_bytes 2 (Build bi)
          else []))
  end.

(* [authserver/Server/AuthSocket.cpp:824-944] AuthSocket::_HandleRealmList *)
Definition _HandleRealmList : Auth bool :=
  st ← get;
  if recv_len st <? 5 then mret false else
  recv_skip 5 ;;
  match sel_account_id env (_login st) with
  | None => shutdown ;; mret false
  | Some id =>
    modify (fun st => {| st with
      sRealmList := UpdateIfNeed (now env) (sel_realmlist env) (sRealmList st) |}) ;;
    st ← get;
    let entries := omap (realm_entry st id) (m_realms (sRealmList st)) in
    let RealmListSize := zlen entries in
    let post := has_flag (_expversion st) POST_BC_EXP_FLAG in
    let pkt := concat entries ++ (if post then [0x10; 0] else [0; 2]) in
    let RealmListSizeBuffer := le_bytes 4 0
      ++ (if post then le_bytes 2 RealmListSize else le_bytes 4 RealmListSize) in
    send ([REALM_LIST] ++ le_bytes 2 (zlen pkt + zlen RealmListSizeBuffer)
          ++ RealmListSizeBuffer ++ pkt) ;;
    mret true
  end.

(** Nothing opens a patch file: [pPatch] stays NULL. *)
(* [authserver/Server/AuthSocket.cpp:947-965] AuthSocket::_HandleXferResume *)
Definition _HandleXferResume : Auth bool := mret false.

(* [authserver/Server/AuthSocket.cpp:968-977] AuthSocket::_HandleXferCancel *)
Definition _HandleXferCancel : Auth bool := recv_skip 1 ;; shutdown ;; mret true.

(* [authserver/Server/AuthSocket.cpp:980-997] AuthSocket::_HandleXferAccept *)
Definition _HandleXferAccept : Auth bool := mret false.

(** The handler of a command in the current state. *)
(* [authserver/Server/AuthSocket.cpp:181-191] table *)
Definition handler (cmd : Z) (authed : bool) : option (Auth bool) :=
  if cmd =? AUTH_LOGON_CHALLENGE then Some _HandleLogonChallenge
  else if cmd =? AUTH_LOGON_PROOF then Some _HandleLogonProof
  else if cmd =? AUTH_RECONNECT_CHALLENGE then Some _HandleReconnectChallenge
  else if cmd =? AUTH_RECONNECT_PROOF then Some _HandleReconnectProof
  else if (cmd =? REALM_LIST) && authed then Some _HandleRealmList
  else if cmd =? XFER_ACCEPT then Some _HandleXferAccept
  else if cmd =? XFER_RESUME then Some _HandleXferResume
  else if cmd =? XFER_CANCEL then Some _HandleXferCancel
  else None.
End Session.

Inductive read_outcome := Waiting | Closed | Crashed (e : auth_exn) | OutOfFuel.

(** The loop over the commands in the input buffer; the [n]-th command handled
    sees the answers [envs n]. *)
(* [authserver/Server/AuthSocket.cpp:222-256] AuthSocket::OnRead *)
Fixpoint OnRead `{OpenSSL} (fuel : nat) (envs : nat -> Env) (st : AuthSocket) : read_outcome * AuthSocket :=
  match fuel with
  | O => (OutOfFuel, st)
  | S fuel' =>
    match recv_soft 1 st with
    | None => (Waiting, st)
    | Some c =>
      match handler (envs O) (nth 0 c 0) (_authed st) with
      | None => (Closed, (shutdown st).2)
      | Some h =>
        match h st with
        | (Ok true, st') => OnRead fuel' (fun n => envs (S n)) st'
        | (Ok false, st') => (Waiting, st')
        | (Throw e, st') => (Crashed e, st')
        end
      end
    end
  end.
