(* ===== verification/AuthSocketSpec.v ===== *)
(** * AuthSocket: who gets in

    Server and client agree on the key of SRP6, what a logon or reconnect proof opens, and
    every run of the read loop as a sequence of commands: success is answered only to a right
    proof, and the realm list needs one. *)

From Stdlib Require Import Zpow_facts.
From S2P Require Import Prelude.
From S2P Require Import ByteBuffer.
From S2P Require Import ByteBufferSpec.
From S2P Require Import BigNumber.
From S2P Require Import AuthSocket.

(** ** SRP6: server and client agree *)

Lemma pow_mod_l a k m : 0 <= k -> 0 < m -> (a mod m) ^ k mod m = a ^ k mod m.
Proof. intros. by rewrite <- Zpower_mod by lia. Qed.



Section Srp.
Context `{OpenSSL}.


Lemma scramble_nonneg A B : 0 <= scramble A B.
Proof.
  unfold scramble, SetBinary. generalize (SHA1_bytes (UpdateBigNumbers [A; B])).
  generalize (SHA1 (UpdateBigNumbers [A; B])). intros l. induction 1 as [|z l Hz _ IH]; [done|].
  cbn. apply Z.lor_nonneg. split; [lia|]. by apply Z.shiftl_nonneg.
Qed.

(** ** The logon proof *)

(** The proof packet of a client: [A], [M1], then the fields not looked at. *)
Definition logon_proof_packet (A M1 tail : list Z) : list Z := AUTH_LOGON_PROOF :: A ++ M1 ++ tail.

Lemma recv_run st l rest n :
  input_buffer_ st = l ++ rest -> zlen l = n ->
  recv n st = (Ok (Some l), {| st with input_buffer_ := rest |}).
Proof.
  intros Hin Hn. unfold recv, recv_soft, recv_len, recv_skip.
  cbv [mbind M_bind mret M_ret get modify]. rewrite Hin. unfold zlen in *. rewrite length_app.
  destruct (Z.ltb_spec (Z.of_nat (length l + length rest)) n); [lia|].
  rewrite Hin, take_app_length', drop_app_length' by lia. done.
Qed.

Lemma proof_run env st A M1 tail rest :
  input_buffer_ st = logon_proof_packet A M1 tail ++ rest ->
  length A = 32%nat -> length M1 = 20%nat -> length tail = 22%nat ->
  _expversion st <> NO_VALID_EXP_FLAG -> SetBinary A <> 0 ->
  let K' := session_key (premaster (SetBinary A) (v st) (scramble (SetBinary A) (B st)) (b st) (N st)) in
  M1 = AsByteArray (proof_M (N st) (g st) (_login st) (s st) (SetBinary A) (B st) K') 0 ->
  exists st' reply, _HandleLogonProof env st = (Ok true, st')
    /\ _authed st' = true /\ K st' = K' /\ _login st' = _login st /\ input_buffer_ st' = rest
    /\ out st' = out st ++
         [DbUpdateLogonProof (AsHexStr K') (remoteAddress env)
            (GetLocaleByName (_localizationName st)) (_os st) (_login st); SocketSend reply].
Proof.
  intros Hin HA HM Ht Hexp HA0 K' HM1.
  assert (Hlen : length (logon_proof_packet A M1 tail) = 75%nat)
    by (unfold logon_proof_packet; cbn [length]; rewrite !length_app; lia).
  assert (HlpA : field_bytes (logon_proof_packet A M1 tail) 1 32 = A).
  { unfold field_bytes, logon_proof_packet. change (drop (Z.to_nat 1) (AUTH_LOGON_PROOF :: ?l)) with l.
    by rewrite take_app_length'. }
  assert (HlpM : field_bytes (logon_proof_packet A M1 tail) 33 20 = M1).
  { unfold field_bytes, logon_proof_packet. change (drop (Z.to_nat 33) (AUTH_LOGON_PROOF :: ?l)) with (drop 32 l).
    rewrite drop_app_length' by done. by rewrite take_app_length'. }
  unfold _HandleLogonProof.
  rewrite (bind_ok _ _ _ _ _ (recv_run st _ rest _ Hin ltac:(unfold zlen; rewrite Hlen; reflexivity))).
  cbv [mbind M_bind mret M_ret get modify].
  cbn [_expversion]. destruct (Z.eqb_spec (_expversion st) NO_VALID_EXP_FLAG); [done|].
  rewrite HlpA, HlpM. unfold isZero. destruct (Z.eqb_spec (SetBinary A) 0); [done|].
  cbn [v B b N g s K _login]. fold K'. rewrite <- HM1.
  unfold memcmp20, zlen. rewrite HM. cbn [Z.of_nat Z.ltb Pos.of_succ_nat Pos.succ Z.compare Pos.compare Pos.compare_cont].
  rewrite take_ge by lia. rewrite bool_decide_true by done.
  unfold right_password, send, auth_emit. cbv [mbind M_bind mret M_ret get modify].
  cbn [K _localizationName _os _login _expversion out]. eexists _, _. split_and!; try reflexivity.
  cbn [out]. by rewrite <- app_assoc.
Qed.

(** ** The challenges *)

(** A challenge packet as clients build it. *)
Definition challenge_packet (cmd build : Z) (os country login : list Z) : list Z :=
  ([cmd; 0] ++ le_bytes 2 (30 + zlen login))
  ++ ([87; 111; 87; 0; 4; 3; 4] ++ le_bytes 2 build ++ [54; 56; 120; 0] ++ os ++ country
      ++ replicate 8 0 ++ [zlen login] ++ login).

Lemma read_challenge_run st cmd build os country login rest :
  input_buffer_ st = challenge_packet cmd build os country login ++ rest ->
  length os = 4%nat -> length country = 4%nat -> 1 <= zlen login < 200 ->
  read_challenge st = (Ok (Some (challenge_packet cmd build os country login ++ [0])),
                       {| st with input_buffer_ := rest |}).
Proof.
  intros Hin Ho Hc Hl. unfold read_challenge. cbv [mbind M_bind mret M_ret get].
  unfold challenge_packet in *. set (hdr := [cmd; 0] ++ le_bytes 2 (30 + zlen login)) in *.
  match type of Hin with _ = (_ ++ ?l) ++ _ => set (body := l) in * end.
  assert (Hb : zlen body = 30 + zlen login).
  { subst body. unfold zlen in *. rewrite !length_app, length_le_bytes, length_replicate. cbn [length]. lia. }
  assert (Hrec : recv_len st = 4 + zlen body + zlen rest).
  { unfold recv_len. rewrite Hin. unfold zlen. rewrite !length_app. subst hdr. cbn [length app].
    rewrite ?length_le_bytes. lia. }
  pose proof (zlen_nonneg rest). unfold sizeof_sAuthLogonChallenge_C.
  destruct (Z.ltb_spec (recv_len st) 35); [lia|].
  rewrite <- app_assoc in Hin.
  rewrite (recv_run st hdr (body ++ rest) 4 Hin) by reflexivity. cbn [default from_option id].
  assert (field_le hdr 2 2 = zlen body) as ->.
  { rewrite Hb. transitivity (le_value (le_bytes 2 (30 + zlen login))); [reflexivity|].
    rewrite le_value_bytes. apply wrap_small. cbn. lia. }
  destruct (Z.ltb_spec (zlen body) (35 - 4)); [lia|]. cbn [orb].
  unfold recv_len at 1. cbn [input_buffer_].
  destruct (Z.ltb_spec (zlen (body ++ rest)) (zlen body)) as [Hlt|_].
  { unfold zlen in Hlt. rewrite length_app in Hlt. lia. }
  rewrite (recv_run {| st with input_buffer_ := body ++ rest |} body rest) by done.
  cbn [default from_option id]. by rewrite <- app_assoc.
Qed.

Lemma until_nul_id l : Forall (fun x => x <> 0) l -> until_nul (l ++ [0]) = l.
Proof.
  induction 1 as [|x l Hx _ IH]; [done|]. cbn. destruct (Z.eqb_spec x 0); [done|]. by rewrite IH.
Qed.

Lemma challenge_fields cmd build os country login :
  length os = 4%nat -> length country = 4%nat -> Forall (fun x => x <> 0) login -> in_u 16 build ->
  let ch := challenge_packet cmd build os country login ++ [0] in
  ch_I ch = login /\ ch_build ch = build /\ ch_country ch = country
  /\ ch_os ch = until_nul (os ++ country ++ replicate 8 0 ++ [zlen login] ++ login ++ [0]).
Proof.
  intros Ho Hc Hl Hb ch.
  destruct os as [|o1 [|o2 [|o3 [|o4 [|]]]]]; try done.
  destruct country as [|c1 [|c2 [|c3 [|c4 [|]]]]]; try done.
  split_and!.
  - unfold ch_I, ch, challenge_packet. cbn. by apply until_nul_id.
  - unfold ch_build, field_le, field_bytes, ch, challenge_packet.
    transitivity (le_value (le_bytes 2 build)); [reflexivity|].
    rewrite le_value_bytes. by apply wrap_small.
  - reflexivity.
  - reflexivity.
Qed.

Lemma reconnect_run env st build os country login rest sessionkey sec :
  input_buffer_ st = challenge_packet AUTH_RECONNECT_CHALLENGE build os country login ++ rest ->
  length os = 4%nat -> length country = 4%nat -> 1 <= zlen login < 200 ->
  Forall (fun x => x <> 0) login -> in_u 16 build ->
  zlen (until_nul (os ++ country ++ replicate 8 0 ++ [zlen login] ++ login ++ [0])) <= 4 ->
  sel_sessionkey env login = Some (sessionkey, sec) ->
  exists st', _HandleReconnectChallenge env st = (Ok true, st')
    /\ input_buffer_ st' = rest /\ _login st' = login /\ _expversion st' = expansion_of_build build
    /\ N st' = N st /\ g st' = g st /\ v st' = v st /\ s st' = s st /\ b st' = b st /\ B st' = B st
    /\ _authed st' = _authed st.
Proof.
  intros Hin Ho Hc Hl Hnul Hb Hos Hsel. unfold _HandleReconnectChallenge.
  rewrite (bind_ok _ _ _ _ _ (read_challenge_run st _ _ _ _ _ rest Hin Ho Hc Hl)).
  destruct (challenge_fields AUTH_RECONNECT_CHALLENGE build os country login Ho Hc Hnul Hb)
    as (-> & -> & _ & ->).
  cbv [mbind M_bind mret M_ret get modify]. rewrite Hsel.
  match goal with |- context [4 <? zlen ?l] => set (osn := l) in * end.
  destruct (Z.ltb_spec 4 (zlen osn)) as [Hlt|_]; [lia|].
  unfold send, auth_emit. cbv [modify]. eexists. split_and!; reflexivity.
Qed.

Lemma OnRead_step envs fuel st c l h st' :
  input_buffer_ st = c :: l -> handler (envs O) c (_authed st) = Some h -> h st = (Ok true, st') ->
  OnRead (S fuel) envs st = OnRead fuel (fun n => envs (S n)) st'.
Proof.
  intros Hin Hh Hr. cbn [OnRead]. unfold recv_soft, recv_len. rewrite Hin.
  destruct (Z.ltb_spec (zlen (c :: l)) 1) as [Hlt|_]; [unfold zlen in Hlt; cbn [length] in Hlt; lia|].
  change (handler (envs O) (nth 0 (take (Z.to_nat 1) (c :: l)) 0) (_authed st))
    with (handler (envs O) c (_authed st)). by rewrite Hh, Hr.
Qed.
End Srp.


(** ** Properties *)


(** C21: Sending the modulus itself as [A] opens any account: the only safeguard
    is [A <> 0], [A = N] makes the premaster secret zero whatever the verifier,
    and the proof of the resulting constant key, computed from what the server
    sent in its challenge, is accepted and saved as the account's session key. *)
Theorem modulus_as_A_logs_in `{OpenSSL} env st tail rest :
  N st = srp_N -> 0 < b st -> 0 <= v st -> _expversion st <> NO_VALID_EXP_FLAG ->
  let key := session_key 0 in
  let M1 := proof_M (N st) (g st) (_login st) (s st) srp_N (B st) key in
  length (AsByteArray M1 0) = 20%nat -> length tail = 22%nat ->
  input_buffer_ st = logon_proof_packet (le_bytes 32 srp_N) (AsByteArray M1 0) tail ++ rest ->
  exists st' reply, _HandleLogonProof env st = (Ok true, st')
    /\ _authed st' = true /\ K st' = key
    /\ out st' = out st ++
         [DbUpdateLogonProof (AsHexStr key) (remoteAddress env)
            (GetLocaleByName (_localizationName st)) (_os st) (_login st); SocketSend reply].
Proof.
  intros HN Hb Hv Hexp key M1 HM Ht Hin.
  assert (EA : SetBinary (le_bytes 32 srp_N) = srp_N) by (vm_compute; reflexivity).
  assert (Hkey : forall u, 0 <= u -> session_key (premaster srp_N (v st) u (b st) (N st)) = key).
  { intros u Hu. unfold key, premaster, ModExp. f_equal. rewrite HN.
    assert (0 < srp_N) by (vm_compute; reflexivity).
    rewrite (BN_mod_exp_spec (v st)) by done.
    pose proof (Z.mod_pos_bound (v st ^ u) srp_N ltac:(done)).
    rewrite BN_mod_exp_spec by (try apply Z.mul_nonneg_nonneg; lia).
    rewrite <- pow_mod_l, Z.mul_comm, Z.mod_mul, Z.pow_0_l by lia. apply Z.mod_0_l. lia. }
  pose proof (scramble_nonneg srp_N (B st)) as Hu.
  destruct (proof_run env st (le_bytes 32 srp_N) (AsByteArray M1 0) tail rest Hin
    (length_le_bytes _ _) HM Ht Hexp) as (st' & reply & H1 & H2 & H3 & _ & H4 & H5); rewrite ?EA.
  - vm_compute. discriminate.
  - rewrite Hkey by exact Hu. reflexivity.
  - rewrite EA, Hkey in H3, H5 by exact Hu. exists st', reply.
    split; [exact H1|]. split; [exact H2|]. split; [exact H3|exact H5].
Qed.

(** C22: On a fresh connection, a reconnect challenge naming any account followed
    directly by a logon proof takes the account over: no logon challenge drew
    [b] or loaded the verifier, the premaster secret is 1 whatever [A], and the
    proof (salt and public key being zero) depends on the name alone.  The
    server authenticates the session and saves the known key for the account. *)
Theorem reconnect_then_proof_logs_in `{OpenSSL} envs build0 exp0 rl build os country login
    sessionkey sec A tail :
  in_u 16 build -> expansion_of_build build <> NO_VALID_EXP_FLAG ->
  length os = 4%nat -> length country = 4%nat -> 1 <= zlen login < 200 ->
  Forall (fun x => x <> 0) login ->
  zlen (until_nul (os ++ country ++ replicate 8 0 ++ [zlen login] ++ login ++ [0])) <= 4 ->
  sel_sessionkey (envs O) login = Some (sessionkey, sec) ->
  0 < A < 2 ^ 256 ->
  let key := session_key 1 in
  let M1 := proof_M srp_N 7 login 0 A 0 key in
  length (AsByteArray M1 0) = 20%nat -> length tail = 22%nat ->
  let input := challenge_packet AUTH_RECONNECT_CHALLENGE build os country login
               ++ logon_proof_packet (le_bytes 32 A) (AsByteArray M1 0) tail in
  exists st' addr locale os',
    OnRead 3 envs {| (new_AuthSocket build0 exp0 rl) with input_buffer_ := input |} = (Waiting, st')
    /\ _authed st' = true /\ _login st' = login
    /\ DbUpdateLogonProof (AsHexStr key) addr locale os' login ∈ out st'.
Proof.
  intros Hb Hexp Ho Hc Hl Hnul Hos Hsel HA key M1 HM Ht input.
  set (st0 := {| (new_AuthSocket build0 exp0 rl) with input_buffer_ := input |}).
  destruct (reconnect_run (envs O) st0 build os country login _ sessionkey sec eq_refl)
    as (st1 & R1 & I1 & L1 & X1 & N1 & G1 & V1 & S1 & B1 & P1 & A1); try done.
  rewrite (OnRead_step envs 2 st0 _ _ _ st1 eq_refl eq_refl R1).
  assert (EA : SetBinary (le_bytes 32 A) = A).
  { unfold SetBinary. rewrite le_value_bytes. apply wrap_small.
    change (8 * Z.of_nat 32) with 256. lia. }
  assert (Hkey : forall u, 0 <= u -> session_key (premaster A (v st1) u (b st1) (N st1)) = key).
  { intros u Hu. unfold key, premaster, ModExp. f_equal. rewrite V1, B1, N1.
    change (N st0) with srp_N. change (b st0) with 0. change (v st0) with 0.
    assert (0 < srp_N) by (vm_compute; reflexivity).
    rewrite (BN_mod_exp_spec 0) by lia. pose proof (Z.mod_pos_bound (0 ^ u) srp_N ltac:(lia)).
    rewrite BN_mod_exp_spec by (try apply Z.mul_nonneg_nonneg; lia). vm_compute. reflexivity. }
  destruct (proof_run (envs 1%nat) st1 (le_bytes 32 A) (AsByteArray M1 0) tail [])
    as (st2 & reply & R2 & A2 & K2 & L2 & I2 & O2); rewrite ?EA.
  - by rewrite I1, app_nil_r.
  - apply length_le_bytes.
  - exact HM.
  - exact Ht.
  - by rewrite X1.
  - lia.
  - rewrite Hkey by apply scramble_nonneg. unfold M1. by rewrite N1, G1, L1, S1, P1.
  - exists st2. rewrite EA, Hkey in O2 by apply scramble_nonneg.
    eexists _, _, _. split_and!.
    + rewrite (OnRead_step (fun n => envs (S n)) 1 st1 AUTH_LOGON_PROOF
        (le_bytes 32 A ++ AsByteArray M1 0 ++ tail) (_HandleLogonProof (envs 1%nat)) st2);
        [|by rewrite I1|done|done].
      cbn [OnRead]. unfold recv_soft, recv_len. by rewrite I2.
    + done.
    + by rewrite L2.
    + rewrite O2, L1. apply elem_of_app. right. constructor.
Qed.

(** ** Every run of the read loop *)

(** A successful answer to a logon or reconnect proof. *)
Definition success_reply (e : auth_event) : Prop :=
  match e with
  | SocketSend (c :: 0 :: _) => c = AUTH_LOGON_PROOF \/ c = AUTH_RECONNECT_PROOF
  | _ => False
  end.

Definition realm_reply (e : auth_event) : Prop :=
  match e with
  | SocketSend (c :: _) => c = REALM_LIST
  | _ => False
  end.

(** Every realm list is preceded by a successful proof. *)
Fixpoint guarded (proved : Prop) (evs : list auth_event) : Prop :=
  match evs with
  | [] => True
  | e :: evs' => (realm_reply e -> proved) /\ guarded (proved \/ success_reply e) evs'
  end.

Lemma guarded_weaken P Q evs : (P -> Q) -> guarded P evs -> guarded Q evs.
Proof.
  revert P Q. induction evs as [|e evs IH]; intros P Q HPQ; [done|]. intros [H1 H2].
  split; [auto|]. eapply IH; [|exact H2]. tauto.
Qed.

Lemma guarded_app P l1 l2 :
  guarded P (l1 ++ l2) <-> guarded P l1 /\ guarded (P \/ Exists success_reply l1) l2.
Proof.
  revert P. induction l1 as [|e l1 IH]; intros P; cbn [app guarded].
  - split; [intros H; split; [done|eapply guarded_weaken; [|exact H]; tauto]|].
    intros [_ H]. eapply guarded_weaken; [|exact H]. intros [|Hx]; [done|by inversion Hx].
  - rewrite IH.
    assert (forall Q : Prop, ((Q \/ success_reply e) \/ Exists success_reply l1)
      <-> (Q \/ Exists success_reply (e :: l1))) as Hx by (intros Q; rewrite Exists_cons; tauto).
    split.
    + intros (H1 & H2 & H3). split_and!; try done. eapply guarded_weaken; [|exact H3]. apply Hx.
    + intros ((H1 & H2) & H3). split_and!; try done. eapply guarded_weaken; [|exact H3]. apply Hx.
Qed.

Record session_ok (st : AuthSocket) : Prop := {
  ok_guarded : guarded False (out st);
  ok_authed : _authed st = true -> Exists success_reply (out st)
}.

Definition quiet_event (e : auth_event) : Prop := ~ realm_reply e /\ ~ success_reply e.

(** Programs that send neither a realm list nor the answer to a right proof, and do not
    authenticate; [Q] holds of the value they return. *)
Definition quiet {A} (m : Auth A) (Q : A -> Prop) : Prop := forall st,
  exists evs, out (m st).2 = out st ++ evs /\ Forall quiet_event evs /\ _authed (m st).2 = _authed st
    /\ match (m st).1 with Ok a => Q a | Throw _ => True end.

Lemma quiet_bind {A C} (m : Auth A) (f : A -> Auth C) P Q :
  quiet m P -> (forall a, P a -> quiet (f a) Q) -> quiet (m ≫= f) Q.
Proof.
  intros Hm Hf st. unfold mbind, M_bind. specialize (Hm st).
  destruct (m st) as [[a|e] st1]; cbn in *.
  - destruct Hm as (e1 & E1 & F1 & A1 & Ha). destruct (Hf a Ha st1) as (e2 & E2 & F2 & A2 & Hc).
    exists (e1 ++ e2). rewrite E2, E1, app_assoc, A2, A1. split_and!; [done|by apply Forall_app|done..].
  - destruct Hm as (e1 & E1 & F1 & A1 & _). by exists e1.
Qed.

Lemma quiet_weaken {A} (m : Auth A) (P Q : A -> Prop) :
  quiet m P -> (forall a, P a -> Q a) -> quiet m Q.
Proof.
  intros Hm Hpq st. destruct (Hm st) as (evs & E & F & Ha & Hp). exists evs. split_and!; try done.
  destruct ((m st).1); auto.
Qed.

Lemma quiet_get {A} (f : AuthSocket -> Auth A) Q :
  (forall st, quiet (f st) Q) -> quiet (x ← get; f x) Q.
Proof. intros Hf st. apply (Hf st st). Qed.

Lemma quiet_ret {A} (a : A) (Q : A -> Prop) : Q a -> quiet (mret a) Q.
Proof. intros Ha st. exists []. cbn. rewrite app_nil_r. by repeat constructor. Qed.

Lemma quiet_throw {A} (e : auth_exn) Q : quiet (throw e : Auth A) Q.
Proof. intros st. exists []. cbn. rewrite app_nil_r. by repeat constructor. Qed.

Lemma quiet_modify f :
  (forall st, out (f st) = out st /\ _authed (f st) = _authed st) -> quiet (modify f) (fun _ => True).
Proof. intros Hf st. exists []. cbn. rewrite app_nil_r. destruct (Hf st). by repeat constructor. Qed.

Lemma quiet_emit e : quiet_event e -> quiet (auth_emit e) (fun _ => True).
Proof. intros He st. exists [e]. cbn. split_and!; [done|by constructor|done|done]. Qed.

Lemma guarded_realm (P : Prop) evs : (Exists realm_reply evs -> P) -> guarded P evs.
Proof.
  revert P. induction evs as [|e evs IH]; intros P H; [done|]. split; [intros He; apply H; by left|].
  apply IH. intros He. left. apply H. by right.
Qed.

(** What one command may do: [proof] is the proof it carries. *)
Definition sound_step (proof : Prop) (st st' : AuthSocket) : Prop :=
  exists evs, out st' = out st ++ evs /\
    (Exists success_reply evs -> proof) /\
    (Exists realm_reply evs -> _authed st = true) /\
    (_authed st' = true -> _authed st = true \/ Exists success_reply evs).

Lemma sound_step_ok proof st st' : sound_step proof st st' -> session_ok st -> session_ok st'.
Proof.
  intros (evs & E & _ & Hr & Ha) [H1 H2]. split; rewrite E.
  - apply guarded_app. split; [done|]. apply guarded_realm. auto.
  - intros [H|H]%Ha; apply Exists_app; auto.
Qed.

Lemma quiet_sound {A} (m : Auth A) Q proof st : quiet m Q -> sound_step proof st (m st).2.
Proof.
  intros Hm. destruct (Hm st) as (evs & E & F & Ha & _). exists evs. rewrite E, Ha. split_and!; [done| | |auto].
  - intros (e & He & Hs)%Exists_exists. rewrite Forall_forall in F. by destruct (F e He).
  - intros (e & He & Hs)%Exists_exists. rewrite Forall_forall in F. by destruct (F e He).
Qed.

Lemma sound_nothing proof st : sound_step proof st st.
Proof. exists []. rewrite app_nil_r. split_and!; [done|by intros ?%Exists_nil..|auto]. Qed.

Lemma sound_step_from proof st st1 st' :
  out st1 = out st -> _authed st1 = _authed st -> sound_step proof st1 st' -> sound_step proof st st'.
Proof. unfold sound_step. by intros -> ->. Qed.

Ltac not_reply := split; [intros ?; discriminate|cbn; first [intros []; discriminate|by intros []|by intros ?]].

Ltac quiet_step :=
  match goal with
  | |- quiet (get ≫= _) _ => apply quiet_get; intros ?
  | |- quiet (modify _ ≫= _) _ => eapply quiet_bind; [apply quiet_modify; intros []; done|intros ? _]
  | |- quiet (shutdown ≫= _) _ => eapply quiet_bind; [apply quiet_emit; split; intros []|intros ? _]
  | |- quiet (send _ ≫= _) _ => eapply quiet_bind; [apply quiet_emit; not_reply|intros ? _]
  | |- quiet (auth_emit _ ≫= _) _ => eapply quiet_bind; [apply quiet_emit; split; intros []|intros ? _]
  | |- quiet (recv_skip _ ≫= _) _ => eapply quiet_bind; [apply quiet_modify; intros []; done|intros ? _]
  | |- quiet (mret _) _ => apply quiet_ret; try done
  | |- quiet (throw _) _ => apply quiet_throw
  | |- quiet (modify _) _ => apply quiet_modify; intros []; done
  | |- quiet (auth_emit _) _ => apply quiet_emit; split; intros []
  | |- quiet (send _) _ => apply quiet_emit; not_reply
  | |- quiet (if ?c then _ else _) _ => destruct c
  | |- quiet (match ?c with _ => _ end) _ => destruct c
  end.

Section Runs.
Context `{OpenSSL}.

Abbreviation any := (fun _ => True).

Lemma quiet_recv n : quiet (recv n) any.
Proof. unfold recv. repeat quiet_step. Qed.

Lemma quiet_read_challenge : quiet read_challenge any.
Proof.
  unfold read_challenge. repeat quiet_step. eapply quiet_bind; [apply quiet_recv|intros hdr _].
  repeat quiet_step. eapply quiet_bind; [apply quiet_recv|intros body _]. repeat quiet_step.
Qed.

(** The answer to a logon challenge begins with its own command. *)
Definition challenge_answer (pkt : list Z) : Prop := head pkt = Some AUTH_LOGON_CHALLENGE.

Lemma quiet_challenge_account env ch row pkt :
  challenge_answer pkt -> quiet (challenge_account env ch row pkt) challenge_answer.
Proof.
  intros Hp. assert (Happ : forall l, challenge_answer (pkt ++ l)) by (intros l; by destruct pkt).
  unfold challenge_account, _SetVSFields. eapply quiet_bind.
  - destruct (_ || _); repeat quiet_step.
  - intros _ _. repeat quiet_step.
Qed.

Lemma quiet_LogonChallenge env : quiet (_HandleLogonChallenge env) any.
Proof.
  unfold _HandleLogonChallenge. eapply quiet_bind; [apply quiet_read_challenge|intros [ch|] _]; [|quiet_step].
  repeat quiet_step. apply (quiet_bind _ _ challenge_answer).
  - destruct (sel_ip_banned env); [by quiet_step|]. quiet_step.
    destruct (sel_logonchallenge env _) as [row|]; [|by quiet_step].
    destruct (_ && _); [by quiet_step|]. do 2 quiet_step.
    destruct (sel_account_banned env _) as [[? ?]|]; [by quiet_step|].
    by apply quiet_challenge_account.
  - intros pkt Hpkt. eapply quiet_bind; [|intros; by quiet_step].
    apply quiet_emit. destruct pkt as [|c [|d pkt]]; [done| |]; injection Hpkt as ->; [by not_reply|].
    split; [intros ?; discriminate|]. cbn. destruct d; [|by intros []..]. intros []; discriminate.
Qed.

Lemma quiet_ReconnectChallenge env : quiet (_HandleReconnectChallenge env) any.
Proof.
  unfold _HandleReconnectChallenge.
  eapply quiet_bind; [apply quiet_read_challenge|intros [ch|] _]; [|quiet_step].
  repeat quiet_step.
Qed.

(** The proof of a logon: the 75 bytes of the packet are there, [A] is not zero, and [M1] is
    the proof of the session key that the server computes from its own state. *)
Definition logon_proved (st : AuthSocket) : Prop :=
  let lp := take 75 (input_buffer_ st) in
  let A := SetBinary (field_bytes lp 1 32) in
  let key := session_key (premaster A (v st) (scramble A (B st)) (b st) (N st)) in
  head lp = Some AUTH_LOGON_PROOF /\ length lp = 75%nat /\ A <> 0 /\ _expversion st <> NO_VALID_EXP_FLAG /\
  field_bytes lp 33 20 = take 20 (AsByteArray (proof_M (N st) (g st) (_login st) (s st) A (B st) key) 0).

(** The proof of a reconnection: a challenge was sent to this login, whose session key is known,
    and the digest is that of the login, the client's nonce, the challenge and the key. *)
Definition reconnect_proved (st : AuthSocket) : Prop :=
  let lp := take 58 (input_buffer_ st) in
  head lp = Some AUTH_RECONNECT_PROOF /\ length lp = 58%nat /\
  _login st <> [] /\ GetNumBytes (_reconnectProof st) <> 0 /\ GetNumBytes (K st) <> 0 /\
  field_bytes lp 17 20 =
    SHA1 (_login st ++ UpdateBigNumbers [SetBinary (field_bytes lp 1 16); _reconnectProof st; K st]).

Definition proved (st : AuthSocket) : Prop := logon_proved st \/ reconnect_proved st.

Lemma bind_get {A} (f : AuthSocket -> Auth A) st : (get ≫= f) st = f st st.
Proof. done. Qed.

Lemma bind_modify {A} f (k : unit -> Auth A) st : (modify f ≫= k) st = k tt (f st).
Proof. done. Qed.

Lemma bind_ret {A C} (a : A) (k : A -> Auth C) st : (mret a ≫= k) st = k a st.
Proof. done. Qed.

Lemma bind_thrown {A C} e (k : A -> Auth C) st : (throw e ≫= k) st = (throw e : Auth C) st.
Proof. done. Qed.

Lemma quiet_wrong_password env : quiet (wrong_password env) any.
Proof. unfold wrong_password. repeat quiet_step. Qed.

Lemma sound_LogonProof env st :
  head (input_buffer_ st) = Some AUTH_LOGON_PROOF -> sound_step (proved st) st (_HandleLogonProof env st).2.
Proof.
  intros Hhd. destruct (Z.ltb_spec (recv_len st) 75) as [Hlen|Hlen].
  { apply Z.ltb_lt in Hlen. unfold _HandleLogonProof, recv, recv_soft, sizeof_sAuthLogonProof_C.
    cbv [mbind M_bind mret M_ret get]. rewrite Hlen. apply sound_nothing. }
  set (lp := take 75 (input_buffer_ st)).
  assert (length lp = 75%nat) as Hlp by (unfold lp, recv_len, zlen in *; rewrite length_take; lia).
  unfold _HandleLogonProof.
  rewrite (bind_ok _ _ _ _ _ (recv_run st lp (drop 75 (input_buffer_ st)) 75 (eq_sym (take_drop 75 (input_buffer_ st))) ltac:(unfold zlen; by rewrite Hlp))).
  set (st0 := {| st with input_buffer_ := drop 75 (input_buffer_ st) |}).
  assert (forall m : Auth bool, quiet m any -> sound_step (proved st) st (m st0).2) as Hquiet.
  { intros m Hm. apply (sound_step_from _ st st0); [done|done|]. by apply (quiet_sound m any). }
  rewrite bind_get. destruct (Z.eqb_spec (_expversion st0) NO_VALID_EXP_FLAG) as [|Hexp].
  { apply Hquiet. repeat quiet_step. }
  unfold isZero. destruct (Z.eqb_spec (SetBinary (field_bytes lp 1 32)) 0) as [|HA].
  { apply Hquiet. repeat quiet_step. }
  set (A := SetBinary (field_bytes lp 1 32)) in *.
  rewrite bind_modify, bind_get. match goal with |- context [memcmp20 (AsByteArray (proof_M (N ?x) _ _ _ _ _ _) 0)] => set (st1 := x) end.
  assert (forall m : Auth bool, quiet m any -> sound_step (proved st) st (m st1).2) as Hquiet1.
  { intros m Hm. apply (sound_step_from _ st st1); [done|done|]. by apply (quiet_sound m any). }
  unfold memcmp20. destruct (zlen (AsByteArray _ 0) <? 20).
  { rewrite bind_thrown. apply Hquiet1. by quiet_step. }
  rewrite bind_ret. match goal with |- context [bool_decide ?P] => destruct (bool_decide P) eqn:E end.
  - apply bool_decide_eq_true in E. unfold right_password, send, auth_emit. cbv [mbind M_bind mret M_ret get modify].
    eexists. split; [cbn [snd out st1]; rewrite <- app_assoc; reflexivity|]. split_and!.
    + intros _. left. unfold logon_proved. fold lp. fold A. split_and!; [|done|done|done|by symmetry].
      unfold lp. by destruct (input_buffer_ st).
    + intros [Hx|[Hx|Hx%Exists_nil]%Exists_cons]%Exists_cons; exfalso; cbn in Hx; [done| |done].
      by destruct (has_flag _ _).
    + intros _. right. apply Exists_cons_tl, Exists_cons_hd. cbn. destruct (has_flag _ _); by left.
  - apply Hquiet1. eapply quiet_bind; [apply (quiet_wrong_password env)|intros _ _; by quiet_step].
Qed.

Lemma sound_ReconnectProof st :
  head (input_buffer_ st) = Some AUTH_RECONNECT_PROOF -> sound_step (proved st) st (_HandleReconnectProof st).2.
Proof.
  intros Hhd. destruct (Z.ltb_spec (recv_len st) 58) as [Hlen|Hlen].
  { apply Z.ltb_lt in Hlen. unfold _HandleReconnectProof, recv, recv_soft, sizeof_sAuthReconnectProof_C.
    cbv [mbind M_bind mret M_ret get]. rewrite Hlen. apply sound_nothing. }
  set (lp := take 58 (input_buffer_ st)).
  assert (length lp = 58%nat) as Hlp by (unfold lp, recv_len, zlen in *; rewrite length_take; lia).
  unfold _HandleReconnectProof.
  rewrite (bind_ok _ _ _ _ _ (recv_run st lp (drop 58 (input_buffer_ st)) 58 (eq_sym (take_drop 58 (input_buffer_ st))) ltac:(unfold zlen; by rewrite Hlp))).
  set (st0 := {| st with input_buffer_ := drop 58 (input_buffer_ st) |}).
  assert (forall m : Auth bool, quiet m any -> sound_step (proved st) st (m st0).2) as Hquiet.
  { intros m Hm. apply (sound_step_from _ st st0); [done|done|]. by apply (quiet_sound m any). }
  rewrite bind_get. change (_login st0) with (_login st). change (_reconnectProof st0) with (_reconnectProof st). change (K st0) with (K st).
  destruct (_ || _) eqn:E0; [apply Hquiet; by quiet_step|].
  apply orb_false_iff in E0 as [[El%bool_decide_eq_false Er%Z.eqb_neq]%orb_false_iff Ek%Z.eqb_neq].
  destruct (bool_decide (SHA1 _ = _)) eqn:E.
  - apply bool_decide_eq_true in E. unfold send, auth_emit. cbv [mbind M_bind modify mret M_ret].
    eexists. split; [reflexivity|]. split_and!.
    + intros _. right. unfold reconnect_proved. fold lp. split_and!; try done. unfold lp. by destruct (input_buffer_ st).
    + intros [Hx|Hx%Exists_nil]%Exists_cons; done.
    + intros _. right. apply Exists_cons_hd. by right.
  - apply Hquiet. repeat quiet_step.
Qed.

Lemma sound_RealmList env proof st : _authed st = true -> sound_step proof st (_HandleRealmList env st).2.
Proof.
  intros Ha. unfold _HandleRealmList, recv_skip, shutdown, send, auth_emit.
  cbv [mbind M_bind mret M_ret get modify]. destruct (recv_len st <? 5); [apply sound_nothing|]. cbn [_login].
  destruct (sel_account_id env (_login st)) as [id|]; (eexists; split; [cbn [snd out]; reflexivity|]); split_and!; auto.
  - intros [Hx|Hx%Exists_nil]%Exists_cons; [|done]. exfalso. revert Hx. cbn. destruct (u8 _); [intros []; discriminate|done..].
  - intros [Hx|Hx%Exists_nil]%Exists_cons; done.
Qed.

Lemma sound_handler env cmd st h :
  head (input_buffer_ st) = Some cmd -> handler env cmd (_authed st) = Some h -> sound_step (proved st) st (h st).2.
Proof.
  intros Hhd. unfold handler.
  destruct (cmd =? _); [intros [= <-]; apply (quiet_sound _ any), quiet_LogonChallenge|].
  destruct (Z.eqb_spec cmd AUTH_LOGON_PROOF) as [->|_]; [intros [= <-]; by apply sound_LogonProof|].
  destruct (cmd =? _); [intros [= <-]; apply (quiet_sound _ any), quiet_ReconnectChallenge|].
  destruct (Z.eqb_spec cmd AUTH_RECONNECT_PROOF) as [->|_]; [intros [= <-]; by apply sound_ReconnectProof|].
  destruct (_ && _) eqn:E; [apply andb_true_iff in E as [_ E]; intros [= <-]; by apply sound_RealmList|]. clear E.
  destruct (cmd =? _); [intros [= <-]; apply sound_nothing|].
  destruct (cmd =? _); [intros [= <-]; apply sound_nothing|].
  destruct (cmd =? _); [intros [= <-]|done]. apply (quiet_sound _ any). unfold _HandleXferCancel. repeat quiet_step.
Qed.

(** *** Input *)

(** Programs that leave the input buffer alone. *)
Definition no_input {A} (m : Auth A) : Prop := forall st, input_buffer_ (m st).2 = input_buffer_ st.

Lemma no_input_bind {A C} (m : Auth A) (f : A -> Auth C) :
  no_input m -> (forall a, no_input (f a)) -> no_input (m ≫= f).
Proof.
  intros Hm Hf st. specialize (Hm st). unfold mbind, M_bind.
  destruct (m st) as [[a|e] st1]; cbn in *; [by rewrite Hf|done].
Qed.

(** A handler that succeeds has consumed something. *)
Definition consumes (m : Auth bool) : Prop := forall st st',
  m st = (Ok true, st') -> (length (input_buffer_ st') < length (input_buffer_ st))%nat.

Lemma recv_input n st l st' :
  0 < n -> recv n st = (Ok (Some l), st') ->
  (length (input_buffer_ st') < length (input_buffer_ st))%nat /\ zlen l = n.
Proof.
  intros Hn. unfold recv, recv_soft, recv_len, recv_skip. cbv [mbind M_bind mret M_ret get modify].
  destruct (Z.ltb_spec (zlen (input_buffer_ st)) n); [done|]. intros [= <- <-]. cbn [input_buffer_].
  unfold zlen in *. rewrite length_drop, length_take. lia.
Qed.

Lemma recv_shrinks n st : (length (input_buffer_ (recv n st).2) <= length (input_buffer_ st))%nat.
Proof.
  unfold recv, recv_soft, recv_len, recv_skip. cbv [mbind M_bind mret M_ret get modify].
  destruct (_ <? n); [done|]. cbn. rewrite length_drop. lia.
Qed.

Lemma consumes_recv n (k : option (list Z) -> Auth bool) :
  0 < n -> (forall st st', k None st <> (Ok true, st')) -> (forall l, no_input (k (Some l))) ->
  consumes (x ← recv n; k x).
Proof.
  intros Hn H0 Hk st st'. unfold mbind, M_bind. destruct (recv n st) as [[[l|]|e] st1] eqn:E; [|intros Hx|done].
  - intros Hx. destruct (recv_input n st l st1 Hn E) as [Hlt _].
    pose proof (Hk l st1) as Hi. rewrite Hx in Hi. cbn in Hi. by rewrite Hi.
  - by destruct (H0 _ _ Hx).
Qed.

Lemma read_challenge_input st ch st' :
  read_challenge st = (Ok (Some ch), st') ->
  (length (input_buffer_ st') < length (input_buffer_ st))%nat.
Proof.
  unfold read_challenge. cbv [mbind M_bind mret M_ret get].
  destruct (Z.ltb_spec (recv_len st) sizeof_sAuthLogonChallenge_C) as [|Hlen]; [done|].
  destruct (recv 4 st) as [[[hdr|]|e] st1] eqn:E1; [|exfalso|done].
  - destruct (recv_input 4 st hdr st1 ltac:(lia) E1) as [Hlt _]. destruct (_ || _); [done|].
    match goal with |- context [recv ?n st1] => pose proof (recv_shrinks n st1);
      destruct (recv n st1) as [[body|e] st2] end; [|done].
    intros [= _ <-]. cbn in *. lia.
  - revert E1. unfold recv, recv_soft, recv_len, recv_skip. cbv [mbind M_bind mret M_ret get modify].
    unfold recv_len, sizeof_sAuthLogonChallenge_C in Hlen. destruct (Z.ltb_spec (zlen (input_buffer_ st)) 4); [lia|done].
Qed.

Lemma consumes_challenge (k : option (list Z) -> Auth bool) :
  (forall st st', k None st <> (Ok true, st')) -> (forall l, no_input (k (Some l))) ->
  consumes (x ← read_challenge; k x).
Proof.
  intros H0 Hk st st'. unfold mbind, M_bind.
  destruct (read_challenge st) as [[[l|]|e] st1] eqn:E; [|intros Hx|done].
  - intros Hx. pose proof (read_challenge_input _ _ _ E) as Hlt.
    pose proof (Hk l st1) as Hi. rewrite Hx in Hi. cbn in Hi. by rewrite Hi.
  - by destruct (H0 _ _ Hx).
Qed.

Lemma no_input_get {A} (f : AuthSocket -> Auth A) : (forall st, no_input (f st)) -> no_input (x ← get; f x).
Proof. intros Hf st. apply (Hf st st). Qed.

Ltac no_input :=
  repeat match goal with
  | |- no_input (let x := _ in _) => cbv zeta
  | |- no_input (get ≫= _) => apply no_input_get; intros ?
  | |- no_input (_ ≫= _) => apply no_input_bind; [|intros ?]
  | |- no_input (if ?c then _ else _) => destruct c
  | |- no_input (match ?c with _ => _ end) => destruct c
  | |- no_input _ => intros []; reflexivity
  end.

Lemma handler_consumes env cmd authed h st st' :
  handler env cmd authed = Some h -> h st = (Ok true, st') -> input_buffer_ st <> [] ->
  (length (input_buffer_ st') < length (input_buffer_ st))%nat.
Proof.
  intros Hh Hr Hne. assert (consumes h \/ h = _HandleXferCancel \/ h = _HandleRealmList env) as [Hc|[->| ->]].
  - revert Hh. unfold handler.
    assert (consumes _HandleXferResume /\ consumes _HandleXferAccept) as [? ?] by (split; by intros ? ?).
    destruct (cmd =? _).
    { intros [= <-]. left. apply consumes_challenge; [done|]. intros ch. unfold challenge_account, _SetVSFields. no_input. }
    destruct (cmd =? _).
    { intros [= <-]. left. apply consumes_recv; [done|done|]. intros lp.
      unfold right_password, wrong_password, memcmp20. no_input. }
    destruct (cmd =? _).
    { intros [= <-]. left. apply consumes_challenge; [done|]. intros ch. no_input. }
    destruct (cmd =? _).
    { intros [= <-]. left. apply consumes_recv; [done|done|]. intros lp. no_input. }
    destruct (_ && _); [intros [= <-]; auto|].
    repeat (destruct (cmd =? _); [intros [= <-]; auto|]). done.
  - by apply (Hc st).
  - unfold _HandleXferCancel, recv_skip, shutdown, auth_emit in Hr. cbv [mbind M_bind mret M_ret modify] in Hr.
    injection Hr as <-. cbn [input_buffer_]. destruct (input_buffer_ st) as [|z l]; [done|]. cbn [length]. change (drop (Z.to_nat 1) (z :: l)) with l. lia.
  - unfold _HandleRealmList, recv_skip, shutdown, send, auth_emit in Hr.
    cbv [mbind M_bind mret M_ret get modify] in Hr.
    destruct (Z.ltb_spec (recv_len st) 5) as [|Hlen]; [done|]. cbn [_login] in Hr.
    destruct (sel_account_id env (_login st)) as [id|]; [|done]. injection Hr as <-.
    cbn [input_buffer_]. rewrite length_drop. unfold recv_len, zlen in Hlen. lia.
Qed.

Lemma OnRead_run fuel : forall envs st,
  (length (input_buffer_ st) < fuel)%nat -> (OnRead fuel envs st).1 <> OutOfFuel.
Proof.
  induction fuel as [|fuel IH]; intros envs st Hf; [lia|]. cbn [OnRead].
  unfold recv_soft. destruct (Z.ltb_spec (recv_len st) 1) as [|Hlen]; [done|].
  destruct (handler _ _ _) as [h|] eqn:Eh; [|done].
  destruct (h st) as [[[]|e] st'] eqn:Er; [|done..]. apply IH.
  assert (input_buffer_ st <> []) by (intros E; unfold recv_len, zlen in Hlen; rewrite E in Hlen; done).
  pose proof (handler_consumes _ _ _ _ _ _ Eh Er ltac:(done)). lia.
Qed.

(** The commands of a run of the loop, each with the state before it, which begins with its
    bytes, and the state after it. *)
Fixpoint commands (fuel : nat) (envs : nat -> Env) (st : AuthSocket) : list (AuthSocket * AuthSocket) :=
  match fuel with
  | O => []
  | S fuel' =>
    match recv_soft 1 st with
    | None => []
    | Some c =>
      match handler (envs O) (nth 0 c 0) (_authed st) with
      | None => [(st, (shutdown st).2)]
      | Some h =>
        (st, (h st).2) :: match h st with
                          | (Ok true, st') => commands fuel' (fun n => envs (S n)) st'
                          | _ => []
                          end
      end
    end
  end.

(** What a command added to the output. *)
Definition added (c : AuthSocket * AuthSocket) : list auth_event := drop (length (out c.1)) (out c.2).

Definition sound_command (c : AuthSocket * AuthSocket) : Prop := sound_step (proved c.1) c.1 c.2.

Lemma sound_added c : sound_command c -> out c.2 = out c.1 ++ added c.
Proof. intros (evs & E & _). unfold added. by rewrite E, drop_app_length. Qed.

Lemma OnRead_commands fuel : forall envs st,
  Forall sound_command (commands fuel envs st) /\
  out (OnRead fuel envs st).2 = out st ++ concat (added <$> commands fuel envs st) /\
  (session_ok st -> session_ok (OnRead fuel envs st).2).
Proof.
  induction fuel as [|fuel IH]; intros envs st; cbn [OnRead commands]; [by rewrite app_nil_r|].
  unfold recv_soft. destruct (Z.ltb_spec (recv_len st) 1) as [|Hlen]; [by rewrite app_nil_r|].
  assert (exists cmd, head (input_buffer_ st) = Some cmd /\ nth 0 (take (Z.to_nat 1) (input_buffer_ st)) 0 = cmd) as (cmd & Hhd & ->).
  { unfold recv_len, zlen in Hlen. destruct (input_buffer_ st) as [|cmd l]; [cbn in Hlen; lia|]. by exists cmd. }
  assert (forall st', sound_step (proved st) st st' ->
    sound_command (st, st') /\ out st' = out st ++ added (st, st') ++ [] /\ (session_ok st -> session_ok st')) as Hone.
  { intros st' Hs. split_and!; [done|rewrite app_nil_r; by apply (sound_added (st, st'))|by eapply sound_step_ok]. }
  destruct (handler (envs O) cmd (_authed st)) as [h|] eqn:Eh.
  - pose proof (sound_handler _ _ _ _ Hhd Eh) as Hs. destruct (h st) as [r st'] eqn:Er. cbn [snd] in *.
    destruct (Hone st' Hs) as (H1 & H2 & H3). destruct r as [[]|e]; [|split_and!; [by constructor|done|done]..].
    destruct (IH (fun n => envs (S n)) st') as (I1 & I2 & I3). split_and!; [by constructor| |auto].
    rewrite I2, H2. cbn [fmap list_fmap concat]. by rewrite app_nil_r, app_assoc.
  - destruct (Hone (shutdown st).2) as (H1 & H2 & H3).
    { apply (quiet_sound shutdown any), quiet_emit. split; intros []. }
    split_and!; [by repeat constructor|exact H2|exact H3].
Qed.

(** The socket delivers chunks; each is read with its own answers. *)
Definition deliver (st : AuthSocket) (bytes : list Z) : AuthSocket := {| st with input_buffer_ := input_buffer_ st ++ bytes |}.

Definition session (st : AuthSocket) (chunks : list (list Z * (nat -> Env))) : AuthSocket :=
  foldl (fun st ce => let st := deliver st ce.1 in (OnRead (S (length (input_buffer_ st))) ce.2 st).2) st chunks.

(** All the commands of a session. *)
Fixpoint session_commands (st : AuthSocket) (chunks : list (list Z * (nat -> Env))) : list (AuthSocket * AuthSocket) :=
  match chunks with
  | [] => []
  | (bytes, envs) :: chunks =>
    let st := deliver st bytes in let fuel := S (length (input_buffer_ st)) in
    commands fuel envs st ++ session_commands (OnRead fuel envs st).2 chunks
  end.

Lemma session_run st chunks :
  Forall sound_command (session_commands st chunks) /\
  out (session st chunks) = out st ++ concat (added <$> session_commands st chunks) /\
  (session_ok st -> session_ok (session st chunks)).
Proof.
  revert st. induction chunks as [|[bytes envs] chunks IH]; intros st; cbn [session_commands]; [by rewrite app_nil_r|].
  cbv zeta. set (st0 := deliver st bytes). set (fuel := S (length (input_buffer_ st0))).
  change (session st ((bytes, envs) :: chunks)) with (session (OnRead fuel envs st0).2 chunks).
  destruct (OnRead_commands fuel envs st0) as (O1 & O2 & O3). destruct (IH (OnRead fuel envs st0).2) as (I1 & I2 & I3).
  split_and!; [by apply Forall_app| |intros [? ?]; apply I3, O3; by split].
  rewrite I2, O2, fmap_app, concat_app, app_assoc. done.
Qed.
End Runs.

(** C19: Whatever bytes arrive in whatever pieces and whatever the database answers, the
    read loop ends (fuel: one more than the bytes buffered), and what the server writes is
    what its commands write one after the other.  A command answers success, or authenticates
    the session, only if the bytes it consumes carry a right proof: a logon proof with [A]
    not zero and [M1] the proof of the session key that the server computes from the
    connection's state, or a reconnect proof with the digest of the connection's login,
    challenge and key.  A realm list is only sent by a command that finds the session
    authenticated, after such an answer on the same connection. *)
Theorem realm_list_needs_proof `{OpenSSL} build0 exp0 rl chunks :
  let st0 := new_AuthSocket build0 exp0 rl in
  let st := session st0 chunks in
  let cmds := session_commands st0 chunks in
  out st = concat (added <$> cmds)
  /\ (forall before after, (before, after) ∈ cmds ->
       (Exists success_reply (added (before, after)) \/ (_authed before = false /\ _authed after = true) -> proved before) /\
       (Exists realm_reply (added (before, after)) -> _authed before = true))
  /\ guarded False (out st)
  /\ (_authed st = true -> Exists success_reply (out st))
  /\ forall envs, (OnRead (S (length (input_buffer_ st))) envs st).1 <> OutOfFuel.
Proof.
  intros st0 st cmds. destruct (session_run st0 chunks) as (H1 & H2 & H3). destruct H3 as [H3 H4]; [by split|].
  split_and!; [done| |done|done|intros envs; apply OnRead_run; lia].
  intros before after Hc. rewrite Forall_forall in H1. pose proof (H1 _ Hc) as Hs. pose proof (sound_added _ Hs) as Ha.
  destruct Hs as (evs & E & Hp & Hr & Hau). cbn [fst snd] in *. rewrite E in Ha. apply app_inv_head in Ha as <-.
  split; [|done]. intros [?|[Hb Hf]]; [auto|]. destruct (Hau Hf); [congruence|auto].
Qed.

(** A challenge split by the network after its 35th byte is lost: the handler
    has already taken its four header bytes out of the buffer when it finds
    the body incomplete, so what follows is read as a new command. *)
Theorem split_challenge_loses_header `{OpenSSL} env st :
  35 <= recv_len st < 4 + field_le (take 4 (input_buffer_ st)) 2 2 ->
  31 <= field_le (take 4 (input_buffer_ st)) 2 2 ->
  _HandleLogonChallenge env st = (Ok false, {| st with input_buffer_ := drop 4 (input_buffer_ st) |}).
Proof.
  intros Hlen Hrem. unfold _HandleLogonChallenge, read_challenge.
  cbv [mbind M_bind mret M_ret get]. unfold sizeof_sAuthLogonChallenge_C.
  destruct (Z.ltb_spec (recv_len st) 35); [lia|].
  assert (Hl : zlen (take 4 (input_buffer_ st)) = 4).
  { unfold recv_len, zlen in *. rewrite length_take. lia. }
  rewrite (recv_run st (take 4 (input_buffer_ st)) (drop 4 (input_buffer_ st)) 4);
    [|by rewrite take_drop|done].
  cbn [default from_option id]. unfold recv_len at 1. cbn [input_buffer_].
  destruct (Z.ltb_spec (field_le (take 4 (input_buffer_ st)) 2 2) (35 - 4)); [lia|]. cbn [orb].
  destruct (Z.ltb_spec (zlen (drop 4 (input_buffer_ st))) (field_le (take 4 (input_buffer_ st)) 2 2)) as [|Hge];
    [done|]. exfalso. unfold recv_len, zlen in *. rewrite length_drop in Hge. lia.
Qed.

(** *** A concrete instance *)

(** A stand-in for the library: any 20-byte function will do as the hash. *)
#[export, refine] Instance demo_OpenSSL : OpenSSL := {|
  SHA1 l := if (length l <=? 2)%nat then le_bytes 20 (le_value l mod 16)
            else le_bytes 19 (le_value l) ++ [1];
  BN_mod_exp a p m := if m <=? 0 then 0 else Zpow_mod a p m;
  BN_hex2bn l := head l;
  BN_bn2hex bn := [bn];
  SHA1_length := _;
  SHA1_bytes := _;
  BN_mod_exp_spec := _;
  BN_hex2bn_nil := eq_refl;
  BN_hex2bn_bn2hex n _ := eq_refl
|}.
Proof.
  - intros l. destruct (_ <=? _)%nat; [apply length_le_bytes|]. by rewrite length_app, length_le_bytes.
  - intros l. destruct (_ <=? _)%nat; [apply bytes_le_bytes|].
    apply Forall_app. split; [apply bytes_le_bytes|]. apply Forall_singleton. lia.
  - intros a p m Ha Hp Hm. destruct (Z.leb_spec m 0); [lia|]. apply Zpow_mod_correct. lia.
Defined.

Definition demo_Env : Env :=
  mkEnv [] false (fun _ => None) (fun _ => None) (fun _ => Some ([], 0)) (fun _ => None)
    (fun _ => Some 7) (fun _ _ => None) [] 0 0 false 0 0 0 0 0.

Definition demo_tail : list Z := replicate 22 0.




Definition demo_modulus : AuthSocket :=
  let st := mkAuthSocket srp_N 9 7 1234 4 99 0 0 false [65] [] [] 15595 2 0 [] (mkRealmList [] 0 0) [] in
  {| st with input_buffer_ := logon_proof_packet (le_bytes 32 srp_N)
       (AsByteArray (proof_M srp_N 7 [65] 9 srp_N 99 (session_key 0)) 0) demo_tail |}.

Lemma modulus_as_A_logs_in_witness :
  exists st', _HandleLogonProof demo_Env demo_modulus = (Ok true, st') /\ _authed st' = true.
Proof.
  destruct (modulus_as_A_logs_in demo_Env demo_modulus demo_tail []) as (st' & reply & H1 & H2 & _).
  - reflexivity.
  - vm_compute. reflexivity.
  - vm_compute. discriminate.
  - vm_compute. discriminate.
  - vm_compute. reflexivity.
  - reflexivity.
  - rewrite app_nil_r. reflexivity.
  - exists st'. split; [exact H1|exact H2].
Defined.

Lemma reconnect_then_proof_logs_in_witness :
  exists input st',
    OnRead 3 (fun _ => demo_Env)
      {| (new_AuthSocket 0 0 (mkRealmList [] 0 0)) with input_buffer_ := input |} = (Waiting, st')
    /\ _authed st' = true /\ _login st' = [65; 68; 77].
Proof.
  destruct (reconnect_then_proof_logs_in (fun _ => demo_Env) 0 0 (mkRealmList [] 0 0) 15595
    [110; 105; 87; 0] [83; 85; 110; 101] [65; 68; 77] [] 0 5 demo_tail)
    as (st' & addr & locale & os' & H1 & H2 & H3 & _).
  - lia.
  - vm_compute. discriminate.
  - reflexivity.
  - reflexivity.
  - vm_compute. split; [discriminate|reflexivity].
  - repeat constructor; discriminate.
  - vm_compute. discriminate.
  - reflexivity.
  - lia.
  - vm_compute. reflexivity.
  - reflexivity.
  - eexists. exists st'. split; [exact H1|]. split; [exact H2|exact H3].
Defined.

(** A reconnect challenge, the proof in two pieces and the request of the realm list. *)
Definition demo_proof : list Z :=
  logon_proof_packet (le_bytes 32 5) (AsByteArray (proof_M srp_N 7 [65; 68; 77] 0 5 0 (session_key 1)) 0) demo_tail.

Definition demo_chunks : list (list Z * (nat -> Env)) :=
  [(challenge_packet AUTH_RECONNECT_CHALLENGE 15595 [110; 105; 87; 0] [83; 85; 110; 101] [65; 68; 77] ++ take 30 demo_proof, fun _ => demo_Env);
   (drop 30 demo_proof, fun _ => demo_Env); ([16; 0; 0; 0; 0], fun _ => demo_Env)].

Lemma realm_list_needs_proof_witness :
  let st0 := new_AuthSocket 0 0 (mkRealmList [] 0 0) in
  length (session_commands st0 demo_chunks) = 4%nat /\ _authed (session st0 demo_chunks) = true /\
  Exists success_reply (out (session st0 demo_chunks)).
Proof.
  cbv zeta. split; [vm_compute; reflexivity|].
  assert (_authed (session (new_AuthSocket 0 0 (mkRealmList [] 0 0)) demo_chunks) = true) as Ha by (vm_compute; reflexivity).
  split; [exact Ha|].
  exact (proj1 (proj2 (proj2 (proj2 (realm_list_needs_proof 0 0 (mkRealmList [] 0 0) demo_chunks)))) Ha).
Defined.

(** 40 of the 54 bytes of a challenge have arrived. *)
Definition demo_split : AuthSocket :=
  {| (new_AuthSocket 0 0 (mkRealmList [] 0 0)) with
     input_buffer_ := [0; 0; 50; 0] ++ replicate 36 1 |}.

Lemma split_challenge_loses_header_witness :
  _HandleLogonChallenge demo_Env demo_split = (Ok false, {| demo_split with input_buffer_ := replicate 36 1 |}).
Proof.
  exact (split_challenge_loses_header demo_Env demo_split
    ltac:(vm_compute; split; [discriminate|reflexivity]) ltac:(vm_compute; discriminate)).
Defined.
