(* ===== verification/WorldCrypt.v ===== *)
(** * Encryption and compression of the world connection
      (src/src/server/shared/Cryptography/Authentication/AuthCrypt.cpp, ARC4.cpp,
      HMACSHA1.cpp)

    The two RC4 streams that hide the packet headers after authentication.  RC4
    and HMAC are OpenSSL's and deflate is zlib's: each is an interface with the
    documented behaviour the connection relies on. *)

From S2P Require Import Prelude.
From S2P Require Import Bits.
From S2P Require Import ByteBuffer.
From S2P Require Import ByteBufferSpec.
From S2P Require Import BigNumber.

(** [rc4_keystream key i]: byte [i] of the key stream, [EVP_EncryptUpdate] xors
    the data with the next bytes of it. *)
Class Cipher := {
  rc4_keystream : list Z -> nat -> Z;
  HMAC_SHA1 : list Z -> list Z -> list Z;
  rc4_keystream_byte : forall key i, in_u 8 (rc4_keystream key i);
  HMAC_SHA1_length : forall key l, length (HMAC_SHA1 key l) = 20%nat
}.

(** A compression stream: [deflate] with [Z_SYNC_FLUSH] returns whether the code
    was [Z_OK], the output, the input left over and the stream after. *)
Class Zlib := {
  zstream : Type;
  deflateInit : zstream;
  deflateBound : zstream -> Z -> Z;
  deflate : zstream -> list Z -> Z -> bool * list Z * Z * zstream;
  uncompress : Z -> list Z -> option (list Z);
  deflate_fits : forall z l n, 0 <= n -> let '(_, output, _, _) := deflate z l n in zlen output <= n;
  deflate_bytes : forall z l n, let '(_, output, _, _) := deflate z l n in bytes output
}.

Section Crypt.
Context `{CI : Cipher}.

(* [shared/Cryptography/ARC4.h:25-35] ARC4 *)
Record ARC4 := mkARC4 {
  seed : list Z;
  position : nat
}.

(** Before [Init] the context has no key. *)
(* [shared/Cryptography/ARC4.cpp:22-27] ARC4::ARC4 *)
Definition new_ARC4 : ARC4 := mkARC4 [] 0.

(* [shared/Cryptography/ARC4.cpp:42-45] ARC4::Init *)
Definition ARC4_Init (key : list Z) : ARC4 := mkARC4 key 0.

Fixpoint xor_stream (key : list Z) (i : nat) (data : list Z) : list Z :=
  match data with
  | [] => []
  | x :: data' => Z.lxor x (rc4_keystream key i) :: xor_stream key (S i) data'
  end.

(* [shared/Cryptography/ARC4.cpp:47-52] ARC4::UpdateData *)
Definition ARC4_UpdateData (data : list Z) (c : ARC4) : list Z * ARC4 :=
  (xor_stream (seed c) (position c) data, {| c with position := (position c + length data)%nat |}).

(* [shared/Cryptography/Authentication/AuthCrypt.h:26-41] AuthCrypt *)
Record AuthCrypt := mkAuthCrypt {
  _clientDecrypt : ARC4;
  _serverEncrypt : ARC4;
  _initialized : bool
}.

(* [shared/Cryptography/Authentication/AuthCrypt.cpp:23-26] AuthCrypt::AuthCrypt *)
Definition new_AuthCrypt : AuthCrypt := mkAuthCrypt new_ARC4 new_ARC4 false.

Definition ServerEncryptionKey : list Z :=
  [0xCC; 0x98; 0xAE; 0x04; 0xE8; 0x97; 0xEA; 0xCA; 0x12; 0xDD; 0xC0; 0x93; 0x42; 0x91; 0x53; 0x57].
Definition ServerDecryptionKey : list Z :=
  [0xC2; 0xB3; 0x72; 0x3C; 0xC6; 0xAE; 0xD9; 0xB5; 0x34; 0x3C; 0x53; 0xEE; 0x2F; 0x43; 0x67; 0xCE].

(* [shared/Cryptography/HMACSHA1.cpp:46-51] HmacHash::ComputeHash *)
Definition ComputeHash (key : list Z) (K : Z) : list Z := HMAC_SHA1 key (AsByteArray K 0).

(** Both streams drop their first 1024 bytes. *)
(* [shared/Cryptography/Authentication/AuthCrypt.cpp:33-61] AuthCrypt::Init *)
Definition AuthCrypt_Init (K : Z) : AuthCrypt :=
  let encryptHash := ComputeHash ServerEncryptionKey K in
  let decryptHash := ComputeHash ServerDecryptionKey K in
  let syncBuf := replicate 1024 0 in
  let serverEncrypt := (ARC4_UpdateData syncBuf (ARC4_Init encryptHash)).2 in
  let clientDecrypt := (ARC4_UpdateData syncBuf (ARC4_Init decryptHash)).2 in
  mkAuthCrypt clientDecrypt serverEncrypt true.

(* [shared/Cryptography/Authentication/AuthCrypt.cpp:63-69] AuthCrypt::DecryptRecv *)
Definition DecryptRecv (data : list Z) (c : AuthCrypt) : list Z * AuthCrypt :=
  if negb (_initialized c) then (data, c) else
  let '(data, d) := ARC4_UpdateData data (_clientDecrypt c) in
  (data, {| c with _clientDecrypt := d |}).

(* [shared/Cryptography/Authentication/AuthCrypt.cpp:71-77] AuthCrypt::EncryptSend *)
Definition EncryptSend (data : list Z) (c : AuthCrypt) : list Z * AuthCrypt :=
  if negb (_initialized c) then (data, c) else
  let '(data, d) := ARC4_UpdateData data (_serverEncrypt c) in
  (data, {| c with _serverEncrypt := d |}).

(** ** The stream as its receiver sees it *)

Lemma xor_stream_app key i l1 l2 :
  xor_stream key i (l1 ++ l2) = xor_stream key i l1 ++ xor_stream key (i + length l1) l2.
Proof.
  revert i. induction l1 as [|x l1 IH]; intros i; cbn; [by rewrite Nat.add_0_r|].
  by rewrite IH, Nat.add_succ_r.
Qed.

Lemma length_xor_stream key i l : length (xor_stream key i l) = length l.
Proof. revert i. induction l as [|x l IH]; intros i; cbn; [done|by rewrite IH]. Qed.

Lemma xor_stream_involutive key i l : xor_stream key i (xor_stream key i l) = l.
Proof.
  revert i. induction l as [|x l IH]; intros i; cbn; [done|].
  by rewrite IH, Z.lxor_assoc, Z.lxor_nilpotent, Z.lxor_0_r.
Qed.

Lemma xor_stream_bytes key i l : bytes l -> bytes (xor_stream key i l).
Proof.
  intros Hl. revert i. induction Hl as [|x l Hx _ IH]; intros i; cbn; constructor; [|apply IH].
  by apply lxor_range; [lia| |apply rc4_keystream_byte].
Qed.

(** What a key stream does to data, whether it is on or not. *)
Definition crypt_stream (on : bool) (c : ARC4) (data : list Z) : list Z :=
  if on then xor_stream (seed c) (position c) data else data.

Lemma crypt_stream_involutive on c l : crypt_stream on c (crypt_stream on c l) = l.
Proof. destruct on; [apply xor_stream_involutive|done]. Qed.

Lemma length_crypt_stream on c l : length (crypt_stream on c l) = length l.
Proof. destruct on; [apply length_xor_stream|done]. Qed.

Lemma EncryptSend_eq data c :
  EncryptSend data c =
    (crypt_stream (_initialized c) (_serverEncrypt c) data,
     {| c with _serverEncrypt := if _initialized c
          then {| (_serverEncrypt c) with position := (position (_serverEncrypt c) + length data)%nat |}
          else _serverEncrypt c |}).
Proof. unfold EncryptSend, crypt_stream. by destruct c as [d e []]. Qed.

Lemma DecryptRecv_eq data c :
  DecryptRecv data c =
    (crypt_stream (_initialized c) (_clientDecrypt c) data,
     {| c with _clientDecrypt := if _initialized c
          then {| (_clientDecrypt c) with position := (position (_clientDecrypt c) + length data)%nat |}
          else _clientDecrypt c |}).
Proof. unfold DecryptRecv, crypt_stream. by destruct c as [d e []]. Qed.
End Crypt.

(** ** Concrete instances

    Stand-ins for the libraries: the theorems hold for any that keep the laws. *)

#[refine] Definition demo_Cipher : Cipher := {|
  rc4_keystream key i := (le_value key + Z.of_nat i) mod 256;
  HMAC_SHA1 key l := take 20 (l ++ replicate 20 0)
|}.
Proof.
  - intros key i. apply Z.mod_pos_bound. lia.
  - intros key l. rewrite length_take, length_app, length_replicate. lia.
Defined.

(** Nothing gets smaller: the bytes themselves, as many as fit. *)
#[refine] Definition demo_Zlib : Zlib := {|
  zstream := unit;
  deflateInit := tt;
  deflateBound _ n := n;
  deflate z l n := (true, map u8 (take (Z.to_nat n) l), zlen (drop (Z.to_nat n) l), z);
  uncompress n l := Some (take (Z.to_nat n) l)
|}.
Proof.
  - intros z l n Hn. unfold zlen. rewrite length_map, length_take. lia.
  - intros z l n. apply Forall_forall. intros x Hx. apply list_elem_of_In, in_map_iff in Hx as (y & <- & _).
    apply wrap_range. lia.
Defined.
