(* ===== verification/WorldSocket.v ===== *)
(** * WorldSocket: the game server's end of a client connection
      (src/src/server/game/Server/WorldSocket.cpp, WorldSocket.h)

    Framing, compression and header encryption of what is sent, the output
    buffer and queue, reassembly of what is received, authentication against
    the session key the login server saved, and the dispatch of packets to the
    session.  A method that returns [int] returns it; [Throw] is a C++ exception,
    a failed assertion or an access outside an object. *)

From S2P Require Import Prelude.
From S2P Require Import Bits.
From S2P Require Import ByteBuffer.
From S2P Require Import ByteBufferSpec.
From S2P Require Import BigNumber.
From S2P Require Import WorldCrypt.

(** ** Opcodes *)

(* [game/Server/Protocol/Opcodes.h:29-35] Opcodes *)
Definition NUM_OPCODE_HANDLERS := 0xFFFF.
Definition COMPRESSED_OPCODE_MASK := 0x8000.
Definition CMSG_AUTH_SESSION := 0x0449.
Definition CMSG_KEEP_ALIVE := 0x0015.
Definition CMSG_LOG_DISCONNECT := 0x446D.
Definition CMSG_PING := 0x444D.
Definition CMSG_ENABLE_NAGLE := 0x4449.
Definition MSG_VERIFY_CONNECTIVITY := 0x4F57.
Definition SMSG_AUTH_CHALLENGE := 0x4542.
Definition SMSG_AUTH_RESPONSE := 0x5DB6.
Definition SMSG_MOTD := 0x0A35.
Definition SMSG_PONG := 0x4D42.

(* [game/Server/Protocol/Opcodes.h:1284-1292] SessionStatus *)
Inductive SessionStatus :=
| STATUS_AUTHED
| STATUS_LOGGEDIN
| STATUS_TRANSFER
| STATUS_LOGGEDIN_OR_RECENTLY_LOGGOUT
| STATUS_NEVER
| STATUS_UNHANDLED.

#[export] Instance SessionStatus_eq_dec : EqDecision SessionStatus.
Proof. solve_decision. Defined.

(* [game/Miscellaneous/SharedDefines.h:3514-3530] ResponseCodes *)
Definition AUTH_FAILED := 13.
Definition AUTH_REJECT := 14.
Definition AUTH_UNAVAILABLE := 16.
Definition AUTH_UNKNOWN_ACCOUNT := 21.
Definition AUTH_BANNED := 28.

(* [game/Server/WorldSession.h:188-188] PacketFilter::DropHighBytes *)
Definition DropHighBytes (opcode : Z) : Z := Z.land opcode 0xFFFF.

(* [game/Server/WorldPacket.h:28-57] WorldPacket *)
Record WorldPacket := mkPacket {
  m_opcode : Z;
  contents : ByteBuffer
}.

(** A packet whose storage was filled from outside, as the socket does. *)
Definition packet_of (opcode : Z) (data : list Z) : WorldPacket :=
  mkPacket opcode (mkByteBuffer data 0 (zlen data) 8).

(** ** What the socket asks of the session

    The session lives in the world thread; the socket creates it, hands it
    packets and resets its timers. *)
Class SessionInterface := {
  session : Type;
  new_session : Z -> Z -> bool -> Z -> Z -> Z -> Z -> session;
  QueuePacket : WorldPacket -> session -> session;
  ResetTimeOutTime : session -> session;
  SetLatency : Z -> session -> session;
  ReadAddonsInfo : list Z -> session -> result bb_exn unit * session;
  GetSecurity : session -> Z;
  GetAccountId : session -> Z;
  queued : session -> list WorldPacket;
  session_ok : session -> Prop;
  queued_new : forall id sec premium exp mute loc rec,
    let x := new_session id sec premium exp mute loc rec in session_ok x /\ queued x = [];
  queued_QueuePacket : forall p x, session_ok x ->
    session_ok (QueuePacket p x) /\ queued (QueuePacket p x) = queued x ++ [p];
  queued_ResetTimeOutTime : forall x, session_ok x ->
    session_ok (ResetTimeOutTime x) /\ queued (ResetTimeOutTime x) = queued x;
  queued_SetLatency : forall l x, session_ok x -> session_ok (SetLatency l x) /\ queued (SetLatency l x) = queued x;
  queued_ReadAddonsInfo : forall d x, session_ok x ->
    session_ok (ReadAddonsInfo d x).2 /\ queued (ReadAddonsInfo d x).2 = queued x;
  account_new : forall id sec premium exp mute loc rec,
    GetAccountId (new_session id sec premium exp mute loc rec) = id;
  account_QueuePacket : forall p x, GetAccountId (QueuePacket p x) = GetAccountId x;
  account_ResetTimeOutTime : forall x, GetAccountId (ResetTimeOutTime x) = GetAccountId x;
  account_SetLatency : forall l x, GetAccountId (SetLatency l x) = GetAccountId x;
  account_ReadAddonsInfo : forall d x, GetAccountId (ReadAddonsInfo d x).2 = GetAccountId x
}.

(** ** Headers *)

(* [game/Server/WorldSocket.cpp:57-91] ServerPktHeader *)
Definition isLargePacket (size : Z) : bool := 0x7FFF <? size.

(* [game/Server/WorldSocket.cpp:62-75] ServerPktHeader::ServerPktHeader *)
Definition ServerPktHeader (size cmd : Z) : list Z :=
  (if isLargePacket size then [u8 (Z.lor 0x80 (Z.land 0xFF (Z.shiftr size 16)))] else [])
  ++ [Z.land 0xFF (Z.shiftr size 8); Z.land 0xFF size; Z.land 0xFF cmd; Z.land 0xFF (Z.shiftr cmd 8)].

(** The first two bytes are the size, most significant first; the command is
    least significant first. *)
(* [game/Server/WorldSocket.cpp:92-96] ClientPktHeader *)
Definition sizeof_ClientPktHeader : nat := 6.
Definition client_size (h : list Z) : Z := le_value (rev (take 2 h)).
Definition client_cmd (h : list Z) : Z := le_value (take 4 (drop 2 h)).

(** ** State *)

(** A block of ACE's message queue: its capacity, which the queue's byte count
    uses, and the bytes not yet sent. *)
Record Block := mkBlock {
  mb_size : Z;
  mb_data : list Z
}.

Section Socket.
Context `{CI : Cipher, ZI : Zlib, SI : OpenSSL, WI : SessionInterface}.

Inductive sock_event :=
| EvPacket (opcode : Z) (payload : list Z)      (* accepted by SendPacket *)
| EvResize (n : Z)                              (* a buffer resized as the client asks *)
| EvSetMuteTime (mutetime id : Z)
| EvSetLastIp (address account : list Z)
| EvAddSession (id : Z).

(* [game/Server/WorldSocket.h:171-214] WorldSocket *)
Record WorldSocket := mkSocket {
  m_LastPingTime : Z;                  (* ACE_Time_Value, in microseconds *)
  m_OverSpeedPings : Z;                (* uint32 *)
  m_Address : list Z;
  m_Crypt : AuthCrypt;
  m_Session : option session;
  m_RecvWPct : option Z;               (* opcode of the packet being received *)
  m_RecvPct_size : Z;                  (* its payload size, *)
  m_RecvPct : list Z;                  (* and what of it has arrived *)
  m_Header : list Z;
  m_OutBuffer : option (list Z);       (* unsent bytes, at the base of the block *)
  m_OutBufferSize : Z;
  msg_queue : list Block;
  m_OutActive : bool;
  m_Seed : Z;
  m_zstream : zstream;
  closing_ : bool;
  sent : list Z;                       (* bytes the kernel took *)
  events : list sock_event
}.

Abbreviation Sock := (M WorldSocket bb_exn).

(* [game/Server/WorldSocket.cpp:104-126] WorldSocket::WorldSocket *)
Definition new_WorldSocket (rand32 : Z) : WorldSocket :=
  mkSocket 0 0 [] new_AuthCrypt None None 0 [] [] None 65536 [] false (u32 rand32) deflateInit false [] [].

(** What an account row of the login database holds. *)
Record AccountRow := mkAccount {
  acc_id : Z;
  acc_sessionkey : list Z;
  acc_last_ip : list Z;
  acc_locked : Z;
  acc_mutetime : Z;            (* int64 *)
  acc_locale : Z;
  acc_recruiter : Z
}.

(** Database answers, configuration, clock and opcode table while one call runs. *)
Record WorldEnv := mkWorldEnv {
  IsClosed : bool;
  EscapeString : list Z -> list Z;
  sel_account : list Z -> option AccountRow;
  sel_gmlevel : Z -> option Z;
  sel_banned : Z -> bool;
  sel_premium : Z -> bool;
  PlayerSecurityLimit : Z;
  CONFIG_EXPANSION : Z;
  CONFIG_MAX_OVERSPEED_PINGS : Z;
  time_now : Z;
  gettimeofday : Z;
  opcodeTable : Z -> option SessionStatus;
  rand_seed1 : Z;
  rand_seed2 : Z
}.

Definition add_event (e : sock_event) (s : WorldSocket) : WorldSocket := {| s with events := events s ++ [e] |}.
Definition log_event (e : sock_event) : Sock unit := modify (add_event e).

(** ** Output *)

(* [game/Server/WorldSocket.cpp:191-233] WorldSocket::SendPacket *)
Definition compress_packet (z : zstream) (opcode : Z) (payload : list Z) : Z * list Z * zstream :=
  let size := zlen payload in
  if (45 <=? size) && negb (opcode =? MSG_VERIFY_CONNECTIVITY) && negb (opcode =? SMSG_MOTD) then
    let '(ok, output, avail_in, z) := deflate z payload (deflateBound z size) in
    if negb ok then (opcode, payload, z)
    else if negb (avail_in =? 0) then (opcode, payload, z)
    else (Z.lor opcode COMPRESSED_OPCODE_MASK, le_bytes 4 size ++ output, z)
  else (opcode, payload, z).

(** The bytes of a packet on the wire. *)
(* [game/Server/WorldSocket.cpp:191-236] WorldSocket::SendPacket *)
Definition frame (opcode : Z) (payload : list Z) (s : WorldSocket) : list Z * WorldSocket :=
  let '(opcode, payload, z) := compress_packet (m_zstream s) opcode payload in
  let header := ServerPktHeader (u32 (zlen payload + 2)) (u16 opcode) in
  let '(header, crypt) := EncryptSend header (m_Crypt s) in
  (header ++ payload, {| s with m_zstream := z; m_Crypt := crypt |}).

(** [ACE_Message_Queue]: both ends refuse when the capacities of the queued
    blocks reach the high water mark. *)
Definition high_water_mark : Z := 8 * 1024 * 1024.
Definition cur_bytes (q : list Block) : Z := foldr Z.add 0 (map mb_size q).
Definition is_full (q : list Block) : bool := high_water_mark <=? cur_bytes q.

(* [game/Server/WorldSocket.cpp:238-268] WorldSocket::SendPacket *)
Definition enqueue_output (data : list Z) (s : WorldSocket) : result bb_exn Z * WorldSocket :=
  match m_OutBuffer s with
  | None => (Throw OutOfBounds, s)
  | Some out =>
    if (zlen data <=? m_OutBufferSize s - zlen out) && (zlen (msg_queue s) =? 0)
    then (Ok 0, {| s with m_OutBuffer := Some (out ++ data) |})
    else if is_full (msg_queue s) then (Ok (-1), s)
    else (Ok 0, {| s with msg_queue := msg_queue s ++ [mkBlock (zlen data) data] |})
  end.

(* [game/Server/WorldSocket.cpp:176-269] WorldSocket::SendPacket *)
Definition SendPacket (opcode : Z) (payload : list Z) : Sock Z := fun s =>
  if has_flag opcode COMPRESSED_OPCODE_MASK then (Throw AssertFailed, s)
  else if closing_ s then (Ok (-1), s)
  else
    let s := add_event (EvPacket opcode payload) s in
    let '(data, s) := frame opcode payload s in
    enqueue_output data s.

(* [game/Server/WorldSocket.cpp:152-169] WorldSocket::CloseSocket *)
Definition CloseSocket (s : WorldSocket) : WorldSocket :=
  if closing_ s then s else {| s with closing_ := true; m_Session := None |}.

(* [game/Server/WorldSocket.cpp:332-341] WorldSocket::close *)
Definition close (s : WorldSocket) : WorldSocket := {| s with closing_ := true |}.

(* [game/Server/WorldSocket.cpp:486-507] WorldSocket::handle_close *)
Definition handle_close (s : WorldSocket) : WorldSocket :=
  {| s with closing_ := true; m_Session := None |}.

(** What [send] on the peer returns: bytes taken, EWOULDBLOCK, or an error. *)
Inductive send_result := Sent (n : Z) | WouldBlock | SendError.

(** [reactor_ok]: the reactor's answer to [cancel_wakeup] or [schedule_wakeup]. *)
(* [game/Server/WorldSocket.cpp:680-698] WorldSocket::cancel_wakeup_output *)
Definition cancel_wakeup_output (reactor_ok : bool) (s : WorldSocket) : Z * WorldSocket :=
  if negb (m_OutActive s) then (0, s)
  else (if reactor_ok then 0 else -1, {| s with m_OutActive := false |}).

(* [game/Server/WorldSocket.cpp:700-717] WorldSocket::schedule_wakeup_output *)
Definition schedule_wakeup_output (reactor_ok : bool) (s : WorldSocket) : Z * WorldSocket :=
  if m_OutActive s then (0, s)
  else (if reactor_ok then 0 else -1, {| s with m_OutActive := true |}).

Definition WRITE_MASK := 2.

(** The result of putting an unsent block back is only looked at after a
    partial write. *)
(* [game/Server/WorldSocket.cpp:425-484] WorldSocket::handle_output_queue *)
Definition handle_output_queue (r : send_result) (reactor_ok : bool) (s : WorldSocket) : Z * WorldSocket :=
  match msg_queue s with
  | [] => cancel_wakeup_output reactor_ok s
  | mblk :: queue =>
    let send_len := zlen (mb_data mblk) in
    let s := {| s with msg_queue := queue |} in
    match r with
    | SendError => (-1, s)
    | WouldBlock =>
      let s := if is_full queue then s else {| s with msg_queue := mblk :: queue |} in
      schedule_wakeup_output reactor_ok s
    | Sent n =>
      let n := Z.min n send_len in
      if n <=? 0 then (-1, s)
      else
        let s := {| s with sent := sent s ++ take (Z.to_nat n) (mb_data mblk) |} in
        if n <? send_len then
          if is_full queue then (-1, s)
          else schedule_wakeup_output reactor_ok
                 {| s with msg_queue := mkBlock (mb_size mblk) (drop (Z.to_nat n) (mb_data mblk)) :: queue |}
        else match queue with
             | [] => cancel_wakeup_output reactor_ok s
             | _ => (WRITE_MASK, s)
             end
    end
  end.

(** [r1] answers the send of the buffer, [r2] that of the queue. *)
(* [game/Server/WorldSocket.cpp:379-423] WorldSocket::handle_output *)
Definition handle_output (r1 r2 : send_result) (reactor_ok : bool) (s : WorldSocket)
    : result bb_exn Z * WorldSocket :=
  if closing_ s then (Ok (-1), s)
  else match m_OutBuffer s with
  | None => (Throw OutOfBounds, s)
  | Some out =>
    let send_len := zlen out in
    let ok p := (Ok p.1, p.2) in
    if send_len =? 0 then ok (handle_output_queue r2 reactor_ok s)
    else match r1 with
    | SendError => (Ok (-1), s)
    | WouldBlock => ok (schedule_wakeup_output reactor_ok s)
    | Sent n =>
      let n := Z.min n send_len in
      if n <=? 0 then (Ok (-1), s)
      else
        let s := {| s with sent := sent s ++ take (Z.to_nat n) out |} in
        if n <? send_len
        then ok (schedule_wakeup_output reactor_ok {| s with m_OutBuffer := Some (drop (Z.to_nat n) out) |})
        else ok (handle_output_queue r2 reactor_ok {| s with m_OutBuffer := Some [] |})
    end
  end.

(** [rs]: for each turn what the two sends return. *)
Fixpoint Update_loop (fuel : nat) (rs : list (send_result * send_result)) (reactor_ok : bool)
    (s : WorldSocket) : option (result bb_exn Z) * WorldSocket :=
  match fuel with
  | O => (None, s)
  | S fuel' =>
    let '(r1, r2) := hd (WouldBlock, WouldBlock) rs in
    match handle_output r1 r2 reactor_ok s with
    | (Ok ret, s') => if 0 <? ret then Update_loop fuel' (tl rs) reactor_ok s' else (Some (Ok ret), s')
    | (Throw e, s') => (Some (Throw e), s')
    end
  end.

(** Each turn but the last takes a block off the queue. *)
(* [game/Server/WorldSocket.cpp:509-523] WorldSocket::Update *)
Definition Update (rs : list (send_result * send_result)) (reactor_ok : bool) (s : WorldSocket)
    : option (result bb_exn Z) * WorldSocket :=
  if closing_ s then (Some (Ok (-1)), s)
  else if m_OutActive s then (Some (Ok 0), s)
  else match m_OutBuffer s with
  | None => (Some (Throw OutOfBounds), s)
  | Some out =>
    if (zlen out =? 0) && (zlen (msg_queue s) =? 0) then (Some (Ok 0), s)
    else Update_loop (S (length (msg_queue s))) rs reactor_ok s
  end.

(** ** The handshake *)

(** "RLD OF WARCRAFT CONNECTION - SERVER TO CLIENT" *)
Definition server_greeting : list Z :=
  [82;76;68;32;79;70;32;87;65;82;67;82;65;70;84;32;67;79;78;78;69;67;84;73;79;78;32;45;32;
   83;69;82;86;69;82;32;84;79;32;67;76;73;69;78;84].
(** "D OF WARCRAFT CONNECTION - CLIENT TO SERVER" *)
Definition client_greeting : list Z :=
  [68;32;79;70;32;87;65;82;67;82;65;70;84;32;67;79;78;78;69;67;84;73;79;78;32;45;32;
   67;76;73;69;78;84;32;84;79;32;83;69;82;86;69;82].

(** The payload a packet builder leaves. *)
Definition built (p : BB unit) : list Z := _storage (p new_ByteBuffer).2.

(** [remote]: the peer's address; [OnSocketOpen], which sets socket options, is
    taken to succeed. *)
(* [game/Server/WorldSocket.cpp:281-330] WorldSocket::open *)
Definition open (outBufferSize : Z) (remote : option (list Z)) (reactor_ok : bool) : Sock Z := fun s =>
  match m_OutBuffer s with
  | Some _ => (Ok (-1), s)
  | None =>
    let s := {| s with m_OutActive := true; m_OutBufferSize := outBufferSize; m_OutBuffer := Some [] |} in
    match remote with
    | None => (Ok (-1), s)
    | Some address =>
      (r ← SendPacket MSG_VERIFY_CONNECTIVITY (built (put_string server_greeting));
       mret (if r =? -1 then -1 else if reactor_ok then 0 else -1))
        {| s with m_Address := address |}
    end
  end.

(** The two random numbers are sent as 16 bytes each. *)
(* [game/Server/WorldSocket.cpp:814-828] WorldSocket::HandleSendAuthSession *)
Definition HandleSendAuthSession (env : WorldEnv) : Sock Z :=
  s ← get;
  SendPacket SMSG_AUTH_CHALLENGE (built (
    append (take 16 (AsByteArray (rand_seed1 env) 16)) ;;
    append (take 16 (AsByteArray (rand_seed2 env) 16)) ;;
    put_uint32 (m_Seed s) ;; put_uint8 1)).

(** What the client sends to authenticate. *)
Record AuthRequest := mkAuthRequest {
  rq_digest : list Z;
  rq_clientSeed : Z;
  rq_addons : list Z;
  rq_account : list Z
}.

(** [addonSize] is what the client says: the buffer is resized before the
    packet is known to hold as much. *)
(* [game/Server/WorldSocket.cpp:844-880] WorldSocket::HandleAuthSession *)
Definition read_auth_fixed : BB (list Z * Z * Z) :=
  read_skip 4 ;; read_skip 4 ;; read_skip 1 ;;
  d10 ← get_uint8; d18 ← get_uint8; d12 ← get_uint8; d5 ← get_uint8;
  read_skip 8 ;;
  d15 ← get_uint8; d9 ← get_uint8; d19 ← get_uint8; d4 ← get_uint8; d7 ← get_uint8;
  d16 ← get_uint8; d3 ← get_uint8;
  clientBuild ← get_uint16;
  d8 ← get_uint8;
  read_skip 4 ;; read_skip 1 ;;
  d17 ← get_uint8; d6 ← get_uint8; d0 ← get_uint8; d1 ← get_uint8; d11 ← get_uint8;
  clientSeed ← get_uint32;
  d2 ← get_uint8;
  read_skip 4 ;;
  d14 ← get_uint8; d13 ← get_uint8;
  addonSize ← get_uint32;
  mret ([d0; d1; d2; d3; d4; d5; d6; d7; d8; d9; d10; d11; d12; d13; d14; d15; d16; d17; d18; d19],
        clientSeed, addonSize).

Definition read_auth_rest (addonSize : Z) : BB (list Z * list Z) :=
  addonsData ← read_bytes addonSize;
  _ ← ReadBit;
  accountNameLength ← ReadBits 12;
  account ← read_bytes accountNameLength;
  mret (addonsData, account).

(** Parsing happens on the packet; the socket sees the exception and the resize. *)
Definition parse {A} (p : BB A) (b : ByteBuffer) : Sock (A * ByteBuffer) := fun s =>
  match p b with
  | (Ok a, b') => (Ok (a, b'), s)
  | (Throw e, _) => (Throw e, s)
  end.

Definition read_auth_request (b : ByteBuffer) : Sock AuthRequest :=
  r ← parse read_auth_fixed b;
  let '(digest, clientSeed, addonSize, b) := r in
  log_event (EvResize addonSize) ;;
  r ← parse (read_auth_rest addonSize) b;
  let '(addons, account, _) := r in
  mret (mkAuthRequest digest clientSeed addons account).

(** Two bits and a code; [SendPacket]'s own result is not looked at. *)
Definition auth_response (info : bool) (code : Z) : Sock Z :=
  _ ← SendPacket SMSG_AUTH_RESPONSE (built (WriteBit false ;; WriteBit info ;; put_uint8 code));
  mret (-1).

(** What the client and the server hash. *)
(* [game/Server/WorldSocket.cpp:1046-1054] WorldSocket::HandleAuthSession *)
Definition auth_digest (account : list Z) (clientSeed seed : Z) (k : Z) : list Z :=
  SHA1 (account ++ le_bytes 4 0 ++ le_bytes 4 clientSeed ++ le_bytes 4 seed ++ UpdateBigNumbers [k]).

(** A string of a query built with [c_str()] ends at the first NUL. *)
Definition c_str (str : list Z) : list Z := until_nul str.

(** The account is known and may play here: create the session. *)
(* [game/Server/WorldSocket.cpp:1070-1113] WorldSocket::HandleAuthSession *)
Definition admit_session (env : WorldEnv) (rq : AuthRequest) (row : AccountRow) (security mutetime locale k : Z)
    : Sock Z :=
  s ← get;
  log_event (EvSetLastIp (c_str (EscapeString env (m_Address s))) (c_str (EscapeString env (rq_account rq)))) ;;
  let expansion := if CONFIG_EXPANSION env <? 3 then u8 (CONFIG_EXPANSION env) else 3 in
  let x := new_session (acc_id row) security (sel_premium env (acc_id row)) expansion mutetime locale
             (acc_recruiter row) in
  modify (fun s => {| s with m_Session := Some x; m_Crypt := AuthCrypt_Init k |}) ;;
  (let '(r, x) := ReadAddonsInfo (rq_addons rq) x in
   modify (fun s => {| s with m_Session := Some x |}) ;;
   match r with
   | Throw e => throw e
   | Ok _ => log_event (EvAddSession (acc_id row)) ;; mret 0
   end).

(* [game/Server/WorldSocket.cpp:882-1114] WorldSocket::HandleAuthSession *)
Definition check_account (env : WorldEnv) (rq : AuthRequest) : Sock Z :=
  s ← get;
  if IsClosed env then auth_response false AUTH_REJECT
  else match sel_account env (c_str (EscapeString env (rq_account rq))) with
  | None => auth_response true AUTH_UNKNOWN_ACCOUNT
  | Some row =>
    if (acc_locked row =? 1) && negb (bool_decide (acc_last_ip row = c_str (m_Address s)))
    then auth_response false AUTH_FAILED
    else
      let id := acc_id row in
      let k := SetHexStr 0 (acc_sessionkey row) in
      let muted := acc_mutetime row <? 0 in
      let mutetime := if muted then i64 (time_now env + Z.abs (acc_mutetime row)) else acc_mutetime row in
      (if muted then log_event (EvSetMuteTime mutetime id) else mret tt) ;;
      let locale := if 9 <=? acc_locale row then 0 else acc_locale row in
      let security := default 0 (sel_gmlevel env id) in
      if sel_banned env id then auth_response false AUTH_BANNED
      else if (0 <? PlayerSecurityLimit env) && (security <? PlayerSecurityLimit env)
      then auth_response false AUTH_UNAVAILABLE
      else if negb (bool_decide (auth_digest (rq_account rq) (rq_clientSeed rq) (m_Seed s) k = rq_digest rq))
      then auth_response false AUTH_FAILED
      else admit_session env rq row security mutetime locale k
  end.

(* [game/Server/WorldSocket.cpp:830-1114] WorldSocket::HandleAuthSession *)
Definition HandleAuthSession (env : WorldEnv) (b : ByteBuffer) : Sock Z :=
  rq ← read_auth_request b; check_account env rq.

(** Pings closer than 27 seconds count. *)
(* [game/Server/WorldSocket.cpp:1125-1153] WorldSocket::HandlePing *)
Definition count_ping (env : WorldEnv) (s : WorldSocket) : bool * WorldSocket :=
  if m_LastPingTime s =? 0 then (false, {| s with m_LastPingTime := gettimeofday env |})
  else
    let diff_time := gettimeofday env - m_LastPingTime s in
    let s := {| s with m_LastPingTime := gettimeofday env |} in
    if diff_time <? 27 * 1000000 then
      let s := {| s with m_OverSpeedPings := u32 (m_OverSpeedPings s + 1) |} in
      let max_count := CONFIG_MAX_OVERSPEED_PINGS env in
      let kick := negb (max_count =? 0) && (max_count <? m_OverSpeedPings s)
        && match m_Session s with Some x => GetSecurity x =? 0 | None => false end in
      (kick, s)
    else (false, {| s with m_OverSpeedPings := 0 |}).

Definition pong (latency ping : Z) : Sock Z := fun s =>
  match m_Session s with
  | None => (Ok (-1), s)
  | Some x =>
    SendPacket SMSG_PONG (built (put_uint32 ping)) {| s with m_Session := Some (SetLatency latency x) |}
  end.

(* [game/Server/WorldSocket.cpp:1116-1176] WorldSocket::HandlePing *)
Definition HandlePing (env : WorldEnv) (b : ByteBuffer) : Sock Z :=
  r ← parse (latency ← get_uint32; ping ← get_uint32; mret (latency, ping)) b;
  s ← get;
  let '(kick, s) := count_ping env s in
  modify (fun _ => s) ;;
  if kick then mret (-1) else pong r.1.1 r.1.2.

(** ** Input *)

(** The table has [NUM_OPCODE_HANDLERS] entries. *)
(* [game/Server/Protocol/Opcodes.h:1334-1337] OpcodeTable::operator[] *)
Definition opcode_entry (env : WorldEnv) (opcode : Z) : Sock (option SessionStatus) :=
  if opcode <? NUM_OPCODE_HANDLERS then mret (opcodeTable env opcode) else throw OutOfBounds.

(* [game/Server/WorldSocket.cpp:775-801] WorldSocket::ProcessIncoming *)
Definition dispatch (env : WorldEnv) (pct : WorldPacket) (opcode : Z) : Sock Z :=
  s ← get;
  match m_Session s with
  | None => mret (-1)
  | Some x =>
    handler ← opcode_entry env opcode;
    match handler with
    | None | Some STATUS_UNHANDLED => mret 0
    | Some _ =>
      modify (fun s => {| s with m_Session := Some (QueuePacket pct (ResetTimeOutTime x)) |}) ;; mret 0
    end
  end.

(* [game/Server/WorldSocket.cpp:738-803] WorldSocket::ProcessIncoming *)
Definition process_opcode (env : WorldEnv) (pct : WorldPacket) (opcode : Z) : Sock Z :=
  s ← get;
  let b := contents pct in
  if opcode =? CMSG_PING then HandlePing env b
  else if opcode =? CMSG_AUTH_SESSION then
    match m_Session s with Some _ => mret (-1) | None => HandleAuthSession env b end
  else if opcode =? CMSG_KEEP_ALIVE then mret 0
  else if opcode =? CMSG_LOG_DISCONNECT then mret 0
  else if opcode =? MSG_VERIFY_CONNECTIVITY then
    r ← parse get_string b;
    if bool_decide (r.1 = client_greeting) then HandleSendAuthSession env else mret (-1)
  else if opcode =? CMSG_ENABLE_NAGLE then
    mret (match m_Session s with Some _ => 0 | None => -1 end)
  else dispatch env pct opcode.

(** [ByteBufferException] is caught; nothing else is. *)
(* [game/Server/WorldSocket.cpp:719-812] WorldSocket::ProcessIncoming *)
Definition ProcessIncoming (env : WorldEnv) (pct : WorldPacket) : Sock Z := fun s =>
  let opcode := DropHighBytes (m_opcode pct) in
  if closing_ s then (Ok (-1), s)
  else match process_opcode env pct opcode s with
  | (Throw (ByteBufferException _ _ _ _), s') => (Ok (-1), s')
  | r => r
  end.

(* [game/Server/WorldSocket.cpp:525-566] WorldSocket::handle_input_header *)
Definition handle_input_header : Sock Z := fun s =>
  match m_RecvWPct s with
  | Some _ => (Throw AssertFailed, s)
  | None =>
    if negb (length (m_Header s) =? sizeof_ClientPktHeader)%nat then (Throw AssertFailed, s)
    else
      let '(header, crypt) := DecryptRecv (m_Header s) (m_Crypt s) in
      let s := {| s with m_Header := header; m_Crypt := crypt |} in
      let size := client_size header in
      let cmd := client_cmd header in
      if (size <? 4) || (10240 <? size) || ((0xFFFF <? cmd) && negb (Z.shiftr cmd 16 =? 0x4C52))
      then (Ok (-1), s)
      else (Ok 0, {| s with m_RecvWPct := Some (DropHighBytes cmd);
                      m_RecvPct_size := size - 4; m_RecvPct := [] |})
  end.

Definition payload_space (s : WorldSocket) : Z := m_RecvPct_size s - zlen (m_RecvPct s).
Definition header_space (s : WorldSocket) : nat := (sizeof_ClientPktHeader - length (m_Header s))%nat.

(* [game/Server/WorldSocket.cpp:568-589] WorldSocket::handle_input_payload *)
Definition handle_input_payload (env : WorldEnv) : Sock Z := fun s =>
  match m_RecvWPct s with
  | None => (Throw AssertFailed, s)
  | Some opcode =>
    if negb (payload_space s =? 0) || negb (header_space s =? 0)%nat then (Throw AssertFailed, s)
    else
      match ProcessIncoming env (packet_of opcode (m_RecvPct s)) s with
      | (Ok ret, s') =>
        (Ok ret, {| s' with m_RecvPct := []; m_RecvPct_size := 0; m_RecvWPct := None; m_Header := [] |})
      | r => r
      end
  end.

(** How reading ends: everything used, more to come for a packet begun, or a
    connection to be closed. *)
Inductive input_result := AllUsed | NeedMore | Malformed.

(** [m_Header.copy] and [m_RecvPct.copy]. *)
Definition copy_header (l : list Z) (s : WorldSocket) : WorldSocket := {| s with m_Header := m_Header s ++ l |}.
Definition copy_payload (l : list Z) (s : WorldSocket) : WorldSocket := {| s with m_RecvPct := m_RecvPct s ++ l |}.

(** The payload part of a turn of the reading loop; the list is what is left of
    the bytes received. *)
(* [game/Server/WorldSocket.cpp:642-674] WorldSocket::handle_input_missing_data *)
Definition input_payload (env : WorldEnv) (msg : list Z) : Sock (input_result * list Z) := fun s =>
  match m_RecvWPct s with
  | None => (Ok (Malformed, msg), s)
  | Some _ =>
    let to_data := Nat.min (Z.to_nat (payload_space s)) (length msg) in
    let s := copy_payload (take to_data msg) s in
    let msg := drop to_data msg in
    if 0 <? payload_space s then
      (if negb (length msg =? 0)%nat then Throw AssertFailed else Ok (NeedMore, []), s)
    else
      match handle_input_payload env s with
      | (Throw e, s) => (Throw e, s)
      | (Ok ret, s) => (Ok (if ret =? -1 then Malformed else AllUsed, msg), s)
      end
  end.

(* [game/Server/WorldSocket.cpp:619-674] WorldSocket::handle_input_missing_data *)
Definition input_turn (env : WorldEnv) (msg : list Z) : Sock (input_result * list Z) := fun s =>
  if (header_space s =? 0)%nat then input_payload env msg s
  else
    let to_header := Nat.min (header_space s) (length msg) in
    let s := copy_header (take to_header msg) s in
    let msg := drop to_header msg in
    if negb (header_space s =? 0)%nat then
      (if negb (length msg =? 0)%nat then Throw AssertFailed else Ok (NeedMore, []), s)
    else
      match handle_input_header s with
      | (Throw e, s) => (Throw e, s)
      | (Ok ret, s) => if ret =? -1 then (Ok (Malformed, msg), s) else input_payload env msg s
      end.

(** Each turn uses up at least a byte. *)
(* [game/Server/WorldSocket.cpp:617-675] WorldSocket::handle_input_missing_data *)
Fixpoint input_loop (fuel : nat) (env : WorldEnv) (msg : list Z) (s : WorldSocket)
    : option (result bb_exn input_result) * WorldSocket :=
  match msg with
  | [] => (Some (Ok AllUsed), s)
  | _ =>
    match fuel with
    | O => (None, s)
    | S fuel' =>
      match input_turn env msg s with
      | (Ok (AllUsed, msg), s) => input_loop fuel' env msg s
      | (Ok (r, _), s) => (Some (Ok r), s)
      | (Throw e, s) => (Some (Throw e), s)
      end
    end
  end.

(* [game/Server/WorldSocket.cpp:591-678] WorldSocket::handle_input_missing_data *)
Definition handle_input_missing_data (env : WorldEnv) (received : list Z) (s : WorldSocket)
    : option (result bb_exn input_result) * WorldSocket :=
  input_loop (length received) env received s.

(** [received]: what [recv] on the peer returns, at most 4096 bytes, or that the
    peer has closed, has nothing, or failed. *)
Inductive recv_result := Received (l : list Z) | RecvNothing | RecvClosed | RecvError.

(** -1: the reactor calls [handle_close]. *)
(* [game/Server/WorldSocket.cpp:343-377] WorldSocket::handle_input *)
Definition handle_input (env : WorldEnv) (r : recv_result) (rs : list (send_result * send_result))
    (reactor_ok : bool) (s : WorldSocket) : option (result bb_exn Z) * WorldSocket :=
  if closing_ s then (Some (Ok (-1)), s)
  else match r with
  | RecvClosed | RecvError => (Some (Ok (-1)), s)
  | RecvNothing => Update rs reactor_ok s
  | Received l =>
    match handle_input_missing_data env l s with
    | (Some (Ok Malformed), s) => (Some (Ok (-1)), s)
    | (Some (Ok NeedMore), s) => Update rs reactor_ok s
    | (Some (Ok AllUsed), s) => if zlen l =? 4096 then (Some (Ok 1), s) else Update rs reactor_ok s
    | (Some (Throw e), s) => (Some (Throw e), s)
    | (None, s) => (None, s)
    end
  end.
End Socket.
