(* ===== verification/WorldSession.v ===== *)
(** * WorldSession: a player's session in the world
      (src/src/server/game/Server/WorldSession.cpp, WorldSession.h,
      shared/Threading/LockedQueue.h)

    The queue of packets the network thread fills and the world drains, with
    the status every packet needs, the timers, log out and the add-on lists.
    Packets are heap objects: the queue holds pointers.  What packet handlers,
    query callbacks and the log-out of a player do to the rest of the game is
    the record [World]. *)

From S2P Require Import Prelude.
From S2P Require Import Bits.
From S2P Require Import ByteBuffer.
From S2P Require Import ByteBufferSpec.
From S2P Require Import BigNumber.
From S2P Require Import WorldCrypt.
From S2P Require Import WorldSocket.

(* [game/Server/Protocol/Opcodes.h:1294-1299] PacketProcessing *)
Inductive PacketProcessing := PROCESS_INPLACE | PROCESS_THREADUNSAFE | PROCESS_THREADSAFE.

Definition CMSG_CHAR_ENUM := 0x0502.
Definition NULL_OPCODE := 0.
Definition UNKNOWN_OPCODE := NUM_OPCODE_HANDLERS.
Definition REGISTERED_ADDON_PREFIX_SOFTCAP := 64.

(* [game/Addons/AddonMgr.h:25-35] AddonInfo *)
Record AddonInfo := mkAddon {
  Name : list Z;
  Enabled : Z;
  CRC : Z;
  State : Z;
  UsePublicKeyOrCRC : bool
}.

(** The socket as the session sees it: gone, or there and closed or not. *)
Inductive session_event :=
| EvCalled (opcode : Z) (status : SessionStatus) (player : option bool) (inQueue : bool) (recently logout : bool)
| EvFreed (p : nat)
| EvSend (opcode : Z)
| EvSaveAddon (name : list Z) (crc : Z)
| EvLoggedOut (save : bool).

(* [game/Server/WorldSession.h:1088-1146] WorldSession *)
Record WorldSession := mkSession {
  _accountId : Z;
  _security : Z;
  _ispremium : bool;
  m_expansion : Z;
  m_muteTime : Z;
  m_locale : Z;
  recruiterId : Z;
  m_timeOutTime : Z;
  m_latency : Z;
  m_inQueue : bool;
  m_playerLoading : bool;
  m_playerLogout : bool;
  m_playerSave : bool;
  m_playerRecentlyLogout : bool;
  _logoutTime : Z;
  _player : option bool;               (* a player, and whether it is in the world *)
  m_Socket : option bool;              (* a socket, and whether it is closed *)
  m_uiAntispamMailSentCount : Z;       (* uint32 *)
  m_uiAntispamMailSentTimer : Z;       (* uint32 *)
  m_addonsList : list AddonInfo;
  _registeredAddonPrefixes : list (list Z);
  _filterAddonMessages : bool;
  m_knownAddons : list (list Z * Z);   (* AddonMgr's list *)
  _recvQueue : list nat;
  heap : gmap nat WorldPacket;         (* the live packets *)
  next_ptr : nat;
  log : list session_event
}.

(** Configuration, opcode table and the rest of the game. *)
Record World := mkWorld {
  CONFIG_SOCKET_TIMEOUTTIME : Z;
  CONFIG_ANTISPAM_ENABLED : bool;
  CONFIG_ANTISPAM_MAIL_TIMER : Z;
  CONFIG_ANTISPAM_MAIL_COUNT : Z;
  known_addons : list (list Z * Z);
  opHandle : Z -> option (SessionStatus * PacketProcessing);
  Handler : Z -> ByteBuffer -> WorldSession -> result bb_exn unit * WorldSession;
  QueryCallbacks : WorldSession -> WorldSession;
  player_logout : bool -> WorldSession -> WorldSession
}.

Section Session.
Context `{CI : Cipher, ZI : Zlib, SI : OpenSSL}.
Context (w : World).

(** ** Timers *)

(* [game/Server/WorldSession.h:422-422] WorldSession::ResetTimeOutTime *)
Definition s_ResetTimeOutTime (x : WorldSession) : WorldSession :=
  {| x with m_timeOutTime := CONFIG_SOCKET_TIMEOUTTIME w |}.

(* [game/Server/WorldSession.h:415-421] WorldSession::UpdateTimeOutTime *)
Definition UpdateTimeOutTime (diff : Z) (x : WorldSession) : WorldSession :=
  if m_timeOutTime x <? diff then {| x with m_timeOutTime := 0 |}
  else {| x with m_timeOutTime := m_timeOutTime x - diff |}.

(* [game/Server/WorldSession.h:423-423] WorldSession::IsConnectionIdle *)
Definition IsConnectionIdle (x : WorldSession) : bool := (m_timeOutTime x <=? 0) && negb (m_inQueue x).

(* [game/Server/WorldSession.h:430-439] WorldSession::UpdateAntispamTimer *)
Definition UpdateAntispamTimer (diff : Z) (x : WorldSession) : WorldSession :=
  if m_uiAntispamMailSentTimer x <=? diff
  then {| x with m_uiAntispamMailSentTimer := CONFIG_ANTISPAM_MAIL_TIMER w; m_uiAntispamMailSentCount := 0 |}
  else {| x with m_uiAntispamMailSentTimer := u32 (m_uiAntispamMailSentTimer x - diff) |}.

(* [game/Server/WorldSession.h:441-450] WorldSession::UpdateAntispamCount *)
Definition UpdateAntispamCount (x : WorldSession) : bool * WorldSession :=
  if negb (CONFIG_ANTISPAM_ENABLED w) then (true, x)
  else
    let x := {| x with m_uiAntispamMailSentCount := u32 (m_uiAntispamMailSentCount x + 1) |} in
    (negb (CONFIG_ANTISPAM_MAIL_COUNT w <? m_uiAntispamMailSentCount x), x).

(* [game/Server/WorldSession.h:301-304] WorldSession::LogoutRequest *)
Definition LogoutRequest (requestTime : Z) (x : WorldSession) : WorldSession :=
  {| x with _logoutTime := requestTime |}.

(* [game/Server/WorldSession.h:307-310] WorldSession::ShouldLogOut *)
Definition ShouldLogOut (currTime : Z) (x : WorldSession) : bool :=
  (0 <? _logoutTime x) && (_logoutTime x + 20 <=? currTime).

(** ** Packets in and out *)

(* [game/Server/WorldSession.cpp:95-126] WorldSession::WorldSession *)
Definition new_WorldSession (id sec : Z) (ispremium : bool) (expansion mute_time locale recruiter : Z) : WorldSession :=
  mkSession id sec ispremium expansion mute_time locale recruiter
    (CONFIG_SOCKET_TIMEOUTTIME w) 0 false false false false false 0 None (Some false) 0 0 [] [] false
    (known_addons w) [] ∅ 0 [].

(* [shared/Threading/LockedQueue.h:53-64] LockedQueue::add *)
Definition queue_add (p : nat) (x : WorldSession) : WorldSession :=
  {| x with _recvQueue := _recvQueue x ++ [p] |}.

(** The session with its head packet taken off. *)
(* [shared/Threading/LockedQueue.h:97-97] LockedQueue::next *)
Definition popped (queue : list nat) (x : WorldSession) : WorldSession := {| x with _recvQueue := queue |}.

(** The network thread allocates the packet and queues it. *)
(* [game/Server/WorldSession.cpp:253-256] WorldSession::QueuePacket *)
Definition s_QueuePacket (pct : WorldPacket) (x : WorldSession) : WorldSession :=
  queue_add (next_ptr x) {| x with heap := <[next_ptr x := pct]> (heap x); next_ptr := S (next_ptr x) |}.

(** [delete packet]. *)
Definition free (p : nat) (x : WorldSession) : WorldSession :=
  {| x with heap := delete p (heap x); log := log x ++ [EvFreed p] |}.

(** The opcode table, whose [NUM_OPCODE_HANDLERS] entries may be empty. *)
Definition table_entry (opcode : Z) : result bb_exn (SessionStatus * PacketProcessing) :=
  if opcode <? NUM_OPCODE_HANDLERS then
    match opHandle w opcode with Some h => Ok h | None => Throw OutOfBounds end
  else Throw OutOfBounds.

Inductive PacketFilter := MapSessionFilter | WorldSessionFilter.

(* [game/Server/WorldSession.cpp:53-91] MapSessionFilter::Process *)
Definition Process (f : PacketFilter) (player : option bool) (place : PacketProcessing) : bool :=
  match place, f with
  | PROCESS_INPLACE, _ => true
  | PROCESS_THREADUNSAFE, MapSessionFilter => false
  | PROCESS_THREADUNSAFE, WorldSessionFilter => true
  | PROCESS_THREADSAFE, MapSessionFilter => match player with None => false | Some inWorld => inWorld end
  | PROCESS_THREADSAFE, WorldSessionFilter => match player with None => true | Some inWorld => negb inWorld end
  end.

(* [game/Server/WorldSession.h:187-202] PacketFilter::ProcessLogout *)
Definition ProcessLogout (f : PacketFilter) : bool :=
  match f with MapSessionFilter => false | WorldSessionFilter => true end.

(* [game/Server/WorldSession.cpp:186-250] WorldSession::SendPacket *)
Definition s_SendPacket (opcode : Z) (forced sent_ok : bool) (x : WorldSession) : result bb_exn unit * WorldSession :=
  match m_Socket x with
  | None => (Ok tt, x)
  | Some _ =>
    if (opcode =? NULL_OPCODE) || (opcode =? UNKNOWN_OPCODE) then (Ok tt, x)
    else
      let send := {| x with m_Socket := if sent_ok then m_Socket x else Some true;
                      log := log x ++ [EvSend opcode] |} in
      if forced then (Ok tt, send)
      else if opcode <? NUM_OPCODE_HANDLERS then
        match opHandle w opcode with
        | None | Some (STATUS_UNHANDLED, _) => (Ok tt, x)
        | Some _ => (Ok tt, send)
        end
      else (Throw OutOfBounds, x)
  end.

(** A handler runs; the log remembers what it was allowed to rely on. *)
Definition call_handler (status : SessionStatus) (pct : WorldPacket) (x : WorldSession)
    : result bb_exn unit * WorldSession :=
  Handler w (m_opcode pct) (contents pct)
    {| x with log := log x ++ [EvCalled (m_opcode pct) status (_player x) (m_inQueue x)
                                (m_playerRecentlyLogout x) (m_playerLogout x)] |}.

(** What the status asks; [true]: put the packet back. *)
(* [game/Server/WorldSession.cpp:308-386] WorldSession::Update *)
Definition process_packet (status : SessionStatus) (pct : WorldPacket) (x : WorldSession)
    : result bb_exn bool * WorldSession :=
  let handle x := match call_handler status pct x with
                  | (Ok _, x') => (Ok false, x')
                  | (Throw e, x') => (Throw e, x')
                  end in
  let skip := (Ok false, x) in
  match status with
  | STATUS_LOGGEDIN =>
    match _player x with
    | None => (Ok (negb (m_playerRecentlyLogout x)), x)
    | Some inWorld => if inWorld then handle x else skip
    end
  | STATUS_LOGGEDIN_OR_RECENTLY_LOGGOUT =>
    match _player x with
    | None => if negb (m_playerRecentlyLogout x) && negb (m_playerLogout x) then skip else handle x
    | Some _ => handle x
    end
  | STATUS_TRANSFER =>
    match _player x with
    | None => skip
    | Some inWorld => if inWorld then skip else handle x
    end
  | STATUS_AUTHED =>
    if m_inQueue x then skip
    else handle (if m_opcode pct =? CMSG_CHAR_ENUM then {| x with m_playerRecentlyLogout := false |} else x)
  | STATUS_NEVER | STATUS_UNHANDLED => skip
  end.

(** The receiving loop.  [first]: the first packet put back; [del]: whether
    packets are freed after processing, which nothing sets again once a packet
    has been put back. *)
(* [game/Server/WorldSession.cpp:288-398] WorldSession::Update *)
Fixpoint s_Update_loop (fuel : nat) (f : PacketFilter) (first : option nat) (del : bool) (x : WorldSession)
    : option (result bb_exn unit) * WorldSession :=
  match m_Socket x, _recvQueue x with
  | Some false, p :: queue =>
    if decide (Some p = first) then (Some (Ok tt), x)
    else match heap x !! p with
    | None => (Some (Throw OutOfBounds), x)
    | Some pct =>
      match table_entry (DropHighBytes (m_opcode pct)) with
      | Throw e => (Some (Throw e), x)
      | Ok (_, place) =>
        if negb (Process f (_player x) place) then (Some (Ok tt), x)
        else match fuel with
        | O => (None, x)
        | S fuel' =>
          let x := popped queue x in
          match table_entry (m_opcode pct) with
          | Throw e => (Some (Throw e), x)
          | Ok (status, _) =>
            let finish (first : option nat) (del : bool) (x : WorldSession) :=
              s_Update_loop fuel' f first del (if del then free p x else x) in
            match process_packet status pct x with
            | (Ok false, x) => finish first del x
            | (Ok true, x) =>
              finish (match first with None => Some p | Some _ => first end) false (queue_add p x)
            | (Throw (ByteBufferException _ _ _ _), x) => finish first del x
            | (Throw e, x) => (Some (Throw e), x)
            end
          end
        end
      end
    end
  | _, _ => (Some (Ok tt), x)
  end.

(** The first statement calls a method of the player whether there is one or not. *)
(* [game/Server/WorldSession.cpp:431-446] WorldSession::LogoutPlayer *)
Definition LogoutPlayer (save : bool) (x : WorldSession) : result bb_exn unit * WorldSession :=
  match _player x with
  | None => (Throw OutOfBounds, x)
  | Some _ =>
    let x := player_logout w save {| x with m_playerLogout := true; m_playerSave := save |} in
    (Ok tt, LogoutRequest 0 {| x with _player := None; m_playerLogout := false; m_playerSave := false;
                               m_playerRecentlyLogout := true; log := log x ++ [EvLoggedOut save] |})
  end.

(** The socket is closed and let go, the packets still queued are freed. *)
(* [game/Server/WorldSession.cpp:129-151] WorldSession::~WorldSession *)
Definition delete_WorldSession (x : WorldSession) : result bb_exn unit * WorldSession :=
  match (match _player x with Some _ => LogoutPlayer true x | None => (Ok tt, x) end) with
  | (Throw e, x) => (Throw e, x)
  | (Ok _, x) =>
    (Ok tt, foldl (fun x p => free p x) (popped [] {| x with m_Socket := None |}) (_recvQueue x))
  end.

(* [game/Server/WorldSession.cpp:622-626] WorldSession::KickPlayer *)
Definition KickPlayer (x : WorldSession) : WorldSession :=
  {| x with m_Socket := match m_Socket x with None => None | Some _ => Some true end |}.

(** Each turn takes a packet that was queued at the start; the result says
    whether the session stays. *)
(* [game/Server/WorldSession.cpp:274-428] WorldSession::Update *)
Definition s_Update (diff : Z) (f : PacketFilter) (currTime : Z) (x : WorldSession)
    : option (result bb_exn bool) * WorldSession :=
  let x := if CONFIG_ANTISPAM_ENABLED w then UpdateAntispamTimer diff x else x in
  let x := UpdateTimeOutTime diff x in
  match (if IsConnectionIdle x then
           match m_Socket x with
           | None => (Throw OutOfBounds, x)
           | Some _ => (Ok tt, {| x with m_Socket := Some true |})
           end
         else (Ok tt, x)) with
  | (Throw e, x) => (Some (Throw e), x)
  | (Ok _, x) =>
    match s_Update_loop (length (_recvQueue x)) f None true x with
    | (None, x) => (None, x)
    | (Some (Throw e), x) => (Some (Throw e), x)
    | (Some (Ok _), x) =>
      let x := QueryCallbacks w x in
      if negb (ProcessLogout f) then (Some (Ok true), x)
      else
        match (if ShouldLogOut currTime x && negb (m_playerLoading x) then LogoutPlayer true x else (Ok tt, x)) with
        | (Throw e, x) => (Some (Throw e), x)
        | (Ok _, x) =>
          let x := match m_Socket x with Some true => {| x with m_Socket := None |} | _ => x end in
          (Some (Ok (match m_Socket x with None => false | Some _ => true end)), x)
        end
    end
  end.

(** ** Add-ons *)

(* [game/Addons/AddonMgr.cpp:75-85] AddonMgr::GetAddonInfo *)
Definition GetAddonInfo (name : list Z) (known : list (list Z * Z)) : option (list Z * Z) :=
  List.find (fun a => bool_decide (a.1 = name)) known.

(* [game/Addons/AddonMgr.cpp:65-73] AddonMgr::SaveAddon *)
Definition SaveAddon (addon : AddonInfo) (x : WorldSession) : WorldSession :=
  {| x with m_knownAddons := m_knownAddons x ++ [(Name addon, CRC addon)];
     log := log x ++ [EvSaveAddon (Name addon) (CRC addon)] |}.

Definition read_addon : BB AddonInfo :=
  addonName ← get_string;
  enabled ← get_uint8;
  crc ← get_uint32;
  _ ← get_uint32;
  mret (mkAddon addonName enabled crc 2 true).

Definition note_addon (addon : AddonInfo) (x : WorldSession) : WorldSession :=
  let x := match GetAddonInfo (Name addon) (m_knownAddons x) with
           | Some _ => x
           | None => SaveAddon addon x
           end in
  {| x with m_addonsList := m_addonsList x ++ [addon] |}.

(** Each turn reads ten bytes or more, throws, or finds nothing left: the bytes
    bound the turns.  [Ok None]: an early return. *)
(* [game/Server/WorldSession.cpp:882-922] WorldSession::ReadAddonsInfo *)
Fixpoint read_addons (fuel : nat) (addonsCount : Z) (b : ByteBuffer) (x : WorldSession)
    : result bb_exn (option ByteBuffer) * WorldSession :=
  if addonsCount <=? 0 then (Ok (Some b), x)
  else if size b <? _rpos b + 1 then (Ok None, x)
  else match fuel with
  | O => (Ok None, x)
  | S fuel' =>
    match read_addon b with
    | (Throw e, _) => (Throw e, x)
    | (Ok addon, b) => read_addons fuel' (addonsCount - 1) b (note_addon addon x)
    end
  end.

Definition read_addon_info (addonInfo : ByteBuffer) (x : WorldSession) : result bb_exn unit * WorldSession :=
  match get_uint32 addonInfo with
  | (Throw e, _) => (Throw e, x)
  | (Ok addonsCount, b) =>
    match read_addons (S (Z.to_nat (size b))) addonsCount b x with
    | (Throw e, x) => (Throw e, x)
    | (Ok None, x) => (Ok tt, x)
    | (Ok (Some b), x) =>
      match get_uint32 b with
      | (Throw e, _) => (Throw e, x)
      | (Ok _, _) => (Ok tt, x)
      end
    end
  end.

(** The blob is a size and a compressed list; what inflates to less than the
    size is followed by zeros. *)
(* [game/Server/WorldSession.cpp:853-933] WorldSession::ReadAddonsInfo *)
Definition s_ReadAddonsInfo (data : list Z) (x : WorldSession) : result bb_exn unit * WorldSession :=
  if zlen data <? 4 then (Ok tt, x)
  else
    let size := le_value (take 4 data) in
    if size =? 0 then (Ok tt, x)
    else if 0xFFFFF <? size then (Ok tt, x)
    else match uncompress size (drop 4 data) with
    | None => (Ok tt, x)
    | Some output =>
      let storage := output ++ replicate (Z.to_nat size - length output) 0 in
      read_addon_info (mkByteBuffer storage 0 (zlen storage) 8) x
    end.

(* [game/Server/WorldSession.cpp:996-1006] WorldSession::IsAddonRegistered *)
Definition IsAddonRegistered (prefix : list Z) (x : WorldSession) : bool :=
  if negb (_filterAddonMessages x) then true
  else bool_decide (prefix ∈ _registeredAddonPrefixes x).

(** The part that concerns the prefixes; the rest resends the pet bar. *)
(* [game/Server/WorldSession.cpp:1008-1012] WorldSession::HandleUnregisterAddonPrefixesOpcode *)
Definition HandleUnregisterAddonPrefixesOpcode (x : WorldSession) : WorldSession :=
  {| x with _registeredAddonPrefixes := [] |}.

Fixpoint read_prefixes (lengths : list Z) (b : ByteBuffer) (x : WorldSession) : result bb_exn unit * WorldSession :=
  match lengths with
  | [] => (Ok tt, x)
  | n :: lengths' =>
    match read_bytes n b with
    | (Throw e, _) => (Throw e, x)
    | (Ok temp, b) =>
      read_prefixes lengths' b {| x with _registeredAddonPrefixes := _registeredAddonPrefixes x ++ [temp] |}
    end
  end.

(* [game/Server/WorldSession.cpp:1028-1062] WorldSession::HandleAddonRegisteredPrefixesOpcode *)
Definition HandleAddonRegisteredPrefixesOpcode (b : ByteBuffer) (x : WorldSession)
    : result bb_exn unit * WorldSession :=
  match ReadBits 25 b with
  | (Throw e, _) => (Throw e, x)
  | (Ok count, b) =>
    if REGISTERED_ADDON_PREFIX_SOFTCAP <? count then (Ok tt, {| x with _filterAddonMessages := false |})
    else match read_n (ReadBits 5) (Z.to_nat count) [] b with
    | (Throw e, _) => (Throw e, x)
    | (Ok lengths, b) =>
      match read_prefixes lengths b x with
      | (Throw e, x) => (Throw e, x)
      | (Ok _, x) =>
        (Ok tt, {| x with _filterAddonMessages :=
           negb (REGISTERED_ADDON_PREFIX_SOFTCAP <? zlen (_registeredAddonPrefixes x)) |})
      end
    end
  end.

(** ** The session the socket talks to *)

Definition s_SetLatency (latency : Z) (x : WorldSession) : WorldSession := {| x with m_latency := latency |}.

(** The packets queued, as values. *)
Definition queued_packets (x : WorldSession) : list WorldPacket :=
  omap (fun p => heap x !! p) (_recvQueue x).
End Session.
