(* ===== verification/WorldSessionSpec.v ===== *)
(** * The session: every packet decided once, under the conditions it needs *)

From S2P Require Import Prelude.
From S2P Require Import Bits.
From S2P Require Import ByteBuffer.
From S2P Require Import ByteBufferSpec.
From S2P Require Import BigNumber.
From S2P Require Import AuthSocketSpec.
From S2P Require Import WorldCrypt.
From S2P Require Import WorldSocket.
From S2P Require Import WorldSession.

Section Spec.
Context `{CI : Cipher, ZI : Zlib, SI : OpenSSL}.
Context (w : World).

(** ** The queue and the heap *)

(** Every queued packet is alive, queued once, and older than the next one. *)
Record queue_wf (x : WorldSession) : Prop := {
  wf_live : forall p, p ∈ _recvQueue x -> is_Some (heap x !! p);
  wf_once : NoDup (_recvQueue x);
  wf_old : forall p, is_Some (heap x !! p) -> (p < next_ptr x)%nat
}.

Lemma new_wf id sec premium exp mute loc rec : queue_wf (new_WorldSession w id sec premium exp mute loc rec).
Proof.
  split; cbn; [by intros p Hp%not_elem_of_nil|constructor|]. intros p [y Hy]. by rewrite lookup_empty in Hy.
Qed.

Lemma QueuePacket_wf pct x : queue_wf x ->
  queue_wf (s_QueuePacket pct x) /\ queued_packets (s_QueuePacket pct x) = queued_packets x ++ [pct].
Proof.
  intros [H1 H2 H3].
  assert (Hnew : forall p, p ∈ _recvQueue x -> p <> next_ptr x).
  { intros p Hp ->. specialize (H3 _ (H1 _ Hp)). lia. }
  split; [split; cbn|].
  - intros p Hp. apply elem_of_app in Hp as [Hp|Hp].
    + rewrite lookup_insert_ne by (symmetry; by apply Hnew). by apply H1.
    + apply list_elem_of_singleton in Hp as ->. rewrite lookup_insert_eq. by eexists.
  - apply NoDup_app. split_and!; [done| |apply NoDup_singleton].
    intros p Hp Hq. apply list_elem_of_singleton in Hq. by apply (Hnew p).
  - intros p. destruct (decide (p = next_ptr x)) as [->|Hne]; [lia|].
    rewrite lookup_insert_ne by done. intros Hp. specialize (H3 p Hp). lia.
  - unfold queued_packets. cbn. rewrite omap_app. cbn. rewrite lookup_insert_eq. f_equal.
    clear H1 H2 H3. induction (_recvQueue x) as [|p l IH]; [done|]. cbn.
    rewrite lookup_insert_ne by (symmetry; apply Hnew; constructor).
    rewrite IH; [done|]. intros q Hq. apply Hnew. by constructor.
Qed.

Definition same_queue (x x' : WorldSession) : Prop :=
  _recvQueue x' = _recvQueue x /\ heap x' = heap x /\ next_ptr x' = next_ptr x /\ _accountId x' = _accountId x.

Lemma same_queue_wf x x' : same_queue x x' -> queue_wf x -> queue_wf x' /\ queued_packets x' = queued_packets x.
Proof.
  intros (E1 & E2 & E3 & _) [H1 H2 H3]. unfold queued_packets. rewrite E1, E2. split; [|done].
  split; rewrite ?E1, ?E2, ?E3; done.
Qed.

Lemma note_addon_same a x : same_queue x (note_addon a x).
Proof. unfold note_addon. by destruct (GetAddonInfo _ _). Qed.

Lemma same_queue_trans x1 x2 x3 : same_queue x1 x2 -> same_queue x2 x3 -> same_queue x1 x3.
Proof. intros (?&?&?&?) (?&?&?&?). split_and!; congruence. Qed.

Lemma read_addons_same fuel : forall n b x, same_queue x (read_addons fuel n b x).2.
Proof.
  induction fuel as [|fuel IH]; intros n b x; cbn [read_addons];
    (destruct (n <=? 0); [done|]); (destruct (_ <? _); [done|]); [done|].
  destruct (read_addon b) as [[a|e] b']; [|done].
  eapply same_queue_trans; [apply note_addon_same|apply IH].
Qed.

Lemma ReadAddonsInfo_same d x : same_queue x (s_ReadAddonsInfo d x).2.
Proof.
  unfold s_ReadAddonsInfo. destruct (_ <? 4); [done|]. destruct (_ =? 0); [done|].
  destruct (_ <? _); [done|]. destruct (uncompress _ _) as [output|]; [|done].
  unfold read_addon_info. destruct (get_uint32 _) as [[n|e] b]; [|done].
  pose proof (read_addons_same (S (Z.to_nat (size b))) n b x) as Hs.
  destruct (read_addons _ n b x) as [[[b'|]|e] x']; [|exact Hs|exact Hs]. cbn in Hs.
  by destruct (get_uint32 b') as [[t|e] b''].
Qed.

(** The session keeps what the socket relies on. *)
#[export, refine] Instance WorldSession_interface : SessionInterface := {|
  session := WorldSession;
  new_session := new_WorldSession w;
  QueuePacket := s_QueuePacket;
  ResetTimeOutTime := s_ResetTimeOutTime w;
  SetLatency := s_SetLatency;
  ReadAddonsInfo := s_ReadAddonsInfo;
  GetSecurity := _security;
  GetAccountId := _accountId;
  queued := queued_packets;
  session_ok := queue_wf
|}.
Proof.
  - intros. split; [apply new_wf|done].
  - intros p x. apply QueuePacket_wf.
  - intros x. by apply same_queue_wf.
  - intros l x. by apply same_queue_wf.
  - intros d x. apply same_queue_wf, ReadAddonsInfo_same.
  - done.
  - done.
  - done.
  - done.
  - intros d x. apply (ReadAddonsInfo_same d x).
Defined.
(** ** One update *)

(** What a handler may not do: touch the packet queue; and it throws nothing but
    the exception of a malformed packet. *)
Definition quiet_event (e : session_event) : Prop :=
  match e with EvCalled _ _ _ _ _ _ | EvFreed _ => False | _ => True end.

Definition handlers_ok : Prop := forall op b x,
  same_queue x (Handler w op b x).2
  /\ (exists l, log (Handler w op b x).2 = log x ++ l /\ Forall quiet_event l)
  /\ forall e, (Handler w op b x).1 = Throw e -> exists c p n m, e = ByteBufferException c p n m.

(** The socket queues only packets whose opcode has a handler. *)
Definition dispatchable (x : WorldSession) : Prop := forall p, p ∈ _recvQueue x ->
  exists pct h, heap x !! p = Some pct /\ 0 <= m_opcode pct < NUM_OPCODE_HANDLERS /\ opHandle w (m_opcode pct) = Some h.

(** When a handler of a status may run. *)
Definition allowed (status : SessionStatus) (player : option bool) (inQueue recently logout : bool) : Prop :=
  match status with
  | STATUS_LOGGEDIN => player = Some true
  | STATUS_TRANSFER => player = Some false
  | STATUS_AUTHED => inQueue = false
  | STATUS_LOGGEDIN_OR_RECENTLY_LOGGOUT => player <> None \/ recently = true \/ logout = true
  | STATUS_NEVER | STATUS_UNHANDLED => False
  end.

Definition event_ok (e : session_event) : Prop :=
  match e with
  | EvCalled op status player inQueue recently logout =>
    (exists place, opHandle w op = Some (status, place)) /\ allowed status player inQueue recently logout
  | _ => True
  end.

Definition freed (x : WorldSession) : list nat :=
  omap (fun e => match e with EvFreed p => Some p | _ => None end) (log x).

(** The log grows by well-formed events. *)
Definition log_ok (x x' : WorldSession) : Prop := exists l, log x' = log x ++ l /\ Forall event_ok l.

Lemma log_ok_refl x : log_ok x x.
Proof. exists []. by rewrite app_nil_r. Qed.

Lemma log_ok_trans x1 x2 x3 : log_ok x1 x2 -> log_ok x2 x3 -> log_ok x1 x3.
Proof.
  intros (l1 & E1 & F1) (l2 & E2 & F2). exists (l1 ++ l2). split; [by rewrite E2, E1, app_assoc|].
  by apply Forall_app.
Qed.

Lemma quiet_freed l : Forall quiet_event l ->
  omap (fun e => match e with EvFreed p => Some p | _ => None end) l = ([] : list nat).
Proof. induction 1 as [|e l He _ IH]; [done|]. by destruct e. Qed.

Lemma quiet_ok l : Forall quiet_event l -> Forall event_ok l.
Proof. intros Hl. eapply list.Forall_impl; [exact Hl|]. by intros []. Qed.

(** A packet is decided: handled as its status allows, dropped, or put off. *)
Record processed (x x' : WorldSession) : Prop := {
  pr_queue : same_queue x x';
  pr_freed : freed x' = freed x;
  pr_log : log_ok x x'
}.

Lemma processed_refl x : processed x x.
Proof. split; [done|done|apply log_ok_refl]. Qed.

Lemma call_handler_processed status place pct x :
  handlers_ok -> opHandle w (m_opcode pct) = Some (status, place) ->
  allowed status (_player x) (m_inQueue x) (m_playerRecentlyLogout x) (m_playerLogout x) ->
  processed x (call_handler w status pct x).2.
Proof.
  intros Hh Ho Ha. unfold call_handler. set (x1 := {| x with log := _ |}).
  destruct (Hh (m_opcode pct) (contents pct) x1) as (Hq & (l & El & Fl) & _).
  split; [exact Hq| |].
  - unfold freed. rewrite El, omap_app, (quiet_freed l Fl), app_nil_r. subst x1. cbn.
    by rewrite omap_app, app_nil_r.
  - eexists (_ :: l). rewrite El. subst x1. cbn. rewrite <- app_assoc. split; [done|].
    constructor; [|by apply quiet_ok]. cbn. split; [by exists place|done].
Qed.

Lemma process_packet_spec status place pct x :
  handlers_ok -> opHandle w (m_opcode pct) = Some (status, place) ->
  processed x (process_packet w status pct x).2
  /\ match (process_packet w status pct x).1 with
     | Ok b => b = true -> status = STATUS_LOGGEDIN /\ _player x = None
     | Throw e => exists c p n m, e = ByteBufferException c p n m
     end.
Proof.
  intros Hh Ho.
  assert (Hcall : forall y, same_queue x y -> freed y = freed x -> log y = log x ->
    allowed status (_player y) (m_inQueue y) (m_playerRecentlyLogout y) (m_playerLogout y) ->
    let r := match call_handler w status pct y with
             | (Ok _, x') => (Ok false, x') | (Throw e, x') => (Throw e, x') end in
    processed x r.2 /\ match r.1 with
      | Ok b => b = true -> status = STATUS_LOGGEDIN /\ _player x = None
      | Throw e => exists c p n m, e = ByteBufferException c p n m end).
  { intros y Hy Hf Hl Ha. pose proof (call_handler_processed status place pct y Hh Ho Ha) as [P1 P2 (l & P3 & P4)].
    assert (He : forall e, (call_handler w status pct y).1 = Throw e -> exists c p n m, e = ByteBufferException c p n m).
    { intros e. apply Hh. }
    destruct (call_handler w status pct y) as [[[]|e] x']; cbn in *.
    - split; [|done]. split; [by eapply same_queue_trans|by rewrite P2|exists l; by rewrite P3, Hl].
    - split; [split; [by eapply same_queue_trans|by rewrite P2|exists l; by rewrite P3, Hl]|]. by apply He. }
  assert (Hskip : processed x x) by apply processed_refl.
  unfold process_packet. destruct status.
  - destruct (m_inQueue x) eqn:Eq; [done|]. destruct (m_opcode pct =? CMSG_CHAR_ENUM); by apply Hcall.
  - destruct (_player x) as [[]|] eqn:Ep; [by apply Hcall|done|]. by destruct (m_playerRecentlyLogout x).
  - destruct (_player x) as [[]|] eqn:Ep; [done|by apply Hcall|done].
  - destruct (_player x) as [b|] eqn:Ep; [apply Hcall; try done; cbn; rewrite Ep; by left|].
    destruct (negb _ && negb _) eqn:Eb; [done|]. apply Hcall; try done. cbn. right.
    apply andb_false_iff in Eb as [Eb|Eb]; apply negb_false_iff in Eb; auto.
  - done.
  - done.
Qed.

Definition ready (x : WorldSession) : Prop := queue_wf x /\ dispatchable x.

Lemma ready_sub x y : ready x -> heap y = heap x -> next_ptr y = next_ptr x ->
  NoDup (_recvQueue y) -> (forall p, p ∈ _recvQueue y -> p ∈ _recvQueue x) -> ready y.
Proof.
  intros [[H1 H2 H3] Hd] E1 E2 Hn Hs. split; [split|].
  - intros p Hp. rewrite E1. by apply H1, Hs.
  - done.
  - intros p. rewrite E1, E2. apply H3.
  - intros p Hp. rewrite E1. by apply Hd, Hs.
Qed.

Lemma ready_free x p : ready x -> p ∉ _recvQueue x -> ready (free p x).
Proof.
  intros [[H1 H2 H3] Hd] Hp.
  assert (Hl : forall q, q ∈ _recvQueue x -> delete p (heap x) !! q = heap x !! q).
  { intros q Hq. apply lookup_delete_ne. by intros ->. }
  split; [split|]; cbn.
  - intros q Hq. rewrite Hl by done. by apply H1.
  - done.
  - intros q [y Hy]. apply lookup_delete_Some in Hy as [_ Hy]. apply H3. by eexists.
  - intros q Hq. destruct (Hd q Hq) as (pct & h & E & R). exists pct, h. cbn. by rewrite Hl.
Qed.

Lemma table_entry_dispatch op h : 0 <= op < NUM_OPCODE_HANDLERS -> opHandle w op = Some h ->
  table_entry w op = Ok h /\ DropHighBytes op = op.
Proof.
  intros Hop Hh. unfold table_entry, NUM_OPCODE_HANDLERS, DropHighBytes in *. split.
  - destruct (Z.ltb_spec op 0xFFFF); [by rewrite Hh|lia].
  - change 0xFFFF with (Z.ones 16). rewrite Z.land_ones by lia. apply Z.mod_small. lia.
Qed.

(** Why the loop leaves a packet in the queue: the socket is gone or closed, or
    the filter is not for this packet. *)
Definition stopped (f : PacketFilter) (x : WorldSession) (p : nat) : Prop :=
  (m_Socket x <> Some false)
  \/ exists pct status place, heap x !! p = Some pct /\ opHandle w (m_opcode pct) = Some (status, place)
     /\ Process f (_player x) place = false.

Lemma loop_turn f fuel first del x p q :
  handlers_ok -> ready x -> _recvQueue x = p :: q -> Some p <> first -> m_Socket x = Some false ->
  s_Update_loop w (S fuel) f first del x = (Some (Ok tt), x) /\ stopped f x p
  \/ exists x1, processed (popped q x) x1 /\
     (s_Update_loop w (S fuel) f first del x = s_Update_loop w fuel f first del (if del then free p x1 else x1)
      \/ s_Update_loop w (S fuel) f first del x =
           s_Update_loop w fuel f (Some (default p first)) false (queue_add p x1)).
Proof.
  intros Hh [_ Hd] Eq Hf Hs. destruct (Hd p) as (pct & [status place] & Ep & Hop & Ho).
  { rewrite Eq. constructor. }
  destruct (table_entry_dispatch _ _ Hop Ho) as [Et Ed].
  cbn [s_Update_loop]. rewrite Hs, Eq, Ep, Ed, Et. destruct (decide (Some p = first)); [done|].
  destruct (Process f (_player x) place) eqn:Epr; cbn [negb].
  2:{ left. split; [done|]. right. by exists pct, status, place. }
  right.
  destruct (process_packet_spec status place pct (popped q x) Hh Ho) as [Hp Hr].
  destruct (process_packet w status pct (popped q x)) as [[[]|e] x1]; cbn [fst snd] in *; exists x1; split;
    try exact Hp; [right; by destruct first|by left|].
  destruct Hr as (c & pos & sz & vs & ->). by left.
Qed.

Lemma popped_ready x p q x1 : ready x -> _recvQueue x = p :: q -> processed (popped q x) x1 ->
  ready x1 /\ p ∉ q /\ _recvQueue x1 = q /\ heap x1 = heap x /\ freed x1 = freed x /\ log_ok x x1.
Proof.
  intros Hr Eq [(E1 & E2 & E3 & _) E4 E5]. cbn in *. pose proof Hr as [[_ Hn _] _]. rewrite Eq in Hn.
  apply NoDup_cons in Hn as [Hp Hn]. split_and!; try done.
  apply (ready_sub x); try done; rewrite E1; [done|]. intros p' Hp'. rewrite Eq. by constructor.
Qed.

Lemma queue_add_ready p q x x1 : ready x -> _recvQueue x = p :: q -> ready x1 -> _recvQueue x1 = q ->
  heap x1 = heap x -> ready (queue_add p x1).
Proof.
  intros Hr Eq Hr1 Eq1 Eh. pose proof Hr as [[H1 Hn H3] Hd]. rewrite Eq in Hn. apply NoDup_cons in Hn as [Hp Hn].
  destruct Hr1 as [[G1 G2 G3] Gd].
  assert (Hin : forall y, y ∈ _recvQueue (queue_add p x1) -> y ∈ _recvQueue x).
  { intros y Hy. cbn in Hy. rewrite Eq1 in Hy. rewrite Eq. apply elem_of_app in Hy as [Hy|Hy]; [by constructor|].
    apply list_elem_of_singleton in Hy as ->. constructor. }
  split; [split|].
  - intros y Hy. cbn. rewrite Eh. by apply H1, Hin.
  - cbn. rewrite Eq1. apply NoDup_app. split_and!; [done| |apply NoDup_singleton].
    intros y Hy Hy2. apply list_elem_of_singleton in Hy2. by subst.
  - exact G3.
  - intros y Hy. cbn. rewrite Eh. by apply Hd, Hin.
Qed.

(** After the first packet put off: nothing is freed any more. *)
Lemma delayed_loop f fuel : forall todo d ds x, handlers_ok -> ready x ->
  _recvQueue x = todo ++ d :: ds -> (length todo <= fuel)%nat ->
  exists x', s_Update_loop w fuel f (Some d) false x = (Some (Ok tt), x')
  /\ freed x' = freed x /\ heap x' = heap x /\ log_ok x x'
  /\ exists mid rest delayed, todo = mid ++ rest /\ _recvQueue x' = rest ++ (d :: ds) ++ delayed
     /\ delayed `sublist_of` mid /\ (forall p, head rest = Some p -> stopped f x' p).
Proof.
  induction fuel as [|fuel IH]; intros todo d ds x Hh Hr Eq Hl.
  - destruct todo; [|cbn in Hl; lia]. exists x. split; [|split; [done|split; [done|split; [apply log_ok_refl|]]]].
    + cbn [s_Update_loop]. rewrite Eq. cbn. destruct (m_Socket x) as [[]|]; [done| |done].
      by rewrite decide_True by done.
    + exists [], [], []. split; [done|split; [by rewrite app_nil_r, Eq|split; [constructor|done]]].
  - assert (Hstop : s_Update_loop w (S fuel) f (Some d) false x = (Some (Ok tt), x) ->
      (forall p, head todo = Some p -> stopped f x p) ->
      exists x', s_Update_loop w (S fuel) f (Some d) false x = (Some (Ok tt), x')
      /\ freed x' = freed x /\ heap x' = heap x /\ log_ok x x'
      /\ exists mid rest delayed, todo = mid ++ rest /\ _recvQueue x' = rest ++ (d :: ds) ++ delayed
         /\ delayed `sublist_of` mid /\ (forall p, head rest = Some p -> stopped f x' p)).
    { intros E Hst. exists x. split; [done|split; [done|split; [done|split; [apply log_ok_refl|]]]].
      exists [], todo, []. split; [done|split; [by rewrite app_nil_r|by split; [constructor|]]]. }
    destruct todo as [|p todo].
    { apply Hstop; [|done]. cbn [s_Update_loop]. rewrite Eq. cbn. destruct (m_Socket x) as [[]|]; [done| |done].
      by rewrite decide_True by done. }
    destruct (decide (m_Socket x = Some false)) as [Hs|Hs].
    2:{ apply Hstop; [|by left]. cbn [s_Update_loop]. by destruct (m_Socket x) as [[]|]. }
    assert (Hpd : Some p <> Some d).
    { intros [= ->]. pose proof (wf_once _ (proj1 Hr)) as Hn. rewrite Eq in Hn. cbn in Hn.
      apply NoDup_cons in Hn as [Hn _]. apply Hn. set_solver. }
    destruct (loop_turn f fuel (Some d) false x p (todo ++ d :: ds) Hh Hr Eq Hpd Hs) as [[E Hst]|(x1 & Hx1 & E)];
      [by apply Hstop; [|by intros ? [= <-]]|]. clear Hstop.
    destruct (popped_ready x p _ x1 Hr Eq Hx1) as (Hr1 & Hp & Eq1 & Eh & Ef & Elog). cbn in Hl.
    destruct E as [->| ->].
    + destruct (IH todo d ds x1 Hh Hr1 Eq1 ltac:(lia)) as (x' & E & E1 & E2 & E3 & mid & rest & delayed & -> & R1 & R2 & R3).
      exists x'. split_and!; [done|by rewrite E1|by rewrite E2|by eapply log_ok_trans|].
      exists (p :: mid), rest, delayed. do 2 (split; [done|]). by split; [constructor|].
    + cbn [default from_option id].
      pose proof (queue_add_ready p _ x x1 Hr Eq Hr1 Eq1 Eh) as Hr2.
      destruct (IH todo d (ds ++ [p]) (queue_add p x1) Hh Hr2) as
        (x' & E & E1 & E2 & E3 & mid & rest & delayed & -> & R1 & R2 & R3); [cbn; by rewrite Eq1, <- app_assoc|lia|].
      exists x'. split_and!; [done|by rewrite E1|by rewrite E2|eapply log_ok_trans; [exact Elog|exact E3]|].
      exists (p :: mid), rest, (p :: delayed). split; [done|split; [|by split; [constructor|]]].
      rewrite R1. cbn. by rewrite <- !app_assoc.
Qed.

Lemma free_facts p x : _recvQueue (free p x) = _recvQueue x /\ freed (free p x) = freed x ++ [p] /\ log_ok x (free p x).
Proof.
  split; [done|split]; [unfold freed; cbn; by rewrite omap_app|].
  exists [EvFreed p]. split; [done|]. by constructor.
Qed.

(** What one run of the loop leaves: [before] is decided and freed, the packets
    [delayed] are those of [mid] put back behind the untouched [rest]. *)
Definition drained (f : PacketFilter) (x x' : WorldSession) : Prop := exists before mid rest delayed,
  _recvQueue x = before ++ mid ++ rest
  /\ _recvQueue x' = rest ++ delayed
  /\ delayed `sublist_of` mid /\ head delayed = head mid
  /\ freed x' = freed x ++ before
  /\ (forall p, p ∉ before -> heap x' !! p = heap x !! p)
  /\ (forall p, head rest = Some p -> stopped f x' p).

Lemma drained_stop f x : (forall p, head (_recvQueue x) = Some p -> stopped f x p) -> drained f x x.
Proof.
  intros Hst. exists [], [], (_recvQueue x), []. split; [done|split; [by rewrite app_nil_r|]].
  split; [constructor|split; [done|split; [by rewrite app_nil_r|by split]]].
Qed.

Lemma packets_loop f fuel : forall x, handlers_ok -> ready x -> (length (_recvQueue x) <= fuel)%nat ->
  exists x', s_Update_loop w fuel f None true x = (Some (Ok tt), x') /\ log_ok x x' /\ drained f x x'.
Proof.
  induction fuel as [|fuel IH]; intros x Hh Hr Hl.
  - destruct (_recvQueue x) eqn:Eq; [|cbn in Hl; lia].
    exists x. split; [|split; [apply log_ok_refl|apply drained_stop; by rewrite Eq]].
    cbn [s_Update_loop]. rewrite Eq. by destruct (m_Socket x) as [[]|].
  - assert (Hstop : s_Update_loop w (S fuel) f None true x = (Some (Ok tt), x) ->
      (forall p, head (_recvQueue x) = Some p -> stopped f x p) ->
      exists x', s_Update_loop w (S fuel) f None true x = (Some (Ok tt), x') /\ log_ok x x' /\ drained f x x').
    { intros E Hst. exists x. split; [done|split; [apply log_ok_refl|by apply drained_stop]]. }
    destruct (_recvQueue x) as [|p q] eqn:Eq.
    { apply Hstop; [|done]. cbn [s_Update_loop]. rewrite Eq. by destruct (m_Socket x) as [[]|]. }
    destruct (decide (m_Socket x = Some false)) as [Hs|Hs].
    2:{ apply Hstop; [|by left]. cbn [s_Update_loop]. by destruct (m_Socket x) as [[]|]. }
    destruct (loop_turn f fuel None true x p q Hh Hr Eq ltac:(done) Hs) as [[E Hst]|(x1 & Hx1 & E)];
      [apply Hstop; [done|]; by intros ? [= <-]|]. clear Hstop.
    destruct (popped_ready x p q x1 Hr Eq Hx1) as (Hr1 & Hp & Eq1 & Eh & Ef & Elog). cbn in Hl.
    destruct E as [->| ->].
    + destruct (free_facts p x1) as (F1 & F2 & F3).
      destruct (IH (free p x1) Hh) as (x' & E & E1 & before & mid & rest & delayed & R1 & R2 & R3 & R4 & R5 & R6 & R7);
        [apply ready_free; [done|by rewrite Eq1]|rewrite F1, Eq1; lia|].
      exists x'. split; [done|split].
      { eapply log_ok_trans; [exact Elog|]. by eapply log_ok_trans. }
      exists (p :: before), mid, rest, delayed. rewrite F1, Eq1 in R1. rewrite Eq, R1, R2, R5, F2, Ef, <- app_assoc.
      do 5 (split; [done|]). split; [|done]. intros y Hy. apply not_elem_of_cons in Hy as [Hy1 Hy2].
      rewrite R6 by done. cbn. by rewrite lookup_delete_ne, Eh.
    + cbn [default from_option id].
      pose proof (queue_add_ready p _ x x1 Hr Eq Hr1 Eq1 Eh) as Hr2.
      destruct (delayed_loop f fuel q p [] (queue_add p x1) Hh Hr2) as
        (x' & E & E1 & E2 & E3 & mid & rest & delayed & R0 & R1 & R2 & R3); [cbn; by rewrite Eq1|lia|].
      exists x'. split; [done|split; [eapply log_ok_trans; [exact Elog|exact E3]|]].
      exists [], (p :: mid), rest, (p :: delayed). rewrite Eq, R0, R1, E1.
      do 2 (split; [done|]). split; [by constructor|]. split; [done|].
      split; [rewrite app_nil_r; exact Ef|]. split; [|done]. intros y _. rewrite E2. cbn. by rewrite Eh.
Qed.

(** C29: One update takes packets off the queue in order: a first run of them is
    decided and freed, each of the next is decided or put back, in order, behind
    the packets it does not reach, and is never freed; every handler that runs is
    the one of the packet's opcode, and runs only when the session is in the
    state its status asks for.  Packets are left only when the socket is gone or
    closed or the first of them is not for this filter.  A packet that throws is decided like the others,
    and the turns the update allows are enough. *)
Theorem Update_decides f x : handlers_ok -> ready x ->
  exists x', s_Update_loop w (length (_recvQueue x)) f None true x = (Some (Ok tt), x')
  /\ log_ok x x' /\ drained f x x'.
Proof. intros Hh Hr. by apply packets_loop. Qed.
End Spec.

(** *** A concrete world *)

#[local] Existing Instance demo_Cipher.
#[local] Existing Instance demo_Zlib.

(** One opcode for characters in the world, one for the character list. *)
Definition demo_World : World :=
  mkWorld 60000 false 0 0 []
    (fun op => if op =? CMSG_CHAR_ENUM then Some (STATUS_AUTHED, PROCESS_THREADUNSAFE)
               else if op =? 1 then Some (STATUS_LOGGEDIN, PROCESS_THREADUNSAFE) else None)
    (fun _ _ x => (Ok tt, x)) (fun x => x) (fun _ x => x).

Definition demo_player_session : WorldSession := new_WorldSession demo_World 7 0 false 3 0 0 0.

(** A packet for a character that is not there yet, and two that need none. *)
Definition demo_queue : WorldSession :=
  s_QueuePacket (packet_of CMSG_CHAR_ENUM []) (s_QueuePacket (packet_of 1 [])
    (s_QueuePacket (packet_of CMSG_CHAR_ENUM []) demo_player_session)).

Lemma demo_queue_ready : ready demo_World demo_queue.
Proof.
  split; [do 3 apply QueuePacket_wf; apply new_wf|]. intros p Hp. cbn in Hp.
  repeat (apply elem_of_cons in Hp as [->|Hp]; [eexists _, _; by split|]). by apply not_elem_of_nil in Hp.
Qed.

Lemma demo_handlers_ok : handlers_ok demo_World.
Proof. intros op b x. split; [done|split; [exists []; by rewrite app_nil_r|done]]. Qed.

Lemma Update_decides_witness :
  exists x', s_Update_loop demo_World 3 WorldSessionFilter None true demo_queue = (Some (Ok tt), x')
  /\ _recvQueue x' = [1%nat] /\ freed x' = [0%nat].
Proof.
  destruct (Update_decides demo_World WorldSessionFilter demo_queue demo_handlers_ok demo_queue_ready)
    as (x' & E & _ & _).
  exists x'. split; [exact E|]. revert E. vm_compute. by intros [= <-].
Defined.

(** The session of the demonstrations, and a socket that has just been opened. *)
Definition demo_interface : SessionInterface := WorldSession_interface demo_World.

#[local] Existing Instance demo_interface.

Definition demo_socket : WorldSocket := (open 64 (Some [49]) true (new_WorldSocket 7)).2.

(** A database whose only account is [row], of no special level, and what a
    client of that account sends. *)
Definition demo_row (sessionkey : list Z) : AccountRow := mkAccount 7 sessionkey [] 0 0 0 0.

Definition demo_WorldEnv (row : AccountRow) : WorldEnv :=
  mkWorldEnv false (fun l => l) (fun _ => Some row) (fun _ => None) (fun _ => false) (fun _ => false) 0 3 2
    0 0 (fun _ => None) 0 0.

Definition demo_request (k : Z) : AuthRequest := mkAuthRequest (auth_digest [65] 5 (m_Seed demo_socket) k) 5 [] [65].

(** The bytes of that request, framed as the client frames it. *)
Definition auth_session_bytes (rq : AuthRequest) : list Z :=
  let d n := nth n (rq_digest rq) 0 in
  let payload :=
    replicate 9 0 ++ [d 10; d 18; d 12; d 5]%nat ++ replicate 8 0
    ++ [d 15; d 9; d 19; d 4; d 7; d 16; d 3]%nat ++ [0; 0] ++ [d 8]%nat ++ replicate 5 0
    ++ [d 17; d 6; d 0; d 1; d 11]%nat ++ le_bytes 4 (rq_clientSeed rq) ++ [d 2]%nat ++ replicate 4 0
    ++ [d 14; d 13]%nat ++ le_bytes 4 (zlen (rq_addons rq)) ++ rq_addons rq
    ++ [Z.shiftr (zlen (rq_account rq)) 5; Z.land (Z.shiftl (zlen (rq_account rq)) 3) 0xFF] ++ rq_account rq in
  let n := zlen payload + 4 in
  [n / 256; n mod 256] ++ le_bytes 4 CMSG_AUTH_SESSION ++ payload.
