(* ===== verification/WorldSocketSpec.v ===== *)
(** * The world connection: nothing lost, nothing reordered, nobody let in unproved *)

From S2P Require Import Prelude.
From S2P Require Import Bits.
From S2P Require Import ByteBuffer.
From S2P Require Import ByteBufferSpec.
From S2P Require Import BigNumber.
From S2P Require Import WorldCrypt.
From S2P Require Import AuthSocketSpec.
From S2P Require Import WorldSocket.
From S2P Require Import WorldSession.
From S2P Require Import WorldSessionSpec.

Section Output.
Context `{CI : Cipher, ZI : Zlib, SI : OpenSSL, WI : SessionInterface}.

(** ** Output: the stream the client receives *)

Definition queued_bytes (q : list Block) : list Z := concat (map mb_data q).
#[local] Arguments queued_bytes : simpl never.

(** What is still to be sent, and all of what the client gets. *)
Definition pending (s : WorldSocket) : list Z := default [] (m_OutBuffer s) ++ queued_bytes (msg_queue s).
Definition wire (s : WorldSocket) : list Z := sent s ++ pending s.

(** The buffer never outgrows its block, and no queued block is empty. *)
Definition output_wf (s : WorldSocket) : Prop :=
  is_Some (m_OutBuffer s) /\ zlen (default [] (m_OutBuffer s)) <= m_OutBufferSize s
  /\ Forall (fun b => mb_data b <> []) (msg_queue s).

Lemma frame_nonempty op payload s : (frame op payload s).1 <> [].
Proof.
  unfold frame. destruct (compress_packet _ _ _) as [[op' p'] z]. rewrite EncryptSend_eq. cbn [fst].
  intros E. apply (f_equal length) in E. rewrite length_app, length_crypt_stream in E.
  unfold ServerPktHeader in E. rewrite length_app in E. cbn [length] in E. lia.
Qed.

(** Framing touches the compression and the encryption only. *)
Lemma frame_output op payload s :
  let s' := (frame op payload s).2 in
  m_OutBuffer s' = m_OutBuffer s /\ m_OutBufferSize s' = m_OutBufferSize s /\ msg_queue s' = msg_queue s
  /\ sent s' = sent s /\ closing_ s' = closing_ s /\ m_OutActive s' = m_OutActive s.
Proof.
  unfold frame. destruct (compress_packet _ _ _) as [[op' p'] z].
  by destruct (EncryptSend _ _) as [hdr c].
Qed.

Lemma queued_bytes_app q1 q2 : queued_bytes (q1 ++ q2) = queued_bytes q1 ++ queued_bytes q2.
Proof. unfold queued_bytes. by rewrite map_app, concat_app. Qed.

Lemma enqueue_wire data s s' : data <> [] -> output_wf s -> enqueue_output data s = (Ok 0, s') ->
  wire s' = wire s ++ data /\ output_wf s'.
Proof.
  intros Hd (Ho & Hsize & Hq). unfold enqueue_output, wire, pending, output_wf.
  destruct (m_OutBuffer s) as [out|] eqn:Eo; [|by destruct Ho]. cbn [default from_option id] in *.
  destruct ((zlen data <=? m_OutBufferSize s - zlen out) && (zlen (msg_queue s) =? 0)) eqn:E.
  - intros [= <-]. cbn. apply andb_true_iff in E as [E1 E2].
    destruct (msg_queue s); [|done]. rewrite !app_nil_r. split; [by rewrite app_assoc|].
    split_and!; [by eexists| |done]. unfold zlen in *. rewrite length_app. lia.
  - destruct (is_full _); [done|]. intros [= <-]. cbn.
    rewrite queued_bytes_app. split; [|split_and!; [by eexists|done|]].
    + unfold queued_bytes at 2. cbn. by rewrite app_nil_r, !app_assoc.
    + apply Forall_app. split; [done|]. by apply Forall_singleton.
Qed.

Lemma SendPacket_wire op payload s s' : output_wf s -> SendPacket op payload s = (Ok 0, s') ->
  wire s' = wire s ++ (frame op payload s).1 /\ output_wf s'.
Proof.
  intros Hwf. unfold SendPacket. set (s1 := add_event (EvPacket op payload) s).
  destruct (has_flag _ _); [done|]. destruct (closing_ s); [done|].
  assert (Ef : (frame op payload s1).1 = (frame op payload s).1).
  { unfold frame. cbn. destruct (compress_packet _ _ _) as [[op' p'] z]. by destruct (EncryptSend _ _). }
  pose proof (frame_output op payload s1) as Hf. pose proof (frame_nonempty op payload s1) as Hne.
  destruct (frame op payload s1) as [data s2]. cbn [fst snd] in *. rewrite <- Ef.
  destruct Hf as (E1 & E2 & E3 & E4 & _). intros Hs. apply enqueue_wire in Hs as [Hw Hwf']; [|done|].
  - split; [|done]. rewrite Hw. unfold wire, pending. by rewrite E1, E3, E4.
  - unfold output_wf. by rewrite E1, E2, E3.
Qed.

Lemma wakeup_wire s ok b :
  wire (if b : bool then cancel_wakeup_output ok s else schedule_wakeup_output ok s).2 = wire s
  /\ (output_wf s -> output_wf (if b then cancel_wakeup_output ok s else schedule_wakeup_output ok s).2).
Proof. unfold cancel_wakeup_output, schedule_wakeup_output. by destruct b, (m_OutActive s). Qed.

Lemma take_drop_z {A} n (l : list A) : take (Z.to_nat n) l ++ drop (Z.to_nat n) l = l.
Proof. apply take_drop. Qed.

Lemma handle_output_queue_wire r ok s n s' :
  m_OutBuffer s = Some [] -> output_wf s -> is_full (tl (msg_queue s)) = false ->
  handle_output_queue r ok s = (n, s') -> n <> -1 -> wire s' = wire s /\ output_wf s'.
Proof.
  intros Eo Hwf Hfull. unfold handle_output_queue.
  destruct (msg_queue s) as [|b q] eqn:Eq.
  { intros E _. pose proof (wakeup_wire s ok true) as [Hw Ho]. rewrite E in Hw, Ho. cbn in Hw, Ho. auto. }
  cbn [tl] in Hfull. rewrite Hfull. destruct Hwf as (H1 & H2 & H3). rewrite Eq in H3.
  apply Forall_cons_iff in H3 as [Hb H3]. destruct r as [m| |]; [|intros E _|by intros [= <- <-]].
  - destruct (Z.leb_spec (Z.min m (zlen (mb_data b))) 0); [by intros [= <- <-]|].
    destruct (Z.ltb_spec (Z.min m (zlen (mb_data b))) (zlen (mb_data b))) as [Hlt|Hge].
    + intros E _. set (s1 := {| _ with msg_queue := mkBlock _ _ :: q |}) in E.
      pose proof (wakeup_wire s1 ok false) as [Hw Ho]. rewrite E in Hw, Ho. cbn [snd] in Hw, Ho. split.
      * rewrite Hw. unfold wire, pending. cbn. rewrite Eo, Eq. cbn.
        rewrite <- app_assoc. f_equal. unfold queued_bytes. cbn [map concat mb_data].
        by rewrite app_assoc, take_drop_z.
      * apply Ho. unfold output_wf. cbn. rewrite Eo. split_and!; [by eexists|by rewrite Eo in H2|].
        constructor; [|done]. cbn. intros E0. apply (f_equal length) in E0.
        rewrite length_drop in E0. unfold zlen in *. cbn in E0. lia.
    + set (s1 := {| _ with sent := _ |}).
      assert (Hs1 : wire s1 = wire s /\ output_wf s1).
      { unfold wire, pending, output_wf. cbn. rewrite Eo, Eq. cbn. rewrite take_ge by (unfold zlen in *; lia).
        unfold queued_bytes. cbn [map concat]. rewrite <- app_assoc. split_and!; try done. by rewrite Eo in H2. }
      destruct q as [|b' q]; [|by intros [= <- <-]].
      intros E _. pose proof (wakeup_wire s1 ok true) as [Hw Ho]. rewrite E in Hw, Ho. cbn in Hw, Ho.
      destruct Hs1 as [Hs1 Hs2]. rewrite Hw. auto.
  - set (s1 := {| _ with msg_queue := b :: q |}) in E.
    pose proof (wakeup_wire s1 ok false) as [Hw Ho]. rewrite E in Hw, Ho. cbn [snd] in Hw, Ho. split.
    + rewrite Hw. unfold wire, pending. cbn. by rewrite Eq.
    + apply Ho. unfold output_wf. cbn. split_and!; [done|done|by constructor].
Qed.

Lemma handle_output_wire r1 r2 ok s n s' :
  output_wf s -> is_full (tl (msg_queue s)) = false ->
  handle_output r1 r2 ok s = (Ok n, s') -> n <> -1 -> wire s' = wire s /\ output_wf s'.
Proof.
  intros Hwf Hfull. unfold handle_output. destruct (closing_ s); [by intros [= <- <-]|].
  destruct (m_OutBuffer s) as [out|] eqn:Eo; [|done].
  destruct (Z.eqb_spec (zlen out) 0) as [E0|E0].
  { intros [= <- <-] Hn. eapply handle_output_queue_wire; [|done|done|by apply surjective_pairing|done].
    destruct out; [done|]. unfold zlen in E0. cbn in E0. lia. }
  destruct r1 as [m| |]; [|intros [= <- <-] Hn; split; [apply (wakeup_wire s ok false)|by apply (wakeup_wire s ok false)]|by intros [= <- <-]].
  destruct (Z.leb_spec (Z.min m (zlen out)) 0); [by intros [= <- <-]|].
  destruct Hwf as (H1 & H2 & H3). rewrite Eo in H2. cbn in H2.
  destruct (Z.ltb_spec (Z.min m (zlen out)) (zlen out)) as [Hlt|Hge]; intros [= <- <-] Hn.
  - match goal with |- context [schedule_wakeup_output ok ?x] => set (s1 := x) in * end.
    destruct (wakeup_wire s1 ok false) as [Hw Ho]. split.
    + rewrite Hw. unfold wire, pending. cbn. rewrite Eo. cbn. rewrite <- app_assoc. f_equal.
      by rewrite app_assoc, take_drop_z.
    + apply Ho. unfold output_wf. cbn. split_and!; [by eexists| |done].
      unfold zlen in *. rewrite length_drop. lia.
  - match goal with |- context [handle_output_queue r2 ok ?x] => set (s1 := x) in * end.
    destruct (handle_output_queue_wire r2 ok s1 (handle_output_queue r2 ok s1).1 (handle_output_queue r2 ok s1).2)
      as [Hw Ho]; [done| |done|by apply surjective_pairing|done|].
    + unfold output_wf. cbn. split_and!; [by eexists|unfold zlen; cbn; unfold zlen in *; lia|done].
    + split; [|done]. rewrite Hw. unfold wire, pending. cbn. rewrite Eo. cbn.
      rewrite take_ge by (unfold zlen in *; lia). by rewrite <- app_assoc.
Qed.

(** The life of a connection as far as output goes: a packet is accepted, the
    socket writes with any outcome but failure, or something else changes that
    is not output (authentication changes the encryption). *)
Inductive output_step : WorldSocket -> list Z -> WorldSocket -> Prop :=
| step_send s op payload s' :
    SendPacket op payload s = (Ok 0, s') -> output_step s (frame op payload s).1 s'
| step_write s r1 r2 reactor_ok n s' :
    is_full (tl (msg_queue s)) = false ->
    handle_output r1 r2 reactor_ok s = (Ok n, s') -> n <> -1 -> output_step s [] s'
| step_other s s' :
    m_OutBuffer s' = m_OutBuffer s -> m_OutBufferSize s' = m_OutBufferSize s ->
    msg_queue s' = msg_queue s -> sent s' = sent s -> output_step s [] s'.

Inductive output_run : WorldSocket -> list Z -> WorldSocket -> Prop :=
| run_refl s : output_run s [] s
| run_step s l1 s1 l2 s2 : output_step s l1 s1 -> output_run s1 l2 s2 -> output_run s (l1 ++ l2) s2.

(** C27: the connection is a byte queue.  Whatever is sent when, and however
    little the kernel takes at a time, the bytes taken followed by the bytes
    still held are the bytes of the packets accepted, in the order they were
    accepted: nothing is lost, duplicated or reordered, and the output buffer
    stays within its block.  (While the backlog is below the high water mark;
    see [backlog_drops_block] for what happens beyond.) *)
Theorem output_in_order s log s' :
  output_run s log s' -> output_wf s -> sent s' ++ pending s' = (sent s ++ pending s) ++ log /\ output_wf s'.
Proof.
  change (sent s' ++ pending s') with (wire s'). change (sent s ++ pending s) with (wire s).
  induction 1 as [s|s l1 s1 l2 s2 Hs _ IH]; intros Hwf; [by rewrite app_nil_r|].
  assert (wire s1 = wire s ++ l1 /\ output_wf s1) as [Hw Hwf1].
  { destruct Hs as [s op payload s1 E|s r1 r2 ok n s1 Hf E Hn|s s1 E1 E2 E3 E4].
    - by apply SendPacket_wire.
    - rewrite app_nil_r. by eapply handle_output_wire.
    - rewrite app_nil_r. unfold wire, pending, output_wf. rewrite E1, E2, E3, E4. done. }
  destruct (IH Hwf1) as [Hw2 Hwf2]. split; [|done]. by rewrite Hw2, Hw, app_assoc.
Qed.

(** When the queue is full even without its first block, a peer that takes
    nothing costs that block: [handle_output_queue] takes it off, does not look
    at the refusal to put it back, and reports success. *)
Theorem backlog_drops_block s b q r1 reactor_ok :
  closing_ s = false -> m_OutActive s = true -> m_OutBuffer s = Some [] -> msg_queue s = b :: q ->
  is_full q = true ->
  exists s', handle_output r1 WouldBlock reactor_ok s = (Ok 0, s')
  /\ sent s' = sent s /\ closing_ s' = false /\ pending s = mb_data b ++ pending s'.
Proof.
  intros E1 E2 E3 E4 E5. unfold handle_output. rewrite E1, E3. change (zlen [] =? 0) with true. cbn iota.
  unfold handle_output_queue. rewrite E4, E5. unfold schedule_wakeup_output. cbn. rewrite E2. cbn.
  eexists. split; [reflexivity|]. cbn. split_and!; [done|done|].
  unfold pending. cbn. rewrite E3, E4. done.
Qed.

(** ** Output: everything gets out *)

Definition takes_all (n : Z) (r : send_result * send_result) : Prop := r = (Sent n, Sent n).

Lemma queue_turn n b q s :
  m_OutActive s = false -> msg_queue s = b :: q -> mb_data b <> [] -> zlen (mb_data b) <= n ->
  handle_output_queue (Sent n) true s =
    (match q with [] => 0 | _ => WRITE_MASK end,
     {| s with sent := sent s ++ mb_data b; msg_queue := q |}).
Proof.
  intros Ha Eq Hb Hn. unfold handle_output_queue. rewrite Eq, Z.min_r by done.
  assert (0 < zlen (mb_data b)) by (destruct (mb_data b); [done|unfold zlen; cbn; lia]).
  destruct (Z.leb_spec (zlen (mb_data b)) 0); [lia|]. rewrite Z.ltb_irrefl, take_ge by (unfold zlen; lia).
  destruct q; [|done]. unfold cancel_wakeup_output. cbn. by rewrite Ha.
Qed.

Lemma queue_loop n q : forall s rs fuel,
  closing_ s = false -> m_OutActive s = false -> m_OutBuffer s = Some [] -> msg_queue s = q ->
  Forall (fun b => mb_data b <> []) q -> zlen (queued_bytes q) <= n -> Forall (takes_all n) rs ->
  q <> [] -> (length q <= length rs)%nat -> (length q <= fuel)%nat ->
  exists s', Update_loop fuel rs true s = (Some (Ok 0), s')
    /\ sent s' = sent s ++ queued_bytes q /\ pending s' = [].
Proof.
  induction q as [|b q IH]; intros s rs fuel Hc Ha Ho Eq Hne Hn Hrs Hq Hl Hf; [done|].
  destruct fuel as [|fuel]; [cbn in Hf; lia|]. destruct rs as [|r rs]; [cbn in Hl; lia|].
  apply Forall_cons_iff in Hrs as [Er Hrs]. unfold takes_all in Er. subst r. apply Forall_cons_iff in Hne as [Hb Hne].
  unfold queued_bytes in Hn. cbn in Hn. unfold zlen in Hn. rewrite length_app in Hn.
  cbn [Update_loop hd tl]. unfold handle_output. rewrite Hc, Ho. change (zlen [] =? 0) with true. cbn iota.
  rewrite (queue_turn n b q) by (done || unfold zlen; lia). cbn [fst snd].
  set (s1 := {| s with sent := sent s ++ mb_data b; msg_queue := q |}).
  destruct q as [|b' q].
  - exists s1. unfold pending, queued_bytes. cbn. by rewrite Ho, app_nil_r.
  - change (0 <? WRITE_MASK) with true. cbn iota.
    destruct (IH s1 rs fuel) as (s' & E & Es & Ep); try done; [unfold zlen, queued_bytes in *; lia|cbn in *; lia..|].
    exists s'. split_and!; [done| |done]. rewrite Es. cbn. unfold queued_bytes. cbn. by rewrite <- !app_assoc.
Qed.

(** the output gets out.  When the peer takes what it is offered, one
    [Update] of a socket that is not waiting for the reactor sends every byte
    held, in order, and ends within one turn per queued block. *)
Theorem Update_drains n rs s :
  closing_ s = false -> m_OutActive s = false -> output_wf s ->
  Forall (takes_all n) rs -> zlen (pending s) <= n -> (length (msg_queue s) < length rs)%nat ->
  exists s', Update rs true s = (Some (Ok 0), s') /\ sent s' = sent s ++ pending s /\ pending s' = [].
Proof.
  intros Hc Ha ([out Ho] & _ & Hne) Hrs Hn Hl. unfold Update. rewrite Hc, Ha, Ho.
  unfold pending in *. rewrite Ho in *. cbn [default from_option id] in *.
  unfold zlen in Hn. rewrite length_app in Hn.
  destruct (Z.eqb_spec (zlen out) 0) as [E0|E0].
  - destruct out; [|done]. cbn [app length Nat.add] in *. destruct (msg_queue s) as [|b q] eqn:Eq.
    + exists s. unfold queued_bytes. rewrite Eq, Ho, app_nil_r. done.
    + change (zlen [] =? 0) with true. change (zlen (b :: q) =? 0) with false. cbn [andb]. rewrite <- Eq in *.
      apply queue_loop with (n := n); try done; [by rewrite Eq|lia|lia].
  - cbn [andb Update_loop]. destruct rs as [|r rs]; [cbn in Hl; lia|].
    apply Forall_cons_iff in Hrs as [Er Hrs]. unfold takes_all in Er. subst r. cbn [hd tl length] in *. unfold handle_output. rewrite Hc, Ho.
    destruct (Z.eqb_spec (zlen out) 0); [done|]. rewrite Z.min_r by (unfold zlen; lia).
    destruct (Z.leb_spec (zlen out) 0); [pose proof (zlen_nonneg out); lia|].
    rewrite Z.ltb_irrefl, take_ge by (unfold zlen; lia). cbn [fst snd].
    match goal with |- context [handle_output_queue _ _ ?x] => set (s1 := x) end.
    assert (closing_ s1 = false /\ m_OutActive s1 = false /\ m_OutBuffer s1 = Some []
      /\ msg_queue s1 = msg_queue s /\ sent s1 = sent s ++ out) as (F1 & F2 & F3 & F4 & F5) by done.
    clearbody s1. destruct (msg_queue s) as [|b q].
    + unfold handle_output_queue, cancel_wakeup_output. rewrite F4, F2. cbn [negb fst snd].
      exists s1. unfold pending. by rewrite F3, F4, F5, app_nil_r.
    + apply Forall_cons_iff in Hne as [Hb Hne]. unfold queued_bytes in Hn. cbn in Hn. rewrite length_app in Hn.
      rewrite (queue_turn n b q) by (done || unfold zlen; lia). cbn [fst snd]. rewrite F5.
      match goal with |- context [Update_loop _ _ _ ?x] => set (s2 := x) end. destruct q as [|b' q].
      * exists s2. unfold pending, queued_bytes. cbn. by rewrite F3, !app_nil_r, <- app_assoc.
      * change (0 <? WRITE_MASK) with true. cbn iota.
        destruct (queue_loop n (b' :: q) s2 rs (length (b :: b' :: q))) as (s' & E & Es & Ep);
          try done; try (unfold zlen, queued_bytes; cbn [length] in *; lia).
        exists s'. split_and!; [done| |exact Ep]. rewrite Es. unfold queued_bytes. cbn.
        by rewrite <- !app_assoc.
Qed.
End Output.

(** *** A concrete connection *)

#[local] Existing Instance demo_Cipher.
#[local] Existing Instance demo_Zlib.
#[local] Existing Instance demo_interface.

(** A packet that does not fit the buffer behind the greeting, and a kernel that takes five bytes. *)
Definition demo_sent : WorldSocket := (SendPacket 1 [1; 2; 3] demo_socket).2.
Definition demo_written : WorldSocket := (handle_output (Sent 5) WouldBlock true demo_sent).2.

Lemma output_in_order_witness :
  sent demo_written ++ pending demo_written
  = (sent demo_socket ++ pending demo_socket) ++ [0; 5; 1; 0; 1; 2; 3] /\ output_wf demo_written.
Proof.
  assert (Hwf : output_wf demo_socket) by (split; [by eexists|split; [by vm_compute|constructor]]).
  assert (El : (frame 1 [1; 2; 3] demo_socket).1 = [0; 5; 1; 0; 1; 2; 3]) by by_vm.
  rewrite <- El, <- (app_nil_r (frame _ _ _).1). apply output_in_order; [|done].
  eapply run_step; [apply (step_send _ _ _ demo_sent); by_vm|].
  apply (run_step _ [] demo_written []); [|constructor].
  apply (step_write demo_sent (Sent 5) WouldBlock true 0 demo_written); [by_vm|by_vm|done].
Defined.

(** A queue at the high water mark behind its first block, of two bytes. *)
Definition demo_full : WorldSocket :=
  {| demo_socket with m_OutBuffer := Some []; msg_queue := [mkBlock 2 [8; 9]; mkBlock high_water_mark [7]] |}.

Lemma backlog_drops_block_witness :
  exists s', handle_output WouldBlock WouldBlock true demo_full = (Ok 0, s')
  /\ sent s' = [] /\ closing_ s' = false /\ pending demo_full = [8; 9] ++ pending s'.
Proof. apply (backlog_drops_block demo_full (mkBlock 2 [8; 9]) [mkBlock high_water_mark [7]]); by_vm. Defined.

Definition demo_backlog : WorldSocket :=
  {| demo_socket with m_OutActive := false; m_OutBuffer := Some [6]; msg_queue := [mkBlock 2 [8; 9]; mkBlock 1 [7]] |}.

Lemma Update_drains_witness :
  exists s', Update [(Sent 9, Sent 9); (Sent 9, Sent 9); (Sent 9, Sent 9)] true demo_backlog = (Some (Ok 0), s')
  /\ sent s' = [6; 8; 9; 7] /\ pending s' = [].
Proof.
  apply (Update_drains 9 _ demo_backlog); [done|done| | |by vm_compute|by vm_compute; lia].
  - split; [by eexists|split; [by vm_compute|by repeat constructor]].
  - by repeat constructor.
Defined.
