(* ===== verification/WorldInputSpec.v ===== *)
(** * What the world connection receives: reassembly and authentication *)

From S2P Require Import Prelude.
From S2P Require Import Bits.
From S2P Require Import ByteBuffer.
From S2P Require Import ByteBufferSpec.
From S2P Require Import BigNumber.
From S2P Require Import WorldCrypt.
From S2P Require Import AuthSocketSpec.
From S2P Require Import WorldSocket.
From S2P Require Import WorldSession.
From S2P Require Import WorldSessionSpec.

Section Input.
Context `{CI : Cipher, ZI : Zlib, SI : OpenSSL, WI : SessionInterface}.

(** ** Reassembly *)

(** Between two reads: part of a header, or a header and part of its payload. *)
Definition header_state (s : WorldSocket) : Prop :=
  (length (m_Header s) < sizeof_ClientPktHeader)%nat /\ m_RecvWPct s = None.
Definition payload_state (s : WorldSocket) : Prop :=
  length (m_Header s) = sizeof_ClientPktHeader /\ is_Some (m_RecvWPct s) /\ zlen (m_RecvPct s) <= m_RecvPct_size s.
Definition input_wf (s : WorldSocket) : Prop :=
  header_state s \/ payload_state s /\ zlen (m_RecvPct s) < m_RecvPct_size s.

Lemma new_input_wf r : input_wf (new_WorldSocket r).
Proof. left. split; [unfold sizeof_ClientPktHeader; cbn; lia|done]. Qed.

(** A turn whose result does not depend on the bytes after those it used. *)
Definition leave (b : list Z) (r : result bb_exn (input_result * list Z)) : result bb_exn (input_result * list Z) :=
  match r with Ok (x, rest) => Ok (x, rest ++ b) | Throw e => Throw e end.

Record decided (turn : list Z -> WorldSocket -> result bb_exn (input_result * list Z) * WorldSocket)
    (used : nat) (a : list Z) (s : WorldSocket) : Prop := {
  dec_more : forall b, turn (a ++ b) s = (leave b (turn a s).1, (turn a s).2);
  dec_used : forall rest, (turn a s).1 = Ok (AllUsed, rest) ->
    header_state (turn a s).2 /\ (used + length rest <= length a)%nat;
  dec_not_more : forall rest, (turn a s).1 <> Ok (NeedMore, rest)
}.

Lemma handle_input_payload_state env s :
  match (handle_input_payload env s).1 with
  | Ok _ => header_state (handle_input_payload env s).2
  | Throw _ => True
  end.
Proof.
  unfold handle_input_payload. destruct (m_RecvWPct s) as [op|]; [|done].
  destruct (_ || _); [done|]. destruct (ProcessIncoming _ _ _) as [[r|e] s']; [|done].
  split; [unfold sizeof_ClientPktHeader; cbn; lia|done].
Qed.

Lemma payload_short env a s : payload_state s -> Z.of_nat (length a) < payload_space s ->
  let s1 := copy_payload a s in
  input_payload env a s = (Ok (NeedMore, []), s1) /\ payload_state s1 /\ zlen (m_RecvPct s1) < m_RecvPct_size s1
  /\ forall b, input_payload env (a ++ b) s = input_payload env b s1.
Proof.
  intros (H1 & [op H2] & H3) Hl s1. unfold payload_space in Hl.
  assert (Hs1 : zlen (m_RecvPct s1) = zlen (m_RecvPct s) + zlen a).
  { unfold s1, zlen. cbn. rewrite length_app. lia. }
  split; [|split; [|split]].
  - unfold input_payload. rewrite H2. rewrite Nat.min_r by (unfold payload_space; lia).
    rewrite take_ge, drop_ge by lia. fold s1. unfold payload_space.
    change (m_RecvPct_size s1) with (m_RecvPct_size s).
    destruct (Z.ltb_spec 0 (m_RecvPct_size s - zlen (m_RecvPct s1))); [done|unfold zlen in *; lia].
  - split; [done|]. split; [by exists op|]. change (m_RecvPct_size s1) with (m_RecvPct_size s). unfold zlen in *. lia.
  - change (m_RecvPct_size s1) with (m_RecvPct_size s). unfold zlen in *. lia.
  - intros b. unfold input_payload. change (m_RecvWPct s1) with (m_RecvWPct s). rewrite H2.
    set (n := Nat.min (Z.to_nat (payload_space s)) (length (a ++ b))).
    set (n1 := Nat.min (Z.to_nat (payload_space s1)) (length b)).
    assert (En : n = (length a + n1)%nat).
    { subst n n1. unfold payload_space. change (m_RecvPct_size s1) with (m_RecvPct_size s).
      rewrite Hs1, length_app. unfold zlen in *. lia. }
    rewrite En, take_app_add, drop_app_add. unfold s1, copy_payload. cbn. by rewrite app_assoc.
Qed.

Lemma payload_long env a s : payload_state s -> payload_space s <= Z.of_nat (length a) ->
  decided (input_payload env) (Z.to_nat (payload_space s)) a s.
Proof.
  intros (H1 & [op H2] & H3) Hl.
  set (k := Z.to_nat (payload_space s)).
  set (s1 := copy_payload (take k a) s).
  assert (Hk : (k <= length a)%nat) by (subst k; unfold payload_space in *; lia).
  assert (Hfull : (0 <? payload_space s1) = false).
  { apply Z.ltb_ge. unfold payload_space, s1, zlen in *. cbn. rewrite length_app, length_take.
    subst k. unfold payload_space, zlen in *. lia. }
  assert (E : forall b, input_payload env (a ++ b) s =
    match handle_input_payload env s1 with
    | (Throw e, s) => (Throw e, s)
    | (Ok ret, s) => (Ok (if ret =? -1 then Malformed else AllUsed, (drop k a ++ b)), s)
    end).
  { intros b. unfold input_payload. rewrite H2, length_app. rewrite Nat.min_l by (subst k; lia).
    fold k. rewrite take_app_le, drop_app_le by lia. fold s1. by rewrite Hfull. }
  assert (E0 : input_payload env a s =
    match handle_input_payload env s1 with
    | (Throw e, s) => (Throw e, s)
    | (Ok ret, s) => (Ok (if ret =? -1 then Malformed else AllUsed, drop k a), s)
    end).
  { specialize (E []). by rewrite !app_nil_r in E. }
  pose proof (handle_input_payload_state env s1) as Hst.
  split.
  - intros b. rewrite E, E0. by destruct (handle_input_payload env s1) as [[r|e] s2].
  - intros rest. rewrite E0. destruct (handle_input_payload env s1) as [[r|e] s2]; [|done]. cbn.
    intros [= _ <-]. split; [exact Hst|]. rewrite length_drop. fold k. lia.
  - intros rest. rewrite E0. destruct (handle_input_payload env s1) as [[r|e] s2]; [|done]. cbn.
    by destruct (r =? -1).
Qed.

Lemma header_space_0 s : length (m_Header s) = sizeof_ClientPktHeader -> header_space s = 0%nat.
Proof. unfold header_space. lia. Qed.

Lemma turn_payload env msg s : header_space s = 0%nat -> input_turn env msg s = input_payload env msg s.
Proof. intros E. unfold input_turn. by rewrite E. Qed.

(** A complete header starts a payload, or ends the connection. *)
Lemma handle_input_header_state s :
  m_RecvWPct s = None -> length (m_Header s) = sizeof_ClientPktHeader ->
  exists ret s1, handle_input_header s = (Ok ret, s1) /\ (ret = -1 \/ ret = 0 /\ payload_state s1).
Proof.
  intros E1 E2. unfold handle_input_header. rewrite E1, E2. cbn [Nat.eqb negb sizeof_ClientPktHeader].
  rewrite DecryptRecv_eq. set (h := crypt_stream _ _ _).
  assert (Hh : length h = sizeof_ClientPktHeader) by (subst h; by rewrite length_crypt_stream).
  destruct (_ || _) eqn:Ebad; [by eexists _, _; split; [done|left]|].
  eexists _, _. split; [done|]. right. split; [done|]. split; [exact Hh|]. split; [by eexists|].
  apply orb_false_iff in Ebad as [Ebad _]. apply orb_false_iff in Ebad as [Ebad _].
  cbn. apply Z.ltb_ge in Ebad. unfold zlen. cbn [length]. unfold client_size in *. cbn. lia.
Qed.

Definition continues (env : WorldEnv) (a : list Z) (s : WorldSocket) : Prop :=
  exists s1, input_turn env a s = (Ok (NeedMore, []), s1) /\ input_wf s1
  /\ forall b, b <> [] -> input_turn env (a ++ b) s = input_turn env b s1.

Lemma payload_turn env a s : payload_state s -> zlen (m_RecvPct s) < m_RecvPct_size s ->
  continues env a s \/ exists n, (0 < n)%nat /\ decided (input_turn env) n a s.
Proof.
  intros Hs Hlt. pose proof (header_space_0 s (proj1 Hs)) as H0.
  destruct (Z.lt_ge_cases (Z.of_nat (length a)) (payload_space s)) as [Hl|Hl].
  - left. destruct (payload_short env a s Hs Hl) as (E & Hp & Hlt1 & Eb).
    exists (copy_payload a s). rewrite turn_payload by done. split; [done|]. split; [by right|].
    intros b _. rewrite turn_payload, Eb by done. symmetry. by apply turn_payload.
  - right. exists (Z.to_nat (payload_space s)). split; [unfold payload_space; lia|].
    destruct (payload_long env a s Hs Hl) as [D1 D2 D3].
    split; intros *; rewrite ?turn_payload by done; auto.
Qed.

Lemma header_short env a s : header_state s -> a <> [] -> (length a < header_space s)%nat -> continues env a s.
Proof.
  intros [H1 H2] Ha Hl. exists (copy_header a s).
  assert (E1 : header_space (copy_header a s) = (header_space s - length a)%nat).
  { unfold header_space. cbn. rewrite length_app. lia. }
  split; [|split].
  - unfold input_turn. destruct (Nat.eqb_spec (header_space s) 0); [lia|].
    rewrite Nat.min_r, take_ge, drop_ge by lia. rewrite E1.
    destruct (Nat.eqb_spec (header_space s - length a) 0); [lia|done].
  - left. split; [|done]. unfold header_space in *. cbn. rewrite length_app. lia.
  - intros b Hb. unfold input_turn. rewrite E1.
    destruct (Nat.eqb_spec (header_space s) 0); [lia|].
    destruct (Nat.eqb_spec (header_space s - length a) 0); [lia|].
    set (n1 := Nat.min (header_space s - length a) (length b)).
    replace (Nat.min (header_space s) (length (a ++ b))) with (length a + n1)%nat
      by (subst n1; rewrite length_app; lia).
    rewrite take_app_add, drop_app_add.
    assert (E : copy_header (a ++ take n1 b) s = copy_header (take n1 b) (copy_header a s)).
    { unfold copy_header. cbn. by rewrite app_assoc. }
    by rewrite E.
Qed.

Lemma header_long env a s : header_state s -> (header_space s <= length a)%nat ->
  continues env a s \/ exists n, (0 < n)%nat /\ decided (input_turn env) n a s.
Proof.
  intros [H1 H2] Hl. set (k := header_space s) in *. assert (Hk : (0 < k)%nat) by (subst k; unfold header_space; lia).
  set (s0 := copy_header (take k a) s).
  assert (Hs0 : length (m_Header s0) = sizeof_ClientPktHeader).
  { cbn. rewrite length_app, length_take. subst k. unfold header_space, sizeof_ClientPktHeader in *. lia. }
  destruct (handle_input_header_state s0 H2 Hs0) as (ret & s1 & Eh & Hret).
  assert (E : forall b, input_turn env (a ++ b) s =
    if ret =? -1 then (Ok (Malformed, drop k a ++ b), s1) else input_payload env (drop k a ++ b) s1).
  { intros b. unfold input_turn. fold k. destruct (Nat.eqb_spec k 0); [lia|].
    rewrite length_app, Nat.min_l by lia. rewrite take_app_le, drop_app_le by lia.
    fold s0. rewrite (header_space_0 s0 Hs0). cbn [Nat.eqb negb]. by rewrite Eh. }
  assert (E0 : input_turn env a s =
    if ret =? -1 then (Ok (Malformed, drop k a), s1) else input_payload env (drop k a) s1).
  { specialize (E []). by rewrite !app_nil_r in E. }
  destruct Hret as [-> | [-> Hp]]; cbn [Z.eqb] in *.
  { right. exists k. split; [done|]. split; intros *; rewrite ?E, ?E0; [done|by intros [=]|done]. }
  change (0 =? -1) with false in *. cbn iota in *.
  destruct (Z.lt_ge_cases (Z.of_nat (length (drop k a))) (payload_space s1)) as [Hs|Hs].
  - left. destruct (payload_short env _ s1 Hp Hs) as (Ep & Hp1 & Hlt1 & Eb).
    exists (copy_payload (drop k a) s1). split; [by rewrite E0|]. split; [by right|].
    intros b _. rewrite E, Eb. symmetry. apply turn_payload, header_space_0, Hp1.
  - right. exists k. split; [done|]. destruct (payload_long env _ s1 Hp Hs) as [D1 D2 D3].
    split; intros *; rewrite ?E, ?E0; [apply D1| |apply D3].
    intros Er. destruct (D2 _ Er) as [Hh Hr]. split; [done|]. rewrite length_drop in Hr. lia.
Qed.

Lemma turn_cases env a s : input_wf s -> a <> [] ->
  continues env a s \/ exists n, (0 < n)%nat /\ decided (input_turn env) n a s.
Proof.
  intros [Hs|[Hs Hlt]] Ha; [|by apply payload_turn].
  destruct (Nat.lt_ge_cases (length a) (header_space s)); [left; by apply header_short|by apply header_long].
Qed.

(** *** The loop *)

Lemma loop_wf env fuel : forall a s, input_wf s -> (length a <= fuel)%nat ->
  match input_loop fuel env a s with
  | (Some (Ok AllUsed), s') | (Some (Ok NeedMore), s') => input_wf s'
  | (Some _, _) => True
  | (None, _) => False
  end.
Proof.
  induction fuel as [|fuel IH]; intros a s Hs Hl; (destruct a as [|x a]; [done|]); [cbn in Hl; lia|].
  cbn [input_loop]. destruct (turn_cases env (x :: a) s Hs ltac:(done)) as [(s1 & -> & Hs1 & _)|(n & Hn & [D1 D2 D3])].
  { exact Hs1. }
  destruct (input_turn env (x :: a) s) as [[[[] rest]|e] s1]; cbn [fst snd] in *; try done.
  - destruct (D2 rest eq_refl) as [Hh Hr]. apply IH; [by left|cbn in *; lia].
  - by destruct (D3 rest).
Qed.

Lemma loop_app env fuel : forall a b s fuel', input_wf s ->
  (length a <= fuel)%nat -> (length (a ++ b) <= fuel')%nat ->
  input_loop fuel' env (a ++ b) s =
    match input_loop fuel env a s with
    | (Some (Ok NeedMore), s1) => match b with [] => (Some (Ok NeedMore), s1) | _ => input_loop (length b) env b s1 end
    | (Some (Ok AllUsed), s1) => input_loop (length b) env b s1
    | r => r
    end.
Proof.
  assert (Hfuel : forall f f' a s, input_wf s -> (length a <= f)%nat -> (length a <= f')%nat ->
    input_loop f env a s = input_loop f' env a s).
  { induction f as [|f IH]; intros f' a s Hs H1 H2; (destruct a as [|x a]; [by destruct f'|]); [cbn in H1; lia|].
    destruct f' as [|f']; [cbn in H2; lia|]. cbn [input_loop].
    destruct (turn_cases env (x :: a) s Hs ltac:(done)) as [(s1 & -> & _ & _)|(n & Hn & [D1 D2 D3])]; [done|].
    destruct (input_turn env (x :: a) s) as [[[[] rest]|e] s1]; try done.
    destruct (D2 rest eq_refl) as [Hh Hr]. apply IH; [by left|cbn in *; lia..]. }
  induction fuel as [|fuel IH]; intros a b s fuel' Hs H1 H2.
  { destruct a; [|cbn in H1; lia]. cbn [app input_loop]. apply Hfuel; cbn in *; [done|lia|lia]. }
  destruct a as [|x a]; [cbn [app input_loop]; apply Hfuel; cbn in *; [done|lia|lia]|].
  destruct fuel' as [|fuel']; [cbn in H2; lia|]. cbn [input_loop app]. rewrite app_comm_cons.
  destruct (turn_cases env (x :: a) s Hs ltac:(done)) as [(s1 & E & Hs1 & Eb)|(n & Hn & [D1 D2 D3])].
  - rewrite E. destruct b as [|y b]; [by rewrite app_nil_r, E|]. rewrite Eb by done.
    change (match input_turn env (y :: b) s1 with
      | (Ok (AllUsed, msg), s0) => input_loop fuel' env msg s0
      | (Ok (r, _), s0) => (Some (Ok r), s0)
      | (Throw e, s0) => (Some (Throw e), s0)
      end) with (input_loop (S fuel') env (y :: b) s1).
    apply Hfuel; [done| |cbn; lia]. rewrite length_app in H2. cbn in *. lia.
  - rewrite D1. destruct (input_turn env (x :: a) s) as [[[[] rest]|e] s1]; cbn [fst snd leave] in *; try done.
    + destruct (D2 rest eq_refl) as [Hh Hr]. apply IH; [by left|cbn in *; lia|].
      rewrite length_app in *. cbn in *. lia.
    + by destruct (D3 rest).
Qed.

(** Reading what arrives in pieces, one [recv] after the other. *)
Fixpoint receive_pieces (env : WorldEnv) (pieces : list (list Z)) (s : WorldSocket)
    : option (result bb_exn input_result) * WorldSocket :=
  match pieces with
  | [] => (Some (Ok AllUsed), s)
  | [l] => handle_input_missing_data env l s
  | l :: pieces' =>
    match handle_input_missing_data env l s with
    | (Some (Ok AllUsed), s') | (Some (Ok NeedMore), s') => receive_pieces env pieces' s'
    | r => r
    end
  end.

(** C28: how TCP cuts the client's bytes does not matter: reading them in any
    pieces gives the result and the socket (session, queued packets, answers,
    keys, partial header and payload) of reading them at once; and reading
    always ends. *)
Theorem pieces_do_not_matter env pieces s :
  input_wf s -> Forall (fun l => l <> []) pieces ->
  receive_pieces env pieces s = handle_input_missing_data env (concat pieces) s
  /\ exists r s', handle_input_missing_data env (concat pieces) s = (Some r, s').
Proof.
  intros Hs Hp. split.
  2:{ pose proof (loop_wf env _ (concat pieces) s Hs (le_n _)) as Hw. unfold handle_input_missing_data.
      destruct (input_loop _ _ _ _) as [[r|] s']; [by eexists _, _|done]. }
  revert s Hs. induction Hp as [|l pieces Hl Hp IH]; intros s Hs; [done|].
  destruct pieces as [|l' pieces]; [cbn; by rewrite app_nil_r|].
  remember (l' :: pieces) as ps eqn:Eps. cbn [receive_pieces concat].
  assert (Hne : concat ps <> []).
  { rewrite Eps in Hp |- *. apply Forall_cons_iff in Hp as [Hl' _]. by destruct l'. }
  assert (Happ := loop_app env (length l) l (concat ps) s (length (l ++ concat ps)) Hs (le_n _) (le_n _)).
  pose proof (loop_wf env (length l) l s Hs (le_n _)) as Hw.
  fold (handle_input_missing_data env l s) (handle_input_missing_data env (l ++ concat ps) s) in *.
  rewrite Happ. rewrite Eps at 1.
  destruct (handle_input_missing_data env l s) as [[[[]|e]|] s1]; try done; rewrite (IH s1 Hw); by destruct (concat ps).
Qed.
End Input.

(** *** A concrete connection *)

#[local] Existing Instance demo_Cipher.
#[local] Existing Instance demo_Zlib.
#[local] Existing Instance demo_interface.

(** A request to authenticate, in three pieces. *)
Definition demo_pieces : list (list Z) :=
  let l := auth_session_bytes (demo_request 0) in [take 3 l; take 40 (drop 3 l); drop 43 l].

Lemma pieces_do_not_matter_witness :
  receive_pieces (demo_WorldEnv (demo_row [])) demo_pieces demo_socket
  = handle_input_missing_data (demo_WorldEnv (demo_row [])) (auth_session_bytes (demo_request 0)) demo_socket
  /\ exists r s', handle_input_missing_data (demo_WorldEnv (demo_row [])) (auth_session_bytes (demo_request 0))
       demo_socket = (Some r, s').
Proof.
  apply (pieces_do_not_matter (demo_WorldEnv (demo_row [])) demo_pieces demo_socket).
  - left. split; [vm_compute; lia|by_vm].
  - by repeat constructor.
Defined.
