(* ===== verification/WorldAuthSpec.v ===== *)
(** * Who gets a session: authentication of the world connection *)

From stdpp Require Import relations.
From S2P Require Import Prelude.
From S2P Require Import Bits.
From S2P Require Import ByteBuffer.
From S2P Require Import ByteBufferSpec.
From S2P Require Import BigNumber.
From S2P Require Import WorldCrypt.
From S2P Require Import AuthSocketSpec.
From S2P Require Import WorldSocket.
From S2P Require Import WorldSession.
From S2P Require Import WorldSessionSpec.

Section Auth.
Context `{CI : Cipher, ZI : Zlib, SI : OpenSSL, WI : SessionInterface}.

(** The answers database and configuration may give during the connection. *)
Context (answers : WorldEnv -> Prop).
Context (seed : Z) (address : list Z).

(** A client proved that it knows the session key of account [id]: some request
    was checked against the row of the account it names, with a digest over this
    connection's seed, and the account may play. *)
Record proved (id : Z) : Prop := {
  pv_check : exists env rq row,
    answers env /\ IsClosed env = false
    /\ sel_account env (c_str (EscapeString env (rq_account rq))) = Some row /\ acc_id row = id
    /\ rq_digest rq = auth_digest (rq_account rq) (rq_clientSeed rq) seed (SetHexStr 0 (acc_sessionkey row))
    /\ (acc_locked row = 1 -> acc_last_ip row = c_str address)
    /\ sel_banned env id = false
    /\ PlayerSecurityLimit env <= Z.max 0 (default 0 (sel_gmlevel env id))
}.

Definition session_proved (s : WorldSocket) : Prop :=
  m_Seed s = seed /\ m_Address s = address
  /\ (forall x, m_Session s = Some x -> proved (GetAccountId x))
  /\ (forall id, EvAddSession id ∈ events s -> proved id).

Definition keeps_proof (s s' : WorldSocket) : Prop := session_proved s -> session_proved s'.

#[local] Instance keeps_proof_refl : Reflexive keeps_proof.
Proof. intros s Hs. exact Hs. Qed.

#[local] Instance keeps_proof_trans : Transitive keeps_proof.
Proof. intros s1 s2 s3 H1 H2 Hs. auto. Qed.

(** Nothing that matters to the proof changes. *)
Record same_auth (s s' : WorldSocket) : Prop := {
  sa_seed : m_Seed s' = m_Seed s;
  sa_address : m_Address s' = m_Address s;
  sa_session : m_Session s' = m_Session s;
  sa_events : forall id, EvAddSession id ∈ events s' -> EvAddSession id ∈ events s
}.

Lemma same_auth_keeps s s' : same_auth s s' -> keeps_proof s s'.
Proof.
  intros [E1 E2 E3 E4] (P1 & P2 & P3 & P4). split; [by rewrite E1|]. split; [by rewrite E2|].
  split; [by rewrite E3|]. auto.
Qed.

Lemma same_auth_event s e : (forall id, e <> EvAddSession id) ->
  same_auth s (add_event e s).
Proof.
  intros He. split; try done. cbn. intros id Hin. apply elem_of_app in Hin as [?|Hin]; [done|].
  apply list_elem_of_singleton in Hin. by destruct (He id).
Qed.

Lemma same_auth_frame op payload s : same_auth s (frame op payload s).2.
Proof.
  unfold frame. destruct (compress_packet _ _ _) as [[op' p'] z].
  by destruct (EncryptSend _ _) as [hdr c].
Qed.

Lemma same_auth_enqueue data s : same_auth s (enqueue_output data s).2.
Proof.
  unfold enqueue_output. destruct (m_OutBuffer s) as [out|]; [|done].
  destruct (_ && _); [done|]. by destruct (is_full _).
Qed.

Lemma SendPacket_proof op payload : preserves keeps_proof (SendPacket op payload).
Proof.
  intros s. unfold SendPacket. set (s1 := add_event (EvPacket op payload) s).
  destruct (has_flag _ _); [done|]. destruct (closing_ s); [done|].
  assert (Hs : same_auth s s1) by by apply same_auth_event.
  pose proof (same_auth_frame op payload s1) as Hf.
  destruct (frame op payload s1) as [data s2]. etransitivity; [apply same_auth_keeps, Hs|].
  etransitivity; [apply same_auth_keeps, Hf|]. apply same_auth_keeps, same_auth_enqueue.
Qed.

Lemma parse_proof {A} (p : BB A) b : preserves keeps_proof (parse p b).
Proof. intros s. unfold parse. by destruct (p b) as [[a|e] b']. Qed.

Lemma log_proof e : (forall id, e <> EvAddSession id) -> preserves keeps_proof (log_event e).
Proof. intros He. apply preserves_modify. intros s. by apply same_auth_keeps, same_auth_event. Qed.

Create HintDb proof.
#[local] Hint Resolve SendPacket_proof parse_proof : proof.
#[local] Hint Extern 1 (preserves keeps_proof (log_event _)) => (apply log_proof; done) : proof.

(** Programs built from those parts, by their structure. *)
Ltac keep_proof :=
  repeat first
    [ solve [auto 2 with proof nocore]
    | match goal with
      | |- preserves _ (_ ≫= _) => apply preserves_bind; [apply _| |intros ?]
      | |- preserves _ (mret _) => apply preserves_ret; apply _
      | |- preserves _ get => apply preserves_get; apply _
      | |- preserves _ (throw _) => apply preserves_throw; apply _
      | |- preserves _ (match ?x with _ => _ end) => destruct x eqn:?
      end ].

Lemma auth_response_proof info code : preserves keeps_proof (auth_response info code).
Proof. unfold auth_response. keep_proof. Qed.

Lemma request_proof b : preserves keeps_proof (read_auth_request b).
Proof. unfold read_auth_request. keep_proof. Qed.

#[local] Hint Resolve auth_response_proof request_proof : proof.

Lemma session_with_proof x : proved (GetAccountId x) ->
  preserves keeps_proof (modify (fun s => {| s with m_Session := Some x |}) : M _ bb_exn unit).
Proof.
  intros Hx. apply preserves_modify. intros s (P1 & P2 & P3 & P4). split_and!; try done.
  cbn. by intros y [= <-].
Qed.

Lemma admit_proof env rq row security mutetime locale k :
  proved (acc_id row) -> preserves keeps_proof (admit_session env rq row security mutetime locale k).
Proof.
  intros Hp. unfold admit_session. keep_proof.
  - apply preserves_modify. intros st (P1 & P2 & P3 & P4). split_and!; try done.
    cbn. intros y [= <-]. by rewrite account_new.
  - apply session_with_proof. rewrite <- (account_new (acc_id row) security (sel_premium env (acc_id row))
      (if CONFIG_EXPANSION env <? 3 then u8 (CONFIG_EXPANSION env) else 3) mutetime locale (acc_recruiter row)) in Hp.
    rewrite <- (account_ReadAddonsInfo (rq_addons rq)) in Hp. by rewrite Heqp in Hp.
  - apply preserves_modify. intros st (P1 & P2 & P3 & P4). split_and!; try done.
    cbn. intros id Hin. apply elem_of_app in Hin as [Hin|Hin]; [by apply P4|].
    apply list_elem_of_singleton in Hin as [= ->]. done.
Qed.

Lemma check_account_proof env rq : answers env -> preserves keeps_proof (check_account env rq).
Proof.
  intros Henv s Hs. pose proof Hs as (Eseed & Eaddr & _). revert Hs. unfold check_account.
  rewrite (bind_ok _ _ s s s) by done. rewrite Eseed, Eaddr. clear Eseed Eaddr.
  match goal with |- session_proved s -> session_proved (?m s).2 =>
    assert (Hm : preserves keeps_proof m); [|apply (Hm s)] end.
  keep_proof. apply admit_proof. split. exists env, rq, a. split_and!; try done.
  - apply negb_false_iff, bool_decide_eq_true in Heqb3. done.
  - intros El. rewrite El in Heqb0. cbn in Heqb0. by apply negb_false_iff, bool_decide_eq_true in Heqb0.
  - apply andb_false_iff in Heqb2 as [Hl|Hl]; [apply Z.ltb_ge in Hl|apply Z.ltb_ge in Hl]; lia.
Qed.

Lemma ping_proof env b : preserves keeps_proof (HandlePing env b).
Proof.
  unfold HandlePing. apply preserves_bind; [apply _|apply parse_proof|]. intros r s.
  assert (Hc : same_auth s (count_ping env s).2) by (unfold count_ping; repeat case_match; done).
  unfold get, mbind, M_bind. destruct (count_ping env s) as [kick s']. cbn in *.
  apply same_auth_keeps in Hc. destruct kick; [exact Hc|]. etransitivity; [exact Hc|]. unfold pong.
  destruct (m_Session s') as [x|] eqn:Ex; [|done].
  etransitivity; [|apply SendPacket_proof]. intros (P1 & P2 & P3 & P4). split_and!; try done.
  cbn. intros y [= <-]. rewrite account_SetLatency. by apply P3.
Qed.

Lemma dispatch_proof env pct opcode : preserves keeps_proof (dispatch env pct opcode).
Proof.
  intros s Hs. unfold dispatch. rewrite (bind_ok _ _ s s s) by done.
  destruct (m_Session s) as [x|] eqn:Ex; [|done]. pose proof Hs as (_ & _ & P3 & _). specialize (P3 x Ex).
  match goal with |- session_proved (?m s).2 => assert (Hm : preserves keeps_proof m); [|apply (Hm s Hs)] end.
  unfold opcode_entry. keep_proof;
    apply preserves_modify; intros st (Q1 & Q2 & Q3 & Q4); split_and!; try done;
    cbn; intros y [= <-]; by rewrite account_QueuePacket, account_ResetTimeOutTime.
Qed.

#[local] Hint Resolve check_account_proof ping_proof dispatch_proof : proof.

Lemma ProcessIncoming_proof env pct : answers env -> preserves keeps_proof (ProcessIncoming env pct).
Proof.
  intros Henv s. unfold ProcessIncoming. destruct (closing_ s); [done|].
  assert (Hp : preserves keeps_proof (process_opcode env pct (DropHighBytes (m_opcode pct)))).
  { unfold process_opcode, HandleAuthSession, HandleSendAuthSession. keep_proof. }
  specialize (Hp s). destruct (process_opcode _ _ _ s) as [[r|e] s']; [done|]. by destruct e.
Qed.

(** ** Reading and writing *)

Lemma handle_input_header_auth s : same_auth s (handle_input_header s).2.
Proof.
  unfold handle_input_header. destruct (m_RecvWPct s); [done|]. destruct (negb _); [done|].
  rewrite DecryptRecv_eq. by destruct (_ || _).
Qed.

Lemma handle_input_payload_proof env : answers env -> preserves keeps_proof (handle_input_payload env).
Proof.
  intros Henv s. unfold handle_input_payload. destruct (m_RecvWPct s) as [op|]; [|done].
  destruct (_ || _); [done|].
  pose proof (ProcessIncoming_proof env (packet_of op (m_RecvPct s)) Henv s) as Hp.
  by destruct (ProcessIncoming _ _ s) as [[r|e] s'].
Qed.

Lemma input_payload_proof env msg : answers env -> preserves keeps_proof (input_payload env msg).
Proof.
  intros Henv s. unfold input_payload. destruct (m_RecvWPct s) as [op|]; [|done].
  set (n := Nat.min _ _). set (s1 := copy_payload (take n msg) s).
  assert (Hs1 : same_auth s s1) by done. apply same_auth_keeps in Hs1.
  destruct (0 <? payload_space s1); [by destruct (negb _)|]. etransitivity; [exact Hs1|].
  pose proof (handle_input_payload_proof env Henv s1) as Hp.
  by destruct (handle_input_payload env s1) as [[r|e] s'].
Qed.

Lemma input_turn_proof env msg : answers env -> preserves keeps_proof (input_turn env msg).
Proof.
  intros Henv s. unfold input_turn. destruct (_ =? 0)%nat; [by apply input_payload_proof|].
  set (n := Nat.min _ _). set (s1 := copy_header (take n msg) s).
  assert (Hs1 : same_auth s s1) by done. apply same_auth_keeps in Hs1.
  destruct (negb _); [by destruct (negb _)|]. etransitivity; [exact Hs1|].
  pose proof (same_auth_keeps _ _ (handle_input_header_auth s1)) as Hh.
  destruct (handle_input_header s1) as [[r|e] s2]; [|exact Hh]. cbn in Hh.
  destruct (r =? -1); [exact Hh|]. etransitivity; [exact Hh|]. by apply input_payload_proof.
Qed.

Lemma input_loop_proof env fuel : answers env -> forall msg s, keeps_proof s (input_loop fuel env msg s).2.
Proof.
  intros Henv. induction fuel as [|fuel IH]; intros [|x msg] s; cbn [input_loop]; try done.
  pose proof (input_turn_proof env (x :: msg) Henv s) as Ht.
  destruct (input_turn env (x :: msg) s) as [[[[] rest]|e] s1]; try exact Ht.
  etransitivity; [exact Ht|apply IH].
Qed.

Lemma wakeup_auth ok s :
  same_auth s (cancel_wakeup_output ok s).2 /\ same_auth s (schedule_wakeup_output ok s).2.
Proof. unfold cancel_wakeup_output, schedule_wakeup_output. by destruct (m_OutActive s). Qed.

Lemma same_auth_trans s1 s2 s3 : same_auth s1 s2 -> same_auth s2 s3 -> same_auth s1 s3.
Proof. intros [] []. split; try congruence. auto. Qed.

Lemma handle_output_queue_auth r ok s : same_auth s (handle_output_queue r ok s).2.
Proof.
  unfold handle_output_queue. destruct (msg_queue s) as [|b q]; [apply wakeup_auth|].
  destruct r as [n| |]; [| |done].
  - destruct (_ <=? 0); [done|]. destruct (_ <? _).
    + destruct (is_full q); [done|]. eapply same_auth_trans; [|apply wakeup_auth]. done.
    + destruct q; [|done]. eapply same_auth_trans; [|apply wakeup_auth]. done.
  - eapply same_auth_trans; [|apply wakeup_auth]. by destruct (is_full q).
Qed.

Lemma handle_output_auth r1 r2 ok s : same_auth s (handle_output r1 r2 ok s).2.
Proof.
  unfold handle_output. destruct (closing_ s); [done|]. destruct (m_OutBuffer s) as [out|]; [|done].
  destruct (_ =? 0); [apply handle_output_queue_auth|]. destruct r1 as [n| |]; [|apply wakeup_auth|done].
  destruct (_ <=? 0); [done|]. destruct (_ <? _).
  - eapply same_auth_trans; [|apply wakeup_auth]. done.
  - eapply same_auth_trans; [|apply handle_output_queue_auth]. done.
Qed.

Lemma Update_auth rs ok s : same_auth s (Update rs ok s).2.
Proof.
  unfold Update. destruct (closing_ s); [done|]. destruct (m_OutActive s); [done|].
  destruct (m_OutBuffer s) as [out|]; [|done]. destruct (_ && _); [done|].
  generalize (S (length (msg_queue s))). intros fuel. revert rs s.
  induction fuel as [|fuel IH]; intros rs s; cbn [Update_loop]; [done|].
  destruct (hd _ rs) as [r1 r2]. pose proof (handle_output_auth r1 r2 ok s) as Ho.
  destruct (handle_output r1 r2 ok s) as [[n|e] s1]; [|exact Ho].
  destruct (0 <? n); [|exact Ho]. eapply same_auth_trans; [exact Ho|apply IH].
Qed.

Lemma handle_input_proof env r rs ok s : answers env -> keeps_proof s (handle_input env r rs ok s).2.
Proof.
  intros Henv. unfold handle_input. destruct (closing_ s); [done|].
  destruct r as [l| | |]; try done; [|apply same_auth_keeps, Update_auth].
  pose proof (input_loop_proof env (length l) Henv l s) as Hl. fold (handle_input_missing_data env l s) in Hl.
  destruct (handle_input_missing_data env l s) as [[[[]|e]|] s1]; try exact Hl; cbn [snd] in Hl.
  - destruct (_ =? 4096); [exact Hl|]. etransitivity; [exact Hl|apply same_auth_keeps, Update_auth].
  - etransitivity; [exact Hl|apply same_auth_keeps, Update_auth].
Qed.

(** What happens to a socket: bytes or an event from the peer, output, a packet
    from the world, or its end. *)
Inductive sock_step : WorldSocket -> WorldSocket -> Prop :=
| step_input env r rs ok s : answers env -> sock_step s (handle_input env r rs ok s).2
| step_output rs ok s : sock_step s (Update rs ok s).2
| step_ready r1 r2 ok s : sock_step s (handle_output r1 r2 ok s).2
| step_packet op payload s : sock_step s (SendPacket op payload s).2
| step_handle_close s : sock_step s (handle_close s)
| step_CloseSocket s : sock_step s (CloseSocket s).

Lemma sock_step_proof s s' : sock_step s s' -> keeps_proof s s'.
Proof.
  intros Hst. induction Hst as [env r rs ok s Henv|rs ok s|r1 r2 ok s|op payload s|s|s].
  - by apply handle_input_proof.
  - apply same_auth_keeps, Update_auth.
  - apply same_auth_keeps, handle_output_auth.
  - apply SendPacket_proof.
  - by intros (P1 & P2 & P3 & P4).
  - intros (P1 & P2 & P3 & P4). unfold CloseSocket. by destruct (closing_ s).
Qed.
End Auth.

Section Authenticated.
Context `{CI : Cipher, ZI : Zlib, SI : OpenSSL, WI : SessionInterface}.

(** C25: nobody is let in without the session key.  Whatever bytes a client
    sends, in whatever pieces, and whatever else happens to the connection, a
    session exists, and was handed to the world, only for an account whose key
    the client proved to know by a digest over this connection's seed, which was
    not banned, was allowed on this address, and was of a sufficient level. *)
Theorem session_needs_key (answers : WorldEnv -> Prop) s0 s :
  m_Session s0 = None -> (forall id, EvAddSession id ∉ events s0) -> rtc (sock_step answers) s0 s ->
  (forall x, m_Session s = Some x -> proved answers (m_Seed s0) (m_Address s0) (GetAccountId x))
  /\ (forall id, EvAddSession id ∈ events s -> proved answers (m_Seed s0) (m_Address s0) id).
Proof.
  intros Hn He Hr.
  assert (Hinv : session_proved answers (m_Seed s0) (m_Address s0) s0).
  { split_and!; [done|done|by rewrite Hn|]. intros id Hin. by destruct (He id). }
  enough (session_proved answers (m_Seed s0) (m_Address s0) s) as (_ & _ & H1 & H2) by done.
  revert Hinv. generalize (m_Seed s0) at 1 2 as sd. generalize (m_Address s0) at 1 2 as ad.
  clear Hn He. induction Hr as [s|s s1 s2 Hst _ IH]; intros ad sd Hinv; [done|].
  apply IH. eapply sock_step_proof; [exact Hst|exact Hinv].
Qed.
End Authenticated.

(** *** A concrete connection *)

#[local] Existing Instance demo_Cipher.
#[local] Existing Instance demo_Zlib.
#[local] Existing Instance demo_interface.

(** A client that knows the key 9 of account 7, and the socket after its request. *)
Definition demo_admitted : WorldSocket :=
  (handle_input (demo_WorldEnv (demo_row [9])) (Received (auth_session_bytes (demo_request 9))) [] true demo_socket).2.

Lemma demo_admitted_session : option_map _accountId (m_Session demo_admitted) = Some 7.
Proof. by_vm. Qed.

Lemma session_needs_key_witness :
  exists x, m_Session demo_admitted = Some x
  /\ proved (fun env => env = demo_WorldEnv (demo_row [9])) (m_Seed demo_socket) (m_Address demo_socket) (_accountId x).
Proof.
  destruct (session_needs_key (fun env => env = demo_WorldEnv (demo_row [9])) demo_socket demo_admitted)
    as [Hx _]; [by_vm| | |].
  - intros id Hin. cut (events demo_socket = [EvPacket MSG_VERIFY_CONNECTIVITY (server_greeting ++ [0])]); [|by_vm].
    intros E. rewrite E in Hin. by apply list_elem_of_singleton in Hin.
  - apply rtc_once. by apply step_input.
  - pose proof demo_admitted_session as Hs.
    destruct (m_Session demo_admitted) as [x|] eqn:E; [|done]. exists x. split; [done|]. by apply (Hx x).
Defined.
