(* ===== verification/WorldLogin.v ===== *)
(** * From the login server to the world: the session key that connects them *)

From S2P Require Import Prelude.
From S2P Require Import AuthSocket.
From S2P Require Import AuthSocketSpec.
From S2P Require Import Bits.
From S2P Require Import ByteBuffer.
From S2P Require Import ByteBufferSpec.
From S2P Require Import BigNumber.
From S2P Require Import WorldCrypt.
From S2P Require Import WorldSocket.
From S2P Require Import WorldSession.
From S2P Require Import WorldSessionSpec.

Section Login.
Context `{CI : Cipher, ZI : Zlib, SI : OpenSSL, WI : SessionInterface}.




(** The account of a request may play now from this address: everything
    [HandleAuthSession] asks but the digest. *)
Record may_play (env : WorldEnv) (rq : AuthRequest) (row : AccountRow) (s : WorldSocket) : Prop := {
  mp_open : IsClosed env = false;
  mp_row : sel_account env (c_str (EscapeString env (rq_account rq))) = Some row;
  mp_lock : acc_locked row = 1 -> acc_last_ip row = c_str (m_Address s);
  mp_ban : sel_banned env (acc_id row) = false;
  mp_level : PlayerSecurityLimit env <= Z.max 0 (default 0 (sel_gmlevel env (acc_id row)));
  mp_addons : forall x, (ReadAddonsInfo (rq_addons rq) x).1 = Ok tt
}.

(** The socket after the client was let in for an account. *)
Definition admitted (id : Z) (k : Z) (s s' : WorldSocket) : Prop :=
  (exists x, m_Session s' = Some x /\ GetAccountId x = id)
  /\ m_Crypt s' = AuthCrypt_Init k
  /\ exists l, events s' = events s ++ l ++ [EvAddSession id].

Lemma admit_run env rq row security mutetime locale k s :
  (forall x, (ReadAddonsInfo (rq_addons rq) x).1 = Ok tt) ->
  exists s', admit_session env rq row security mutetime locale k s = (Ok 0, s')
  /\ admitted (acc_id row) k s s'.
Proof.
  intros Hadd. unfold admit_session. rewrite (bind_ok _ _ s s s) by done.
  match goal with |- context [new_session ?a ?b ?c ?d ?e ?f ?g] => set (x := new_session a b c d e f g) end.
  pose proof (Hadd x) as Hr. pose proof (account_ReadAddonsInfo (rq_addons rq) x) as Ha.
  unfold x in Ha at 2. rewrite account_new in Ha.
  destruct (ReadAddonsInfo (rq_addons rq) x) as [r y]. cbn in Hr, Ha. subst r.
  eexists. split; [reflexivity|]. split; [by exists y|]. split; [done|].
  cbn. eexists [_]. by rewrite <- app_assoc.
Qed.

Lemma check_account_run env rq row s :
  may_play env rq row s ->
  rq_digest rq = auth_digest (rq_account rq) (rq_clientSeed rq) (m_Seed s) (SetHexStr 0 (acc_sessionkey row)) ->
  exists s', check_account env rq s = (Ok 0, s') /\ admitted (acc_id row) (SetHexStr 0 (acc_sessionkey row)) s s'.
Proof.
  intros [H1 H2 H3 H4 H5 H6] Hd. unfold check_account. rewrite (bind_ok _ _ s s s) by done.
  rewrite H1, H2, H4.
  assert (El : (acc_locked row =? 1) && negb (bool_decide (acc_last_ip row = c_str (m_Address s))) = false).
  { destruct (Z.eqb_spec (acc_locked row) 1) as [E|]; [|done]. by rewrite bool_decide_true by auto. }
  rewrite El. clear El.
  assert (Es : (0 <? PlayerSecurityLimit env) &&
    (default 0 (sel_gmlevel env (acc_id row)) <? PlayerSecurityLimit env) = false).
  { apply andb_false_iff. rewrite !Z.ltb_ge. lia. }
  rewrite Es, (bool_decide_true (auth_digest _ _ _ _ = _)) by done. cbn [negb]. clear Es.
  destruct (acc_mutetime row <? 0).
  - rewrite (bind_ok _ _ s tt (add_event (EvSetMuteTime
      (i64 (time_now env + Z.abs (acc_mutetime row))) (acc_id row)) s)) by done.
    match goal with |- context [admit_session env rq row ?a ?b ?c ?d ?s1] =>
      destruct (admit_run env rq row a b c d s1 H6) as (s' & E & R1 & R2 & l & R3) end.
    exists s'. split; [done|]. split; [done|split; [done|]]. rewrite R3. cbn.
    eexists (_ :: l). by rewrite <- app_assoc.
  - rewrite (bind_ok _ _ s tt s) by done. by apply admit_run.
Qed.

(** An account that has never been used needs no password: its session key
    is the empty string, which leaves the number zero, and the digest the client
    must send is then made of what the server itself sent. *)
Theorem fresh_account_needs_no_password env rq row s :
  may_play env rq row s -> acc_sessionkey row = [] ->
  rq_digest rq = SHA1 (rq_account rq ++ le_bytes 4 0 ++ le_bytes 4 (rq_clientSeed rq) ++ le_bytes 4 (m_Seed s)) ->
  exists s', check_account env rq s = (Ok 0, s') /\ admitted (acc_id row) 0 s s'.
Proof.
  intros Hp Hk Hd. destruct (check_account_run env rq row s Hp) as (s' & E & Hs').
  - rewrite Hd, Hk. unfold auth_digest, SetHexStr. rewrite BN_hex2bn_nil. cbn [default from_option].
    unfold UpdateBigNumbers. cbn [mbind list_bind]. by rewrite AsByteArray_zero, !app_nil_r.
  - exists s'. split; [done|]. revert Hs'. rewrite Hk. unfold SetHexStr. by rewrite BN_hex2bn_nil.
Qed.


(** The last opcode is past the end of the table: the table has an entry for
    each opcode below 0xFFFF, the check is on 16 bits, and a packet with opcode
    0xFFFF from a client with a session reads one entry too far. *)
Theorem last_opcode_reads_past_table env pct x s :
  closing_ s = false -> m_Session s = Some x -> DropHighBytes (m_opcode pct) = 0xFFFF ->
  ProcessIncoming env pct s = (Throw OutOfBounds, s).
Proof.
  intros Hc Hs Ho. unfold ProcessIncoming. rewrite Ho, Hc. unfold process_opcode.
  rewrite (bind_ok _ _ s s s) by done. cbn [Z.eqb CMSG_PING CMSG_AUTH_SESSION CMSG_KEEP_ALIVE
    CMSG_LOG_DISCONNECT MSG_VERIFY_CONNECTIVITY CMSG_ENABLE_NAGLE Pos.eqb].
  unfold dispatch. rewrite (bind_ok _ _ s s s) by done. rewrite Hs. done.
Qed.
End Login.

(** *** A concrete connection *)

#[local] Existing Instance demo_Cipher.
#[local] Existing Instance demo_Zlib.
#[local] Existing Instance demo_interface.

Lemma demo_may_play row k : acc_locked row = 0 -> may_play (demo_WorldEnv row) (demo_request k) row demo_socket.
Proof. intros E. split; try done. by rewrite E. Qed.

Lemma fresh_account_needs_no_password_witness :
  exists s', check_account (demo_WorldEnv (demo_row [])) (demo_request 0) demo_socket = (Ok 0, s')
  /\ admitted 7 0 demo_socket s'.
Proof.
  apply (fresh_account_needs_no_password _ _ (demo_row [])); [by apply demo_may_play|done|].
  vm_compute. reflexivity.
Defined.



Lemma last_opcode_reads_past_table_witness :
  ProcessIncoming (demo_WorldEnv (demo_row [])) (packet_of 0xFFFF [])
    {| demo_socket with m_Session := Some demo_player_session |}
  = (Throw OutOfBounds, {| demo_socket with m_Session := Some demo_player_session |}).
Proof. by apply (last_opcode_reads_past_table (WI := demo_interface) _ _ demo_player_session). Defined.
