(* ===== verification/LfgRoles.v ===== *)
(** * Dungeon finder: the role check
      (src/src/server/game/DungeonFinding/LFGMgr.cpp, [LFGMgr::CheckGroupRoles])

    Every player offers a set of roles; the check looks for one role each with
    at most one tank, one healer and three damage dealers, by trying to drop
    roles one at a time. *)

From S2P Require Import Prelude.
From S2P Require Import Bits.

(* [game/DungeonFinding/LFG.h:23-28] LFGEnum *)
Definition LFG_TANKS_NEEDED := 1.
Definition LFG_HEALERS_NEEDED := 1.
Definition LFG_DPS_NEEDED := 3.

(* [game/DungeonFinding/LFG.h:30-37] LfgRoles *)
Definition PLAYER_ROLE_NONE := 0.
Definition PLAYER_ROLE_LEADER := 1.
Definition PLAYER_ROLE_TANK := 2.
Definition PLAYER_ROLE_HEALER := 4.
Definition PLAYER_ROLE_DAMAGE := 8.

(** The roles by player; the loops run over the values in the order of the
    guids. *)
Abbreviation LfgRolesMap := (gmap Z Z).

(** What one of the three blocks of the loop body does: leave the function, or
    go on with the roles and the counter. *)
Inductive block_result :=
| Return (ok : bool) (roles : list Z)
| Continue (roles : list Z) (count : Z).

Definition role_at (roles : list Z) (i : nat) : Z := nth i roles 0.

(* [game/DungeonFinding/LFGMgr.cpp:963-976] LFGMgr::CheckGroupRoles *)
Definition role_block (rec : list Z -> bool * list Z) (role needed : Z) (i : nat)
    (roles : list Z) (count : Z) : block_result :=
  let r := role_at roles i in
  if has_flag r role then
    if negb (r =? role) then
      let '(ok, roles) := rec (alter (fun r => u8 (r - role)) i roles) in
      if ok then Return true roles
      else Continue (alter (fun r => u8 (r + role)) i roles) count
    else if count =? needed then Return false roles
    else Continue roles (u8 (count + 1))
  else Continue roles count.

(** The loop from position [i], [n] positions before the end. *)
(* [game/DungeonFinding/LFGMgr.cpp:958-1008] LFGMgr::CheckGroupRoles *)
Fixpoint roles_loop (rec : list Z -> bool * list Z) (n i : nat) (roles : list Z)
    (damage healer tank : Z) : bool * list Z :=
  match n with
  | O => (tank + healer + damage =? u8 (zlen roles), roles)
  | S n' =>
    if role_at roles i =? PLAYER_ROLE_NONE then (false, roles) else
    match role_block rec PLAYER_ROLE_DAMAGE LFG_DPS_NEEDED i roles damage with
    | Return ok roles => (ok, roles)
    | Continue roles damage =>
      match role_block rec PLAYER_ROLE_HEALER LFG_HEALERS_NEEDED i roles healer with
      | Return ok roles => (ok, roles)
      | Continue roles healer =>
        match role_block rec PLAYER_ROLE_TANK LFG_TANKS_NEEDED i roles tank with
        | Return ok roles => (ok, roles)
        | Continue roles tank => roles_loop rec n' (S i) roles damage healer tank
        end
      end
    end
  end.

(** Every recursive call drops a role, of which there are at most eight per
    player. *)
(* [game/DungeonFinding/LFGMgr.cpp:945-1009] LFGMgr::CheckGroupRoles *)
Fixpoint check_roles (fuel : nat) (roles : list Z) : bool * list Z :=
  match fuel with
  | O => (false, roles)
  | S fuel' =>
    match roles with
    | [] => (false, roles)
    | _ => roles_loop (check_roles fuel') (length roles) 0 roles 0 0 0
    end
  end.

(* [game/DungeonFinding/LFGMgr.cpp:945-1009] LFGMgr::CheckGroupRoles *)
Definition CheckGroupRoles (groles : LfgRolesMap) : bool * LfgRolesMap :=
  let l := ordered groles in
  let roles := map (fun r => Z.land r (Z.lnot PLAYER_ROLE_LEADER)) l.*2 in
  let '(ok, roles) := check_roles (S (8 * length roles)) roles in
  (ok, list_to_map (zip l.*1 roles)).

(** ** Specification *)

(** [x] is one of the roles [r] offers. *)
Definition choice (r x : Z) : Prop := x ∈ [2; 4; 8] /\ has_flag r x = true.

#[export] Instance choice_dec r x : Decision (choice r x).
Proof. unfold choice. apply _. Defined.

Definition count_role (x : Z) (xs : list Z) : Z := zlen (List.filter (Z.eqb x) xs).

Definition fits (xs : list Z) : Prop :=
  count_role PLAYER_ROLE_DAMAGE xs <= LFG_DPS_NEEDED
  /\ count_role PLAYER_ROLE_HEALER xs <= LFG_HEALERS_NEEDED
  /\ count_role PLAYER_ROLE_TANK xs <= LFG_TANKS_NEEDED.

(** [xs] gives every player one of the roles they offer. *)
Definition assignment (rs xs : list Z) : Prop := Forall2 choice rs xs /\ fits xs.

(** Sets of tank, healer and damage roles. *)
Definition role_set (r : Z) : Prop := r ∈ [0; 2; 4; 6; 8; 10; 12; 14].

(** How many roles are offered in all: what the recursion decreases. *)
Definition offers (r : Z) : nat :=
  (Nat.b2n (has_flag r 2) + Nat.b2n (has_flag r 4) + Nat.b2n (has_flag r 8))%nat.
Definition all_offers (rs : list Z) : nat := sum_list_with offers rs.

Abbreviation roles3 := [2; 4; 8].
Abbreviation role_sets := [0; 2; 4; 6; 8; 10; 12; 14].

(** Dropping one role of several, over all cases. *)
Definition drop_role_check (r x : Z) : bool :=
  negb (has_flag r x && negb (r =? x)) ||
  (existsb (Z.eqb (u8 (r - x))) role_sets && (u8 (u8 (r - x) + x) =? r)
   && forallb (fun y => Bool.eqb (has_flag (u8 (r - x)) y) (has_flag r y && negb (y =? x))) roles3
   && (offers (u8 (r - x)) <? offers r)%nat
   && existsb (fun y => has_flag r y && negb (y =? x)) roles3).

Lemma existsb_elem (z : Z) l : existsb (Z.eqb z) l = true -> z ∈ l.
Proof.
  intros (y & Hy & E)%existsb_exists. apply Z.eqb_eq in E as ->. by apply list_elem_of_In.
Qed.

Lemma forallb_elem {A} (f : A -> bool) l x : forallb f l = true -> x ∈ l -> f x = true.
Proof. intros H Hx. eapply forallb_forall; [exact H|by apply list_elem_of_In]. Qed.

Lemma drop_role r x :
  role_set r -> x ∈ roles3 -> has_flag r x = true -> r <> x ->
  role_set (u8 (r - x)) /\ u8 (u8 (r - x) + x) = r
  /\ (forall y, choice (u8 (r - x)) y <-> choice r y /\ y <> x)
  /\ (offers (u8 (r - x)) < offers r)%nat.
Proof.
  intros Hr Hx Hf Hne.
  assert (forallb (fun r => forallb (drop_role_check r) roles3) role_sets = true) as Ht
    by (vm_compute; reflexivity).
  pose proof (forallb_elem _ _ _ (forallb_elem _ _ _ Ht Hr) Hx) as Hc. clear Ht.
  unfold drop_role_check in Hc. rewrite Hf in Hc. destruct (Z.eqb_spec r x); [done|].
  cbn [negb andb orb] in Hc. apply andb_prop in Hc as [Hc _].
  apply andb_prop in Hc as [Hc Ho]. apply andb_prop in Hc as [Hc Hy]. apply andb_prop in Hc as [Hs Hb].
  split_and!; [by apply existsb_elem|by apply Z.eqb_eq| |by apply Nat.ltb_lt].
  intros y. unfold choice. split.
  - intros [Hy3 Hfy]. pose proof (forallb_elem _ _ _ Hy Hy3) as E. apply eqb_prop in E.
    rewrite Hfy in E. symmetry in E. apply andb_prop in E as [? E]. split; [done|].
    intros ->. by rewrite Z.eqb_refl in E.
  - intros [[Hy3 Hfy] Hyx]. pose proof (forallb_elem _ _ _ Hy Hy3) as E. apply eqb_prop in E.
    split; [done|]. rewrite E, Hfy. destruct (Z.eqb_spec y x); done.
Qed.

(** A single role, nothing or several. *)
Lemma role_set_single r : role_set r -> r <> 0 ->
  (r ∈ roles3 /\ forall y, y ∈ roles3 -> has_flag r y = (y =? r))
  \/ (exists y z, y <> z /\ choice r y /\ choice r z /\ r ∉ roles3).
Proof.
  intros Hr Hne. unfold role_set in Hr.
  assert (Hs : forall x, forallb (fun y => Bool.eqb (has_flag x y) (y =? x)) roles3 = true ->
    forall y, y ∈ roles3 -> has_flag x y = (y =? x)).
  { intros x Hx y Hy. apply eqb_prop. by apply (forallb_elem _ _ _ Hx). }
  assert (Hm : forall x y z, bool_decide (y <> z /\ choice x y /\ choice x z /\ x ∉ roles3) = true ->
    (x ∈ roles3 /\ forall y, y ∈ roles3 -> has_flag x y = (y =? x))
    \/ (exists y z, y <> z /\ choice x y /\ choice x z /\ x ∉ roles3)).
  { intros x y z H. right. exists y, z. by apply bool_decide_eq_true in H. }
  repeat (apply elem_of_cons in Hr as [->|Hr]).
  - done.
  - left. split; [by repeat constructor|]. by apply Hs.
  - left. split; [by repeat constructor|]. by apply Hs.
  - by apply (Hm 6 2 4).
  - left. split; [by repeat constructor|]. by apply Hs.
  - by apply (Hm 10 2 8).
  - by apply (Hm 12 4 8).
  - by apply (Hm 14 4 8).
  - by apply not_elem_of_nil in Hr.
Qed.

(** ** Correctness *)

Definition sat (rs : list Z) : Prop := exists xs, assignment rs xs.

Definition out_ok (rs : list Z) (o : bool * list Z) : Prop :=
  if o.1 then assignment rs o.2 else o.2 = rs /\ ~ sat rs.

Abbreviation drop_at x i rs := (alter (fun r => u8 (r - x)) i rs).

Section Drop.
Context (rs : list Z) (i : nat) (r x : Z).
Context (Hi : rs !! i = Some r) (Hr : role_set r) (Hx : x ∈ roles3).
Context (Hf : has_flag r x = true) (Hne : r <> x).

Lemma drop_restore : alter (fun r => u8 (r + x)) i (drop_at x i rs) = rs.
Proof.
  destruct (drop_role r x Hr Hx Hf Hne) as (_ & E & _).
  apply list_eq. intros j. destruct (decide (i = j)) as [->|].
  - rewrite !list_lookup_alter_eq, Hi. exact (f_equal Some E).
  - by rewrite !list_lookup_alter_ne.
Qed.

Lemma drop_assignment xs : assignment (drop_at x i rs) xs <-> assignment rs xs /\ xs !! i <> Some x.
Proof.
  destruct (drop_role r x Hr Hx Hf Hne) as (_ & _ & Hc & _).
  unfold assignment. rewrite !Forall2_lookup. split.
  - intros [Ha Hfit]. assert (Hai : exists y, xs !! i = Some y /\ choice (u8 (r - x)) y).
    { specialize (Ha i). rewrite list_lookup_alter_eq, Hi in Ha. cbn in Ha. inversion Ha; subst. eauto. }
    destruct Hai as (y & Ey & Hy). apply Hc in Hy as [Hy Hyx]. split_and!; [|done|].
    + intros j. specialize (Ha j). destruct (decide (i = j)) as [<-|].
      * rewrite Ey, Hi. by constructor.
      * by rewrite list_lookup_alter_ne in Ha.
    + rewrite Ey. congruence.
  - intros [[Ha Hfit] Hn]. split; [|done]. intros j. specialize (Ha j). destruct (decide (i = j)) as [<-|].
    + rewrite list_lookup_alter_eq, Hi in *. cbn. inversion Ha as [? y Hy E1 E2|]. subst.
      constructor. apply Hc. split; [done|]. congruence.
    + by rewrite list_lookup_alter_ne.
Qed.

Lemma all_offers_take_drop l j y : l !! j = Some y ->
  all_offers l = (all_offers (take j l) + offers y + all_offers (drop (S j) l))%nat.
Proof.
  intros E. unfold all_offers. rewrite <- (take_drop_middle l j y E) at 1.
  rewrite sum_list_with_app. cbn. lia.
Qed.

Lemma drop_measure : (all_offers (drop_at x i rs) < all_offers rs)%nat.
Proof.
  destruct (drop_role r x Hr Hx Hf Hne) as (_ & _ & _ & Ho).
  rewrite (all_offers_take_drop rs i r Hi).
  rewrite (all_offers_take_drop (drop_at x i rs) i (u8 (r - x))) by (by rewrite list_lookup_alter_eq, Hi).
  rewrite take_alter, drop_alter, !decide_False by lia. lia.
Qed.

Lemma drop_role_sets : Forall role_set rs -> Forall role_set (drop_at x i rs).
Proof.
  intros Hall. apply Forall_alter; [done|]. intros y Hy _. rewrite Hi in Hy. injection Hy as <-.
  by apply drop_role.
Qed.
End Drop.

Lemma count_role_app x l1 l2 : count_role x (l1 ++ l2) = count_role x l1 + count_role x l2.
Proof. unfold count_role, zlen. rewrite List.filter_app, length_app. lia. Qed.

Lemma count_role_nonneg x l : 0 <= count_role x l.
Proof. apply zlen_nonneg. Qed.

Lemma count_role_one x y : count_role x [y] = Z.b2z (x =? y).
Proof. unfold count_role. cbn. by destruct (x =? y). Qed.

Lemma count_all l : Forall (fun r => r ∈ roles3) l ->
  count_role 8 l + count_role 4 l + count_role 2 l = zlen l.
Proof.
  induction 1 as [|x l Hx _ IH]; [done|]. change (x :: l) with ([x] ++ l).
  rewrite !count_role_app, !count_role_one. unfold zlen in *. rewrite length_app. cbn [length].
  repeat (apply elem_of_cons in Hx as [->|Hx]); [cbn; lia..|]. by apply not_elem_of_nil in Hx.
Qed.

Section Loop.
Context (rec : list Z -> bool * list Z) (bound : nat).
Context (rec_ok : forall rs, Forall role_set rs -> rs <> [] -> zlen rs < 256 ->
  (all_offers rs < bound)%nat -> out_ok rs (rec rs)).
Context (rs : list Z) (Hsets : Forall role_set rs) (Hlen : zlen rs < 256).
Context (Hbound : (all_offers rs <= bound)%nat).

Lemma block_absent x needed i r count :
  rs !! i = Some r -> has_flag r x = false -> role_block rec x needed i rs count = Continue rs count.
Proof. intros Hi Hf. unfold role_block, role_at. erewrite nth_lookup_Some by done. by rewrite Hf. Qed.

Lemma block_single x needed i count :
  rs !! i = Some x -> x ∈ roles3 ->
  role_block rec x needed i rs count =
    if count =? needed then Return false rs else Continue rs (u8 (count + 1)).
Proof.
  intros Hi Hx. unfold role_block, role_at. erewrite nth_lookup_Some by done.
  assert (has_flag x x = true) as ->.
  { by repeat (apply elem_of_cons in Hx as [->|Hx]); [..|apply not_elem_of_nil in Hx]. }
  by rewrite Z.eqb_refl.
Qed.

Lemma block_multi x needed i r count :
  rs !! i = Some r -> x ∈ roles3 -> has_flag r x = true -> r <> x ->
  (exists xs, role_block rec x needed i rs count = Return true xs /\ assignment rs xs)
  \/ (role_block rec x needed i rs count = Continue rs count
      /\ forall xs, assignment rs xs -> xs !! i = Some x).
Proof.
  intros Hi Hx Hf Hne. pose proof (proj1 (Forall_lookup _ _) Hsets i r Hi) as Hr.
  unfold role_block, role_at. erewrite nth_lookup_Some by done. rewrite Hf.
  destruct (Z.eqb_spec r x) as [|_]; [done|]. cbn [negb].
  pose proof (rec_ok (drop_at x i rs)) as Hrec.
  destruct (rec (drop_at x i rs)) as [ok rs'].
  assert (Hl : length (drop_at x i rs) = length rs) by apply length_alter.
  assert (out_ok (drop_at x i rs) (ok, rs')) as Hout.
  { apply Hrec.
    - eapply drop_role_sets; eauto.
    - intros E. rewrite E in Hl. apply lookup_lt_Some in Hi. cbn in Hl. lia.
    - unfold zlen in *. by rewrite Hl.
    - pose proof (drop_measure rs i r x Hi Hr Hx Hf Hne). lia. }
  destruct ok; cbn in Hout.
  - left. exists rs'. split; [done|]. by apply (drop_assignment rs i r x Hi Hr Hx Hf Hne) in Hout as [? _].
  - right. destruct Hout as [-> Hns]. rewrite (drop_restore rs i r x Hi Hr Hx Hf Hne).
    split; [done|]. intros xs Hxs. destruct (decide (xs !! i = Some x)); [done|].
    exfalso. apply Hns. exists xs. by apply (drop_assignment rs i r x Hi Hr Hx Hf Hne).
Qed.

(** A position that offers several roles: found through it, or no assignment. *)
Lemma block_any x needed i r count : rs !! i = Some r -> x ∈ roles3 -> r ∉ roles3 ->
  (exists xs, role_block rec x needed i rs count = Return true xs /\ assignment rs xs)
  \/ (role_block rec x needed i rs count = Continue rs count
      /\ (has_flag r x = true -> forall xs, assignment rs xs -> xs !! i = Some x)).
Proof.
  intros Hi Hx Hm. destruct (has_flag r x) eqn:Hf.
  - assert (r <> x) as Hne by (intros ->; done).
    destruct (block_multi x needed i r count Hi Hx Hf Hne) as [?|[? ?]]; [by left|by right].
  - right. split; [|done]. by eapply block_absent.
Qed.

(** The state of the loop at position [i]: either every earlier player offers
    one role and has been counted, or it is known that there is no assignment
    and somebody was not counted. *)
Definition loop_inv (i : nat) (d h t : Z) : Prop :=
  0 <= d <= 3 /\ 0 <= h <= 1 /\ 0 <= t <= 1 /\
  ((~ sat rs /\ d + h + t < Z.of_nat i) \/
   (Forall (fun r => r ∈ roles3) (take i rs) /\ d = count_role 8 (take i rs)
    /\ h = count_role 4 (take i rs) /\ t = count_role 2 (take i rs))).

Lemma single_choice x y : x ∈ roles3 -> choice x y -> y = x.
Proof.
  intros Hx [Hy Hf]. repeat (apply elem_of_cons in Hx as [->|Hx]); try by apply not_elem_of_nil in Hx.
  all: repeat (apply elem_of_cons in Hy as [->|Hy]); try done; by apply not_elem_of_nil in Hy.
Qed.

Lemma choice_self x : x ∈ roles3 -> choice x x.
Proof.
  intros Hx. split; [done|].
  by repeat (apply elem_of_cons in Hx as [->|Hx]); [..|apply not_elem_of_nil in Hx].
Qed.

(** Players with one role keep it in every assignment. *)
Lemma assignment_prefix n xs : assignment rs xs -> Forall (fun r => r ∈ roles3) (take n rs) ->
  take n xs = take n rs.
Proof.
  intros [Ha _]. clear -Ha. revert n. induction Ha as [|r x rs' xs' Hc _ IH]; intros n Hp; [done|].
  destruct n as [|n]; [done|]. cbn in *. apply Forall_cons_iff in Hp as [Hr Hp].
  rewrite (single_choice r x) by done. by rewrite IH.
Qed.

(** Too many players with the single role [x]. *)
Lemma too_many i x needed :
  rs !! i = Some x -> x ∈ roles3 -> Forall (fun r => r ∈ roles3) (take i rs) ->
  count_role x (take i rs) = needed -> (forall xs, fits xs -> count_role x xs <= needed) -> ~ sat rs.
Proof.
  intros Hi Hx Hp Hc Hfit [xs Hxs].
  assert (take (S i) xs = take i rs ++ [x]) as E.
  { rewrite <- (take_S_r rs i x Hi). apply assignment_prefix; [done|].
    rewrite (take_S_r rs i x Hi). apply Forall_app. split; [done|by apply Forall_singleton]. }
  pose proof (Hfit xs (proj2 Hxs)) as Hle. rewrite <- (take_drop (S i) xs), E in Hle.
  rewrite !count_role_app, count_role_one, Z.eqb_refl in Hle.
  pose proof (count_role_nonneg x (drop (S i) xs)). cbn in Hle. lia.
Qed.

Lemma loop_inv_single i d h t x :
  loop_inv i d h t -> rs !! i = Some x -> x ∈ roles3 ->
  (x = 8 -> d < 3) -> (x = 4 -> h < 1) -> (x = 2 -> t < 1) ->
  loop_inv (S i) (d + Z.b2z (8 =? x)) (h + Z.b2z (4 =? x)) (t + Z.b2z (2 =? x)).
Proof.
  intros (Hd & Hh & Ht & Hst) Hi Hx H8 H4 H2.
  assert (Hb : Z.b2z (8 =? x) + Z.b2z (4 =? x) + Z.b2z (2 =? x) = 1).
  { by repeat (apply elem_of_cons in Hx as [->|Hx]); [..|apply not_elem_of_nil in Hx]. }
  split_and!; try (destruct (Z.eqb_spec 8 x), (Z.eqb_spec 4 x), (Z.eqb_spec 2 x); cbn in *; lia).
  destruct Hst as [[Hns Hlt]|(Hp & -> & -> & ->)]; [left; split; [done|lia]|right].
  rewrite (take_S_r rs i x Hi). split_and!.
  - apply Forall_app. split; [done|by apply Forall_singleton].
  - by rewrite count_role_app, count_role_one.
  - by rewrite count_role_app, count_role_one.
  - by rewrite count_role_app, count_role_one.
Qed.

Lemma loop_inv_sum i d h t : (i <= length rs)%nat -> loop_inv i d h t -> d + h + t <= Z.of_nat i.
Proof.
  intros Hi (_ & _ & _ & [[_ ?]|(Hp & -> & -> & ->)]); [lia|].
  pose proof (count_all _ Hp) as Hc. unfold zlen in Hc. rewrite length_take in Hc. lia.
Qed.

Lemma loop_end d h t : loop_inv (length rs) d h t ->
  out_ok rs (t + h + d =? u8 (zlen rs), rs).
Proof.
  intros (Hd & Hh & Ht & Hst). rewrite wrap_small by (pose proof (zlen_nonneg rs); lia).
  destruct Hst as [[Hns Hlt]|(Hp & -> & -> & ->)].
  - destruct (Z.eqb_spec (t + h + d) (zlen rs)); [exfalso; unfold zlen in *; lia|by split].
  - rewrite firstn_all in *. pose proof (count_all _ Hp).
    destruct (Z.eqb_spec (count_role 2 rs + count_role 4 rs + count_role 8 rs) (zlen rs)); [|lia].
    split.
    + clear -Hp. induction Hp; constructor; [by apply choice_self|done].
    + unfold fits, LFG_DPS_NEEDED, LFG_HEALERS_NEEDED, LFG_TANKS_NEEDED. unfold PLAYER_ROLE_DAMAGE, PLAYER_ROLE_HEALER, PLAYER_ROLE_TANK. split_and!; [exact (proj2 Hd)|exact (proj2 Hh)|exact (proj2 Ht)].
Qed.

Lemma no_role_unsat i : rs !! i = Some 0 -> ~ sat rs.
Proof.
  intros Hi [xs [Ha _]]. pose proof (Forall2_lookup_l _ _ _ _ _ Ha Hi) as (y & _ & [_ Hf]).
  unfold has_flag in Hf. by rewrite Z.land_0_l in Hf.
Qed.

(** A full role: its counter is at the limit. *)
Lemma full_unsat i d h t x : loop_inv i d h t -> rs !! i = Some x -> x ∈ roles3 ->
  (x = 8 /\ d = 3) \/ (x = 4 /\ h = 1) \/ (x = 2 /\ t = 1) -> ~ sat rs.
Proof.
  intros (_ & _ & _ & Hst) Hi Hx Hfull. destruct Hst as [[Hns _]|(Hp & E8 & E4 & E2)]; [done|].
  destruct Hfull as [[-> ->]|[[-> ->]|[-> ->]]]; (eapply too_many; [done|done|done|by symmetry|]);
    intros xs (H8 & H4 & H2); assumption.
Qed.

Lemma roles_loop_ok n : forall i d h t,
  (i + n = length rs)%nat -> loop_inv i d h t -> out_ok rs (roles_loop rec n i rs d h t).
Proof.
  induction n as [|n IH]; intros i d h t Hin Hinv; cbn [roles_loop].
  { rewrite Nat.add_0_r in Hin. subst i. by apply loop_end. }
  destruct (lookup_lt_is_Some_2 rs i ltac:(lia)) as [r Hi].
  unfold role_at at 1. erewrite nth_lookup_Some by done.
  destruct (Z.eqb_spec r PLAYER_ROLE_NONE) as [->|Hne].
  { split; [done|]. by eapply no_role_unsat. }
  pose proof (proj1 (Forall_lookup _ _) Hsets i r Hi) as Hr.
  assert (Hb : forall x, x ∈ roles3 -> x ∈ roles3) by done.
  assert (In8 : 8 ∈ roles3) by (by repeat constructor).
  assert (In4 : 4 ∈ roles3) by (by repeat constructor).
  assert (In2 : 2 ∈ roles3) by (by repeat constructor).
  pose proof Hinv as (Hd & Hh & Ht & _).
  destruct (role_set_single r Hr Hne) as [[Hx Hflags]|(y & z & Hyz & Hy & Hz & Hm)].
  - pose proof (loop_inv_single i d h t r Hinv Hi Hx) as Hnext.
    pose proof (full_unsat i d h t r Hinv Hi Hx) as Hfull.
    pose proof (Hflags 8 In8) as F8. pose proof (Hflags 4 In4) as F4. pose proof (Hflags 2 In2) as F2.
    unfold PLAYER_ROLE_DAMAGE, PLAYER_ROLE_HEALER, PLAYER_ROLE_TANK, LFG_DPS_NEEDED,
      LFG_HEALERS_NEEDED, LFG_TANKS_NEEDED.
    repeat (apply elem_of_cons in Hx as [->|Hx]); [..|by apply not_elem_of_nil in Hx]; cbn in F8, F4, F2.
    + rewrite (block_absent 8 _ i 2), (block_absent 4 _ i 2), block_single by done.
      destruct (Z.eqb_spec t 1); [by split; auto|]. rewrite wrap_small by lia.
      apply IH; [lia|]. pose proof (Hnext ltac:(lia) ltac:(lia) ltac:(lia)) as Hn. cbn in Hn.
      by rewrite !Z.add_0_r in Hn.
    + rewrite (block_absent 8 _ i 4), block_single by done.
      destruct (Z.eqb_spec h 1); [by split; auto|]. rewrite wrap_small by lia.
      rewrite (block_absent 2 _ i 4) by done.
      apply IH; [lia|]. pose proof (Hnext ltac:(lia) ltac:(lia) ltac:(lia)) as Hn. cbn in Hn.
      by rewrite !Z.add_0_r in Hn.
    + rewrite block_single by done. destruct (Z.eqb_spec d 3); [by split; auto|].
      rewrite wrap_small by lia. rewrite (block_absent 4 _ i 8), (block_absent 2 _ i 8) by done.
      apply IH; [lia|]. pose proof (Hnext ltac:(lia) ltac:(lia) ltac:(lia)) as Hn. cbn in Hn.
      by rewrite !Z.add_0_r in Hn.
  - destruct (block_any PLAYER_ROLE_DAMAGE LFG_DPS_NEEDED i r d Hi In8 Hm) as [(xs & -> & Hxs)|[-> U8]]; [done|].
    destruct (block_any PLAYER_ROLE_HEALER LFG_HEALERS_NEEDED i r h Hi In4 Hm) as [(xs & -> & Hxs)|[-> U4]]; [done|].
    destruct (block_any PLAYER_ROLE_TANK LFG_TANKS_NEEDED i r t Hi In2 Hm) as [(xs & -> & Hxs)|[-> U2]]; [done|].
    apply IH; [lia|]. split_and!; try lia. left.
    pose proof (loop_inv_sum i d h t ltac:(lia) Hinv). split; [|lia].
    intros [xs Hxs].
    assert (forall w, choice r w -> xs !! i = Some w) as Hw.
    { intros w [Hw Hf]. repeat (apply elem_of_cons in Hw as [->|Hw]); auto. by apply not_elem_of_nil in Hw. }
    pose proof (Hw y Hy). pose proof (Hw z Hz). congruence.
Qed.
End Loop.

Lemma check_roles_ok fuel : forall rs, Forall role_set rs -> rs <> [] -> zlen rs < 256 ->
  (all_offers rs < fuel)%nat -> out_ok rs (check_roles fuel rs).
Proof.
  induction fuel as [|fuel IH]; intros rs Hs Hne Hl Hf; [lia|]. cbn [check_roles].
  destruct rs as [|r rs'] eqn:E; [done|]. rewrite <- E in *.
  apply (roles_loop_ok _ fuel); try done; [lia|].
  split_and!; try lia. right. rewrite take_0. repeat split. constructor.
Qed.

Lemma offers_le r : (offers r <= 3)%nat.
Proof. unfold offers. destruct (has_flag r 2), (has_flag r 4), (has_flag r 8); cbn; lia. Qed.

Lemma all_offers_le rs : (all_offers rs <= 3 * length rs)%nat.
Proof. induction rs as [|r rs IH]; cbn; [lia|]. unfold all_offers in IH. pose proof (offers_le r). lia. Qed.

(** The roles a player offers, without the leader flag. *)
Definition offered (r : Z) : Z := Z.land r (Z.lnot PLAYER_ROLE_LEADER).

Lemma offered_role_set r : 0 <= r < 16 -> role_set (offered r).
Proof.
  intros Hr. assert (forallb (fun n => existsb (Z.eqb (offered (Z.of_nat n))) role_sets) (seq 0 16) = true)
    as Ht by (vm_compute; reflexivity).
  rewrite <- (Z2Nat.id r) by lia. apply existsb_elem. apply (forallb_elem _ _ (Z.to_nat r) Ht).
  apply elem_of_seq. lia.
Qed.

(** C24: The role check succeeds exactly when the players can be given one role
    each, out of those they offer, with at most one tank, one healer and three
    damage dealers; then the map holds such an assignment, otherwise the roles
    are left as they were (less the leader flag).  Its recursion ends. *)
Theorem CheckGroupRoles_correct (groles : LfgRolesMap) :
  groles <> ∅ -> map_Forall (fun _ r => 0 <= r < 16) groles -> zlen (ordered groles) < 256 ->
  let rs := map offered (ordered groles).*2 in
  let '(ok, res) := CheckGroupRoles groles in
  (ok = true <-> sat rs)
  /\ exists xs, res = list_to_map (zip (ordered groles).*1 xs)
     /\ if ok then assignment rs xs else xs = rs.
Proof.
  intros Hne Hr Hl rs. unfold CheckGroupRoles.
  change (fun r => Z.land r (Z.lnot PLAYER_ROLE_LEADER)) with offered. fold rs.
  assert (Hrs : length rs = length (ordered groles)).
  { unfold rs. by rewrite length_map, length_fmap. }
  assert (Hall : Forall role_set rs).
  { apply list.Forall_forall. intros x Hx. apply list_elem_of_In, in_map_iff in Hx as (r & <- & Hin).
    apply offered_role_set. apply list_elem_of_In, list_elem_of_fmap in Hin as ([k r'] & -> & Hin).
    apply elem_of_ordered in Hin. by apply (Hr k). }
  assert (Hnil : rs <> []).
  { intros E. rewrite E in Hrs. apply Hne, map_to_list_empty_iff.
    apply length_zero_iff_nil. rewrite <- (Permutation_length (ordered_Permutation groles)). done. }
  pose proof (check_roles_ok (S (8 * length rs)) rs Hall Hnil) as Hok.
  destruct (check_roles (S (8 * length rs)) rs) as [ok xs].
  assert (out_ok rs (ok, xs)) as Hout.
  { apply Hok; [unfold zlen in *; lia|]. pose proof (all_offers_le rs). lia. }
  destruct ok; cbn in Hout; cbv beta iota.
  - split; [split; [intros _; by exists xs|done]|]. by exists xs.
  - destruct Hout as [-> Hns]. split; [split; [done|intros Hsat; by destruct (Hns Hsat)]|]. by exists rs.
Qed.

Lemma CheckGroupRoles_correct_witness :
  (CheckGroupRoles {[ 1 := 3; 2 := 14; 3 := 12; 4 := 8; 5 := 8 ]}).1 = true
  /\ sat (map offered (ordered ({[ 1 := 3; 2 := 14; 3 := 12; 4 := 8; 5 := 8 ]} : LfgRolesMap)).*2).
Proof.
  pose proof (CheckGroupRoles_correct {[ 1 := 3; 2 := 14; 3 := 12; 4 := 8; 5 := 8 ]}
    ltac:(intros E; apply (f_equal (lookup 1)) in E; vm_compute in E; discriminate E)
    ltac:(apply (bool_decide_unpack _); vm_compute; exact I)
    ltac:(vm_compute; reflexivity)) as H.
  assert ((CheckGroupRoles {[ 1 := 3; 2 := 14; 3 := 12; 4 := 8; 5 := 8 ]}).1 = true) as E
    by (vm_compute; reflexivity).
  destruct (CheckGroupRoles _) as [ok res]. split; [exact E|]. apply H. exact E.
Defined.
