(* ===== verification/LfgQueue.v ===== *)
(** * Dungeon finder: the queue
      (src/src/server/game/DungeonFinding/LFGQueue.cpp, .h)

    Players and groups waiting for a dungeon, the cache of what combinations
    of them are worth, and the search that forms groups of five.  What the
    queue asks [LFGMgr] is the record [LfgView]; the proposals it creates and
    the status packets it sends are output.  Random draws come from a list. *)

From stdpp Require Import pretty.
From S2P Require Import Prelude.
From S2P Require Import LfgRoles.

(** ** Data *)

(* [game/DungeonFinding/LFGQueue.h:23-35] LfgCompatibility *)
Inductive LfgCompatibility :=
| LFG_COMPATIBILITY_PENDING
| LFG_INCOMPATIBLES_WRONG_GROUP_SIZE
| LFG_INCOMPATIBLES_TOO_MUCH_PLAYERS
| LFG_INCOMPATIBLES_MULTIPLE_LFG_GROUPS
| LFG_INCOMPATIBLES_HAS_IGNORES
| LFG_INCOMPATIBLES_NO_ROLES
| LFG_INCOMPATIBLES_NO_DUNGEONS
| LFG_COMPATIBLES_WITH_LESS_PLAYERS
| LFG_COMPATIBLES_BAD_STATES
| LFG_COMPATIBLES_MATCH.

#[export] Instance LfgCompatibility_eq_dec : EqDecision LfgCompatibility.
Proof. solve_decision. Defined.

(** The values from [LFG_COMPATIBLES_WITH_LESS_PLAYERS] on are compatible. *)
Definition compatible (c : LfgCompatibility) : bool :=
  match c with
  | LFG_COMPATIBLES_WITH_LESS_PLAYERS | LFG_COMPATIBLES_BAD_STATES | LFG_COMPATIBLES_MATCH => true
  | _ => false
  end.

Definition MAXGROUPSIZE := 5.

(* [game/DungeonFinding/LFGQueue.h:37-46] LfgCompatibilityData *)
Record LfgCompatibilityData := mkCompat {
  compatibility : LfgCompatibility;
  c_roles : LfgRolesMap
}.

(* [game/DungeonFinding/LFGQueue.h:49-67] LfgQueueData *)
Record LfgQueueData := mkQueueData {
  joinTime : Z;
  tanks : Z;                 (* uint8 *)
  healers : Z;               (* uint8 *)
  dps : Z;                   (* uint8 *)
  dungeons : gset Z;
  roles : LfgRolesMap;
  bestCompatible : string
}.

Definition new_QueueData (joinTime : Z) (dungeons : gset Z) (roles : LfgRolesMap) : LfgQueueData :=
  mkQueueData joinTime LFG_TANKS_NEEDED LFG_HEALERS_NEEDED LFG_DPS_NEEDED dungeons roles "".

(* [game/DungeonFinding/LFGQueue.h:69-74] LfgWaitTime *)
Record LfgWaitTime := mkWaitTime {
  time : Z;                  (* int32 *)
  number : Z                 (* uint32 *)
}.

(* [game/DungeonFinding/LFGMgr.h:214-220] LfgProposalPlayer *)
Record LfgProposalPlayer := mkProposalPlayer {
  role : Z;
  accept : Z;
  pp_group : Z
}.

(* [game/DungeonFinding/LFGMgr.h:223-240] LfgProposal *)
Record LfgProposal := mkProposal {
  dungeonId : Z;
  group : Z;
  leader : Z;
  cancelTime : Z;
  isNew : bool;
  queues : list Z;
  players : gmap Z LfgProposalPlayer
}.

(* [game/DungeonFinding/LFGMgr.h:172-190] LfgQueueStatusData *)
Record LfgQueueStatusData := mkStatus {
  q_dungeonId : Z; q_joinTime : Z; q_waitTime : Z; q_waitTimeAvg : Z; q_waitTimeTank : Z;
  q_waitTimeHealer : Z; q_waitTimeDps : Z; q_queuedTime : Z; q_tanks : Z; q_healers : Z; q_dps : Z
}.

(* [game/DungeonFinding/LFGQueue.h:83-141] LFGQueue *)
Record LFGQueue := mkQueue {
  QueueDataStore : gmap Z LfgQueueData;
  CompatibleMapStore : gmap string LfgCompatibilityData;
  waitTimesAvgStore : gmap Z LfgWaitTime;
  waitTimesTankStore : gmap Z LfgWaitTime;
  waitTimesHealerStore : gmap Z LfgWaitTime;
  waitTimesDpsStore : gmap Z LfgWaitTime;
  currentQueueStore : list Z;
  newToQueueStore : list Z;
  proposals : list LfgProposal;                      (* sLFGMgr->AddProposal *)
  statuses : list (Z * LfgQueueStatusData);          (* LFGMgr::SendLfgQueueStatus *)
  draws : list Z
}.

(** What the queue asks the rest of the dungeon finder, fixed while it searches. *)
Record LfgView := mkView {
  IsLfgGroup : Z -> bool;
  HasIgnore : Z -> Z -> bool;
  GetDungeon : Z -> Z;
  Queued : Z -> bool;            (* GetState(guid) == LFG_STATE_QUEUED *)
  now : Z
}.

(* [game/Entities/Object/ObjectDefines.h:78-82] GUID_HIPART *)
Definition GUID_HIPART (guid : Z) : Z :=
  let t := Z.land (Z.shiftr guid 48) 0xFFFF in
  if (t =? 0x1FF5) || (t =? 0xF101) then t else Z.land (Z.shiftr t 4) 0xFFF.

(* [game/Entities/Object/ObjectDefines.h:69-69] IS_GROUP *)
Definition IS_GROUP (guid : Z) : bool := GUID_HIPART guid =? 0x1F5.

(** ** Keys *)

Definition guid_string (guid : Z) : string := pretty guid.

(** The keys of a string map in their order. *)
Definition key_le_str {A} (p q : string * A) : Prop := String.leb p.1 q.1 = true.
#[export] Instance key_le_str_dec {A} (p q : string * A) : Decision (key_le_str p q).
Proof. unfold key_le_str. apply _. Defined.
Definition ordered_str {A} (m : gmap string A) : list (string * A) :=
  merge_sort key_le_str (map_to_list m).

Definition set_ordered (s : gset Z) : list Z := merge_sort Z.le (elements s).

Definition contains (sub s : string) : bool :=
  match String.index 0 sub s with Some _ => true | None => false end.

(* [game/DungeonFinding/LFGQueue.cpp:37-53] ConcatenateGuids *)
Definition ConcatenateGuids (check : list Z) : string :=
  String.concat "|" (map guid_string (set_ordered (list_to_set check))).

Fixpoint count_bars (s : string) : Z :=
  match s with
  | EmptyString => 0
  | String c s' => Z.b2z (Nat.eqb (Ascii.nat_of_ascii c) 124) + count_bars s'
  end.

(** ** Queue lists *)

(* [game/DungeonFinding/LFGQueue.cpp:123-126] LFGQueue::AddToNewQueue *)
Definition AddToNewQueue (guid : Z) (q : LFGQueue) : LFGQueue :=
  {| q with newToQueueStore := newToQueueStore q ++ [guid] |}.

(* [game/DungeonFinding/LFGQueue.cpp:128-131] LFGQueue::RemoveFromNewQueue *)
Definition RemoveFromNewQueue (guid : Z) (q : LFGQueue) : LFGQueue :=
  {| q with newToQueueStore := List.filter (fun x => negb (x =? guid)) (newToQueueStore q) |}.

(* [game/DungeonFinding/LFGQueue.cpp:133-136] LFGQueue::AddToCurrentQueue *)
Definition AddToCurrentQueue (guid : Z) (q : LFGQueue) : LFGQueue :=
  {| q with currentQueueStore := currentQueueStore q ++ [guid] |}.

(* [game/DungeonFinding/LFGQueue.cpp:138-141] LFGQueue::RemoveFromCurrentQueue *)
Definition RemoveFromCurrentQueue (guid : Z) (q : LFGQueue) : LFGQueue :=
  {| q with currentQueueStore := List.filter (fun x => negb (x =? guid)) (currentQueueStore q) |}.

(* [game/DungeonFinding/LFGQueue.cpp:84-94] LFGQueue::AddToQueue *)
Definition AddToQueue (guid : Z) (q : LFGQueue) : LFGQueue :=
  match QueueDataStore q !! guid with
  | None => q
  | Some _ => AddToNewQueue guid q
  end.

(* [game/DungeonFinding/LFGQueue.cpp:143-147] LFGQueue::AddQueueData *)
Definition AddQueueData (guid joinTime : Z) (dungeons : gset Z) (rolesMap : LfgRolesMap)
    (q : LFGQueue) : LFGQueue :=
  AddToQueue guid
    {| q with QueueDataStore := <[guid := new_QueueData joinTime dungeons rolesMap]> (QueueDataStore q) |}.

(* [game/DungeonFinding/LFGQueue.cpp:149-154] LFGQueue::RemoveQueueData *)
Definition RemoveQueueData (guid : Z) (q : LFGQueue) : LFGQueue :=
  {| q with QueueDataStore := delete guid (QueueDataStore q) |}.

(** ** Wait times *)

Definition wait_at (m : gmap Z LfgWaitTime) (d : Z) : LfgWaitTime := default (mkWaitTime (-1) 0) (m !! d).

(** [wt.time * old_number] is computed in [uint32]. *)
Definition update_wait (waitTime : Z) (wt : LfgWaitTime) : LfgWaitTime :=
  let old_number := number wt in
  let number := u32 (old_number + 1) in
  mkWaitTime (i32 (u32 (u32 (time wt * old_number) + waitTime) / number)) number.

(* [game/DungeonFinding/LFGQueue.cpp:156-161] LFGQueue::UpdateWaitTimeAvg *)
Definition UpdateWaitTimeAvg (waitTime dungeonId : Z) (q : LFGQueue) : LFGQueue :=
  {| q with waitTimesAvgStore :=
       <[dungeonId := update_wait waitTime (wait_at (waitTimesAvgStore q) dungeonId)]> (waitTimesAvgStore q) |}.

(* [game/DungeonFinding/LFGQueue.cpp:163-168] LFGQueue::UpdateWaitTimeTank *)
Definition UpdateWaitTimeTank (waitTime dungeonId : Z) (q : LFGQueue) : LFGQueue :=
  {| q with waitTimesTankStore :=
       <[dungeonId := update_wait waitTime (wait_at (waitTimesTankStore q) dungeonId)]> (waitTimesTankStore q) |}.

(* [game/DungeonFinding/LFGQueue.cpp:170-175] LFGQueue::UpdateWaitTimeHealer *)
Definition UpdateWaitTimeHealer (waitTime dungeonId : Z) (q : LFGQueue) : LFGQueue :=
  {| q with waitTimesHealerStore :=
       <[dungeonId := update_wait waitTime (wait_at (waitTimesHealerStore q) dungeonId)]> (waitTimesHealerStore q) |}.

(* [game/DungeonFinding/LFGQueue.cpp:177-182] LFGQueue::UpdateWaitTimeDps *)
Definition UpdateWaitTimeDps (waitTime dungeonId : Z) (q : LFGQueue) : LFGQueue :=
  {| q with waitTimesDpsStore :=
       <[dungeonId := update_wait waitTime (wait_at (waitTimesDpsStore q) dungeonId)]> (waitTimesDpsStore q) |}.

(** ** The cache *)

(* [game/DungeonFinding/LFGQueue.cpp:189-202] LFGQueue::RemoveFromCompatibles *)
Definition RemoveFromCompatibles (guid : Z) (q : LFGQueue) : LFGQueue :=
  {| q with CompatibleMapStore :=
       filter (fun kv => contains (guid_string guid) kv.1 = false) (CompatibleMapStore q) |}.

(* [game/DungeonFinding/LFGQueue.cpp:210-214] LFGQueue::SetCompatibles *)
Definition SetCompatibles (key : string) (compatibles : LfgCompatibility) (q : LFGQueue) : LFGQueue :=
  let data := default (mkCompat LFG_COMPATIBILITY_PENDING ∅) (CompatibleMapStore q !! key) in
  {| q with CompatibleMapStore :=
       <[key := {| data with compatibility := compatibles |}]> (CompatibleMapStore q) |}.

(* [game/DungeonFinding/LFGQueue.cpp:216-219] LFGQueue::SetCompatibilityData *)
Definition SetCompatibilityData (key : string) (data : LfgCompatibilityData) (q : LFGQueue) : LFGQueue :=
  {| q with CompatibleMapStore := <[key := data]> (CompatibleMapStore q) |}.

(* [game/DungeonFinding/LFGQueue.cpp:228-235] LFGQueue::GetCompatibles *)
Definition GetCompatibles (key : string) (q : LFGQueue) : LfgCompatibility :=
  match CompatibleMapStore q !! key with
  | Some data => compatibility data
  | None => LFG_COMPATIBILITY_PENDING
  end.

(* [game/DungeonFinding/LFGQueue.cpp:237-244] LFGQueue::GetCompatibilityData *)
Definition GetCompatibilityData (key : string) (q : LFGQueue) : option LfgCompatibilityData :=
  CompatibleMapStore q !! key.

(** The roles still needed by a combination of players. *)
Definition needed_after (queueData : LfgQueueData) (rs : LfgRolesMap) : LfgQueueData :=
  foldl (fun d kv =>
    if has_flag kv.2 PLAYER_ROLE_TANK then {| d with tanks := u8 (tanks d - 1) |}
    else if has_flag kv.2 PLAYER_ROLE_HEALER then {| d with healers := u8 (healers d - 1) |}
    else {| d with dps := u8 (dps d - 1) |})
    {| queueData with tanks := LFG_TANKS_NEEDED; healers := LFG_HEALERS_NEEDED; dps := LFG_DPS_NEEDED |}
    (ordered rs).

(** The entry is passed by the iterator to it. *)
(* [game/DungeonFinding/LFGQueue.cpp:647-676] LFGQueue::UpdateBestCompatibleInQueue *)
Definition UpdateBestCompatible_data (key : string) (rs : LfgRolesMap) (queueData : LfgQueueData)
    : LfgQueueData :=
  let storedSize := if decide (bestCompatible queueData = "") then 0
                    else u8 (count_bars (bestCompatible queueData) + 1) in
  let size := u8 (count_bars key + 1) in
  if size <=? storedSize then queueData
  else needed_after {| queueData with bestCompatible := key |} rs.

Definition UpdateBestCompatibleInQueue (guid : Z) (key : string) (rs : LfgRolesMap) (q : LFGQueue)
    : LFGQueue :=
  {| q with QueueDataStore := alter (UpdateBestCompatible_data key rs) guid (QueueDataStore q) |}.

(* [game/DungeonFinding/LFGQueue.cpp:632-645] LFGQueue::FindBestCompatibleInQueue *)
Definition FindBestCompatibleInQueue (guid : Z) (q : LFGQueue) : LFGQueue :=
  foldl (fun q kv =>
    if bool_decide (compatibility kv.2 = LFG_COMPATIBLES_WITH_LESS_PLAYERS)
       && contains (guid_string guid) kv.1
    then UpdateBestCompatibleInQueue guid kv.1 (c_roles kv.2) q else q)
    q (ordered_str (CompatibleMapStore q)).

(* [game/DungeonFinding/LFGQueue.cpp:96-121] LFGQueue::RemoveFromQueue *)
Definition RemoveFromQueue (guid : Z) (q : LFGQueue) : LFGQueue :=
  let q := RemoveFromCompatibles guid (RemoveFromCurrentQueue guid (RemoveFromNewQueue guid q)) in
  let q := foldl (fun q kv =>
    if negb (kv.1 =? guid) && contains (guid_string guid) (bestCompatible kv.2)
    then FindBestCompatibleInQueue kv.1
           {| q with QueueDataStore :=
                alter (fun d => {| d with bestCompatible := "" |}) kv.1 (QueueDataStore q) |}
    else q) q (ordered (QueueDataStore q)) in
  {| q with QueueDataStore := delete guid (QueueDataStore q) |}.

(** [QueueDataStore[guid]]: a missing entry is created. *)
Definition touch (v : LfgView) (guid : Z) (q : LFGQueue) : LFGQueue :=
  match QueueDataStore q !! guid with
  | Some _ => q
  | None => {| q with QueueDataStore := <[guid := new_QueueData (now v) ∅ ∅]> (QueueDataStore q) |}
  end.

Definition data_at (v : LfgView) (guid : Z) (q : LFGQueue) : LfgQueueData :=
  default (new_QueueData (now v) ∅ ∅) (QueueDataStore q !! guid).

(** [urand(lo, hi)]. *)
Definition urand (lo hi : Z) (q : LFGQueue) : Z * LFGQueue :=
  (lo + hd 0 (draws q) mod (hi - lo + 1), {| q with draws := tl (draws q) |}).

Section Search.
Context (v : LfgView).

(* [game/DungeonFinding/LFGMgr.cpp:1971-1980] LFGMgr::AllQueued *)
Definition AllQueued (check : list Z) : bool :=
  match check with
  | [] => false
  | _ => forallb (Queued v) check
  end.

(** The first loop of the check: the players of each entry with the group they
    came in, how many they are, and the dungeon finder groups among them. *)
Record Count := mkCount {
  numPlayers : Z;
  numLfgGroups : Z;
  proposalGroup : Z;
  proposalGroups : gmap Z Z
}.

(* [game/DungeonFinding/LFGQueue.cpp:347-372] LFGQueue::CheckCompatibility *)
Fixpoint count_players (check : list Z) (c : Count) (q : LFGQueue) : Z + Count :=
  match check with
  | [] => inr c
  | guid :: check' =>
    if (numLfgGroups c <? 2) && (numPlayers c <=? MAXGROUPSIZE) then
      match QueueDataStore q !! guid with
      | None => inl guid
      | Some d =>
        let c := {| c with
          proposalGroups := foldl (fun m kv => <[kv.1 := if IS_GROUP guid then guid else 0]> m)
                              (proposalGroups c) (ordered (roles d));
          numPlayers := u8 (numPlayers c + zlen (ordered (roles d))) |} in
        let c := if IsLfgGroup v guid
          then {| c with proposalGroup := if numLfgGroups c =? 0 then guid else proposalGroup c;
                  numLfgGroups := u8 (numLfgGroups c + 1) |}
          else c in
        count_players check' c q
      end
    else inr c
  end.

(** One player joins the proposed roles unless somebody there and they ignore
    each other. *)
Definition add_player (m : LfgRolesMap) (kv : Z * Z) : LfgRolesMap :=
  if forallb (fun p => (kv.1 =? p.1) || negb (HasIgnore v kv.1 p.1)) (ordered m)
  then <[kv.1 := kv.2]> m else m.

(* [game/DungeonFinding/LFGQueue.cpp:406-423] LFGQueue::CheckCompatibility *)
Fixpoint gather_roles (check : list Z) (m : LfgRolesMap) (q : LFGQueue) : LfgRolesMap * LFGQueue :=
  match check with
  | [] => (m, q)
  | guid :: check' =>
    let q := touch v guid q in
    gather_roles check' (foldl add_player m (ordered (roles (data_at v guid q)))) q
  end.

(* [game/DungeonFinding/LFGQueue.cpp:443-454] LFGQueue::CheckCompatibility *)
Fixpoint common_dungeons (check : list Z) (ds : gset Z) (q : LFGQueue) : gset Z * LFGQueue :=
  match check with
  | [] => (ds, q)
  | guid :: check' =>
    let q := touch v guid q in
    common_dungeons check' (ds ∩ dungeons (data_at v guid q)) q
  end.

(** The leader and the players of a proposal, over the roles in order. *)
(* [game/DungeonFinding/LFGQueue.cpp:503-522] LFGQueue::CheckCompatibility *)
Definition add_proposal_player (groups : gmap Z Z) (a : bool * LfgProposal * LFGQueue) (kv : Z * Z)
    : bool * LfgProposal * LFGQueue :=
  let '(leader_found, p, q) := a in
  let '(leader_found, p, q) :=
    if has_flag kv.2 PLAYER_ROLE_LEADER then
      if negb leader_found || (leader p =? 0) then (true, {| p with leader := kv.1 |}, q)
      else let '(u, q) := urand 0 1 q in
           (true, (if negb (u =? 0) then {| p with leader := kv.1 |} else p), q)
    else if negb leader_found then
      if leader p =? 0 then (leader_found, {| p with leader := kv.1 |}, q)
      else let '(u, q) := urand 0 1 q in
           (leader_found, (if negb (u =? 0) then {| p with leader := kv.1 |} else p), q)
    else (leader_found, p, q) in
  let g := default 0 (groups !! kv.1) in
  let acc := if negb (isNew p) && negb (g =? 0) && (g =? group p) then 1 else -1 in
  (leader_found, {| p with players := <[kv.1 := mkProposalPlayer kv.2 acc g]> (players p) |}, q).

(* [game/DungeonFinding/LFGQueue.cpp:485-532] LFGQueue::CheckCompatibility *)
Definition make_proposal (check : list Z) (c : Count) (rs : LfgRolesMap) (ds : gset Z) (q : LFGQueue)
    : LFGQueue :=
  let gguid := hd 0 check in
  let new := negb (numLfgGroups c =? 1) || (GetDungeon v gguid =? 0) in
  let l := set_ordered ds in
  let '(i, q) := urand 0 (zlen l - 1) q in
  let p := mkProposal (nth (Z.to_nat i) l 0) (proposalGroup c) 0 (now v + 45) new check ∅ in
  let '(_, p, q) := foldl (add_proposal_player (proposalGroups c)) (false, p, q) (ordered rs) in
  let q := foldl (fun q guid => RemoveFromCurrentQueue guid (RemoveFromNewQueue guid q)) q check in
  {| q with proposals := proposals q ++ [p] |}.

(** The part of the check after the sizes and groups: roles and dungeons of a
    combination, or why there is none. *)
(* [game/DungeonFinding/LFGQueue.cpp:403-470] LFGQueue::CheckCompatibility *)
Definition roles_and_dungeons (check : list Z) (numPlayers : Z) (q : LFGQueue)
    : (LfgCompatibility + LfgRolesMap * gset Z) * LFGQueue :=
  if 1 <? zlen check then
    let '(rs, q) := gather_roles check ∅ q in
    if negb (u8 (numPlayers - zlen (ordered rs)) =? 0) then (inl LFG_INCOMPATIBLES_HAS_IGNORES, q) else
    let '(ok, rs) := CheckGroupRoles rs in
    if negb ok then (inl LFG_INCOMPATIBLES_NO_ROLES, q) else
    let q := touch v (hd 0 check) q in
    let '(ds, q) := common_dungeons (tl check) (dungeons (data_at v (hd 0 check) q)) q in
    if bool_decide (ds = ∅) then (inl LFG_INCOMPATIBLES_NO_DUNGEONS, q) else (inr (rs, ds), q)
  else
    let gguid := hd 0 check in
    let q := touch v gguid q in
    let queue := data_at v gguid q in
    (inr ((CheckGroupRoles (roles queue)).2, dungeons queue), q).

(** The check of a combination whose tail, if any, is known to be compatible. *)
(* [game/DungeonFinding/LFGQueue.cpp:347-537] LFGQueue::CheckCompatibility *)
Definition check_combination (check : list Z) (q : LFGQueue) : LfgCompatibility * LFGQueue :=
  let strGuids := ConcatenateGuids check in
  match count_players check (mkCount 0 0 0 ∅) q with
  | inl guid => (LFG_COMPATIBILITY_PENDING, RemoveFromQueue guid q)
  | inr c =>
    if (zlen check =? 1) && negb (numPlayers c =? MAXGROUPSIZE) then
      let guid := hd 0 check in
      let rs := (CheckGroupRoles (roles (data_at v guid q))).2 in
      let q := UpdateBestCompatibleInQueue guid strGuids rs q in
      (LFG_COMPATIBLES_WITH_LESS_PLAYERS,
       SetCompatibilityData strGuids (mkCompat LFG_COMPATIBLES_WITH_LESS_PLAYERS rs) q)
    else if 1 <? numLfgGroups c then
      (LFG_INCOMPATIBLES_MULTIPLE_LFG_GROUPS, SetCompatibles strGuids LFG_INCOMPATIBLES_MULTIPLE_LFG_GROUPS q)
    else if MAXGROUPSIZE <? numPlayers c then
      (LFG_INCOMPATIBLES_TOO_MUCH_PLAYERS, SetCompatibles strGuids LFG_INCOMPATIBLES_TOO_MUCH_PLAYERS q)
    else
      match roles_and_dungeons check (numPlayers c) q with
      | (inl why, q) => (why, SetCompatibles strGuids why q)
      | (inr (rs, ds), q) =>
        if negb (numPlayers c =? MAXGROUPSIZE) then
          let q := foldl (fun q guid => UpdateBestCompatibleInQueue guid strGuids rs q) q check in
          (LFG_COMPATIBLES_WITH_LESS_PLAYERS,
           SetCompatibilityData strGuids (mkCompat LFG_COMPATIBLES_WITH_LESS_PLAYERS rs) q)
        else if negb (AllQueued check) then
          (LFG_COMPATIBLES_BAD_STATES, SetCompatibles strGuids LFG_COMPATIBLES_BAD_STATES q)
        else
          (LFG_COMPATIBLES_MATCH,
           SetCompatibles strGuids LFG_COMPATIBLES_MATCH (make_proposal check c rs ds q))
      end
  end.

(* [game/DungeonFinding/LFGQueue.cpp:314-537] LFGQueue::CheckCompatibility *)
Fixpoint CheckCompatibility (check : list Z) (q : LFGQueue) : LfgCompatibility * LFGQueue :=
  if (MAXGROUPSIZE <? zlen check) || (zlen check =? 0) then (LFG_INCOMPATIBLES_WRONG_GROUP_SIZE, q) else
  match check with
  | _ :: check' =>
    if 2 <? zlen check then
      let '(child_compatibles, q) := CheckCompatibility check' q in
      if negb (compatible child_compatibles)
      then (child_compatibles, SetCompatibles (ConcatenateGuids check) child_compatibles q)
      else check_combination check q
    else check_combination check q
  | [] => (LFG_INCOMPATIBLES_WRONG_GROUP_SIZE, q)
  end.

(** [all] is shared by the recursive calls: what an inner search has taken out
    is gone for the outer one.  [check] is back to what it was after each call
    that does not match.  [fuel]: one more than the length of [all]. *)
(* [game/DungeonFinding/LFGQueue.cpp:276-306] LFGQueue::FindNewGroups *)
Fixpoint FindNewGroups (fuel : nat) (check all : list Z) (q : LFGQueue)
    : LfgCompatibility * list Z * LFGQueue :=
  let strGuids := ConcatenateGuids check in
  let '(compatibles, q) :=
    if decide (GetCompatibles strGuids q = LFG_COMPATIBILITY_PENDING) then CheckCompatibility check q
    else (GetCompatibles strGuids q, q) in
  if bool_decide (compatibles = LFG_COMPATIBLES_BAD_STATES) && AllQueued check
  then (LFG_COMPATIBLES_MATCH, all, SetCompatibles strGuids LFG_COMPATIBLES_MATCH q)
  else if negb (bool_decide (compatibles = LFG_COMPATIBLES_WITH_LESS_PLAYERS))
  then (compatibles, all, q)
  else
    match fuel with
    | O => (compatibles, all, q)
    | S fuel' =>
      (fix try (n : nat) (all : list Z) (q : LFGQueue) : LfgCompatibility * list Z * LFGQueue :=
        match n, all with
        | _, [] => (compatibles, [], q)
        | O, _ => (compatibles, all, q)
        | S n', x :: all' =>
          let '(sub, all, q) := FindNewGroups fuel' (check ++ [x]) all' q in
          if decide (sub = LFG_COMPATIBLES_MATCH) then (LFG_COMPATIBLES_MATCH, all, q)
          else try n' all q
        end) (length all) all q
    end.

(** [fuel]: one more than the length of the list of newcomers. *)
(* [game/DungeonFinding/LFGQueue.cpp:246-267] LFGQueue::FindGroups *)
Fixpoint FindGroups (fuel : nat) (count : Z) (q : LFGQueue) : option Z * LFGQueue :=
  match newToQueueStore q with
  | [] => (Some count, q)
  | frontguid :: _ =>
    match fuel with
    | O => (None, q)
    | S fuel' =>
      let q := RemoveFromNewQueue frontguid q in
      let temporalList := currentQueueStore q in
      let '(compatibles, _, q) := FindNewGroups (S (length temporalList)) [frontguid] temporalList q in
      if decide (compatibles = LFG_COMPATIBLES_MATCH) then FindGroups fuel' (u8 (count + 1)) q
      else FindGroups fuel' count (AddToCurrentQueue frontguid q)
    end
  end.

(** ** Timers *)

(* [game/DungeonFinding/LFGQueue.cpp:542-587] LFGQueue::UpdateQueueTimers *)
Definition UpdateQueueTimer (currTime : Z) (q : LFGQueue) (guid : Z) : LFGQueue :=
  match QueueDataStore q !! guid with
  | None => q
  | Some queueinfo =>
    match set_ordered (dungeons queueinfo) with
    | [] => q
    | dungeonId :: _ =>
      let queuedTime := u32 (currTime - joinTime queueinfo) in
      let ensure m := <[dungeonId := wait_at m dungeonId]> m in
      let q := {| q with waitTimesTankStore := ensure (waitTimesTankStore q);
        waitTimesHealerStore := ensure (waitTimesHealerStore q);
        waitTimesDpsStore := ensure (waitTimesDpsStore q);
        waitTimesAvgStore := ensure (waitTimesAvgStore q) |} in
      let wtTank := time (wait_at (waitTimesTankStore q) dungeonId) in
      let wtHealer := time (wait_at (waitTimesHealerStore q) dungeonId) in
      let wtDps := time (wait_at (waitTimesDpsStore q) dungeonId) in
      let wtAvg := time (wait_at (waitTimesAvgStore q) dungeonId) in
      let role := foldl (fun r kv => u8 (Z.lor r kv.2)) PLAYER_ROLE_NONE (ordered (roles queueinfo)) in
      let role := u8 (Z.land role (Z.lnot PLAYER_ROLE_LEADER)) in
      let waitTime :=
        if role =? PLAYER_ROLE_NONE then -1
        else if role =? PLAYER_ROLE_TANK then wtTank
        else if role =? PLAYER_ROLE_HEALER then wtHealer
        else if role =? PLAYER_ROLE_DAMAGE then wtDps
        else wtAvg in
      let q := if decide (bestCompatible queueinfo = "") then FindBestCompatibleInQueue guid q else q in
      let queueinfo := data_at v guid q in
      let queueData := mkStatus dungeonId (i32 (joinTime queueinfo)) waitTime wtAvg wtTank wtHealer wtDps
        queuedTime (tanks queueinfo) (healers queueinfo) (dps queueinfo) in
      {| q with statuses := statuses q ++ map (fun kv => (kv.1, queueData)) (ordered (roles queueinfo)) |}
    end
  end.

(* [game/DungeonFinding/LFGQueue.cpp:539-588] LFGQueue::UpdateQueueTimers *)
Definition UpdateQueueTimers (currTime : Z) (q : LFGQueue) : LFGQueue :=
  foldl (UpdateQueueTimer currTime) q (ordered (QueueDataStore q)).*1.

(* [game/DungeonFinding/LFGQueue.cpp:590-593] LFGQueue::GetJoinTime *)
Definition GetJoinTime (guid : Z) (q : LFGQueue) : Z * LFGQueue :=
  let q := touch v guid q in (joinTime (data_at v guid q), q).
End Search.
