(* ===== verification/LfgQueueSpec.v ===== *)
(** * Dungeon finder queue: only well-formed groups are proposed *)

From S2P Require Import Prelude.
From S2P Require Import LfgRoles.
From S2P Require Import LfgQueue.

#[export] Instance bool_filter_Permutation {A} (f : A -> bool) :
  Proper (Permutation ==> Permutation) (List.filter f).
Proof.
  intros l1 l2. induction 1 as [|x l1 l2 _ IH|x y l|l1 l2 l3 _ IH1 _ IH2]; cbn; [done| | |by rewrite IH1].
  - destruct (f x); [by rewrite IH|done].
  - destruct (f x), (f y); try done. constructor.
Qed.

(** ** Folding insertions *)

Lemma foldl_insert_lookup {A} (l : list (Z * A)) (m : gmap Z A) k :
  NoDup l.*1 ->
  foldl (fun m kv => <[kv.1 := kv.2]> m) m l !! k =
    match (list_to_map l : gmap Z A) !! k with Some x => Some x | None => m !! k end.
Proof.
  revert m. induction l as [|[k' x] l IH]; intros m Hn; [done|].
  cbn in Hn. apply NoDup_cons in Hn as [Hk Hn]. cbn [foldl list_to_map foldr fst snd].
  rewrite IH by done. destruct (decide (k = k')) as [->|Hne].
  - rewrite lookup_insert_eq. rewrite not_elem_of_list_to_map_1 by done. by rewrite lookup_insert_eq.
  - by rewrite !lookup_insert_ne by done.
Qed.

Lemma foldl_insert_ordered {A} (m : gmap Z A) :
  foldl (fun m kv => <[kv.1 := kv.2]> m) ∅ (ordered m) = m.
Proof.
  apply map_eq. intros k. rewrite foldl_insert_lookup by apply NoDup_ordered.
  rewrite list_to_map_ordered. destruct (m !! k); [done|]. apply lookup_empty.
Qed.

Lemma zlen_ordered {A} (m : gmap Z A) : zlen (ordered m) = Z.of_nat (size m).
Proof. unfold zlen. by rewrite ordered_Permutation, length_map_to_list. Qed.

Section Spec.
Context (v : LfgView).
Context (ignore_sym : forall a b, HasIgnore v a b = HasIgnore v b a).

(** ** What a step may do to the queue besides proposing *)

Record stays (q q' : LFGQueue) : Prop := {
  stays_data : forall g d', QueueDataStore q' !! g = Some d' ->
    exists d, QueueDataStore q !! g = Some d /\ dungeons d' = dungeons d /\ roles d' = roles d;
  stays_new : (length (newToQueueStore q') <= length (newToQueueStore q))%nat
}.

Definition quiet (q q' : LFGQueue) : Prop := stays q q' /\ proposals q' = proposals q.

Lemma stays_refl q : stays q q.
Proof. split; [by eauto|lia]. Qed.

Lemma stays_trans q1 q2 q3 : stays q1 q2 -> stays q2 q3 -> stays q1 q3.
Proof.
  intros [D1 N1] [D2 N2]. split; [|lia]. intros g d3 H3.
  destruct (D2 g d3 H3) as (d2 & H2 & E1 & E2). destruct (D1 g d2 H2) as (d1 & H1 & E3 & E4).
  exists d1. by rewrite E1, E2.
Qed.

Lemma quiet_refl q : quiet q q.
Proof. split; [apply stays_refl|done]. Qed.

Lemma quiet_trans q1 q2 q3 : quiet q1 q2 -> quiet q2 q3 -> quiet q1 q3.
Proof. intros [S1 P1] [S2 P2]. split; [by eapply stays_trans|by rewrite P2]. Qed.

Lemma quiet_foldl {A} (f : LFGQueue -> A -> LFGQueue) l q :
  (forall q x, quiet q (f q x)) -> quiet q (foldl f q l).
Proof.
  intros Hf. revert q. induction l as [|x l IH]; intros q; [apply quiet_refl|].
  eapply quiet_trans; [apply Hf|apply IH].
Qed.

Lemma quiet_same q q' : QueueDataStore q' = QueueDataStore q -> proposals q' = proposals q ->
  (length (newToQueueStore q') <= length (newToQueueStore q))%nat -> quiet q q'.
Proof. intros E P N. split; [split; [rewrite E; by eauto|done]|done]. Qed.

Lemma filter_length_le {A} (f : A -> bool) l : (length (List.filter f l) <= length l)%nat.
Proof. induction l as [|x l IH]; cbn; [lia|]. destruct (f x); cbn; lia. Qed.

Lemma quiet_alter q f g :
  (forall d, dungeons (f d) = dungeons d /\ roles (f d) = roles d) ->
  quiet q {| q with QueueDataStore := alter f g (QueueDataStore q) |}.
Proof.
  intros Hf. split; [split; [|cbn; lia]|done]. cbn. intros g' d' H.
  destruct (decide (g = g')) as [<-|Hne].
  - rewrite lookup_alter_eq in H. destruct (QueueDataStore q !! g) as [d|]; [|done].
    injection H as <-. exists d. destruct (Hf d). done.
  - rewrite lookup_alter_ne in H by done. by eauto.
Qed.

Lemma quiet_delete q g : quiet q {| q with QueueDataStore := delete g (QueueDataStore q) |}.
Proof.
  split; [split; [|cbn; lia]|done]. cbn. intros g' d' H. apply lookup_delete_Some in H as [_ H]. eauto.
Qed.

Lemma quiet_RemoveFromNewQueue g q : quiet q (RemoveFromNewQueue g q).
Proof. apply quiet_same; [done|done|]. apply filter_length_le. Qed.

Lemma quiet_RemoveFromCurrentQueue g q : quiet q (RemoveFromCurrentQueue g q).
Proof. by apply quiet_same. Qed.

Lemma needed_after_data d rs : dungeons (needed_after d rs) = dungeons d /\ roles (needed_after d rs) = roles d.
Proof.
  unfold needed_after. apply (foldl_inv (fun d' => dungeons d' = dungeons d /\ roles d' = roles d)); [done|].
  intros d' kv _ H. destruct (has_flag _ _); [done|]. by destruct (has_flag _ _).
Qed.

Lemma quiet_UpdateBest g key rs q : quiet q (UpdateBestCompatibleInQueue g key rs q).
Proof.
  apply quiet_alter. intros d. unfold UpdateBestCompatible_data. destruct (_ <=? _); [done|].
  apply (needed_after_data {| d with bestCompatible := key |}).
Qed.

Lemma quiet_FindBest g q : quiet q (FindBestCompatibleInQueue g q).
Proof. apply quiet_foldl. intros q' kv. destruct (_ && _); [apply quiet_UpdateBest|apply quiet_refl]. Qed.

Lemma quiet_RemoveFromQueue g q : quiet q (RemoveFromQueue g q).
Proof.
  unfold RemoveFromQueue. eapply quiet_trans; [|apply quiet_delete].
  eapply quiet_trans; [|apply quiet_foldl].
  - eapply quiet_trans; [apply (quiet_RemoveFromNewQueue g)|].
    eapply quiet_trans; [apply (quiet_RemoveFromCurrentQueue g)|]. by apply quiet_same.
  - intros q' kv. destruct (_ && _); [|apply quiet_refl].
    eapply quiet_trans; [|apply quiet_FindBest]. by apply quiet_alter.
Qed.

Lemma quiet_SetCompatibles k c q : quiet q (SetCompatibles k c q).
Proof. by apply quiet_same. Qed.

Lemma quiet_SetCompatibilityData k d q : quiet q (SetCompatibilityData k d q).
Proof. by apply quiet_same. Qed.

Lemma quiet_urand lo hi q : quiet q (urand lo hi q).2.
Proof. by apply quiet_same. Qed.

(** ** Well-formed entries and proposals *)

(** What joining guarantees: a player or group has members, fewer than 200, and
    roles in the known bits. *)
Definition data_ok (q : LFGQueue) : Prop := forall g d, QueueDataStore q !! g = Some d ->
  (size (roles d) < 200)%nat /\ map_Forall (fun _ r => 0 <= r < 16) (roles d).

Lemma stays_data_ok q q' : data_ok q -> stays q q' -> data_ok q'.
Proof.
  intros H [S _] g d' Hd'. destruct (S g d' Hd') as (d & Hd & _ & ->). by apply (H g).
Qed.

Definition is_role (r : Z) (pp : LfgProposalPlayer) : bool := role pp =? r.

(** The promise of a proposal, relative to the entries queued at [q0]. *)
Record proposal_ok (q0 : LFGQueue) (p : LfgProposal) : Prop := {
  po_queued : AllQueued v (queues p) = true;
  po_five : size (players p) = 5%nat;
  po_one_group : (length (List.filter (IsLfgGroup v) (queues p)) <= 1)%nat;
  po_dungeon : (1 < length (queues p))%nat -> forall g, g ∈ queues p ->
    exists d, QueueDataStore q0 !! g = Some d /\ dungeonId p ∈ dungeons d;
  po_members : (1 < length (queues p))%nat -> forall a, is_Some (players p !! a) ->
    exists g d, g ∈ queues p /\ QueueDataStore q0 !! g = Some d /\ is_Some (roles d !! a);
  po_roles : (1 < length (queues p))%nat ->
    countP (is_role PLAYER_ROLE_TANK) (players p) = 1
    /\ countP (is_role PLAYER_ROLE_HEALER) (players p) = 1
    /\ countP (is_role PLAYER_ROLE_DAMAGE) (players p) = 3;
  po_ignore : (1 < length (queues p))%nat -> forall a b, a <> b ->
    is_Some (players p !! a) -> is_Some (players p !! b) -> HasIgnore v a b = false
}.

Lemma proposal_ok_stays q q' p : stays q q' -> proposal_ok q' p -> proposal_ok q p.
Proof.
  intros [S _] [H1 H2 H3 H4 H5 H6 H7]. split; try done.
  - intros Hl g Hg. destruct (H4 Hl g Hg) as (d' & Hd' & Hin). destruct (S g d' Hd') as (d & Hd & E & _).
    exists d. by rewrite <- E.
  - intros Hl a Ha. destruct (H5 Hl a Ha) as (g & d' & Hg & Hd' & Hin).
    destruct (S g d' Hd') as (d & Hd & _ & E). exists g, d. by rewrite <- E.
Qed.

(** A step: the queue stays, and the proposals it adds are in order. *)
Definition step_ok (q q' : LFGQueue) : Prop :=
  stays q q' /\ exists new, proposals q' = proposals q ++ new /\ Forall (proposal_ok q) new.

Lemma step_refl q : step_ok q q.
Proof. split; [apply stays_refl|]. exists []. by rewrite app_nil_r. Qed.

Lemma step_quiet q q' : quiet q q' -> step_ok q q'.
Proof. intros [S P]. split; [done|]. exists []. by rewrite app_nil_r. Qed.

Lemma step_trans q1 q2 q3 : step_ok q1 q2 -> step_ok q2 q3 -> step_ok q1 q3.
Proof.
  intros [S1 (n1 & P1 & F1)] [S2 (n2 & P2 & F2)]. split; [by eapply stays_trans|].
  exists (n1 ++ n2). split; [by rewrite P2, P1, app_assoc|]. apply Forall_app. split; [done|].
  eapply list.Forall_impl; [exact F2|]. intros p. by apply proposal_ok_stays.
Qed.

(** ** The parts of the check *)

Definition present (q : LFGQueue) (check : list Z) : Prop :=
  Forall (fun g => is_Some (QueueDataStore q !! g)) check.

Fixpoint total (q : LFGQueue) (check : list Z) : Z :=
  match check with
  | [] => 0
  | g :: check' => from_option (fun d => Z.of_nat (size (roles d))) 0 (QueueDataStore q !! g) + total q check'
  end.

Lemma group_total_nonneg q check : 0 <= total q check.
Proof. induction check as [|g check IH]; cbn; [lia|]. destruct (QueueDataStore q !! g); cbn; lia. Qed.

Lemma count_players_spec q check c c' :
  data_ok q -> 0 <= numPlayers c -> 0 <= numLfgGroups c ->
  count_players v check c q = inr c' -> numLfgGroups c' <= 1 -> numPlayers c' <= MAXGROUPSIZE ->
  present q check /\ numPlayers c' = numPlayers c + total q check
  /\ numLfgGroups c' = numLfgGroups c + zlen (List.filter (IsLfgGroup v) check).
Proof.
  intros Hok. revert c. induction check as [|g check IH]; intros c Hp Hg; cbn [count_players].
  { intros [= <-] _ _. unfold zlen. cbn. rewrite !Z.add_0_r. split; [constructor|done]. }
  destruct (Z.ltb_spec (numLfgGroups c) 2) as [H2|]; cbn [andb].
  2:{ intros [= <-]. lia. }
  destruct (Z.leb_spec (numPlayers c) MAXGROUPSIZE) as [H5|].
  2:{ intros [= <-]. lia. }
  destruct (QueueDataStore q !! g) as [d|] eqn:E; [|done].
  destruct (Hok g d E) as [Hsize _]. pose proof (zlen_ordered (roles d)) as En0.
  set (n := zlen (ordered (roles d))) in *.
  unfold MAXGROUPSIZE in *.
  assert (in_u 8 (numPlayers c + n)) as Hw by lia.
  rewrite (wrap_small _ _ Hw). intros Hc Hl1 Hl2.
  apply IH in Hc as (Hpr & En & Eg); try done.
  - split_and!; [by constructor| |].
    + rewrite En. cbn [total]. rewrite E. cbn [from_option].
      destruct (IsLfgGroup v g); cbn [numPlayers]; lia.
    + rewrite Eg. cbn [List.filter]. destruct (IsLfgGroup v g); cbn [numLfgGroups].
      * rewrite wrap_small by lia. unfold zlen. cbn [length]. lia.
      * done.
  - destruct (IsLfgGroup v g); cbn [numPlayers]; lia.
  - destruct (IsLfgGroup v g); cbn [numLfgGroups]; [|done]. apply wrap_range. lia.
Qed.

Lemma touch_present g q d : QueueDataStore q !! g = Some d -> touch v g q = q /\ data_at v g q = d.
Proof. intros E. unfold touch, data_at. by rewrite E. Qed.

(** Players gathered so far: nobody ignores anybody. *)
Definition peaceful {A} (m : gmap Z A) : Prop := forall a b, a <> b ->
  is_Some (m !! a) -> is_Some (m !! b) -> HasIgnore v a b = false.

Lemma add_players_spec (l : list (Z * Z)) (m : LfgRolesMap) :
  peaceful m -> map_Forall (fun _ r => 0 <= r < 16) m -> Forall (fun kv => 0 <= kv.2 < 16) l ->
  let m' := foldl (add_player v) m l in
  peaceful m' /\ map_Forall (fun _ r => 0 <= r < 16) m'
  /\ (forall a, is_Some (m' !! a) -> is_Some (m !! a) \/ a ∈ l.*1)
  /\ (size m' <= size m + length l)%nat.
Proof.
  intros Hp Hr Hl. revert m Hp Hr. induction Hl as [|[k r] l Hkr _ IH]; intros m Hp Hr m'.
  { split_and!; auto. cbn. lia. }
  subst m'. cbn [foldl]. set (m1 := add_player v m (k, r)).
  assert (peaceful m1 /\ map_Forall (fun _ r => 0 <= r < 16) m1
    /\ (forall a, is_Some (m1 !! a) -> is_Some (m !! a) \/ a = k) /\ (size m1 <= S (size m))%nat)
    as (Hp1 & Hr1 & Hd1 & Hs1).
  { unfold m1, add_player. cbn [fst snd]. destruct (forallb _ _) eqn:Ef; [|split_and!; auto].
    assert (Hk : forall b, b <> k -> is_Some (m !! b) -> HasIgnore v k b = false).
    { intros b Hb [x Hx]. apply elem_of_ordered in Hx.
      pose proof (forallb_elem _ _ _ Ef Hx) as Hf. cbn in Hf.
      destruct (Z.eqb_spec k b); [by subst|]. by apply negb_true_iff in Hf. }
    split_and!.
    - intros a b Hab Ha Hb. destruct (decide (a = k)) as [->|], (decide (b = k)) as [->|]; [done| | |].
      + rewrite lookup_insert_ne in Hb by done. by apply Hk.
      + rewrite lookup_insert_ne in Ha by done. rewrite ignore_sym. by apply Hk.
      + rewrite lookup_insert_ne in Ha, Hb by done. by apply Hp.
    - by apply map_Forall_insert_2.
    - intros a Ha. destruct (decide (a = k)) as [->|]; [by right|].
      rewrite lookup_insert_ne in Ha by done. by left.
    - pose proof (map_size_insert k r m) as E. destruct (m !! k); unfold id in E; lia. }
  destruct (IH m1 Hp1 Hr1) as (H1 & H2 & H3 & H4). split_and!; [done|done| |].
  - intros a Ha. destruct (H3 a Ha) as [H|H].
    + destruct (Hd1 a H) as [? | ->]; [by left|right; constructor].
    + right. by constructor.
  - cbn [length]. lia.
Qed.

Lemma gather_roles_spec q check m :
  data_ok q -> present q check -> peaceful m -> map_Forall (fun _ r => 0 <= r < 16) m ->
  exists m', gather_roles v check m q = (m', q) /\ peaceful m' /\ map_Forall (fun _ r => 0 <= r < 16) m'
  /\ (forall a, is_Some (m' !! a) -> is_Some (m !! a) \/
       exists g d, g ∈ check /\ QueueDataStore q !! g = Some d /\ is_Some (roles d !! a))
  /\ Z.of_nat (size m') <= Z.of_nat (size m) + total q check.
Proof.
  intros Hok Hpr. revert m. induction Hpr as [|g check [d Hd] _ IH]; intros m Hp Hr; cbn [gather_roles].
  { exists m. split_and!; auto. cbn. lia. }
  destruct (touch_present g q d Hd) as [-> ->]. destruct (Hok g d Hd) as [_ Hrd].
  destruct (add_players_spec (ordered (roles d)) m Hp Hr) as (H1 & H2 & H3 & H4).
  { apply list.Forall_forall. intros [k r] Hin. apply elem_of_ordered in Hin. by apply (Hrd k). }
  destruct (IH _ H1 H2) as (m' & E & P1 & P2 & P3 & P4). exists m'. split_and!; [done..| |].
  - intros a Ha. destruct (P3 a Ha) as [Hs|(g' & d' & Hg & Hd' & Hs)].
    + destruct (H3 a Hs) as [?|Hin]; [by left|]. right. exists g, d. split_and!; [constructor|done|].
      apply list_elem_of_fmap in Hin as ([k r] & -> & Hin). apply elem_of_ordered in Hin. by exists r.
    + right. exists g', d'. split_and!; [by constructor|done..].
  - cbn [total]. rewrite Hd. cbn [from_option].
    pose proof (zlen_ordered (roles d)) as E'. unfold zlen in E'. lia.
Qed.

Lemma common_dungeons_spec q check ds :
  present q check -> exists ds', common_dungeons v check ds q = (ds', q) /\ ds' ⊆ ds
  /\ forall g, g ∈ check -> exists d, QueueDataStore q !! g = Some d /\ ds' ⊆ dungeons d.
Proof.
  intros Hpr. revert ds. induction Hpr as [|g check [d Hd] _ IH]; intros ds; cbn [common_dungeons].
  { exists ds. split_and!; [done..|]. intros g Hg. by apply not_elem_of_nil in Hg. }
  destruct (touch_present g q d Hd) as [-> ->].
  destruct (IH (ds ∩ dungeons d)) as (ds' & E & H1 & H2). exists ds'. split_and!; [done|set_solver|].
  intros g' Hg. apply elem_of_cons in Hg as [->|Hg]; [|by apply H2].
  exists d. split; [done|]. set_solver.
Qed.

(** What an accepted combination looks like. *)
Record combination (q : LFGQueue) (check : list Z) (rs : LfgRolesMap) (ds : gset Z) : Prop := {
  cb_dungeons : forall g, g ∈ check -> exists d, QueueDataStore q !! g = Some d /\ ds ⊆ dungeons d;
  cb_members : forall a, is_Some (rs !! a) ->
    exists g d, g ∈ check /\ QueueDataStore q !! g = Some d /\ is_Some (roles d !! a);
  cb_roles : exists xs, Forall (fun x => x ∈ roles3) xs /\ fits xs /\ (map_to_list rs).*2 ≡ₚ xs;
  cb_ignore : peaceful rs;
  cb_nonempty : ds <> ∅
}.

(** The values of the map the role check returns. *)
Lemma CheckGroupRoles_values (m : LfgRolesMap) (xs : list Z) :
  length xs = size m ->
  let res : gmap Z Z := list_to_map (zip (ordered m).*1 xs) in
  (map_to_list res).*2 ≡ₚ xs /\ (forall a, is_Some (res !! a) <-> is_Some (m !! a)) /\ size res = size m.
Proof.
  intros Hlen res.
  assert (Hl : length (ordered m).*1 = length xs).
  { rewrite length_fmap, ordered_Permutation, length_map_to_list. done. }
  assert (Hk : (zip (ordered m).*1 xs).*1 = (ordered m).*1) by (apply fst_zip; lia).
  assert (Hp : map_to_list res ≡ₚ zip (ordered m).*1 xs).
  { apply map_to_list_to_map. rewrite Hk. apply NoDup_ordered. }
  split_and!.
  - rewrite Hp. rewrite snd_zip by lia. done.
  - intros a. assert (is_Some (m !! a) <-> a ∈ (ordered m).*1) as ->.
    { split.
      - intros [x Hx]. apply elem_of_ordered in Hx. apply list_elem_of_fmap. by exists (a, x).
      - intros Hin. apply list_elem_of_fmap in Hin as ([k x] & -> & Hin).
        apply elem_of_ordered in Hin. by exists x. }
    rewrite <- Hk. unfold res. split.
    + intros [x Hx]. apply elem_of_list_to_map_2 in Hx. apply list_elem_of_fmap. by exists (a, x).
    + intros Hin. destruct (list_to_map (zip (ordered m).*1 xs) !! a) eqn:E; [by eexists|].
      by apply not_elem_of_list_to_map_2 in E.
  - pose proof (Permutation_length Hp) as E. rewrite length_map_to_list in E. rewrite E, length_zip, Hl. lia.
Qed.

Lemma roles_and_dungeons_spec q check n rs ds q' :
  data_ok q -> present q check -> n = total q check -> n < 200 -> (1 < length check)%nat ->
  roles_and_dungeons v check n q = (inr (rs, ds), q') ->
  q' = q /\ combination q check rs ds /\ Z.of_nat (size rs) = n.
Proof.
  intros Hok Hpr -> Hn Hlen. unfold roles_and_dungeons.
  destruct (Z.ltb_spec 1 (zlen check)); [|unfold zlen in *; lia].
  destruct (gather_roles_spec q check ∅ Hok Hpr) as (m & -> & Hpeace & Hval & Hdom & Hsize).
  { intros a b _ Ha. rewrite lookup_empty in Ha. by destruct Ha. }
  { apply map_Forall_empty. }
  rewrite map_size_empty in Hsize. rewrite zlen_ordered.
  rewrite wrap_small by (split; [lia|]; change (2 ^ 8) with 256; lia).
  destruct (Z.eqb_spec (total q check - Z.of_nat (size m)) 0) as [Hz|]; cbn [negb]; [|done].
  destruct check as [|g0 check']; [done|].
  inversion Hpr as [|? ? [d0 Hd0] Hpr']; subst. cbn [hd tl].
  destruct (touch_present g0 q d0 Hd0) as [-> ->].
  assert (Hne : m = ∅ \/ m <> ∅) by (destruct (decide (m = ∅)); auto).
  destruct Hne as [->|Hne]; [by cbn|].
  pose proof (CheckGroupRoles_correct m Hne Hval ltac:(rewrite zlen_ordered; lia)) as Hc.
  destruct (CheckGroupRoles m) as [ok res]. cbn zeta in Hc. destruct Hc as (_ & xs & Eres & Hxs).
  destruct ok; cbn [negb]; [|done].
  destruct (common_dungeons_spec q check' (dungeons d0) Hpr') as (ds' & -> & Hsub & Hds).
  case_bool_decide as Hemp; [done|]. intros [= <- <- <-].
  destruct Hxs as [Hch Hfit].
  assert (length xs = size m) as Hlx.
  { apply Forall2_length in Hch. rewrite <- Hch, length_map, length_fmap, ordered_Permutation.
    apply length_map_to_list. }
  destruct (CheckGroupRoles_values m xs Hlx) as (Hv & Hd & Hs). rewrite <- Eres in *.
  split_and!; [done| |lia]. split.
  - intros g Hg. apply elem_of_cons in Hg as [->|Hg]; [|by apply Hds]. by exists d0.
  - intros a Ha. apply Hd in Ha. destruct (Hdom a Ha) as [He|?]; [|done].
    rewrite lookup_empty in He. by destruct He.
  - exists xs. split_and!; [|done|done]. clear -Hch. induction Hch as [|? ? ? ? [H _] _ IH]; by constructor.
  - intros a b Hab Ha Hb. apply Hpeace; [done|by apply Hd..].
  - done.
Qed.

(** ** Making the proposal *)

Lemma countP_values {A} (P : A -> bool) (m : gmap Z A) :
  countP P m = zlen (List.filter P (map_to_list m).*2).
Proof.
  induction m as [|k x m Hk IH] using map_ind; [by rewrite countP_empty, map_to_list_empty|].
  rewrite countP_insert_new, IH by done.
  assert (E : List.filter P (map_to_list (<[k:=x]> m)).*2 ≡ₚ List.filter P (x :: (map_to_list m).*2)).
  { rewrite (map_to_list_insert m k x Hk). done. }
  unfold zlen. rewrite (Permutation_length E). cbn [List.filter]. destruct (P x); cbn; lia.
Qed.

Lemma count_role_perm x l1 l2 : l1 ≡ₚ l2 -> count_role x l1 = count_role x l2.
Proof. intros E. unfold count_role, zlen. by rewrite E. Qed.

Lemma CheckGroupRoles_size (m : LfgRolesMap) :
  m <> ∅ -> map_Forall (fun _ r => 0 <= r < 16) m -> (size m < 200)%nat ->
  size (CheckGroupRoles m).2 = size m.
Proof.
  intros Hne Hval Hs.
  pose proof (CheckGroupRoles_correct m Hne Hval ltac:(rewrite zlen_ordered; lia)) as Hc.
  destruct (CheckGroupRoles m) as [ok res]. cbn zeta in Hc. destruct Hc as (_ & xs & Eres & Hxs).
  cbn [snd]. rewrite Eres. apply CheckGroupRoles_values.
  assert (Hlen : length (map offered (ordered m).*2) = size m).
  { rewrite length_map, length_fmap, ordered_Permutation. apply length_map_to_list. }
  destruct ok; [|by subst].
  destruct Hxs as [Hch _]. apply Forall2_length in Hch. by rewrite <- Hch.
Qed.

Lemma add_proposal_players_spec groups l lf p q :
  let '(_, p', q') := foldl (add_proposal_player groups) (lf, p, q) l in
  queues p' = queues p /\ dungeonId p' = dungeonId p /\ quiet q q'
  /\ role <$> players p' = foldl (fun m kv => <[kv.1 := kv.2]> m) (role <$> players p) l.
Proof.
  revert lf p q. induction l as [|kv l IH]; intros lf p q; [by split_and!; try apply quiet_refl|].
  cbn [foldl]. destruct (add_proposal_player groups (lf, p, q) kv) as [[lf1 p1] q1] eqn:E.
  assert (queues p1 = queues p /\ dungeonId p1 = dungeonId p /\ quiet q q1
    /\ role <$> players p1 = <[kv.1 := kv.2]> (role <$> players p)) as (E1 & E2 & E3 & E4).
  { unfold add_proposal_player, urand in E. cbv beta iota zeta in E.
    repeat (match type of E with context [if ?c then _ else _] => destruct c end; cbv beta iota zeta in E);
      injection E as <- <- <-; cbn; rewrite ?fmap_insert; split_and!; try done;
      by (apply quiet_refl || apply quiet_same). }
  specialize (IH lf1 p1 q1). destruct (foldl (add_proposal_player groups) (lf1, p1, q1) l) as [[lf2 p2] q2].
  destruct IH as (F1 & F2 & F3 & F4). rewrite F1, F2, F4, E1, E2, E4. split_and!; try done.
  by eapply quiet_trans.
Qed.

Lemma set_ordered_elem s x : x ∈ set_ordered s <-> x ∈ s.
Proof. unfold set_ordered. rewrite merge_sort_Permutation. apply elem_of_elements. Qed.

Lemma urand_pick (s : gset Z) q : s <> ∅ ->
  nth (Z.to_nat (urand 0 (zlen (set_ordered s) - 1) q).1) (set_ordered s) 0 ∈ s.
Proof.
  intros Hs. assert (Hl : 0 < zlen (set_ordered s)).
  { unfold zlen, set_ordered. rewrite merge_sort_Permutation.
    change (length (elements s)) with (size s).
    assert (size s <> 0%nat) by (intros E; apply Hs; by apply leibniz_equiv, size_empty_iff). lia. }
  apply set_ordered_elem. unfold urand. cbn [fst].
  pose proof (Z.mod_pos_bound (hd 0 (draws q)) (zlen (set_ordered s) - 1 - 0 + 1) ltac:(lia)) as Hm.
  set (i := Z.to_nat _).
  destruct (set_ordered s !! i) as [x|] eqn:E.
  - rewrite (nth_lookup_Some _ _ _ _ E). by eapply list_elem_of_lookup_2.
  - apply lookup_ge_None in E. unfold zlen in *. subst i. lia.
Qed.

Lemma make_proposal_step check c rs ds q :
  size rs = 5%nat -> AllQueued v check = true -> numLfgGroups c <= 1 ->
  numLfgGroups c = zlen (List.filter (IsLfgGroup v) check) ->
  ((1 < length check)%nat -> combination q check rs ds) -> step_ok q (make_proposal v check c rs ds q).
Proof.
  intros Hsize Hq Hg1 Hg2 Hcomb. unfold make_proposal.
  destruct (urand 0 (zlen (set_ordered ds) - 1) q) as [i q1] eqn:Eu.
  assert (Hq1 : quiet q q1) by (pose proof (quiet_urand 0 (zlen (set_ordered ds) - 1) q) as H; by rewrite Eu in H).
  set (p0 := mkProposal _ _ _ _ _ _ _).
  pose proof (add_proposal_players_spec (proposalGroups c) (ordered rs) false p0 q1) as Hp.
  destruct (foldl (add_proposal_player (proposalGroups c)) (false, p0, q1) (ordered rs)) as [[lf p] q2].
  destruct Hp as (Eq & Ed & Hq2 & Er). cbn [players p0] in Er.
  rewrite fmap_empty, foldl_insert_ordered in Er.
  set (q3 := foldl _ q2 check).
  assert (Hq3 : quiet q q3).
  { eapply quiet_trans; [exact Hq1|]. eapply quiet_trans; [exact Hq2|]. apply quiet_foldl. intros q' g.
    eapply quiet_trans; [apply quiet_RemoveFromNewQueue|apply quiet_RemoveFromCurrentQueue]. }
  assert (Hps : forall a, is_Some (players p !! a) <-> is_Some (rs !! a)).
  { intros a. rewrite <- Er, lookup_fmap. destruct (players p !! a); cbn; split; intros [? ?]; eauto; done. }
  assert (Hcount : forall r, countP (is_role r) (players p) = countP (fun x => x =? r) rs).
  { intros r. rewrite <- Er, countP_fmap. done. }
  destruct Hq3 as [[Hd Hnw] Hpr]. split; [split; [exact Hd|exact Hnw]|].
  exists [p]. cbn [proposals]. split; [by rewrite Hpr|]. apply Forall_singleton. split.
  - by rewrite Eq.
  - rewrite <- Hsize, <- Er. by rewrite map_size_fmap.
  - rewrite Eq. cbn [queues p0]. unfold zlen in *. lia.
  - rewrite Eq, Ed. cbn [queues dungeonId p0]. intros Hlen g Hg.
    destruct (cb_dungeons _ _ _ _ (Hcomb Hlen) g Hg) as (d & E & Hsub). exists d. split; [done|].
    apply Hsub. pose proof (urand_pick ds q (cb_nonempty _ _ _ _ (Hcomb Hlen))) as Hpick.
    by rewrite Eu in Hpick.
  - rewrite Eq. cbn [queues p0]. intros Hlen a Ha. apply Hps in Ha.
    by apply (cb_members _ _ _ _ (Hcomb Hlen)).
  - rewrite Eq. cbn [queues p0]. intros Hlen.
    destruct (cb_roles _ _ _ _ (Hcomb Hlen)) as (xs & Hall & (H8 & H4 & H2) & Hperm).
    assert (Hc : forall r, countP (fun x => x =? r) rs = count_role r xs).
    { intros r. rewrite countP_values, <- (count_role_perm r _ _ Hperm). unfold count_role. f_equal.
      apply List.filter_ext. intros x. apply Z.eqb_sym. }
    rewrite !Hcount, !Hc. pose proof (count_all xs Hall) as Hsum.
    apply Permutation_length in Hperm. rewrite length_fmap, length_map_to_list in Hperm.
    unfold zlen in Hsum. rewrite <- Hperm, Hsize in Hsum.
    unfold PLAYER_ROLE_DAMAGE, PLAYER_ROLE_HEALER, PLAYER_ROLE_TANK, LFG_DPS_NEEDED,
      LFG_HEALERS_NEEDED, LFG_TANKS_NEEDED in *. lia.
  - rewrite Eq. cbn [queues p0]. intros Hlen a b Hab Ha Hb.
    apply (cb_ignore _ _ _ _ (Hcomb Hlen)); [done|by apply Hps..].
Qed.

(** ** The search *)

Lemma roles_and_dungeons_same q check n :
  data_ok q -> present q check -> check <> [] -> (roles_and_dungeons v check n q).2 = q.
Proof.
  intros Hok Hpr Hne. unfold roles_and_dungeons.
  destruct check as [|g0 check']; [done|]. inversion Hpr as [|? ? [d0 Hd0] Hpr']; subst.
  cbn [hd tl]. destruct (1 <? _).
  - destruct (gather_roles_spec q (g0 :: check') ∅ Hok Hpr) as (m & -> & _).
    { intros a b _ Ha. rewrite lookup_empty in Ha. by destruct Ha. }
    { apply map_Forall_empty. }
    destruct (negb _); [done|]. destruct (CheckGroupRoles m) as [ok rs]. destruct (negb ok); [done|].
    destruct (touch_present g0 q d0 Hd0) as [-> ->].
    destruct (common_dungeons_spec q check' (dungeons d0) Hpr') as (ds & -> & _).
    by case_bool_decide.
  - by destruct (touch_present g0 q d0 Hd0) as [-> _].
Qed.

Lemma single_size q g : data_ok q -> present q [g] -> total q [g] = 5 ->
  size (CheckGroupRoles (roles (data_at v g q))).2 = 5%nat.
Proof.
  intros Hok Hpr Ht. inversion Hpr as [|? ? [d Hd] _]; subst.
  destruct (touch_present g q d Hd) as [_ ->]. cbn in Ht. rewrite Hd in Ht. cbn in Ht.
  destruct (Hok g d Hd) as [Hs Hv].
  rewrite CheckGroupRoles_size; [lia| |done|done].
  intros E. rewrite E, map_size_empty in Ht. done.
Qed.

Lemma check_combination_step check q :
  data_ok q -> check <> [] -> step_ok q (check_combination v check q).2.
Proof.
  intros Hok Hne. unfold check_combination.
  destruct (count_players v check (mkCount 0 0 0 ∅) q) as [g|c] eqn:Ec.
  { apply step_quiet, quiet_RemoveFromQueue. }
  destruct ((zlen check =? 1) && negb (numPlayers c =? MAXGROUPSIZE)).
  { apply step_quiet. eapply quiet_trans; [|apply quiet_SetCompatibilityData]. apply quiet_UpdateBest. }
  destruct (Z.ltb_spec 1 (numLfgGroups c)); [apply step_quiet, quiet_SetCompatibles|].
  destruct (Z.ltb_spec MAXGROUPSIZE (numPlayers c)); [apply step_quiet, quiet_SetCompatibles|].
  destruct (count_players_spec q check (mkCount 0 0 0 ∅) c Hok ltac:(done) ltac:(done) Ec)
    as (Hpr & En & Eg); [lia|lia|]. cbn [numPlayers numLfgGroups] in En, Eg.
  rewrite Z.add_0_l in En, Eg. unfold MAXGROUPSIZE in *.
  pose proof (roles_and_dungeons_same q check (numPlayers c) Hok Hpr Hne) as Hsame.
  destruct (roles_and_dungeons v check (numPlayers c) q) as [[why|[rs ds]] q1] eqn:Er;
    cbn in Hsame; subst q1; [apply step_quiet, quiet_SetCompatibles|].
  destruct (Z.eqb_spec (numPlayers c) 5) as [E5|]; cbn [negb].
  2:{ apply step_quiet. eapply quiet_trans; [|apply quiet_SetCompatibilityData].
      apply quiet_foldl. intros. apply quiet_UpdateBest. }
  destruct (AllQueued v check) eqn:Eq; cbn [negb]; [|apply step_quiet, quiet_SetCompatibles].
  eapply step_trans; [|apply step_quiet, quiet_SetCompatibles].
  assert (Hcomb : (1 < length check)%nat -> combination q check rs ds /\ Z.of_nat (size rs) = 5).
  { intros Hl. destruct (roles_and_dungeons_spec q check (numPlayers c) rs ds q) as (_ & H1 & H2);
      try done; [lia|]. by rewrite E5 in H2. }
  apply make_proposal_step; try done; [|intros Hl; by apply Hcomb].
  destruct check as [|g [|g' check']]; [done| |].
  - unfold roles_and_dungeons in Er. cbn [zlen length Z.of_nat Z.ltb Z.compare Pos.compare hd] in Er.
    destruct (touch_present g q (data_at v g q)) as [Et _].
    { inversion Hpr as [|? ? [d Hd] _]; subst. unfold data_at. by rewrite Hd. }
    change (1 <? zlen [g]) with false in Er. cbn iota in Er. rewrite Et in Er.
    injection Er as <- _. apply single_size; [done|done|lia].
  - destruct Hcomb as [_ Hs]; [cbn; lia|]. lia.
Qed.

Lemma CheckCompatibility_step check : forall q,
  data_ok q -> step_ok q (CheckCompatibility v check q).2.
Proof.
  induction check as [|g check IH]; intros q Hok; cbn [CheckCompatibility]; [apply step_refl|].
  destruct (_ || _); [apply step_refl|].
  destruct (2 <? _); [|by apply check_combination_step].
  pose proof (IH q Hok) as Hstep. destruct (CheckCompatibility v check q) as [child q1]. cbn in Hstep.
  destruct (negb (compatible child)).
  - eapply step_trans; [exact Hstep|]. apply step_quiet, quiet_SetCompatibles.
  - eapply step_trans; [exact Hstep|]. apply check_combination_step; [|done].
    eapply stays_data_ok; [exact Hok|apply Hstep].
Qed.

(** The answer for a combination: cached, or computed now. *)
Definition evaluate (check : list Z) (q : LFGQueue) : LfgCompatibility * LFGQueue :=
  if decide (GetCompatibles (ConcatenateGuids check) q = LFG_COMPATIBILITY_PENDING)
  then CheckCompatibility v check q else (GetCompatibles (ConcatenateGuids check) q, q).

Lemma evaluate_step check q : data_ok q -> step_ok q (evaluate check q).2.
Proof.
  intros Hok. unfold evaluate. destruct (decide _); [by apply CheckCompatibility_step|apply step_refl].
Qed.

(** The inner loop of the search. *)
Fixpoint try_all (rec : list Z -> list Z -> LFGQueue -> LfgCompatibility * list Z * LFGQueue)
    (compatibles : LfgCompatibility) (check : list Z) (n : nat) (all : list Z) (q : LFGQueue)
    : LfgCompatibility * list Z * LFGQueue :=
  match n, all with
  | _, [] => (compatibles, [], q)
  | O, _ => (compatibles, all, q)
  | S n', x :: all' =>
    let '(sub, all, q) := rec (check ++ [x]) all' q in
    if decide (sub = LFG_COMPATIBLES_MATCH) then (LFG_COMPATIBLES_MATCH, all, q)
    else try_all rec compatibles check n' all q
  end.

Lemma FindNewGroups_eq fuel check all q :
  FindNewGroups v fuel check all q =
  let '(compatibles, q) := evaluate check q in
  if bool_decide (compatibles = LFG_COMPATIBLES_BAD_STATES) && AllQueued v check
  then (LFG_COMPATIBLES_MATCH, all, SetCompatibles (ConcatenateGuids check) LFG_COMPATIBLES_MATCH q)
  else if negb (bool_decide (compatibles = LFG_COMPATIBLES_WITH_LESS_PLAYERS))
  then (compatibles, all, q)
  else match fuel with
       | O => (compatibles, all, q)
       | S fuel' => try_all (FindNewGroups v fuel') compatibles check (length all) all q
       end.
Proof.
  destruct fuel as [|fuel]; [done|]. unfold evaluate. cbn [FindNewGroups].
  destruct (if decide _ then _ else _) as [c q1]. destruct (_ && _); [done|]. destruct (negb _); [done|].
  generalize (length all). intros n. revert all q1.
  induction n as [|n IH]; intros [|x all] q1; try done.
  cbn [try_all]. destruct (FindNewGroups v fuel _ _ _) as [[sub all'] q2]. destruct (decide _); [done|].
  apply IH.
Qed.

(** Any property of steps that the evaluation of a combination has, the search has. *)
Lemma FindNewGroups_step fuel : forall check all q,
  data_ok q -> step_ok q (FindNewGroups v fuel check all q).2.
Proof.
  induction fuel as [|fuel IH]; intros check all q Hok; rewrite FindNewGroups_eq;
    pose proof (evaluate_step check q Hok) as Hev; destruct (evaluate check q) as [c q1]; cbn [snd] in Hev;
    (destruct (_ && _); [eapply step_trans; [exact Hev|apply step_quiet, quiet_SetCompatibles]|]);
    (destruct (negb _); [exact Hev|]); [exact Hev|].
  eapply step_trans; [exact Hev|].
  assert (Hok1 : data_ok q1) by (eapply stays_data_ok; [exact Hok|apply Hev]). clear Hev Hok q.
  generalize (length all). intros n. revert all q1 Hok1.
  induction n as [|n IHn]; intros [|x all] q1 Hok1; cbn [try_all]; try apply step_refl.
  pose proof (IH (check ++ [x]) all q1 Hok1) as Hsub.
  destruct (FindNewGroups v fuel _ _ _) as [[sub all'] q2]. cbn [snd] in Hsub.
  destruct (decide _); [exact Hsub|]. eapply step_trans; [exact Hsub|]. apply IHn.
  eapply stays_data_ok; [exact Hok1|apply Hsub].
Qed.

(** What an inner search leaves of the candidates is no longer than what it got. *)
Lemma FindNewGroups_shrinks fuel : forall check all q,
  (length (FindNewGroups v fuel check all q).1.2 <= length all)%nat.
Proof.
  induction fuel as [|fuel IH]; intros check all q; rewrite FindNewGroups_eq;
    destruct (evaluate check q) as [c q1]; (destruct (_ && _); [done|]); (destruct (negb _); [done|]); [done|].
  generalize (length all) at 1. intros n. revert all q1.
  induction n as [|n IHn]; intros [|x all] q1; cbn [try_all]; try (cbn; lia).
  pose proof (IH (check ++ [x]) all q1) as Hsub.
  destruct (FindNewGroups v fuel _ _ _) as [[sub all'] q2]. cbn [fst snd] in Hsub.
  destruct (decide _); cbn [fst snd length]; [lia|]. specialize (IHn all' q2). lia.
Qed.

(** The recursion of the search is over once the candidates are: with more
    fuel than candidates the answer, what is left of the candidates and the
    queue do not depend on the fuel. *)
Theorem FindNewGroups_fuel fuel : forall fuel' check all q,
  (length all < fuel)%nat -> (length all < fuel')%nat ->
  FindNewGroups v fuel check all q = FindNewGroups v fuel' check all q.
Proof.
  induction fuel as [|fuel IH]; intros [|fuel'] check all q H1 H2; try lia.
  rewrite !FindNewGroups_eq. destruct (evaluate check q) as [c q1].
  destruct (_ && _); [done|]. destruct (negb _); [done|].
  generalize (length all) at 1 2. intros n. revert all q1 H1 H2.
  induction n as [|n IHn]; intros [|x all] q1 H1 H2; cbn [try_all]; try done.
  cbn [length] in H1, H2. rewrite (IH fuel' (check ++ [x]) all q1) by lia.
  pose proof (FindNewGroups_shrinks fuel' (check ++ [x]) all q1) as Hs.
  destruct (FindNewGroups v fuel' _ _ _) as [[sub all'] q2]. cbn [fst snd] in Hs.
  destruct (decide _); [done|]. apply IHn; lia.
Qed.

Lemma RemoveFromNewQueue_shorter g l q :
  newToQueueStore q = g :: l ->
  (S (length (newToQueueStore (RemoveFromNewQueue g q))) <= length (newToQueueStore q))%nat.
Proof.
  intros E. cbn. rewrite E. cbn. rewrite Z.eqb_refl. cbn.
  pose proof (filter_length_le (fun x => negb (x =? g)) l). lia.
Qed.

(** C23: [FindGroups] ends within one step per newcomer, and every proposal it
    hands to the manager is sound for the entries that were queued: all its
    entries are in the queued state, exactly five players, at most one dungeon
    finder group; and when it combines several entries, its dungeon is one that
    every entry asked for, its players come from those entries, one of them is
    the tank, one the healer and three deal damage, and nobody ignores anybody. *)
Theorem FindGroups_proposals q count :
  data_ok q ->
  let '(r, q') := FindGroups v (length (newToQueueStore q)) count q in
  is_Some r /\ newToQueueStore q' = []
  /\ exists new, proposals q' = proposals q ++ new /\ Forall (proposal_ok q) new.
Proof.
  intros Hok.
  enough (forall fuel count q, data_ok q -> (length (newToQueueStore q) <= fuel)%nat ->
    is_Some (FindGroups v fuel count q).1 /\ newToQueueStore (FindGroups v fuel count q).2 = []
    /\ step_ok q (FindGroups v fuel count q).2) as H.
  { specialize (H (length (newToQueueStore q)) count q Hok (le_n _)). destruct (FindGroups _ _ _ _) as [r q'].
    destruct H as (H1 & H2 & _ & H3). done. }
  clear -ignore_sym. induction fuel as [|fuel IH]; intros count q Hok Hl; cbn [FindGroups];
    (destruct (newToQueueStore q) as [|g l] eqn:En; [split_and!; [by eexists|done|apply step_refl]|]);
    [cbn in Hl; lia|].
  pose proof (RemoveFromNewQueue_shorter g l q En) as Hsh. rewrite En in Hsh.
  pose proof (step_quiet _ _ (quiet_RemoveFromNewQueue g q)) as Hs1.
  set (q1 := RemoveFromNewQueue g q) in *. clearbody q1.
  assert (Hok1 : data_ok q1) by (eapply stays_data_ok; [exact Hok|apply Hs1]).
  pose proof (FindNewGroups_step (S (length (currentQueueStore q1))) [g] (currentQueueStore q1) q1 Hok1) as Hs2.
  destruct (FindNewGroups _ _ _ _ _) as [[c all'] q2]. cbn [snd] in Hs2.
  assert (Hs : step_ok q q2) by (by eapply step_trans).
  assert (Hn2 : (length (newToQueueStore q2) <= fuel)%nat).
  { destruct Hs2 as [[_ Hn] _]. cbn [length] in *. lia. }
  assert (Hok2 : data_ok q2) by (eapply stays_data_ok; [exact Hok|apply Hs]).
  destruct (decide _).
  - destruct (IH (u8 (count + 1)) q2 Hok2 Hn2) as (H1 & H2 & H3). split_and!; [done|done|by eapply step_trans].
  - destruct (IH count (AddToCurrentQueue g q2)) as (H1 & H2 & H3); [exact Hok2|exact Hn2|].
    split_and!; [done|done|]. eapply step_trans; [exact Hs|]. eapply step_trans; [|exact H3].
    apply step_quiet. by apply quiet_same.
Qed.
End Spec.

(** ** Witnesses *)

(** Five queued players, of whom the second and the third ignore each other;
    a sixth one completes the group. *)
Definition demo_view : LfgView :=
  {| IsLfgGroup := fun _ => false;
     HasIgnore := fun a b => ((a =? 2) && (b =? 3)) || ((a =? 3) && (b =? 2));
     GetDungeon := fun _ => 0; Queued := fun _ => true; now := 1000 |}.

Definition demo_entry (guid role : Z) : LfgQueueData :=
  new_QueueData 900 {[ 261; 300 + guid ]} {[ guid := role ]}.

Definition demo_queue : LFGQueue :=
  {| QueueDataStore := list_to_map
       [(1, demo_entry 1 2); (2, demo_entry 2 12); (3, demo_entry 3 8); (4, demo_entry 4 8);
        (5, demo_entry 5 8); (6, demo_entry 6 14)];
     CompatibleMapStore := ∅; waitTimesAvgStore := ∅; waitTimesTankStore := ∅;
     waitTimesHealerStore := ∅; waitTimesDpsStore := ∅;
     currentQueueStore := []; newToQueueStore := [1; 2; 3; 4; 5; 6];
     proposals := []; statuses := []; draws := [] |}.

Lemma demo_lfg_ok : data_ok demo_queue.
Proof.
  intros g d H. apply elem_of_list_to_map_2 in H.
  repeat (apply elem_of_cons in H as [[= -> ->]|H]; [split; [vm_compute; lia|by apply map_Forall_singleton]|]).
  by apply not_elem_of_nil in H.
Qed.

Lemma demo_ignore_sym a b : HasIgnore demo_view a b = HasIgnore demo_view b a.
Proof. cbn. rewrite orb_comm. f_equal; apply andb_comm. Qed.

Lemma FindNewGroups_fuel_witness :
  (length [2; 3; 4] < 4)%nat /\
  FindNewGroups demo_view 4 [1] [2; 3; 4] demo_queue = FindNewGroups demo_view 9 [1] [2; 3; 4] demo_queue.
Proof. split; [cbn; lia|]. apply (FindNewGroups_fuel demo_view 4 9 [1] [2; 3; 4] demo_queue); cbn; lia. Defined.

Lemma FindGroups_proposals_witness :
  map queues (proposals (FindGroups demo_view 6 0 demo_queue).2) = [[6; 1; 2; 4; 5]] /\
  let '(r, q') := FindGroups demo_view 6 0 demo_queue in
  is_Some r /\ newToQueueStore q' = []
  /\ exists new, proposals q' = [] ++ new /\ Forall (proposal_ok demo_view demo_queue) new.
Proof.
  split; [vm_compute; reflexivity|].
  exact (FindGroups_proposals demo_view demo_ignore_sym demo_queue 0 demo_lfg_ok).
Defined.
