(* ===== verification/Currency.v ===== *)
(** * Currencies and their weekly caps
      (src/src/server/game/Entities/Player/CurrencyMgr.cpp, CurrencyMgr.h, Player.cpp, Player.h)

    What a player owns of each currency and earned of it this week, the caps, the
    rows saved, and the manager that gives every player with an arena rating a
    new cap each week, a part of the players at a time. *)

From S2P Require Import Prelude.
From S2P Require Import Float32.
From S2P Require Import ByteBuffer.

(** ** Data *)

(* [game/DataStores/DBCEnums.h:555-569] CurrencyTypes *)
Definition CURRENCY_TYPE_CONQUEST_POINTS := 390.
Definition CURRENCY_TYPE_HONOR_POINTS := 392.
Definition CURRENCY_TYPE_JUSTICE_POINTS := 395.
Definition CURRENCY_TYPE_CONQUEST_META_ARENA := 483.
Definition CURRENCY_TYPE_CONQUEST_META_BG := 484.
Definition CURRENCY_CATEGORY_META_CONQUEST := 89.

(* [game/DataStores/DBCEnums.h:55-60] CurrencyFlags *)
Definition CURRENCY_FLAG_HIGH_PRECISION := 0x08.
Definition CURRENCY_FLAG_HAS_SEASON_COUNT := 0x80.

(* [game/Entities/Player/CurrencyMgr.h:7-11] DEFAULT_ARENA_CAP *)
Definition DEFAULT_ARENA_CAP := 1350.
Definition MAXIMUM_ARENA_CAP := 2700.

(* [game/DataStores/DBCStructure.h:949-966] CurrencyTypesEntry *)
Record CurrencyTypesEntry := mkCurrencyType {
  ID : Z;
  Category : Z;
  TotalCap : Z;
  WeekCap : Z;
  Flags : Z
}.

(* [game/DataStores/DBCStructure.h:963-963] CurrencyTypesEntry::HasPrecision *)
Definition HasPrecision (e : CurrencyTypesEntry) : bool := has_flag (Flags e) CURRENCY_FLAG_HIGH_PRECISION.
(* [game/DataStores/DBCStructure.h:964-964] CurrencyTypesEntry::HasSeasonCount *)
Definition HasSeasonCount (e : CurrencyTypesEntry) : bool := has_flag (Flags e) CURRENCY_FLAG_HAS_SEASON_COUNT.
(* [game/DataStores/DBCStructure.h:965-965] CurrencyTypesEntry::GetPrecision *)
Definition GetPrecision (e : CurrencyTypesEntry) : float32 := if HasPrecision e then f_hundred else f_one.

(* [game/Entities/Player/Player.h:220-226] PlayerCurrencyState *)
Inductive PlayerCurrencyState :=
| PLAYERCURRENCY_UNCHANGED | PLAYERCURRENCY_CHANGED | PLAYERCURRENCY_NEW | PLAYERCURRENCY_REMOVED.

#[export] Instance PlayerCurrencyState_eq_dec : EqDecision PlayerCurrencyState.
Proof. solve_decision. Defined.

(* [game/Entities/Player/Player.h:228-235] PlayerCurrency *)
Record PlayerCurrency := mkCurrency {
  state : PlayerCurrencyState;
  totalCount : Z;
  weekCount : Z;
  seasonCount : Z;
  flags : Z
}.

(* [game/Entities/Player/CurrencyMgr.h:13-20] CurrencyCap *)
Record CurrencyCap := mkCap {
  highestArenaRating : Z;      (* uint16 *)
  highestRBgRating : Z;
  currentArenaCap : Z;
  currentRBgCap : Z;
  requireReset : Z             (* uint8 *)
}.

(** The manager's caps, in the order of [std::map]. *)
Abbreviation caps_map := (gmap Z CurrencyCap).

(** A row of the table [character_currency]. *)
Record currency_row := mkRow {
  row_week : Z;
  row_total : Z;
  row_season : Z;
  row_flags : Z
}.

(** Statements for the database, packets and messages. *)
Inductive currency_event :=
| RepPlayerCurrency (guid id : Z) (row : currency_row)     (* REPLACE *)
| UpdPlayerCurrency (guid id : Z) (row : currency_row)     (* UPDATE ... WHERE guid and currency *)
| CurrencyPacket (opcode : Z) (payload : list Z)
| UpdateCriteria (id count : Z)
| InsertCapRow (guid highest cap : Z)
| TouchCapRow (guid highest : Z)
| ResetCapRow (guid cap : Z)
| SaveLastGuid (guid : Z)
| DeleteRestoreRow
| ScheduleReset (delay part : Z)
| ArenaTeamsFinishWeek
| WorldText (text : Z) (part : option Z).

(** The texts of a reset. *)
Definition LANG_CURRENCY_CAP_RESET_STARTED := 0.
Definition LANG_CURRENCY_CAP_RESET_PART := 1.
Definition LANG_CURRENCY_CAP_RESET_END := 2.

Definition SMSG_INIT_CURRENCY := 0x15A5.
Definition SMSG_UPDATE_CURRENCY := 0x59B0.
Definition SMSG_UPDATE_CURRENCY_WEEK_LIMIT := 0x70A7.
Definition SMSG_WEEKLY_RESET_CURRENCY := 0x3CA1.
Definition SMSG_REQUEST_PVP_REWARDS_RESPONSE := 0x5DA4.

(** [m_currencyCap] points to the manager's entry for a player, by key: entries
    are never erased. *)
Record Player := mkPlayer {
  guidlow : Z;
  _currencyStorage : gmap Z PlayerCurrency;
  _ConquestCurrencytotalWeekCap : Z;
  m_currencyCap : option Z;
  InWorld : bool;              (* in the world, and not loading *)
  out : list currency_event
}.

(** Data stores, configuration and auras. *)
Record CurrencyEnv := mkCurrencyEnv {
  sCurrencyTypesStore : Z -> option CurrencyTypesEntry;
  aura_multiplier : Z -> float32;
  CONFIG_CURRENCY_MAX_HONOR_POINTS : Z;
  CONFIG_CURRENCY_MAX_JUSTICE_POINTS : Z;
  CONFIG_CURRENCY_RESET_CAP_PLAYERS_COUNT : Z;
  CONFIG_CURRENCY_RESET_CAP_TIMEOUT : Z;
  conquest_curve : Z -> Z;     (* the curve of [ConquestRatingCalculator], in double precision *)
  past_end : Z                 (* what reading the key of the end iterator gives *)
}.

Inductive currency_exn := NoEntry | NullEntry.

Section Currency.
Context (env : CurrencyEnv).

Definition emit (e : currency_event) (p : Player) : Player := {| p with out := out p ++ [e] |}.

(** ** Caps *)

(* [game/Entities/Player/CurrencyMgr.cpp:603-612] CurrencyMgr::IsPrecisionAreConsidered *)
Definition IsPrecisionAreConsidered (currencyId : Z) : bool := currencyId =? CURRENCY_TYPE_CONQUEST_META_ARENA.

(* [game/Entities/Player/CurrencyMgr.cpp:454-462] CurrencyMgr::GetPrecision *)
Definition mgr_GetPrecision (e : CurrencyTypesEntry) : float32 :=
  if IsPrecisionAreConsidered (ID e) then f_one else GetPrecision e.

Definition cap_of (caps : caps_map) (p : Player) : option CurrencyCap :=
  g ← m_currencyCap p; caps !! g.

(* [game/Entities/Player/Player.h:2935-2935] Player::GetArenaCap *)
Definition GetArenaCap (caps : caps_map) (p : Player) : Z :=
  match cap_of caps p with
  | Some c => if currentArenaCap c =? 0 then DEFAULT_ARENA_CAP else currentArenaCap c
  | None => DEFAULT_ARENA_CAP
  end.

(* [game/Entities/Player/Player.h:2936-2936] Player::GetBattlegroundCap *)
Definition GetBattlegroundCap (caps : caps_map) (p : Player) : Z :=
  match cap_of caps p with
  | Some c => if currentRBgCap c =? 0 then DEFAULT_ARENA_CAP else currentRBgCap c
  | None => DEFAULT_ARENA_CAP
  end.

(* [game/Entities/Player/Player.h:2937-2937] Player::GetMaximumCap *)
Definition GetMaximumCap (caps : caps_map) (p : Player) : Z :=
  if GetBattlegroundCap caps p <? GetArenaCap caps p then GetArenaCap caps p else GetBattlegroundCap caps p.

(* [game/Entities/Player/CurrencyMgr.cpp:330-378] Player::_GetCurrencyWeekCap *)
Definition _GetCurrencyWeekCap (caps : caps_map) (e : CurrencyTypesEntry) (p : Player) : Z :=
  let cap := WeekCap e in
  if ID e =? CURRENCY_TYPE_CONQUEST_POINTS then Z.max 135000 (_ConquestCurrencytotalWeekCap p)
  else if ID e =? CURRENCY_TYPE_CONQUEST_META_ARENA then Z.max 1350 (GetArenaCap caps p)
  else if ID e =? CURRENCY_TYPE_CONQUEST_META_BG then Z.max 1350 (GetBattlegroundCap caps p)
  else if ID e =? CURRENCY_TYPE_HONOR_POINTS then
    if 0 <? CONFIG_CURRENCY_MAX_HONOR_POINTS env then CONFIG_CURRENCY_MAX_HONOR_POINTS env else cap
  else if ID e =? CURRENCY_TYPE_JUSTICE_POINTS then
    if 0 <? CONFIG_CURRENCY_MAX_JUSTICE_POINTS env then CONFIG_CURRENCY_MAX_JUSTICE_POINTS env else cap
  else cap.

(** [count / precision] as the integer the packet holds. *)
Definition scaled (count : Z) (precision : float32) : Z := f_to_u32 (fdiv (f_of_Z count) precision).

(* [game/Entities/Player/CurrencyMgr.cpp:317-328] Player::GetCurrencyWeekCap *)
Definition GetCurrencyWeekCap (caps : caps_map) (id : Z) (usePrecision : bool) (p : Player) : Z :=
  match sCurrencyTypesStore env id with
  | None => 0
  | Some e =>
    let cap := _GetCurrencyWeekCap caps e p in
    if usePrecision then scaled cap (GetPrecision e) else cap
  end.

(** ** What a player has *)

(** A count, scaled by the entry of the store, which has to exist. *)
Definition count_of (f : PlayerCurrency -> Z) (id : Z) (precision : bool) (p : Player) : result currency_exn Z :=
  match _currencyStorage p !! id with
  | None => Ok 0
  | Some c =>
    if negb precision then Ok (f c)
    else match sCurrencyTypesStore env id with
    | None => Throw NullEntry
    | Some e => Ok (scaled (f c) (GetPrecision e))
    end
  end.

(* [game/Entities/Player/CurrencyMgr.cpp:109-122] Player::GetCurrency *)
Definition GetCurrency : Z -> bool -> Player -> result currency_exn Z := count_of totalCount.

(* [game/Entities/Player/CurrencyMgr.cpp:124-131] Player::GetSeasonCount *)
Definition GetSeasonCount (id : Z) (p : Player) : Z :=
  match _currencyStorage p !! id with Some c => seasonCount c | None => 0 end.

(* [game/Entities/Player/CurrencyMgr.cpp:133-146] Player::GetCurrencyOnWeek *)
Definition GetCurrencyOnWeek : Z -> bool -> Player -> result currency_exn Z := count_of weekCount.

(* [game/Entities/Player/CurrencyMgr.cpp:148-152] Player::HasCurrency *)
Definition HasCurrency (id count : Z) (p : Player) : bool :=
  match _currencyStorage p !! id with Some c => count <=? totalCount c | None => false end.

Definition set_currency (id : Z) (c : PlayerCurrency) (p : Player) : Player :=
  {| p with _currencyStorage := <[id := c]> (_currencyStorage p) |}.

Definition touched (s : PlayerCurrencyState) : PlayerCurrencyState :=
  match s with PLAYERCURRENCY_NEW => PLAYERCURRENCY_NEW | _ => PLAYERCURRENCY_CHANGED end.

(* [game/Entities/Player/CurrencyMgr.cpp:154-165] Player::ModifyCurrencyFlag *)
Definition ModifyCurrencyFlag (id flag : Z) (p : Player) : Player :=
  if id =? 0 then p
  else match _currencyStorage p !! id with
  | None => p
  | Some c => set_currency id {| c with flags := flag; state := touched (state c) |} p
  end.

(* [game/Entities/Player/CurrencyMgr.cpp:302-315] Player::SetCurrency *)
Definition SetCurrency (id count : Z) (p : Player) : Player :=
  match _currencyStorage p !! id with
  | Some _ => p
  | None => set_currency id (mkCurrency PLAYERCURRENCY_NEW count 0 0 0) p
  end.

(** ** Packets *)

Definition payload_of (b : BB unit) : list Z := _storage (b new_ByteBuffer).2.

Definition optional (v : Z) : BB unit := if v =? 0 then mret tt else put_uint32 v.

(* [game/Entities/Player/CurrencyMgr.cpp:14-54] Player::SendNewCurrency *)
Definition SendNewCurrency (caps : caps_map) (id : Z) (p : Player) : Player :=
  match _currencyStorage p !! id, sCurrencyTypesStore env id with
  | Some c, Some e =>
    if Category e =? CURRENCY_CATEGORY_META_CONQUEST then p
    else
      let precision := mgr_GetPrecision e in
      let week := scaled (weekCount c) precision in
      let cap := scaled (_GetCurrencyWeekCap caps e p) precision in
      let season := scaled (seasonCount c) precision in
      let sendSeason := (0 <? season) && HasSeasonCount e in
      emit (CurrencyPacket SMSG_INIT_CURRENCY (payload_of (
        WriteBits 1 23 ;;
        WriteBit (negb (week =? 0)) ;; WriteBits (flags c) 4 ;; WriteBit (negb (cap =? 0)) ;; WriteBit sendSeason ;;
        append (payload_of (
          put_uint32 (scaled (totalCount c) precision) ;; optional cap ;;
          (if sendSeason then put_uint32 season else mret tt) ;;
          put_uint32 (ID e) ;; optional week))))) p
  | _, _ => p
  end.

(** The bits and the bytes of one currency of the list sent at login. *)
Definition currency_bits (caps : caps_map) (e : CurrencyTypesEntry) (c : PlayerCurrency) (p : Player)
    : BB unit * BB unit :=
  let precision := mgr_GetPrecision e in
  let honor := ID e =? CURRENCY_TYPE_HONOR_POINTS in
  let week := if honor then 0 else scaled (weekCount c) precision in
  let cap := if honor then 0 else scaled (_GetCurrencyWeekCap caps e p) precision in
  let season := scaled (seasonCount c) precision in
  let sendSeason := (0 <? seasonCount c) && HasSeasonCount e in
  (WriteBit (negb (week =? 0)) ;; WriteBits (flags c) 4 ;; WriteBit (negb (cap =? 0)) ;; WriteBit sendSeason,
   put_uint32 (scaled (totalCount c) precision) ;; optional cap ;;
   (if sendSeason then put_uint32 season else mret tt) ;; put_uint32 (ID e) ;; optional week).

(** The [unordered_map]'s order is its own; the model uses that of the keys. *)
(* [game/Entities/Player/CurrencyMgr.cpp:56-107] Player::SendCurrencies *)
Definition SendCurrencies (caps : caps_map) (p : Player) : result currency_exn unit * Player :=
  let cs := ordered (_currencyStorage p) in
  match mapM (fun ic => e ← sCurrencyTypesStore env ic.1; Some (currency_bits caps e ic.2 p)) cs with
  | None => (Throw NoEntry, p)
  | Some bs =>
    (Ok tt, emit (CurrencyPacket SMSG_INIT_CURRENCY (payload_of (
       WriteBits (zlen cs) 23 ;; mapM_ fst bs ;; append (payload_of (mapM_ snd bs))))) p)
  end.

(* [game/Entities/Player/CurrencyMgr.cpp:385-400] Player::SendCurrencyWeekCap *)
Definition SendCurrencyWeekCap (caps : caps_map) (id : Z) (p : Player) : Player :=
  match sCurrencyTypesStore env id with
  | None => p
  | Some e =>
    if negb (InWorld p) then p
    else
      let cap := _GetCurrencyWeekCap caps e p in
      if cap =? 0 then p
      else
        let cap := scaled cap (mgr_GetPrecision e) in
        emit (CurrencyPacket SMSG_UPDATE_CURRENCY_WEEK_LIMIT (payload_of (
          put_uint32 (f_to_u32 (f_of_Z cap)) ;; put_uint32 (ID e)))) p
  end.

(* [game/Entities/Player/CurrencyMgr.cpp:439-452] Player::SendPvpRewards *)
Definition SendPvpRewards (caps : caps_map) (p : Player) : result currency_exn unit * Player :=
  match GetCurrencyOnWeek CURRENCY_TYPE_CONQUEST_META_BG true p,
        GetCurrencyOnWeek CURRENCY_TYPE_CONQUEST_META_ARENA false p with
  | Ok bg, Ok arena =>
    (Ok tt, emit (CurrencyPacket SMSG_REQUEST_PVP_REWARDS_RESPONSE (payload_of (
       put_uint32 (GetBattlegroundCap caps p) ;; put_uint32 arena ;; put_uint32 (GetArenaCap caps p) ;;
       put_uint32 bg ;; put_uint32 arena ;; put_uint32 (GetMaximumCap caps p) ;;
       put_uint32 (GetMaximumCap caps p)))) p)
  | Throw e, _ | _, Throw e => (Throw e, p)
  end.

(** ** Earning and spending *)

(** The new counts: what is earned is cut to the weekly cap, then to the total
    cap; reaching the total cap uses up the week.  [ignoreLimit] adds to the
    total only.  (32-bit arithmetic, as the code has it.) *)
(* [game/Entities/Player/CurrencyMgr.cpp:201-245] Player::ModifyCurrency *)
Definition new_counts (weekCap TotalCap : Z) (ignoreLimit : bool) (count oldTotal oldWeek oldSeason : Z) : Z * Z * Z :=
  let earned := negb ignoreLimit && (0 <? count) in
  let total := i32 (i32 oldTotal + count) in
  let week := if earned then i32 (i32 oldWeek + count) else i32 oldWeek in
  let season := if earned then u32 (oldSeason + count) else oldSeason in
  let '(total, week) :=
    if negb ignoreLimit && negb (weekCap =? 0) && (i32 weekCap <? week)
    then (i32 (oldTotal + (weekCap - oldWeek)), i32 weekCap) else (total, week) in
  let '(total, week) :=
    if negb ignoreLimit && negb (TotalCap =? 0) && (i32 TotalCap <? total)
    then (i32 TotalCap, i32 weekCap) else (total, week) in
  (Z.max 0 total, Z.max 0 week, season).

(** What the client is told of a change; of a currency it does not know yet,
    everything. *)
(* [game/Entities/Player/CurrencyMgr.cpp:275-297] Player::ModifyCurrency *)
Definition SendChange (caps : caps_map) (id : Z) (currency : CurrencyTypesEntry) (weekCap : Z) (c : PlayerCurrency)
    (printLog : bool) (p : Player) : Player :=
  if decide (state c = PLAYERCURRENCY_NEW) then SendNewCurrency caps id p
  else
    let precision := mgr_GetPrecision currency in
    let sendSeason := (0 <? seasonCount c) && HasSeasonCount currency in
    emit (CurrencyPacket SMSG_UPDATE_CURRENCY (payload_of (
      WriteBit (negb (weekCap =? 0)) ;; WriteBit sendSeason ;; WriteBit (negb printLog) ;;
      (if sendSeason then put_uint32 (scaled (seasonCount c) precision) else mret tt) ;;
      put_uint32 (u32 (f_to_i32 (fdiv (f_of_Z (totalCount c)) precision))) ;; put_uint32 id ;;
      (if weekCap =? 0 then mret tt
       else put_uint32 (u32 (f_to_i32 (fdiv (f_of_Z (weekCount c)) precision))))))) p.

(** [fuel]: how deep the call for the currency behind a meta currency may go;
    [None]: deeper than that. *)
(* [game/Entities/Player/CurrencyMgr.cpp:167-300] Player::ModifyCurrency *)
Fixpoint ModifyCurrency (fuel : nat) (caps : caps_map) (id count : Z) (printLog ignoreMultipliers ignoreLimit : bool)
    (p : Player) : option (result currency_exn unit) * Player :=
  if count =? 0 then (Some (Ok tt), p)
  else match sCurrencyTypesStore env id with
  | None => (Some (Throw NoEntry), p)
  | Some currency =>
    let count := if ignoreMultipliers then count else f_to_i32 (fmul (f_of_Z count) (aura_multiplier env id)) in
    let old := default (mkCurrency PLAYERCURRENCY_NEW 0 0 0 0) (_currencyStorage p !! id) in
    let p := set_currency id old p in
    let weekCap := _GetCurrencyWeekCap caps currency p in
    let count := if negb ignoreLimit && negb (weekCap =? 0) && (i32 weekCap <? count) then i32 weekCap else count in
    let '(total, week, season) :=
      new_counts weekCap (TotalCap currency) ignoreLimit count (totalCount old) (weekCount old) (seasonCount old) in
    if total =? totalCount old then (Some (Ok tt), p)
    else
      let c := mkCurrency (touched (state old)) total week season (flags old) in
      let p := set_currency id c p in
      if negb (InWorld p) then (Some (Ok tt), p)
      else
        let p := if negb ignoreLimit && (0 <? count) then emit (UpdateCriteria id count) p else p in
        if Category currency =? CURRENCY_CATEGORY_META_CONQUEST then
          let p := if _ConquestCurrencytotalWeekCap p / 100 <? weekCap
            then {| p with _ConquestCurrencytotalWeekCap := u32 (weekCap * 100) |} else p in
          match fuel with
          | O => (None, p)
          | S fuel' => ModifyCurrency fuel' caps CURRENCY_TYPE_CONQUEST_POINTS (i32 (count * 100)) printLog false false p
          end
        else (Some (Ok tt), SendChange caps id currency weekCap c printLog p)
  end.

(** ** Loading and saving *)

(* [game/Entities/Player/Player.cpp:7332-7356] Player::_LoadCurrency *)
Definition load_row (caps : caps_map) (p : Player) (r : Z * currency_row) : Player :=
  let '(id, row) := r in
  match sCurrencyTypesStore env id with
  | None => p
  | Some currency =>
    let cur := mkCurrency PLAYERCURRENCY_UNCHANGED (row_total row) (row_week row) (row_season row) (row_flags row) in
    let p := match _currencyStorage p !! id with Some _ => p | None => set_currency id cur p end in
    if Category currency =? CURRENCY_CATEGORY_META_CONQUEST then
      let cap := _GetCurrencyWeekCap caps currency p in
      if _ConquestCurrencytotalWeekCap p / 100 <? cap
      then {| p with _ConquestCurrencytotalWeekCap := u32 (cap * 100) |} else p
    else p
  end.

(* [game/Entities/Player/Player.cpp:7325-7358] Player::_LoadCurrency *)
Definition _LoadCurrency (caps : caps_map) (rows : list (Z * currency_row)) (p : Player) : Player :=
  foldl (load_row caps) p rows.

Definition row_of (c : PlayerCurrency) : currency_row := mkRow (weekCount c) (totalCount c) (seasonCount c) (flags c).

(** The statement for one currency, if it needs one. *)
(* [game/Entities/Player/Player.cpp:7364-7393] Player::_SaveCurrency *)
Definition save_statement (guid : Z) (ic : Z * PlayerCurrency) : list currency_event :=
  match sCurrencyTypesStore env ic.1, state ic.2 with
  | Some _, PLAYERCURRENCY_NEW => [RepPlayerCurrency guid (u16 ic.1) (row_of ic.2)]
  | Some _, PLAYERCURRENCY_CHANGED => [UpdPlayerCurrency guid (u16 ic.1) (row_of ic.2)]
  | _, _ => []
  end.

Definition saved (id : Z) (c : PlayerCurrency) : PlayerCurrency :=
  match sCurrencyTypesStore env id with
  | Some _ => {| c with state := PLAYERCURRENCY_UNCHANGED |}
  | None => c
  end.

(* [game/Entities/Player/Player.cpp:7360-7397] Player::_SaveCurrency *)
Definition _SaveCurrency (p : Player) : Player :=
  {| p with _currencyStorage := map_imap (fun id c => Some (saved id c)) (_currencyStorage p);
     out := out p ++ (ordered (_currencyStorage p) ≫= save_statement (guidlow p)) |}.

(* [game/Entities/Player/CurrencyMgr.cpp:402-417] Player::FinishWeek *)
Definition FinishWeek (p : Player) : Player :=
  let p := {| p with _currencyStorage :=
    (fun c => {| c with weekCount := 0; state := PLAYERCURRENCY_CHANGED |}) <$> _currencyStorage p |} in
  emit (CurrencyPacket SMSG_WEEKLY_RESET_CURRENCY []) (_SaveCurrency p).

(** ** The caps of all players *)

(** The server: the caps, the players online, where the next part of a reset
    starts ([None]: the end iterator), and the last guid saved. *)
Record CurrencyMgr := mkMgr {
  _capValuesStorage : caps_map;
  players : gmap Z Player;
  lastItr : option Z;
  lastGuid : Z;
  mgr_out : list currency_event
}.

Definition mgr_emit (es : list currency_event) (m : CurrencyMgr) : CurrencyMgr := {| m with mgr_out := mgr_out m ++ es |}.

Definition set_caps (caps : caps_map) (m : CurrencyMgr) : CurrencyMgr := {| m with _capValuesStorage := caps |}.
Definition set_player (g : Z) (p : Player) (m : CurrencyMgr) : CurrencyMgr := {| m with players := <[g := p]> (players m) |}.

(* [game/Entities/Player/CurrencyMgr.h:34-38] CurrencyMgr::IsHaveCap *)
Definition mgr_IsHaveCap (lowGuid : Z) (m : CurrencyMgr) : bool := bool_decide (is_Some (_capValuesStorage m !! lowGuid)).

(* [game/Entities/Player/CurrencyMgr.cpp:563-570] CurrencyMgr::GetCurrencyCapData *)
Definition GetCurrencyCapData (lowGuid : Z) (m : CurrencyMgr) : option Z :=
  match _capValuesStorage m !! lowGuid with Some _ => Some lowGuid | None => None end.

(** The battleground cap given is not the one stored. *)
(* [game/Entities/Player/CurrencyMgr.cpp:464-472] CurrencyMgr::UpdateCurrencyCap *)
Definition UpdateCurrencyCap (lowGuid arenaRating RBgRating cap rbgCap reset : Z) (m : CurrencyMgr) : CurrencyMgr :=
  set_caps (<[lowGuid := mkCap arenaRating RBgRating cap 0 reset]> (_capValuesStorage m)) m.

(* [game/Entities/Player/CurrencyMgr.cpp:474-478] CurrencyMgr::UpdateCurrencyCap *)
Definition UpdateCurrencyCap_data (capData : CurrencyCap) (lowGuid : Z) (m : CurrencyMgr) : CurrencyMgr :=
  set_caps (<[lowGuid := capData]> (_capValuesStorage m)) m.

(** 1.222f *)
Definition f_1_222 : float32 := fdiv (f_of_Z 1222) (f_of_Z 1000).

(* [game/Miscellaneous/Formulas.h:222-235] ConquestRatingCalculator *)
Definition ConquestRatingCalculator (rate : Z) (isBg : bool) : Z :=
  let rate := u16 (conquest_curve env rate) in
  let rate := if rate <=? 1500 then DEFAULT_ARENA_CAP
              else if 2700 <? rate then MAXIMUM_ARENA_CAP else rate in
  if isBg then u16 (f_to_i32 (fmul (f_of_Z rate) f_1_222)) else rate.

(* [game/Entities/Player/CurrencyMgr.cpp:558-561] CurrencyMgr::CalculatingCurrencyCap *)
Definition CalculatingCurrencyCap (rating : Z) (ratedBattleground : bool) : Z :=
  ConquestRatingCalculator rating ratedBattleground.

(* [game/Entities/Player/CurrencyMgr.cpp:586-591] CurrencyMgr::setLastGuid *)
Definition setLastGuid (lowGuid : Z) (save : bool) (m : CurrencyMgr) : CurrencyMgr :=
  let m := {| m with lastGuid := lowGuid |} in
  if save then mgr_emit [SaveLastGuid lowGuid] m else m.

(* [game/Entities/Player/CurrencyMgr.cpp:593-596] CurrencyMgr::DeleteRestoreData *)
Definition DeleteRestoreData (m : CurrencyMgr) : CurrencyMgr := mgr_emit [DeleteRestoreRow] m.

(** The new week of a player online: the statement goes to the reset's own
    transaction. *)
(* [game/Entities/Player/CurrencyMgr.cpp:419-437] Player::ResetCurrencyWeekCap *)
Definition ResetCurrencyWeekCap (p : Player) (m : CurrencyMgr) : result currency_exn unit * CurrencyMgr :=
  match cap_of (_capValuesStorage m) p with
  | None => (Ok tt, m)
  | Some c =>
    let p := FinishWeek p in
    let guid := guidlow p in
    let cap := CalculatingCurrencyCap (highestArenaRating c) false in
    let m := mgr_emit [ResetCapRow guid cap] m in
    let m := UpdateCurrencyCap guid 0 0 cap 0 0 m in
    let p := {| p with m_currencyCap := GetCurrencyCapData guid m |} in
    let '(r, p) := SendPvpRewards (_capValuesStorage m) p in
    (r, set_player guid p m)
  end.

(* [game/Entities/Player/Player.cpp:26815-26832] Player::SetMaxPersonalArenaRating *)
Definition SetMaxPersonalArenaRating (value : Z) (p : Player) (m : CurrencyMgr) : CurrencyMgr :=
  match cap_of (_capValuesStorage m) p with
  | None =>
    let m := mgr_emit [InsertCapRow (guidlow p) value DEFAULT_ARENA_CAP] m in
    let m := UpdateCurrencyCap (guidlow p) (u16 value) 0 DEFAULT_ARENA_CAP 0 1 m in
    set_player (guidlow p) {| p with m_currencyCap := GetCurrencyCapData (guidlow p) m |} m
  | Some c =>
    let c := {| c with highestArenaRating := u16 value |} in
    UpdateCurrencyCap_data c (guidlow p) (mgr_emit [TouchCapRow (guidlow p) (u16 value)] m)
  end.

(** The keys from an iterator on. *)
Definition keys_from (start : option Z) (caps : caps_map) : list Z :=
  match start with
  | None => []
  | Some k => filter (fun g => k <= g) (ordered caps).*1
  end.

Definition first_key (caps : caps_map) : option Z := head (ordered caps).*1.

(** One player of a reset. *)
(* [game/Entities/Player/CurrencyMgr.cpp:640-651] CapResetEvent::Execute *)
Definition reset_player (guid : Z) (c : CurrencyCap) (m : CurrencyMgr) : result currency_exn unit * CurrencyMgr :=
  match players m !! guid with
  | Some player => ResetCurrencyWeekCap player m
  | None =>
    let cap := CalculatingCurrencyCap (highestArenaRating c) false in
    (Ok tt, UpdateCurrencyCap guid 0 0 cap 0 0 (mgr_emit [ResetCapRow guid cap] m))
  end.

(** [Some guid]: the part was full after that player. *)
(* [game/Entities/Player/CurrencyMgr.cpp:630-661] CapResetEvent::Execute *)
Fixpoint reset_loop (keys : list Z) (count numberInPart : Z) (m : CurrencyMgr)
    : result currency_exn (option Z) * CurrencyMgr :=
  match keys with
  | [] => (Ok None, m)
  | guid :: keys' =>
    let count := u32 (count + 1) in
    match _capValuesStorage m !! guid with
    | None => (Throw NullEntry, m)
    | Some second =>
      if requireReset second =? 0 then reset_loop keys' count numberInPart m
      else match reset_player guid second m with
      | (Throw e, m) => (Throw e, m)
      | (Ok _, m) => if numberInPart <? count then (Ok (Some guid), m) else reset_loop keys' count numberInPart m
      end
    end
  end.

(** One part: the result says whether the event is done with, and the part that
    was scheduled next. *)
(* [game/Entities/Player/CurrencyMgr.cpp:614-676] CapResetEvent::Execute *)
Definition Execute (part : Z) (m : CurrencyMgr) : result currency_exn (bool * option Z) * CurrencyMgr :=
  if default (past_end env) (lastItr m) =? 0 then (Ok (false, None), m)
  else
    match reset_loop (keys_from (lastItr m) (_capValuesStorage m)) 0
            (u16 (CONFIG_CURRENCY_RESET_CAP_PLAYERS_COUNT env)) m with
    | (Throw e, m) => (Throw e, m)
    | (Ok (Some guid), m) =>
      let part := u16 (part + 1) in
      let m := mgr_emit [ScheduleReset (CONFIG_CURRENCY_RESET_CAP_TIMEOUT env) part;
                         WorldText LANG_CURRENCY_CAP_RESET_PART (Some part)] m in
      (Ok (false, Some part), setLastGuid guid true {| m with lastItr := Some guid |})
    | (Ok None, m) =>
      let m := setLastGuid (past_end env) true {| m with lastItr := None |} in
      (Ok (true, None), mgr_emit [WorldText LANG_CURRENCY_CAP_RESET_END None] (DeleteRestoreData m))
    end.

(* [game/Entities/Player/CurrencyMgr.cpp:572-584] CurrencyMgr::ResetCurrencyCapToAllPlayers *)
Definition ResetCurrencyCapToAllPlayers (m : CurrencyMgr) : CurrencyMgr :=
  match first_key (_capValuesStorage m) with
  | None => m
  | Some k =>
    mgr_emit [ScheduleReset 20000 0; WorldText LANG_CURRENCY_CAP_RESET_STARTED None; ArenaTeamsFinishWeek]
      {| m with lastItr := Some k |}
  end.

(** The parts of a reset, each when its event comes up: [None] when the parts
    allowed were not enough. *)
Fixpoint run_parts (fuel : nat) (part : Z) (m : CurrencyMgr) : option (result currency_exn bool) * CurrencyMgr :=
  match fuel with
  | O => (None, m)
  | S fuel' =>
    match Execute part m with
    | (Throw e, m) => (Some (Throw e), m)
    | (Ok (done, None), m) => (Some (Ok done), m)
    | (Ok (_, Some part), m) => run_parts fuel' part m
    end
  end.

(** ** Start of the server *)

(** The reset that a crash cut short; the caps in memory stay what was loaded. *)
(* [game/Entities/Player/CurrencyMgr.cpp:530-556] CurrencyMgr::RestoreResettingCap *)
Definition RestoreResettingCap (m : CurrencyMgr) : CurrencyMgr :=
  match _capValuesStorage m !! lastGuid m with
  | None => m
  | Some _ =>
    DeleteRestoreData (mgr_emit (
      keys_from (Some (lastGuid m)) (_capValuesStorage m) ≫= fun g =>
        match _capValuesStorage m !! g with
        | Some c => if requireReset c =? 0 then []
                    else [ResetCapRow g (CalculatingCurrencyCap (highestArenaRating c) false)]
        | None => []
        end) m)
  end.

(** [saved]: the guid of row 0 of the table of the last reset. *)
(* [game/Entities/Player/CurrencyMgr.cpp:512-528] CurrencyMgr::CheckIfNeedRestore *)
Definition CheckIfNeedRestore (saved : option Z) (m : CurrencyMgr) : bool * CurrencyMgr :=
  match saved with
  | None => (false, m)
  | Some lowGuid => if lowGuid =? past_end env then (false, m) else (true, {| m with lastGuid := lowGuid |})
  end.

(* [game/Entities/Player/CurrencyMgr.cpp:480-510] CurrencyMgr::LoadPlayersCurrencyCap *)
Definition LoadPlayersCurrencyCap (rows : list (Z * CurrencyCap)) (saved : option Z) (m : CurrencyMgr) : CurrencyMgr :=
  match rows with
  | [] => m
  | _ =>
    let caps := foldl (fun caps r => <[r.1 := r.2]> caps) (_capValuesStorage m) rows in
    let m := {| (set_caps caps m) with lastItr := first_key caps |} in
    let '(need, m) := CheckIfNeedRestore saved m in
    if need then RestoreResettingCap m else m
  end.
End Currency.
