(* ===== verification/CurrencySpec.v ===== *)
(** * Currencies: caps respected, counts saved, every cap reset once *)

From S2P Require Import Prelude.
From S2P Require Import Float32.
From S2P Require Import ByteBuffer.
From S2P Require Import Currency.

(** ** Earning and spending *)

Definition int_max : Z := 2147483647.

Lemma i32_small z : - int_max <= z <= int_max -> i32 z = z.
Proof. unfold int_max. intros Hz. apply swrap_small; lia. Qed.

Lemma u32_small z : 0 <= z <= int_max -> u32 z = z.
Proof. unfold int_max. intros Hz. apply wrap_small. lia. Qed.

(** Conversions that change nothing. *)
Ltac small_ints :=
  match goal with
  | |- context [i32 ?z] => rewrite (i32_small z) by (unfold int_max; lia)
  | H : context [i32 ?z] |- _ => rewrite (i32_small z) in H by (unfold int_max; lia)
  end.

(** Counts and caps are 31-bit numbers and the counts are within their caps; a
    cap of zero is none. *)
Record counts_ok (weekCap TotalCap total week : Z) : Prop := {
  ok_weekCap : 0 <= weekCap <= int_max;
  ok_totalCap : 0 <= TotalCap <= int_max;
  ok_total : 0 <= total <= int_max;
  ok_week : 0 <= week <= int_max;
  ok_in_week : weekCap = 0 \/ week <= weekCap;
  ok_in_total : TotalCap = 0 \/ total <= TotalCap
}.

(** What is left of a gain after the weekly cap, of a total after the total cap. *)
Definition gain (weekCap week c : Z) : Z :=
  if (0 <? c) && negb (weekCap =? 0) then Z.min c (weekCap - week) else c.
Definition capped (cap total : Z) : Z := Z.max 0 (if cap =? 0 then total else Z.min cap total).

(** The week after a change to [total]. *)
Definition week_after (weekCap TotalCap total week c : Z) : Z :=
  let g := gain weekCap week c in
  if negb (TotalCap =? 0) && (TotalCap <? total + g) then weekCap
  else if 0 <? c then week + g else week.

Lemma new_counts_spec weekCap TotalCap total week season c :
  counts_ok weekCap TotalCap total week ->
  - int_max <= c <= int_max -> total + c <= int_max -> week + c <= int_max ->
  let c' := if negb (weekCap =? 0) && (i32 weekCap <? c) then i32 weekCap else c in
  (new_counts weekCap TotalCap false c' total week season).1 =
    (capped TotalCap (total + gain weekCap week c), week_after weekCap TotalCap total week c).
Proof.
  intros [H1 H2 H3 H4 H5 H6] Hc Ht Hw c'. subst c'. unfold int_max in *.
  unfold new_counts, week_after, gain, capped.
  repeat (first [small_ints|bdestr]; cbn [negb andb fst] in *); try lia; f_equal; lia.
Qed.

(** The season moves by what was asked for, cut to the weekly cap but not to what is left
    of it. *)
Definition season_after (weekCap season c : Z) : Z := if 0 <? c then u32 (season + (if weekCap =? 0 then c else Z.min c weekCap)) else season.

Lemma new_counts_season weekCap TotalCap total week season c :
  counts_ok weekCap TotalCap total week ->
  (new_counts weekCap TotalCap false (if negb (weekCap =? 0) && (i32 weekCap <? c) then i32 weekCap else c) total week season).2 = season_after weekCap season c.
Proof.
  intros [H1 H2 H3 H4 H5 H6]. unfold new_counts, season_after. cbn [negb andb]. rewrite (i32_small weekCap) by (unfold int_max in *; lia).
  set (c' := if negb (weekCap =? 0) && (weekCap <? c) then weekCap else c).
  assert ((0 <? c') = (0 <? c) /\ (0 < c -> c' = if weekCap =? 0 then c else Z.min c weekCap)) as [E1 E2].
  { unfold c'. split; [|intros Hc]; repeat (bdestr; cbn [negb andb] in *); try lia. }
  rewrite E1. destruct (Z.ltb_spec 0 c) as [Hc|Hc]; [rewrite <- (E2 Hc)|]; repeat case_match; simplify_eq; done.
Qed.

Section Modify.
Context (env : CurrencyEnv) (caps : caps_map).

(** What a player has besides currencies and output. *)
Definition rest_of (p : Player) : Z * Z * option Z * bool := (guidlow p, _ConquestCurrencytotalWeekCap p, m_currencyCap p, InWorld p).

(** What the auras of the player make of an amount. *)
Definition amount (id count : Z) (ignoreMultipliers : bool) : Z :=
  if ignoreMultipliers then count else f_to_i32 (fmul (f_of_Z count) (aura_multiplier env id)).

Definition held (id : Z) (p : Player) : PlayerCurrency :=
  default (mkCurrency PLAYERCURRENCY_NEW 0 0 0 0) (_currencyStorage p !! id).

Lemma SendNewCurrency_storage id p : _currencyStorage (SendNewCurrency env caps id p) = _currencyStorage p.
Proof.
  unfold SendNewCurrency. destruct (_ !! _); [|done]. destruct (sCurrencyTypesStore _ _); [|done].
  by destruct (_ =? _).
Qed.

Lemma SendChange_storage id e weekCap c log p :
  _currencyStorage (SendChange env caps id e weekCap c log p) = _currencyStorage p.
Proof. unfold SendChange. destruct (decide _); [apply SendNewCurrency_storage|done]. Qed.

Lemma counts_after weekCap tCap total week c :
  counts_ok weekCap tCap total week -> - int_max <= c <= int_max -> total + c <= int_max -> week + c <= int_max ->
  counts_ok weekCap tCap (capped tCap (total + gain weekCap week c)) (week_after weekCap tCap total week c).
Proof.
  intros [H1 H2 H3 H4 H5 H6] Hc Ht Hw. unfold int_max in *. unfold week_after, gain, capped.
  split; unfold int_max; repeat (bdestr; cbn [negb andb] in *); lia.
Qed.

Lemma SendNewCurrency_rest id p : rest_of (SendNewCurrency env caps id p) = rest_of p /\ out p `prefix_of` out (SendNewCurrency env caps id p).
Proof.
  unfold SendNewCurrency. destruct (_ !! _); [|done]. destruct (sCurrencyTypesStore _ _); [|done]. destruct (_ =? _); [done|]. split; [done|by eexists].
Qed.

Lemma SendChange_rest id e weekCap c log p : rest_of (SendChange env caps id e weekCap c log p) = rest_of p /\ out p `prefix_of` out (SendChange env caps id e weekCap c log p).
Proof. unfold SendChange. destruct (decide _); [apply SendNewCurrency_rest|]. split; [done|by eexists]. Qed.

(** A change of a currency with no other behind it: no call is made. *)
Lemma ModifyCurrency_plain fuel id e count printLog ignoreMultipliers p :
  sCurrencyTypesStore env id = Some e -> Category e <> CURRENCY_CATEGORY_META_CONQUEST -> count <> 0 ->
  ModifyCurrency env fuel caps id count printLog ignoreMultipliers false p =
  (Some (Ok tt),
   let c := amount id count ignoreMultipliers in
   let old := held id p in
   let weekCap := _GetCurrencyWeekCap env caps e p in
   let c := if negb (weekCap =? 0) && (i32 weekCap <? c) then i32 weekCap else c in
   let '(total, week, season) :=
     new_counts weekCap (TotalCap e) false c (totalCount old) (weekCount old) (seasonCount old) in
   let p := set_currency id old p in
   if total =? totalCount old then p
   else
     let new := mkCurrency (touched (state old)) total week season (flags old) in
     let p := set_currency id new p in
     if negb (InWorld p) then p
     else SendChange env caps id e weekCap new printLog (if 0 <? c then emit (UpdateCriteria id c) p else p)).
Proof.
  intros He Hm Hn. destruct fuel as [|fuel]; cbn [ModifyCurrency]; rewrite He;
    (destruct (Z.eqb_spec count 0); [done|]); cbn [negb andb]; cbv zeta; unfold held, amount;
    change (_GetCurrencyWeekCap env caps e (set_currency id ?x p)) with (_GetCurrencyWeekCap env caps e p);
    destruct (new_counts _ _ _ _ _ _ _) as [[total week] season];
    (destruct (total =? _); [done|]); (destruct (negb (InWorld _)); [done|]);
    by rewrite (proj2 (Z.eqb_neq _ _)) by done.
Qed.

(** C32: Earning and spending keep the caps, when the counts are within their caps before,
    the amount and the sums fit 32 signed bits, and no other currency stands behind this
    one: what is earned is cut to what is left of the weekly cap, and the total to the total
    cap; what is spent never takes the total below zero; the week moves by what was earned,
    or to its cap when the total cap was hit; the season moves by what was asked for,
    cut to the weekly cap but not to what is left of it; a
    change that leaves the total as it was leaves the currency as it was.  The flags stay,
    and so do all other currencies, the caps and the rest of the player; packets and
    criteria are only added to the output. *)
Theorem ModifyCurrency_outcome fuel id e count printLog ignoreMultipliers p :
  sCurrencyTypesStore env id = Some e -> Category e <> CURRENCY_CATEGORY_META_CONQUEST -> count <> 0 ->
  let c := amount id count ignoreMultipliers in
  let old := held id p in
  let weekCap := _GetCurrencyWeekCap env caps e p in
  counts_ok weekCap (TotalCap e) (totalCount old) (weekCount old) ->
  - int_max <= c <= int_max -> totalCount old + c <= int_max -> weekCount old + c <= int_max ->
  exists p' new, ModifyCurrency env fuel caps id count printLog ignoreMultipliers false p = (Some (Ok tt), p')
  /\ _currencyStorage p' = <[id := new]> (_currencyStorage p)
  /\ totalCount new = capped (TotalCap e) (totalCount old + gain weekCap (weekCount old) c)
  /\ weekCount new = (if totalCount new =? totalCount old then weekCount old
                      else week_after weekCap (TotalCap e) (totalCount old) (weekCount old) c)
  /\ counts_ok weekCap (TotalCap e) (totalCount new) (weekCount new)
  /\ seasonCount new = (if totalCount new =? totalCount old then seasonCount old else season_after weekCap (seasonCount old) c)
  /\ flags new = flags old /\ state new = (if totalCount new =? totalCount old then state old else touched (state old))
  /\ rest_of p' = rest_of p /\ out p `prefix_of` out p'.
Proof.
  intros He Hm Hn c old weekCap Hok Hc Ht Hw.
  pose proof (counts_after _ _ _ _ c Hok Hc Ht Hw) as Hafter.
  pose proof (new_counts_spec weekCap (TotalCap e) (totalCount old) (weekCount old) (seasonCount old) c Hok Hc Ht Hw)
    as Hnew. cbn zeta in Hnew.
  pose proof (new_counts_season weekCap (TotalCap e) (totalCount old) (weekCount old) (seasonCount old) c Hok) as Hseason.
  rewrite (ModifyCurrency_plain fuel id e) by done. cbv zeta. fold old c weekCap.
  destruct (new_counts weekCap (TotalCap e) false _ _ _ _) as [[total week] season].
  cbn [fst] in Hnew. injection Hnew as -> ->. cbn [snd] in Hseason. subst season.
  destruct (Z.eqb_spec (capped (TotalCap e) (totalCount old + gain weekCap (weekCount old) c)) (totalCount old))
    as [Et|Et]; [exists (set_currency id old p), old|].
  - split; [done|split; [done|rewrite Et, Z.eqb_refl]]. split_and!; try done.
  - set (new := mkCurrency _ _ _ _ _). eexists _, new. split; [reflexivity|].
    assert (Es : forall q, _currencyStorage q = <[id := new]> (<[id := old]> (_currencyStorage p)) ->
      _currencyStorage q = <[id := new]> (_currencyStorage p)) by (intros q ->; apply insert_insert_eq).
    cbn [new totalCount weekCount seasonCount flags state]. rewrite (proj2 (Z.eqb_neq _ _) Et).
    assert (forall q, rest_of q = rest_of p -> out p `prefix_of` out q -> rest_of (SendChange env caps id e weekCap new printLog q) = rest_of p /\
      out p `prefix_of` out (SendChange env caps id e weekCap new printLog q)) as Hrest.
    { intros q Hq1 Hq2. destruct (SendChange_rest id e weekCap new printLog q) as [H1 H2]. split; [congruence|by etransitivity]. }
    split; [|split_and!; try done].
    + apply Es. destruct (InWorld _); [|done]. cbn [negb]. rewrite SendChange_storage. by destruct (0 <? _).
    + destruct (InWorld _); [|done]. cbn [negb]. apply Hrest; destruct (0 <? _); try done. by eexists.
    + destruct (InWorld _); [|done]. cbn [negb]. apply Hrest; destruct (0 <? _); try done. by eexists.
Qed.
End Modify.

(** ** What the database holds *)

(** The statements as the table [character_currency] sees them, for one player:
    REPLACE writes the row, UPDATE only a row that is there. *)
Definition apply_stmt (guid : Z) (db : gmap Z currency_row) (e : currency_event) : gmap Z currency_row :=
  match e with
  | RepPlayerCurrency g id row => if g =? guid then <[id := row]> db else db
  | UpdPlayerCurrency g id row => if g =? guid then alter (fun _ => row) id db else db
  | _ => db
  end.
Definition db_after (p : Player) (db : gmap Z currency_row) : gmap Z currency_row :=
  foldl (apply_stmt (guidlow p)) db (out p).

Definition no_stmt (e : currency_event) : Prop :=
  match e with RepPlayerCurrency _ _ _ | UpdPlayerCurrency _ _ _ => False | _ => True end.

Section Saving.
Context (env : CurrencyEnv) (caps : caps_map).

(** Currency ids of the store are 16-bit. *)
Definition known (id : Z) : Prop := is_Some (sCurrencyTypesStore env id) /\ in_u 16 id.
Definition store_ok : Prop := forall id, is_Some (sCurrencyTypesStore env id) -> in_u 16 id.

(** What the state tag of a currency says of its row. *)
Definition tag_ok (row : option currency_row) (c : PlayerCurrency) : Prop :=
  match state c with
  | PLAYERCURRENCY_NEW => True
  | PLAYERCURRENCY_CHANGED => is_Some row
  | PLAYERCURRENCY_UNCHANGED => row = Some (row_of c)
  | PLAYERCURRENCY_REMOVED => False
  end.

Record in_sync (db : gmap Z currency_row) (p : Player) : Prop := {
  sync_tags : forall id c, _currencyStorage p !! id = Some c -> known id /\ tag_ok (db !! id) c;
  sync_rows : forall id, is_Some (db !! id) -> is_Some (_currencyStorage p !! id)
}.

(** What currency changes do: they touch the tag of what they change, add new
    entries, and execute no statement. *)
Record keeps (p p' : Player) : Prop := {
  kp_guid : guidlow p' = guidlow p;
  kp_out : exists l, out p' = out p ++ l /\ Forall no_stmt l;
  kp_new : forall id c', _currencyStorage p' !! id = Some c' ->
    _currencyStorage p !! id = Some c'
    \/ known id /\ state c' = match _currencyStorage p !! id with
                            | Some c => touched (state c) | None => PLAYERCURRENCY_NEW end;
  kp_dom : forall id, is_Some (_currencyStorage p !! id) -> is_Some (_currencyStorage p' !! id)
}.

#[export] Instance keeps_refl : Reflexive keeps.
Proof. intros p. split; [done|exists []; by rewrite app_nil_r|by left|done]. Qed.

Lemma touched_twice s : touched (touched s) = touched s.
Proof. by destruct s. Qed.

#[export] Instance keeps_trans : Transitive keeps.
Proof.
  intros p1 p2 p3 [G1 (l1 & O1 & F1) N1 D1] [G2 (l2 & O2 & F2) N2 D2]. split.
  - congruence.
  - exists (l1 ++ l2). rewrite O2, O1, app_assoc. split; [done|]. by apply Forall_app.
  - intros id c Hc. destruct (N2 id c Hc) as [H2|[K2 S2]]; [by apply N1|]. right. split; [done|]. rewrite S2.
    destruct (_currencyStorage p2 !! id) as [c2|] eqn:E2.
    + destruct (N1 id c2 E2) as [->|[_ S1]]; [done|]. rewrite S1.
      destruct (_currencyStorage p1 !! id); [apply touched_twice|done].
    + destruct (_currencyStorage p1 !! id) eqn:E1; [|done]. destruct (D1 id) as [? ?]; [by eexists|congruence].
  - auto.
Qed.

Lemma keeps_emit e p : no_stmt e -> keeps p (emit e p).
Proof. intros He. split; [done|exists [e]; split; [done|by repeat constructor]|by left|done]. Qed.

Lemma keeps_set id c p : known id ->
  state c = match _currencyStorage p !! id with Some o => touched (state o) | None => PLAYERCURRENCY_NEW end
  \/ _currencyStorage p !! id = Some c -> keeps p (set_currency id c p).
Proof.
  intros Hk Hc. split; [done|exists []; by rewrite app_nil_r| |].
  - intros id' c' Hl. cbn in Hl. apply lookup_insert_Some in Hl as [[<- <-]|[_ Hl]]; [|by left].
    destruct Hc as [Hc|Hc]; [by right|by left].
  - intros id' [c' Hl]. cbn. destruct (decide (id = id')) as [<-|Hne].
    + rewrite lookup_insert_eq. by eexists.
    + rewrite lookup_insert_ne by done. by eexists.
Qed.

Lemma keeps_conquest v p : keeps p {| p with _ConquestCurrencytotalWeekCap := v |}.
Proof. split; [done|exists []; by rewrite app_nil_r|by left|done]. Qed.

Lemma keeps_SendNewCurrency id p : keeps p (SendNewCurrency env caps id p).
Proof.
  unfold SendNewCurrency. destruct (_ !! _); [|done]. destruct (sCurrencyTypesStore _ _); [|done].
  destruct (_ =? _); [done|]. by apply keeps_emit.
Qed.

Lemma keeps_SendChange id e weekCap c log p : keeps p (SendChange env caps id e weekCap c log p).
Proof. unfold SendChange. destruct (decide _); [apply keeps_SendNewCurrency|by apply keeps_emit]. Qed.

Lemma ModifyCurrency_keeps fuel : store_ok -> forall id count log im il p,
  keeps p (ModifyCurrency env fuel caps id count log im il p).2.
Proof.
  intros Hs. induction fuel as [|fuel IH]; intros id count log im il p; cbn [ModifyCurrency];
    (destruct (count =? 0); [done|]);
    (destruct (sCurrencyTypesStore env id) as [e|] eqn:He; [|done]);
    assert (Hk : known id) by (split; [by eexists|apply Hs; by eexists]);
    set (old := default _ _); set (c := if im then _ else _); set (c' := if (_ && _) then _ else c);
    destruct (new_counts _ _ _ _ _ _ _) as [[total week] season];
    assert (H1 : keeps p (set_currency id old p))
      by (apply keeps_set; [done|]; unfold old; destruct (_ !! _); [by right|by left]);
    (destruct (total =? _); [exact H1|]);
    set (new := mkCurrency _ _ _ _ _); set (p2 := set_currency id new (set_currency id old p));
    assert (H2 : keeps p p2)
      by (etransitivity; [exact H1|]; apply keeps_set; [done|left]; cbn; by rewrite lookup_insert_eq);
    (destruct (negb (InWorld p2)); [exact H2|]);
    set (p3 := if negb il && (0 <? c') then _ else p2);
    assert (H3 : keeps p p3)
      by (etransitivity; [exact H2|]; unfold p3; destruct (negb il && (0 <? c')); [by apply keeps_emit|done]);
    (destruct (Category e =? _);
       [|etransitivity; [exact H3|apply keeps_SendChange]]);
    set (p4 := if _ / 100 <? _ then _ else p3);
    assert (H4 : keeps p p4)
      by (etransitivity; [exact H3|]; unfold p4; by destruct (_ / 100 <? _); [apply keeps_conquest|]).
  - exact H4.
  - etransitivity; [exact H4|apply IH].
Qed.

Lemma ModifyCurrencyFlag_keeps id flag p : (forall id, is_Some (_currencyStorage p !! id) -> known id) ->
  keeps p (ModifyCurrencyFlag id flag p).
Proof.
  intros Hk. unfold ModifyCurrencyFlag. destruct (id =? 0); [done|].
  destruct (_currencyStorage p !! id) as [c|] eqn:E; [|done].
  apply keeps_set; [apply Hk; by eexists|]. left. by rewrite E.
Qed.

Lemma SetCurrency_keeps id count p : known id -> keeps p (SetCurrency id count p).
Proof.
  intros Hk. unfold SetCurrency. destruct (_currencyStorage p !! id) eqn:E; [done|].
  apply keeps_set; [done|]. left. by rewrite E.
Qed.

Lemma db_after_app p p' l db : guidlow p' = guidlow p -> out p' = out p ++ l ->
  db_after p' db = foldl (apply_stmt (guidlow p)) (db_after p db) l.
Proof. intros Eg Eo. unfold db_after. by rewrite Eg, Eo, foldl_app. Qed.

Lemma no_stmt_db l g db : Forall no_stmt l -> foldl (apply_stmt g) db l = db.
Proof. induction 1 as [|e l He _ IH]; [done|]. cbn. by destruct e. Qed.

Lemma keeps_sync db p p' : keeps p p' -> in_sync (db_after p db) p -> in_sync (db_after p' db) p'.
Proof.
  intros [Eg (l & Eo & Fl) N D] [H1 H2]. rewrite (db_after_app p p' l) by done. rewrite no_stmt_db by done.
  split; [|auto]. intros id c' Hc. destruct (N id c' Hc) as [Ho|[Hk Es]]; [by apply H1|]. split; [done|].
  unfold tag_ok. rewrite Es. destruct (_currencyStorage p !! id) as [c|] eqn:E; [|done].
  destruct (H1 id c E) as [_ Ht]. unfold tag_ok in Ht. destruct (state c); cbn; try done.
Qed.

(** *** Saving *)

Lemma save_statement_other g l : forall db id, Forall (fun ic : Z * PlayerCurrency => known ic.1) l -> id ∉ l.*1 ->
  foldl (apply_stmt g) db (l ≫= save_statement env g) !! id = db !! id.
Proof.
  induction l as [|[i c] l IH]; intros db id Hl Hid; [done|].
  apply Forall_cons_iff in Hl as [[_ Hi] Hl]. cbn in Hi. cbn [fmap list_fmap fst] in Hid.
  apply not_elem_of_cons in Hid as [Hne Hid]. cbn [mbind list_bind]. rewrite foldl_app, IH by done.
  unfold save_statement. cbn. destruct (sCurrencyTypesStore env i); [|done].
  destruct (state c); cbn; rewrite ?Z.eqb_refl, ?(wrap_small 16 i) by done; try done.
  - by rewrite lookup_alter_ne.
  - by rewrite lookup_insert_ne.
Qed.

Lemma save_statement_row g l : forall db id c, Forall (fun ic : Z * PlayerCurrency => known ic.1) l -> NoDup l.*1 ->
  (id, c) ∈ l -> tag_ok (db !! id) c ->
  foldl (apply_stmt g) db (l ≫= save_statement env g) !! id = Some (row_of c).
Proof.
  induction l as [|[i c0] l IH]; intros db id c Hl Hn Hin Ht; [by apply not_elem_of_nil in Hin|].
  apply Forall_cons_iff in Hl as [[[e He] Hi] Hl]. cbn in He, Hi. cbn [fmap list_fmap fst] in Hn.
  apply NoDup_cons in Hn as [Hni Hn]. cbn [mbind list_bind]. rewrite foldl_app.
  apply elem_of_cons in Hin as [[= -> ->]|Hin].
  - rewrite save_statement_other by done. unfold save_statement. cbn. rewrite He. unfold tag_ok in Ht.
    destruct (state c0); cbn; rewrite ?Z.eqb_refl, ?(wrap_small 16 i) by done; try done.
    + destruct Ht as [r Er]. by rewrite lookup_alter_eq, Er.
    + by rewrite lookup_insert_eq.
  - apply IH; try done.
    assert (Hne : i <> id) by (intros ->; apply Hni, (list_elem_of_fmap_2 fst l (id, c)), Hin).
    unfold save_statement. cbn. rewrite He.
    destruct (state c0); cbn; rewrite ?Z.eqb_refl, ?(wrap_small 16 i) by done; try done.
    + by rewrite lookup_alter_ne.
    + by rewrite lookup_insert_ne.
Qed.

Lemma SaveCurrency_sync db p : in_sync (db_after p db) p ->
  (forall id, db_after (_SaveCurrency env p) db !! id = row_of <$> _currencyStorage p !! id)
  /\ in_sync (db_after (_SaveCurrency env p) db) (_SaveCurrency env p).
Proof.
  intros [H1 H2].
  assert (Hl : Forall (fun ic : Z * PlayerCurrency => known ic.1) (ordered (_currencyStorage p))).
  { apply Forall_forall. intros [i c] Hin. apply elem_of_ordered in Hin. by destruct (H1 i c Hin). }
  assert (Hrow : forall id, db_after (_SaveCurrency env p) db !! id = row_of <$> _currencyStorage p !! id).
  { intros id. rewrite (db_after_app p (_SaveCurrency env p) (ordered (_currencyStorage p) ≫= save_statement env (guidlow p)))
      by done.
    destruct (_currencyStorage p !! id) as [c|] eqn:E.
    - cbn. apply save_statement_row; [done|apply NoDup_ordered|by apply elem_of_ordered|]. by destruct (H1 id c E).
    - cbn. rewrite save_statement_other; [|done|].
      + apply eq_None_not_Some. intros Hs. destruct (H2 id Hs) as [? ?]. congruence.
      + intros Hin. apply list_elem_of_fmap in Hin as ([i c] & -> & Hin). apply elem_of_ordered in Hin. cbn in E.
        congruence. }
  split; [done|]. split.
  - intros id c' Hc. rewrite Hrow. cbn in Hc. rewrite map_lookup_imap in Hc.
    destruct (_currencyStorage p !! id) as [c|] eqn:E; [|done]. cbn in Hc. injection Hc as <-.
    destruct (H1 id c E) as [Hk _]. split; [done|]. pose proof Hk as [[e He] _]. unfold saved. by rewrite He.
  - intros id. rewrite Hrow. cbn. rewrite map_lookup_imap. intros [r Hr].
    destruct (_currencyStorage p !! id); [by eexists|done].
Qed.

(** *** Loading *)

Definition cur_of_row (r : currency_row) : PlayerCurrency :=
  mkCurrency PLAYERCURRENCY_UNCHANGED (row_total r) (row_week r) (row_season r) (row_flags r).

Lemma load_row_facts p r :
  guidlow (load_row env caps p r) = guidlow p /\ out (load_row env caps p r) = out p
  /\ _currencyStorage (load_row env caps p r) =
     match sCurrencyTypesStore env r.1, _currencyStorage p !! r.1 with
     | Some _, None => <[r.1 := cur_of_row r.2]> (_currencyStorage p)
     | _, _ => _currencyStorage p
     end.
Proof.
  destruct r as [id r]. unfold load_row. cbn [fst snd]. destruct (sCurrencyTypesStore env id); [|done].
  destruct (_currencyStorage p !! id) eqn:E; (destruct (_ =? _); [destruct (_ <? _); done|done]).
Qed.

Lemma load_rows_facts l : forall p,
  guidlow (_LoadCurrency env caps l p) = guidlow p /\ out (_LoadCurrency env caps l p) = out p
  /\ forall id, _currencyStorage (_LoadCurrency env caps l p) !! id =
     match _currencyStorage p !! id, sCurrencyTypesStore env id with
     | None, Some _ => cur_of_row <$> (list_to_map l : gmap Z currency_row) !! id
     | c, _ => c
     end.
Proof.
  induction l as [|r l IH]; intros p.
  { split; [done|split; [done|]]. intros id. cbn. rewrite lookup_empty.
    by destruct (_ !! id), (sCurrencyTypesStore env id). }
  destruct (load_row_facts p r) as (E1 & E2 & E3). destruct (IH (load_row env caps p r)) as (I1 & I2 & I3).
  change (_LoadCurrency env caps (r :: l) p) with (_LoadCurrency env caps l (load_row env caps p r)).
  split; [congruence|split; [congruence|]]. intros id. rewrite I3, E3. destruct r as [i r]. cbn [fst snd list_to_map].
  cbn. destruct (decide (i = id)) as [->|Hne].
  - rewrite lookup_insert_eq. destruct (sCurrencyTypesStore env id) eqn:Es.
    + destruct (_currencyStorage p !! id) eqn:Ep; [by rewrite Ep|by rewrite lookup_insert_eq].
    + by destruct (_currencyStorage p !! id).
  - rewrite lookup_insert_ne by done.
    destruct (sCurrencyTypesStore env i), (_currencyStorage p !! i); rewrite ?lookup_insert_ne by done; done.
Qed.

(** Every row of the table is of a currency of the store. *)
Definition table_ok (db : gmap Z currency_row) : Prop := forall id, is_Some (db !! id) -> is_Some (sCurrencyTypesStore env id).

(** A player just created in memory. *)
Definition fresh (p : Player) : Prop := _currencyStorage p = ∅ /\ out p = [].

Lemma load_fresh db p : fresh p -> table_ok db ->
  forall id, _currencyStorage (_LoadCurrency env caps (ordered db) p) !! id = cur_of_row <$> db !! id.
Proof.
  intros [E1 E2] Hdb id. destruct (load_rows_facts (ordered db) p) as (_ & _ & ->).
  rewrite E1, lookup_empty, list_to_map_ordered. destruct (sCurrencyTypesStore env id) eqn:Es; [done|].
  destruct (db !! id) eqn:Ed; [|done]. destruct (Hdb id) as [? ?]; [by eexists|congruence].
Qed.

Lemma load_sync db p : store_ok -> fresh p -> table_ok db ->
  in_sync (db_after (_LoadCurrency env caps (ordered db) p) db) (_LoadCurrency env caps (ordered db) p).
Proof.
  intros Hs Hf Hdb. destruct (load_rows_facts (ordered db) p) as (Eg & Eo & _).
  assert (Ed : db_after (_LoadCurrency env caps (ordered db) p) db = db).
  { unfold db_after. rewrite Eo. destruct Hf as [_ ->]. done. }
  rewrite Ed. pose proof (load_fresh db p Hf Hdb) as Hl. split.
  - intros id c. rewrite Hl. destruct (db !! id) as [r|] eqn:E; [|done]. intros [= <-].
    assert (Hk : is_Some (sCurrencyTypesStore env id)) by (apply Hdb; by eexists).
    split; [split; [done|by apply Hs]|]. cbn. unfold row_of. cbn. by destruct r.
  - intros id. rewrite Hl. intros [r ->]. by eexists.
Qed.

(** What happens to the currencies of a player during a session. *)
Inductive currency_op :=
| OpModify (fuel : nat) (id count : Z) (printLog ignoreMultipliers ignoreLimit : bool)
| OpFlag (id flag : Z)
| OpSet (id count : Z)
| OpSave.

Definition op_ok (o : currency_op) : Prop := match o with OpSet id _ => is_Some (sCurrencyTypesStore env id) | _ => True end.

Definition run_currency (p : Player) (o : currency_op) : Player :=
  match o with
  | OpModify fuel id count log im il => (ModifyCurrency env fuel caps id count log im il p).2
  | OpFlag id flag => ModifyCurrencyFlag id flag p
  | OpSet id count => SetCurrency id count p
  | OpSave => _SaveCurrency env p
  end.

Lemma session_sync db ops : store_ok -> Forall op_ok ops -> forall p,
  in_sync (db_after p db) p -> in_sync (db_after (foldl run_currency p ops) db) (foldl run_currency p ops).
Proof.
  intros Hs Hops. induction Hops as [|o ops Ho _ IH]; intros p Hp; [done|]. cbn. apply IH.
  destruct o as [fuel id count log im il|id flag|id count|]; cbn.
  - eapply keeps_sync; [by apply ModifyCurrency_keeps|done].
  - eapply keeps_sync; [|done]. apply ModifyCurrencyFlag_keeps. intros i [c Hc]. by destruct (sync_tags _ _ Hp i c Hc).
  - eapply keeps_sync; [|done]. apply SetCurrency_keeps. split; [done|by apply Hs].
  - by apply SaveCurrency_sync.
Qed.

(** C30: Nothing is lost at log out: load a player, earn and spend currencies
    ([ModifyCurrency]), change their flags, set known ones ([SetCurrency]), save in between and
    at the end; then the table holds exactly what the player has, and the next login loads it
    back.  Currency ids have 16 bits and the rows are of known currencies.  The weekly reset
    is not among these operations: it breaks this ([week_end_loses_new_currency]). *)
Theorem currencies_saved db p ops p' :
  store_ok -> table_ok db -> fresh p -> fresh p' -> Forall op_ok ops ->
  let q := foldl run_currency (_LoadCurrency env caps (ordered db) p) ops in
  let db' := db_after (_SaveCurrency env q) db in
  (forall id, db' !! id = row_of <$> _currencyStorage q !! id)
  /\ forall id, _currencyStorage (_LoadCurrency env caps (ordered db') p') !! id =
       (fun c => {| c with state := PLAYERCURRENCY_UNCHANGED |}) <$> _currencyStorage q !! id.
Proof.
  intros Hs Hdb Hf Hf' Hops q db'.
  assert (Hq : in_sync (db_after q db) q) by (apply session_sync; [done|done|by apply load_sync]).
  destruct (SaveCurrency_sync db q Hq) as [Hrow _]. split; [done|]. intros id.
  assert (Hdb' : table_ok db').
  { intros i. unfold db'. rewrite Hrow. intros [r Hr]. destruct (_currencyStorage q !! i) as [c|] eqn:E; [|done].
    by destruct (sync_tags _ _ Hq i c E) as [[? _] _]. }
  rewrite (load_fresh db' p' Hf' Hdb'). unfold db'. rewrite Hrow. by destruct (_currencyStorage q !! id).
Qed.

(** The end of the week loses what is new: a currency first earned since the
    last save is marked changed, so its row, which is not there, is updated, and
    it is then taken for saved. *)
Theorem week_end_loses_new_currency db p id c :
  in_sync (db_after p db) p -> _currencyStorage p !! id = Some c -> state c = PLAYERCURRENCY_NEW ->
  db_after p db !! id = None ->
  db_after (FinishWeek env p) db !! id = None
  /\ option_map state (_currencyStorage (FinishWeek env p) !! id) = Some PLAYERCURRENCY_UNCHANGED.
Proof.
  intros [H1 _] Hc Hn Hd. destruct (H1 id c Hc) as [[[e He] Hid] _].
  set (p1 := {| p with _currencyStorage :=
    (fun c => {| c with weekCount := 0; state := PLAYERCURRENCY_CHANGED |}) <$> _currencyStorage p |}).
  split.
  - unfold FinishWeek. fold p1.
    rewrite (db_after_app p _ ((ordered (_currencyStorage p1) ≫= save_statement env (guidlow p))
      ++ [CurrencyPacket SMSG_WEEKLY_RESET_CURRENCY []])) by (try done; cbn; by rewrite <- app_assoc).
    rewrite foldl_app. cbn [foldl apply_stmt]. revert Hd. generalize (db_after p db).
    assert (Hall : Forall (fun ic : Z * PlayerCurrency => known ic.1 /\ state ic.2 = PLAYERCURRENCY_CHANGED)
      (ordered (_currencyStorage p1))).
    { apply Forall_forall. intros [i c1] Hin. apply elem_of_ordered in Hin. cbn in Hin.
      rewrite lookup_fmap in Hin. destruct (_currencyStorage p !! i) as [c2|] eqn:E; [|done].
      cbn in Hin. injection Hin as <-. by destruct (H1 i c2 E). }
    induction Hall as [|[i c1] l [[[e1 He1] Hi] Hc1] _ IH]; intros m Hm; [done|].
    cbn [mbind list_bind]. rewrite foldl_app. apply IH. unfold save_statement. cbn in *. rewrite He1, Hc1. cbn.
    rewrite Z.eqb_refl, (wrap_small 16 i) by done.
    destruct (decide (i = id)) as [->|]; [by rewrite lookup_alter_eq, Hm|by rewrite lookup_alter_ne].
  - unfold FinishWeek. cbn. rewrite map_lookup_imap, lookup_fmap, Hc. cbn. unfold saved. by rewrite He.
Qed.
End Saving.

(** *** A concrete player *)

(** A currency of at most 100, 30 a week, and the conquest of battlegrounds. *)
Definition demo_store (id : Z) : option CurrencyTypesEntry :=
  if id =? 7 then Some (mkCurrencyType 7 1 100 30 0)
  else if id =? CURRENCY_TYPE_CONQUEST_META_BG then
    Some (mkCurrencyType CURRENCY_TYPE_CONQUEST_META_BG CURRENCY_CATEGORY_META_CONQUEST 0 0 0)
  else None.

Definition demo_currencies : CurrencyEnv := mkCurrencyEnv demo_store (fun _ => f_one) 0 0 1 2500 (fun r => r) 0.

Definition demo_owner (cs : gmap Z PlayerCurrency) : Player := mkPlayer 3 cs 0 (Some 3) true [].

Lemma demo_store_ok : store_ok demo_currencies.
Proof.
  intros id. cbn. unfold demo_store. repeat bdestr; intros [ty Hty]; try done; subst; split; vm_compute; congruence.
Qed.

Lemma ModifyCurrency_outcome_witness :
  let p := demo_owner {[7 := mkCurrency PLAYERCURRENCY_UNCHANGED 90 10 0 0]} in
  exists p' new, ModifyCurrency demo_currencies 1 ∅ 7 50 true false false p = (Some (Ok tt), p')
  /\ _currencyStorage p' !! 7 = Some new /\ totalCount new = 100 /\ weekCount new = 30.
Proof.
  intros p.
  destruct (ModifyCurrency_outcome demo_currencies ∅ 1 7 (mkCurrencyType 7 1 100 30 0) 50 true false p)
    as (p' & new & E & Es & Et & Ew & _); try done.
  - split; vm_compute; first [split; congruence|right; congruence].
  - exists p', new. split; [exact E|]. rewrite Es, lookup_insert_eq. split; [done|]. rewrite Ew, Et. by vm_compute.
Defined.

Definition demo_table : gmap Z currency_row := {[7 := mkRow 10 90 0 0]}.
Definition demo_session_ops : list currency_op :=
  [OpFlag 7 4; OpSave; OpModify 1 7 (-20) true true false; OpSet CURRENCY_TYPE_CONQUEST_META_BG 5].

Lemma currencies_saved_witness :
  let q := foldl (run_currency demo_currencies ∅) (_LoadCurrency demo_currencies ∅ (ordered demo_table) (demo_owner ∅))
             demo_session_ops in
  db_after (_SaveCurrency demo_currencies q) demo_table !! 7 = Some (mkRow 10 70 0 4)
  /\ db_after (_SaveCurrency demo_currencies q) demo_table !! CURRENCY_TYPE_CONQUEST_META_BG = Some (mkRow 0 5 0 0).
Proof.
  destruct (currencies_saved demo_currencies ∅ demo_table (demo_owner ∅) demo_session_ops (demo_owner ∅)
    demo_store_ok) as [Hrow _]; [|done|done| |].
  - intros id [r Hr]. unfold demo_table in Hr. apply lookup_singleton_Some in Hr as [<- _]. by eexists.
  - repeat constructor. by eexists.
  - split; rewrite Hrow; by vm_compute.
Defined.

Lemma week_end_loses_new_currency_witness :
  let p := demo_owner {[7 := mkCurrency PLAYERCURRENCY_NEW 20 20 0 0]} in
  db_after (FinishWeek demo_currencies p) ∅ !! 7 = None.
Proof.
  intros p. apply (week_end_loses_new_currency demo_currencies ∅ p 7 (mkCurrency PLAYERCURRENCY_NEW 20 20 0 0)); try done.
  split.
  - intros id c Hc. cbn in Hc. apply lookup_singleton_Some in Hc as [<- <-]. split; [|done].
    split; [by eexists|split; vm_compute; congruence].
  - intros id [r Hr]. done.
Defined.
