(* ===== verification/CurrencyResetSpec.v ===== *)
(** * The weekly reset of the currency caps: every player due, once *)

From S2P Require Import Prelude.
From S2P Require Import Float32.
From S2P Require Import ByteBuffer.
From S2P Require Import Currency.
From S2P Require Import CurrencySpec.

Section Reset.
Context (env : CurrencyEnv).

Definition new_cap (c : CurrencyCap) : Z := CalculatingCurrencyCap env (highestArenaRating c) false.

(** What a reset makes of the entry of a player. *)
Definition renewed (c : CurrencyCap) : CurrencyCap :=
  if requireReset c =? 0 then c else mkCap 0 0 (new_cap c) 0 0.

(** The players of a list a reset is due for, with their new caps. *)
Definition due_of (caps : caps_map) (g : Z) : option (Z * Z) :=
  c ← caps !! g; if requireReset c =? 0 then None else Some (g, new_cap c).
Definition due (caps : caps_map) (keys : list Z) : list (Z * Z) := omap (due_of caps) keys.

Definition resets (es : list currency_event) : list (Z * Z) :=
  omap (fun e => match e with ResetCapRow g cap => Some (g, cap) | _ => None end) es.

Definition weeks_zero (m : CurrencyMgr) (g : Z) : Prop := forall p id c,
  players m !! g = Some p -> _currencyStorage p !! id = Some c -> weekCount c = 0.

(** Players online are found under their guid and know their cap. *)
Record server_ok (m : CurrencyMgr) : Prop := {
  srv_guid : forall g p, players m !! g = Some p -> guidlow p = g;
  srv_cap : forall g p, players m !! g = Some p -> is_Some (_capValuesStorage m !! g) -> m_currencyCap p = Some g;
  srv_store : is_Some (sCurrencyTypesStore env CURRENCY_TYPE_CONQUEST_META_BG)
}.

Lemma renewed_twice c : renewed (renewed c) = renewed c.
Proof. unfold renewed. by destruct (Z.eqb_spec (requireReset c) 0) as [->|]. Qed.

Lemma new_cap_range c : DEFAULT_ARENA_CAP <= new_cap c <= MAXIMUM_ARENA_CAP.
Proof.
  unfold new_cap, CalculatingCurrencyCap, ConquestRatingCalculator, DEFAULT_ARENA_CAP, MAXIMUM_ARENA_CAP.
  repeat bdestr; lia.
Qed.

Lemma SendPvpRewards_run caps p : is_Some (sCurrencyTypesStore env CURRENCY_TYPE_CONQUEST_META_BG) ->
  exists e, SendPvpRewards env caps p = (Ok tt, emit e p).
Proof.
  intros [e He]. unfold SendPvpRewards, GetCurrencyOnWeek, count_of. rewrite He.
  destruct (_ !! CURRENCY_TYPE_CONQUEST_META_BG), (_ !! CURRENCY_TYPE_CONQUEST_META_ARENA); cbn [negb]; by eexists.
Qed.

Lemma FinishWeek_weeks p id c : _currencyStorage (FinishWeek env p) !! id = Some c -> weekCount c = 0.
Proof.
  unfold FinishWeek. cbn. rewrite map_lookup_imap, lookup_fmap. destruct (_ !! id) as [c'|]; [|done].
  cbn. intros [= <-]. unfold saved. by destruct (sCurrencyTypesStore _ _).
Qed.

(** One player: the entry is renewed, one statement written, nobody else touched. *)
Record one_reset (g : Z) (c : CurrencyCap) (m m' : CurrencyMgr) : Prop := {
  or_caps : _capValuesStorage m' = <[g := renewed c]> (_capValuesStorage m);
  or_out : resets (mgr_out m') = resets (mgr_out m) ++ [(g, new_cap c)];
  or_ok : server_ok m';
  or_others : forall g', g' <> g -> players m' !! g' = players m !! g';
  or_weeks : weeks_zero m' g;
  or_last : lastItr m' = lastItr m
}.

Lemma reset_player_run g c m : server_ok m -> _capValuesStorage m !! g = Some c -> requireReset c <> 0 ->
  exists m', reset_player env g c m = (Ok tt, m') /\ one_reset g c m m'.
Proof.
  intros [H1 H2 H3] Hc Hr.
  assert (Er : renewed c = mkCap 0 0 (new_cap c) 0 0) by (unfold renewed; by rewrite (proj2 (Z.eqb_neq _ _))).
  unfold reset_player. destruct (players m !! g) as [p|] eqn:Ep.
  - unfold ResetCurrencyWeekCap, cap_of. rewrite (H2 g p Ep) by by eexists. cbn [mbind option_bind]. rewrite Hc.
    change (guidlow (FinishWeek env p)) with (guidlow p). rewrite (H1 g p Ep).
    match goal with |- context [SendPvpRewards env (_capValuesStorage ?a) ?b] => set (p1 := b); set (m1 := a) end.
    destruct (SendPvpRewards_run (_capValuesStorage m1) p1 H3) as [e ->]. eexists. split; [reflexivity|].
    assert (Ec1 : m_currencyCap p1 = Some g).
    { unfold p1, GetCurrencyCapData. cbn. by rewrite lookup_insert_eq. }
    split.
    + cbn. by rewrite Er.
    + cbn. unfold resets. by rewrite omap_app.
    + split; [| |done]; cbn; intros g' p' Hp'; apply lookup_insert_Some in Hp' as [[<- <-]|[Hne Hp']].
      * done.
      * by apply H1.
      * intros _. exact Ec1.
      * rewrite lookup_insert_ne by done. by apply H2.
    + intros g' Hne. cbn. by rewrite lookup_insert_ne.
    + intros p' id c' Hp'. cbn in Hp'. rewrite lookup_insert_eq in Hp'. injection Hp' as <-. cbn [emit _currencyStorage].
      apply FinishWeek_weeks.
    + done.
  - eexists. split; [reflexivity|]. split.
    + cbn. by rewrite Er.
    + cbn. unfold resets. by rewrite omap_app.
    + split; cbn; [done| |done]. intros g' p' Hp'. destruct (decide (g = g')) as [<-|Hne]; [congruence|].
      rewrite lookup_insert_ne by done. by apply H2.
    + done.
    + intros p' id c' Hp'. cbn in Hp'. congruence.
    + done.
Qed.

(** Players of a list done: renewed once each, in order. *)
Record all_reset (keys : list Z) (m m' : CurrencyMgr) : Prop := {
  ar_caps : forall g, _capValuesStorage m' !! g =
    if decide (g ∈ keys) then renewed <$> _capValuesStorage m !! g else _capValuesStorage m !! g;
  ar_out : resets (mgr_out m') = resets (mgr_out m) ++ due (_capValuesStorage m) keys;
  ar_ok : server_ok m';
  ar_others : forall g, g ∉ (due (_capValuesStorage m) keys).*1 -> players m' !! g = players m !! g;
  ar_weeks : forall g, g ∈ (due (_capValuesStorage m) keys).*1 -> weeks_zero m' g
}.

Lemma all_reset_nil m : server_ok m -> all_reset [] m m.
Proof.
  intros Hm. split.
  - intros g. by rewrite decide_False by apply not_elem_of_nil.
  - by rewrite app_nil_r.
  - done.
  - done.
  - intros g Hg. by apply not_elem_of_nil in Hg.
Qed.

Lemma due_ext caps caps' keys : (forall g, g ∈ keys -> caps !! g = caps' !! g) -> due caps keys = due caps' keys.
Proof.
  induction keys as [|g keys IH]; intros He; [done|]. unfold due in *. cbn.
  assert (E : due_of caps g = due_of caps' g) by (unfold due_of; by rewrite (He g) by constructor).
  rewrite E, IH; [done|]. intros g' Hg'. apply He. by constructor.
Qed.

Lemma due_app caps l1 l2 : due caps (l1 ++ l2) = due caps l1 ++ due caps l2.
Proof. apply omap_app. Qed.

Lemma due_keys caps keys g : g ∈ (due caps keys).*1 -> g ∈ keys.
Proof.
  intros Hg. apply list_elem_of_fmap in Hg as ([g' x] & -> & Hg). apply list_elem_of_omap in Hg as (k & Hk & E).
  unfold due_of in E. destruct (caps !! k); [|done]. cbn in E. destruct (_ =? 0); [done|]. by injection E as <- _.
Qed.

(** Doing more after some. *)
Lemma all_reset_app k1 k2 m m1 m2 : (forall g, g ∈ k1 -> g ∉ k2) ->
  all_reset k1 m m1 -> all_reset k2 m1 m2 -> all_reset (k1 ++ k2) m m2.
Proof.
  intros Hd [C1 O1 S1 P1 W1] [C2 O2 S2 P2 W2].
  assert (Edue : due (_capValuesStorage m1) k2 = due (_capValuesStorage m) k2).
  { apply due_ext. intros g Hg. rewrite C1. rewrite decide_False; [done|]. intros H1. by apply (Hd g). }
  rewrite Edue in *. split.
  - intros g. rewrite C2, C1. destruct (decide (g ∈ k2)) as [H2|H2].
    + rewrite (decide_True (P := g ∈ k1 ++ k2)) by (apply elem_of_app; by right).
      rewrite decide_False; [done|]. intros H1. by apply (Hd g).
    + destruct (decide (g ∈ k1)) as [H1|H1].
      * by rewrite decide_True by (apply elem_of_app; by left).
      * rewrite decide_False; [done|]. intros H. apply elem_of_app in H as [|]; done.
  - by rewrite O2, O1, due_app, app_assoc.
  - done.
  - intros g Hg. rewrite due_app, fmap_app in Hg. apply not_elem_of_app in Hg as [Hg1 Hg2]. by rewrite P2, P1.
  - intros g Hg. rewrite due_app, fmap_app in Hg. apply elem_of_app in Hg as [Hg|Hg]; [|by apply W2].
    intros p id c Hp. rewrite P2 in Hp; [by apply (W1 g Hg p)|].
    intros H2. apply (Hd g); [by eapply due_keys|by eapply due_keys].
Qed.

Lemma all_reset_one g c m m' : _capValuesStorage m !! g = Some c -> requireReset c <> 0 ->
  one_reset g c m m' -> all_reset [g] m m'.
Proof.
  intros Hc Hr [C O S P W _].
  assert (Ed : due (_capValuesStorage m) [g] = [(g, new_cap c)]).
  { unfold due, due_of. cbn. rewrite Hc. cbn. by rewrite (proj2 (Z.eqb_neq _ _)). }
  split; rewrite ?Ed; [| |done| |].
  - intros g'. rewrite C. destruct (decide (g' ∈ [g])) as [Hg|Hg].
    + apply list_elem_of_singleton in Hg as ->. by rewrite lookup_insert_eq, Hc.
    + rewrite lookup_insert_ne; [done|]. intros ->. apply Hg. constructor.
  - done.
  - intros g' Hg. apply P. intros ->. apply Hg. constructor.
  - intros g' Hg. apply list_elem_of_singleton in Hg as ->. done.
Qed.

Lemma all_reset_skip g c m : server_ok m -> _capValuesStorage m !! g = Some c -> requireReset c = 0 -> all_reset [g] m m.
Proof.
  intros Hm Hc Hr.
  assert (Ed : due (_capValuesStorage m) [g] = []).
  { unfold due, due_of. cbn. rewrite Hc. cbn. by rewrite Hr. }
  split; rewrite ?Ed; [|by rewrite app_nil_r|done|done|].
  - intros g'. destruct (decide (g' ∈ [g])) as [Hg|Hg]; [|done].
    apply list_elem_of_singleton in Hg as ->. rewrite Hc. cbn. unfold renewed. by rewrite Hr.
  - intros g' Hg. by apply not_elem_of_nil in Hg.
Qed.

(** One part: a first stretch of the players is done; it ends after a player
    whose reset was due, or at the end. *)
Lemma reset_loop_run n : forall keys count m, server_ok m -> NoDup keys ->
  (forall g, g ∈ keys -> is_Some (_capValuesStorage m !! g)) ->
  exists stop m' pre suf, reset_loop env keys count n m = (Ok stop, m') /\ keys = pre ++ suf /\ all_reset pre m m'
  /\ lastItr m' = lastItr m
  /\ match stop with
     | None => suf = []
     | Some k => exists pre', pre = pre' ++ [k] /\ due (_capValuesStorage m) [k] <> []
     end.
Proof.
  induction keys as [|g keys IH]; intros count m Hm Hn Hk.
  { exists None, m, [], []. split; [done|split; [done|split; [by apply all_reset_nil|done]]]. }
  apply NoDup_cons in Hn as [Hg Hn]. destruct (Hk g) as [c Hc]; [constructor|]. cbn [reset_loop]. rewrite Hc.
  assert (Hdis : forall pre suf : list Z, keys = pre ++ suf -> forall x, x ∈ [g] -> x ∉ pre).
  { intros pre suf -> x Hx Hp. apply list_elem_of_singleton in Hx as ->. apply Hg, elem_of_app. by left. }
  destruct (Z.eqb_spec (requireReset c) 0) as [Hr|Hr].
  - destruct (IH (u32 (count + 1)) m Hm Hn) as (stop & m' & pre & suf & E1 & E2 & E3 & E4 & E5).
    { intros x Hx. apply Hk. by constructor. }
    exists stop, m', (g :: pre), suf. rewrite E1. split; [done|split; [by rewrite E2|split; [|split; [done|]]]].
    + apply (all_reset_app [g] pre m m); [by eapply Hdis|by eapply all_reset_skip|done].
    + destruct stop as [k|]; [|done]. destruct E5 as (pre' & -> & Hd). by exists (g :: pre').
  - destruct (reset_player_run g c m Hm Hc Hr) as (m1 & -> & H1). pose proof (all_reset_one g c m m1 Hc Hr H1) as Ha.
    pose proof (or_last _ _ _ _ H1) as El.
    destruct (n <? u32 (count + 1)).
    + exists (Some g), m1, [g], keys. split; [done|split; [done|split; [done|split; [done|]]]]. exists [].
      split; [done|]. unfold due, due_of. cbn. rewrite Hc. cbn. by rewrite (proj2 (Z.eqb_neq _ _)).
    + destruct (IH (u32 (count + 1)) m1 (ar_ok _ _ _ Ha) Hn) as (stop & m' & pre & suf & E1 & E2 & E3 & E4 & E5).
      { intros x Hx. rewrite (ar_caps _ _ _ Ha). destruct (Hk x) as [cx Ex]; [by constructor|].
        rewrite Ex. destruct (decide _); by eexists. }
      exists stop, m', (g :: pre), suf. rewrite E1. split; [done|split; [by rewrite E2|split; [|split; [congruence|]]]].
      * apply (all_reset_app [g] pre m m1); [by eapply Hdis|done|done].
      * destruct stop as [k|]; [|done]. destruct E5 as (pre' & -> & Hd). exists (g :: pre'). split; [done|].
        rewrite <- (due_ext (_capValuesStorage m1)); [done|]. intros x Hx. apply list_elem_of_singleton in Hx as ->.
        rewrite (ar_caps _ _ _ Ha). rewrite decide_False; [done|]. intros Hx. apply list_elem_of_singleton in Hx as ->.
        apply Hg. rewrite E2. apply elem_of_app. left. apply elem_of_app. right. constructor.
Qed.

(** *** The order of the players *)

Lemma keys_sorted {A} (m : gmap Z A) : StronglySorted Z.le (ordered m).*1.
Proof.
  pose proof (ordered_sorted m) as Hs. induction Hs as [|[k x] l _ IH Hk]; [constructor|]. cbn. constructor; [done|].
  apply Forall_fmap. eapply list.Forall_impl; [exact Hk|]. by intros [].
Qed.

Lemma elem_of_keys {A} (m : gmap Z A) g : g ∈ (ordered m).*1 <-> is_Some (m !! g).
Proof.
  split.
  - intros Hg. apply list_elem_of_fmap in Hg as ([k x] & -> & Hk). apply elem_of_ordered in Hk. by eexists.
  - intros [x Hx]. apply elem_of_ordered in Hx. by apply (list_elem_of_fmap_2 fst _ (g, x)).
Qed.

Lemma keys_same {A} (m m' : gmap Z A) : (forall g, is_Some (m' !! g) <-> is_Some (m !! g)) ->
  (ordered m').*1 = (ordered m).*1.
Proof.
  intros Hd. apply (StronglySorted_unique Z.le); [apply keys_sorted|apply keys_sorted|].
  apply NoDup_Permutation; [apply NoDup_ordered|apply NoDup_ordered|]. intros g. by rewrite !elem_of_keys.
Qed.

Lemma filter_from k pre suf : StronglySorted Z.le (pre ++ k :: suf) -> NoDup (pre ++ k :: suf) ->
  filter (fun g => k <= g) (pre ++ k :: suf) = k :: suf.
Proof.
  induction pre as [|x pre IH]; cbn [app]; intros Hs Hn.
  - apply StronglySorted_inv in Hs as [_ Hk]. rewrite filter_cons_True by done. f_equal.
    clear Hn. induction Hk as [|y suf Hy _ IH]; [done|]. rewrite filter_cons_True by done. by rewrite IH.
  - apply StronglySorted_inv in Hs as [Hs Hx]. apply NoDup_cons in Hn as [Hx' Hn].
    rewrite filter_cons_False; [by apply IH|].
    apply Forall_app in Hx as [_ Hx]. apply Forall_cons_iff in Hx as [Hx _].
    assert (x <> k) by (intros ->; apply Hx', elem_of_app; right; constructor). lia.
Qed.

Lemma sorted_filter (P : Z -> Prop) `{forall x, Decision (P x)} l :
  StronglySorted Z.le l -> StronglySorted Z.le (filter P l).
Proof.
  induction 1 as [|x l _ IH Hx]; [constructor|]. destruct (decide (P x)).
  - rewrite filter_cons_True by done. constructor; [done|]. apply Forall_forall. intros y Hy.
    apply list_elem_of_filter in Hy as [_ Hy]. rewrite Forall_forall in Hx. by apply Hx.
  - by rewrite filter_cons_False.
Qed.

Lemma filter_weaken k k' (l : list Z) : k <= k' -> filter (fun g => k' <= g) (filter (fun g => k <= g) l) = filter (fun g => k' <= g) l.
Proof.
  intros Hk. induction l as [|x l IH]; [done|]. destruct (decide (k <= x)).
  - rewrite (filter_cons_True (fun g => k <= g)) by done. destruct (decide (k' <= x)).
    + rewrite !(filter_cons_True (fun g => k' <= g)) by done. by rewrite IH.
    + by rewrite !(filter_cons_False (fun g => k' <= g)).
  - rewrite (filter_cons_False (fun g => k <= g)), (filter_cons_False (fun g => k' <= g)) by lia. done.
Qed.

(** Where the next part starts. *)
Lemma keys_from_next caps caps' cur pre k suf :
  (forall g, is_Some (caps' !! g) <-> is_Some (caps !! g)) ->
  keys_from (Some cur) caps = pre ++ k :: suf -> keys_from (Some k) caps' = k :: suf.
Proof.
  intros Hd E. unfold keys_from in *. rewrite (keys_same caps caps' Hd).
  assert (Hk : cur <= k).
  { assert (Hin : k ∈ filter (fun g => cur <= g) (ordered caps).*1)
      by (rewrite E; apply elem_of_app; right; constructor). by apply list_elem_of_filter in Hin as [? _]. }
  rewrite <- (filter_weaken cur k) by done. rewrite E. apply filter_from; rewrite <- E.
  - apply sorted_filter, keys_sorted.
  - apply NoDup_filter, NoDup_ordered.
Qed.

(** *** All the parts *)

Lemma all_reset_drop g c keys m m' : g ∉ keys -> _capValuesStorage m !! g = Some c -> requireReset c = 0 ->
  all_reset (g :: keys) m m' -> all_reset keys m m'.
Proof.
  intros Hg Hc Hr [C O S P W].
  assert (Ed : due (_capValuesStorage m) (g :: keys) = due (_capValuesStorage m) keys).
  { unfold due. cbn. unfold due_of at 1. rewrite Hc. cbn. by rewrite Hr. }
  rewrite Ed in *. split; try done. intros g'. rewrite C. destruct (decide (g' ∈ keys)) as [Hk|Hk].
  - by rewrite decide_True by (by constructor).
  - destruct (decide (g' = g)) as [->|Hne].
    + rewrite decide_True by constructor. rewrite Hc. cbn. unfold renewed. by rewrite Hr.
    + rewrite decide_False; [done|]. intros Hin. by apply elem_of_cons in Hin as [|].
Qed.

(** Nothing that concerns the caps or the players. *)
Lemma all_reset_end keys m m1 m2 : all_reset keys m m1 ->
  _capValuesStorage m2 = _capValuesStorage m1 -> players m2 = players m1 ->
  resets (mgr_out m2) = resets (mgr_out m1) -> all_reset keys m m2.
Proof.
  intros [C O S P W] E1 E2 E3. split.
  - intros g. by rewrite E1.
  - by rewrite E3.
  - destruct S as [S1 S2 S3]. split; rewrite ?E1, ?E2; done.
  - intros g. rewrite E2. apply P.
  - intros g Hg p id c. rewrite E2. by apply W.
Qed.

(** After a part that ended with [k']: what is left is what was after [k']. *)
Lemma next_part k pre k' suf m m2 :
  keys_from (Some k) (_capValuesStorage m) = pre ++ k' :: suf -> all_reset (pre ++ [k']) m m2 ->
  is_Some (_capValuesStorage m2 !! k') /\ (_capValuesStorage m !! 0 = None -> _capValuesStorage m2 !! 0 = None)
  /\ keys_from (Some k') (_capValuesStorage m2) = k' :: suf
  /\ due (_capValuesStorage m2) (k' :: suf) = due (_capValuesStorage m) suf
  /\ forall m', all_reset (k' :: suf) m2 m' -> all_reset (pre ++ k' :: suf) m m'.
Proof.
  intros Ek Ha.
  assert (Hdom : forall g, is_Some (_capValuesStorage m2 !! g) <-> is_Some (_capValuesStorage m !! g)).
  { intros g. rewrite (ar_caps _ _ _ Ha). destruct (decide _); [|done]. by rewrite fmap_is_Some. }
  assert (Hn : NoDup (pre ++ k' :: suf)) by (rewrite <- Ek; apply NoDup_filter, NoDup_ordered).
  apply NoDup_app in Hn as (_ & Hn1 & Hn2). apply NoDup_cons in Hn2 as [Hn2 _].
  assert (Hdis : forall g, g ∈ pre ++ [k'] -> g ∉ suf).
  { intros g Hg Hsuf. apply elem_of_app in Hg as [Hg|Hg]; [apply (Hn1 g Hg); by constructor|].
    by apply list_elem_of_singleton in Hg as ->. }
  assert (Hkc : exists c, _capValuesStorage m2 !! k' = Some c /\ requireReset c = 0).
  { assert (Hin : k' ∈ keys_from (Some k) (_capValuesStorage m))
      by (rewrite Ek; apply elem_of_app; right; constructor).
    apply list_elem_of_filter in Hin as [_ Hin]. apply elem_of_keys in Hin as [c Hc].
    exists (renewed c). rewrite (ar_caps _ _ _ Ha), decide_True by (apply elem_of_app; right; constructor).
    rewrite Hc. split; [done|]. unfold renewed. by destruct (Z.eqb_spec (requireReset c) 0). }
  destruct Hkc as (c & Hc & Hr). split; [by eexists|split; [|split; [by eapply keys_from_next|split]]].
  - intros H0. apply eq_None_not_Some. intros Hs. apply Hdom in Hs. rewrite H0 in Hs. by destruct Hs.
  - unfold due at 1. cbn. unfold due_of at 1. rewrite Hc. cbn. rewrite Hr. cbn. apply due_ext.
    intros g Hg. rewrite (ar_caps _ _ _ Ha), decide_False; [done|]. intros Hin. by apply (Hdis g).
  - intros m' Ha'. change (k' :: suf) with ([k'] ++ suf). rewrite app_assoc.
    apply (all_reset_app _ _ m m2); [done|done|by eapply all_reset_drop].
Qed.

Lemma parts_run fuel : forall part m k, server_ok m -> lastItr m = Some k -> is_Some (_capValuesStorage m !! k) ->
  _capValuesStorage m !! 0 = None ->
  (length (due (_capValuesStorage m) (keys_from (Some k) (_capValuesStorage m))) < fuel)%nat ->
  exists m', run_parts env fuel part m = (Some (Ok true), m')
  /\ all_reset (keys_from (Some k) (_capValuesStorage m)) m m'.
Proof.
  induction fuel as [|fuel IH]; intros part m k Hm Hl Hk H0 Hf; [lia|]. cbn [run_parts].
  assert (Hk0 : k <> 0) by (intros ->; rewrite H0 in Hk; by destruct Hk).
  unfold Execute. rewrite Hl. cbn [default from_option id]. rewrite (proj2 (Z.eqb_neq _ _)) by done.
  destruct (reset_loop_run (u16 (CONFIG_CURRENCY_RESET_CAP_PLAYERS_COUNT env))
    (keys_from (Some k) (_capValuesStorage m)) 0 m Hm) as (stop & m1 & pre & suf & -> & Ek & Ha & El & Hs).
  { apply NoDup_filter, NoDup_ordered. }
  { intros g Hg. apply list_elem_of_filter in Hg as [_ Hg]. by apply elem_of_keys. }
  destruct stop as [k'|].
  - destruct Hs as (pre' & -> & Hd). rewrite <- app_assoc in Ek. cbn [app] in Ek.
    match goal with |- context [run_parts env fuel _ ?x] => set (m2 := x) end.
    assert (Ha2 : all_reset (pre' ++ [k']) m m2).
    { eapply all_reset_end; [exact Ha|done|done|]. cbn. unfold resets. by rewrite !omap_app, !app_nil_r. }
    assert (El2 : lastItr m2 = Some k') by done. clearbody m2.
    destruct (next_part k pre' k' suf m m2 Ek Ha2) as (N1 & N2 & N3 & N4 & N5).
    destruct (IH (u16 (part + 1)) m2 k' (ar_ok _ _ _ Ha2) El2 N1 (N2 H0)) as (m' & E & Ha').
    + rewrite N3, N4. rewrite Ek, (due_app _ pre' (k' :: suf)), length_app in Hf.
      change (k' :: suf) with ([k'] ++ suf) in Hf. rewrite due_app, length_app in Hf.
      destruct (due (_capValuesStorage m) [k']); [done|cbn in Hf; lia].
    + exists m'. split; [exact E|]. rewrite N3 in Ha'. rewrite Ek. by apply N5.
  - subst suf. rewrite app_nil_r in Ek. rewrite Ek. eexists. split; [reflexivity|].
    eapply all_reset_end; [exact Ha|done|done|]. cbn. unfold resets. by rewrite !omap_app, !app_nil_r.
Qed.

(** All players of the server, in the order of their guids. *)
Definition all_keys (caps : caps_map) : list Z := (ordered caps).*1.

Lemma keys_from_first caps k : first_key caps = Some k -> keys_from (Some k) caps = all_keys caps /\ is_Some (caps !! k).
Proof.
  unfold first_key, keys_from, all_keys. pose proof (keys_sorted caps) as Hs.
  assert (Hin : forall g, g ∈ (ordered caps).*1 -> is_Some (caps !! g)) by (intros g; apply elem_of_keys).
  destruct (ordered caps).*1 as [|k' l] eqn:E; [done|]. cbn [head]. intros [= ->].
  split; [|apply Hin; constructor]. apply (filter_from k [] l); [done|]. rewrite <- E. apply NoDup_ordered.
Qed.

Lemma length_due caps keys : (length (due caps keys) <= length keys)%nat.
Proof.
  induction keys as [|g keys IH]; [done|]. unfold due in *. cbn. destruct (due_of caps g); cbn; lia.
Qed.

Lemma reset_all m : server_ok m -> _capValuesStorage m !! 0 = None -> _capValuesStorage m <> ∅ ->
  exists m', run_parts env (S (length (all_keys (_capValuesStorage m)))) 0 (ResetCurrencyCapToAllPlayers m) = (Some (Ok true), m')
  /\ all_reset (all_keys (_capValuesStorage m)) m m'.
Proof.
  intros Hm H0 Hne. unfold ResetCurrencyCapToAllPlayers.
  destruct (first_key (_capValuesStorage m)) as [k|] eqn:Ek.
  - destruct (keys_from_first _ k Ek) as [Ekeys Hk]. set (m1 := mgr_emit _ _).
    assert (Ha : all_reset [] m m1).
    { eapply all_reset_end; [by apply all_reset_nil|done|done|]. cbn. unfold resets. by rewrite omap_app, app_nil_r. }
    destruct (parts_run (S (length (all_keys (_capValuesStorage m)))) 0 m1 k (ar_ok _ _ _ Ha) eq_refl Hk H0) as (m' & E & Ha').
    + change (_capValuesStorage m1) with (_capValuesStorage m). rewrite Ekeys.
      pose proof (length_due (_capValuesStorage m) (all_keys (_capValuesStorage m))) as Hl. lia.
    + exists m'. split; [exact E|]. change (_capValuesStorage m1) with (_capValuesStorage m) in Ha'. rewrite Ekeys in Ha'.
      apply (all_reset_app [] _ m m1); [intros g Hg; by apply not_elem_of_nil in Hg|done|done].
  - exfalso. apply Hne. unfold first_key in Ek. apply map_eq. intros g. rewrite lookup_empty.
    apply eq_None_not_Some. intros Hg. apply elem_of_keys in Hg. destruct (ordered _).*1; [by apply not_elem_of_nil in Hg|done].
Qed.

(** C31: The weekly reset comes to an end and misses nobody: however many players a
    part takes, at most one part per player and one more are needed; then every
    entry a reset was due for is renewed with the cap its rating gives, each by
    one statement, in the order of the guids, every player online it concerns
    starts the week at zero, and no other entry or player changes. *)
Theorem every_cap_reset_once m :
  server_ok m -> _capValuesStorage m !! 0 = None -> _capValuesStorage m <> ∅ ->
  exists m', run_parts env (S (length (all_keys (_capValuesStorage m)))) 0 (ResetCurrencyCapToAllPlayers m) = (Some (Ok true), m')
  /\ _capValuesStorage m' = renewed <$> _capValuesStorage m
  /\ resets (mgr_out m') = resets (mgr_out m) ++ due (_capValuesStorage m) (all_keys (_capValuesStorage m))
  /\ (forall g c, _capValuesStorage m !! g = Some c -> requireReset c <> 0 -> weeks_zero m' g)
  /\ (forall g, (forall c, _capValuesStorage m !! g = Some c -> requireReset c = 0) -> players m' !! g = players m !! g).
Proof.
  intros Hm H0 Hne. destruct (reset_all m Hm H0 Hne) as (m' & E & [C O S P W]). exists m'.
  assert (Hdue : forall g, g ∈ (due (_capValuesStorage m) (all_keys (_capValuesStorage m))).*1 <->
    exists c, _capValuesStorage m !! g = Some c /\ requireReset c <> 0).
  { intros g. split.
    - intros Hg. apply list_elem_of_fmap in Hg as ([g' x] & -> & Hg). apply list_elem_of_omap in Hg as (k & Hk & Ed).
      unfold due_of in Ed. destruct (_ !! k) as [c|] eqn:Ec; [|done]. cbn in Ed.
      destruct (Z.eqb_spec (requireReset c) 0); [done|]. injection Ed as <- _. by exists c.
    - intros (c & Hc & Hr). apply (list_elem_of_fmap_2 fst _ (g, new_cap c)). apply list_elem_of_omap. exists g.
      split; [apply elem_of_keys; by eexists|]. unfold due_of. rewrite Hc. cbn. by rewrite (proj2 (Z.eqb_neq _ _)). }
  split; [done|split; [|split; [done|split]]].
  - apply map_eq. intros g. rewrite C, lookup_fmap. destruct (decide _) as [|Hg]; [done|].
    destruct (_capValuesStorage m !! g) eqn:Eg; [|done]. exfalso. apply Hg, elem_of_keys. by eexists.
  - intros g c Hc Hr. apply W, Hdue. by exists c.
  - intros g Hg. apply P. intros Hin. apply Hdue in Hin as (c & Hc & Hr). by apply Hr, Hg.
Qed.

(** A rating reached after the reset of a week is not looked at in the next:
    the statement sets the row to be reset, the entry in memory is not, and the
    next reset leaves the player's cap and week as they are. *)
Theorem new_rating_not_reset m p c value :
  server_ok m -> _capValuesStorage m !! 0 = None ->
  m_currencyCap p = Some (guidlow p) -> _capValuesStorage m !! guidlow p = Some c -> requireReset c = 0 ->
  let m1 := SetMaxPersonalArenaRating value p m in
  mgr_out m1 = mgr_out m ++ [TouchCapRow (guidlow p) (u16 value)]
  /\ exists m', run_parts env (S (length (all_keys (_capValuesStorage m1)))) 0 (ResetCurrencyCapToAllPlayers m1) = (Some (Ok true), m')
     /\ option_map highestArenaRating (_capValuesStorage m' !! guidlow p) = Some (u16 value)
     /\ option_map currentArenaCap (_capValuesStorage m' !! guidlow p) = Some (currentArenaCap c)
     /\ players m' !! guidlow p = players m !! guidlow p.
Proof.
  intros Hm H0 Hp Hc Hr m1.
  assert (Em : m1 = UpdateCurrencyCap_data {| c with highestArenaRating := u16 value |} (guidlow p)
    (mgr_emit [TouchCapRow (guidlow p) (u16 value)] m)).
  { unfold m1, SetMaxPersonalArenaRating, cap_of. rewrite Hp. cbn. by rewrite Hc. }
  split; [by rewrite Em|]. set (c1 := {| c with highestArenaRating := u16 value |}) in *.
  assert (Ec : _capValuesStorage m1 = <[guidlow p := c1]> (_capValuesStorage m)) by by rewrite Em.
  assert (Hg : guidlow p <> 0) by congruence.
  destruct (reset_all m1) as (m' & E & [C _ _ P _]).
  - rewrite Em. destruct Hm as [H1 H2 H3]. split; [done| |done]. cbn. intros g q Hq Hs. apply (H2 g q Hq).
    destruct (decide (guidlow p = g)) as [<-|Hne]; [by eexists|by rewrite lookup_insert_ne in Hs].
  - rewrite Ec. by rewrite lookup_insert_ne.
  - rewrite Ec. apply insert_non_empty.
  - exists m'. split; [exact E|]. rewrite C, Ec, lookup_insert_eq.
    rewrite decide_True by (apply elem_of_keys; rewrite lookup_insert_eq; by eexists).
    cbn. unfold renewed. cbn. rewrite Hr. cbn. split; [done|split; [done|]]. rewrite P; [by rewrite Em|].
    intros Hin. apply list_elem_of_fmap in Hin as ([g' x] & Eg & Hin). cbn in Eg. subst g'.
    apply list_elem_of_omap in Hin as (k & _ & Ed). unfold due_of in Ed. rewrite Ec in Ed.
    destruct (decide (guidlow p = k)) as [<-|Hne].
    + rewrite lookup_insert_eq in Ed. cbn in Ed. by rewrite Hr in Ed.
    + destruct (_ !! k) as [c2|]; [|done]. cbn in Ed. destruct (_ =? 0); [done|]. injection Ed as Ek _. congruence.
Qed.
End Reset.

(** *** A concrete server *)

(** Two players due, one of them online, and one who is not. *)
Definition demo_server : CurrencyMgr :=
  mkMgr (<[1 := mkCap 2000 0 1350 0 1]> (<[2 := mkCap 0 0 1350 0 0]> {[3 := mkCap 1600 0 1350 0 1]}))
    {[3 := demo_owner {[7 := mkCurrency PLAYERCURRENCY_UNCHANGED 90 10 0 0]}]} None 0 [].

Lemma demo_server_ok : server_ok demo_currencies demo_server.
Proof.
  split; [| |by eexists]; intros g p Hp; cbn in Hp; apply lookup_singleton_Some in Hp as [<- <-]; done.
Qed.

Lemma every_cap_reset_once_witness :
  exists m', run_parts demo_currencies 4 0 (ResetCurrencyCapToAllPlayers demo_server) = (Some (Ok true), m')
  /\ resets (mgr_out m') = [(1, 2000); (3, 1600)] /\ weeks_zero m' 3.
Proof.
  destruct (every_cap_reset_once demo_currencies demo_server demo_server_ok) as (m' & E & _ & R & W & _); try done.
  exists m'. split; [exact E|]. split; [rewrite R; by vm_compute|]. by apply (W 3 (mkCap 1600 0 1350 0 1)).
Defined.

(** The player with guid 3, reset this week. *)
Definition demo_after : CurrencyMgr :=
  mkMgr {[3 := mkCap 0 0 1600 0 0]} {[3 := demo_owner ∅]} None 0 [].

Lemma new_rating_not_reset_witness :
  exists m', run_parts demo_currencies 2 0
    (ResetCurrencyCapToAllPlayers (SetMaxPersonalArenaRating 2200 (demo_owner ∅) demo_after)) = (Some (Ok true), m')
  /\ option_map currentArenaCap (_capValuesStorage m' !! 3) = Some 1600.
Proof.
  destruct (new_rating_not_reset demo_currencies demo_after (demo_owner ∅) (mkCap 0 0 1600 0 0) 2200)
    as (_ & m' & E & _ & Ec & _); try done.
  - split; [| |by eexists]; intros g p Hp; cbn in Hp; apply lookup_singleton_Some in Hp as [<- <-]; done.
  - exists m'. split; [exact E|exact Ec].
Defined.
