(* ===== verification/FloatOrder.v ===== *)
(** * The order of the floats that are numbers

    Comparison of single precision floats is comparison of keys (sign class,
    exponent, significand), lexicographically; so it is a total preorder on what
    is not a NaN. *)

From S2P Require Import Prelude.
From S2P Require Import Float32.
From Stdlib Require Import Floats.SpecFloat.

Definition is_number (f : float32) : bool := match f with S754_nan => false | _ => true end.

Definition key (f : float32) : Z * Z * Z :=
  match f with
  | S754_infinity true => (-2, 0, 0)
  | S754_finite true m e => (-1, - e, Z.neg m)
  | S754_zero _ | S754_nan => (0, 0, 0)
  | S754_finite false m e => (1, e, Z.pos m)
  | S754_infinity false => (2, 0, 0)
  end.

Definition lex_lt (x y : Z * Z * Z) : Prop :=
  let '(a, b, c) := x in let '(a', b', c') := y in
  a < a' \/ a = a' /\ (b < b' \/ b = b' /\ c < c').

Lemma lex_lt_trans x y z : lex_lt x y -> lex_lt y z -> lex_lt x z.
Proof. destruct x as [[]], y as [[]], z as [[]]. cbn. lia. Qed.

Lemma lex_lt_irrefl x : ~ lex_lt x x.
Proof. destruct x as [[]]. cbn. lia. Qed.

Lemma lex_trichotomy x y : lex_lt x y \/ x = y \/ lex_lt y x.
Proof.
  destruct x as [[a b] c], y as [[a' b'] c']. cbn.
  destruct (decide (a = a')) as [->|]; [|lia]. destruct (decide (b = b')) as [->|]; [|lia].
  destruct (decide (c = c')) as [->|]; [auto|lia].
Qed.

(** What the comparison of numbers answers, by their keys. *)
Lemma compare_key f g :
  is_number f = true -> is_number g = true ->
  match SFcompare f g with
  | Some Lt => lex_lt (key f) (key g)
  | Some Eq => key f = key g
  | Some Gt => lex_lt (key g) (key f)
  | None => False
  end.
Proof.
  destruct f as [s|[]| |[] m e], g as [t|[]| |[] n k]; cbn; try done; intros _ _; try lia.
  - destruct (Z.compare_spec e k) as [->| |]; [|cbn; lia|cbn; lia].
    destruct (Pos.compare_cont Eq m n) eqn:E; change (Pos.compare_cont Eq m n) with (m ?= n)%positive in E; cbn.
    + apply Pos.compare_eq in E. by subst.
    + apply Pos.compare_lt_iff in E. apply Pos2Z.pos_lt_pos in E. lia.
    + apply Pos.compare_gt_iff in E. apply Pos2Z.pos_lt_pos in E. lia.
  - destruct (Z.compare_spec e k) as [->| |]; [|cbn; lia|cbn; lia].
    destruct (Pos.compare_cont Eq m n) eqn:E; change (Pos.compare_cont Eq m n) with (m ?= n)%positive in E; cbn.
    + apply Pos.compare_eq in E. by subst.
    + apply Pos.compare_lt_iff in E. apply Pos2Z.pos_lt_pos in E. lia.
    + apply Pos.compare_gt_iff in E. apply Pos2Z.pos_lt_pos in E. lia.
Qed.

Lemma fle_number f g : fle f g = true -> is_number f = true /\ is_number g = true.
Proof. destruct f, g; cbn; auto; intros; discriminate. Qed.

Lemma fle_key f g :
  fle f g = true <-> is_number f = true /\ is_number g = true /\ ~ lex_lt (key g) (key f).
Proof.
  split.
  - intros H. destruct (fle_number _ _ H) as [Hf Hg]. split_and!; [done|done|].
    pose proof (compare_key f g Hf Hg) as E. unfold fle, SFleb in H. destruct (SFcompare f g) as [[]|]; try done.
    + rewrite E. apply lex_lt_irrefl.
    + intros H'. by apply (lex_lt_irrefl (key f)), (lex_lt_trans _ _ _ E).
  - intros (Hf & Hg & Hn). pose proof (compare_key f g Hf Hg) as E. unfold fle, SFleb.
    by destruct (SFcompare f g) as [[]|].
Qed.

Lemma flt_key f g :
  is_number f = true -> is_number g = true -> flt f g = true <-> lex_lt (key f) (key g).
Proof.
  intros Hf Hg. pose proof (compare_key f g Hf Hg) as E. unfold flt, SFltb.
  destruct (SFcompare f g) as [[]|]; (split; [intros H; try done|intros H; try done]).
  - rewrite E in H. by apply lex_lt_irrefl in H.
  - exfalso. by apply (lex_lt_irrefl (key f)), (lex_lt_trans _ _ _ H).
Qed.

Lemma fle_trans f g h : fle f g = true -> fle g h = true -> fle f h = true.
Proof.
  rewrite !fle_key. intros (Hf & Hg & H1) (_ & Hh & H2). split_and!; [done|done|]. intros H3.
  destruct (lex_trichotomy (key f) (key g)) as [H|[H|H]].
  - by apply H2, (lex_lt_trans _ (key f)).
  - rewrite H in H3. done.
  - done.
Qed.

Lemma not_flt_fle f g : is_number f = true -> is_number g = true -> flt g f = false -> fle f g = true.
Proof.
  intros Hf Hg H. apply fle_key. split_and!; [done|done|]. rewrite <- flt_key by done. congruence.
Qed.

Lemma flt_fle f g : flt f g = true -> fle f g = true.
Proof. unfold flt, fle, SFltb, SFleb. by destruct (SFcompare f g) as [[]|]. Qed.

Lemma fle_not_flt f g : fle f g = true -> flt g f = false.
Proof.
  rewrite fle_key. intros (Hf & Hg & H). rewrite <- flt_key in H by done. by destruct (flt g f).
Qed.
