(* ===== verification/Threat.v ===== *)
(** * Threat: whom a creature hates and attacks
      (src/src/server/game/Combat/ThreatManager.cpp, ThreatManager.h,
      HostileRefManager.cpp, UnitEvents.h, shared/Dynamic/LinkedReference/Reference.h)

    A [HostileReference] is a heap object shared by three structures: it is a
    node of the intrusive list of the unit that is hated, it is pointed to by the
    online or the offline list of the creature that hates, and it may be the
    creature's current victim.  The model keeps the objects in one store,
    addressed by pointers that are never used again, so that a dangling pointer
    is a fault of the model: [UseAfterFree].  The lists of the store are lists of
    pointers.  What the rest of the game knows of the units (their types, owners,
    positions, auras, faction) is the record [Units]. *)

From S2P Require Import Prelude.
From S2P Require Import Float32.
From Stdlib Require Import Floats.SpecFloat.

Abbreviation guid := Z (only parsing).
Abbreviation ref := Z (only parsing).

Definition THREAT_UPDATE_INTERVAL : Z := 1000.
Definition SPELL_EFFECT_ENERGIZE : Z := 30.
Definition SPELL_AURA_PERIODIC_ENERGIZE : Z := 24.
Definition SPELL_ATTR1_NO_THREAT : Z := 0x400.
Definition SPELL_SCHOOL_MASK_NORMAL : Z := 1.

Definition pct_110 : float32 := fdiv (f_of_Z 11) (f_of_Z 10).
Definition pct_130 : float32 := fdiv (f_of_Z 13) (f_of_Z 10).

(** What the threat code reads of a spell: its id, attributes, the effects with
    their auras, and its school. *)
Record SpellInfo := mkSpell {
  spell_Id : Z;
  AttributesEx : Z;
  Effects : list (Z * Z);
  SchoolMask : Z
}.

(** What it reads of the units and of the spell tables. *)
Record Units := mkUnits {
  isGameMaster : guid -> bool;
  isAlive : guid -> bool;
  isDying : guid -> bool;
  isTotem : guid -> bool;
  isBattlegroundVehicle : guid -> bool;
  summon_of_player : guid -> bool;
  IsInMap : guid -> guid -> bool;
  InSamePhase : guid -> guid -> bool;
  in_flight : guid -> bool;
  isInAccessiblePlaceFor : guid -> guid -> bool;
  in_combat_distance : guid -> guid -> bool;
  GetCharmerOrOwner : guid -> option guid;
  m_reducedThreatPercent : guid -> Z;
  GetMisdirectionTarget : guid -> option guid;
  glyph_of_vigilance : guid -> option Z;
  has_threat_aura : guid -> bool;
  m_threatModifier : guid -> Z -> float32;
  GetUnit : guid -> guid -> bool;
  second_choice : guid -> guid -> bool;
  canCreatureAttack : guid -> guid -> bool;
  IsWithinMeleeRange : guid -> guid -> bool;
  faction : guid -> Z;
  canSeeOrDetect : guid -> guid -> bool;
  GetSpellThreatEntry : Z -> option float32;
  ApplySpellMod : guid -> Z -> option (float32 -> float32)
}.

(** ** The objects *)

(* [game/Combat/ThreatManager.h:48-138] HostileReference *)
Record HostileReference := mkRef {
  iThreat : float32;
  iTempThreatModifier : float32;
  iUnitGuid : guid;
  iOnline : bool;
  iAccessible : bool;
  iRefTo : option guid;
  iRefFrom : option guid
}.

(* [game/Combat/ThreatManager.h:143-178] ThreatContainer *)
Record ThreatContainer := mkContainer {
  iThreatList : list ref;
  iDirty : bool
}.

(* [game/Combat/ThreatManager.h:182-256] ThreatManager *)
Record ThreatManager := mkManager {
  iCurrentVictim : option ref;
  iUpdateTimer : Z;
  iThreatContainer : ThreatContainer;
  iThreatOfflineContainer : ThreatContainer
}.

(* [game/Combat/ThreatManager.cpp:390-392] ThreatManager::ThreatManager *)
Definition new_ThreatManager : ThreatManager :=
  mkManager None THREAT_UPDATE_INTERVAL (mkContainer [] false) (mkContainer [] false).

(** The packets a creature sends about its threat list. *)
Inductive threat_packet :=
| SMSG_THREAT_REMOVE (m unit : guid)
| SMSG_THREAT_CLEAR (m : guid)
| SMSG_HIGHEST_THREAT_UPDATE (m unit : guid) (l : list (guid * Z))
| SMSG_THREAT_UPDATE (m : guid) (l : list (guid * Z)).

(** The store: the references that exist, the next address, the manager of every
    unit, the list of the references that hate it, and what was sent. *)
Record Threats := mkThreats {
  refs : gmap Z HostileReference;
  next_ref : Z;
  managers : gmap Z ThreatManager;
  m_HostileRefManager : gmap Z (list ref);
  packets : list threat_packet
}.

Definition no_threats : Threats := mkThreats ∅ 0 ∅ ∅ [].

Definition manager (s : Threats) (m : guid) : ThreatManager := default new_ThreatManager (managers s !! m).
Definition online (s : Threats) (m : guid) : list ref := iThreatList (iThreatContainer (manager s m)).
Definition offline (s : Threats) (m : guid) : list ref := iThreatList (iThreatOfflineContainer (manager s m)).
Definition hated_by (s : Threats) (u : guid) : list ref := default [] (m_HostileRefManager s !! u).

Definition upd_refs (f : gmap Z HostileReference -> gmap Z HostileReference) (s : Threats) : Threats :=
  mkThreats (f (refs s)) (next_ref s) (managers s) (m_HostileRefManager s) (packets s).
Definition upd_manager (m : guid) (f : ThreatManager -> ThreatManager) (s : Threats) : Threats :=
  mkThreats (refs s) (next_ref s) (<[m := f (manager s m)]> (managers s)) (m_HostileRefManager s) (packets s).
Definition upd_hated (u : guid) (f : list ref -> list ref) (s : Threats) : Threats :=
  mkThreats (refs s) (next_ref s) (managers s) (<[u := f (hated_by s u)]> (m_HostileRefManager s)) (packets s).
Definition send (p : threat_packet) (s : Threats) : Threats :=
  mkThreats (refs s) (next_ref s) (managers s) (m_HostileRefManager s) (packets s ++ [p]).

Definition set_victim (v : option ref) (t : ThreatManager) : ThreatManager :=
  mkManager v (iUpdateTimer t) (iThreatContainer t) (iThreatOfflineContainer t).
Definition set_timer (z : Z) (t : ThreatManager) : ThreatManager :=
  mkManager (iCurrentVictim t) z (iThreatContainer t) (iThreatOfflineContainer t).
Definition upd_online (f : ThreatContainer -> ThreatContainer) (t : ThreatManager) : ThreatManager :=
  mkManager (iCurrentVictim t) (iUpdateTimer t) (f (iThreatContainer t)) (iThreatOfflineContainer t).
Definition upd_offline (f : ThreatContainer -> ThreatContainer) (t : ThreatManager) : ThreatManager :=
  mkManager (iCurrentVictim t) (iUpdateTimer t) (iThreatContainer t) (f (iThreatOfflineContainer t)).

Definition set_threat (f : float32) (h : HostileReference) : HostileReference :=
  mkRef f (iTempThreatModifier h) (iUnitGuid h) (iOnline h) (iAccessible h) (iRefTo h) (iRefFrom h).
Definition set_temp (f : float32) (h : HostileReference) : HostileReference :=
  mkRef (iThreat h) f (iUnitGuid h) (iOnline h) (iAccessible h) (iRefTo h) (iRefFrom h).
Definition set_online (b : bool) (h : HostileReference) : HostileReference :=
  mkRef (iThreat h) (iTempThreatModifier h) (iUnitGuid h) b (iAccessible h) (iRefTo h) (iRefFrom h).
Definition set_accessible (b : bool) (h : HostileReference) : HostileReference :=
  mkRef (iThreat h) (iTempThreatModifier h) (iUnitGuid h) (iOnline h) b (iRefTo h) (iRefFrom h).
Definition set_link (to from : option guid) (h : HostileReference) : HostileReference :=
  mkRef (iThreat h) (iTempThreatModifier h) (iUnitGuid h) (iOnline h) (iAccessible h) to from.

(** ** Faults *)
Inductive fault := UseAfterFree | NullPointer | AssertFailed | BadIterator | OutOfFuel.

Abbreviation T := (M Threats fault).

Definition deref (r : ref) : T HostileReference :=
  s ← get; match refs s !! r with Some h => mret h | None => throw UseAfterFree end.
Definition write (r : ref) (f : HostileReference -> HostileReference) : T unit :=
  _ ← deref r; modify (upd_refs (alter f r)).
Definition not_null (p : option guid) : T guid :=
  match p with Some u => mret u | None => throw NullPointer end.
Definition assert (b : bool) : T unit := if b then mret tt else throw AssertFailed.

Fixpoint deref_all (l : list ref) : T (list (ref * HostileReference)) :=
  match l with
  | [] => mret []
  | r :: l => h ← deref r; k ← deref_all l; mret ((r, h) :: k)
  end.

(** ** The containers *)

(* [game/Combat/ThreatManager.h:151-151] ThreatContainer::remove *)
Definition c_remove (r : ref) (c : ThreatContainer) : ThreatContainer :=
  mkContainer (filter (fun x => x <> r) (iThreatList c)) (iDirty c).
(* [game/Combat/ThreatManager.h:152-152] ThreatContainer::addReference *)
Definition c_addReference (r : ref) (c : ThreatContainer) : ThreatContainer :=
  mkContainer (iThreatList c ++ [r]) (iDirty c).
(* [game/Combat/ThreatManager.h:167-167] ThreatContainer::setDirty *)
Definition c_setDirty (b : bool) (c : ThreatContainer) : ThreatContainer :=
  mkContainer (iThreatList c) b.
(* [game/Combat/ThreatManager.h:218-218] ThreatManager::setDirty *)
Definition setDirty (m : guid) (b : bool) : T unit := modify (upd_manager m (upd_online (c_setDirty b))).
(* [game/Combat/ThreatManager.h:201-201] ThreatManager::isThreatListEmpty *)
Definition isThreatListEmpty (s : Threats) (m : guid) : bool :=
  match online s m with [] => true | _ => false end.

(** ** The links *)

(* [game/Entities/Unit/Unit.h:2053-2053] Unit::addHatedBy *)
Definition addHatedBy (u : guid) (r : ref) : T unit := modify (upd_hated u (cons r)).

(* [shared/Dynamic/LinkedList.h:53-59] LinkedListElement::delink *)
Definition delink (r : ref) (h : HostileReference) : T unit :=
  match iRefTo h with
  | Some u => modify (upd_hated u (filter (fun x => x <> r)))
  | None => mret tt
  end.

(* [shared/Dynamic/LinkedReference/Reference.h:60-66] Reference::unlink *)
Definition unlink (r : ref) : T unit :=
  h ← deref r;
  _ ← not_null (iRefTo h);
  delink r h ;;
  write r (set_link None None).

(* [shared/Dynamic/LinkedReference/Reference.h:45-56] Reference::link *)
Definition link (r : ref) (toObj from : guid) : T unit :=
  h ← deref r;
  (if bool_decide (is_Some (iRefTo h)) then unlink r else mret tt) ;;
  write r (set_link (Some toObj) (Some from)) ;;
  addHatedBy toObj r.

(** The node after a reference in the list it is a node of. *)
Fixpoint after (r : ref) (l : list ref) : option ref :=
  match l with
  | [] => None
  | x :: l => if decide (x = r) then head l else after r l
  end.

(* [shared/Dynamic/LinkedList.h:43-43] LinkedListElement::next *)
Definition next (r : ref) : T (option ref) :=
  h ← deref r; s ← get;
  mret (match iRefTo h with Some u => after r (hated_by s u) | None => None end).

(* [shared/Dynamic/LinkedList.h:97-97] LinkedListHead::getFirst *)
Definition getFirst (u : guid) : T (option ref) := s ← get; mret (head (hated_by s u)).

(** [delete ref]: the destructor of the list node unlinks it. *)
Definition delete_ref (r : ref) : T unit :=
  h ← deref r; delink r h ;; modify (upd_refs (base.delete r)).

(** ** Events of a reference, seen by its manager *)

(* [game/Combat/UnitEvents.h:31-59] UNIT_EVENT_TYPE *)
Inductive UNIT_EVENT_TYPE :=
| UEV_THREAT_REF_ONLINE_STATUS
| UEV_THREAT_REF_THREAT_CHANGE (iFValue : float32)
| UEV_THREAT_REF_REMOVE_FROM_LIST
| UEV_THREAT_REF_ASSECCIBLE_STATUS.

(* [game/Entities/Unit/Unit.cpp:21081-21087] Unit::SendRemoveFromThreatListOpcode *)
Definition SendRemoveFromThreatListOpcode (m : guid) (r : ref) : T unit :=
  h ← deref r; modify (send (SMSG_THREAT_REMOVE m (iUnitGuid h))).

(* [game/Entities/Unit/Unit.cpp:21054-21072] Unit::SendChangeCurrentVictimOpcode *)
Definition SendChangeCurrentVictimOpcode (m : guid) (r : ref) : T unit :=
  s ← get;
  if isThreatListEmpty s m then mret tt
  else
    h ← deref r;
    l ← deref_all (online s m);
    modify (send (SMSG_HIGHEST_THREAT_UPDATE m (iUnitGuid h)
                    (map (fun p => (iUnitGuid p.2, f_to_u32 (iThreat p.2))) l))).

(* [game/Combat/ThreatManager.cpp:506-513] ThreatManager::setCurrentVictim *)
Definition setCurrentVictim (m : guid) (v : option ref) : T unit :=
  s ← get;
  match v with
  | Some r => if bool_decide (v = iCurrentVictim (manager s m)) then mret tt else SendChangeCurrentVictimOpcode m r
  | None => mret tt
  end ;;
  modify (upd_manager m (set_victim v)).

(* [game/Combat/ThreatManager.cpp:519-565] ThreatManager::processThreatEvent *)
Definition processThreatEvent (m : guid) (r : ref) (ev : UNIT_EVENT_TYPE) : T unit :=
  h ← deref r; s ← get;
  let current := iCurrentVictim (manager s m) in
  let is_current := bool_decide (current = Some r) in
  match ev with
  | UEV_THREAT_REF_THREAT_CHANGE f =>
    if (is_current && flt f f_zero) || (negb is_current && flt f_zero f) then setDirty m true else mret tt
  | UEV_THREAT_REF_ONLINE_STATUS =>
    if negb (iOnline h) then
      (if is_current then setCurrentVictim m None ;; setDirty m true else mret tt) ;;
      SendRemoveFromThreatListOpcode m r ;;
      modify (upd_manager m (upd_online (c_remove r))) ;;
      modify (upd_manager m (upd_offline (c_addReference r)))
    else
      match current with
      | Some v => hv ← deref v;
                  if flt (fmul pct_110 (iThreat hv)) (iThreat h) then setDirty m true else mret tt
      | None => mret tt
      end ;;
      modify (upd_manager m (upd_online (c_addReference r))) ;;
      modify (upd_manager m (upd_offline (c_remove r)))
  | UEV_THREAT_REF_REMOVE_FROM_LIST =>
    (if is_current then setCurrentVictim m None ;; setDirty m true else mret tt) ;;
    SendRemoveFromThreatListOpcode m r ;;
    (if iOnline h then modify (upd_manager m (upd_online (c_remove r)))
     else modify (upd_manager m (upd_offline (c_remove r))))
  | UEV_THREAT_REF_ASSECCIBLE_STATUS => mret tt
  end.

(* [game/Combat/ThreatManager.cpp:130-134] HostileReference::fireStatusChanged *)
Definition fireStatusChanged (r : ref) (ev : UNIT_EVENT_TYPE) : T unit :=
  h ← deref r;
  match iRefFrom h with Some m => processThreatEvent m r ev | None => mret tt end.

(* [game/Combat/ThreatManager.cpp:221-230] HostileReference::setAccessibleState *)
Definition setAccessibleState (r : ref) (b : bool) : T unit :=
  h ← deref r;
  if Bool.eqb (iAccessible h) b then mret tt
  else write r (set_accessible b) ;; fireStatusChanged r UEV_THREAT_REF_ASSECCIBLE_STATUS.

(* [game/Combat/ThreatManager.cpp:206-217] HostileReference::setOnlineOfflineState *)
Definition setOnlineOfflineState (r : ref) (b : bool) : T unit :=
  h ← deref r;
  if Bool.eqb (iOnline h) b then mret tt
  else
    write r (set_online b) ;;
    (if b then mret tt else setAccessibleState r false) ;;
    fireStatusChanged r UEV_THREAT_REF_ONLINE_STATUS.

(* [shared/Dynamic/LinkedReference/Reference.h:70-75] Reference::invalidate *)
Definition invalidate (r : ref) : T unit :=
  setOnlineOfflineState r false ;;
  h ← deref r;
  delink r h ;;
  write r (set_link None (iRefFrom h)).

(* [game/Combat/ThreatManager.cpp:236-242] HostileReference::removeReference *)
Definition removeReference (r : ref) : T unit :=
  invalidate r ;; fireStatusChanged r UEV_THREAT_REF_REMOVE_FROM_LIST.

Section Operations.
(** [GetTypeId() == TYPEID_UNIT]: a unit that is not a creature is a player. *)
Context (is_creature : guid -> bool).
Context (W : Units).

Definition game_master (u : guid) : bool := negb (is_creature u) && isGameMaster W u.

(* [game/Entities/Unit/Unit.cpp:15734-15760] Unit::CanHaveThreatList *)
Definition CanHaveThreatList (m : guid) : bool :=
  if negb (is_creature m) then false
  else if negb (isAlive W m) || isDying W m then false
  else if isTotem W m then false
  else if isBattlegroundVehicle W m then false
  else negb (summon_of_player W m).

(** ** Threat amounts *)

(* [game/Miscellaneous/SharedDefines.h:240-247] GetFirstSchoolInMask *)
Definition GetFirstSchoolInMask (mask : Z) : Z :=
  match List.find (fun i => has_flag mask (Z.shiftl 1 i)) [0; 1; 2; 3; 4; 5; 6] with
  | Some i => i
  | None => 0
  end.

(* [game/Entities/Unit/Unit.cpp:15764-15772] Unit::ApplyTotalThreatModifier *)
Definition ApplyTotalThreatModifier (u : guid) (fThreat : float32) (schoolMask : Z) : float32 :=
  if negb (has_threat_aura W u) || flt fThreat f_zero then fThreat
  else fmul fThreat (m_threatModifier W u (GetFirstSchoolInMask schoolMask)).

(* [game/Combat/ThreatManager.cpp:36-54] ThreatCalcHelper::calcThreat *)
Definition calcThreat (hatedUnit : guid) (threat : float32) (schoolMask : Z) (threatSpell : option SpellInfo) : float32 :=
  match threatSpell with
  | None => ApplyTotalThreatModifier hatedUnit threat schoolMask
  | Some spell =>
    let threat :=
      match GetSpellThreatEntry W (spell_Id spell) with
      | Some pctMod => if negb (feq pctMod f_one) then fmul threat pctMod else threat
      | None => threat
      end in
    if existsb (fun e => (e.1 =? SPELL_EFFECT_ENERGIZE) || (e.2 =? SPELL_AURA_PERIODIC_ENERGIZE)) (Effects spell)
    then threat
    else
      let threat :=
        match ApplySpellMod W hatedUnit (spell_Id spell) with Some mod_threat => mod_threat threat | None => threat end in
      ApplyTotalThreatModifier hatedUnit threat schoolMask
  end.

(* [game/Combat/ThreatManager.cpp:56-89] ThreatCalcHelper::isValidProcess *)
Definition isValidProcess (hatedUnit : option guid) (hatingUnit : guid) (threatSpell : option SpellInfo) : T bool :=
  match hatedUnit with
  | None => mret false
  | Some u =>
    if u =? hatingUnit then mret false
    else if game_master u then mret false
    else if negb (isAlive W u) || negb (isAlive W hatingUnit) then mret false
    else if negb (IsInMap W u hatingUnit) || negb (InSamePhase W u hatingUnit) then mret false
    else if match threatSpell with Some spell => has_flag (AttributesEx spell) SPELL_ATTR1_NO_THREAT | None => false end
    then mret false
    else assert (is_creature hatingUnit) ;; mret true
  end.

(** ** References *)

(* [game/Combat/ThreatManager.cpp:246-249] HostileReference::getSourceUnit *)
Definition getSourceUnit (r : ref) : T guid := h ← deref r; not_null (iRefFrom h).

(** Whether the target can be fought where it is, before the ways to it. *)
(* [game/Combat/ThreatManager.cpp:178-187] HostileReference::updateOnlineStatus *)
Definition can_be_online (t source : guid) : bool :=
  negb (game_master t) && negb (in_flight W t) && IsInMap W t source && InSamePhase W t source.

(* [game/Combat/ThreatManager.cpp:169-201] HostileReference::updateOnlineStatus *)
Definition updateOnlineStatus (r : ref) : T unit :=
  h ← deref r;
  (if bool_decide (is_Some (iRefTo h)) then mret tt
   else m ← getSourceUnit r; if GetUnit W m (iUnitGuid h) then link r (iUnitGuid h) m else mret tt) ;;
  h ← deref r;
  st ← match iRefTo h with
       | None => mret (false, false)
       | Some t =>
         m ← getSourceUnit r;
         if negb (can_be_online t m) then mret (false, false)
         else if negb (is_creature m) then throw NullPointer
         else if isInAccessiblePlaceFor W t m then mret (true, true)
         else mret (in_combat_distance W m t, false)
       end;
  setAccessibleState r st.2 ;;
  setOnlineOfflineState r st.1.

(** The first reference of a list to a unit. *)
(* [game/Combat/ThreatManager.cpp:272-277] ThreatContainer::getReferenceByTarget *)
Fixpoint find_guid (u : guid) (l : list ref) : T (option ref) :=
  match l with
  | [] => mret None
  | r :: l => h ← deref r; if iUnitGuid h =? u then mret (Some r) else find_guid u l
  end.

(* [game/Combat/ThreatManager.cpp:267-278] ThreatContainer::getReferenceByTarget *)
Definition getReferenceByTarget (m : guid) (l : Threats -> guid -> list ref) (victim : option guid) : T (option ref) :=
  match victim with None => mret None | Some u => s ← get; find_guid u (l s m) end.

(* [game/Combat/ThreatManager.cpp:95-103] HostileReference::HostileReference *)
Definition new_HostileReference (u m : guid) (threat : float32) : T ref :=
  s ← get;
  let r := next_ref s in
  modify (fun s => mkThreats (<[r := mkRef threat f_zero u true true None None]> (refs s)) (r + 1)
                             (managers s) (m_HostileRefManager s) (packets s)) ;;
  link r u m ;;
  mret r.

Section Recursion.
(** [HostileReference::addThreat], for the calls inside its own. *)
Context (addThreat_rec : ref -> float32 -> T unit).

(* [game/Combat/ThreatManager.cpp:283-289] ThreatContainer::addThreat *)
Definition c_addThreat (m : guid) (l : Threats -> guid -> list ref) (victim : guid) (threat : float32) : T (option ref) :=
  r ← getReferenceByTarget m l (Some victim);
  match r with Some r => addThreat_rec r threat | None => mret tt end ;;
  mret r.

(* [game/Combat/ThreatManager.cpp:435-451] ThreatManager::_addThreat *)
Definition _addThreat (m victim : guid) (threat : float32) : T unit :=
  r ← c_addThreat m online victim threat;
  r ← match r with Some r => mret (Some r) | None => c_addThreat m offline victim threat end;
  match r with
  | Some _ => mret tt
  | None =>
    r ← new_HostileReference victim m f_zero;
    modify (upd_manager m (upd_online (c_addReference r))) ;;
    addThreat_rec r threat ;;
    if game_master victim then setOnlineOfflineState r false else mret tt
  end.

(* [game/Combat/ThreatManager.cpp:414-433] ThreatManager::doAddThreat *)
Definition doAddThreat (m victim : guid) (threat : float32) : T unit :=
  let pct := m_reducedThreatPercent W victim in
  if flt f_zero threat && negb (pct =? 0) then
    let redirectTarget := GetMisdirectionTarget W victim in
    let pct := match redirectTarget ≫= glyph_of_vigilance W with Some v => u32 (pct + v) | None => pct end in
    let reducedThreat := fdiv (fmul threat (f_of_Z pct)) f_hundred in
    match redirectTarget with Some t => _addThreat m t reducedThreat | None => mret tt end ;;
    _addThreat m victim (fsub threat reducedThreat)
  else _addThreat m victim threat.

(* [game/Combat/ThreatManager.cpp:406-412] ThreatManager::addThreat *)
Definition tm_addThreat (m : guid) (victim : option guid) (threat : float32) (schoolMask : Z)
    (threatSpell : option SpellInfo) : T unit :=
  valid ← isValidProcess victim m threatSpell;
  match victim with
  | Some u => if (valid : bool) then doAddThreat m u (calcThreat u threat schoolMask threatSpell) else mret tt
  | None => mret tt
  end.

(** The body of [HostileReference::addThreat]. *)
(* [game/Combat/ThreatManager.cpp:138-157] HostileReference::addThreat *)
Definition addThreat_body (r : ref) (modThreat : float32) : T unit :=
  write r (fun h => set_threat (fadd (iThreat h) modThreat) h) ;;
  h ← deref r;
  (if iOnline h then mret tt else updateOnlineStatus r) ;;
  (if negb (feq modThreat f_zero) then fireStatusChanged r (UEV_THREAT_REF_THREAT_CHANGE modThreat) else mret tt) ;;
  h ← deref r;
  match iRefTo h with
  | Some t =>
    if fle f_zero modThreat then
      match GetCharmerOrOwner W t with
      | Some victimOwner =>
        if isAlive W victimOwner then
          m ← not_null (iRefFrom h);
          tm_addThreat m (Some victimOwner) f_zero SPELL_SCHOOL_MASK_NORMAL None
        else mret tt
      | None => mret tt
      end
    else mret tt
  | None => mret tt
  end.
End Recursion.

(** The recursion goes from a unit to its charmer or owner. *)
(* [game/Combat/ThreatManager.cpp:138-157] HostileReference::addThreat *)
Fixpoint addThreat (fuel : nat) (r : ref) (modThreat : float32) : T unit :=
  match fuel with
  | O => throw OutOfFuel
  | S fuel => addThreat_body (addThreat fuel) r modThreat
  end.

Section Fuel.
(** How deep the owners of the units go. *)
Context (fuel : nat).

Definition add (r : ref) (modThreat : float32) : T unit := addThreat fuel r modThreat.

(* [game/Combat/ThreatManager.h:56-56] HostileReference::setThreat *)
Definition setThreat (r : ref) (threat : float32) : T unit :=
  h ← deref r; add r (fsub threat (iThreat h)).

(* [game/Combat/ThreatManager.cpp:159-164] HostileReference::addThreatPercent *)
Definition addThreatPercent (r : ref) (percent : Z) : T unit :=
  h ← deref r;
  let tmpThreat := fadd (iThreat h) (pct_of (iThreat h) (f_of_Z percent)) in
  add r (fsub tmpThreat (iThreat h)).

(* [game/Combat/ThreatManager.h:75-80] HostileReference::addTempThreat *)
Definition addTempThreat (r : ref) (threat : float32) : T unit :=
  write r (set_temp threat) ;;
  if negb (feq threat f_zero) then add r threat else mret tt.

(* [game/Combat/ThreatManager.h:70-73] HostileReference::setTempThreat *)
Definition setTempThreat (r : ref) (threat : float32) : T unit :=
  h ← deref r; addTempThreat r (fsub threat (iThreat h)).

(* [game/Combat/ThreatManager.h:82-89] HostileReference::resetTempThreat *)
Definition resetTempThreat (r : ref) : T unit :=
  h ← deref r;
  if negb (feq (iTempThreatModifier h) f_zero) then
    add r (SFopp (iTempThreatModifier h)) ;;
    write r (set_temp f_zero)
  else mret tt.

(** ** What a creature does with its list *)

(* [game/Combat/ThreatManager.cpp:255-263] ThreatContainer::clearReferences *)
Definition c_clearReferences (m : guid) (l : Threats -> guid -> list ref)
    (upd : (ThreatContainer -> ThreatContainer) -> ThreatManager -> ThreatManager) : T unit :=
  s ← get;
  mapM_ (fun r => unlink r ;; delete_ref r) (l s m) ;;
  modify (upd_manager m (upd (fun c => mkContainer [] (iDirty c)))).

(* [game/Combat/ThreatManager.cpp:396-402] ThreatManager::clearReferences *)
Definition clearReferences (m : guid) : T unit :=
  c_clearReferences m online upd_online ;;
  c_clearReferences m offline upd_offline ;;
  modify (upd_manager m (set_victim None)) ;;
  modify (upd_manager m (set_timer THREAT_UPDATE_INTERVAL)).

(* [game/Combat/ThreatManager.cpp:293-297] ThreatContainer::modifyThreatPercent *)
Definition c_modifyThreatPercent (m : guid) (l : Threats -> guid -> list ref) (victim : option guid) (percent : Z) : T unit :=
  r ← getReferenceByTarget m l victim;
  match r with Some r => addThreatPercent r percent | None => mret tt end.

(* [game/Combat/ThreatManager.cpp:455-458] ThreatManager::modifyThreatPercent *)
Definition modifyThreatPercent (m : guid) (victim : option guid) (percent : Z) : T unit :=
  c_modifyThreatPercent m online victim percent.

(* [game/Combat/ThreatManager.cpp:472-481] ThreatManager::getThreat *)
Definition getThreat (m : guid) (victim : option guid) (alsoSearchOfflineList : bool) : T float32 :=
  r ← getReferenceByTarget m online victim;
  r ← match r with
      | None => if alsoSearchOfflineList then getReferenceByTarget m offline victim else mret None
      | Some _ => mret r
      end;
  match r with Some r => h ← deref r; mret (iThreat h) | None => mret f_zero end.

(* [game/Combat/ThreatManager.cpp:485-493] ThreatManager::tauntApply *)
Definition tauntApply (m : guid) (taunter : option guid) : T unit :=
  r ← getReferenceByTarget m online taunter;
  s ← get;
  match iCurrentVictim (manager s m), r with
  | Some v, Some r =>
    hv ← deref v; h ← deref r;
    if flt (iThreat h) (iThreat hv) && feq (iTempThreatModifier h) f_zero then setTempThreat r (iThreat hv) else mret tt
  | _, _ => mret tt
  end.

(* [game/Combat/ThreatManager.cpp:497-502] ThreatManager::tauntFadeOut *)
Definition tauntFadeOut (m : guid) (taunter : option guid) : T unit :=
  r ← getReferenceByTarget m online taunter;
  match r with Some r => resetTempThreat r | None => mret tt end.

(* [game/Combat/ThreatManager.cpp:567-579] ThreatManager::isNeedUpdateToClient *)
Definition isNeedUpdateToClient (m : guid) (time : Z) : T bool :=
  s ← get;
  if isThreatListEmpty s m then mret false
  else
    let timer := iUpdateTimer (manager s m) in
    if timer <=? time then modify (upd_manager m (set_timer THREAT_UPDATE_INTERVAL)) ;; mret true
    else modify (upd_manager m (set_timer (u32 (timer - time)))) ;; mret false.

(** The loop [for (itr = list.begin(); itr != list.end(); ++itr)] over the online
    list as it is at each turn: references may be added at its end meanwhile. *)
Fixpoint for_online (turns : nat) (m : guid) (body : ref -> T unit) (itr : option ref) : T unit :=
  match itr with
  | None => mret tt
  | Some r =>
    match turns with
    | O => throw OutOfFuel
    | S turns => body r ;; s ← get; for_online turns m body (after r (online s m))
    end
  end.

(** Turns enough: a reference and its owners, for every reference there is. *)
Definition list_turns (s : Threats) : nat := size (refs s) * S fuel.

(* [game/Combat/ThreatManager.cpp:582-594] ThreatManager::resetAllAggro *)
Definition resetAllAggro (m : guid) : T unit :=
  s ← get;
  if isThreatListEmpty s m then mret tt
  else for_online (list_turns s) m (fun r => setThreat r f_zero) (head (online s m)) ;; setDirty m true.

(* [game/Combat/ThreatManager.h:224-240] ThreatManager::resetAggro *)
Definition resetAggro (predicate : option guid -> bool) (m : guid) : T unit :=
  s ← get;
  if isThreatListEmpty s m then mret tt
  else
    for_online (list_turns s) m
      (fun r => h ← deref r; if predicate (iRefTo h) then setThreat r f_zero ;; setDirty m true else mret tt)
      (head (online s m)).

(** ** Selection of the victim *)

(** [std::list::sort] is stable: the order of equal threats is kept. *)
Fixpoint insert_ref (x : ref * HostileReference) (l : list (ref * HostileReference)) : list (ref * HostileReference) :=
  match l with
  | [] => [x]
  | y :: l' => if flt (iThreat x.2) (iThreat y.2) then y :: insert_ref x l' else x :: l
  end.
Definition sort_refs (l : list (ref * HostileReference)) : list (ref * HostileReference) := foldr insert_ref [] l.

(* [game/Combat/ThreatManager.cpp:302-308] ThreatContainer::update *)
Definition c_update (m : guid) : T unit :=
  s ← get;
  (if iDirty (iThreatContainer (manager s m)) && (1 <? zlen (online s m)) then
     l ← deref_all (online s m);
     modify (upd_manager m (upd_online (fun c => mkContainer (sort_refs l).*1 (iDirty c))))
   else mret tt) ;;
  setDirty m false.

(** Whether the victim keeps the creature's attention against a reference, and
    whether the reference takes it over. *)
(* [game/Combat/ThreatManager.cpp:355-355] ThreatContainer::selectNextVictim *)
Definition not_above (tr tv : float32) : bool := fle tr (fmul pct_110 tv).
(* [game/Combat/ThreatManager.cpp:364-366] ThreatContainer::selectNextVictim *)
Definition takes_over (attacker t : guid) (tr tv : float32) : bool :=
  flt (fmul pct_130 tv) tr || (flt (fmul pct_110 tv) tr && IsWithinMeleeRange W attacker t).

(** The loop: [rest] runs from the iterator to the end of the list [whole]. *)
(* [game/Combat/ThreatManager.cpp:323-379] ThreatContainer::selectNextVictim *)
Fixpoint select_loop (turns : nat) (attacker : guid) (whole rest : list (ref * HostileReference))
    (currentVictim : option (ref * HostileReference)) (noPriorityTargetFound : bool) :
    result fault (option ref) :=
  match turns, rest with
  | _, [] => Ok None
  | O, _ => Throw OutOfFuel
  | S turns, (r, h) :: rest' =>
    match iRefTo h with
    | None => Throw AssertFailed
    | Some t =>
      if negb noPriorityTargetFound && second_choice W t attacker then
        match rest' with
        | [] => select_loop turns attacker whole whole currentVictim true
        | _ =>
          let currentVictim := if bool_decide (fst <$> currentVictim = Some r) then None else currentVictim in
          select_loop turns attacker whole rest' currentVictim noPriorityTargetFound
        end
      else if canCreatureAttack W attacker t then
        match currentVictim with
        | Some (v, hv) =>
          if (v =? r) || not_above (iThreat h) (iThreat hv) then
            if v =? r then Ok (Some r)
            else
              match iRefTo hv with
              | None => Throw NullPointer
              | Some tv => Ok (Some (if canCreatureAttack W attacker tv then v else r))
              end
          else if takes_over attacker t (iThreat h) (iThreat hv) then Ok (Some r)
          else select_loop turns attacker whole rest' currentVictim noPriorityTargetFound
        | None => Ok (Some r)
        end
      else select_loop turns attacker whole rest' currentVictim noPriorityTargetFound
    end
  end.

(* [game/Combat/ThreatManager.cpp:314-384] ThreatContainer::selectNextVictim *)
Definition selectNextVictim (attacker : guid) (l : list (ref * HostileReference))
    (currentVictim : option (ref * HostileReference)) : result fault (option ref) :=
  match l with
  | [] => Throw BadIterator
  | _ => select_loop (2 * length l) attacker l l currentVictim false
  end.

(* [game/Combat/ThreatManager.cpp:462-468] ThreatManager::getHostilTarget *)
Definition getHostilTarget (m : guid) : T (option guid) :=
  c_update m ;;
  s ← get;
  l ← deref_all (online s m);
  v ← match iCurrentVictim (manager s m) with Some v => hv ← deref v; mret (Some (v, hv)) | None => mret None end;
  nextVictim ← (match selectNextVictim m l v with Ok n => mret n | Throw e => throw e end : T (option ref));
  setCurrentVictim m nextVictim ;;
  match nextVictim with Some n => h ← deref n; mret (iRefTo h) | None => mret None end.

(** ** What a unit does with the references to it *)

(** [while (ref)]: the body gives the reference to go on with. *)
Fixpoint while_refs (turns : nat) (body : ref -> T (option ref)) (r : option ref) : T unit :=
  match r with
  | None => mret tt
  | Some r =>
    match turns with
    | O => throw OutOfFuel
    | S turns => n ← body r; while_refs turns body n
    end
  end.
Definition for_hated (u : guid) (body : ref -> T (option ref)) : T unit :=
  s ← get; r ← getFirst u; while_refs (length (hated_by s u)) body r.

(** The creature that hates. *)
(* [game/Combat/HostileRefManager.cpp:44-44] HostileRefManager::threatAssist *)
Definition source_of (r : ref) : T guid := h ← deref r; not_null (iRefFrom h).

(* [game/Combat/HostileRefManager.cpp:37-49] HostileRefManager::threatAssist *)
Definition threatAssist (u victim : guid) (baseThreat : float32) (threatSpell : option SpellInfo) : T unit :=
  s ← get;
  let school := match threatSpell with Some spell => SchoolMask spell | None => SPELL_SCHOOL_MASK_NORMAL end in
  let threat := fdiv (calcThreat victim baseThreat school threatSpell) (f_of_Z (zlen (hated_by s u))) in
  for_hated u (fun r =>
    m ← source_of r;
    valid ← isValidProcess (Some victim) m threatSpell;
    (if (valid : bool) then doAddThreat add m victim threat else mret tt) ;;
    next r).

(* [game/Combat/HostileRefManager.cpp:53-69] HostileRefManager::addTempThreat *)
Definition hr_addTempThreat (u : guid) (threat : float32) (apply : bool) : T unit :=
  for_hated u (fun r =>
    (if apply then
       h ← deref r; if feq (iTempThreatModifier h) f_zero then addTempThreat r threat else mret tt
     else resetTempThreat r) ;;
    next r).

(* [game/Combat/HostileRefManager.cpp:73-81] HostileRefManager::addThreatPercent *)
Definition hr_addThreatPercent (u : guid) (percent : Z) : T unit :=
  for_hated u (fun r => addThreatPercent r percent ;; next r).

(* [game/Combat/HostileRefManager.cpp:86-94] HostileRefManager::setOnlineOfflineState *)
Definition hr_setOnlineOfflineState (u : guid) (isOnline : bool) : T unit :=
  for_hated u (fun r => setOnlineOfflineState r isOnline ;; next r).

(* [game/Combat/HostileRefManager.cpp:99-107] HostileRefManager::updateThreatTables *)
Definition updateThreatTables (u : guid) : T unit :=
  for_hated u (fun r => updateOnlineStatus r ;; next r).

(* [game/Combat/HostileRefManager.cpp:113-123] HostileRefManager::deleteReferences *)
Definition deleteReferences (u : guid) : T unit :=
  for_hated u (fun r => nextRef ← next r; removeReference r ;; delete_ref r ;; mret nextRef).

(* [game/Combat/HostileRefManager.cpp:128-141] HostileRefManager::deleteReferencesForFaction *)
Definition deleteReferencesForFaction (u : guid) (f : Z) : T unit :=
  for_hated u (fun r =>
    nextRef ← next r;
    m ← source_of r;
    (if faction W m =? f then removeReference r ;; delete_ref r else mret tt) ;;
    mret nextRef).

(* [game/Combat/HostileRefManager.cpp:146-160] HostileRefManager::deleteReference *)
Definition deleteReference (u creature : guid) : T unit :=
  for_hated u (fun r =>
    nextRef ← next r;
    m ← source_of r;
    if m =? creature then removeReference r ;; delete_ref r ;; mret None else mret nextRef).

(* [game/Combat/HostileRefManager.cpp:165-178] HostileRefManager::setOnlineOfflineState *)
Definition hr_setOnlineOfflineState_for (u creature : guid) (isOnline : bool) : T unit :=
  for_hated u (fun r =>
    nextRef ← next r;
    m ← source_of r;
    if m =? creature then setOnlineOfflineState r isOnline ;; mret None else mret nextRef).

(* [game/Combat/HostileRefManager.cpp:182-196] HostileRefManager::UpdateVisibility *)
Definition UpdateVisibility (u : guid) : T unit :=
  for_hated u (fun r =>
    nextRef ← next r;
    m ← source_of r;
    if negb (canSeeOrDetect W m u) then nextRef ← next r; removeReference r ;; delete_ref r ;; mret nextRef
    else mret nextRef).

(** ** What the units call *)

(* [game/Entities/Unit/Unit.cpp:15776-15781] Unit::AddThreat *)
Definition AddThreat (m : guid) (victim : option guid) (fThreat : float32) (schoolMask : Z)
    (threatSpell : option SpellInfo) : T unit :=
  if CanHaveThreatList m then tm_addThreat add m victim fThreat schoolMask threatSpell else mret tt.

(* [game/Entities/Unit/Unit.cpp:15785-15790] Unit::DeleteThreatList *)
Definition DeleteThreatList (m : guid) : T unit :=
  s ← get;
  (if CanHaveThreatList m && negb (isThreatListEmpty s m) then modify (send (SMSG_THREAT_CLEAR m)) else mret tt) ;;
  clearReferences m.

(* [game/Entities/Unit/Unit.cpp:21035-21052] Unit::SendThreatListUpdate *)
Definition SendThreatListUpdate (m : guid) : T unit :=
  s ← get;
  if isThreatListEmpty s m then mret tt
  else
    l ← deref_all (online s m);
    modify (send (SMSG_THREAT_UPDATE m (map (fun p => (iUnitGuid p.2, f_to_u32 (fmul (iThreat p.2) f_hundred))) l))).

(* [game/Entities/Unit/Unit.cpp:348-349] Unit::Update *)
Definition Update_threat (m : guid) (p_time : Z) : T unit :=
  if CanHaveThreatList m then
    need ← isNeedUpdateToClient m p_time;
    if (need : bool) then SendThreatListUpdate m else mret tt
  else mret tt.

(* [game/Entities/Unit/Unit.cpp:15898-15903] Creature::SelectVictim *)
Definition SelectVictim_threat (m : guid) (target : option guid) : T (option guid) :=
  s ← get;
  if CanHaveThreatList m then
    if bool_decide (target = None) && negb (isThreatListEmpty s m) then getHostilTarget m else mret target
  else mret target.

(* [game/Spells/SpellEffects.cpp:4421-4433] Spell::EffectTaunt *)
Definition EffectTaunt_threat (m caster : guid) : T unit :=
  s ← get;
  match iCurrentVictim (manager s m) with
  | Some v =>
    myThreat ← getThreat m (Some caster) false;
    hv ← deref v;
    if flt myThreat (iThreat hv)
    then tm_addThreat add m (Some caster) (fsub (iThreat hv) myThreat) SPELL_SCHOOL_MASK_NORMAL None
    else mret tt
  | None => mret tt
  end ;;
  s ← get;
  if isThreatListEmpty s m then mret tt
  else
    forcedVictim ← getReferenceByTarget m online (Some caster);
    match forcedVictim with Some r => setCurrentVictim m (Some r) | None => mret tt end.

(* [game/Entities/Unit/Unit.cpp:19917-19927] Unit::SetPhaseMask *)
Definition SetPhaseMask_refs (u : guid) (creature_in_new_phase : guid -> bool) : T unit :=
  for_hated u (fun r =>
    m ← source_of r;
    (if is_creature m then hr_setOnlineOfflineState_for u m (creature_in_new_phase m) else mret tt) ;;
    next r).

(** ** Everything that is done to the references *)
Inductive operation :=
| OpAddThreat (m : guid) (victim : option guid) (threat : float32) (school : Z) (spell : option SpellInfo)
| OpModifyThreatPercent (m : guid) (victim : option guid) (percent : Z)
| OpSelectVictim (m : guid) (target : option guid)
| OpTauntApply (m : guid) (taunter : option guid)
| OpTauntFadeOut (m : guid) (taunter : option guid)
| OpEffectTaunt (m caster : guid)
| OpUpdate (m : guid) (p_time : Z)
| OpDeleteThreatList (m : guid)
| OpResetAllAggro (m : guid)
| OpResetAggro (m : guid) (predicate : option guid -> bool)
| OpThreatAssist (u victim : guid) (baseThreat : float32) (spell : option SpellInfo)
| OpTempThreat (u : guid) (threat : float32) (apply : bool)
| OpThreatPercent (u : guid) (percent : Z)
| OpOnline (u : guid) (isOnline : bool)
| OpOnlineFor (u creature : guid) (isOnline : bool)
| OpUpdateThreatTables (u : guid)
| OpDeleteReferences (u : guid)
| OpDeleteReferencesForFaction (u : guid) (f : Z)
| OpDeleteReference (u creature : guid)
| OpUpdateVisibility (u : guid)
| OpSetPhaseMask (u : guid) (creature_in_new_phase : guid -> bool).

Definition perform (op : operation) : T unit :=
  match op with
  | OpAddThreat m victim threat school spell => AddThreat m victim threat school spell
  | OpModifyThreatPercent m victim percent => modifyThreatPercent m victim percent
  | OpSelectVictim m target => _ ← SelectVictim_threat m target; mret tt
  | OpTauntApply m taunter => tauntApply m taunter
  | OpTauntFadeOut m taunter => tauntFadeOut m taunter
  | OpEffectTaunt m caster => EffectTaunt_threat m caster
  | OpUpdate m p_time => Update_threat m p_time
  | OpDeleteThreatList m => DeleteThreatList m
  | OpResetAllAggro m => resetAllAggro m
  | OpResetAggro m predicate => resetAggro predicate m
  | OpThreatAssist u victim baseThreat spell => threatAssist u victim baseThreat spell
  | OpTempThreat u threat apply => hr_addTempThreat u threat apply
  | OpThreatPercent u percent => hr_addThreatPercent u percent
  | OpOnline u isOnline => hr_setOnlineOfflineState u isOnline
  | OpOnlineFor u creature isOnline => hr_setOnlineOfflineState_for u creature isOnline
  | OpUpdateThreatTables u => updateThreatTables u
  | OpDeleteReferences u => deleteReferences u
  | OpDeleteReferencesForFaction u f => deleteReferencesForFaction u f
  | OpDeleteReference u creature => deleteReference u creature
  | OpUpdateVisibility u => UpdateVisibility u
  | OpSetPhaseMask u p => SetPhaseMask_refs u p
  end.
End Fuel.
End Operations.

(** A history: what is known of the units when each operation is done. *)
Definition run_history (is_creature : guid -> bool) (fuel : nat) (history : list (Units * operation)) : T unit :=
  mapM_ (fun p => perform is_creature p.1 fuel p.2) history.
