(* ===== verification/ThreatSpec.v ===== *)
(** * Threat: the shared references stay consistent

    The store of references is well formed: whatever the units do, every
    reference is in exactly one list of its creature and in the list of its
    target, and no pointer dangles. *)

From S2P Require Import Prelude.
From S2P Require Import Float32.
From S2P Require Import Threat.

(** ** Steps that follow a pointer *)

Lemma runs_deref r s h (Q : HostileReference -> Threats -> Prop) :
  refs s !! r = Some h -> Q h s -> runs (deref r) s Q.
Proof. intros Hr HQ. unfold runs, deref, mbind, M_bind, get. cbn. by rewrite Hr. Qed.

Lemma runs_write r f s h (Q : unit -> Threats -> Prop) :
  refs s !! r = Some h -> Q tt (upd_refs (alter f r) s) -> runs (write r f) s Q.
Proof. intros Hr HQ. unfold write. apply runs_bind. by eapply runs_deref. Qed.
(** One step of a program. *)
Ltac step :=
  lazymatch goal with
  | H : refs ?s !! ?r = Some _ |- runs (deref ?r) ?s _ => eapply (runs_deref _ _ _ _ H)
  | H : refs ?s !! ?r = Some _ |- runs (write ?r _) ?s _ => eapply (runs_write _ _ _ _ _ H)
  | _ => plain_step
  end.
Ltac steps := repeat (step; cbn beta).

(** ** Reading an updated store *)

Definition listed (b : bool) (s : Threats) (m : guid) : list ref := if b then online s m else offline s m.
Definition victim (s : Threats) (m : guid) : option ref := iCurrentVictim (manager s m).

Lemma manager_upd m f s m' :
  manager (upd_manager m f s) m' = if decide (m' = m) then f (manager s m) else manager s m'.
Proof.
  unfold manager, upd_manager. cbn. destruct (decide (m' = m)) as [->|Hne].
  - by rewrite lookup_insert_eq.
  - by rewrite lookup_insert_ne by done.
Qed.

Lemma manager_send p s k : manager (send p s) k = manager s k.
Proof. done. Qed.

Lemma manager_refs f s k : manager (upd_refs f s) k = manager s k.
Proof. done. Qed.

Lemma hated_upd u f s u' :
  hated_by (upd_hated u f s) u' = if decide (u' = u) then f (hated_by s u) else hated_by s u'.
Proof.
  unfold hated_by, upd_hated. cbn. destruct (decide (u' = u)) as [->|Hne].
  - by rewrite lookup_insert_eq.
  - by rewrite lookup_insert_ne by done.
Qed.

Lemma refs_alter (f : HostileReference -> HostileReference) r (k : gmap Z HostileReference) r' h' :
  alter f r k !! r' = Some h' <->
  (r' = r /\ exists h, k !! r = Some h /\ h' = f h) \/ (r' <> r /\ k !! r' = Some h').
Proof.
  destruct (decide (r' = r)) as [->|Hne].
  - rewrite lookup_alter_eq, fmap_Some. split; [by left|by intros [[_ ?]|[? _]]].
  - rewrite lookup_alter_ne by done. split; [by right|by intros [[-> _]|[_ ?]]].
Qed.

(** What is seen of a store after updates of parts of it. *)
Ltac look :=
  unfold listed, online, offline, victim in *; cbn [upd_refs send refs next_ref] in *;
  repeat (rewrite !manager_upd in * || rewrite !manager_send in * || rewrite !manager_refs in * || case_decide); subst;
  cbn [iThreatContainer iThreatOfflineContainer iThreatList iCurrentVictim upd_online upd_offline set_victim
       c_remove c_addReference c_setDirty set_timer] in *.

Lemma filter_twice (r : ref) (l : list ref) :
  filter (fun x => x <> r) (filter (fun x => x <> r) l) = filter (fun x => x <> r) l.
Proof.
  induction l as [|y l IH]; [done|]. rewrite filter_cons. case_decide; [|done].
  rewrite filter_cons_True by done. by rewrite IH.
Qed.

Lemma filter_absent (r : ref) (l : list ref) : r ∉ l -> filter (fun x => x <> r) l = l.
Proof.
  induction l as [|y l IH]; [done|]. rewrite not_elem_of_cons. intros [Hy Hl].
  rewrite filter_cons_True by done. by rewrite IH.
Qed.

(** ** Well-formed stores *)
Section Wf.
Context (is_creature : guid -> bool).

(** Every reference is at an address given out before, links its target to a
    creature, is in one of the creature's two lists according to its status, and
    in the list of its target; the lists hold nothing else and nothing twice; a
    creature has one reference to a unit at most; its victim is in its online
    list. *)
Record wf (s : Threats) : Prop := {
  wf_ref : forall r h, refs s !! r = Some h ->
    r < next_ref s /\ iRefTo h = Some (iUnitGuid h) /\ exists m, iRefFrom h = Some m /\ is_creature m = true;
  wf_listed : forall b m r, r ∈ listed b s m <->
    exists h, refs s !! r = Some h /\ iRefFrom h = Some m /\ iOnline h = b;
  wf_hated : forall u r, r ∈ hated_by s u <-> exists h, refs s !! r = Some h /\ iRefTo h = Some u;
  wf_listed_once : forall b m, NoDup (listed b s m);
  wf_hated_once : forall u, NoDup (hated_by s u);
  wf_victim : forall m v, victim s m = Some v -> v ∈ online s m;
  wf_unique : forall r1 r2 h1 h2, refs s !! r1 = Some h1 -> refs s !! r2 = Some h2 ->
    iRefFrom h1 = iRefFrom h2 -> iUnitGuid h1 = iUnitGuid h2 -> r1 = r2
}.

Lemma wf_no_threats : wf no_threats.
Proof.
  split; cbn.
  - intros r h. by rewrite lookup_empty.
  - intros b m r. destruct b; cbn; (split; [by intros ?%not_elem_of_nil|intros (h & Hh & _); by rewrite lookup_empty in Hh]).
  - intros u r. cbn. split; [by intros ?%not_elem_of_nil|intros (h & Hh & _); by rewrite lookup_empty in Hh].
  - intros [] m; constructor.
  - intros u. constructor.
  - done.
  - intros r1 r2 h1 h2. by rewrite lookup_empty.
Qed.

(** The links of a reference and its status. *)
Definition same_links (h h' : HostileReference) : Prop :=
  iUnitGuid h' = iUnitGuid h /\ iRefTo h' = iRefTo h /\ iRefFrom h' = iRefFrom h.

(** What [wf] sees of a store: two stores alike in it are both well formed. *)
Record alike (s s' : Threats) : Prop := {
  al_refs : forall r, match refs s !! r, refs s' !! r with
    | Some h, Some h' => same_links h h' /\ iOnline h' = iOnline h
    | None, None => True
    | _, _ => False
    end;
  al_next : next_ref s' = next_ref s;
  al_listed : forall b m, listed b s' m ≡ₚ listed b s m;
  al_hated : forall u, hated_by s' u = hated_by s u;
  al_victim : forall m v, victim s' m = Some v -> v ∈ online s m
}.

Lemma alike_lookup s s' r h' :
  alike s s' -> refs s' !! r = Some h' ->
  exists h, refs s !! r = Some h /\ same_links h h' /\ iOnline h' = iOnline h.
Proof.
  intros H Hr. pose proof (al_refs _ _ H r) as E. rewrite Hr in E.
  destruct (refs s !! r) as [h|]; [|done]. by exists h.
Qed.

Lemma alike_lookup_r s s' r h :
  alike s s' -> refs s !! r = Some h ->
  exists h', refs s' !! r = Some h' /\ same_links h h' /\ iOnline h' = iOnline h.
Proof.
  intros H Hr. pose proof (al_refs _ _ H r) as E. rewrite Hr in E.
  destruct (refs s' !! r) as [h'|]; [|done]. by exists h'.
Qed.

Lemma wf_alike s s' : wf s -> alike s s' -> wf s'.
Proof.
  intros Hw Ha. split.
  - intros r h' Hr. destruct (alike_lookup _ _ _ _ Ha Hr) as (h & Hh & (E1 & E2 & E3) & _).
    rewrite E1, E2, E3, (al_next _ _ Ha). by apply wf_ref.
  - intros b m r. rewrite (al_listed _ _ Ha), (wf_listed _ Hw). split.
    + intros (h & Hh & Hm & Hb). destruct (alike_lookup_r _ _ _ _ Ha Hh) as (h' & Hh' & (_ & _ & E3) & E4).
      exists h'. by rewrite E3, E4.
    + intros (h' & Hh' & Hm & Hb). destruct (alike_lookup _ _ _ _ Ha Hh') as (h & Hh & (_ & _ & E3) & E4).
      exists h. by rewrite <- E3, <- E4.
  - intros u r. rewrite (al_hated _ _ Ha), (wf_hated _ Hw). split.
    + intros (h & Hh & Hu). destruct (alike_lookup_r _ _ _ _ Ha Hh) as (h' & Hh' & (_ & E2 & _) & _).
      exists h'. by rewrite E2.
    + intros (h' & Hh' & Hu). destruct (alike_lookup _ _ _ _ Ha Hh') as (h & Hh & (_ & E2 & _) & _).
      exists h. by rewrite <- E2.
  - intros b m. rewrite (al_listed _ _ Ha). by apply wf_listed_once.
  - intros u. rewrite (al_hated _ _ Ha). by apply wf_hated_once.
  - intros m v Hv. pose proof (al_listed _ _ Ha true m) as E. cbn in E. rewrite E. by eapply al_victim.
  - intros r1 r2 h1' h2' H1 H2 Hf Hg.
    destruct (alike_lookup _ _ _ _ Ha H1) as (h1 & Hh1 & (F1 & _ & G1) & _).
    destruct (alike_lookup _ _ _ _ Ha H2) as (h2 & Hh2 & (F2 & _ & G2) & _).
    eapply wf_unique; eauto; congruence.
Qed.

(** A reference changes its status: it goes from one list to the end of the other. *)
Record moved (r : ref) (m : guid) (b : bool) (s s' : Threats) : Prop := {
  mv_refs : exists f, (forall h, same_links h (f h) /\ iOnline (f h) = b) /\ refs s' = alter f r (refs s);
  mv_next : next_ref s' = next_ref s;
  mv_listed : forall c k, listed c s' k =
    if decide (k = m) then if Bool.eqb c b then listed c s k ++ [r] else filter (fun x => x <> r) (listed c s k)
    else listed c s k;
  mv_hated : forall u, hated_by s' u = hated_by s u;
  mv_victim : forall k v, victim s' k = Some v -> victim s k = Some v /\ (k = m -> v = r -> b = true)
}.

Lemma wf_moved r h m b s s' :
  wf s -> refs s !! r = Some h -> iRefFrom h = Some m -> iOnline h = negb b -> moved r m b s s' -> wf s'.
Proof.
  intros Hw Hr Hm Hb [(f & Hf & Hrefs) Hnext Hl Hh Hv].
  assert (r ∈ listed (negb b) s m) as Hin by (apply wf_listed; eauto).
  assert (forall c k x h0, refs s !! x = Some h0 -> x <> r -> x ∈ listed c s' k <-> x ∈ listed c s k) as Hother.
  { intros c k x h0 Hx Hne. rewrite Hl. destruct (decide (k = m)); [|done].
    destruct (Bool.eqb c b).
    - rewrite elem_of_app, list_elem_of_singleton. tauto.
    - rewrite list_elem_of_filter. tauto. }
  split.
  - intros x h' Hx. rewrite Hrefs in Hx. rewrite Hnext.
    apply refs_alter in Hx as [(-> & h0 & H0 & ->)|[Hne Hx]]; [|by apply wf_ref].
    destruct (Hf h0) as [(E1 & E2 & E3) _]. rewrite E1, E2, E3. by apply wf_ref.
  - intros c k x. rewrite Hrefs. setoid_rewrite refs_alter. split.
    + intros Hx. destruct (decide (x = r)) as [->|Hne].
      * exists (f h). destruct (Hf h) as [(E1 & E2 & E3) E4]. split; [left; eauto|]. rewrite E3, E4, Hm.
        rewrite Hl in Hx. destruct (decide (k = m)) as [->|Hk].
        -- split; [done|]. destruct (Bool.eqb_spec c b); [done|].
           apply list_elem_of_filter in Hx as [[] _]. done.
        -- apply (wf_listed _ Hw) in Hx as (h0 & H0 & H1 & _). congruence.
      * assert (x ∈ listed c s k) as Hx'.
        { rewrite Hl in Hx. destruct (decide (k = m)); [|done]. destruct (Bool.eqb c b).
          - apply elem_of_app in Hx as [Hx|Hx]; [done|]. by apply list_elem_of_singleton in Hx.
          - by apply list_elem_of_filter in Hx as [_ Hx]. }
        apply (wf_listed _ Hw) in Hx' as (h0 & H0 & H1). exists h0. by split; [right|].
    + intros (h' & [(-> & h0 & H0 & ->)|[Hne Hx]] & Hk & Hc).
      * destruct (Hf h0) as [(E1 & E2 & E3) E4]. rewrite E3 in Hk. rewrite E4 in Hc.
        assert (h0 = h) as -> by congruence. assert (k = m) as -> by congruence. subst c.
        rewrite Hl, decide_True, eqb_reflx by done. apply elem_of_app. right. by apply list_elem_of_singleton.
      * rewrite Hother by eauto. apply wf_listed; eauto.
  - intros u x. rewrite Hh, Hrefs, (wf_hated _ Hw). setoid_rewrite refs_alter. split.
    + intros (h0 & H0 & Hu). destruct (decide (x = r)) as [->|Hne]; [|exists h0; by split; [right|]].
      exists (f h0). destruct (Hf h0) as [(E1 & E2 & E3) E4]. rewrite E2. split; [left; eauto|done].
    + intros (h' & [(-> & h0 & H0 & ->)|[Hne Hx]] & Hu); [|eauto].
      exists h0. destruct (Hf h0) as [(E1 & E2 & E3) E4]. by rewrite <- E2.
  - intros c k. rewrite Hl. pose proof (wf_listed_once _ Hw c k) as Hnd. destruct (decide (k = m)) as [->|]; [|done].
    destruct (Bool.eqb_spec c b) as [->|]; [|by apply NoDup_filter].
    apply NoDup_app. split; [done|]. split; [|apply NoDup_singleton].
    intros x Hx ->%list_elem_of_singleton. apply (wf_listed _ Hw) in Hx as (h0 & H0 & _ & H1).
    assert (h0 = h) as -> by congruence. rewrite Hb in H1. by destruct b.
  - intros u. rewrite Hh. by apply wf_hated_once.
  - intros k v Hkv. destruct (Hv _ _ Hkv) as [Hkv' Hr']. apply (wf_victim _ Hw) in Hkv'.
    change (v ∈ listed true s' k). change (v ∈ listed true s k) in Hkv'. rewrite Hl.
    destruct (decide (k = m)) as [->|]; [|done]. destruct (Bool.eqb_spec true b) as [<-|Hne].
    + apply elem_of_app. by left.
    + apply list_elem_of_filter. split; [|done]. intros ->. destruct b; [done|]. by specialize (Hr' eq_refl eq_refl).
  - intros r1 r2 h1 h2 H1 H2 Ef Eg. rewrite Hrefs in H1, H2.
    assert (forall x h', alter f r (refs s) !! x = Some h' ->
      exists h0, refs s !! x = Some h0 /\ iRefFrom h' = iRefFrom h0 /\ iUnitGuid h' = iUnitGuid h0) as Hback.
    { intros x h' [(-> & h0 & H0 & ->)|[Hne Hx]]%refs_alter; [|eauto].
      destruct (Hf h0) as [(E1 & E2 & E3) E4]. eauto. }
    apply Hback in H1 as (k1 & K1 & L1 & G1). apply Hback in H2 as (k2 & K2 & L2 & G2).
    eapply wf_unique; eauto; congruence.
Qed.

(** A reference goes away. *)
Record removed (r : ref) (s s' : Threats) : Prop := {
  rm_refs : refs s' = base.delete r (refs s);
  rm_next : next_ref s' = next_ref s;
  rm_listed : forall c k, listed c s' k = filter (fun x => x <> r) (listed c s k);
  rm_hated : forall u, hated_by s' u = filter (fun x => x <> r) (hated_by s u);
  rm_victim : forall k v, victim s' k = Some v -> victim s k = Some v /\ v <> r
}.

Lemma wf_removed r s s' : wf s -> removed r s s' -> wf s'.
Proof.
  intros Hw [Hrefs Hnext Hl Hh Hv]. split.
  - intros x h. rewrite Hrefs, Hnext, lookup_delete_Some. intros [_ Hx]. by apply wf_ref.
  - intros c k x. rewrite Hl, list_elem_of_filter, (wf_listed _ Hw), Hrefs. setoid_rewrite lookup_delete_Some.
    split; [intros (? & h & ? & ?)|intros (h & [? ?] & ?)]; eauto 10.
  - intros u x. rewrite Hh, list_elem_of_filter, (wf_hated _ Hw), Hrefs. setoid_rewrite lookup_delete_Some.
    split; [intros (? & h & ? & ?)|intros (h & [? ?] & ?)]; eauto 10.
  - intros c k. rewrite Hl. apply NoDup_filter. by apply wf_listed_once.
  - intros u. rewrite Hh. apply NoDup_filter. by apply wf_hated_once.
  - intros k v Hkv. destruct (Hv _ _ Hkv) as [Hkv' Hne]. change (v ∈ listed true s' k). rewrite Hl.
    apply list_elem_of_filter. split; [done|]. by apply (wf_victim _ Hw).
  - intros r1 r2 h1 h2. rewrite Hrefs, !lookup_delete_Some. intros [_ H1] [_ H2]. by eapply wf_unique.
Qed.

(** A new reference: at the end of the online list, the first that hates its target. *)
Record added (u m : guid) (s s' : Threats) : Prop := {
  ad_refs : exists h, refs s' = <[next_ref s := h]> (refs s) /\ iUnitGuid h = u /\ iRefTo h = Some u /\
                      iRefFrom h = Some m /\ iOnline h = true;
  ad_next : next_ref s' = next_ref s + 1;
  ad_listed : forall c k, listed c s' k = if decide (k = m /\ c = true) then listed c s k ++ [next_ref s] else listed c s k;
  ad_hated : forall w, hated_by s' w = if decide (w = u) then next_ref s :: hated_by s w else hated_by s w;
  ad_victim : forall k, victim s' k = victim s k
}.

Lemma wf_added u m s s' :
  wf s -> is_creature m = true ->
  (forall r h, refs s !! r = Some h -> iRefFrom h = Some m -> iUnitGuid h <> u) -> added u m s s' -> wf s'.
Proof.
  intros Hw Hm Hnew [(h & Hrefs & Eu & Et & Em & Eo) Hnext Hl Hh Hv].
  assert (refs s !! next_ref s = None) as Hfresh.
  { destruct (refs s !! next_ref s) eqn:E; [|done]. apply (wf_ref _ Hw) in E as [? _]. lia. }
  assert (forall c k, next_ref s ∉ listed c s k) as Hnl.
  { intros c k Hx. apply (wf_listed _ Hw) in Hx as (h0 & H0 & _). congruence. }
  assert (forall w, next_ref s ∉ hated_by s w) as Hnh.
  { intros w Hx. apply (wf_hated _ Hw) in Hx as (h0 & H0 & _). congruence. }
  split.
  - intros x h'. rewrite Hrefs, Hnext, lookup_insert_Some. intros [[<- <-]|[_ Hx]].
    + split; [lia|]. rewrite Et, Eu. eauto.
    + apply (wf_ref _ Hw) in Hx as [? ?]. split; [lia|done].
  - intros c k x. rewrite Hl, Hrefs. setoid_rewrite lookup_insert_Some.
    assert (x ∈ (if decide (k = m /\ c = true) then listed c s k ++ [next_ref s] else listed c s k) <->
            (k = m /\ c = true /\ x = next_ref s) \/ x ∈ listed c s k) as ->.
    { destruct (decide _) as [[-> ->]|Hn]; [rewrite elem_of_app, list_elem_of_singleton|]; tauto. }
    rewrite (wf_listed _ Hw). split.
    + intros [(-> & -> & ->)|(h0 & H0 & H1)]; [exists h; eauto|].
      exists h0. split; [|done]. right. split; [|done]. intros <-. congruence.
    + intros (h' & [[<- <-]|[Hne Hx]] & Hk & Hc); [left|right; eauto]. split; [congruence|]. by rewrite <- Hc, Eo.
  - intros w x. rewrite Hh, Hrefs. setoid_rewrite lookup_insert_Some.
    assert (x ∈ (if decide (w = u) then next_ref s :: hated_by s w else hated_by s w) <->
            (w = u /\ x = next_ref s) \/ x ∈ hated_by s w) as ->.
    { destruct (decide _) as [->|Hn]; [rewrite elem_of_cons|]; tauto. }
    rewrite (wf_hated _ Hw). split.
    + intros [(-> & ->)|(h0 & H0 & H1)]; [exists h; eauto|].
      exists h0. split; [|done]. right. split; [|done]. intros <-. congruence.
    + intros (h' & [[<- <-]|[Hne Hx]] & Hk); [left|right; eauto]. split; congruence.
  - intros c k. rewrite Hl. pose proof (wf_listed_once _ Hw c k). destruct (decide _); [|done].
    apply NoDup_app. split; [done|]. split; [|apply NoDup_singleton].
    intros x Hx ->%list_elem_of_singleton. by apply (Hnl c k).
  - intros w. rewrite Hh. pose proof (wf_hated_once _ Hw w). destruct (decide _); [|done]. by constructor.
  - intros k v. rewrite Hv. intros Hkv%(wf_victim _ Hw). change (v ∈ listed true s' k). rewrite Hl.
    change (v ∈ listed true s k) in Hkv. destruct (decide _); [|done]. apply elem_of_app. by left.
  - intros r1 r2 h1 h2. rewrite Hrefs, !lookup_insert_Some. intros [[<- <-]|[N1 H1]] [[<- <-]|[N2 H2]] Ef Eg; [done| | |].
    + destruct (Hnew _ _ H2); congruence.
    + destruct (Hnew _ _ H1); congruence.
    + by eapply wf_unique.
Qed.

(** ** Events *)

Lemma wf_victim_ref s m v :
  wf s -> victim s m = Some v -> exists h, refs s !! v = Some h /\ iRefFrom h = Some m /\ iOnline h = true.
Proof. intros Hw Hv%(wf_victim _ Hw). by apply (wf_listed _ Hw true). Qed.

Lemma setAccessibleState_runs r b s h m :
  refs s !! r = Some h -> iRefFrom h = Some m ->
  runs (setAccessibleState r b) s (fun _ s' => s' = s \/ s' = upd_refs (alter (set_accessible b) r) s).
Proof.
  intros Hr Hm. unfold setAccessibleState. steps. destruct (Bool.eqb _ _); steps; [by left|].
  assert (refs (upd_refs (alter (set_accessible b) r) s) !! r = Some (set_accessible b h)) as Hr'.
  { cbn. by rewrite lookup_alter_eq, Hr. }
  unfold fireStatusChanged. steps. cbn [iRefFrom set_accessible]. rewrite Hm.
  unfold processThreatEvent. steps. by right.
Qed.

Lemma setCurrentVictim_None_runs m s (Q : unit -> Threats -> Prop) :
  Q tt (upd_manager m (set_victim None) s) -> runs (setCurrentVictim m None) s Q.
Proof. intros HQ. unfold setCurrentVictim. steps. exact HQ. Qed.

(** The manager forgets the victim it loses, and will sort. *)
Lemma lose_victim_runs m r s (Q : unit -> Threats -> Prop) :
  (forall s', refs s' = refs s -> next_ref s' = next_ref s ->
     (forall c k, listed c s' k = listed c s k) -> (forall u, hated_by s' u = hated_by s u) ->
     (forall k v, victim s' k = Some v -> victim s k = Some v /\ (k = m -> v <> r)) -> Q tt s') ->
  runs (if bool_decide (iCurrentVictim (manager s m) = Some r) then setCurrentVictim m None ;; setDirty m true else mret tt) s Q.
Proof.
  intros HQ. case_bool_decide as Hv; steps.
  - apply setCurrentVictim_None_runs. unfold setDirty. steps. apply HQ; [done|done| |done|].
    + intros c k. destruct c; look; done.
    + intros k v Hk. look; done.
  - apply HQ; try done. intros k v Hk. split; [done|]. unfold victim in Hk. intros -> ->. done.
Qed.

Lemma fire_online_runs r m b s f h :
  wf s -> refs s !! r = Some h -> iRefFrom h = Some m -> iOnline h = negb b ->
  (forall h, same_links h (f h) /\ iOnline (f h) = b) ->
  runs (fireStatusChanged r UEV_THREAT_REF_ONLINE_STATUS) (upd_refs (alter f r) s) (fun _ s' => moved r m b s s').
Proof.
  intros Hw Hr Hm Hb Hf. destruct (Hf h) as [(E1 & E2 & E3) E4].
  assert (refs (upd_refs (alter f r) s) !! r = Some (f h)) as Hr' by (cbn; by rewrite lookup_alter_eq, Hr).
  unfold fireStatusChanged. steps. rewrite E3, Hm. unfold processThreatEvent. steps. rewrite E4.
  destruct b; cbn [negb]; steps.
  - apply (runs_mono _ _ (fun _ s' => refs s' = alter f r (refs s) /\ next_ref s' = next_ref s /\
      (forall c k, listed c s' k = listed c s k) /\ (forall u, hated_by s' u = hated_by s u) /\
      (forall k, victim s' k = victim s k))).
    + destruct (iCurrentVictim (manager _ m)) as [v|] eqn:Hv; [|steps; split_and!; done].
      destruct (wf_victim_ref s m v Hw Hv) as (hv & Hhv & _).
      assert (exists hv', refs (upd_refs (alter f r) s) !! v = Some hv') as [hv' Hhv'].
      { cbn. destruct (decide (v = r)) as [->|]; [|rewrite lookup_alter_ne by done; eauto].
        rewrite lookup_alter_eq, Hr. eauto. }
      steps. destruct (flt _ _); unfold setDirty; steps; (split_and!; try done).
      * intros c k. destruct c; look; done.
      * intros k. look; done.
    + intros _ s' (Hrefs & Hnext & Hl & Hh & Hv). steps. split; cbn [refs upd_manager next_ref]; [eauto|done| | |].
      * intros c k. specialize (Hl c k). destruct c; look; cbn; try rewrite Hl; try done.
      * done.
      * intros k v Hk. specialize (Hv k). split; [|done]. look; congruence.
  - apply (lose_victim_runs m r). intros s' Hrefs Hnext Hl Hh Hv.
    assert (refs s' !! r = Some (f h)) as Hr'' by (rewrite Hrefs; done).
    unfold SendRemoveFromThreatListOpcode. steps. split; cbn [refs upd_manager next_ref send]; [eauto|done| |done|].
    + intros c k. specialize (Hl c k). destruct c; look; cbn; try rewrite Hl; try done.
    + intros k v Hk. specialize (Hv k v). look; (destruct (Hv Hk) as [? Hne]; split; [done|]; intros ? ->; by destruct Hne).
Qed.

Lemma setOnlineOfflineState_runs r m b s h :
  wf s -> refs s !! r = Some h -> iRefFrom h = Some m ->
  runs (setOnlineOfflineState r b) s
    (fun _ s' => if Bool.eqb (iOnline h) b then s' = s else moved r m b s s').
Proof.
  intros Hw Hr Hm. unfold setOnlineOfflineState. steps.
  destruct (Bool.eqb_spec (iOnline h) b) as [E|E]; steps; [done|].
  assert (iOnline h = negb b) as Hb by (by destruct b, (iOnline h)).
  destruct b; steps.
  - eapply fire_online_runs; try done.
  - assert (refs (upd_refs (alter (set_online false) r) s) !! r = Some (set_online false h)) as Hr'.
    { cbn. by rewrite lookup_alter_eq, Hr. }
    eapply runs_mono; [by apply (setAccessibleState_runs _ _ _ _ m Hr')|].
    intros _ s' [->| ->].
    + by eapply fire_online_runs.
    + assert (upd_refs (alter (set_accessible false) r) (upd_refs (alter (set_online false) r) s) =
              upd_refs (alter (set_accessible false ∘ set_online false) r) s) as ->.
      { unfold upd_refs. cbn. by rewrite alter_alter_eq. }
      by eapply fire_online_runs.
Qed.

Lemma moved_ref r m b s s' h :
  refs s !! r = Some h -> moved r m b s s' -> exists h', refs s' !! r = Some h' /\ same_links h h' /\ iOnline h' = b.
Proof.
  intros Hr [(f & Hf & Hrefs) _ _ _ _]. exists (f h). destruct (Hf h). by rewrite Hrefs, lookup_alter_eq, Hr.
Qed.

(** A reference is taken offline. *)
Lemma go_offline_runs r m s h :
  wf s -> refs s !! r = Some h -> iRefFrom h = Some m ->
  runs (setOnlineOfflineState r false) s (fun _ s' =>
    wf s' /\ exists h', refs s' !! r = Some h' /\ same_links h h' /\ iOnline h' = false /\
    refs s' = <[r := h']> (refs s) /\ next_ref s' = next_ref s /\
    (forall c k, filter (fun x => x <> r) (listed c s' k) = filter (fun x => x <> r) (listed c s k)) /\
    (forall u, hated_by s' u = hated_by s u) /\
    (forall k v, victim s' k = Some v -> victim s k = Some v /\ v <> r)).
Proof.
  intros Hw Hr Hm. eapply runs_mono; [by eapply setOnlineOfflineState_runs|]. intros [] s'; cbn beta.
  destruct (Bool.eqb_spec (iOnline h) false) as [E|E]; intros Hs.
  - subst s'. split; [done|]. exists h. split_and!; try done; [by rewrite insert_id|].
    intros k v Hv. split; [done|]. intros ->. apply (wf_victim_ref _ _ _ Hw) in Hv as (h' & ? & ? & ?). congruence.
  - assert (iOnline h = true) as Ho by (by destruct (iOnline h)).
    split; [by eapply (wf_moved r h m false s)|]. destruct (moved_ref _ _ _ _ _ _ Hr Hs) as (h' & Hr' & Hl' & Ho').
    exists h'. destruct Hs as [(f & Hf & Hrefs) Hnext Hl Hh Hv]. split_and!; try done.
    + rewrite Hrefs in Hr' |- *. apply map_eq. intros x.
      destruct (decide (x = r)) as [->|]; [by rewrite lookup_insert_eq|].
      by rewrite lookup_insert_ne, lookup_alter_ne.
    + intros c k. rewrite Hl. destruct (decide (k = m)); [|done]. destruct (Bool.eqb c false).
      * rewrite filter_app, filter_cons_False by tauto. by rewrite filter_nil, app_nil_r.
      * apply filter_twice.
    + intros k v Hkv. destruct (Hv _ _ Hkv) as [Hkv' Hne]. split; [done|]. intros ->.
      apply (wf_victim_ref _ _ _ Hw) in Hkv' as (h0 & ? & ? & ?). assert (k = m) by congruence. by specialize (Hne H2 eq_refl).
Qed.

Lemma wf_absent c k s r h :
  wf s -> refs s !! r = Some h -> iRefFrom h <> Some k \/ iOnline h <> c -> r ∉ listed c s k.
Proof. intros Hw Hr Hne Hin. apply (wf_listed _ Hw) in Hin as (h' & ? & ? & ?). destruct Hne; congruence. Qed.

Lemma hated_absent u s r h : wf s -> refs s !! r = Some h -> iRefTo h <> Some u -> r ∉ hated_by s u.
Proof. intros Hw Hr Hne Hin. apply (wf_hated _ Hw) in Hin as (h' & ? & ?). congruence. Qed.

(** A reference is removed and deleted. *)
Lemma remove_runs r s h :
  wf s -> refs s !! r = Some h ->
  runs (removeReference r ;; delete_ref r) s (fun _ s' => removed r s s').
Proof.
  intros Hw Hr. destruct (wf_ref _ Hw _ _ Hr) as (_ & _ & m & Hm & _).
  unfold removeReference, invalidate. steps.
  eapply runs_mono; [by eapply go_offline_runs|]. intros [] s1 (Hw1 & h1 & Hr1 & (_ & _ & E3) & Ho1 & Hrefs & Hnext & Hl & Hh & Hv).
  destruct (wf_ref _ Hw1 _ _ Hr1) as (_ & Et1 & _). steps. unfold delink. rewrite Et1. steps.
  set (u := iUnitGuid h1) in *. set (s2 := upd_hated u _ s1).
  assert (refs s2 !! r = Some h1) as Hr2 by done. steps.
  set (s3 := upd_refs _ s2).
  assert (refs s3 !! r = Some (set_link None (iRefFrom h1) h1)) as Hr3 by (cbn; by rewrite lookup_alter_eq, Hr1).
  unfold fireStatusChanged. steps. cbn [iRefFrom set_link]. rewrite E3, Hm. unfold processThreatEvent. steps.
  apply (lose_victim_runs m r). intros s4 Hrefs4 Hnext4 Hl4 Hh4 Hv4.
  assert (refs s4 !! r = Some (set_link None (iRefFrom h1) h1)) as Hr4 by (by rewrite Hrefs4).
  unfold SendRemoveFromThreatListOpcode. steps. cbn [iOnline set_link]. rewrite Ho1. steps.
  unfold delete_ref. set (s5 := upd_manager m _ _).
  assert (refs s5 !! r = Some (set_link None (iRefFrom h1) h1)) as Hr5 by done. steps. unfold delink. cbn [iRefTo set_link]. steps.
  split; cbn [refs next_ref upd_refs].
  - subst s5. cbn. rewrite Hrefs4. cbn. rewrite Hrefs. rewrite delete_alter_eq. by rewrite delete_insert_eq.
  - subst s5. cbn. by rewrite Hnext4.
  - intros c k. rewrite <- Hl.
    assert (listed c s5 k = if decide (k = m /\ c = false) then filter (fun x => x <> r) (listed c s1 k) else listed c s1 k) as E.
    { subst s5. specialize (Hl4 c k). destruct c; look; rewrite ?Hl4; first [done|exfalso; tauto|exfalso; destruct_and?; congruence]. }
    transitivity (listed c s5 k); [done|]. rewrite E.
    destruct (decide _) as [|Hn]; [done|]. symmetry. apply filter_absent. eapply wf_absent; [done..|].
    rewrite E3, Hm, Ho1. destruct (decide (k = m)) as [->|]; [right|left; congruence]. destruct c; [done|tauto].
  - intros w. subst s5. transitivity (hated_by s4 w); [done|]. rewrite Hh4. subst s3 s2.
    transitivity (hated_by (upd_hated u (filter (fun x => x <> r)) s1) w); [done|]. rewrite hated_upd, <- !Hh.
    destruct (decide (w = u)) as [->|]; [done|]. symmetry. apply filter_absent. eapply hated_absent; [done..|congruence].
  - intros k v Hk.
    assert (victim s4 k = Some v) as Hk4.
    { subst s5. look; done. }
    apply Hv4 in Hk4 as [Hk4 _]. by apply Hv.
Qed.

(** ** Online status *)

Lemma alike_refl s : wf s -> alike s s.
Proof.
  intros Hw. split; try done.
  - intros r. by destruct (refs s !! r).
  - intros m v. by apply (wf_victim _ Hw).
Qed.

Lemma alike_write f r s :
  wf s -> (forall h, same_links h (f h) /\ iOnline (f h) = iOnline h) -> alike s (upd_refs (alter f r) s).
Proof.
  intros Hw Hf. split; try done.
  - intros x. cbn. destruct (decide (x = r)) as [->|].
    + rewrite lookup_alter_eq. destruct (refs s !! r); [apply Hf|done].
    + rewrite lookup_alter_ne by done. by destruct (refs s !! x).
  - intros m v. by apply (wf_victim _ Hw).
Qed.

Lemma alike_trans s1 s2 s3 : alike s1 s2 -> alike s2 s3 -> alike s1 s3.
Proof.
  intros [R1 N1 L1 H1 V1] [R2 N2 L2 H2 V2]. split.
  - intros r. specialize (R1 r). specialize (R2 r).
    destruct (refs s1 !! r), (refs s2 !! r), (refs s3 !! r); try done.
    destruct R1 as [(? & ? & ?) ?], R2 as [(? & ? & ?) ?]. unfold same_links. split_and!; congruence.
  - congruence.
  - intros b m. by rewrite L2, L1.
  - intros u. by rewrite H2, H1.
  - intros m v Hv. apply V2 in Hv. pose proof (L1 true m) as E. cbn in E. by rewrite <- E.
Qed.

Context (W : Units).

(** A reference's accessible flag was set, perhaps. *)
Definition retouched (r : ref) (s s' : Threats) : Prop := s' = s \/ exists b, s' = upd_refs (alter (set_accessible b) r) s.

Lemma retouched_alike r s s' : wf s -> retouched r s s' -> alike s s'.
Proof. intros Hw [->|(b & ->)]; [by apply alike_refl|by apply alike_write]. Qed.

Lemma retouched_ref r s s' h :
  refs s !! r = Some h -> retouched r s s' -> exists h', refs s' !! r = Some h' /\ same_links h h' /\ iOnline h' = iOnline h.
Proof.
  intros Hr [->|(b & ->)]; [by exists h|]. exists (set_accessible b h). cbn. by rewrite lookup_alter_eq, Hr.
Qed.

Lemma updateOnlineStatus_runs r m s h :
  wf s -> refs s !! r = Some h -> iRefFrom h = Some m ->
  runs (updateOnlineStatus is_creature W r) s (fun _ s' =>
    exists s1 b, retouched r s s1 /\ if Bool.eqb (iOnline h) b then s' = s1 else moved r m b s1 s').
Proof.
  intros Hw Hr Hm. destruct (wf_ref _ Hw _ _ Hr) as (_ & Et & m' & Em & Hc). rewrite Hm in Em. injection Em as <-.
  unfold updateOnlineStatus. steps. rewrite Et, bool_decide_true by eauto. steps. rewrite Et.
  eapply (runs_mono _ _ (fun _ s' => s' = s)).
  { unfold getSourceUnit, not_null. steps. rewrite Hm. steps. rewrite Hc. cbn [negb].
    destruct (negb _); [done|]. by destruct (isInAccessiblePlaceFor _ _ _). }
  intros [b acc] s' ->. cbn [fst snd]. steps.
  eapply runs_mono; [by eapply setAccessibleState_runs|]. intros [] s1 Hs1.
  assert (retouched r s s1) as Hs1' by (destruct Hs1 as [->| ->]; [by left|right; eauto]).
  destruct (retouched_ref _ _ _ _ Hr Hs1') as (h1 & Hr1 & (_ & _ & E3) & E4).
  eapply runs_mono; [eapply (setOnlineOfflineState_runs _ m b _ h1); [|done|congruence]|].
  - eapply wf_alike; [done|]. by eapply retouched_alike.
  - intros [] s2. cbn beta. rewrite E4. eauto.
Qed.

(** ** Growth: adding threat only adds references

    [P m u] holds of the creatures and units new references may link. *)
Record grown (P : guid -> guid -> Prop) (s s' : Threats) : Prop := {
  gr_refs : forall r h, refs s !! r = Some h ->
    exists h', refs s' !! r = Some h' /\ same_links h h' /\ (iOnline h = true -> iOnline h' = true);
  gr_new : forall r h', refs s' !! r = Some h' -> refs s !! r = None ->
    exists m, iRefFrom h' = Some m /\ P m (iUnitGuid h');
  gr_hated : forall u, exists pre, hated_by s' u = pre ++ hated_by s u;
  gr_online : forall m, exists post, online s' m = online s m ++ post
}.

Lemma grown_refl P s : grown P s s.
Proof. split; [intros r h Hr; by exists h|congruence|by exists []|]. intros m. exists []. by rewrite app_nil_r. Qed.

Lemma grown_trans P s1 s2 s3 : grown P s1 s2 -> grown P s2 s3 -> grown P s1 s3.
Proof.
  intros [R1 N1 H1 O1] [R2 N2 H2 O2]. split.
  - intros r h Hr. destruct (R1 _ _ Hr) as (h1 & Hr1 & (A1 & A2 & A3) & A4).
    destruct (R2 _ _ Hr1) as (h2 & Hr2 & (B1 & B2 & B3) & B4). exists h2. unfold same_links. split_and!; try done; try congruence. auto.
  - intros r h Hr Hn. destruct (refs s2 !! r) as [h2|] eqn:E; [|by eapply N2].
    destruct (R2 _ _ E) as (h3 & Hr3 & (B1 & B2 & B3) & _). assert (h3 = h) as -> by congruence.
    destruct (N1 _ _ E Hn) as (m & Hm & HP). exists m. by rewrite B1, B3.
  - intros u. destruct (H1 u) as [p1 E1], (H2 u) as [p2 E2]. exists (p2 ++ p1). by rewrite E2, E1, app_assoc.
  - intros m. destruct (O1 m) as [p1 E1], (O2 m) as [p2 E2]. exists (p1 ++ p2). by rewrite E2, E1, app_assoc.
Qed.

Lemma grown_mono (P P' : guid -> guid -> Prop) s s' :
  (forall m u, P m u -> P' m u) -> grown P s s' -> grown P' s s'.
Proof. intros HP [R N H O]. split; try done. intros r h Hr Hn. destruct (N _ _ Hr Hn) as (m & ? & ?). eauto. Qed.

Lemma grown_write P f r s :
  (forall h, same_links h (f h) /\ iOnline (f h) = iOnline h) -> grown P s (upd_refs (alter f r) s).
Proof.
  intros Hf. split.
  - intros x h Hx. cbn. destruct (decide (x = r)) as [->|]; [|rewrite lookup_alter_ne by done; by exists h].
    rewrite lookup_alter_eq, Hx. exists (f h). destruct (Hf h) as [? E]. by rewrite E.
  - intros x h Hx Hn. cbn in Hx. apply refs_alter in Hx as [(-> & h0 & H0 & _)|[_ Hx]]; congruence.
  - by exists [].
  - exists []. by rewrite app_nil_r.
Qed.

Lemma grown_moved P r m s s' : moved r m true s s' -> grown P s s'.
Proof.
  intros [(f & Hf & Hrefs) Hnext Hl Hh Hv]. split.
  - intros x h Hx. rewrite Hrefs. destruct (decide (x = r)) as [->|]; [|rewrite lookup_alter_ne by done; by exists h].
    rewrite lookup_alter_eq, Hx. exists (f h). by destruct (Hf h).
  - intros x h Hx Hn. rewrite Hrefs in Hx. apply refs_alter in Hx as [(-> & h0 & H0 & _)|[_ Hx]]; congruence.
  - intros u. rewrite Hh. by exists [].
  - intros k. change (online s' k) with (listed true s' k). rewrite Hl. cbn.
    destruct (decide (k = m)); [by exists [r]|]. exists []. by rewrite app_nil_r.
Qed.

Definition dirtied (m : guid) (b : bool) (s : Threats) : Threats := upd_manager m (upd_online (c_setDirty b)) s.

Lemma listed_dirtied m b s c k : listed c (dirtied m b s) k = listed c s k.
Proof. unfold dirtied. destruct c; look; done. Qed.

Lemma victim_dirtied m b s k : victim (dirtied m b s) k = victim s k.
Proof. unfold dirtied. look; done. Qed.

Lemma alike_dirtied m b s : wf s -> alike s (dirtied m b s).
Proof.
  intros Hw. split; try done.
  - intros r. cbn. by destruct (refs s !! r).
  - intros c k. by rewrite listed_dirtied.
  - intros k v. rewrite victim_dirtied. by apply wf_victim.
Qed.

Lemma grown_dirtied P m b s : grown P s (dirtied m b s).
Proof.
  split.
  - intros r h Hr. by exists h.
  - intros r h Hr Hn. cbn in Hr. congruence.
  - intros u. by exists [].
  - intros k. exists []. rewrite app_nil_r. apply (listed_dirtied m b s true k).
Qed.

Lemma fire_change_runs r m f s h :
  refs s !! r = Some h -> iRefFrom h = Some m ->
  runs (fireStatusChanged r (UEV_THREAT_REF_THREAT_CHANGE f)) s (fun _ s' => s' = s \/ s' = dirtied m true s).
Proof.
  intros Hr Hm. unfold fireStatusChanged. steps. rewrite Hm. unfold processThreatEvent. steps.
  destruct (_ || _); unfold setDirty; steps; [by right|by left].
Qed.

Lemma find_guid_runs u l s :
  (forall r, r ∈ l -> is_Some (refs s !! r)) ->
  runs (find_guid u l) s (fun o s' => s' = s /\
    match o with
    | Some r => r ∈ l /\ exists h, refs s !! r = Some h /\ iUnitGuid h = u
    | None => forall r h, r ∈ l -> refs s !! r = Some h -> iUnitGuid h <> u
    end).
Proof.
  induction l as [|r l IH]; intros Hl; cbn [find_guid].
  - steps. split; [done|]. intros r h Hr. by apply not_elem_of_nil in Hr.
  - destruct (Hl r ltac:(by left)) as [h Hr]. steps. destruct (Z.eqb_spec (iUnitGuid h) u) as [E|E].
    + steps. split; [done|]. split; [by left|eauto].
    + eapply runs_mono; [apply IH; intros x Hx; apply Hl; by right|].
      intros [x|] s' [-> Hx]; (split; [done|]).
      * destruct Hx as [Hx Hx']. split; [by right|done].
      * intros x h' [->|Hin]%elem_of_cons Hh'; [congruence|by eapply Hx].
Qed.

Lemma getReferenceByTarget_runs c m u s :
  wf s ->
  runs (getReferenceByTarget m (listed c) (Some u)) s (fun o s' => s' = s /\
    match o with
    | Some r => exists h, refs s !! r = Some h /\ iRefFrom h = Some m /\ iOnline h = c /\ iUnitGuid h = u
    | None => forall r h, refs s !! r = Some h -> iRefFrom h = Some m -> iOnline h = c -> iUnitGuid h <> u
    end).
Proof.
  intros Hw. unfold getReferenceByTarget. steps. eapply runs_mono.
  - apply find_guid_runs. intros r Hr. apply (wf_listed _ Hw) in Hr as (h & ? & _). by exists h.
  - intros [r|] s' [-> Hr]; (split; [done|]).
    + destruct Hr as [Hr (h & Hh & Hu)]. apply (wf_listed _ Hw) in Hr as (h' & ? & ? & ?).
      assert (h' = h) as -> by congruence. eauto.
    + intros r h Hr' Hm Hc. eapply Hr; [|done]. apply wf_listed; eauto.
Qed.

(** A reference is made and put on the online list. *)
Lemma new_runs u m s :
  wf s ->
  runs (r ← new_HostileReference u m f_zero; modify (upd_manager m (upd_online (c_addReference r))) ;; mret r) s
    (fun r s' => r = next_ref s /\ added u m s s').
Proof.
  intros Hw. unfold new_HostileReference. steps. set (r := next_ref s).
  match goal with |- runs _ ?s1 _ => set (s1' := s1) end.
  assert (refs s1' !! r = Some (mkRef f_zero f_zero u true true None None)) as Hr by apply lookup_insert_eq.
  unfold link. steps. rewrite bool_decide_false by (by intros [? ?]). steps. unfold addHatedBy. steps.
  split; [done|]. split; cbn [refs next_ref upd_manager upd_hated upd_refs].
  - exists (mkRef f_zero f_zero u true true (Some u) (Some m)). split; [|done]. subst s1'. cbn. by rewrite alter_insert_eq.
  - done.
  - intros c k. unfold listed, online, offline. rewrite manager_upd. subst s1'.
    change (manager (upd_hated u ?f (upd_refs ?g (mkThreats ?a ?b (managers s) ?h (packets s))))) with (manager s).
    destruct (decide (k = m)) as [->|Hk]; [|by rewrite decide_False by tauto].
    destruct c; [by rewrite decide_True|by rewrite decide_False by (by intros [? ?])].
  - intros w. subst s1'.
    match goal with |- hated_by (upd_manager _ _ ?x) _ = _ => transitivity (hated_by x w); [done|] end.
    rewrite hated_upd. by destruct (decide (w = u)) as [->|].
  - intros k. unfold victim. rewrite manager_upd. by destruct (decide (k = m)) as [->|].
Qed.

Lemma grown_added P u m s s' : wf s -> P m u -> added u m s s' -> grown P s s'.
Proof.
  intros Hw HP [(h & Hrefs & Eu & Et & Em & Eo) Hnext Hl Hh Hv]. split.
  - intros r h' Hr. rewrite Hrefs. exists h'. split; [|done]. rewrite lookup_insert_ne; [done|].
    intros <-. apply (wf_ref _ Hw) in Hr as [? _]. lia.
  - intros r h' Hr Hn. rewrite Hrefs in Hr. apply lookup_insert_Some in Hr as [[<- <-]|[_ ?]]; [|congruence].
    exists m. by rewrite Eu.
  - intros w. rewrite Hh. destruct (decide (w = u)); [by exists [next_ref s]|by exists []].
  - intros k. change (online s' k) with (listed true s' k). rewrite Hl.
    destruct (decide _); [by exists [next_ref s]|]. exists []. by rewrite app_nil_r.
Qed.

(** A reference that was not there before is taken offline. *)
Lemma grown_back P r m s s1 s2 :
  wf s -> refs s !! r = None -> grown P s s1 -> moved r m false s1 s2 -> grown P s s2.
Proof.
  intros Hw Hn [R N H O] [(f & Hf & Hrefs) Hnext Hl Hh Hv]. split.
  - intros x h Hx. destruct (R _ _ Hx) as (h1 & ? & ?). exists h1. split; [|done].
    rewrite Hrefs, lookup_alter_ne; [done|]. congruence.
  - intros x h' Hx Hx'. rewrite Hrefs in Hx. apply refs_alter in Hx as [(-> & h0 & H0 & ->)|[_ Hx]]; [|by eapply N].
    destruct (N _ _ H0 Hx') as (k & ? & ?). exists k. destruct (Hf h0) as [(E1 & E2 & E3) _]. by rewrite E1, E3.
  - intros u. rewrite Hh. apply H.
  - intros k. change (online s2 k) with (listed true s2 k). rewrite Hl. cbn. destruct (O k) as [post E].
    destruct (decide (k = m)) as [->|]; [|by exists post].
    change (listed true s1 m) with (online s1 m). rewrite E, filter_app, filter_absent; [by eexists|].
    intros Hin. apply (wf_listed _ Hw true) in Hin as (h & ? & _). congruence.
Qed.

Definition has (s : Threats) (m u : guid) : Prop :=
  exists r h, refs s !! r = Some h /\ iRefFrom h = Some m /\ iUnitGuid h = u.

Lemma grown_has P s s' m u : grown P s s' -> has s m u -> has s' m u.
Proof.
  intros Hg (r & h & Hr & Hm & Hu). destruct (gr_refs _ _ _ Hg _ _ Hr) as (h' & Hr' & (E1 & _ & E3) & _).
  exists r, h'. rewrite E1, E3. done.
Qed.

(** What a program that adds threat does. *)
Definition grows (P : guid -> guid -> Prop) {A} (m : T A) (s : Threats) : Prop :=
  runs m s (fun _ s' => wf s' /\ grown P s s').

Section Recursion.
Context (rec : ref -> float32 -> T unit) (P : guid -> guid -> Prop) (m victim : guid).
Hypothesis creature : is_creature m = true.
Hypothesis allowed : P m victim.
Hypothesis rec_grows : forall r h s y,
  wf s -> refs s !! r = Some h -> iRefFrom h = Some m -> iUnitGuid h = victim -> grows P (rec r y) s.

Lemma c_addThreat_runs c x s :
  wf s ->
  runs (c_addThreat rec m (listed c) victim x) s (fun o s' => wf s' /\ grown P s s' /\
    match o with
    | Some _ => has s' m victim
    | None => s' = s /\ forall r h, refs s !! r = Some h -> iRefFrom h = Some m -> iOnline h = c -> iUnitGuid h <> victim
    end).
Proof.
  intros Hw. unfold c_addThreat. steps. eapply runs_mono; [by apply getReferenceByTarget_runs|].
  intros [r|] s' [-> Hr]; steps.
  - destruct Hr as (h & Hr & Hm & Hc & Hu). eapply runs_mono; [by eapply rec_grows|].
    intros [] s' [Hw' Hg]. steps. split; [done|]. split; [done|]. eapply grown_has; [done|]. by exists r, h.
  - split; [done|]. split; [apply grown_refl|done].
Qed.

Lemma _addThreat_runs x s :
  wf s ->
  runs (_addThreat is_creature W rec m victim x) s (fun _ s' => wf s' /\ grown P s s' /\ has s' m victim).
Proof.
  intros Hw. unfold _addThreat. steps. eapply runs_mono; [by apply (c_addThreat_runs true)|].
  intros [r|] s1 (Hw1 & Hg1 & H1); steps; [done|]. destruct H1 as [-> H1].
  eapply runs_mono; [by apply (c_addThreat_runs false)|]. intros [r|] s1 (Hw2 & Hg2 & H2); [steps; done|].
  destruct H2 as [-> H2].
  assert (forall r h, refs s !! r = Some h -> iRefFrom h = Some m -> iUnitGuid h <> victim) as Hnew.
  { intros r h Hr Hm. destruct (iOnline h) eqn:E; eauto. }
  change (runs (r ← new_HostileReference victim m f_zero; modify (upd_manager m (upd_online (c_addReference r))) ;;
    (rec r x ;; if game_master is_creature W victim then setOnlineOfflineState r false else mret tt)) s
    (fun _ s' => wf s' /\ grown P s s' /\ has s' m victim)).
  pose proof (new_runs victim m s Hw) as Hrun. unfold runs, mbind, M_bind in Hrun |- *.
  destruct (new_HostileReference victim m f_zero s) as [[r|e] s1]; [|done]. cbn in Hrun |- *.
  destruct Hrun as [-> Ha]. set (s2 := upd_manager m _ s1) in *.
  change (runs (rec (next_ref s) x ;; if game_master is_creature W victim then setOnlineOfflineState (next_ref s) false else mret tt)
    s2 (fun _ s' => wf s' /\ grown P s s' /\ has s' m victim)).
  assert (wf s2) as Hw3 by (by eapply wf_added).
  pose proof (grown_added P _ _ _ _ Hw allowed Ha) as Hg3.
  destruct (ad_refs _ _ _ _ Ha) as (h & Hrefs & Eu & Et & Em & Eo).
  assert (refs s2 !! next_ref s = Some h) as Hr by (by rewrite Hrefs, lookup_insert_eq).
  assert (has s2 m victim) as Hhas by (by exists (next_ref s), h).
  assert (refs s !! next_ref s = None) as Hfresh.
  { destruct (refs s !! next_ref s) eqn:E; [|done]. apply (wf_ref _ Hw) in E as [? _]. lia. }
  steps. eapply runs_mono; [by eapply rec_grows|]. intros [] s3 [Hw4 Hg4].
  pose proof (grown_trans _ _ _ _ Hg3 Hg4) as Hg5. pose proof (grown_has _ _ _ _ _ Hg4 Hhas) as Hhas5.
  destruct (game_master _ _ _); steps; [|done].
  destruct (gr_refs _ _ _ Hg4 _ _ Hr) as (h' & Hr' & (E1 & _ & E3) & Eo').
  eapply runs_mono; [eapply (setOnlineOfflineState_runs _ m); [done..|congruence]|].
  intros [] s4. cbn beta. destruct (Bool.eqb (iOnline h') false) eqn:E; [by intros ->|]. intros Hmv.
  split; [|split].
  - eapply (wf_moved _ h' m false s3); try done; [congruence|by rewrite Eo'].
  - by eapply grown_back.
  - destruct (moved_ref _ _ _ _ _ _ Hr' Hmv) as (h'' & Hr'' & (F1 & _ & F3) & _). exists (next_ref s), h''.
    split; [done|]. split; congruence.
Qed.
End Recursion.

(** ** Adding threat to a reference, and to its owners *)

Lemma no_redirect u : flt f_zero (calcThreat W u f_zero SPELL_SCHOOL_MASK_NORMAL None) = false.
Proof.
  cbn. unfold ApplyTotalThreatModifier. destruct (_ || _); [done|].
  by destruct (m_threatModifier _ _ _) as [[]|[]| |[]].
Qed.

Lemma isValidProcess_runs o m spell s :
  is_creature m = true -> runs (isValidProcess is_creature W o m spell) s (fun _ s' => s' = s).
Proof.
  intros Hm. unfold isValidProcess, assert. destruct o as [u|]; [|done].
  repeat (case_match; [done|]). by rewrite Hm.
Qed.

Definition owner (u o : guid) : Prop := GetCharmerOrOwner W u = Some o.

(** The owners of a unit are counted by [depth]. *)
Context (depth : guid -> nat).
Hypothesis depth_owner : forall u o, owner u o -> (depth o < depth u)%nat.

Lemma addThreat_grows (P : guid -> guid -> Prop) m fuel r x s h :
  (forall u o, P m u -> owner u o -> P m o) ->
  wf s -> refs s !! r = Some h -> iRefFrom h = Some m -> P m (iUnitGuid h) -> (depth (iUnitGuid h) < fuel)%nat ->
  grows P (addThreat is_creature W fuel r x) s.
Proof.
  intros Hclosed. revert r x s h. induction fuel as [|fuel IH]; intros r x s h Hw Hr Hm HP Hd; [lia|].
  cbn [addThreat]. unfold addThreat_body, grows. steps. set (s1 := upd_refs _ s).
  assert (refs s1 !! r = Some (set_threat (fadd (iThreat h) x) h)) as Hr1 by (cbn; by rewrite lookup_alter_eq, Hr).
  assert (wf s1) as Hw1 by (eapply wf_alike; [done|by apply alike_write]).
  assert (grown P s s1) as Hg1 by (by apply grown_write).
  set (h1 := set_threat _ _) in Hr1. steps.
  apply (runs_mono _ _ (fun _ s2 => wf s2 /\ grown P s s2)).
  { destruct (iOnline h1) eqn:Eo; [steps; done|].
    eapply runs_mono; [by eapply updateOnlineStatus_runs|]. intros [] s3 (s2 & b & Ht & Hb).
    assert (wf s2) as Hw2 by (eapply wf_alike; [done|by eapply retouched_alike]).
    assert (grown P s s2) as Hg2.
    { eapply grown_trans; [done|]. destruct Ht as [->|(b' & ->)]; [apply grown_refl|by apply grown_write]. }
    destruct (retouched_ref _ _ _ _ Hr1 Ht) as (h2 & Hr2 & (_ & _ & E3) & E4). rewrite Eo in Hb.
    destruct b; cbn in Hb; [|by subst s3]. split.
    - eapply (wf_moved r h2 m true); try done; [by rewrite E3|by rewrite E4].
    - eapply grown_trans; [done|by eapply grown_moved]. }
  intros [] s2 [Hw2 Hg2]. steps. destruct (gr_refs _ _ _ Hg2 _ _ Hr) as (h2 & Hr2 & (E1 & E2 & E3) & _).
  apply (runs_mono _ _ (fun _ s3 => wf s3 /\ grown P s s3)).
  { destruct (negb _); [|steps; done]. eapply runs_mono; [eapply (fire_change_runs r m x s2 h2); [done|congruence]|].
    intros [] s3 [->| ->]; [done|]. split.
    - eapply wf_alike; [done|by apply alike_dirtied].
    - eapply grown_trans; [done|apply grown_dirtied]. }
  intros [] s3 [Hw3 Hg3]. destruct (gr_refs _ _ _ Hg3 _ _ Hr) as (h3 & Hr3 & (F1 & F2 & F3) & _). steps.
  destruct (wf_ref _ Hw3 _ _ Hr3) as (_ & Et3 & m' & Em & Hc). assert (m' = m) as -> by congruence.
  rewrite Et3. destruct (fle _ _); [|steps; done].
  destruct (GetCharmerOrOwner W (iUnitGuid h3)) as [o|] eqn:Eo; [|steps; done].
  destruct (isAlive W o); [|steps; done]. unfold not_null. steps. rewrite Em. steps. unfold tm_addThreat. steps.
  eapply runs_mono; [by apply isValidProcess_runs|]. intros valid s4 ->. destruct valid; [|steps; done].
  unfold doAddThreat. rewrite no_redirect. cbn [andb].
  assert (owner (iUnitGuid h) o) as Ho by (unfold owner; congruence).
  eapply runs_mono; [eapply (_addThreat_runs _ P m o); [done|by eapply Hclosed| |done]|].
  - intros r' h' s' y Hw' Hr' Hm' <-. eapply IH; try done; [by eapply Hclosed|]. apply depth_owner in Ho. lia.
  - intros [] s4 (? & ? & _). split; [done|by eapply grown_trans].
Qed.
End Wf.
