(* ===== verification/ThreatSafety.v ===== *)
(** * Threat: no operation of a creature or a unit faults

    The loops over the lists of references, which change under them, end and
    touch no reference that is gone. *)

From S2P Require Import Prelude.
From S2P Require Import Float32.
From S2P Require Import Threat.
From S2P Require Import ThreatSpec.

(** ** Walks along lists that change *)

Lemma after_app r l1 l2 : r ∉ l1 -> after r (l1 ++ r :: l2) = head l2.
Proof.
  induction l1 as [|x l1 IH]; cbn; [by rewrite decide_True|].
  rewrite not_elem_of_cons. intros [Hx Hl]. rewrite decide_False by done. by apply IH.
Qed.

Lemma filter_split (r : ref) l1 l2 :
  NoDup (l1 ++ r :: l2) -> filter (fun x => x <> r) (l1 ++ r :: l2) = l1 ++ l2.
Proof.
  intros Hn%NoDup_app. destruct Hn as (_ & Hd & [Hr _]%NoDup_cons).
  rewrite filter_app, filter_cons_False by tauto.
  rewrite !filter_absent; [done|done|]. intros Hin. apply (Hd r Hin). by left.
Qed.

(** The owners of a unit, itself first. *)
Fixpoint ancestors (W : Units) (n : nat) (u : guid) : list guid :=
  u :: match n, GetCharmerOrOwner W u with S n, Some o => ancestors W n o | _, _ => [] end.

Lemma ancestors_length W n u : (length (ancestors W n u) <= S n)%nat.
Proof.
  revert u. induction n as [|n IH]; intros u; cbn; [lia|].
  destruct (GetCharmerOrOwner W u) as [o|]; cbn; [specialize (IH o)|]; lia.
Qed.

Section Safety.
Context (is_creature : guid -> bool) (W : Units) (fuel : nat) (depth : guid -> nat).
Hypothesis depth_owner : forall u o, owner W u o -> (depth o < depth u)%nat.
Hypothesis deep_enough : forall u, (depth u < fuel)%nat.

Abbreviation wf := (ThreatSpec.wf is_creature).
Abbreviation grows := (ThreatSpec.grows is_creature).

Lemma ancestors_closed n u v o :
  (depth u <= n)%nat -> v ∈ ancestors W n u -> owner W v o -> o ∈ ancestors W n u.
Proof.
  revert u. induction n as [|n IH]; intros u Hd Hv Ho; cbn in Hv |- *.
  - apply list_elem_of_singleton in Hv as ->. apply depth_owner in Ho. lia.
  - apply elem_of_cons in Hv as [->|Hv].
    + unfold owner in Ho. rewrite Ho. right. destruct n; left.
    + destruct (GetCharmerOrOwner W u) as [w|] eqn:E; [|by apply not_elem_of_nil in Hv].
      right. apply IH; [|done|done]. apply depth_owner in E. lia.
Qed.

Definition safe {A} (m : T A) (s : Threats) : Prop := runs m s (fun _ s' => wf s').
Definition anyone : guid -> guid -> Prop := fun _ _ => True.

Lemma grows_safe P {A} (m : T A) s : grows P m s -> safe m s.
Proof. intros H. eapply runs_mono; [exact H|]. by intros a s' [? _]. Qed.

Lemma wf_lookup c s m r : wf s -> r ∈ listed c s m -> exists h, refs s !! r = Some h /\ iRefFrom h = Some m /\ iOnline h = c.
Proof. intros Hw. apply (wf_listed _ _ Hw). Qed.

(** ** One reference *)
Section Reference.
Context (P : guid -> guid -> Prop) (m : guid) (r : ref).
Hypothesis closed : forall u o, P m u -> owner W u o -> P m o.

(** The reference is there, and links [m] to a unit of [P]. *)
Definition here (s : Threats) : Prop :=
  exists h, refs s !! r = Some h /\ iRefFrom h = Some m /\ P m (iUnitGuid h).

Lemma here_grown s s' : grown P s s' -> here s -> here s'.
Proof.
  intros Hg (h & Hr & Hm & Hp). destruct (gr_refs _ _ _ Hg _ _ Hr) as (h' & Hr' & (E1 & _ & E3) & _).
  exists h'. by rewrite E1, E3.
Qed.

Lemma add_grows x s : wf s -> here s -> grows P (add is_creature W fuel r x) s.
Proof. intros Hw (h & Hr & Hm & Hp). by eapply addThreat_grows. Qed.

Lemma write_grows f s :
  wf s -> here s -> (forall h, same_links h (f h) /\ iOnline (f h) = iOnline h) -> grows P (write r f) s.
Proof.
  intros Hw (h & Hr & _) Hf. unfold ThreatSpec.grows. steps. split.
  - eapply wf_alike; [done|by apply (alike_write is_creature)].
  - by apply grown_write.
Qed.

Lemma grows_bind {A B} (p : T A) (k : A -> T B) s :
  grows P p s -> (forall a s', wf s' -> grown P s s' -> grows P (k a) s') -> grows P (p ≫= k) s.
Proof.
  intros Hp Hk. unfold ThreatSpec.grows. steps. eapply runs_mono; [exact Hp|]. intros a s1 [Hw1 Hg1].
  eapply runs_mono; [by apply Hk|]. intros b s2 [Hw2 Hg2]. split; [done|by eapply grown_trans].
Qed.

Lemma grows_ret {A} (a : A) s : wf s -> grows P (mret a) s.
Proof. intros Hw. split; [done|apply grown_refl]. Qed.

Lemma grows_deref {A} (k : HostileReference -> T A) s :
  here s -> (forall h, grows P (k h) s) -> grows P (h ← deref r; k h) s.
Proof. intros (h & Hr & _) Hk. unfold ThreatSpec.grows. steps. apply Hk. Qed.

Lemma setThreat_grows x s : wf s -> here s -> grows P (setThreat is_creature W fuel r x) s.
Proof. intros Hw Hh. apply grows_deref; [done|]. intros h. by apply add_grows. Qed.

Lemma addThreatPercent_grows x s : wf s -> here s -> grows P (addThreatPercent is_creature W fuel r x) s.
Proof. intros Hw Hh. apply grows_deref; [done|]. intros h. by apply add_grows. Qed.

Lemma addTempThreat_grows x s : wf s -> here s -> grows P (addTempThreat is_creature W fuel r x) s.
Proof.
  intros Hw Hh. apply grows_bind; [by apply write_grows|]. intros [] s1 Hw1 Hg1.
  destruct (negb _); [|by apply grows_ret]. apply add_grows; [done|by eapply here_grown].
Qed.

Lemma setTempThreat_grows x s : wf s -> here s -> grows P (setTempThreat is_creature W fuel r x) s.
Proof. intros Hw Hh. apply grows_deref; [done|]. intros h. by apply addTempThreat_grows. Qed.

Lemma resetTempThreat_grows s : wf s -> here s -> grows P (resetTempThreat is_creature W fuel r) s.
Proof.
  intros Hw Hh. apply grows_deref; [done|]. intros h. destruct (negb _); [|by apply grows_ret].
  apply grows_bind; [by apply add_grows|]. intros [] s1 Hw1 Hg1.
  apply write_grows; [done|by eapply here_grown|done].
Qed.
End Reference.

(** ** Threat of a creature *)

Lemma doAddThreat_grows m u x s :
  is_creature m = true -> wf s -> runs (doAddThreat is_creature W (add is_creature W fuel) m u x) s
    (fun _ s' => wf s' /\ grown anyone s s' /\ has s' m u).
Proof.
  intros Hm Hw. unfold doAddThreat.
  assert (forall v y s, wf s -> runs (_addThreat is_creature W (add is_creature W fuel) m v y) s
    (fun _ s' => wf s' /\ grown anyone s s' /\ has s' m v)) as Hadd.
  { intros v y s1 Hw1. apply _addThreat_runs; [done|done| |done].
    intros r h s2 z Hw2 Hr Hfrom Hu. apply (add_grows anyone m r); [done|done|by exists h]. }
  destruct (_ && _); [|by apply Hadd]. destruct (GetMisdirectionTarget W u) as [t|]; steps; [|by apply Hadd].
  eapply runs_mono; [by apply Hadd|]. intros [] s1 (Hw1 & Hg1 & _).
  eapply runs_mono; [by apply Hadd|]. intros [] s2 (Hw2 & Hg2 & ?). split_and!; [done|by eapply grown_trans|done].
Qed.

Lemma tm_addThreat_grows m u x school spell s :
  is_creature m = true -> wf s -> grows anyone (tm_addThreat is_creature W (add is_creature W fuel) m u x school spell) s.
Proof.
  intros Hm Hw. unfold tm_addThreat, ThreatSpec.grows. steps. eapply runs_mono; [by apply isValidProcess_runs|].
  intros valid s' ->. destruct u as [u|]; [|by apply grows_ret]. destruct valid; [|by apply grows_ret].
  eapply runs_mono; [by apply doAddThreat_grows|]. by intros a s' (? & ? & ?).
Qed.

Lemma here_anyone s r h : wf s -> refs s !! r = Some h -> exists m, here anyone m r s.
Proof. intros Hw Hr. destruct (wf_ref _ _ Hw _ _ Hr) as (_ & _ & m & Hm & _). exists m, h. done. Qed.

(** ** The loops over the online list *)

Definition units_of (m : guid) (s : Threats) : list guid :=
  omap (fun r => iUnitGuid <$> refs s !! r) (online s m).

(** A creature has one reference to a unit at most: its list is no longer than
    the units it may link. *)
Lemma online_short m G s :
  wf s -> (forall r h, refs s !! r = Some h -> iRefFrom h = Some m -> iUnitGuid h ∈ G) ->
  (length (online s m) <= length G)%nat.
Proof.
  intros Hw HG.
  assert (NoDup (units_of m s) /\ length (units_of m s) = length (online s m) /\ forall u, u ∈ units_of m s -> u ∈ G) as (Hn & <- & Hin).
  { unfold units_of. pose proof (wf_listed_once _ _ Hw true m) as Hnd. cbn in Hnd.
    assert (forall r, r ∈ online s m -> exists h, refs s !! r = Some h /\ iRefFrom h = Some m) as Hl.
    { intros r Hr. apply (wf_lookup true) in Hr as (h & ? & ? & _); [eauto|done]. }
    revert Hnd Hl. generalize (online s m). intros l Hnd Hl. induction Hnd as [|r l Hr Hnd IH]; cbn.
    - split_and!; [constructor|done|by intros u ?%not_elem_of_nil].
    - destruct (Hl r ltac:(by left)) as (h & Hh & Hm). rewrite Hh. cbn.
      destruct IH as (I1 & I2 & I3); [intros x Hx; apply Hl; by right|]. split_and!; [|by rewrite I2|].
      + constructor; [|done]. intros (x & Hx & Hx')%list_elem_of_omap. apply Hr.
        destruct (Hl x ltac:(by right)) as (hx & Hhx & Hmx). rewrite Hhx in Hx'. injection Hx' as E.
        by rewrite (wf_unique _ _ Hw r x h hx Hh Hhx ltac:(congruence) ltac:(congruence)).
      + intros u [->|Hu]%elem_of_cons; [by eapply HG|by apply I3]. }
  by apply (NoDup_submseteq _ G) in Hn; [apply submseteq_length|].
Qed.

Section Online.
Context (m : guid) (body : ref -> T unit) (P : guid -> guid -> Prop) (G : list guid).
Hypothesis P_G : forall u, P m u <-> u ∈ G.
Hypothesis body_grows : forall r s, wf s -> here P m r s -> grows P (body r) s.

Definition within (s : Threats) : Prop :=
  forall r h, refs s !! r = Some h -> iRefFrom h = Some m -> iUnitGuid h ∈ G.

Lemma within_grown s s' : wf s' -> grown P s s' -> within s -> within s'.
Proof.
  intros Hw' Hg Hin r h' Hr' Hm. destruct (refs s !! r) as [h|] eqn:E.
  - destruct (gr_refs _ _ _ Hg _ _ E) as (h0 & H0 & (E1 & _ & E3) & _). assert (h0 = h') as -> by congruence.
    rewrite E1. eapply Hin; [done|congruence].
  - destruct (gr_new _ _ _ Hg _ _ Hr' E) as (k & Hk & Hp). assert (k = m) as -> by congruence. by apply P_G.
Qed.

Lemma for_online_runs turns s past rest :
  wf s -> within s -> online s m = past ++ rest -> (length G - length past <= turns)%nat ->
  runs (for_online turns m body (head rest)) s (fun _ s' => wf s' /\ grown P s s').
Proof.
  revert s past rest. induction turns as [|turns IH]; intros s past rest Hw Hin Hl Ht;
    (destruct rest as [|r rest]; [cbn; steps; split; [done|apply grown_refl]|]);
    pose proof (online_short m G s Hw Hin) as Hlen; rewrite Hl, length_app in Hlen; cbn [length] in Hlen; [lia|].
  cbn [head for_online]. steps.
  assert (r ∈ online s m) as Hr by (rewrite Hl; apply elem_of_app; right; left).
  destruct (wf_lookup true _ _ _ Hw Hr) as (h & Hh & Hm & _).
  eapply runs_mono; [apply body_grows; [done|]; exists h; split_and!; [done|done|]; by apply P_G, (Hin r)|].
  intros [] s1 [Hw1 Hg1]. steps. destruct (gr_online _ _ _ Hg1 m) as [post Hp].
  assert (online s1 m = past ++ r :: (rest ++ post)) as Hl1 by (rewrite Hp, Hl, <- app_assoc; done).
  rewrite Hl1, after_app.
  - eapply runs_mono; [eapply (IH s1 (past ++ [r])); [done|by eapply within_grown| |]|].
    + by rewrite Hl1, <- app_assoc.
    + rewrite length_app. cbn. lia.
    + intros [] s2 [Hw2 Hg2]. split; [done|by eapply grown_trans].
  - pose proof (wf_listed_once _ _ Hw1 true m) as Hn. cbn in Hn. rewrite Hl1 in Hn.
    apply NoDup_app in Hn as (_ & Hd & _). intros Hr'. apply (Hd r Hr'). by left.
Qed.
End Online.

(** The units a creature's references link, with their owners. *)
Definition reach (s : Threats) : list guid :=
  flat_map (fun p => ancestors W (pred fuel) (iUnitGuid p.2)) (map_to_list (refs s)).

Lemma reach_length s : (length (reach s) <= list_turns fuel s)%nat.
Proof.
  unfold reach, list_turns. rewrite <- (length_map_to_list (refs s)). induction (map_to_list (refs s)) as [|p l IH]; [done|].
  cbn [flat_map length]. rewrite length_app. pose proof (ancestors_length W (pred fuel) (iUnitGuid p.2)).
  assert (S (pred fuel) <= S fuel)%nat by lia. lia.
Qed.

Lemma reach_spec s u : u ∈ reach s <-> exists r h, refs s !! r = Some h /\ u ∈ ancestors W (pred fuel) (iUnitGuid h).
Proof.
  unfold reach. rewrite list_elem_of_In, in_flat_map. split.
  - intros ([r h] & Hp & Hu). exists r, h. rewrite <- elem_of_map_to_list. by rewrite !list_elem_of_In.
  - intros (r & h & Hr & Hu). exists (r, h). by rewrite <- !list_elem_of_In, elem_of_map_to_list.
Qed.

Lemma online_loop_safe m body s :
  wf s ->
  (forall P r s, (forall u o, P m u -> owner W u o -> P m o) -> wf s -> here P m r s -> grows P (body r) s) ->
  safe (for_online (list_turns fuel s) m body (head (online s m))) s.
Proof.
  intros Hw Hbody. apply (grows_safe (fun _ u => u ∈ reach s)).
  eapply (for_online_runs m body (fun _ u => u ∈ reach s) (reach s) ltac:(done)) with (past := []).
  - intros r s1 Hw1 Hh. apply Hbody; [|done|done]. intros u o (x & h & Hx & Hu)%reach_spec Ho. apply reach_spec.
    exists x, h. split; [done|]. eapply ancestors_closed; [|done|done]. specialize (deep_enough (iUnitGuid h)). lia.
  - done.
  - intros r h Hr Hm. apply reach_spec. exists r, h. split; [done|]. destruct (pred fuel); left.
  - done.
  - cbn. pose proof (reach_length s). lia.
Qed.

Lemma dirtied_grows P m b s : wf s -> grows P (setDirty m b) s.
Proof.
  intros Hw. unfold ThreatSpec.grows, setDirty. steps. split; [|apply grown_dirtied].
  eapply wf_alike; [done|by apply (alike_dirtied is_creature)].
Qed.

Lemma resetAllAggro_safe m s : wf s -> safe (resetAllAggro is_creature W fuel m) s.
Proof.
  intros Hw. unfold resetAllAggro, safe. steps. destruct (isThreatListEmpty s m); [by steps|]. steps.
  eapply runs_mono; [apply online_loop_safe; [done|]|].
  - intros P r s1 Hc Hw1 Hh. by apply (setThreat_grows P m).
  - intros [] s1 Hw1. by apply (grows_safe anyone), dirtied_grows.
Qed.

Lemma resetAggro_safe p m s : wf s -> safe (resetAggro is_creature W fuel p m) s.
Proof.
  intros Hw. unfold resetAggro, safe. steps. destruct (isThreatListEmpty s m); [by steps|].
  apply online_loop_safe; [done|]. intros P r s1 Hc Hw1 Hh. apply (grows_deref P m r); [done|].
  intros h. destruct (p (iRefTo h)); [|by apply grows_ret].
  apply grows_bind; [by apply (setThreat_grows P m)|]. intros [] s2 Hw2 Hg2. by apply dirtied_grows.
Qed.

(** ** Clearing a list *)

(** The references of a list are gone. *)
Record gone (l : list ref) (s s' : Threats) : Prop := {
  gn_refs : forall r h, refs s' !! r = Some h <-> refs s !! r = Some h /\ r ∉ l;
  gn_hated : forall u r, r ∈ hated_by s' u <-> r ∈ hated_by s u /\ r ∉ l;
  gn_once : forall u, NoDup (hated_by s u) -> NoDup (hated_by s' u);
  gn_next : next_ref s' = next_ref s
}.

(** What the loop that clears a list needs of the references left. *)
Definition linked (s : Threats) (l : list ref) : Prop :=
  forall r, r ∈ l -> exists h u, refs s !! r = Some h /\ iRefTo h = Some u /\ forall w, r ∈ hated_by s w -> w = u.

Lemma wf_linked s m c : wf s -> linked s (listed c s m).
Proof.
  intros Hw r Hr. destruct (wf_lookup _ _ _ _ Hw Hr) as (h & Hh & _). exists h, (iUnitGuid h).
  destruct (wf_ref _ _ Hw _ _ Hh) as (_ & Et & _). split_and!; [done|done|].
  intros w Hin. apply (wf_hated _ _ Hw) in Hin as (h' & H' & Hu). congruence.
Qed.

Lemma clear_one_runs r s :
  linked s [r] -> runs (unlink r ;; delete_ref r) s (fun _ s' => gone [r] s s' /\ managers s' = managers s).
Proof.
  intros Hl. destruct (Hl r ltac:(by left)) as (h & u & Hr & Hu & Hw).
  unfold unlink, not_null, delink. steps. rewrite Hu. steps. set (s1 := upd_hated u _ s).
  assert (refs s1 !! r = Some h) as Hr1 by done. steps. set (s2 := upd_refs _ s1).
  assert (refs s2 !! r = Some (set_link None None h)) as Hr2 by (cbn; by rewrite lookup_alter_eq, Hr).
  unfold delete_ref, delink. steps. cbn [iRefTo set_link]. steps.
  assert (forall w, hated_by (upd_refs (base.delete r) s2) w = hated_by s1 w) as E by done.
  split; [|done]. split; cbn [refs upd_refs].
  - intros x h'. subst s2 s1. cbn. rewrite delete_alter_eq, lookup_delete_Some, list_elem_of_singleton. split; intros [? ?]; by split.
  - intros w x. rewrite E. subst s1. rewrite hated_upd. destruct (decide (w = u)) as [->|Hn].
    + rewrite list_elem_of_filter, list_elem_of_singleton. tauto.
    + rewrite list_elem_of_singleton. split; [|tauto]. intros Hx. split; [done|]. intros ->. by apply Hw in Hx.
  - intros w Hn. rewrite E. subst s1. rewrite hated_upd. destruct (decide (w = u)) as [->|]; [by apply NoDup_filter|done].
  - done.
Qed.

Lemma gone_app l1 l2 s1 s2 s3 : gone l1 s1 s2 -> gone l2 s2 s3 -> gone (l1 ++ l2) s1 s3.
Proof.
  intros [R1 H1 O1 N1] [R2 H2 O2 N2]. split; [| |auto|congruence].
  - intros r h. rewrite R2, R1, not_elem_of_app. tauto.
  - intros u r. rewrite H2, H1, not_elem_of_app. tauto.
Qed.

Lemma clear_all_runs l s :
  NoDup l -> linked s l -> runs (mapM_ (fun r => unlink r ;; delete_ref r) l) s (fun _ s' => gone l s s' /\ managers s' = managers s).
Proof.
  intros Hn. revert s. induction Hn as [|r l Hr Hn IH]; intros s Hl; cbn [mapM_].
  - apply runs_ret. split; [|done]. split; try done; intros; (split; [intros ?; split; [done|apply not_elem_of_nil]|tauto]).
  - apply runs_bind. eapply runs_mono; [apply clear_one_runs|].
    + intros x ->%list_elem_of_singleton. apply Hl. by left.
    + intros [] s1 [H1 M1]. eapply runs_mono; [apply IH|].
      * intros x Hx. destruct (Hl x ltac:(by right)) as (h & u & Hh & Hu & Hw). exists h, u.
        split_and!; [|done|].
        -- apply (gn_refs _ _ _ H1). split; [done|]. intros ->%list_elem_of_singleton. done.
        -- intros w Hxw. apply (gn_hated _ _ _ H1) in Hxw as [Hxw _]. by apply Hw.
      * intros [] s2 [H2 M2]. split; [by apply (gone_app [r] l s s1 s2)|congruence].
Qed.

Lemma linked_gone l l' s s' : (forall r, r ∈ l -> r ∉ l') -> gone l' s s' -> linked s l -> linked s' l.
Proof.
  intros Hd Hg Hl r Hr. destruct (Hl r Hr) as (h & u & Hh & Hu & Hw). exists h, u. split_and!; [|done|].
  - apply (gn_refs _ _ _ Hg). split; [done|]. by apply Hd.
  - intros w Hin. apply (gn_hated _ _ _ Hg) in Hin as [Hin _]. by apply Hw.
Qed.

Lemma listed_managers s s' : managers s' = managers s -> (forall c m, listed c s' m = listed c s m) /\ forall m, victim s' m = victim s m.
Proof.
  intros E. assert (forall m, manager s' m = manager s m) as Em by (intros m; unfold manager; by rewrite E).
  split; [intros [] m|intros m]; unfold listed, online, offline, victim; by rewrite Em.
Qed.

Lemma listed_disjoint s m : wf s -> forall r, r ∈ listed false s m -> r ∉ listed true s m.
Proof.
  intros Hw r H1 H2. destruct (wf_lookup _ _ _ _ Hw H1) as (h1 & ? & _ & ?).
  destruct (wf_lookup _ _ _ _ Hw H2) as (h2 & ? & _ & ?). congruence.
Qed.

(** A store without the references of a creature is well formed, when the
    creature's lists and victim are forgotten. *)
Lemma wf_gone m s s' :
  wf s ->
  (forall r h, refs s' !! r = Some h <-> refs s !! r = Some h /\ r ∉ listed true s m ++ listed false s m) ->
  (forall u r, r ∈ hated_by s' u <-> r ∈ hated_by s u /\ r ∉ listed true s m ++ listed false s m) ->
  (forall u, NoDup (hated_by s' u)) -> next_ref s' = next_ref s ->
  (forall c k, listed c s' k = if decide (k = m) then [] else listed c s k) ->
  (forall k v, victim s' k = Some v -> k <> m /\ victim s k = Some v) ->
  wf s'.
Proof.
  intros Hw R H O N Hl Hv.
  assert (forall r h, refs s' !! r = Some h <-> refs s !! r = Some h /\ iRefFrom h <> Some m) as Hrefs.
  { intros r h. rewrite R, not_elem_of_app. split.
    - intros [Hr [H1 H2]]. split; [done|]. intros Hm.
      destruct (iOnline h) eqn:E; [apply H1|apply H2]; apply (wf_listed _ _ Hw); eauto.
    - intros [Hr Hm]. split; [done|].
      split; intros Hin; apply (wf_lookup _ _ _ _ Hw) in Hin as (h' & ? & ? & _); congruence. }
  split.
  - intros r h [Hr _]%Hrefs. rewrite N. by apply wf_ref.
  - intros c k r. rewrite Hl. destruct (decide (k = m)) as [->|Hk].
    + split; [by intros ?%not_elem_of_nil|]. intros (h & [_ Hr]%Hrefs & Hm & _). done.
    + rewrite (wf_listed _ _ Hw). split; intros (h & Hr & Hm & Hc); exists h.
      * split; [|done]. apply Hrefs. split; [done|congruence].
      * apply Hrefs in Hr as [Hr _]. done.
  - intros u r. rewrite H, (wf_hated _ _ Hw). split.
    + intros [(h & Hr & Hu) Hn]. exists h. split; [|done]. by apply (R r h).
    + intros (h & Hr & Hu). apply (R r h) in Hr as [Hr Hn]. eauto.
  - intros c k. rewrite Hl. destruct (decide _); [apply NoDup_nil_2|by apply (wf_listed_once _ _ Hw)].
  - done.
  - intros k v [Hk Hkv]%Hv. change (v ∈ listed true s' k). rewrite Hl, decide_False by done. by apply (wf_victim _ _ Hw).
  - intros r1 r2 h1 h2 [H1 _]%Hrefs [H2 _]%Hrefs. by eapply wf_unique.
Qed.

Lemma clearReferences_safe m s : wf s -> safe (clearReferences m) s.
Proof.
  intros Hw. unfold safe, clearReferences, c_clearReferences. steps.
  eapply runs_mono; [apply (clear_all_runs (listed true s m)); [by apply (wf_listed_once _ _ Hw)|by apply wf_linked]|].
  intros [] s1 [H1 M1]. steps. set (s2 := upd_manager m _ s1).
  destruct (listed_managers _ _ M1) as [El Ev].
  assert (listed false s2 m = listed false s m) as E.
  { rewrite <- El. unfold s2. look; done. }
  eapply runs_mono; [apply (clear_all_runs (listed false s2 m))|].
  - rewrite E. by apply (wf_listed_once _ _ Hw).
  - rewrite E. eapply (linked_gone _ _ s s1); [by apply listed_disjoint|done|by apply wf_linked].
  - rewrite E. intros [] s3 [H3 M3]. steps. destruct (listed_managers _ _ M3) as [El3 Ev3].
    destruct (gone_app _ _ _ s1 _ H1 (Build_gone _ s1 s3 (gn_refs _ _ _ H3) (gn_hated _ _ _ H3) (gn_once _ _ _ H3)
      (gn_next _ _ _ H3))) as [R H O N].
    apply (wf_gone m s); [done|done|done| |done| |].
    + intros u. apply (O u). by apply (wf_hated_once _ _ Hw).
    + intros c k. specialize (El3 c k). specialize (El c k). unfold s2 in El3. destruct c; look; congruence.
    + intros k v. specialize (Ev3 k). specialize (Ev k). unfold s2 in Ev3. look; try done. intros. split; congruence.
Qed.

(** ** The victim *)

Lemma deref_all_runs l s :
  (forall r, r ∈ l -> is_Some (refs s !! r)) ->
  runs (deref_all l) s (fun k s' => s' = s /\ k.*1 = l /\ forall p, p ∈ k -> refs s !! p.1 = Some p.2).
Proof.
  induction l as [|r l IH]; intros Hl; cbn [deref_all].
  - steps. split_and!; [done|done|]. by intros p ?%not_elem_of_nil.
  - destruct (Hl r ltac:(by left)) as [h Hr]. steps. eapply runs_mono; [apply IH; intros x Hx; apply Hl; by right|].
    intros k s' (-> & <- & Hk). steps. split_and!; [done|done|]. intros p [->|Hp]%elem_of_cons; [done|by apply Hk].
Qed.

Lemma online_refs m s : wf s -> forall r, r ∈ online s m -> is_Some (refs s !! r).
Proof. intros Hw r Hr. apply (wf_lookup true) in Hr as (h & ? & _); [by exists h|done]. Qed.

Lemma insert_ref_perm x l : insert_ref x l ≡ₚ x :: l.
Proof.
  induction l as [|y l IH]; cbn; [done|]. destruct (flt _ _); [|done]. rewrite IH. apply Permutation_swap.
Qed.

Lemma sort_refs_perm l : sort_refs l ≡ₚ l.
Proof. induction l as [|x l IH]; cbn; [done|]. by rewrite insert_ref_perm, IH. Qed.

(** The online list is put in another order, and the victim set to one of it. *)
Lemma alike_manager m f s :
  wf s -> (forall c, listed c (upd_manager m f s) m ≡ₚ listed c s m) ->
  (forall v, victim (upd_manager m f s) m = Some v -> v ∈ online s m) -> alike s (upd_manager m f s).
Proof.
  intros Hw Hl Hv. split; try done.
  - intros r. cbn. by destruct (refs s !! r).
  - intros c k. destruct (decide (k = m)) as [->|Hk]; [apply Hl|]. destruct c; look; done.
  - intros k v Hkv. destruct (decide (k = m)) as [->|Hk]; [by apply Hv|].
    apply (wf_victim _ _ Hw). revert Hkv. look; done.
Qed.

Lemma c_update_runs m s : wf s -> runs (c_update m) s (fun _ s' => alike s s').
Proof.
  intros Hw. unfold c_update. steps. apply (runs_mono _ _ (fun _ s' => alike s s')).
  - destruct (_ && _); [|steps; by apply (alike_refl is_creature)]. steps.
    eapply runs_mono; [apply deref_all_runs; by apply online_refs|]. intros l s' (-> & Hl & _). steps.
    apply alike_manager; [done| |].
    + intros c. destruct c; look; try done. rewrite <- Hl. by rewrite sort_refs_perm.
    + intros v Hv. apply (wf_victim _ _ Hw). revert Hv. look; done.
  - intros [] s1 Ha. unfold setDirty. steps. eapply alike_trans; [done|].
    apply (alike_dirtied is_creature). by eapply wf_alike.
Qed.

Lemma setCurrentVictim_runs m v s :
  wf s -> (forall r, v = Some r -> r ∈ online s m) ->
  runs (setCurrentVictim m v) s (fun _ s' => (alike s s' /\ refs s' = refs s) /\ victim s' m = v /\ online s' m = online s m).
Proof.
  intros Hw Hv. unfold setCurrentVictim. steps.
  apply (runs_mono _ _ (fun _ s' => alike s s' /\ refs s' = refs s /\ online s' m = online s m /\ forall c, listed c s' m = listed c s m)).
  - assert (alike s s) as Ha by (by apply (alike_refl is_creature)).
    destruct v as [r|]; [|steps; done]. case_bool_decide; [steps; done|].
    destruct (online_refs m s Hw r (Hv _ eq_refl)) as [h Hr].
    unfold SendChangeCurrentVictimOpcode. steps. destruct (isThreatListEmpty s m); [steps; done|]. steps.
    eapply runs_mono; [apply deref_all_runs; by apply online_refs|]. intros l s' (-> & _ & _). steps.
    split_and!; try done. destruct Ha as [A1 A2 A3 A4 A5]. by split.
  - intros [] s1 (Ha & Hr & Ho & Hl). steps. split; [split; [|done]|split; [look; done|look; done]].
    eapply alike_trans; [done|].
    assert (wf s1) as Hw1 by (by eapply wf_alike). apply alike_manager; [done| |].
    + intros c. destruct c; look; done.
    + intros x Hx. rewrite Ho. apply Hv. revert Hx. look; done.
Qed.

Definition valid (p : ref * HostileReference) : Prop := is_Some (iRefTo p.2).

Lemma select_loop_ok attacker whole turns rest v (noPriority : bool) :
  (forall p, p ∈ whole -> valid p) -> (forall p, p ∈ rest -> p ∈ whole) -> (forall p, v = Some p -> valid p) ->
  (length rest + (if noPriority then 0 else length whole) <= turns)%nat ->
  exists o, select_loop W turns attacker whole rest v noPriority = Ok o /\
    forall r, o = Some r -> r ∈ whole.*1 \/ fst <$> v = Some r.
Proof.
  intros Hwhole. revert rest v noPriority. induction turns as [|turns IH]; intros rest v noPriority Hin Hv Ht;
    (destruct rest as [|[r h] rest]; [by exists None|]); cbn [length] in Ht; [lia|].
  assert ((r, h) ∈ whole) as Hr by (apply Hin; left).
  assert (r ∈ whole.*1) as Hr' by (apply list_elem_of_fmap; by exists (r, h)).
  destruct (Hwhole _ Hr) as [t Et]. cbn [snd] in Et. cbn [select_loop]. rewrite Et.
  assert (forall p, p ∈ rest -> p ∈ whole) as Hrest by (intros p Hp; apply Hin; by right).
  assert (exists o, select_loop W turns attacker whole rest v noPriority = Ok o /\
    forall r, o = Some r -> r ∈ whole.*1 \/ fst <$> v = Some r) as Hnext by (apply IH; [done|done|lia]).
  destruct (negb noPriority && second_choice W t attacker) eqn:E1.
  - destruct noPriority; [done|]. destruct rest as [|p rest].
    + apply IH; [done|done|cbn [length] in Ht; lia].
    + match goal with |- exists o, select_loop _ _ _ _ _ ?v' _ = _ /\ _ => set (v1 := v') end.
      destruct (IH (p :: rest) v1 false) as (o & Ho & Hor); [done| |lia|].
      * intros q Hq. apply Hv. subst v1. by destruct (bool_decide _).
      * exists o. split; [done|]. intros x Hx. destruct (Hor x Hx) as [|Hq]; [by left|]. right. subst v1.
        by destruct (bool_decide _).
  - destruct (canCreatureAttack W attacker t); [|done].
    destruct v as [[w hw]|]; [|exists (Some r); split; [done|]; intros x [= <-]; by left].
    destruct ((w =? r) || not_above _ _).
    + destruct (w =? r); [exists (Some r); split; [done|]; intros x [= <-]; by left|].
      destruct (Hv _ eq_refl) as [tw Etw]. cbn [snd] in Etw. rewrite Etw.
      eexists. split; [done|]. intros x [= <-]. destruct (canCreatureAttack W attacker tw); [by right|by left].
    + destruct (takes_over _ _ _ _ _); [|done]. exists (Some r). split; [done|]. intros x [= <-]. by left.
Qed.

Lemma selectNextVictim_ok attacker l v :
  l <> [] -> (forall p, p ∈ l -> valid p) -> (forall p, v = Some p -> p ∈ l) ->
  exists o, selectNextVictim W attacker l v = Ok o /\ forall r, o = Some r -> r ∈ l.*1.
Proof.
  intros Hl Hval Hv. unfold selectNextVictim. destruct l as [|p l]; [done|].
  destruct (select_loop_ok attacker (p :: l) (2 * length (p :: l)) (p :: l) v false) as (o & -> & Ho); try done; [auto|lia|].
  exists o. split; [done|]. intros r Hr. destruct (Ho r Hr) as [|Hq]; [done|].
  destruct v as [q|]; [|done]. injection Hq as <-. apply list_elem_of_fmap. exists q. auto.
Qed.

(** The list and the victim as the selection reads them. *)
Lemma read_list_runs m s (Q : list (ref * HostileReference) -> Threats -> Prop) :
  wf s ->
  (forall l, l.*1 = online s m -> (forall p, p ∈ l -> refs s !! p.1 = Some p.2 /\ valid p) -> Q l s) ->
  runs (deref_all (online s m)) s Q.
Proof.
  intros Hw HQ. eapply runs_mono; [apply deref_all_runs; by apply online_refs|].
  intros l s' (-> & Hl & Hp). apply HQ; [done|]. intros p Hin. split; [by apply Hp|].
  destruct (wf_ref _ _ Hw _ _ (Hp _ Hin)) as (_ & Et & _). by exists (iUnitGuid p.2).
Qed.

Lemma getHostilTarget_safe m s : wf s -> isThreatListEmpty s m = false -> safe (getHostilTarget W m) s.
Proof.
  intros Hw He. unfold safe, getHostilTarget. steps. eapply runs_mono; [by apply c_update_runs|].
  intros [] s1 Ha. assert (wf s1) as Hw1 by (by eapply wf_alike). steps.
  apply read_list_runs; [done|]. intros l Hl Hp. steps.
  assert (l <> []) as Hne.
  { intros ->. pose proof (al_listed _ _ Ha true m) as E. cbn in E. rewrite <- Hl in E. apply Permutation_nil in E.
    unfold isThreatListEmpty in He. by rewrite E in He. }
  apply (runs_mono _ _ (fun (v : option (ref * HostileReference)) s' => s' = s1 /\ forall p, v = Some p -> p ∈ l)).
  { destruct (iCurrentVictim (manager s1 m)) as [v|] eqn:Ev; [|by steps].
    pose proof (wf_victim _ _ Hw1 _ _ Ev) as Hin. rewrite <- Hl in Hin. apply list_elem_of_fmap in Hin as ([v' h] & -> & Hin).
    destruct (Hp _ Hin) as [Hr _]. cbn in Hr |- *. steps. split; [done|]. by intros p [= <-]. }
  intros v s2 [-> Hv]. steps.
  destruct (selectNextVictim_ok m l v Hne) as (o & -> & Ho); [intros p Hin; by apply Hp|done|]. steps.
  assert (forall r, o = Some r -> r ∈ online s1 m) as Ho' by (intros r Hr; rewrite <- Hl; by apply Ho).
  eapply runs_mono; [by apply setCurrentVictim_runs|]. intros [] s2 [[Ha2 Hr2] _].
  assert (wf s2) as Hw2 by (by eapply wf_alike). destruct o as [r|]; [|by steps].
  destruct (online_refs m s1 Hw1 r (Ho' _ eq_refl)) as [h Hr]. rewrite <- Hr2 in Hr. by steps.
Qed.

(** ** The loops over the references to a unit *)

(** What is left of the walk after the work on a reference. *)
Definition walked (u : guid) (rest : list ref) : option ref -> Threats -> Prop := fun n s' =>
  wf s' /\ (n = None \/ n = head rest /\ exists pre', hated_by s' u = pre' ++ rest).

(** What the body of such a loop does at a reference: it keeps the store well
    formed and goes on with the next one, or ends the loop. *)
Definition walks (u : guid) (body : ref -> T (option ref)) : Prop :=
  forall s pre r rest, wf s -> hated_by s u = pre ++ r :: rest ->
  runs (body r) s (walked u rest).

Lemma while_refs_safe u body turns s pre rest :
  walks u body -> wf s -> hated_by s u = pre ++ rest -> (length rest <= turns)%nat ->
  safe (while_refs turns body (head rest)) s.
Proof.
  intros Hb. revert s pre rest. induction turns as [|turns IH]; intros s pre rest Hw Hl Ht;
    (destruct rest as [|r rest]; [by apply runs_ret|]); cbn [length] in Ht; [lia|].
  cbn [head while_refs]. unfold safe. steps. eapply runs_mono; [by eapply Hb|].
  intros n s1 [Hw1 [->|[-> (pre' & Hl1)]]].
  - destruct turns; by apply runs_ret.
  - eapply IH; [done|done|lia].
Qed.

Lemma for_hated_safe u body s : walks u body -> wf s -> safe (for_hated u body) s.
Proof. intros Hb Hw. unfold safe, for_hated, getFirst. steps. by eapply while_refs_safe with (pre := []). Qed.

(** A reference in the list of a unit. *)
Lemma hated_lookup u s pre r rest :
  wf s -> hated_by s u = pre ++ r :: rest ->
  exists h m, refs s !! r = Some h /\ iRefTo h = Some u /\ iUnitGuid h = u /\ iRefFrom h = Some m /\ is_creature m = true.
Proof.
  intros Hw Hl. assert (r ∈ hated_by s u) as Hr by (rewrite Hl; apply elem_of_app; right; left).
  apply (wf_hated _ _ Hw) in Hr as (h & Hr & Hu). destruct (wf_ref _ _ Hw _ _ Hr) as (_ & Et & m & Hm & Hc).
  exists h, m. split_and!; try done. congruence.
Qed.

Lemma source_of_runs r s h m (Q : guid -> Threats -> Prop) :
  refs s !! r = Some h -> iRefFrom h = Some m -> Q m s -> runs (source_of r) s Q.
Proof. intros Hr Hm HQ. unfold source_of, not_null. steps. rewrite Hm. by steps. Qed.

Lemma next_runs u s pre r rest (Q : option ref -> Threats -> Prop) :
  wf s -> hated_by s u = pre ++ r :: rest -> Q (head rest) s -> runs (next r) s Q.
Proof.
  intros Hw Hl HQ. destruct (hated_lookup _ _ _ _ _ Hw Hl) as (h & m & Hr & Hu & _).
  unfold next. steps. rewrite Hu, Hl, after_app; [done|].
  pose proof (wf_hated_once _ _ Hw u) as Hn. rewrite Hl in Hn. apply NoDup_app in Hn as (_ & Hd & _).
  intros Hin. apply (Hd r Hin). by left.
Qed.

Lemma next_grown u s s1 pre r rest :
  hated_by s u = pre ++ r :: rest -> wf s1 -> grown anyone s s1 -> runs (next r) s1 (walked u rest).
Proof.
  intros Hl Hw1 Hg. destruct (gr_hated _ _ _ Hg u) as [more E]. rewrite Hl, app_assoc in E.
  eapply next_runs; [done|done|]. split; [done|]. right. split; [done|]. exists ((more ++ pre) ++ [r]).
  by rewrite <- app_assoc.
Qed.

Lemma next_same u s s1 pre r rest :
  hated_by s u = pre ++ r :: rest -> wf s1 -> hated_by s1 u = hated_by s u -> runs (next r) s1 (walked u rest).
Proof.
  intros Hl Hw1 E. rewrite Hl in E. eapply next_runs; [done|done|]. split; [done|]. right. split; [done|].
  exists (pre ++ [r]). by rewrite <- app_assoc.
Qed.

Lemma walked_next u s pre r rest :
  wf s -> hated_by s u = pre ++ r :: rest -> walked u rest (head rest) s.
Proof. intros Hw Hl. split; [done|]. right. split; [done|]. exists (pre ++ [r]). by rewrite <- app_assoc. Qed.

(** Removing the reference leaves the rest of the list. *)
Lemma remove_walks_runs u s pre r rest (Q : unit -> Threats -> Prop) :
  wf s -> hated_by s u = pre ++ r :: rest ->
  (forall s', wf s' -> hated_by s' u = pre ++ rest -> Q tt s') ->
  runs (removeReference r) s (fun _ s1 => runs (delete_ref r) s1 Q).
Proof.
  intros Hw Hl HQ. destruct (hated_lookup _ _ _ _ _ Hw Hl) as (h & m & Hr & _).
  pose proof (remove_runs _ r s h Hw Hr) as Hrun. unfold runs, mbind, M_bind in Hrun |- *.
  destruct (removeReference r s) as [[[]|] s1]; [|done]. destruct (delete_ref r s1) as [[[]|] s2]; [|done].
  apply HQ; [by eapply wf_removed|]. rewrite (rm_hated _ _ _ Hrun), Hl. apply filter_split.
  rewrite <- Hl. by apply (wf_hated_once _ _ Hw).
Qed.

Lemma remove_then_runs u s pre r rest {A} (k : T A) (Q : A -> Threats -> Prop) :
  wf s -> hated_by s u = pre ++ r :: rest ->
  (forall s', wf s' -> hated_by s' u = pre ++ rest -> runs k s' Q) ->
  runs (removeReference r) s (fun _ s1 => runs (delete_ref r ;; k) s1 Q).
Proof.
  intros Hw Hl HQ. eapply runs_mono; [eapply (remove_walks_runs u s pre r rest (fun _ s' => runs k s' Q)); done|].
  intros [] s1 Hs1. by apply runs_bind.
Qed.

Lemma set_state_runs r b s h m :
  wf s -> refs s !! r = Some h -> iRefFrom h = Some m ->
  runs (setOnlineOfflineState r b) s (fun _ s' => wf s' /\ forall u, hated_by s' u = hated_by s u).
Proof.
  intros Hw Hr Hm. eapply runs_mono; [by eapply setOnlineOfflineState_runs|]. intros [] s' Hs. cbn beta in Hs.
  destruct (Bool.eqb_spec (iOnline h) b) as [E|E]; [by subst s'|]. split; [|apply (mv_hated _ _ _ _ _ Hs)].
  eapply (wf_moved _ r h m b s); try done. by destruct (iOnline h), b.
Qed.

Lemma update_status_runs r s h m :
  wf s -> refs s !! r = Some h -> iRefFrom h = Some m ->
  runs (updateOnlineStatus is_creature W r) s (fun _ s' => wf s' /\ forall u, hated_by s' u = hated_by s u).
Proof.
  intros Hw Hr Hm. eapply runs_mono; [by eapply updateOnlineStatus_runs|]. intros [] s' (s1 & b & Ht & Hs).
  pose proof (retouched_alike _ _ _ _ Hw Ht) as Ha. destruct (retouched_ref _ _ _ _ Hr Ht) as (h1 & Hr1 & (_ & _ & E3) & E4).
  assert (wf s1) as Hw1 by (by eapply wf_alike).
  destruct (Bool.eqb_spec (iOnline h) b) as [E|E]; [subst s'; split; [done|apply Ha]|]. split.
  - eapply (wf_moved _ r h1 m b s1); try done; [congruence|]. rewrite E4. by destruct (iOnline h), b.
  - intros u. rewrite (mv_hated _ _ _ _ _ Hs). apply Ha.
Qed.

Lemma threatAssist_safe u victim x spell s : wf s -> safe (threatAssist is_creature W fuel u victim x spell) s.
Proof.
  intros Hw. unfold safe, threatAssist. steps. apply for_hated_safe; [|done].
  intros s1 pre r rest Hw1 Hl. destruct (hated_lookup _ _ _ _ _ Hw1 Hl) as (h & m & Hr & _ & _ & Hm & Hc). steps.
  eapply source_of_runs; [done|done|]. steps. eapply runs_mono; [by apply isValidProcess_runs|]. intros v s2 ->. steps.
  apply (runs_mono _ _ (fun _ s2 => wf s2 /\ grown anyone s1 s2)); [|intros [] s2 [? ?]; by eapply next_grown].
  destruct v; [|steps; split; [done|apply grown_refl]].
  eapply runs_mono; [by apply doAddThreat_grows|]. by intros [] s2 (? & ? & _).
Qed.

Lemma walks_grows u (p : ref -> T unit) :
  (forall s m r, wf s -> here anyone m r s -> grows anyone (p r) s) -> walks u (fun r => p r ;; next r).
Proof.
  intros Hp s pre r rest Hw Hl. destruct (hated_lookup _ _ _ _ _ Hw Hl) as (h & m & Hr & _ & _ & Hm & _). steps.
  eapply runs_mono; [apply (Hp s m r); [done|by exists h]|]. intros [] s1 [Hw1 Hg1]. by eapply next_grown.
Qed.

Lemma walks_same u (p : ref -> T unit) :
  (forall s r h m, wf s -> refs s !! r = Some h -> iRefFrom h = Some m ->
     runs (p r) s (fun _ s' => wf s' /\ forall w, hated_by s' w = hated_by s w)) ->
  walks u (fun r => p r ;; next r).
Proof.
  intros Hp s pre r rest Hw Hl. destruct (hated_lookup _ _ _ _ _ Hw Hl) as (h & m & Hr & _ & _ & Hm & _). steps.
  eapply runs_mono; [by eapply Hp|]. intros [] s1 [Hw1 E]. by eapply next_same.
Qed.

(** Bodies that choose by the creature whether to remove the reference. *)
Lemma walks_remove u (test : guid -> bool) :
  walks u (fun r => nextRef ← next r; m ← source_of r;
                    (if test m then removeReference r ;; delete_ref r else mret tt) ;; mret nextRef).
Proof.
  intros s pre r rest Hw Hl. destruct (hated_lookup _ _ _ _ _ Hw Hl) as (h & m & Hr & _ & _ & Hm & _). steps.
  eapply next_runs; [done|done|]. steps. eapply source_of_runs; [done|done|]. steps. destruct (test m).
  - steps. eapply remove_walks_runs; [done|done|]. intros s' Hw' Hl'. steps. split; [done|]. right. split; [done|]. by exists pre.
  - steps. by eapply walked_next.
Qed.

(** ** Every operation *)

Lemma here_listed c m s r h :
  refs s !! r = Some h -> iRefFrom h = Some m -> iOnline h = c -> here anyone m r s.
Proof. intros Hr Hm _. by exists h. Qed.

(** Work on the reference of a creature to a unit, if there is one. *)
Lemma by_target_safe m o (p : ref -> T unit) s :
  wf s -> (forall r, here anyone m r s -> safe (p r) s) ->
  safe (r ← getReferenceByTarget m online o; match r with Some r => p r | None => mret tt end) s.
Proof.
  intros Hw Hp. unfold safe. steps. destruct o as [u|]; [|cbn; by steps].
  eapply runs_mono; [by apply (getReferenceByTarget_runs is_creature true)|].
  intros [r|] s' [-> Hr]; [|by steps]. destruct Hr as (h & Hr & Hm & _). apply Hp. by exists h.
Qed.

Lemma clear_sent_wf p s : wf s -> wf (send p s).
Proof. intros [A B C D E F G]. by split. Qed.

Lemma DeleteThreatList_safe m s : wf s -> safe (DeleteThreatList is_creature W m) s.
Proof.
  intros Hw. unfold safe, DeleteThreatList. steps.
  apply (runs_mono _ _ (fun _ s' => wf s')); [|intros [] s1 Hw1; by apply clearReferences_safe].
  destruct (_ && _); steps; [by apply clear_sent_wf|done].
Qed.

Lemma timer_wf m z s : wf s -> wf (upd_manager m (set_timer z) s).
Proof.
  intros Hw. eapply wf_alike; [done|]. apply alike_manager; [done| |].
  - intros c. destruct c; look; done.
  - intros v Hv. apply (wf_victim _ _ Hw). revert Hv. look; done.
Qed.

Lemma Update_threat_safe m t s : wf s -> safe (Update_threat is_creature W m t) s.
Proof.
  intros Hw. unfold safe, Update_threat. destruct (CanHaveThreatList is_creature W m); [|by steps]. steps.
  apply (runs_mono _ _ (fun _ s' => wf s')).
  - unfold isNeedUpdateToClient. steps. destruct (isThreatListEmpty s m); [by steps|].
    destruct (_ <=? _); steps; by apply timer_wf.
  - intros need s1 Hw1. destruct need; [|by steps]. unfold SendThreatListUpdate. steps.
    destruct (isThreatListEmpty s1 m); [by steps|]. steps. apply read_list_runs; [done|]. intros l _ _. steps.
    by apply clear_sent_wf.
Qed.

Lemma SelectVictim_safe m o s : wf s -> safe (SelectVictim_threat is_creature W m o) s.
Proof.
  intros Hw. unfold safe, SelectVictim_threat. steps. destruct (CanHaveThreatList is_creature W m); [|by steps].
  destruct (bool_decide (o = None)); cbn [andb]; [|by steps].
  destruct (isThreatListEmpty s m) eqn:E; cbn [negb]; [by steps|]. by apply getHostilTarget_safe.
Qed.

Lemma tauntApply_safe m o s : wf s -> safe (tauntApply is_creature W fuel m o) s.
Proof.
  intros Hw. unfold safe, tauntApply. steps.
  apply (runs_mono _ _ (fun o s' => s' = s /\ forall r, o = Some r -> here anyone m r s)).
  - destruct o as [u|]; [|cbn; by steps]. eapply runs_mono; [by apply (getReferenceByTarget_runs is_creature true)|].
    intros [r|] s' [-> Hr]; (split; [done|]); [|done]. destruct Hr as (h & Hr & Hm & _). intros ? [= <-]. by exists h.
  - intros r s' [-> Hr]. steps. destruct (iCurrentVictim (manager s m)) as [v|] eqn:Ev; [|by steps].
    destruct r as [r|]; [|by steps]. destruct (wf_victim_ref _ _ _ _ Hw Ev) as (hv & Hv & _).
    pose proof (Hr r eq_refl) as Hh. destruct Hh as (h & Hh & _). steps. destruct (_ && _); [|by steps].
    apply (grows_safe anyone), (setTempThreat_grows anyone m); [done|done|by apply Hr].
Qed.

Lemma EffectTaunt_safe m caster s : wf s -> safe (EffectTaunt_threat is_creature W fuel m caster) s.
Proof.
  intros Hw. unfold safe, EffectTaunt_threat. steps.
  apply (runs_mono _ _ (fun _ s' => wf s')).
  - destruct (iCurrentVictim (manager s m)) as [v|] eqn:Ev; [|by steps].
    destruct (wf_victim_ref _ _ _ _ Hw Ev) as (hv & Hv & Hmv & _).
    destruct (wf_ref _ _ Hw _ _ Hv) as (_ & _ & m' & Em & Hm). assert (m' = m) as -> by congruence. steps.
    apply (runs_mono _ _ (fun _ s' => s' = s)).
    + unfold getThreat. steps. eapply runs_mono; [by apply (getReferenceByTarget_runs is_creature true)|].
      intros [r|] s' [-> Hr]; steps; [|done]. destruct Hr as (h & Hr & _). by steps.
    + intros my s' ->. steps. destruct (flt _ _); [|by steps].
      apply (grows_safe anyone). by apply tm_addThreat_grows.
  - intros [] s1 Hw1. steps. destruct (isThreatListEmpty s1 m); [by steps|]. steps.
    eapply runs_mono; [by apply (getReferenceByTarget_runs is_creature true)|].
    intros [r|] s' [-> Hr]; [|by steps]. destruct Hr as (h & Hr & Hf & Ho & _).
    eapply runs_mono; [apply setCurrentVictim_runs; [done|]|].
    + intros x [= <-]. apply (wf_listed _ _ Hw1 true). eauto.
    + intros [] s2 [[Ha _] _]. by eapply wf_alike.
Qed.

Lemma AddThreat_safe m o x school spell s : wf s -> safe (AddThreat is_creature W fuel m o x school spell) s.
Proof.
  intros Hw. unfold safe, AddThreat. destruct (CanHaveThreatList is_creature W m) eqn:E; [|by steps].
  apply (grows_safe anyone), tm_addThreat_grows; [|done].
  unfold CanHaveThreatList in E. by destruct (is_creature m).
Qed.

(** The choice a loop makes by the creature, written as the tail of its body. *)
Lemma walks_choice u (test : guid -> bool) (k : ref -> option ref -> T (option ref)) :
  (forall s pre r rest h m, wf s -> hated_by s u = pre ++ r :: rest -> refs s !! r = Some h -> iRefFrom h = Some m ->
     runs (k r (head rest)) s (walked u rest)) ->
  walks u (fun r => nextRef ← next r; m ← source_of r; if test m then k r nextRef else mret nextRef).
Proof.
  intros Hk s pre r rest Hw Hl. destruct (hated_lookup _ _ _ _ _ Hw Hl) as (h & m & Hr & _ & _ & Hm & _). steps.
  eapply next_runs; [done|done|]. steps. eapply source_of_runs; [done|done|]. destruct (test m).
  - by eapply Hk.
  - steps. by eapply walked_next.
Qed.

Lemma set_state_for_runs u creature b s :
  wf s -> runs (hr_setOnlineOfflineState_for u creature b) s (fun _ s' => wf s' /\ hated_by s' u = hated_by s u).
Proof.
  intros Hw0. unfold hr_setOnlineOfflineState_for, for_hated, getFirst. steps.
  assert (forall turns s1 pre rest, wf s1 -> hated_by s1 u = hated_by s u -> hated_by s1 u = pre ++ rest -> (length rest <= turns)%nat ->
    runs (while_refs turns (fun r => nextRef ← next r; m ← source_of r;
      if m =? creature then setOnlineOfflineState r b ;; mret None else mret nextRef) (head rest)) s1
      (fun _ s' => wf s' /\ hated_by s' u = hated_by s u)) as H; [|by eapply (H _ s [])].
  induction turns as [|turns IH]; intros s1 pre rest Hw Hs Hl Ht; (destruct rest as [|r rest]; [by apply runs_ret|]);
    cbn [length] in Ht; [lia|].
  destruct (hated_lookup _ _ _ _ _ Hw Hl) as (h & m & Hr & _ & _ & Hm & _). cbn [head while_refs]. steps.
  eapply next_runs; [done|done|]. steps. eapply source_of_runs; [done|done|]. destruct (m =? creature); steps.
  - eapply runs_mono; [by eapply set_state_runs|]. intros [] s2 [Hw2 E]. steps.
    destruct turns; apply runs_ret; (split; [done|by rewrite E]).
  - eapply (IH s1 (pre ++ [r])); [done|done|by rewrite Hl, <- app_assoc|lia].
Qed.

Lemma perform_safe op s : wf s -> safe (perform is_creature W fuel op) s.
Proof.
  intros Hw. destruct op; cbn [perform].
  - by apply AddThreat_safe.
  - apply (by_target_safe m victim (fun r => addThreatPercent is_creature W fuel r percent)); [done|].
    intros r Hr. by apply (grows_safe anyone), (addThreatPercent_grows anyone m).
  - unfold safe. steps. eapply runs_mono; [by apply SelectVictim_safe|]. intros o s' Hw'. by steps.
  - by apply tauntApply_safe.
  - apply (by_target_safe m taunter (resetTempThreat is_creature W fuel)); [done|].
    intros r Hr. by apply (grows_safe anyone), (resetTempThreat_grows anyone m).
  - by apply EffectTaunt_safe.
  - by apply Update_threat_safe.
  - by apply DeleteThreatList_safe.
  - by apply resetAllAggro_safe.
  - by apply resetAggro_safe.
  - by apply threatAssist_safe.
  - apply for_hated_safe; [|done]. apply walks_grows. intros s1 m r Hw1 Hr. destruct apply.
    + apply (grows_deref anyone m r); [done|]. intros h. destruct (feq _ _); [|by apply grows_ret].
      by apply (addTempThreat_grows anyone m).
    + by apply (resetTempThreat_grows anyone m).
  - apply for_hated_safe; [|done]. apply walks_grows. intros s1 m r Hw1 Hr. by apply (addThreatPercent_grows anyone m).
  - apply for_hated_safe; [|done]. apply walks_same. intros s1 r h m Hw1 Hr Hm. by eapply set_state_runs.
  - eapply runs_mono; [by apply set_state_for_runs|]. by intros [] s' [? _].
  - apply for_hated_safe; [|done]. apply walks_same. intros s1 r h m Hw1 Hr Hm. by eapply update_status_runs.
  - apply for_hated_safe; [|done]. intros s1 pre r rest Hw1 Hl. steps. eapply next_runs; [done|done|]. steps.
    eapply remove_then_runs; [done|done|]. intros s2 Hw2 Hl2. steps. split; [done|]. right. split; [done|]. by exists pre.
  - apply for_hated_safe; [|done]. apply (walks_remove u (fun m => faction W m =? f)).
  - apply for_hated_safe; [|done]. apply (walks_choice u (fun m => m =? creature) (fun r _ => removeReference r ;; delete_ref r ;; mret None)).
    intros s1 pre r rest h m Hw1 Hl Hr Hm. steps. eapply remove_then_runs; [done|done|]. intros s2 Hw2 Hl2. steps. split; [done|by left].
  - apply for_hated_safe; [|done].
    apply (walks_choice u (fun m => negb (canSeeOrDetect W m u)) (fun r _ => nextRef ← next r; removeReference r ;; delete_ref r ;; mret nextRef)).
    intros s1 pre r rest h m Hw1 Hl Hr Hm. steps. eapply next_runs; [done|done|]. steps.
    eapply remove_then_runs; [done|done|]. intros s2 Hw2 Hl2. steps. split; [done|]. right. split; [done|]. by exists pre.
  - apply for_hated_safe; [|done]. intros s1 pre r rest Hw1 Hl.
    destruct (hated_lookup _ _ _ _ _ Hw1 Hl) as (h & m & Hr & _ & _ & Hm & _). steps. eapply source_of_runs; [done|done|]. steps.
    apply (runs_mono _ _ (fun _ s' => wf s' /\ hated_by s' u = hated_by s1 u)); [|intros [] s2 [? ?]; by eapply next_same].
    destruct (is_creature m); [by apply set_state_for_runs|by steps].
Qed.
End Safety.

(** The owners of the units are never deeper than the fuel of the recursion. *)
Definition owners_within (fuel : nat) (W : Units) : Prop :=
  exists depth : guid -> nat, (forall u o, owner W u o -> (depth o < depth u)%nat) /\ forall u, (depth u < fuel)%nat.

Lemma run_consistent is_creature fuel history :
  (forall W op, (W, op) ∈ history -> owners_within fuel W) ->
  exists s, run_history is_creature fuel history no_threats = (Ok tt, s) /\ ThreatSpec.wf is_creature s.
Proof.
  intros Hown. unfold run_history. generalize (wf_no_threats is_creature). generalize no_threats.
  induction history as [|[W op] history IH]; intros s Hw; cbn [mapM_ fst snd]; [by exists s|].
  destruct (Hown W op ltac:(by left)) as (depth & Hd & Hf).
  pose proof (perform_safe is_creature W fuel depth Hd Hf op s Hw) as Hrun. unfold safe, runs in Hrun.
  unfold mbind, M_bind. destruct (perform _ _ _ _ _) as [[[]|] s1]; [|done].
  apply IH; [|done]. intros W' op' Hin. apply (Hown W' op'). by right.
Qed.

(** C33: Whatever creatures and units do to the threat references, in any order and
    whatever is true of the units at each moment, every operation ends, no pointer
    to a deleted reference is followed, no assertion fails and no null pointer is
    used; and afterwards the references are consistent: each is in exactly one list
    of its creature, by its status, and in the list of its target, nothing else is in
    a list, a creature has one reference to a unit at most, and its current victim
    is in its online list. *)
Theorem references_stay_consistent is_creature fuel history :
  (forall W op, (W, op) ∈ history -> owners_within fuel W) ->
  exists s, run_history is_creature fuel history no_threats = (Ok tt, s) /\ ThreatSpec.wf is_creature s.
Proof. apply run_consistent. Qed.

(** ** An instance: a creature 10, players 1, 3 and 4, and 2, the pet of 1 *)
Definition demo_creature (u : guid) : bool := (u =? 10) || (u =? 2).

Definition demo_units (can second_choice reach : guid -> bool) : Units := {|
  isGameMaster _ := false;
  isAlive _ := true;
  isDying _ := false;
  isTotem _ := false;
  isBattlegroundVehicle _ := false;
  summon_of_player u := u =? 2;
  IsInMap _ _ := true;
  InSamePhase _ _ := true;
  in_flight _ := false;
  isInAccessiblePlaceFor t _ := reach t;
  in_combat_distance _ _ := false;
  GetCharmerOrOwner u := if u =? 2 then Some 1 else None;
  m_reducedThreatPercent _ := 0;
  GetMisdirectionTarget _ := None;
  glyph_of_vigilance _ := None;
  has_threat_aura _ := false;
  m_threatModifier _ _ := f_one;
  GetUnit _ _ := true;
  Threat.second_choice t _ := second_choice t;
  canCreatureAttack _ t := can t;
  IsWithinMeleeRange _ _ := false;
  faction _ := 0;
  canSeeOrDetect _ _ := true;
  GetSpellThreatEntry _ := None;
  ApplySpellMod _ _ := None
|}.

Definition everyone : guid -> bool := fun _ => true.
Definition nobody : guid -> bool := fun _ => false.
Definition except (u : guid) : guid -> bool := fun v => negb (v =? u).

Lemma demo_owners can second_choice reach : owners_within 2 (demo_units can second_choice reach).
Proof.
  exists (fun u => if u =? 2 then 1%nat else 0%nat). split; intros u; [|destruct (u =? 2); lia].
  intros o. unfold owner. cbn. destruct (Z.eqb_spec u 2) as [->|]; [|done]. intros [= <-]. cbn. lia.
Qed.

Definition hate (u amount : Z) : operation := OpAddThreat 10 (Some u) (f_of_Z amount) SPELL_SCHOOL_MASK_NORMAL None.

(** A fight: the pet and two players attack, the pet swims away, a healer helps, a
    player dies, the creature evades. *)
Definition demo_history : list (Units * operation) :=
  let U := demo_units everyone nobody everyone in
  let far := demo_units everyone nobody (except 2) in
  [(U, hate 2 100); (U, hate 3 50); (U, OpSelectVictim 10 None); (far, OpUpdateThreatTables 2);
   (far, OpSelectVictim 10 None); (U, OpThreatAssist 3 4 (f_of_Z 30) None); (U, hate 2 10); (U, OpResetAllAggro 10);
   (U, OpDeleteReferences 3); (U, OpUpdate 10 1000); (U, OpDeleteThreatList 10)].

Lemma demo_history_owners W op : (W, op) ∈ demo_history -> owners_within 2 W.
Proof.
  intros H. unfold demo_history in H.
  repeat (apply elem_of_cons in H as [E|H]; [injection E as -> ->; apply demo_owners|]).
  by apply not_elem_of_nil in H.
Qed.

Lemma references_stay_consistent_witness :
  (forall W op, (W, op) ∈ demo_history -> owners_within 2 W) /\
  exists s, run_history demo_creature 2 demo_history no_threats = (Ok tt, s) /\ ThreatSpec.wf demo_creature s.
Proof. split; [exact demo_history_owners|]. exact (references_stay_consistent demo_creature 2 demo_history demo_history_owners). Defined.

(** The pet's attack put its owner on the list, and the distant pet went offline. *)
Example demo_lists :
  let s := (run_history demo_creature 2 (take 5 demo_history) no_threats).2 in
  (map (fun r => iUnitGuid <$> refs s !! r) (online s 10), map (fun r => iUnitGuid <$> refs s !! r) (offline s 10),
   victim s 10) = ([Some 3; Some 1], [Some 2], Some 2).
Proof. vm_compute. reflexivity. Qed.
