(* ===== verification/ThreatSelect.v ===== *)
(** * Threat: the choice of the victim

    The selection loop against a reference definition: the first reference, in the
    order of threat, that may be attacked and is the current victim or takes over
    from it. *)

From S2P Require Import Prelude.
From S2P Require Import Float32.
From S2P Require Import FloatOrder.
From S2P Require Import Threat.
From S2P Require Import ThreatSpec.
From S2P Require Import ThreatSafety.

Abbreviation entry := (prod Z HostileReference).
Definition threat_of (p : entry) : float32 := iThreat p.2.

(** From the most hated to the least. *)
Definition ordered_by_threat (l : list entry) : Prop :=
  StronglySorted (fun p q => fle (threat_of q) (threat_of p) = true) l.
Definition numbers (l : list entry) : Prop := Forall (fun p => is_number (threat_of p) = true) l.

Lemma insert_ref_elem x l p : p ∈ insert_ref x l <-> p = x \/ p ∈ l.
Proof. by rewrite insert_ref_perm, elem_of_cons. Qed.

Lemma insert_ref_ordered x l :
  is_number (threat_of x) = true -> numbers l -> ordered_by_threat l -> ordered_by_threat (insert_ref x l).
Proof.
  intros Hx Hn Hs. induction Hs as [|y l Hs IH Hy]; cbn; [by repeat constructor|].
  apply Forall_cons in Hn as [Hny Hn]. destruct (flt (iThreat x.2) (iThreat y.2)) eqn:E.
  - constructor; [by apply IH|]. apply Forall_forall. intros p [->|Hp]%insert_ref_elem; [by apply flt_fle|].
    rewrite Forall_forall in Hy. by apply Hy.
  - apply not_flt_fle in E; [|done..]. constructor; [by constructor|]. constructor; [done|].
    eapply list.Forall_impl; [exact Hy|]. intros p Hp. cbn in Hp |- *. by eapply fle_trans.
Qed.

Lemma sort_refs_ordered l : numbers l -> ordered_by_threat (sort_refs l).
Proof.
  induction 1 as [|x l Hx Hl IH]; cbn; [constructor|]. change (foldr insert_ref [] l) with (sort_refs l).
  apply insert_ref_ordered; [done| |done]. unfold numbers. by rewrite sort_refs_perm.
Qed.

Lemma sort_refs_id l : ordered_by_threat l -> sort_refs l = l.
Proof.
  induction 1 as [|x l Hl IH Hx]; cbn; [done|]. change (foldr insert_ref [] l) with (sort_refs l). rewrite IH. destruct l as [|y l]; [done|]. cbn.
  apply Forall_cons in Hx as [Hy _]. 
  pose proof (fle_not_flt _ _ Hy) as E. unfold threat_of in E. by rewrite E.
Qed.

Lemma NoDup_fst_eq (l : list entry) w p : NoDup l.*1 -> w ∈ l -> p ∈ l -> w.1 = p.1 -> w = p.
Proof.
  induction l as [|x l IH]; cbn; [by intros _ ?%not_elem_of_nil|]. intros [Hx Hn]%NoDup_cons [->|Hw]%elem_of_cons [->|Hp]%elem_of_cons E; [done| | |by apply IH].
  - destruct Hx. rewrite E. by apply list_elem_of_fmap_2.
  - destruct Hx. rewrite <- E. by apply list_elem_of_fmap_2.
Qed.

Section Select.
Context (W : Units) (attacker : guid).

Definition attackable (p : entry) : bool :=
  match iRefTo p.2 with Some t => canCreatureAttack W attacker t | None => false end.
Definition preferred (p : entry) : bool :=
  match iRefTo p.2 with Some t => negb (second_choice W t attacker) | None => false end.

(** More than 130% of the threat of the victim, or more than 110% in melee. *)
Definition beats (v p : entry) : bool :=
  negb (not_above (threat_of p) (threat_of v)) &&
  match iRefTo p.2 with Some t => takes_over W attacker t (threat_of p) (threat_of v) | None => false end.

(** *** Whoever the victim is

    The victim that a reference is compared with: none any more after the victim itself was
    passed over because it is of second choice. *)
Definition forgotten (v : option entry) (before : list entry) : bool :=
  match v with Some w => negb (preferred w) && bool_decide (w.1 ∈ before.*1) | None => false end.
Definition victim_for (v : option entry) (before : list entry) : option entry := if forgotten v before then None else v.

(** Every reference with the victim it is compared with; [before] are those ahead. *)
Definition compared (v : option entry) (before l : list entry) : list (entry * option entry) :=
  imap (fun i p => (p, victim_for v (before ++ take i l))) l.

(** The loop stops at a reference that may be attacked, when there is no victim, it is the
    victim, it is hated too little to take over, or it takes over. *)
Definition stops (x : entry * option entry) : bool :=
  attackable x.1 &&
  match x.2 with
  | None => true
  | Some w => (w.1 =? x.1.1) || not_above (threat_of x.1) (threat_of w) || beats w x.1
  end.

(** Then it takes the victim if that keeps the attention and may be attacked, or else the
    reference. *)
Definition taken (x : entry * option entry) : entry :=
  match x.2 with
  | Some w => if negb (w.1 =? x.1.1) && not_above (threat_of x.1) (threat_of w) && attackable w then w else x.1
  | None => x.1
  end.

(** First those that are not of second choice; all of them if there is none and the last
    is of second choice. *)
Definition choice (v : option entry) (l : list entry) : option entry :=
  match List.find (fun x => preferred x.1 && stops x) (compared v [] l) with
  | Some x => Some (taken x)
  | None =>
    if from_option preferred true (last l) then None
    else taken <$> List.find stops ((fun p => (p, victim_for v (take (length l - 1) l))) <$> l)
  end.

(** The choice for a victim that may be attacked and is not of second choice, or for none. *)
Definition plain_choice (v : option entry) (l : list entry) : option entry :=
  match v with
  | Some v => List.find (fun p => attackable p && preferred p && ((p.1 =? v.1) || beats v p)) l
  | None =>
    match List.find (fun p => attackable p && preferred p) l with
    | Some p => Some p
    | None => if from_option preferred true (last l) then None else List.find attackable l
    end
  end.

Lemma compared_cons v before p l : compared v before (p :: l) = (p, victim_for v before) :: compared v (before ++ [p]) l.
Proof.
  unfold compared. rewrite imap_cons. cbn [take]. rewrite app_nil_r. f_equal. apply imap_ext. intros i q _. cbn. by rewrite <- app_assoc.
Qed.

(** One turn at a reference that is looked at. *)
Lemma turn_looked turns whole p rest v b t :
  iRefTo p.2 = Some t -> negb b && second_choice W t attacker = false -> (forall w, v = Some w -> valid w) ->
  select_loop W (S turns) attacker whole (p :: rest) v b =
  if stops (p, v) then Ok (Some (taken (p, v)).1) else select_loop W turns attacker whole rest v b.
Proof.
  destruct p as [r h]. cbn [snd]. intros Et Eb Hv. cbn [select_loop]. rewrite Et, Eb. unfold stops, taken, attackable, beats. cbn [fst snd]. rewrite Et.
  destruct (canCreatureAttack W attacker t); [|done]. cbn [andb]. destruct v as [[x hx]|]; [|done]. unfold threat_of. cbn [fst snd].
  destruct (Z.eqb_spec x r) as [->|Hne]; [done|]. cbn [orb negb andb]. destruct (not_above (iThreat h) (iThreat hx)) eqn:En; cbn [orb negb andb].
  - destruct (Hv _ eq_refl) as [tx Ex]. cbn in Ex. rewrite Ex. by destruct (canCreatureAttack W attacker tx).
  - by destruct (takes_over W attacker t (iThreat h) (iThreat hx)).
Qed.

Lemma pass_all turns whole rest v :
  (forall p, p ∈ rest -> valid p) -> (forall w, v = Some w -> valid w) -> (length rest <= turns)%nat ->
  select_loop W turns attacker whole rest v true = Ok (fst <$> (taken <$> List.find stops ((fun p => (p, v)) <$> rest))).
Proof.
  intros Hval Hv. revert rest Hval. induction turns as [|turns IH]; intros [|p rest] Hval Ht; cbn [length] in Ht; try done; [lia|].
  destruct (Hval p ltac:(by left)) as [t Et]. rewrite (turn_looked turns whole p rest v true t Et eq_refl Hv). cbn [fmap list_fmap List.find].
  destruct (stops (p, v)); [done|]. apply IH; [intros q Hq; apply Hval; by right|lia].
Qed.

Lemma pass_preferred turns whole before rest v :
  whole = before ++ rest -> rest <> [] -> NoDup whole.*1 -> (forall p, p ∈ whole -> valid p) -> (forall w, v = Some w -> w ∈ whole) ->
  (length rest + length whole <= turns)%nat ->
  select_loop W turns attacker whole rest (victim_for v before) false =
  Ok (fst <$> match List.find (fun x => preferred x.1 && stops x) (compared v before rest) with
              | Some x => Some (taken x)
              | None => if from_option preferred true (last rest) then None
                        else taken <$> List.find stops ((fun p => (p, victim_for v (take (length whole - 1) whole))) <$> whole)
              end).
Proof.
  revert before rest. induction turns as [|turns IH]; intros before [|p rest] Hw Hne Hnd Hval Hv Ht; cbn [length] in Ht; try done; [lia|].
  assert (p ∈ whole) as Hp by (rewrite Hw; apply elem_of_app; right; by left). destruct (Hval p Hp) as [t Et].
  assert (forall w, victim_for v before = Some w -> valid w) as Hvw.
  { unfold victim_for. intros w. destruct (forgotten v before); [done|]. intros E. apply Hval. by apply Hv. }
  assert (preferred p = negb (second_choice W t attacker)) as Epr by (unfold preferred; by rewrite Et).
  assert (whole = (before ++ [p]) ++ rest) as Hw' by (by rewrite <- app_assoc).
  assert (rest <> [] -> from_option preferred true (last (p :: rest)) = from_option preferred true (last rest)) as Hlast by (by destruct rest).
  rewrite compared_cons. cbn [List.find fst]. destruct (second_choice W t attacker) eqn:Es; cbn [negb] in Epr; rewrite Epr; cbn [andb].
  - destruct rest as [|q rest].
    + cbn [compared imap List.find last from_option]. rewrite Epr. destruct p as [r h]. cbn [select_loop snd] in *. rewrite Et, Es. cbn [negb andb].
      assert (take (length whole - 1) whole = before) as ->.
      { rewrite Hw, length_app. cbn [length]. replace (length before + 1 - 1)%nat with (length before) by lia. by rewrite take_app_length. }
      apply pass_all; [done|done|lia].
    + assert (select_loop W (S turns) attacker whole (p :: q :: rest) (victim_for v before) false =
        select_loop W turns attacker whole (q :: rest) (victim_for v (before ++ [p])) false) as ->.
      { destruct p as [r h]. cbn [select_loop snd fst] in *. rewrite Et, Es. cbn [negb andb]. f_equal. unfold victim_for, forgotten.
        destruct v as [w|]; [|by destruct (bool_decide _)]. rewrite fmap_app. cbn [fmap list_fmap fst]. destruct (preferred w) eqn:Ew; cbn [negb andb].
        - rewrite bool_decide_eq_false_2; [done|]. cbn. intros [= E]. assert (w = (r, h)) as ->; [|congruence].
          apply (NoDup_fst_eq whole); [done|by apply Hv|done|done].
        - destruct (bool_decide (w.1 ∈ before.*1)) eqn:Eb.
          + apply bool_decide_eq_true in Eb. rewrite (bool_decide_eq_true_2 (w.1 ∈ before.*1 ++ [r])) by (apply elem_of_app; by left). by destruct (bool_decide _).
          + apply bool_decide_eq_false in Eb. cbn. destruct (decide (w.1 = r)) as [E|E].
            * rewrite !bool_decide_eq_true_2; [done|rewrite E; apply elem_of_app; right; by left|by rewrite E].
            * rewrite !bool_decide_eq_false_2; [done|rewrite elem_of_app, list_elem_of_singleton; tauto|congruence]. }
      rewrite (IH (before ++ [p]) (q :: rest) Hw' ltac:(done) Hnd Hval Hv ltac:(cbn [length] in *; lia)). by rewrite Hlast.
  - rewrite (turn_looked turns whole p rest _ false t Et) by (try done; by rewrite Es). destruct (stops (p, victim_for v before)); [done|].
    destruct rest as [|q rest].
    + cbn. rewrite Epr. by destruct turns.
    + assert (victim_for v (before ++ [p]) = victim_for v before) as Ev.
      { unfold victim_for, forgotten. destruct v as [w|]; [|done]. destruct (preferred w) eqn:Ew; [done|]. cbn [negb andb]. rewrite fmap_app.
        rewrite (bool_decide_ext (w.1 ∈ before.*1 ++ [p].*1) (w.1 ∈ before.*1)); [done|]. rewrite elem_of_app. cbn. rewrite list_elem_of_singleton. split; [|by left].
        intros [?|E]; [done|]. assert (w = p) as ->; [|congruence]. apply (NoDup_fst_eq whole); [done|by apply Hv|done|done]. }
      rewrite <- Ev, (IH (before ++ [p]) (q :: rest) Hw' ltac:(done) Hnd Hval Hv ltac:(cbn [length] in *; lia)). by rewrite Hlast.
Qed.

Lemma selectNextVictim_choice l v :
  l <> [] -> (forall p, p ∈ l -> valid p) -> NoDup l.*1 -> (forall w, v = Some w -> w ∈ l) ->
  selectNextVictim W attacker l v = Ok (fst <$> choice v l).
Proof.
  intros Hne Hval Hn Hv. pose proof (pass_preferred (2 * length l) l [] l v eq_refl Hne Hn Hval Hv ltac:(lia)) as H.
  assert (victim_for v [] = v) as Ev.
  { unfold victim_for, forgotten. destruct v as [w|]; [|done]. rewrite bool_decide_eq_false_2, andb_false_r; [done|]. by apply not_elem_of_nil. }
  rewrite Ev in H. unfold selectNextVictim, choice. destruct l as [|p l']; [done|]. exact H.
Qed.

Lemma compared_in v before l x : x ∈ compared v before l -> x.1 ∈ l /\ forall w, x.2 = Some w -> v = Some w.
Proof.
  revert before. induction l as [|p l IH]; intros before; [by intros ?%not_elem_of_nil|].
  rewrite compared_cons. intros [->|Hx]%elem_of_cons.
  - split; [by left|]. cbn. unfold victim_for. intros w. by destruct (forgotten v before).
  - destruct (IH _ Hx). split; [by right|done].
Qed.

Lemma choice_in v l p : (forall w, v = Some w -> w ∈ l) -> choice v l = Some p -> p ∈ l.
Proof.
  intros Hv.
  assert (forall x, x.1 ∈ l -> (forall w, x.2 = Some w -> v = Some w) -> taken x ∈ l) as Ht.
  { intros [q [w|]] Hq Hw; unfold taken; cbn in *; [|done]. destruct (_ && _); [|done]. apply Hv. by apply Hw. }
  unfold choice. destruct (List.find _ (compared v [] l)) as [x|] eqn:E.
  - intros [= <-]. apply List.find_some in E as [E _]. apply list_elem_of_In, compared_in in E as [? ?]. by apply Ht.
  - destruct (from_option _ _ _); [done|]. intros (x & Hf & ->)%fmap_Some. apply List.find_some in Hf as [Hf _].
    apply list_elem_of_In, list_elem_of_fmap in Hf as (q & -> & Hq). apply Ht; [done|]. cbn. unfold victim_for. intros w. by destruct (forgotten _ _).
Qed.

(** *** A plain victim *)

Lemma second_pass turns whole rest :
  (forall p, p ∈ rest -> valid p) -> (length rest <= turns)%nat ->
  select_loop W turns attacker whole rest None true = Ok (fst <$> List.find attackable rest).
Proof.
  revert rest. induction turns as [|turns IH]; intros [|[r h] rest] Hv Ht; cbn [length] in Ht; try done; [lia|].
  destruct (Hv (r, h) ltac:(by left)) as [t Et]. cbn in Et. cbn [select_loop List.find]. unfold attackable at 1. cbn [snd].
  rewrite Et. cbn [negb andb]. destruct (canCreatureAttack W attacker t); [done|].
  apply IH; [intros p Hp; apply Hv; by right|lia].
Qed.

Lemma first_pass turns whole rest :
  (forall p, p ∈ whole -> valid p) -> (forall p, p ∈ rest -> p ∈ whole) -> rest <> [] ->
  (length rest + length whole <= turns)%nat ->
  select_loop W turns attacker whole rest None false =
  Ok (fst <$> match List.find (fun p => attackable p && preferred p) rest with
              | Some p => Some p
              | None => if from_option preferred true (last rest) then None else List.find attackable whole
              end).
Proof.
  intros Hwhole. revert rest. induction turns as [|turns IH]; intros [|[r h] rest] Hin Hne Ht; cbn [length] in Ht; try done; [lia|].
  destruct (Hwhole (r, h)) as [t Et]; [apply Hin; by left|]. cbn in Et.
  assert (forall p, p ∈ rest -> p ∈ whole) as Hrest by (intros p Hp; apply Hin; by right).
  cbn [select_loop List.find]. unfold attackable at 1, preferred at 1. cbn [snd]. rewrite Et. cbn [negb andb].
  destruct (second_choice W t attacker) eqn:Es; cbn [negb].
  - rewrite andb_false_r. destruct rest as [|p rest].
    + cbn [List.find last from_option]. unfold preferred. cbn [snd]. rewrite Et, Es. apply second_pass; [done|lia].
    + rewrite bool_decide_false by done. cbn [fmap option_fmap option_map].
      rewrite IH; [|done|done|lia]. by rewrite last_cons_cons.
  - rewrite andb_true_r. destruct (canCreatureAttack W attacker t); [done|]. destruct rest as [|p rest].
    + destruct turns; cbn; unfold preferred; cbn [snd]; by rewrite Et, Es.
    + rewrite IH; [|done|done|lia]. by rewrite last_cons_cons.
Qed.

(** A victim that can be attacked and is not of second choice. *)
Section Victim.
Context (v : entry).
Hypothesis v_attackable : attackable v = true.
Hypothesis v_preferred : preferred v = true.

Let wanted (p : entry) : bool := attackable p && preferred p && ((p.1 =? v.1) || beats v p).

Lemma find_victim l :
  NoDup l.*1 -> v ∈ l -> (forall p, p ∈ l -> not_above (threat_of p) (threat_of v) = true) -> List.find wanted l = Some v.
Proof.
  intros Hn Hv Hl. induction l as [|p l IH]; [by apply not_elem_of_nil in Hv|].
  cbn in Hn |- *. apply NoDup_cons in Hn as [Hp Hn]. unfold wanted at 1, beats. rewrite Hl by by left. cbn [negb andb].
  rewrite orb_false_r. apply elem_of_cons in Hv as [<-|Hv].
  - by rewrite v_attackable, v_preferred, Z.eqb_refl.
  - destruct (Z.eqb_spec p.1 v.1) as [E|E].
    + destruct Hp. rewrite E. apply list_elem_of_fmap. eauto.
    + rewrite andb_false_r. apply IH; [done|done|]. intros q Hq. apply Hl. by right.
Qed.

(** One turn of the loop at a reference of first choice, and at another. *)
Lemma turn_preferred turns whole p rest :
  preferred p = true ->
  select_loop W (S turns) attacker whole (p :: rest) (Some v) false =
  if attackable p && ((p.1 =? v.1) || not_above (threat_of p) (threat_of v)) then Ok (Some v.1)
  else if attackable p && beats v p then Ok (Some p.1)
  else select_loop W turns attacker whole rest (Some v) false.
Proof.
  destruct v as [w hw], p as [r h]. unfold preferred, attackable, beats, threat_of. cbn [fst snd select_loop].
  destruct (iRefTo h) as [t|]; [|done]. intros Hp. apply negb_true_iff in Hp. rewrite Hp. cbn [negb andb].
  destruct (canCreatureAttack W attacker t); [|done]. cbn [andb]. rewrite (Z.eqb_sym w r).
  destruct (Z.eqb_spec r w) as [->|]; [done|]. cbn [orb]. destruct (not_above _ _); cbn [negb andb].
  - revert v_attackable. unfold attackable. cbn [snd]. destruct (iRefTo hw) as [tv|]; [|done]. by intros ->.
  - by destruct (takes_over _ _ _ _ _).
Qed.

Lemma turn_second_choice turns whole p rest :
  valid p -> preferred p = false -> p.1 <> v.1 -> rest <> [] ->
  select_loop W (S turns) attacker whole (p :: rest) (Some v) false =
  select_loop W turns attacker whole rest (Some v) false.
Proof.
  destruct v as [w hw], p as [r h]. unfold preferred, valid. cbn [fst snd select_loop]. intros [t Et]. rewrite Et.
  intros Hp Hne Hr. apply negb_false_iff in Hp. rewrite Hp. cbn [negb andb]. destruct rest as [|q rest]; [done|].
  rewrite bool_decide_false; [done|]. cbn. congruence.
Qed.

Lemma pass_with_victim turns whole rest :
  (forall p, p ∈ rest -> valid p) -> ordered_by_threat rest -> NoDup rest.*1 -> v ∈ rest -> (length rest <= turns)%nat ->
  select_loop W turns attacker whole rest (Some v) false = Ok (fst <$> List.find wanted rest).
Proof.
  revert rest. induction turns as [|turns IH]; intros [|p rest] Hval Ho Hn Hv Ht; cbn [length] in Ht;
    [by apply not_elem_of_nil in Hv|lia|by apply not_elem_of_nil in Hv|].
  pose proof (Hval p ltac:(by left)) as Hp.
  assert (Hnext : v ∈ rest -> select_loop W turns attacker whole rest (Some v) false = Ok (fst <$> List.find wanted rest)).
  { intros Hv'. apply IH; [intros q Hq; apply Hval; by right|by inversion Ho| |done|lia]. by apply NoDup_cons in Hn as [_ ?]. }
  assert (p = v \/ p.1 <> v.1 /\ v ∈ rest) as Hcase.
  { apply elem_of_cons in Hv as [->|Hv]; [by left|]. right. split; [|done]. intros E.
    cbn in Hn. apply NoDup_cons in Hn as [Hn _]. destruct Hn. rewrite E. apply list_elem_of_fmap. eauto. }
  destruct (preferred p) eqn:Epr.
  - rewrite turn_preferred by done. cbn [List.find]. unfold wanted at 1. rewrite Epr, andb_true_r.
    destruct Hcase as [->|[Hne Hv']]; [by rewrite v_attackable, Z.eqb_refl|].
    rewrite (proj2 (Z.eqb_neq _ _)) by done. cbn [orb].
    destruct (not_above (threat_of p) (threat_of v)) eqn:Ena; cbn [negb andb].
    + destruct (attackable p); cbn [andb]; [|by rewrite Hnext].
      unfold beats at 1. rewrite Ena. cbn [negb andb]. rewrite find_victim; [done|by apply NoDup_cons in Hn as [_ ?]|done|].
      intros q Hq. inversion Ho as [|? ? _ Hpq]; subst. rewrite Forall_forall in Hpq. unfold not_above in Ena |- *.
      eapply fle_trans; [by apply Hpq|done].
    + rewrite andb_false_r. destruct (attackable p && beats v p); [done|by apply Hnext].
  - destruct Hcase as [->|[Hne Hv']]; [congruence|]. rewrite turn_second_choice; [|done..|].
    + cbn [List.find]. unfold wanted at 1. rewrite Epr, andb_false_r. by apply Hnext.
    + intros ->. by apply not_elem_of_nil in Hv'.
Qed.
End Victim.

Lemma plain_choice_in v l p : plain_choice v l = Some p -> p ∈ l.
Proof.
  assert (forall f q, List.find f l = Some q -> q ∈ l) as Hf.
  { intros f q Hq. apply List.find_some in Hq as [Hq _]. by apply list_elem_of_In. }
  unfold plain_choice. destruct v as [v|]; [by apply Hf|].
  destruct (List.find _ l) as [q|] eqn:E; [intros [= <-]; by eapply Hf|].
  destruct (from_option _ _ _); [done|by apply Hf].
Qed.

Lemma selectNextVictim_plain l v :
  l <> [] -> (forall p, p ∈ l -> valid p) -> ordered_by_threat l -> NoDup l.*1 ->
  match v with Some v => v ∈ l /\ attackable v = true /\ preferred v = true | None => True end ->
  selectNextVictim W attacker l v = Ok (fst <$> plain_choice v l).
Proof.
  intros Hne Hval Ho Hn Hv. unfold selectNextVictim. destruct l as [|p l]; [done|]. destruct v as [v|].
  - destruct Hv as (Hin & Ha & Hp). by apply pass_with_victim; try done; lia.
  - apply first_pass; [done|done|done|lia].
Qed.
(** The two definitions agree there. *)
Lemma choice_plain l v :
  l <> [] -> (forall p, p ∈ l -> valid p) -> ordered_by_threat l -> NoDup l.*1 ->
  (forall w, v = Some w -> w ∈ l) -> (forall w, v = Some w -> attackable w = true /\ preferred w = true) ->
  choice v l = plain_choice v l.
Proof.
  intros Hne Hval Ho Hn Hv Hp.
  assert (fst <$> choice v l = fst <$> plain_choice v l) as E.
  { pose proof (selectNextVictim_choice l v Hne Hval Hn Hv) as H. rewrite selectNextVictim_plain in H; [by injection H|done..|].
    destruct v as [w|]; [|done]. split; [by apply Hv|by apply Hp]. }
  destruct (choice v l) as [p|] eqn:E1, (plain_choice v l) as [q|] eqn:E2; try done. f_equal.
  apply (NoDup_fst_eq l); [done|by eapply choice_in|by eapply plain_choice_in|by injection E].
Qed.
End Select.

(** ** The creature's next target *)

(** The online list with what it points to. *)
Definition snapshot (s : Threats) (m : guid) : list entry :=
  omap (fun r => pair r <$> refs s !! r) (online s m).

Lemma snapshot_eq s m l :
  l.*1 = online s m -> (forall p, p ∈ l -> refs s !! p.1 = Some p.2) -> snapshot s m = l.
Proof.
  unfold snapshot. intros <- Hp. induction l as [|[r h] l IH]; [done|]. cbn.
  pose proof (Hp (r, h) ltac:(by left)) as E. cbn in E. rewrite E. cbn. f_equal. apply IH. intros p Hin. apply Hp. by right.
Qed.

Section Target.
Context (is_creature : guid -> bool) (W : Units) (m : guid).

Lemma snapshot_spec s :
  ThreatSpec.wf is_creature s ->
  (snapshot s m).*1 = online s m /\ forall p, p ∈ snapshot s m -> refs s !! p.1 = Some p.2 /\ valid p.
Proof.
  intros Hw.
  assert (runs (deref_all (online s m)) s (fun l s' => s' = s /\ snapshot s m = l /\ l.*1 = online s m /\
    forall p, p ∈ l -> refs s !! p.1 = Some p.2 /\ valid p)) as H.
  { eapply read_list_runs; [done|]. intros l Hl Hp. split_and!; [done| |done|done].
    apply snapshot_eq; [done|]. intros p Hin. by apply Hp. }
  unfold runs in H. destruct (deref_all _ _) as [[l|] s']; [|done]. by destruct H as (_ & -> & ? & ?).
Qed.

(** The list is sorted when it is marked dirty. *)
Definition updated (s : Threats) : list entry :=
  if iDirty (iThreatContainer (manager s m)) then sort_refs (snapshot s m) else snapshot s m.

Lemma c_update_sorts s :
  ThreatSpec.wf is_creature s ->
  runs (c_update m) s (fun _ s1 => alike s s1 /\ refs s1 = refs s /\ victim s1 m = victim s m /\ snapshot s1 m = updated s).
Proof.
  intros Hw. destruct (snapshot_spec s Hw) as [Hl Hp].
  assert (forall s1, refs s1 = refs s -> online s1 m = (updated s).*1 -> snapshot s1 m = updated s) as Hsnap.
  { intros s1 Hr Ho. apply snapshot_eq; [done|]. intros p Hin. rewrite Hr. apply Hp. revert Hin. unfold updated.
    destruct (iDirty _); [by rewrite sort_refs_perm|done]. }
  pose proof (c_update_runs is_creature m s Hw) as Hrun. revert Hrun. unfold runs, c_update, mbind, M_bind, get.
  destruct (iDirty (iThreatContainer (manager s m)) && (1 <? zlen (online s m))) eqn:E; cbn [mret M_ret].
  - assert (deref_all (online s m) s = (Ok (snapshot s m), s)) as ->.
    { assert (runs (deref_all (online s m)) s (fun l s' => s' = s /\ l = snapshot s m)) as H.
      { eapply read_list_runs; [done|]. intros l Hl' Hp'. split; [done|]. symmetry. apply snapshot_eq; [done|].
        intros p Hin. by apply Hp'. }
      unfold runs in H. destruct (deref_all _ _) as [[l|] s']; [|done]. by destruct H as [-> ->]. }
    unfold modify, setDirty. intros Ha. split_and!; [done|done|look; done|]. apply Hsnap; [done|].
    apply andb_true_iff in E as [E _]. unfold updated. rewrite E. look; done.
  - unfold modify, setDirty. intros Ha. split_and!; [done|done|look; done|]. apply Hsnap; [done|].
    transitivity (online s m); [look; done|]. rewrite <- Hl. f_equal. unfold updated.
    destruct (iDirty (iThreatContainer (manager s m))); [|done]. cbn in E. apply Z.ltb_ge in E. rewrite <- Hl in E.
    unfold zlen in E. rewrite length_fmap in E. destruct (snapshot s m) as [|p [|q l]]; [done|done|cbn in E; lia].
Qed.

(** The entry of the current victim. *)
Definition victim_entry (s : Threats) : option entry := victim s m ≫= fun v => pair v <$> refs s !! v.

(** C34: The selection loop computes its reference definition, whoever the victim is and
    whatever the list: the list is sorted first when it is marked dirty; the loop stops at
    the first reference that is not of second choice (immune or out of combat), that the
    creature may attack, and that meets no victim, is the victim, is hated no more than 110%
    of the victim, or takes over from it (more than 130%, or more than 110% in melee range);
    the victim keeps the attention in the third case if it may still be attacked; when there
    is none and the last of the list is of second choice, those of second choice count as
    the others do.  The choice becomes the current victim, and no reference changes.
    When the list is sorted and the victim, if there is one, may be attacked and is not of
    second choice, that is: the most hated one that may be attacked, is not of second choice,
    and is the victim or takes over from it. *)
Theorem getHostilTarget_choice s :
  ThreatSpec.wf is_creature s -> isThreatListEmpty s m = false ->
  let l := updated s in
  let v := victim_entry s in
  let next := choice W m v l in
  (exists s', getHostilTarget W m s = (Ok (next ≫= fun p => iRefTo p.2), s') /\
    victim s' m = fst <$> next /\ online s' m = l.*1 /\ refs s' = refs s) /\
  (numbers (snapshot s m) -> iDirty (iThreatContainer (manager s m)) = true \/ ordered_by_threat (snapshot s m) ->
   ordered_by_threat l /\
   ((forall w, v = Some w -> attackable W m w = true /\ preferred W m w = true) -> next = plain_choice W m v l)).
Proof.
  intros Hw He l v next.
  destruct (snapshot_spec s Hw) as [Hls Hps].
  assert (Permutation l (snapshot s m)) as Hperm by (unfold l, updated; destruct (iDirty _); [apply sort_refs_perm|done]).
  assert (forall p, p ∈ l -> refs s !! p.1 = Some p.2 /\ valid p) as Hp by (intros p; rewrite Hperm; apply Hps).
  assert (l <> []) as Hne.
  { intros El. rewrite El in Hperm. apply Permutation_nil in Hperm. rewrite Hperm in Hls. unfold isThreatListEmpty in He.
    by rewrite <- Hls in He. }
  assert (NoDup l.*1) as Hn by (rewrite Hperm, Hls; apply (wf_listed_once _ _ Hw true)).
  assert (forall w, v = Some w -> w ∈ l) as Hv.
  { intros w Ev. rewrite Hperm. unfold v, victim_entry in Ev.
    destruct (victim s m) as [x|] eqn:Ex; [|done]. cbn in Ev. destruct (refs s !! x) as [h|] eqn:Eh; [|done].
    injection Ev as <-. apply (wf_victim _ _ Hw) in Ex. rewrite <- Hls in Ex.
    apply list_elem_of_fmap in Ex as ([x' h'] & -> & Hin). destruct (Hps _ Hin) as [E _]. cbn in E, Eh.
    by assert (h' = h) as -> by congruence. }
  split.
  - assert (runs (getHostilTarget W m) s (fun t s' => t = next ≫= (fun p => iRefTo p.2) /\
      victim s' m = fst <$> next /\ online s' m = l.*1 /\ refs s' = refs s)) as H.
    { unfold getHostilTarget. steps. eapply runs_mono; [by apply c_update_sorts|].
      intros [] s1 (Ha & Hr & Hvic & Hs). steps. assert (ThreatSpec.wf is_creature s1) as Hw1 by (by eapply wf_alike).
      destruct (snapshot_spec s1 Hw1) as [Hl1 Hp1]. rewrite Hs in Hl1, Hp1. fold l in Hl1, Hp1.
      eapply read_list_runs; [done|]. intros l' Hl' Hp'.
      assert (l' = l) as ->. { unfold l. rewrite <- Hs. symmetry. apply snapshot_eq; [done|]. intros p Hin. by apply Hp'. }
      steps. apply (runs_mono _ _ (fun v' s' => v' = v /\ s' = s1)).
      { unfold v, victim_entry. rewrite <- Hvic, <- Hr. unfold victim.
        destruct (iCurrentVictim (manager s1 m)) as [x|] eqn:Ev; [|by steps].
        destruct (wf_victim_ref _ _ _ _ Hw1 Ev) as (h & Hh & _). steps. cbn. by rewrite Hh. }
      intros v' s2 [-> ->]. steps.
      assert (selectNextVictim W m l v = Ok (fst <$> next)) as -> by (apply selectNextVictim_choice; [done|intros p ?; by apply Hp|done..]).
      steps. assert (forall p, next = Some p -> p ∈ l) as Hin by (intros p; by apply choice_in).
      eapply runs_mono; [apply (setCurrentVictim_runs is_creature); [done|]|].
      - intros r Hr'. destruct next as [p|]; [|done]. injection Hr' as <-. rewrite <- Hl1. apply list_elem_of_fmap. eauto.
      - intros [] s2 [[Ha2 Hr2] [Hv2 Ho2]].
        assert (victim s2 m = fst <$> next /\ online s2 m = l.*1 /\ refs s2 = refs s) as Hend by (split_and!; congruence).
        destruct next as [p|]; cbn; [|by steps].
        destruct (Hp1 p (Hin _ eq_refl)) as [Hpr _]. rewrite <- Hr2 in Hpr. by steps. }
    unfold runs in H. destruct (getHostilTarget W m s) as [[t|] s']; [|done]. destruct H as (-> & ?). by exists s'.
  - intros Hnum Hd. assert (ordered_by_threat l) as Ho.
    { unfold l, updated. destruct (iDirty _); [by apply sort_refs_ordered|]. by destruct Hd. }
    split; [done|]. intros Hpl. apply choice_plain; [done|intros p ?; by apply Hp|done..].
Qed.
End Target.

(** Lowering the threat of a reference that is not the current victim changes its
    threat and nothing else: the list keeps its order and is not marked to be sorted,
    so the reference may stay ahead of others that are hated more. *)
Theorem lowered_threat_keeps_place is_creature W fuel r m x s h :
  ThreatSpec.wf is_creature s -> refs s !! r = Some h -> iRefFrom h = Some m -> iOnline h = true ->
  victim s m <> Some r -> flt x f_zero = true ->
  addThreat is_creature W (S fuel) r x s =
  (Ok tt, upd_refs (alter (fun h => set_threat (fadd (iThreat h) x) h) r) s).
Proof.
  intros Hw Hr Hm Ho Hv Hx.
  assert (fle f_zero x = false /\ flt f_zero x = false) as [Hle Hlt].
  { revert Hx. clear. destruct x as [[]|[]| |[]]; cbn; auto. }
  assert (runs (addThreat is_creature W (S fuel) r x) s (fun _ s' =>
    s' = upd_refs (alter (fun h => set_threat (fadd (iThreat h) x) h) r) s)) as H.
  { cbn [addThreat]. unfold addThreat_body. steps. set (s1 := upd_refs _ s).
    assert (refs s1 !! r = Some (set_threat (fadd (iThreat h) x) h)) as Hr1 by (cbn; by rewrite lookup_alter_eq, Hr).
    steps. cbn [iOnline set_threat]. rewrite Ho. steps.
    apply (runs_mono _ _ (fun _ s' => s' = s1)).
    - destruct (negb _); [|by steps]. unfold fireStatusChanged. steps. cbn [iRefFrom set_threat]. rewrite Hm.
      unfold processThreatEvent. steps. rewrite bool_decide_false by done. cbn [andb negb orb]. rewrite Hlt. by steps.
    - intros [] s2 ->. steps. cbn [iRefTo set_threat]. destruct (iRefTo h); [|by steps]. rewrite Hle. by steps. }
  unfold runs in H. destruct (addThreat _ _ _ _ _ _) as [[[]|] s']; [|done]. by subst s'.
Qed.

(** ** Instances *)

Definition U : Units := demo_units everyone nobody everyone.
Definition three_haters : list (Units * operation) :=
  [(U, hate 1 200); (U, hate 3 100); (U, hate 4 50); (U, OpSelectVictim 10 None)].
Definition demo_fight (history : list operation) : Threats :=
  (run_history demo_creature 2 (three_haters ++ map (pair U) history) no_threats).2.

Lemma demo_fight_wf history : ThreatSpec.wf demo_creature (demo_fight history).
Proof.
  destruct (run_consistent demo_creature 2 (three_haters ++ map (pair U) history)) as (s & Hs & Hw).
  - intros W op. rewrite elem_of_app. intros [H|H].
    + unfold three_haters in H. repeat (apply elem_of_cons in H as [E|H]; [injection E as -> ->; apply demo_owners|]).
      by apply not_elem_of_nil in H.
    + apply list_elem_of_fmap in H as (o & [= -> ->] & _). apply demo_owners.
  - unfold demo_fight. by rewrite Hs.
Qed.

Lemma numbers_dec l : forallb (fun p => is_number (threat_of p)) l = true -> numbers l.
Proof. intros H. apply Forall_forall. intros p Hp. rewrite forallb_forall in H. apply H. by apply list_elem_of_In. Qed.

(** A second player does more than 130% of the damage of the first and is next; when all are
    immune but the last, who cannot be attacked, nobody is. *)
Lemma getHostilTarget_choice_witness :
  let s := demo_fight [hate 3 200] in
  let alone := demo_units (except 4) (fun u => negb (u =? 4)) everyone in
  (ThreatSpec.wf demo_creature s /\ isThreatListEmpty s 10 = false) /\
  (exists s', getHostilTarget U 10 s = (Ok (Some 3), s')) /\ exists s', getHostilTarget alone 10 s = (Ok None, s').
Proof.
  cbv zeta.
  assert (isThreatListEmpty (demo_fight [hate 3 200]) 10 = false) as He by (vm_compute; reflexivity).
  split; [exact (conj (demo_fight_wf _) He)|].
  destruct (getHostilTarget_choice demo_creature U 10 (demo_fight [hate 3 200]) (demo_fight_wf _) He) as [(s1 & H1 & _) _].
  destruct (getHostilTarget_choice demo_creature (demo_units (except 4) (fun u => negb (u =? 4)) everyone) 10
    (demo_fight [hate 3 200]) (demo_fight_wf _) He) as [(s2 & H2 & _) _].
  split; [exists s1; rewrite H1|exists s2; rewrite H2]; vm_compute; reflexivity.
Defined.

(** The second player is made to look harmless; its reference stays second. *)
Lemma lowered_threat_keeps_place_witness :
  exists h, refs (demo_fight []) !! 1 = Some h /\ iUnitGuid h = 3 /\ victim (demo_fight []) 10 <> Some 1 /\
  addThreat demo_creature U 2 1 (f_of_Z (-90)) (demo_fight []) =
  (Ok tt, upd_refs (alter (fun h => set_threat (fadd (iThreat h) (f_of_Z (-90))) h) 1) (demo_fight [])).
Proof.
  destruct (refs (demo_fight []) !! 1) as [h|] eqn:E; [|vm_compute in E; discriminate]. exists h.
  pose proof E as E'. vm_compute in E'. injection E' as <-.
  assert (victim (demo_fight []) 10 <> Some 1) as Hv by (vm_compute; discriminate).
  split; [reflexivity|]. split; [reflexivity|]. split; [exact Hv|].
  apply (lowered_threat_keeps_place demo_creature U 1 1 10 (f_of_Z (-90)) (demo_fight []) _ (demo_fight_wf _) E);
    [reflexivity|reflexivity|exact Hv|vm_compute; reflexivity].
Defined.

(** Then the victim leaves: the creature turns to the player it hates less (10
    against 50). *)
Example harmless_attacked :
  let away := demo_units (except 1) nobody everyone in
  let s := demo_fight [OpModifyThreatPercent 10 (Some 3) (-90)] in
  (fst (getHostilTarget away 10 s), map (fun p => (iUnitGuid p.2, f_to_u32 (threat_of p))) (snapshot s 10)) =
  (Ok (Some 3), [(1, 200); (3, 10); (4, 50)]).
Proof. vm_compute. reflexivity. Qed.

(** An immune victim keeps the attention of the creature although another, who is not
    immune, is hated more. *)
Example immune_victim_kept :
  let immune := demo_units everyone (fun u => u =? 1) everyone in
  let s := demo_fight [hate 3 110] in
  (fst (getHostilTarget immune 10 s), map (fun p => (iUnitGuid p.2, f_to_u32 (threat_of p))) (sort_refs (snapshot s 10))) =
  (Ok (Some 1), [(3, 210); (1, 200); (4, 50)]).
Proof. vm_compute. reflexivity. Qed.

(** Whether an immune unit is attacked when nobody else can be depends on the last
    of the list being immune. *)
Example last_decides :
  let s := demo_fight [OpOnline 4 true] in
  (fst (getHostilTarget (demo_units (except 4) (fun u => negb (u =? 4)) everyone) 10 s),
   fst (getHostilTarget (demo_units (except 1) (fun u => negb (u =? 1)) everyone) 10 s)) = (Ok None, Ok (Some 3)).
Proof. vm_compute. reflexivity. Qed.
