(* ===== verification/Motion.v ===== *)
(** * MotionMaster: what moves a unit
      (src/src/server/game/Movement/MotionMaster.cpp, MotionMaster.h)

    Three slots of movement generators, the highest occupied one on top and moving
    the unit.  Generators are heap objects; [si_idleMovement] is one static object.
    A generator's [Initialize], [Finalize], [Reset] and [Update] may come back to
    the master (through the AI): what they call is the script of the generator, and
    the model is reentrant, with fuel for the depth of the calls.  The deletions
    that [Update] must not see are put off to a list.

    [pop] looks for the next occupied slot without a bound.  When there is none it
    reads below the array: [Impl[-1]] is the member [_expList], what is below that
    is not this object's: [lowest] is where the search ends there. *)

From S2P Require Import Prelude.
From S2P Require Import Float32.
From Stdlib Require Import Floats.SpecFloat.

(* [game/Movement/MotionMaster.h:34-55] MovementGeneratorType *)
Inductive MovementGeneratorType :=
| IDLE_MOTION_TYPE | RANDOM_MOTION_TYPE | WAYPOINT_MOTION_TYPE | ANIMAL_RANDOM_MOTION_TYPE | CONFUSED_MOTION_TYPE
| CHASE_MOTION_TYPE | HOME_MOTION_TYPE | FLIGHT_MOTION_TYPE | POINT_MOTION_TYPE | FLEEING_MOTION_TYPE
| DISTRACT_MOTION_TYPE | ASSISTANCE_MOTION_TYPE | ASSISTANCE_DISTRACT_MOTION_TYPE | TIMED_FLEEING_MOTION_TYPE
| FOLLOW_MOTION_TYPE | ROTATE_MOTION_TYPE | EFFECT_MOTION_TYPE | NULL_MOTION_TYPE.

#[export] Instance MovementGeneratorType_eq_dec : EqDecision MovementGeneratorType.
Proof. solve_decision. Defined.

(* [game/Movement/MotionMaster.h:57-63] MovementSlot *)
Definition MOTION_SLOT_IDLE : Z := 0.
Definition MOTION_SLOT_ACTIVE : Z := 1.
Definition MOTION_SLOT_CONTROLLED : Z := 2.
Definition MAX_MOTION_SLOT : nat := 3.

Definition INVALID_HEIGHT : float32 := f_of_Z (-100000).
Definition f_tenth : float32 := fdiv f_one (f_of_Z 10).

(** A pointer to a generator; the static idle movement is pointer 0. *)
Abbreviation gen := Z (only parsing).
Definition si_idleMovement : gen := 0.

Inductive motion_event :=
| EvInitialize (g : gen)
| EvFinalize (g : gen)
| EvReset (g : gen)
| EvUpdate (g : gen)
| EvSpeedChanged (g : gen)
| EvDelete (g : gen)
| EvLaunch.

#[export] Instance motion_event_eq_dec : EqDecision motion_event.
Proof. solve_decision. Defined.

(* [game/Movement/MotionMaster.h:196-201] MotionMaster *)
Record MotionMaster := mkMotion {
  _expList : option (list gen);
  Impl : list (option gen);
  _top : Z;
  _needInit : list bool;
  flag_update : bool;
  flag_reset : bool;
  generators : gmap Z MovementGeneratorType;
  next_gen : Z;
  log : list motion_event
}.

(* [game/Movement/MotionMaster.h:99-106] MotionMaster::MotionMaster *)
Definition new_MotionMaster : MotionMaster :=
  mkMotion None (repeat None MAX_MOTION_SLOT) (-1) (repeat true MAX_MOTION_SLOT) false false ∅ 1 [].

Inductive fault := UseAfterFree | NullPointer | OutOfBounds | AssertFailed | OutOfFuel.
Abbreviation T := (M MotionMaster fault).

Definition set_expList (l : option (list gen)) (s : MotionMaster) : MotionMaster :=
  mkMotion l (Impl s) (_top s) (_needInit s) (flag_update s) (flag_reset s) (generators s) (next_gen s) (log s).
Definition set_Impl (l : list (option gen)) (s : MotionMaster) : MotionMaster :=
  mkMotion (_expList s) l (_top s) (_needInit s) (flag_update s) (flag_reset s) (generators s) (next_gen s) (log s).
Definition set_top (t : Z) (s : MotionMaster) : MotionMaster :=
  mkMotion (_expList s) (Impl s) t (_needInit s) (flag_update s) (flag_reset s) (generators s) (next_gen s) (log s).
Definition set_needInit (l : list bool) (s : MotionMaster) : MotionMaster :=
  mkMotion (_expList s) (Impl s) (_top s) l (flag_update s) (flag_reset s) (generators s) (next_gen s) (log s).
Definition set_update (b : bool) (s : MotionMaster) : MotionMaster :=
  mkMotion (_expList s) (Impl s) (_top s) (_needInit s) b (flag_reset s) (generators s) (next_gen s) (log s).
Definition set_reset (b : bool) (s : MotionMaster) : MotionMaster :=
  mkMotion (_expList s) (Impl s) (_top s) (_needInit s) (flag_update s) b (generators s) (next_gen s) (log s).
Definition set_generators (k : gmap Z MovementGeneratorType) (n : Z) (s : MotionMaster) : MotionMaster :=
  mkMotion (_expList s) (Impl s) (_top s) (_needInit s) (flag_update s) (flag_reset s) k n (log s).
Definition emit (e : motion_event) (s : MotionMaster) : MotionMaster :=
  mkMotion (_expList s) (Impl s) (_top s) (_needInit s) (flag_update s) (flag_reset s) (generators s) (next_gen s)
           (log s ++ [e]).

(** What the master reads of its owner. *)
Record Owner := mkOwner {
  is_player : bool;
  has_charmer_or_owner : bool;
  charmer_or_owner_found : bool;
  disable_move : bool;
  is_pet : bool;
  prevents_fleeing : bool;
  root_or_stunned : bool;
  movespline_finalized : bool;
  default_movement : option MovementGeneratorType;
  taxi_paths : Z;
  position_z : float32;
  ground_height : float32
}.

(** ** The slots *)

Definition get_slot (slot : Z) (s : MotionMaster) : option (option gen) := znth (Impl s) slot.
Definition put_slot (slot : Z) (g : option gen) (s : MotionMaster) : MotionMaster := set_Impl (zset (Impl s) slot g) s.

(* [game/Movement/MotionMaster.h:112-112] MotionMaster::empty *)
Definition empty (s : MotionMaster) : bool := _top s <? 0.
(* [game/Movement/MotionMaster.h:113-113] MotionMaster::size *)
Definition size (s : MotionMaster) : Z := _top s + 1.

(* [game/Movement/MotionMaster.h:114-114] MotionMaster::top *)
Definition top : T (option gen) :=
  s ← get; match get_slot (_top s) s with Some g => mret g | None => throw OutOfBounds end.

Section Lowest.
Context (lowest : Z).

(** Whether the word read as [Impl[i]] is not null. *)
Definition not_null_at (s : MotionMaster) (i : Z) : bool :=
  if 0 <=? i then match get_slot i s with Some (Some _) => true | _ => false end
  else if i =? -1 then match _expList s with Some _ => true | None => false end
  else i <=? lowest.

(** The search for the next occupied slot, downwards. *)
(* [game/Movement/MotionMaster.h:90-91] MotionMaster::pop *)
Fixpoint find_top (turns : nat) : T unit :=
  s ← get;
  if not_null_at s (_top s) then mret tt
  else
    match turns with
    | O => throw OutOfFuel
    | S turns => modify (set_top (_top s - 1)) ;; find_top turns
    end.
Definition search_top : T unit := s ← get; find_top (Z.to_nat (_top s - lowest)).

(* [game/Movement/MotionMaster.h:87-92] MotionMaster::pop *)
Definition pop : T unit := s ← get; modify (put_slot (_top s) None) ;; search_top.

(* [game/Movement/MotionMaster.h:95-95] MotionMaster::needInitTop *)
Definition needInitTop : T bool :=
  s ← get; match znth (_needInit s) (_top s) with Some b => mret b | None => throw OutOfBounds end.

(** ** Generators *)

(** [new]: a pointer never used before. *)
Definition new_gen (t : MovementGeneratorType) : T gen :=
  s ← get; modify (set_generators (<[next_gen s := t]> (generators s)) (next_gen s + 1)) ;; mret (next_gen s).

(* [game/Movement/MotionMaster.cpp:36-39] isStatic *)
Definition isStatic (g : gen) : bool := g =? si_idleMovement.

Definition type_of (g : gen) : T MovementGeneratorType :=
  s ← get;
  if isStatic g then mret IDLE_MOTION_TYPE
  else match generators s !! g with Some t => mret t | None => throw UseAfterFree end.
Definition deref (p : option gen) : T gen :=
  match p with None => throw NullPointer | Some g => _ ← type_of g; mret g end.

(** The four callbacks of a generator. *)
Inductive callback := Initialize_ | Finalize_ | Reset_ | Update_.

Section Reentrant.
Context (run : gen -> callback -> T unit).

Definition g_Initialize (g : gen) : T unit := modify (emit (EvInitialize g)) ;; run g Initialize_.
Definition g_Finalize (g : gen) : T unit := modify (emit (EvFinalize g)) ;; run g Finalize_.
Definition g_Reset (g : gen) : T unit := modify (emit (EvReset g)) ;; run g Reset_.

(* [game/Movement/MotionMaster.cpp:645-649] MotionMaster::InitTop *)
Definition InitTop : T unit :=
  p ← top; g ← deref p; g_Initialize g ;;
  s ← get;
  if (0 <=? _top s) && (_top s <? zlen (_needInit s)) then modify (set_needInit (zset (_needInit s) (_top s) false))
  else throw OutOfBounds.

(** [Reset] of the top. *)
Definition ResetTop : T unit := p ← top; g ← deref p; g_Reset g.

(* [game/Movement/MotionMaster.cpp:651-657] MotionMaster::DirectDelete *)
Definition DirectDelete (p : option gen) : T unit :=
  match p with
  | None => throw NullPointer
  | Some g =>
    if isStatic g then mret tt
    else
      _ ← deref (Some g);
      g_Finalize g ;;
      _ ← deref (Some g);
      modify (fun s => emit (EvDelete g) (set_generators (base.delete g (generators s)) (next_gen s) s))
  end.

(* [game/Movement/MotionMaster.cpp:659-667] MotionMaster::DelayedDelete *)
Definition DelayedDelete (p : option gen) : T unit :=
  g ← deref p;
  if isStatic g then mret tt
  else modify (fun s => set_expList (Some (default [] (_expList s) ++ [g])) s).

(* [game/Movement/MotionMaster.cpp:558-581] MotionMaster::Mutate *)
Definition Mutate (m : gen) (slot : Z) : T unit :=
  s ← get;
  match get_slot slot s with
  | None => throw OutOfBounds
  | Some (Some curr) =>
    modify (put_slot slot None) ;;
    if (_top s =? slot) && flag_update s then DelayedDelete (Some curr) else DirectDelete (Some curr)
  | Some None => if _top s <? slot then modify (set_top slot) else mret tt
  end ;;
  modify (put_slot slot (Some m)) ;;
  s ← get;
  if slot <? _top s then modify (set_needInit (zset (_needInit s) slot true))
  else
    modify (set_needInit (zset (_needInit s) slot false)) ;;
    g ← deref (Some m); g_Initialize g.

Section Owned.
Context (owner : Owner).

(* [game/Movement/MotionMaster.cpp:55-66] MotionMaster::InitDefault *)
Definition InitDefault : T unit :=
  if is_player owner then Mutate si_idleMovement MOTION_SLOT_IDLE
  else
    match default_movement owner with
    | None => Mutate si_idleMovement MOTION_SLOT_IDLE
    | Some t => g ← new_gen t; Mutate g MOTION_SLOT_IDLE
    end.

(** [while (!empty())] of [Initialize] and the destructor, with the turns it may
    take. *)
(* [game/Movement/MotionMaster.cpp:44-49] MotionMaster::Initialize *)
Fixpoint clear_loop (turns : nat) : T unit :=
  s ← get;
  if empty s then mret tt
  else
    match turns with
    | O => throw OutOfFuel
    | S turns =>
      curr ← top; pop ;;
      match curr with Some g => DirectDelete (Some g) | None => mret tt end ;;
      clear_loop turns
    end.

(* [game/Movement/MotionMaster.cpp:41-52] MotionMaster::Initialize *)
Definition Initialize (turns : nat) : T unit := clear_loop turns ;; InitDefault.

(* [game/Movement/MotionMaster.cpp:68-77] MotionMaster::~MotionMaster *)
Definition delete_MotionMaster (turns : nat) : T unit := clear_loop turns.

(** [while (size() > 1)] of the two cleanings. *)
(* [game/Movement/MotionMaster.cpp:125-130] MotionMaster::DirectClean *)
Fixpoint clean_loop (turns : nat) (discard : option gen -> T unit) : T unit :=
  s ← get;
  if negb (1 <? size s) then mret tt
  else
    match turns with
    | O => throw OutOfFuel
    | S turns =>
      curr ← top; pop ;;
      match curr with Some g => discard (Some g) | None => mret tt end ;;
      clean_loop turns discard
    end.

(* [game/Movement/MotionMaster.cpp:123-136] MotionMaster::DirectClean *)
Definition DirectClean (turns : nat) (reset : bool) : T unit :=
  clean_loop turns DirectDelete ;;
  need ← needInitTop;
  if (need : bool) then InitTop else if reset then ResetTop else mret tt.

(* [game/Movement/MotionMaster.cpp:138-147] MotionMaster::DelayedClean *)
Definition DelayedClean (turns : nat) : T unit := clean_loop turns DelayedDelete.

(* [game/Movement/MotionMaster.cpp:149-167] MotionMaster::DirectExpire *)
Definition DirectExpire (turns : nat) (reset : bool) : T unit :=
  s ← get;
  (if 1 <? size s then curr ← top; pop ;; DirectDelete curr else mret tt) ;;
  search_top ;;
  s ← get;
  if empty s then Initialize turns
  else
    need ← needInitTop;
    if (need : bool) then InitTop else if reset then ResetTop else mret tt.

(* [game/Movement/MotionMaster.cpp:169-180] MotionMaster::DelayedExpire *)
Definition DelayedExpire : T unit :=
  s ← get;
  (if 1 <? size s then curr ← top; pop ;; DelayedDelete curr else mret tt) ;;
  search_top.

(* [game/Movement/MotionMaster.h:121-133] MotionMaster::Clear *)
Definition Clear (turns : nat) (reset : bool) : T unit :=
  s ← get;
  if flag_update s then modify (set_reset reset) ;; DelayedClean turns else DirectClean turns reset.

(* [game/Movement/MotionMaster.h:134-146] MotionMaster::MovementExpired *)
Definition MovementExpired (turns : nat) (reset : bool) : T unit :=
  s ← get;
  if flag_update s then modify (set_reset reset) ;; DelayedExpire else DirectExpire turns reset.

(* [game/Movement/MotionMaster.cpp:182-187] MotionMaster::MoveIdle *)
Definition MoveIdle : T unit :=
  s ← get;
  if empty s then Mutate si_idleMovement MOTION_SLOT_IDLE
  else
    p ← top;
    match p with
    | Some g => if isStatic g then mret tt else Mutate si_idleMovement MOTION_SLOT_IDLE
    | None => Mutate si_idleMovement MOTION_SLOT_IDLE
    end.

(** [Mutate(new ...(...), slot)] *)
Definition move (t : MovementGeneratorType) (slot : Z) : T unit := g ← new_gen t; Mutate g slot.
(** ** The commands *)

(** Which movement a command starts, in which slot; [None] when it starts none. *)
Inductive command :=
| MoveIdle_
| MoveRandom
| MoveTargetedHome
| MoveConfused
| MoveChase (target_ok : bool)
| MoveFollow (target_ok : bool) (target_is_player : bool) (slot : Z)
| MovePoint
| MoveLand
| MoveTakeoff
| MoveKnockbackFrom (speedXY : float32)
| MoveJumpTo (speedXY : float32)
| MoveJump (speedXY : float32)
| CustomJump
| ForceMoveJump
| MoveFall
| MoveCharge
| MoveSeekAssistance
| MoveSeekAssistanceDistract
| MoveFleeing (enemy : bool) (time : Z)
| MoveTaxiFlight (path : Z)
| MoveDistract
| MovePath (path_id : Z)
| MoveRotate (time : Z)
| Clear_ (reset : bool)
| MovementExpired_ (reset : bool).

Definition launch : T unit := modify (emit EvLaunch).

(* [game/Movement/MotionMaster.cpp:189-196] MotionMaster::MoveRandom *)
Definition do_MoveRandom : T unit :=
  if is_player owner then mret tt else move RANDOM_MOTION_TYPE MOTION_SLOT_IDLE.

(* [game/Movement/MotionMaster.cpp:198-221] MotionMaster::MoveTargetedHome *)
Definition do_MoveTargetedHome (turns : nat) : T unit :=
  Clear turns false ;;
  if is_player owner then mret tt
  else if negb (has_charmer_or_owner owner) then move HOME_MOTION_TYPE MOTION_SLOT_ACTIVE
  else if charmer_or_owner_found owner then move FOLLOW_MOTION_TYPE MOTION_SLOT_ACTIVE
  else mret tt.

(* [game/Movement/MotionMaster.cpp:223-236] MotionMaster::MoveConfused *)
Definition do_MoveConfused : T unit := move CONFUSED_MOTION_TYPE MOTION_SLOT_CONTROLLED.

(** [target_ok]: there is a target and it is not the owner. *)
(* [game/Movement/MotionMaster.cpp:238-261] MotionMaster::MoveChase *)
Definition do_MoveChase (target_ok : bool) : T unit :=
  if negb target_ok || disable_move owner then mret tt else move CHASE_MOTION_TYPE MOTION_SLOT_ACTIVE.

(* [game/Movement/MotionMaster.cpp:263-291] MotionMaster::MoveFollow *)
Definition do_MoveFollow (target_ok target_is_player : bool) (slot : Z) : T unit :=
  if negb target_ok || disable_move owner then mret tt
  else if is_player owner then move FOLLOW_MOTION_TYPE slot
  else if is_pet owner && target_is_player then move FOLLOW_MOTION_TYPE slot
  else move FOLLOW_MOTION_TYPE slot.

(* [game/Movement/MotionMaster.cpp:293-306] MotionMaster::MovePoint *)
Definition do_MovePoint : T unit := move POINT_MOTION_TYPE MOTION_SLOT_ACTIVE.

(* [game/Movement/MotionMaster.cpp:308-320] MotionMaster::MoveLand *)
Definition do_MoveLand : T unit := launch ;; move EFFECT_MOTION_TYPE MOTION_SLOT_ACTIVE.

(* [game/Movement/MotionMaster.cpp:322-334] MotionMaster::MoveTakeoff *)
Definition do_MoveTakeoff : T unit := launch ;; move EFFECT_MOTION_TYPE MOTION_SLOT_ACTIVE.

(* [game/Movement/MotionMaster.cpp:336-359] MotionMaster::MoveKnockbackFrom *)
Definition do_MoveKnockbackFrom (speedXY : float32) : T unit :=
  if is_player owner then mret tt
  else if fle speedXY f_tenth then mret tt
  else launch ;; move EFFECT_MOTION_TYPE MOTION_SLOT_CONTROLLED.

(* [game/Movement/MotionMaster.cpp:375-393] MotionMaster::MoveJump *)
Definition do_MoveJump (speedXY : float32) : T unit :=
  if fle speedXY f_tenth then mret tt
  else launch ;; move EFFECT_MOTION_TYPE MOTION_SLOT_CONTROLLED.

(* [game/Movement/MotionMaster.cpp:361-373] MotionMaster::MoveJumpTo *)
Definition do_MoveJumpTo (speedXY : float32) : T unit :=
  if is_player owner then mret tt else do_MoveJump speedXY.

(* [game/Movement/MotionMaster.cpp:395-409] MotionMaster::CustomJump *)
Definition do_CustomJump : T unit := move EFFECT_MOTION_TYPE MOTION_SLOT_CONTROLLED ;; launch.

(* [game/Movement/MotionMaster.cpp:681-691] MotionMaster::ForceMoveJump *)
Definition do_ForceMoveJump : T unit := launch ;; move EFFECT_MOTION_TYPE MOTION_SLOT_CONTROLLED.

(* [game/Movement/MotionMaster.cpp:411-437] MotionMaster::MoveFall *)
Definition do_MoveFall : T unit :=
  if fle (ground_height owner) INVALID_HEIGHT then mret tt
  else if flt (SFabs (fsub (position_z owner) (ground_height owner))) f_tenth then mret tt
  else launch ;; move EFFECT_MOTION_TYPE MOTION_SLOT_CONTROLLED.

(* [game/Movement/MotionMaster.cpp:439-455] MotionMaster::MoveCharge *)
Definition do_MoveCharge : T unit :=
  s ← get;
  match get_slot MOTION_SLOT_CONTROLLED s with
  | Some (Some g) =>
    t ← type_of g;
    if bool_decide (t = DISTRACT_MOTION_TYPE) then move POINT_MOTION_TYPE MOTION_SLOT_CONTROLLED else mret tt
  | _ => move POINT_MOTION_TYPE MOTION_SLOT_CONTROLLED
  end.

(* [game/Movement/MotionMaster.cpp:457-471] MotionMaster::MoveSeekAssistance *)
Definition do_MoveSeekAssistance : T unit :=
  if is_player owner then mret tt else move ASSISTANCE_MOTION_TYPE MOTION_SLOT_ACTIVE.

(* [game/Movement/MotionMaster.cpp:473-485] MotionMaster::MoveSeekAssistanceDistract *)
Definition do_MoveSeekAssistanceDistract : T unit :=
  if is_player owner then mret tt else move ASSISTANCE_DISTRACT_MOTION_TYPE MOTION_SLOT_ACTIVE.

(* [game/Movement/MotionMaster.cpp:487-514] MotionMaster::MoveFleeing *)
Definition do_MoveFleeing (enemy : bool) (time : Z) : T unit :=
  if negb enemy then mret tt
  else if prevents_fleeing owner then mret tt
  else if is_player owner then move FLEEING_MOTION_TYPE MOTION_SLOT_CONTROLLED
  else if negb (time =? 0) then move TIMED_FLEEING_MOTION_TYPE MOTION_SLOT_CONTROLLED
  else move FLEEING_MOTION_TYPE MOTION_SLOT_CONTROLLED.

(* [game/Movement/MotionMaster.cpp:516-537] MotionMaster::MoveTaxiFlight *)
Definition do_MoveTaxiFlight (path : Z) : T unit :=
  if is_player owner && (path <? taxi_paths owner) then move FLIGHT_MOTION_TYPE MOTION_SLOT_CONTROLLED else mret tt.

(* [game/Movement/MotionMaster.cpp:539-556] MotionMaster::MoveDistract *)
Definition do_MoveDistract : T unit :=
  s ← get;
  match get_slot MOTION_SLOT_CONTROLLED s with
  | Some (Some _) => mret tt
  | _ => move DISTRACT_MOTION_TYPE MOTION_SLOT_CONTROLLED
  end.

(* [game/Movement/MotionMaster.cpp:583-605] MotionMaster::MovePath *)
Definition do_MovePath (path_id : Z) : T unit :=
  if path_id =? 0 then mret tt else move WAYPOINT_MOTION_TYPE MOTION_SLOT_IDLE.

(* [game/Movement/MotionMaster.cpp:607-613] MotionMaster::MoveRotate *)
Definition do_MoveRotate (time : Z) : T unit :=
  if time =? 0 then mret tt else move ROTATE_MOTION_TYPE MOTION_SLOT_ACTIVE.

Definition perform (turns : nat) (c : command) : T unit :=
  match c with
  | MoveIdle_ => MoveIdle
  | MoveRandom => do_MoveRandom
  | MoveTargetedHome => do_MoveTargetedHome turns
  | MoveConfused => do_MoveConfused
  | MoveChase target_ok => do_MoveChase target_ok
  | MoveFollow target_ok target_is_player slot => do_MoveFollow target_ok target_is_player slot
  | MovePoint => do_MovePoint
  | MoveLand => do_MoveLand
  | MoveTakeoff => do_MoveTakeoff
  | MoveKnockbackFrom speedXY => do_MoveKnockbackFrom speedXY
  | MoveJumpTo speedXY => do_MoveJumpTo speedXY
  | MoveJump speedXY => do_MoveJump speedXY
  | CustomJump => do_CustomJump
  | ForceMoveJump => do_ForceMoveJump
  | MoveFall => do_MoveFall
  | MoveCharge => do_MoveCharge
  | MoveSeekAssistance => do_MoveSeekAssistance
  | MoveSeekAssistanceDistract => do_MoveSeekAssistanceDistract
  | MoveFleeing enemy time => do_MoveFleeing enemy time
  | MoveTaxiFlight path => do_MoveTaxiFlight path
  | MoveDistract => do_MoveDistract
  | MovePath path_id => do_MovePath path_id
  | MoveRotate time => do_MoveRotate time
  | Clear_ reset => Clear turns reset
  | MovementExpired_ reset => MovementExpired turns reset
  end.

(** ** Update *)

(** The generators put off are deleted in order. *)
(* [game/Movement/MotionMaster.cpp:100-104] MotionMaster::UpdateMotion *)
Fixpoint delete_from (turns : nat) (i : nat) : T unit :=
  s ← get;
  match _expList s with
  | None => throw NullPointer
  | Some l =>
    match l !! i with
    | None => mret tt
    | Some mg =>
      match turns with
      | O => throw OutOfFuel
      | S turns => DirectDelete (Some mg) ;; delete_from turns (S i)
      end
    end
  end.

(** [goes_on]: what the generator's [Update] returns.  The call returns into the
    generator, which has to be there still. *)
(* [game/Movement/MotionMaster.cpp:79-121] MotionMaster::UpdateMotion *)
Definition UpdateMotion (turns : nat) (goes_on : bool) : T unit :=
  if root_or_stunned owner then mret tt
  else
    s ← get;
    if empty s then throw AssertFailed
    else
      modify (set_update true) ;;
      p ← top; g ← deref p;
      modify (emit (EvUpdate g)) ;; run g Update_ ;; _ ← deref (Some g);
      modify (set_update false) ;;
      (if negb goes_on then MovementExpired turns true else mret tt) ;;
      s ← get;
      match _expList s with
      | None => mret tt
      | Some l =>
        delete_from turns 0 ;;
        modify (set_expList None) ;;
        s ← get;
        (if empty s then Initialize turns
         else
           need ← needInitTop;
           if (need : bool) then InitTop else if flag_reset s then ResetTop else mret tt) ;;
        modify (set_reset false)
      end.

(** ** What only reads *)

(* [game/Movement/MotionMaster.cpp:615-627] MotionMaster::propagateSpeedChange *)
Definition propagateSpeedChange : T unit :=
  s ← get;
  mapM_ (fun i => match get_slot i s with
                  | Some (Some g) => _ ← deref (Some g); modify (emit (EvSpeedChanged g))
                  | _ => mret tt
                  end) (filter (fun i => i <= _top s) [MOTION_SLOT_IDLE; MOTION_SLOT_ACTIVE; MOTION_SLOT_CONTROLLED]).

(* [game/Movement/MotionMaster.cpp:629-635] MotionMaster::GetCurrentMovementGeneratorType *)
Definition GetCurrentMovementGeneratorType : T MovementGeneratorType :=
  s ← get;
  if empty s then mret IDLE_MOTION_TYPE else p ← top; g ← deref p; type_of g.

(* [game/Movement/MotionMaster.cpp:637-643] MotionMaster::GetMotionSlotType *)
Definition GetMotionSlotType (slot : Z) : T MovementGeneratorType :=
  s ← get;
  match get_slot slot s with
  | None => throw OutOfBounds
  | Some None => mret NULL_MOTION_TYPE
  | Some (Some g) => type_of g
  end.
End Owned.
End Reentrant.

(** ** The knot: callbacks that come back to the master

    [script g c] is what the callback [c] of the generator [g] calls, in order. *)
Section Knot.
Context (owner : Owner) (script : gen -> callback -> list command).

Fixpoint run_callback (fuel : nat) (g : gen) (c : callback) : T unit :=
  match script g c with
  | [] => mret tt
  | calls =>
    match fuel with
    | O => throw OutOfFuel
    | S fuel => mapM_ (perform (run_callback fuel) owner fuel) calls
    end
  end.

(** What happens to a master from outside. *)
Inductive motion_op :=
| OpInitialize
| OpCommand (c : command)
| OpUpdate (goes_on : bool)
| OpSpeedChange.

Definition do_op (fuel : nat) (o : motion_op) : T unit :=
  match o with
  | OpInitialize => Initialize (run_callback fuel) owner fuel
  | OpCommand c => perform (run_callback fuel) owner fuel c
  | OpUpdate goes_on => UpdateMotion (run_callback fuel) owner fuel goes_on
  | OpSpeedChange => propagateSpeedChange
  end.
End Knot.
End Lowest.
