(* ===== verification/MotionSpec.v ===== *)
(** * MotionMaster: the stack of movements, and every generator freed once

    Generators whose callbacks leave the master alone, but for the [Update], which
    may start one movement and clear or expire as it likes. *)

From S2P Require Import Prelude.
From S2P Require Import Float32.
From S2P Require Import Motion.

(** ** Who holds the generators *)

(** The heap object a pointer denotes: none for null and the static movement. *)
Definition real (p : option gen) : list gen :=
  match p with Some g => if isStatic g then [] else [g] | None => [] end.
Definition held (s : MotionMaster) : list gen := mjoin (real <$> Impl s) ++ default [] (_expList s).

Definition count (e : motion_event) (s : MotionMaster) : nat := length (filter (e =.) (log s)).

(** The generators in [hand] are those a program holds while it moves them about.
    Every live generator is held once, in the hand, a slot or the list of the
    expired; and every generator that is not alive any more was finalized once and
    deleted once, no other ever was. *)
Record sound (hand : list gen) (s : MotionMaster) : Prop := {
  so_slots : length (Impl s) = 3%nat;
  so_inits : length (_needInit s) = 3%nat;
  so_once : NoDup (hand ++ held s);
  so_alive : forall g, is_Some (generators s !! g) <-> g ∈ hand ++ held s;
  so_next : 0 < next_gen s;
  so_fresh : forall g, is_Some (generators s !! g) -> 0 < g < next_gen s;
  so_account : forall g, 0 < g ->
    let n := if decide (g < next_gen s /\ generators s !! g = None) then 1%nat else 0%nat in
    count (EvFinalize g) s = n /\ count (EvDelete g) s = n
}.

(** The highest occupied slot is on top, and the lowest is never empty. *)
Record stacked (s : MotionMaster) : Prop := {
  st_range : 0 <= _top s <= 2;
  st_default : exists g, get_slot 0 s = Some (Some g);
  st_top : exists g, get_slot (_top s) s = Some (Some g);
  st_above : forall i, _top s < i <= 2 -> get_slot i s = Some None;
  st_static : forall i, 0 < i <= 2 -> get_slot i s <> Some (Some si_idleMovement)
}.
Definition inited (s : MotionMaster) : Prop := znth (_needInit s) (_top s) = Some false.

(** What the deletion of a generator leaves alone. *)
Record same_slots (s s' : MotionMaster) : Prop := {
  ss_Impl : Impl s' = Impl s;
  ss_top : _top s' = _top s;
  ss_needInit : _needInit s' = _needInit s;
  ss_update : flag_update s' = flag_update s
}.

Lemma same_slots_refl s : same_slots s s.
Proof. done. Qed.

Lemma same_slots_trans s1 s2 s3 : same_slots s1 s2 -> same_slots s2 s3 -> same_slots s1 s3.
Proof. intros [] []. split; congruence. Qed.

Lemma stacked_same s s' : same_slots s s' -> stacked s -> stacked s'.
Proof.
  intros [E1 E2 _ _] [H1 H2 H3 H4 H5]. unfold get_slot in *. split; unfold get_slot; by rewrite ?E1, ?E2.
Qed.

Lemma inited_same s s' : same_slots s s' -> inited s -> inited s'.
Proof. intros [_ E2 E3 _]. unfold inited. by rewrite E2, E3. Qed.

Lemma sound_perm hand hand' s s' :
  sound hand s -> length (Impl s') = 3%nat -> length (_needInit s') = 3%nat ->
  hand' ++ held s' ≡ₚ hand ++ held s -> generators s' = generators s -> next_gen s' = next_gen s -> log s' = log s ->
  sound hand' s'.
Proof.
  intros [H1 H2 H3 H4 H5 H6 H7] L1 L2 Hp Eg En El. split; try done.
  - by rewrite Hp.
  - intros g. rewrite Eg, H4. by rewrite Hp.
  - by rewrite En.
  - intros g. rewrite Eg, En. apply H6.
  - intros g. rewrite Eg, En. unfold count. rewrite El. apply H7.
Qed.

Lemma sound_hand hand hand' s : hand' ≡ₚ hand -> sound hand s -> sound hand' s.
Proof. intros Hp Hs. eapply sound_perm; try done; try apply Hs. by rewrite Hp. Qed.

(** Events that neither finalize nor delete. *)
Lemma sound_emit hand e s :
  (forall g, e <> EvFinalize g /\ e <> EvDelete g) -> sound hand s -> sound hand (emit e s).
Proof.
  intros He [H1 H2 H3 H4 H5 H6 H7]. split; try done. intros g Hg. specialize (H7 g Hg). cbn in H7 |- *.
  unfold count in *. cbn. rewrite !filter_app, !length_app. destruct (He g) as [N1 N2].
  rewrite !(filter_cons_False _ e) by congruence. cbn. by rewrite !Nat.add_0_r.
Qed.

Lemma get_slot_cases hand s i : sound hand s -> 0 <= i <= 2 -> exists o, get_slot i s = Some o.
Proof.
  intros Hs Hi. unfold get_slot, znth. rewrite (proj2 (Z.ltb_ge i 0)) by lia.
  apply lookup_lt_is_Some. rewrite (so_slots _ _ Hs). lia.
Qed.

Lemma get_put i j x s :
  0 <= i <= 2 -> 0 <= j <= 2 -> length (Impl s) = 3%nat ->
  get_slot i (put_slot j x s) = if i =? j then Some x else get_slot i s.
Proof.
  intros Hi Hj Hl. unfold get_slot, put_slot, znth, zset. cbn.
  rewrite (proj2 (Z.ltb_ge i 0)), (proj2 (Z.ltb_ge j 0)) by lia. destruct (Z.eqb_spec i j) as [->|Hn].
  - apply list_lookup_insert_eq. lia.
  - apply list_lookup_insert_ne. lia.
Qed.

Lemma put_length j x s : length (Impl (put_slot j x s)) = length (Impl s).
Proof. unfold put_slot, zset. cbn. destruct (j <? 0); [done|]. apply length_insert. Qed.

(** Putting a pointer into a slot and taking out what was there. *)
Lemma held_put j x o s : get_slot j s = Some o -> real o ++ held (put_slot j x s) ≡ₚ real x ++ held s.
Proof.
  unfold get_slot, put_slot, znth, zset, held. cbn. destruct (j <? 0); [done|]. intros Hj.
  rewrite !app_assoc. apply Permutation_app; [|done].
  generalize dependent (Z.to_nat j). induction (Impl s) as [|y l IH]; intros n Hn; [done|].
  destruct n as [|n]; cbn in Hn |- *.
  - injection Hn as ->. by rewrite !app_assoc, (Permutation_app_comm (real o)).
  - rewrite !app_assoc, (Permutation_app_comm (real o)), (Permutation_app_comm (real x)), <- !app_assoc.
    apply Permutation_app; [done|]. by apply IH.
Qed.

Lemma sound_put hand j x o s :
  get_slot j s = Some o -> sound (real x ++ hand) s -> sound (real o ++ hand) (put_slot j x s).
Proof.
  intros Hj Hs. eapply sound_perm; [exact Hs| | | |done..].
  - rewrite put_length. apply Hs.
  - apply Hs.
  - rewrite (Permutation_app_comm (real o)), (Permutation_app_comm (real x)), <- !app_assoc.
    apply Permutation_app; [done|]. by apply held_put.
Qed.

Lemma deref_runs g s (Q : gen -> MotionMaster -> Prop) :
  isStatic g = true \/ is_Some (generators s !! g) -> Q g s -> runs (deref (Some g)) s Q.
Proof.
  intros Hg HQ. unfold deref, type_of. repeat plain_step. destruct (isStatic g); [by repeat plain_step|].
  destruct Hg as [|[t Ht]]; [done|]. rewrite Ht. by repeat plain_step.
Qed.

Lemma real_alive hand g s : sound (real (Some g) ++ hand) s -> isStatic g = true \/ is_Some (generators s !! g).
Proof.
  intros Hs. cbn in Hs. destruct (isStatic g) eqn:E; [by left|right]. apply (so_alive _ _ Hs). by left.
Qed.

Lemma slot_held g s i : get_slot i s = Some (Some g) -> isStatic g = false -> g ∈ held s.
Proof.
  intros Hi E. unfold held. apply elem_of_app. left. unfold get_slot, znth in Hi. destruct (i <? 0); [done|].
  apply list_elem_of_join. exists (real (Some g)). split.
  - cbn. rewrite E. by left.
  - apply list_elem_of_fmap. exists (Some g). split; [done|]. by eapply list_elem_of_lookup_2.
Qed.

Lemma slot_alive hand g s i :
  sound hand s -> get_slot i s = Some (Some g) -> isStatic g = true \/ is_Some (generators s !! g).
Proof.
  intros Hs Hi. destruct (isStatic g) eqn:E; [by left|right]. apply (so_alive _ _ Hs). apply elem_of_app. right.
  by eapply slot_held.
Qed.

Section Calm.
Context (lowest : Z) (run : gen -> callback -> T unit).
Hypothesis calm : forall g c s, c <> Update_ -> run g c s = (Ok tt, s).

Lemma run_runs g c s (Q : unit -> MotionMaster -> Prop) : c <> Update_ -> Q tt s -> runs (run g c) s Q.
Proof. intros Hc HQ. unfold runs. by rewrite calm. Qed.

(** ** Deleting *)

Lemma filter_pair e g :
  length (filter (e =.) [EvFinalize g; EvDelete g]) = if decide (e = EvFinalize g \/ e = EvDelete g) then 1%nat else 0%nat.
Proof. rewrite !filter_cons, filter_nil. repeat case_decide; first [done|exfalso; intuition congruence]. Qed.

Definition deleted (g : gen) (s : MotionMaster) : MotionMaster :=
  mkMotion (_expList s) (Impl s) (_top s) (_needInit s) (flag_update s) (flag_reset s)
    (base.delete g (generators s)) (next_gen s) (log s ++ [EvFinalize g] ++ [EvDelete g]).

Lemma sound_deleted hand g s : sound (g :: hand) s -> sound hand (deleted g s).
Proof.
  intros [H1 H2 H3 H4 H5 H6 H7]. cbn in H3. apply NoDup_cons in H3 as [Hg H3].
  assert (is_Some (generators s !! g)) as Ha by (apply H4; left). split; try done.
  - intros x. cbn. rewrite lookup_delete_is_Some, H4. cbn. rewrite elem_of_cons. split.
    + intros [? [|]]; [congruence|done].
    + intros Hx. split; [|by right]. by intros ->.
  - intros x. cbn. rewrite lookup_delete_is_Some. intros [_ Hx]. by apply H6.
  - intros x Hx. specialize (H7 x Hx). cbn in H7 |- *. pose proof (H6 _ Ha) as Hr. unfold count, deleted in *. cbn.
    rewrite !filter_app, !length_app, !filter_pair.
    destruct (decide (x = g)) as [->|Hn].
    + rewrite lookup_delete_eq, !decide_True by auto with lia. rewrite decide_False in H7; [lia|].
      intros [_ E]. rewrite E in Ha. by destruct Ha.
    + rewrite lookup_delete_ne by done. rewrite !(decide_False (P := _ \/ _)) by (intros [|]; congruence). lia.
Qed.

(** What a deletion does to the rest of the master. *)
Record discarded (s s' : MotionMaster) : Prop := {
  di_slots : same_slots s s';
  di_next : next_gen s' = next_gen s;
  di_size : (base.size (generators s') <= base.size (generators s))%nat
}.

Lemma DirectDelete_exact g s (Q : unit -> MotionMaster -> Prop) :
  isStatic g = false -> is_Some (generators s !! g) -> Q tt (deleted g s) -> runs (DirectDelete run (Some g)) s Q.
Proof.
  intros E Ha HQ. unfold DirectDelete. rewrite E. plain_step. apply deref_runs; [by right|]. unfold g_Finalize.
  repeat plain_step. apply run_runs; [done|]. repeat plain_step. apply deref_runs; [by right|]. repeat plain_step.
  unfold deleted in HQ. by rewrite app_assoc in HQ.
Qed.

Lemma DirectDelete_runs hand g s :
  sound (real (Some g) ++ hand) s ->
  runs (DirectDelete run (Some g)) s (fun _ s' =>
    sound hand s' /\ discarded s s' /\ _expList s' = _expList s /\
    forall r, r <> g -> is_Some (generators s !! r) -> is_Some (generators s' !! r)).
Proof.
  intros Hs. pose proof (real_alive _ _ _ Hs) as Ha. cbn in Hs.
  destruct (isStatic g) eqn:E; [unfold DirectDelete; rewrite E; by repeat plain_step|]. destruct Ha as [|Ha]; [done|].
  apply DirectDelete_exact; [done|done|]. split; [by apply sound_deleted|]. split; [|split; [done|]].
  - split; [done|done|]. cbn. rewrite map_size_delete. destruct (generators s !! g); cbn; lia.
  - intros r Hr Ha'. cbn. by rewrite lookup_delete_ne.
Qed.

(** What is put off is kept. *)
Definition delayed (s s' : MotionMaster) : Prop := generators s' = generators s /\ (_expList s <> None -> _expList s' <> None).

Lemma DelayedDelete_runs hand g s :
  sound (real (Some g) ++ hand) s ->
  runs (DelayedDelete (Some g)) s (fun _ s' => sound hand s' /\ discarded s s' /\ delayed s s' /\
    (isStatic g = false -> _expList s' <> None)).
Proof.
  intros Hs. unfold DelayedDelete. pose proof (real_alive _ _ _ Hs) as Ha. repeat plain_step.
  apply deref_runs; [done|]. cbn in Hs. destruct (isStatic g) eqn:E; repeat plain_step.
  - split; [done|]. split; [done|]. split; [done|by intros [=]].
  - split; [|split; [done|split; [done|done]]]. eapply sound_perm; [exact Hs|apply Hs|apply Hs| |done..].
    unfold held. cbn. rewrite !app_assoc. rewrite (Permutation_app_comm _ [g]). done.
Qed.

(** The two ways of discarding a generator taken off the stack; [K] is what the way
    keeps of the live generators. *)
Definition discards (K : MotionMaster -> MotionMaster -> Prop) (f : option gen -> T unit) : Prop := forall hand g s,
  sound (real (Some g) ++ hand) s -> runs (f (Some g)) s (fun _ s' => sound hand s' /\ discarded s s' /\ K s s').

Definition same_expired (s s' : MotionMaster) : Prop := _expList s' = _expList s.

Lemma DirectDelete_discards : discards same_expired (DirectDelete run).
Proof. intros hand g s Hs. eapply runs_mono; [by apply DirectDelete_runs|]. by intros [] s' (? & ? & ? & _). Qed.

(** ** The search for the top *)

Lemma find_top_runs turns s i :
  i <= _top s -> not_null_at lowest s i = true -> (forall j, i < j <= _top s -> not_null_at lowest s j = false) ->
  _top s - i <= Z.of_nat turns ->
  runs (find_top lowest turns) s (fun _ s' => s' = set_top i s).
Proof.
  revert s. induction turns as [|turns IH]; intros s Hi Hn Ha Hf; cbn [find_top]; repeat plain_step.
  - assert (_top s = i) as E by lia. rewrite E, Hn. repeat plain_step. destruct s. cbn in E. by subst.
  - destruct (decide (_top s = i)) as [E|E].
    + rewrite E, Hn. repeat plain_step. destruct s. cbn in E. by subst.
    + rewrite Ha by lia. repeat plain_step. eapply runs_mono; [apply IH; cbn; [lia|exact Hn| |lia]|].
      * intros j Hj. change (not_null_at lowest (set_top (_top s - 1) s) j) with (not_null_at lowest s j). apply Ha. lia.
      * by intros [] s' ->.
Qed.

Lemma not_null_slot s i : 0 <= i -> not_null_at lowest s i = match get_slot i s with Some (Some _) => true | _ => false end.
Proof. intros Hi. unfold not_null_at. by rewrite (proj2 (Z.leb_le 0 i)). Qed.

Hypothesis low : lowest <= -2.

Record popped (s s' : MotionMaster) : Prop := {
  po_top : 0 <= _top s' < _top s;
  po_slots : forall i, 0 <= i <= 2 -> get_slot i s' = if i =? _top s then Some None else get_slot i s;
  po_needInit : _needInit s' = _needInit s;
  po_update : flag_update s' = flag_update s;
  po_generators : generators s' = generators s;
  po_expList : _expList s' = _expList s
}.

(** The highest occupied slot below the top. *)
Lemma highest_below s :
  stacked s -> 0 < _top s -> length (Impl s) = 3%nat ->
  exists i, 0 <= i < _top s /\ (exists g, get_slot i s = Some (Some g)) /\ forall j, i < j < _top s -> get_slot j s = Some None.
Proof.
  intros [Hr H0 _ _ _] Ht Hl. destruct (decide (_top s = 2)) as [E|E].
  - destruct (get_slot 1 s) as [[g|]|] eqn:E1.
    + exists 1. split; [lia|]. split; [eauto|]. intros. lia.
    + exists 0. split; [lia|]. split; [done|]. intros j Hj. by replace j with 1 by lia.
    + exfalso. unfold get_slot, znth in E1. cbn in E1. apply lookup_ge_None in E1. lia.
  - exists 0. split; [lia|]. split; [done|]. intros. lia.
Qed.

Lemma pop_runs hand g s :
  stacked s -> sound hand s -> 0 < _top s -> get_slot (_top s) s = Some (Some g) ->
  runs (pop lowest) s (fun _ s' => sound (real (Some g) ++ hand) s' /\ stacked s' /\ popped s s').
Proof.
  intros Hst Hs Ht Hg. pose proof (st_range _ Hst) as Hr. pose proof (so_slots _ _ Hs) as Hl.
  destruct (highest_below s Hst Ht Hl) as (i & Hi & Hocc & Habove).
  unfold pop, search_top. repeat plain_step. set (s1 := put_slot (_top s) None s).
  assert (forall j, 0 <= j <= 2 -> get_slot j s1 = if j =? _top s then Some None else get_slot j s) as Hget.
  { intros j Hj. by apply get_put. }
  eapply runs_mono; [apply (find_top_runs _ _ i); cbn [_top set_Impl put_slot s1]; try lia|].
  - rewrite not_null_slot, Hget by lia. rewrite (proj2 (Z.eqb_neq i (_top s))) by lia. by destruct Hocc as [x ->].
  - intros j Hj. change (_top s1) with (_top s) in Hj. rewrite not_null_slot, Hget by lia.
    destruct (Z.eqb_spec j (_top s)); [done|]. by rewrite Habove by lia.
  - intros [] s' ->. cbn beta. split; [|split].
    + eapply sound_perm; [apply (sound_put hand (_top s) None (Some g)); [done|by apply Hs]|..]; try done.
      * change (length (Impl s1) = 3%nat). unfold s1. by rewrite put_length.
      * apply Hs.
    + destruct Hst as [_ H0 _ Hab Hid]. split; cbn [_top set_top].
      * lia.
      * change (get_slot 0 (set_top i s1)) with (get_slot 0 s1). rewrite Hget by lia.
        by rewrite (proj2 (Z.eqb_neq 0 (_top s))) by lia.
      * change (get_slot i (set_top i s1)) with (get_slot i s1). rewrite Hget by lia.
        by rewrite (proj2 (Z.eqb_neq i (_top s))) by lia.
      * intros j Hj. change (get_slot j (set_top i s1)) with (get_slot j s1). rewrite Hget by lia.
        destruct (Z.eqb_spec j (_top s)); [done|]. destruct (decide (j < _top s)); [apply Habove; lia|apply Hab; lia].
      * intros j Hj. change (get_slot j (set_top i s1)) with (get_slot j s1). rewrite Hget by lia.
        destruct (Z.eqb_spec j (_top s)); [done|]. by apply Hid.
    + split; cbn [_top set_top]; [lia|exact Hget|done..].
Qed.

Lemma top_runs g s (Q : option gen -> MotionMaster -> Prop) :
  get_slot (_top s) s = Some (Some g) -> Q (Some g) s -> runs top s Q.
Proof. intros Hg HQ. unfold top. repeat plain_step. rewrite Hg. by repeat plain_step. Qed.

(** ** Clearing down to the default movement *)

Section Discard.
Context (K : MotionMaster -> MotionMaster -> Prop) (discard : option gen -> T unit).
Hypothesis K_refl : forall s s', generators s' = generators s -> _expList s' = _expList s -> K s s'.
Hypothesis K_trans : forall s1 s2 s3, K s1 s2 -> K s2 s3 -> K s1 s3.
Hypothesis K_discard : discards K discard.

(** The slots above the default one were emptied. *)
Record cleaned (s s' : MotionMaster) : Prop := {
  cl_top : _top s' = 0;
  cl_default : get_slot 0 s' = get_slot 0 s;
  cl_needInit : _needInit s' = _needInit s;
  cl_update : flag_update s' = flag_update s;
  cl_keeps : K s s'
}.

Lemma clean_loop_runs turns s :
  stacked s -> sound [] s -> _top s <= Z.of_nat turns ->
  runs (clean_loop lowest turns discard) s (fun _ s' => sound [] s' /\ stacked s' /\ cleaned s s').
Proof.
  revert s. induction turns as [|turns IH]; intros s Hst Hs Ht; pose proof (st_range _ Hst) as Hr;
    cbn [clean_loop]; plain_step; plain_step; unfold size;
    (destruct (Z.ltb_spec 1 (_top s + 1)); cbn [negb]; [|plain_step; split_and!; [done|done|split; [lia|done..|by apply K_refl]]]).
  - lia.
  - destruct (st_top _ Hst) as [g Hg]. plain_step. eapply top_runs; [done|]. plain_step.
    eapply runs_mono; [by apply pop_runs; try lia|]. intros [] s1 (Hs1 & Hst1 & [Hp1 Hp2 Hp3 Hp4 Hp5 Hp6]). plain_step.
    eapply runs_mono; [by apply K_discard|]. intros [] s2 (Hs2 & [Hss _ Hsz] & HK).
    eapply runs_mono; [apply IH; [by eapply stacked_same|done|]|].
    + rewrite (ss_top _ _ Hss). lia.
    + intros [] s3 (Hs3 & Hst3 & [C1 C2 C3 C4 C5]). split_and!; [done|done|]. destruct Hss as [E1 E2 E3 E4]. split.
      * done.
      * rewrite C2. unfold get_slot at 1. rewrite E1. change (get_slot 0 s1 = get_slot 0 s). rewrite Hp2 by lia.
        by rewrite (proj2 (Z.eqb_neq 0 (_top s))) by lia.
      * congruence.
      * congruence.
      * eapply K_trans; [|exact C5]. eapply K_trans; [|exact HK]. by apply K_refl.
Qed.
End Discard.

(** ** Starting the top again *)

(** Nothing of the slots and generators is touched. *)
Record untouched (s s' : MotionMaster) : Prop := {
  un_Impl : Impl s' = Impl s;
  un_top : _top s' = _top s;
  un_update : flag_update s' = flag_update s;
  un_expList : _expList s' = _expList s;
  un_generators : generators s' = generators s
}.

Lemma needInitTop_runs hand s (Q : bool -> MotionMaster -> Prop) :
  stacked s -> sound hand s -> (forall b, (b = false -> inited s) -> Q b s) -> runs needInitTop s Q.
Proof.
  intros Hst Hs HQ. unfold needInitTop. repeat plain_step. pose proof (st_range _ Hst) as Hr.
  assert (exists b, znth (_needInit s) (_top s) = Some b) as [b Hb].
  { unfold znth. rewrite (proj2 (Z.ltb_ge _ 0)) by lia. apply lookup_lt_is_Some. rewrite (so_inits _ _ Hs). lia. }
  rewrite Hb. repeat plain_step. apply HQ. intros ->. exact Hb.
Qed.

Lemma znth_zset_eq {A} (l : list A) i x : 0 <= i < zlen l -> znth (zset l i x) i = Some x.
Proof.
  unfold znth, zset, zlen. intros Hi. rewrite (proj2 (Z.ltb_ge i 0)) by lia. apply list_lookup_insert_eq. lia.
Qed.

Lemma znth_zset_ne {A} (l : list A) i j x : 0 <= i -> 0 <= j -> i <> j -> znth (zset l j x) i = znth l i.
Proof.
  unfold znth, zset. intros Hi Hj Hn. rewrite (proj2 (Z.ltb_ge i 0)), (proj2 (Z.ltb_ge j 0)) by lia.
  apply list_lookup_insert_ne. lia.
Qed.

Lemma zset_length {A} (l : list A) i x : length (zset l i x) = length l.
Proof. unfold zset. destruct (i <? 0); [done|apply length_insert]. Qed.

Definition settle (reset : bool) : T unit :=
  need ← needInitTop; if (need : bool) then InitTop run else if reset then ResetTop run else mret tt.

Lemma settle_runs reset s :
  stacked s -> sound [] s ->
  runs (settle reset) s (fun _ s' => sound [] s' /\ stacked s' /\ inited s' /\ untouched s s').
Proof.
  intros Hst Hs. unfold settle. destruct (st_top _ Hst) as [g Hg]. pose proof (slot_alive _ _ _ _ Hs Hg) as Ha.
  plain_step. eapply needInitTop_runs; [done|done|]. intros b Hb. destruct b; [|destruct reset].
  - unfold InitTop. plain_step. eapply top_runs; [done|]. plain_step. apply deref_runs; [done|]. unfold g_Initialize.
    repeat plain_step. apply run_runs; [done|]. repeat plain_step. cbn [_top emit _needInit].
    pose proof (st_range _ Hst) as Hr. pose proof (so_inits _ _ Hs) as Hl.
    assert (zlen (_needInit s) = 3) as Hz by (unfold zlen; lia). rewrite Hz.
    rewrite (proj2 (Z.leb_le 0 _)), (proj2 (Z.ltb_lt _ 3)) by lia. cbn [andb]. repeat plain_step.
    assert (sound [] (emit (EvInitialize g) s)) as Hse by (by apply sound_emit).
    split_and!; [|by destruct Hst| |done].
    + eapply sound_perm; [exact Hse|apply Hs| |done..]. cbn. by rewrite zset_length.
    + apply znth_zset_eq. cbn. lia.
  - unfold ResetTop. plain_step. eapply top_runs; [done|]. plain_step. apply deref_runs; [done|]. unfold g_Reset.
    repeat plain_step. apply run_runs; [done|]. split_and!; [by apply sound_emit|by destruct Hst|by apply Hb|done].
  - repeat plain_step. split_and!; [done|done|by apply Hb|done].
Qed.

Lemma search_top_runs s (Q : unit -> MotionMaster -> Prop) : stacked s -> Q tt s -> runs (search_top lowest) s Q.
Proof.
  intros Hst HQ. unfold search_top. plain_step. plain_step. destruct (st_top _ Hst) as [g Hg].
  pose proof (st_range _ Hst) as Hr.
  assert (not_null_at lowest s (_top s) = true) as Hn by (rewrite not_null_slot, Hg; lia || done).
  destruct (Z.to_nat (_top s - lowest)); cbn [find_top]; repeat plain_step; rewrite Hn; by repeat plain_step.
Qed.

Lemma DirectClean_runs turns reset s :
  stacked s -> sound [] s -> 2 <= Z.of_nat turns ->
  runs (DirectClean lowest run turns reset) s (fun _ s' =>
    sound [] s' /\ stacked s' /\ inited s' /\ flag_update s' = flag_update s /\ _expList s' = _expList s).
Proof.
  intros Hst Hs Ht. unfold DirectClean. plain_step. pose proof (st_range _ Hst).
  eapply runs_mono; [apply (clean_loop_runs same_expired); try done; [congruence|apply DirectDelete_discards|lia]|].
  intros [] s1 (Hs1 & Hst1 & [C1 C2 C3 C4 C5]). eapply runs_mono; [by apply (settle_runs reset)|].
  intros [] s2 (Hs2 & Hst2 & Hi2 & [U1 U2 U3 U4 U5]). split_and!; try done; congruence.
Qed.

Lemma DirectExpire_runs owner turns reset s :
  stacked s -> sound [] s ->
  runs (DirectExpire lowest run owner turns reset) s (fun _ s' =>
    sound [] s' /\ stacked s' /\ inited s' /\ flag_update s' = flag_update s /\ _expList s' = _expList s).
Proof.
  intros Hst Hs. unfold DirectExpire. repeat plain_step. pose proof (st_range _ Hst).
  apply (runs_mono _ _ (fun _ s1 => sound [] s1 /\ stacked s1 /\ flag_update s1 = flag_update s /\ _expList s1 = _expList s)).
  - unfold size. destruct (Z.ltb_spec 1 (_top s + 1)); [|by repeat plain_step].
    destruct (st_top _ Hst) as [g Hg]. plain_step. eapply top_runs; [done|]. plain_step.
    eapply runs_mono; [apply pop_runs; try done; lia|]. intros [] s1 (Hs1 & Hst1 & [Hp1 Hp2 Hp3 Hp4 Hp5 Hp6]).
    eapply runs_mono; [by apply DirectDelete_runs|]. intros [] s2 (Hs2 & [Hss _ Hsz] & E & _).
    split_and!; [done|by eapply stacked_same|rewrite (ss_update _ _ Hss); congruence|congruence].
  - intros [] s1 (Hs1 & Hst1 & Hu & He). plain_step. apply search_top_runs; [done|]. repeat plain_step.
    pose proof (st_range _ Hst1). unfold empty. rewrite (proj2 (Z.ltb_ge (_top s1) 0)) by lia.
    eapply runs_mono; [by apply (settle_runs reset)|].
    intros [] s2 (Hs2 & Hst2 & Hi2 & [U1 U2 U3 U4 U5]). split_and!; try done; congruence.
Qed.

(** ** Starting a movement *)

(** A generator is alive, or is the static one. *)
Definition alive (r : gen) (s : MotionMaster) : Prop := isStatic r = true \/ is_Some (generators s !! r).

(** The generator [r] survives a movement started in [slot]: it is not there, or it
    is the one on top and the master is updating. *)
Definition spared (r : gen) (slot : Z) (s : MotionMaster) : Prop :=
  isStatic r = true \/ get_slot slot s <> Some (Some r) \/ (_top s = slot /\ flag_update s = true).

(** The slot was emptied, and the top raised to it. *)
Record emptied (slot : Z) (s s' : MotionMaster) : Prop := {
  em_slots : forall i, 0 <= i <= 2 -> get_slot i s' = if i =? slot then Some None else get_slot i s;
  em_top : _top s' = Z.max (_top s) slot;
  em_needInit : _needInit s' = _needInit s;
  em_update : flag_update s' = flag_update s;
  em_direct : flag_update s = false -> _expList s' = _expList s;
  em_expired : _expList s <> None -> _expList s' <> None;
  em_size : (base.size (generators s') <= base.size (generators s))%nat;
  em_alive : forall r, alive r s -> spared r slot s -> alive r s'
}.

Lemma occupied_below slot g s : stacked s -> 0 <= slot <= 2 -> get_slot slot s = Some (Some g) -> slot <= _top s.
Proof.
  intros Hst Hr Hg. destruct (decide (slot <= _top s)); [done|].
  rewrite (st_above _ Hst) in Hg by lia. done.
Qed.

(** The first half of [Mutate]. *)
Definition empty_slot (slot : Z) (s : MotionMaster) : T unit :=
  match get_slot slot s with
  | None => throw OutOfBounds
  | Some (Some curr) =>
    modify (put_slot slot None) ;;
    if (_top s =? slot) && flag_update s then DelayedDelete (Some curr) else DirectDelete run (Some curr)
  | Some None => if _top s <? slot then modify (set_top slot) else mret tt
  end.

Lemma empty_slot_runs hand slot s :
  stacked s -> sound hand s -> 0 <= slot <= 2 ->
  runs (empty_slot slot s) s (fun _ s' => sound hand s' /\ emptied slot s s').
Proof.
  intros Hst Hs Hr. unfold empty_slot. destruct (get_slot_cases _ _ _ Hs Hr) as [o Ho]. rewrite Ho.
  destruct o as [g|].
  - pose proof (occupied_below _ _ _ Hst Hr Ho) as Hle. repeat plain_step. set (s1 := put_slot slot None s).
    assert (sound (real (Some g) ++ hand) s1) as Hs1 by (by apply (sound_put hand slot None (Some g))).
    assert (forall i, 0 <= i <= 2 -> get_slot i s1 = if i =? slot then Some None else get_slot i s) as Hget.
    { intros i Hi. apply get_put; [done|done|apply Hs]. }
    destruct ((_top s =? slot) && flag_update s) eqn:E.
    + apply andb_true_iff in E as [E1%Z.eqb_eq E2].
      eapply runs_mono; [by apply DelayedDelete_runs|]. intros [] s2 (Hs2 & [Hss _ Hsz] & [HK HE] & _).
      assert (flag_update s2 = flag_update s) as Eu by (rewrite (ss_update _ _ Hss); done).
      split; [done|]. destruct Hss as [I1 I2 I3 I4]. split.
      * intros i Hi. rewrite <- Hget by done. unfold get_slot. by rewrite I1.
      * rewrite I2. cbn. lia.
      * by rewrite I3.
      * done.
      * congruence.
      * exact HE.
      * exact Hsz.
      * intros r [Hr'|Hr'] _; [by left|right]. by rewrite HK.
    + eapply runs_mono; [by apply DirectDelete_runs|]. intros [] s2 (Hs2 & [Hss _ Hsz] & He & Ha).
      split; [done|]. destruct Hss as [I1 I2 I3 I4]. split.
      * intros i Hi. rewrite <- Hget by done. unfold get_slot. by rewrite I1.
      * rewrite I2. cbn. lia.
      * by rewrite I3.
      * done.
      * intros _. by rewrite He.
      * by rewrite He.
      * exact Hsz.
      * intros r [Hr'|Hr'] [Hsp|[Hsp|[Ht Hu]]]; try by left.
        -- right. apply Ha; [|done]. congruence.
        -- rewrite Ht, Z.eqb_refl, Hu in E. done.
  - assert (forall i s', Impl s' = Impl s -> 0 <= i <= 2 -> get_slot i s' = if i =? slot then Some None else get_slot i s) as Hget.
    { intros i s' EI Hi. unfold get_slot at 1. rewrite EI. change (znth (Impl s) i) with (get_slot i s).
      by destruct (Z.eqb_spec i slot) as [->|]. }
    destruct (Z.ltb_spec (_top s) slot); repeat plain_step.
    + split; [eapply sound_perm; [exact Hs|apply Hs|apply Hs|done..]|].
      split; cbn; [intros i Hi; by apply Hget|lia|done..|lia|by intros r Hr' _].
    + split; [done|]. split; [intros i Hi; by apply Hget|lia|done..|lia|by intros r Hr' _].
Qed.
End Calm.
