(* ===== verification/MotionSafety.v ===== *)
(** * MotionMaster: any history of commands and updates is safe

    Generators whose callbacks leave the master alone, but for the [Update], which
    may start one movement and clear or expire as it likes. *)

From S2P Require Import Prelude.
From S2P Require Import Float32.
From S2P Require Import Motion.
From S2P Require Import MotionSpec.

(** [r] is in no slot but, at most, the one on top. *)
Definition unexposed (r : gen) (s : MotionMaster) : Prop :=
  forall i, 0 <= i <= 2 -> i <> _top s -> get_slot i s <> Some (Some r).

(** What a movement started in some slot does; at most [n] generators are new. *)
Record moved (n : nat) (s s' : MotionMaster) : Prop := {
  mv_update : flag_update s' = flag_update s;
  mv_inited : inited s -> inited s';
  mv_direct : flag_update s = false -> _expList s' = _expList s;
  mv_expired : _expList s <> None -> _expList s' <> None;
  mv_size : (base.size (generators s') <= n + base.size (generators s))%nat;
  mv_alive : forall r, flag_update s = true -> alive r s -> unexposed r s -> alive r s'
}.

Lemma moved_refl n s : moved n s s.
Proof. split; try done. lia. Qed.

(** A generator allocated. *)
Lemma sound_new hand t s :
  sound hand s -> sound (next_gen s :: hand) (set_generators (<[next_gen s := t]> (generators s)) (next_gen s + 1) s).
Proof.
  intros [H1 H2 H3 H4 H5 H6 H7].
  assert (generators s !! next_gen s = None) as Hn.
  { apply eq_None_not_Some. intros Ha. apply H6 in Ha. lia. }
  split; try done; cbn.
  - apply NoDup_cons. split; [|done]. intros Hx. apply H4 in Hx. rewrite Hn in Hx. by destruct Hx.
  - intros g. rewrite elem_of_cons, lookup_insert_is_Some, H4. change (held _) with (held s).
    split; [intros [E|[_ Hg]]; auto|].
    intros [->|Hg]; [by left|]. destruct (decide (next_gen s = g)); auto.
  - lia.
  - intros g [E|[_ Ha]]%lookup_insert_is_Some; [lia|]. apply H6 in Ha. lia.
  - intros g Hg. specialize (H7 g Hg). cbn in H7 |- *. unfold count in *. cbn.
    destruct (decide (g = next_gen s)) as [->|E].
    + rewrite lookup_insert_eq, decide_False by (intros [_ [=]]). rewrite decide_False in H7 by lia. done.
    + rewrite lookup_insert_ne by done. destruct (decide (g < next_gen s /\ _)) as [[]|N]; [by rewrite decide_True by (split; [lia|done])|].
      by rewrite decide_False by (intros [? ?]; apply N; split; [lia|done]).
Qed.

Section Moves.
Context (lowest : Z) (run : gen -> callback -> T unit).
Hypothesis calm : forall g c s, c <> Update_ -> run g c s = (Ok tt, s).
Hypothesis low : lowest <= -2.

(** ** Starting a movement *)

Lemma unexposed_spared r slot s :
  flag_update s = true -> 0 <= slot <= 2 -> unexposed r s -> spared r slot s.
Proof.
  intros Hu Hs Hr. right. destruct (decide (_top s = slot)); [by right|left]. apply Hr; [done|congruence].
Qed.

Lemma stacked_placed m slot s s' :
  stacked s -> length (Impl s') = 3%nat -> emptied slot s s' -> 0 <= slot <= 2 -> slot = 0 \/ isStatic m = false ->
  stacked (put_slot slot (Some m) s').
Proof.
  intros [Hr H0 Ht Ha Hn] Hl [Es Et _ _ _ _ _ _] Hslot Hm.
  assert (forall i, 0 <= i <= 2 -> get_slot i (put_slot slot (Some m) s') = if i =? slot then Some (Some m) else get_slot i s) as Hget.
  { intros i Hi. rewrite get_put by done. destruct (Z.eqb_spec i slot); [done|]. rewrite Es by done.
    by rewrite (proj2 (Z.eqb_neq i slot)). }
  split; cbn [_top put_slot set_Impl]; rewrite ?Et.
  - lia.
  - rewrite Hget by lia. destruct (0 =? slot); eauto.
  - rewrite Hget by lia. destruct (Z.eqb_spec (Z.max (_top s) slot) slot); [eauto|]. replace (Z.max (_top s) slot) with (_top s) by lia. done.
  - intros i Hi. rewrite Hget by lia. rewrite (proj2 (Z.eqb_neq i slot)) by lia. apply Ha. lia.
  - intros i Hi. rewrite Hget by lia. destruct (Z.eqb_spec i slot) as [->|]; [|by apply Hn].
    destruct Hm as [->|Hm]; [lia|]. intros [= ->]. done.
Qed.

Lemma Mutate_runs m slot s :
  stacked s -> sound (real (Some m)) s -> 0 <= slot <= 2 -> slot = 0 \/ isStatic m = false ->
  runs (Mutate run m slot) s (fun _ s' => sound [] s' /\ stacked s' /\ moved 0 s s').
Proof.
  intros Hst Hs Hslot Hm. unfold Mutate. plain_step. plain_step.
  change (runs (empty_slot run slot s ;; modify (put_slot slot (Some m)) ;; s ← get;
    if slot <? _top s then modify (set_needInit (zset (_needInit s) slot true))
    else modify (set_needInit (zset (_needInit s) slot false)) ;; g ← deref (Some m); g_Initialize run g) s
    (fun _ s' => sound [] s' /\ stacked s' /\ moved 0 s s')).
  plain_step. eapply runs_mono; [by apply (empty_slot_runs run calm)|]. intros [] s1 (Hs1 & He). repeat plain_step.
  assert (stacked (put_slot slot (Some m) s1)) as Hst2 by (by apply (stacked_placed m slot s s1); [|apply Hs1|..]).
  assert (sound [] (put_slot slot (Some m) s1)) as Hs2.
  { apply (sound_put [] slot (Some m) None); [|by rewrite app_nil_r]. rewrite (em_slots _ _ _ He) by done. by rewrite Z.eqb_refl. }
  set (s2 := put_slot slot (Some m) s1) in *. destruct He as [Es Et En Eu Ed Ex Ez Ea].
  change (_top s1) with (_top s2) in Et. change (_needInit s1) with (_needInit s2) in En.
  pose proof (st_range _ Hst2) as Hr2. pose proof (so_inits _ _ Hs2) as Hl2.
  assert (forall b, sound [] (set_needInit (zset (_needInit s2) slot b) s2)) as Hsn.
  { intros b. eapply sound_perm; [exact Hs2|apply Hs2|by cbn; rewrite zset_length|done..]. }
  assert (forall r, flag_update s = true -> alive r s -> unexposed r s -> alive r s1) as Ha.
  { intros r Hu Hr Hx. apply Ea; [done|]. by apply unexposed_spared. }
  destruct (Z.ltb_spec slot (_top s2)) as [Hlt|Hge]; repeat plain_step.
  - split; [done|]. split; [by destruct Hst2|]. split; try done. unfold inited. cbn. intros Hi.
    change (_top s1) with (_top s2). change (_needInit s1) with (_needInit s2).
    rewrite znth_zset_ne by lia. rewrite En, Et. by replace (Z.max (_top s) slot) with (_top s) by lia.
  - apply deref_runs.
    { apply (slot_alive [] m s2 slot Hs2). unfold s2. rewrite get_put by (done || apply Hs1). by rewrite Z.eqb_refl. }
    unfold g_Initialize. repeat plain_step. apply (run_runs run calm); [done|].
    split; [by apply sound_emit|]. split; [by destruct Hst2|]. split; try done.
    unfold inited. cbn. intros _. replace (_top s1) with slot by (change (_top s1) with (_top s2); lia).
    apply znth_zset_eq. unfold zlen. change (_needInit s1) with (_needInit s2). lia.
Qed.

(** What every movement guarantees. *)
Definition moves (s : MotionMaster) (s' : MotionMaster) : Prop := sound [] s' /\ stacked s' /\ moved 1 s s'.

Lemma moves_refl s : stacked s -> sound [] s -> moves s s.
Proof. intros Hst Hs. split; [done|]. split; [done|apply moved_refl]. Qed.

Lemma move_runs t slot s :
  stacked s -> sound [] s -> 0 <= slot <= 2 -> runs (move run t slot) s (fun _ s' => moves s s').
Proof.
  intros Hst Hs Hslot. unfold move, new_gen. repeat plain_step.
  pose proof (so_next _ _ Hs) as Hn. pose proof (sound_new _ t _ Hs) as Hs1.
  set (s1 := set_generators _ _ s) in *. assert (stacked s1) as Hst1 by (by destruct Hst).
  assert (isStatic (next_gen s) = false) as Hstatic by (apply Z.eqb_neq; unfold si_idleMovement; lia).
  eapply runs_mono.
  { apply Mutate_runs; [done| |done|by right]. unfold real. by rewrite Hstatic. }
  intros [] s' (Hs' & Hst' & [M1 M2 M3 M4 M5 M6]). split; [done|]. split; [done|]. split; try done.
  - cbn in M5. rewrite map_size_insert in M5. destruct (generators s !! next_gen s); cbn in M5; lia.
  - intros r Hu Hr Hx. apply M6; [done| |done]. destruct Hr as [Hr|Hr]; [by left|right].
    cbn. apply lookup_insert_is_Some. destruct (decide (next_gen s = r)); auto.
Qed.

Lemma launch_runs s (Q : unit -> MotionMaster -> Prop) : Q tt (emit EvLaunch s) -> runs launch s Q.
Proof. done. Qed.

(** What is true of a state is true of it with one more launch. *)
Lemma moves_launch s s' : moves (emit EvLaunch s) s' -> moves s s'.
Proof. intros (Hs & Hst & [M1 M2 M3 M4 M5 M6]). done. Qed.

Lemma launch_moves s s' : moves s s' -> moves s (emit EvLaunch s').
Proof.
  intros (Hs & Hst & [M1 M2 M3 M4 M5 M6]). split; [by apply sound_emit|]. split; [by destruct Hst|done].
Qed.

(** The commands which start at most one movement and do nothing else. *)
Definition starts (c : command) : bool :=
  match c with MoveTargetedHome | Clear_ _ | MovementExpired_ _ => false | _ => true end.
Definition valid_command (c : command) : Prop :=
  match c with MoveFollow _ _ slot => 0 <= slot <= 2 | _ => True end.

Ltac command :=
  repeat first
    [ apply moves_refl; done
    | plain_step
    | lazymatch goal with
      | |- runs (if ?b then _ else _) _ _ => destruct b
      | |- runs (move _ _ _) (emit EvLaunch _) _ =>
        eapply runs_mono; [apply move_runs; [by destruct_and?|by apply sound_emit|done]|intros [] ?; apply moves_launch]
      | |- runs (move _ _ _) _ _ => apply move_runs; done
      | |- runs launch _ _ => apply launch_runs
      end ].

Lemma MoveIdle_runs s : stacked s -> sound [] s -> runs (MoveIdle run) s (fun _ s' => moves s s').
Proof.
  intros Hst Hs. unfold MoveIdle. repeat plain_step. pose proof (st_range _ Hst). unfold empty.
  rewrite (proj2 (Z.ltb_ge (_top s) 0)) by lia. destruct (st_top _ Hst) as [g Hg]. plain_step.
  eapply top_runs; [done|]. destruct (isStatic g); [command|].
  eapply runs_mono; [apply Mutate_runs; [done|done|done|by left]|].
  intros [] s' (Hs' & Hst' & [M1 M2 M3 M4 M5 M6]). split; [done|]. split; [done|]. split; try done. lia.
Qed.

Lemma CustomJump_runs s : stacked s -> sound [] s -> runs (do_CustomJump run) s (fun _ s' => moves s s').
Proof.
  intros Hst Hs. unfold do_CustomJump. plain_step. eapply runs_mono; [by apply move_runs|].
  intros [] s' Hm. apply launch_runs. by apply launch_moves.
Qed.

(** What reads a slot of the controlled movement. *)
Lemma controlled_slot s :
  sound [] s -> get_slot MOTION_SLOT_CONTROLLED s = Some None \/ exists g, get_slot MOTION_SLOT_CONTROLLED s = Some (Some g) /\ alive g s.
Proof.
  intros Hs. destruct (get_slot_cases _ _ MOTION_SLOT_CONTROLLED Hs) as [[g|] Hg]; [done|right|by left].
  exists g. split; [done|]. by eapply slot_alive.
Qed.

Lemma type_of_runs g s (Q : MovementGeneratorType -> MotionMaster -> Prop) :
  alive g s -> (forall t, Q t s) -> runs (type_of g) s Q.
Proof.
  intros Ha HQ. unfold type_of. repeat plain_step. destruct Ha as [->|[t Ht]]; [by plain_step|].
  destruct (isStatic g); [by plain_step|]. rewrite Ht. by plain_step.
Qed.

Lemma start_runs owner turns c s :
  stacked s -> sound [] s -> starts c = true -> valid_command c ->
  runs (perform lowest run owner turns c) s (fun _ s' => moves s s').
Proof.
  intros Hst Hs Hc Hv. assert (stacked (emit EvLaunch s)) as Hst' by (by destruct Hst).
  destruct c; try discriminate Hc; cbn [perform];
  unfold do_MoveRandom, do_MoveConfused, do_MoveChase, do_MoveFollow, do_MovePoint, do_MoveLand, do_MoveTakeoff,
    do_MoveKnockbackFrom, do_MoveJumpTo, do_MoveJump, do_ForceMoveJump, do_MoveFall, do_MoveSeekAssistance,
    do_MoveSeekAssistanceDistract, do_MoveFleeing, do_MoveTaxiFlight, do_MovePath, do_MoveRotate; command.
  - by apply MoveIdle_runs.
  - by apply CustomJump_runs.
  - unfold do_MoveCharge. repeat plain_step. destruct (controlled_slot s Hs) as [->|(g & -> & Hg)]; [command|].
    plain_step. apply type_of_runs; [done|]. intros t. command.
  - unfold do_MoveDistract. repeat plain_step. destruct (controlled_slot s Hs) as [->|(g & -> & Hg)]; command.
Qed.

(** ** Discarding while the generator on top is running *)

Record dropped (s s' : MotionMaster) : Prop := {
  dr_update : flag_update s' = flag_update s;
  dr_generators : generators s' = generators s;
  dr_expired : _expList s <> None -> _expList s' <> None;
  dr_moved : _expList s' <> None \/ (_top s' = _top s /\ _needInit s' = _needInit s);
  dr_unexposed : forall r, unexposed r s -> unexposed r s'
}.

Lemma dropped_refl s : dropped s s.
Proof. split; auto. Qed.

Lemma popped_unexposed r s s' : stacked s -> popped s s' -> unexposed r s -> unexposed r s'.
Proof.
  intros Hst [Ht Hs _ _ _ _] Hx i Hi Hn. rewrite Hs by done. destruct (Z.eqb_spec i (_top s)); [done|]. by apply Hx.
Qed.

(** One generator taken off the stack. *)
Lemma drop_runs g s (Q : unit -> MotionMaster -> Prop) :
  stacked s -> sound [] s -> 0 < _top s -> get_slot (_top s) s = Some (Some g) ->
  (forall s', sound [] s' -> stacked s' -> dropped s s' -> _top s' < _top s -> Q tt s') ->
  runs (pop lowest) s (fun _ s1 => runs (DelayedDelete (Some g)) s1 Q).
Proof.
  intros Hst Hs Ht Hg HQ. pose proof (st_range _ Hst) as Hr.
  assert (isStatic g = false) as Hstatic.
  { apply Z.eqb_neq. intros ->. by apply (st_static _ Hst (_top s)); [lia|]. }
  eapply runs_mono; [by apply (pop_runs lowest low [] g)|]. intros [] s1 (Hs1 & Hst1 & Hp).
  assert (forall r, unexposed r s -> unexposed r s1) as Hx by (intros r; by apply popped_unexposed).
  destruct Hp as [Hp1 Hp2 Hp3 Hp4 Hp5 Hp6].
  eapply runs_mono; [by apply DelayedDelete_runs|]. intros [] s2 (Hs2 & [Hss _ _] & [HG HE] & Hne).
  specialize (Hne Hstatic). pose proof Hss as [E1 E2 E3 E4].
  apply HQ; [done|by eapply stacked_same| |lia]. split; [congruence|congruence|done|by left|].
  intros r Hr' i Hi Hn. unfold get_slot. rewrite E1. apply (Hx r Hr'); [done|congruence].
Qed.

Lemma dropped_trans s1 s2 s3 : dropped s1 s2 -> dropped s2 s3 -> dropped s1 s3.
Proof.
  intros [A1 A2 A3 A4 A5] [B1 B2 B3 B4 B5]. split; [congruence|congruence|auto| |auto].
  destruct B4 as [|[]]; [by left|]. destruct A4 as [|[]]; [left; auto|right; split; congruence].
Qed.

Lemma DelayedClean_runs turns s :
  stacked s -> sound [] s -> _top s <= Z.of_nat turns ->
  runs (DelayedClean lowest turns) s (fun _ s' => sound [] s' /\ stacked s' /\ dropped s s').
Proof.
  unfold DelayedClean. revert s. induction turns as [|turns IH]; intros s Hst Hs Ht; pose proof (st_range _ Hst) as Hr;
    cbn [clean_loop]; plain_step; plain_step; unfold size;
    (destruct (Z.ltb_spec 1 (_top s + 1)); cbn [negb]; [|plain_step; split; [done|]; split; [done|apply dropped_refl]]).
  - lia.
  - destruct (st_top _ Hst) as [g Hg]. plain_step. eapply top_runs; [done|]. plain_step.
    eapply runs_mono; [eapply (drop_runs g); [done|done|lia|done|]|by intros [] s1 H'; plain_step].
    intros s1 Hs1 Hst1 Hd Hlt. cbn beta. eapply runs_mono; [apply IH; try done; lia|].
    intros [] s2 (Hs2 & Hst2 & Hd2). split; [done|]. split; [done|]. by eapply dropped_trans.
Qed.

Lemma DelayedExpire_runs s :
  stacked s -> sound [] s ->
  runs (DelayedExpire lowest) s (fun _ s' => sound [] s' /\ stacked s' /\ dropped s s').
Proof.
  intros Hst Hs. unfold DelayedExpire. repeat plain_step. pose proof (st_range _ Hst) as Hr. unfold size.
  apply (runs_mono _ _ (fun _ s' => sound [] s' /\ stacked s' /\ dropped s s')).
  - destruct (Z.ltb_spec 1 (_top s + 1)); [|plain_step; split; [done|]; split; [done|apply dropped_refl]].
    destruct (st_top _ Hst) as [g Hg]. plain_step. eapply top_runs; [done|]. plain_step.
    eapply (drop_runs g); [done|done|lia|done|]. intros s1 Hs1 Hst1 Hd _. done.
  - intros [] s1 (Hs1 & Hst1 & Hd1). by apply (search_top_runs lowest).
Qed.

(** ** Commands given while the generator [r] is running

    [n] more movements may be started. *)
Definition movements (c : command) : nat := if starts c then 1%nat else match c with MoveTargetedHome => 1%nat | _ => 0%nat end.

Record updating (n : nat) (r : gen) (s : MotionMaster) : Prop := {
  up_sound : sound [] s;
  up_stacked : stacked s;
  up_inited : inited s \/ _expList s <> None;
  up_flag : flag_update s = true;
  up_alive : alive r s;
  up_unexposed : (0 < n)%nat -> unexposed r s;
  up_size : (n + base.size (generators s) <= 4)%nat
}.

Lemma updating_moved r s s' : updating 1 r s -> moves s s' -> updating 0 r s'.
Proof.
  intros [U1 U2 U3 U4 U5 U6 U7] (Hs & Hst & [M1 M2 M3 M4 M5 M6]). split; try done.
  - destruct U3; [left|right]; auto.
  - congruence.
  - apply M6; auto.
  - lia.
  - lia.
Qed.

Lemma updating_fewer r s : updating 1 r s -> updating 0 r s.
Proof. intros [U1 U2 U3 U4 U5 U6 U7]. split; try done; lia. Qed.

Lemma updating_dropped n r s s' : updating n r s -> sound [] s' -> stacked s' -> dropped s s' -> updating n r s'.
Proof.
  intros [U1 U2 U3 U4 U5 U6 U7] Hs Hst [D1 D2 D3 D4 D5]. split; try done.
  - destruct D4 as [|[E1 E2]]; [by right|]. destruct U3 as [Hi|]; [left|right; auto]. unfold inited in *. by rewrite E1, E2.
  - congruence.
  - unfold alive in *. by rewrite D2.
  - auto.
  - by rewrite D2.
Qed.

Lemma updating_reset n r s b : updating n r s -> updating n r (set_reset b s).
Proof.
  intros [U1 U2 U3 U4 U5 U6 U7]. split; try done; [|by destruct U2].
  by eapply sound_perm; [exact U1|apply U1|apply U1|..].
Qed.

Lemma Clear_inside turns n r reset s :
  (2 <= turns)%nat -> updating n r s -> runs (Clear lowest run turns reset) s (fun _ s' => updating n r s').
Proof.
  intros Ht Hu. unfold Clear. repeat plain_step. rewrite (up_flag _ _ _ Hu). plain_step. plain_step.
  pose proof (updating_reset _ _ _ reset Hu) as Hu1. pose proof (st_range _ (up_stacked _ _ _ Hu1)).
  eapply runs_mono; [apply DelayedClean_runs; [apply Hu1|apply Hu1|lia]|].
  intros [] s' (Hs & Hst & Hd). by eapply updating_dropped.
Qed.

Lemma MovementExpired_inside owner turns n r reset s :
  updating n r s -> runs (MovementExpired lowest run owner turns reset) s (fun _ s' => updating n r s').
Proof.
  intros Hu. unfold MovementExpired. repeat plain_step. rewrite (up_flag _ _ _ Hu). plain_step. plain_step.
  pose proof (updating_reset _ _ _ reset Hu) as Hu1.
  eapply runs_mono; [apply DelayedExpire_runs; apply Hu1|].
  intros [] s' (Hs & Hst & Hd). by eapply updating_dropped.
Qed.

Lemma command_inside owner turns c n r s :
  (2 <= turns)%nat -> (movements c <= n <= 1)%nat -> valid_command c -> updating n r s ->
  runs (perform lowest run owner turns c) s (fun _ s' => updating (n - movements c) r s').
Proof.
  intros Ht Hc Hv Hu. unfold movements in *. destruct (starts c) eqn:Hst.
  - replace n with 1%nat in * by lia. eapply runs_mono; [apply start_runs; try done; apply Hu|].
    intros [] s' Hm. by eapply updating_moved.
  - destruct c; try discriminate Hst; cbn [perform]; rewrite ?Nat.sub_0_r.
    + replace n with 1%nat in * by lia. unfold do_MoveTargetedHome. plain_step.
      eapply runs_mono; [by apply Clear_inside|]. intros [] s' Hu'. cbn [Nat.sub].
      assert (forall t, runs (move run t MOTION_SLOT_ACTIVE) s' (fun _ s2 => updating 0 r s2)) as Hmove.
      { intros t. eapply runs_mono; [by apply move_runs; try apply Hu'|]. intros [] s2 Hm. by eapply updating_moved. }
      repeat case_match; first [apply Hmove|plain_step; by apply updating_fewer].
    + by apply Clear_inside.
    + by apply MovementExpired_inside.
Qed.

Definition all_movements (l : list command) : nat := sum_list_with movements l.

Lemma commands_inside owner turns l n r s :
  (2 <= turns)%nat -> (all_movements l <= n <= 1)%nat -> Forall valid_command l -> updating n r s ->
  runs (mapM_ (perform lowest run owner turns) l) s (fun _ s' => exists k, updating k r s').
Proof.
  intros Ht. revert n s. induction l as [|c l IH]; intros n s Hn Hv Hu; cbn [mapM_]; plain_step; [by exists n|].
  apply Forall_cons in Hv as [Hc Hv]. cbn in Hn. eapply runs_mono; [apply (command_inside _ _ _ n r); try done; unfold all_movements in Hn; lia|].
  intros [] s' Hu'. eapply IH; [|done|done]. unfold all_movements in *. lia.
Qed.

(** ** Commands given from outside *)

Record settled (s : MotionMaster) : Prop := {
  se_sound : sound [] s;
  se_stacked : stacked s;
  se_inited : inited s;
  se_update : flag_update s = false;
  se_expired : _expList s = None
}.

Lemma settled_moved s s' : settled s -> moves s s' -> settled s'.
Proof. intros [S1 S2 S3 S4 S5] (Hs & Hst & [M1 M2 M3 M4 M5 M6]). split; try done; [auto|congruence|rewrite M3; done]. Qed.

Lemma Clear_outside turns reset s :
  (2 <= turns)%nat -> settled s -> runs (Clear lowest run turns reset) s (fun _ s' => settled s').
Proof.
  intros Ht [S1 S2 S3 S4 S5]. unfold Clear. repeat plain_step. rewrite S4.
  eapply runs_mono; [apply (DirectClean_runs lowest run calm low); try done; lia|].
  intros [] s' (H1 & H2 & H3 & H4 & H5). split; congruence.
Qed.

Lemma MovementExpired_outside owner turns reset s :
  settled s -> runs (MovementExpired lowest run owner turns reset) s (fun _ s' => settled s').
Proof.
  intros [S1 S2 S3 S4 S5]. unfold MovementExpired. repeat plain_step. rewrite S4.
  eapply runs_mono; [by apply (DirectExpire_runs lowest run calm low)|].
  intros [] s' (H1 & H2 & H3 & H4 & H5). split; congruence.
Qed.

Lemma command_outside owner turns c s :
  (2 <= turns)%nat -> valid_command c -> settled s ->
  runs (perform lowest run owner turns c) s (fun _ s' => settled s').
Proof.
  intros Ht Hv Hs. destruct (starts c) eqn:Hst.
  - eapply runs_mono; [apply start_runs; try done; apply Hs|]. intros [] s' Hm. by eapply settled_moved.
  - destruct c; try discriminate Hst; cbn [perform].
    + unfold do_MoveTargetedHome. plain_step. eapply runs_mono; [by apply Clear_outside|]. intros [] s' Hs'.
      assert (forall t, runs (move run t MOTION_SLOT_ACTIVE) s' (fun _ s2 => settled s2)) as Hmove.
      { intros t. eapply runs_mono; [by apply move_runs; try apply Hs'|]. intros [] s2 Hm. by eapply settled_moved. }
      repeat case_match; first [apply Hmove|by plain_step].
    + by apply Clear_outside.
    + by apply MovementExpired_outside.
Qed.
End Moves.
