(* ===== verification/MotionHistory.v ===== *)
(** * MotionMaster: histories

    [UpdateMotion] and [Initialize], and what holds after any history of a master. *)

From S2P Require Import Prelude.
From S2P Require Import Float32.
From S2P Require Import Motion.
From S2P Require Import MotionSpec.
From S2P Require Import MotionSafety.

(** ** Counting *)

Lemma size_held s : sound [] s -> base.size (generators s) = length (held s).
Proof.
  intros Hs. rewrite <- size_dom. replace (dom (generators s)) with (list_to_set (C := gset Z) (held s)).
  - apply size_list_to_set. apply (so_once _ _ Hs).
  - apply set_eq. intros g. by rewrite elem_of_list_to_set, elem_of_dom, (so_alive _ _ Hs).
Qed.

Lemma slots_held (l : list (option gen)) : (length (mjoin (real <$> l)) <= length l)%nat.
Proof.
  induction l as [|o l IH]; [done|].
  change (mjoin (real <$> o :: l)) with (real o ++ mjoin (real <$> l)). rewrite length_app. cbn [length].
  assert (length (real o) <= 1)%nat; [|lia]. destruct o as [g|]; cbn; [|lia]. destruct (isStatic g); cbn; lia.
Qed.

Lemma few_generators s : sound [] s -> _expList s = None -> (base.size (generators s) <= 3)%nat.
Proof.
  intros Hs He. rewrite size_held by done. unfold held. rewrite length_app, He. pose proof (slots_held (Impl s)).
  rewrite (so_slots _ _ Hs) in H. cbn. lia.
Qed.

Lemma few_expired s l : sound [] s -> _expList s = Some l -> (length l <= base.size (generators s))%nat.
Proof. intros Hs He. rewrite size_held by done. unfold held. rewrite length_app, He. cbn. lia. Qed.

(** A generator is in one slot only. *)
Lemma slot_once g s i j :
  sound [] s -> isStatic g = false -> 0 <= i <= 2 -> 0 <= j <= 2 ->
  get_slot i s = Some (Some g) -> get_slot j s = Some (Some g) -> i = j.
Proof.
  intros Hs E Hi Hj Gi Gj. destruct (decide (i = j)) as [|Hn]; [done|exfalso].
  pose proof (sound_put [] i None (Some g) s Gi Hs) as Hp. pose proof (so_once _ _ Hp) as Hnd.
  unfold real in Hnd at 1. rewrite E in Hnd. apply NoDup_cons in Hnd as [Hnd _]. apply Hnd. cbn [app].
  apply (slot_held g _ j); [|done]. rewrite get_put; [|done|done|apply Hs]. rewrite (proj2 (Z.eqb_neq j i)); congruence.
Qed.

Lemma top_unexposed g s : stacked s -> sound [] s -> get_slot (_top s) s = Some (Some g) -> unexposed g s.
Proof.
  intros Hst Hs Hg i Hi Hn Hgi. pose proof (st_range _ Hst) as Hr. destruct (isStatic g) eqn:E.
  - apply Z.eqb_eq in E as ->. destruct (decide (0 < _top s)); [by eapply (st_static _ Hst (_top s)); [lia|]|].
    by apply (st_static _ Hst i); [lia|].
  - apply Hn. by eapply slot_once.
Qed.

Section Histories.
Context (lowest : Z) (run : gen -> callback -> T unit) (owner : Owner).
Hypothesis calm : forall g c s, c <> Update_ -> run g c s = (Ok tt, s).
Hypothesis low : lowest <= -2.

(** ** The generators put off *)

Lemma delete_from_runs l turns i s :
  _expList s = Some l -> (length l <= i + turns)%nat -> sound (drop i l) (set_expList None s) ->
  runs (delete_from run turns i) s (fun _ s' => sound [] (set_expList None s') /\ same_slots s s').
Proof.
  revert i s. induction turns as [|turns IH]; intros i s He Hl Hs; cbn [delete_from]; plain_step; plain_step; rewrite He.
  - rewrite lookup_ge_None_2 by lia. plain_step. by rewrite drop_ge in Hs by lia.
  - destruct (l !! i) as [g|] eqn:Hg; [|plain_step; rewrite drop_ge in Hs by (by apply lookup_ge_None); done].
    rewrite (drop_S l g i Hg) in Hs.
    assert (is_Some (generators s !! g)) as Ha by (apply (so_alive _ _ Hs); by left).
    assert (isStatic g = false) as E.
    { apply Z.eqb_neq. pose proof (so_fresh _ _ Hs g Ha). unfold si_idleMovement. lia. }
    plain_step. apply (DirectDelete_exact run calm); [done|done|]. eapply runs_mono; [apply IH; [done|lia|]|].
    + change (set_expList None (deleted g s)) with (deleted g (set_expList None s)). by apply sound_deleted.
    + intros [] s' (Hs' & [E1 E2 E3 E4]). split; [done|]. by split.
Qed.

(** ** Update *)

(** The state when the update of the top has returned and nothing is running. *)
Record resting (s : MotionMaster) : Prop := {
  re_sound : sound [] s;
  re_stacked : stacked s;
  re_inited : inited s \/ _expList s <> None;
  re_update : flag_update s = false;
  re_expired : (length (default [] (_expList s)) <= 4)%nat
}.

Lemma updating_resting n r s : updating n r s -> resting (set_update false s).
Proof.
  intros [U1 U2 U3 U4 U5 U6 U7]. split; [|by destruct U2|done|done|].
  - by eapply sound_perm; [exact U1|apply U1|apply U1|..].
  - cbn. destruct (_expList s) as [l|] eqn:E; cbn; [|lia]. pose proof (few_expired _ _ U1 E). lia.
Qed.

Lemma resting_expire turns s :
  resting s -> runs (MovementExpired lowest run owner turns true) s (fun _ s' => resting s').
Proof.
  intros [R1 R2 R3 R4 R5]. unfold MovementExpired. repeat plain_step. rewrite R4.
  eapply runs_mono; [by apply (DirectExpire_runs lowest run calm low)|].
  intros [] s' (H1 & H2 & H3 & H4 & H5). split; try done; [by left|congruence|by rewrite H5].
Qed.

(** The second half of an update: what was put off is deleted and the top settles. *)
Definition finish (turns : nat) : T unit :=
  s ← get;
  match _expList s with
  | None => mret tt
  | Some l =>
    delete_from run turns 0 ;;
    modify (set_expList None) ;;
    s ← get;
    (if empty s then Initialize lowest run owner turns
     else
       need ← needInitTop;
       if (need : bool) then InitTop run else if flag_reset s then ResetTop run else mret tt) ;;
    modify (set_reset false)
  end.

Lemma finish_runs turns s : (4 <= turns)%nat -> resting s -> runs (finish turns) s (fun _ s' => settled s').
Proof.
  intros Ht [R1 R2 R3 R4 R5]. unfold finish. plain_step. plain_step. destruct (_expList s) as [l|] eqn:E.
  2:{ plain_step. split; try done. by destruct R3. }
  plain_step. cbn in R5. eapply runs_mono; [apply (delete_from_runs l); [done|lia|]|].
  - eapply sound_perm; [exact R1|apply R1|apply R1| |done..]. rewrite drop_0. unfold held. cbn. rewrite E, app_nil_r. cbn.
    apply Permutation_app_comm.
  - intros [] s1 (Hs1 & Hss). repeat plain_step. set (s2 := set_expList None s1) in *.
    assert (stacked s2) as Hst2 by (by apply (stacked_same s); [destruct Hss|]).
    pose proof (st_range _ Hst2). unfold empty. rewrite (proj2 (Z.ltb_ge _ 0)) by lia.
    eapply runs_mono; [by apply (settle_runs run calm (flag_reset s2))|].
    intros [] s3 (Hs3 & Hst3 & Hi3 & [V1 V2 V3 V4 V5]). plain_step. split; [|by destruct Hst3|done| |].
    + by eapply sound_perm; [exact Hs3|apply Hs3|apply Hs3|..].
    + cbn. rewrite V3. cbn. by rewrite (ss_update _ _ Hss).
    + cbn. by rewrite V4.
Qed.

Lemma UpdateMotion_runs turns goes_on s :
  (4 <= turns)%nat -> settled s ->
  (forall r s1, updating 1 r s1 -> runs (run r Update_) s1 (fun _ s2 => exists n, updating n r s2)) ->
  runs (UpdateMotion lowest run owner turns goes_on) s (fun _ s' => settled s').
Proof.
  intros Ht [S1 S2 S3 S4 S5] Hrun. unfold UpdateMotion. destruct (root_or_stunned owner); [by plain_step|].
  plain_step. plain_step. pose proof (st_range _ S2). unfold empty at 1. rewrite (proj2 (Z.ltb_ge _ 0)) by lia.
  destruct (st_top _ S2) as [g Hg]. repeat plain_step. eapply top_runs; [exact Hg|]. repeat plain_step.
  apply deref_runs; [by apply (slot_alive _ _ _ _ S1 Hg)|]. repeat plain_step.
  eapply runs_mono; [apply Hrun|].
  - assert (sound [] (set_update true s)) as Hs1 by (by eapply sound_perm; [exact S1|apply S1|apply S1|..]).
    split; [by apply sound_emit|by destruct S2|by left|done|by apply (slot_alive _ _ _ _ S1 Hg)| |].
    + intros _. exact (top_unexposed g s S2 S1 Hg).
    + pose proof (few_generators s S1 S5). cbn. lia.
  - intros [] s2 (n & Hu). plain_step. apply deref_runs; [by apply (up_alive _ _ _ Hu)|]. plain_step. plain_step.
    plain_step. eapply runs_mono.
    { instantiate (1 := fun _ s3 => resting s3). pose proof (updating_resting _ _ _ Hu) as Hr.
      destruct goes_on; cbn [negb]; [by plain_step|by apply resting_expire]. }
    intros [] s3 Hr. by apply finish_runs.
Qed.

(** ** Initialize *)

(** No movement at all. *)
Record vacant (s : MotionMaster) : Prop := {
  bl_slots : forall i, 0 <= i <= 2 -> get_slot i s = Some None;
  bl_top : _top s < 0;
  bl_update : flag_update s = false;
  bl_expired : _expList s = None
}.
Definition blank (s : MotionMaster) : Prop := sound [] s /\ vacant s.

(** What is left of a master while it is cleared. *)
Record standing (s : MotionMaster) : Prop := {
  sg_sound : sound [] s;
  sg_stacked : stacked s;
  sg_update : flag_update s = false;
  sg_expired : _expList s = None
}.

Lemma settled_standing s : settled s -> standing s.
Proof. by intros []. Qed.

(** The last generator goes: the search for another ends below the array. *)
Lemma pop_last_runs g s :
  standing s -> _top s = 0 -> get_slot 0 s = Some (Some g) ->
  runs (pop lowest) s (fun _ s' => s' = set_top lowest (put_slot 0 None s)).
Proof.
  intros [Hs Hst _ He] Ht Hg. unfold pop, search_top. repeat plain_step. rewrite Ht.
  apply (find_top_runs lowest _ _ lowest); cbn [_top put_slot set_Impl]; try lia.
  - unfold not_null_at. rewrite (proj2 (Z.leb_gt 0 lowest)), (proj2 (Z.eqb_neq lowest (-1))) by lia. apply Z.leb_refl.
  - intros j Hj. unfold not_null_at. destruct (Z.leb_spec 0 j).
    + replace j with 0 by lia. rewrite get_put by (lia || apply Hs). done.
    + destruct (Z.eqb_spec j (-1)) as [->|]; [cbn; by rewrite He|]. apply Z.leb_gt. lia.
Qed.

Lemma clear_last_runs g s :
  standing s -> _top s = 0 -> get_slot 0 s = Some (Some g) ->
  runs (pop lowest) s (fun _ s1 => runs (DirectDelete run (Some g)) s1 (fun _ s' => blank s')).
Proof.
  intros Hsd Ht Hg. eapply runs_mono; [by apply (pop_last_runs g)|]. intros [] s1 ->.
  destruct Hsd as [S1 S2 S4 S5]. pose proof (sound_put [] 0 None (Some g) s Hg S1) as Hp.
  eapply runs_mono; [apply (DirectDelete_runs run calm [] g)|].
  - by eapply sound_perm; [exact Hp|apply Hp|apply Hp|..].
  - intros [] s' (Hs' & [[E1 E2 E3 E4] _ _] & He & _). split; [done|]. split.
    + intros i Hi. unfold get_slot. rewrite E1. change (get_slot i (put_slot 0 None s) = Some None).
      rewrite get_put by (lia || apply S1). destruct (Z.eqb_spec i 0); [done|]. apply (st_above _ S2). lia.
    + rewrite E2. cbn. lia.
    + by rewrite E4.
    + by rewrite He.
Qed.

Lemma clear_above_runs g s :
  standing s -> 0 < _top s -> get_slot (_top s) s = Some (Some g) ->
  runs (pop lowest) s (fun _ s1 => runs (DirectDelete run (Some g)) s1 (fun _ s' => standing s' /\ _top s' < _top s)).
Proof.
  intros [S1 S2 S4 S5] Ht Hg. eapply runs_mono; [by apply (pop_runs lowest low [] g)|].
  intros [] s1 (Hs1 & Hst1 & [P1 P2 P3 P4 P5 P6]). eapply runs_mono; [by apply (DirectDelete_runs run calm [])|].
  intros [] s2 (Hs2 & [Hss _ _] & He & _). pose proof Hss as [E1 E2 E3 E4].
  split; [|lia]. split; [done|by eapply stacked_same|congruence|congruence].
Qed.

Lemma blank_cleared turns s : blank s -> runs (clear_loop lowest run turns) s (fun _ s' => blank s').
Proof.
  intros Hb. pose proof (bl_top _ (proj2 Hb)). destruct turns; cbn [clear_loop]; plain_step; plain_step; unfold empty;
    rewrite (proj2 (Z.ltb_lt _ 0)) by done; by plain_step.
Qed.

Lemma clear_loop_runs turns s :
  standing s -> _top s + 1 <= Z.of_nat turns -> runs (clear_loop lowest run turns) s (fun _ s' => blank s').
Proof.
  revert s. induction turns as [|turns IH]; intros s Hs Ht; pose proof (st_range _ (sg_stacked _ Hs)) as Hr; [lia|].
  cbn [clear_loop]. plain_step. plain_step. unfold empty. rewrite (proj2 (Z.ltb_ge _ 0)) by lia.
  destruct (st_top _ (sg_stacked _ Hs)) as [g Hg]. plain_step. eapply top_runs; [done|]. plain_step.
  destruct (decide (_top s = 0)) as [E|E].
  - rewrite E in Hg. eapply runs_mono; [by apply (clear_last_runs g)|]. intros [] s1 H. plain_step.
    eapply runs_mono; [exact H|]. intros [] s2 Hb. by apply blank_cleared.
  - eapply runs_mono; [apply (clear_above_runs g); [done|lia|done]|]. intros [] s1 H. plain_step.
    eapply runs_mono; [exact H|]. intros [] s2 (Hs2 & Hlt). apply IH; [done|lia].
Qed.

(** The first movement. *)
Lemma Mutate_blank m s :
  vacant s -> sound (real (Some m)) s -> runs (Mutate run m MOTION_SLOT_IDLE) s (fun _ s' => settled s').
Proof.
  intros [B2 B3 B4 B5] Hs. unfold Mutate, MOTION_SLOT_IDLE. plain_step. plain_step. rewrite B2 by lia.
  rewrite (proj2 (Z.ltb_lt _ 0)) by done. repeat plain_step. set (s1 := put_slot 0 (Some m) (set_top 0 s)).
  assert (sound [] s1) as Hs1.
  { apply (sound_put [] 0 (Some m) None); [by apply B2|]. rewrite app_nil_r. by eapply sound_perm; [exact Hs|apply Hs|apply Hs|..]. }
  assert (forall i, 0 <= i <= 2 -> get_slot i s1 = if i =? 0 then Some (Some m) else Some None) as Hget.
  { intros i Hi. unfold s1. rewrite get_put; [|done|done|apply Hs]. destruct (i =? 0); [done|by apply B2]. }
  change (0 <? _top s1) with false. cbn iota. repeat plain_step.
  apply deref_runs; [by apply (slot_alive [] m s1 0); [|apply Hget]|]. unfold g_Initialize. repeat plain_step.
  apply (run_runs run calm); [done|]. split; [| | |done|done].
  - apply sound_emit; [done|]. eapply sound_perm; [exact Hs1|apply Hs1| |done..].
    cbn. rewrite length_insert. apply Hs.
  - split; cbn [_top emit set_needInit s1 put_slot set_Impl set_top].
    + lia.
    + eexists. by apply (Hget 0).
    + eexists. by apply (Hget 0).
    + intros i Hi. change (get_slot i s1 = Some None). rewrite Hget by lia. by rewrite (proj2 (Z.eqb_neq i 0)) by lia.
    + intros i Hi. change (get_slot i s1 <> Some (Some si_idleMovement)). rewrite Hget by lia. by rewrite (proj2 (Z.eqb_neq i 0)) by lia.
  - change (znth (zset (_needInit s) 0 false) 0 = Some false). apply znth_zset_eq. unfold zlen. rewrite (so_inits _ _ Hs). lia.
Qed.

Lemma InitDefault_runs s : blank s -> runs (InitDefault run owner) s (fun _ s' => settled s').
Proof.
  intros [Hs Hb]. unfold InitDefault.
  destruct (is_player owner); [by apply Mutate_blank|]. destruct (default_movement owner) as [t|]; [|by apply Mutate_blank].
  unfold new_gen. repeat plain_step. pose proof (so_next _ _ Hs) as Hn. pose proof (sound_new _ t _ Hs) as Hs1.
  assert (isStatic (next_gen s) = false) as Hstatic by (apply Z.eqb_neq; unfold si_idleMovement; lia).
  apply Mutate_blank; [|by unfold real; rewrite Hstatic].
  by destruct Hb as [B2 B3 B4 B5].
Qed.

Lemma Initialize_runs turns s :
  blank s \/ standing s -> (3 <= turns)%nat -> runs (Initialize lowest run owner turns) s (fun _ s' => settled s').
Proof.
  intros Hs Ht. unfold Initialize. plain_step. apply (runs_mono _ _ (fun _ s' => blank s')).
  - destruct Hs as [Hs|Hs]; [by apply blank_cleared|]. pose proof (st_range _ (sg_stacked _ Hs)).
    apply clear_loop_runs; [done|lia].
  - intros [] s1 Hb. by apply InitDefault_runs.
Qed.

Lemma settled_emit e s :
  (forall g, e <> EvFinalize g /\ e <> EvDelete g) -> settled s -> settled (emit e s).
Proof. intros He [S1 S2 S3 S4 S5]. split; [by apply sound_emit|by destruct S2|done..]. Qed.

Lemma propagate_runs s : settled s -> runs propagateSpeedChange s (fun _ s' => settled s').
Proof.
  intros Hs. unfold propagateSpeedChange. plain_step. plain_step.
  assert (forall l s', settled s' -> generators s' = generators s ->
    runs (mapM_ (fun i => match get_slot i s with
                          | Some (Some g) => _ ← deref (Some g); modify (emit (EvSpeedChanged g))
                          | _ => mret tt
                          end) l) s' (fun _ s'' => settled s'')) as Hl; [|by apply Hl].
  induction l as [|i l IH]; intros s' Hs' Eg; cbn [mapM_]; [done|plain_step].
  destruct (get_slot i s) as [[g|]|] eqn:Hi; [|plain_step; by apply IH..].
  plain_step. apply deref_runs.
  - rewrite Eg. by apply (slot_alive [] g s i); [apply Hs|].
  - plain_step. apply IH; [by apply settled_emit|done].
Qed.
End Histories.

(** ** Any history *)

(** What the callbacks of the generators may do: nothing but, in [Update], start one
    movement at most and clear or expire any number of times. *)
Record well_behaved (script : gen -> callback -> list command) : Prop := {
  wb_quiet : forall g c, c <> Update_ -> script g c = [];
  wb_update : forall g, Forall valid_command (script g Update_) /\ (all_movements (script g Update_) <= 1)%nat
}.

Definition valid_op (o : motion_op) : Prop :=
  match o with OpCommand c => valid_command c | _ => True end.

Section Knot.
Context (lowest : Z) (owner : Owner) (script : gen -> callback -> list command).
Hypothesis behaved : well_behaved script.
Hypothesis low : lowest <= -2.

Lemma run_callback_calm fuel g c s : c <> Update_ -> run_callback lowest owner script fuel g c s = (Ok tt, s).
Proof. intros Hc. destruct fuel; cbn; by rewrite (wb_quiet _ behaved g c Hc). Qed.

Lemma run_callback_inside fuel r s :
  (3 <= fuel)%nat -> updating 1 r s ->
  runs (run_callback lowest owner script fuel r Update_) s (fun _ s' => exists n, updating n r s').
Proof.
  intros Hf Hu. destruct fuel as [|fuel]; [lia|]. cbn [run_callback]. destruct (wb_update _ behaved r) as [Hv Hm].
  destruct (script r Update_) as [|c l] eqn:E; [by plain_step; exists 1%nat|].
  eapply (commands_inside lowest _ (run_callback_calm fuel) low); [lia|split; [exact Hm|done]|exact Hv|exact Hu].
Qed.

Lemma do_op_settled fuel o s :
  (4 <= fuel)%nat -> valid_op o -> settled s -> runs (do_op lowest owner script fuel o) s (fun _ s' => settled s').
Proof.
  intros Hf Hv Hs. pose proof (run_callback_calm fuel) as Hc. destruct o as [|c|goes_on|]; cbn [do_op].
  - apply Initialize_runs; [done|done|right; by apply settled_standing|lia].
  - apply command_outside; [done|done|lia|done|done].
  - apply UpdateMotion_runs; [done|done|done|done|]. intros r s1 Hu. apply run_callback_inside; [lia|done].
  - by apply propagate_runs.
Qed.

Lemma do_ops_settled fuel ops s :
  (4 <= fuel)%nat -> Forall valid_op ops -> settled s ->
  runs (mapM_ (do_op lowest owner script fuel) ops) s (fun _ s' => settled s').
Proof.
  intros Hf. revert s. induction ops as [|o ops IH]; intros s Hv Hs; cbn [mapM_]; [by plain_step|plain_step].
  apply Forall_cons in Hv as [Ho Hv]. eapply runs_mono; [by apply do_op_settled|]. intros [] s1 Hs1. by apply IH.
Qed.

Lemma new_blank : blank new_MotionMaster.
Proof.
  split; split; try done.
  - apply NoDup_nil_2.
  - intros g. cbn. rewrite lookup_empty. split; [by intros []|by intros ?%elem_of_nil].
  - intros g. cbn. rewrite lookup_empty. by intros [].
  - intros g Hg. cbn. rewrite decide_False by lia. done.
  - intros i Hi. assert (i = 0 \/ i = 1 \/ i = 2) as [->|[-> | ->]] by lia; done.
Qed.

Lemma history_settled fuel ops :
  (4 <= fuel)%nat -> Forall valid_op ops ->
  runs (mapM_ (do_op lowest owner script fuel) (OpInitialize :: ops)) new_MotionMaster (fun _ s => settled s).
Proof.
  intros Hf Hv. cbn [mapM_]. plain_step.
  apply (runs_mono _ _ (fun _ s => settled s)); [|intros [] s Hs; by apply do_ops_settled].
  apply Initialize_runs; [intros; by apply run_callback_calm|done|left; apply new_blank|lia].
Qed.
End Knot.

(** C35: in a history of a unit's movement master that begins with [Initialize] and goes
    on with any commands, updates, speed changes and initializations, no pointer to a
    freed generator is followed, no null pointer, no slot out of range, no assertion
    fails and every loop ends within four turns, if the generators' callbacks [Initialize],
    [Finalize] and [Reset] leave the master alone and each [Update] starts at most one
    movement, while it may clear and expire as often as it likes; what other callbacks break
    is shown below.  Afterwards (and so after each step) the highest occupied slot is
    on top and its generator was initialized, the lowest slot is never empty, nothing is
    put off and the update flag is down; a generator is alive exactly if one slot holds
    it, and every other one ever made was finalized once and deleted once. *)
Theorem any_history_is_safe lowest owner script fuel ops :
  lowest <= -2 -> well_behaved script -> (4 <= fuel)%nat -> Forall valid_op ops ->
  exists s, mapM_ (do_op lowest owner script fuel) (OpInitialize :: ops) new_MotionMaster = (Ok tt, s) /\ settled s.
Proof.
  intros Hl Hw Hf Hv. destruct (runs_inv _ _ _ (history_settled _ owner _ Hw Hl fuel ops Hf Hv)) as ([] & s & E & Hs).
  by exists s.
Qed.

(** A creature which wanders; each update it drops what it does and walks elsewhere. *)
Definition wanderer : Owner :=
  mkOwner false false false false false false false false (Some RANDOM_MOTION_TYPE) 0 f_zero f_zero.
Definition restless (g : gen) (c : callback) : list command :=
  match c with Update_ => [Clear_ true; MovePoint; MovementExpired_ false] | _ => [] end.

Lemma restless_behaved : well_behaved restless.
Proof. split; [by intros g []|]. intros g. split; [by repeat constructor|cbn; lia]. Qed.

Lemma any_history_is_safe_witness :
  exists s, mapM_ (do_op (-2) wanderer restless 4)
    (OpInitialize :: [OpCommand MoveConfused; OpUpdate true; OpUpdate false; OpCommand (MoveFollow true true 2); OpInitialize])
    new_MotionMaster = (Ok tt, s) /\ settled s.
Proof.
  apply any_history_is_safe; [lia|exact restless_behaved|lia|]. repeat constructor; cbn; lia.
Defined.

(** What is left then: the generator made by the last [Initialize], alone. *)
Example wanderer_left :
  let s := (mapM_ (do_op (-2) wanderer restless 4)
    [OpInitialize; OpCommand MoveConfused; OpUpdate true; OpUpdate false; OpCommand (MoveFollow true true 2); OpInitialize]
    new_MotionMaster).2 in
  (Impl s, _top s, next_gen s, map_to_list (generators s)) =
  ([Some 6; None; None], 0, 7, [(6, RANDOM_MOTION_TYPE)]).
Proof. vm_compute. reflexivity. Qed.

(** ** Two movements in one update *)

Section Freed.
Context (lowest : Z) (run : gen -> callback -> T unit).
Hypothesis calm : forall g c s, c <> Update_ -> run g c s = (Ok tt, s).

(** What a movement started in a free slot above the top leaves alone. *)
Record placed_above (slot : Z) (s s' : MotionMaster) : Prop := {
  pa_top : _top s' = slot;
  pa_slots : forall i, 0 <= i <= 2 -> i <> slot -> get_slot i s' = get_slot i s
}.

Lemma Mutate_above m slot s :
  stacked s -> sound (real (Some m)) s -> _top s < slot <= 2 ->
  runs (Mutate run m slot) s (fun _ s' => placed_above slot s s').
Proof.
  intros Hst Hs Hslot. pose proof (st_range _ Hst) as Hr. unfold Mutate. plain_step. plain_step.
  rewrite (st_above _ Hst) by lia. rewrite (proj2 (Z.ltb_lt _ _)) by lia. repeat plain_step.
  cbn [_top put_slot set_Impl set_top]. rewrite Z.ltb_irrefl. repeat plain_step.
  assert (forall i, 0 <= i <= 2 -> get_slot i (put_slot slot (Some m) (set_top slot s)) =
    if i =? slot then Some (Some m) else get_slot i s) as Hget.
  { intros i Hi. rewrite get_put; [done|done|lia|apply Hs]. }
  apply deref_runs.
  { unfold real in Hs. destruct (isStatic m) eqn:E; [by left|right]. apply (so_alive _ _ Hs). by left. }
  unfold g_Initialize. repeat plain_step. apply (run_runs run calm); [done|]. split; [done|].
  intros i Hi Hn. change (get_slot i (put_slot slot (Some m) (set_top slot s)) = get_slot i s).
  rewrite Hget by done. by rewrite (proj2 (Z.eqb_neq i slot)).
Qed.

(** A movement started in the slot of a generator that is not on top deletes it. *)
Lemma Mutate_frees m slot r s :
  stacked s -> sound (real (Some m)) s -> get_slot slot s = Some (Some r) -> isStatic r = false -> 0 <= slot < _top s ->
  runs (Mutate run m slot) s (fun _ s' => generators s' !! r = None).
Proof.
  intros Hst Hs Hg E Hslot. pose proof (st_range _ Hst) as Hr. unfold Mutate. plain_step. plain_step. rewrite Hg.
  plain_step. plain_step. plain_step. rewrite (proj2 (Z.eqb_neq _ slot)) by lia. cbn [andb].
  destruct (slot_alive _ _ _ _ Hs Hg) as [|Ha]; [congruence|].
  apply (DirectDelete_exact run calm); [done|done|]. repeat plain_step. cbn [_top put_slot set_Impl deleted].
  rewrite (proj2 (Z.ltb_lt _ _)) by lia. plain_step. cbn. apply lookup_delete_eq.
Qed.

Lemma alive_new hand t r s :
  sound hand s -> r <> next_gen s ->
  generators (set_generators (<[next_gen s := t]> (generators s)) (next_gen s + 1) s) !! r = generators s !! r.
Proof. intros _ Hn. cbn. by rewrite lookup_insert_ne. Qed.

Lemma move_above t slot s :
  stacked s -> sound [] s -> _top s < slot <= 2 -> runs (move run t slot) s (fun _ s' => placed_above slot s s').
Proof.
  intros Hst Hs Hslot. unfold move, new_gen. repeat plain_step. pose proof (sound_new _ t _ Hs) as Hs1.
  pose proof (so_next _ _ Hs) as Hn.
  eapply runs_mono.
  { apply Mutate_above; [by destruct Hst| |done]. unfold real.
    assert (isStatic (next_gen s) = false) as -> by (apply Z.eqb_neq; unfold si_idleMovement; lia). exact Hs1. }
  by intros [] s' [P1 P2].
Qed.

Lemma move_frees t slot r s :
  stacked s -> sound [] s -> get_slot slot s = Some (Some r) -> isStatic r = false -> 0 <= slot < _top s ->
  runs (move run t slot) s (fun _ s' => generators s' !! r = None).
Proof.
  intros Hst Hs Hg E Hslot. unfold move, new_gen. repeat plain_step. pose proof (sound_new _ t _ Hs) as Hs1.
  pose proof (so_next _ _ Hs) as Hn. apply Mutate_frees; [by destruct Hst| |done|done|done]. unfold real.
  assert (isStatic (next_gen s) = false) as -> by (apply Z.eqb_neq; unfold si_idleMovement; lia). exact Hs1.
Qed.
End Freed.

(** when the generator on top starts two movements during its own [Update], the
    first in the slot above and the second in its own slot, the second one deletes it
    while it runs: the update returns into a freed object. *)
Theorem second_movement_frees_the_running lowest owner script fuel goes_on r s :
  lowest <= -2 -> (1 <= fuel)%nat -> (forall g c, c <> Update_ -> script g c = []) ->
  script r Update_ = [MoveConfused; MovePoint] -> root_or_stunned owner = false ->
  settled s -> _top s = MOTION_SLOT_ACTIVE -> get_slot MOTION_SLOT_ACTIVE s = Some (Some r) ->
  exists s', do_op lowest owner script fuel (OpUpdate goes_on) s = (Throw UseAfterFree, s').
Proof.
  intros Hl Hf Hq Hscript Hroot Hs Ht Hg.
  destruct Hs as [S1 S2 S3 S4 S5]. set (s1 := emit (EvUpdate r) (set_update true s)).
  assert (sound [] s1) as Hs1.
  { apply sound_emit; [done|]. by eapply sound_perm; [exact S1|apply S1|apply S1|..]. }
  assert (stacked s1) as Hst1 by (by destruct S2).
  assert (isStatic r = false) as Hr.
  { apply Z.eqb_neq. intros ->. by apply (st_static _ S2 MOTION_SLOT_ACTIVE). }
  assert (runs (run_callback lowest owner script fuel r Update_) s1 (fun _ s2 => generators s2 !! r = None)) as Hrun.
  { destruct fuel as [|fuel]; [lia|]. cbn [run_callback]. rewrite Hscript. cbn [mapM_ perform].
    assert (forall g c s0, c <> Update_ -> run_callback lowest owner script fuel g c s0 = (Ok tt, s0)) as Hcalm.
    { intros g c s0 Hc. destruct fuel; cbn; by rewrite Hq. }
    unfold do_MoveConfused, do_MovePoint. plain_step.
    eapply runs_mono; [apply runs_and; [by apply (move_runs _ Hcalm)|apply (move_above _ Hcalm); [done|done|cbn; by rewrite Ht]]|].
    intros [] s2 [(Hs2 & Hst2 & _) [P1 P2]]. plain_step.
    eapply runs_mono; [apply (move_frees _ Hcalm _ _ r); try done; [by rewrite P2|by rewrite P1]|].
    intros [] s3 Hd. by plain_step. }
  change (throws (do_op lowest owner script fuel (OpUpdate goes_on)) s UseAfterFree).
  unfold do_op, UpdateMotion. rewrite Hroot. apply throws_after. plain_step. unfold empty. rewrite Ht. cbn [Z.ltb].
  apply throws_after. plain_step. apply throws_after. eapply top_runs; [cbn [_top set_update]; rewrite Ht; exact Hg|].
  apply throws_after. apply deref_runs; [by apply (slot_alive _ _ _ _ S1 Hg)|]. apply throws_after. plain_step.
  apply throws_after. eapply runs_mono; [exact Hrun|]. intros [] s2 Hd. apply throws_bind.
  unfold deref, type_of. apply throws_bind. apply throws_after. plain_step. rewrite Hr, Hd. by eexists.
Qed.

Definition twice (g : gen) (c : callback) : list command :=
  match c with Update_ => [MoveConfused; MovePoint] | _ => [] end.
Definition quiet (g : gen) (c : callback) : list command := [].
Definition walking : MotionMaster :=
  (mapM_ (do_op (-2) wanderer quiet 4) [OpInitialize; OpCommand MovePoint] new_MotionMaster).2.

Lemma quiet_behaved : well_behaved quiet.
Proof. split; [done|]. intros g. split; [constructor|cbn; lia]. Qed.

Lemma walking_settled : settled walking.
Proof.
  assert ((-2) <= -2) as Hl by lia.
  pose proof (history_settled (-2) wanderer quiet quiet_behaved Hl 4 [OpCommand MovePoint]) as H.
  unfold runs in H. unfold walking.
  destruct (mapM_ _ _ _) as [[[]|e] s]; [|exfalso]; apply H; [lia|by repeat constructor|lia|by repeat constructor].
Qed.

Lemma second_movement_frees_the_running_witness :
  exists s', do_op (-2) wanderer twice 2 (OpUpdate true) walking = (Throw UseAfterFree, s').
Proof.
  apply (second_movement_frees_the_running (-2) wanderer twice 2 true 2); [lia|lia|by intros g []|done|done| | |].
  - exact walking_settled.
  - by vm_compute.
  - by vm_compute.
Defined.

(** ** What the callbacks can do to the stack *)

(** A generator that clears the movements when it is finalized: the movement started in
    its place while it was on top ends up above the top and never runs. *)
Definition clears (g : gen) (c : callback) : list command :=
  match c with Finalize_ => if g =? 2 then [Clear_ true] else [] | _ => [] end.

Example new_movement_stranded :
  let s := (mapM_ (do_op (-2) wanderer clears 4) [OpInitialize; OpCommand MovePoint; OpCommand (MoveChase true)] new_MotionMaster).2 in
  (Impl s, _top s) = ([Some 1; Some 3; None], 0).
Proof. vm_compute. reflexivity. Qed.

(** A generator that starts a movement in its own slot when it is finalized: the one
    started then is overwritten, and never deleted. *)
Definition restarts (g : gen) (c : callback) : list command :=
  match c with Finalize_ => if g =? 2 then [MoveRotate 1] else [] | _ => [] end.

Example movement_leaked :
  let s := (mapM_ (do_op (-2) wanderer restarts 4)
    [OpInitialize; OpCommand MovePoint; OpCommand (MoveChase true); OpInitialize] new_MotionMaster).2 in
  (Impl s, map_to_list (generators s)) = ([Some 5; None; None], [(5, RANDOM_MOTION_TYPE); (4, ROTATE_MOTION_TYPE)]).
Proof. vm_compute. reflexivity. Qed.
