(* ===== verification/BattlegroundQueue.v ===== *)
(** * BattlegroundQueue: who fights where
      (src/src/server/game/Battlegrounds/BattlegroundQueue.cpp, BattlegroundQueue.h and
      what they use of Battleground.cpp and BattlegroundMgr.cpp)

    Players wait for a battleground or an arena in groups.  A [GroupQueueInfo] is a heap
    object: the queue of its bracket and side points to it, and so does every player of
    it.  An update fills running battlegrounds and starts new ones: it selects groups
    into two pools and invites them; the invited enter, decline or run out of time.

    Queues are deques: an insertion or an erasure in the middle invalidates the
    iterators of the deque, and going on with one of them is a fault of its own.
    Battlegrounds are objects of a store, known by their instance id.  What the code
    asks of the world (configuration, time, who is online, templates) is the record
    [World]. *)

From S2P Require Import Prelude.
From S2P Require Import EventProcessor.

(** ** Constants *)

(* [game/Miscellaneous/SharedDefines.h:778-789] Team *)
Definition HORDE : Z := 67.
(* [game/Miscellaneous/SharedDefines.h:778-789] Team *)
Definition ALLIANCE : Z := 469.
Definition TEAM_ALLIANCE : Z := 0.
Definition TEAM_HORDE : Z := 1.
Definition BG_TEAMS_COUNT : Z := 2.
Definition MAX_BATTLEGROUND_BRACKETS : Z := 16.
Definition COUNT_OF_PLAYERS_TO_AVERAGE_WAIT_TIME : Z := 10.
Definition INVITATION_REMIND_TIME : Z := 20000.
Definition INVITE_ACCEPT_WAIT_TIME : Z := 90000.
Definition PLAYER_MAX_BATTLEGROUND_QUEUES : Z := 2.

(* [game/Battlegrounds/BattlegroundQueue.h:59-65] BattlegroundQueueGroupTypes *)
Definition BG_QUEUE_PREMADE_ALLIANCE : Z := 0.
Definition BG_QUEUE_PREMADE_HORDE : Z := 1.
Definition BG_QUEUE_NORMAL_ALLIANCE : Z := 2.
Definition BG_QUEUE_NORMAL_HORDE : Z := 3.
Definition BG_QUEUE_GROUP_TYPES_COUNT : Z := 4.

(* [game/Battlegrounds/Battleground.h:161-168] BattlegroundStatus *)
Definition STATUS_NONE : Z := 0.
Definition STATUS_WAIT_QUEUE : Z := 1.
Definition STATUS_WAIT_JOIN : Z := 2.
Definition STATUS_IN_PROGRESS : Z := 3.
Definition STATUS_WAIT_LEAVE : Z := 4.

Definition BATTLEGROUND_TYPE_NONE : Z := 0.
Definition BATTLEGROUND_AA : Z := 6.

(** ** Data *)

(** A pointer to a group. *)
Abbreviation ginfo := Z (only parsing).

(* [game/Battlegrounds/BattlegroundQueue.h:34-38] PlayerQueueInfo *)
Record PlayerQueueInfo := mkPlayerQueueInfo {
  LastOnlineTime : Z;
  GroupInfo : ginfo
}.

(** [Players]: the keys of the map; its values only point back to the players' entries. *)
(* [game/Battlegrounds/BattlegroundQueue.h:40-57] GroupQueueInfo *)
Record GroupQueueInfo := mkGroup {
  Players : gset Z;
  Team : Z;
  BgTypeId : Z;
  IsRated : bool;
  ArenaType : Z;
  ArenaTeamId : Z;
  JoinTime : Z;
  RemoveInviteTime : Z;
  IsInvitedToBGInstanceGUID : Z;
  ArenaTeamRating : Z;
  ArenaMatchmakerRating : Z;
  OpponentsTeamRating : Z;
  OpponentsMatchmakerRating : Z
}.

(** [SelectionPool] of BattlegroundQueue.h. *)
(* [game/Battlegrounds/BattlegroundQueue.h:107-120] BattlegroundQueue::SelectionPool *)
Record SelectionPool := mkPool {
  SelectedGroups : list ginfo;
  PlayerCount : Z
}.

(** What a battleground has of the queue's business. *)
(* [game/Battlegrounds/Battleground.h:700-770] Battleground *)
Record Battleground := mkBg {
  m_TypeID : Z;
  m_BracketId : Z;
  m_Status : Z;
  m_IsArena : bool;
  m_IsRated : bool;
  m_ArenaType : Z;
  m_MaxPlayersPerTeam : Z;
  m_MinPlayersPerTeam : Z;
  m_MaxPlayers : Z;
  m_InvitedAlliance : Z;
  m_InvitedHorde : Z;
  m_AllianceAwaitingPlayers : Z;
  m_HordeAwaitingPlayers : Z;
  m_Players : gmap Z Z;
  m_PlayersCountAlliance : Z;
  m_PlayersCountHorde : Z;
  m_InBGFreeSlotQueue : bool;
  m_ArenaTeamIds : Z * Z;
  m_ArenaTeamMMR : Z * Z;
  registered : bool
}.

(** What leaves the queue. *)
Inductive bg_output :=
| OutStatus (guid : Z) (instance : Z) (status : Z)
| OutInvite (guid : Z) (instance : Z)
| OutRemindEvent (guid : Z) (instance : Z) (bgType : Z) (arenaType : Z) (removeTime : Z) (delay : Z)
| OutRemoveEvent (guid : Z) (instance : Z) (bgType : Z) (removeTime : Z) (delay : Z)
| OutRemoveQueueId (guid : Z)
| OutAnnounce
| OutQueueAnnounce (alliance horde : Z)
| OutMemberLost (team : Z) (guid : Z) (online : bool) (opponent : Z)
| OutStart (instance : Z)
| OutScheduleUpdate (bgType : Z) (bracket : Z)
| OutError.

(* [game/Battlegrounds/BattlegroundQueue.h:68-139] BattlegroundQueue *)
Record BgQueue := mkBgQueue {
  heap : gmap Z GroupQueueInfo;
  next_group : Z;
  m_QueuedPlayers : gmap Z PlayerQueueInfo;
  m_QueuedGroups : gmap (Z * Z) (list ginfo);
  pool_alliance : SelectionPool;
  pool_horde : SelectionPool;
  m_WaitTimes : gmap (Z * Z) (list Z);
  m_WaitTimeLastPlayer : gmap (Z * Z) Z;
  m_SumOfWaitTimes : gmap (Z * Z) Z;
  bgs : gmap Z Battleground;
  next_instance : Z;
  BGFreeSlotQueue : gmap Z (list Z);
  out : list bg_output
}.

(** The parts of a template that a new battleground copies. *)
Record Template := mkTemplate {
  t_IsArena : bool;
  t_MaxPlayersPerTeam : Z;
  t_MinPlayersPerTeam : Z;
  t_MaxPlayers : Z
}.

Record World := mkWorld {
  now : Z;
  online : Z -> bool;
  ignore_faction : bool;
  urand_draw : Z;
  arena_announcer : bool;
  queue_announcer : bool;
  invitation_type : Z;
  premade_wait : Z;
  is_testing : bool;
  is_arena_testing : bool;
  max_rating_difference : Z;
  rating_discard_timer : Z;
  arena_team_exists : Z -> bool;
  bg_template : Z -> option Template;
  bracket_exists : bool;
  (** the template [CreateNewBattleground] copies, after the draw of a random type *)
  new_template : Z -> option Template
}.

Inductive fault := UseAfterFree | InvalidIterator | EmptyContainer | OutOfFuel.
Abbreviation T := (M BgQueue fault).

(** ** Changing one field *)

Definition set_heap (h : gmap Z GroupQueueInfo) (n : Z) (q : BgQueue) : BgQueue :=
  mkBgQueue h n (m_QueuedPlayers q) (m_QueuedGroups q) (pool_alliance q) (pool_horde q) (m_WaitTimes q)
    (m_WaitTimeLastPlayer q) (m_SumOfWaitTimes q) (bgs q) (next_instance q) (BGFreeSlotQueue q) (out q).
Definition set_QueuedPlayers (m : gmap Z PlayerQueueInfo) (q : BgQueue) : BgQueue :=
  mkBgQueue (heap q) (next_group q) m (m_QueuedGroups q) (pool_alliance q) (pool_horde q) (m_WaitTimes q)
    (m_WaitTimeLastPlayer q) (m_SumOfWaitTimes q) (bgs q) (next_instance q) (BGFreeSlotQueue q) (out q).
Definition set_QueuedGroups (m : gmap (Z * Z) (list ginfo)) (q : BgQueue) : BgQueue :=
  mkBgQueue (heap q) (next_group q) (m_QueuedPlayers q) m (pool_alliance q) (pool_horde q) (m_WaitTimes q)
    (m_WaitTimeLastPlayer q) (m_SumOfWaitTimes q) (bgs q) (next_instance q) (BGFreeSlotQueue q) (out q).
Definition set_pools (a h : SelectionPool) (q : BgQueue) : BgQueue :=
  mkBgQueue (heap q) (next_group q) (m_QueuedPlayers q) (m_QueuedGroups q) a h (m_WaitTimes q)
    (m_WaitTimeLastPlayer q) (m_SumOfWaitTimes q) (bgs q) (next_instance q) (BGFreeSlotQueue q) (out q).
Definition set_waits (w : gmap (Z * Z) (list Z)) (l u : gmap (Z * Z) Z) (q : BgQueue) : BgQueue :=
  mkBgQueue (heap q) (next_group q) (m_QueuedPlayers q) (m_QueuedGroups q) (pool_alliance q) (pool_horde q) w l u
    (bgs q) (next_instance q) (BGFreeSlotQueue q) (out q).
Definition set_bgs (b : gmap Z Battleground) (n : Z) (f : gmap Z (list Z)) (q : BgQueue) : BgQueue :=
  mkBgQueue (heap q) (next_group q) (m_QueuedPlayers q) (m_QueuedGroups q) (pool_alliance q) (pool_horde q)
    (m_WaitTimes q) (m_WaitTimeLastPlayer q) (m_SumOfWaitTimes q) b n f (out q).
Definition emit (o : bg_output) (q : BgQueue) : BgQueue :=
  mkBgQueue (heap q) (next_group q) (m_QueuedPlayers q) (m_QueuedGroups q) (pool_alliance q) (pool_horde q)
    (m_WaitTimes q) (m_WaitTimeLastPlayer q) (m_SumOfWaitTimes q) (bgs q) (next_instance q) (BGFreeSlotQueue q)
    (out q ++ [o]).

Definition put_group (p : ginfo) (g : GroupQueueInfo) (q : BgQueue) : BgQueue :=
  set_heap (<[p := g]> (heap q)) (next_group q) q.
Definition put_bg (i : Z) (b : Battleground) (q : BgQueue) : BgQueue :=
  set_bgs (<[i := b]> (bgs q)) (next_instance q) (BGFreeSlotQueue q) q.

Definition with_Players (s : gset Z) (g : GroupQueueInfo) : GroupQueueInfo :=
  mkGroup s (Team g) (BgTypeId g) (IsRated g) (ArenaType g) (ArenaTeamId g) (JoinTime g) (RemoveInviteTime g)
    (IsInvitedToBGInstanceGUID g) (ArenaTeamRating g) (ArenaMatchmakerRating g) (OpponentsTeamRating g)
    (OpponentsMatchmakerRating g).
Definition with_Team (t : Z) (g : GroupQueueInfo) : GroupQueueInfo :=
  mkGroup (Players g) t (BgTypeId g) (IsRated g) (ArenaType g) (ArenaTeamId g) (JoinTime g) (RemoveInviteTime g)
    (IsInvitedToBGInstanceGUID g) (ArenaTeamRating g) (ArenaMatchmakerRating g) (OpponentsTeamRating g)
    (OpponentsMatchmakerRating g).
Definition with_invite (i r : Z) (g : GroupQueueInfo) : GroupQueueInfo :=
  mkGroup (Players g) (Team g) (BgTypeId g) (IsRated g) (ArenaType g) (ArenaTeamId g) (JoinTime g) r i
    (ArenaTeamRating g) (ArenaMatchmakerRating g) (OpponentsTeamRating g) (OpponentsMatchmakerRating g).
Definition with_opponents (t m : Z) (g : GroupQueueInfo) : GroupQueueInfo :=
  mkGroup (Players g) (Team g) (BgTypeId g) (IsRated g) (ArenaType g) (ArenaTeamId g) (JoinTime g)
    (RemoveInviteTime g) (IsInvitedToBGInstanceGUID g) (ArenaTeamRating g) (ArenaMatchmakerRating g) t m.

Definition with_counts (ia ih aa ah : Z) (b : Battleground) : Battleground :=
  mkBg (m_TypeID b) (m_BracketId b) (m_Status b) (m_IsArena b) (m_IsRated b) (m_ArenaType b) (m_MaxPlayersPerTeam b)
    (m_MinPlayersPerTeam b) (m_MaxPlayers b) ia ih aa ah (m_Players b) (m_PlayersCountAlliance b) (m_PlayersCountHorde b)
    (m_InBGFreeSlotQueue b) (m_ArenaTeamIds b) (m_ArenaTeamMMR b) (registered b).
Definition with_inside (m : gmap Z Z) (pa ph : Z) (b : Battleground) : Battleground :=
  mkBg (m_TypeID b) (m_BracketId b) (m_Status b) (m_IsArena b) (m_IsRated b) (m_ArenaType b) (m_MaxPlayersPerTeam b)
    (m_MinPlayersPerTeam b) (m_MaxPlayers b) (m_InvitedAlliance b) (m_InvitedHorde b) (m_AllianceAwaitingPlayers b)
    (m_HordeAwaitingPlayers b) m pa ph (m_InBGFreeSlotQueue b) (m_ArenaTeamIds b) (m_ArenaTeamMMR b) (registered b).
Definition with_status (t : Z) (b : Battleground) : Battleground :=
  mkBg (m_TypeID b) (m_BracketId b) t (m_IsArena b) (m_IsRated b) (m_ArenaType b) (m_MaxPlayersPerTeam b)
    (m_MinPlayersPerTeam b) (m_MaxPlayers b) (m_InvitedAlliance b) (m_InvitedHorde b) (m_AllianceAwaitingPlayers b)
    (m_HordeAwaitingPlayers b) (m_Players b) (m_PlayersCountAlliance b) (m_PlayersCountHorde b) (m_InBGFreeSlotQueue b)
    (m_ArenaTeamIds b) (m_ArenaTeamMMR b) (registered b).
Definition with_slots (free reg : bool) (b : Battleground) : Battleground :=
  mkBg (m_TypeID b) (m_BracketId b) (m_Status b) (m_IsArena b) (m_IsRated b) (m_ArenaType b) (m_MaxPlayersPerTeam b)
    (m_MinPlayersPerTeam b) (m_MaxPlayers b) (m_InvitedAlliance b) (m_InvitedHorde b) (m_AllianceAwaitingPlayers b)
    (m_HordeAwaitingPlayers b) (m_Players b) (m_PlayersCountAlliance b) (m_PlayersCountHorde b) free
    (m_ArenaTeamIds b) (m_ArenaTeamMMR b) reg.
Definition with_arena (ids mmr : Z * Z) (b : Battleground) : Battleground :=
  mkBg (m_TypeID b) (m_BracketId b) (m_Status b) (m_IsArena b) (m_IsRated b) (m_ArenaType b) (m_MaxPlayersPerTeam b)
    (m_MinPlayersPerTeam b) (m_MaxPlayers b) (m_InvitedAlliance b) (m_InvitedHorde b) (m_AllianceAwaitingPlayers b)
    (m_HordeAwaitingPlayers b) (m_Players b) (m_PlayersCountAlliance b) (m_PlayersCountHorde b) (m_InBGFreeSlotQueue b)
    ids mmr (registered b).

(** ** Reading *)

Definition queue (q : BgQueue) (bracket type : Z) : list ginfo := default [] (m_QueuedGroups q !! (bracket, type)).
Definition put_queue (bracket type : Z) (l : list ginfo) (q : BgQueue) : BgQueue :=
  set_QueuedGroups (<[(bracket, type) := l]> (m_QueuedGroups q)) q.

Definition deref (p : ginfo) : T GroupQueueInfo :=
  q ← get; match heap q !! p with Some g => mret g | None => throw UseAfterFree end.
Definition deref_bg (i : Z) : T Battleground :=
  q ← get; match bgs q !! i with Some b => mret b | None => throw UseAfterFree end.

(** The players of a group in the order of the map. *)
Definition guids (g : GroupQueueInfo) : list Z := merge_sort Z.le (elements (Players g)).
Definition players (g : GroupQueueInfo) : Z := Z.of_nat (size (Players g)).
Definition invited (g : GroupQueueInfo) : bool := negb (IsInvitedToBGInstanceGUID g =? 0).

Definition pool (team : Z) (q : BgQueue) : SelectionPool := if team =? TEAM_ALLIANCE then pool_alliance q else pool_horde q.
Definition put_pool (team : Z) (p : SelectionPool) (q : BgQueue) : BgQueue :=
  if team =? TEAM_ALLIANCE then set_pools p (pool_horde q) q else set_pools (pool_alliance q) p q.

(** ** Battlegrounds *)

(* [game/Battlegrounds/Battleground.h:440-440] Battleground::GetInvitedCount *)
Definition GetInvitedCount (b : Battleground) (team : Z) : Z :=
  if team =? ALLIANCE then m_InvitedAlliance b else m_InvitedHorde b.
(* [game/Battlegrounds/Battleground.h:437-437] Battleground::IncreaseInvitedCount *)
Definition IncreaseInvitedCount (team : Z) (b : Battleground) : Battleground :=
  if team =? ALLIANCE
  then with_counts (u32 (m_InvitedAlliance b + 1)) (m_InvitedHorde b) (m_AllianceAwaitingPlayers b) (m_HordeAwaitingPlayers b) b
  else with_counts (m_InvitedAlliance b) (u32 (m_InvitedHorde b + 1)) (m_AllianceAwaitingPlayers b) (m_HordeAwaitingPlayers b) b.
(* [game/Battlegrounds/Battleground.h:436-436] Battleground::DecreaseInvitedCount *)
Definition DecreaseInvitedCount (team : Z) (b : Battleground) : Battleground :=
  if team =? ALLIANCE
  then with_counts (u32 (m_InvitedAlliance b - 1)) (m_InvitedHorde b) (m_AllianceAwaitingPlayers b) (m_HordeAwaitingPlayers b) b
  else with_counts (m_InvitedAlliance b) (u32 (m_InvitedHorde b - 1)) (m_AllianceAwaitingPlayers b) (m_HordeAwaitingPlayers b) b.

(* [game/Battlegrounds/Battleground.h:444-444] Battleground::GetAwaitingPlayers *)
Definition GetAwaitingPlayers (b : Battleground) (team : Z) : Z :=
  if team =? ALLIANCE then m_AllianceAwaitingPlayers b else m_HordeAwaitingPlayers b.
(* [game/Battlegrounds/Battleground.h:445-445] Battleground::IncreaseAwaitingPlayers *)
Definition IncreaseAwaitingPlayers (team : Z) (b : Battleground) : Battleground :=
  if team =? ALLIANCE
  then with_counts (m_InvitedAlliance b) (m_InvitedHorde b) (u8 (m_AllianceAwaitingPlayers b + 1)) (m_HordeAwaitingPlayers b) b
  else with_counts (m_InvitedAlliance b) (m_InvitedHorde b) (m_AllianceAwaitingPlayers b) (u8 (m_HordeAwaitingPlayers b + 1)) b.
(* [game/Battlegrounds/Battleground.h:446-446] Battleground::DecreaseAwaitingPlayers *)
Definition DecreaseAwaitingPlayers (team : Z) (b : Battleground) : Battleground :=
  if team =? ALLIANCE
  then with_counts (m_InvitedAlliance b) (m_InvitedHorde b) (u8 (m_AllianceAwaitingPlayers b - 1)) (m_HordeAwaitingPlayers b) b
  else with_counts (m_InvitedAlliance b) (m_InvitedHorde b) (m_AllianceAwaitingPlayers b) (u8 (m_HordeAwaitingPlayers b - 1)) b.
(* [game/Battlegrounds/Battleground.h:447-447] Battleground::ClearAwaitingPlayers *)
Definition ClearAwaitingPlayers (b : Battleground) : Battleground := with_counts (m_InvitedAlliance b) (m_InvitedHorde b) 0 0 b.

(* [game/Battlegrounds/Battleground.h:538-538] Battleground::GetPlayersCountByTeam *)
Definition GetPlayersCountByTeam (b : Battleground) (team : Z) : Z :=
  if team =? ALLIANCE then m_PlayersCountAlliance b else m_PlayersCountHorde b.

(* [game/Battlegrounds/Battleground.cpp:1413-1468] Battleground::GetFreeSlotsForTeam *)
Definition GetFreeSlotsForTeam (b : Battleground) (team : Z) : Z :=
  let room := if GetInvitedCount b team <? m_MaxPlayersPerTeam b then m_MaxPlayersPerTeam b - GetInvitedCount b team else 0 in
  if m_Status b =? STATUS_WAIT_JOIN then room
  else
    let other := if team =? ALLIANCE then HORDE else ALLIANCE in
    let otherTeam := GetInvitedCount b other in
    let otherIn := GetPlayersCountByTeam b other in
    if m_Status b =? STATUS_IN_PROGRESS then
      let diff :=
        if otherTeam =? GetInvitedCount b team then 1
        else if GetInvitedCount b team <? otherTeam then otherTeam - GetInvitedCount b team else 0 in
      let diff3 :=
        if otherIn =? GetPlayersCountByTeam b team then 1
        else if GetPlayersCountByTeam b team <? otherIn then otherIn - GetPlayersCountByTeam b team
        else if GetInvitedCount b team <=? m_MinPlayersPerTeam b
             then u32 (m_MinPlayersPerTeam b - GetInvitedCount b team + 1) else 0 in
      Z.min (Z.min diff room) diff3
    else 0.

(* [game/Battlegrounds/Battleground.cpp:1470-1473] Battleground::HasFreeSlots *)
Definition HasFreeSlots (b : Battleground) : bool := Z.of_nat (size (m_Players b)) <? m_MaxPlayers b.

Definition free_slot_queue (t : Z) (q : BgQueue) : list Z := default [] (BGFreeSlotQueue q !! t).

(* [game/Battlegrounds/Battleground.cpp:1393-1401] Battleground::AddToBGFreeSlotQueue *)
Definition AddToBGFreeSlotQueue (i : Z) : T unit :=
  b ← deref_bg i;
  if negb (m_InBGFreeSlotQueue b) && negb (m_IsArena b) then
    modify (fun q => set_bgs (<[i := with_slots true (registered b) b]> (bgs q)) (next_instance q)
                       (<[m_TypeID b := i :: free_slot_queue (m_TypeID b) q]> (BGFreeSlotQueue q)) q)
  else mret tt.

Fixpoint remove_first (i : Z) (l : list Z) : list Z :=
  match l with [] => [] | j :: l => if i =? j then l else j :: remove_first i l end.

(* [game/Battlegrounds/Battleground.cpp:1403-1411] Battleground::RemoveFromBGFreeSlotQueue *)
Definition RemoveFromBGFreeSlotQueue (i : Z) : T unit :=
  b ← deref_bg i;
  if m_InBGFreeSlotQueue b then
    modify (fun q => set_bgs (<[i := with_slots false (registered b) b]> (bgs q)) (next_instance q)
                       (<[m_TypeID b := remove_first i (free_slot_queue (m_TypeID b) q)]> (BGFreeSlotQueue q)) q)
  else mret tt.

(** Instance ids differ between types too: the search over all types finds the same. *)
(* [game/Battlegrounds/BattlegroundMgr.cpp:757-785] BattlegroundMgr::GetBattleground *)
Definition GetBattleground (q : BgQueue) (i t : Z) : option Battleground :=
  if i =? 0 then None
  else b ← bgs q !! i; if registered b && ((t =? BATTLEGROUND_TYPE_NONE) || (m_TypeID b =? t)) then Some b else None.

(** The new battleground gets an instance id never used before. *)
(* [game/Battlegrounds/BattlegroundMgr.cpp:825-921] BattlegroundMgr::CreateNewBattleground *)
Definition CreateNewBattleground (w : World) (t bracket arenaType : Z) (isRated : bool) : T (option Z) :=
  match new_template w t with
  | None => modify (emit OutError) ;; mret None
  | Some tpl =>
    q ← get;
    let i := next_instance q in
    modify (set_bgs (<[i := mkBg t bracket STATUS_WAIT_JOIN (t_IsArena tpl) isRated arenaType (t_MaxPlayersPerTeam tpl)
                              (t_MinPlayersPerTeam tpl) (t_MaxPlayers tpl) 0 0 0 0 ∅ 0 0 false (0, 0) (0, 0) false]> (bgs q))
                    (i + 1) (BGFreeSlotQueue q)) ;;
    mret (Some i)
  end.

(* [game/Battlegrounds/Battleground.cpp:1177-1191] Battleground::StartBattleground *)
Definition StartBattleground (i : Z) : T unit :=
  AddToBGFreeSlotQueue i ;;
  b ← deref_bg i;
  modify (put_bg i (with_slots (m_InBGFreeSlotQueue b) true b)) ;;
  modify (emit (OutStart i)).

(** ** Selection pools *)

(* [game/Battlegrounds/BattlegroundQueue.cpp:78-82] BattlegroundQueue::SelectionPool::Init *)
Definition pool_Init : SelectionPool := mkPool [] 0.

(** The group the loop of [KickGroup] ends with: its place in the pool. *)
(* [game/Battlegrounds/BattlegroundQueue.cpp:91-101] BattlegroundQueue::SelectionPool::KickGroup *)
Fixpoint kick_loop (size : Z) (rest : list ginfo) (i kick : nat) (kicked : ginfo) (found : bool) : T nat :=
  match rest with
  | [] => mret kick
  | p :: rest =>
    g ← deref p;
    if Z.abs (i32 (u64 (players g - size))) <=? 1 then kick_loop size rest (S i) i p true
    else
      k ← deref kicked;
      if negb found && (players k <=? players g) then kick_loop size rest (S i) i p found
      else kick_loop size rest (S i) kick kicked found
  end.

(* [game/Battlegrounds/BattlegroundQueue.cpp:84-115] BattlegroundQueue::SelectionPool::KickGroup *)
Definition KickGroup (team size : Z) : T bool :=
  q ← get;
  let sel := SelectedGroups (pool team q) in
  kick ← (match sel with [] => mret 0%nat | p :: _ => kick_loop size sel 0 0 p false end);
  if PlayerCount (pool team q) =? 0 then mret true
  else
    match sel !! kick with
    | None => throw InvalidIterator
    | Some p =>
      g ← deref p;
      modify (put_pool team (mkPool (take kick sel ++ drop (S kick) sel) (u32 (PlayerCount (pool team q) - players g)))) ;;
      mret (negb (players g <=? u32 (size + 1)))
    end.

(* [game/Battlegrounds/BattlegroundQueue.cpp:117-132] BattlegroundQueue::SelectionPool::AddGroup *)
Definition pool_AddGroup (team : Z) (p : ginfo) (desiredCount : Z) : T bool :=
  g ← deref p;
  q ← get;
  let pl := pool team q in
  if negb (invited g) && (PlayerCount pl + players g <=? desiredCount) then
    modify (put_pool team (mkPool (SelectedGroups pl ++ [p]) (u32 (PlayerCount pl + players g)))) ;;
    mret true
  else mret (PlayerCount pl <? desiredCount).

(** ** Joining *)

(** The players of the groups not yet invited, as the faction choice and the
    announcements count them. *)
(* [game/Battlegrounds/BattlegroundQueue.cpp:185-193] BattlegroundQueue::AddGroup *)
Fixpoint count_waiting (l : list ginfo) (n : Z) : T Z :=
  match l with
  | [] => mret n
  | p :: l => g ← deref p; count_waiting l (if invited g then n else u32 (n + players g))
  end.

(** The team of the first running battleground that takes players, if there is one. *)
(* [game/Battlegrounds/BattlegroundQueue.cpp:159-181] BattlegroundQueue::AddGroup *)
Fixpoint team_of_running (w : World) (t bracket : Z) (l : list Z) : T (option Z) :=
  match l with
  | [] => mret None
  | i :: l =>
    b ← deref_bg i;
    if negb (m_IsRated b) && (m_TypeID b =? t) && (m_BracketId b =? bracket)
       && (STATUS_WAIT_QUEUE <? m_Status b) && (m_Status b <? STATUS_WAIT_LEAVE)
    then
      let hordeFree := i32 (GetFreeSlotsForTeam b HORDE) in
      let aliFree := i32 (GetFreeSlotsForTeam b ALLIANCE) in
      mret (Some (if hordeFree =? aliFree then (if urand_draw w <? 50 then HORDE else ALLIANCE)
                  else if aliFree <? hordeFree then HORDE else ALLIANCE))
    else team_of_running w t bracket l
  end.

(* [game/Battlegrounds/BattlegroundQueue.cpp:156-211] BattlegroundQueue::AddGroup *)
Definition choose_team (w : World) (leader_team t bracket : Z) : T Z :=
  if negb (ignore_faction w) then mret leader_team
  else
    q ← get;
    running ← team_of_running w t bracket (free_slot_queue t q);
    match running with
    | Some team => mret team
    | None =>
      qAlliance ← count_waiting (queue q bracket BG_QUEUE_NORMAL_ALLIANCE) 0;
      qHorde ← count_waiting (queue q bracket BG_QUEUE_NORMAL_HORDE) 0;
      mret (if qAlliance =? qHorde
            then if qAlliance =? 0 then leader_team else if urand_draw w <? 50 then HORDE else ALLIANCE
            else if qAlliance <? qHorde then ALLIANCE else HORDE)
    end.

(* [game/Battlegrounds/BattlegroundQueue.cpp:232-252] BattlegroundQueue::AddGroup *)
Fixpoint add_members (w : World) (p : ginfo) (l : list Z) : T unit :=
  match l with
  | [] => mret tt
  | guid :: l =>
    modify (fun q => set_QueuedPlayers (<[guid := mkPlayerQueueInfo (now w) p]> (m_QueuedPlayers q)) q) ;;
    g ← deref p;
    modify (put_group p (with_Players ({[guid]} ∪ Players g) g)) ;;
    add_members w p l
  end.

(** [members]: the members of the leader's group, or the leader alone. *)
(* [game/Battlegrounds/BattlegroundQueue.cpp:139-296] BattlegroundQueue::AddGroup *)
Definition AddGroup (w : World) (leader_team : Z) (members : list Z) (t bracket arenaType : Z) (isRated isPremade : bool)
    (arenaRating matchmakerRating arenateamid : Z) : T ginfo :=
  q ← get;
  let p := next_group q in
  modify (set_heap (<[p := mkGroup ∅ leader_team t isRated arenaType arenateamid (now w) 0 0 arenaRating
                             matchmakerRating 0 0]> (heap q)) (p + 1)) ;;
  team ← choose_team w leader_team t bracket;
  g ← deref p;
  modify (put_group p (with_Team team g)) ;;
  let index := (if isRated || isPremade then 0 else BG_TEAMS_COUNT) + (if team =? HORDE then 1 else 0) in
  (if isRated && arena_announcer w && arena_team_exists w arenateamid then modify (emit OutAnnounce) else mret tt) ;;
  add_members w p members ;;
  modify (fun q => put_queue bracket index (queue q bracket index ++ [p]) q) ;;
  (if negb isRated && negb isPremade && queue_announcer w then
     match bg_template w t with
     | None => mret tt
     | Some _ =>
       q ← get;
       qAlliance ← count_waiting (queue q bracket BG_QUEUE_NORMAL_ALLIANCE) 0;
       qHorde ← count_waiting (queue q bracket BG_QUEUE_NORMAL_HORDE) 0;
       modify (emit (OutQueueAnnounce qAlliance qHorde))
     end
   else mret tt) ;;
  mret p.

(** ** Waiting times *)

(* [game/Battlegrounds/BattlegroundQueue.cpp:301-311] BattlegroundQueue::PlayerInvitedToBGUpdateAverageWaitTime *)
Definition wait_team (g : GroupQueueInfo) : Z :=
  if ArenaType g =? 0 then (if Team g =? HORDE then TEAM_HORDE else TEAM_ALLIANCE)
  else if IsRated g then TEAM_HORDE else TEAM_ALLIANCE.

Definition wait_times (q : BgQueue) (k : Z * Z) : list Z :=
  default (repeat 0 (Z.to_nat COUNT_OF_PLAYERS_TO_AVERAGE_WAIT_TIME)) (m_WaitTimes q !! k).
Definition last_player (q : BgQueue) (k : Z * Z) : Z := default 0 (m_WaitTimeLastPlayer q !! k).
Definition sum_of_waits (q : BgQueue) (k : Z * Z) : Z := default 0 (m_SumOfWaitTimes q !! k).

(* [game/Battlegrounds/BattlegroundQueue.cpp:298-324] BattlegroundQueue::PlayerInvitedToBGUpdateAverageWaitTime *)
Definition PlayerInvitedToBGUpdateAverageWaitTime (w : World) (g : GroupQueueInfo) (bracket : Z) (q : BgQueue) : BgQueue :=
  let timeInQueue := getMSTimeDiff (JoinTime g) (now w) in
  let k := (wait_team g, bracket) in
  let last := last_player q k in
  let old := default 0 (znth (wait_times q k) last) in
  set_waits (<[k := zset (wait_times q k) last timeInQueue]> (m_WaitTimes q))
    (<[k := (last + 1) mod COUNT_OF_PLAYERS_TO_AVERAGE_WAIT_TIME]> (m_WaitTimeLastPlayer q))
    (<[k := u32 (u32 (sum_of_waits q k - old) + timeInQueue)]> (m_SumOfWaitTimes q)) q.

(* [game/Battlegrounds/BattlegroundQueue.cpp:326-345] BattlegroundQueue::GetAverageQueueWaitTime *)
Definition GetAverageQueueWaitTime (q : BgQueue) (g : GroupQueueInfo) (bracket : Z) : Z :=
  let k := (wait_team g, bracket) in
  if default 0 (znth (wait_times q k) (COUNT_OF_PLAYERS_TO_AVERAGE_WAIT_TIME - 1)) =? 0 then 0
  else sum_of_waits q k / COUNT_OF_PLAYERS_TO_AVERAGE_WAIT_TIME.

(** ** Leaving *)

Fixpoint position (p : ginfo) (l : list ginfo) : option nat :=
  match l with [] => None | x :: l => if x =? p then Some O else S <$> position p l end.

(** Where a group is: the brackets from the highest down, in each the premade queue of
    the team and then its normal one. *)
(* [game/Battlegrounds/BattlegroundQueue.cpp:366-387] BattlegroundQueue::RemovePlayer *)
Fixpoint find_group (q : BgQueue) (p : ginfo) (index : Z) (brackets : nat) : option (Z * Z * nat) :=
  match brackets with
  | O => None
  | S b =>
    let bracket := Z.of_nat b in
    match position p (queue q bracket (index + BG_TEAMS_COUNT)), position p (queue q bracket index) with
    | Some k, _ => Some (bracket, index + BG_TEAMS_COUNT, k)
    | None, Some k => Some (bracket, index, k)
    | None, None => find_group q p index b
    end
  end.

Definition erase (k : nat) (l : list ginfo) : list ginfo := take k l ++ drop (S k) l.

(** What the battleground a group is invited to is told when a player of it leaves. *)
(* [game/Battlegrounds/BattlegroundQueue.cpp:411-417] BattlegroundQueue::RemovePlayer *)
Definition tell_battleground (decreaseInvitedCount : bool) (g : GroupQueueInfo) : T unit :=
  let i := IsInvitedToBGInstanceGUID g in
  q ← get;
  (match GetBattleground q i (if BgTypeId g =? BATTLEGROUND_AA then BATTLEGROUND_TYPE_NONE else BgTypeId g) with
   | Some b => modify (put_bg i (DecreaseAwaitingPlayers (Team g) b))
   | None => mret tt
   end) ;;
  if decreaseInvitedCount && invited g then
    q ← get;
    match GetBattleground q i (BgTypeId g) with
    | Some b => modify (put_bg i (DecreaseInvitedCount (Team g) b))
    | None => mret tt
    end
  else mret tt.

(* [game/Battlegrounds/BattlegroundQueue.cpp:348-468] BattlegroundQueue::RemovePlayer *)
Fixpoint RemovePlayer (fuel : nat) (w : World) (guid : Z) (decreaseInvitedCount : bool) : T unit :=
  q ← get;
  match m_QueuedPlayers q !! guid with
  | None => modify (emit OutError)
  | Some pl =>
    let p := GroupInfo pl in
    g ← deref p;
    match find_group q p (if Team g =? HORDE then BG_QUEUE_PREMADE_HORDE else BG_QUEUE_PREMADE_ALLIANCE)
                     (Z.to_nat MAX_BATTLEGROUND_BRACKETS) with
    | None => modify (emit OutError)
    | Some (bracket, index, k) =>
      let g := with_Players (Players g ∖ {[guid]}) g in
      modify (put_group p g) ;;
      tell_battleground decreaseInvitedCount g ;;
      modify (fun q => set_QueuedPlayers (delete guid (m_QueuedPlayers q)) q) ;;
      (if negb (ArenaType g =? 0) && IsRated g && (players g =? 0) && arena_announcer w
          && arena_team_exists w (ArenaTeamId g)
       then modify (emit OutAnnounce) else mret tt) ;;
      (if invited g && IsRated g && decreaseInvitedCount && arena_team_exists w (ArenaTeamId g)
       then modify (emit (OutMemberLost (ArenaTeamId g) guid (online w guid) (OpponentsMatchmakerRating g)))
       else mret tt) ;;
      if players g =? 0 then
        modify (fun q => put_queue bracket index (erase k (queue q bracket index)) q) ;;
        modify (fun q => set_heap (delete p (heap q)) (next_group q) q)
      else if negb (invited g) && IsRated g then
        match guids g with
        | [] => throw EmptyContainer
        | next :: _ =>
          (if online w next
           then modify (emit (OutRemoveQueueId next)) ;; modify (emit (OutStatus next 0 STATUS_NONE)) else mret tt) ;;
          match fuel with
          | O => throw OutOfFuel
          | S fuel => RemovePlayer fuel w next decreaseInvitedCount
          end
        end
      else mret tt
    end
  end.

(* [game/Battlegrounds/BattlegroundQueue.cpp:470-477] BattlegroundQueue::IsPlayerInvited *)
Definition IsPlayerInvited (pl_guid bgInstanceGuid removeTime : Z) : T bool :=
  q ← get;
  match m_QueuedPlayers q !! pl_guid with
  | None => mret false
  | Some pl =>
    g ← deref (GroupInfo pl);
    mret ((IsInvitedToBGInstanceGUID g =? bgInstanceGuid) && (RemoveInviteTime g =? removeTime))
  end.

(* [game/Battlegrounds/BattlegroundQueue.cpp:479-486] BattlegroundQueue::GetPlayerGroupInfoData *)
Definition GetPlayerGroupInfoData (guid : Z) : T (option GroupQueueInfo) :=
  q ← get;
  match m_QueuedPlayers q !! guid with
  | None => mret None
  | Some pl => g ← deref (GroupInfo pl); mret (Some g)
  end.

(* [game/Battlegrounds/BattlegroundQueue.cpp:488-491] BattlegroundQueue::GetPlayersInQueue *)
Definition GetPlayersInQueue (q : BgQueue) (team : Z) : Z := PlayerCount (pool team q).

(** ** Inviting *)

(** The players of the group, one after the other; the offline ones are skipped. *)
(* [game/Battlegrounds/BattlegroundQueue.cpp:515-548] BattlegroundQueue::InviteGroupToBG *)
Fixpoint invite_players (w : World) (p : ginfo) (i : Z) (l : list Z) : T unit :=
  match l with
  | [] => mret tt
  | guid :: l =>
    (if online w guid then
       g ← deref p;
       b ← deref_bg i;
       modify (PlayerInvitedToBGUpdateAverageWaitTime w g (m_BracketId b)) ;;
       modify (put_bg i (IncreaseAwaitingPlayers (Team g) (IncreaseInvitedCount (Team g) b))) ;;
       modify (emit (OutInvite guid i)) ;;
       modify (emit (OutRemindEvent guid i (m_TypeID b) (ArenaType g) (RemoveInviteTime g) INVITATION_REMIND_TIME)) ;;
       modify (emit (OutRemoveEvent guid i (m_TypeID b) (RemoveInviteTime g) INVITE_ACCEPT_WAIT_TIME)) ;;
       modify (emit (OutStatus guid i STATUS_WAIT_JOIN))
     else mret tt) ;;
    invite_players w p i l
  end.

Definition for_team {A} (team : Z) (x : A) (pr : A * A) : A * A := if team =? ALLIANCE then (x, pr.2) else (pr.1, x).

(* [game/Battlegrounds/BattlegroundQueue.cpp:493-554] BattlegroundQueue::InviteGroupToBG *)
Definition InviteGroupToBG (w : World) (p : ginfo) (i : Z) (side : Z) : T bool :=
  g ← deref p;
  let g := if side =? 0 then g else with_Team side g in
  modify (put_group p g) ;;
  if negb (invited g) then
    b ← deref_bg i;
    (if m_IsArena b && m_IsRated b
     then modify (put_bg i (with_arena (for_team (Team g) (ArenaTeamId g) (m_ArenaTeamIds b)) (m_ArenaTeamMMR b) b))
     else mret tt) ;;
    modify (put_group p (with_invite i (u32 (now w + INVITE_ACCEPT_WAIT_TIME)) g)) ;;
    invite_players w p i (guids g) ;;
    mret true
  else mret false.

(** Every group of a pool, for its own team. *)
(* [game/Battlegrounds/BattlegroundQueue.cpp:839-843] BattlegroundQueue::BattlegroundQueueUpdate *)
Fixpoint invite_groups (w : World) (i : Z) (l : list ginfo) : T unit :=
  match l with
  | [] => mret tt
  | p :: l => g ← deref p; _ ← InviteGroupToBG w p i (Team g); invite_groups w i l
  end.
Definition invite_pools (w : World) (i : Z) : T unit :=
  q ← get; invite_groups w i (SelectedGroups (pool TEAM_ALLIANCE q)) ;;
  q ← get; invite_groups w i (SelectedGroups (pool TEAM_HORDE q)).

(** ** Filling a running battleground *)

(** Groups are offered to the pool from the iterator on, while it takes more: what is
    left of the queue from there. *)
(* [game/Battlegrounds/BattlegroundQueue.cpp:571-578] BattlegroundQueue::FillPlayersToBG *)
Fixpoint offer (team : Z) (rest : list ginfo) (desired : Z) : T (list ginfo) :=
  match rest with
  | [] => mret []
  | p :: rest' => more ← pool_AddGroup team p desired; if (more : bool) then offer team rest' desired else mret rest
  end.

(* [game/Battlegrounds/BattlegroundQueue.cpp:594-633] BattlegroundQueue::FillPlayersToBG *)
Fixpoint balance (fuel : nat) (aliFree hordeFree : Z) (aliRest hordeRest : list ginfo) : T unit :=
  q ← get;
  let aliCount := PlayerCount (pool TEAM_ALLIANCE q) in
  let hordeCount := PlayerCount (pool TEAM_HORDE q) in
  let diffAli := i32 (aliFree - i32 aliCount) in
  let diffHorde := i32 (hordeFree - i32 hordeCount) in
  if negb ((1 <? Z.abs (i32 (diffAli - diffHorde))) && ((0 <? hordeCount) || (0 <? aliCount))) then mret tt
  else
    match fuel with
    | O => throw OutOfFuel
    | S fuel =>
      if diffAli <? diffHorde then
        more ← KickGroup TEAM_ALLIANCE (u32 (diffHorde - diffAli));
        aliRest ← (if (more : bool)
                   then offer TEAM_ALLIANCE aliRest (u32 (if diffHorde <=? aliFree then aliFree - diffHorde else 0))
                   else mret aliRest);
        q ← get;
        if PlayerCount (pool TEAM_ALLIANCE q) =? 0 then
          if aliFree <=? i32 (diffHorde + 1) then mret tt
          else _ ← KickGroup TEAM_HORDE (u32 (diffHorde - diffAli)); balance fuel aliFree hordeFree aliRest hordeRest
        else balance fuel aliFree hordeFree aliRest hordeRest
      else
        more ← KickGroup TEAM_HORDE (u32 (diffAli - diffHorde));
        hordeRest ← (if (more : bool)
                     then offer TEAM_HORDE hordeRest (u32 (if diffAli <=? hordeFree then hordeFree - diffAli else 0))
                     else mret hordeRest);
        q ← get;
        if PlayerCount (pool TEAM_HORDE q) =? 0 then
          if hordeFree <=? i32 (diffAli + 1) then mret tt
          else _ ← KickGroup TEAM_ALLIANCE (u32 (diffAli - diffHorde)); balance fuel aliFree hordeFree aliRest hordeRest
        else balance fuel aliFree hordeFree aliRest hordeRest
    end.

(* [game/Battlegrounds/BattlegroundQueue.cpp:556-634] BattlegroundQueue::FillPlayersToBG *)
Definition FillPlayersToBG (fuel : nat) (w : World) (i bracket : Z) : T unit :=
  b ← deref_bg i;
  let hordeFree := i32 (GetFreeSlotsForTeam b HORDE) in
  let aliFree := i32 (GetFreeSlotsForTeam b ALLIANCE) in
  q ← get;
  aliRest ← offer TEAM_ALLIANCE (queue q bracket BG_QUEUE_NORMAL_ALLIANCE) (u32 aliFree);
  hordeRest ← offer TEAM_HORDE (queue q bracket BG_QUEUE_NORMAL_HORDE) (u32 hordeFree);
  if invitation_type w =? 0 then mret tt else balance fuel aliFree hordeFree aliRest hordeRest.

(** ** Starting a new battleground *)

(** The first group not yet invited. *)
Fixpoint first_waiting (l : list ginfo) : T (option ginfo) :=
  match l with
  | [] => mret None
  | p :: l => g ← deref p; if invited g then first_waiting l else mret (Some p)
  end.

(** The loop over a normal queue that fills up a premade pool. *)
(* [game/Battlegrounds/BattlegroundQueue.cpp:660-669] BattlegroundQueue::CheckPremadeMatch *)
Fixpoint fill_up (team : Z) (l : list ginfo) (maxPlayers : Z) : T unit :=
  match l with
  | [] => mret tt
  | p :: l =>
    g ← deref p;
    if invited g then fill_up team l maxPlayers
    else more ← pool_AddGroup team p maxPlayers; if (more : bool) then fill_up team l maxPlayers else mret tt
  end.

(** The first group of a premade queue goes to the normal one when it has waited long
    enough or become too small. *)
(* [game/Battlegrounds/BattlegroundQueue.cpp:680-691] BattlegroundQueue::CheckPremadeMatch *)
Definition move_premade (bracket i time_before MinPlayersPerTeam : Z) : T unit :=
  q ← get;
  match queue q bracket (BG_QUEUE_PREMADE_ALLIANCE + i) with
  | [] => mret tt
  | p :: rest =>
    g ← deref p;
    if negb (invited g) && ((JoinTime g <? time_before) || (players g <? MinPlayersPerTeam)) then
      modify (fun q => put_queue bracket (BG_QUEUE_NORMAL_ALLIANCE + i) (p :: queue q bracket (BG_QUEUE_NORMAL_ALLIANCE + i)) q) ;;
      modify (put_queue bracket (BG_QUEUE_PREMADE_ALLIANCE + i) rest)
    else mret tt
  end.

(* [game/Battlegrounds/BattlegroundQueue.cpp:636-694] BattlegroundQueue::CheckPremadeMatch *)
Definition CheckPremadeMatch (w : World) (bracket MinPlayersPerTeam MaxPlayersPerTeam : Z) : T bool :=
  q ← get;
  ali_group ← first_waiting (queue q bracket BG_QUEUE_PREMADE_ALLIANCE);
  horde_group ← first_waiting (queue q bracket BG_QUEUE_PREMADE_HORDE);
  match ali_group, horde_group with
  | Some a, Some h =>
    _ ← pool_AddGroup TEAM_ALLIANCE a MaxPlayersPerTeam;
    _ ← pool_AddGroup TEAM_HORDE h MaxPlayersPerTeam;
    q ← get;
    let maxPlayers := Z.min (PlayerCount (pool TEAM_ALLIANCE q)) (PlayerCount (pool TEAM_HORDE q)) in
    fill_up TEAM_ALLIANCE (queue q bracket BG_QUEUE_NORMAL_ALLIANCE) maxPlayers ;;
    fill_up TEAM_HORDE (queue q bracket BG_QUEUE_NORMAL_HORDE) maxPlayers ;;
    mret true
  | _, _ =>
    let time_before := u32 (now w - premade_wait w) in
    move_premade bracket TEAM_ALLIANCE time_before MinPlayersPerTeam ;;
    move_premade bracket TEAM_HORDE time_before MinPlayersPerTeam ;;
    mret false
  end.

(** A pool is filled from the front of the queue until it has enough players: what is
    left of the queue from the iterator on. *)
(* [game/Battlegrounds/BattlegroundQueue.cpp:700-712] BattlegroundQueue::CheckNormalMatch *)
Fixpoint fill_to (team : Z) (l : list ginfo) (minPlayers maxPlayers : Z) : T (list ginfo) :=
  match l with
  | [] => mret []
  | p :: l' =>
    g ← deref p;
    if invited g then fill_to team l' minPlayers maxPlayers
    else
      _ ← pool_AddGroup team p maxPlayers;
      q ← get;
      if minPlayers <=? PlayerCount (pool team q) then mret l else fill_to team l' minPlayers maxPlayers
  end.

(* [game/Battlegrounds/BattlegroundQueue.cpp:696-737] BattlegroundQueue::CheckNormalMatch *)
Definition CheckNormalMatch (w : World) (is_arena : bool) (bracket minPlayers maxPlayers : Z) : T bool :=
  q ← get;
  itr_alliance ← fill_to TEAM_ALLIANCE (queue q bracket BG_QUEUE_NORMAL_ALLIANCE) minPlayers maxPlayers;
  itr_horde ← fill_to TEAM_HORDE (queue q bracket BG_QUEUE_NORMAL_HORDE) minPlayers maxPlayers;
  q ← get;
  let ali := PlayerCount (pool TEAM_ALLIANCE q) in
  let horde := PlayerCount (pool TEAM_HORDE q) in
  let j := if horde <? ali then TEAM_HORDE else TEAM_ALLIANCE in
  unbalanced ←
    (if negb (invitation_type w =? 0) && (minPlayers <=? horde) && (minPlayers <=? ali) then
       match (if j =? TEAM_ALLIANCE then itr_alliance else itr_horde) with
       | [] => throw InvalidIterator
       | _ :: rest =>
         fill_up j rest (if j =? TEAM_ALLIANCE then horde else ali) ;;
         q ← get;
         mret (2 <? Z.abs (i32 (u32 (PlayerCount (pool TEAM_HORDE q) - PlayerCount (pool TEAM_ALLIANCE q)))))
       end
     else mret false);
  if (unbalanced : bool) then mret false
  else
    q ← get;
    let ali := PlayerCount (pool TEAM_ALLIANCE q) in
    let horde := PlayerCount (pool TEAM_HORDE q) in
    if is_testing w && negb is_arena && (negb (ali =? 0) || negb (horde =? 0)) then mret true
    else mret ((minPlayers <=? ali) && (minPlayers <=? horde)).

(** The groups of the other pool change sides.  [itr_team] is where the search for each of
    them starts; erasing an element of a deque that is not the last one invalidates it. *)
(* [game/Battlegrounds/BattlegroundQueue.cpp:775-794] BattlegroundQueue::CheckSkirmishForSameFaction *)
Fixpoint change_sides (bracket teamIndex otherTeam otherTeamId : Z) (itr_team : nat) (valid : bool) (l : list ginfo) : T unit :=
  match l with
  | [] => mret tt
  | p :: l =>
    g ← deref p;
    modify (put_group p (with_Team otherTeamId g)) ;;
    modify (fun q => put_queue bracket (BG_QUEUE_NORMAL_ALLIANCE + otherTeam)
                       (p :: queue q bracket (BG_QUEUE_NORMAL_ALLIANCE + otherTeam)) q) ;;
    if negb valid then throw InvalidIterator
    else
      q ← get;
      let old := queue q bracket (BG_QUEUE_NORMAL_ALLIANCE + teamIndex) in
      match position p (drop (S itr_team) old) with
      | None => change_sides bracket teamIndex otherTeam otherTeamId itr_team true l
      | Some k =>
        let at_ := (S itr_team + k)%nat in
        modify (put_queue bracket (BG_QUEUE_NORMAL_ALLIANCE + teamIndex) (erase at_ old)) ;;
        change_sides bracket teamIndex otherTeam otherTeamId itr_team (S at_ =? length old)%nat l
      end
  end.

(* [game/Battlegrounds/BattlegroundQueue.cpp:739-796] BattlegroundQueue::CheckSkirmishForSameFaction *)
Definition CheckSkirmishForSameFaction (bracket minPlayersPerTeam : Z) : T bool :=
  q ← get;
  if (PlayerCount (pool TEAM_ALLIANCE q) <? minPlayersPerTeam) && (PlayerCount (pool TEAM_HORDE q) <? minPlayersPerTeam)
  then mret false
  else
    let horde_only := PlayerCount (pool TEAM_HORDE q) =? minPlayersPerTeam in
    let teamIndex := if horde_only then TEAM_HORDE else TEAM_ALLIANCE in
    let otherTeam := if horde_only then TEAM_ALLIANCE else TEAM_HORDE in
    let otherTeamId := if horde_only then ALLIANCE else HORDE in
    modify (put_pool otherTeam pool_Init) ;;
    q ← get;
    match last (SelectedGroups (pool teamIndex q)) with
    | None => throw EmptyContainer
    | Some p =>
      let old := queue q bracket (BG_QUEUE_NORMAL_ALLIANCE + teamIndex) in
      match position p old with
      | None => mret false
      | Some itr_team =>
        fill_up otherTeam (drop (S itr_team) old) minPlayersPerTeam ;;
        q ← get;
        if negb (PlayerCount (pool otherTeam q) =? minPlayersPerTeam) then mret false
        else
          change_sides bracket teamIndex otherTeam otherTeamId itr_team true (SelectedGroups (pool otherTeam q)) ;;
          mret true
      end
    end.

(** ** Rated arenas *)

(** The first group, from some place of a queue on, that may play in the rating range. *)
(* [game/Battlegrounds/BattlegroundQueue.cpp:980-994] BattlegroundQueue::BattlegroundQueueUpdate *)
Fixpoint find_team (lo hi discardTime : Z) (not_team : option Z) (l : list ginfo) (k : nat) : T (option (nat * ginfo)) :=
  match l with
  | [] => mret None
  | p :: l =>
    g ← deref p;
    if negb (invited g)
       && ((lo <=? ArenaMatchmakerRating g) && (ArenaMatchmakerRating g <=? hi) || (JoinTime g <? discardTime))
       && (match not_team with Some t => negb (t =? ArenaTeamId g) | None => true end)
    then mret (Some (k, p))
    else find_team lo hi discardTime not_team l (S k)
  end.

(** The rating the opponents are looked for around, and how far: with no new team, that of
    the team that waits longest, 150 points farther each minute.  The minutes and points
    are floats in the code, below 2^24 and so exact. *)
(* [game/Battlegrounds/BattlegroundQueue.cpp:926-963] BattlegroundQueue::BattlegroundQueueUpdate *)
Definition rating_wanted (w : World) (bracket arenaRating : Z) : T (option (Z * Z)) :=
  if negb (arenaRating =? 0) then mret (Some (arenaRating, 0))
  else
    q ← get;
    let front t := match queue q bracket t with [] => mret None | p :: _ => g ← deref p; mret (Some g) end in
    let range (g : GroupQueueInfo) := (ArenaMatchmakerRating g, u32 (now w - JoinTime g) / 60000 * 150) in
    front1 ← front BG_QUEUE_PREMADE_ALLIANCE;
    front2 ← front BG_QUEUE_PREMADE_HORDE;
    mret (match front1, front2 with
          | Some g1, Some g2 => Some (if JoinTime g1 <? JoinTime g2 then range g1 else range g2)
          | Some g1, None => Some (range g1)
          | None, Some g2 => Some (range g2)
          | None, None => None
          end).

(** A group found in the queue of the wrong side goes to the front of the right one. *)
(* [game/Battlegrounds/BattlegroundQueue.cpp:1035-1045] BattlegroundQueue::BattlegroundQueueUpdate *)
Definition move_side (bracket : Z) (p : ginfo) (team right wrong from : Z) (k : nat) : T unit :=
  g ← deref p;
  if Team g =? team then mret tt
  else if negb (from =? wrong) then throw InvalidIterator
  else
    modify (fun q => put_queue bracket right (p :: queue q bracket right) q) ;;
    modify (fun q => put_queue bracket wrong (erase k (queue q bracket wrong)) q).

(* [game/Battlegrounds/BattlegroundQueue.cpp:1014-1055] BattlegroundQueue::BattlegroundQueueUpdate *)
Definition start_rated (w : World) (t bracket arenaType : Z) (a h : ginfo) (from_a from_h : Z) (ka kh : nat) : T unit :=
  arena ← CreateNewBattleground w t bracket arenaType true;
  match arena with
  | None => modify (emit OutError)
  | Some i =>
    ga ← deref a; gh ← deref h;
    modify (put_group a (with_opponents (ArenaTeamRating gh) (ArenaMatchmakerRating gh) ga)) ;;
    gh ← deref h;
    modify (put_group h (with_opponents (ArenaTeamRating ga) (ArenaMatchmakerRating ga) gh)) ;;
    move_side bracket a ALLIANCE BG_QUEUE_PREMADE_ALLIANCE BG_QUEUE_PREMADE_HORDE from_a ka ;;
    move_side bracket h HORDE BG_QUEUE_PREMADE_HORDE BG_QUEUE_PREMADE_ALLIANCE from_h kh ;;
    b ← deref_bg i;
    modify (put_bg i (with_arena (m_ArenaTeamIds b) (ArenaMatchmakerRating ga, ArenaMatchmakerRating gh) b)) ;;
    _ ← InviteGroupToBG w a i ALLIANCE;
    _ ← InviteGroupToBG w h i HORDE;
    StartBattleground i
  end.

(* [game/Battlegrounds/BattlegroundQueue.cpp:919-1056] BattlegroundQueue::BattlegroundQueueUpdate *)
Definition update_rated (w : World) (t bracket arenaType arenaRating : Z) : T unit :=
  wanted ← rating_wanted w bracket arenaRating;
  match wanted with
  | None => mret tt
  | Some (arenaRating, mmrMaxDiff) =>
    let lo := if arenaRating <=? max_rating_difference w then 0 else arenaRating - max_rating_difference w in
    let hi := u32 (arenaRating + max_rating_difference w) in
    let discardTime := u32 (now w - rating_discard_timer w) in
    let lo' := if 0 <? mmrMaxDiff then (if mmrMaxDiff <? lo then lo - mmrMaxDiff else 0) else lo in
    let hi' := if 0 <? mmrMaxDiff then u32 (mmrMaxDiff + hi) else hi in
    q ← get;
    a ← find_team lo' hi' discardTime None (queue q bracket BG_QUEUE_PREMADE_ALLIANCE) 0;
    h ← find_team lo' hi' discardTime None (queue q bracket BG_QUEUE_PREMADE_HORDE) 0;
    match a, h with
    | Some (ka, pa), Some (kh, ph) =>
      start_rated w t bracket arenaType pa ph BG_QUEUE_PREMADE_ALLIANCE BG_QUEUE_PREMADE_HORDE ka kh
    | None, None => mret tt
    | Some (k, p), None | None, Some (k, p) =>
      let team := match a with Some _ => BG_QUEUE_PREMADE_ALLIANCE | None => BG_QUEUE_PREMADE_HORDE end in
      g ← deref p;
      second ← find_team lo' hi' discardTime (Some (ArenaTeamId g)) (drop k (queue q bracket team)) k;
      match second with
      | None => mret tt
      | Some (k2, p2) => start_rated w t bracket arenaType p p2 team team k k2
      end
    end
  end.

(** ** The update *)

(** One running battleground. *)
(* [game/Battlegrounds/BattlegroundQueue.cpp:822-849] BattlegroundQueue::BattlegroundQueueUpdate *)
Definition fill_running (fuel : nat) (w : World) (t bracket i : Z) : T unit :=
  b ← deref_bg i;
  if negb (m_IsRated b) && (m_TypeID b =? t) && (m_BracketId b =? bracket)
     && (STATUS_WAIT_QUEUE <? m_Status b) && (m_Status b <? STATUS_WAIT_LEAVE)
  then
    modify (set_pools pool_Init pool_Init) ;;
    FillPlayersToBG fuel w i bracket ;;
    invite_pools w i ;;
    b ← deref_bg i;
    if negb (HasFreeSlots b) then RemoveFromBGFreeSlotQueue i else mret tt
  else mret tt.

(** A battleground for the groups selected. *)
Definition start_new (w : World) (t bracket arenaType : Z) : T bool :=
  bg2 ← CreateNewBattleground w t bracket arenaType false;
  match bg2 with
  | None => modify (emit OutError) ;; mret false
  | Some i => invite_pools w i ;; StartBattleground i ;; mret true
  end.

(* [game/Battlegrounds/BattlegroundQueue.cpp:803-1057] BattlegroundQueue::BattlegroundQueueUpdate *)
Definition BattlegroundQueueUpdate (fuel : nat) (w : World) (t bracket arenaType : Z) (isRated : bool) (arenaRating : Z) : T unit :=
  q ← get;
  if forallb (fun k => match queue q bracket k with [] => true | _ => false end)
       [BG_QUEUE_PREMADE_ALLIANCE; BG_QUEUE_PREMADE_HORDE; BG_QUEUE_NORMAL_ALLIANCE; BG_QUEUE_NORMAL_HORDE]
  then mret tt
  else
    mapM_ (fill_running fuel w t bracket) (free_slot_queue t q) ;;
    match bg_template w t with
    | None => modify (emit OutError)
    | Some tpl =>
      if negb (bracket_exists w) then modify (emit OutError)
      else
        let Max := if t_IsArena tpl then arenaType else t_MaxPlayersPerTeam tpl in
        let Min := if t_IsArena tpl then (if is_arena_testing w then 1 else arenaType)
                   else if is_testing w then 1 else t_MinPlayersPerTeam tpl in
        modify (set_pools pool_Init pool_Init) ;;
        goes_on ←
          (if negb (t_IsArena tpl) then
             premade ← CheckPremadeMatch w bracket Min Max;
             if (premade : bool) then
               started ← start_new w t bracket 0;
               if (started : bool) then modify (set_pools pool_Init pool_Init) ;; mret true else mret false
             else mret true
           else mret true);
        if negb goes_on then mret tt
        else if negb isRated then
          enough ← CheckNormalMatch w (t_IsArena tpl) bracket Min Max;
          found ← (if (enough : bool) then mret true
                   else if t_IsArena tpl then CheckSkirmishForSameFaction bracket Min else mret false);
          if (found : bool) then _ ← start_new w t bracket arenaType; mret tt else mret tt
        else if t_IsArena tpl then update_rated w t bracket arenaType arenaRating
        else mret tt
    end.

(** ** The events of an invitation

    [queueSlot]: the place of the queue among those of the player. *)

(* [game/Battlegrounds/BattlegroundQueue.cpp:1063-1090] BGQueueInviteEvent::Execute *)
Definition InviteEvent_Execute (w : World) (guid instance t removeTime queueSlot : Z) : T unit :=
  if negb (online w guid) then mret tt
  else
    q ← get;
    match GetBattleground q instance t with
    | None => mret tt
    | Some _ =>
      if queueSlot <? PLAYER_MAX_BATTLEGROUND_QUEUES then
        still ← IsPlayerInvited guid instance removeTime;
        if (still : bool) then modify (emit (OutStatus guid instance STATUS_WAIT_JOIN)) else mret tt
      else mret tt
    end.

(* [game/Battlegrounds/BattlegroundQueue.cpp:1097-1140] BGQueueRemoveEvent::Execute *)
Definition RemoveEvent_Execute (fuel : nat) (w : World) (guid instance t removeTime queueSlot : Z) : T unit :=
  if negb (online w guid) then mret tt
  else if queueSlot <? PLAYER_MAX_BATTLEGROUND_QUEUES then
    still ← IsPlayerInvited guid instance removeTime;
    if (still : bool) then
      q ← get;
      let bg := GetBattleground q instance t in
      modify (emit (OutRemoveQueueId guid)) ;;
      RemovePlayer fuel w guid true ;;
      (match bg with
       | Some b => if negb (m_IsArena b) && negb (m_Status b =? STATUS_WAIT_LEAVE)
                   then modify (emit (OutScheduleUpdate t (m_BracketId b))) else mret tt
       | None => mret tt
       end) ;;
      modify (emit (OutStatus guid 0 STATUS_NONE))
    else mret tt
  else mret tt.

(** ** The answer to an invitation

    [enter]: the player wants to be ported.  [may_enter]: no deserter and of the level;
    [flagged]: the player remembers an invitation of this queue; [bracket]: that of the
    player's level.  The result is where the
    player is sent and for which team. *)
(* [game/Handlers/BattleGroundHandler.cpp:424-564] WorldSession::HandleBattleFieldPortOpcode *)
Definition HandleBattleFieldPort (fuel : nat) (w : World) (t guid : Z) (bracket : option Z)
    (enter may_enter flagged : bool) : T (option (Z * Z)) :=
  info ← GetPlayerGroupInfoData guid;
  match info with
  | None => mret None
  | Some g =>
    if negb (invited g) && enter then mret None
    else
      q ← get;
      let i := IsInvitedToBGInstanceGUID g in
      let bg := GetBattleground q i (if t =? BATTLEGROUND_AA then BATTLEGROUND_TYPE_NONE else t) in
      match bg, (if enter then None else bg_template w t), bracket with
      | None, None, _ | _, _, None => mret None
      | _, _, Some bracket =>
        if enter && ((negb (ArenaType g =? 0)) || may_enter) then
          if negb flagged then mret None
          else
            modify (emit (OutStatus guid i STATUS_IN_PROGRESS)) ;;
            RemovePlayer fuel w guid false ;;
            mret (Some (i, Team g))
        else
          (if IsRated g && invited g && arena_team_exists w (Team g)
           then modify (emit (OutMemberLost (Team g) guid true (OpponentsMatchmakerRating g))) else mret tt) ;;
          modify (emit (OutStatus guid i STATUS_NONE)) ;;
          modify (emit (OutRemoveQueueId guid)) ;;
          RemovePlayer fuel w guid true ;;
          (if ArenaType g =? 0
           then modify (emit (OutScheduleUpdate t bracket)) else mret tt) ;;
          mret None
      end
  end.

(** ** Inside the battleground *)

(** The parts of [AddPlayer] and [RemovePlayerAtLeave] that count players. *)
(* [game/Battlegrounds/Battleground.cpp:1201-1210] Battleground::AddPlayer *)
Definition AddPlayer (i guid team : Z) : T unit :=
  b ← deref_bg i;
  modify (put_bg i (with_inside (<[guid := team]> (m_Players b))
    (if team =? ALLIANCE then u32 (m_PlayersCountAlliance b + 1) else m_PlayersCountAlliance b)
    (if team =? ALLIANCE then m_PlayersCountHorde b else u32 (m_PlayersCountHorde b + 1)) b)).

(* [game/Battlegrounds/Battleground.cpp:1015-1122] Battleground::RemovePlayerAtLeave *)
Definition RemovePlayerAtLeave (i guid : Z) : T unit :=
  b ← deref_bg i;
  match m_Players b !! guid with
  | None => mret tt
  | Some team =>
    modify (put_bg i (with_inside (delete guid (m_Players b))
      (if team =? ALLIANCE then u32 (m_PlayersCountAlliance b - 1) else m_PlayersCountAlliance b)
      (if team =? ALLIANCE then m_PlayersCountHorde b else u32 (m_PlayersCountHorde b - 1)) b)) ;;
    b ← deref_bg i;
    modify (put_bg i (DecreaseInvitedCount team b)) ;;
    b ← deref_bg i;
    if negb (m_IsArena b) && (m_Status b <? STATUS_WAIT_LEAVE) then
      AddToBGFreeSlotQueue i ;; modify (emit (OutScheduleUpdate (m_TypeID b) (m_BracketId b)))
    else mret tt
  end.

(** A battleground that is over is deleted: out of the store and of the free slots. *)
(* [game/Battlegrounds/Battleground.cpp:225-249] Battleground::~Battleground *)
Definition delete_Battleground (i : Z) : T unit :=
  RemoveFromBGFreeSlotQueue i ;;
  modify (fun q => set_bgs (delete i (bgs q)) (next_instance q) (BGFreeSlotQueue q) q).

(** ** Construction and destruction *)

(* [game/Battlegrounds/BattlegroundQueue.cpp:33-45] BattlegroundQueue::BattlegroundQueue *)
Definition new_BattlegroundQueue : BgQueue := mkBgQueue ∅ 1 ∅ ∅ pool_Init pool_Init ∅ ∅ ∅ ∅ 1 ∅ [].

(** The groups of every bracket and type are deleted. *)
(* [game/Battlegrounds/BattlegroundQueue.cpp:47-67] BattlegroundQueue::~BattlegroundQueue *)
Definition delete_BattlegroundQueue : T unit :=
  modify (set_QueuedPlayers ∅) ;;
  q ← get;
  mapM_ (fun k =>
    mapM_ (fun p => _ ← deref p; modify (fun q => set_heap (delete p (heap q)) (next_group q) q)) (queue q k.1 k.2) ;;
    modify (put_queue k.1 k.2 []))
    (list_prod (seqZ 0 MAX_BATTLEGROUND_BRACKETS) (seqZ 0 BG_QUEUE_GROUP_TYPES_COUNT)).
