(* ===== verification/BgQueueSpec.v ===== *)
(** * BattlegroundQueue: consistent queues, and pools that never overfill

    The invariant of the queue, the selection pools and the invitations. *)

From S2P Require Import Prelude.
From S2P Require Import EventProcessor.
From S2P Require Import BattlegroundQueue.

(** ** Consistent queues *)

Definition side (k : Z) : Z := if Z.odd k then HORDE else ALLIANCE.

(** Every group alive is in exactly one queue, of its own side. *)
Record groups_ok (q : BgQueue) : Prop := {
  go_alive : forall b k p, p ∈ queue q b k -> is_Some (heap q !! p);
  go_place : forall p, is_Some (heap q !! p) -> exists b k, 0 <= b < 16 /\ 0 <= k < 4 /\ p ∈ queue q b k;
  go_once : forall b k b' k' p, p ∈ queue q b k -> p ∈ queue q b' k' -> b = b' /\ k = k';
  go_nodup : forall b k, NoDup (queue q b k);
  go_side : forall b k p g, p ∈ queue q b k -> heap q !! p = Some g -> Team g = side k;
  go_fresh : forall p, is_Some (heap q !! p) -> 0 < p < next_group q;
  go_start : 0 < next_group q
}.

(** Every queued player is in the group its entry points to, and in no other; no group is
    empty. *)
Record players_ok (q : BgQueue) : Prop := {
  po_player : forall guid pl, m_QueuedPlayers q !! guid = Some pl ->
    exists g, heap q !! GroupInfo pl = Some g /\ guid ∈ Players g;
  po_member : forall p g guid, heap q !! p = Some g -> guid ∈ Players g ->
    exists pl, m_QueuedPlayers q !! guid = Some pl /\ GroupInfo pl = p;
  po_nonempty : forall p g, heap q !! p = Some g -> Players g <> ∅
}.

(** The players queued with an invitation of team [team] to the battleground [i]. *)
Definition invited_to (i team : Z) (g : GroupQueueInfo) : Z :=
  if (IsInvitedToBGInstanceGUID g =? i) && (Team g =? team) then players g else 0.
Definition invited_of (q : BgQueue) (i team : Z) : Z := total (invited_to i team) (heap q).

(** Those inside. *)
Definition inside (b : Battleground) (team : Z) : Z := countP (Z.eqb team) (m_Players b).

(** Those on their way: invited, ported and not yet arrived. *)
Definition on_the_way (travel : list (Z * (Z * Z))) (i team : Z) : Z :=
  zlen (filter (fun x => x.2 = (i, team)) travel).

Definition a_team (team : Z) : Prop := team = ALLIANCE \/ team = HORDE.

(** More players than any group may have. *)
Definition group_cap : Z := 65536.
Definition cap (b : Battleground) : Z := if m_IsArena b then group_cap else m_MaxPlayersPerTeam b.

(** The counters of a battleground: the invited are those queued with an invitation, those
    on the way and those inside, and never too many. *)
Record counted (travel : list (Z * (Z * Z))) (q : BgQueue) (i : Z) (b : Battleground) (team : Z) : Prop := {
  ct_invited : GetInvitedCount b team = invited_of q i team + on_the_way travel i team + inside b team;
  ct_awaiting : GetAwaitingPlayers b team = u8 (invited_of q i team);
  ct_cap : GetInvitedCount b team <= cap b;
  ct_inside : GetPlayersCountByTeam b team = inside b team
}.

(** The battlegrounds and the list of those with free slots; [t]: the type of the queue,
    [new]: the battleground being started, if one is. *)
Record bgs_ok (new : option Z) (t : Z) (travel : list (Z * (Z * Z))) (q : BgQueue) : Prop := {
  bo_counted : forall i b team, bgs q !! i = Some b -> a_team team -> counted travel q i b team;
  bo_teams : forall i b guid team, bgs q !! i = Some b -> m_Players b !! guid = Some team -> a_team team;
  bo_type : forall i b, bgs q !! i = Some b -> m_TypeID b = t;
  bo_registered : forall i b, bgs q !! i = Some b -> new = Some i \/ registered b = true;
  bo_small : forall i b, bgs q !! i = Some b -> 0 <= m_MaxPlayersPerTeam b <= group_cap;
  bo_ids : forall i, is_Some (bgs q !! i) -> 0 < i < next_instance q;
  bo_free : forall i, i ∈ free_slot_queue t q <-> exists b, bgs q !! i = Some b /\ m_InBGFreeSlotQueue b = true;
  bo_free_arena : forall i b, bgs q !! i = Some b -> m_InBGFreeSlotQueue b = true -> m_IsArena b = false;
  bo_nodup : NoDup (free_slot_queue t q);
  bo_travel : forall guid i team, (guid, (i, team)) ∈ travel -> i < next_instance q /\ a_team team
}.

Record invites_ok (t : Z) (q : BgQueue) : Prop := {
  io_type : forall p g, heap q !! p = Some g -> BgTypeId g = t;
  io_range : forall p g, heap q !! p = Some g -> 0 <= IsInvitedToBGInstanceGUID g < next_instance q;
  io_small : forall p g, heap q !! p = Some g -> players g <= group_cap;
  io_instance : 0 < next_instance q
}.

Record consistent (new : option Z) (t : Z) (travel : list (Z * (Z * Z))) (q : BgQueue) : Prop := {
  co_groups : groups_ok q;
  co_players : players_ok q;
  co_bgs : bgs_ok new t travel q;
  co_invites : invites_ok t q
}.

(** ** Reading what was written *)

Lemma queue_put b k b' k' l q : queue (put_queue b' k' l q) b k = if decide ((b, k) = (b', k')) then l else queue q b k.
Proof.
  unfold queue, put_queue. cbn. destruct (decide _) as [E|E].
  - by rewrite E, lookup_insert_eq.
  - by rewrite lookup_insert_ne.
Qed.

Lemma players_nonneg g : 0 <= players g.
Proof. unfold players. lia. Qed.

Lemma invited_to_nonneg i team g : 0 <= invited_to i team g.
Proof. unfold invited_to. pose proof (players_nonneg g). destruct (_ && _); lia. Qed.

Lemma invited_of_nonneg q i team : 0 <= invited_of q i team.
Proof. apply total_nonneg, invited_to_nonneg. Qed.

Lemma inside_nonneg b team : 0 <= inside b team.
Proof. apply countP_nonneg. Qed.

Lemma on_the_way_nonneg travel i team : 0 <= on_the_way travel i team.
Proof. unfold on_the_way. apply zlen_nonneg. Qed.

Lemma guids_spec g guid : guid ∈ guids g <-> guid ∈ Players g.
Proof. unfold guids. rewrite merge_sort_Permutation. apply elem_of_elements. Qed.

Lemma guids_length g : zlen (guids g) = players g.
Proof. unfold guids, zlen, players. by rewrite merge_sort_Permutation. Qed.

Lemma guids_nodup g : NoDup (guids g).
Proof. unfold guids. rewrite merge_sort_Permutation. apply NoDup_elements. Qed.

Lemma pool_put team team' p q :
  (team = TEAM_ALLIANCE \/ team = TEAM_HORDE) -> (team' = TEAM_ALLIANCE \/ team' = TEAM_HORDE) ->
  pool team (put_pool team' p q) = if team =? team' then p else pool team q.
Proof. intros [->| ->] [->| ->]; done. Qed.

(** ** The selection pools *)

Definition team_of (team : Z) : Z := if team =? TEAM_ALLIANCE then ALLIANCE else HORDE.
Definition an_index (team : Z) : Prop := team = TEAM_ALLIANCE \/ team = TEAM_HORDE.
Definition other (team : Z) : Z := if team =? TEAM_ALLIANCE then TEAM_HORDE else TEAM_ALLIANCE.
Definition sel (team : Z) (q : BgQueue) : list ginfo := SelectedGroups (pool team q).

(** Everything but the pools. *)
Definition sans_pools (q : BgQueue) : BgQueue := set_pools pool_Init pool_Init q.
Definition same_but_pools (q q' : BgQueue) : Prop := sans_pools q' = sans_pools q.

Definition size_at (q : BgQueue) (p : ginfo) : Z := match heap q !! p with Some g => players g | None => 0 end.
Fixpoint weight (q : BgQueue) (l : list ginfo) : Z := match l with [] => 0 | p :: l => size_at q p + weight q l end.

Section Pools.
(** Where the groups of each pool come from. *)
Context (src : Z -> list ginfo).

(** A pool of uninvited groups of its side, none of them twice nor among [rest], the groups
    still to be looked at. *)
Record pool_ok (team cap : Z) (q : BgQueue) (rest : list ginfo) : Prop := {
  pk_nodup : NoDup (sel team q ++ rest);
  pk_alive : forall p, p ∈ sel team q ++ rest -> exists g, heap q !! p = Some g /\ Team g = team_of team /\ 0 < players g /\ p ∈ src team;
  pk_free : forall p g, p ∈ sel team q -> heap q !! p = Some g -> invited g = false;
  pk_count : PlayerCount (pool team q) = weight q (sel team q);
  pk_cap : PlayerCount (pool team q) <= cap
}.

Lemma same_refl q : same_but_pools q q.
Proof. done. Qed.

Lemma same_trans q1 q2 q3 : same_but_pools q1 q2 -> same_but_pools q2 q3 -> same_but_pools q1 q3.
Proof. unfold same_but_pools. congruence. Qed.

Lemma same_heap q q' : same_but_pools q q' -> heap q' = heap q.
Proof. intros E. exact (f_equal heap E). Qed.

Lemma same_bgs q q' : same_but_pools q q' -> bgs q' = bgs q.
Proof. intros E. exact (f_equal bgs E). Qed.

Lemma same_queue q q' b k : same_but_pools q q' -> queue q' b k = queue q b k.
Proof. intros E. unfold queue. by rewrite (f_equal m_QueuedGroups E : m_QueuedGroups q' = m_QueuedGroups q). Qed.

Lemma put_pool_same team p q : same_but_pools q (put_pool team p q).
Proof. unfold same_but_pools, put_pool. by destruct (team =? TEAM_ALLIANCE). Qed.

Lemma other_index team : an_index team -> an_index (other team) /\ (other team =? team) = false.
Proof. intros [->| ->]; cbn; split; try done; [by right|by left]. Qed.

Lemma weight_app q l1 l2 : weight q (l1 ++ l2) = weight q l1 + weight q l2.
Proof. induction l1 as [|p l1 IH]; cbn; lia. Qed.

Lemma size_at_nonneg q p : 0 <= size_at q p.
Proof. unfold size_at. destruct (heap q !! p); [apply players_nonneg|lia]. Qed.

Lemma weight_nonneg q l : 0 <= weight q l.
Proof. induction l as [|p l IH]; cbn; [lia|]. pose proof (size_at_nonneg q p). lia. Qed.

Lemma weight_heap q q' l : heap q' = heap q -> weight q' l = weight q l.
Proof. intros E. induction l as [|p l IH]; cbn; [done|]. unfold size_at. rewrite E. by rewrite IH. Qed.

(** The state of a pool carries over to a state with the same heap and pool. *)
Lemma pool_ok_same team cap q q' rest :
  heap q' = heap q -> pool team q' = pool team q -> pool_ok team cap q rest -> pool_ok team cap q' rest.
Proof.
  intros Eh Ep [P1 P2 P3 P4 P5]. unfold sel in *. split; unfold sel; rewrite ?Ep, ?Eh; try done. by rewrite (weight_heap q q').
Qed.

Lemma pool_ok_skip team cap q p rest : pool_ok team cap q (p :: rest) -> pool_ok team cap q rest.
Proof.
  intros [P1 P2 P3 P4 P5]. split; try done.
  - rewrite NoDup_app in P1 |- *. destruct P1 as (A & B & C). apply NoDup_cons in C as [_ C].
    split; [done|]. split; [|done]. intros x Hx Hr. apply (B x Hx). by right.
  - intros x Hx. apply P2. rewrite elem_of_app in Hx |- *. destruct Hx; [by left|right; by right].
Qed.

Lemma pool_ok_rest team cap q rest rest' : rest' `suffix_of` rest -> pool_ok team cap q rest -> pool_ok team cap q rest'.
Proof.
  intros [l ->]. induction l as [|p l IH]; [done|]. intros Hp. apply IH. by eapply pool_ok_skip.
Qed.

Lemma deref_group_runs p g q (Q : GroupQueueInfo -> BgQueue -> Prop) : heap q !! p = Some g -> Q g q -> runs (deref p) q Q.
Proof. intros Hg HQ. unfold deref. repeat plain_step. rewrite Hg. by plain_step. Qed.

Lemma deref_bg_runs i b q (Q : Battleground -> BgQueue -> Prop) : bgs q !! i = Some b -> Q b q -> runs (deref_bg i) q Q.
Proof. intros Hb HQ. unfold deref_bg. repeat plain_step. rewrite Hb. by plain_step. Qed.

(** What an operation on a pool may do. *)
Record pool_step (team cap : Z) (rest : list ginfo) (q q' : BgQueue) : Prop := {
  ps_same : same_but_pools q q';
  ps_other : pool (other team) q' = pool (other team) q;
  ps_ok : pool_ok team cap q' rest
}.

Lemma pool_step_trans team cap rest1 rest2 q1 q2 q3 :
  pool_step team cap rest1 q1 q2 -> pool_step team cap rest2 q2 q3 -> pool_step team cap rest2 q1 q3.
Proof. intros [A1 A2 A3] [B1 B2 B3]. split; [by eapply same_trans|congruence|done]. Qed.

Lemma pool_AddGroup_runs team p rest desired cap q :
  an_index team -> desired <= cap < 2 ^ 32 -> pool_ok team cap q (p :: rest) ->
  runs (pool_AddGroup team p desired) q (fun more q' =>
    pool_step team cap (if more then rest else p :: rest) q q' /\
    (sel team q' = sel team q ++ [p] /\ more = true \/ sel team q' = sel team q) /\
    (PlayerCount (pool team q) <= desired -> PlayerCount (pool team q') <= desired)).
Proof.
  intros Hi Hd Hp. pose proof Hp as [P1 P2 P3 P4 P5]. destruct (P2 p) as (g & Hg & Ht & Hpos & _).
  { rewrite elem_of_app. right. by left. }
  unfold pool_AddGroup. plain_step. eapply deref_group_runs; [exact Hg|]. plain_step. plain_step. fold (sel team q).
  assert (weight q (sel team q) >= 0) as Hw by (pose proof (weight_nonneg q (sel team q)); lia).
  destruct (negb (invited g) && (PlayerCount (pool team q) + players g <=? desired)) eqn:E.
  - apply andb_true_iff in E as [E1%negb_true_iff E2%Z.leb_le]. repeat plain_step.
    set (pl := mkPool _ _). assert (pool team (put_pool team pl q) = pl) as Epl by (rewrite pool_put by done; by rewrite Z.eqb_refl).
    assert (u32 (PlayerCount (pool team q) + players g) = PlayerCount (pool team q) + players g) as Eu by (apply wrap_small; lia).
    assert (heap (put_pool team pl q) = heap q) as Eh by apply (same_heap _ _ (put_pool_same team pl q)).
    split; [|split].
    + split; [apply put_pool_same| |].
      * destruct (other_index team Hi) as [Ho Hne]. rewrite pool_put by done. by rewrite Hne.
      * split; unfold sel; rewrite Epl; cbn [SelectedGroups PlayerCount pl].
        -- by rewrite <- app_assoc.
        -- intros x Hx. rewrite Eh. apply P2. by rewrite <- app_assoc in Hx.
        -- intros x gx [Hx|Hx%list_elem_of_singleton]%elem_of_app Hgx; rewrite Eh in Hgx; [by apply (P3 x)|].
           subst x. congruence.
        -- rewrite Eu, (weight_heap q _ _ Eh), weight_app. cbn. unfold size_at. rewrite Hg. unfold sel in *. lia.
        -- lia.
    + left. split; [|done]. unfold sel. by rewrite Epl.
    + rewrite Epl. cbn. lia.
  - plain_step. split; [|split; [by right|done]]. split; [done|done|].
    destruct (PlayerCount (pool team q) <? desired); [by eapply pool_ok_skip|done].
Qed.

Lemma kick_loop_runs size rest i kick kicked found q :
  is_Some (heap q !! kicked) -> Forall (fun p => is_Some (heap q !! p)) rest ->
  runs (kick_loop size rest i kick kicked found) q (fun n q' =>
    q' = q /\ (n = kick \/ (i <= n < i + length rest)%nat)).
Proof.
  revert i kick kicked found. induction rest as [|p rest IH]; intros i kick kicked found Hk Hr; cbn [kick_loop length].
  - plain_step. auto.
  - apply Forall_cons in Hr as [[g Hg] Hr]. pose proof Hk as [k Hgk]. plain_step. eapply deref_group_runs; [exact Hg|].
    assert (forall j kd f, is_Some (heap q !! kd) -> (j = kick \/ j = i) ->
      runs (kick_loop size rest (S i) j kd f) q (fun n q' => q' = q /\ (n = kick \/ (i <= n < i + S (length rest))%nat))) as Hgo.
    { intros j kd f Hkd Hj. eapply runs_mono; [by apply IH|]. intros n q' [-> [->|Hn]]; (split; [done|]); [destruct Hj; lia|lia]. }
    destruct (_ <=? 1); [apply Hgo; [by eexists|by right]|]. plain_step. eapply deref_group_runs; [exact Hgk|].
    destruct (_ && _); apply Hgo; eauto.
Qed.

Lemma sel_empty team cap q rest : pool_ok team cap q rest -> PlayerCount (pool team q) = 0 <-> sel team q = [].
Proof.
  intros [P1 P2 P3 P4 P5]. rewrite P4. split.
  - destruct (sel team q) as [|p l] eqn:E; [done|]. cbn. destruct (P2 p) as (g & Hg & _ & Hpos & _); [by left|].
    unfold size_at. rewrite Hg. pose proof (weight_nonneg q l). lia.
  - by intros ->.
Qed.

(** One group less, if there was one. *)
Lemma KickGroup_runs team size cap rest q :
  an_index team -> cap < 2 ^ 32 -> pool_ok team cap q rest ->
  runs (KickGroup team size) q (fun _ q' => pool_step team cap rest q q' /\
    length (sel team q') = pred (length (sel team q)) /\ PlayerCount (pool team q') <= PlayerCount (pool team q)).
Proof.
  intros Hi Hc Hp. pose proof Hp as [P1 P2 P3 P4 P5]. unfold KickGroup. plain_step. plain_step. plain_step. fold (sel team q).
  apply (runs_mono _ _ (fun n q' => q' = q /\ (sel team q = [] \/ (n < length (sel team q))%nat))).
  - destruct (sel team q) as [|p l] eqn:E; [plain_step; auto|].
    assert (Forall (fun x => is_Some (heap q !! x)) (p :: l)) as Hall.
    { apply Forall_forall. intros x Hx. destruct (P2 x) as (g & Hg & _); [|by eexists]. apply elem_of_app. by left. }
    eapply runs_mono; [apply kick_loop_runs; [by inversion Hall|exact Hall]|].
    intros n q' [-> [->|Hn]]; (split; [done|right; cbn in *; lia]).
  - intros n q' [-> Hn]. pose proof (sel_empty team cap q rest Hp) as Hemp. destruct (Z.eqb_spec (PlayerCount (pool team q)) 0) as [E|E].
    + plain_step. rewrite (proj1 Hemp E). split; [split; [done|done|done]|done].
    + destruct Hn as [Hn|Hn]; [by apply Hemp in Hn|]. destruct (lookup_lt_is_Some_2 _ _ Hn) as [p Hpn]. rewrite Hpn.
      destruct (P2 p) as (g & Hg & Ht & Hpos & _).
      { apply elem_of_app. left. by eapply list_elem_of_lookup_2. }
      plain_step. eapply deref_group_runs; [exact Hg|]. plain_step. plain_step. plain_step.
      pose proof (take_drop_middle (sel team q) n p Hpn) as Hsplit. set (l1 := take n _) in *. set (l2 := drop (S n) _) in *.
      assert (PlayerCount (pool team q) = weight q l1 + players g + weight q l2) as Hcount.
      { rewrite P4, <- Hsplit, weight_app. cbn. unfold size_at. rewrite Hg. lia. }
      pose proof (weight_nonneg q l1). pose proof (weight_nonneg q l2).
      set (pl := mkPool _ _). assert (pool team (put_pool team pl q) = pl) as Epl by (rewrite pool_put by done; by rewrite Z.eqb_refl).
      assert (u32 (PlayerCount (pool team q) - players g) = weight q l1 + weight q l2) as Eu.
      { rewrite Hcount. unfold wrap. rewrite Z.mod_small; lia. }
      assert (heap (put_pool team pl q) = heap q) as Eh by apply (same_heap _ _ (put_pool_same team pl q)).
      assert (forall x, x ∈ l1 ++ l2 -> x ∈ sel team q) as Hsub.
      { intros x. rewrite <- Hsplit, !elem_of_app, elem_of_cons. tauto. }
      split; [split; [apply put_pool_same| |]|].
      * destruct (other_index team Hi) as [Ho Hne]. rewrite pool_put by done. by rewrite Hne.
      * split; unfold sel; rewrite Epl; cbn [SelectedGroups PlayerCount pl].
        -- rewrite <- Hsplit, <- app_assoc in P1. rewrite <- app_assoc. apply NoDup_app in P1 as (A & B & C).
           cbn in C. apply NoDup_cons in C as [_ C]. apply NoDup_app. split; [done|]. split; [|done].
           intros x Hx Hy. apply (B x Hx). by right.
        -- intros x Hx. rewrite Eh. apply P2. rewrite elem_of_app in Hx |- *. destruct Hx; [left; by apply Hsub|by right].
        -- intros x gx Hx. rewrite Eh. apply P3. by apply Hsub.
        -- rewrite Eu, (weight_heap q _ _ Eh), weight_app. done.
        -- lia.
      * unfold sel. rewrite Epl. cbn [SelectedGroups PlayerCount pl]. fold (sel team q). rewrite <- Hsplit at 1.
        rewrite !length_app. cbn. lia.
Qed.

Lemma offer_runs team rest desired cap q :
  an_index team -> desired <= cap < 2 ^ 32 -> pool_ok team cap q rest ->
  runs (offer team rest desired) q (fun rest' q' => pool_step team cap rest' q q' /\
    (length (sel team q') + length rest' <= length (sel team q) + length rest)%nat /\
    (length (sel team q) <= length (sel team q'))%nat /\ (length rest' <= length rest)%nat).
Proof.
  intros Hi Hc. revert q. induction rest as [|p rest IH]; intros q Hp; cbn [offer].
  - plain_step. split; [by split|]. lia.
  - plain_step. eapply runs_mono; [by eapply pool_AddGroup_runs|]. intros more q1 (Hs & Hsel & _).
    assert (length (sel team q) <= length (sel team q1) <= S (length (sel team q)))%nat as Hlen.
    { destruct Hsel as [[E _]|E]; rewrite E, ?length_app; cbn; lia. }
    destruct more.
    + eapply runs_mono; [by apply IH, Hs|]. intros rest' q2 (Hs2 & H1 & H2 & H3). cbn in *.
      split; [by eapply pool_step_trans|]. lia.
    + assert (sel team q1 = sel team q) as E by (destruct Hsel as [[_ [=]]|]; done).
      plain_step. split; [done|]. cbn. rewrite E. lia.
Qed.

(** Both pools. *)
Record pools_ok (capA capH : Z) (q : BgQueue) (restA restH : list ginfo) : Prop := {
  pp_alliance : pool_ok TEAM_ALLIANCE capA q restA;
  pp_horde : pool_ok TEAM_HORDE capH q restH
}.

Lemma pools_step_alliance capA capH q q' restA restA' restH :
  pools_ok capA capH q restA restH -> pool_step TEAM_ALLIANCE capA restA' q q' -> pools_ok capA capH q' restA' restH.
Proof.
  intros [HA HH] [S1 S2 S3]. split; [done|]. by eapply pool_ok_same; [apply same_heap|exact S2|].
Qed.

Lemma pools_step_horde capA capH q q' restA restH restH' :
  pools_ok capA capH q restA restH -> pool_step TEAM_HORDE capH restH' q q' -> pools_ok capA capH q' restA restH'.
Proof.
  intros [HA HH] [S1 S2 S3]. split; [|done]. by eapply pool_ok_same; [apply same_heap|exact S2|].
Qed.

Definition count (team : Z) (q : BgQueue) : Z := PlayerCount (pool team q).

Lemma count_range team cap q rest : pool_ok team cap q rest -> 0 <= count team q <= cap.
Proof.
  intros [P1 P2 P3 P4 P5]. unfold count. split; [|done]. rewrite P4. apply weight_nonneg.
Qed.

(** What is left free differs by one at most, or a side had nobody to fill up with. *)
Definition balanced (aliFree hordeFree a h : Z) : Prop :=
  Z.abs ((aliFree - a) - (hordeFree - h)) <= 1 \/ (a = 0 /\ h = 0) \/
  (a = 0 /\ aliFree <= hordeFree - h + 1) \/ (h = 0 /\ hordeFree <= aliFree - a + 1).

Definition work (q : BgQueue) (restA restH : list ginfo) : nat :=
  (2 * (length restA + length restH) + length (sel TEAM_ALLIANCE q) + length (sel TEAM_HORDE q))%nat.

Lemma i32_id z : - 2147483648 <= z < 2147483648 -> i32 z = z.
Proof. intros Hz. apply swrap_small; [done|]. lia. Qed.

Lemma u32_id z : 0 <= z < 4294967296 -> u32 z = z.
Proof. intros Hz. apply wrap_small. lia. Qed.

(** One side of a turn: a group is kicked and others are offered instead; if the pool is
    empty then, a group of the other side is kicked. *)
Definition turn (team : Z) (rest : list ginfo) (size desired : Z) (stop : bool) (K : list ginfo -> T unit) : T unit :=
  more ← KickGroup team size;
  rest ← (if (more : bool) then offer team rest desired else mret rest);
  q ← get;
  if PlayerCount (pool team q) =? 0 then if stop then mret tt else _ ← KickGroup (other team) size; K rest else K rest.

Lemma turn_runs team rest size desired stop K capT capO restO q (Q : unit -> BgQueue -> Prop) :
  an_index team -> desired <= capT -> capT < 2 ^ 32 -> capO < 2 ^ 32 ->
  pool_ok team capT q rest -> pool_ok (other team) capO q restO ->
  (0 < count team q \/ 0 < count (other team) q) ->
  (forall q', same_but_pools q q' -> count team q' = 0 -> stop = true -> pool (other team) q' = pool (other team) q ->
    (exists rest', pool_ok team capT q' rest') -> Q tt q') ->
  (forall rest' q', same_but_pools q q' -> pool_ok team capT q' rest' -> pool_ok (other team) capO q' restO ->
    (length (sel team q') + length (sel (other team) q') + 2 * length rest' <
     length (sel team q) + length (sel (other team) q) + 2 * length rest)%nat -> runs (K rest') q' Q) ->
  runs (turn team rest size desired stop K) q Q.
Proof.
  intros Hi Hd Hc Hco Hp Ho Hpos Hstop HK. destruct (other_index team Hi) as [Hi' _].
  assert (other (other team) = team) as Eoo by (destruct Hi as [->| ->]; done).
  unfold turn. plain_step. eapply runs_mono; [by apply (KickGroup_runs team size capT rest)|]. intros more q1 (S1 & L1 & _). plain_step.
  apply (runs_mono _ _ (fun rest' q2 => pool_step team capT rest' q q2 /\
    (length (sel team q2) + length rest' <= length (sel team q1) + length rest)%nat /\
    (length (sel team q1) <= length (sel team q2))%nat /\ (length rest' <= length rest)%nat)).
  { destruct more; [|plain_step; split; [done|lia]]. eapply runs_mono; [eapply offer_runs; [done|split; [exact Hd|done]|apply S1]|].
    intros rest' q2 (S2 & H). split; [by eapply pool_step_trans|done]. }
  intros rest' q2 ([E2 O2 P2] & M1 & M2 & M3). plain_step. plain_step.
  assert (length (sel (other team) q2) = length (sel (other team) q)) as Lo by (unfold sel; by rewrite O2).
  assert (pool_ok (other team) capO q2 restO) as Po2 by (by eapply pool_ok_same; [apply same_heap|exact O2|exact Ho]).
  pose proof (sel_empty _ _ _ _ P2) as Hemp. pose proof (sel_empty _ _ _ _ Hp) as Hemp0.
  pose proof (sel_empty _ _ _ _ Ho) as Hempo. pose proof (count_range _ _ _ _ Hp). pose proof (count_range _ _ _ _ Ho).
  unfold count in *. destruct (Z.eqb_spec (PlayerCount (pool team q2)) 0) as [Ez|Ez].
  - destruct stop; [plain_step; eapply Hstop; eauto|]. plain_step.
    eapply runs_mono; [by apply (KickGroup_runs (other team) size capO restO)|]. intros m q3 (S3 & L3 & _). destruct S3 as [E3 O3 P3]. rewrite Eoo in O3.
    eapply HK; [by eapply same_trans| |done|].
    + by eapply pool_ok_same; [apply same_heap|exact O3|exact P2].
    + assert (sel team q3 = sel team q2) as -> by (unfold sel; by rewrite O3).
      rewrite (proj1 Hemp Ez) in *. cbn in *. rewrite L3, Lo.
      destruct (sel team q) as [|p l] eqn:Es.
      * destruct (sel (other team) q) as [|p' l'] eqn:Es'; [|cbn; lia].
        pose proof (proj2 Hemp0 eq_refl). pose proof (proj2 Hempo eq_refl). lia.
      * cbn. lia.
  - apply HK; [done|done|done|]. rewrite Lo. destruct (sel team q) as [|p l] eqn:Es; [|cbn in *; lia].
    cbn in L1. destruct (sel team q2) as [|p' l'] eqn:Es2; [exfalso; by apply Ez, Hemp|]. cbn in *. lia.
Qed.

(** More places than any battleground has. *)
Definition many : Z := 1073741824.

Lemma balance_runs fuel aliFree hordeFree restA restH q :
  0 <= aliFree < many -> 0 <= hordeFree < many ->
  pools_ok aliFree hordeFree q restA restH -> (work q restA restH <= fuel)%nat ->
  runs (balance fuel aliFree hordeFree restA restH) q (fun _ q' => same_but_pools q q' /\
    (exists rA rH, pools_ok aliFree hordeFree q' rA rH) /\
    balanced aliFree hordeFree (count TEAM_ALLIANCE q') (count TEAM_HORDE q')).
Proof.
  unfold many. intros Ha Hh. revert restA restH q. induction fuel as [|fuel IH]; intros restA restH q Hp Hw; pose proof Hp as [PA PH];
    pose proof (count_range _ _ _ _ PA) as RA; pose proof (count_range _ _ _ _ PH) as RH; unfold count in RA, RH;
    cbn [balance]; plain_step; plain_step; rewrite !(i32_id (PlayerCount _)) by lia;
    set (a := PlayerCount (pool TEAM_ALLIANCE q)) in *; set (h := PlayerCount (pool TEAM_HORDE q)) in *;
    rewrite !(i32_id (aliFree - a)), !(i32_id (hordeFree - h)), !(i32_id (aliFree - a - (hordeFree - h))) by lia.
  - assert (a = 0 /\ h = 0) as [Ea Eh].
    { unfold work in Hw. split; [apply (sel_empty _ _ _ _ PA)|apply (sel_empty _ _ _ _ PH)]; apply length_zero_iff_nil; lia. }
    destruct (negb _) eqn:E; [|lia]. plain_step. split; [done|]. split; [eauto|]. unfold balanced, count. fold a h. lia.
  - destruct (negb _) eqn:E.
    + plain_step. split; [done|]. split; [eauto|]. unfold balanced, count. fold a h. lia.
    + apply negb_false_iff, andb_true_iff in E as [E1 E2].
      assert (forall (rA rH : list ginfo) q', same_but_pools q q' -> pools_ok aliFree hordeFree q' rA rH -> (work q' rA rH <= fuel)%nat ->
        runs (balance fuel aliFree hordeFree rA rH) q' (fun _ q'' => same_but_pools q q'' /\
          (exists rA rH, pools_ok aliFree hordeFree q'' rA rH) /\
          balanced aliFree hordeFree (count TEAM_ALLIANCE q'') (count TEAM_HORDE q''))) as Hgo.
      { intros rA rH q' Hs' Hp' Hw'. eapply runs_mono; [by apply IH|]. intros [] q'' (Hs2 & H2).
        split; [by eapply same_trans|done]. }
      unfold work in *. destruct (Z.ltb_spec (aliFree - a) (hordeFree - h)).
      * apply (turn_runs TEAM_ALLIANCE restA _ _ (aliFree <=? i32 (hordeFree - h + 1)) (fun r => balance fuel aliFree hordeFree r restH)
          aliFree hordeFree restH); [by left|destruct (Z.leb_spec (hordeFree - h) aliFree); rewrite u32_id; lia|change (2 ^ 32) with 4294967296; lia|change (2 ^ 32) with 4294967296; lia|done|done|change (0 < a \/ 0 < h); lia| |].
        -- intros q' Hs' Hz Hstop Ho [r Hr]. split; [done|]. split.
           ++ exists r, restH. split; [done|]. by eapply pool_ok_same; [apply same_heap|exact Ho|].
           ++ unfold balanced. rewrite Hz. change (pool TEAM_HORDE q' = pool TEAM_HORDE q) in Ho. unfold count. rewrite Ho. fold h. rewrite i32_id in Hstop by lia. lia.
        -- intros r q' Hs' P1 P2 Hlt. apply Hgo; [done|by split|]. cbn in Hlt. lia.
      * apply (turn_runs TEAM_HORDE restH _ _ (hordeFree <=? i32 (aliFree - a + 1)) (fun r => balance fuel aliFree hordeFree restA r)
          hordeFree aliFree restA); [by right|destruct (Z.leb_spec (aliFree - a) hordeFree); rewrite u32_id; lia|change (2 ^ 32) with 4294967296; lia|change (2 ^ 32) with 4294967296; lia|done|done|change (0 < h \/ 0 < a); lia| |].
        -- intros q' Hs' Hz Hstop Ho [r Hr]. split; [done|]. split.
           ++ exists restA, r. split; [|done]. by eapply pool_ok_same; [apply same_heap|exact Ho|].
           ++ unfold balanced. rewrite Hz. change (pool TEAM_ALLIANCE q' = pool TEAM_ALLIANCE q) in Ho. unfold count. rewrite Ho. fold a. rewrite i32_id in Hstop by lia. lia.
        -- intros r q' Hs' P1 P2 Hlt. apply Hgo; [done|by split|]. cbn in Hlt. lia.
Qed.
End Pools.

(** ** Filling *)

Lemma GetFreeSlotsForTeam_range b team :
  0 <= GetInvitedCount b team -> 0 <= m_MaxPlayersPerTeam b ->
  0 <= GetFreeSlotsForTeam b team /\ GetFreeSlotsForTeam b team <= Z.max 0 (m_MaxPlayersPerTeam b - GetInvitedCount b team).
Proof.
  intros Hi Hm. unfold GetFreeSlotsForTeam. set (n := GetInvitedCount b team) in *.
  set (o := GetInvitedCount b _). set (pi := GetPlayersCountByTeam b _). set (po := GetPlayersCountByTeam b _).
  pose proof (wrap_range 32 (m_MinPlayersPerTeam b - n + 1) ltac:(lia)) as Hu.
  destruct (m_Status b =? STATUS_WAIT_JOIN), (m_Status b =? STATUS_IN_PROGRESS); repeat bdestr; lia.
Qed.

Lemma counted_nonneg travel q i b team : counted travel q i b team -> 0 <= GetInvitedCount b team.
Proof.
  intros [C _ _ _]. rewrite C. pose proof (invited_of_nonneg q i team). pose proof (on_the_way_nonneg travel i team).
  pose proof (inside_nonneg b team). lia.
Qed.

(** The normal queue of a side, before anything is selected. *)
Definition normal (team : Z) : Z := BG_QUEUE_NORMAL_ALLIANCE + team.
Definition no_pools (q : BgQueue) : Prop := pool_alliance q = pool_Init /\ pool_horde q = pool_Init.

Lemma players_pos q p g : players_ok q -> heap q !! p = Some g -> 0 < players g.
Proof.
  intros Hp Hg. pose proof (po_nonempty _ Hp p g Hg). unfold players.
  assert (size (Players g) <> 0%nat); [|lia]. intros E. apply size_empty_inv in E. by apply H, leibniz_equiv.
Qed.

Lemma side_normal team : an_index team -> side (normal team) = team_of team.
Proof. by intros [->| ->]. Qed.

Lemma init_pool_ok src team cap q bracket :
  an_index team -> groups_ok q -> players_ok q -> no_pools q -> 0 <= cap -> src team = queue q bracket (normal team) ->
  pool_ok src team cap q (queue q bracket (normal team)).
Proof.
  intros Hi Hg Hp [N1 N2] Hc Hsrc. assert (pool team q = pool_Init) as E by (destruct Hi as [->| ->]; done).
  split; unfold sel; rewrite E; cbn; [apply Hg| | |done|done].
  - intros p Hin. destruct (go_alive _ Hg _ _ _ Hin) as [g Hpg]. exists g. split; [done|].
    split; [by rewrite (go_side _ Hg _ _ _ _ Hin Hpg), side_normal|]. split; [by eapply players_pos|by rewrite Hsrc].
  - intros p g Hin. inversion Hin.
Qed.

(** What is selected for a battleground. *)
Record selected (q q' : BgQueue) (bracket aliFree hordeFree : Z) : Prop := {
  sl_same : same_but_pools q q';
  sl_pools : exists rA rH, pools_ok (fun team => queue q bracket (normal team)) aliFree hordeFree q' rA rH
}.

Lemma FillPlayersToBG_runs new t travel fuel w i bracket q b :
  consistent new t travel q -> bgs q !! i = Some b -> no_pools q ->
  (2 * (length (queue q bracket BG_QUEUE_NORMAL_ALLIANCE) + length (queue q bracket BG_QUEUE_NORMAL_HORDE)) <= fuel)%nat ->
  runs (FillPlayersToBG fuel w i bracket) q (fun _ q' =>
    selected q q' bracket (GetFreeSlotsForTeam b ALLIANCE) (GetFreeSlotsForTeam b HORDE) /\
    (invitation_type w <> 0 ->
      balanced (GetFreeSlotsForTeam b ALLIANCE) (GetFreeSlotsForTeam b HORDE) (count TEAM_ALLIANCE q') (count TEAM_HORDE q'))).
Proof.
  intros Hc Hb Hn Hf. unfold FillPlayersToBG. plain_step. eapply deref_bg_runs; [done|].
  pose proof (bo_counted _ _ _ _ (co_bgs _ _ _ _ Hc) i b) as Hct. pose proof (bo_small _ _ _ _ (co_bgs _ _ _ _ Hc) i b Hb) as Hsm.
  pose proof (GetFreeSlotsForTeam_range b ALLIANCE (counted_nonneg _ _ _ _ _ (Hct _ Hb (or_introl eq_refl))) ltac:(lia)) as RA.
  pose proof (GetFreeSlotsForTeam_range b HORDE (counted_nonneg _ _ _ _ _ (Hct _ Hb (or_intror eq_refl))) ltac:(lia)) as RH.
  pose proof (counted_nonneg _ _ _ _ _ (Hct _ Hb (or_introl eq_refl))) as NA.
  pose proof (counted_nonneg _ _ _ _ _ (Hct _ Hb (or_intror eq_refl))) as NH.
  unfold group_cap in Hsm. set (fa := GetFreeSlotsForTeam b ALLIANCE) in *. set (fh := GetFreeSlotsForTeam b HORDE) in *.
  rewrite !i32_id, !u32_id by lia. plain_step. plain_step. plain_step.
  set (src := fun team => queue q bracket (normal team)).
  assert (pool_ok src TEAM_ALLIANCE fa q (queue q bracket BG_QUEUE_NORMAL_ALLIANCE)) as PA.
  { apply init_pool_ok; [by left|apply Hc|apply Hc|done|lia|done]. }
  assert (pool_ok src TEAM_HORDE fh q (queue q bracket BG_QUEUE_NORMAL_HORDE)) as PH.
  { apply init_pool_ok; [by right|apply Hc|apply Hc|done|lia|done]. }
  eapply runs_mono; [apply (offer_runs src TEAM_ALLIANCE _ fa fa); [by left|change (2 ^ 32) with 4294967296; lia|exact PA]|].
  intros rA q1 (S1 & L1 & M1 & N1). plain_step.
  pose proof (pools_step_alliance src _ fh _ _ _ _ _ (Build_pools_ok _ _ _ _ _ _ PA PH) S1) as P1.
  eapply runs_mono; [apply (offer_runs src TEAM_HORDE _ fh fh); [by right|change (2 ^ 32) with 4294967296; lia|apply P1]|].
  intros rH q2 (S2 & L2 & M2 & N2). pose proof (pools_step_horde src _ _ _ _ _ _ _ P1 S2) as P2.
  assert (same_but_pools q q2) as E2 by (eapply same_trans; [apply S1|apply S2]).
  destruct (Z.eqb_spec (invitation_type w) 0) as [Ei|Ei].
  - plain_step. split; [by split; [done|exists rA, rH]|done].
  - assert (sel TEAM_ALLIANCE q2 = sel TEAM_ALLIANCE q1) as Es by (unfold sel; exact (f_equal SelectedGroups (ps_other _ _ _ _ _ _ S2))).
    assert (sel TEAM_HORDE q1 = sel TEAM_HORDE q) as Es' by (unfold sel; exact (f_equal SelectedGroups (ps_other _ _ _ _ _ _ S1))).
    assert (sel TEAM_ALLIANCE q = [] /\ sel TEAM_HORDE q = []) as [Z1 Z2].
    { destruct Hn as [Hn1 Hn2]. unfold sel. cbn. by rewrite Hn1, Hn2. }
    rewrite Z1 in *. rewrite Es', Z2 in *. cbn in *.
    eapply runs_mono; [apply (balance_runs src); [unfold many; lia|unfold many; lia|exact P2|unfold work; rewrite Es; lia]|].
    intros [] q3 (S3 & (rA' & rH' & P3) & Hbal). split; [|done].
    split; [by eapply same_trans|by exists rA', rH'].
Qed.
