(* ===== verification/BgQueueInvite.v ===== *)
(** * BattlegroundQueue: invitations keep the counters right *)

From S2P Require Import Prelude.
From S2P Require Import EventProcessor.
From S2P Require Import BattlegroundQueue.
From S2P Require Import BgQueueSpec.

(** ** Counters of a battleground *)

(** [n] players of a team are invited. *)
Definition invite_one (team : Z) (b : Battleground) : Battleground := IncreaseAwaitingPlayers team (IncreaseInvitedCount team b).
Definition invite_many (n : nat) (team : Z) (b : Battleground) : Battleground := Nat.iter n (invite_one team) b.

(** What the queue does not touch in a battleground while it invites. *)
Record same_bg (b b' : Battleground) : Prop := {
  sb_type : m_TypeID b' = m_TypeID b;
  sb_arena : m_IsArena b' = m_IsArena b;
  sb_max : m_MaxPlayersPerTeam b' = m_MaxPlayersPerTeam b;
  sb_players : m_Players b' = m_Players b;
  sb_count : forall team, GetPlayersCountByTeam b' team = GetPlayersCountByTeam b team;
  sb_free : m_InBGFreeSlotQueue b' = m_InBGFreeSlotQueue b;
  sb_registered : registered b' = registered b
}.

Lemma same_bg_refl b : same_bg b b.
Proof. done. Qed.

Lemma same_bg_trans b1 b2 b3 : same_bg b1 b2 -> same_bg b2 b3 -> same_bg b1 b3.
Proof. intros [] []. split; intros; etransitivity; eauto. Qed.

Lemma invite_one_same team b : same_bg b (invite_one team b).
Proof. unfold invite_one, IncreaseAwaitingPlayers, IncreaseInvitedCount. by destruct (team =? ALLIANCE). Qed.

Lemma invite_many_same n team b : same_bg b (invite_many n team b).
Proof.
  induction n as [|n IH]; [done|]. eapply same_bg_trans; [exact IH|]. apply invite_one_same.
Qed.

Lemma invite_one_counts team team' b :
  a_team team -> a_team team' ->
  GetInvitedCount (invite_one team b) team' = (if team' =? team then u32 (GetInvitedCount b team' + 1) else GetInvitedCount b team') /\
  GetAwaitingPlayers (invite_one team b) team' = (if team' =? team then u8 (GetAwaitingPlayers b team' + 1) else GetAwaitingPlayers b team').
Proof. by intros [->| ->] [->| ->]. Qed.

Lemma wrap_add_l w a b : wrap w (wrap w a + b) = wrap w (a + b).
Proof. unfold wrap. by rewrite Zplus_mod_idemp_l. Qed.

Lemma invite_many_counts n team team' b x :
  a_team team -> a_team team' -> 0 <= GetInvitedCount b team' -> GetInvitedCount b team' + Z.of_nat n < 2 ^ 32 ->
  GetAwaitingPlayers b team' = u8 x ->
  GetInvitedCount (invite_many n team b) team' = GetInvitedCount b team' + (if team' =? team then Z.of_nat n else 0) /\
  GetAwaitingPlayers (invite_many n team b) team' = u8 (x + (if team' =? team then Z.of_nat n else 0)).
Proof.
  intros Ht Ht' H0 Hn Hx. induction n as [|n IH].
  - cbn. rewrite Hx. destruct (team' =? team); by rewrite !Z.add_0_r.
  - destruct IH as [IH1 IH2]; [lia|]. change (invite_many (S n) team b) with (invite_one team (invite_many n team b)).
    destruct (invite_one_counts team team' (invite_many n team b) Ht Ht') as [E1 E2]. rewrite E1, E2, IH1, IH2.
    destruct (team' =? team); [|by rewrite !Z.add_0_r]. split.
    + rewrite wrap_small by lia. lia.
    + rewrite wrap_add_l. f_equal. lia.
Qed.

(** ** Inviting one group *)

(** What an invitation leaves alone: everything but the waiting times, the output, the
    groups in [l] and the battleground [i]. *)
Record stays (l : list ginfo) (i : Z) (q q' : BgQueue) : Prop := {
  st_players : m_QueuedPlayers q' = m_QueuedPlayers q;
  st_queues : m_QueuedGroups q' = m_QueuedGroups q;
  st_alliance : pool_alliance q' = pool_alliance q;
  st_horde : pool_horde q' = pool_horde q;
  st_free : BGFreeSlotQueue q' = BGFreeSlotQueue q;
  st_instance : next_instance q' = next_instance q;
  st_group : next_group q' = next_group q;
  st_heap : forall p, p ∉ l -> heap q' !! p = heap q !! p;
  st_bgs : forall j, j <> i -> bgs q' !! j = bgs q !! j
}.

Lemma bg_stays_refl l i q : stays l i q q.
Proof. done. Qed.

Lemma bg_stays_trans l i q1 q2 q3 : stays l i q1 q2 -> stays l i q2 q3 -> stays l i q1 q3.
Proof.
  intros [A1 A2 A3 A4 A5 A6 A7 A8 A9] [B1 B2 B3 B4 B5 B6 B7 B8 B9].
  split; try congruence; intros x Hx; [by rewrite B8, A8|by rewrite B9, A9].
Qed.

Lemma stays_more l l' i q q' : (forall p, p ∈ l -> p ∈ l') -> stays l i q q' -> stays l' i q q'.
Proof. intros Hl [A1 A2 A3 A4 A5 A6 A7 A8 A9]. split; try done. intros p Hp. apply A8. intros Hx. by apply Hp, Hl. Qed.

Lemma stays_queue l i q q' b k : stays l i q q' -> queue q' b k = queue q b k.
Proof. intros H. unfold queue. by rewrite (st_queues _ _ _ _ H). Qed.

Lemma invite_players_runs w p i l q g b :
  (forall guid, online w guid = true) -> heap q !! p = Some g -> bgs q !! i = Some b ->
  runs (invite_players w p i l) q (fun _ q' =>
    stays [] i q q' /\ bgs q' !! i = Some (invite_many (length l) (Team g) b)).
Proof.
  intros Hon Hg. revert q b Hg. induction l as [|guid l IH]; intros q b Hg Hb; cbn [invite_players]; [by plain_step|].
  rewrite Hon. plain_step. plain_step. eapply deref_group_runs; [exact Hg|]. plain_step. eapply deref_bg_runs; [exact Hb|].
  repeat plain_step. set (q1 := emit _ _).
  assert (bgs q1 !! i = Some (invite_one (Team g) b)) as Hb1 by (apply lookup_insert_eq).
  eapply runs_mono; [by apply (IH q1)|]. intros [] q2 (Hs & Hb2). split.
  - eapply bg_stays_trans; [|exact Hs]. split; try done. intros j Hj. cbn. by rewrite lookup_insert_ne.
  - rewrite Hb2. f_equal. unfold invite_many. cbn [length]. by rewrite Nat.iter_succ_r.
Qed.

(** ** Consistency is kept *)

(** Groups changed in neither team nor players. *)
Lemma groups_ok_heap q q' :
  m_QueuedGroups q' = m_QueuedGroups q -> next_group q' = next_group q ->
  (forall p, fmap Team (heap q' !! p) = fmap Team (heap q !! p)) -> groups_ok q -> groups_ok q'.
Proof.
  intros Eq En Eh [G1 G2 G3 G4 G5 G6 G7].
  assert (forall b k, queue q' b k = queue q b k) as EQ by (intros; unfold queue; by rewrite Eq).
  assert (forall p, is_Some (heap q' !! p) <-> is_Some (heap q !! p)) as Es.
  { intros p. rewrite <- (fmap_is_Some Team), Eh, fmap_is_Some. done. }
  split.
  - intros b k p. rewrite EQ, Es. apply G1.
  - intros p. rewrite Es. intros Hp. destruct (G2 p Hp) as (b & k & ? & ? & ?). exists b, k. by rewrite EQ.
  - intros b k b' k' p. rewrite !EQ. apply G3.
  - intros b k. rewrite EQ. apply G4.
  - intros b k p g. rewrite EQ. intros Hin Hg. specialize (Eh p). rewrite Hg in Eh. cbn in Eh.
    symmetry in Eh. apply fmap_Some in Eh as (g0 & Hg0 & ->). by eapply G5.
  - intros p. rewrite Es, En. apply G6.
  - by rewrite En.
Qed.

Lemma players_ok_heap q q' :
  m_QueuedPlayers q' = m_QueuedPlayers q ->
  (forall p, fmap Players (heap q' !! p) = fmap Players (heap q !! p)) -> players_ok q -> players_ok q'.
Proof.
  intros Eq Eh [P1 P2 P3].
  assert (forall p g, heap q' !! p = Some g -> exists g0, heap q !! p = Some g0 /\ Players g = Players g0) as Hback.
  { intros p g Hg. specialize (Eh p). rewrite Hg in Eh. symmetry in Eh. cbn in Eh. apply fmap_Some in Eh as (g0 & Hg0 & E). eauto. }
  assert (forall p g, heap q !! p = Some g -> exists g0, heap q' !! p = Some g0 /\ Players g0 = Players g) as Hforth.
  { intros p g Hg. specialize (Eh p). rewrite Hg in Eh. cbn in Eh. apply fmap_Some in Eh as (g0 & Hg0 & E). eauto. }
  split.
  - intros guid pl. rewrite Eq. intros Hpl. destruct (P1 guid pl Hpl) as (g & Hg & Hin).
    destruct (Hforth _ _ Hg) as (g0 & Hg0 & E). exists g0. by rewrite E.
  - intros p g guid Hg Hin. rewrite Eq. destruct (Hback _ _ Hg) as (g0 & Hg0 & E). rewrite E in Hin. by eapply P2.
  - intros p g Hg. destruct (Hback _ _ Hg) as (g0 & Hg0 & ->). by eapply P3.
Qed.

(** A group [g] at [p] was invited to the battleground [b] at [i]. *)
Record invited_group (p i : Z) (g : GroupQueueInfo) (b : Battleground) (q q' : BgQueue) : Prop := {
  ig_stays : stays [p] i q q';
  ig_group : exists r, heap q' !! p = Some (with_invite i r g);
  ig_bg : exists b', bgs q' !! i = Some b' /\ same_bg b b' /\ forall team, a_team team ->
    let n := if team =? Team g then players g else 0 in
    GetInvitedCount b' team = GetInvitedCount b team + n /\
    (forall x, GetAwaitingPlayers b team = u8 x -> GetAwaitingPlayers b' team = u8 (x + n))
}.

Lemma same_bg_cap b b' : same_bg b b' -> cap b' = cap b.
Proof. intros [_ E1 E2 _ _ _ _]. unfold cap. by rewrite E1, E2. Qed.

Lemma same_bg_inside b b' team : same_bg b b' -> inside b' team = inside b team.
Proof. intros [_ _ _ E _ _ _]. unfold inside. by rewrite E. Qed.

Section Invited.
Context (new : option Z) (t : Z) (travel : list (Z * (Z * Z))) (p i : Z) (g : GroupQueueInfo) (b : Battleground) (q q' : BgQueue).
Hypothesis ok : consistent new t travel q.
Hypothesis Hg : heap q !! p = Some g.
Hypothesis free : invited g = false.
Hypothesis Hb : bgs q !! i = Some b.
Hypothesis room : GetInvitedCount b (Team g) + players g <= cap b.
Hypothesis done_ : invited_group p i g b q q'.

Lemma invited_heap : exists r, heap q' = <[p := with_invite i r g]> (heap q).
Proof.
  destruct done_ as [S (r & Hr) _]. exists r. apply map_eq. intros x. destruct (decide (x = p)) as [->|Hn].
  - by rewrite lookup_insert_eq.
  - rewrite lookup_insert_ne by done. apply (st_heap _ _ _ _ S). by intros ->%list_elem_of_singleton.
Qed.

Lemma free_zero : IsInvitedToBGInstanceGUID g = 0.
Proof. unfold invited in free. apply negb_false_iff, Z.eqb_eq in free. done. Qed.

Lemma invited_more j team :
  0 < j -> invited_of q' j team = invited_of q j team + (if (j =? i) && (team =? Team g) then players g else 0).
Proof.
  intros Hj. destruct invited_heap as [r E]. unfold invited_of. rewrite E, (total_update _ _ p g) by done.
  unfold invited_to. cbn. rewrite free_zero. rewrite (proj2 (Z.eqb_neq 0 j)) by lia. cbn. rewrite Z.sub_0_r.
  rewrite (Z.eqb_sym i j), (Z.eqb_sym (Team g)). done.
Qed.

Lemma invited_bgs_ok : bgs_ok new t travel q'.
Proof.
  destruct ok as [_ _ [O1 O2 O3 O4 O5 O6 O7 O8 O9 O10] _]. destruct done_ as [S _ (b' & Hb' & Hsame & Hcount)].
  pose proof (st_bgs _ _ _ _ S) as Hother.
  assert (forall j c, bgs q' !! j = Some c -> (j = i /\ c = b') \/ (j <> i /\ bgs q !! j = Some c)) as Hcases.
  { intros j c Hc. destruct (decide (j = i)) as [->|Hn]; [left; split; congruence|right]. split; [done|]. by rewrite <- Hother. }
  assert (free_slot_queue t q' = free_slot_queue t q) as EF by (unfold free_slot_queue; by rewrite (st_free _ _ _ _ S)).
  split.
  - intros j c team Hc Ht. assert (0 < j) as Hj.
    { destruct (Hcases _ _ Hc) as [[-> _]|[_ Hq]]; [apply (O6 i); by eexists|apply (O6 j); by eexists]. }
    destruct (Hcases _ _ Hc) as [[-> ->]|[Hn Hq]].
    + destruct (O1 i b team Hb Ht) as [C1 C2 C3 C4]. destruct (Hcount team Ht) as [N1 N2]. specialize (N2 _ C2).
      split; rewrite ?(invited_more i team Hj), ?Z.eqb_refl; cbn [andb].
      * rewrite N1, (same_bg_inside _ _ _ Hsame). lia.
      * done.
      * rewrite N1, (same_bg_cap _ _ Hsame). destruct (Z.eqb_spec team (Team g)) as [->|]; lia.
      * by rewrite (sb_count _ _ Hsame), (same_bg_inside _ _ _ Hsame).
    + destruct (O1 j c team Hq Ht) as [C1 C2 C3 C4]. split; rewrite ?(invited_more j team Hj), ?(proj2 (Z.eqb_neq j i) Hn); cbn [andb]; rewrite ?Z.add_0_r; done.
  - intros j c guid team Hc Hm. destruct (Hcases _ _ Hc) as [[-> ->]|[Hn Hq]]; [|by eapply O2].
    rewrite (sb_players _ _ Hsame) in Hm. by eapply O2.
  - intros j c Hc. destruct (Hcases _ _ Hc) as [[-> ->]|[Hn Hq]]; [rewrite (sb_type _ _ Hsame)|]; by eapply O3.
  - intros j c Hc. destruct (Hcases _ _ Hc) as [[-> ->]|[Hn Hq]]; [rewrite (sb_registered _ _ Hsame)|]; by eapply O4.
  - intros j c Hc. destruct (Hcases _ _ Hc) as [[-> ->]|[Hn Hq]]; [rewrite (sb_max _ _ Hsame)|]; by eapply O5.
  - intros j [c Hc]. rewrite (st_instance _ _ _ _ S). apply O6. destruct (Hcases _ _ Hc) as [[-> ->]|[Hn Hq]]; by eexists.
  - intros j. rewrite EF, O7. split; intros (c & Hc & Hf).
    + destruct (decide (j = i)) as [->|Hn]; [exists b'; split; [done|]; rewrite (sb_free _ _ Hsame); congruence|].
      exists c. by rewrite Hother.
    + destruct (Hcases _ _ Hc) as [[-> ->]|[Hn Hq]]; [|by exists c]. exists b. by rewrite <- (sb_free _ _ Hsame).
  - intros j c Hc Hf. destruct (Hcases _ _ Hc) as [[-> ->]|[Hn Hq]]; [|by eapply O8].
    rewrite (sb_arena _ _ Hsame). rewrite (sb_free _ _ Hsame) in Hf. by eapply O8.
  - by rewrite EF.
  - rewrite (st_instance _ _ _ _ S). done.
Qed.

Lemma invited_consistent : consistent new t travel q'.
Proof.
  pose proof done_ as [S (r & Hr) _]. destruct invited_heap as [r' Eh].
  assert (forall A (f : GroupQueueInfo -> A), (forall r, f (with_invite i r g) = f g) -> forall x, f <$> heap q' !! x = f <$> heap q !! x) as Hf.
  { intros A f E x. rewrite Eh. destruct (decide (x = p)) as [->|Hn]; [rewrite lookup_insert_eq, Hg; cbn; by rewrite E|by rewrite lookup_insert_ne]. }
  split.
  - eapply groups_ok_heap; [apply S|apply S| |apply ok]. by apply Hf.
  - eapply players_ok_heap; [apply S| |apply ok]. by apply Hf.
  - apply invited_bgs_ok.
  - destruct ok as [_ _ O [I1 I2 I3 I4]]. pose proof (bo_ids _ _ _ _ O i) as Hid.
    assert (forall x gx, heap q' !! x = Some gx -> (exists r, gx = with_invite i r g) \/ heap q !! x = Some gx) as Hcases.
    { intros x gx. rewrite Eh. intros [[-> <-]|[_ Hx]]%lookup_insert_Some; [left; by exists r'|by right]. }
    split; rewrite ?(st_instance _ _ _ _ S).
    + intros x gx Hx. destruct (Hcases _ _ Hx) as [[r0 ->]|Hq]; [exact (I1 p g Hg)|by eapply I1].
    + intros x gx Hx. destruct (Hcases _ _ Hx) as [[r0 ->]|Hq]; [|by eapply I2]. cbn.
      pose proof (Hid (ex_intro _ b Hb)). lia.
    + intros x gx Hx. destruct (Hcases _ _ Hx) as [[r0 ->]|Hq]; [exact (I3 p g Hg)|by eapply I3].
    + done.
Qed.
End Invited.

Lemma with_arena_same ids mmr b : same_bg b (with_arena ids mmr b).
Proof. done. Qed.

Lemma team_of_queued q p g : groups_ok q -> heap q !! p = Some g -> a_team (Team g).
Proof.
  intros Hg Hp. destruct (go_place _ Hg p) as (b & k & _ & _ & Hin); [by eexists|]. rewrite (go_side _ Hg _ _ _ _ Hin Hp).
  unfold side. destruct (Z.odd k); [by right|by left].
Qed.

Lemma cap_small new t travel q i b : bgs_ok new t travel q -> bgs q !! i = Some b -> cap b <= group_cap.
Proof.
  intros Ho Hb. pose proof (bo_small _ _ _ _ Ho i b Hb). unfold cap. destruct (m_IsArena b); lia.
Qed.

(** Counters within their range. *)
Definition in_range (b : Battleground) : Prop :=
  forall team, a_team team -> 0 <= GetInvitedCount b team <= group_cap /\ exists x, GetAwaitingPlayers b team = u8 x.

Lemma consistent_in_range new t travel q i b : bgs_ok new t travel q -> bgs q !! i = Some b -> in_range b.
Proof.
  intros Ho Hb team Ht. pose proof (bo_counted _ _ _ _ Ho i b team Hb Ht) as C. pose proof (counted_nonneg _ _ _ _ _ C).
  pose proof (cap_small _ _ _ _ _ _ Ho Hb). destruct C as [C1 C2 C3 C4]. split; [lia|eauto].
Qed.

Lemma stays_put l i p g q : p ∈ l -> stays l i q (put_group p g q).
Proof. intros Hp. split; try done. intros x Hx. cbn. rewrite lookup_insert_ne; [done|]. by intros ->. Qed.

Lemma stays_none i l q q' : stays [] i q q' -> stays l i q q'.
Proof. apply stays_more. intros p Hp. inversion Hp. Qed.

(** The group as it is invited, for the team [side] unless that is 0. *)
Definition sided (side : Z) (g : GroupQueueInfo) : GroupQueueInfo := if side =? 0 then g else with_Team side g.

Lemma sided_own g : sided (Team g) g = g.
Proof. unfold sided. destruct (Team g =? 0); [done|by destruct g]. Qed.

Lemma InviteGroupToBG_sided w p i team g b q :
  heap q !! p = Some g -> invited g = false -> bgs q !! i = Some b -> a_team (Team (sided team g)) ->
  in_range b -> players g <= group_cap -> (forall guid, online w guid = true) ->
  runs (InviteGroupToBG w p i team) q (fun _ q' => invited_group p i (sided team g) b q q').
Proof.
  intros Hg Hfree Hb Hteam Hrange Hsmall Hon. unfold group_cap in *.
  unfold InviteGroupToBG. plain_step. eapply deref_group_runs; [exact Hg|]. fold (sided team g).
  assert (players (sided team g) = players g) as Epl by (unfold sided; by destruct (team =? 0)).
  assert (invited (sided team g) = false) as Hfree' by (unfold sided; by destruct (team =? 0)).
  generalize dependent (sided team g). intros g' Hteam Epl Hfree'. repeat plain_step. rewrite Hfree'. cbn [negb].
  set (q0 := put_group p g' q). assert (stays [p] i q q0) as S0 by (apply stays_put; by left).
  plain_step. eapply deref_bg_runs; [exact Hb|]. plain_step.
  apply (runs_mono _ _ (fun _ q1 => stays [p] i q q1 /\ exists b1, bgs q1 !! i = Some b1 /\ same_bg b b1 /\
    (forall team, GetInvitedCount b1 team = GetInvitedCount b team /\ GetAwaitingPlayers b1 team = GetAwaitingPlayers b team))).
  { destruct (_ && _); plain_step; (split; [|eexists; split; [first [apply lookup_insert_eq|exact Hb]|done]]); [|done].
    eapply bg_stays_trans; [exact S0|]. split; try done. intros j Hj. cbn. by rewrite lookup_insert_ne. }
  intros [] q1 (S1 & b1 & Hb1 & Hsame & Hc1). repeat plain_step.
  set (r := u32 _). set (g2 := with_invite i r g'). set (q2 := put_group p g2 q1).
  eapply runs_mono; [apply (invite_players_runs w p i (guids g') q2 g2 b1 Hon); [apply lookup_insert_eq|exact Hb1]|].
  intros [] q3 (S3 & Hb3). plain_step. change (Team g2) with (Team g') in Hb3.
  split.
  - eapply bg_stays_trans; [exact S1|]. eapply bg_stays_trans; [apply stays_put; by left|by apply stays_none].
  - exists r. rewrite (st_heap _ _ _ _ S3) by (intros Hx; inversion Hx). apply lookup_insert_eq.
  - exists (invite_many (length (guids g')) (Team g') b1). split; [done|].
    split; [eapply same_bg_trans; [exact Hsame|apply invite_many_same]|].
    intros team' Hteam'. destruct (Hc1 team') as [C1 C2]. pose proof (guids_length g') as Hlen. unfold zlen in Hlen.
    destruct (Hrange team' Hteam') as [Hnn [x0 Hx0]]. pose proof (players_nonneg g') as Hpn.
    assert (forall x, GetAwaitingPlayers b team' = u8 x ->
      GetInvitedCount (invite_many (length (guids g')) (Team g') b1) team' = GetInvitedCount b team' + (if team' =? Team g' then players g' else 0) /\
      GetAwaitingPlayers (invite_many (length (guids g')) (Team g') b1) team' = u8 (x + (if team' =? Team g' then players g' else 0))) as Hmany.
    { intros x Hx. rewrite <- C1, <- Hlen. apply invite_many_counts; [done|done|lia| |congruence].
      rewrite C1. change (2 ^ 32) with 4294967296. unfold group_cap in Hnn. lia. }
    split; [by apply (Hmany _ Hx0)|]. intros x Hx. by apply Hmany.
Qed.

Lemma InviteGroupToBG_runs new t travel w p i g b q :
  consistent new t travel q -> heap q !! p = Some g -> invited g = false -> bgs q !! i = Some b ->
  (forall guid, online w guid = true) ->
  runs (InviteGroupToBG w p i (Team g)) q (fun _ q' => invited_group p i g b q q').
Proof.
  intros Hok Hg Hfree Hb Hon. eapply runs_mono; [apply (InviteGroupToBG_sided w p i (Team g) g b q); try done|].
  - rewrite sided_own. by eapply team_of_queued; [apply Hok|].
  - eapply consistent_in_range; [apply Hok|done].
  - by eapply io_small; [apply Hok|].
  - intros ok q'. by rewrite sided_own.
Qed.

(** ** Inviting what is selected *)

(** The groups of a list may be invited for [team]. *)
Record may_invite (team : Z) (q : BgQueue) (l : list ginfo) : Prop := {
  mi_nodup : NoDup l;
  mi_free : forall p, p ∈ l -> exists g, heap q !! p = Some g /\ Team g = team /\ invited g = false
}.

Lemma may_invite_stays team q q' l l' i :
  stays l' i q q' -> (forall p, p ∈ l -> p ∉ l') -> may_invite team q l -> may_invite team q' l.
Proof.
  intros S Hd [M1 M2]. split; [done|]. intros p Hp. destruct (M2 p Hp) as (g & Hg & H). exists g.
  by rewrite (st_heap _ _ _ _ S) by auto.
Qed.

Lemma weight_stays q q' l l' i :
  stays l' i q q' -> (forall p, p ∈ l -> p ∉ l') -> weight q' l = weight q l.
Proof.
  intros S Hd. induction l as [|p l IH]; [done|]. cbn [weight]. rewrite IH by (intros x Hx; apply Hd; by right).
  unfold size_at. rewrite (st_heap _ _ _ _ S); [done|]. apply Hd. by left.
Qed.

(** What inviting leaves true of the battleground. *)
Record filled (team : Z) (n : Z) (i : Z) (b : Battleground) (q' : BgQueue) : Prop := {
  fi_bg : exists b', bgs q' !! i = Some b' /\ same_bg b b' /\ GetInvitedCount b' team = GetInvitedCount b team + n /\
    forall team', a_team team' -> team' <> team -> GetInvitedCount b' team' = GetInvitedCount b team'
}.

Lemma invite_groups_runs new t travel w i team l b q :
  (forall guid, online w guid = true) -> a_team team ->
  consistent new t travel q -> bgs q !! i = Some b -> may_invite team q l -> GetInvitedCount b team + weight q l <= cap b ->
  runs (invite_groups w i l) q (fun _ q' => consistent new t travel q' /\ stays l i q q' /\ filled team (weight q l) i b q').
Proof.
  intros Hon Ht. revert b q. induction l as [|p l IH]; intros b q Hok Hb Hm Hroom; cbn [invite_groups].
  - plain_step. split; [done|]. split; [done|]. split. exists b. split; [done|]. split; [done|]. cbn. split; [lia|done].
  - destruct Hm as [M1 M2]. apply NoDup_cons in M1 as [Hp M1]. destruct (M2 p) as (g & Hg & Hteam & Hfree); [by left|].
    assert (size_at q p = players g) as Es by (unfold size_at; by rewrite Hg). cbn [weight] in Hroom. rewrite Es in Hroom.
    pose proof (weight_nonneg q l) as Hw. plain_step. eapply deref_group_runs; [exact Hg|]. plain_step.
    eapply runs_mono; [by apply (InviteGroupToBG_runs new t travel w p i g b q)|].
    intros ok q1 Hig. pose proof Hig as [S1 _ (b1 & Hb1 & Hsame & Hcount)].
    assert (consistent new t travel q1) as Hok1.
    { apply (invited_consistent new t travel p i g b q q1); try done. rewrite Hteam. lia. }
    assert (forall x, x ∈ l -> x ∉ [p]) as Hd by (intros x Hx ->%list_elem_of_singleton; done).
    destruct (Hcount team Ht) as [C1 _]. rewrite Hteam, Z.eqb_refl in C1.
    eapply runs_mono; [apply (IH b1 q1)|]; [done|done| | |].
    + eapply may_invite_stays; [exact S1|exact Hd|]. split; [done|]. intros x Hx. apply M2. by right.
    + rewrite (weight_stays _ _ _ _ _ S1 Hd), (same_bg_cap _ _ Hsame). lia.
    + intros [] q2 (Hok2 & S2 & [(b2 & Hb2 & Hsame2 & C2 & Hother)]). split; [done|]. split; [|split].
      * eapply bg_stays_trans; (eapply stays_more; [|eassumption]); [intros x ->%list_elem_of_singleton; by left|intros x Hx; by right].
      * exists b2. split; [done|]. split; [by eapply same_bg_trans|]. split.
        -- rewrite C2, C1, (weight_stays _ _ _ _ _ S1 Hd). cbn [weight]. rewrite Es. lia.
        -- intros team' Ht' Hne. rewrite Hother by done. destruct (Hcount team' Ht') as [-> _]. rewrite Hteam.
           rewrite (proj2 (Z.eqb_neq team' team)) by done. lia.
Qed.

Lemma team_of_team team : an_index team -> a_team (team_of team).
Proof. intros [->| ->]; [by left|by right]. Qed.

Lemma pool_may_invite src team cap q rest : pool_ok src team cap q rest -> may_invite (team_of team) q (sel team q).
Proof.
  intros [P1 P2 P3 P4 P5]. split; [by apply NoDup_app in P1 as (? & _)|]. intros p Hp.
  destruct (P2 p) as (g & Hg & Ht & _); [apply elem_of_app; by left|]. exists g. split; [done|]. split; [done|]. by eapply P3.
Qed.

Lemma invite_pools_runs new t travel src capA capH w i b q rA rH :
  (forall guid, online w guid = true) -> consistent new t travel q -> bgs q !! i = Some b ->
  pools_ok src capA capH q rA rH ->
  GetInvitedCount b ALLIANCE + count TEAM_ALLIANCE q <= cap b -> GetInvitedCount b HORDE + count TEAM_HORDE q <= cap b ->
  runs (invite_pools w i) q (fun _ q' => consistent new t travel q' /\
    stays (sel TEAM_ALLIANCE q ++ sel TEAM_HORDE q) i q q' /\ exists b', bgs q' !! i = Some b' /\ same_bg b b' /\
    GetInvitedCount b' ALLIANCE = GetInvitedCount b ALLIANCE + count TEAM_ALLIANCE q /\
    GetInvitedCount b' HORDE = GetInvitedCount b HORDE + count TEAM_HORDE q).
Proof.
  intros Hon Hok Hb [PA PH] RA RH. pose proof (pool_may_invite _ _ _ _ _ PA) as MA. pose proof (pool_may_invite _ _ _ _ _ PH) as MH.
  unfold count in *. rewrite (pk_count _ _ _ _ _ PA), (pk_count _ _ _ _ _ PH) in *.
  assert (forall x, x ∈ sel TEAM_HORDE q -> x ∉ sel TEAM_ALLIANCE q) as Hd.
  { intros x Hx Hy. destruct (mi_free _ _ _ MA x Hy) as (g & Hg & Ht & _). destruct (mi_free _ _ _ MH x Hx) as (g' & Hg' & Ht' & _).
    rewrite Hg in Hg'. injection Hg' as <-. rewrite Ht in Ht'. discriminate Ht'. }
  unfold invite_pools. plain_step. plain_step. plain_step. fold (sel TEAM_ALLIANCE q).
  eapply runs_mono; [by apply (invite_groups_runs new t travel w i ALLIANCE (sel TEAM_ALLIANCE q) b); [|left|..]|].
  intros [] q1 (Hok1 & S1 & [(b1 & Hb1 & Hs1 & C1 & O1)]). plain_step. plain_step.
  assert (SelectedGroups (pool TEAM_HORDE q1) = sel TEAM_HORDE q) as -> by (unfold sel; cbn; by rewrite (st_horde _ _ _ _ S1)).
  eapply runs_mono; [apply (invite_groups_runs new t travel w i HORDE (sel TEAM_HORDE q) b1)|].
  - done.
  - by right.
  - done.
  - done.
  - by eapply may_invite_stays.
  - rewrite (weight_stays _ _ _ _ _ S1 Hd), (same_bg_cap _ _ Hs1), O1; [lia|by right|done].
  - intros [] q2 (Hok2 & S2 & [(b2 & Hb2 & Hs2 & C2 & O2)]). split; [done|]. split.
    + eapply bg_stays_trans; (eapply stays_more; [|eassumption]); intros x Hx; apply elem_of_app; auto.
    + exists b2. split; [done|]. split; [by eapply same_bg_trans|]. split.
      * rewrite O2; [lia|by left|done].
      * rewrite C2, (weight_stays _ _ _ _ _ S1 Hd), O1; [lia|by right|done].
Qed.
