(* ===== verification/BgQueueUpdate.v ===== *)
(** * BattlegroundQueue: an update keeps the queue consistent *)

From S2P Require Import Prelude.
From S2P Require Import EventProcessor.
From S2P Require Import BattlegroundQueue.
From S2P Require Import BgQueueSpec.
From S2P Require Import BgQueueInvite.

(** ** Changes that do not matter *)

Lemma counted_heap travel q q' i b team : heap q' = heap q -> counted travel q i b team -> counted travel q' i b team.
Proof. intros E [C1 C2 C3 C4]. split; unfold invited_of; rewrite ?E; done. Qed.

Lemma consistent_core new t travel q q' :
  heap q' = heap q -> next_group q' = next_group q -> m_QueuedPlayers q' = m_QueuedPlayers q ->
  m_QueuedGroups q' = m_QueuedGroups q -> bgs q' = bgs q -> next_instance q' = next_instance q ->
  BGFreeSlotQueue q' = BGFreeSlotQueue q -> consistent new t travel q -> consistent new t travel q'.
Proof.
  intros E1 E2 E3 E4 E5 E6 E7 [G P [O1 O2 O3 O4 O5 O6 O7 O8 O9 O10] [I1 I2 I3 I4]].
  assert (forall i team, invited_of q' i team = invited_of q i team) as Ei by (intros; unfold invited_of; by rewrite E1).
  assert (free_slot_queue t q' = free_slot_queue t q) as Ef by (unfold free_slot_queue; by rewrite E7).
  split.
  - eapply groups_ok_heap; [done|done| |done]. intros p. by rewrite E1.
  - eapply players_ok_heap; [done| |done]. intros p. by rewrite E1.
  - split; rewrite ?E5, ?E6, ?Ef; try done. intros i b team Hb Ht. destruct (O1 i b team Hb Ht) as [C1 C2 C3 C4].
    split; rewrite ?Ei; done.
  - split; rewrite ?E1, ?E6; done.
Qed.

Lemma consistent_pools new t travel q q' : same_but_pools q q' -> consistent new t travel q -> consistent new t travel q'.
Proof.
  intros E. apply consistent_core.
  - exact (f_equal heap E).
  - exact (f_equal next_group E).
  - exact (f_equal m_QueuedPlayers E).
  - exact (f_equal m_QueuedGroups E).
  - exact (f_equal bgs E).
  - exact (f_equal next_instance E).
  - exact (f_equal BGFreeSlotQueue E).
Qed.

Lemma consistent_emit new t travel q o : consistent new t travel q -> consistent new t travel (emit o q).
Proof. by apply consistent_core. Qed.

(** A group in a queue is in one that exists. *)
Lemma queue_bracket q b k p : groups_ok q -> p ∈ queue q b k -> 0 <= b < 16 /\ 0 <= k < 4.
Proof.
  intros G Hp. destruct (go_place _ G p (go_alive _ G _ _ _ Hp)) as (b' & k' & Hb & Hk & Hp').
  by destruct (go_once _ G _ _ _ _ _ Hp Hp') as [-> ->].
Qed.

(** ** The free slots *)

Lemma remove_first_spec i l : NoDup l -> forall j, j ∈ remove_first i l <-> j ∈ l /\ j <> i.
Proof.
  induction l as [|x l IH]; intros Hnd j; cbn [remove_first]; [split; [by intros ?%not_elem_of_nil|by intros [?%not_elem_of_nil _]]|].
  apply NoDup_cons in Hnd as [Hx Hnd]. destruct (Z.eqb_spec i x) as [->|Hn].
  - rewrite elem_of_cons. split; [intros Hj; split; [by right|by intros ->]|by intros [[->|?] ?]].
  - rewrite !elem_of_cons, IH by done. split; [intros [->|[? ?]]; auto|intros [[->|?] ?]; auto].
Qed.

Lemma remove_first_nodup i l : NoDup l -> NoDup (remove_first i l).
Proof.
  induction l as [|x l IH]; intros Hnd; [done|]. cbn. apply NoDup_cons in Hnd as [Hx Hnd].
  destruct (i =? x); [done|]. apply NoDup_cons. split; [|by apply IH]. intros Hin.
  apply remove_first_spec in Hin as [? _]; done.
Qed.

(** A battleground changed in nothing that is counted. *)
Record same_counts (b b' : Battleground) : Prop := {
  sk_type : m_TypeID b' = m_TypeID b;
  sk_arena : m_IsArena b' = m_IsArena b;
  sk_max : m_MaxPlayersPerTeam b' = m_MaxPlayersPerTeam b;
  sk_players : m_Players b' = m_Players b;
  sk_invited : forall team, GetInvitedCount b' team = GetInvitedCount b team;
  sk_awaiting : forall team, GetAwaitingPlayers b' team = GetAwaitingPlayers b team;
  sk_inside : forall team, GetPlayersCountByTeam b' team = GetPlayersCountByTeam b team
}.

Lemma same_counts_counted travel q i b b' team : same_counts b b' -> counted travel q i b team -> counted travel q i b' team.
Proof.
  intros [K1 K2 K3 K4 K5 K6 K7] [C1 C2 C3 C4]. split; unfold inside, cap in *; by rewrite ?K2, ?K3, ?K4, ?K5, ?K6, ?K7.
Qed.

(** Such a battleground may also have moved into or out of the list of free slots, or been
    registered. *)
Record slots_changed (i : Z) (b b' : Battleground) (t : Z) (q q' : BgQueue) : Prop := {
  sc_heap : heap q' = heap q;
  sc_next_group : next_group q' = next_group q;
  sc_players : m_QueuedPlayers q' = m_QueuedPlayers q;
  sc_queues : m_QueuedGroups q' = m_QueuedGroups q;
  sc_instance : next_instance q' = next_instance q;
  sc_bgs : bgs q' = <[i := b']> (bgs q);
  sc_bg : same_counts b b';
  sc_nodup : NoDup (free_slot_queue t q');
  sc_free : forall j, j ∈ free_slot_queue t q' <-> if decide (j = i) then m_InBGFreeSlotQueue b' = true else j ∈ free_slot_queue t q;
  sc_arena : m_InBGFreeSlotQueue b' = true -> m_IsArena b = false
}.

Lemma slots_consistent new new' t travel q q' i b b' :
  consistent new t travel q -> bgs q !! i = Some b -> slots_changed i b b' t q q' ->
  (new' = new \/ new = Some i /\ new' = None /\ registered b' = true) ->
  (registered b = true -> registered b' = true) -> consistent new' t travel q'.
Proof.
  intros [G P [O1 O2 O3 O4 O5 O6 O7 O8 O9 O10] [I1 I2 I3 I4]] Hb [E1 E2 E3 E4 E5 E6 Ek Hnd Hfree Harena] Hnew Hreg.
  assert (forall j c, bgs q' !! j = Some c -> (j = i /\ c = b') \/ (j <> i /\ bgs q !! j = Some c)) as Hcases.
  { intros j c. rewrite E6. intros [[-> <-]|[? ?]]%lookup_insert_Some; auto. }
  split.
  - eapply groups_ok_heap; [done|done| |done]. intros p. by rewrite E1.
  - eapply players_ok_heap; [done| |done]. intros p. by rewrite E1.
  - split; rewrite ?E5.
    + intros j c team Hc Ht. apply (counted_heap _ q); [done|].
      destruct (Hcases _ _ Hc) as [[-> ->]|[Hn Hq]]; [|by apply O1]. eapply same_counts_counted; [exact Ek|by apply O1].
    + intros j c guid team Hc. destruct (Hcases _ _ Hc) as [[-> ->]|[Hn Hq]]; [|by eapply O2].
      rewrite (sk_players _ _ Ek). intros Hm. exact (O2 i b guid team Hb Hm).
    + intros j c Hc. destruct (Hcases _ _ Hc) as [[-> ->]|[Hn Hq]]; [rewrite (sk_type _ _ Ek)|]; by eapply O3.
    + intros j c Hc. destruct (Hcases _ _ Hc) as [[-> ->]|[Hn Hq]].
      * destruct Hnew as [->|(-> & -> & Hr)]; [|by right]. destruct (O4 i b Hb) as [|Hr]; [by left|right; auto].
      * destruct Hnew as [->|(-> & -> & Hr)]; [by eapply O4|]. destruct (O4 j c Hq) as [[= ->]|Hr']; [done|by right].
    + intros j c Hc. destruct (Hcases _ _ Hc) as [[-> ->]|[Hn Hq]]; [rewrite (sk_max _ _ Ek)|]; by eapply O5.
    + intros j [c Hc]. apply O6. destruct (Hcases _ _ Hc) as [[-> ->]|[Hn Hq]]; by eexists.
    + intros j. rewrite Hfree, E6. destruct (decide (j = i)) as [->|Hn].
      * rewrite lookup_insert_eq. split; [by exists b'|by intros (c & [= <-] & ?)].
      * rewrite lookup_insert_ne by done. apply O7.
    + intros j c Hc Hf. destruct (Hcases _ _ Hc) as [[-> ->]|[Hn Hq]]; [|by eapply O8]. rewrite (sk_arena _ _ Ek). by apply Harena.
    + done.
    + done.
  - split; rewrite ?E1, ?E5; done.
Qed.

(** Nothing changed, or the list of the battleground's own type did. *)
Lemma slots_same new t travel q i b : consistent new t travel q -> bgs q !! i = Some b -> slots_changed i b b t q q.
Proof.
  intros [_ _ Ho _] Hb. split; try done.
  - by rewrite insert_id.
  - apply Ho.
  - intros j. destruct (decide (j = i)) as [->|]; [|done]. rewrite (bo_free _ _ _ _ Ho i). split; [|by exists b].
    intros (c & Hc & Hf). congruence.
  - by eapply bo_free_arena.
Qed.

Lemma AddToBGFreeSlotQueue_runs new t travel q i b :
  consistent new t travel q -> bgs q !! i = Some b ->
  runs (AddToBGFreeSlotQueue i) q (fun _ q' => exists b', slots_changed i b b' t q q' /\ registered b' = registered b).
Proof.
  intros Hok Hb. pose proof (co_bgs _ _ _ _ Hok) as Ho. pose proof (bo_type _ _ _ _ Ho i b Hb) as Et.
  unfold AddToBGFreeSlotQueue. plain_step. eapply deref_bg_runs; [exact Hb|].
  destruct (negb _ && negb _) eqn:E; plain_step; [|exists b; split; [by eapply slots_same|done]].
  apply andb_true_iff in E as [E1%negb_true_iff E2%negb_true_iff]. exists (with_slots true (registered b) b). split; [|done].
  assert (i ∉ free_slot_queue t q) as Hni.
  { intros (c & Hc & Hf)%(bo_free _ _ _ _ Ho). congruence. }
  rewrite Et. set (q' := set_bgs _ _ _ _).
  assert (free_slot_queue t q' = i :: free_slot_queue t q) as Ef by (unfold free_slot_queue at 1; cbn; by rewrite lookup_insert_eq).
  split; rewrite ?Ef; try done.
  - apply NoDup_cons. split; [done|apply Ho].
  - intros j. rewrite elem_of_cons. destruct (decide (j = i)) as [->|Hn]; tauto.
Qed.

Lemma RemoveFromBGFreeSlotQueue_runs new t travel q i b :
  consistent new t travel q -> bgs q !! i = Some b ->
  runs (RemoveFromBGFreeSlotQueue i) q (fun _ q' => exists b', slots_changed i b b' t q q' /\
    registered b' = registered b /\ m_InBGFreeSlotQueue b' = false).
Proof.
  intros Hok Hb. pose proof (co_bgs _ _ _ _ Hok) as Ho. pose proof (bo_type _ _ _ _ Ho i b Hb) as Et.
  unfold RemoveFromBGFreeSlotQueue. plain_step. eapply deref_bg_runs; [exact Hb|].
  destruct (m_InBGFreeSlotQueue b) eqn:E; plain_step; [|exists b; split; [by eapply slots_same|done]].
  exists (with_slots false (registered b) b). split; [|done].
  rewrite Et. set (q' := set_bgs _ _ _ _).
  assert (free_slot_queue t q' = remove_first i (free_slot_queue t q)) as Ef by (unfold free_slot_queue at 1; cbn; by rewrite lookup_insert_eq).
  split; rewrite ?Ef; try done.
  - apply remove_first_nodup, Ho.
  - intros j. rewrite remove_first_spec by apply Ho. destruct (decide (j = i)) as [->|Hn]; [split; [by intros [_ []]|done]|tauto].
Qed.

(** A battleground started: from now on it is one of those the manager knows. *)
Lemma StartBattleground_runs new t travel q i b :
  consistent new t travel q -> bgs q !! i = Some b -> new = None \/ new = Some i ->
  runs (StartBattleground i) q (fun _ q' => consistent None t travel q').
Proof.
  intros Hok Hb Hnew. unfold StartBattleground. plain_step.
  eapply runs_mono; [by eapply AddToBGFreeSlotQueue_runs|]. intros [] q1 (b1 & S1 & Hreg). plain_step.
  assert (consistent new t travel q1) as Hok1 by (eapply slots_consistent; [exact Hok|exact Hb|exact S1|by left|congruence]).
  assert (bgs q1 !! i = Some b1) as Hb1 by (rewrite (sc_bgs _ _ _ _ _ _ S1); apply lookup_insert_eq).
  eapply deref_bg_runs; [exact Hb1|]. repeat plain_step. apply consistent_emit.
  eapply (slots_consistent new None t travel q1 _ i b1 (with_slots (m_InBGFreeSlotQueue b1) true b1)); [done|done| |by destruct Hnew as [->| ->]; [left|right]|done].
  pose proof (slots_same _ _ _ _ _ _ Hok1 Hb1) as [H1 H2 H3 H4 H5 H6 H7 H8 H9 H10]. by split.
Qed.

(** ** New battlegrounds *)

Definition with_new_bg (i : Z) (b : Battleground) (q : BgQueue) : BgQueue :=
  set_bgs (<[i := b]> (bgs q)) (i + 1) (BGFreeSlotQueue q) q.

(** A battleground nobody was invited to. *)
Record fresh_bg (t : Z) (tpl : Template) (b : Battleground) : Prop := {
  fb_type : m_TypeID b = t;
  fb_arena : m_IsArena b = t_IsArena tpl;
  fb_max : m_MaxPlayersPerTeam b = t_MaxPlayersPerTeam tpl;
  fb_invited : forall team, GetInvitedCount b team = 0;
  fb_awaiting : forall team, GetAwaitingPlayers b team = 0;
  fb_players : m_Players b = ∅;
  fb_inside : forall team, GetPlayersCountByTeam b team = 0;
  fb_free : m_InBGFreeSlotQueue b = false
}.

Lemma fresh_invited_of new t travel q team : consistent new t travel q -> invited_of q (next_instance q) team = 0.
Proof.
  intros [_ _ _ I]. apply total_zero. intros p g Hg. unfold invited_to.
  pose proof (io_range _ _ I p g Hg). bdestr; [lia|done].
Qed.

Lemma fresh_on_the_way new t travel q team : consistent new t travel q -> on_the_way travel (next_instance q) team = 0.
Proof.
  intros [_ _ O _]. unfold on_the_way, zlen. destruct (filter _ travel) as [|[guid [i tm]] l] eqn:E; [done|exfalso].
  assert ((guid, (i, tm)) ∈ filter (fun x => x.2 = (next_instance q, team)) travel) as Hin by (rewrite E; by left).
  apply list_elem_of_filter in Hin as [[= -> ->] Hin]. pose proof (bo_travel _ _ _ _ O _ _ _ Hin). lia.
Qed.

Lemma fresh_consistent t travel q tpl b :
  consistent None t travel q -> fresh_bg t tpl b -> 0 <= t_MaxPlayersPerTeam tpl <= group_cap ->
  consistent (Some (next_instance q)) t travel (with_new_bg (next_instance q) b q).
Proof.
  intros Hok [F1 F2 F3 F4 F5 F6 F7 F8] Hmax.
  pose proof (fun team => fresh_invited_of _ _ _ _ team Hok) as Hi. pose proof (fun team => fresh_on_the_way _ _ _ _ team Hok) as Hw.
  destruct Hok as [G P [O1 O2 O3 O4 O5 O6 O7 O8 O9 O10] [I1 I2 I3 I4]].
  assert (bgs q !! next_instance q = None) as Hnone.
  { destruct (bgs q !! next_instance q) eqn:E; [|done]. pose proof (O6 _ (ex_intro _ _ E)). lia. }
  assert (forall j c, <[next_instance q := b]> (bgs q) !! j = Some c -> (j = next_instance q /\ c = b) \/ bgs q !! j = Some c) as Hcases.
  { intros j c [[-> <-]|[? ?]]%lookup_insert_Some; auto. }
  split; [by eapply groups_ok_heap, G|by eapply players_ok_heap, P| |].
  - split; cbn.
    + intros j c team Hc Ht. destruct (Hcases j c Hc) as [[-> ->]|Hq]; [|by apply (counted_heap _ q), O1].
      split; rewrite ?F4, ?F5, ?F7; unfold inside; rewrite ?F6, ?countP_empty.
      * change (0 = invited_of q (next_instance q) team + on_the_way travel (next_instance q) team + 0).
        by rewrite Hi, Hw.
      * change (0 = u8 (invited_of q (next_instance q) team)). by rewrite Hi.
      * unfold cap. rewrite F3. unfold group_cap. destruct (m_IsArena b); lia.
      * done.
    + intros j c guid team Hc Hm. destruct (Hcases j c Hc) as [[-> ->]|Hq]; [|by eapply O2].
      by rewrite F6, lookup_empty in Hm.
    + intros j c Hc. destruct (Hcases j c Hc) as [[-> ->]|Hq]; [done|by eapply O3].
    + intros j c Hc. destruct (Hcases j c Hc) as [[-> ->]|Hq]; [by left|]. destruct (O4 j c Hq); [done|by right].
    + intros j c Hc. destruct (Hcases j c Hc) as [[-> ->]|Hq]; [by rewrite F3|by eapply O5].
    + intros j [c Hc]. destruct (Hcases j c Hc) as [[-> ->]|Hq]; [lia|]. pose proof (O6 j (ex_intro _ c Hq)). lia.
    + intros j. change (j ∈ free_slot_queue t q <-> exists c, <[next_instance q := b]> (bgs q) !! j = Some c /\ m_InBGFreeSlotQueue c = true).
      rewrite O7. split.
      * intros (c & Hc & Hf). exists c. split; [|done]. rewrite lookup_insert_ne; [done|]. intros <-. congruence.
      * intros (c & Hc & Hf). destruct (Hcases j c Hc) as [[-> ->]|Hq]; [congruence|by exists c].
    + intros j c Hc Hf. destruct (Hcases j c Hc) as [[-> ->]|Hq]; [congruence|by eapply O8].
    + done.
    + intros guid j team Hin. destruct (O10 _ _ _ Hin). split; [lia|done].
  - split; cbn; [done| |done|lia]. intros p g Hg. pose proof (I2 p g Hg). lia.
Qed.

Lemma CreateNewBattleground_runs t travel w bracket arenaType isRated q :
  consistent None t travel q -> (forall tpl, new_template w t = Some tpl -> 0 <= t_MaxPlayersPerTeam tpl <= group_cap) ->
  runs (CreateNewBattleground w t bracket arenaType isRated) q (fun r q' =>
    match r with
    | None => q' = emit OutError q
    | Some i => i = next_instance q /\ exists b tpl, q' = with_new_bg i b q /\ new_template w t = Some tpl /\
        fresh_bg t tpl b /\ consistent (Some i) t travel q'
    end).
Proof.
  intros Hok Hmax. unfold CreateNewBattleground. destruct (new_template w t) as [tpl|] eqn:Et; repeat plain_step; [|done].
  split; [done|]. eexists _, tpl. split; [reflexivity|]. split; [done|].
  assert (forall x, fresh_bg t tpl x -> consistent (Some (next_instance q)) t travel (with_new_bg (next_instance q) x q)) as Hc.
  { intros x Hx. apply (fresh_consistent _ _ _ tpl); [done|done|by apply Hmax]. }
  match goal with |- fresh_bg t tpl ?x /\ _ => assert (fresh_bg t tpl x) as Hf end.
  { split; try done; intros team; unfold GetInvitedCount, GetAwaitingPlayers, GetPlayersCountByTeam; by destruct (team =? ALLIANCE). }
  split; [done|by apply Hc].
Qed.

(** What an update relies on: the configuration is sane, nobody is offline and arenas are
    rated. *)
Record sound_world (w : World) (t : Z) (isRated : bool) : Prop := {
  sw_online : forall guid, online w guid = true;
  sw_new : forall tpl, new_template w t = Some tpl -> 0 <= t_MaxPlayersPerTeam tpl <= group_cap;
  sw_template : forall tpl tpl', bg_template w t = Some tpl -> new_template w t = Some tpl' ->
    t_IsArena tpl' = t_IsArena tpl /\ t_MaxPlayersPerTeam tpl <= t_MaxPlayersPerTeam tpl';
  sw_caps : forall tpl, bg_template w t = Some tpl ->
    0 <= t_MaxPlayersPerTeam tpl <= group_cap /\ 0 < t_MinPlayersPerTeam tpl /\ (t_IsArena tpl = true -> isRated = true)
}.

Lemma fresh_cap t tpl b : fresh_bg t tpl b -> cap b = if t_IsArena tpl then group_cap else t_MaxPlayersPerTeam tpl.
Proof. intros [F1 F2 F3 _ _ _ _ _]. unfold cap. by rewrite F2, F3. Qed.

Lemma start_new_runs t travel w bracket arenaType isRated src capA capH rA rH q :
  sound_world w t isRated -> consistent None t travel q -> pools_ok src capA capH q rA rH ->
  (forall tpl, new_template w t = Some tpl ->
    let c := if t_IsArena tpl then group_cap else t_MaxPlayersPerTeam tpl in capA <= c /\ capH <= c) ->
  runs (start_new w t bracket arenaType) q (fun _ q' => consistent None t travel q').
Proof.
  intros Hw Hok Hp Hcap. unfold start_new. plain_step.
  eapply runs_mono; [by apply (CreateNewBattleground_runs t travel); [|apply Hw]|]. intros [i|] q1.
  - intros (-> & b & tpl & -> & Ht & Hf & Hok1). plain_step. destruct (Hcap tpl Ht) as [HA HH]. set (i := next_instance q) in *.
    rewrite <- (fresh_cap _ _ _ Hf) in HA, HH. set (q1 := with_new_bg i b q) in *.
    assert (bgs q1 !! i = Some b) as Hb by apply lookup_insert_eq.
    assert (pools_ok src capA capH q1 rA rH) as Hp1.
    { destruct Hp as [PA PH]. split; by eapply pool_ok_same; [| |eassumption]. }
    pose proof (count_range _ _ _ _ _ (pp_alliance _ _ _ _ _ _ Hp1)). pose proof (count_range _ _ _ _ _ (pp_horde _ _ _ _ _ _ Hp1)).
    eapply runs_mono; [apply (invite_pools_runs (Some i) t travel src capA capH w i b q1 rA rH); [apply Hw|done|done|done| |];
      rewrite (fb_invited _ _ _ Hf); lia|].
    intros [] q2 (Hok2 & S2 & b2 & Hb2 & _). plain_step.
    eapply runs_mono; [eapply StartBattleground_runs; [exact Hok2|exact Hb2|by right]|]. intros [] q3 Hok3. by plain_step.
  - intros ->. repeat plain_step. by do 2 apply consistent_emit.
Qed.

(** What filling leaves alone, besides consistency: the queues and the battlegrounds there are. *)
Record refilled (t : Z) (travel : list (Z * (Z * Z))) (q q' : BgQueue) : Prop := {
  rf_ok : consistent None t travel q';
  rf_queues : m_QueuedGroups q' = m_QueuedGroups q;
  rf_bgs : forall j, is_Some (bgs q !! j) -> is_Some (bgs q' !! j)
}.

Lemma refilled_trans t travel q1 q2 q3 : refilled t travel q1 q2 -> refilled t travel q2 q3 -> refilled t travel q1 q3.
Proof. intros [A1 A2 A3] [B1 B2 B3]. split; [done|congruence|auto]. Qed.

Lemma no_pools_ok new t travel q : consistent new t travel q -> consistent new t travel (set_pools pool_Init pool_Init q).
Proof. by apply consistent_pools. Qed.

Lemma fill_running_runs t travel fuel w bracket i isRated q :
  sound_world w t isRated -> consistent None t travel q -> is_Some (bgs q !! i) ->
  (2 * (length (queue q bracket BG_QUEUE_NORMAL_ALLIANCE) + length (queue q bracket BG_QUEUE_NORMAL_HORDE)) <= fuel)%nat ->
  runs (fill_running fuel w t bracket i) q (fun _ q' => refilled t travel q q').
Proof.
  intros Hw Hok [b Hb] Hf. unfold fill_running. plain_step. eapply deref_bg_runs; [exact Hb|].
  destruct (negb (m_IsRated b) && _ && _ && _ && _); [|by plain_step]. plain_step. plain_step. plain_step.
  set (q1 := set_pools _ _ q). assert (consistent None t travel q1) as Hok1 by by apply no_pools_ok.
  eapply runs_mono; [by eapply (FillPlayersToBG_runs None t travel)|]. intros [] q2 ([E2 (rA & rH & P2)] & _). plain_step.
  assert (consistent None t travel q2) as Hok2 by (by eapply consistent_pools).
  assert (bgs q2 !! i = Some b) as Hb2 by (by rewrite (same_bgs _ _ E2)).
  pose proof (count_range _ _ _ _ _ (pp_alliance _ _ _ _ _ _ P2)). pose proof (count_range _ _ _ _ _ (pp_horde _ _ _ _ _ _ P2)).
  pose proof (bo_small _ _ _ _ (co_bgs _ _ _ _ Hok) i b Hb) as Hsm.
  assert (forall team, a_team team -> GetInvitedCount b team + GetFreeSlotsForTeam b team <= cap b) as Hroom.
  { intros team Ht. pose proof (bo_counted _ _ _ _ (co_bgs _ _ _ _ Hok) i b team Hb Ht) as C.
    pose proof (counted_nonneg _ _ _ _ _ C) as Hnn. pose proof (GetFreeSlotsForTeam_range b team Hnn ltac:(lia)).
    pose proof (ct_cap _ _ _ _ _ C). assert (m_MaxPlayersPerTeam b <= cap b); [|lia]. unfold cap. destruct (m_IsArena b); lia. }
  pose proof (Hroom ALLIANCE (or_introl eq_refl)). pose proof (Hroom HORDE (or_intror eq_refl)).
  eapply runs_mono; [eapply (invite_pools_runs None t travel _ _ _ w i b q2 rA rH); [apply Hw|done|done|exact P2|lia|lia]|].
  intros [] q3 (Hok3 & S3 & b3 & Hb3 & _). plain_step. eapply deref_bg_runs; [exact Hb3|].
  assert (refilled t travel q q3) as R3.
  { split; [done|by rewrite (st_queues _ _ _ _ S3), (f_equal m_QueuedGroups E2 : m_QueuedGroups q2 = m_QueuedGroups q)|].
    intros j Hj. destruct (decide (j = i)) as [->|Hn]; [by exists b3|]. rewrite (st_bgs _ _ _ _ S3) by done. by rewrite (same_bgs _ _ E2). }
  destruct (negb (HasFreeSlots b3)); [|by plain_step].
  eapply runs_mono; [by eapply RemoveFromBGFreeSlotQueue_runs|]. intros [] q4 (b4 & S4 & Hr & _).
  eapply refilled_trans; [exact R3|]. split.
  - eapply slots_consistent; [exact Hok3|exact Hb3|exact S4|by left|congruence].
  - apply S4.
  - intros j Hj. rewrite (sc_bgs _ _ _ _ _ _ S4). apply lookup_insert_is_Some'. by right.
Qed.

Lemma fill_all_runs t travel fuel w bracket isRated l q :
  sound_world w t isRated -> consistent None t travel q -> (forall i, i ∈ l -> is_Some (bgs q !! i)) ->
  (2 * (length (queue q bracket BG_QUEUE_NORMAL_ALLIANCE) + length (queue q bracket BG_QUEUE_NORMAL_HORDE)) <= fuel)%nat ->
  runs (mapM_ (fill_running fuel w t bracket) l) q (fun _ q' => refilled t travel q q').
Proof.
  intros Hw. revert q. induction l as [|i l IH]; intros q Hok Hl Hf; cbn [mapM_]; [by plain_step|]. plain_step.
  eapply runs_mono; [by eapply fill_running_runs; [exact Hw|exact Hok|apply Hl; left|exact Hf]|].
  intros [] q1 R1. eapply runs_mono; [apply (IH q1)|].
  - apply R1.
  - intros j Hj. apply (rf_bgs _ _ _ _ R1), Hl. by right.
  - unfold queue. by rewrite (rf_queues _ _ _ _ R1).
  - intros [] q2 R2. by eapply refilled_trans.
Qed.
