(* ===== verification/BgQueueMatch.v ===== *)
(** * BattlegroundQueue: the matches an update looks for

    Premade and normal matches, rated arenas, and the whole of an update. *)

From S2P Require Import Prelude.
From S2P Require Import EventProcessor.
From S2P Require Import BattlegroundQueue.
From S2P Require Import BgQueueSpec.
From S2P Require Import BgQueueInvite.
From S2P Require Import BgQueueUpdate.

(** ** Filling the pools *)

Section Filling.
Context (src : Z -> list ginfo).

Lemma start_pool_ok team cap q l :
  an_index team -> players_ok q -> no_pools q -> 0 <= cap -> NoDup l ->
  (forall p, p ∈ l -> exists g, heap q !! p = Some g /\ Team g = team_of team /\ p ∈ src team) ->
  pool_ok src team cap q l.
Proof.
  intros Hi Hp [N1 N2] Hc Hnd Hl. assert (pool team q = pool_Init) as E by (destruct Hi as [->| ->]; done).
  split; unfold sel; rewrite E; cbn; [done| | |done|done].
  - intros p Hin. destruct (Hl p Hin) as (g & Hg & Ht & Hs). exists g. split; [done|]. split; [done|]. split; [by eapply players_pos|done].
  - intros p g Hin. inversion Hin.
Qed.

Lemma pool_step_skip team cap p rest q q' : pool_step src team cap (p :: rest) q q' -> pool_step src team cap rest q q'.
Proof. intros [S1 S2 S3]. split; [done|done|by eapply pool_ok_skip]. Qed.

Lemma pool_step_drop team cap rest rest' q q' :
  rest' `suffix_of` rest -> pool_step src team cap rest q q' -> pool_step src team cap rest' q q'.
Proof. intros Hs [S1 S2 S3]. split; [done|done|by eapply pool_ok_rest]. Qed.

Lemma pool_step_refl team cap rest q : pool_ok src team cap q rest -> pool_step src team cap rest q q.
Proof. by split. Qed.

(** The group is looked at, whether it is taken or not. *)
Lemma pool_AddGroup_past team p rest desired cap q :
  an_index team -> desired <= cap < 2 ^ 32 -> pool_ok src team cap q (p :: rest) ->
  runs (pool_AddGroup team p desired) q (fun _ q' => pool_step src team cap rest q q').
Proof.
  intros Hi Hd Hp. eapply runs_mono; [by apply (pool_AddGroup_runs src team p rest desired cap)|].
  intros more q' (Hs & _). destruct more; [done|by eapply pool_step_skip].
Qed.

Lemma fill_up_runs team l desired cap q :
  an_index team -> desired <= cap < 2 ^ 32 -> pool_ok src team cap q l ->
  runs (fill_up team l desired) q (fun _ q' => pool_step src team cap [] q q').
Proof.
  intros Hi Hd. revert q. induction l as [|p l IH]; intros q Hp; cbn [fill_up]; [plain_step; by apply pool_step_refl|].
  destruct (pk_alive _ _ _ _ _ Hp p) as (g & Hg & _); [apply elem_of_app; right; by left|].
  plain_step. eapply deref_group_runs; [exact Hg|]. destruct (invited g); [by apply IH; eapply pool_ok_skip|].
  plain_step. eapply runs_mono; [by apply (pool_AddGroup_past team p l desired cap)|]. intros more q1 S1.
  destruct more; [|plain_step; eapply pool_step_drop, S1; apply suffix_nil].
  eapply runs_mono; [by apply IH, S1|]. intros [] q2 S2. by eapply pool_step_trans.
Qed.

(** The group the iterator stays on may be in the pool; those behind it are not.  At the
    end of the queue there were not enough. *)
Lemma fill_to_runs team l minPlayers cap q :
  an_index team -> cap < 2 ^ 32 -> pool_ok src team cap q l -> count team q < minPlayers ->
  runs (fill_to team l minPlayers cap) q (fun l' q' => pool_step src team cap (tail l') q q' /\
    (l' = [] -> count team q' < minPlayers)).
Proof.
  intros Hi Hd. revert q. induction l as [|p l IH]; intros q Hp Hlt; cbn [fill_to].
  { plain_step. split; [by apply pool_step_refl|done]. }
  destruct (pk_alive _ _ _ _ _ Hp p) as (g & Hg & _); [apply elem_of_app; right; by left|].
  plain_step. eapply deref_group_runs; [exact Hg|]. destruct (invited g); [apply IH; [by eapply pool_ok_skip|done]|].
  plain_step. eapply runs_mono; [apply (pool_AddGroup_past team p l cap cap); [done|lia|done]|]. intros more q1 S1.
  plain_step. plain_step. destruct (Z.leb_spec minPlayers (PlayerCount (pool team q1))) as [Hle|Hgt].
  - plain_step. split; [done|discriminate].
  - eapply runs_mono; [by apply IH; [apply S1|]|]. intros l' q2 (S2 & H). split; [eapply pool_step_trans; [exact S1|exact S2]|done].
Qed.
End Filling.

Lemma first_waiting_runs l q :
  (forall p, p ∈ l -> is_Some (heap q !! p)) ->
  runs (first_waiting l) q (fun r q' => q' = q /\ forall p, r = Some p -> p ∈ l).
Proof.
  induction l as [|p l IH]; intros Hl; cbn [first_waiting]; [by plain_step|].
  destruct (Hl p) as [g Hg]; [by left|]. plain_step. eapply deref_group_runs; [exact Hg|]. destruct (invited g).
  - eapply runs_mono; [apply IH; intros x Hx; apply Hl; by right|]. intros r q' [-> Hr]. split; [done|]. intros x Hx. right. by apply Hr.
  - plain_step. split; [done|]. intros x [= <-]. by left.
Qed.

(** ** Groups that change queues *)

Definition place : Type := Z * Z.

(** The group [p] went from one queue to the front of another, of the side of [team]. *)
Record moved (p : ginfo) (from to : place) (l1 l2 : list ginfo) (q q' : BgQueue) : Prop := {
  mv_from : queue q from.1 from.2 = l1 ++ p :: l2;
  mv_queues : forall b k, queue q' b k =
    if decide ((b, k) = from) then l1 ++ l2 else if decide ((b, k) = to) then p :: queue q b k else queue q b k;
  mv_players : m_QueuedPlayers q' = m_QueuedPlayers q;
  mv_next : next_group q' = next_group q;
  mv_bgs : bgs q' = bgs q;
  mv_instance : next_instance q' = next_instance q;
  mv_free : BGFreeSlotQueue q' = BGFreeSlotQueue q;
  mv_pools : no_pools q -> no_pools q';
  mv_heap : exists g, heap q !! p = Some g /\ invited g = false /\ heap q' = <[p := with_Team (side to.2) g]> (heap q)
}.

Lemma moved_groups p from to l1 l2 q q' :
  moved p from to l1 l2 q q' -> from <> to -> 0 <= to.1 < 16 -> 0 <= to.2 < 4 -> groups_ok q -> groups_ok q'.
Proof.
  intros [M1 M2 M3 M4 _ _ _ _ (g & Hg & _ & Eh)] Hne Hb Hk [G1 G2 G3 G4 G5 G6 G7].
  assert (forall x, is_Some (heap q' !! x) <-> is_Some (heap q !! x)) as Hs.
  { intros x. rewrite Eh, lookup_insert_is_Some'. split; [intros [<-|]; [by eexists|done]|by right]. }
  assert (p ∈ queue q from.1 from.2) as Hp by (rewrite M1; apply elem_of_app; right; by left).
  assert (NoDup (l1 ++ p :: l2)) as Hnd by (rewrite <- M1; apply G4).
  assert (p ∉ l1 ++ l2) as Hni.
  { apply NoDup_app in Hnd as (_ & H1 & H2). apply NoDup_cons in H2 as [H2 _]. intros [Hx|Hx]%elem_of_app; [|done].
    apply (H1 p Hx). by left. }
  (* where a group is afterwards *)
  assert (forall b k x, x ∈ queue q' b k <-> (x = p /\ (b, k) = to) \/ (x <> p /\ x ∈ queue q b k)) as Hin.
  { intros b k x. rewrite M2. destruct (decide ((b, k) = from)) as [E|E].
    - subst from. cbn in M1. rewrite M1. rewrite !elem_of_app, elem_of_cons. split.
      + intros Hx. right. split; [intros ->; apply Hni, elem_of_app, Hx|tauto].
      + intros [[-> E2]|[Hx [?|[?|?]]]]; [by rewrite E2 in Hne|by left|done|by right].
    - assert (p ∉ queue q b k) as Hnq.
      { intros Hx. destruct (G3 _ _ _ _ _ Hx Hp) as [-> ->]. by destruct from. }
      destruct (decide ((b, k) = to)) as [E2|E2].
      + rewrite elem_of_cons. split; [intros [->|Hx]; [by left|right; split; [by intros ->|done]]|intros [[-> _]|[_ Hx]]; [by left|by right]].
      + split; [intros Hx; right; split; [by intros ->|done]|by intros [[_ ?]|[_ Hx]]]. }
  split.
  - intros b k x. rewrite Hin, Hs. intros [[-> _]|[_ Hx]]; [by eexists|by eapply G1].
  - intros x. rewrite Hs. intros Hx. destruct (decide (x = p)) as [->|Hn].
    + exists to.1, to.2. split; [done|]. split; [done|]. apply Hin. left. by destruct to.
    + destruct (G2 x Hx) as (b & k & ? & ? & Hq). exists b, k. split; [done|]. split; [done|]. apply Hin. by right.
  - intros b k b' k' x [[-> E1]|[Hx Hq]]%Hin [[E0 E2]|[Hx' Hq']]%Hin; [|done|done|by eapply G3]. rewrite <- E2 in E1. by injection E1.
  - intros b k. rewrite M2. destruct (decide ((b, k) = from)) as [E|E].
    + apply NoDup_app in Hnd as (H1 & H2 & H3). apply NoDup_cons in H3 as [_ H3]. apply NoDup_app. split; [done|].
      split; [|done]. intros x Hx Hy. apply (H2 x Hx). by right.
    + destruct (decide ((b, k) = to)) as [E2|E2]; [|apply G4]. apply NoDup_cons. split; [|apply G4].
      intros Hx. destruct (G3 _ _ _ _ _ Hx Hp) as [-> ->]. by destruct from.
  - intros b k x gx. rewrite Hin, Eh. intros [[-> E]|[Hx Hq]] Hgx.
    + rewrite lookup_insert_eq in Hgx. injection Hgx as <-. by rewrite <- E.
    + rewrite lookup_insert_ne in Hgx by done. by eapply G5.
  - intros x. rewrite Hs, M4. apply G6.
  - by rewrite M4.
Qed.

Lemma moved_consistent new t travel p from to l1 l2 q q' :
  moved p from to l1 l2 q q' -> from <> to -> 0 <= to.1 < 16 -> 0 <= to.2 < 4 ->
  consistent new t travel q -> consistent new t travel q'.
Proof.
  intros M Hne Hb Hk [G P [O1 O2 O3 O4 O5 O6 O7 O8 O9 O10] [I1 I2 I3 I4]].
  pose proof (moved_groups _ _ _ _ _ _ _ M Hne Hb Hk G) as G'. destruct M as [M1 M2 M3 M4 M5 M6 M7 M8 (g & Hg & Hfree & Eh)].
  assert (IsInvitedToBGInstanceGUID g = 0) as Hz by (unfold invited in Hfree; by apply negb_false_iff, Z.eqb_eq in Hfree).
  assert (free_slot_queue t q' = free_slot_queue t q) as Ef by (unfold free_slot_queue; by rewrite M7).
  assert (forall x gx, heap q' !! x = Some gx -> exists g0, heap q !! x = Some g0 /\ (gx = g0 \/ gx = with_Team (side to.2) g0)) as Hback.
  { intros x gx. rewrite Eh. intros [[-> <-]|[_ Hx]]%lookup_insert_Some; eauto. }
  split; [done| | |].
  - eapply players_ok_heap, P; [done|]. intros x. rewrite Eh. destruct (decide (x = p)) as [->|Hn].
    + by rewrite lookup_insert_eq, Hg.
    + by rewrite lookup_insert_ne.
  - split; rewrite ?M5, ?M6, ?Ef; try done. intros i b team Hbi Ht. destruct (O1 i b team Hbi Ht) as [C1 C2 C3 C4].
    assert (invited_of q' i team = invited_of q i team) as Ei; [|by split; rewrite ?Ei].
    unfold invited_of. rewrite Eh, (total_update _ _ p g) by done. unfold invited_to at 2 3. cbn. rewrite Hz.
    pose proof (O6 i (ex_intro _ b Hbi)). rewrite (proj2 (Z.eqb_neq 0 i)) by lia. cbn. lia.
  - split; rewrite ?M6; try done; intros x gx Hx; destruct (Hback _ _ Hx) as (g0 & Hg0 & [->| ->]);
      [by eapply I1|exact (I1 _ _ Hg0)|by eapply I2|exact (I2 _ _ Hg0)|by eapply I3|exact (I3 _ _ Hg0)].
Qed.

(** ** Premade matches *)

Lemma move_premade_runs new t travel bracket i time_before minPlayers q :
  an_index i -> consistent new t travel q -> no_pools q ->
  runs (move_premade bracket i time_before minPlayers) q (fun _ q' => consistent new t travel q' /\ no_pools q').
Proof.
  intros Hi Hok Hn. pose proof (co_groups _ _ _ _ Hok) as G. unfold move_premade. plain_step. plain_step.
  destruct (queue q bracket (BG_QUEUE_PREMADE_ALLIANCE + i)) as [|p rest] eqn:E; [by plain_step|].
  assert (p ∈ queue q bracket (BG_QUEUE_PREMADE_ALLIANCE + i)) as Hp by (rewrite E; by left).
  destruct (go_alive _ G _ _ _ Hp) as [g Hg]. destruct (queue_bracket _ _ _ _ G Hp) as [Hb _].
  plain_step. eapply deref_group_runs; [exact Hg|]. destruct (negb (invited g) && _) eqn:Ec; [|by plain_step].
  apply andb_true_iff in Ec as [Hfree%negb_true_iff _]. repeat plain_step. set (q' := put_queue _ _ _ _).
  assert (moved p (bracket, BG_QUEUE_PREMADE_ALLIANCE + i) (bracket, BG_QUEUE_NORMAL_ALLIANCE + i) [] rest q q') as M.
  { split; try done.
    - intros b k. unfold q'. rewrite !queue_put. destruct (decide ((b, k) = (bracket, BG_QUEUE_PREMADE_ALLIANCE + i))); [done|].
      destruct (decide _) as [[= -> ->]|]; done.
    - exists g. split; [done|]. split; [done|]. cbn. rewrite insert_id; [done|]. rewrite Hg. f_equal.
      pose proof (go_side _ G _ _ _ _ Hp Hg) as Ht. destruct g. cbn in *. unfold with_Team. cbn. f_equal. rewrite Ht.
      by destruct Hi as [->| ->]. }
  split; [|by apply (mv_pools _ _ _ _ _ _ _ M)]. eapply moved_consistent; [exact M| |done| |done].
  - intros [= H]. destruct Hi as [->| ->]; discriminate.
  - cbn. destruct Hi as [->| ->]; done.
Qed.

Definition premade (team : Z) : Z := BG_QUEUE_PREMADE_ALLIANCE + team.
Definition premade_src (q : BgQueue) (bracket team : Z) : list ginfo :=
  queue q bracket (premade team) ++ queue q bracket (normal team).

Lemma premade_pool_ok team cap q bracket p :
  an_index team -> groups_ok q -> players_ok q -> no_pools q -> 0 <= cap -> p ∈ queue q bracket (premade team) ->
  pool_ok (premade_src q bracket) team cap q (p :: queue q bracket (normal team)).
Proof.
  intros Hi G P Hn Hc Hp. apply start_pool_ok; try done.
  - apply NoDup_cons. split; [|apply G]. intros Hp'. destruct (go_once _ G _ _ _ _ _ Hp Hp') as [_ E].
    destruct Hi as [->| ->]; discriminate E.
  - assert (side (premade team) = team_of team /\ side (normal team) = team_of team) as [S1 S2] by (by destruct Hi as [->| ->]).
    intros x [->|Hx]%elem_of_cons.
    + destruct (go_alive _ G _ _ _ Hp) as [g Hg]. exists g. split; [done|]. split; [by rewrite (go_side _ G _ _ _ _ Hp Hg)|].
      apply elem_of_app. by left.
    + destruct (go_alive _ G _ _ _ Hx) as [g Hg]. exists g. split; [done|]. split; [by rewrite (go_side _ G _ _ _ _ Hx Hg)|].
      apply elem_of_app. by right.
Qed.

Lemma CheckPremadeMatch_runs t travel w bracket minPlayers maxPlayers q :
  0 <= maxPlayers < 2 ^ 32 -> consistent None t travel q -> no_pools q ->
  runs (CheckPremadeMatch w bracket minPlayers maxPlayers) q (fun r q' => consistent None t travel q' /\
    if r then exists src rA rH, pools_ok src maxPlayers maxPlayers q' rA rH else no_pools q').
Proof.
  intros Hmax Hok Hn. pose proof (co_groups _ _ _ _ Hok) as G. pose proof (co_players _ _ _ _ Hok) as P.
  unfold CheckPremadeMatch. plain_step. plain_step. plain_step.
  eapply runs_mono; [apply first_waiting_runs; intros p; apply G|]. intros ra q0 [-> HA]. plain_step.
  eapply runs_mono; [apply first_waiting_runs; intros p; apply G|]. intros rh q0 [-> HH].
  assert (runs (move_premade bracket TEAM_ALLIANCE (u32 (now w - premade_wait w)) minPlayers ;;
    move_premade bracket TEAM_HORDE (u32 (now w - premade_wait w)) minPlayers ;; mret false) q
    (fun (r : bool) q' => consistent None t travel q' /\ if r then exists src rA rH, pools_ok src maxPlayers maxPlayers q' rA rH else no_pools q')) as Hmove.
  { plain_step. eapply runs_mono; [by apply (move_premade_runs None t travel); [left|..]|]. intros [] q1 [Hok1 N1]. plain_step.
    eapply runs_mono; [by apply (move_premade_runs None t travel); [right|..]|]. intros [] q2 [Hok2 N2]. by plain_step. }
  destruct ra as [a|]; [|exact Hmove]. destruct rh as [h|]; [|exact Hmove]. clear Hmove. plain_step. set (src := premade_src q bracket).
  assert (pools_ok src maxPlayers maxPlayers q (a :: queue q bracket (normal TEAM_ALLIANCE)) (h :: queue q bracket (normal TEAM_HORDE))) as P0.
  { split; apply premade_pool_ok; try done; [by left|lia|by apply HA|by right|lia|by apply HH]. }
  eapply runs_mono; [eapply (pool_AddGroup_past src TEAM_ALLIANCE a _ maxPlayers); [by left|split; [reflexivity|apply Hmax]|apply P0]|].
  intros ok1 q1 S1. pose proof (pools_step_alliance src _ _ _ _ _ _ _ P0 S1) as P1. plain_step.
  eapply runs_mono; [eapply (pool_AddGroup_past src TEAM_HORDE h _ maxPlayers); [by right|split; [reflexivity|apply Hmax]|apply P1]|].
  intros ok2 q2 S2. pose proof (pools_step_horde src _ _ _ _ _ _ _ P1 S2) as P2.
  assert (same_but_pools q q2) as E2 by (eapply same_trans; [apply S1|apply S2]). plain_step. plain_step. plain_step.
  set (m := Z.min _ _).
  assert (m <= maxPlayers) as Hm by (pose proof (pk_cap _ _ _ _ _ (pp_alliance _ _ _ _ _ _ P2)); lia).
  rewrite (same_queue q q2 bracket BG_QUEUE_NORMAL_ALLIANCE E2).
  eapply runs_mono; [eapply (fill_up_runs src TEAM_ALLIANCE _ m maxPlayers); [by left|lia|apply P2]|].
  intros [] q3 S3. pose proof (pools_step_alliance src _ _ _ _ _ _ _ P2 S3) as P3. plain_step.
  rewrite (same_queue q q2 bracket BG_QUEUE_NORMAL_HORDE E2).
  eapply runs_mono; [eapply (fill_up_runs src TEAM_HORDE _ m maxPlayers); [by right|lia|apply P3]|].
  intros [] q4 S4. pose proof (pools_step_horde src _ _ _ _ _ _ _ P3 S4) as P4. plain_step. split; [|eauto].
  eapply consistent_pools, Hok. eapply same_trans; [exact E2|]. eapply same_trans; [apply S3|apply S4].
Qed.

(** ** Normal matches *)

Lemma CheckNormalMatch_runs t travel w is_arena bracket minPlayers maxPlayers q :
  0 <= maxPlayers < 2 ^ 32 -> 0 < minPlayers -> consistent None t travel q -> no_pools q ->
  runs (CheckNormalMatch w is_arena bracket minPlayers maxPlayers) q (fun _ q' => consistent None t travel q' /\
    exists src rA rH, pools_ok src maxPlayers maxPlayers q' rA rH).
Proof.
  intros Hmax Hmin Hok Hn. pose proof (co_groups _ _ _ _ Hok) as G. pose proof (co_players _ _ _ _ Hok) as P.
  unfold CheckNormalMatch. plain_step. plain_step. plain_step. set (src := fun team => queue q bracket (normal team)).
  assert (pools_ok src maxPlayers maxPlayers q (src TEAM_ALLIANCE) (src TEAM_HORDE)) as P0.
  { split; apply init_pool_ok; try done; [by left|lia|by right|lia]. }
  assert (count TEAM_ALLIANCE q = 0 /\ count TEAM_HORDE q = 0) as [C1 C2].
  { destruct Hn as [N1 N2]. unfold count. cbn. by rewrite N1, N2. }
  eapply runs_mono; [eapply (fill_to_runs src TEAM_ALLIANCE _ minPlayers maxPlayers); [by left|lia|apply P0|lia]|].
  intros la q1 (S1 & L1). pose proof (pools_step_alliance src _ _ _ _ _ _ _ P0 S1) as P1. plain_step.
  assert (count TEAM_HORDE q1 = 0) as C2' by exact (eq_trans (f_equal PlayerCount (ps_other _ _ _ _ _ _ S1)) C2).
  eapply runs_mono; [eapply (fill_to_runs src TEAM_HORDE _ minPlayers maxPlayers); [by right|lia|apply P1|lia]|].
  intros lh q2 (S2 & L2). pose proof (pools_step_horde src _ _ _ _ _ _ _ P1 S2) as P2.
  assert (count TEAM_ALLIANCE q2 = count TEAM_ALLIANCE q1) as EA by (unfold count; exact (f_equal PlayerCount (ps_other _ _ _ _ _ _ S2))).
  assert (same_but_pools q q2) as E2 by (eapply same_trans; [apply S1|apply S2]). plain_step. plain_step.
  fold (count TEAM_ALLIANCE q2) (count TEAM_HORDE q2). plain_step.
  pose proof (count_range _ _ _ _ _ (pp_alliance _ _ _ _ _ _ P2)) as RA. pose proof (count_range _ _ _ _ _ (pp_horde _ _ _ _ _ _ P2)) as RH.
  apply (runs_mono _ _ (fun _ q3 => same_but_pools q q3 /\ exists rA rH, pools_ok src maxPlayers maxPlayers q3 rA rH)).
  - destruct (negb (invitation_type w =? 0) && _ && _) eqn:Ec; [|plain_step; eauto].
    apply andb_true_iff in Ec as [[_ H1%Z.leb_le]%andb_true_iff H2%Z.leb_le].
    destruct (Z.ltb_spec (count TEAM_HORDE q2) (count TEAM_ALLIANCE q2)).
    + change (TEAM_HORDE =? TEAM_ALLIANCE) with false. cbv iota. destruct lh as [|p rest]; [specialize (L2 eq_refl); lia|].
      plain_step. eapply runs_mono; [eapply (fill_up_runs src TEAM_HORDE rest (count TEAM_ALLIANCE q2) maxPlayers); [by right|lia|apply P2]|].
      intros [] q3 S3. repeat plain_step. split; [eapply same_trans; [exact E2|apply S3]|].
      pose proof (pools_step_horde src _ _ _ _ _ _ _ P2 S3). eauto.
    + change (TEAM_ALLIANCE =? TEAM_ALLIANCE) with true. cbv iota. destruct la as [|p rest]; [specialize (L1 eq_refl); lia|].
      plain_step. eapply runs_mono; [eapply (fill_up_runs src TEAM_ALLIANCE rest (count TEAM_HORDE q2) maxPlayers); [by left|lia|apply P2]|].
      intros [] q3 S3. repeat plain_step. split; [eapply same_trans; [exact E2|apply S3]|].
      pose proof (pools_step_alliance src _ _ _ _ _ _ _ P2 S3). eauto.
  - intros unbalanced q3 (E3 & HP). assert (consistent None t travel q3) as Hok3 by (by eapply consistent_pools).
    destruct unbalanced; [plain_step; eauto|]. plain_step. plain_step. destruct (is_testing w && _ && _); plain_step; eauto 6.
Qed.
