(* ===== verification/BgQueueRated.v ===== *)
(** * BattlegroundQueue: rated arenas, and the whole of an update

    Two teams that may fight each other are found in the premade queues; if both wait on
    one side, one of them changes sides first. *)

From S2P Require Import Prelude.
From S2P Require Import EventProcessor.
From S2P Require Import BattlegroundQueue.
From S2P Require Import BgQueueSpec.
From S2P Require Import BgQueueInvite.
From S2P Require Import BgQueueUpdate.
From S2P Require Import BgQueueMatch.

(** ** Groups and battlegrounds rewritten in place *)

(** A group changed in nothing the invariant reads. *)
Record same_group (g g' : GroupQueueInfo) : Prop := {
  sg_players : Players g' = Players g;
  sg_team : Team g' = Team g;
  sg_type : BgTypeId g' = BgTypeId g;
  sg_invite : IsInvitedToBGInstanceGUID g' = IsInvitedToBGInstanceGUID g
}.

Lemma same_group_consistent new t travel p g g' q :
  heap q !! p = Some g -> same_group g g' -> consistent new t travel q -> consistent new t travel (put_group p g' q).
Proof.
  intros Hg [S1 S2 S3 S4] [G P [O1 O2 O3 O4 O5 O6 O7 O8 O9 O10] [I1 I2 I3 I4]].
  assert (forall A (f : GroupQueueInfo -> A), f g' = f g -> forall x, f <$> heap (put_group p g' q) !! x = f <$> heap q !! x) as Hf.
  { intros A f E x. cbn. destruct (decide (x = p)) as [->|Hn]; [rewrite lookup_insert_eq, Hg; cbn; by rewrite E|by rewrite lookup_insert_ne]. }
  assert (forall x gx, heap (put_group p g' q) !! x = Some gx -> exists g0, heap q !! x = Some g0 /\ same_group g0 gx) as Hback.
  { intros x gx. cbn. intros [[-> <-]|[_ Hx]]%lookup_insert_Some; [by exists g|by exists gx]. }
  split.
  - eapply groups_ok_heap, G; [done|done|]. by apply Hf.
  - eapply players_ok_heap, P; [done|]. by apply Hf.
  - split; try done. intros i b team Hb Ht. destruct (O1 i b team Hb Ht) as [C1 C2 C3 C4].
    assert (invited_of (put_group p g' q) i team = invited_of q i team) as Ei; [|by split; rewrite ?Ei].
    unfold invited_of. cbn. rewrite (total_update _ _ p g) by done. unfold invited_to, players. rewrite S1, S2, S4. lia.
  - split; try done; intros x gx Hx; destruct (Hback _ _ Hx) as (g0 & Hg0 & [E1 E2 E3 E4]).
    + rewrite E3. by eapply I1.
    + rewrite E4. by apply (I2 x).
    + unfold players. rewrite E1. by apply (I3 x).
Qed.

(** The memory cell of a group does not matter to inviting another one, nor its own before. *)
Lemma invited_group_frame p x i g gx b q q' :
  p <> x -> invited_group p i g b q q' -> invited_group p i g b (put_group x gx q) (put_group x gx q').
Proof.
  intros Hn [[A1 A2 A3 A4 A5 A6 A7 A8 A9] [r Hr] Hb]. split; [split; try done|exists r|exact Hb].
  - intros y Hy. cbn. destruct (decide (y = x)) as [->|Hne]; [by rewrite !lookup_insert_eq|].
    rewrite !lookup_insert_ne by done. by apply A8.
  - cbn. by rewrite lookup_insert_ne.
Qed.

Lemma invited_group_own p i g g0 b q q' : invited_group p i g b q q' -> invited_group p i g b (put_group p g0 q) q'.
Proof.
  intros [[A1 A2 A3 A4 A5 A6 A7 A8 A9] [r Hr] Hb]. split; [split; try done|by exists r|exact Hb].
  intros y Hy. cbn. rewrite lookup_insert_ne; [by apply A8|]. intros ->. apply Hy. by left.
Qed.

Lemma put_bg_consistent new t travel i b b' q :
  consistent new t travel q -> bgs q !! i = Some b -> same_counts b b' -> registered b' = registered b ->
  m_InBGFreeSlotQueue b' = m_InBGFreeSlotQueue b -> consistent new t travel (put_bg i b' q).
Proof.
  intros Hok Hb Hs Hr Hf. eapply (slots_consistent new new t travel q _ i b b'); [done|done| |by left|congruence].
  pose proof (slots_same _ _ _ _ _ _ Hok Hb) as [H1 H2 H3 H4 H5 H6 H7 H8 H9 H10]. split; try done.
  - intros j. rewrite Hf. apply H9.
  - rewrite Hf. apply H10.
Qed.

(** ** Finding two teams *)

(** A group of a list, and where in the list it is. *)
Record found (q : BgQueue) (not_team : option Z) (l : list ginfo) (k n : nat) (p : ginfo) : Prop := {
  fd_place : exists m, n = (k + m)%nat /\ l !! m = Some p;
  fd_group : exists g, heap q !! p = Some g /\ invited g = false /\ forall tm, not_team = Some tm -> tm <> ArenaTeamId g
}.

Lemma find_team_runs lo hi dt not_team l k q :
  (forall p, p ∈ l -> is_Some (heap q !! p)) ->
  runs (find_team lo hi dt not_team l k) q (fun r q' => q' = q /\ forall n p, r = Some (n, p) -> found q not_team l k n p).
Proof.
  revert k. induction l as [|p l IH]; intros k Hl; cbn [find_team]; [by plain_step|].
  destruct (Hl p) as [g Hg]; [by left|]. plain_step. eapply deref_group_runs; [exact Hg|].
  destruct (negb (invited g) && _ && _) eqn:E.
  - apply andb_true_iff in E as [[E1%negb_true_iff _]%andb_true_iff E2]. plain_step. split; [done|]. intros n x [= <- <-].
    split; [exists 0%nat; split; [lia|done]|]. exists g. split; [done|]. split; [done|]. intros tm ->.
    by apply negb_true_iff, Z.eqb_neq in E2.
  - eapply runs_mono; [apply IH; intros x Hx; apply Hl; by right|]. intros r q' [-> Hr]. split; [done|]. intros n x Hx.
    destruct (Hr n x Hx) as [(m & -> & Hm) Hg']. split; [|done]. exists (S m). split; [lia|done].
Qed.

Lemma rating_wanted_runs w bracket arenaRating q :
  groups_ok q -> runs (rating_wanted w bracket arenaRating) q (fun _ q' => q' = q).
Proof.
  intros G. unfold rating_wanted. destruct (negb _); [by plain_step|]. plain_step. plain_step. plain_step.
  assert (forall k (Q : option GroupQueueInfo -> BgQueue -> Prop), (forall r, Q r q) ->
    runs (match queue q bracket k with [] => mret None | p :: _ => g ← deref p; mret (Some g) end) q Q) as Hfront.
  { intros k Q HQ. destruct (queue q bracket k) as [|p l] eqn:E; [plain_step; apply HQ|].
    destruct (go_alive _ G bracket k p) as [g Hg]; [rewrite E; by left|]. plain_step. eapply deref_group_runs; [exact Hg|]. plain_step. apply HQ. }
  apply Hfront. intros r1. plain_step. apply Hfront. intros r2. by plain_step.
Qed.

(** ** Changing sides *)

Lemma with_Team_own g : with_Team (Team g) g = g.
Proof. by destruct g. Qed.

(** Once the group is given its new team the queue is consistent again. *)
Lemma move_side_runs new t travel bracket p team right wrong from k g q :
  side right = team -> side wrong <> team -> from = right \/ from = wrong -> 0 <= right < 4 ->
  consistent new t travel q -> heap q !! p = Some g -> invited g = false -> queue q bracket from !! k = Some p ->
  runs (move_side bracket p team right wrong from k) q (fun _ q' =>
    consistent new t travel (put_group p (with_Team team g) q') /\ heap q' = heap q /\ bgs q' = bgs q /\ (from = right -> q' = q)).
Proof.
  intros Hr Hw Hfrom Hrange Hok Hg Hfree Hk. pose proof (co_groups _ _ _ _ Hok) as G.
  assert (p ∈ queue q bracket from) as Hp by by eapply list_elem_of_lookup_2.
  pose proof (go_side _ G _ _ _ _ Hp Hg) as Ht. destruct (queue_bracket _ _ _ _ G Hp) as [Hb _].
  unfold move_side. plain_step. eapply deref_group_runs; [exact Hg|]. destruct (Z.eqb_spec (Team g) team) as [E|E].
  - plain_step. split; [|done]. eapply same_group_consistent; [exact Hg| |done]. rewrite <- E, with_Team_own. done.
  - assert (from = wrong) as -> by (destruct Hfrom as [->|]; congruence). rewrite Z.eqb_refl. cbn [negb]. repeat plain_step.
    assert (right <> wrong) as Hne by congruence. set (q' := put_queue bracket wrong _ _).
    assert (moved p (bracket, wrong) (bracket, right) (take k (queue q bracket wrong)) (drop (S k) (queue q bracket wrong)) q
      (put_group p (with_Team team g) q')) as M.
    { split; try done.
      - symmetry. by apply take_drop_middle.
      - intros b j. change (queue (put_group p (with_Team team g) q') b j) with (queue q' b j). unfold q'. rewrite !queue_put.
        cbn [fst snd]. destruct (decide ((b, j) = (bracket, wrong))) as [|]; [|by destruct (decide _) as [[= -> ->]|]].
        rewrite decide_False; [done|]. congruence.
      - exists g. split; [done|]. split; [done|]. cbn. by rewrite Hr. }
    split; [|split; [done|]; split; [done|]; congruence].
    eapply moved_consistent; [exact M| |done|done|done]. congruence.
Qed.

(** ** A rated match starts *)

(** Two groups in the premade queues of a bracket, on two sides or on one. *)
Record opponents (q : BgQueue) (bracket : Z) (a h : ginfo) (from_a from_h : Z) (ka kh : nat) : Prop := {
  op_different : a <> h;
  op_sides : from_a = BG_QUEUE_PREMADE_ALLIANCE /\ (from_h = BG_QUEUE_PREMADE_HORDE \/ from_h = BG_QUEUE_PREMADE_ALLIANCE) \/
    from_a = BG_QUEUE_PREMADE_HORDE /\ from_h = BG_QUEUE_PREMADE_HORDE;
  op_alliance : queue q bracket from_a !! ka = Some a /\ exists g, heap q !! a = Some g /\ invited g = false;
  op_horde : queue q bracket from_h !! kh = Some h /\ exists g, heap q !! h = Some g /\ invited g = false
}.

(** Both moved to their sides. *)
Lemma both_sides_runs new t travel bracket a h from_a from_h ka kh ga gh q :
  consistent new t travel q -> opponents q bracket a h from_a from_h ka kh ->
  heap q !! a = Some ga -> heap q !! h = Some gh ->
  runs (move_side bracket a ALLIANCE BG_QUEUE_PREMADE_ALLIANCE BG_QUEUE_PREMADE_HORDE from_a ka ;;
        move_side bracket h HORDE BG_QUEUE_PREMADE_HORDE BG_QUEUE_PREMADE_ALLIANCE from_h kh) q
    (fun _ q' => consistent new t travel (put_group a (with_Team ALLIANCE ga) (put_group h (with_Team HORDE gh) q')) /\
      heap q' = heap q /\ bgs q' = bgs q).
Proof.
  intros Hok [Hne Hs [Ka (g1 & Hg1 & Fa)] [Kh (g2 & Hg2 & Fh)]] Ha Hh.
  rewrite Ha in Hg1. injection Hg1 as <-. rewrite Hh in Hg2. injection Hg2 as <-.
  plain_step. eapply runs_mono; [apply (move_side_runs new t travel bracket a ALLIANCE _ _ from_a ka ga q); try done;
    destruct Hs as [[-> _]|[-> _]]; [by left|by right]|].
  intros [] q1 (V1 & E1 & B1 & Stay1).
  destruct Hs as [[-> Hfh]|[-> ->]].
  - (* the first group stays *)
    rewrite (Stay1 eq_refl) in *. eapply runs_mono; [apply (move_side_runs new t travel bracket h HORDE _ _ from_h kh gh q); done|].
    intros [] q2 (V2 & E2 & B2 & _). split; [|by split; congruence].
    eapply same_group_consistent; [|..|exact V2]; [cbn; rewrite lookup_insert_ne by done; by rewrite E2|].
    assert (Team ga = ALLIANCE) as <-; [|by rewrite with_Team_own].
    exact (go_side _ (co_groups _ _ _ _ Hok) _ _ _ _ (list_elem_of_lookup_2 _ _ _ Ka) Ha).
  - (* the second one does *)
    assert (Team gh = HORDE) as Th by exact (go_side _ (co_groups _ _ _ _ Hok) _ _ _ _ (list_elem_of_lookup_2 _ _ _ Kh) Hh).
    unfold move_side. plain_step. eapply deref_group_runs; [by rewrite E1|]. rewrite Th, Z.eqb_refl. plain_step.
    split; [|done]. assert (with_Team HORDE gh = gh) as -> by (rewrite <- Th; apply with_Team_own).
    assert (put_group a (with_Team ALLIANCE ga) (put_group h gh q1) = put_group h gh (put_group a (with_Team ALLIANCE ga) q1)) as ->.
    { unfold put_group, set_heap. cbn. by rewrite insert_insert_ne. }
    eapply same_group_consistent; [|done|exact V1]. cbn. rewrite lookup_insert_ne by done. by rewrite E1.
Qed.

Lemma put_group_opponents q bracket a h from_a from_h ka kh p g tm mmr :
  heap q !! p = Some g -> opponents q bracket a h from_a from_h ka kh ->
  opponents (put_group p (with_opponents tm mmr g) q) bracket a h from_a from_h ka kh.
Proof.
  intros Hp [Hne Hs [Ka (g1 & Hg1 & Fa)] [Kh (g2 & Hg2 & Fh)]]. split; try done; (split; [done|]); cbn.
  - destruct (decide (p = a)) as [->|Hn]; [rewrite lookup_insert_eq; eexists; split; [done|]; change (invited g = false); congruence|rewrite lookup_insert_ne by done; eauto].
  - destruct (decide (p = h)) as [->|Hn]; [rewrite lookup_insert_eq; eexists; split; [done|]; change (invited g = false); congruence|rewrite lookup_insert_ne by done; eauto].
Qed.

Lemma invite_opponents_runs t travel w i a h ga gh b q :
  (forall guid, online w guid = true) -> a <> h ->
  consistent (Some i) t travel (put_group a (with_Team ALLIANCE ga) (put_group h (with_Team HORDE gh) q)) ->
  heap q !! a = Some ga -> invited ga = false -> heap q !! h = Some gh -> invited gh = false -> bgs q !! i = Some b ->
  cap b = group_cap -> (forall team, GetInvitedCount b team = 0) ->
  runs (_ ← InviteGroupToBG w a i ALLIANCE; _ ← InviteGroupToBG w h i HORDE; StartBattleground i) q
    (fun _ q' => consistent None t travel q').
Proof.
  intros Hon Hne Hok Ha Fa Hh Fh Hb Hcap Hzero.
  set (ga' := with_Team ALLIANCE ga) in *. set (gh' := with_Team HORDE gh) in *. set (qv := put_group a ga' (put_group h gh' q)) in *.
  assert (in_range b) as Hr by (eapply consistent_in_range; [apply Hok|exact Hb]).
  assert (players ga <= group_cap /\ players gh <= group_cap) as [Sa Sh].
  { split; [exact (io_small _ _ (co_invites _ _ _ _ Hok) a ga' (lookup_insert_eq _ _ _))|].
    apply (io_small _ _ (co_invites _ _ _ _ Hok) h gh'). cbn. rewrite lookup_insert_ne by done. apply lookup_insert_eq. }
  plain_step. eapply runs_mono; [apply (InviteGroupToBG_sided w a i ALLIANCE ga b q); try done; by left|]. intros ok1 q1 I1.
  change (sided ALLIANCE ga) with ga' in I1. plain_step.
  assert (invited_group a i ga' b qv (put_group h gh' q1)) as V1 by by apply invited_group_own, invited_group_frame.
  assert (consistent (Some i) t travel (put_group h gh' q1)) as Hok1.
  { apply (invited_consistent (Some i) t travel a i ga' b qv); try done; [apply lookup_insert_eq|].
    rewrite Hzero, Hcap. exact Sa. }
  destruct I1 as [S1 _ (b1 & Hb1 & Hsame & Hcount)].
  assert (heap q1 !! h = Some gh) as Hh1 by (rewrite (st_heap _ _ _ _ S1); [done|]; intros ->%list_elem_of_singleton; done).
  assert (in_range b1) as Hr1 by (eapply consistent_in_range; [apply Hok1|exact Hb1]).
  eapply runs_mono; [apply (InviteGroupToBG_sided w h i HORDE gh b1 q1); try done; by right|]. intros ok2 q2 I2.
  change (sided HORDE gh) with gh' in I2.
  assert (consistent (Some i) t travel q2) as Hok2.
  { apply (invited_consistent (Some i) t travel h i gh' b1 (put_group h gh' q1)); try done; [apply lookup_insert_eq| |by apply invited_group_own].
    destruct (Hcount HORDE (or_intror eq_refl)) as [C _]. rewrite (same_bg_cap _ _ Hsame), Hcap. cbn [Team gh' with_Team].
    rewrite C, Hzero. exact Sh. }
  destruct I2 as [_ _ (b2 & Hb2 & _)]. eapply StartBattleground_runs; [exact Hok2|exact Hb2|by right].
Qed.

Lemma runs_seq {S E A} (m1 m2 : M S E unit) (rest : M S E A) s (P : unit -> S -> Prop) Q :
  runs (m1 ;; m2) s P -> (forall x s', P x s' -> runs rest s' Q) -> runs (m1 ;; m2 ;; rest) s Q.
Proof.
  unfold runs, mbind, M_bind. destruct (m1 s) as [[x|e] s1]; [|done]. destruct (m2 s1) as [[y|e] s2]; [|done].
  intros HP HQ. exact (HQ y s2 HP).
Qed.

Lemma start_rated_runs t travel w bracket arenaType isRated tpl a h from_a from_h ka kh q :
  sound_world w t isRated -> bg_template w t = Some tpl -> t_IsArena tpl = true -> consistent None t travel q ->
  opponents q bracket a h from_a from_h ka kh ->
  runs (start_rated w t bracket arenaType a h from_a from_h ka kh) q (fun _ q' => consistent None t travel q').
Proof.
  intros Hw Htpl Harena Hok Hop. unfold start_rated. plain_step.
  eapply runs_mono; [by apply (CreateNewBattleground_runs t travel); [|apply Hw]|]. intros [i|] q1; [|intros ->; plain_step; by do 2 apply consistent_emit].
  intros (-> & b & tpl' & -> & Ht & Hf & Hok1). set (i := next_instance q) in *. set (q1 := with_new_bg i b q) in *.
  destruct (op_alliance _ _ _ _ _ _ _ _ Hop) as [_ (ga & Ha & Fa)]. destruct (op_horde _ _ _ _ _ _ _ _ Hop) as [_ (gh & Hh & Fh)].
  pose proof (op_different _ _ _ _ _ _ _ _ Hop) as Hne.
  plain_step. eapply (deref_group_runs a ga q1); [exact Ha|]. plain_step. eapply (deref_group_runs h gh q1); [exact Hh|]. plain_step. plain_step.
  set (ga1 := with_opponents _ _ ga). set (q2 := put_group a ga1 q1).
  assert (heap q2 !! h = Some gh) as Hh2 by (cbn; by rewrite lookup_insert_ne).
  plain_step. eapply (deref_group_runs h gh q2); [exact Hh2|]. plain_step. plain_step. set (gh1 := with_opponents _ _ gh). set (q3 := put_group h gh1 q2).
  assert (consistent (Some i) t travel q3) as Hok3.
  { apply (same_group_consistent _ _ _ h gh); [done|done|]. by apply (same_group_consistent _ _ _ a ga). }
  assert (opponents q3 bracket a h from_a from_h ka kh) as Hop3.
  { apply put_group_opponents; [done|]. apply put_group_opponents; [done|]. by destruct Hop. }
  assert (heap q3 !! a = Some ga1) as Ha3 by (cbn; rewrite lookup_insert_ne by done; apply lookup_insert_eq).
  assert (heap q3 !! h = Some gh1) as Hh3 by apply lookup_insert_eq.
  eapply runs_seq; [by apply (both_sides_runs (Some i) t travel bracket a h from_a from_h ka kh ga1 gh1 q3)|].
  intros [] q4 (V4 & E4 & B4). assert (bgs q4 !! i = Some b) as Hb4 by (rewrite B4; apply lookup_insert_eq).
  plain_step. eapply deref_bg_runs; [exact Hb4|]. plain_step. plain_step. set (b' := with_arena _ _ b).
  apply (invite_opponents_runs t travel w i a h ga1 gh1 b'); try done.
  - apply Hw.
  - exact (put_bg_consistent _ _ _ i b b' _ V4 Hb4 ltac:(done) eq_refl eq_refl).
  - cbn. by rewrite E4.
  - cbn. by rewrite E4.
  - apply lookup_insert_eq.
  - change (cap b = group_cap). rewrite (fresh_cap _ _ _ Hf). destruct (sw_template _ _ _ Hw _ _ Htpl Ht) as [-> _]. by rewrite Harena.
  - apply (fb_invited _ _ _ Hf).
Qed.

Lemma update_rated_runs t travel w bracket arenaType arenaRating isRated tpl q :
  sound_world w t isRated -> bg_template w t = Some tpl -> t_IsArena tpl = true -> consistent None t travel q ->
  runs (update_rated w t bracket arenaType arenaRating) q (fun _ q' => consistent None t travel q').
Proof.
  intros Hw Htpl Harena Hok. pose proof (co_groups _ _ _ _ Hok) as G. unfold update_rated. plain_step.
  eapply runs_mono; [by apply rating_wanted_runs|]. intros [[rating diff]|] q' ->; [|by plain_step].
  cbv zeta. plain_step. plain_step. set (lo := if 0 <? diff then _ else _). set (hi := if 0 <? diff then _ else _).
  set (dt := u32 _). assert (forall k p, p ∈ queue q bracket k -> is_Some (heap q !! p)) as Halive by (intros k p; apply G).
  plain_step. eapply runs_mono; [apply find_team_runs, Halive|]. intros ra q' [-> FA]. plain_step.
  eapply runs_mono; [apply find_team_runs, Halive|]. intros rh q' [-> FH].
  (* one team found: another one behind it in the same queue *)
  assert (forall from k p, from = BG_QUEUE_PREMADE_ALLIANCE \/ from = BG_QUEUE_PREMADE_HORDE -> found q None (queue q bracket from) 0 k p ->
    runs (g ← deref p; second ← find_team lo hi dt (Some (ArenaTeamId g)) (drop k (queue q bracket from)) k;
      match second with None => mret tt | Some (k2, p2) => start_rated w t bracket arenaType p p2 from from k k2 end) q
      (fun _ q' => consistent None t travel q')) as Hone.
  { intros from k p Hfrom [(m & -> & Hm) (g & Hg & Hfree & _)]. plain_step. eapply deref_group_runs; [exact Hg|]. plain_step.
    eapply runs_mono; [apply find_team_runs; intros x Hx; apply (Halive from), (subseteq_drop _ _ _ Hx)|].
    intros [[k2 p2]|] q' [-> F2]; [|by plain_step]. destruct (F2 _ _ eq_refl) as [(m2 & -> & Hm2) (g2 & Hg2 & Hfree2 & Hdiff)].
    rewrite lookup_drop in Hm2. eapply start_rated_runs; [exact Hw|exact Htpl|exact Harena|exact Hok|].
    split; [|tauto|split; [exact Hm|eauto]|split; [exact Hm2|eauto]]. intros ->. rewrite Hg in Hg2. injection Hg2 as <-.
    exact (Hdiff _ eq_refl eq_refl). }
  destruct ra as [[ka pa]|], rh as [[kh ph]|].
  - destruct (FA _ _ eq_refl) as [(m & -> & Hm) (ga & Hga & Fa & _)]. destruct (FH _ _ eq_refl) as [(m' & -> & Hm') (gh & Hgh & Fh & _)].
    eapply start_rated_runs; [exact Hw|exact Htpl|exact Harena|exact Hok|]. split; [|tauto|split; [exact Hm|eauto]|split; [exact Hm'|eauto]].
    intros ->. destruct (go_once _ G _ _ _ _ _ (list_elem_of_lookup_2 _ _ _ Hm) (list_elem_of_lookup_2 _ _ _ Hm')) as [_ E]. discriminate E.
  - apply Hone; [by left|]. by apply FA.
  - apply Hone; [by right|]. by apply FH.
  - by plain_step.
Qed.

(** ** The update *)

Lemma BattlegroundQueueUpdate_runs t travel fuel w bracket arenaType isRated arenaRating q :
  sound_world w t isRated -> consistent None t travel q ->
  (2 * (length (queue q bracket BG_QUEUE_NORMAL_ALLIANCE) + length (queue q bracket BG_QUEUE_NORMAL_HORDE)) <= fuel)%nat ->
  runs (BattlegroundQueueUpdate fuel w t bracket arenaType isRated arenaRating) q (fun _ q' => consistent None t travel q').
Proof.
  intros Hw Hok Hf. unfold BattlegroundQueueUpdate. plain_step. plain_step. destruct (forallb _ _); [by plain_step|]. plain_step.
  eapply runs_mono; [eapply fill_all_runs; [exact Hw|exact Hok| |exact Hf]|].
  { intros i Hi. apply (bo_free _ _ _ _ (co_bgs _ _ _ _ Hok)) in Hi as (b & Hb & _). by exists b. }
  intros [] q1 [Hok1 _ _]. destruct (bg_template w t) as [tpl|] eqn:Htpl; [|plain_step; by apply consistent_emit].
  destruct (negb (bracket_exists w)); [plain_step; by apply consistent_emit|]. cbv zeta.
  destruct (sw_caps _ _ _ Hw _ Htpl) as (Hcap & Hmin & Hrated). repeat plain_step.
  set (q2 := set_pools _ _ q1). assert (consistent None t travel q2) as Hok2 by by apply no_pools_ok.
  assert (no_pools q2) as N2 by done.
  assert (forall tpl', t_IsArena tpl = false -> new_template w t = Some tpl' ->
    t_MaxPlayersPerTeam tpl <= if t_IsArena tpl' then group_cap else t_MaxPlayersPerTeam tpl') as Hroom.
  { intros tpl' E Ht'. destruct (sw_template _ _ _ Hw _ _ Htpl Ht') as [-> Hle]. by rewrite E. }
  assert (0 <= t_MaxPlayersPerTeam tpl < 2 ^ 32) as Hmax by (unfold group_cap in Hcap; change (2 ^ 32) with 4294967296; lia).
  destruct (t_IsArena tpl) eqn:Earena; cbn [negb].
  - rewrite (Hrated eq_refl). repeat plain_step. cbn [negb]. by eapply update_rated_runs.
  - set (Min := if is_testing w then 1 else t_MinPlayersPerTeam tpl). assert (0 < Min) as Hmin' by (unfold Min; destruct (is_testing w); lia).
    apply (runs_mono _ _ (fun (goes_on : bool) q3 => consistent None t travel q3 /\ (goes_on = true -> no_pools q3))).
    + plain_step. eapply runs_mono; [by apply (CheckPremadeMatch_runs t travel w bracket Min (t_MaxPlayersPerTeam tpl))|].
      intros [|] q3 [Hok3 H3]; [|by plain_step]. destruct H3 as (src & rA & rH & P3). plain_step.
      eapply runs_mono; [eapply start_new_runs; [exact Hw|exact Hok3|exact P3|]|].
      * intros tpl' Ht'. split; by apply Hroom.
      * intros [|] q4 Hok4; repeat plain_step; [|done]. split; [by apply no_pools_ok|done].
    + intros [|] q3 [Hok3 N3]; cbn [negb]; [|by plain_step]. destruct isRated; cbn [negb]; [by plain_step|]. specialize (N3 eq_refl).
      plain_step. eapply runs_mono; [by apply (CheckNormalMatch_runs t travel w false bracket Min (t_MaxPlayersPerTeam tpl))|].
      intros enough q4 (Hok4 & src & rA & rH & P4). plain_step.
      apply (runs_mono _ _ (fun (_ : bool) q5 => q5 = q4)); [by destruct enough; plain_step|]. intros [|] q5 ->; [|by plain_step]. plain_step.
      eapply runs_mono; [eapply start_new_runs; [exact Hw|exact Hok4|exact P4|]|].
      * intros tpl' Ht'. split; by apply Hroom.
      * intros ok q5 Hok5. by plain_step.
Qed.
