(* ===== verification/BgQueueLeave.v ===== *)
(** * BattlegroundQueue: leaving the queue

    A player leaves his group, the last one takes the group along, and the battleground
    the group was invited to is told. *)

From S2P Require Import Prelude.
From S2P Require Import EventProcessor.
From S2P Require Import BattlegroundQueue.
From S2P Require Import BgQueueSpec.
From S2P Require Import BgQueueInvite.
From S2P Require Import BgQueueUpdate.

(** ** Where a group is *)

Lemma position_Some p l k : position p l = Some k -> l !! k = Some p.
Proof.
  revert k. induction l as [|x l IH]; intros k; cbn; [done|]. destruct (Z.eqb_spec x p) as [->|]; [by intros [= <-]|].
  destruct (position p l) as [m|]; [|done]. intros [= <-]. by apply IH.
Qed.

Lemma position_None p l : position p l = None -> p ∉ l.
Proof.
  induction l as [|x l IH]; cbn; [intros _; apply not_elem_of_nil|]. destruct (Z.eqb_spec x p) as [->|Hn]; [done|].
  destruct (position p l); [done|]. intros _ [->|Hp]%elem_of_cons; [done|by apply IH].
Qed.

Definition index_of (g : GroupQueueInfo) : Z := if Team g =? HORDE then BG_QUEUE_PREMADE_HORDE else BG_QUEUE_PREMADE_ALLIANCE.

Lemma find_group_runs q p g n :
  groups_ok q -> heap q !! p = Some g -> (forall b k, p ∈ queue q b k -> 0 <= b < Z.of_nat n) ->
  exists b k pos, find_group q p (index_of g) n = Some (b, k, pos) /\ queue q b k !! pos = Some p.
Proof.
  intros G Hg. induction n as [|n IH]; intros Hn; cbn [find_group].
  { destruct (go_place _ G p (ex_intro _ _ Hg)) as (b & k & _ & _ & Hp). specialize (Hn _ _ Hp). lia. }
  destruct (position p (queue q (Z.of_nat n) (index_of g + BG_TEAMS_COUNT))) as [pos1|] eqn:E1; [by eexists _, _, pos1; split; [|apply position_Some]|].
  destruct (position p (queue q (Z.of_nat n) (index_of g))) as [pos2|] eqn:E2; [by eexists _, _, pos2; split; [|apply position_Some]|].
  apply position_None in E1, E2. apply IH. intros b k Hp. pose proof (Hn b k Hp).
  destruct (decide (b = Z.of_nat n)) as [->|]; [exfalso|lia].
  destruct (go_place _ G p (ex_intro _ _ Hg)) as (b' & k' & _ & Hk & Hp'). destruct (go_once _ G _ _ _ _ _ Hp Hp') as [_ ->].
  pose proof (go_side _ G _ _ _ _ Hp Hg) as Ht. unfold index_of in *. rewrite Ht in *.
  assert (k' = 0 \/ k' = 1 \/ k' = 2 \/ k' = 3) as [->|[->|[->| ->]]] by lia; cbn in *; done.
Qed.

(** ** The battleground is told *)

Definition left_bg (decrease : bool) (team : Z) (b : Battleground) : Battleground :=
  if decrease then DecreaseInvitedCount team (DecreaseAwaitingPlayers team b) else DecreaseAwaitingPlayers team b.

Definition told (decrease : bool) (g : GroupQueueInfo) (m : gmap Z Battleground) : gmap Z Battleground :=
  match m !! IsInvitedToBGInstanceGUID g with
  | Some b => <[IsInvitedToBGInstanceGUID g := left_bg decrease (Team g) b]> m
  | None => m
  end.

(** Every battleground is known to the manager. *)
Definition known (t : Z) (q : BgQueue) : Prop :=
  forall i b, bgs q !! i = Some b -> i <> 0 /\ registered b = true /\ m_TypeID b = t.

Lemma all_known t travel q : bgs_ok None t travel q -> known t q.
Proof.
  intros Ho i b Hb. pose proof (bo_ids _ _ _ _ Ho i (ex_intro _ b Hb)). split; [lia|].
  split; [|by eapply bo_type]. by destruct (bo_registered _ _ _ _ Ho i b Hb).
Qed.

Lemma GetBattleground_known t q i b type :
  known t q -> bgs q !! i = Some b -> type = t \/ type = BATTLEGROUND_TYPE_NONE -> GetBattleground q i type = Some b.
Proof.
  intros Hk Hb Ht. unfold GetBattleground. destruct (Hk i b Hb) as (Hi & Hr & Et).
  destruct (Z.eqb_spec i 0); [done|]. rewrite Hb. cbn. rewrite Hr, Et.
  destruct Ht as [->| ->]; [by rewrite Z.eqb_refl, orb_true_r|done].
Qed.

Lemma GetBattleground_none q i type : bgs q !! i = None -> GetBattleground q i type = None.
Proof. intros Hb. unfold GetBattleground. destruct (i =? 0); [done|]. by rewrite Hb. Qed.

Lemma tell_battleground_runs t decrease g q :
  known t q -> BgTypeId g = t ->
  runs (tell_battleground decrease g) q (fun _ q' => q' = set_bgs (told decrease g (bgs q)) (next_instance q) (BGFreeSlotQueue q) q).
Proof.
  intros Hk Ht. unfold tell_battleground, told. plain_step. plain_step. plain_step. set (i := IsInvitedToBGInstanceGUID g).
  set (type := if BgTypeId g =? BATTLEGROUND_AA then _ else _).
  assert (type = t \/ type = BATTLEGROUND_TYPE_NONE) as Htype.
  { unfold type. rewrite Ht. destruct (t =? BATTLEGROUND_AA); [by right|by left]. }
  destruct (bgs q !! i) as [b|] eqn:Hb.
  - rewrite (GetBattleground_known t q i b type) by done. destruct (Hk i b Hb) as (Hi & Hr & Et). plain_step.
    assert (invited g = true) as -> by (unfold invited; by apply negb_true_iff, Z.eqb_neq).
    rewrite andb_true_r. destruct decrease; cbn [left_bg]; plain_step; [|done]. plain_step.
    set (q1 := put_bg i _ q).
    assert (GetBattleground q1 i (BgTypeId g) = Some (DecreaseAwaitingPlayers (Team g) b)) as ->.
    { apply (GetBattleground_known t); [|apply lookup_insert_eq|by left]. intros j c. cbn.
      intros [[<- <-]|[? Hc]]%lookup_insert_Some; [|by apply Hk]. split; [done|].
      unfold DecreaseAwaitingPlayers. by destruct (Team g =? ALLIANCE). }
    plain_step. unfold put_bg, set_bgs. cbn. by rewrite insert_insert_eq.
  - rewrite GetBattleground_none by done. repeat plain_step.
    assert (forall x, x = q -> x = set_bgs (bgs q) (next_instance q) (BGFreeSlotQueue q) q) as Hq by (intros x ->; by destruct q).
    destruct (decrease && invited g); repeat plain_step; [rewrite GetBattleground_none by done; plain_step|]; by apply Hq.
Qed.

Lemma left_bg_counts decrease team team' b :
  a_team team -> a_team team' ->
  GetInvitedCount (left_bg decrease team b) team' =
    (if decrease && (team' =? team) then u32 (GetInvitedCount b team' - 1) else GetInvitedCount b team') /\
  GetAwaitingPlayers (left_bg decrease team b) team' =
    (if team' =? team then u8 (GetAwaitingPlayers b team' - 1) else GetAwaitingPlayers b team').
Proof. destruct decrease; by intros [->| ->] [->| ->]. Qed.

Lemma left_bg_same decrease team b : same_bg b (left_bg decrease team b).
Proof.
  destruct decrease; unfold left_bg, DecreaseInvitedCount, DecreaseAwaitingPlayers; destruct (team =? ALLIANCE); done.
Qed.

(** ** One player less *)

Definition without (guid : Z) (g : GroupQueueInfo) : GroupQueueInfo := with_Players (Players g ∖ {[guid]}) g.

Lemma without_players guid g : guid ∈ Players g -> players (without guid g) = players g - 1.
Proof.
  intros Hin. unfold players, without. cbn. rewrite size_difference by set_solver. rewrite size_singleton.
  assert (size (Players g) <> 0%nat); [|lia]. intros E. apply size_empty_inv in E. set_solver.
Qed.

Lemma no_players g : players g = 0 <-> Players g = ∅.
Proof.
  unfold players. split.
  - intros E. apply leibniz_equiv, size_empty_inv. lia.
  - intros ->. by rewrite size_empty.
Qed.

(** The player [guid] left the group [g] at [p], which stood in a queue between [l1] and [l2]. *)
Record left_queue (guid p : Z) (g : GroupQueueInfo) (at_ : Z * Z) (l1 l2 : list ginfo) (decrease : bool) (q q' : BgQueue) : Prop := {
  lq_queue : queue q at_.1 at_.2 = l1 ++ p :: l2;
  lq_heap : heap q' = if players (without guid g) =? 0 then delete p (heap q) else <[p := without guid g]> (heap q);
  lq_queues : forall b k, queue q' b k =
    if (players (without guid g) =? 0) && bool_decide ((b, k) = at_) then l1 ++ l2 else queue q b k;
  lq_players : m_QueuedPlayers q' = delete guid (m_QueuedPlayers q);
  lq_next : next_group q' = next_group q;
  lq_bgs : bgs q' = told decrease g (bgs q);
  lq_instance : next_instance q' = next_instance q;
  lq_free : BGFreeSlotQueue q' = BGFreeSlotQueue q
}.

(** Who does not give up his place is on the way. *)
Definition departed (decrease : bool) (guid : Z) (g : GroupQueueInfo) (travel : list (Z * (Z * Z))) : list (Z * (Z * Z)) :=
  if decrease then travel else (guid, (IsInvitedToBGInstanceGUID g, Team g)) :: travel.

Lemma departed_on_the_way decrease guid g travel j team :
  on_the_way (departed decrease guid g travel) j team =
  on_the_way travel j team + (if negb decrease && ((IsInvitedToBGInstanceGUID g =? j) && (Team g =? team)) then 1 else 0).
Proof.
  unfold departed, on_the_way, zlen. destruct decrease; cbn [negb andb]; [lia|]. rewrite filter_cons. cbn [snd].
  destruct (decide _) as [E|E].
  - injection E as -> ->. rewrite !Z.eqb_refl. cbn [length andb]. lia.
  - destruct (Z.eqb_spec (IsInvitedToBGInstanceGUID g) j), (Z.eqb_spec (Team g) team); cbn [andb]; try lia. congruence.
Qed.

Section Left.
Context (t : Z) (travel : list (Z * (Z * Z))) (guid p : Z) (g : GroupQueueInfo) (at_ : Z * Z) (l1 l2 : list ginfo) (decrease : bool) (q q' : BgQueue).
Hypothesis ok : consistent None t travel q.
Hypothesis Hg : heap q !! p = Some g.
Hypothesis Hguid : guid ∈ Players g.
Hypothesis gone : left_queue guid p g at_ l1 l2 decrease q q'.

Lemma left_alive x : is_Some (heap q' !! x) <-> is_Some (heap q !! x) /\ (x <> p \/ players (without guid g) <> 0).
Proof.
  rewrite (lq_heap _ _ _ _ _ _ _ _ _ gone). destruct (Z.eqb_spec (players (without guid g)) 0) as [E|E].
  - rewrite lookup_delete_is_Some. split; [by intros [? ?]; auto|]. intros [? [?|?]]; [done|lia].
  - rewrite lookup_insert_is_Some'. split; [|by intros [? _]; right]. intros [<-|?]; (split; [done|by right]).
Qed.

Lemma left_lookup x gx : heap q' !! x = Some gx -> (x = p /\ gx = without guid g /\ players gx <> 0) \/ (x <> p /\ heap q !! x = Some gx).
Proof.
  rewrite (lq_heap _ _ _ _ _ _ _ _ _ gone). destruct (Z.eqb_spec (players (without guid g)) 0) as [E|E].
  - intros [? ?]%lookup_delete_Some. right. split; [congruence|done].
  - intros [[-> <-]|[? ?]]%lookup_insert_Some; auto.
Qed.

Lemma left_other x : x <> p -> heap q' !! x = heap q !! x.
Proof.
  intros Hn. rewrite (lq_heap _ _ _ _ _ _ _ _ _ gone). destruct (_ =? 0); [by rewrite lookup_delete_ne|by rewrite lookup_insert_ne].
Qed.

Lemma left_elem b k x : x ∈ queue q' b k <-> x ∈ queue q b k /\ (x <> p \/ players (without guid g) <> 0).
Proof.
  pose proof (co_groups _ _ _ _ ok) as G. rewrite (lq_queues _ _ _ _ _ _ _ _ _ gone).
  pose proof (lq_queue _ _ _ _ _ _ _ _ _ gone) as Hq.
  assert (p ∈ queue q at_.1 at_.2) as Hp by (rewrite Hq; apply elem_of_app; right; by left).
  pose proof (go_nodup _ G at_.1 at_.2) as Hnd. rewrite Hq in Hnd.
  destruct (Z.eqb_spec (players (without guid g)) 0) as [E|E]; cbn [andb]; [|tauto].
  case_bool_decide as Hd.
  - subst at_. cbn in *. rewrite Hq, !elem_of_app, elem_of_cons. apply NoDup_app in Hnd as (_ & H1 & H2). apply NoDup_cons in H2 as [H2 _].
    split.
    + intros [Hx|Hx]; (split; [tauto|left; intros ->]); [apply (H1 p Hx); by left|done].
    + intros [[Hx|[->|Hx]] [Hne|Hne]]; try done; try tauto; lia.
  - split; [|tauto]. intros Hx. split; [done|]. left. intros ->. destruct (go_once _ G _ _ _ _ _ Hx Hp) as [-> ->].
    apply Hd. by destruct at_.
Qed.

Lemma left_groups_ok : groups_ok q'.
Proof.
  destruct (co_groups _ _ _ _ ok) as [G1 G2 G3 G4 G5 G6 G7]. split.
  - intros b k x [Hx Hor]%left_elem. apply left_alive. split; [by eapply G1|done].
  - intros x [Hx Hor]%left_alive. destruct (G2 x Hx) as (b & k & Hb & Hk & Hin). exists b, k.
    split; [done|]. split; [done|]. by apply left_elem.
  - intros b k b' k' x [Hx _]%left_elem [Hx' _]%left_elem. by eapply G3.
  - intros b k. rewrite (lq_queues _ _ _ _ _ _ _ _ _ gone). destruct (_ && _) eqn:E; [|done].
    apply andb_true_iff in E as [_ E%bool_decide_eq_true]. pose proof (G4 at_.1 at_.2) as Hnd.
    rewrite (lq_queue _ _ _ _ _ _ _ _ _ gone) in Hnd. apply NoDup_app in Hnd as (H1 & H2 & H3). apply NoDup_cons in H3 as [_ H3].
    apply NoDup_app. split; [done|]. split; [|done]. intros x Hx Hy. apply (H2 x Hx). by right.
  - intros b k x gx [Hx _]%left_elem Hgx. destruct (left_lookup _ _ Hgx) as [(-> & -> & _)|[_ Hq]]; [exact (G5 _ _ _ _ Hx Hg)|by eapply G5].
  - intros x [Hx _]%left_alive. rewrite (lq_next _ _ _ _ _ _ _ _ _ gone). by apply G6.
  - by rewrite (lq_next _ _ _ _ _ _ _ _ _ gone).
Qed.

Lemma left_players_ok : players_ok q'.
Proof.
  destruct (co_players _ _ _ _ ok) as [P1 P2 P3]. pose proof (lq_players _ _ _ _ _ _ _ _ _ gone) as E.
  destruct (P2 p g guid Hg Hguid) as (pl0 & Hpl0 & Epl0).
  split.
  - intros x pl. rewrite E. intros [Hne Hpl]%lookup_delete_Some. destruct (P1 x pl Hpl) as (gx & Hgx & Hin).
    destruct (decide (GroupInfo pl = p)) as [Ep|Ep].
    + rewrite Ep, Hg in Hgx. injection Hgx as <-. assert (x ∈ Players (without guid g)) as Hin' by (cbn; set_solver).
      assert (is_Some (heap q' !! p)) as [g' Hg'].
      { apply left_alive. split; [by eexists|]. right. intros E0%no_players. rewrite E0 in Hin'. by apply not_elem_of_empty in Hin'. }
      exists g'. rewrite Ep. split; [done|]. destruct (left_lookup _ _ Hg') as [(_ & -> & _)|[? _]]; done.
    + exists gx. by rewrite left_other.
  - intros x gx y Hgx Hy. rewrite E. destruct (left_lookup _ _ Hgx) as [(-> & -> & _)|[Hne Hq]].
    + cbn in Hy. apply elem_of_difference in Hy as [Hy Hny]. destruct (P2 p g y Hg Hy) as (pl & Hpl & Epl). exists pl.
      rewrite lookup_delete_ne; [done|]. set_solver.
    + destruct (P2 x gx y Hq Hy) as (pl & Hpl & Epl). exists pl. rewrite lookup_delete_ne; [done|]. intros <-. congruence.
  - intros x gx Hgx. destruct (left_lookup _ _ Hgx) as [(-> & -> & Hn)|[Hne Hq]]; [by rewrite no_players in Hn|by eapply P3].
Qed.

Lemma left_invited_of j team :
  invited_of q' j team = invited_of q j team - (if (IsInvitedToBGInstanceGUID g =? j) && (Team g =? team) then 1 else 0).
Proof.
  unfold invited_of. rewrite (lq_heap _ _ _ _ _ _ _ _ _ gone). pose proof (without_players guid g Hguid) as Ep.
  destruct (Z.eqb_spec (players (without guid g)) 0) as [E|E].
  - rewrite (total_delete _ _ p g) by done. unfold invited_to. destruct (_ && _); lia.
  - rewrite (total_update _ _ p g) by done. unfold invited_to. cbn. destruct (_ && _); lia.
Qed.

Lemma left_team : a_team (Team g).
Proof. eapply team_of_queued, Hg. apply ok. Qed.

Lemma left_counted i b team :
  a_team team -> bgs q !! i = Some b -> IsInvitedToBGInstanceGUID g = i ->
  counted (departed decrease guid g travel) q' i (left_bg decrease (Team g) b) team.
Proof.
  intros Ht Hb Hi. pose proof (bo_counted _ _ _ _ (co_bgs _ _ _ _ ok) i b team Hb Ht) as C.
  pose proof (consistent_in_range _ _ _ _ _ _ (co_bgs _ _ _ _ ok) Hb team Ht) as [Hr _]. destruct C as [C1 C2 C3 C4].
  destruct (left_bg_counts decrease (Team g) team b left_team Ht) as [E1 E2]. pose proof (left_bg_same decrease (Team g) b) as Hs.
  pose proof (total_lookup (invited_to i team) (heap q) p g (invited_to_nonneg i team) Hg) as Hge. fold (invited_of q i team) in Hge.
  pose proof (without_players guid g Hguid). pose proof (players_nonneg (without guid g)).
  pose proof (inside_nonneg b team). pose proof (on_the_way_nonneg travel i team). unfold group_cap in Hr.
  pose proof (left_invited_of i team) as El. pose proof (departed_on_the_way decrease guid g travel i team) as Ed.
  unfold invited_to in Hge. rewrite Hi, Z.eqb_refl in El, Ed, Hge. cbn [andb] in El, Ed, Hge. rewrite (Z.eqb_sym (Team g) team) in El, Ed, Hge.
  split; rewrite ?E1, ?E2, ?(same_bg_inside _ _ _ Hs), ?(same_bg_cap _ _ Hs), ?(sb_count _ _ Hs), ?El, ?Ed; [| | |done].
  - destruct (team =? Team g), decrease; cbn [andb negb]; rewrite ?u32_id by lia; lia.
  - destruct (team =? Team g); [|by rewrite Z.sub_0_r]. rewrite C2. apply wrap_add_l.
  - destruct (team =? Team g), decrease; cbn [andb]; rewrite ?u32_id by lia; lia.
Qed.

Lemma left_counted_other i b team :
  bgs q !! i = Some b -> a_team team -> IsInvitedToBGInstanceGUID g <> i -> counted (departed decrease guid g travel) q' i b team.
Proof.
  intros Hb Ht Hi. destruct (bo_counted _ _ _ _ (co_bgs _ _ _ _ ok) i b team Hb Ht) as [C1 C2 C3 C4].
  pose proof (left_invited_of i team) as El. pose proof (departed_on_the_way decrease guid g travel i team) as Ed.
  rewrite (proj2 (Z.eqb_neq _ i)) in El, Ed by done. rewrite andb_false_r in Ed. cbn [andb] in El.
  split; rewrite ?El, ?Ed, ?Z.sub_0_r; try done. lia.
Qed.

(** What became of the battlegrounds. *)
Lemma told_lookup j c : bgs q' !! j = Some c ->
  exists b, bgs q !! j = Some b /\ (IsInvitedToBGInstanceGUID g = j /\ c = left_bg decrease (Team g) b \/ IsInvitedToBGInstanceGUID g <> j /\ c = b).
Proof.
  rewrite (lq_bgs _ _ _ _ _ _ _ _ _ gone). unfold told. destruct (bgs q !! IsInvitedToBGInstanceGUID g) as [b|] eqn:Hb.
  - intros [[<- <-]|[Hn Hc]]%lookup_insert_Some; [exists b; auto|exists c; auto].
  - intros Hc. exists c. split; [done|]. right. split; [|done]. congruence.
Qed.

Lemma told_lookup_back j b : bgs q !! j = Some b -> exists c, bgs q' !! j = Some c /\ same_bg b c.
Proof.
  intros Hb. rewrite (lq_bgs _ _ _ _ _ _ _ _ _ gone). unfold told. destruct (decide (IsInvitedToBGInstanceGUID g = j)) as [->|Hn].
  - rewrite Hb, lookup_insert_eq. eexists. split; [done|apply left_bg_same].
  - exists b. split; [|done]. destruct (bgs q !! IsInvitedToBGInstanceGUID g); [by rewrite lookup_insert_ne|done].
Qed.

Lemma told_same j c : bgs q' !! j = Some c -> exists b, bgs q !! j = Some b /\ same_bg b c.
Proof. intros (b & Hb & [[_ ->]|[_ ->]])%told_lookup; (exists b; split; [done|]); [apply left_bg_same|done]. Qed.

Lemma left_bgs_ok : bgs_ok None t (departed decrease guid g travel) q'.
Proof.
  destruct (co_bgs _ _ _ _ ok) as [O1 O2 O3 O4 O5 O6 O7 O8 O9 O10].
  assert (free_slot_queue t q' = free_slot_queue t q) as Ef by (unfold free_slot_queue; by rewrite (lq_free _ _ _ _ _ _ _ _ _ gone)).
  split; rewrite ?Ef, ?(lq_instance _ _ _ _ _ _ _ _ _ gone).
  - intros j c team (b & Hb & [[Hj ->]|[Hj ->]])%told_lookup Ht; [by apply left_counted|by apply left_counted_other].
  - intros j c x team (b & Hb & S)%told_same Hm. rewrite (sb_players _ _ S) in Hm. exact (O2 _ _ _ _ Hb Hm).
  - intros j c (b & Hb & S)%told_same. rewrite (sb_type _ _ S). exact (O3 _ _ Hb).
  - intros j c (b & Hb & S)%told_same. rewrite (sb_registered _ _ S). exact (O4 _ _ Hb).
  - intros j c (b & Hb & S)%told_same. rewrite (sb_max _ _ S). exact (O5 _ _ Hb).
  - intros j [c (b & Hb & S)%told_same]. apply O6. by exists b.
  - intros j. rewrite O7. split.
    + intros (b & Hb & Hf). destruct (told_lookup_back _ _ Hb) as (c & Hc & S). exists c. by rewrite (sb_free _ _ S).
    + intros (c & (b & Hb & S)%told_same & Hf). exists b. by rewrite <- (sb_free _ _ S).
  - intros j c (b & Hb & S)%told_same. rewrite (sb_free _ _ S), (sb_arena _ _ S). exact (O8 _ _ Hb).
  - done.
  - intros x i team. unfold departed. destruct decrease; [by apply O10|]. intros [[= -> -> ->]|Hin]%elem_of_cons; [|by apply (O10 x)].
    split; [apply (io_range _ _ (co_invites _ _ _ _ ok) p g Hg)|apply left_team].
Qed.

Lemma left_consistent : consistent None t (departed decrease guid g travel) q'.
Proof.
  split; [apply left_groups_ok|apply left_players_ok|apply left_bgs_ok|].
  destruct (co_invites _ _ _ _ ok) as [I1 I2 I3 I4]. pose proof (lq_instance _ _ _ _ _ _ _ _ _ gone) as E.
  split; rewrite ?E; try done; intros x gx Hx; destruct (left_lookup _ _ Hx) as [(-> & -> & _)|[_ Hq]]; eauto.
  - exact (I1 _ _ Hg).
  - exact (I2 _ _ Hg).
  - pose proof (I3 _ _ Hg). pose proof (without_players guid g Hguid). lia.
Qed.
End Left.

(** ** The whole of it *)

(** Nothing but the output differs. *)
Definition sans_out (q : BgQueue) : BgQueue :=
  mkBgQueue (heap q) (next_group q) (m_QueuedPlayers q) (m_QueuedGroups q) (pool_alliance q) (pool_horde q)
    (m_WaitTimes q) (m_WaitTimeLastPlayer q) (m_SumOfWaitTimes q) (bgs q) (next_instance q) (BGFreeSlotQueue q) [].
Definition said (q q' : BgQueue) : Prop := sans_out q' = sans_out q.

Lemma said_consistent new t travel q q' : said q q' -> consistent new t travel q -> consistent new t travel q'.
Proof.
  intros E. apply consistent_core.
  - exact (f_equal heap E).
  - exact (f_equal next_group E).
  - exact (f_equal m_QueuedPlayers E).
  - exact (f_equal m_QueuedGroups E).
  - exact (f_equal bgs E).
  - exact (f_equal next_instance E).
  - exact (f_equal BGFreeSlotQueue E).
Qed.

Lemma said_emit (c : bool) o q q0 : said q0 q -> runs (if c then modify (emit o) else mret tt : T unit) q (fun _ q' => said q0 q').
Proof. intros E. destruct c; plain_step; exact E. Qed.

Lemma said_left guid p g at_ l1 l2 decrease q q1 q2 :
  said q1 q2 -> left_queue guid p g at_ l1 l2 decrease q q1 -> left_queue guid p g at_ l1 l2 decrease q q2.
Proof.
  intros E [L1 L2 L3 L4 L5 L6 L7 L8]. split; [done|..].
  - rewrite <- L2. exact (f_equal heap E).
  - intros b k. rewrite <- L3. exact (f_equal (fun s => queue s b k) E).
  - rewrite <- L4. exact (f_equal m_QueuedPlayers E).
  - rewrite <- L5. exact (f_equal next_group E).
  - rewrite <- L6. exact (f_equal bgs E).
  - rewrite <- L7. exact (f_equal next_instance E).
  - rewrite <- L8. exact (f_equal BGFreeSlotQueue E).
Qed.

(** The state when the battleground was told and the player is out of the map. *)
Definition told_queue (guid p : Z) (g : GroupQueueInfo) (decrease : bool) (q : BgQueue) : BgQueue :=
  let q1 := put_group p (without guid g) q in
  set_QueuedPlayers (delete guid (m_QueuedPlayers q)) (set_bgs (told decrease g (bgs q)) (next_instance q) (BGFreeSlotQueue q) q1).

Lemma told_left guid p g at_ pos decrease q :
  queue q at_.1 at_.2 !! pos = Some p -> players (without guid g) <> 0 ->
  left_queue guid p g at_ (take pos (queue q at_.1 at_.2)) (drop (S pos) (queue q at_.1 at_.2)) decrease q (told_queue guid p g decrease q).
Proof.
  intros Hpos Hn. apply Z.eqb_neq in Hn. split; rewrite ?Hn; try done. symmetry. by apply take_drop_middle.
Qed.

Lemma told_left_last guid p g at_ pos decrease q q' :
  queue q at_.1 at_.2 !! pos = Some p -> players (without guid g) = 0 -> said (told_queue guid p g decrease q) q' ->
  let q1 := put_queue at_.1 at_.2 (erase pos (queue q' at_.1 at_.2)) q' in
  left_queue guid p g at_ (take pos (queue q at_.1 at_.2)) (drop (S pos) (queue q at_.1 at_.2)) decrease q
    (set_heap (delete p (heap q1)) (next_group q1) q1).
Proof.
  intros Hpos Hn E q1. apply Z.eqb_eq in Hn.
  assert (queue q' at_.1 at_.2 = queue q at_.1 at_.2) as Eq by exact (f_equal (fun s => queue s at_.1 at_.2) E).
  eapply (said_left _ _ _ _ _ _ _ _ (set_heap (delete p (heap q)) (next_group q)
    (put_queue at_.1 at_.2 (erase pos (queue q at_.1 at_.2)) (told_queue guid p g decrease q)))).
  - unfold said, sans_out. unfold q1. rewrite Eq. cbn.
    assert (delete p (heap q') = delete p (heap q)) as ->.
    { etransitivity; [exact (f_equal (fun s => delete p (heap s)) E)|]. apply delete_insert_eq. }
    rewrite (f_equal next_group E : next_group q' = next_group q), (f_equal m_QueuedPlayers E : m_QueuedPlayers q' = delete guid (m_QueuedPlayers q)),
      (f_equal m_QueuedGroups E : m_QueuedGroups q' = m_QueuedGroups q), (f_equal pool_alliance E : pool_alliance q' = pool_alliance q),
      (f_equal pool_horde E : pool_horde q' = pool_horde q), (f_equal m_WaitTimes E : m_WaitTimes q' = m_WaitTimes q),
      (f_equal m_WaitTimeLastPlayer E : m_WaitTimeLastPlayer q' = m_WaitTimeLastPlayer q),
      (f_equal m_SumOfWaitTimes E : m_SumOfWaitTimes q' = m_SumOfWaitTimes q), (f_equal bgs E : bgs q' = told decrease g (bgs q)),
      (f_equal next_instance E : next_instance q' = next_instance q), (f_equal BGFreeSlotQueue E : BGFreeSlotQueue q' = BGFreeSlotQueue q).
    done.
  - split; rewrite ?Hn; try done; [symmetry; by apply take_drop_middle|].
    intros b k. change (queue (put_queue at_.1 at_.2 (erase pos (queue q at_.1 at_.2)) (told_queue guid p g decrease q)) b k =
      (if true && bool_decide ((b, k) = at_) then take pos (queue q at_.1 at_.2) ++ drop (S pos) (queue q at_.1 at_.2) else queue q b k)).
    rewrite queue_put. cbn [andb]. rewrite <- surjective_pairing. by case_bool_decide; destruct (decide _).
Qed.

(** What happens once the battleground was told: the group goes too if it is empty, and if
    it was waiting for a rated arena the next player is removed. *)
Definition after_told (fuel : nat) (w : World) (decrease : bool) (p bracket index : Z) (k : nat) (g : GroupQueueInfo) : T unit :=
  if players g =? 0 then
    modify (fun q => put_queue bracket index (erase k (queue q bracket index)) q) ;;
    modify (fun q => set_heap (delete p (heap q)) (next_group q) q)
  else if negb (invited g) && IsRated g then
    match guids g with
    | [] => throw EmptyContainer
    | next :: _ =>
      (if online w next
       then modify (emit (OutRemoveQueueId next)) ;; modify (emit (OutStatus next 0 STATUS_NONE)) else mret tt) ;;
      match fuel with
      | O => throw OutOfFuel
      | S fuel => RemovePlayer fuel w next decrease
      end
    end
  else mret tt.

(** The first player of a group, without those who follow. *)
Lemma RemovePlayer_first t fuel w guid decrease pl g q (Q : unit -> BgQueue -> Prop) :
  groups_ok q -> known t q -> BgTypeId g = t -> m_QueuedPlayers q !! guid = Some pl -> heap q !! GroupInfo pl = Some g ->
  (forall b k pos q', queue q b k !! pos = Some (GroupInfo pl) -> said (told_queue guid (GroupInfo pl) g decrease q) q' ->
    runs (after_told fuel w decrease (GroupInfo pl) b k pos (without guid g)) q' Q) ->
  runs (RemovePlayer fuel w guid decrease) q Q.
Proof.
  intros G Hk Ht Hpl Hg Hrest.
  destruct (find_group_runs q (GroupInfo pl) g (Z.to_nat MAX_BATTLEGROUND_BRACKETS) G Hg) as (b & k & pos & Hfind & Hpos).
  { intros b k Hb. by destruct (queue_bracket _ _ _ _ G Hb). }
  destruct fuel as [|fuel]; cbn [RemovePlayer]; plain_step; plain_step; rewrite Hpl; plain_step; (eapply deref_group_runs; [exact Hg|]);
    change (if Team g =? HORDE then BG_QUEUE_PREMADE_HORDE else BG_QUEUE_PREMADE_ALLIANCE) with (index_of g); rewrite Hfind;
    fold (without guid g); plain_step; plain_step; plain_step;
    (eapply runs_mono; [apply (tell_battleground_runs t); [exact Hk|exact Ht]|]);
    intros [] q1 ->; plain_step; plain_step; plain_step;
    (eapply runs_mono; [apply (said_emit _ _ _ (told_queue guid (GroupInfo pl) g decrease q)); reflexivity|]); intros [] q2 E2; plain_step;
    (eapply runs_mono; [apply (said_emit _ _ _ _ E2)|]); intros [] q3 E3; by eapply Hrest.
Qed.

(** A player who is in the queue leaves it; one who keeps his place was invited. *)
Lemma RemovePlayer_runs t travel fuel w guid decrease pl g q :
  consistent None t travel q -> m_QueuedPlayers q !! guid = Some pl -> heap q !! GroupInfo pl = Some g ->
  players g <= Z.of_nat fuel + 1 -> decrease = true \/ invited g = true ->
  runs (RemovePlayer fuel w guid decrease) q (fun _ q' => consistent None t (departed decrease guid g travel) q').
Proof.
  revert guid pl g q. induction fuel as [|fuel IH]; intros guid pl g q Hok Hpl Hg Hfuel Hd;
    destruct (po_player _ (co_players _ _ _ _ Hok) _ _ Hpl) as (g0 & Hg0 & Hin); rewrite Hg in Hg0; injection Hg0 as <-;
    pose proof (without_players guid g Hin) as Hcount; pose proof (players_nonneg (without guid g)) as Hnn;
    (eapply RemovePlayer_first; [exact (co_groups _ _ _ _ Hok)|exact (all_known _ _ _ (co_bgs _ _ _ _ Hok))|exact (io_type _ _ (co_invites _ _ _ _ Hok) _ _ Hg)|exact Hpl|exact Hg|]); intros b k pos q1 Hpos E1; unfold after_told;
    (destruct (Z.eqb_spec (players (without guid g)) 0) as [E|E];
      [repeat plain_step; eapply left_consistent; [exact Hok|exact Hg|exact Hin|exact (told_left_last guid _ g (b, k) pos decrease q q1 Hpos E E1)]|]);
    [lia|].
  pose proof (said_left _ _ _ _ _ _ _ _ _ _ E1 (told_left guid _ g (b, k) pos decrease q Hpos E)) as L1.
  pose proof (left_consistent t travel guid _ g (b, k) _ _ decrease q q1 Hok Hg Hin L1) as Hok1.
  destruct (negb (invited (without guid g)) && IsRated (without guid g)) eqn:Ec; [|by plain_step].
  apply andb_true_iff in Ec as [Hfree%negb_true_iff _].
  assert (decrease = true) as -> by (destruct Hd as [|Hd]; [done|]; change (invited g = false) in Hfree; congruence).
  pose proof (guids_length (without guid g)) as Hlen. pose proof (guids_spec (without guid g)) as Hspec.
  destruct (guids (without guid g)) as [|next l]; [by cbn in Hlen|]. plain_step.
  apply (runs_mono _ _ (fun _ q2 => said q1 q2)); [destruct (online w next); repeat plain_step; reflexivity|]. intros [] q2 E2.
  assert (heap q2 !! GroupInfo pl = Some (without guid g)) as Hg2.
  { rewrite (f_equal heap E2 : heap q2 = heap q1), (lq_heap _ _ _ _ _ _ _ _ _ L1).
    rewrite (proj2 (Z.eqb_neq _ _) E). apply lookup_insert_eq. }
  pose proof (said_consistent _ _ _ _ _ E2 Hok1) as Hok2.
  destruct (po_member _ (co_players _ _ _ _ Hok2) _ _ next Hg2) as (pl2 & Hpl2 & Ep2); [apply Hspec; by left|].
  rewrite <- Ep2 in Hg2. eapply runs_mono; [apply (IH next pl2 (without guid g) q2 Hok2 Hpl2 Hg2); [lia|by left]|].
  intros [] q3 Hok3. exact Hok3.
Qed.

(** Who is not in the queue changes nothing by leaving it. *)
Lemma RemovePlayer_absent w fuel guid decrease q :
  m_QueuedPlayers q !! guid = None -> runs (RemovePlayer fuel w guid decrease) q (fun _ q' => said q q').
Proof. intros Hn. destruct fuel; cbn [RemovePlayer]; plain_step; plain_step; rewrite Hn; plain_step; reflexivity. Qed.
