(* ===== verification/BgQueueJoin.v ===== *)
(** * BattlegroundQueue: joining the queue *)

From S2P Require Import Prelude.
From S2P Require Import EventProcessor.
From S2P Require Import BattlegroundQueue.
From S2P Require Import BgQueueSpec.
From S2P Require Import BgQueueInvite.
From S2P Require Import BgQueueUpdate.
From S2P Require Import BgQueueLeave.

(** ** A new group *)

(** The group [g] of [members] stands behind the others. *)
Record joined (t : Z) (w : World) (at_ : Z * Z) (members : list Z) (g : GroupQueueInfo) (q q' : BgQueue) : Prop := {
  jn_heap : heap q' = <[next_group q := g]> (heap q);
  jn_next : next_group q' = next_group q + 1;
  jn_queues : forall b k, queue q' b k = if decide ((b, k) = at_) then queue q b k ++ [next_group q] else queue q b k;
  jn_players : forall guid, m_QueuedPlayers q' !! guid =
    if decide (guid ∈ members) then Some (mkPlayerQueueInfo (now w) (next_group q)) else m_QueuedPlayers q !! guid;
  jn_bgs : bgs q' = bgs q;
  jn_instance : next_instance q' = next_instance q;
  jn_free : BGFreeSlotQueue q' = BGFreeSlotQueue q;
  jn_members : Players g = list_to_set members;
  jn_team : Team g = side at_.2;
  jn_type : BgTypeId g = t;
  jn_uninvited : IsInvitedToBGInstanceGUID g = 0
}.

Section Joined.
Context (new : option Z) (t : Z) (w : World) (travel : list (Z * (Z * Z))) (at_ : Z * Z) (members : list Z) (g : GroupQueueInfo) (q q' : BgQueue).
Hypothesis ok : consistent new t travel q.
Hypothesis place : 0 <= at_.1 < 16 /\ 0 <= at_.2 < 4.
Hypothesis some : members <> [].
Hypothesis few : zlen members <= group_cap.
Hypothesis absent : forall guid, guid ∈ members -> m_QueuedPlayers q !! guid = None.
Hypothesis came : joined t w at_ members g q q'.

Lemma joined_new : heap q !! next_group q = None.
Proof.
  destruct (heap q !! next_group q) eqn:E; [|done]. pose proof (go_fresh _ (co_groups _ _ _ _ ok) _ (ex_intro _ _ E)). lia.
Qed.

Lemma joined_not_queued b k : next_group q ∉ queue q b k.
Proof.
  intros Hp. destruct (go_alive _ (co_groups _ _ _ _ ok) _ _ _ Hp) as [x Hx]. rewrite joined_new in Hx. done.
Qed.

Lemma joined_elem b k x : x ∈ queue q' b k <-> (x = next_group q /\ (b, k) = at_) \/ x ∈ queue q b k.
Proof.
  rewrite (jn_queues _ _ _ _ _ _ _ came). destruct (decide _) as [E|E]; [|tauto].
  rewrite elem_of_app, list_elem_of_singleton. tauto.
Qed.

Lemma joined_groups_ok : groups_ok q'.
Proof.
  destruct (co_groups _ _ _ _ ok) as [G1 G2 G3 G4 G5 G6 G7]. pose proof (jn_heap _ _ _ _ _ _ _ came) as Eh.
  assert (forall x, is_Some (heap q' !! x) <-> x = next_group q \/ is_Some (heap q !! x)) as Hs.
  { intros x. rewrite Eh, lookup_insert_is_Some'. split; (intros [E|?]; [left; done|by right]). }
  split.
  - intros b k x [[-> _]|Hx]%joined_elem; apply Hs; [by left|right; by eapply G1].
  - intros x [->|Hx]%Hs.
    + exists at_.1, at_.2. split; [apply place|]. split; [apply place|]. apply joined_elem. left. by destruct at_.
    + destruct (G2 x Hx) as (b & k & Hb & Hk & Hin). exists b, k. split; [done|]. split; [done|]. apply joined_elem. by right.
  - intros b k b' k' x [[-> E]|Hx]%joined_elem [[E2 E']|Hx']%joined_elem.
    + rewrite <- E' in E. by injection E.
    + by apply joined_not_queued in Hx'.
    + subst x. by apply joined_not_queued in Hx.
    + by eapply G3.
  - intros b k. rewrite (jn_queues _ _ _ _ _ _ _ came). destruct (decide _); [|done]. apply NoDup_app. split; [done|]. split.
    + intros x Hx ->%list_elem_of_singleton. by apply joined_not_queued in Hx.
    + apply NoDup_singleton.
  - intros b k x gx Hx. rewrite Eh. intros [[<- <-]|[Hn Hgx]]%lookup_insert_Some.
    + apply joined_elem in Hx as [[_ <-]|Hx]; [apply (jn_team _ _ _ _ _ _ _ came)|by apply joined_not_queued in Hx].
    + apply joined_elem in Hx as [[-> _]|Hx]; [done|by eapply G5].
  - intros x. rewrite (jn_next _ _ _ _ _ _ _ came). intros [->|Hx]%Hs; [lia|]. pose proof (G6 x Hx). lia.
  - rewrite (jn_next _ _ _ _ _ _ _ came). lia.
Qed.

Lemma joined_players_ok : players_ok q'.
Proof.
  destruct (co_players _ _ _ _ ok) as [P1 P2 P3]. pose proof (jn_heap _ _ _ _ _ _ _ came) as Eh.
  pose proof (jn_members _ _ _ _ _ _ _ came) as Em. pose proof (jn_players _ _ _ _ _ _ _ came) as Ep. split.
  - intros guid pl. rewrite Ep, Eh. destruct (decide _) as [Hin|Hin].
    + intros [= <-]. exists g. split; [apply lookup_insert_eq|]. rewrite Em. by apply elem_of_list_to_set.
    + intros Hpl. destruct (P1 _ _ Hpl) as (g0 & Hg0 & Hg). exists g0. split; [|done]. rewrite lookup_insert_ne; [done|].
      intros E. rewrite <- E, joined_new in Hg0. done.
  - intros x gx guid. rewrite Eh. intros [[<- <-]|[Hn Hgx]]%lookup_insert_Some Hin; rewrite Ep.
    + rewrite Em in Hin. apply elem_of_list_to_set in Hin. rewrite decide_True by done. by eexists.
    + destruct (P2 _ _ _ Hgx Hin) as (pl & Hpl & E). exists pl. rewrite decide_False; [done|]. intros Hm. by rewrite (absent _ Hm) in Hpl.
  - intros x gx. rewrite Eh. intros [[<- <-]|[Hn Hgx]]%lookup_insert_Some; [|by eapply P3]. rewrite Em.
    destruct members as [|m l]; [done|]. intros E. apply (not_elem_of_empty (C:=gset Z) m). rewrite <- E.
    apply elem_of_list_to_set. by left.
Qed.

Lemma joined_consistent : consistent new t travel q'.
Proof.
  pose proof (jn_heap _ _ _ _ _ _ _ came) as Eh. destruct (co_invites _ _ _ _ ok) as [I1 I2 I3 I4].
  pose proof (jn_uninvited _ _ _ _ _ _ _ came) as Eu. pose proof (jn_instance _ _ _ _ _ _ _ came) as Ei.
  split; [apply joined_groups_ok|apply joined_players_ok| |].
  - destruct (co_bgs _ _ _ _ ok) as [O1 O2 O3 O4 O5 O6 O7 O8 O9 O10].
    assert (free_slot_queue t q' = free_slot_queue t q) as Ef by (unfold free_slot_queue; by rewrite (jn_free _ _ _ _ _ _ _ came)).
    split; rewrite ?(jn_bgs _ _ _ _ _ _ _ came), ?Ef, ?Ei; try done.
    intros i b team Hb Ht. destruct (O1 i b team Hb Ht) as [C1 C2 C3 C4].
    assert (invited_of q' i team = invited_of q i team) as El; [|by split; rewrite ?El].
    unfold invited_of. rewrite Eh, total_insert_new by apply joined_new. unfold invited_to at 1. rewrite Eu.
    pose proof (O6 i (ex_intro _ b Hb)). rewrite (proj2 (Z.eqb_neq 0 i)) by lia. done.
  - split; rewrite ?Eh, ?Ei; try done; intros x gx [[<- <-]|[Hn Hgx]]%lookup_insert_Some; eauto.
    + apply (jn_type _ _ _ _ _ _ _ came).
    + lia.
    + unfold players. rewrite (jn_members _ _ _ _ _ _ _ came). unfold zlen in few.
      assert (size (list_to_set members : gset Z) <= length members)%nat; [|lia].
      clear. induction members as [|m l IH]; cbn; [by rewrite size_empty|].
      pose proof (size_union_alt {[m]} (list_to_set l : gset Z)) as E. rewrite size_singleton in E.
      pose proof (subseteq_size (list_to_set l ∖ {[m]} : gset Z) (list_to_set l) (subseteq_difference_l _ _ _ (reflexivity _))). lia.
Qed.
End Joined.

(** ** The choice of a team *)

Lemma count_waiting_runs l n q :
  (forall p, p ∈ l -> is_Some (heap q !! p)) -> runs (count_waiting l n) q (fun _ q' => q' = q).
Proof.
  revert n. induction l as [|p l IH]; intros n Hl; cbn [count_waiting]; [by plain_step|].
  destruct (Hl p) as [g Hg]; [by left|]. plain_step. eapply deref_group_runs; [exact Hg|]. apply IH. intros x Hx. apply Hl. by right.
Qed.

Lemma team_of_running_runs w t bracket l q :
  (forall i, i ∈ l -> is_Some (bgs q !! i)) ->
  runs (team_of_running w t bracket l) q (fun r q' => q' = q /\ forall team, r = Some team -> a_team team).
Proof.
  induction l as [|i l IH]; intros Hl; cbn [team_of_running]; [by plain_step|].
  destruct (Hl i) as [b Hb]; [by left|]. plain_step. eapply deref_bg_runs; [exact Hb|]. destruct (_ && _ && _ && _ && _).
  - plain_step. split; [done|]. intros team [= <-]. destruct (_ =? _), (_ <? _); try destruct (_ <? _); (by left) || by right.
  - apply IH. intros j Hj. apply Hl. by right.
Qed.

Lemma choose_team_runs w leader_team t bracket q :
  a_team leader_team -> (forall b k p, p ∈ queue q b k -> is_Some (heap q !! p)) ->
  (forall i, i ∈ free_slot_queue t q -> is_Some (bgs q !! i)) ->
  runs (choose_team w leader_team t bracket) q (fun team q' => q' = q /\ a_team team).
Proof.
  intros Hl Halive Hfree. unfold choose_team. destruct (negb _); [by plain_step|]. plain_step. plain_step. plain_step.
  eapply runs_mono; [by apply team_of_running_runs|]. intros [team|] q' [-> Ht]; [plain_step; split; [done|by apply Ht]|].
  plain_step. eapply runs_mono; [apply count_waiting_runs, Halive|]. intros qa q' ->.
  plain_step. eapply runs_mono; [apply count_waiting_runs, Halive|]. intros qh q' ->.
  plain_step. split; [done|]. destruct (_ =? _); [destruct (_ =? _); [done|]|]; destruct (_ <? _); (by left) || by right.
Qed.

(** ** The members *)

Lemma add_members_runs w p l g q :
  heap q !! p = Some g ->
  runs (add_members w p l) q (fun _ q' => exists m,
    q' = set_QueuedPlayers m (put_group p (with_Players (list_to_set l ∪ Players g) g) q) /\
    forall guid, m !! guid = if decide (guid ∈ l) then Some (mkPlayerQueueInfo (now w) p) else m_QueuedPlayers q !! guid).
Proof.
  revert g q. induction l as [|x l IH]; intros g q Hg; cbn [add_members].
  - plain_step. exists (m_QueuedPlayers q). split.
    + assert (with_Players (list_to_set [] ∪ Players g) g = g) as -> by (cbn; rewrite union_empty_l_L; by destruct g).
      unfold put_group, set_heap. rewrite insert_id by done. by destruct q.
    + intros guid. by rewrite decide_False by apply not_elem_of_nil.
  - plain_step. plain_step. plain_step. eapply deref_group_runs; [exact Hg|]. plain_step. plain_step.
    set (g1 := with_Players _ g). set (q1 := put_group p g1 _).
    eapply runs_mono; [apply (IH g1 q1), lookup_insert_eq|]. intros [] q' (m & -> & Hm). exists m. split.
    + unfold q1, put_group, set_heap, set_QueuedPlayers. cbn. rewrite insert_insert_eq. do 2 f_equal. unfold g1, with_Players. cbn. f_equal.
      by rewrite (assoc_L (∪)), (comm_L (∪) (list_to_set l)).
    + intros guid. rewrite Hm. cbn. destruct (decide (guid = x)) as [->|Hn].
      * rewrite lookup_insert_eq. rewrite (decide_True (P:=x ∈ x :: l)) by (by left). by destruct (decide _).
      * rewrite lookup_insert_ne by done. destruct (decide (guid ∈ l)).
        -- by rewrite decide_True by (by right).
        -- rewrite decide_False; [done|]. by intros [->|?]%elem_of_cons.
Qed.

(** ** The whole of it *)

Lemma AddGroup_runs t travel w leader_team members bracket arenaType isRated isPremade arenaRating mmr teamid q :
  consistent None t travel q -> a_team leader_team -> 0 <= bracket < 16 ->
  members <> [] -> zlen members <= group_cap -> (forall guid, guid ∈ members -> m_QueuedPlayers q !! guid = None) ->
  runs (AddGroup w leader_team members t bracket arenaType isRated isPremade arenaRating mmr teamid) q
    (fun p q' => consistent None t travel q' /\ p = next_group q /\ next_group q' = next_group q + 1 /\
      (forall guid, guid ∈ members -> exists pl, m_QueuedPlayers q' !! guid = Some pl /\ GroupInfo pl = p)).
Proof.
  intros Hok Hleader Hb Hsome Hfew Habsent. unfold AddGroup. plain_step. plain_step. set (p := next_group q).
  plain_step. plain_step. set (g0 := mkGroup _ _ _ _ _ _ _ _ _ _ _ _ _). set (q1 := set_heap _ _ q).
  plain_step. eapply runs_mono; [apply (choose_team_runs w leader_team t bracket q1); [done| |]|].
  { intros b k x Hx. cbn. apply lookup_insert_is_Some'. right. by eapply go_alive; [apply Hok|]. }
  { intros i Hi. apply (bo_free _ _ _ _ (co_bgs _ _ _ _ Hok)) in Hi as (b & Hb' & _). by exists b. }
  intros team q' [-> Hteam]. plain_step. eapply deref_group_runs; [apply lookup_insert_eq|]. plain_step. plain_step.
  set (g1 := with_Team team g0). set (q2 := put_group p g1 q1). set (index := (if isRated || isPremade then 0 else BG_TEAMS_COUNT) + _).
  plain_step. apply (runs_mono _ _ (fun _ q3 => said q2 q3)).
  { destruct (_ && _ && _); plain_step; reflexivity. }
  intros [] q3 E3. assert (heap q3 !! p = Some g1) as Hg3 by (rewrite (f_equal heap E3 : heap q3 = heap q2); apply lookup_insert_eq).
  plain_step. eapply runs_mono; [by apply add_members_runs|]. intros [] q4 (m & -> & Hm). plain_step. plain_step.
  set (q4 := set_QueuedPlayers _ _). set (q5 := put_queue bracket index _ q4). set (g2 := with_Players (list_to_set members ∪ Players g1) g1).
  assert (side index = team /\ 0 <= index < 4) as [Hside Hindex].
  { unfold index. destruct Hteam as [->| ->], (isRated || isPremade); (split; [done|by split]). }
  assert (joined t w (bracket, index) members g2 q q5) as J.
  { assert (m_QueuedGroups q3 = m_QueuedGroups q) as Eg by exact (f_equal m_QueuedGroups E3).
    assert (forall b k, queue q4 b k = queue q b k) as Eq by (intros b k; unfold queue; cbn; by rewrite Eg).
    split; try done.
    - unfold q5. cbn. rewrite (f_equal heap E3 : heap q3 = heap q2). cbn. rewrite !insert_insert_eq. done.
    - exact (f_equal next_group E3).
    - intros b k. unfold q5. rewrite queue_put, !Eq. destruct (decide _) as [[= -> ->]|]; done.
    - intros guid. unfold q5. cbn. rewrite Hm. by rewrite (f_equal m_QueuedPlayers E3 : m_QueuedPlayers q3 = m_QueuedPlayers q).
    - exact (f_equal bgs E3).
    - exact (f_equal next_instance E3).
    - exact (f_equal BGFreeSlotQueue E3).
    - cbn. by rewrite union_empty_r_L. }
  assert (consistent None t travel q5) as Hok5 by (exact (joined_consistent None t w travel (bracket, index) members g2 q q5 Hok (conj Hb Hindex) Hsome Hfew Habsent J)).
  plain_step. apply (runs_mono _ _ (fun _ q6 => said q5 q6)).
  - destruct (_ && _ && _); [|plain_step; reflexivity]. destruct (bg_template w t); [|plain_step; reflexivity].
    plain_step. plain_step. plain_step. eapply runs_mono; [apply count_waiting_runs; intros x; apply Hok5|]. intros qa q' ->. plain_step.
    eapply runs_mono; [apply count_waiting_runs; intros x; apply Hok5|]. intros qh q' ->. plain_step. reflexivity.
  - intros [] q6 E6. plain_step. split; [by eapply said_consistent|]. split; [done|].
    split; [rewrite (f_equal next_group E6 : next_group q6 = next_group q5); apply (jn_next _ _ _ _ _ _ _ J)|].
    intros guid Hin. rewrite (f_equal m_QueuedPlayers E6 : m_QueuedPlayers q6 = m_QueuedPlayers q5), (jn_players _ _ _ _ _ _ _ J).
    rewrite decide_True by done. by eexists.
Qed.
