(* ===== verification/BgQueueHistory.v ===== *)
(** * BattlegroundQueue: any history of the queue

    Joining, leaving, answers to invitations, their expiry, arrivals in the battleground
    and departures from it, battlegrounds that change their state or end, and updates, in
    any order. *)

From S2P Require Import Prelude.
From S2P Require Import EventProcessor.
From S2P Require Import BattlegroundQueue.
From S2P Require Import BgQueueSpec.
From S2P Require Import BgQueueInvite.
From S2P Require Import BgQueueUpdate.
From S2P Require Import BgQueueMatch.
From S2P Require Import BgQueueRated.
From S2P Require Import BgQueueLeave.
From S2P Require Import BgQueueJoin.

(** ** Histories *)

(** What happens to a queue. *)
Inductive command :=
| Join (w : World) (leader_team : Z) (members : list Z) (bracket arenaType : Z) (isRated isPremade : bool) (arenaRating mmr teamid : Z)
| Leave (fuel : nat) (w : World) (guid : Z)
| Remind (w : World) (guid instance removeTime queueSlot : Z)
| Expire (fuel : nat) (w : World) (guid instance removeTime queueSlot : Z)
| Port (fuel : nat) (w : World) (guid : Z) (bracket : option Z) (enter may_enter flagged : bool)
| Arrive (guid i team : Z)
| Depart (i guid : Z)
| Status (i status : Z)
| Finish (i : Z)
| Update (fuel : nat) (w : World) (bracket arenaType : Z) (isRated : bool) (arenaRating : Z).

Abbreviation travellers := (list (Z * (Z * Z))).

Fixpoint arrived (x : Z * (Z * Z)) (l : travellers) : travellers :=
  match l with [] => [] | y :: l => if decide (x = y) then l else y :: arrived x l end.

(** Who is ported is on the way until he arrives; a battleground gone meanwhile is not entered. *)
Definition act (t : Z) (c : command) (travel : travellers) : T travellers :=
  match c with
  | Join w leader_team members bracket arenaType isRated isPremade arenaRating mmr teamid =>
    _ ← AddGroup w leader_team members t bracket arenaType isRated isPremade arenaRating mmr teamid; mret travel
  | Leave fuel w guid => RemovePlayer fuel w guid true ;; mret travel
  | Remind w guid instance removeTime queueSlot => InviteEvent_Execute w guid instance t removeTime queueSlot ;; mret travel
  | Expire fuel w guid instance removeTime queueSlot => RemoveEvent_Execute fuel w guid instance t removeTime queueSlot ;; mret travel
  | Port fuel w guid bracket enter may_enter flagged =>
    sent ← HandleBattleFieldPort fuel w t guid bracket enter may_enter flagged;
    mret (match sent with Some place => (guid, place) :: travel | None => travel end)
  | Arrive guid i team =>
    q ← get; (match bgs q !! i with Some _ => AddPlayer i guid team | None => mret tt end) ;; mret (arrived (guid, (i, team)) travel)
  | Depart i guid => RemovePlayerAtLeave i guid ;; mret travel
  | Status i status => b ← deref_bg i; modify (put_bg i (with_status status b)) ;; mret travel
  | Finish i => delete_Battleground i ;; mret travel
  | Update fuel w bracket arenaType isRated arenaRating =>
    BattlegroundQueueUpdate fuel w t bracket arenaType isRated arenaRating ;; mret travel
  end.

Definition many_turns (fuel : nat) : Prop := group_cap <= Z.of_nat fuel.

(** What the callers see to. *)
Definition allowed (t : Z) (c : command) (travel : travellers) (q : BgQueue) : Prop :=
  match c with
  | Join _ leader_team members bracket _ _ _ _ _ _ =>
    a_team leader_team /\ 0 <= bracket < 16 /\ members <> [] /\ zlen members <= group_cap /\
    forall guid, guid ∈ members -> m_QueuedPlayers q !! guid = None
  | Leave fuel _ _ | Expire fuel _ _ _ _ _ | Port fuel _ _ _ _ _ _ => many_turns fuel
  | Remind _ _ _ _ _ => True
  | Arrive guid i team => (guid, (i, team)) ∈ travel /\ forall b, bgs q !! i = Some b -> m_Players b !! guid = None
  | Depart i _ | Status i _ | Finish i => is_Some (bgs q !! i)
  | Update fuel w bracket _ isRated _ => sound_world w t isRated /\
    (2 * (length (queue q bracket BG_QUEUE_NORMAL_ALLIANCE) + length (queue q bracket BG_QUEUE_NORMAL_HORDE)) <= fuel)%nat
  end.

Inductive reachable (t : Z) : travellers -> BgQueue -> Prop :=
| reach_start : reachable t [] new_BattlegroundQueue
| reach_act travel q c travel' q' :
    reachable t travel q -> allowed t c travel q -> act t c travel q = (Ok travel', q') -> reachable t travel' q'.

(** ** Invitations answered and expired *)

Lemma IsPlayerInvited_runs t travel guid instance removeTime q :
  consistent None t travel q -> runs (IsPlayerInvited guid instance removeTime) q (fun r q' => q' = q).
Proof.
  intros Hok. unfold IsPlayerInvited. plain_step. plain_step. destruct (m_QueuedPlayers q !! guid) as [pl|] eqn:Hpl; [|by plain_step].
  destruct (po_player _ (co_players _ _ _ _ Hok) _ _ Hpl) as (g & Hg & _). plain_step. eapply deref_group_runs; [exact Hg|]. by plain_step.
Qed.

Lemma GetPlayerGroupInfoData_runs t travel guid q :
  consistent None t travel q -> runs (GetPlayerGroupInfoData guid) q (fun r q' => q' = q /\
    forall g, r = Some g -> exists pl, m_QueuedPlayers q !! guid = Some pl /\ heap q !! GroupInfo pl = Some g).
Proof.
  intros Hok. unfold GetPlayerGroupInfoData. plain_step. plain_step. destruct (m_QueuedPlayers q !! guid) as [pl|] eqn:Hpl; [|by plain_step].
  destruct (po_player _ (co_players _ _ _ _ Hok) _ _ Hpl) as (g & Hg & _). plain_step. eapply deref_group_runs; [exact Hg|]. plain_step.
  split; [done|]. intros g' [= <-]. eauto.
Qed.

(** Leaving, in the queue or not. *)
Lemma RemovePlayer_leaves t travel fuel w guid q :
  consistent None t travel q -> many_turns fuel -> runs (RemovePlayer fuel w guid true) q (fun _ q' => consistent None t travel q').
Proof.
  intros Hok Hf. destruct (m_QueuedPlayers q !! guid) as [pl|] eqn:Hpl.
  - destruct (po_player _ (co_players _ _ _ _ Hok) _ _ Hpl) as (g & Hg & _).
    pose proof (io_small _ _ (co_invites _ _ _ _ Hok) _ _ Hg). unfold many_turns in Hf.
    apply (RemovePlayer_runs t travel fuel w guid true pl g q); [done|done|done|lia|by left].
  - eapply runs_mono; [by apply RemovePlayer_absent|]. intros [] q' E. by eapply said_consistent.
Qed.

Lemma InviteEvent_Execute_runs t travel w guid instance removeTime slot q :
  consistent None t travel q ->
  runs (InviteEvent_Execute w guid instance t removeTime slot) q (fun _ q' => consistent None t travel q').
Proof.
  intros Hok. unfold InviteEvent_Execute. destruct (negb _); [by plain_step|]. plain_step. plain_step.
  destruct (GetBattleground q instance t); [|by plain_step]. destruct (_ <? _); [|by plain_step].
  plain_step. eapply runs_mono; [by eapply IsPlayerInvited_runs|]. intros [|] q' ->; plain_step; [by apply consistent_emit|done].
Qed.

Lemma RemoveEvent_Execute_runs t travel fuel w guid instance removeTime slot q :
  consistent None t travel q -> many_turns fuel ->
  runs (RemoveEvent_Execute fuel w guid instance t removeTime slot) q (fun _ q' => consistent None t travel q').
Proof.
  intros Hok Hf. unfold RemoveEvent_Execute. destruct (negb _); [by plain_step|]. destruct (_ <? _); [|by plain_step].
  plain_step. eapply runs_mono; [by eapply IsPlayerInvited_runs|]. intros [|] q' ->; [|by plain_step]. plain_step. plain_step. cbv zeta.
  repeat plain_step. eapply runs_mono; [apply (RemovePlayer_leaves t travel); [by apply consistent_emit|done]|]. intros [] q1 Hok1. plain_step.
  apply (runs_mono _ _ (fun _ q2 => consistent None t travel q2)).
  - destruct (GetBattleground q instance t) as [b|]; [|by plain_step]. destruct (_ && _); plain_step; [by apply consistent_emit|done].
  - intros [] q2 Hok2. plain_step. by apply consistent_emit.
Qed.

Lemma HandleBattleFieldPort_runs t travel fuel w guid bracket enter may_enter flagged q :
  consistent None t travel q -> many_turns fuel ->
  runs (HandleBattleFieldPort fuel w t guid bracket enter may_enter flagged) q (fun sent q' =>
    consistent None t (match sent with Some place => (guid, place) :: travel | None => travel end) q').
Proof.
  intros Hok Hf. unfold HandleBattleFieldPort. plain_step. eapply runs_mono; [by eapply GetPlayerGroupInfoData_runs|].
  intros [g|] q' [-> Hinfo]; [|by plain_step]. destruct (Hinfo g eq_refl) as (pl & Hpl & Hg).
  destruct (negb (invited g) && enter) eqn:Ec; [by plain_step|]. plain_step. plain_step. cbv zeta.
  assert (forall br, runs (if enter && (negb (ArenaType g =? 0) || may_enter)
    then if negb flagged then mret None
      else modify (emit (OutStatus guid (IsInvitedToBGInstanceGUID g) STATUS_IN_PROGRESS)) ;; RemovePlayer fuel w guid false ;;
        mret (Some (IsInvitedToBGInstanceGUID g, Team g))
    else (if IsRated g && invited g && arena_team_exists w (Team g)
          then modify (emit (OutMemberLost (Team g) guid true (OpponentsMatchmakerRating g))) else mret tt) ;;
      modify (emit (OutStatus guid (IsInvitedToBGInstanceGUID g) STATUS_NONE)) ;; modify (emit (OutRemoveQueueId guid)) ;;
      RemovePlayer fuel w guid true ;; (if ArenaType g =? 0 then modify (emit (OutScheduleUpdate t br)) else mret tt) ;; mret None) q
    (fun sent q' => consistent None t (match sent with Some place => (guid, place) :: travel | None => travel end) q')) as Hmain.
  { intros br. destruct (enter && _) eqn:Ee.
    - destruct (negb flagged); [by plain_step|]. repeat plain_step. apply andb_true_iff in Ee as [-> _].
      rewrite andb_true_r in Ec. apply negb_false_iff in Ec. pose proof (io_small _ _ (co_invites _ _ _ _ Hok) _ _ Hg). unfold many_turns in Hf.
      eapply runs_mono; [apply (RemovePlayer_runs t travel fuel w guid false pl g); [by apply consistent_emit|done|done|lia|by right]|].
      intros [] q1 Hok1. by plain_step.
    - plain_step. apply (runs_mono _ _ (fun _ q1 => consistent None t travel q1)).
      { destruct (_ && _ && _); plain_step; [by apply consistent_emit|done]. }
      intros [] q1 Hok1. repeat plain_step.
      eapply runs_mono; [apply (RemovePlayer_leaves t travel); [by do 2 apply consistent_emit|done]|]. intros [] q2 Hok2. plain_step.
      destruct (ArenaType g =? 0); repeat plain_step; [by apply consistent_emit|done]. }
  destruct (GetBattleground q _ _), (if enter then None else bg_template w t), bracket; try (by plain_step); apply Hmain.
Qed.

(** ** Inside the battleground *)

(** A battleground that is as it was but for its counters. *)
Record recounted (b b' : Battleground) : Prop := {
  rc_type : m_TypeID b' = m_TypeID b;
  rc_arena : m_IsArena b' = m_IsArena b;
  rc_max : m_MaxPlayersPerTeam b' = m_MaxPlayersPerTeam b;
  rc_free : m_InBGFreeSlotQueue b' = m_InBGFreeSlotQueue b;
  rc_registered : registered b' = registered b
}.

Lemma recounted_consistent t travel travel' i b b' q :
  consistent None t travel q -> bgs q !! i = Some b -> recounted b b' ->
  (forall x, x ∈ travel' -> x ∈ travel) ->
  (forall j team, j <> i -> is_Some (bgs q !! j) -> on_the_way travel' j team = on_the_way travel j team) ->
  (forall guid team, m_Players b' !! guid = Some team -> a_team team) ->
  (forall team, a_team team -> counted travel' q i b' team) ->
  consistent None t travel' (put_bg i b' q).
Proof.
  intros [G P [O1 O2 O3 O4 O5 O6 O7 O8 O9 O10] I] Hb [R1 R2 R3 R4 R5] Hsub Hway Hteams Hcount.
  assert (forall j c, bgs (put_bg i b' q) !! j = Some c -> (j = i /\ c = b') \/ (j <> i /\ bgs q !! j = Some c)) as Hcases.
  { intros j c. cbn. intros [[-> <-]|[? ?]]%lookup_insert_Some; auto. }
  split; [by eapply groups_ok_heap, G|by eapply players_ok_heap, P| |by destruct I].
  split; try done.
  - intros j c team Hc Ht. apply (counted_heap _ q); [done|]. destruct (Hcases _ _ Hc) as [[-> ->]|[Hn Hq]]; [by apply Hcount|].
    destruct (O1 j c team Hq Ht) as [C1 C2 C3 C4]. split; try done. rewrite Hway by (done || by eexists). done.
  - intros j c guid team Hc. destruct (Hcases _ _ Hc) as [[-> ->]|[Hn Hq]]; [apply Hteams|exact (O2 j c guid team Hq)].
  - intros j c Hc. destruct (Hcases _ _ Hc) as [[-> ->]|[Hn Hq]]; [rewrite R1|]; eauto.
  - intros j c Hc. destruct (Hcases _ _ Hc) as [[-> ->]|[Hn Hq]]; [rewrite R5|]; eauto.
  - intros j c Hc. destruct (Hcases _ _ Hc) as [[-> ->]|[Hn Hq]]; [rewrite R3|]; eauto.
  - intros j [c Hc]. apply O6. destruct (Hcases _ _ Hc) as [[-> ->]|[Hn Hq]]; by eexists.
  - intros j. change (free_slot_queue t (put_bg i b' q)) with (free_slot_queue t q). rewrite O7. split.
    + intros (c & Hc & Hf). destruct (decide (j = i)) as [->|Hn].
      * exists b'. split; [apply lookup_insert_eq|]. congruence.
      * exists c. cbn. by rewrite lookup_insert_ne.
    + intros (c & Hc & Hf). destruct (Hcases _ _ Hc) as [[-> ->]|[Hn Hq]]; [exists b; split; [done|congruence]|by exists c].
  - intros j c Hc. destruct (Hcases _ _ Hc) as [[-> ->]|[Hn Hq]]; [rewrite R2, R4|]; eauto.
  - intros guid j team Hin. by apply (O10 guid), Hsub.
Qed.

Lemma arrived_sub x l y : y ∈ arrived x l -> y ∈ l.
Proof.
  induction l as [|z l IH]; cbn; [done|]. destruct (decide (x = z)); [by right|].
  intros [->|Hy]%elem_of_cons; [by left|right; by apply IH].
Qed.

Lemma arrived_on_the_way guid i team l j tm :
  (guid, (i, team)) ∈ l -> on_the_way (arrived (guid, (i, team)) l) j tm = on_the_way l j tm - (if decide ((i, team) = (j, tm)) then 1 else 0).
Proof.
  unfold on_the_way, zlen. induction l as [|y l IH]; [by intros ?%not_elem_of_nil|]. cbn [arrived]. intros Hin.
  destruct (decide ((guid, (i, team)) = y)) as [<-|Hn].
  - rewrite filter_cons. cbn [snd]. destruct (decide ((i, team) = (j, tm))); cbn [length]; lia.
  - apply elem_of_cons in Hin as [Hin|Hin]; [by subst y|]. specialize (IH Hin). rewrite !filter_cons.
    destruct (decide (y.2 = (j, tm))); cbn [length]; lia.
Qed.

(** One more inside. *)
Definition entered (guid team : Z) (b : Battleground) : Battleground :=
  with_inside (<[guid := team]> (m_Players b))
    (if team =? ALLIANCE then u32 (m_PlayersCountAlliance b + 1) else m_PlayersCountAlliance b)
    (if team =? ALLIANCE then m_PlayersCountHorde b else u32 (m_PlayersCountHorde b + 1)) b.

Lemma inside_entered guid team b tm :
  m_Players b !! guid = None -> inside (entered guid team b) tm = inside b tm + Z.b2z (tm =? team).
Proof. intros Hn. unfold inside, entered. cbn. by rewrite countP_insert_new. Qed.

Lemma entered_counts guid team b tm :
  a_team team -> a_team tm ->
  GetPlayersCountByTeam (entered guid team b) tm = (if tm =? team then u32 (GetPlayersCountByTeam b tm + 1) else GetPlayersCountByTeam b tm) /\
  GetInvitedCount (entered guid team b) tm = GetInvitedCount b tm /\ GetAwaitingPlayers (entered guid team b) tm = GetAwaitingPlayers b tm /\
  cap (entered guid team b) = cap b.
Proof. by intros [->| ->] [->| ->]. Qed.

Lemma AddPlayer_runs t travel guid i team b q :
  consistent None t travel q -> bgs q !! i = Some b -> (guid, (i, team)) ∈ travel -> m_Players b !! guid = None ->
  runs (AddPlayer i guid team) q (fun _ q' => consistent None t (arrived (guid, (i, team)) travel) q').
Proof.
  intros Hok Hb Hin Hnew. pose proof (co_bgs _ _ _ _ Hok) as Ho. destruct (bo_travel _ _ _ _ Ho _ _ _ Hin) as [_ Hteam].
  unfold AddPlayer. plain_step. eapply deref_bg_runs; [exact Hb|]. plain_step. fold (entered guid team b).
  eapply recounted_consistent; [exact Hok|exact Hb|done|apply arrived_sub| | |].
  - intros j tm Hj _. rewrite arrived_on_the_way by done. rewrite decide_False; [lia|]. congruence.
  - intros x tm. cbn. intros [[<- <-]|[_ Hx]]%lookup_insert_Some; [done|]. by eapply bo_teams.
  - intros tm Ht. pose proof (bo_counted _ _ _ _ Ho i b tm Hb Ht) as C.
    pose proof (consistent_in_range _ _ _ _ _ _ Ho Hb tm Ht) as [Hr _]. destruct C as [C1 C2 C3 C4]. unfold group_cap in Hr.
    destruct (entered_counts guid team b tm Hteam Ht) as (E1 & E2 & E3 & E4). pose proof (inside_entered guid team b tm Hnew) as Ei.
    pose proof (arrived_on_the_way guid i team travel i tm Hin) as Ew. pose proof (on_the_way_nonneg (arrived (guid, (i, team)) travel) i tm).
    pose proof (invited_of_nonneg q i tm). pose proof (inside_nonneg b tm).
    assert ((if decide ((i, team) = (i, tm)) then 1 else 0) = Z.b2z (tm =? team)) as Ed.
    { destruct (Z.eqb_spec tm team) as [->|]; [by rewrite decide_True|]. rewrite decide_False; [done|]. congruence. }
    rewrite Ed in Ew. split; rewrite ?E1, ?E2, ?E3, ?E4, ?Ei; [lia|done|done|].
    destruct (tm =? team); cbn [Z.b2z] in *; [rewrite u32_id; lia|lia].
Qed.

(** One less. *)
Definition gone_out (guid team : Z) (b : Battleground) : Battleground :=
  DecreaseInvitedCount team (with_inside (delete guid (m_Players b))
    (if team =? ALLIANCE then u32 (m_PlayersCountAlliance b - 1) else m_PlayersCountAlliance b)
    (if team =? ALLIANCE then m_PlayersCountHorde b else u32 (m_PlayersCountHorde b - 1)) b).

Lemma gone_out_counts guid team b tm :
  a_team team -> a_team tm ->
  GetPlayersCountByTeam (gone_out guid team b) tm = (if tm =? team then u32 (GetPlayersCountByTeam b tm - 1) else GetPlayersCountByTeam b tm) /\
  GetInvitedCount (gone_out guid team b) tm = (if tm =? team then u32 (GetInvitedCount b tm - 1) else GetInvitedCount b tm) /\
  GetAwaitingPlayers (gone_out guid team b) tm = GetAwaitingPlayers b tm /\ cap (gone_out guid team b) = cap b.
Proof. by intros [->| ->] [->| ->]. Qed.

Lemma gone_out_players guid team b : m_Players (gone_out guid team b) = delete guid (m_Players b).
Proof. unfold gone_out, DecreaseInvitedCount. by destruct (team =? ALLIANCE). Qed.

Lemma gone_out_recounted guid team b : recounted b (gone_out guid team b).
Proof. unfold gone_out, DecreaseInvitedCount. by destruct (team =? ALLIANCE). Qed.

Lemma gone_out_consistent t travel i guid team b q :
  consistent None t travel q -> bgs q !! i = Some b -> m_Players b !! guid = Some team ->
  consistent None t travel (put_bg i (gone_out guid team b) q).
Proof.
  intros Hok Hb Hin. pose proof (co_bgs _ _ _ _ Hok) as Ho. pose proof (bo_teams _ _ _ _ Ho _ _ _ _ Hb Hin) as Hteam.
  eapply recounted_consistent; [exact Hok|exact Hb|apply gone_out_recounted|done|done| |].
  - intros x tm. rewrite gone_out_players. intros [_ Hx]%lookup_delete_Some. by eapply bo_teams.
  - intros tm Ht. pose proof (bo_counted _ _ _ _ Ho i b tm Hb Ht) as C.
    pose proof (consistent_in_range _ _ _ _ _ _ Ho Hb tm Ht) as [Hr _]. destruct C as [C1 C2 C3 C4]. unfold group_cap in Hr.
    destruct (gone_out_counts guid team b tm Hteam Ht) as (E1 & E2 & E3 & E4).
    assert (inside (gone_out guid team b) tm = inside b tm - Z.b2z (tm =? team)) as Ei.
    { unfold inside. rewrite gone_out_players. by rewrite (countP_delete _ _ _ team). }
    pose proof (inside_nonneg (gone_out guid team b) tm). pose proof (on_the_way_nonneg travel i tm). pose proof (invited_of_nonneg q i tm).
    split; rewrite ?E1, ?E2, ?E3, ?E4, ?Ei; [|done| |]; (destruct (tm =? team); cbn [Z.b2z] in *; rewrite ?u32_id by lia; done || lia).
Qed.

Lemma RemovePlayerAtLeave_runs t travel i guid q :
  consistent None t travel q -> is_Some (bgs q !! i) ->
  runs (RemovePlayerAtLeave i guid) q (fun _ q' => consistent None t travel q').
Proof.
  intros Hok [b Hb]. unfold RemovePlayerAtLeave. plain_step. eapply deref_bg_runs; [exact Hb|].
  destruct (m_Players b !! guid) as [team|] eqn:Hin; [|by plain_step]. plain_step. plain_step.
  plain_step. eapply deref_bg_runs; [apply lookup_insert_eq|]. plain_step. plain_step. fold (gone_out guid team b).
  set (q1 := put_bg i (gone_out guid team b) _).
  assert (consistent None t travel q1) as Hok1.
  { assert (q1 = put_bg i (gone_out guid team b) q) as ->; [|by apply gone_out_consistent].
    unfold q1, put_bg, set_bgs. cbn. by rewrite insert_insert_eq. }
  assert (bgs q1 !! i = Some (gone_out guid team b)) as Hb1 by apply lookup_insert_eq.
  plain_step. eapply deref_bg_runs; [exact Hb1|]. destruct (_ && _); [|by plain_step]. plain_step.
  eapply runs_mono; [by eapply AddToBGFreeSlotQueue_runs|]. intros [] q2 (b2 & S2 & Hr). plain_step. apply consistent_emit.
  eapply slots_consistent; [exact Hok1|exact Hb1|exact S2|by left|congruence].
Qed.

Lemma forgotten_consistent t travel i b q :
  consistent None t travel q -> bgs q !! i = Some b -> m_InBGFreeSlotQueue b = false ->
  consistent None t travel (set_bgs (delete i (bgs q)) (next_instance q) (BGFreeSlotQueue q) q).
Proof.
  intros [G P [O1 O2 O3 O4 O5 O6 O7 O8 O9 O10] I] Hb Hf.
  assert (forall j c, delete i (bgs q) !! j = Some c -> bgs q !! j = Some c) as Hsub by (by intros j c [_ ?]%lookup_delete_Some).
  split; [by eapply groups_ok_heap, G|by eapply players_ok_heap, P| |by destruct I].
  split; try done.
  - intros j c team Hc%Hsub Ht. apply (counted_heap _ q); [done|]. by apply O1.
  - intros j c guid team Hc%Hsub. by apply (O2 j).
  - intros j c Hc%Hsub. eauto.
  - intros j c Hc%Hsub. eauto.
  - intros j c Hc%Hsub. eauto.
  - intros j [c Hc%Hsub]. apply O6. by exists c.
  - intros j. change (free_slot_queue t (set_bgs _ _ _ q)) with (free_slot_queue t q). rewrite O7. cbn. split.
    + intros (c & Hc & Hfc). exists c. rewrite lookup_delete_ne; [done|]. intros <-. congruence.
    + intros (c & Hc%Hsub & Hfc). by exists c.
  - intros j c Hc%Hsub. eauto.
Qed.

Lemma delete_Battleground_runs t travel i q :
  consistent None t travel q -> is_Some (bgs q !! i) ->
  runs (delete_Battleground i) q (fun _ q' => consistent None t travel q').
Proof.
  intros Hok [b Hb]. unfold delete_Battleground. plain_step. eapply runs_mono; [by eapply RemoveFromBGFreeSlotQueue_runs|].
  intros [] q1 (b1 & S1 & Hr & Hf). plain_step. eapply forgotten_consistent; [|rewrite (sc_bgs _ _ _ _ _ _ S1); apply lookup_insert_eq|done].
  eapply slots_consistent; [exact Hok|exact Hb|exact S1|by left|congruence].
Qed.

(** ** Any history *)

Lemma start_consistent t : consistent None t [] new_BattlegroundQueue.
Proof.
  assert (forall b k p, p ∉ queue new_BattlegroundQueue b k) as Eq by (intros b k p; apply not_elem_of_nil).
  assert (forall (A : Type) (i : Z) (x : A), (∅ : gmap Z A) !! i = Some x -> False) as En by (intros A i x; by rewrite lookup_empty).
  split.
  - split.
    + intros b k p []%Eq.
    + intros p [x []%En].
    + intros b k b' k' p []%Eq.
    + intros b k. apply NoDup_nil_2.
    + intros b k p g []%Eq.
    + intros p [x []%En].
    + done.
  - split; [intros guid pl []%En|intros p g guid []%En|intros p g []%En].
  - split.
    + intros i b team []%En.
    + intros i b guid team []%En.
    + intros i b []%En.
    + intros i b []%En.
    + intros i b []%En.
    + intros i [x []%En].
    + intros i. split; [intros []%not_elem_of_nil|intros (b & []%En & _)].
    + intros i b []%En.
    + apply NoDup_nil_2.
    + intros guid i team []%not_elem_of_nil.
  - split; [intros p g []%En|intros p g []%En|intros p g []%En|done].
Qed.

(** Whatever is allowed is done without a fault, and keeps the queue consistent. *)
Lemma act_runs t c travel q :
  consistent None t travel q -> allowed t c travel q ->
  runs (act t c travel) q (fun travel' q' => consistent None t travel' q').
Proof.
  intros Hok Hal. destruct c; cbn [act allowed] in *.
  - destruct Hal as (H1 & H2 & H3 & H4 & H5). plain_step. eapply runs_mono; [by apply (AddGroup_runs t travel)|]. intros p q' (H & _). by plain_step.
  - plain_step. eapply runs_mono; [by apply (RemovePlayer_leaves t travel)|]. intros [] q' H. by plain_step.
  - plain_step. eapply runs_mono; [by apply (InviteEvent_Execute_runs t travel)|]. intros [] q' H. by plain_step.
  - plain_step. eapply runs_mono; [by apply (RemoveEvent_Execute_runs t travel)|]. intros [] q' H. by plain_step.
  - plain_step. eapply runs_mono; [by apply (HandleBattleFieldPort_runs t travel)|]. intros sent q' H. by plain_step.
  - destruct Hal as [Hin Hout]. plain_step. plain_step. plain_step. destruct (bgs q !! i) as [b|] eqn:Hb.
    + eapply runs_mono; [apply (AddPlayer_runs t travel guid i team b); [done|done|done|by apply Hout]|]. intros [] q' H. by plain_step.
    + repeat plain_step. split; try apply Hok. destruct (co_bgs _ _ _ _ Hok) as [O1 O2 O3 O4 O5 O6 O7 O8 O9 O10]. split; try done.
      * intros j c tm Hc Ht. destruct (O1 j c tm Hc Ht) as [C1 C2 C3 C4]. split; try done.
        rewrite arrived_on_the_way by done. rewrite decide_False; [lia|]. congruence.
      * intros x j tm Hx%arrived_sub. by apply (O10 x).
  - plain_step. eapply runs_mono; [by apply (RemovePlayerAtLeave_runs t travel)|]. intros [] q' H. by plain_step.
  - destruct Hal as [b Hb]. plain_step. eapply deref_bg_runs; [exact Hb|]. repeat plain_step. by eapply put_bg_consistent.
  - plain_step. eapply runs_mono; [by apply (delete_Battleground_runs t travel)|]. intros [] q' H. by plain_step.
  - destruct Hal as [Hw Hf]. plain_step. eapply runs_mono; [by apply (BattlegroundQueueUpdate_runs t travel)|]. intros [] q' H. by plain_step.
Qed.

Lemma reachable_consistent t travel q : reachable t travel q -> consistent None t travel q.
Proof.
  induction 1 as [|travel q c travel' q' _ IH Hal Hact]; [apply start_consistent|].
  pose proof (act_runs _ _ _ _ IH Hal) as H. unfold runs in H. by rewrite Hact in H.
Qed.
