(* ===== verification/BgQueueProps.v ===== *)
(** * BattlegroundQueue: what holds of every history, and what goes wrong without the assumptions *)

From S2P Require Import Prelude.
From S2P Require Import EventProcessor.
From S2P Require Import BattlegroundQueue.
From S2P Require Import BgQueueSpec.
From S2P Require Import BgQueueInvite.
From S2P Require Import BgQueueUpdate.
From S2P Require Import BgQueueMatch.
From S2P Require Import BgQueueRated.
From S2P Require Import BgQueueLeave.
From S2P Require Import BgQueueJoin.
From S2P Require Import BgQueueHistory.

(** ** A history *)

Definition after (t : Z) (s : travellers * BgQueue) (c : command) : travellers * BgQueue :=
  match act t c s.1 s.2 with (Ok travel, q) => (travel, q) | (Throw _, q) => (s.1, q) end.

Lemma reach_after t s c : reachable t s.1 s.2 -> allowed t c s.1 s.2 -> reachable t (after t s c).1 (after t s c).2.
Proof.
  intros Hr Ha. destruct (runs_inv _ _ _ (act_runs t c _ _ (reachable_consistent _ _ _ Hr) Ha)) as (travel & q & E & _).
  unfold after. rewrite E. by eapply reach_act.
Qed.

(** Warsong Gulch for ten a side, under test so that one player is enough. *)
Definition gulch : Template := mkTemplate false 10 5 20.
Definition demo_world (invitations : Z) : World :=
  mkWorld 1000 (fun _ => true) false 0 false false invitations 0 true false 0 0 (fun _ => false) (fun _ => Some gulch) true (fun _ => Some gulch).
Definition demo_fuel : nat := Z.to_nat group_cap.

Lemma demo_sound n : sound_world (demo_world n) 2 false.
Proof. split; cbn; unfold group_cap; [done|by intros ? [= <-]|intros ? ? [= <-] [= <-]|intros ? [= <-]]; cbn; repeat split; try done; lia. Qed.

Definition demo_start : travellers * BgQueue := ([], new_BattlegroundQueue).
Definition demo_alliance := after 2 demo_start (Join (demo_world 0) ALLIANCE [1; 2] 3 0 false false 0 0 0).
Definition demo_horde := after 2 demo_alliance (Join (demo_world 0) HORDE [7] 3 0 false false 0 0 0).
Definition demo_match := after 2 demo_horde (Update 8 (demo_world 0) 3 0 false 0).
Definition demo_ported := after 2 demo_match (Port demo_fuel (demo_world 0) 1 (Some 3) true true true).
Definition demo_inside := after 2 demo_ported (Arrive 1 1 ALLIANCE).
Definition demo_more := after 2 demo_inside (Join (demo_world 0) HORDE [8; 9] 3 0 false false 0 0 0).

Example demo_counts :
  (fun b => (GetInvitedCount b ALLIANCE, GetInvitedCount b HORDE, inside b ALLIANCE, GetFreeSlotsForTeam b HORDE)) <$> bgs demo_more.2 !! 1 = Some (2, 1, 1, 9)
  /\ demo_ported.1 = [(1, (1, ALLIANCE))] /\ demo_more.1 = [].
Proof. vm_compute. done. Qed.

Lemma absent_check l (m : gmap Z PlayerQueueInfo) guid :
  forallb (fun x => bool_decide (m !! x = None)) l = true -> guid ∈ l -> m !! guid = None.
Proof. intros H Hin. rewrite forallb_forall in H. apply (bool_decide_eq_true (m !! guid = None)), H. by apply list_elem_of_In. Qed.

Lemma demo_alliance_reachable : reachable 2 demo_alliance.1 demo_alliance.2.
Proof.
  apply reach_after; [exact (reach_start 2)|]. split; [by left|]. do 3 (split; [by vm_compute|]). intros guid. by apply absent_check.
Qed.

Lemma demo_reachable : reachable 2 demo_more.1 demo_more.2.
Proof.
  apply reach_after; [apply reach_after; [apply reach_after; [apply reach_after; [apply reach_after; [exact demo_alliance_reachable|]|]|]|]|].
  - split; [by right|]. do 3 (split; [by vm_compute|]). intros guid. by apply absent_check.
  - split; [apply demo_sound|]. vm_compute. lia.
  - unfold allowed, many_turns, demo_fuel. lia.
  - split; [vm_compute; by left|]. intros b Hb. vm_compute in Hb. by injection Hb as <-.
  - split; [by right|]. do 3 (split; [by vm_compute|]). intros guid. by apply absent_check.
Qed.

(** ** Properties *)

(** C36: Whatever the history of a queue - joins, answers, expiries, arrivals, departures,
    ends of battlegrounds and updates in any order - the next operation ends without
    following a dangling pointer or an invalid iterator, within the stated fuel; every
    queued player is in the group his entry points to, every group is alive and stands in
    exactly one queue, that of its side, and no group is empty. *)
Theorem queue_history_is_safe t travel q :
  reachable t travel q ->
  (forall c, allowed t c travel q -> exists travel' q', act t c travel q = (Ok travel', q')) /\
  (forall guid pl, m_QueuedPlayers q !! guid = Some pl ->
    exists g, heap q !! GroupInfo pl = Some g /\ guid ∈ Players g) /\
  (forall p g, heap q !! p = Some g -> Players g <> ∅ /\ exists bracket type,
    0 <= bracket < 16 /\ 0 <= type < 4 /\ p ∈ queue q bracket type /\ Team g = side type /\
    forall bracket' type', p ∈ queue q bracket' type' -> bracket' = bracket /\ type' = type).
Proof.
  intros Hr. pose proof (reachable_consistent _ _ _ Hr) as Hok. destruct Hok as [G P O I]. split; [|split].
  - intros c Hc. destruct (runs_inv _ _ _ (act_runs t c travel q (reachable_consistent _ _ _ Hr) Hc)) as (tr & q' & E & _). eauto.
  - apply P.
  - intros p g Hg. split; [by eapply po_nonempty|]. destruct (go_place _ G p (ex_intro _ g Hg)) as (b & k & Hb & Hk & Hin).
    exists b, k. split; [done|]. split; [done|]. split; [done|]. split; [by eapply go_side|].
    intros b' k' Hin'. by eapply go_once.
Qed.

Lemma queue_history_is_safe_witness : exists travel' q',
  act 2 (Update 20 (demo_world 1) 3 0 false 0) demo_more.1 demo_more.2 = (Ok travel', q').
Proof.
  apply (queue_history_is_safe 2 demo_more.1 demo_more.2 demo_reachable).
  split; [apply demo_sound|vm_compute; lia].
Defined.

(** C37: The counters of a battleground are exact in any history of allowed operations whose
    updates find every queued player online, templates with sane numbers of players and
    arenas only in rated queues: the invited of a team are those queued with an invitation to
    it, those on their way and those inside, never more than the places of the team unless it
    is an arena; the counter of those inside is right, and the 8-bit counter of those awaited
    is right modulo 256.  Players who are not found break it ([absent_players_are_taken_off]). *)
Theorem invited_counters_are_exact t travel q i b team :
  reachable t travel q -> bgs q !! i = Some b -> a_team team ->
  GetInvitedCount b team = invited_of q i team + on_the_way travel i team + inside b team /\
  GetPlayersCountByTeam b team = inside b team /\
  GetAwaitingPlayers b team = u8 (invited_of q i team) /\
  (m_IsArena b = false -> GetInvitedCount b team <= m_MaxPlayersPerTeam b).
Proof.
  intros Hr Hb Ht. pose proof (reachable_consistent _ _ _ Hr) as [_ _ O _].
  destruct (bo_counted _ _ _ _ O i b team Hb Ht) as [C1 C2 C3 C4]. repeat split; try done.
  intros Ha. unfold cap in C3. by rewrite Ha in C3.
Qed.

Lemma invited_counters_are_exact_witness : exists b, bgs demo_more.2 !! 1 = Some b /\ GetInvitedCount b ALLIANCE <= 10.
Proof.
  destruct (bgs demo_more.2 !! 1) as [b|] eqn:Hb; [|vm_compute in Hb; discriminate Hb].
  exists b. split; [reflexivity|].
  pose proof (invited_counters_are_exact 2 demo_more.1 demo_more.2 1 b ALLIANCE demo_reachable Hb (or_introl eq_refl)) as (_ & _ & _ & H).
  vm_compute in Hb. injection Hb as <-. by apply H.
Defined.

(** C38: Filling a running battleground ends - the fuel is twice the length of the two
    normal queues - and selects for each side groups of its queue that are not invited,
    none twice, that fit into the free places; unless the configuration says otherwise,
    the two sides are then left with equally many places but one, or a side has nobody
    left to balance with. *)
Theorem filling_ends_balanced t travel q fuel w i bracket b :
  reachable t travel q -> bgs q !! i = Some b ->
  (2 * (length (queue q bracket BG_QUEUE_NORMAL_ALLIANCE) + length (queue q bracket BG_QUEUE_NORMAL_HORDE)) <= fuel)%nat ->
  exists q', FillPlayersToBG fuel w i bracket (set_pools pool_Init pool_Init q) = (Ok tt, q') /\
    (forall team, an_index team ->
      NoDup (sel team q') /\
      (forall p, p ∈ sel team q' -> p ∈ queue q bracket (normal team) /\ exists g, heap q !! p = Some g /\ invited g = false) /\
      count team q' = weight q (sel team q') /\
      count team q' <= GetFreeSlotsForTeam b (team_of team)) /\
    (invitation_type w <> 0 ->
      balanced (GetFreeSlotsForTeam b ALLIANCE) (GetFreeSlotsForTeam b HORDE) (count TEAM_ALLIANCE q') (count TEAM_HORDE q')).
Proof.
  intros Hr Hb Hf. pose proof (no_pools_ok _ _ _ _ (reachable_consistent _ _ _ Hr)) as Hok.
  destruct (runs_inv _ _ _ (FillPlayersToBG_runs None t travel fuel w i bracket _ b Hok Hb (conj eq_refl eq_refl) Hf)) as ([] & q' & E & [Hs (rA & rH & [PA PH])] & Hbal).
  exists q'. split; [done|]. split; [|done]. pose proof (same_heap _ _ Hs) as Eh.
  assert (forall team rest, an_index team -> pool_ok (fun team => queue q bracket (normal team)) team (GetFreeSlotsForTeam b (team_of team)) q' rest ->
    NoDup (sel team q') /\ (forall p, p ∈ sel team q' -> p ∈ queue q bracket (normal team) /\ exists g, heap q !! p = Some g /\ invited g = false) /\
    count team q' = weight q (sel team q') /\ count team q' <= GetFreeSlotsForTeam b (team_of team)) as Hpool.
  { intros team rest Hi [P1 P2 P3 P4 P5]. split; [by apply NoDup_app in P1 as (? & _)|]. split; [|split; [|done]].
    - intros p Hp. destruct (P2 p) as (g & Hg & _ & _ & Hsrc); [apply elem_of_app; by left|]. split; [done|].
      exists g. split; [rewrite Eh in Hg; exact Hg|by apply (P3 p)].
    - unfold count. rewrite P4. by apply weight_heap. }
  intros team [->| ->]; [by eapply (Hpool TEAM_ALLIANCE); [left|]|by eapply (Hpool TEAM_HORDE); [right|]].
Qed.

Lemma filling_ends_balanced_witness : exists q', FillPlayersToBG 20 (demo_world 1) 1 3 (set_pools pool_Init pool_Init demo_more.2) = (Ok tt, q') /\
  count TEAM_HORDE q' <= 9.
Proof.
  destruct (bgs demo_more.2 !! 1) as [b|] eqn:Hb; [|vm_compute in Hb; discriminate Hb].
  destruct (filling_ends_balanced 2 demo_more.1 demo_more.2 20 (demo_world 1) 1 3 b demo_reachable Hb ltac:(vm_compute; lia)) as (q' & E & H & _).
  exists q'. split; [exact E|]. destruct (H TEAM_HORDE (or_intror eq_refl)) as (_ & _ & _ & Hle).
  vm_compute in Hb. injection Hb as <-. exact Hle.
Defined.

(** ** Players who are not in the world *)

(** Nobody of a group in a loading screen is counted when the group is invited. *)
Lemma invite_absent w p i l q :
  (forall guid, guid ∈ l -> online w guid = false) -> runs (invite_players w p i l) q (fun _ q' => q' = q).
Proof.
  induction l as [|guid l IH]; intros Hoff; cbn [invite_players]; [by plain_step|]. rewrite Hoff by (by left). repeat plain_step.
  apply IH. intros x Hx. apply Hoff. by right.
Qed.

Lemma InviteGroupToBG_absent w p i g b q :
  heap q !! p = Some g -> invited g = false -> bgs q !! i = Some b -> (forall guid, guid ∈ Players g -> online w guid = false) ->
  runs (InviteGroupToBG w p i (Team g)) q (fun _ q' =>
    heap q' = <[p := with_invite i (u32 (now w + INVITE_ACCEPT_WAIT_TIME)) g]> (heap q) /\
    m_QueuedPlayers q' = m_QueuedPlayers q /\ m_QueuedGroups q' = m_QueuedGroups q /\ next_group q' = next_group q /\
    (exists ids, bgs q' = <[i := with_arena ids (m_ArenaTeamMMR b) b]> (bgs q)) ).
Proof.
  intros Hg Hfree Hb Hoff. unfold InviteGroupToBG. plain_step. eapply deref_group_runs; [exact Hg|]. fold (sided (Team g) g). rewrite sided_own.
  repeat plain_step. rewrite Hfree. cbn [negb]. plain_step. eapply deref_bg_runs; [exact Hb|]. plain_step.
  apply (runs_mono _ _ (fun _ q1 => heap q1 = <[p := g]> (heap q) /\ m_QueuedPlayers q1 = m_QueuedPlayers q /\
    m_QueuedGroups q1 = m_QueuedGroups q /\ next_group q1 = next_group q /\ exists ids, bgs q1 = <[i := with_arena ids (m_ArenaTeamMMR b) b]> (bgs q))).
  - destruct (_ && _); plain_step; [repeat (split; [done|]); by eexists|]. repeat (split; [done|]). exists (m_ArenaTeamIds b). cbn.
    symmetry. apply insert_id. rewrite Hb. by destruct b.
  - intros [] q1 (E1 & E2 & E3 & E4 & E5). repeat plain_step.
    eapply runs_mono; [apply invite_absent; intros x Hx; apply Hoff; by apply guids_spec in Hx|]. intros [] q2 ->. plain_step.
    cbn. rewrite E1, insert_insert_eq. done.
Qed.

(** Without the assumption that everybody invited is in the world the counters go
    wrong: a group whose players are all in a loading screen is invited without being
    counted, but the first of them who leaves is taken off the count.  If nobody of the
    side was invited before, the counter wraps round to 4294967295 and the side of the
    battleground has no free slot any more. *)
Theorem absent_players_are_taken_off t travel q p g i b guid pl fuel w w' :
  reachable t travel q -> m_QueuedPlayers q !! guid = Some pl -> GroupInfo pl = p -> heap q !! p = Some g -> invited g = false ->
  bgs q !! i = Some b -> (forall x, x ∈ Players g -> online w x = false) -> GetInvitedCount b (Team g) = 0 ->
  exists q' b', (_ ← InviteGroupToBG w p i (Team g); RemovePlayer fuel w' guid true) q = (Ok tt, q') /\
    bgs q' !! i = Some b' /\ GetInvitedCount b' (Team g) = 4294967295 /\ GetFreeSlotsForTeam b' (Team g) = 0.
Proof.
  intros Hr Hpl <- Hg Hfree Hb Hoff Hzero. pose proof (reachable_consistent _ _ _ Hr) as Hok. destruct (co_bgs _ _ _ _ Hok) as [O1 O2 O3 O4 O5 O6 _ _ _ _].
  assert (runs (_ ← InviteGroupToBG w (GroupInfo pl) i (Team g); RemovePlayer fuel w' guid true) q (fun _ q' => exists b',
    bgs q' !! i = Some b' /\ m_MaxPlayersPerTeam b' = m_MaxPlayersPerTeam b /\ GetInvitedCount b' (Team g) = 4294967295)) as H.
  - plain_step. eapply runs_mono; [by apply InviteGroupToBG_absent|]. intros ok q1 (E1 & E2 & E3 & E4 & ids & E5).
    set (g1 := with_invite i _ g) in *. assert (heap q1 !! GroupInfo pl = Some g1) as Hg1 by (rewrite E1; apply lookup_insert_eq).
    assert (groups_ok q1) as G1.
    { eapply groups_ok_heap; [exact E3|exact E4| |apply Hok]. intros x. rewrite E1.
      destruct (decide (x = GroupInfo pl)) as [->|Hn]; [by rewrite lookup_insert_eq, Hg|by rewrite lookup_insert_ne]. }
    assert (known t q1) as K1.
    { intros j c. rewrite E5. intros [[<- <-]|[_ Hc]]%lookup_insert_Some; [exact (all_known _ _ _ (co_bgs _ _ _ _ Hok) _ _ Hb)|].
      exact (all_known _ _ _ (co_bgs _ _ _ _ Hok) _ _ Hc). }
    apply (RemovePlayer_first t fuel w' guid true pl g1 q1); [exact G1|exact K1|exact (io_type _ _ (co_invites _ _ _ _ Hok) _ _ Hg)|by rewrite E2|exact Hg1|].
    intros br k pos q2 _ S2.
    assert (exists b', bgs q2 !! i = Some b' /\ m_MaxPlayersPerTeam b' = m_MaxPlayersPerTeam b /\ GetInvitedCount b' (Team g) = 4294967295) as Hb2.
    { exists (left_bg true (Team g) (with_arena ids (m_ArenaTeamMMR b) b)).
      rewrite (f_equal bgs S2 : bgs q2 = told true g1 (bgs q1)). unfold told. cbn [g1 with_invite IsInvitedToBGInstanceGUID Team].
      rewrite E5, lookup_insert_eq, lookup_insert_eq. split; [done|]. split; [by rewrite (sb_max _ _ (left_bg_same _ _ _))|].
      pose proof (team_of_queued _ _ _ (co_groups _ _ _ _ Hok) Hg) as Ht.
      rewrite (proj1 (left_bg_counts true (Team g) (Team g) _ Ht Ht)), Z.eqb_refl. cbn [andb].
      change (GetInvitedCount (with_arena ids (m_ArenaTeamMMR b) b) (Team g)) with (GetInvitedCount b (Team g)). by rewrite Hzero. }
    unfold after_told. destruct (players _ =? 0); [plain_step; plain_step; plain_step; exact Hb2|].
    assert (invited (without guid g1) = true) as ->; [|cbn [negb andb]; plain_step; exact Hb2].
    unfold invited. cbn. pose proof (O6 i (ex_intro _ b Hb)). destruct (Z.eqb_spec i 0); [lia|done].
  - destruct (runs_inv _ _ _ H) as ([] & q' & E & b' & Hb' & Hm & Hc). exists q', b'. split; [exact E|]. split; [done|]. split; [done|].
    pose proof (O5 i b Hb) as Hs. unfold group_cap in Hs.
    pose proof (GetFreeSlotsForTeam_range b' (Team g) ltac:(lia) ltac:(lia)) as [H1 H2]. rewrite Hc, Hm in H2. lia.
Qed.

(** The world of a player in a loading screen. *)
Definition loading_world : World :=
  mkWorld 2000 (fun guid => negb (guid =? 8)) false 0 false false 0 0 true false 0 0 (fun _ => false) (fun _ => Some gulch) true (fun _ => Some gulch).

(** A match under test started with one side only; a player of the other side joins late. *)
Definition lone_match := after 2 demo_alliance (Update 4 (demo_world 0) 3 0 false 0).
Definition late_joiner := after 2 lone_match (Join (demo_world 0) HORDE [8] 3 0 false false 0 0 0).

Lemma late_reachable : reachable 2 late_joiner.1 late_joiner.2.
Proof.
  apply reach_after; [apply reach_after; [exact demo_alliance_reachable|]|].
  - split; [apply demo_sound|]. vm_compute. lia.
  - split; [by right|]. do 3 (split; [by vm_compute|]). intros guid. by apply absent_check.
Qed.

Lemma absent_players_are_taken_off_witness : exists q' b',
  (_ ← InviteGroupToBG loading_world 2 1 HORDE; RemovePlayer demo_fuel loading_world 8 true) late_joiner.2 = (Ok tt, q') /\
  bgs q' !! 1 = Some b' /\ GetFreeSlotsForTeam b' HORDE = 0.
Proof.
  destruct (heap late_joiner.2 !! 2) as [g|] eqn:Hg; [|vm_compute in Hg; discriminate Hg].
  destruct (bgs late_joiner.2 !! 1) as [b|] eqn:Hb; [|vm_compute in Hb; discriminate Hb].
  destruct (m_QueuedPlayers late_joiner.2 !! 8) as [pl|] eqn:Hpl; [|vm_compute in Hpl; discriminate Hpl].
  destruct (absent_players_are_taken_off 2 late_joiner.1 late_joiner.2 2 g 1 b 8 pl demo_fuel loading_world loading_world late_reachable Hpl) as (q' & b' & E & Hb' & _ & Hfree).
  - vm_compute in Hpl. by injection Hpl as <-.
  - exact Hg.
  - vm_compute in Hg. by injection Hg as <-.
  - exact Hb.
  - vm_compute in Hg. injection Hg as <-. intros x Hx%elem_of_elements. vm_compute in Hx. by apply list_elem_of_singleton in Hx as ->.
  - vm_compute in Hg. injection Hg as <-. vm_compute in Hb. by injection Hb as <-.
  - exists q', b'. assert (Team g = HORDE) as Et by (vm_compute in Hg; by injection Hg as <-). rewrite Et in E, Hfree.
    split; [exact E|split; [exact Hb'|exact Hfree]].
Defined.

(** ** Unrated arenas *)

(** Four players of one side in an unrated two against two: the second half of them changes
    sides, and the search for the second of these starts from an iterator of the deque the
    first one was erased from. *)
Definition arena_world : World :=
  mkWorld 1000 (fun _ => true) false 0 false false 0 0 false false 0 0 (fun _ => false) (fun _ => Some (mkTemplate true 5 0 10)) true
    (fun _ => Some (mkTemplate true 5 0 10)).
Definition skirmish := foldl (fun s guid => after BATTLEGROUND_AA s (Join arena_world ALLIANCE [guid] 3 2 false false 0 0 0)) demo_start [1; 2; 3; 4].

Example skirmish_keeps_old_iterator :
  (BattlegroundQueueUpdate 16 arena_world BATTLEGROUND_AA 3 2 false 0 skirmish.2).1 = Throw InvalidIterator.
Proof. vm_compute. reflexivity. Qed.

(** Under test one player is enough for an arena, and with nobody in the pool of the side the
    search looks at, its last element is read nevertheless. *)
Definition testing_world : World :=
  mkWorld 1000 (fun _ => true) false 0 false false 0 0 false true 0 0 (fun _ => false) (fun _ => Some (mkTemplate true 5 0 10)) true
    (fun _ => Some (mkTemplate true 5 0 10)).
Definition big_horde := after BATTLEGROUND_AA demo_start (Join arena_world HORDE [1; 2] 3 2 false false 0 0 0).

Example testing_reads_empty_pool :
  (BattlegroundQueueUpdate 16 testing_world BATTLEGROUND_AA 3 2 false 0 big_horde.2).1 = Throw EmptyContainer.
Proof. vm_compute. reflexivity. Qed.
