(* ===== verification/AuctionHouse.v ===== *)
(** * AuctionHouse: buying and selling between players
      (src/src/server/game/AuctionHouse/AuctionHouseMgr.cpp, with what it uses of Mail.cpp,
      Item.cpp, Player.cpp and of the database layer)

    An auction is a heap object; the map of its house points to it.  The item that is sold
    is a heap object too, addressed by its low GUID: it leaves the bags of the seller for
    the store of the manager, and a mail takes it from there.  Sending an item to somebody
    who is not there deletes the object; its row in the database stays.

    The database is part of the state.  Statements outside a transaction and committed
    transactions are executed one after the other by the worker thread, a transaction
    entirely or not at all; [tables] keeps every state the tables go through, any of which
    a crash may leave.

    What the code asks of the world (who is online, accounts, configuration, creatures,
    templates, the clock, rates) is the record [World].  What is read from an object just
    deleted is undefined: [freed_intact] says whether the memory of an auction is still as
    it was, and reading it when it is not is the fault [UseAfterFree]. *)

From S2P Require Import Prelude.
From S2P Require Import Float32.
From stdpp Require Import pretty.
#[local] Open Scope Z_scope.

(** ** Constants *)

Definition AH_MINIMUM_DEPOSIT : Z := 100.
Definition MIN_AUCTION_TIME : Z := 43200.
Definition MAX_AUCTION_ITEMS : Z := 160.
Definition MAX_MONEY_AMOUNT : Z := 9999999999.
Definition FACTION_MASK_ALLIANCE : Z := 2.
Definition FACTION_MASK_HORDE : Z := 4.
Definition NEUTRAL_AUCTIONEER : Z := 23442.
Definition MAIL_CHECK_MASK_COPIED : Z := 4.
Definition DAY : Z := 86400.

(* [game/AuctionHouse/AuctionHouseMgr.h:32-43] AuctionError *)
Inductive AuctionError :=
| ERR_AUCTION_OK | ERR_AUCTION_INVENTORY | ERR_AUCTION_DATABASE_ERROR | ERR_AUCTION_NOT_ENOUGHT_MONEY
| ERR_AUCTION_ITEM_NOT_FOUND | ERR_AUCTION_HIGHER_BID | ERR_AUCTION_BID_INCREMENT | ERR_AUCTION_BID_OWN | ERR_RESTRICTED_ACCOUNT.

(* [game/AuctionHouse/AuctionHouseMgr.h:45-50] AuctionAction *)
Inductive AuctionAction := AUCTION_SELL_ITEM | AUCTION_CANCEL | AUCTION_PLACE_BID.

(* [game/AuctionHouse/AuctionHouseMgr.h:52-61] MailAuctionAnswers *)
Inductive MailAuctionAnswers :=
| AUCTION_OUTBIDDED | AUCTION_WON | AUCTION_SUCCESSFUL | AUCTION_EXPIRED | AUCTION_CANCELLED_TO_BIDDER | AUCTION_CANCELED
| AUCTION_SALE_PENDING.

Definition answer_code (a : MailAuctionAnswers) : Z :=
  match a with
  | AUCTION_OUTBIDDED => 0 | AUCTION_WON => 1 | AUCTION_SUCCESSFUL => 2 | AUCTION_EXPIRED => 3
  | AUCTION_CANCELLED_TO_BIDDER => 4 | AUCTION_CANCELED => 5 | AUCTION_SALE_PENDING => 6
  end.

(** The three houses. *)
Inductive house := Horde_house | Alliance_house | Neutral_house.

#[export] Instance house_eq_dec : EqDecision house.
Proof. solve_decision. Defined.

Definition house_code (h : house) : Z := match h with Horde_house => 0 | Alliance_house => 1 | Neutral_house => 2 end.

#[export] Program Instance house_countable : Countable house :=
  inj_countable' house_code (fun z => if z =? 0 then Horde_house else if z =? 1 then Alliance_house else Neutral_house) _.
Next Obligation. by intros []. Qed.

(** ** Data in memory *)

(* [game/DataStores/DBCStructure.h:718-725] AuctionHouseEntry *)
Record HouseEntry := mkHouse { houseId : Z; depositPercent : Z; cutPercent : Z }.

(* [game/AuctionHouse/AuctionHouseMgr.h:66-81] AuctionEntry *)
Record AuctionEntry := mkAuction {
  Id : Z;
  auctioneer : Z;
  itemGUIDLow : Z;
  itemEntry : Z;
  itemCount : Z;
  owner : Z;
  startbid : Z;
  bid : Z;
  buyout : Z;
  expire_time : Z;
  bidder : Z;
  deposit : Z;
  auctionHouseEntry : HouseEntry
}.

(* [game/Entities/Item/Item.h:203-209] ItemUpdateState *)
Inductive ItemUpdateState := ITEM_UNCHANGED | ITEM_CHANGED | ITEM_NEW.

(** What an item is, how many, whose, whether the database knows, and in whose bags
    (or bank) it is. *)
Record Item := mkItem { i_entry : Z; i_count : Z; i_owner : Z; i_state : ItemUpdateState; i_holder : option Z; i_bank : bool }.

(** What the code reads of [ItemTemplate]. *)
Record ItemTemplate := mkTemplate { SellPrice : Z; MaxStack : Z }.

(** ** Tables *)

(** Table [auctionhouse]: primary key [id], unique key [itemguid]. *)
Record AuctionRow := mkRow {
  auctioneerguid : Z; itemguid : Z; itemowner : Z; buyoutprice : Z; time_ : Z; buyguid : Z; lastbid : Z; row_startbid : Z; row_deposit : Z
}.

(** Table [item_instance]: primary key [guid]. *)
Record ItemRow := mkItemRow { r_entry : Z; r_count : Z; r_owner : Z }.

(** Table [mail]: primary key [id]. *)
Record Mail := mkMail {
  m_id : Z; m_sender : Z; m_receiver : Z; m_subject : string; m_body : string; m_has_items : bool;
  m_expire_time : Z; m_deliver_time : Z; m_money : Z; m_checked : Z
}.

(** [character_inventory] is the map from an item to who holds it, [mail_items] (primary
    key [item_guid]) from an item to its mail and receiver, [gold] the column [money] of
    [characters]. *)
Record DB := mkDB {
  auctionhouse : gmap Z AuctionRow;
  item_instance : gmap Z ItemRow;
  character_inventory : gmap Z Z;
  mail : gmap Z Mail;
  mail_items : gmap Z (Z * Z);
  gold : gmap Z Z
}.

Inductive db_op :=
| InsertAuction (id : Z) (r : AuctionRow)
| UpdateBid (id buyguid lastbid : Z)
| DeleteAuction (id : Z)
| ReplaceItem (g : Z) (r : ItemRow)
| UpdateItem (g : Z) (r : ItemRow)
| SetItemOwner (g owner : Z)
| DeleteItem (g : Z)
| DeleteInventory (g : Z)
| InsertMail (m : Mail)
| InsertMailItem (g mail_id receiver : Z)
| SaveGold (player money : Z)
| DeleteInventoryFrom (g : Z)
| DeleteMailItemsFrom (g : Z)
| DeleteAuctionsFrom (g : Z).

(** One statement; an insertion that violates a unique key fails. *)
Definition apply_op (o : db_op) (d : DB) : option DB :=
  let set_ah ah := mkDB ah (item_instance d) (character_inventory d) (mail d) (mail_items d) (gold d) in
  let set_ii ii := mkDB (auctionhouse d) ii (character_inventory d) (mail d) (mail_items d) (gold d) in
  match o with
  | InsertAuction id r =>
    if bool_decide (is_Some (auctionhouse d !! id)) || bool_decide (map_Exists (fun _ r' => itemguid r' = itemguid r) (auctionhouse d)) then None
    else Some (set_ah (<[id := r]> (auctionhouse d)))
  | UpdateBid id b l =>
    Some (set_ah (alter (fun r => mkRow (auctioneerguid r) (itemguid r) (itemowner r) (buyoutprice r) (time_ r) b l (row_startbid r) (row_deposit r))
                    id (auctionhouse d)))
  | DeleteAuction id => Some (set_ah (delete id (auctionhouse d)))
  | ReplaceItem g r => Some (set_ii (<[g := r]> (item_instance d)))
  | UpdateItem g r => Some (set_ii (alter (fun _ => r) g (item_instance d)))
  | SetItemOwner g p => Some (set_ii (alter (fun r => mkItemRow (r_entry r) (r_count r) p) g (item_instance d)))
  | DeleteItem g => Some (set_ii (delete g (item_instance d)))
  | DeleteInventory g => Some (mkDB (auctionhouse d) (item_instance d) (delete g (character_inventory d)) (mail d) (mail_items d) (gold d))
  | InsertMail m =>
    if bool_decide (is_Some (mail d !! m_id m)) then None
    else Some (mkDB (auctionhouse d) (item_instance d) (character_inventory d) (<[m_id m := m]> (mail d)) (mail_items d) (gold d))
  | InsertMailItem g id p =>
    if bool_decide (is_Some (mail_items d !! g)) then None
    else Some (mkDB (auctionhouse d) (item_instance d) (character_inventory d) (mail d) (<[g := (id, p)]> (mail_items d)) (gold d))
  | SaveGold p m => Some (mkDB (auctionhouse d) (item_instance d) (character_inventory d) (mail d) (mail_items d) (<[p := m]> (gold d)))
  | DeleteInventoryFrom g =>
    Some (mkDB (auctionhouse d) (item_instance d) (filter (fun kx => kx.1 < g) (character_inventory d)) (mail d) (mail_items d) (gold d))
  | DeleteMailItemsFrom g =>
    Some (mkDB (auctionhouse d) (item_instance d) (character_inventory d) (mail d) (filter (fun kx => kx.1 < g) (mail_items d)) (gold d))
  | DeleteAuctionsFrom g => Some (set_ah (filter (fun kx => itemguid kx.2 < g) (auctionhouse d)))
  end.

(** The statements of a transaction in order; the first that fails rolls it back. *)
(* [shared/Database/MySQLConnection.cpp:364-412] MySQLConnection::ExecuteTransaction *)
Fixpoint ExecuteTransaction (ops : list db_op) (d : DB) : option DB :=
  match ops with
  | [] => Some d
  | o :: ops' => match apply_op o d with Some d' => ExecuteTransaction ops' d' | None => None end
  end.

(** ** State *)

Inductive ah_output :=
| OutResult (player id : Z) (action : AuctionAction) (error : AuctionError) (extra : list Z)
| OutBidderNotification (player house auction bidder bidSum diff entry : Z)
| OutOwnerNotification (player auction bid entry : Z)
| OutRemovedNotification (player auction entry : Z)
| OutAchievement (player value : Z)
| OutGmLog (player item : Z)
| OutBan (player : Z).

Record AH := mkAH {
  auctions : gmap Z AuctionEntry;
  next_address : Z;
  next_auction : Z;
  AuctionsMap : gmap (house * Z) Z;
  objects : gmap Z Item;
  mAitems : gset Z;
  next_item : Z;
  next_mail : Z;
  purse : gmap Z Z;
  inbox : gmap Z (list Mail);
  mMitems : gmap Z Z;
  db : DB;
  tables : list DB;
  trans : list db_op;
  out : list ah_output
}.

Record World := mkWorld {
  now : Z;
  game_time : Z;
  online : Z -> bool;
  account : Z -> Z;
  mails_loaded : Z -> bool;
  game_master : Z -> bool;
  gm_log_trade : bool;
  player_security : Z -> bool;
  two_side : bool;
  faction_mask : Z -> option Z;
  house_store : Z -> option HouseEntry;
  auctioneer_faction : Z -> option Z;
  item_template : Z -> option ItemTemplate;
  tradeable : Z -> bool;
  rate_deposit : float32;
  rate_cut : float32;
  rate_time : float32;
  mail_delay : Z;
  freed_intact : AuctionEntry -> bool
}.

Inductive fault := UseAfterFree | NullDereference | AssertFailed.
Abbreviation T := (M AH fault).

(** ** Changing one part of the state *)

Definition set_auctions (a : gmap Z AuctionEntry) (n : Z) (s : AH) : AH :=
  mkAH a n (next_auction s) (AuctionsMap s) (objects s) (mAitems s) (next_item s) (next_mail s) (purse s) (inbox s) (mMitems s) (db s)
    (tables s) (trans s) (out s).
Definition set_next_auction (n : Z) (s : AH) : AH :=
  mkAH (auctions s) (next_address s) n (AuctionsMap s) (objects s) (mAitems s) (next_item s) (next_mail s) (purse s) (inbox s) (mMitems s)
    (db s) (tables s) (trans s) (out s).
Definition set_map (m : gmap (house * Z) Z) (s : AH) : AH :=
  mkAH (auctions s) (next_address s) (next_auction s) m (objects s) (mAitems s) (next_item s) (next_mail s) (purse s) (inbox s) (mMitems s)
    (db s) (tables s) (trans s) (out s).
Definition set_objects (o : gmap Z Item) (n : Z) (s : AH) : AH :=
  mkAH (auctions s) (next_address s) (next_auction s) (AuctionsMap s) o (mAitems s) n (next_mail s) (purse s) (inbox s) (mMitems s) (db s)
    (tables s) (trans s) (out s).
Definition set_mAitems (i : gset Z) (s : AH) : AH :=
  mkAH (auctions s) (next_address s) (next_auction s) (AuctionsMap s) (objects s) i (next_item s) (next_mail s) (purse s) (inbox s) (mMitems s)
    (db s) (tables s) (trans s) (out s).
Definition set_next_mail (n : Z) (s : AH) : AH :=
  mkAH (auctions s) (next_address s) (next_auction s) (AuctionsMap s) (objects s) (mAitems s) (next_item s) n (purse s) (inbox s) (mMitems s)
    (db s) (tables s) (trans s) (out s).
Definition set_purse (p : gmap Z Z) (s : AH) : AH :=
  mkAH (auctions s) (next_address s) (next_auction s) (AuctionsMap s) (objects s) (mAitems s) (next_item s) (next_mail s) p (inbox s)
    (mMitems s) (db s) (tables s) (trans s) (out s).
Definition set_inbox (i : gmap Z (list Mail)) (k : gmap Z Z) (s : AH) : AH :=
  mkAH (auctions s) (next_address s) (next_auction s) (AuctionsMap s) (objects s) (mAitems s) (next_item s) (next_mail s) (purse s) i k (db s)
    (tables s) (trans s) (out s).
Definition set_db (d : DB) (s : AH) : AH :=
  mkAH (auctions s) (next_address s) (next_auction s) (AuctionsMap s) (objects s) (mAitems s) (next_item s) (next_mail s) (purse s) (inbox s)
    (mMitems s) d (tables s ++ [d]) (trans s) (out s).
Definition set_trans (l : list db_op) (s : AH) : AH :=
  mkAH (auctions s) (next_address s) (next_auction s) (AuctionsMap s) (objects s) (mAitems s) (next_item s) (next_mail s) (purse s) (inbox s)
    (mMitems s) (db s) (tables s) l (out s).
Definition emit (x : ah_output) (s : AH) : AH :=
  mkAH (auctions s) (next_address s) (next_auction s) (AuctionsMap s) (objects s) (mAitems s) (next_item s) (next_mail s) (purse s) (inbox s)
    (mMitems s) (db s) (tables s) (trans s) (out s ++ [x]).

Definition deref (p : Z) : T AuctionEntry :=
  s ← get; match auctions s !! p with Some a => mret a | None => throw UseAfterFree end.
Definition deref_item (g : Z) : T Item :=
  s ← get; match objects s !! g with Some i => mret i | None => throw UseAfterFree end.
Definition store_item (g : Z) (i : Item) : T unit := modify (fun s => set_objects (<[g := i]> (objects s)) (next_item s) s).
Definition delete_item (g : Z) : T unit :=
  deref_item g ;; modify (fun s => set_objects (delete g (objects s)) (next_item s) s).

(** [itr->second->GetTemplate()->...] *)
Definition template (w : World) (entry : Z) : T ItemTemplate :=
  match item_template w entry with Some t => mret t | None => throw NullDereference end.

(** ** The database worker *)

(* [shared/Database/DatabaseWorkerPool.h:150-162] DatabaseWorkerPool::PExecute *)
Definition PExecute (o : db_op) : T unit :=
  modify (fun s => match apply_op o (db s) with Some d => set_db d s | None => s end).

Definition BeginTransaction : T unit := modify (set_trans []).

(* [shared/Database/Transaction.cpp:42-48] Transaction::Append *)
Definition Append (o : db_op) : T unit := modify (fun s => set_trans (trans s ++ [o]) s).

(* [shared/Database/DatabaseWorkerPool.h:351-371] DatabaseWorkerPool::CommitTransaction *)
Definition CommitTransaction : T unit :=
  modify (fun s => set_trans [] (match ExecuteTransaction (trans s) (db s) with Some d => set_db d s | None => s end)).

(** ** Money *)

Definition money (s : AH) (player : Z) : Z := default 0 (purse s !! player).

(** [d]: a signed 64-bit difference. *)
(* [game/Entities/Player/Player.cpp:22305-22323] Player::ModifyMoney *)
Definition ModifyMoney (player d : Z) : T unit :=
  modify (fun s =>
    let m := money s player in
    set_purse (<[player := if d <? 0 then (if - d <? m then m + d else 0)
                           else if m <? MAX_MONEY_AMOUNT - d then m + d else MAX_MONEY_AMOUNT]> (purse s)) s).

(* [game/Entities/Player/Player.h:1860-1860] Player::HasEnoughMoney *)
Definition HasEnoughMoney (s : AH) (player amount : Z) : bool := amount <=? money s player.

(** The amount is a 64-bit number printed with [%u]: its low 32 bits. *)
(* [game/Entities/Player/Player.cpp:19180-19183] Player::SaveGoldToDB *)
Definition SaveGoldToDB (player : Z) : T unit := s ← get; PExecute (SaveGold player (u32 (money s player))).

(** Of the inventory only the items of the auction house matter here; they are not in
    the queue of changed items any more. *)
(* [game/Entities/Player/Player.cpp:19173-19178] Player::SaveInventoryAndGoldToDB *)
Definition SaveInventoryAndGoldToDB (player : Z) : T unit := SaveGoldToDB player.

(** ** Items *)

Definition HIGHGUID_ITEM : Z := 0x400.
(* [game/Entities/Object/ObjectDefines.h:75-75] MAKE_NEW_GUID *)
Definition MAKE_NEW_GUID (l e h : Z) : Z := u64 (Z.lor (Z.lor l (Z.shiftl e 32)) (Z.shiftl h 52)).
Definition GUID_LOPART (g : Z) : Z := u32 g.

(* [game/Entities/Player/Player.cpp:10127-10154] Player::GetItemByGuid *)
Definition GetItemByGuid (s : AH) (player guid : Z) : option Z :=
  match objects s !! GUID_LOPART guid with
  | Some i => if (guid =? MAKE_NEW_GUID (GUID_LOPART guid) 0 HIGHGUID_ITEM) && bool_decide (i_holder i = Some player)
              then Some (GUID_LOPART guid) else None
  | None => None
  end.

(** [inBankAlso] is false in every call from here. *)
(* [game/Entities/Player/Player.cpp:10059-10097] Player::GetItemCount *)
Definition GetItemCount (s : AH) (player entry : Z) : Z :=
  u32 (map_fold (fun _ i n => if bool_decide (i_holder i = Some player) && negb (i_bank i) && (i_entry i =? entry) then i_count i + n else n) 0
         (objects s)).

Definition item_row (i : Item) : ItemRow := mkItemRow (i_entry i) (i_count i) (i_owner i).

(* [game/Entities/Item/Item.cpp:637-662] Item::SetState *)
Definition SetState (st : ItemUpdateState) (i : Item) : Item :=
  mkItem (i_entry i) (i_count i) (i_owner i) (match st, i_state i with ITEM_UNCHANGED, _ => ITEM_UNCHANGED | _, ITEM_NEW => ITEM_NEW | _, _ => st end)
    (i_holder i) (i_bank i).
Definition SetCount (n : Z) (i : Item) : Item := mkItem (i_entry i) n (i_owner i) (i_state i) (i_holder i) (i_bank i).

(* [game/Entities/Item/Item.cpp:315-386] Item::SaveToDB *)
Definition SaveToDB (g : Z) : T unit :=
  i ← deref_item g;
  match i_state i with
  | ITEM_NEW => Append (ReplaceItem g (item_row i))
  | ITEM_CHANGED => Append (UpdateItem g (item_row i))
  | ITEM_UNCHANGED => mret tt
  end ;;
  store_item g (SetState ITEM_UNCHANGED i).

(** Without effect on an item that is in no slot. *)
(* [game/Entities/Player/Player.cpp:12260-12274] Player::MoveItemFromInventory *)
Definition MoveItemFromInventory (g : Z) : T unit :=
  i ← deref_item g;
  match i_holder i with
  | Some _ => store_item g (mkItem (i_entry i) (i_count i) (i_owner i) (i_state i) None false)
  | None => mret tt
  end.

(* [game/Entities/Item/Item.cpp:994-1021] Item::CreateItem *)
Definition CreateItem (w : World) (entry count player : Z) : T (option Z) :=
  if count <? 1 then mret None
  else match item_template w entry with
       | Some proto =>
         let count := if MaxStack proto <? count then MaxStack proto else count in
         if count =? 0 then throw AssertFailed
         else s ← get;
              modify (fun s => set_objects (<[next_item s := mkItem entry count player ITEM_NEW None false]> (objects s)) (next_item s + 1) s) ;;
              mret (Some (next_item s))
       | None => mret None
       end.

(** Creator, flags and enchantments are not modelled. *)
(* [game/Entities/Item/Item.cpp:1023-1037] Item::CloneItem *)
Definition CloneItem (w : World) (g count player : Z) : T (option Z) := i ← deref_item g; CreateItem w (i_entry i) count player.

(** ** Mails *)

Record Draft := mkDraft { d_subject : string; d_body : string; d_money : Z; d_item : option Z }.

(** Of an auction: [sender] is the id of the house, which the code also takes for the GUID
    of a player when it looks for a game master.  Mails of auctions have no template and
    no cash on delivery. *)
(* [game/Mails/Mail.cpp:167-271] MailDraft::SendMailTo *)
Definition SendMailTo (w : World) (receiver sender : Z) (d : Draft) (deliver_delay : Z) : T unit :=
  s ← get;
  let mailId := next_mail s in
  modify (set_next_mail (mailId + 1)) ;;
  let deliver_time := now w + deliver_delay in
  let expire_delay := if bool_decide (d_item d = None) && (d_money d =? 0) then mail_delay w
                      else if game_master w sender then 90 * DAY else 30 * DAY in
  let m := mkMail mailId sender receiver (d_subject d) (d_body d) (bool_decide (d_item d <> None)) (deliver_time + expire_delay) deliver_time
             (d_money d) MAIL_CHECK_MASK_COPIED in
  Append (InsertMail m) ;;
  match d_item d with Some g => Append (InsertMailItem g mailId receiver) | None => mret tt end ;;
  if online w receiver && mails_loaded w receiver then
    match d_item d with Some g => deref_item g ;; mret tt | None => mret tt end ;;
    modify (fun s => set_inbox (<[receiver := m :: default [] (inbox s !! receiver)]> (inbox s)) (mMitems s) s) ;;
    match d_item d with Some g => modify (fun s => set_inbox (inbox s) (<[g := receiver]> (mMitems s)) s) | None => mret tt end
  else match d_item d with Some g => delete_item g | None => mret tt end.

(** ** Prices *)

(* [shared/Utilities/Util.h:121-124] CalculatePct *)
Definition CalculatePct_u32 (base pct : Z) : Z := f_to_u32 (pct_of (f_of_Z base) (f_of_Z pct)).

(* [game/AuctionHouse/AuctionHouseMgr.cpp:68-88] AuctionHouseMgr::GetAuctionDeposit *)
Definition GetAuctionDeposit (w : World) (entry : HouseEntry) (time sell_price count : Z) : Z :=
  if sell_price <=? 0 then AH_MINIMUM_DEPOSIT
  else
    let multiplier := pct_of (f_of_Z (depositPercent entry)) (f_of_Z 3) in
    let timeHr := time / 60 / 60 / 12 in
    let base := fdiv (fmul (fmul multiplier (f_of_Z sell_price)) (f_of_Z count)) (f_of_Z 3) in
    let d := f_to_u32 (fmul (fmul (fmul base (f_of_Z timeHr)) (f_of_Z 3)) (rate_deposit w)) in
    if d <? AH_MINIMUM_DEPOSIT then AH_MINIMUM_DEPOSIT else d.

(* [game/AuctionHouse/AuctionHouseMgr.cpp:636-640] AuctionEntry::GetAuctionCut *)
Definition GetAuctionCut (w : World) (a : AuctionEntry) : Z :=
  Z.max (f_to_i32 (fmul (f_of_Z (CalculatePct_u32 (bid a) (cutPercent (auctionHouseEntry a)))) (rate_cut w))) 0.

(* [game/AuctionHouse/AuctionHouseMgr.cpp:643-647] AuctionEntry::GetAuctionOutBid *)
Definition GetAuctionOutBid (a : AuctionEntry) : Z :=
  let outbid := CalculatePct_u32 (bid a) 5 in if outbid =? 0 then 1 else outbid.

(** ** Subject and body of the mails *)

(** Hexadecimal digits, lower case; sixteen are enough for 64 bits. *)
Fixpoint hex (digits : nat) (z : Z) (acc : string) : string :=
  match digits with
  | O => acc
  | S n => let d := z mod 16 in
           let c := Ascii.ascii_of_nat (Z.to_nat (if d <? 10 then 48 + d else 87 + d)) in
           if z <? 16 then String.String c acc else hex n (z / 16) (String.String c acc)
  end.

Definition pad (width : nat) (x : string) : string :=
  Nat.iter (width - String.length x) (fun y => String.append " " y) x.

(* [game/AuctionHouse/AuctionHouseMgr.cpp:820-825] AuctionEntry::BuildAuctionMailSubject *)
Definition BuildAuctionMailSubject (a : AuctionEntry) (response : MailAuctionAnswers) : string :=
  (pretty (itemEntry a) +:+ ":0:" +:+ pretty (answer_code response) +:+ ":" +:+ pretty (Id a) +:+ ":" +:+ pretty (itemCount a))%string.

(* [game/AuctionHouse/AuctionHouseMgr.cpp:827-835] AuctionEntry::BuildAuctionMailBody *)
Definition BuildAuctionMailBody (lowGuid bid buyout deposit cut : Z) : string :=
  (pad 16 (hex 16 (MAKE_NEW_GUID lowGuid 0 0) "") +:+ ":" +:+ pretty bid +:+ ":" +:+ pretty buyout +:+ ":" +:+ pretty deposit +:+ ":" +:+ pretty cut)%string.

(** ** Houses *)

(* [game/AuctionHouse/AuctionHouseMgr.cpp:51-66] AuctionHouseMgr::GetAuctionsMap *)
Definition GetAuctionsMap (w : World) (faction : Z) : house :=
  if two_side w then Neutral_house
  else match faction_mask w faction with
       | None => Neutral_house
       | Some m => if has_flag m FACTION_MASK_ALLIANCE then Alliance_house
                   else if has_flag m FACTION_MASK_HORDE then Horde_house else Neutral_house
       end.

(** The house id of a creature's faction: cities first, then the team. *)
(* [game/AuctionHouse/AuctionHouseMgr.cpp:372-410] AuctionHouseMgr::GetAuctionHouseEntry *)
Definition GetAuctionHouseEntry (w : World) (faction : Z) : option HouseEntry :=
  house_store w
    (if two_side w then 7
     else match find (fun x => x.1 =? faction) [(12, 1); (29, 6); (55, 2); (68, 4); (80, 3); (104, 5); (120, 7); (474, 7); (855, 7); (1604, 6)] with
          | Some (_, id) => id
          | None => match faction_mask w faction with
                    | None => 7
                    | Some m => if has_flag m FACTION_MASK_ALLIANCE then 1 else if has_flag m FACTION_MASK_HORDE then 6 else 7
                    end
          end).

(* [game/AuctionHouse/AuctionHouseMgr.h:117-121] AuctionHouseObject::GetAuction *)
Definition GetAuction (s : AH) (h : house) (id : Z) : option Z := AuctionsMap s !! (h, id).

(* [game/AuctionHouse/AuctionHouseMgr.cpp:412-417] AuctionHouseObject::AddAuction *)
Definition AddAuction (h : house) (p : Z) : T unit :=
  a ← deref p; modify (fun s => set_map (<[(h, Id a) := p]> (AuctionsMap s)) s).

(** The entry is deleted: the argument dangles from here on. *)
(* [game/AuctionHouse/AuctionHouseMgr.cpp:419-428] AuctionHouseObject::RemoveAuction *)
Definition RemoveAuction (h : house) (p : Z) : T unit :=
  a ← deref p;
  modify (fun s => set_map (delete (h, Id a) (AuctionsMap s)) s) ;;
  modify (fun s => set_auctions (delete p (auctions s)) (next_address s) s).

(* [game/AuctionHouse/AuctionHouseMgr.cpp:348-353] AuctionHouseMgr::AddAItem *)
Definition AddAItem (g : Z) : T unit :=
  s ← get; if bool_decide (g ∈ mAitems s) then throw AssertFailed else modify (fun s => set_mAitems ({[g]} ∪ mAitems s) s).

(* [game/AuctionHouse/AuctionHouseMgr.cpp:355-363] AuctionHouseMgr::RemoveAItem *)
Definition RemoveAItem (g : Z) : T unit := modify (fun s => set_mAitems (mAitems s ∖ {[g]}) s).

(* [game/AuctionHouse/AuctionHouseMgr.h:158-165] AuctionHouseMgr::GetAItem *)
Definition GetAItem (s : AH) (g : Z) : option Z := if bool_decide (g ∈ mAitems s) then Some g else None.

(* [game/Globals/ObjectMgr.cpp:6226-6234] ObjectMgr::GenerateAuctionID *)
Definition GenerateAuctionID : T Z := s ← get; modify (set_next_auction (next_auction s + 1)) ;; mret (next_auction s).

(** [new AuctionEntry], with its fields filled. *)
Definition new_auction (a : AuctionEntry) : T Z :=
  s ← get; modify (fun s => set_auctions (<[next_address s := a]> (auctions s)) (next_address s + 1) s) ;; mret (next_address s).

(** ** The mails of an auction *)

(** The receiver is sent his mail if he is there or has an account. *)
Definition exists_ (w : World) (player : Z) : bool := online w player || negb (account w player =? 0).

(* [game/AuctionHouse/AuctionHouseMgr.cpp:91-153] AuctionHouseMgr::SendAuctionWonMail *)
Definition SendAuctionWonMail (w : World) (a : AuctionEntry) : T unit :=
  s ← get;
  match GetAItem s (itemGUIDLow a) with
  | None => mret tt
  | Some pItem =>
    deref_item pItem ;;
    let bidder_accId := if gm_log_trade w then account w (bidder a) else 0 in
    (if gm_log_trade w && player_security w (bidder a) then modify (emit (OutGmLog (bidder a) pItem)) else mret tt) ;;
    if online w (bidder a) || negb (bidder_accId =? 0) then
      PExecute (SetItemOwner pItem (bidder a)) ;;
      (if online w (bidder a) then
         modify (emit (OutBidderNotification (bidder a) (houseId (auctionHouseEntry a)) (Id a) (bidder a) 0 0 (itemEntry a))) ;;
         modify (emit (OutAchievement (bidder a) 1))
       else mret tt) ;;
      SendMailTo w (bidder a) (houseId (auctionHouseEntry a))
        (mkDraft (BuildAuctionMailSubject a AUCTION_WON) (BuildAuctionMailBody (owner a) (bid a) (buyout a) 0 0) 0 (Some pItem)) 0
    else mret tt
  end.

(* [game/AuctionHouse/AuctionHouseMgr.cpp:155-164] AuctionHouseMgr::SendAuctionSalePendingMail *)
Definition SendAuctionSalePendingMail (w : World) (a : AuctionEntry) : T unit :=
  if exists_ w (owner a) then
    SendMailTo w (owner a) (houseId (auctionHouseEntry a))
      (mkDraft (BuildAuctionMailSubject a AUCTION_SALE_PENDING) (BuildAuctionMailBody (bidder a) (bid a) (buyout a) (deposit a) (GetAuctionCut w a))
         0 None) 0
  else mret tt.

(** What the seller is paid. *)
Definition profit (w : World) (a : AuctionEntry) : Z := u32 (bid a + deposit a - GetAuctionCut w a).

(* [game/AuctionHouse/AuctionHouseMgr.cpp:167-190] AuctionHouseMgr::SendAuctionSuccessfulMail *)
Definition SendAuctionSuccessfulMail (w : World) (a : AuctionEntry) : T unit :=
  if exists_ w (owner a) then
    (if online w (owner a) then
       modify (emit (OutAchievement (owner a) (profit w a))) ;;
       modify (emit (OutAchievement (owner a) (bid a))) ;;
       modify (emit (OutOwnerNotification (owner a) (Id a) (bid a) (itemEntry a)))
     else mret tt) ;;
    SendMailTo w (owner a) (houseId (auctionHouseEntry a))
      (mkDraft (BuildAuctionMailSubject a AUCTION_SUCCESSFUL) (BuildAuctionMailBody (bidder a) (bid a) (buyout a) (deposit a) (GetAuctionCut w a))
         (profit w a) None) (mail_delay w)
  else mret tt.

(* [game/AuctionHouse/AuctionHouseMgr.cpp:193-213] AuctionHouseMgr::SendAuctionExpiredMail *)
Definition SendAuctionExpiredMail (w : World) (a : AuctionEntry) : T unit :=
  s ← get;
  match GetAItem s (itemGUIDLow a) with
  | None => mret tt
  | Some pItem =>
    if exists_ w (owner a) then
      (if online w (owner a) then modify (emit (OutOwnerNotification (owner a) (Id a) (bid a) (itemEntry a))) else mret tt) ;;
      deref_item pItem ;;
      SendMailTo w (owner a) (houseId (auctionHouseEntry a))
        (mkDraft (BuildAuctionMailSubject a AUCTION_EXPIRED) (BuildAuctionMailBody 0 0 (buyout a) (deposit a) 0) 0 (Some pItem)) 0
    else mret tt
  end.

(* [game/AuctionHouse/AuctionHouseMgr.cpp:216-235] AuctionHouseMgr::SendAuctionOutbiddedMail *)
Definition SendAuctionOutbiddedMail (w : World) (a : AuctionEntry) (newPrice newBidder : Z) : T unit :=
  if exists_ w (bidder a) then
    (if online w (bidder a) then
       modify (emit (OutBidderNotification (bidder a) (houseId (auctionHouseEntry a)) (Id a) newBidder (u32 newPrice) (GetAuctionOutBid a) (itemEntry a)))
     else mret tt) ;;
    SendMailTo w (bidder a) (houseId (auctionHouseEntry a))
      (mkDraft (BuildAuctionMailSubject a AUCTION_OUTBIDDED) (BuildAuctionMailBody (owner a) (bid a) (buyout a) (deposit a) (GetAuctionCut w a))
         (bid a) None) 0
  else mret tt.

(* [game/AuctionHouse/AuctionHouseMgr.cpp:238-255] AuctionHouseMgr::SendAuctionCancelledToBidderMail *)
Definition SendAuctionCancelledToBidderMail (w : World) (a : AuctionEntry) (item : Z) : T unit :=
  (if online w (bidder a) then deref_item item ;; modify (emit (OutRemovedNotification (bidder a) (Id a) (itemEntry a))) else mret tt) ;;
  if exists_ w (bidder a) then
    SendMailTo w (bidder a) (houseId (auctionHouseEntry a))
      (mkDraft (BuildAuctionMailSubject a AUCTION_CANCELLED_TO_BIDDER) (BuildAuctionMailBody (owner a) (bid a) (buyout a) (deposit a) 0) (bid a) None) 0
  else mret tt.

(** ** Rows of auctions *)

(** Printed with [%u], some through [int32]. *)
Definition row_of (a : AuctionEntry) : AuctionRow :=
  mkRow (auctioneer a) (itemGUIDLow a) (owner a) (u32 (i32 (buyout a))) (expire_time a) (bidder a) (u32 (i32 (bid a))) (u32 (i32 (startbid a)))
    (u32 (i32 (deposit a))).

(** The statement is not part of the transaction it is given. *)
(* [game/AuctionHouse/AuctionHouseMgr.cpp:649-652] AuctionEntry::DeleteFromDB *)
Definition DeleteFromDB (a : AuctionEntry) : T unit := PExecute (DeleteAuction (Id a)).

(* [game/AuctionHouse/AuctionHouseMgr.cpp:654-659] AuctionEntry::SaveToDB *)
Definition SaveAuctionToDB (a : AuctionEntry) : T unit := Append (InsertAuction (Id a) (row_of a)).

(* [game/AuctionHouse/AuctionHouseMgr.cpp:775-818] AuctionEntry::LoadFromFieldList *)
Definition LoadFromFieldList (w : World) (id : Z) (r : AuctionRow) (i : ItemRow) : option (AuctionEntry * Z) :=
  faction ← auctioneer_faction w (auctioneerguid r);
  entry ← GetAuctionHouseEntry w faction;
  Some (mkAuction (u32 id) (u32 (auctioneerguid r)) (u32 (itemguid r)) (u32 (r_entry i)) (u32 (r_count i)) (u32 (itemowner r)) (u32 (row_startbid r))
          (u32 (lastbid r)) (u32 (buyoutprice r)) (u32 (time_ r)) (u32 (buyguid r)) (u32 (row_deposit r)) entry, faction).

(** The same, and the item must have been loaded. *)
(* [game/AuctionHouse/AuctionHouseMgr.cpp:661-706] AuctionEntry::LoadFromDB *)
Definition LoadFromDB (w : World) (s : AH) (id : Z) (r : AuctionRow) (i : ItemRow) : option (AuctionEntry * Z) :=
  x ← LoadFromFieldList w id r i; _ ← GetAItem s (u32 (itemguid r)); Some x.

(** [auctionhouse ah JOIN item_instance ii ON ah.itemguid = ii.guid], by id. *)
Definition auction_rows (d : DB) : list (Z * AuctionRow * ItemRow) :=
  omap (fun kr => i ← item_instance d !! itemguid kr.2; Some (kr, i)) (ordered (auctionhouse d)).

(* [game/AuctionHouse/AuctionHouseMgr.cpp:257-309] AuctionHouseMgr::LoadAuctionItems *)
Definition LoadAuctionItems (w : World) : T unit :=
  s ← get;
  mapM_ delete_item (elements (mAitems s)) ;;
  modify (set_mAitems ∅) ;;
  s ← get;
  mapM_ (fun x : Z * AuctionRow * ItemRow =>
    let '(_, r, i) := x in
    match item_template w (r_entry i) with
    | None => mret tt
    | Some _ => store_item (itemguid r) (mkItem (r_entry i) (r_count i) 0 ITEM_NEW None false) ;; AddAItem (itemguid r)
    end) (auction_rows (db s)).

(* [game/AuctionHouse/AuctionHouseMgr.cpp:311-346] AuctionHouseMgr::LoadAuctions *)
Definition LoadAuctions (w : World) : T unit :=
  s ← get;
  BeginTransaction ;;
  mapM_ (fun x : Z * AuctionRow * ItemRow =>
    let '(id, r, i) := x in
    s ← get;
    match LoadFromDB w s id r i with
    | None => PExecute (DeleteAuction (u32 id))
    | Some (a, faction) => p ← new_auction a; AddAuction (GetAuctionsMap w faction) p
    end) (auction_rows (db s)) ;;
  CommitTransaction.

(** ** Auctions that end *)

(** [(uint32)curTime+60] *)
Definition deadline (w : World) : Z := u32 (u32 (game_time w) + 60).

(* [game/AuctionHouse/AuctionHouseMgr.cpp:708-773] AuctionHouseMgr::DeleteExpiredAuctionsAtStartup *)
Definition DeleteExpiredAuctionsAtStartup (w : World) : T unit :=
  s ← get;
  mapM_ (fun x : Z * AuctionRow * ItemRow =>
    let '(id, r, i) := x in
    match LoadFromFieldList w id r i with
    | None => mret tt
    | Some (a, _) =>
      BeginTransaction ;;
      (if bidder a =? 0 then SendAuctionExpiredMail w a else SendAuctionSuccessfulMail w a ;; SendAuctionWonMail w a) ;;
      DeleteFromDB a ;;
      CommitTransaction
    end) (filter (fun x => time_ x.1.2 <= deadline w) (auction_rows (db s))).

(** [SELECT id FROM auctionhouse WHERE time <= ... ORDER BY TIME ASC]: ties by id. *)
Definition time_le (x y : Z * AuctionRow) : Prop := time_ x.2 <= time_ y.2.
#[export] Instance time_le_dec x y : Decision (time_le x y).
Proof. unfold time_le. apply _. Defined.

Definition expired_ids (w : World) (d : DB) : list Z :=
  (merge_sort time_le (filter (fun x => time_ x.2 <= deadline w) (ordered (auctionhouse d)))).*1.

Definition UpdateOne (w : World) (h : house) (id : Z) : T unit :=
  s ← get;
  match GetAuction s h id with
  | None => mret tt
  | Some p =>
    a ← deref p;
    BeginTransaction ;;
    (if bidder a =? 0 then SendAuctionExpiredMail w a else SendAuctionSuccessfulMail w a ;; SendAuctionWonMail w a) ;;
    DeleteFromDB a ;;
    CommitTransaction ;;
    RemoveAuction h p ;;
    if freed_intact w a then RemoveAItem (itemGUIDLow a) else throw UseAfterFree
  end.

(** The last read is from the auction just deleted. *)
(* [game/AuctionHouse/AuctionHouseMgr.cpp:430-477] AuctionHouseObject::Update *)
Definition UpdateHouse (w : World) (h : house) : T unit :=
  s ← get;
  if bool_decide (map_Forall (fun (k : house * Z) _ => k.1 <> h) (AuctionsMap s)) then mret tt
  else mapM_ (UpdateOne w h) (expired_ids w (db s)).

(* [game/AuctionHouse/AuctionHouseMgr.cpp:365-370] AuctionHouseMgr::Update *)
Definition Update (w : World) : T unit := UpdateHouse w Horde_house ;; UpdateHouse w Alliance_house ;; UpdateHouse w Neutral_house.

(** [SELECT MAX(...)]: an empty table gives a null, read as 0. *)
Definition max_key {A} (m : gmap Z A) : Z := foldr Z.max 0 (map_to_list m).*1.

(** The next ids, and what refers to items that cannot exist is deleted. *)
(* [game/Globals/ObjectMgr.cpp:6165-6199] ObjectMgr::SetHighestGuids *)
Definition SetHighestGuids : T unit :=
  s ← get;
  let hiItemGuid := max_key (item_instance (db s)) + 1 in
  modify (fun s => set_objects (objects s) hiItemGuid s) ;;
  PExecute (DeleteInventoryFrom hiItemGuid) ;;
  PExecute (DeleteMailItemsFrom hiItemGuid) ;;
  PExecute (DeleteAuctionsFrom hiItemGuid) ;;
  modify (fun s => set_next_auction (max_key (auctionhouse (db s)) + 1) s) ;;
  modify (fun s => set_next_mail (max_key (mail (db s)) + 1) s).

(** What the start of the server does with the auctions. *)
(* [game/World/World.cpp:1698-1706] World::SetInitialWorldSettings *)
Definition startup (w : World) : T unit := SetHighestGuids ;; DeleteExpiredAuctionsAtStartup w ;; LoadAuctionItems w ;; LoadAuctions w.

(** The memory of a server just started on the tables [d]. *)
Definition booted (d : DB) : AH := mkAH ∅ 0 1 ∅ ∅ ∅ 1 1 ∅ ∅ ∅ d [d] [] [].
