(* ===== verification/AuctionHandler.v ===== *)
(** * AuctionHandler: the packets of the auction house
      (src/src/server/game/Handlers/AuctionHouseHandler.cpp)

    Selling, bidding and cancelling, translated whole, with the history of a server as a
    sequence of these commands and of updates, each in a world of its own.  [creature] is
    the faction of the auctioneer if the player can interact with it. *)

From S2P Require Import Prelude.
From S2P Require Import Float32.
From S2P Require Import AuctionHouse.

(* [game/Handlers/AuctionHouseHandler.cpp:77-101] WorldSession::SendAuctionCommandResult *)
Definition SendAuctionCommandResult (player : Z) (auction : option AuctionEntry) (action : AuctionAction) (error : AuctionError) : T unit :=
  let minimal a := if bid a =? 0 then 0 else GetAuctionOutBid a in
  match error, auction with
  | ERR_AUCTION_OK, Some a =>
    modify (emit (OutResult player (Id a) action error (match action with AUCTION_PLACE_BID => [minimal a] | _ => [] end)))
  | ERR_AUCTION_OK, None =>
    match action with AUCTION_PLACE_BID => throw NullDereference | _ => modify (emit (OutResult player 0 action error [])) end
  | ERR_AUCTION_INVENTORY, _ => modify (emit (OutResult player (from_option Id 0 auction) action error [0]))
  | ERR_AUCTION_HIGHER_BID, Some a => modify (emit (OutResult player (Id a) action error [bidder a; bid a; minimal a]))
  | ERR_AUCTION_HIGHER_BID, None => throw NullDereference
  | _, _ => modify (emit (OutResult player (from_option Id 0 auction) action error []))
  end.

(** ** Selling *)

(** The loop over the items of the packet: the addresses and the sum of the counts, or
    nothing when it returned.  [first]: the entry of [items[0]]. *)
(* [game/Handlers/AuctionHouseHandler.cpp:204-241] WorldSession::HandleAuctionSellItem (check of the items) *)
Fixpoint check_items (w : World) (player : Z) (l : list (Z * Z)) (true_item_entry : Z) (first : option Z) (items : list Z) (finalCount : Z)
  : T (option (list Z * Z)) :=
  match l with
  | [] => mret (Some (items, finalCount))
  | (guid, count) :: l' =>
    s ← get;
    match GetItemByGuid s player guid with
    | None => SendAuctionCommandResult player None AUCTION_SELL_ITEM ERR_AUCTION_ITEM_NOT_FOUND ;; mret None
    | Some g =>
      i ← deref_item g;
      if negb (true_item_entry =? 0) && negb (i_entry i =? true_item_entry) then
        SendAuctionCommandResult player None AUCTION_SELL_ITEM ERR_AUCTION_ITEM_NOT_FOUND ;; mret None
      else
        bad ← (if bool_decide (is_Some (GetAItem s g)) then mret true
               else template w (i_entry i) ;;
                    mret (negb (tradeable w g) || (i_count i <? count) || (GetItemCount s player (i_entry i) <? count)));
        if bad : bool then
          SendAuctionCommandResult player None AUCTION_SELL_ITEM ERR_AUCTION_DATABASE_ERROR ;; mret None
        else if match first with Some e => negb (e =? i_entry i) | None => false end then
          modify (emit (OutBan player)) ;; mret None
        else check_items w player l' (if true_item_entry =? 0 then i_entry i else true_item_entry) (Some (default (i_entry i) first)) (items ++ [g])
               (u32 (finalCount + count))
    end
  end.

(* [game/Handlers/AuctionHouseHandler.cpp:249-258] WorldSession::HandleAuctionSellItem (check of the stack) *)
Fixpoint stack_fits (w : World) (items : list Z) (finalCount : Z) : T bool :=
  match items with
  | [] => mret true
  | g :: items' =>
    i ← deref_item g; t ← template w (i_entry i);
    if MaxStack t <? finalCount then mret false else stack_fits w items' finalCount
  end.

(** The fields of the new auction. *)
Definition listed (w : World) (player id auctioneer g : Z) (i : Item) (bid buyout auctionTime deposit : Z) (e : HouseEntry) : AuctionEntry :=
  mkAuction id (if two_side w then NEUTRAL_AUCTIONEER else GUID_LOPART auctioneer) g (i_entry i) (i_count i) player (u32 bid) 0 (u32 buyout)
    (now w + auctionTime) 0 deposit e.

(** The stack is sold whole: the item itself moves to the auction house. *)
(* [game/Handlers/AuctionHouseHandler.cpp:285-325] WorldSession::HandleAuctionSellItem (same stack size) *)
Definition sell_whole (w : World) (player : Z) (h : house) (g : Z) (a : AuctionEntry) : T unit :=
  p ← new_auction a;
  AddAItem g ;;
  AddAuction h p ;;
  MoveItemFromInventory g ;;
  BeginTransaction ;;
  Append (DeleteInventory g) ;;
  SaveToDB g ;;
  SaveAuctionToDB a ;;
  SaveInventoryAndGoldToDB player ;;
  CommitTransaction ;;
  SendAuctionCommandResult player (Some a) AUCTION_SELL_ITEM ERR_AUCTION_OK ;;
  modify (emit (OutAchievement player 1)).

(** One stack of those the clone replaces: gone, or smaller. *)
(* [game/Handlers/AuctionHouseHandler.cpp:363-385] WorldSession::HandleAuctionSellItem (one source stack) *)
Definition take_from (x : Z * Z) : T unit :=
  let '(item2, count) := x in
  i ← deref_item item2;
  if i_count i =? count then
    MoveItemFromInventory item2 ;;
    BeginTransaction ;;
    Append (DeleteInventory item2) ;;
    Append (DeleteItem item2) ;;
    CommitTransaction
  else
    store_item item2 (SetState ITEM_CHANGED (SetCount (u32 (i_count i - count)) i)) ;;
    BeginTransaction ;;
    SaveToDB item2 ;;
    CommitTransaction.

(** The count differs: a clone with the sum of the counts is sold. *)
(* [game/Handlers/AuctionHouseHandler.cpp:342-397] WorldSession::HandleAuctionSellItem (clone) *)
Definition sell_clone (w : World) (player : Z) (h : house) (items : list (Z * Z)) (g : Z) (a : AuctionEntry) : T unit :=
  p ← new_auction a;
  AddAItem g ;;
  AddAuction h p ;;
  mapM_ take_from items ;;
  BeginTransaction ;;
  SaveToDB g ;;
  SaveAuctionToDB a ;;
  SaveInventoryAndGoldToDB player ;;
  CommitTransaction ;;
  SendAuctionCommandResult player (Some a) AUCTION_SELL_ITEM ERR_AUCTION_OK ;;
  modify (emit (OutAchievement player 1)).

(** The loop over the items ends in its first turn. *)
(* [game/Handlers/AuctionHouseHandler.cpp:260-340] WorldSession::HandleAuctionSellItem (the auction) *)
Definition sell_items (w : World) (player : Z) (faction : Z) (e : HouseEntry) (auctioneer : Z) (items : list (Z * Z)) (finalCount bid buyout etime : Z)
  : T unit :=
  match items with
  | [] => mret tt
  | (g, count) :: _ =>
    let auctionTime := f_to_u32 (fmul (f_of_Z etime) (rate_time w)) in
    let h := GetAuctionsMap w faction in
    i ← deref_item g;
    t ← template w (i_entry i);
    let deposit := GetAuctionDeposit w e etime (SellPrice t) finalCount in
    s ← get;
    if negb (HasEnoughMoney s player deposit) then
      SendAuctionCommandResult player None AUCTION_SELL_ITEM ERR_AUCTION_NOT_ENOUGHT_MONEY
    else
      ModifyMoney player (- i32 deposit) ;;
      id ← GenerateAuctionID;
      if (Z.of_nat (length items) =? 1) && (i_count i =? count) then
        sell_whole w player h g (listed w player id auctioneer g i bid buyout auctionTime deposit e)
      else
        c ← CloneItem w g finalCount player;
        match c with
        | None => SendAuctionCommandResult player None AUCTION_SELL_ITEM ERR_AUCTION_DATABASE_ERROR
        | Some n => j ← deref_item n; sell_clone w player h items n (listed w player id auctioneer n j bid buyout auctionTime deposit e)
        end
  end.

(* [game/Handlers/AuctionHouseHandler.cpp:141-400] WorldSession::HandleAuctionSellItem *)
Definition HandleAuctionSellItem (w : World) (player : Z) (creature : option Z) (auctioneer : Z) (packet : list (Z * Z)) (bid buyout etime : Z)
  : T unit :=
  if MAX_AUCTION_ITEMS <? Z.of_nat (length packet) then SendAuctionCommandResult player None AUCTION_SELL_ITEM ERR_AUCTION_DATABASE_ERROR
  else if existsb (fun x => (x.1 =? 0) || (x.2 =? 0) || (1000 <? x.2)) packet then mret tt
  else if (bid =? 0) || (etime =? 0) then mret tt
  else match creature with
  | None => mret tt
  | Some faction =>
    match GetAuctionHouseEntry w faction with
    | None => mret tt
    | Some e =>
      let etime := u32 (etime * 60) in
      if negb ((etime =? MIN_AUCTION_TIME) || (etime =? 2 * MIN_AUCTION_TIME) || (etime =? 4 * MIN_AUCTION_TIME)) then mret tt
      else
        r ← check_items w player packet 0 None [] 0;
        match r with
        | None => mret tt
        | Some (items, finalCount) =>
          if finalCount =? 0 then SendAuctionCommandResult player None AUCTION_SELL_ITEM ERR_AUCTION_DATABASE_ERROR
          else
            ok ← stack_fits w items finalCount;
            if negb (ok : bool) then SendAuctionCommandResult player None AUCTION_SELL_ITEM ERR_AUCTION_DATABASE_ERROR
            else sell_items w player faction e auctioneer (zip items packet.*2) finalCount bid buyout etime
        end
    end
  end.

(** ** Bidding *)

Definition with_bid (b price : Z) (a : AuctionEntry) : AuctionEntry :=
  mkAuction (Id a) (auctioneer a) (itemGUIDLow a) (itemEntry a) (itemCount a) (owner a) (startbid a) price (buyout a) (expire_time a) b
    (deposit a) (auctionHouseEntry a).
Definition store_auction (p : Z) (a : AuctionEntry) : T unit := modify (fun s => set_auctions (<[p := a]> (auctions s)) (next_address s) s).

(* [game/Handlers/AuctionHouseHandler.cpp:462-485] WorldSession::HandleAuctionPlaceBid (bid) *)
Definition raise_bid (w : World) (player p : Z) (a : AuctionEntry) (price : Z) : T unit :=
  (if 0 <? bidder a then
     if bidder a =? player then ModifyMoney player (- i64 (price - bid a))
     else SendAuctionOutbiddedMail w a price player ;; ModifyMoney player (- i64 price)
   else ModifyMoney player (- i64 price)) ;;
  let a' := with_bid player (u32 price) a in
  store_auction p a' ;;
  modify (emit (OutAchievement player price)) ;;
  Append (UpdateBid (Id a) player (u32 price)) ;;
  SendAuctionCommandResult player (Some a') AUCTION_PLACE_BID ERR_AUCTION_OK.

(* [game/Handlers/AuctionHouseHandler.cpp:486-512] WorldSession::HandleAuctionPlaceBid (buyout) *)
Definition buy_out (w : World) (player : Z) (h : house) (p : Z) (a : AuctionEntry) : T unit :=
  (if player =? bidder a then ModifyMoney player (- u32 (buyout a - bid a))
   else
     ModifyMoney player (- buyout a) ;;
     if negb (bidder a =? 0) then SendAuctionOutbiddedMail w a (buyout a) player else mret tt) ;;
  let a' := with_bid player (buyout a) a in
  store_auction p a' ;;
  modify (emit (OutAchievement player (buyout a))) ;;
  SendAuctionSalePendingMail w a' ;;
  SendAuctionSuccessfulMail w a' ;;
  SendAuctionWonMail w a' ;;
  SendAuctionCommandResult player (Some a') AUCTION_PLACE_BID ERR_AUCTION_OK ;;
  DeleteFromDB a' ;;
  RemoveAItem (itemGUIDLow a') ;;
  RemoveAuction h p.

(* [game/Handlers/AuctionHouseHandler.cpp:403-515] WorldSession::HandleAuctionPlaceBid *)
Definition HandleAuctionPlaceBid (w : World) (player : Z) (creature : option Z) (auctionId price : Z) : T unit :=
  if (auctionId =? 0) || (price =? 0) then mret tt
  else match creature with
  | None => mret tt
  | Some faction =>
    let h := GetAuctionsMap w faction in
    s ← get;
    match GetAuction s h auctionId with
    | None => SendAuctionCommandResult player None AUCTION_PLACE_BID ERR_AUCTION_BID_OWN
    | Some p =>
      a ← deref p;
      if owner a =? player then SendAuctionCommandResult player None AUCTION_PLACE_BID ERR_AUCTION_BID_OWN
      else if (price <=? bid a) || (price <? startbid a) then mret tt
      else if ((price <? buyout a) || (buyout a =? 0)) && (price <? u32 (bid a + GetAuctionOutBid a)) then
        SendAuctionCommandResult player (Some a) AUCTION_PLACE_BID ERR_AUCTION_HIGHER_BID
      else if negb (HasEnoughMoney s player price) then
        SendAuctionCommandResult player (Some a) AUCTION_PLACE_BID ERR_AUCTION_NOT_ENOUGHT_MONEY
      else
        BeginTransaction ;;
        (if (price <? buyout a) || (buyout a =? 0) then raise_bid w player p a price else buy_out w player h p a) ;;
        SaveInventoryAndGoldToDB player ;;
        CommitTransaction
    end
  end.

(** ** Cancelling *)

(* [game/Handlers/AuctionHouseHandler.cpp:518-589] WorldSession::HandleAuctionRemoveItem *)
Definition HandleAuctionRemoveItem (w : World) (player : Z) (creature : option Z) (auctionId : Z) : T unit :=
  match creature with
  | None => mret tt
  | Some faction =>
    let h := GetAuctionsMap w faction in
    s ← get;
    BeginTransaction ;;
    match GetAuction s h auctionId with
    | None => SendAuctionCommandResult player None AUCTION_CANCEL ERR_AUCTION_DATABASE_ERROR
    | Some p =>
      a ← deref p;
      if negb (owner a =? player) then SendAuctionCommandResult player None AUCTION_CANCEL ERR_AUCTION_DATABASE_ERROR
      else match GetAItem s (itemGUIDLow a) with
      | None => SendAuctionCommandResult player None AUCTION_CANCEL ERR_AUCTION_DATABASE_ERROR
      | Some pItem =>
        let cut := GetAuctionCut w a in
        if (0 <? bidder a) && negb (HasEnoughMoney s player cut) then mret tt
        else
          (if 0 <? bidder a then SendAuctionCancelledToBidderMail w a pItem ;; ModifyMoney player (- cut) else mret tt) ;;
          deref_item pItem ;;
          SendMailTo w player (houseId (auctionHouseEntry a))
            (mkDraft (BuildAuctionMailSubject a AUCTION_CANCELED) (BuildAuctionMailBody 0 0 (buyout a) (deposit a) 0) 0 (Some pItem)) 0 ;;
          SendAuctionCommandResult player (Some a) AUCTION_CANCEL ERR_AUCTION_OK ;;
          SaveInventoryAndGoldToDB player ;;
          DeleteFromDB a ;;
          CommitTransaction ;;
          RemoveAItem (itemGUIDLow a) ;;
          RemoveAuction h p
      end
    end
  end.

(** ** Histories *)

Inductive ah_cmd :=
| Sell (player : Z) (creature : option Z) (auctioneer : Z) (packet : list (Z * Z)) (bid buyout etime : Z)
| PlaceBid (player : Z) (creature : option Z) (auctionId price : Z)
| CancelAuction (player : Z) (creature : option Z) (auctionId : Z)
| Tick.

Definition perform (w : World) (c : ah_cmd) : T unit :=
  match c with
  | Sell p cr au l b bo t => HandleAuctionSellItem w p cr au l b bo t
  | PlaceBid p cr id pr => HandleAuctionPlaceBid w p cr id pr
  | CancelAuction p cr id => HandleAuctionRemoveItem w p cr id
  | Tick => Update w
  end.

Definition history (l : list (World * ah_cmd)) : T unit := mapM_ (fun wc => perform wc.1 wc.2) l.

(** ** Searching *)

Record Proto := mkProto { p_class : Z; p_subclass : Z; p_inventory_type : Z; p_quality : Z; p_required_level : Z }.

(** The filters of a search; 0xffffffff and 0 mean any.  [usable] is the answer of
    [CanUseItem], [name_fits] that of the comparison of the names. *)
Record Search := mkSearch {
  listfrom : Z; levelmin : Z; levelmax : Z; want_usable : bool; inventoryType : Z; itemClass : Z; itemSubClass : Z; want_quality : Z
}.

(* [game/AuctionHouse/AuctionHouseMgr.cpp:524-588] AuctionHouseObject::BuildListAuctionItems (filters) *)
Definition search_keeps (q : Search) (proto : Proto) (usable name_fits : bool) : bool :=
  if negb (itemClass q =? 0xffffffff) && negb (p_class proto =? itemClass q) then false
  else if negb (itemSubClass q =? 0xffffffff) && negb (p_subclass proto =? itemSubClass q) then false
  else if negb (inventoryType q =? 0xffffffff) && negb (p_inventory_type proto =? inventoryType q) then false
  else if negb (want_quality q =? 0xffffffff) && negb (p_quality proto =? want_quality q) then false
  else if negb (levelmin q =? 0)
          && ((p_required_level proto <? levelmin q) || (negb (levelmax q =? 0) && (levelmax q <? p_required_level proto))) then false
  else if want_usable q && negb usable then false
  else name_fits.

(** Over the auctions in order; [found] decides which are wanted.  The ids put into the
    packet, [count] and [totalcount]. *)
(* [game/AuctionHouse/AuctionHouseMgr.cpp:509-598] AuctionHouseObject::BuildListAuctionItems *)
Fixpoint BuildListAuctionItems (found : Z -> bool) (listfrom : Z) (l : list Z) (data : list Z) (count totalcount : Z) : list Z * Z * Z :=
  match l with
  | [] => (data, count, totalcount)
  | id :: l' =>
    if negb (found id) then BuildListAuctionItems found listfrom l' data count totalcount
    else if (count <? 50) && (listfrom <=? totalcount) then BuildListAuctionItems found listfrom l' (data ++ [id]) (u32 (count + 1)) (u32 (totalcount + 1))
    else BuildListAuctionItems found listfrom l' data count (u32 (totalcount + 1))
  end.
