(* ===== verification/AuctionSpec.v ===== *)
(** * AuctionSpec: the invariant of the auction house, and what its mails do

    [sound] ties the maps of the houses, the store of items, the heap and the tables
    together.  A handler that ends an auction, or outbids somebody, first sends mails:
    [sent] says all they change, with the exact letters. *)

From S2P Require Import Prelude.
From S2P Require Import AuctionHouse AuctionHandler.

(** ** Reading the state *)

(** The auction [a] stands in the house [h] under [id]. *)
Definition listed_at (s : AH) (h : house) (id : Z) (a : AuctionEntry) : Prop :=
  exists p, AuctionsMap s !! (h, id) = Some p /\ auctions s !! p = Some a.

(** A row of [item_instance] that is about the right things. *)
Definition row_says (d : DB) (g entry count : Z) : Prop :=
  exists r, item_instance d !! g = Some r /\ r_entry r = entry /\ r_count r = count.

(** ** The invariant *)

Section Sound.
(** The entries of the items there are. *)
Context (known : Z -> Prop).

Record sound (s : AH) : Prop := {
  so_map : forall h id p, AuctionsMap s !! (h, id) = Some p -> exists a, auctions s !! p = Some a /\ Id a = id;
  so_address : forall k k' p, AuctionsMap s !! k = Some p -> AuctionsMap s !! k' = Some p -> k = k';
  so_id : forall h h' id, is_Some (AuctionsMap s !! (h, id)) -> is_Some (AuctionsMap s !! (h', id)) -> h = h';
  so_next_id : forall h id, is_Some (AuctionsMap s !! (h, id)) -> id < next_auction s;
  so_next_address : forall p, is_Some (auctions s !! p) -> p < next_address s;
  so_item : forall h id a, listed_at s h id a -> itemGUIDLow a ∈ mAitems s /\
    exists i, objects s !! itemGUIDLow a = Some i /\ i_entry i = itemEntry a /\ i_count i = itemCount a /\ i_holder i = None;
  so_store : forall g, g ∈ mAitems s -> exists h id a, listed_at s h id a /\ itemGUIDLow a = g;
  so_distinct : forall h id a h' id' a', listed_at s h id a -> listed_at s h' id' a' -> itemGUIDLow a = itemGUIDLow a' -> id = id';
  so_known : forall g i, objects s !! g = Some i -> known (i_entry i) /\ g < next_item s;
  so_row : forall id r, auctionhouse (db s) !! id = Some r <-> (exists h a, listed_at s h id a /\ r = row_of a);
  so_item_row : forall h id a, listed_at s h id a -> row_says (db s) (itemGUIDLow a) (itemEntry a) (itemCount a);
  so_held : forall g i p, objects s !! g = Some i -> i_holder i = Some p ->
    is_Some (character_inventory (db s) !! g) /\ row_says (db s) g (i_entry i) (i_count i);
  so_inventory : forall g, is_Some (character_inventory (db s) !! g) -> (g ∉ mAitems s) /\ mail_items (db s) !! g = None /\ g < next_item s;
  so_mailed : forall g, is_Some (mail_items (db s) !! g) -> (g ∉ mAitems s) /\ g < next_item s;
  so_rows : forall g, is_Some (item_instance (db s) !! g) -> g < next_item s;
  so_mail : forall id, is_Some (mail (db s) !! id) -> id < next_mail s
}.

Lemma sound_listed s h id a : sound s -> listed_at s h id a -> Id a = id.
Proof. intros Hs (p & Hp & Ha). destruct (so_map s Hs h id p Hp) as (a' & Ha' & E). congruence. Qed.

Lemma sound_listed_unique s h id a h' a' : sound s -> listed_at s h id a -> listed_at s h' id a' -> h' = h /\ a' = a.
Proof.
  intros Hs (p & Hp & Ha) (p' & Hp' & Ha'). pose proof (so_id s Hs h h' id ltac:(eauto) ltac:(eauto)) as <-. split; [done|]. congruence.
Qed.

Lemma sound_find s h id p : sound s -> AuctionsMap s !! (h, id) = Some p -> exists a, auctions s !! p = Some a /\ listed_at s h id a /\ Id a = id.
Proof. intros Hs Hp. destruct (so_map s Hs h id p Hp) as (a & Ha & E). exists a. split_and!; [done| |done]. by exists p. Qed.
End Sound.

(** ** Programs of the worker and of the heap *)

Lemma runs_eq {A} (m : T A) s a s' (Q : A -> AH -> Prop) : m s = (Ok a, s') -> Q a s' -> runs m s Q.
Proof. intros E HQ. unfold runs. by rewrite E. Qed.

Lemma runs_exec o s d Q : apply_op o (db s) = Some d -> Q tt (set_db d s) -> runs (PExecute o) s Q.
Proof. intros E HQ. unfold PExecute. apply runs_modify. by rewrite E. Qed.

Lemma runs_commit s d (Q : unit -> AH -> Prop) :
  ExecuteTransaction (trans s) (db s) = Some d -> Q tt (set_trans [] (set_db d s)) -> runs CommitTransaction s Q.
Proof. intros E HQ. unfold CommitTransaction. apply runs_modify. by rewrite E. Qed.

Lemma runs_deref_auction p s a Q : auctions s !! p = Some a -> Q a s -> runs (deref p) s Q.
Proof. intros E HQ. unfold deref. apply runs_bind, runs_get. by rewrite E. Qed.

Lemma runs_deref_item g s i Q : objects s !! g = Some i -> Q i s -> runs (deref_item g) s Q.
Proof. intros E HQ. unfold deref_item. apply runs_bind, runs_get. by rewrite E. Qed.

Lemma runs_template w e t s Q : item_template w e = Some t -> Q t s -> runs (template w e) s Q.
Proof. intros E HQ. unfold template. by rewrite E. Qed.

Lemma runs_remove h p a s (Q : unit -> AH -> Prop) :
  auctions s !! p = Some a ->
  Q tt (set_auctions (delete p (auctions s)) (next_address s) (set_map (delete (h, Id a) (AuctionsMap s)) s)) -> runs (RemoveAuction h p) s Q.
Proof. intros E HQ. unfold RemoveAuction. apply runs_bind, (runs_deref_auction p s a _ E). repeat plain_step. exact HQ. Qed.

(** A result of a command changes nothing but the output. *)
Lemma runs_result player a action error s (Q : unit -> AH -> Prop) :
  (a = None -> error <> ERR_AUCTION_OK /\ error <> ERR_AUCTION_HIGHER_BID) ->
  (forall o, Q tt (emit o s)) -> runs (SendAuctionCommandResult player a action error) s Q.
Proof. intros Ha HQ. unfold SendAuctionCommandResult. destruct error, a; try (apply runs_modify, HQ); by destruct Ha. Qed.

(** One step of a program that does not look into the state. *)
Ltac ah_step :=
  lazymatch goal with
  | |- runs (Append _) _ _ => unfold Append
  | |- runs BeginTransaction _ _ => unfold BeginTransaction
  | |- runs (ModifyMoney _ _) _ _ => unfold ModifyMoney
  | |- runs (store_item _ _) _ _ => unfold store_item
  | |- runs (store_auction _ _) _ _ => unfold store_auction
  | |- runs (SaveAuctionToDB _) _ _ => unfold SaveAuctionToDB
  | |- runs (RemoveAItem _) _ _ => unfold RemoveAItem
  | |- runs GenerateAuctionID _ _ => unfold GenerateAuctionID
  | |- runs (new_auction _) _ _ => unfold new_auction
  | |- _ => plain_step
  end.

(** ** Tables that differ in gold and owners only *)

Record alike (d d' : DB) : Prop := {
  al_auctionhouse : auctionhouse d' = auctionhouse d;
  al_items : (fun r => (r_entry r, r_count r)) <$> item_instance d' = (fun r => (r_entry r, r_count r)) <$> item_instance d;
  al_inventory : character_inventory d' = character_inventory d;
  al_mail : mail d' = mail d;
  al_mail_items : mail_items d' = mail_items d
}.

#[export] Instance alike_refl : Reflexive alike.
Proof. by intros d. Qed.
#[export] Instance alike_trans : Transitive alike.
Proof. intros d1 d2 d3 [] []. split; congruence. Qed.
#[export] Instance alike_sym : Symmetric alike.
Proof. intros d1 d2 []. by split. Qed.

Lemma alike_row d d' g e c : alike d d' -> row_says d g e c -> row_says d' g e c.
Proof.
  intros [_ E _ _ _] (r & Hr & <- & <-). apply (f_equal (fun m => m !! g)) in E. rewrite !lookup_fmap, Hr in E. cbn in E.
  destruct (item_instance d' !! g) as [r'|] eqn:Hr'; [|done]. injection E as E1 E2. by exists r'.
Qed.

Lemma alike_items d d' g : alike d d' -> is_Some (item_instance d' !! g) <-> is_Some (item_instance d !! g).
Proof.
  intros [_ E _ _ _]. apply (f_equal (fun m => m !! g)) in E. rewrite !lookup_fmap in E. rewrite <- !not_eq_None_Some.
  by destruct (item_instance d' !! g), (item_instance d !! g).
Qed.

Lemma owner_alike g p d d' : apply_op (SetItemOwner g p) d = Some d' -> alike d d'.
Proof.
  intros [= <-]. split; cbn; try done. apply map_eq. intros g'. rewrite !lookup_fmap.
  destruct (decide (g' = g)) as [->|]; [rewrite lookup_alter_eq|by rewrite lookup_alter_ne].
  by destruct (item_instance d !! g).
Qed.

Lemma gold_alike p m d d' : apply_op (SaveGold p m) d = Some d' -> alike d d'.
Proof. by intros [= <-]. Qed.

(** ** Letters *)

(** A mail with the item it carries. *)
Abbreviation letter := (Mail * option Z)%type.

Definition letter_ops (l : letter) : list db_op :=
  InsertMail l.1 :: match l.2 with Some g => [InsertMailItem g (m_id l.1) (m_receiver l.1)] | None => [] end.

Definition post_one (l : letter) (d : DB) : DB :=
  mkDB (auctionhouse d) (item_instance d) (character_inventory d) (<[m_id l.1 := l.1]> (mail d))
    (match l.2 with Some g => <[g := (m_id l.1, m_receiver l.1)]> (mail_items d) | None => mail_items d end) (gold d).

Definition post (ls : list letter) (d : DB) : DB := foldl (fun d l => post_one l d) d ls.

Lemma post_frame ls d :
  auctionhouse (post ls d) = auctionhouse d /\ item_instance (post ls d) = item_instance d /\
  character_inventory (post ls d) = character_inventory d /\ gold (post ls d) = gold d.
Proof. unfold post. revert d. induction ls as [|l ls IH]; intros d; [done|]. cbn. destruct (IH (post_one l d)) as (-> & -> & -> & ->). done. Qed.

(** The ids of the letters follow each other from [n] on. *)
Definition numbered (n : Z) (ls : list letter) : Prop := (fun l => m_id l.1) <$> ls = seqZ n (Z.of_nat (length ls)).

Lemma numbered_cons n l ls : numbered n (l :: ls) <-> m_id l.1 = n /\ numbered (n + 1) ls.
Proof.
  unfold numbered. cbn [length fmap list_fmap]. rewrite seqZ_cons by lia.
  replace (Z.pred (Z.of_nat (S (length ls)))) with (Z.of_nat (length ls)) by lia. replace (Z.succ n) with (n + 1) by lia.
  split; [intros [= E1 E2]; done|intros [-> ->]; done].
Qed.

Lemma numbered_app n ls ls' : numbered n ls -> numbered (n + Z.of_nat (length ls)) ls' -> numbered n (ls ++ ls').
Proof.
  unfold numbered. intros E1 E2. rewrite fmap_app, E1, E2, length_app, Nat2Z.inj_add. by rewrite seqZ_app by lia.
Qed.

Lemma post_mail n ls d id :
  numbered n ls -> is_Some (mail (post ls d) !! id) <-> is_Some (mail d !! id) \/ n <= id < n + Z.of_nat (length ls).
Proof.
  unfold post. revert n d. induction ls as [|l ls IH]; intros n d; cbn [foldl length]; [intros _; split; [tauto|intros [|]; [done|lia]]|].
  intros [Hl Hn]%numbered_cons. rewrite (IH _ _ Hn). cbn [post_one mail]. rewrite Hl, lookup_insert_is_Some'. intuition lia.
Qed.

Lemma post_item ls d g : mail_items (post ls d) !! g = None <-> mail_items d !! g = None /\ g ∉ omap snd ls.
Proof.
  unfold post. revert d. induction ls as [|[m [g'|]] ls IH]; intros d; cbn [foldl omap list_omap snd].
  - split; [intros ?; split; [done|apply not_elem_of_nil]|by intros []].
  - rewrite IH. cbn. rewrite lookup_insert_None, not_elem_of_cons. intuition congruence.
  - rewrite IH. by cbn.
Qed.

(** The worker accepts numbered letters whose items are in no mail yet. *)
Lemma post_accepted n ls rest d :
  numbered n ls -> (forall id, is_Some (mail d !! id) -> id < n) -> NoDup (omap snd ls) -> (forall g, g ∈ omap snd ls -> mail_items d !! g = None) ->
  ExecuteTransaction (flat_map letter_ops ls ++ rest) d = ExecuteTransaction rest (post ls d).
Proof.
  unfold post. revert n d. induction ls as [|[m o] ls IH]; intros n d; [done|]. intros [Hm Hn]%numbered_cons Hd Hnd Hfree. cbn in Hm.
  assert (mail d !! m_id m = None) as Hnone.
  { destruct (mail d !! m_id m) eqn:E; [|done]. assert (m_id m < n) by (apply Hd; rewrite E; eauto). lia. }
  assert (forall d' id, mail d' = <[m_id m := m]> (mail d) -> is_Some (mail d' !! id) -> id < n + 1) as Hids.
  { intros d' id -> [|H]%lookup_insert_is_Some'; [lia|]. specialize (Hd id H). lia. }
  cbn [flat_map letter_ops fst snd app foldl ExecuteTransaction apply_op].
  rewrite bool_decide_eq_false_2 by (rewrite Hnone; by intros []).
  destruct o as [g|]; cbn [app ExecuteTransaction apply_op mail_items].
  - cbn [omap list_omap snd] in Hnd, Hfree. apply NoDup_cons in Hnd as [Hg Hnd].
    rewrite bool_decide_eq_false_2 by (rewrite (Hfree g ltac:(constructor)); by intros []).
    apply (IH (n + 1)); [done|intros id; by apply Hids|done|]. intros g' Hg'. cbn. rewrite lookup_insert_ne by (by intros ->).
    apply Hfree. by constructor.
  - apply (IH (n + 1)); [done|intros id; by apply Hids|done|]. intros g' Hg'. by apply Hfree.
Qed.

Lemma post_alike ls d d' : alike d d' -> alike (post ls d) (post ls d').
Proof.
  unfold post. revert d d'. induction ls as [|l ls IH]; intros d d' H; [done|]. cbn. apply IH. destruct H as [? ? ? E1 E2]. split; cbn; rewrite ?E1, ?E2; done.
Qed.

(** ** What the mails of a command change *)

Record sent (ls : list letter) (s s' : AH) : Prop := {
  se_auctions : auctions s' = auctions s;
  se_next_address : next_address s' = next_address s;
  se_next_auction : next_auction s' = next_auction s;
  se_map : AuctionsMap s' = AuctionsMap s;
  se_mAitems : mAitems s' = mAitems s;
  se_next_item : next_item s' = next_item s;
  se_purse : purse s' = purse s;
  se_next_mail : next_mail s' = next_mail s + Z.of_nat (length ls);
  se_numbered : numbered (next_mail s) ls;
  se_trans : trans s' = trans s ++ flat_map letter_ops ls;
  se_objects : forall g i, objects s' !! g = Some i -> objects s !! g = Some i;
  se_kept : forall g, g ∉ omap snd ls -> objects s' !! g = objects s !! g;
  se_db : alike (db s) (db s');
  se_gold : gold (db s') = gold (db s);
  se_tables : exists T, tables s' = tables s ++ T /\ Forall (alike (db s)) T
}.

Lemma sent_nothing s s' :
  auctions s' = auctions s -> next_address s' = next_address s -> next_auction s' = next_auction s -> AuctionsMap s' = AuctionsMap s ->
  mAitems s' = mAitems s -> next_item s' = next_item s -> purse s' = purse s -> next_mail s' = next_mail s -> trans s' = trans s ->
  objects s' = objects s -> db s' = db s -> tables s' = tables s -> sent [] s s'.
Proof.
  intros ? ? ? ? ? ? ? ? ? ? Ed Et. split; cbn; try (done || congruence); [lia|by rewrite app_nil_r|by rewrite Ed|].
  exists []. split; [by rewrite app_nil_r|done].
Qed.

Lemma sent_refl s : sent [] s s.
Proof. by apply sent_nothing. Qed.

Lemma sent_emit o s : sent [] s (emit o s).
Proof. by apply sent_nothing. Qed.

Lemma sent_trans ls1 ls2 s s1 s2 : sent ls1 s s1 -> sent ls2 s1 s2 -> sent (ls1 ++ ls2) s s2.
Proof.
  intros [] []. split; try congruence.
  - rewrite length_app. lia.
  - apply numbered_app; [done|]. by rewrite <- se_next_mail0.
  - rewrite flat_map_app, app_assoc. congruence.
  - eauto.
  - intros g Hg. rewrite omap_app, not_elem_of_app in Hg. destruct Hg as [H1 H2]. by rewrite (se_kept1 _ H2), (se_kept0 _ H1).
  - by etransitivity.
  - destruct se_tables0 as (T1 & E1 & F1), se_tables1 as (T2 & E2 & F2). exists (T1 ++ T2).
    split; [by rewrite E2, E1, app_assoc|]. apply Forall_app. split; [done|].
    eapply Forall_impl; [exact F2|]. intros d Hd. by etransitivity.
Qed.

Lemma sent_owner g p s d : apply_op (SetItemOwner g p) (db s) = Some d -> sent [] s (set_db d s).
Proof.
  intros E. pose proof (owner_alike _ _ _ _ E) as Hal. split; cbn; try done; [lia|by rewrite app_nil_r|by injection E as <-|].
  exists [d]. split; [done|]. by constructor.
Qed.

Lemma sent_then ls s s1 (m : T unit) : sent [] s s1 -> runs m s1 (fun _ s' => sent ls s1 s') -> runs m s1 (fun _ s' => sent ls s s').
Proof. intros H1 Hm. apply (runs_mono _ _ _ _ Hm). intros _ s2 H2. exact (sent_trans [] _ _ _ _ H1 H2). Qed.

(** The letter [SendMailTo] writes. *)
Definition letter_of (w : World) (receiver sender : Z) (d : Draft) (delay n : Z) : letter :=
  let expire_delay := if bool_decide (d_item d = None) && (d_money d =? 0) then mail_delay w
                      else if game_master w sender then 90 * DAY else 30 * DAY in
  (mkMail n sender receiver (d_subject d) (d_body d) (bool_decide (d_item d <> None)) (now w + delay + expire_delay) (now w + delay) (d_money d)
     MAIL_CHECK_MASK_COPIED, d_item d).

Lemma SendMailTo_sent w receiver sender d delay s :
  (forall g, d_item d = Some g -> is_Some (objects s !! g)) ->
  runs (SendMailTo w receiver sender d delay) s (fun _ s' => sent [letter_of w receiver sender d delay (next_mail s)] s s').
Proof.
  intros Hit. unfold SendMailTo, letter_of. destruct d as [subj body m o]. cbn [d_item d_money d_subject d_body] in *.
  repeat ah_step. destruct o as [g|].
  - destruct (Hit g eq_refl) as [i Hi].
    repeat ah_step. destruct (online w receiver && mails_loaded w receiver).
    + repeat ah_step. apply (runs_deref_item _ _ i); [exact Hi|]. repeat ah_step.
      split; cbn; try done; [by rewrite <- app_assoc|]. exists []. split; [by rewrite app_nil_r|done].
    + unfold delete_item. repeat ah_step. apply (runs_deref_item _ _ i); [exact Hi|]. repeat ah_step.
      split; cbn; try done; [by rewrite <- app_assoc| | |].
      * intros g' i' H. by apply lookup_delete_Some in H as [_ H].
      * intros g' H. apply lookup_delete_ne. intros ->. apply H. by constructor.
      * exists []. split; [by rewrite app_nil_r|done].
  - repeat ah_step. destruct (online w receiver && mails_loaded w receiver); repeat ah_step; split; cbn; try done;
      exists []; (split; [by rewrite app_nil_r|done]).
Qed.

(** *** The letters of the six functions *)

Definition won_letters (w : World) (a : AuctionEntry) (n : Z) : list letter :=
  if online w (bidder a) || (gm_log_trade w && negb (account w (bidder a) =? 0)) then
    [letter_of w (bidder a) (houseId (auctionHouseEntry a))
       (mkDraft (BuildAuctionMailSubject a AUCTION_WON) (BuildAuctionMailBody (owner a) (bid a) (buyout a) 0 0) 0 (Some (itemGUIDLow a))) 0 n]
  else [].

Definition pending_letters (w : World) (a : AuctionEntry) (n : Z) : list letter :=
  if exists_ w (owner a) then
    [letter_of w (owner a) (houseId (auctionHouseEntry a))
      (mkDraft (BuildAuctionMailSubject a AUCTION_SALE_PENDING) (BuildAuctionMailBody (bidder a) (bid a) (buyout a) (deposit a) (GetAuctionCut w a))
         0 None) 0 n]
  else [].

Definition success_letters (w : World) (a : AuctionEntry) (n : Z) : list letter :=
  if exists_ w (owner a) then
    [letter_of w (owner a) (houseId (auctionHouseEntry a))
      (mkDraft (BuildAuctionMailSubject a AUCTION_SUCCESSFUL) (BuildAuctionMailBody (bidder a) (bid a) (buyout a) (deposit a) (GetAuctionCut w a))
         (profit w a) None) (mail_delay w) n]
  else [].

Definition expired_letters (w : World) (a : AuctionEntry) (n : Z) : list letter :=
  if exists_ w (owner a) then
    [letter_of w (owner a) (houseId (auctionHouseEntry a))
        (mkDraft (BuildAuctionMailSubject a AUCTION_EXPIRED) (BuildAuctionMailBody 0 0 (buyout a) (deposit a) 0) 0 (Some (itemGUIDLow a))) 0 n]
  else [].

Definition outbid_letters (w : World) (a : AuctionEntry) (n : Z) : list letter :=
  if exists_ w (bidder a) then
    [letter_of w (bidder a) (houseId (auctionHouseEntry a))
      (mkDraft (BuildAuctionMailSubject a AUCTION_OUTBIDDED) (BuildAuctionMailBody (owner a) (bid a) (buyout a) (deposit a) (GetAuctionCut w a))
         (bid a) None) 0 n]
  else [].

Definition refund_letters (w : World) (a : AuctionEntry) (n : Z) : list letter :=
  if exists_ w (bidder a) then
    [letter_of w (bidder a) (houseId (auctionHouseEntry a))
      (mkDraft (BuildAuctionMailSubject a AUCTION_CANCELLED_TO_BIDDER) (BuildAuctionMailBody (owner a) (bid a) (buyout a) (deposit a) 0) (bid a) None)
      0 n]
  else [].

(** After output, the letter. *)
Lemma send_after (m : T unit) w receiver sender d delay s :
  (forall g, d_item d = Some g -> is_Some (objects s !! g)) -> runs m s (fun _ s' => sent [] s s') ->
  runs (m ;; SendMailTo w receiver sender d delay) s (fun _ s' => sent [letter_of w receiver sender d delay (next_mail s)] s s').
Proof.
  intros Hit Hm. apply runs_bind, (runs_mono _ _ _ _ Hm). intros _ s1 H1.
  assert (next_mail s = next_mail s1) as -> by (pose proof (se_next_mail _ _ _ H1) as E; cbn in E; lia).
  apply (sent_then _ _ _ _ H1), SendMailTo_sent. intros g Hg. rewrite (se_kept _ _ _ H1 g); [by apply Hit|apply not_elem_of_nil].
Qed.

Lemma successful_sent w a s : runs (SendAuctionSuccessfulMail w a) s (fun _ s' => sent (success_letters w a (next_mail s)) s s').
Proof.
  unfold SendAuctionSuccessfulMail, success_letters. destruct (exists_ w (owner a)); [|apply runs_ret, sent_refl].
  apply send_after; [done|]. destruct (online w (owner a)); repeat ah_step; [|apply sent_refl]. by apply sent_nothing.
Qed.

Lemma pending_sent w a s : runs (SendAuctionSalePendingMail w a) s (fun _ s' => sent (pending_letters w a (next_mail s)) s s').
Proof.
  unfold SendAuctionSalePendingMail, pending_letters. destruct (exists_ w (owner a)); [|apply runs_ret, sent_refl]. by apply SendMailTo_sent.
Qed.

Lemma outbidded_sent w a price new s : runs (SendAuctionOutbiddedMail w a price new) s (fun _ s' => sent (outbid_letters w a (next_mail s)) s s').
Proof.
  unfold SendAuctionOutbiddedMail, outbid_letters. destruct (exists_ w (bidder a)); [|apply runs_ret, sent_refl].
  apply send_after; [done|]. destruct (online w (bidder a)); repeat ah_step; [apply sent_emit|apply sent_refl].
Qed.

Lemma expired_sent w a s :
  itemGUIDLow a ∈ mAitems s -> is_Some (objects s !! itemGUIDLow a) ->
  runs (SendAuctionExpiredMail w a) s (fun _ s' => sent (expired_letters w a (next_mail s)) s s').
Proof.
  intros Hin [i Hi]. unfold SendAuctionExpiredMail, expired_letters, GetAItem. repeat ah_step. rewrite bool_decide_eq_true_2 by done.
  destruct (exists_ w (owner a)); [|apply runs_ret, sent_refl].
  destruct (online w (owner a)); repeat ah_step; (apply (runs_deref_item _ _ i); [exact Hi|]).
  - apply (sent_then _ _ _ _ (sent_emit _ s)). refine (SendMailTo_sent _ _ _ _ _ (emit _ s) _). intros g [= <-]. by exists i.
  - apply SendMailTo_sent. intros g [= <-]. by exists i.
Qed.

Lemma won_sent w a s :
  itemGUIDLow a ∈ mAitems s -> is_Some (objects s !! itemGUIDLow a) ->
  runs (SendAuctionWonMail w a) s (fun _ s' => sent (won_letters w a (next_mail s)) s s').
Proof.
  intros Hin [i Hi]. unfold SendAuctionWonMail, won_letters, GetAItem. repeat ah_step. rewrite bool_decide_eq_true_2 by done.
  repeat ah_step. apply (runs_deref_item _ _ i); [exact Hi|]. apply runs_bind, (runs_mono _ _ (fun _ s' => sent [] s s')).
  { destruct (gm_log_trade w && player_security w (bidder a)); repeat ah_step; [apply sent_emit|apply sent_refl]. }
  intros _ s1 H1.
  replace (online w (bidder a) || negb ((if gm_log_trade w then account w (bidder a) else 0) =? 0))
    with (online w (bidder a) || (gm_log_trade w && negb (account w (bidder a) =? 0))) by by destruct (gm_log_trade w).
  destruct (online w (bidder a) || _); [|by apply runs_ret].
  assert (next_mail s = next_mail s1) as -> by (pose proof (se_next_mail _ _ _ H1) as E; cbn in E; lia).
  apply (sent_then _ _ _ _ H1).
  apply runs_bind. destruct (apply_op (SetItemOwner (itemGUIDLow a) (bidder a)) (db s1)) as [d|] eqn:Ed; [|done].
  apply (runs_exec _ _ _ _ Ed). apply (sent_then _ _ _ _ (sent_owner _ _ _ _ Ed)).
  refine (send_after _ _ _ _ _ _ (set_db d s1) _ _); [|destruct (online w (bidder a)); repeat ah_step; [by apply sent_nothing|apply sent_refl]].
  intros g [= <-]. cbn. rewrite (se_kept _ _ _ H1) by apply not_elem_of_nil. by exists i.
Qed.

Lemma refund_sent w a s g :
  is_Some (objects s !! g) -> runs (SendAuctionCancelledToBidderMail w a g) s (fun _ s' => sent (refund_letters w a (next_mail s)) s s').
Proof.
  intros [i Hi]. unfold SendAuctionCancelledToBidderMail, refund_letters. apply runs_bind, (runs_mono _ _ (fun _ s' => sent [] s s')).
  { destruct (online w (bidder a)); [|apply runs_ret, sent_refl]. apply runs_bind, (runs_deref_item _ _ i _ Hi), runs_modify, sent_emit. }
  intros _ s1 H1. assert (next_mail s = next_mail s1) as -> by (pose proof (se_next_mail _ _ _ H1) as E; cbn in E; lia).
  destruct (exists_ w (bidder a)); [|by apply runs_ret].
  apply (sent_then _ _ _ _ H1). by apply SendMailTo_sent.
Qed.
