(* ===== verification/AuctionEnd.v ===== *)
(** * AuctionEnd: what every end of an auction does

    An auction that expires, is sold, bought out or cancelled leaves its house, its item
    the store, its row the table, and the letters of the command are delivered: [ended].
    That keeps the invariant. *)

From S2P Require Import Prelude.
From S2P Require Import AuctionHouse AuctionHandler AuctionSpec.

Definition without_row (id : Z) (d : DB) : DB :=
  mkDB (delete id (auctionhouse d)) (item_instance d) (character_inventory d) (mail d) (mail_items d) (gold d).

Lemma alike_without id d d' : alike d d' -> alike (without_row id d) (without_row id d').
Proof. intros []. split; cbn; congruence. Qed.

(** The letters carry the item [g] or none. *)
Definition carries (ls : list letter) (g : Z) : Prop := omap snd ls = [] \/ omap snd ls = [g].

Lemma carries_app_l ls ls' g : omap snd ls = [] -> carries ls' g -> carries (ls ++ ls') g.
Proof. unfold carries. by rewrite omap_app => ->. Qed.

Record ended (h : house) (id p g : Z) (ls : list letter) (pu : gmap Z Z) (s s' : AH) : Prop := {
  en_map : AuctionsMap s' = delete (h, id) (AuctionsMap s);
  en_auctions : auctions s' = delete p (auctions s);
  en_mAitems : mAitems s' = mAitems s ∖ {[g]};
  en_next_address : next_address s' = next_address s;
  en_next_auction : next_auction s' = next_auction s;
  en_next_item : next_item s' = next_item s;
  en_next_mail : next_mail s' = next_mail s + Z.of_nat (length ls);
  en_purse : purse s' = pu;
  en_numbered : numbered (next_mail s) ls;
  en_objects : forall g' i, objects s' !! g' = Some i -> objects s !! g' = Some i;
  en_kept : forall g', g' <> g -> objects s' !! g' = objects s !! g';
  en_db : alike (post ls (without_row id (db s))) (db s');
  en_tables : exists T, tables s' = tables s ++ T /\
    Forall (fun d => alike (db s) d \/ alike (without_row id (db s)) d \/ alike (post ls (without_row id (db s))) d) T
}.

Section End_.
Context (known : Z -> Prop).

(** The worker accepts the letters of a command run from a sound state. *)
Lemma letters_accepted s ls g rest d :
  sound known s -> numbered (next_mail s) ls -> carries ls g -> g ∈ mAitems s -> mail d = mail (db s) -> mail_items d = mail_items (db s) ->
  ExecuteTransaction (flat_map letter_ops ls ++ rest) d = ExecuteTransaction rest (post ls d).
Proof.
  intros Hs Hn Hc Hg Em Ei. apply (post_accepted (next_mail s)); [done| | |].
  - intros id. rewrite Em. apply (so_mail _ _ Hs).
  - destruct Hc as [->| ->]; [constructor|apply NoDup_singleton].
  - intros g' Hg'. rewrite Ei. destruct Hc as [E|E]; rewrite E in Hg'; [by apply not_elem_of_nil in Hg'|].
    apply list_elem_of_singleton in Hg' as ->. destruct (mail_items (db s) !! g) eqn:E'; [|done].
    destruct (so_mailed _ _ Hs g ltac:(eauto)) as [H _]. done.
Qed.

(** ** Sending, then closing

    The mails are sent from the state of the command with an empty transaction, a new
    purse, and perhaps the auction changed. *)
Definition base (pu : gmap Z Z) (au : gmap Z AuctionEntry) (s : AH) : AH := set_trans [] (set_purse pu (set_auctions au (next_address s) s)).

Lemma sent_purse ls pu s s' : sent ls s s' -> sent ls (set_purse pu s) (set_purse pu s').
Proof. intros []. by split. Qed.

Lemma sent_auctions ls au s s' : sent ls s s' -> sent ls (set_auctions au (next_address s) s) (set_auctions au (next_address s') s').
Proof. intros []. by split. Qed.

Lemma closed h id p g ls pu au s s1 s' :
  sent ls (base pu au s) s1 -> carries ls g -> delete p au = delete p (auctions s) ->
  AuctionsMap s' = delete (h, id) (AuctionsMap s1) -> auctions s' = delete p (auctions s1) -> mAitems s' = mAitems s1 ∖ {[g]} ->
  next_address s' = next_address s1 -> next_auction s' = next_auction s1 -> next_item s' = next_item s1 -> next_mail s' = next_mail s1 ->
  purse s' = purse s1 -> objects s' = objects s1 -> alike (post ls (without_row id (db s1))) (db s') ->
  (exists T, tables s' = tables s1 ++ T /\
     Forall (fun d => alike (db s1) d \/ alike (without_row id (db s1)) d \/ alike (post ls (without_row id (db s1))) d) T) ->
  ended h id p g ls pu s s'.
Proof.
  intros [] Hc Hau ? ? ? ? ? ? ? ? Eo Ed (T & ET & HT). cbn in *.
  assert (alike (without_row id (db s)) (without_row id (db s1))) as A1 by by apply alike_without.
  assert (alike (post ls (without_row id (db s))) (post ls (without_row id (db s1)))) as A2 by by apply post_alike.
  split; try congruence; try done.
  - intros g' i. rewrite Eo. apply se_objects.
  - intros g' Hg'. rewrite Eo. apply se_kept. destruct Hc as [->| ->]; [apply not_elem_of_nil|by intros ?%list_elem_of_singleton].
  - by etransitivity.
  - destruct se_tables as (T0 & E0 & F0). exists (T0 ++ T). split; [by rewrite ET, E0, app_assoc|]. apply Forall_app. split.
    + eapply Forall_impl; [exact F0|]. by left.
    + eapply Forall_impl; [exact HT|]. intros d [?|[?|?]]; [left|right; left|right; right]; by etransitivity.
Qed.

(** ** The invariant after the end *)

Section Ended.
Context h id p a ls pu s s' (Hs : sound known s) (Hp : AuctionsMap s !! (h, id) = Some p) (Ha : auctions s !! p = Some a)
  (Hc : carries ls (itemGUIDLow a)) (He : ended h id p (itemGUIDLow a) ls pu s s').

Lemma ended_listed h' id' a' : listed_at s' h' id' a' <-> listed_at s h' id' a' /\ id' <> id.
Proof.
  unfold listed_at. rewrite (en_map _ _ _ _ _ _ _ _ He), (en_auctions _ _ _ _ _ _ _ _ He). split.
  - intros (p' & [Hk Hp']%lookup_delete_Some & [_ Ha']%lookup_delete_Some). split; [by exists p'|]. intros ->.
    apply Hk. f_equal. apply (so_id _ _ Hs h h' id); eauto.
  - intros ((p' & Hp' & Ha') & Hne). exists p'. split; apply lookup_delete_Some; (split; [|done]); [congruence|].
    intros ->. pose proof (so_address _ _ Hs _ _ _ Hp Hp') as [= _ E]. by apply Hne.
Qed.

Lemma ended_map h' id' : is_Some (AuctionsMap s' !! (h', id')) -> is_Some (AuctionsMap s !! (h', id')).
Proof. rewrite (en_map _ _ _ _ _ _ _ _ He). intros [? [_ ?]%lookup_delete_Some]. eauto. Qed.

Lemma ended_item_listed : listed_at s h id a.
Proof. by exists p. Qed.

(** No other auction sells the item. *)
Lemma ended_other_item h' id' a' : listed_at s h' id' a' -> id' <> id -> itemGUIDLow a' <> itemGUIDLow a.
Proof. intros Hl Hne E. apply Hne. exact (so_distinct _ _ Hs _ _ _ _ _ _ Hl ended_item_listed E). Qed.

Lemma ended_db :
  auctionhouse (db s') = delete id (auctionhouse (db s)) /\ character_inventory (db s') = character_inventory (db s) /\
  (forall g e c, row_says (db s) g e c -> row_says (db s') g e c) /\
  (forall g, is_Some (item_instance (db s') !! g) <-> is_Some (item_instance (db s) !! g)) /\
  (forall g, mail_items (db s') !! g = None <-> mail_items (db s) !! g = None /\ g ∉ omap snd ls) /\
  (forall i, is_Some (mail (db s') !! i) <-> is_Some (mail (db s) !! i) \/ next_mail s <= i < next_mail s + Z.of_nat (length ls)).
Proof.
  pose proof (en_db _ _ _ _ _ _ _ _ He) as Hd. pose proof (post_frame ls (without_row id (db s))) as (F1 & F2 & F3 & _).
  split_and!.
  - by rewrite (al_auctionhouse _ _ Hd), F1.
  - by rewrite (al_inventory _ _ Hd), F3.
  - intros g e c (r & Hr & H). apply (alike_row _ _ _ _ _ Hd). exists r. by rewrite F2.
  - intros g. by rewrite (alike_items _ _ _ Hd), F2.
  - intros g. by rewrite (al_mail_items _ _ Hd), post_item.
  - intros i. rewrite (al_mail _ _ Hd), (post_mail (next_mail s)); [done|]. exact (en_numbered _ _ _ _ _ _ _ _ He).
Qed.

Lemma ended_sound : sound known s'.
Proof.
  destruct ended_db as (D1 & D2 & D3 & D4 & D5 & D6).
  pose proof (so_item _ _ Hs _ _ _ ended_item_listed) as [Hin _].
  assert (forall g, g ∈ mAitems s' <-> g ∈ mAitems s /\ g <> itemGUIDLow a) as Hst.
  { intros g. by rewrite (en_mAitems _ _ _ _ _ _ _ _ He), elem_of_difference, elem_of_singleton. }
  assert (forall g, g ∈ omap snd ls -> g = itemGUIDLow a) as Hls.
  { intros g. destruct Hc as [->| ->]; [by intros ?%not_elem_of_nil|by intros ?%list_elem_of_singleton]. }
  split.
  - intros h' id' p'. rewrite (en_map _ _ _ _ _ _ _ _ He), (en_auctions _ _ _ _ _ _ _ _ He). intros [Hk Hp']%lookup_delete_Some.
    destruct (so_map _ _ Hs _ _ _ Hp') as (a' & Ha' & E). exists a'. split; [|done]. apply lookup_delete_Some. split; [|done].
    intros ->. apply Hk. exact (so_address _ _ Hs _ _ _ Hp Hp').
  - intros k k' p'. rewrite (en_map _ _ _ _ _ _ _ _ He). intros [_ H1]%lookup_delete_Some [_ H2]%lookup_delete_Some.
    exact (so_address _ _ Hs _ _ _ H1 H2).
  - intros h1 h2 id' H1%ended_map H2%ended_map. exact (so_id _ _ Hs _ _ _ H1 H2).
  - intros h' id' H%ended_map. rewrite (en_next_auction _ _ _ _ _ _ _ _ He). exact (so_next_id _ _ Hs _ _ H).
  - intros p'. rewrite (en_auctions _ _ _ _ _ _ _ _ He), (en_next_address _ _ _ _ _ _ _ _ He). intros [x [_ Hx]%lookup_delete_Some].
    apply (so_next_address _ _ Hs). eauto.
  - intros h' id' a' [Hl Hne]%ended_listed. pose proof (ended_other_item _ _ _ Hl Hne) as Hg.
    destruct (so_item _ _ Hs _ _ _ Hl) as [H1 (i & Hi & H2)]. rewrite Hst. split; [done|]. exists i.
    by rewrite (en_kept _ _ _ _ _ _ _ _ He _ Hg).
  - intros g [H1 H2]%Hst. destruct (so_store _ _ Hs g H1) as (h' & id' & a' & Hl & E). exists h', id', a'. rewrite ended_listed.
    split_and!; [done| |done]. intros ->. destruct (sound_listed_unique _ _ _ _ _ _ _ Hs ended_item_listed Hl) as [_ ->]. by apply H2.
  - intros h1 id1 a1 h2 id2 a2 [H1 _]%ended_listed [H2 _]%ended_listed. exact (so_distinct _ _ Hs _ _ _ _ _ _ H1 H2).
  - intros g i Hg%(en_objects _ _ _ _ _ _ _ _ He). rewrite (en_next_item _ _ _ _ _ _ _ _ He). exact (so_known _ _ Hs _ _ Hg).
  - intros id' r. rewrite D1, lookup_delete_Some, (so_row _ _ Hs). split.
    + intros (Hne & h' & a' & Hl & E). exists h', a'. rewrite ended_listed. auto.
    + intros (h' & a' & [Hl Hne]%ended_listed & E). eauto.
  - intros h' id' a' [Hl _]%ended_listed. apply D3. exact (so_item_row _ _ Hs _ _ _ Hl).
  - intros g i q Hg%(en_objects _ _ _ _ _ _ _ _ He) Hq. destruct (so_held _ _ Hs _ _ _ Hg Hq) as [H1 H2]. rewrite D2. auto.
  - intros g. rewrite D2, D5, Hst, (en_next_item _ _ _ _ _ _ _ _ He). intros Hg.
    destruct (so_inventory _ _ Hs g Hg) as (H1 & H2 & H3). split_and!; try done; [tauto|]. intros ?%Hls. by subst.
  - intros g. rewrite <- not_eq_None_Some, D5, Hst, (en_next_item _ _ _ _ _ _ _ _ He). intros Hg.
    destruct (decide (g ∈ omap snd ls)) as [E%Hls|E].
    + subst g. split; [tauto|]. destruct (so_item _ _ Hs _ _ _ ended_item_listed) as [_ (i & Hi & _)]. by apply (so_known _ _ Hs _ i).
    + destruct (mail_items (db s) !! g) eqn:Em; [|tauto]. destruct (so_mailed _ _ Hs g ltac:(eauto)). tauto.
  - intros g. rewrite D4, (en_next_item _ _ _ _ _ _ _ _ He). apply (so_rows _ _ Hs).
  - intros i. rewrite D6, (en_next_mail _ _ _ _ _ _ _ _ He). intros [H|H]; [pose proof (so_mail _ _ Hs i H); lia|lia].
Qed.
End Ended.
End End_.
