(* ===== verification/AuctionSafety.v ===== *)
(** * AuctionSafety: the commands, one by one

    From a sound state every command ends without a fault.  An update, a buyout and a
    cancellation end the auction with exactly the letters given here ([ended]); a bid
    changes the auction and its row and refunds the last bidder ([raised]). *)

From S2P Require Import Prelude.
From S2P Require Import AuctionHouse AuctionHandler AuctionSpec AuctionEnd.

(** ** Purses *)

Definition paid (pu : gmap Z Z) (player d : Z) : gmap Z Z :=
  let m := default 0 (pu !! player) in
  <[player := if d <? 0 then (if - d <? m then m + d else 0) else if m <? MAX_MONEY_AMOUNT - d then m + d else MAX_MONEY_AMOUNT]> pu.

Lemma runs_pay player d s (Q : unit -> AH -> Prop) : Q tt (set_purse (paid (purse s) player d) s) -> runs (ModifyMoney player d) s Q.
Proof. intros H. by apply runs_modify. Qed.

Lemma runs_save_gold player s (Q : unit -> AH -> Prop) :
  (forall d, d = mkDB (auctionhouse (db s)) (item_instance (db s)) (character_inventory (db s)) (mail (db s)) (mail_items (db s))
                   (<[player := u32 (money s player)]> (gold (db s))) -> Q tt (set_db d s)) ->
  runs (SaveInventoryAndGoldToDB player) s Q.
Proof. intros H. unfold SaveInventoryAndGoldToDB, SaveGoldToDB. repeat ah_step. eapply runs_exec; [done|]. by apply H. Qed.

Lemma runs_delete_row a s (Q : unit -> AH -> Prop) : Q tt (set_db (without_row (Id a) (db s)) s) -> runs (DeleteFromDB a) s Q.
Proof. intros H. unfold DeleteFromDB. by eapply runs_exec. Qed.

(** Sends one after the other. *)
Lemma sent_bind ls ls' s0 s (m : T unit) (n : T unit) (Q : unit -> AH -> Prop) :
  sent ls s0 s -> runs m s (fun _ s' => sent ls' s s') -> (forall s', sent (ls ++ ls') s0 s' -> runs n s' Q) -> runs (m ;; n) s Q.
Proof. intros Hs Hm Hn. apply runs_bind, (runs_mono _ _ _ _ Hm). intros _ s' H. apply Hn. exact (sent_trans _ _ _ _ _ Hs H). Qed.

(** ** Letters *)

Definition closing_letters (w : World) (a : AuctionEntry) (n : Z) : list letter :=
  if bidder a =? 0 then expired_letters w a n
  else let l := success_letters w a n in l ++ won_letters w a (n + Z.of_nat (length l)).

Lemma no_items_success w a n : omap snd (success_letters w a n) = [].
Proof. unfold success_letters. by destruct (exists_ w (owner a)). Qed.
Lemma no_items_pending w a n : omap snd (pending_letters w a n) = [].
Proof. unfold pending_letters. by destruct (exists_ w (owner a)). Qed.
Lemma no_items_outbid w a n : omap snd (outbid_letters w a n) = [].
Proof. unfold outbid_letters. by destruct (exists_ w (bidder a)). Qed.
Lemma no_items_refund w a n : omap snd (refund_letters w a n) = [].
Proof. unfold refund_letters. by destruct (exists_ w (bidder a)). Qed.
Lemma carries_won w a n : carries (won_letters w a n) (itemGUIDLow a).
Proof. unfold won_letters. destruct (online w (bidder a) || _); [by right|by left]. Qed.
Lemma carries_expired w a n : carries (expired_letters w a n) (itemGUIDLow a).
Proof. unfold expired_letters. destruct (exists_ w (owner a)); [by right|by left]. Qed.

Lemma carries_closing w a n : carries (closing_letters w a n) (itemGUIDLow a).
Proof.
  unfold closing_letters. destruct (bidder a =? 0); [apply carries_expired|]. apply carries_app_l; [apply no_items_success|apply carries_won].
Qed.

Section Commands.
Context (known : Z -> Prop) (w : World).

Lemma sound_item s h id p a :
  sound known s -> AuctionsMap s !! (h, id) = Some p -> auctions s !! p = Some a ->
  itemGUIDLow a ∈ mAitems s /\ is_Some (objects s !! itemGUIDLow a).
Proof. intros Hs Hp Ha. destruct (so_item _ _ Hs h id a) as [H1 (i & Hi & _)]; [by exists p|]. eauto. Qed.

Lemma closing_sent s a :
  itemGUIDLow a ∈ mAitems s -> is_Some (objects s !! itemGUIDLow a) ->
  runs (if bidder a =? 0 then SendAuctionExpiredMail w a else SendAuctionSuccessfulMail w a ;; SendAuctionWonMail w a) s
    (fun _ s' => sent (closing_letters w a (next_mail s)) s s').
Proof.
  intros Hin Hob. unfold closing_letters. destruct (bidder a =? 0); [by apply expired_sent|].
  eapply (sent_bind []); [apply sent_refl|apply successful_sent|]. cbn [app]. intros s1 H1.
  rewrite <- (se_next_mail _ _ _ H1). eapply runs_mono.
  - apply won_sent; [by rewrite (se_mAitems _ _ _ H1)|]. rewrite (se_kept _ _ _ H1); [done|]. rewrite no_items_success. apply not_elem_of_nil.
  - intros ? s2 H2. exact (sent_trans _ _ _ _ _ H1 H2).
Qed.

(** ** The update *)

Lemma UpdateOne_ended s h id p a :
  sound known s -> (forall x, freed_intact w x = true) -> AuctionsMap s !! (h, id) = Some p -> auctions s !! p = Some a ->
  runs (UpdateOne w h id) s (fun _ s' => ended h id p (itemGUIDLow a) (closing_letters w a (next_mail s)) (purse s) s s').
Proof.
  intros Hs Hfree Hp Ha. destruct (sound_item _ _ _ _ _ Hs Hp Ha) as [Hin Hob].
  pose proof (sound_listed _ _ _ _ _ Hs (ex_intro _ p (conj Hp Ha))) as Hid.
  unfold UpdateOne. repeat ah_step. unfold GetAuction. rewrite Hp. apply runs_bind, (runs_deref_auction _ _ a); [done|]. repeat ah_step.
  eapply runs_mono; [apply closing_sent; done|]. cbn beta. change (next_mail (set_trans [] s)) with (next_mail s).
  set (ls := closing_letters w a (next_mail s)). intros _ s1 H1. pose proof (carries_closing w a (next_mail s)) as Hc. fold ls in Hc.
  apply runs_bind, runs_delete_row. apply runs_bind, (runs_commit _ (post ls (without_row id (db s1)))).
  { cbn. rewrite (se_trans _ _ _ H1), Hid. cbn. rewrite <- (app_nil_r (flat_map _ _)).
    apply (letters_accepted known s ls (itemGUIDLow a)); try done; [exact (se_numbered _ _ _ H1)| |]; cbn.
    - exact (al_mail _ _ (se_db _ _ _ H1)).
    - exact (al_mail_items _ _ (se_db _ _ _ H1)). }
  apply runs_bind, (runs_remove _ _ a); [cbn; by rewrite (se_auctions _ _ _ H1)|]. rewrite Hfree. repeat ah_step.
  apply (closed _ _ _ _ _ _ (auctions s) _ s1); try done; cbn; rewrite ?Hid; try done.
  exists [without_row id (db s1); post ls (without_row id (db s1))]. split; [by rewrite <- app_assoc|].
  apply Forall_cons; split; [right; by left|]. apply Forall_singleton. by right; right.
Qed.

(** ** Cancelling *)

Definition cancel_draft (a : AuctionEntry) : Draft :=
  mkDraft (BuildAuctionMailSubject a AUCTION_CANCELED) (BuildAuctionMailBody 0 0 (buyout a) (deposit a) 0) 0 (Some (itemGUIDLow a)).

Definition cancel_letters (player : Z) (a : AuctionEntry) (n : Z) : list letter :=
  let l := if 0 <? bidder a then refund_letters w a n else [] in
  l ++ [letter_of w player (houseId (auctionHouseEntry a)) (cancel_draft a) 0 (n + Z.of_nat (length l))].

Definition cancel_purse (player : Z) (a : AuctionEntry) (pu : gmap Z Z) : gmap Z Z :=
  if 0 <? bidder a then paid pu player (- GetAuctionCut w a) else pu.

Lemma carries_cancel player a n : carries (cancel_letters player a n) (itemGUIDLow a).
Proof. unfold cancel_letters. apply carries_app_l; [|by right]. destruct (0 <? bidder a); [apply no_items_refund|done]. Qed.

(** The mails of a cancellation, and the fee. *)
Lemma cancel_sent player s a (n : T unit) Q :
  is_Some (objects s !! itemGUIDLow a) -> trans s = [] ->
  (forall s', sent (cancel_letters player a (next_mail s)) (set_purse (cancel_purse player a (purse s)) s) s' -> runs n s' Q) ->
  runs ((if 0 <? bidder a then SendAuctionCancelledToBidderMail w a (itemGUIDLow a) ;; ModifyMoney player (- GetAuctionCut w a) else mret tt) ;;
        deref_item (itemGUIDLow a) ;;
        SendMailTo w player (houseId (auctionHouseEntry a)) (cancel_draft a) 0 ;; n) s Q.
Proof.
  intros Hob Ht Hn. unfold cancel_letters, cancel_purse in Hn.
  apply runs_bind, (runs_mono _ _ (fun _ s' => sent (if 0 <? bidder a then refund_letters w a (next_mail s) else [])
    (set_purse (if 0 <? bidder a then paid (purse s) player (- GetAuctionCut w a) else purse s) s) s')).
  { destruct (0 <? bidder a); [|apply runs_ret; by apply sent_nothing]. eapply (sent_bind []); [apply sent_refl|by apply refund_sent|].
    cbn [app]. intros s1 H1. apply runs_pay. rewrite (se_purse _ _ _ H1). by apply sent_purse. }
  intros _ s1 H1.
  assert (is_Some (objects s1 !! itemGUIDLow a)) as Hob1.
  { rewrite (se_kept _ _ _ H1); [done|]. destruct (0 <? bidder a); [rewrite no_items_refund|]; apply not_elem_of_nil. }
  destruct (Hob1) as [i Hi]. apply runs_bind, (runs_deref_item _ _ i _ Hi). apply runs_bind. eapply runs_mono.
  { apply SendMailTo_sent. intros g [= <-]. done. }
  cbn beta. intros _ s2 H2. apply Hn. pose proof (se_next_mail _ _ _ H1) as E. cbn in E. rewrite <- E. exact (sent_trans _ _ _ _ _ H1 H2).
Qed.

Lemma cancel_ended s h id p a player faction :
  sound known s -> h = GetAuctionsMap w faction -> AuctionsMap s !! (h, id) = Some p -> auctions s !! p = Some a -> owner a = player ->
  (0 <? bidder a) && negb (HasEnoughMoney s player (GetAuctionCut w a)) = false ->
  runs (HandleAuctionRemoveItem w player (Some faction) id) s (fun _ s' =>
    ended h id p (itemGUIDLow a) (cancel_letters player a (next_mail s)) (cancel_purse player a (purse s)) s s').
Proof.
  intros Hs -> Hp Ha Ho Hm. destruct (sound_item _ _ _ _ _ Hs Hp Ha) as [Hin Hob].
  pose proof (sound_listed _ _ _ _ _ Hs (ex_intro _ p (conj Hp Ha))) as Hid.
  unfold HandleAuctionRemoveItem. repeat ah_step. unfold GetAuction, GetAItem. rewrite Hp.
  apply runs_bind, (runs_deref_auction _ _ a); [done|]. rewrite Ho, Z.eqb_refl, bool_decide_eq_true_2 by done. cbn [negb]. rewrite Hm.
  refine (cancel_sent player (set_trans [] s) a _ _ Hob eq_refl _). intros s1 H1. cbn in H1.
  set (ls := cancel_letters player a (next_mail s)) in *. pose proof (carries_cancel player a (next_mail s)) as Hc. fold ls in Hc.
  apply runs_bind, runs_result; [by intros|]. intros o. apply runs_bind, runs_save_gold. intros d Ed.
  apply runs_bind, runs_delete_row. apply runs_bind, (runs_commit _ (post ls (without_row id d))).
  { cbn. rewrite (se_trans _ _ _ H1), Hid. cbn. rewrite <- (app_nil_r (flat_map _ _)).
    apply (letters_accepted known s ls (itemGUIDLow a)); try done; [exact (se_numbered _ _ _ H1)| |]; subst d; cbn.
    - exact (al_mail _ _ (se_db _ _ _ H1)).
    - exact (al_mail_items _ _ (se_db _ _ _ H1)). }
  repeat ah_step. apply (runs_remove _ _ a); [cbn; by rewrite (se_auctions _ _ _ H1)|].
  assert (alike (db s1) d) as Hd by by subst d.
  apply (closed _ _ _ _ _ _ (auctions s) _ s1); try done; cbn; rewrite ?Hid; try done.
  - apply post_alike, alike_without, Hd.
  - exists [d; without_row id d; post ls (without_row id d)]. split; [by rewrite <- !app_assoc|].
    apply Forall_cons; split; [by left|]. apply Forall_cons; split; [right; left; by apply alike_without|].
    apply Forall_singleton. right; right. by apply post_alike, alike_without.
Qed.

(** ** Buying out *)

Definition buyout_letters (player : Z) (a : AuctionEntry) (n : Z) : list letter :=
  let a' := with_bid player (buyout a) a in
  let l0 := if (player =? bidder a) || (bidder a =? 0) then [] else outbid_letters w a n in
  let l1 := l0 ++ pending_letters w a' (n + Z.of_nat (length l0)) in
  let l2 := l1 ++ success_letters w a' (n + Z.of_nat (length l1)) in
  l2 ++ won_letters w a' (n + Z.of_nat (length l2)).

Definition buyout_purse (player : Z) (a : AuctionEntry) (pu : gmap Z Z) : gmap Z Z :=
  paid pu player (if player =? bidder a then - u32 (buyout a - bid a) else - buyout a).

Lemma carries_buyout player a n : carries (buyout_letters player a n) (itemGUIDLow a).
Proof.
  unfold buyout_letters. apply carries_app_l; [|apply (carries_won w (with_bid player (buyout a) a))].
  rewrite !omap_app, no_items_pending, no_items_success, !app_nil_r. destruct (_ || _); [done|apply no_items_outbid].
Qed.

(** The next mail of a command after the letters [ls]. *)
Lemma sent_next ls s0 s n : sent ls s0 s -> next_mail s0 = n -> n + Z.of_nat (length ls) = next_mail s.
Proof. intros H <-. by rewrite (se_next_mail _ _ _ H). Qed.

Lemma buyout_sent player s p a (n : T unit) Q :
  itemGUIDLow a ∈ mAitems s -> is_Some (objects s !! itemGUIDLow a) -> trans s = [] ->
  let a' := with_bid player (buyout a) a in
  (forall s', sent (buyout_letters player a (next_mail s)) (base (buyout_purse player a (purse s)) (<[p := a']> (auctions s)) s) s' -> runs n s' Q) ->
  runs ((if player =? bidder a then ModifyMoney player (- u32 (buyout a - bid a))
         else ModifyMoney player (- buyout a) ;;
              if negb (bidder a =? 0) then SendAuctionOutbiddedMail w a (buyout a) player else mret tt) ;;
        store_auction p a' ;; modify (emit (OutAchievement player (buyout a))) ;;
        SendAuctionSalePendingMail w a' ;; SendAuctionSuccessfulMail w a' ;; SendAuctionWonMail w a' ;; n) s Q.
Proof.
  intros Hin Hob Ht a' Hn. unfold buyout_letters in Hn. cbv zeta in Hn. fold a' in Hn.
  set (l0 := if (player =? bidder a) || (bidder a =? 0) then [] else outbid_letters w a (next_mail s)) in *.
  set (l1 := l0 ++ pending_letters w a' (next_mail s + Z.of_nat (length l0))) in *.
  set (l2 := l1 ++ success_letters w a' (next_mail s + Z.of_nat (length l1))) in *.
  apply runs_bind, (runs_mono _ _ (fun _ s' => sent l0 (set_purse (buyout_purse player a (purse s)) s) s')).
  { unfold buyout_purse, l0. destruct (player =? bidder a); [apply runs_pay, sent_refl|]. apply runs_bind, runs_pay. cbn [orb].
    destruct (bidder a =? 0); [apply runs_ret, sent_refl|]. refine (outbidded_sent _ _ _ _ (set_purse _ s)). }
  intros _ s1 H1. do 5 ah_step.
  assert (sent l0 (base (buyout_purse player a (purse s)) (<[p := a']> (auctions s)) s)
            (emit (OutAchievement player (buyout a)) (set_auctions (<[p := a']> (auctions s1)) (next_address s1) s1))) as H1'.
  { rewrite (se_auctions _ _ _ H1). cbn [auctions set_purse]. pose proof (sent_auctions _ (<[p := a']> (auctions s)) _ _ H1) as []. split; try done.
    cbn in *. by rewrite Ht in se_trans. }
  pose proof (sent_next _ _ _ _ H1' eq_refl) as E1. change (next_mail (base _ _ s)) with (next_mail s) in E1.
  refine (sent_bind _ _ _ _ _ _ _ H1' (pending_sent w a' _) _). rewrite <- E1. intros s2 H2. fold l1 in H2.
  pose proof (sent_next _ _ _ _ H2 eq_refl) as E2. change (next_mail (base _ _ s)) with (next_mail s) in E2.
  refine (sent_bind _ _ _ _ _ _ _ H2 (successful_sent w a' _) _). rewrite <- E2. intros s3 H3. fold l2 in H3.
  pose proof (sent_next _ _ _ _ H3 eq_refl) as E3. change (next_mail (base _ _ s)) with (next_mail s) in E3.
  refine (sent_bind _ _ _ _ _ _ _ H3 (won_sent w a' _ _ _) _).
  - by rewrite (se_mAitems _ _ _ H3).
  - rewrite (se_kept _ _ _ H3); [done|]. unfold l2, l1, l0. rewrite !omap_app, no_items_pending, no_items_success, !app_nil_r.
    destruct (_ || _); [|rewrite no_items_outbid]; apply not_elem_of_nil.
  - rewrite <- E3. exact Hn.
Qed.

Lemma buyout_ended s h id p a player faction price :
  sound known s -> h = GetAuctionsMap w faction -> id <> 0 -> price <> 0 -> AuctionsMap s !! (h, id) = Some p -> auctions s !! p = Some a ->
  owner a <> player -> bid a < price -> startbid a <= price -> price <= money s player -> (price <? buyout a) || (buyout a =? 0) = false ->
  runs (HandleAuctionPlaceBid w player (Some faction) id price) s (fun _ s' =>
    ended h id p (itemGUIDLow a) (buyout_letters player a (next_mail s)) (buyout_purse player a (purse s)) s s').
Proof.
  intros Hs -> Hid0 Hpr Hp Ha Ho Hb Hst Hm Hbr. destruct (sound_item _ _ _ _ _ Hs Hp Ha) as [Hin Hob].
  pose proof (sound_listed _ _ _ _ _ Hs (ex_intro _ p (conj Hp Ha))) as Hid.
  unfold HandleAuctionPlaceBid. rewrite (proj2 (Z.eqb_neq _ _) Hid0), (proj2 (Z.eqb_neq _ _) Hpr). cbn [orb].
  repeat ah_step. unfold GetAuction. rewrite Hp. apply runs_bind, (runs_deref_auction _ _ a); [done|].
  rewrite (proj2 (Z.eqb_neq _ _) Ho), (proj2 (Z.leb_gt _ _) Hb), (proj2 (Z.ltb_ge _ _) Hst), Hbr. cbn [orb andb].
  unfold HasEnoughMoney. rewrite (proj2 (Z.leb_le _ _) Hm). cbn [negb]. repeat ah_step.
  unfold buy_out. refine (buyout_sent player (set_trans [] s) p a _ _ Hin Hob eq_refl _). cbv zeta. cbn [next_mail purse auctions set_trans].
  set (a' := with_bid player (buyout a) a). set (pu := buyout_purse player a (purse s)).
  set (ls := buyout_letters player a (next_mail s)). intros s1 H1. pose proof (carries_buyout player a (next_mail s)) as Hc. fold ls in Hc.
  change (base pu (<[p := a']> (auctions s)) (set_trans [] s)) with (base pu (<[p := a']> (auctions s)) s) in H1.
  apply runs_bind, runs_result; [by intros|]. intros o. apply runs_bind, runs_delete_row. repeat ah_step.
  apply (runs_remove _ _ a'); [cbn; rewrite (se_auctions _ _ _ H1); apply lookup_insert_eq|].
  apply runs_bind, runs_save_gold. intros d Ed.
  apply (runs_commit _ (post ls d)).
  { cbn. rewrite (se_trans _ _ _ H1). cbn. rewrite <- (app_nil_r (flat_map _ _)).
    apply (letters_accepted known s ls (itemGUIDLow a)); try done; [exact (se_numbered _ _ _ H1)| |]; subst d; cbn.
    - exact (al_mail _ _ (se_db _ _ _ H1)).
    - exact (al_mail_items _ _ (se_db _ _ _ H1)). }
  assert (alike (without_row id (db s1)) d) as Hd by (subst d; cbn; by rewrite Hid).
  apply (closed _ _ _ _ _ _ (<[p := a']> (auctions s)) _ s1); try done; cbn; rewrite ?Hid; try done.
  - apply delete_insert_eq.
  - by apply post_alike.
  - exists [without_row id (db s1); d; post ls d]. split; [by rewrite <- !app_assoc|].
    apply Forall_cons; split; [right; by left|]. apply Forall_cons; split; [right; by left|].
    apply Forall_singleton. right; right. by apply post_alike.
Qed.
End Commands.
