(* ===== verification/AuctionBid.v ===== *)
(** * AuctionBid: a bid that is not a buyout

    The auction and its row get the new bidder and price, the last bidder is refunded by
    mail ([raised]). *)

From S2P Require Import Prelude.
From S2P Require Import AuctionHouse AuctionHandler AuctionSpec AuctionEnd AuctionSafety.

(** Nothing but output, and perhaps an empty transaction. *)
Definition quiet (s s' : AH) : Prop :=
  exists t o, s' = mkAH (auctions s) (next_address s) (next_auction s) (AuctionsMap s) (objects s) (mAitems s) (next_item s) (next_mail s) (purse s)
                     (inbox s) (mMitems s) (db s) (tables s) t o.

Lemma calm_refl s : quiet s s.
Proof. exists (trans s), (out s). by destruct s. Qed.

Lemma calm_emit o s : quiet s (emit o s).
Proof. eexists _, _. reflexivity. Qed.

Lemma quiet_begin s : quiet s (set_trans [] s).
Proof. eexists _, _. reflexivity. Qed.

#[export] Instance quiet_trans : Transitive quiet.
Proof. intros s1 s2 s3 (t & o & ->) (t' & o' & ->). eexists _, _. reflexivity. Qed.

Lemma sound_quiet known s s' : sound known s -> quiet s s' -> sound known s'.
Proof. intros [] (t & o & ->). by split. Qed.

Definition bid_row (id b l : Z) (d : DB) : DB :=
  mkDB (alter (fun r => mkRow (auctioneerguid r) (itemguid r) (itemowner r) (buyoutprice r) (time_ r) b l (row_startbid r) (row_deposit r)) id
          (auctionhouse d)) (item_instance d) (character_inventory d) (mail d) (mail_items d) (gold d).

Lemma alike_bid id b l d d' : alike d d' -> alike (bid_row id b l d) (bid_row id b l d').
Proof. intros []. split; cbn; congruence. Qed.

Lemma post_bid id b l ls d : bid_row id b l (post ls d) = post ls (bid_row id b l d).
Proof. unfold post. revert d. induction ls as [|x ls IH]; intros d; [done|]. cbn. by rewrite IH. Qed.

Record raised (id p : Z) (a' : AuctionEntry) (ls : list letter) (pu : gmap Z Z) (s s' : AH) : Prop := {
  ra_map : AuctionsMap s' = AuctionsMap s;
  ra_auctions : auctions s' = <[p := a']> (auctions s);
  ra_mAitems : mAitems s' = mAitems s;
  ra_next_address : next_address s' = next_address s;
  ra_next_auction : next_auction s' = next_auction s;
  ra_next_item : next_item s' = next_item s;
  ra_next_mail : next_mail s' = next_mail s + Z.of_nat (length ls);
  ra_purse : purse s' = pu;
  ra_numbered : numbered (next_mail s) ls;
  ra_objects : objects s' = objects s;
  ra_db : alike (post ls (bid_row id (bidder a') (bid a') (db s))) (db s');
  ra_tables : exists T, tables s' = tables s ++ T /\
    Forall (fun d => alike (db s) d \/ alike (post ls (bid_row id (bidder a') (bid a') (db s))) d) T
}.

Definition bid_letters (w : World) (player : Z) (a : AuctionEntry) (n : Z) : list letter :=
  if (0 <? bidder a) && negb (bidder a =? player) then outbid_letters w a n else [].

Definition bid_purse (player price : Z) (a : AuctionEntry) (pu : gmap Z Z) : gmap Z Z :=
  paid pu player (- i64 (if (0 <? bidder a) && (bidder a =? player) then price - bid a else price)).

Lemma no_items_bid w player a n : omap snd (bid_letters w player a n) = [].
Proof. unfold bid_letters. destruct (_ && _); [apply no_items_outbid|done]. Qed.

Section Bid.
Context (known : Z -> Prop) (w : World).

Lemma bid_sent player price s a :
  runs (if 0 <? bidder a then
          if bidder a =? player then ModifyMoney player (- i64 (price - bid a))
          else SendAuctionOutbiddedMail w a price player ;; ModifyMoney player (- i64 price)
        else ModifyMoney player (- i64 price)) s
    (fun _ s' => sent (bid_letters w player a (next_mail s)) (set_purse (bid_purse player price a (purse s)) s) s').
Proof.
  unfold bid_letters, bid_purse. destruct (0 <? bidder a); cbn [andb]; [|apply runs_pay, sent_refl].
  destruct (bidder a =? player); cbn [negb]; [apply runs_pay, sent_refl|].
  apply runs_bind, (runs_mono _ _ _ _ (outbidded_sent w a price player s)). intros _ s1 H1. apply runs_pay. rewrite (se_purse _ _ _ H1).
  by apply sent_purse.
Qed.

Lemma bid_raised s h id p a player faction price :
  sound known s -> h = GetAuctionsMap w faction -> id <> 0 -> price <> 0 -> AuctionsMap s !! (h, id) = Some p -> auctions s !! p = Some a ->
  owner a <> player -> bid a < price -> startbid a <= price -> u32 (bid a + GetAuctionOutBid a) <= price -> price <= money s player ->
  (price <? buyout a) || (buyout a =? 0) = true ->
  runs (HandleAuctionPlaceBid w player (Some faction) id price) s (fun _ s' =>
    raised id p (with_bid player (u32 price) a) (bid_letters w player a (next_mail s)) (bid_purse player price a (purse s)) s s').
Proof.
  intros Hs -> Hid0 Hpr Hp Ha Ho Hb Hst Hmin Hm Hbr. destruct (sound_item _ _ _ _ _ _ Hs Hp Ha) as [Hin Hob].
  pose proof (sound_listed _ _ _ _ _ Hs (ex_intro _ p (conj Hp Ha))) as Hid.
  unfold HandleAuctionPlaceBid. rewrite (proj2 (Z.eqb_neq _ _) Hid0), (proj2 (Z.eqb_neq _ _) Hpr). cbn [orb].
  repeat ah_step. unfold GetAuction. rewrite Hp. apply runs_bind, (runs_deref_auction _ _ a); [done|].
  rewrite (proj2 (Z.eqb_neq _ _) Ho), (proj2 (Z.leb_gt _ _) Hb), (proj2 (Z.ltb_ge _ _) Hst), Hbr, (proj2 (Z.ltb_ge _ _) Hmin). cbn [orb andb].
  unfold HasEnoughMoney. rewrite (proj2 (Z.leb_le _ _) Hm). cbn [negb]. repeat ah_step. unfold raise_bid.
  apply runs_bind, (runs_mono _ _ _ _ (bid_sent player price (set_trans [] s) a)). cbn [next_mail purse set_trans].
  set (a' := with_bid player (u32 price) a). set (pu := bid_purse player price a (purse s)).
  set (ls := bid_letters w player a (next_mail s)). intros _ s1 H1. pose proof (no_items_bid w player a (next_mail s)) as Hc. fold ls in Hc.
  repeat ah_step. apply runs_result; [by intros|]. intros o. apply runs_bind, runs_save_gold. intros d Ed.
  assert (alike (db s1) d) as Hd by by subst d. pose proof (se_db _ _ _ H1) as Hd1. cbn [db set_purse set_trans] in Hd1.
  assert (alike (db s) d) as Hd2 by by etransitivity.
  apply (runs_commit _ (post ls (bid_row id player (u32 price) d))).
  { cbn. rewrite (se_trans _ _ _ H1), Hid. cbn.
    rewrite (letters_accepted known s ls (itemGUIDLow a)); try done; [|exact (se_numbered _ _ _ H1)|by left| |].
    - cbn. rewrite <- post_bid. done.
    - exact (al_mail _ _ Hd2).
    - exact (al_mail_items _ _ Hd2). }
  pose proof (post_alike ls _ _ (alike_bid id player (u32 price) _ _ Hd2)) as Hd3.
  destruct H1. cbn in *. split; try done; cbn; try congruence.
  - apply map_eq. intros g. apply se_kept. rewrite Hc. apply not_elem_of_nil.
  - destruct se_tables as (T & ET & HT). exists (T ++ [d; post ls (bid_row id player (u32 price) d)]).
    split; [by rewrite ET, <- !app_assoc|]. apply Forall_app. split; [eapply Forall_impl; [exact HT|by left]|].
    apply Forall_cons; split; [by left|]. apply Forall_singleton. by right.
Qed.
End Bid.

(** ** The invariant *)

Lemma u32_i32 z : u32 (i32 z) = u32 z.
Proof. unfold wrap, swrap. rewrite Zminus_mod, Zmod_mod, <- Zminus_mod. f_equal. lia. Qed.

Section Raised.
Context (known : Z -> Prop) h id p a player price ls pu s s' (Hs : sound known s) (Hp : AuctionsMap s !! (h, id) = Some p)
  (Ha : auctions s !! p = Some a) (Hc : omap snd ls = []) (Hr : raised id p (with_bid player (u32 price) a) ls pu s s').

Lemma raised_listed h' id' a' :
  listed_at s' h' id' a' <-> (id' = id /\ h' = h /\ a' = with_bid player (u32 price) a) \/ (id' <> id /\ listed_at s h' id' a').
Proof.
  unfold listed_at. rewrite (ra_map _ _ _ _ _ _ _ Hr), (ra_auctions _ _ _ _ _ _ _ Hr). split.
  - intros (p' & Hp' & Ha'). destruct (decide (p' = p)) as [->|Hne].
    + rewrite lookup_insert_eq in Ha'. left. pose proof (so_address _ _ Hs _ _ _ Hp Hp') as [= <- <-]. by injection Ha' as <-.
    + rewrite lookup_insert_ne in Ha' by done. right. split; [|by exists p']. intros ->.
      pose proof (so_id _ _ Hs h h' id ltac:(eauto) ltac:(eauto)) as <-. congruence.
  - intros [(-> & -> & ->)|(Hne & p' & Hp' & Ha')].
    + exists p. by rewrite lookup_insert_eq.
    + exists p'. split; [done|]. rewrite lookup_insert_ne; [done|]. intros ->. pose proof (so_address _ _ Hs _ _ _ Hp Hp') as [= _ E]. by apply Hne.
Qed.

(** Every auction sells what it sold. *)
Lemma raised_same h' id' a' :
  listed_at s' h' id' a' -> exists a0, listed_at s h' id' a0 /\ itemGUIDLow a' = itemGUIDLow a0 /\ itemEntry a' = itemEntry a0 /\ itemCount a' = itemCount a0.
Proof. rewrite raised_listed. intros [(-> & -> & ->)|[_ H]]; [|by exists a']. exists a. split; [by exists p|done]. Qed.

Lemma raised_same_back h' id' a' :
  listed_at s h' id' a' -> exists a1, listed_at s' h' id' a1 /\ itemGUIDLow a1 = itemGUIDLow a'.
Proof.
  intros Hl. destruct (decide (id' = id)) as [->|Hne].
  - destruct (sound_listed_unique _ _ _ _ _ _ _ Hs (ex_intro _ p (conj Hp Ha)) Hl) as [-> ->].
    exists (with_bid player (u32 price) a). split; [|done]. apply raised_listed. by left.
  - exists a'. split; [|done]. apply raised_listed. by right.
Qed.

Lemma raised_sound : sound known s'.
Proof.
  pose proof (ra_db _ _ _ _ _ _ _ Hr) as Hd. cbn [bidder bid with_bid] in Hd. pose proof (post_frame ls (bid_row id player (u32 price) (db s))) as (F1 & F2 & F3 & _).
  assert (forall g e c, row_says (db s) g e c -> row_says (db s') g e c) as D3.
  { intros g e c (r & E & H). apply (alike_row _ _ _ _ _ Hd). exists r. by rewrite F2. }
  assert (forall g, mail_items (db s') !! g = mail_items (db s) !! g) as D5.
  { intros g. rewrite (al_mail_items _ _ Hd). destruct (mail_items (db s) !! g) as [x|] eqn:E.
    - clear Hr Hd F1 F2 F3 D3. unfold post. assert (mail_items (bid_row id player (u32 price) (db s)) !! g = Some x) as H by done.
      revert H. generalize (bid_row id player (u32 price) (db s)). induction ls as [|[m [g'|]] l IH]; intros d H; [done|done|]. by apply (IH Hc).
    - apply post_item. split; [done|]. rewrite Hc. apply not_elem_of_nil. }
  split; rewrite ?(ra_map _ _ _ _ _ _ _ Hr), ?(ra_mAitems _ _ _ _ _ _ _ Hr), ?(ra_next_auction _ _ _ _ _ _ _ Hr), ?(ra_next_address _ _ _ _ _ _ _ Hr),
    ?(ra_next_item _ _ _ _ _ _ _ Hr), ?(ra_objects _ _ _ _ _ _ _ Hr); try by destruct Hs.
  - intros h' id' p' Hp'. rewrite (ra_auctions _ _ _ _ _ _ _ Hr). destruct (so_map _ _ Hs _ _ _ Hp') as (a' & Ha' & E).
    destruct (decide (p' = p)) as [->|]; [|exists a'; by rewrite lookup_insert_ne]. exists (with_bid player (u32 price) a).
    rewrite lookup_insert_eq. split; [done|]. cbn. congruence.
  - intros p'. rewrite (ra_auctions _ _ _ _ _ _ _ Hr). intros [->|H]%lookup_insert_is_Some'; apply (so_next_address _ _ Hs); eauto.
  - intros h' id' a' (a0 & Hl & -> & -> & ->)%raised_same. exact (so_item _ _ Hs _ _ _ Hl).
  - intros g Hg. destruct (so_store _ _ Hs g Hg) as (h' & id' & a' & Hl & <-). destruct (raised_same_back _ _ _ Hl) as (a1 & H1 & E). eauto.
  - intros h1 id1 a1 h2 id2 a2 (b1 & H1 & E1 & _)%raised_same (b2 & H2 & E2 & _)%raised_same E.
    apply (so_distinct _ _ Hs _ _ _ _ _ _ H1 H2). congruence.
  - intros id' r. rewrite (al_auctionhouse _ _ Hd), F1. cbn. destruct (decide (id' = id)) as [->|Hne].
    + rewrite lookup_alter_eq, fmap_Some. pose proof (ex_intro _ p (conj Hp Ha) : listed_at s h id a) as Hl. split.
      * intros (r0 & (h' & a0 & Hl0 & ->)%(so_row _ _ Hs) & ->). exists h, (with_bid player (u32 price) a). rewrite raised_listed.
        split; [by left|]. destruct (sound_listed_unique _ _ _ _ _ _ _ Hs Hl Hl0) as [-> ->]. unfold row_of. cbn.
        by rewrite !u32_i32, wrap_wrap.
      * intros (h' & a' & [(_ & -> & ->)|[? _]]%raised_listed & ->); [|done]. exists (row_of a). rewrite (so_row _ _ Hs).
        split; [by exists h, a|]. unfold row_of. cbn. by rewrite !u32_i32, wrap_wrap.
    + rewrite lookup_alter_ne, (so_row _ _ Hs) by done. split; intros (h' & a' & Hl & E); exists h', a'.
      * rewrite raised_listed. by auto.
      * apply raised_listed in Hl as [[? _]|[_ Hl]]; done.
  - intros h' id' a' (a0 & Hl & -> & -> & ->)%raised_same. apply D3. exact (so_item_row _ _ Hs _ _ _ Hl).
  - intros g i q Hg Hq. destruct (so_held _ _ Hs _ _ _ Hg Hq) as [H1 H2]. rewrite (al_inventory _ _ Hd), F3. auto.
  - intros g. rewrite (al_inventory _ _ Hd), F3, D5. apply (so_inventory _ _ Hs).
  - intros g. rewrite D5. apply (so_mailed _ _ Hs).
  - intros g. rewrite (alike_items _ _ _ Hd), F2. apply (so_rows _ _ Hs).
  - intros i. rewrite (al_mail _ _ Hd), (post_mail (next_mail s)), (ra_next_mail _ _ _ _ _ _ _ Hr) by exact (ra_numbered _ _ _ _ _ _ _ Hr).
    intros [H|H]; [pose proof (so_mail _ _ Hs i H); lia|lia].
Qed.
End Raised.
