(* ===== verification/AuctionSell.v ===== *)
(** * AuctionSell: putting items up for sale

    The check of the packet, the two ways an item reaches the house (itself, or as a clone
    that replaces several stacks), and what is the same for both ([put_up]). *)

From S2P Require Import Prelude.
From S2P Require Import AuctionHouse AuctionHandler AuctionSpec AuctionEnd AuctionSafety AuctionBid.

(** ** A new auction *)

Definition held_ok (s : AH) : Prop :=
  forall g i p, objects s !! g = Some i -> i_holder i = Some p ->
    is_Some (character_inventory (db s) !! g) /\ row_says (db s) g (i_entry i) (i_count i).

Record put_up (known : Z -> Prop) (h : house) (a : AuctionEntry) (pu : gmap Z Z) (s s' : AH) : Prop := {
  pu_map : AuctionsMap s' = <[(h, Id a) := next_address s]> (AuctionsMap s);
  pu_auctions : auctions s' = <[next_address s := a]> (auctions s);
  pu_id : Id a = next_auction s;
  pu_mAitems : mAitems s' = {[itemGUIDLow a]} ∪ mAitems s;
  pu_next_address : next_address s' = next_address s + 1;
  pu_next_auction : next_auction s' = next_auction s + 1;
  pu_next_item : next_item s <= next_item s';
  pu_next_mail : next_mail s' = next_mail s;
  pu_purse : purse s' = pu;
  pu_new : (itemGUIDLow a ∉ mAitems s) /\ mail_items (db s) !! itemGUIDLow a = None;
  pu_object : exists i, objects s' !! itemGUIDLow a = Some i /\ i_entry i = itemEntry a /\ i_count i = itemCount a /\ i_holder i = None;
  pu_known : forall g i, objects s' !! g = Some i -> known (i_entry i) /\ g < next_item s';
  pu_stored : forall g, g ∈ mAitems s -> objects s' !! g = objects s !! g /\ item_instance (db s') !! g = item_instance (db s) !! g;
  pu_held : held_ok s';
  pu_inventory : forall g, is_Some (character_inventory (db s') !! g) -> is_Some (character_inventory (db s) !! g) /\ g <> itemGUIDLow a;
  pu_rows : forall g, is_Some (item_instance (db s') !! g) -> g < next_item s';
  pu_auctionhouse : auctionhouse (db s') = <[Id a := row_of a]> (auctionhouse (db s));
  pu_mail : mail (db s') = mail (db s);
  pu_mail_items : mail_items (db s') = mail_items (db s);
  pu_row : row_says (db s') (itemGUIDLow a) (itemEntry a) (itemCount a)
}.

Section PutUp.
Context (known : Z -> Prop) h a pu s s' (Hs : sound known s) (H : put_up known h a pu s s').

Lemma put_up_fresh k p : AuctionsMap s !! k = Some p -> p <> next_address s /\ k <> (h, Id a).
Proof.
  intros Hk. destruct k as [h' id']. destruct (sound_find _ _ _ _ _ Hs Hk) as (x & Hx & _). split.
  - pose proof (so_next_address _ _ Hs p ltac:(eauto)). lia.
  - intros [= -> ->]. pose proof (so_next_id _ _ Hs h (Id a) ltac:(eauto)) as Hlt. rewrite (pu_id _ _ _ _ _ _ H) in Hlt. lia.
Qed.

Lemma put_up_listed h' id' a' : listed_at s' h' id' a' <-> (h' = h /\ id' = Id a /\ a' = a) \/ listed_at s h' id' a'.
Proof.
  unfold listed_at. rewrite (pu_map _ _ _ _ _ _ H), (pu_auctions _ _ _ _ _ _ H). split.
  - intros (p & Hp & Ha). apply lookup_insert_Some in Hp as [[[= <- <-] <-]|[Hne Hp]].
    + rewrite lookup_insert_eq in Ha. left. by injection Ha as <-.
    + rewrite lookup_insert_ne in Ha by (apply not_eq_sym; exact (proj1 (put_up_fresh _ _ Hp))). right. by exists p.
  - intros [(-> & -> & ->)|(p & Hp & Ha)].
    + exists (next_address s). by rewrite !lookup_insert_eq.
    + destruct (put_up_fresh _ _ Hp). exists p. by rewrite !lookup_insert_ne.
Qed.

Lemma put_up_map k : is_Some (AuctionsMap s' !! k) <-> k = (h, Id a) \/ is_Some (AuctionsMap s !! k).
Proof. rewrite (pu_map _ _ _ _ _ _ H), lookup_insert_is_Some'. intuition congruence. Qed.

Lemma put_up_old_id h' : is_Some (AuctionsMap s !! (h', Id a)) -> False.
Proof. intros Hk%(so_next_id _ _ Hs). rewrite (pu_id _ _ _ _ _ _ H) in Hk. lia. Qed.

Lemma put_up_old_item h' id' a' : listed_at s h' id' a' -> itemGUIDLow a' <> itemGUIDLow a.
Proof. intros [Hin _]%(so_item _ _ Hs) E. rewrite E in Hin. by apply (pu_new _ _ _ _ _ _ H). Qed.

Lemma put_up_sound : sound known s'.
Proof.
  assert (forall g, g ∈ mAitems s' <-> g = itemGUIDLow a \/ g ∈ mAitems s) as Hst.
  { intros g. by rewrite (pu_mAitems _ _ _ _ _ _ H), elem_of_union, elem_of_singleton. }
  pose proof (pu_new _ _ _ _ _ _ H) as [Hnew Hmail].
  split.
  - intros h' id' p. rewrite (pu_map _ _ _ _ _ _ H), (pu_auctions _ _ _ _ _ _ H).
    intros [[[= <- <-] <-]|[_ Hp]]%lookup_insert_Some; [exists a; by rewrite lookup_insert_eq|].
    rewrite lookup_insert_ne by (apply not_eq_sym; exact (proj1 (put_up_fresh _ _ Hp))). exact (so_map _ _ Hs _ _ _ Hp).
  - intros k k' p. rewrite (pu_map _ _ _ _ _ _ H).
    intros [[<- <-]|[_ H1]]%lookup_insert_Some [[<- E]|[_ H2]]%lookup_insert_Some; [done| | |exact (so_address _ _ Hs _ _ _ H1 H2)].
    + by destruct (put_up_fresh _ _ H2).
    + subst p. by destruct (put_up_fresh _ _ H1).
  - intros h1 h2 id' H1%put_up_map H2%put_up_map. destruct (decide (id' = Id a)) as [->|Hne].
    + destruct H1 as [[= ->]|H1]; [|by destruct (put_up_old_id h1)]. destruct H2 as [[= ->]|H2]; [done|by destruct (put_up_old_id h2)].
    + destruct H1 as [[= _ E]|H1]; [done|]. destruct H2 as [[= _ E]|H2]; [done|]. exact (so_id _ _ Hs _ _ _ H1 H2).
  - intros h' id'. rewrite (pu_next_auction _ _ _ _ _ _ H). intros [[= -> ->]|H1]%put_up_map; [rewrite (pu_id _ _ _ _ _ _ H); lia|].
    pose proof (so_next_id _ _ Hs _ _ H1). lia.
  - intros p. rewrite (pu_auctions _ _ _ _ _ _ H), (pu_next_address _ _ _ _ _ _ H). intros [->|H1]%lookup_insert_is_Some'; [lia|].
    pose proof (so_next_address _ _ Hs _ H1). lia.
  - intros h' id' a' [(-> & -> & ->)|Hl]%put_up_listed; rewrite Hst; [split; [by left|exact (pu_object _ _ _ _ _ _ H)]|].
    destruct (so_item _ _ Hs _ _ _ Hl) as [H1 (i & H2)]. split; [by right|]. exists i. by rewrite (proj1 (pu_stored _ _ _ _ _ _ H _ H1)).
  - intros g [->|(h' & id' & a' & Hl & E)%(so_store _ _ Hs)]%Hst; [exists h, (Id a), a|exists h', id', a']; rewrite put_up_listed; auto.
  - intros h1 id1 a1 h2 id2 a2 [(-> & -> & ->)|H1]%put_up_listed [(-> & -> & ->)|H2]%put_up_listed E; [done| | |].
    + by destruct (put_up_old_item _ _ _ H2).
    + by destruct (put_up_old_item _ _ _ H1).
    + exact (so_distinct _ _ Hs _ _ _ _ _ _ H1 H2 E).
  - exact (pu_known _ _ _ _ _ _ H).
  - intros id r. rewrite (pu_auctionhouse _ _ _ _ _ _ H), lookup_insert_Some, (so_row _ _ Hs). split.
    + intros [[<- <-]|(Hne & h' & a' & Hl & E)]; [exists h, a|exists h', a']; rewrite put_up_listed; auto.
    + intros (h' & a' & [(-> & -> & ->)|Hl]%put_up_listed & E); [by left|]. right. split; [|eauto]. intros <-.
      destruct Hl as (p & Hp & _). by eapply put_up_old_id.
  - intros h' id' a' [(-> & -> & ->)|Hl]%put_up_listed; [exact (pu_row _ _ _ _ _ _ H)|].
    destruct (so_item _ _ Hs _ _ _ Hl) as [H1 _]. unfold row_says. rewrite (proj2 (pu_stored _ _ _ _ _ _ H _ H1)).
    exact (so_item_row _ _ Hs _ _ _ Hl).
  - exact (pu_held _ _ _ _ _ _ H).
  - intros g [Hi Hne]%(pu_inventory _ _ _ _ _ _ H). destruct (so_inventory _ _ Hs g Hi) as (H1 & H2 & H3). rewrite Hst.
    rewrite (pu_mail_items _ _ _ _ _ _ H). split_and!; [tauto|done|]. pose proof (pu_next_item _ _ _ _ _ _ H). lia.
  - intros g. rewrite (pu_mail_items _ _ _ _ _ _ H), Hst. intros Hg. destruct (so_mailed _ _ Hs g Hg) as [H1 H2].
    pose proof (pu_next_item _ _ _ _ _ _ H). split; [|lia]. intros [->|]; [|done]. rewrite Hmail in Hg. by destruct Hg.
  - exact (pu_rows _ _ _ _ _ _ H).
  - intros id. rewrite (pu_mail _ _ _ _ _ _ H), (pu_next_mail _ _ _ _ _ _ H). apply (so_mail _ _ Hs).
Qed.
End PutUp.

(** ** The check of the packet *)

(** The item [g] of the packet entry [x] passes: it is in the player's bags, may be sold
    and is there [x.2] times at least. *)
Definition offered (w : World) (player e : Z) (s : AH) (x : Z * Z) (g : Z) : Prop :=
  GetItemByGuid s player x.1 = Some g /\ (g ∉ mAitems s) /\ tradeable w g = true /\
  exists i, objects s !! g = Some i /\ i_holder i = Some player /\ i_entry i = e /\ x.2 <= i_count i.

Lemma GetItemByGuid_Some s player guid g :
  GetItemByGuid s player guid = Some g ->
  g = GUID_LOPART guid /\ guid = MAKE_NEW_GUID g 0 HIGHGUID_ITEM /\ exists i, objects s !! g = Some i /\ i_holder i = Some player.
Proof.
  unfold GetItemByGuid. destruct (objects s !! GUID_LOPART guid) as [i|] eqn:Ei; [|done].
  destruct (_ && _) eqn:E; [|done]. intros [= <-]. apply andb_prop in E as [E1%Z.eqb_eq E2%bool_decide_eq_true_1]. eauto.
Qed.

(** [finalCount] *)
Definition sum_counts (fc : Z) (l : list (Z * Z)) : Z := foldl (fun n x => u32 (n + x.2)) fc l.

Section Check.
Context (w : World) (player : Z) (s : AH) (Hcat : forall g i, objects s !! g = Some i -> is_Some (item_template w (i_entry i))).

Lemma check_items_runs l t first items fc :
  runs (check_items w player l t first items fc) s (fun r s' =>
    match r with
    | None => quiet s s'
    | Some (items', fc') =>
      s' = s /\ fc' = sum_counts fc l /\ exists e gs, (forall e0, first = Some e0 -> e = e0) /\ items' = items ++ gs /\ Forall2 (offered w player e s) l gs
    end).
Proof.
  revert t first items fc. induction l as [|[guid c] l IH]; intros t first items fc.
  { cbn. split; [done|]. split; [done|]. exists (default 0 first), []. rewrite app_nil_r. split; [by intros ? ->|]. by split. }
  assert (forall error, error <> ERR_AUCTION_OK /\ error <> ERR_AUCTION_HIGHER_BID ->
    runs (SendAuctionCommandResult player None AUCTION_SELL_ITEM error ;; mret None) s (fun (r : option (list Z * Z)) s' =>
      match r with None => quiet s s' | Some _ => False end)) as Hno.
  { intros error He. apply runs_bind, runs_result; [done|]. intros o. apply calm_emit. }
  assert (forall (m : T (option (list Z * Z))) R, runs m s (fun r s' => match r with None => quiet s s' | Some _ => False end) ->
    runs m s (fun r s' => match r with None => quiet s s' | Some x => R x s' end)) as Hmono.
  { intros m R Hm. apply (runs_mono _ _ _ _ Hm). by intros [|]. }
  cbn [check_items]. repeat ah_step. destruct (GetItemByGuid s player guid) as [g|] eqn:Eg; [|apply (Hmono _ (fun x s' => let '(_, _) := x in _)), Hno; done].
  destruct (GetItemByGuid_Some _ _ _ _ Eg) as (_ & _ & i & Hi & Hh).
  apply runs_bind, (runs_deref_item _ _ i _ Hi).
  destruct (negb (t =? 0) && negb (i_entry i =? t)); [apply (Hmono _ (fun x s' => let '(_, _) := x in _)), Hno; done|].
  apply runs_bind, (runs_mono _ _ (fun bad s' => s' = s /\ (bad = false -> (g ∉ mAitems s) /\ tradeable w g = true /\ c <= i_count i))).
  { unfold GetAItem. destruct (bool_decide_reflect (g ∈ mAitems s)) as [Hin|Hin].
    - rewrite bool_decide_eq_true_2 by eauto. by split.
    - rewrite bool_decide_eq_false_2 by (by intros []). destruct (Hcat _ _ Hi) as [tm Htm]. apply runs_bind, (runs_template _ _ _ _ _ Htm). split; [done|].
      intros [[H1%negb_false_iff H2%Z.ltb_ge]%orb_false_iff _]%orb_false_iff. done. }
  intros bad s' [-> Hbad]. destruct bad; [apply (Hmono _ (fun x s' => let '(_, _) := x in _)), Hno; done|].
  destruct (Hbad eq_refl) as (H1 & H2 & H3).
  destruct (match first with Some e => negb (e =? i_entry i) | None => false end) eqn:Efirst.
  { repeat ah_step. apply calm_emit. }
  apply (runs_mono _ _ _ _ (IH _ _ _ _)). intros [[items' fc']|] s'; [|done]. intros (-> & -> & e & gs & He & -> & HF).
  split; [done|]. split; [done|]. exists e, (g :: gs). rewrite <- app_assoc.
  assert (e = default (i_entry i) first) as Ee by by apply He.
  split; [intros e0 ->; by cbn in Ee|]. split; [done|]. constructor; [|done].
  split; [done|]. split_and!; [done|done|]. exists i. split_and!; [done|done| |done].
  rewrite Ee. destruct first as [e0|]; [|done]. apply negb_false_iff, Z.eqb_eq in Efirst. done.
Qed.

Lemma stack_fits_runs items fc :
  (forall g, g ∈ items -> is_Some (objects s !! g)) ->
  runs (stack_fits w items fc) s (fun ok s' => s' = s /\
    (ok = true -> forall g i, g ∈ items -> objects s !! g = Some i -> exists t, item_template w (i_entry i) = Some t /\ fc <= MaxStack t)).
Proof.
  induction items as [|g items IH]; intros Hob; [apply runs_ret; split; [done|]; intros _ g i Hg; by apply not_elem_of_nil in Hg|].
  destruct (Hob g ltac:(constructor)) as [i Hi]. destruct (Hcat _ _ Hi) as [t Ht]. cbn [stack_fits].
  apply runs_bind, (runs_deref_item _ _ i _ Hi). apply runs_bind, (runs_template _ _ _ _ _ Ht).
  destruct (Z.ltb_spec (MaxStack t) fc); [by apply runs_ret|].
  apply (runs_mono _ _ _ _ (IH (fun g' Hg' => Hob g' ltac:(by constructor)))). intros ok s' [-> Hok]. split; [done|].
  intros E g' i' Hg' Hi'. apply list_elem_of_In in Hg' as [<-|Hg'].
  - rewrite Hi in Hi'. injection Hi' as <-. by exists t.
  - apply (Hok E g' i'); [by apply list_elem_of_In|done].
Qed.
End Check.

(** ** One source stack *)

Definition taken (i : Item) : Item :=
  match i_holder i with Some _ => mkItem (i_entry i) (i_count i) (i_owner i) (i_state i) None false | None => i end.
Definition lowered (c : Z) (i : Item) : Item := mkItem (i_entry i) (u32 (i_count i - c)) (i_owner i) ITEM_UNCHANGED (i_holder i) (i_bank i).

Definition removed (g : Z) (d : DB) : DB :=
  mkDB (auctionhouse d) (delete g (item_instance d)) (delete g (character_inventory d)) (mail d) (mail_items d) (gold d).
Definition rewritten (g : Z) (i : Item) (fresh : bool) (d : DB) : DB :=
  mkDB (auctionhouse d) (if fresh then <[g := item_row i]> (item_instance d) else alter (fun _ => item_row i) g (item_instance d))
    (character_inventory d) (mail d) (mail_items d) (gold d).

Record took_one (g c : Z) (s s' : AH) : Prop := {
  to_auctions : auctions s' = auctions s;
  to_next_address : next_address s' = next_address s;
  to_next_auction : next_auction s' = next_auction s;
  to_map : AuctionsMap s' = AuctionsMap s;
  to_mAitems : mAitems s' = mAitems s;
  to_next_item : next_item s' = next_item s;
  to_next_mail : next_mail s' = next_mail s;
  to_purse : purse s' = purse s;
  to_tables : tables s' = tables s ++ [db s'];
  to_cases : exists i, objects s !! g = Some i /\
    ((i_count i = c /\ objects s' = <[g := taken i]> (objects s) /\ db s' = removed g (db s)) \/
     (i_count i <> c /\ objects s' = <[g := lowered c i]> (objects s) /\
      db s' = rewritten g (lowered c i) (match i_state i with ITEM_NEW => true | _ => false end) (db s)))
}.

Lemma take_from_runs g c s : is_Some (objects s !! g) -> runs (take_from (g, c)) s (fun _ s' => took_one g c s s').
Proof.
  intros [i Hi]. unfold take_from. apply runs_bind, (runs_deref_item _ _ i _ Hi). destruct (Z.eqb_spec (i_count i) c) as [Ec|Ec].
  - apply runs_bind. unfold MoveItemFromInventory. apply runs_bind, (runs_deref_item _ _ i _ Hi).
    apply (runs_mono _ _ (fun _ s' => s' = set_objects (<[g := taken i]> (objects s)) (next_item s) s)).
    { unfold taken. destruct (i_holder i); repeat ah_step; [done|]. rewrite insert_id by done. by destruct s. }
    intros _ s1 ->. repeat ah_step. eapply runs_commit; [reflexivity|]. split; cbn; try done. exists i. split; [done|]. by left.
  - unfold SaveToDB. repeat ah_step. eapply runs_deref_item; [apply lookup_insert_eq|]. unfold SetState, SetCount. cbn [i_state i_entry i_count i_owner i_holder i_bank].
    destruct (i_state i) eqn:Est; repeat ah_step; (eapply runs_commit; [reflexivity|]); (split; cbn; try done);
      exists i; (split; [done|]); right; (split; [done|]); (split; [by rewrite insert_insert_eq|]); by rewrite Est.
Qed.

(** *** All of them *)

Record took (gs : list Z) (s s' : AH) : Prop := {
  tk_auctions : auctions s' = auctions s;
  tk_next_address : next_address s' = next_address s;
  tk_next_auction : next_auction s' = next_auction s;
  tk_map : AuctionsMap s' = AuctionsMap s;
  tk_mAitems : mAitems s' = mAitems s;
  tk_next_item : next_item s' = next_item s;
  tk_next_mail : next_mail s' = next_mail s;
  tk_purse : purse s' = purse s;
  tk_other : forall g, g ∉ gs -> objects s' !! g = objects s !! g /\ item_instance (db s') !! g = item_instance (db s) !! g;
  tk_objects : forall g i', objects s' !! g = Some i' -> exists i, objects s !! g = Some i /\ i_entry i' = i_entry i;
  tk_some : forall g, is_Some (objects s !! g) -> is_Some (objects s' !! g);
  tk_held : held_ok s -> held_ok s';
  tk_inventory : forall g, is_Some (character_inventory (db s') !! g) -> is_Some (character_inventory (db s) !! g);
  tk_rows : forall g, is_Some (item_instance (db s') !! g) -> is_Some (item_instance (db s) !! g) \/ is_Some (objects s !! g);
  tk_auctionhouse : auctionhouse (db s') = auctionhouse (db s);
  tk_mail : mail (db s') = mail (db s);
  tk_mail_items : mail_items (db s') = mail_items (db s)
}.

Lemma took_refl gs s : took gs s s.
Proof. split; try done; eauto. Qed.

Lemma took_trans gs s1 s2 s3 : took gs s1 s2 -> took gs s2 s3 -> took gs s1 s3.
Proof.
  intros [] []. split; try congruence; eauto.
  - intros g Hg. destruct (tk_other0 g Hg), (tk_other1 g Hg). split; congruence.
  - intros g i3 (i2 & H2 & E2)%tk_objects1. destruct (tk_objects0 _ _ H2) as (i1 & H1 & E1). exists i1. split; congruence.
  - intros g [H%tk_rows0|H]%tk_rows1; [done|]. right. destruct H as [i2 H2]. destruct (tk_objects0 _ _ H2) as (i1 & H1 & _). eauto.
Qed.

Lemma row_says_insert (m : gmap Z ItemRow) ah inv ml mi go g i :
  row_says (mkDB ah (<[g := item_row i]> m) inv ml mi go) g (i_entry i) (i_count i).
Proof. exists (item_row i). split; [apply lookup_insert_eq|done]. Qed.

Lemma took_one_took gs g c s s' : g ∈ gs -> took_one g c s s' -> took gs s s'.
Proof.
  intros Hg [? ? ? ? ? ? ? ? _ (i & Hi & Hcases)].
  assert (forall g', g' ∉ gs -> g <> g') as Hne by by intros g' Hg' ->.
  destruct Hcases as [(Ec & Eo & Ed)|(Ec & Eo & Ed)].
  - split; try done; rewrite ?Eo, ?Ed; try done.
    + intros g' Hg'%Hne. cbn. by rewrite lookup_insert_ne, lookup_delete_ne.
    + intros g' i' [[<- <-]|[_ H']]%lookup_insert_Some; [|by exists i']. exists i. split; [done|]. unfold taken. by destruct (i_holder i).
    + intros g' H'. apply lookup_insert_is_Some'. by right.
    + intros Hok g' i' p. rewrite Eo, Ed. intros [[<- <-]|[Hn H']]%lookup_insert_Some Hp.
      * unfold taken in Hp. by destruct (i_holder i) eqn:E; [|rewrite E in Hp].
      * destruct (Hok _ _ _ H' Hp) as [H1 (r & H2)]. cbn. rewrite lookup_delete_ne by done. split; [done|]. exists r. cbn. by rewrite lookup_delete_ne.
    + intros g'. cbn. rewrite lookup_delete_is_Some. by intros [_ ?].
    + intros g'. cbn. rewrite lookup_delete_is_Some. intros [_ ?]. by left.
  - split; try done; rewrite ?Eo, ?Ed; try done.
    + intros g' Hg'%Hne. cbn. rewrite lookup_insert_ne by done. split; [done|]. destruct (i_state i); by rewrite ?lookup_insert_ne, ?lookup_alter_ne.
    + intros g' i' [[<- <-]|[_ H']]%lookup_insert_Some; [|by exists i']. by exists i.
    + intros g' H'. apply lookup_insert_is_Some'. by right.
    + intros Hok g' i' p. rewrite Eo, Ed. intros [[<- <-]|[Hn H']]%lookup_insert_Some Hp.
      * destruct (Hok _ _ _ Hi Hp) as [H1 (r & H2 & _)]. split; [done|]. exists (item_row (lowered c i)). cbn.
        destruct (i_state i); rewrite ?lookup_insert_eq, ?lookup_alter_eq, ?H2; done.
      * destruct (Hok _ _ _ H' Hp) as [H1 (r & H2)]. split; [done|]. exists r. cbn. destruct (i_state i); by rewrite ?lookup_insert_ne, ?lookup_alter_ne.
    + intros g'. cbn. intros H'. destruct (decide (g' = g)) as [->|Hn]; [right; eauto|]. left.
      destruct (i_state i); by rewrite ?lookup_insert_ne, ?lookup_alter_ne in H' by done.
Qed.

Lemma take_all_runs items s :
  (forall x, x ∈ items -> is_Some (objects s !! x.1)) -> runs (mapM_ take_from items) s (fun _ s' => took items.*1 s s').
Proof.
  intros Hob. assert (forall gs l s0, took gs s s0 -> (forall x, x ∈ l -> x.1 ∈ gs /\ x ∈ items) ->
    runs (mapM_ take_from l) s0 (fun _ s' => took gs s s')) as Hgen.
  { intros gs l. induction l as [|[g c] l IH]; intros s0 H0 Hl; [by apply runs_ret|]. cbn [mapM_]. apply runs_bind.
    destruct (Hl (g, c) ltac:(constructor)) as [Hg Hx].
    apply (runs_mono _ _ _ _ (take_from_runs g c s0 (tk_some _ _ _ H0 g (Hob _ Hx)))). intros _ s1 H1.
    apply IH; [exact (took_trans _ _ _ _ H0 (took_one_took _ _ _ _ _ Hg H1))|]. intros x Hx'. apply Hl. by constructor. }
  apply Hgen; [apply took_refl|]. intros x Hx. split; [|done]. by apply list_elem_of_fmap_2.
Qed.
