(* ===== verification/AuctionList.v ===== *)
(** * AuctionList: the handler of a sale

    What [HandleAuctionSellItem] does from a sound state: nothing but an answer, or the
    fee is taken and the item is put up for sale, with the changes of the tables that the
    accounts of items need. *)

From S2P Require Import Prelude.
From S2P Require Import Float32.
From S2P Require Import AuctionHouse AuctionHandler AuctionSpec AuctionEnd AuctionSafety AuctionBid AuctionSell.

Section Listing.
Context (known : Z -> Prop) (w : World) (Hcat : forall e, known e -> is_Some (item_template w e)).

Lemma insert_accepted s a d :
  sound known s -> Id a = next_auction s -> itemGUIDLow a ∉ mAitems s -> auctionhouse d = auctionhouse (db s) ->
  apply_op (InsertAuction (Id a) (row_of a)) d =
  Some (mkDB (<[Id a := row_of a]> (auctionhouse d)) (item_instance d) (character_inventory d) (mail d) (mail_items d) (gold d)).
Proof.
  intros Hs Hid Hg Hd. cbn [apply_op]. rewrite bool_decide_eq_false_2, bool_decide_eq_false_2; [done| |].
  - rewrite Hd. intros (id & r & (h & x & Hl & ->)%(so_row _ _ Hs) & E). cbn in E. apply Hg. rewrite <- E. by apply (so_item _ _ Hs _ _ _ Hl).
  - rewrite Hd. intros [r (h & x & (p & Hp & _) & _)%(so_row _ _ Hs)]. pose proof (so_next_id _ _ Hs h (Id a) ltac:(eauto)). lia.
Qed.

(** ** Saving an item *)

Definition save_ops (g : Z) (i : Item) : list db_op :=
  match i_state i with ITEM_NEW => [ReplaceItem g (item_row i)] | ITEM_CHANGED => [UpdateItem g (item_row i)] | ITEM_UNCHANGED => [] end.

Definition saved_rows (g : Z) (i : Item) (m : gmap Z ItemRow) : gmap Z ItemRow :=
  match i_state i with ITEM_NEW => <[g := item_row i]> m | ITEM_CHANGED => alter (fun _ => item_row i) g m | ITEM_UNCHANGED => m end.

Lemma runs_save_item g s i (Q : unit -> AH -> Prop) :
  objects s !! g = Some i ->
  Q tt (set_objects (<[g := SetState ITEM_UNCHANGED i]> (objects s)) (next_item s) (set_trans (trans s ++ save_ops g i) s)) -> runs (SaveToDB g) s Q.
Proof.
  intros Hi HQ. unfold SaveToDB. apply runs_bind, (runs_deref_item _ _ i _ Hi). unfold save_ops in HQ.
  destruct (i_state i); repeat ah_step; [|done..]. rewrite app_nil_r in HQ. by destruct s.
Qed.

Lemma save_accepted g i rest d :
  ExecuteTransaction (save_ops g i ++ rest) d =
  ExecuteTransaction rest (mkDB (auctionhouse d) (saved_rows g i (item_instance d)) (character_inventory d) (mail d) (mail_items d) (gold d)).
Proof. unfold save_ops, saved_rows. destruct (i_state i); [by destruct d|done..]. Qed.

Lemma saved_other g i m g' : g' <> g -> saved_rows g i m !! g' = m !! g'.
Proof. intros Hne. unfold saved_rows. destruct (i_state i); by rewrite ?lookup_insert_ne, ?lookup_alter_ne by done. Qed.

(** The row says what the object says, if it did before or the object is new. *)
Lemma saved_says g i m :
  i_state i = ITEM_NEW \/ (exists r, m !! g = Some r /\ r_entry r = i_entry i /\ r_count r = i_count i) ->
  exists r, saved_rows g i m !! g = Some r /\ r_entry r = i_entry i /\ r_count r = i_count i.
Proof.
  unfold saved_rows. intros [->|(r & Hr & H)]; [exists (item_row i); by rewrite lookup_insert_eq|].
  destruct (i_state i); [by exists r| |]; exists (item_row i); rewrite ?lookup_insert_eq, ?lookup_alter_eq, ?Hr; done.
Qed.

(** ** The item itself *)

(** The tables after a sale of the item itself: the gold first, then the transaction. *)
Definition moved (a : AuctionEntry) (s s' : AH) : Prop :=
  exists d1, alike (db s) d1 /\ tables s' = tables s ++ [d1; db s'] /\
    (forall g, g <> itemGUIDLow a -> item_instance (db s') !! g = item_instance (db s) !! g) /\
    character_inventory (db s') = delete (itemGUIDLow a) (character_inventory (db s)).

(** The state in which the item is put up: the fee is paid, the id taken. *)
Definition charged (pu : gmap Z Z) (s : AH) : AH := set_next_auction (next_auction s + 1) (set_purse pu s).

Lemma sell_whole_put_up s player h g i a pu :
  sound known s -> objects s !! g = Some i -> i_holder i = Some player -> g ∉ mAitems s ->
  Id a = next_auction s -> itemGUIDLow a = g -> itemEntry a = i_entry i -> itemCount a = i_count i ->
  runs (sell_whole w player h g a) (charged pu s) (fun _ s' => put_up known h a pu s s' /\ moved a s s').
Proof.
  intros Hs Hi Hh Hg Hid <- Hie Hic.
  destruct (so_held _ _ Hs _ _ _ Hi Hh) as [Hinv (r & Hr & Hre & Hrc)]. destruct (so_inventory _ _ Hs _ Hinv) as (_ & Hmi & Hlt).
  unfold sell_whole, AddAItem, AddAuction, MoveItemFromInventory. repeat ah_step. rewrite bool_decide_eq_false_2 by done.
  repeat ah_step. eapply runs_deref_auction; [apply lookup_insert_eq|]. repeat ah_step.
  apply (runs_deref_item _ _ i); [done|]. rewrite Hh. repeat ah_step.
  set (j := mkItem (i_entry i) (i_count i) (i_owner i) (i_state i) None false). eapply (runs_save_item _ _ j); [apply lookup_insert_eq|].
  repeat ah_step. apply runs_save_gold. intros d1 Ed1. cbn in Ed1.
  assert (alike (db s) d1) as Hal by by subst d1.
  set (rows := saved_rows (itemGUIDLow a) j (item_instance (db s))).
  set (d2 := mkDB (<[Id a := row_of a]> (auctionhouse (db s))) rows (delete (itemGUIDLow a) (character_inventory (db s))) (mail (db s))
               (mail_items (db s)) (gold d1)).
  assert (forall g', g' <> itemGUIDLow a -> rows !! g' = item_instance (db s) !! g') as Hother by by intros; apply saved_other.
  assert (exists r, rows !! itemGUIDLow a = Some r /\ r_entry r = i_entry i /\ r_count r = i_count i) as Hrow.
  { apply (saved_says (itemGUIDLow a) j). right. by exists r. }
  apply runs_bind, (runs_commit _ d2).
  { transitivity (ExecuteTransaction (DeleteInventory (itemGUIDLow a) :: save_ops (itemGUIDLow a) j ++ [InsertAuction (Id a) (row_of a)]) d1);
      [by subst d1|].
    cbn [ExecuteTransaction apply_op]. rewrite save_accepted. cbn [ExecuteTransaction].
    rewrite (insert_accepted s a) by (done || (subst d1; done)). by subst d1. }
  apply runs_bind, runs_result; [by intros|]. intros o. repeat ah_step. split.
  - split; cbn; try done; rewrite ?Hie, ?Hic; try done; try lia.
    + eexists. split; [apply lookup_insert_eq|done].
    + intros g' i' H'. rewrite insert_insert_eq in H'. apply lookup_insert_Some in H' as [[<- <-]|[_ H']];
        [exact (so_known _ _ Hs _ _ Hi)|exact (so_known _ _ Hs _ _ H')].
    + intros g' Hg'. assert (g' <> itemGUIDLow a) as Hne by by intros ->. rewrite !lookup_insert_ne by done. split; [done|]. by apply Hother.
    + intros g' i' p H' Hp. cbn in H'. rewrite insert_insert_eq in H'. apply lookup_insert_Some in H' as [[<- <-]|[Hne H']]; [done|].
      destruct (so_held _ _ Hs _ _ _ H' Hp) as [H1 (r' & H2)].
      cbn. rewrite lookup_delete_ne by done. split; [done|]. exists r'. cbn. by rewrite Hother.
    + intros g'. rewrite lookup_delete_is_Some. intros [? ?]. by split.
    + intros g'. destruct (decide (g' = itemGUIDLow a)) as [->|Hne]; [done|]. rewrite Hother by done. apply (so_rows _ _ Hs).
  - exists d1. split; [done|]. cbn. split_and!; [by rewrite <- app_assoc|exact Hother|done].
Qed.

(** ** A clone *)

(** The object [CreateItem] makes, and the state with it. *)
Definition clone_item (e count player : Z) : Item := mkItem e count player ITEM_NEW None false.
Definition with_clone (e count player : Z) (s : AH) : AH :=
  set_objects (<[next_item s := clone_item e count player]> (objects s)) (next_item s + 1) s.

(** The tables after the sale of a clone: each source stack in a transaction of its own,
    then the gold, then the clone and the auction. *)
Definition cloned (items : list (Z * Z)) (a : AuctionEntry) (s s' : AH) : Prop :=
  exists s0 s1 d1, mapM_ take_from items s0 = (Ok tt, s1) /\ db s0 = db s /\ tables s0 = tables s /\
    (forall g, g < next_item s -> objects s0 !! g = objects s !! g) /\ alike (db s1) d1 /\ tables s' = tables s1 ++ [d1; db s'] /\
    (exists r, item_instance (db s') = <[itemGUIDLow a := r]> (item_instance d1) /\ r_entry r = itemEntry a /\ r_count r = itemCount a) /\
    character_inventory (db s') = character_inventory d1 /\ auctionhouse d1 = auctionhouse (db s) /\ mail_items d1 = mail_items (db s).

Lemma sell_clone_put_up s player h items e count a pu :
  sound known s -> known e -> (forall x, x ∈ items -> is_Some (objects s !! x.1) /\ x.1 ∉ mAitems s) ->
  Id a = next_auction s -> itemGUIDLow a = next_item s -> itemEntry a = e -> itemCount a = count ->
  runs (sell_clone w player h items (next_item s) a) (with_clone e count player (charged pu s))
    (fun _ s' => put_up known h a pu s s' /\ cloned items a s s').
Proof.
  intros Hs He Hitems Hid Hg Hie Hic.
  assert (next_item s ∉ mAitems s) as Hn.
  { intros (h' & id' & a' & Hl & E)%(so_store _ _ Hs). destruct (so_item _ _ Hs _ _ _ Hl) as [_ (i & Hi & _)].
    destruct (so_known _ _ Hs _ _ Hi). lia. }
  assert (forall g, is_Some (objects s !! g) -> g < next_item s) as Hlt by by intros g [i Hi]; apply (so_known _ _ Hs _ _ Hi).
  assert (forall x, x ∈ items -> x.1 < next_item s) as Hsrc by by intros x Hx; apply Hlt, Hitems.
  unfold sell_clone, AddAItem, AddAuction. repeat ah_step. rewrite bool_decide_eq_false_2 by done.
  repeat ah_step. eapply runs_deref_auction; [apply lookup_insert_eq|]. repeat ah_step.
  match goal with |- runs _ ?st _ => set (s0 := st) end.
  assert (forall g, g < next_item s -> objects s0 !! g = objects s !! g) as Hobj0 by (intros; cbn; by rewrite lookup_insert_ne by lia).
  destruct (runs_inv _ _ _ (take_all_runs items s0 ltac:(intros x Hx; rewrite Hobj0 by auto; by apply Hitems))) as ([] & s1 & E1 & H1).
  apply (runs_eq _ _ _ _ _ E1). destruct H1 as [T1 T2 T3 T4 T5 T6 T7 T8 Tother Tobj Tsome Theld Tinv Trows Tah Tm Tmi].
  assert (next_item s ∉ items.*1) as Hnot.
  { intros (x & E & Hx)%list_elem_of_fmap. pose proof (Hsrc x Hx). lia. }
  destruct (Tother _ Hnot) as [En1 En2].
  assert (objects s1 !! next_item s = Some (clone_item e count player)) as Hc1 by (rewrite En1; apply lookup_insert_eq).
  repeat ah_step. eapply (runs_save_item _ _ (clone_item e count player)); [exact Hc1|]. repeat ah_step. apply runs_save_gold. intros d1 Ed1. cbn in Ed1.
  assert (alike (db s1) d1) as Hal by by subst d1.
  set (r := item_row (clone_item e count player)).
  set (d2 := mkDB (<[Id a := row_of a]> (auctionhouse (db s))) (<[next_item s := r]> (item_instance d1)) (character_inventory d1) (mail (db s))
               (mail_items (db s)) (gold d1)).
  apply runs_bind, (runs_commit _ d2).
  { transitivity (ExecuteTransaction (save_ops (next_item s) (clone_item e count player) ++ [InsertAuction (Id a) (row_of a)]) d1); [by subst d1|].
    rewrite save_accepted. cbn [ExecuteTransaction]. rewrite (insert_accepted s a); [|done|done|by rewrite Hg|by subst d1].
    subst d1 d2. cbn. by rewrite Tah, Tm, Tmi. }
  apply runs_bind, runs_result; [by intros|]. intros o. repeat ah_step.
  assert (mail_items (db s) !! next_item s = None) as Hmi.
  { destruct (mail_items (db s) !! next_item s) eqn:E; [|done]. destruct (so_mailed _ _ Hs (next_item s) ltac:(eauto)). lia. }
  assert (next_item s0 = next_item s + 1) as En0 by done.
  assert (objects s0 = <[next_item s := clone_item e count player]> (objects s)) as Eo0 by done. split.
  - split; cbn; rewrite ?T1, ?T2, ?T3, ?T4, ?T5, ?T6, ?En0, ?T7, ?T8, ?Hg, ?Hie, ?Hic; try done; try lia.
    + eexists. split; [apply lookup_insert_eq|done].
    + intros g i [[<- <-]|[_ H']]%lookup_insert_Some; [split; [done|lia]|]. destruct (Tobj _ _ H') as (i0 & Hi0 & ->).
      destruct (decide (g < next_item s)) as [Hl|Hl].
      * rewrite Hobj0 in Hi0 by done. destruct (so_known _ _ Hs _ _ Hi0). split; [done|lia].
      * rewrite Eo0 in Hi0. apply lookup_insert_Some in Hi0 as [[<- <-]|[_ Hi0]]; [split; [done|lia]|]. destruct (so_known _ _ Hs _ _ Hi0). lia.
    + intros g Hgin. assert (g ∉ items.*1) as Hgs by (intros (x & -> & Hx)%list_elem_of_fmap; by destruct (Hitems x Hx)).
      assert (g <> next_item s) as Hne by by intros ->. destruct (Tother g Hgs) as [O1 O2]. rewrite !lookup_insert_ne by done.
      split; [by rewrite O1, Eo0, lookup_insert_ne|]. subst d1. exact O2.
    + intros g i p H' Hp. cbn in H'. apply lookup_insert_Some in H' as [[<- <-]|[Hne H']]; [done|].
      unfold row_says. cbn. rewrite lookup_insert_ne by done.
      subst d1. refine (Theld _ g i p H' Hp). intros g0 i0 p0 H0 Hp0. rewrite Eo0 in H0. apply lookup_insert_Some in H0 as [[<- <-]|[_ H0]]; [done|].
      exact (so_held _ _ Hs _ _ _ H0 Hp0).
    + intros g Hinv. assert (is_Some (character_inventory (db s) !! g)) as Hinv' by (apply Tinv; by subst d1).
      split; [done|]. destruct (so_inventory _ _ Hs _ Hinv'). lia.
    + intros g [->|H']%lookup_insert_is_Some'; [lia|]. subst d1. destruct (Trows _ H') as [H0|H0].
      * pose proof (so_rows _ _ Hs _ H0). lia.
      * rewrite Eo0 in H0. apply lookup_insert_is_Some' in H0 as [->|H0]; [lia|]. pose proof (Hlt _ H0). lia.
    + exists r. split; [apply lookup_insert_eq|done].
  - exists s0, s1, d1. split_and!; try done.
    + cbn. by rewrite <- app_assoc.
    + exists r. by rewrite Hg, Hie, Hic.
    + by subst d1.
    + by subst d1.
Qed.

(** ** The handler *)

(** What is put up: the player's, without bids, for the fee. *)
Record fresh_auction (player : Z) (s : AH) (a : AuctionEntry) : Prop := {
  fa_owner : owner a = player;
  fa_bid : bid a = 0;
  fa_bidder : bidder a = 0;
  fa_deposit : deposit a <= money s player;
  fa_deposit_range : 0 <= deposit a < 2 ^ 32;
  fa_buyout_range : 0 <= buyout a < 2 ^ 32
}.

(** The items of the packet, and how they got to the house. *)
Definition supplied (player : Z) (packet : list (Z * Z)) (a : AuctionEntry) (s s' : AH) : Prop :=
  exists gs, Forall2 (offered w player (itemEntry a) s) packet gs /\
    ((exists i, gs = [itemGUIDLow a] /\ objects s !! itemGUIDLow a = Some i /\ i_count i = itemCount a /\ moved a s s') \/
     (itemGUIDLow a = next_item s /\ itemCount a = sum_counts 0 packet /\ cloned (zip gs packet.*2) a s s')).

(** What the handler checks of the packet before anything else. *)
Definition plausible (packet : list (Z * Z)) : Prop :=
  Z.of_nat (length packet) <= MAX_AUCTION_ITEMS /\ Forall (fun x => x.2 <> 0 /\ x.2 <= 1000) packet.

Definition sale (player : Z) (packet : list (Z * Z)) (s s' : AH) : Prop :=
  plausible packet /\ exists h a, put_up known h a (paid (purse s) player (- i32 (deposit a))) s s' /\ fresh_auction player s a /\ supplied player packet a s s'.

Lemma f_to_u32_range f : 0 <= f_to_u32 f < 2 ^ 32.
Proof. unfold f_to_u32. destruct (f_trunc f) as [v|]; [|lia]. destruct (_ && _); [apply wrap_range; lia|lia]. Qed.

Lemma deposit_range e t p n : 0 <= GetAuctionDeposit w e t p n < 2 ^ 32.
Proof.
  unfold GetAuctionDeposit. destruct (p <=? 0); [done|]. cbv zeta. match goal with |- context [f_to_u32 ?f] => pose proof (f_to_u32_range f) end.
  destruct (_ <? _); [done|lia].
Qed.

Lemma offered_in player e s packet gs x :
  Forall2 (offered w player e s) packet gs -> x ∈ zip gs packet.*2 ->
  exists y, y ∈ packet /\ x.2 = y.2 /\ offered w player e s y x.1.
Proof.
  intros HF. induction HF as [|y g l gs Hy HF IH]; [by intros ?%not_elem_of_nil|]. intros [<-|Hx]%list_elem_of_In%in_inv.
  - exists y. split; [constructor|done].
  - destruct IH as (z & Hz & E); [by apply list_elem_of_In|]. exists z. split; [by constructor|done].
Qed.

Lemma sum_counts_range fc l : 0 <= fc < 2 ^ 32 -> 0 <= sum_counts fc l < 2 ^ 32.
Proof. revert fc. induction l as [|x l IH]; intros fc Hfc; [done|]. apply IH, wrap_range. lia. Qed.

Lemma CloneItem_runs s g i t count player (Q : option Z -> AH -> Prop) :
  objects s !! g = Some i -> item_template w (i_entry i) = Some t -> 1 <= count <= MaxStack t ->
  Q (Some (next_item s)) (with_clone (i_entry i) count player s) -> runs (CloneItem w g count player) s Q.
Proof.
  intros Hi Ht Hc HQ. unfold CloneItem, CreateItem. apply runs_bind, (runs_deref_item _ _ i _ Hi).
  rewrite (proj2 (Z.ltb_ge count 1)), Ht, (proj2 (Z.ltb_ge (MaxStack t) count)) by lia. rewrite (proj2 (Z.eqb_neq count 0)) by lia.
  repeat ah_step. exact HQ.
Qed.

Lemma sell_items_outcome s player faction e auctioneer packet gs en bid_ buyout_ etime :
  sound known s -> Forall2 (offered w player en s) packet gs -> sum_counts 0 packet <> 0 ->
  (forall g i, g ∈ gs -> objects s !! g = Some i -> exists t, item_template w (i_entry i) = Some t /\ sum_counts 0 packet <= MaxStack t) ->
  plausible packet ->
  runs (sell_items w player faction e auctioneer (zip gs packet.*2) (sum_counts 0 packet) bid_ buyout_ etime) s
    (fun _ s' => quiet s s' \/ sale player packet s s').
Proof.
  intros Hs HF Hfc Hstack Hpl. pose proof (sum_counts_range 0 packet ltac:(lia)) as Hrange. set (fc := sum_counts 0 packet) in *.
  assert (forall x, x ∈ zip gs packet.*2 -> is_Some (objects s !! x.1) /\ x.1 ∉ mAitems s) as Hsrc.
  { intros x (y & _ & _ & _ & Hn & _ & i & Hi & _)%(offered_in _ _ _ _ _ _ HF). eauto. }
  destruct HF as [|[guid c] g l gs Hx HF]; [apply runs_ret; left; apply calm_refl|].
  pose proof Hx as (_ & Hg & _ & i & Hi & Hh & Hie & _). destruct (Hstack g i ltac:(constructor) Hi) as (t & Ht & Hmax).
  cbn [zip fmap list_fmap snd zip_with sell_items]. cbn [sell_items]. apply runs_bind, (runs_deref_item _ _ i _ Hi).
  apply runs_bind, (runs_template _ _ _ _ _ Ht). repeat ah_step.
  set (d := GetAuctionDeposit w e etime (SellPrice t) fc). destruct (HasEnoughMoney s player d) eqn:Em; cbn [negb];
    [|apply runs_result; [done|]; intros o; left; apply calm_emit].
  apply Z.leb_le in Em. repeat ah_step. fold (charged (paid (purse s) player (- i32 d)) s).
  destruct ((Z.of_nat (length ((g, c) :: zip gs l.*2)) =? 1) && (i_count i =? c)) eqn:Ewhole.
  - apply andb_prop in Ewhole as [Elen%Z.eqb_eq _].
    set (a := listed w player (next_auction s) auctioneer g i bid_ buyout_ (f_to_u32 (fmul (f_of_Z etime) (rate_time w))) d e).
    apply (runs_mono _ _ _ _ (sell_whole_put_up s player _ g i a _ Hs Hi Hh Hg eq_refl eq_refl eq_refl eq_refl)). intros _ s' [H1 H2].
    right. split; [done|]. eexists _, a. split; [exact H1|]. split; [split; try done; [apply deposit_range|apply wrap_range; lia]|].
    exists (g :: gs). split; [cbn; rewrite Hie; by constructor|]. left. exists i.
    split_and!; try done. destruct HF as [|? ? l' gs']; [done|]. exfalso. cbn in Elen. lia.
  - apply runs_bind, (CloneItem_runs _ g i t); [done|done|lia|]. set (s1 := with_clone (i_entry i) fc player _).
    apply runs_bind, (runs_deref_item _ _ (clone_item (i_entry i) fc player)); [apply lookup_insert_eq|].
    set (a := listed w player (next_auction s) auctioneer (next_item s) (clone_item (i_entry i) fc player) bid_ buyout_
                (f_to_u32 (fmul (f_of_Z etime) (rate_time w))) d e).
    refine (runs_mono _ _ _ _ (sell_clone_put_up s player _ ((g, c) :: zip gs l.*2) (i_entry i) fc a _ Hs _ Hsrc eq_refl eq_refl eq_refl eq_refl) _).
    { by apply (so_known _ _ Hs g i). }
    intros _ s' [H1 H2]. right. split; [done|]. eexists _, a. split; [exact H1|]. split; [split; try done; [apply deposit_range|apply wrap_range; lia]|].
    exists (g :: gs). split; [cbn; rewrite Hie; by constructor|].
    right. done.
Qed.

Theorem sell_outcome s player creature auctioneer packet bid_ buyout_ etime :
  sound known s ->
  runs (HandleAuctionSellItem w player creature auctioneer packet bid_ buyout_ etime) s (fun _ s' => quiet s s' \/ sale player packet s s').
Proof.
  intros Hs. unfold HandleAuctionSellItem.
  assert (forall error, error <> ERR_AUCTION_OK /\ error <> ERR_AUCTION_HIGHER_BID ->
    runs (SendAuctionCommandResult player None AUCTION_SELL_ITEM error) s (fun _ s' => quiet s s' \/ sale player packet s s')) as Hno.
  { intros error He. apply runs_result; [done|]. intros o. left. apply calm_emit. }
  assert (runs (mret tt : T unit) s (fun _ s' => quiet s s' \/ sale player packet s s')) as Hret by (apply runs_ret; left; apply calm_refl).
  destruct (Z.ltb_spec MAX_AUCTION_ITEMS (Z.of_nat (length packet))); [by apply Hno|]. destruct (existsb _ packet) eqn:Ex; [done|].
  assert (plausible packet) as Hpl.
  { split; [done|]. apply Forall_forall. intros x Hx%list_elem_of_In. destruct (decide (x.2 = 0 \/ 1000 < x.2)) as [Hbad|]; [|lia].
    apply not_true_iff_false in Ex. destruct Ex. apply existsb_exists. exists x. split; [done|]. lia. }
  destruct (_ || _); [done|]. destruct creature as [faction|]; [|done]. destruct (GetAuctionHouseEntry w faction) as [e|]; [|done].
  destruct (negb _); [done|].
  assert (forall g i, objects s !! g = Some i -> is_Some (item_template w (i_entry i))) as Hcat'.
  { intros g i Hi. by apply Hcat, (so_known _ _ Hs g). }
  apply runs_bind, (runs_mono _ _ _ _ (check_items_runs w player s Hcat' packet 0 None [] 0)).
  intros [[items fc]|] s'; [|intros Hq; apply runs_ret; by left]. intros (-> & -> & en & gs & _ & -> & HF). cbn [app].
  destruct (Z.eqb_spec (sum_counts 0 packet) 0) as [E|E]; [by apply Hno|].
  assert (forall g, g ∈ gs -> is_Some (objects s !! g)) as Hob.
  { clear -HF. induction HF as [|x g l gs (_ & _ & _ & i & Hi & _) HF IH]; [by intros g ?%not_elem_of_nil|].
    intros g' [<-|H]%list_elem_of_In%in_inv; [eauto|apply IH; by apply list_elem_of_In]. }
  apply runs_bind, (runs_mono _ _ _ _ (stack_fits_runs w s Hcat' gs (sum_counts 0 packet) Hob)).
  intros ok s' [-> Hok]. destruct ok; cbn [negb]; [|by apply Hno]. by apply (sell_items_outcome s player faction e auctioneer packet gs en _ _ _ Hs HF E (Hok eq_refl) Hpl).
Qed.
End Listing.
