(* ===== verification/AuctionHistory.v ===== *)
(** * AuctionHistory: any sequence of commands

    [change] lists what a packet can do to the state, [closes] what an update does to an
    auction whose time is over.  Each keeps the invariant, and no command ends in a
    fault, except for the one read of an auction just deleted. *)

From S2P Require Import Prelude.
From S2P Require Import AuctionHouse AuctionHandler AuctionSpec AuctionEnd AuctionSafety AuctionBid AuctionSell AuctionList.

Section History.
Context (known : Z -> Prop).

Inductive change (w : World) (c : ah_cmd) (s s' : AH) : Prop :=
| ch_quiet : quiet s s' -> change w c s s'
| ch_sale player cr au packet b bo t :
    c = Sell player cr au packet b bo t -> sale known w player packet s s' -> change w c s s'
| ch_raise h id p a player cr price :
    c = PlaceBid player cr id price ->
    AuctionsMap s !! (h, id) = Some p -> auctions s !! p = Some a -> owner a <> player -> bid a < price -> price <= money s player ->
    (price <? buyout a) || (buyout a =? 0) = true ->
    raised id p (with_bid player (u32 price) a) (bid_letters w player a (next_mail s)) (bid_purse player price a (purse s)) s s' -> change w c s s'
| ch_buyout h id p a player cr price :
    c = PlaceBid player cr id price ->
    AuctionsMap s !! (h, id) = Some p -> auctions s !! p = Some a -> owner a <> player -> bid a < price -> price <= money s player ->
    (price <? buyout a) || (buyout a =? 0) = false ->
    ended h id p (itemGUIDLow a) (buyout_letters w player a (next_mail s)) (buyout_purse player a (purse s)) s s' -> change w c s s'
| ch_cancel h id p a player cr :
    c = CancelAuction player cr id ->
    AuctionsMap s !! (h, id) = Some p -> auctions s !! p = Some a -> owner a = player ->
    (0 <? bidder a) && negb (HasEnoughMoney s player (GetAuctionCut w a)) = false ->
    ended h id p (itemGUIDLow a) (cancel_letters w player a (next_mail s)) (cancel_purse w player a (purse s)) s s' -> change w c s s'.

Inductive closes (w : World) (s s' : AH) : Prop :=
| cl_close h id p a :
    AuctionsMap s !! (h, id) = Some p -> auctions s !! p = Some a ->
    ended h id p (itemGUIDLow a) (closing_letters w a (next_mail s)) (purse s) s s' -> closes w s s'.

(** One command. *)
Definition step (w : World) (c : ah_cmd) (s s' : AH) : Prop :=
  match c with Tick => rtc (closes w) s s' | _ => change w c s s' end.

Lemma change_sound w c s s' : sound known s -> change w c s s' -> sound known s'.
Proof.
  intros Hs [Hq|player cr au packet b bo t _ (_ & h & a & H & _)|h id p a player cr price _ Hp Ha _ _ _ _ H
    |h id p a player cr price _ Hp Ha _ _ _ _ H|h id p a player cr _ Hp Ha _ _ H].
  - exact (sound_quiet _ _ _ Hs Hq).
  - exact (put_up_sound _ _ _ _ _ _ Hs H).
  - exact (raised_sound _ _ _ _ _ _ _ _ _ _ _ Hs Hp Ha (no_items_bid _ _ _ _) H).
  - exact (ended_sound _ _ _ _ _ _ _ _ _ Hs Hp Ha (carries_buyout _ _ _ _) H).
  - exact (ended_sound _ _ _ _ _ _ _ _ _ Hs Hp Ha (carries_cancel _ _ _ _) H).
Qed.

Lemma closes_sound w s s' : sound known s -> closes w s s' -> sound known s'.
Proof. intros Hs [h id p a Hp Ha H]. exact (ended_sound _ _ _ _ _ _ _ _ _ Hs Hp Ha (carries_closing _ _ _) H). Qed.

Lemma all_closed_sound w s s' : sound known s -> rtc (closes w) s s' -> sound known s'.
Proof. intros Hs H. induction H as [|s s1 s' H1 _ IH]; [done|]. apply IH. exact (closes_sound _ _ _ Hs H1). Qed.

Lemma step_sound w c s s' : sound known s -> step w c s s' -> sound known s'.
Proof. intros Hs. destruct c; [apply (change_sound w _ _ _ Hs)..|apply (all_closed_sound w _ _ Hs)]. Qed.

(** ** The commands *)

(** A world in which commands cannot go wrong: every item has its template, and the
    allocator leaves the auction just deleted as it was. *)
Definition catalogued (w : World) : Prop := forall e, known e -> is_Some (item_template w e).
Record benign (w : World) : Prop := {
  be_catalogue : catalogued w;
  be_freed : forall a, freed_intact w a = true
}.

Section Step.
Context (w : World) (Hw : benign w).

Lemma bid_outcome s player creature id price :
  sound known s -> runs (HandleAuctionPlaceBid w player creature id price) s (fun _ s' => change w (PlaceBid player creature id price) s s').
Proof.
  intros Hs. set (c := PlaceBid player creature id price). assert (runs (mret tt : T unit) s (fun _ s' => change w c s s')) as Hret by (apply runs_ret, ch_quiet, calm_refl).
  destruct (decide (id = 0)) as [->|Hid0]; [done|]. destruct (decide (price = 0)) as [->|Hpr].
  { unfold HandleAuctionPlaceBid. rewrite orb_true_r. exact Hret. }
  destruct creature as [faction|]; [|unfold HandleAuctionPlaceBid; by destruct (_ || _)].
  destruct (AuctionsMap s !! (GetAuctionsMap w faction, id)) as [p|] eqn:Hp; [destruct (sound_find _ _ _ _ _ Hs Hp) as (a & Ha & _)|];
    [destruct (decide (owner a = player)) as [Ho|Ho]; [|destruct (decide (bid a < price)) as [Hb|Hb];
      [destruct (decide (startbid a <= price)) as [Hst|Hst]; [destruct (((price <? buyout a) || (buyout a =? 0))) eqn:Hbr;
      [destruct (decide (u32 (bid a + GetAuctionOutBid a) <= price)) as [Hmin|Hmin]|];
      [destruct (decide (price <= money s player)) as [Hm|Hm]| |destruct (decide (price <= money s player)) as [Hm|Hm]]|]|]]|].
  2: { apply (runs_mono _ _ _ _ (bid_raised known w s _ id p a player faction price Hs eq_refl Hid0 Hpr Hp Ha Ho Hb Hst Hmin Hm Hbr)).
       intros _ s'. by apply (ch_raise _ _ _ _ _ id p a player (Some faction) price eq_refl Hp Ha). }
  4: { apply (runs_mono _ _ _ _ (buyout_ended known w s _ id p a player faction price Hs eq_refl Hid0 Hpr Hp Ha Ho Hb Hst Hm Hbr)).
       intros _ s'. by apply (ch_buyout _ _ _ _ _ id p a player (Some faction) price eq_refl Hp Ha). }
  all: unfold HandleAuctionPlaceBid; rewrite (proj2 (Z.eqb_neq _ _) Hid0), (proj2 (Z.eqb_neq _ _) Hpr); cbn [orb]; repeat ah_step;
    unfold GetAuction, HasEnoughMoney; rewrite Hp; try (apply runs_bind, (runs_deref_auction _ _ a _ Ha)).
  all: try (rewrite (proj2 (Z.eqb_neq _ _) Ho)); try (rewrite (proj2 (Z.leb_gt price (bid a))) by lia); try (rewrite (proj2 (Z.leb_le price (bid a))) by lia);
    try (rewrite (proj2 (Z.ltb_ge price (startbid a))) by lia); try (rewrite (proj2 (Z.ltb_lt price (startbid a))) by lia); try rewrite Hbr; cbn [orb andb];
    try (rewrite (proj2 (Z.ltb_ge price (u32 _))) by lia); try (rewrite (proj2 (Z.ltb_lt price (u32 _))) by lia);
    try (rewrite (proj2 (Z.leb_gt price (money s player))) by lia); cbn [negb]; try exact Hret; try rewrite Ho, Z.eqb_refl.
  all: apply runs_result; [by intros|]; intros o; apply ch_quiet, calm_emit.
Qed.

Lemma cancel_outcome s player creature id :
  sound known s -> runs (HandleAuctionRemoveItem w player creature id) s (fun _ s' => change w (CancelAuction player creature id) s s').
Proof.
  intros Hs. set (c := CancelAuction player creature id). destruct creature as [faction|]; [|apply runs_ret, ch_quiet, calm_refl].
  assert (forall error, error <> ERR_AUCTION_OK /\ error <> ERR_AUCTION_HIGHER_BID ->
    runs (SendAuctionCommandResult player None AUCTION_CANCEL error) (set_trans [] s) (fun _ s' => change w c s s')) as Hno.
  { intros error He. apply runs_result; [done|]. intros o. apply ch_quiet. etransitivity; [apply quiet_begin|apply calm_emit]. }
  destruct (AuctionsMap s !! (GetAuctionsMap w faction, id)) as [p|] eqn:Hp.
  - destruct (sound_find _ _ _ _ _ Hs Hp) as (a & Ha & _). destruct (decide (owner a = player)) as [Ho|Ho].
    + destruct ((0 <? bidder a) && negb (HasEnoughMoney s player (GetAuctionCut w a))) eqn:Em.
      * unfold HandleAuctionRemoveItem. repeat ah_step. unfold GetAuction, GetAItem. rewrite Hp. apply runs_bind, (runs_deref_auction _ _ a); [exact Ha|].
        rewrite Ho, Z.eqb_refl. cbn [negb]. destruct (sound_item _ _ _ _ _ _ Hs Hp Ha) as [Hin _]. rewrite bool_decide_eq_true_2 by done.
        rewrite Em. apply runs_ret, ch_quiet, quiet_begin.
      * apply (runs_mono _ _ _ _ (cancel_ended known w s _ id p a player faction Hs eq_refl Hp Ha Ho Em)).
        intros _ s'. by apply (ch_cancel _ _ _ _ _ id p a player (Some faction) eq_refl Hp Ha).
    + unfold HandleAuctionRemoveItem. repeat ah_step. unfold GetAuction. rewrite Hp. apply runs_bind, (runs_deref_auction _ _ a); [exact Ha|].
      rewrite (proj2 (Z.eqb_neq _ _) Ho). cbn [negb]. by apply Hno.
  - unfold HandleAuctionRemoveItem. repeat ah_step. unfold GetAuction. rewrite Hp. by apply Hno.
Qed.

Lemma UpdateHouse_outcome h s : sound known s -> runs (UpdateHouse w h) s (fun _ s' => rtc (closes w) s s').
Proof.
  intros Hs. unfold UpdateHouse. repeat ah_step. destruct (bool_decide _); [apply runs_ret; constructor|].
  generalize (expired_ids w (db s)). intros l.
  assert (forall s0, rtc (closes w) s s0 -> runs (mapM_ (UpdateOne w h) l) s0 (fun _ s' => rtc (closes w) s s')) as Hgen; [|apply Hgen; constructor].
  induction l as [|id l IH]; intros s0 H0; [by apply runs_ret|]. cbn [mapM_]. apply runs_bind. pose proof (all_closed_sound _ _ _ Hs H0) as Hs0.
  destruct (AuctionsMap s0 !! (h, id)) as [p|] eqn:Hp.
  - destruct (sound_find _ _ _ _ _ Hs0 Hp) as (a & Ha & _).
    apply (runs_mono _ _ _ _ (UpdateOne_ended known w s0 h id p a Hs0 (be_freed _ Hw) Hp Ha)). intros _ s1 H1. apply IH.
    eapply rtc_r; [exact H0|]. exact (cl_close _ _ _ h id p a Hp Ha H1).
  - unfold UpdateOne. repeat ah_step. unfold GetAuction. rewrite Hp. apply runs_ret. by apply IH.
Qed.

Lemma Update_outcome s : sound known s -> runs (Update w) s (fun _ s' => rtc (closes w) s s').
Proof.
  intros Hs. unfold Update. apply runs_bind, (runs_mono _ _ _ _ (UpdateHouse_outcome Horde_house s Hs)). intros _ s1 H1.
  pose proof (all_closed_sound _ _ _ Hs H1) as Hs1. apply runs_bind, (runs_mono _ _ _ _ (UpdateHouse_outcome Alliance_house s1 Hs1)).
  intros _ s2 H2. pose proof (all_closed_sound _ _ _ Hs1 H2) as Hs2. apply (runs_mono _ _ _ _ (UpdateHouse_outcome Neutral_house s2 Hs2)).
  intros _ s3 H3. do 2 (etransitivity; [eassumption|]). done.
Qed.

End Step.

(** A packet never reads an auction it has deleted. *)
Lemma packet_outcome w s c : catalogued w -> sound known s -> c <> Tick -> runs (perform w c) s (fun _ s' => change w c s s').
Proof.
  intros Hw Hs Hc. destruct c as [player cr au l b bo t|player cr id price|player cr id|]; cbn [perform]; [| | |done].
  - apply (runs_mono _ _ _ _ (sell_outcome known w Hw s player cr au l b bo t Hs)).
    intros _ s' [H|H]; [by apply ch_quiet|]. by apply (ch_sale _ _ _ _ player cr au l b bo t).
  - by apply bid_outcome.
  - by apply cancel_outcome.
Qed.

Lemma perform_outcome w (Hw : benign w) s c : sound known s -> runs (perform w c) s (fun _ s' => step w c s s').
Proof.
  intros Hs. destruct c; [apply packet_outcome; [by destruct Hw|done|done]..|]. by apply Update_outcome.
Qed.

(** ** When the memory of a closed auction is not left as it was *)

(** The program is the other, or it reads freed memory. *)
Definition same_or_freed (spoiled : Prop) (m m' : T unit) : Prop := forall s, m s = m' s \/ spoiled /\ exists s', m s = (Throw UseAfterFree, s').

Lemma same_or_freed_refl (F : Prop) m : same_or_freed F m m.
Proof. intros s. by left. Qed.

Lemma same_or_freed_bind {A} (F : Prop) (m : T A) f f' : (forall a, same_or_freed F (f a) (f' a)) -> same_or_freed F (m ≫= f) (m ≫= f').
Proof. intros H s. unfold mbind, M_bind. destruct (m s) as [[a|e] s1]; [apply H|by left]. Qed.

Lemma same_or_freed_then (F : Prop) m m' (f f' : unit -> T unit) :
  same_or_freed F m m' -> (forall a, same_or_freed F (f a) (f' a)) -> same_or_freed F (m ≫= f) (m' ≫= f').
Proof.
  intros Hm H s. unfold mbind, M_bind. destruct (Hm s) as [E|(HF & s' & E)]; rewrite E; [|right; split; [done|by exists s']].
  destruct (m' s) as [[a|e] s1]; [apply H|by left].
Qed.

Lemma same_or_freed_mapM {A} (F : Prop) (f f' : A -> T unit) l : (forall x, same_or_freed F (f x) (f' x)) -> same_or_freed F (mapM_ f l) (mapM_ f' l).
Proof. intros H. induction l as [|x l IH]; [apply same_or_freed_refl|]. by apply same_or_freed_then. Qed.

(** The same world with its freed memory left alone. *)
Definition left_alone (w : World) : World := {| w with freed_intact := fun _ => true |}.
Definition spoils (w : World) : Prop := exists a, freed_intact w a = false.

Lemma UpdateOne_or_freed w h id : same_or_freed (spoils w) (UpdateOne w h id) (UpdateOne (left_alone w) h id).
Proof.
  unfold UpdateOne. apply same_or_freed_bind. intros s. destruct (GetAuction s h id) as [p|]; [|apply same_or_freed_refl].
  apply same_or_freed_bind. intros a. do 5 (apply same_or_freed_bind; intros _).
  cbn [freed_intact left_alone]. destruct (freed_intact w a) eqn:E; [apply same_or_freed_refl|]. intros s'. right. split; [by exists a|by exists s'].
Qed.

Lemma Update_or_freed w : same_or_freed (spoils w) (Update w) (Update (left_alone w)).
Proof.
  assert (forall h, same_or_freed (spoils w) (UpdateHouse w h) (UpdateHouse (left_alone w) h)) as H.
  { intros h. unfold UpdateHouse. apply same_or_freed_bind. intros s. destruct (bool_decide _); [apply same_or_freed_refl|].
    apply same_or_freed_mapM. intros id. apply UpdateOne_or_freed. }
  unfold Update. apply same_or_freed_then; [done|]. intros _. by apply same_or_freed_then.
Qed.

Lemma closes_left_alone w s s' : rtc (closes (left_alone w)) s s' -> rtc (closes w) s s'.
Proof.
  intros H. induction H as [|s s1 s' [h id p a Hp Ha He] _ IH]; [constructor|]. eapply rtc_l; [|exact IH]. by apply (cl_close w s s1 h id p a).
Qed.

(** What a program does, unless it reads freed memory. *)
Definition runs_unless (spoiled : Prop) (m : T unit) (s : AH) (Q : AH -> Prop) : Prop :=
  match m s with (Ok _, s') => Q s' | (Throw f, _) => f = UseAfterFree /\ spoiled end.

Lemma runs_unless_mono (F F' : Prop) m s (P Q : AH -> Prop) : runs_unless F m s P -> (F -> F') -> (forall s', P s' -> Q s') -> runs_unless F' m s Q.
Proof. unfold runs_unless. destruct (m s) as [[[]|f] s']; [auto|]. intros [H1 H2]. auto. Qed.

Lemma runs_unless_intro (F : Prop) m s (Q : AH -> Prop) : runs m s (fun _ s' => Q s') -> runs_unless F m s Q.
Proof. unfold runs, runs_unless. by destruct (m s) as [[]]. Qed.

Lemma runs_unless_then (F : Prop) m m2 s (P Q : AH -> Prop) :
  runs_unless F m s P -> (forall s1, P s1 -> runs_unless F m2 s1 Q) -> runs_unless F (m ;; m2) s Q.
Proof.
  unfold runs_unless, mbind, M_bind. destruct (m s) as [[[]|f] s1]; [|by intros H _]. intros H1 H2. exact (H2 s1 H1).
Qed.

(** One command in any world. *)
Lemma perform_anywhere w s c :
  catalogued w -> sound known s -> runs_unless (c = Tick /\ spoils w) (perform w c) s (fun s' => step w c s s').
Proof.
  intros Hw Hs. assert (c = Tick \/ c <> Tick) as [->|Hc] by (destruct c; [by right..|by left]).
  - assert (benign (left_alone w)) as Hb by by split. pose proof (Update_outcome (left_alone w) Hb s Hs) as H. cbn [perform step].
    unfold runs_unless. destruct (Update_or_freed w s) as [->|(Hf & s' & ->)]; [|done].
    unfold runs in H. destruct (Update (left_alone w) s) as [[[]|f] s']; [|done]. by apply closes_left_alone.
  - apply runs_unless_intro, (runs_mono _ _ _ _ (packet_outcome w s c Hw Hs Hc)). intros _ s' H. destruct c; done.
Qed.

(** ** Histories *)

(** [ok] of the states before and after every command. *)
Fixpoint along (ok : World -> ah_cmd -> AH -> AH -> Prop) (l : list (World * ah_cmd)) (s : AH) : Prop :=
  match l with [] => True | (w, c) :: l' => let s' := (perform w c s).2 in ok w c s s' /\ along ok l' s' end.

(** A relation that every step keeps, along a history. *)
Lemma history_runs (R : AH -> AH -> Prop) `{!Reflexive R, !Transitive R} (ok : World -> ah_cmd -> AH -> AH -> Prop) l s :
  (forall w c s s', sound known s -> ok w c s s' -> step w c s s' -> R s s') ->
  sound known s -> Forall (fun wc => benign wc.1) l ->
  along ok l s ->
  runs (history l) s (fun _ s' => R s s' /\ sound known s').
Proof.
  intros HR. revert s. induction l as [|[w c] l IH]; intros s Hs HF Hok; [apply runs_ret; by split|]. apply Forall_cons in HF as [Hw HF].
  destruct (runs_inv _ _ _ (perform_outcome w Hw s c Hs)) as ([] & s1 & E1 & H1).
  unfold history. cbn [mapM_ fst snd]. apply runs_bind, (runs_eq _ _ _ _ _ E1). cbn [along] in Hok. rewrite E1 in Hok. destruct Hok as [Hok1 Hok2].
  apply (runs_mono _ _ _ _ (IH s1 (step_sound _ _ _ _ Hs H1) HF Hok2)). intros _ s' [H2 H3]. split; [|done].
  etransitivity; [|exact H2]. exact (HR w c s s1 Hs Hok1 H1).
Qed.
End History.

