(* ===== verification/AuctionItems.v ===== *)
(** * AuctionItems: where the items are

    [units d e]: how many of the item [e] the tables [d] hold somewhere, in the bags of a
    character, in a mail or in an auction.  Every command, and every state of the tables
    on its way, holds no more than there was ([crash_safe]). *)

From S2P Require Import Prelude.
From S2P Require Import AuctionHouse AuctionHandler AuctionSpec AuctionEnd AuctionSafety AuctionBid AuctionSell AuctionList AuctionHistory.

(** ** Sums with finite support *)

Fixpoint zsum {A} (f : A -> Z) (l : list A) : Z := match l with [] => 0 | x :: l' => f x + zsum f l' end.

Lemma zsum_app {A} (f : A -> Z) l l' : zsum f (l ++ l') = zsum f l + zsum f l'.
Proof. induction l as [|x l IH]; [done|]. cbn. rewrite IH. lia. Qed.

Lemma zsum_perm {A} (f : A -> Z) l l' : l ≡ₚ l' -> zsum f l = zsum f l'.
Proof. induction 1; cbn; lia. Qed.

Lemma zsum_le {A} (f f' : A -> Z) l : (forall x, x ∈ l -> f x <= f' x) -> zsum f l <= zsum f' l.
Proof.
  induction l as [|x l IH]; intros H; [done|]. cbn. pose proof (H x ltac:(constructor)).
  pose proof (IH (fun y Hy => H y (list_elem_of_further _ _ _ Hy))). lia.
Qed.

Definition ssum (f : Z -> Z) (X : gset Z) : Z := zsum f (elements X).

Lemma ssum_union f X Y : X ## Y -> ssum f (X ∪ Y) = ssum f X + ssum f Y.
Proof. intros H. unfold ssum. rewrite <- zsum_app. apply zsum_perm. by apply elements_disj_union. Qed.

Lemma ssum_le f f' X : (forall x, x ∈ X -> f x <= f' x) -> ssum f X <= ssum f' X.
Proof. intros H. apply zsum_le. intros x Hx%elem_of_elements. auto. Qed.

Lemma ssum_ext f f' X : (forall x, x ∈ X -> f x = f' x) -> ssum f X = ssum f' X.
Proof. intros H. apply Z.le_antisymm; apply ssum_le; intros x Hx; rewrite (H x Hx); lia. Qed.

Lemma ssum_zero f X : (forall x, x ∈ X -> f x = 0) -> ssum f X = 0.
Proof. intros H. rewrite (ssum_ext _ (fun _ => 0) _ H). unfold ssum. by induction (elements X). Qed.

Lemma ssum_support f X Y : X ⊆ Y -> (forall x, x ∉ X -> f x = 0) -> ssum f Y = ssum f X.
Proof.
  intros HXY H. rewrite (union_difference_L X Y HXY), ssum_union by (apply disjoint_difference_r1; done).
  rewrite (ssum_zero f (Y ∖ X)); [lia|]. intros x [_ Hx]%elem_of_difference. auto.
Qed.

Lemma ssum_change f f' x X : x ∈ X -> (forall y, y <> x -> f' y = f y) -> ssum f' X = ssum f X - f x + f' x.
Proof.
  intros Hx H. assert ({[x]} ⊆ X) as Hsub by by apply singleton_subseteq_l.
  rewrite (union_difference_L {[x]} X Hsub), !ssum_union by (apply disjoint_difference_r1; done).
  rewrite (ssum_ext f' f (X ∖ _)); [unfold ssum at 1 3; rewrite elements_singleton; cbn; lia|].
  intros y [_ Hy%not_elem_of_singleton]%elem_of_difference. auto.
Qed.

(** ** Units of an item *)

(** The item [g] is somewhere. *)
Definition located (d : DB) (g : Z) : bool :=
  bool_decide (is_Some (character_inventory d !! g)) || bool_decide (is_Some (mail_items d !! g)) ||
  bool_decide (map_Exists (fun _ r => itemguid r = g) (auctionhouse d)).

Definition contribution (d : DB) (e g : Z) : Z :=
  match item_instance d !! g with Some r => if located d g && (r_entry r =? e) then r_count r else 0 | None => 0 end.

Definition units (d : DB) (e : Z) : Z := ssum (contribution d e) (dom (item_instance d)).

Lemma contribution_none d e g : g ∉ dom (item_instance d) -> contribution d e g = 0.
Proof. intros H%not_elem_of_dom. unfold contribution. by rewrite H. Qed.

Lemma units_over d e X : dom (item_instance d) ⊆ X -> units d e = ssum (contribution d e) X.
Proof. intros H. symmetry. apply ssum_support; [done|]. apply contribution_none. Qed.

Lemma units_le d d' e : (forall g, contribution d' e g <= contribution d e g) -> units d' e <= units d e.
Proof.
  intros H. rewrite (units_over d e (dom (item_instance d) ∪ dom (item_instance d'))), (units_over d' e (dom (item_instance d) ∪ dom (item_instance d')));
    [|apply union_subseteq_r|apply union_subseteq_l]. apply ssum_le. auto.
Qed.

Lemma units_eq d d' e : (forall g, contribution d' e g = contribution d e g) -> units d' e = units d e.
Proof. intros H. apply Z.le_antisymm; apply units_le; intros g; rewrite H; lia. Qed.

Lemma units_change d d' e g :
  (forall g', g' <> g -> contribution d' e g' = contribution d e g') -> units d' e = units d e - contribution d e g + contribution d' e g.
Proof.
  intros H. set (X := {[g]} ∪ (dom (item_instance d) ∪ dom (item_instance d'))).
  rewrite (units_over d e X), (units_over d' e X); [|unfold X; clear; set_solver..]. apply ssum_change; [unfold X; clear; set_solver|done].
Qed.

Lemma located_spec d g :
  located d g = true <-> is_Some (character_inventory d !! g) \/ is_Some (mail_items d !! g) \/ exists id r, auctionhouse d !! id = Some r /\ itemguid r = g.
Proof. unfold located. rewrite !orb_true_iff, !bool_decide_eq_true. tauto. Qed.

(** The same contribution when the row says the same and the item is somewhere in both or
    in neither. *)
Lemma contribution_eq d d' e g :
  ((fun r => (r_entry r, r_count r)) <$> item_instance d' !! g) = ((fun r => (r_entry r, r_count r)) <$> item_instance d !! g) ->
  (located d' g = true <-> located d g = true) -> contribution d' e g = contribution d e g.
Proof.
  unfold contribution. intros E HL. assert (located d' g = located d g) as -> by (destruct (located d' g), (located d g); intuition congruence).
  destruct (item_instance d' !! g), (item_instance d !! g); try done. by injection E as -> ->.
Qed.

Lemma units_alike d d' e : alike d d' -> units d' e = units d e.
Proof.
  intros []. apply units_eq. intros g. apply contribution_eq.
  - apply (f_equal (fun m => m !! g)) in al_items. by rewrite !lookup_fmap in al_items.
  - by rewrite !located_spec, al_auctionhouse, al_inventory, al_mail_items.
Qed.

Lemma located_alike d d' g : alike d d' -> located d' g = located d g.
Proof. intros []. unfold located. by rewrite al_inventory, al_mail_items, al_auctionhouse. Qed.

(** ** Counts that fit *)

Definition counts_ok (d : DB) : Prop := forall g r, item_instance d !! g = Some r -> 0 <= r_count r < 2 ^ 32.

Lemma counts_alike d d' : alike d d' -> counts_ok d -> counts_ok d'.
Proof.
  intros [_ E _ _ _] H g r Hr. apply (f_equal (fun m => m !! g)) in E. rewrite !lookup_fmap, Hr in E. cbn in E.
  destruct (item_instance d !! g) as [r0|] eqn:E0; [|done]. injection E as _ ->. exact (H _ _ E0).
Qed.

Lemma contribution_nonneg d e g : counts_ok d -> 0 <= contribution d e g.
Proof. unfold contribution. intros H. destruct (item_instance d !! g) as [r|] eqn:E; [|lia]. destruct (_ && _); [apply (H _ _ E)|lia]. Qed.

(** The items of what is held, sold or mailed. *)
Lemma contribution_says d e g en c : row_says d g en c -> located d g = true -> contribution d e g = if en =? e then c else 0.
Proof. intros (r & Hr & <- & <-) HL. unfold contribution. by rewrite Hr, HL. Qed.

(** ** Along a command

    [crash_safe e s s']: no state of the tables on the way from [s] to [s'] holds more of
    [e] than [s]. *)
Definition crash_safe (e : Z) (s s' : AH) : Prop :=
  (exists T, tables s' = tables s ++ T /\ Forall (fun d => units d e <= units (db s) e) T) /\ units (db s') e <= units (db s) e.

#[export] Instance crash_safe_refl e : Reflexive (crash_safe e).
Proof. intros s. split; [|done]. exists []. by rewrite app_nil_r. Qed.

#[export] Instance crash_safe_trans e : Transitive (crash_safe e).
Proof.
  intros s1 s2 s3 [(T1 & E1 & F1) H1] [(T2 & E2 & F2) H2]. split; [|lia]. exists (T1 ++ T2). split; [by rewrite E2, E1, app_assoc|].
  apply Forall_app. split; [done|]. eapply Forall_impl; [exact F2|]. cbn. lia.
Qed.

Section Units.
Context (known : Z -> Prop) (e : Z).

(** *** The end of an auction *)

Section Ended.
Context h id p a ls pu s s' (Hs : sound known s) (Hp : AuctionsMap s !! (h, id) = Some p) (Ha : auctions s !! p = Some a)
  (Hc : carries ls (itemGUIDLow a)) (He : ended h id p (itemGUIDLow a) ls pu s s').

Lemma row_of_item id' r : auctionhouse (db s) !! id' = Some r -> itemguid r = itemGUIDLow a -> id' = id.
Proof.
  intros (h' & a' & Hl & ->)%(so_row _ _ Hs) E. exact (so_distinct _ _ Hs _ _ _ _ _ _ Hl (ex_intro _ p (conj Hp Ha)) E).
Qed.

Lemma sold_located : located (db s) (itemGUIDLow a) = true.
Proof. apply located_spec. right. right. exists id, (row_of a). split; [|done]. apply (so_row _ _ Hs). exists h, a. split; [by exists p|done]. Qed.

Lemma without_other g : g <> itemGUIDLow a -> contribution (without_row id (db s)) e g = contribution (db s) e g.
Proof.
  intros Hg. apply contribution_eq; [done|]. rewrite !located_spec. cbn. split; (intros [H|[H|(i & r & Hr & E)]]; [by left|by right; left|]); right; right.
  - apply lookup_delete_Some in Hr as [_ Hr]. eauto.
  - exists i, r. split; [|done]. apply lookup_delete_Some. split; [|done]. intros <-. apply Hg. rewrite <- E.
    destruct (proj1 (so_row _ _ Hs _ _) Hr) as (h' & a' & Hl & ->). cbn.
    by destruct (sound_listed_unique _ _ _ _ _ _ _ Hs (ex_intro _ p (conj Hp Ha)) Hl) as [_ ->].
Qed.

Lemma without_sold : located (without_row id (db s)) (itemGUIDLow a) = false.
Proof.
  destruct (so_item _ _ Hs h id a ltac:(by exists p)) as [Hin _].
  apply not_true_iff_false. rewrite located_spec. cbn. intros [[x H]|[[x H]|(i & r & [Hne Hr]%lookup_delete_Some & E)]].
  - by destruct (so_inventory _ _ Hs (itemGUIDLow a) ltac:(eauto)).
  - by destruct (so_mailed _ _ Hs (itemGUIDLow a) ltac:(eauto)).
  - apply Hne. symmetry. exact (row_of_item _ _ Hr E).
Qed.

Lemma without_units : counts_ok (db s) -> units (without_row id (db s)) e <= units (db s) e.
Proof.
  intros Hok. apply units_le. intros g. destruct (decide (g = itemGUIDLow a)) as [->|Hg]; [|by rewrite without_other].
  etransitivity; [|exact (contribution_nonneg _ _ _ Hok)]. unfold contribution. rewrite without_sold. cbn. by destruct (item_instance _ !! _).
Qed.

Lemma post_other g : g <> itemGUIDLow a -> contribution (post ls (without_row id (db s))) e g = contribution (db s) e g.
Proof.
  intros Hg. rewrite <- without_other by done. pose proof (post_frame ls (without_row id (db s))) as (F1 & F2 & F3 & _).
  apply contribution_eq; [by rewrite F2|]. rewrite !located_spec, F1, F3. rewrite <- !not_eq_None_Some, post_item.
  assert (g ∉ omap snd ls) as Hn by (destruct Hc as [->| ->]; [apply not_elem_of_nil|by rewrite list_elem_of_singleton]).
  tauto.
Qed.

(** The item is in a mail afterwards, or nowhere. *)
Lemma post_lost : omap snd ls = [] -> located (post ls (without_row id (db s))) (itemGUIDLow a) = false.
Proof.
  intros E. pose proof (post_frame ls (without_row id (db s))) as (F1 & F2 & F3 & _).
  pose proof without_sold as HL. apply not_true_iff_false in HL. apply not_true_iff_false. intros HL'%located_spec. apply HL, located_spec.
  rewrite F1, F3 in HL'. destruct HL' as [H|[[x H]|H]]; [by left| |by right; right]. right; left.
  destruct (mail_items (without_row id (db s)) !! itemGUIDLow a) eqn:E'; [eauto|]. exfalso.
  assert (mail_items (post ls (without_row id (db s))) !! itemGUIDLow a = None) as Hn; [|congruence].
  apply post_item. split; [done|]. rewrite E. apply not_elem_of_nil.
Qed.

Lemma post_sold :
  contribution (post ls (without_row id (db s))) e (itemGUIDLow a) = if decide (omap snd ls = []) then 0 else contribution (db s) e (itemGUIDLow a).
Proof.
  pose proof (post_frame ls (without_row id (db s))) as (F1 & F2 & F3 & _).
  destruct (decide (omap snd ls = [])) as [E|E].
  - unfold contribution. rewrite (post_lost E). by destruct (item_instance _ !! _).
  - destruct Hc as [Hc'|Hc']; [done|]. apply contribution_eq; [by rewrite F2|]. rewrite sold_located. split; [done|]. intros _. apply located_spec.
    right; left. rewrite <- not_eq_None_Some, post_item, Hc'. intros [_ H]. apply H. constructor.
Qed.

Lemma post_units :
  units (post ls (without_row id (db s))) e =
  if decide (omap snd ls = []) then units (db s) e - contribution (db s) e (itemGUIDLow a) else units (db s) e.
Proof.
  rewrite (units_change (db s) (post ls (without_row id (db s))) e (itemGUIDLow a)) by exact post_other. rewrite post_sold. destruct (decide _); lia.
Qed.

Lemma ended_units :
  units (db s') e = if decide (omap snd ls = []) then units (db s) e - contribution (db s) e (itemGUIDLow a) else units (db s) e.
Proof. rewrite (units_alike _ _ e (en_db _ _ _ _ _ _ _ _ He)). apply post_units. Qed.

Lemma ended_lost : omap snd ls = [] -> located (db s') (itemGUIDLow a) = false.
Proof. intros E. rewrite (located_alike _ _ _ (en_db _ _ _ _ _ _ _ _ He)). by apply post_lost. Qed.

Lemma ended_crash_safe : counts_ok (db s) -> crash_safe e s s'.
Proof.
  intros Hok. assert (units (post ls (without_row id (db s))) e <= units (db s) e) as Hpost.
  { rewrite post_units. pose proof (contribution_nonneg _ e (itemGUIDLow a) Hok). destruct (decide _); lia. }
  split; [|by rewrite (units_alike _ _ e (en_db _ _ _ _ _ _ _ _ He))].
  destruct (en_tables _ _ _ _ _ _ _ _ He) as (T & ET & HT). exists T. split; [done|]. eapply Forall_impl; [exact HT|].
  intros d [H|[H|H]]; rewrite (units_alike _ _ e H); [lia|by apply without_units|done].
Qed.

Lemma ended_counts : counts_ok (db s) -> counts_ok (db s').
Proof.
  intros Hok. apply (counts_alike _ _ (en_db _ _ _ _ _ _ _ _ He)). intros g r. pose proof (post_frame ls (without_row id (db s))) as (_ & -> & _).
  apply Hok.
Qed.
End Ended.

(** *** A bid *)

Lemma raised_post_units id b l ls d : omap snd ls = [] -> units (post ls (bid_row id b l d)) e = units d e.
Proof.
  intros Hc. pose proof (post_frame ls (bid_row id b l d)) as (F1 & F2 & F3 & _). apply units_eq. intros g. apply contribution_eq; [by rewrite F2|].
  rewrite !located_spec, F1, F3. rewrite <- !not_eq_None_Some, post_item, Hc. cbn.
  assert ((exists i r, alter (fun r => mkRow (auctioneerguid r) (itemguid r) (itemowner r) (buyoutprice r) (time_ r) b l (row_startbid r) (row_deposit r)) id
             (auctionhouse d) !! i = Some r /\ itemguid r = g) <-> (exists i r, auctionhouse d !! i = Some r /\ itemguid r = g)) as ->.
  { split; intros (i & r & Hr & E).
    - apply lookup_alter_Some in Hr as [(<- & r0 & Hr0 & ->)|[_ Hr]]; eauto.
    - destruct (decide (id = i)) as [->|Hne]; [|exists i, r; by rewrite lookup_alter_ne].
      eexists i, _. rewrite lookup_alter_eq, Hr. split; [reflexivity|done]. }
  pose proof (not_elem_of_nil (A := Z) g). tauto.
Qed.

Lemma raised_units id p a' ls pu s s' : omap snd ls = [] -> raised id p a' ls pu s s' -> units (db s') e = units (db s) e /\ crash_safe e s s'.
Proof.
  intros Hc Hr. assert (units (db s') e = units (db s) e) as E.
  { rewrite (units_alike _ _ e (ra_db _ _ _ _ _ _ _ Hr)). by apply raised_post_units. }
  split; [done|]. split; [|lia]. destruct (ra_tables _ _ _ _ _ _ _ Hr) as (T & ET & HT). exists T. split; [done|].
  eapply Forall_impl; [exact HT|]. intros d [H|H]; rewrite (units_alike _ _ e H); [lia|]. by rewrite raised_post_units.
Qed.

Lemma raised_counts id p a' ls pu s s' : raised id p a' ls pu s s' -> counts_ok (db s) -> counts_ok (db s').
Proof.
  intros Hr Hok. apply (counts_alike _ _ (ra_db _ _ _ _ _ _ _ Hr)). intros g r.
  pose proof (post_frame ls (bid_row id (bidder a') (bid a') (db s))) as (_ & -> & _). apply Hok.
Qed.
End Units.
