(* ===== verification/AuctionSales.v ===== *)
(** * AuctionSales: the items of a sale

    A sale moves units from the bags to the house: one transaction when the item itself is
    sold, and when it is a clone each source stack loses what the clone gets, provided the
    packet names no stack twice. *)

From S2P Require Import Prelude.
From S2P Require Import AuctionHouse AuctionHandler AuctionSpec AuctionEnd AuctionSafety AuctionBid AuctionSell AuctionList AuctionHistory AuctionItems.

(** ** One source stack *)

Lemma located_removed g d g' : g' <> g -> located (removed g d) g' = true <-> located d g' = true.
Proof. intros Hne. rewrite !located_spec. cbn. by rewrite lookup_delete_ne. Qed.

Lemma removed_units e g d en c : row_says d g en c -> located d g = true -> units (removed g d) e = units d e - if en =? e then c else 0.
Proof.
  intros Hr HL. rewrite (units_change d (removed g d) e g).
  - rewrite (contribution_says d e g en c Hr HL). unfold contribution. cbn. rewrite lookup_delete_eq. lia.
  - intros g' Hne. apply contribution_eq; [cbn; by rewrite lookup_delete_ne|by apply located_removed].
Qed.

Lemma rewritten_lookup g i fresh d g' : g' <> g -> item_instance (rewritten g i fresh d) !! g' = item_instance d !! g'.
Proof. intros Hne. cbn. destruct fresh; by rewrite ?lookup_insert_ne, ?lookup_alter_ne by done. Qed.

Lemma rewritten_says g i fresh d : is_Some (item_instance d !! g) -> row_says (rewritten g i fresh d) g (i_entry i) (i_count i).
Proof.
  intros [r Hr]. exists (item_row i). cbn. destruct fresh; [by rewrite lookup_insert_eq|]. by rewrite lookup_alter_eq, Hr.
Qed.

Lemma rewritten_units e g i fresh d en c :
  row_says d g en c -> located d g = true -> en = i_entry i -> units (rewritten g i fresh d) e = units d e - if en =? e then c - i_count i else 0.
Proof.
  intros Hr HL ->. rewrite (units_change d (rewritten g i fresh d) e g).
  - rewrite (contribution_says d e g _ c Hr HL). rewrite (contribution_says (rewritten g i fresh d) e g (i_entry i) (i_count i)); [destruct (_ =? e); lia| |exact HL].
    apply rewritten_says. destruct Hr as (r & Hr & _). eauto.
  - intros g' Hne. apply contribution_eq; [by rewrite rewritten_lookup|done].
Qed.

(** A stack in somebody's bags, with the row it should have. *)
Definition stack (s : AH) (g en n : Z) : Prop :=
  (exists i, objects s !! g = Some i /\ i_entry i = en /\ i_count i = n) /\ row_says (db s) g en n /\ located (db s) g = true.

Lemma take_one_units e s s' g c en n :
  took_one g c s s' -> stack s g en n -> 0 <= c <= n -> n < 2 ^ 32 -> units (db s') e = units (db s) e - if en =? e then c else 0.
Proof.
  intros H ((i & Hi & Hen & Hn) & Hr & HL) Hc Hn32. destruct (to_cases _ _ _ _ H) as (i' & Hi' & Hcase). rewrite Hi in Hi'. injection Hi' as <-.
  destruct Hcase as [(Ec & _ & ->)|(Ec & _ & ->)].
  - rewrite (removed_units e g (db s) en n Hr HL). destruct (en =? e); lia.
  - rewrite (rewritten_units e g (lowered c i) _ (db s) en n Hr HL) by done. cbn. rewrite Hn, wrap_small by lia. destruct (en =? e); lia.
Qed.

Lemma take_one_stack s s' g c g' en n : took_one g c s s' -> g' <> g -> stack s g' en n -> stack s' g' en n.
Proof.
  intros H Hne ((i & Hi & Hen & Hn) & (r & Hr & Hrr) & HL). destruct (to_cases _ _ _ _ H) as (i' & Hi' & [(_ & Eo & Ed)|(_ & Eo & Ed)]).
  - split; [exists i; by rewrite Eo, lookup_insert_ne|]. rewrite Ed. split; [exists r; cbn; by rewrite lookup_delete_ne|]. by apply located_removed.
  - split; [exists i; by rewrite Eo, lookup_insert_ne|]. rewrite Ed. split; [exists r; by rewrite rewritten_lookup|exact HL].
Qed.

Lemma take_one_counts s s' g c : took_one g c s s' -> counts_ok (db s) -> counts_ok (db s').
Proof.
  intros H Hok g' r. destruct (to_cases _ _ _ _ H) as (i & Hi & [(_ & _ & ->)|(_ & _ & ->)]); cbn.
  - intros [_ Hr]%lookup_delete_Some. exact (Hok _ _ Hr).
  - assert (0 <= r_count (item_row (lowered c i)) < 2 ^ 32) as Hrow by (apply wrap_range; lia).
    destruct (i_state i); intros Hr; [apply lookup_alter_Some in Hr as [(_ & ? & _ & ->)|[_ Hr]]|apply lookup_alter_Some in Hr as [(_ & ? & _ & ->)|[_ Hr]]
      |apply lookup_insert_Some in Hr as [[_ <-]|[_ Hr]]]; try exact Hrow; exact (Hok _ _ Hr).
Qed.

(** *** All of them *)

Lemma take_all_inv x items s s' :
  is_Some (objects s !! x.1) -> mapM_ take_from (x :: items) s = (Ok tt, s') ->
  exists s1, took_one x.1 x.2 s s1 /\ mapM_ take_from items s1 = (Ok tt, s').
Proof.
  intros Hob E. destruct x as [g c]. destruct (runs_inv _ _ _ (take_from_runs g c s Hob)) as ([] & s1 & E1 & H1).
  cbn [mapM_] in E. rewrite (bind_ok _ _ _ _ _ E1) in E. by exists s1.
Qed.

Lemma take_all_units e en items s s' :
  NoDup items.*1 -> (forall x, x ∈ items -> exists n, stack s x.1 en n /\ 0 <= x.2 <= n /\ n < 2 ^ 32) -> mapM_ take_from items s = (Ok tt, s') ->
  units (db s') e = (units (db s) e - if en =? e then zsum snd items else 0) /\
  exists T, tables s' = tables s ++ T /\ Forall (fun d => units d e <= units (db s) e) T.
Proof.
  revert s. induction items as [|x items IH]; intros s Hnd Hst E.
  { cbn in E. injection E as <-. split; [cbn; destruct (_ =? _); lia|]. exists []. by rewrite app_nil_r. }
  cbn [fmap list_fmap] in Hnd. apply NoDup_cons in Hnd as [Hx Hnd]. destruct (Hst x ltac:(constructor)) as (n & Hn & Hc & Hn32).
  destruct (take_all_inv x items s s') as (s1 & H1 & E1); [destruct Hn as [(i & Hi & _) _]; eauto|done|].
  pose proof (take_one_units e s s1 _ _ en n H1 Hn Hc Hn32) as Hu.
  destruct (IH s1 Hnd) as [IH1 (T & ET & HT)]; [|done|].
  { intros y Hy. destruct (Hst y ltac:(by constructor)) as (m & Hm & Hm2). exists m. split; [|done].
    apply (take_one_stack _ _ _ _ _ _ _ H1); [|done]. intros Exy. apply Hx. rewrite <- Exy. by apply list_elem_of_fmap_2. }
  cbn [zsum]. split; [destruct (_ =? _); lia|]. exists (db s1 :: T). rewrite ET, (to_tables _ _ _ _ H1), <- app_assoc. split; [done|].
  apply Forall_cons. split; [destruct (_ =? _); lia|]. eapply Forall_impl; [exact HT|]. cbn. intros d. destruct (_ =? _); lia.
Qed.

Lemma take_all_counts items s s' :
  (forall x, x ∈ items -> is_Some (objects s !! x.1)) -> mapM_ take_from items s = (Ok tt, s') -> counts_ok (db s) -> counts_ok (db s').
Proof.
  revert s. induction items as [|x items IH]; intros s Hob E Hok; [by injection E as <-|].
  destruct (take_all_inv x items s s' (Hob x ltac:(constructor)) E) as (s1 & H1 & E1).
  apply (IH s1); [|done|exact (take_one_counts _ _ _ _ H1 Hok)]. intros y Hy.
  apply (tk_some _ _ _ (took_one_took [x.1] _ _ _ _ ltac:(constructor) H1)), Hob. by constructor.
Qed.

(** ** Sales *)

Section Sales.
Context (known : Z -> Prop) (w : World) (e : Z).

(** No two entries of the packet name the same item. *)
Definition distinct (packet : list (Z * Z)) : Prop := NoDup packet.*1 /\ Forall (fun x => 0 <= x.2) packet.

Lemma offered_distinct player en s packet gs : Forall2 (offered w player en s) packet gs -> NoDup packet.*1 -> NoDup gs.
Proof.
  intros HF. induction HF as [|x g l gs Hx HF IH]; [constructor|]. cbn [fmap list_fmap]. intros [Hn Hnd]%NoDup_cons. apply NoDup_cons. split; [|auto].
  intros Hg. apply Hn. clear Hn Hnd IH. destruct Hx as (Hx%GetItemByGuid_Some & _). destruct Hx as (_ & Ex & _).
  induction HF as [|y g' l gs Hy HF IH]; [by apply not_elem_of_nil in Hg|]. apply list_elem_of_In in Hg as [->|Hg].
  - destruct Hy as (Hy%GetItemByGuid_Some & _). destruct Hy as (_ & Ey & _). cbn [fmap list_fmap]. rewrite Ex, <- Ey. constructor.
  - cbn [fmap list_fmap]. constructor. apply IH. by apply list_elem_of_In.
Qed.

Lemma sum_counts_small packet n : plausible packet -> Forall (fun x => 0 <= x.2) packet -> 0 <= n -> n + 1000 * Z.of_nat (length packet) < 2 ^ 32 ->
  sum_counts n packet = n + zsum snd packet.
Proof.
  intros [_ Hp] Hnn. revert n. induction packet as [|x l IH]; intros n Hn Hlen; [cbn; lia|].
  apply Forall_cons in Hp as [[_ Hx] Hp]. apply Forall_cons in Hnn as [Hx0 Hnn]. cbn [length] in Hlen. cbn [sum_counts foldl zsum].
  fold (sum_counts (u32 (n + x.2)) l). change (2 ^ 32) with 4294967296 in *. rewrite wrap_small by (change (2 ^ 32) with 4294967296; lia).
  rewrite IH; [lia|done|done|lia|lia].
Qed.

Lemma zsum_zip {A} (gs : list A) (l : list (Z * Z)) : length gs = length l -> zsum snd (zip gs l.*2) = zsum snd l.
Proof. revert l. induction gs as [|g gs IH]; intros [|x l] H; try done. cbn. rewrite IH; [done|]. by injection H. Qed.

(** The new row is in the house. *)
Lemma put_up_located h a pu s s' : put_up known h a pu s s' -> located (db s') (itemGUIDLow a) = true.
Proof.
  intros H. apply located_spec. right; right. exists (Id a), (row_of a). by rewrite (pu_auctionhouse _ _ _ _ _ _ H), lookup_insert_eq.
Qed.

(** Nothing else moves. *)
Lemma put_up_other_rows h a pu s s' id r :
  sound known s -> put_up known h a pu s s' -> itemguid r <> itemGUIDLow a ->
  auctionhouse (db s') !! id = Some r <-> auctionhouse (db s) !! id = Some r.
Proof.
  intros Hs H Hne. rewrite (pu_auctionhouse _ _ _ _ _ _ H), lookup_insert_Some. split; [intros [[_ <-]|[_ ?]]; done|]. intros Hr. right. split; [|done].
  intros <-. apply (so_row _ _ Hs) in Hr as (h' & a' & (p & Hp & _) & _). by destruct (put_up_old_id _ _ _ _ _ _ Hs H h'); eauto.
Qed.

Lemma moved_units h a pu s s' :
  sound known s -> put_up known h a pu s s' -> moved a s s' -> (exists i p, objects s !! itemGUIDLow a = Some i /\ i_holder i = Some p /\
    i_entry i = itemEntry a /\ i_count i = itemCount a) ->
  units (db s') e = units (db s) e /\ crash_safe e s s'.
Proof.
  intros Hs H (d1 & Hd1 & Ht & Hrows & Hinv) (i & p & Hi & Hp & Hie & Hic).
  destruct (so_held _ _ Hs _ _ _ Hi Hp) as [Hin Hsays]. rewrite Hie, Hic in Hsays.
  assert (located (db s) (itemGUIDLow a) = true) as HL by (apply located_spec; by left).
  assert (units (db s') e = units (db s) e) as E.
  { rewrite (units_change (db s) (db s') e (itemGUIDLow a)).
    - rewrite (contribution_says _ e _ _ _ Hsays HL), (contribution_says _ e _ _ _ (pu_row _ _ _ _ _ _ H) (put_up_located _ _ _ _ _ H)). lia.
    - intros g Hg. apply contribution_eq; [by rewrite Hrows|]. rewrite !located_spec, Hinv, (pu_mail_items _ _ _ _ _ _ H), lookup_delete_ne by done.
      split; (intros [?|[?|(id & r & Hr & E)]]; [by left|by right; left|]); right; right; exists id, r; (split; [|done]);
        apply (put_up_other_rows _ _ _ _ _ _ _ Hs H); congruence. }
  split; [done|]. split; [|lia]. exists [d1; db s']. split; [done|].
  apply Forall_cons. split; [by rewrite (units_alike _ _ e Hd1)|]. apply Forall_singleton. lia.
Qed.

Lemma cloned_units h items a pu s s' :
  sound known s -> put_up known h a pu s s' -> cloned items a s s' -> itemGUIDLow a = next_item s -> itemCount a = zsum snd items ->
  NoDup items.*1 -> (forall x, x ∈ items -> x.1 < next_item s /\ exists n, stack s x.1 (itemEntry a) n /\ 0 <= x.2 <= n /\ n < 2 ^ 32) ->
  units (db s') e = units (db s) e /\ crash_safe e s s'.
Proof.
  intros Hs H (s0 & s1 & d1 & Erun & Edb & Etab & Hobj & Hd1 & Ht & (r & Hrows & Hre & Hrc) & Hinv & Hah & Hmi) Hg Hsum Hnd Hst.
  destruct (take_all_units e (itemEntry a) items s0 s1 Hnd) as [Hu (T & ET & HT)]; [|done|].
  { intros x Hx. destruct (Hst x Hx) as (Hlt & n & (Hn1 & Hn2) & Hn3). exists n. split; [|done]. split; [by rewrite Hobj|by rewrite Edb]. }
  rewrite Edb in *. rewrite Etab in ET.
  assert (item_instance d1 !! next_item s = None) as Hnone.
  { destruct (item_instance d1 !! next_item s) as [x|] eqn:E; [|done]. exfalso.
    destruct (proj1 (alike_items _ _ _ Hd1) (ex_intro _ x E)) as [y Hy].
    assert (exists gs, took gs s0 s1 /\ next_item s ∉ gs) as (gs & Htk & Hnot).
    { exists items.*1. split; [|by intros (z & Ez & Hz)%list_elem_of_fmap; destruct (Hst z Hz); lia].
      assert (runs (mapM_ take_from items) s0 (fun _ s' => took items.*1 s0 s')) as Hrun.
      { apply take_all_runs. intros z Hz. destruct (Hst z Hz) as (Hlt & n & [(i & Hi & _) _] & _). rewrite Hobj by done. eauto. }
      unfold runs in Hrun. by rewrite Erun in Hrun. }
    destruct (tk_other _ _ _ Htk _ Hnot) as [_ E']. rewrite Hy, Edb in E'. pose proof (so_rows _ _ Hs (next_item s)) as Hlt.
    rewrite <- E' in Hlt. specialize (Hlt ltac:(eauto)). lia. }
  assert (units (db s') e = units d1 e + if itemEntry a =? e then itemCount a else 0) as Hu2.
  { rewrite (units_change d1 (db s') e (next_item s)).
    - rewrite (contribution_none d1) by by apply not_elem_of_dom. pose proof (put_up_located _ _ _ _ _ H) as HL. rewrite Hg in HL.
      rewrite (contribution_says (db s') e (next_item s) (itemEntry a) (itemCount a)); [lia| |done].
      rewrite <- Hg. exact (pu_row _ _ _ _ _ _ H).
    - intros g Hne. rewrite Hg in Hrows. apply contribution_eq; [by rewrite Hrows, lookup_insert_ne|].
      rewrite !located_spec, Hinv, (pu_mail_items _ _ _ _ _ _ H), Hah, Hmi.
      split; (intros [?|[?|(id & r' & Hr & E)]]; [by left|by right; left|]); right; right; exists id, r'; (split; [|done]);
        apply (put_up_other_rows _ _ _ _ _ _ _ Hs H); congruence. }
  rewrite (units_alike _ _ e Hd1) in Hu2. assert (units (db s') e = units (db s) e) as E by (destruct (_ =? e); lia).
  assert (0 <= zsum snd items) as Hnn.
  { clear -Hst. induction items as [|x l IH]; [done|]. cbn. destruct (Hst x ltac:(constructor)) as (_ & n & _ & Hx & _).
    assert (0 <= zsum snd l); [|lia]. apply IH. intros y Hy. apply Hst. by constructor. }
  split; [done|]. split; [|lia]. exists (T ++ [d1; db s']). split; [by rewrite Ht, ET, <- app_assoc|].
  apply Forall_app. split; [done|]. apply Forall_cons. split; [rewrite (units_alike _ _ e Hd1); destruct (_ =? e); lia|]. apply Forall_singleton. lia.
Qed.

(** *** A sale *)

Lemma offered_stack player en s packet gs x :
  sound known s -> counts_ok (db s) -> Forall2 (offered w player en s) packet gs -> Forall (fun x => 0 <= x.2) packet -> x ∈ zip gs packet.*2 ->
  x.1 < next_item s /\ exists n, stack s x.1 en n /\ 0 <= x.2 <= n /\ n < 2 ^ 32.
Proof.
  intros Hs Hok HF Hnn (y & Hy & Exy & _ & _ & _ & i & Hi & Hp & Hie & Hc)%(offered_in _ _ _ _ _ _ _ HF).
  rewrite Forall_forall in Hnn. pose proof (Hnn y Hy) as Hy0. split; [apply (so_known _ _ Hs _ _ Hi)|].
  destruct (so_held _ _ Hs _ _ _ Hi Hp) as [Hin (r & Hr & Hre & Hrc)]. exists (i_count i). split; [split; [by exists i|split]|].
  - exists r. split_and!; congruence.
  - apply located_spec. by left.
  - pose proof (Hok _ _ Hr). lia.
Qed.

Lemma sale_units player packet s s' :
  sound known s -> counts_ok (db s) -> distinct packet -> sale known w player packet s s' -> units (db s') e = units (db s) e /\ crash_safe e s s'.
Proof.
  intros Hs Hok [Hnd Hnn] (Hpl & h & a & H & _ & gs & HF & [(i & Hgs & Hi & Hic & Hm)|(Hg & Hic & Hcl)]).
  - apply (moved_units h a _ s s' Hs H Hm). subst gs. inversion HF as [|x ? l ? Hx HF']; subst. destruct Hx as (_ & _ & _ & i' & Hi' & Hh & Hie & _).
    rewrite Hi in Hi'. injection Hi' as <-. eauto 6.
  - apply (cloned_units h (zip gs packet.*2) a _ s s' Hs H Hcl Hg).
    + rewrite zsum_zip by (symmetry; by eapply Forall2_length). rewrite Hic. destruct Hpl as [Hlen Hpl]. unfold MAX_AUCTION_ITEMS in Hlen.
      rewrite sum_counts_small; [lia|by split|done|lia|change (2 ^ 32) with 4294967296; lia].
    + rewrite fst_zip by (rewrite length_fmap; apply Nat.eq_le_incl; symmetry; by eapply Forall2_length). by apply (offered_distinct _ _ _ _ _ HF).
    + intros x Hx. exact (offered_stack _ _ _ _ _ _ Hs Hok HF Hnn Hx).
Qed.

Lemma sale_counts player packet s s' : sound known s -> counts_ok (db s) -> sale known w player packet s s' -> counts_ok (db s').
Proof.
  intros Hs Hok (Hpl & h & a & H & _ & gs & HF & [(i & Hgs & Hi & Hic & (d1 & _ & _ & Hrows & _))|(Hg & Hic & s0 & s1 & d1 & Erun & Edb & _ & Hobj & Hd1 & _ & (r & Hrows & Hre & Hrc) & _)]).
  - intros g r Hr. destruct (decide (g = itemGUIDLow a)) as [->|Hne]; [|rewrite Hrows in Hr by done; exact (Hok _ _ Hr)].
    destruct (pu_row _ _ _ _ _ _ H) as (r' & Hr' & _ & E). assert (r' = r) as -> by congruence. rewrite E.
    subst gs. inversion HF as [|x ? l ? Hx HF']; subst. destruct Hx as (_ & _ & _ & i' & Hi' & Hh & _ & _). rewrite Hi in Hi'. injection Hi' as <-.
    destruct (so_held _ _ Hs _ _ _ Hi Hh) as [_ (r0 & Hr0 & _ & E0)]. rewrite <- Hic, <- E0. exact (Hok _ _ Hr0).
  - intros g r' Hr'. rewrite Hrows in Hr'. apply lookup_insert_Some in Hr' as [[_ <-]|[_ Hr']].
    + rewrite Hrc, Hic. apply sum_counts_range. lia.
    + apply (counts_alike _ _ Hd1) in Hr'; [done|]. apply (take_all_counts _ _ _) with (2 := Erun); [|by rewrite Edb].
      intros x (y & _ & _ & _ & _ & _ & i & Hi & _)%(offered_in _ _ _ _ _ _ _ HF). rewrite Hobj by (apply (so_known _ _ Hs _ _ Hi)). eauto.
Qed.
End Sales.

(** ** One command *)

(** A sale that names every stack once. *)
Definition names_once (c : ah_cmd) : Prop := match c with Sell _ _ _ packet _ _ _ => distinct packet | _ => True end.

(** Whoever wins an item can be sent it: trades are logged, so that the account of a winner
    who is away is looked up, and everybody has one. *)
Definition everybody_reached (w : World) : Prop := gm_log_trade w = true /\ forall p, account w p <> 0.

Lemma won_carries w a n : everybody_reached w -> omap snd (won_letters w a n) <> [].
Proof. intros [Hg Hacc]. unfold won_letters. rewrite Hg, (proj2 (Z.eqb_neq _ _) (Hacc _)), orb_true_r. done. Qed.

Lemma closing_carries w a n : everybody_reached w -> omap snd (closing_letters w a n) <> [].
Proof.
  intros Hw. unfold closing_letters. destruct (bidder a =? 0).
  - unfold expired_letters, exists_. by rewrite (proj2 (Z.eqb_neq _ _) (proj2 Hw _)), orb_true_r.
  - rewrite omap_app. intros [_ H]%app_eq_nil. exact (won_carries _ _ _ Hw H).
Qed.

Lemma buyout_carries w player a n : everybody_reached w -> omap snd (buyout_letters w player a n) <> [].
Proof. intros Hw. unfold buyout_letters. rewrite omap_app. intros [_ H]%app_eq_nil. exact (won_carries _ _ _ Hw H). Qed.

Lemma cancel_carries w player a n : omap snd (cancel_letters w player a n) <> [].
Proof. unfold cancel_letters. rewrite omap_app. by intros [_ H]%app_eq_nil. Qed.

(** What a command does to the units of [e]: none of the tables on the way holds more;
    if everybody is reached, none is lost either. *)
Definition item_step (w : World) (e : Z) (s s' : AH) : Prop :=
  crash_safe e s s' /\ counts_ok (db s') /\ (everybody_reached w -> units (db s') e = units (db s) e).

Section Step.
Context (known : Z -> Prop) (w : World) (e : Z).

Lemma ended_items h id p a ls pu s s' :
  sound known s -> AuctionsMap s !! (h, id) = Some p -> auctions s !! p = Some a -> carries ls (itemGUIDLow a) ->
  (everybody_reached w -> omap snd ls <> []) -> ended h id p (itemGUIDLow a) ls pu s s' -> counts_ok (db s) -> item_step w e s s'.
Proof.
  intros Hs Hp Ha Hc Hw He Hok. split_and!.
  - exact (ended_crash_safe known e _ _ _ _ _ _ _ _ Hs Hp Ha Hc He Hok).
  - exact (ended_counts _ _ _ _ _ _ _ _ He Hok).
  - intros Hr%Hw. rewrite (ended_units known e _ _ _ _ _ _ _ _ Hs Hp Ha Hc He). by rewrite decide_False.
Qed.

Lemma item_step_trans s1 s2 s3 : item_step w e s1 s2 -> item_step w e s2 s3 -> item_step w e s1 s3.
Proof.
  intros (A1 & A2 & A3) (B1 & B2 & B3). split_and!; [by etransitivity|done|]. intros Hw. by rewrite B3, A3.
Qed.

Lemma quiet_items s s' : quiet s s' -> counts_ok (db s) -> item_step w e s s'.
Proof.
  intros (t & o & ->) Hok. split_and!; [|done..]. split; [|done]. exists []. by rewrite app_nil_r.
Qed.

Lemma change_items c s s' : sound known s -> names_once c -> change known w c s s' -> counts_ok (db s) -> item_step w e s s'.
Proof.
  intros Hs Hc [Hq|player cr au packet b bo t -> H|h id p a player cr price _ Hp Ha _ _ _ _ H
    |h id p a player cr price _ Hp Ha _ _ _ _ H|h id p a player cr _ Hp Ha _ _ H] Hok.
  - by apply quiet_items.
  - destruct (sale_units known w e _ _ _ _ Hs Hok Hc H) as [E1 E2]. split_and!; [done| |done]. exact (sale_counts known w _ _ _ _ Hs Hok H).
  - destruct (raised_units known e _ _ _ _ _ _ _ (no_items_bid _ _ _ _) H) as [E1 E2]. split_and!; [done| |done]. exact (raised_counts _ _ _ _ _ _ _ H Hok).
  - exact (ended_items _ _ _ _ _ _ _ _ Hs Hp Ha (carries_buyout _ _ _ _) (buyout_carries _ _ _ _) H Hok).
  - exact (ended_items _ _ _ _ _ _ _ _ Hs Hp Ha (carries_cancel _ _ _ _) (fun _ => cancel_carries _ _ _ _) H Hok).
Qed.

Lemma all_closed_items s s' : sound known s -> rtc (closes w) s s' -> counts_ok (db s) -> item_step w e s s'.
Proof.
  intros Hs H. induction H as [s|s s1 s' H1 _ IH]; intros Hok; [exact (quiet_items _ _ (calm_refl s) Hok)|]. pose proof (closes_sound known w _ _ Hs H1) as Hs1.
  destruct H1 as [h id p a Hp Ha He].
  pose proof (ended_items _ _ _ _ _ _ _ _ Hs Hp Ha (carries_closing _ _ _) (closing_carries _ _ _) He Hok) as H1.
  exact (item_step_trans _ _ _ H1 (IH Hs1 (proj1 (proj2 H1)))).
Qed.

Lemma step_items c s s' : sound known s -> names_once c -> step known w c s s' -> counts_ok (db s) -> item_step w e s s'.
Proof. intros Hs Hc. destruct c; [apply (change_items _ _ _ Hs Hc)..|apply (all_closed_items _ _ Hs)]. Qed.
End Step.
