(* ===== verification/AuctionMoney.v ===== *)
(** * AuctionMoney: where the money is

    [total s] is the money in the purses, in the mails, and held by the auctions (deposits
    and highest bids).  No step makes money, if the cut of a sale is not more than the
    price and the deposit together and no deposit reaches 2^31 ([fair_at]). *)

From S2P Require Import Prelude.
From S2P Require Import AuctionHouse AuctionHandler AuctionSpec AuctionEnd AuctionSafety AuctionBid AuctionSell AuctionList AuctionHistory AuctionItems.

(** ** Sums over maps *)

Definition msum {K A} `{Countable K} (f : K -> A -> Z) (m : gmap K A) : Z := zsum (fun kx => f kx.1 kx.2) (map_to_list m).

Lemma msum_empty {K A} `{Countable K} (f : K -> A -> Z) : msum f ∅ = 0.
Proof. unfold msum. by rewrite map_to_list_empty. Qed.

Lemma msum_insert_new {K A} `{Countable K} (f : K -> A -> Z) m k x : m !! k = None -> msum f (<[k := x]> m) = f k x + msum f m.
Proof. intros Hk. unfold msum. by rewrite (zsum_perm _ _ _ (map_to_list_insert m k x Hk)). Qed.

Lemma msum_delete {K A} `{Countable K} (f : K -> A -> Z) m k x : m !! k = Some x -> msum f (delete k m) = msum f m - f k x.
Proof. intros Hk. rewrite <- (insert_delete_id m k x Hk) at 2. rewrite msum_insert_new by apply lookup_delete_eq. lia. Qed.

Lemma msum_update {K A} `{Countable K} (f : K -> A -> Z) m k x y : m !! k = Some x -> msum f (<[k := y]> m) = msum f m - f k x + f k y.
Proof. intros Hk. rewrite <- insert_delete_eq, msum_insert_new by apply lookup_delete_eq. rewrite (msum_delete f m k x Hk). lia. Qed.

Lemma msum_ext {K A} `{Countable K} (f f' : K -> A -> Z) m : (forall k x, m !! k = Some x -> f k x = f' k x) -> msum f m = msum f' m.
Proof.
  intros E. unfold msum. assert (forall l : list (K * A), (forall kx, kx ∈ l -> f kx.1 kx.2 = f' kx.1 kx.2) ->
    zsum (fun kx => f kx.1 kx.2) l = zsum (fun kx => f' kx.1 kx.2) l) as Hl.
  { induction l as [|y l IH]; intros Hl; [done|]. cbn. rewrite (Hl y) by constructor. f_equal. apply IH. intros z Hz. apply Hl. by constructor. }
  apply Hl. intros [k x] Hx%elem_of_map_to_list. by apply E.
Qed.

(** ** The money there is *)

(** What the house holds for an auction. *)
Definition escrow (a : AuctionEntry) : Z := deposit a + if bidder a =? 0 then 0 else bid a.

Definition purses (pu : gmap Z Z) : Z := msum (fun _ m => m) pu.
Definition in_mails (m : gmap Z Mail) : Z := msum (fun _ x => m_money x) m.
Definition in_houses (s : AH) : Z := msum (fun _ p => from_option escrow 0 (auctions s !! p)) (AuctionsMap s).
Definition total (s : AH) : Z := purses (purse s) + in_mails (mail (db s)) + in_houses s.

Lemma purses_paid pu p d :
  (forall q m, pu !! q = Some m -> 0 <= m <= MAX_MONEY_AMOUNT) -> 0 <= d <= default 0 (pu !! p) ->
  purses (paid pu p (- d)) = purses pu - d /\ (forall q m, paid pu p (- d) !! q = Some m -> 0 <= m <= MAX_MONEY_AMOUNT).
Proof.
  intros Hr Hd. unfold paid, MAX_MONEY_AMOUNT in *. set (m := default 0 (pu !! p)) in *.
  assert (0 <= m <= 9999999999) as Hm by (unfold m; destruct (pu !! p) eqn:E; cbn; [exact (Hr _ _ E)|lia]).
  assert ((if - d <? 0 then if - - d <? m then m + - d else 0 else if m <? 9999999999 - - d then m + - d else 9999999999) = m - d) as ->.
  { destruct (Z.ltb_spec (- d) 0); [destruct (Z.ltb_spec (- - d) m); lia|destruct (Z.ltb_spec m (9999999999 - - d)); lia]. }
  split.
  - unfold purses. destruct (pu !! p) as [x|] eqn:E; [rewrite (msum_update _ _ _ _ _ E)|rewrite msum_insert_new by done]; unfold m; rewrite ?E; cbn; lia.
  - intros q y [[<- <-]|[_ Hy]]%lookup_insert_Some; [lia|exact (Hr _ _ Hy)].
Qed.

Definition letters_money (ls : list letter) : Z := zsum (fun l => m_money l.1) ls.

Lemma letters_money_app ls ls' : letters_money (ls ++ ls') = letters_money ls + letters_money ls'.
Proof. apply zsum_app. Qed.

Lemma post_money n ls d :
  numbered n ls -> (forall id, is_Some (mail d !! id) -> id < n) -> in_mails (mail (post ls d)) = in_mails (mail d) + letters_money ls.
Proof.
  unfold post. revert n d. induction ls as [|l ls IH]; intros n d; [cbn; intros; lia|]. intros [Hl Hn]%numbered_cons Hd. cbn [foldl].
  rewrite (IH (n + 1)); [|done|].
  - assert (mail d !! m_id l.1 = None) as Hnone.
    { destruct (mail d !! m_id l.1) eqn:E; [|done]. assert (m_id l.1 < n) by (apply Hd; rewrite E; eauto). lia. }
    unfold letters_money. cbn [zsum post_one mail]. unfold in_mails. rewrite msum_insert_new by done. lia.
  - intros id. cbn [post_one mail]. intros [<-|H]%lookup_insert_is_Some'; [lia|]. pose proof (Hd id H). lia.
Qed.

Section Money.
Context (known : Z -> Prop).

(** ** What the houses hold *)

Lemma ended_houses h id p a ls pu s s' :
  sound known s -> AuctionsMap s !! (h, id) = Some p -> auctions s !! p = Some a -> ended h id p (itemGUIDLow a) ls pu s s' ->
  in_houses s' = in_houses s - escrow a.
Proof.
  intros Hs Hp Ha He. unfold in_houses. rewrite (en_map _ _ _ _ _ _ _ _ He), (en_auctions _ _ _ _ _ _ _ _ He).
  rewrite (msum_ext _ (fun _ q => from_option escrow 0 (auctions s !! q))).
  - rewrite (msum_delete _ _ _ _ Hp), Ha. done.
  - intros k q [Hne Hq]%lookup_delete_Some. rewrite lookup_delete_ne; [done|]. intros ->. apply Hne. exact (so_address _ _ Hs _ _ _ Hp Hq).
Qed.

Lemma ended_total h id p a ls pu s s' :
  sound known s -> AuctionsMap s !! (h, id) = Some p -> auctions s !! p = Some a -> ended h id p (itemGUIDLow a) ls pu s s' ->
  total s' = total s + (purses pu - purses (purse s)) + letters_money ls - escrow a.
Proof.
  intros Hs Hp Ha He. unfold total. rewrite (ended_houses _ _ _ _ _ _ _ _ Hs Hp Ha He), (en_purse _ _ _ _ _ _ _ _ He).
  rewrite (al_mail _ _ (en_db _ _ _ _ _ _ _ _ He)), (post_money (next_mail s));
    [cbn; lia|exact (en_numbered _ _ _ _ _ _ _ _ He)|exact (so_mail _ _ Hs)].
Qed.

Lemma raised_total h id p a a' ls pu s s' :
  sound known s -> AuctionsMap s !! (h, id) = Some p -> auctions s !! p = Some a -> raised id p a' ls pu s s' ->
  total s' = total s + (purses pu - purses (purse s)) + letters_money ls - escrow a + escrow a'.
Proof.
  intros Hs Hp Ha Hr. unfold total. rewrite (ra_purse _ _ _ _ _ _ _ Hr), (al_mail _ _ (ra_db _ _ _ _ _ _ _ Hr)), (post_money (next_mail s));
    [|exact (ra_numbered _ _ _ _ _ _ _ Hr)|exact (so_mail _ _ Hs)].
  assert (in_houses s' = in_houses s - escrow a + escrow a') as ->; [|cbn; lia].
  unfold in_houses. rewrite (ra_map _ _ _ _ _ _ _ Hr), (ra_auctions _ _ _ _ _ _ _ Hr).
  rewrite <- (insert_id _ _ _ Hp) at 1. rewrite (msum_update _ _ _ _ p Hp), lookup_insert_eq.
  transitivity (msum (fun k q => if decide (k = (h, id)) then escrow a' else from_option escrow 0 (auctions s !! q)) (AuctionsMap s)).
  - rewrite (msum_ext _ (fun k q => if decide (k = (h, id)) then escrow a' else from_option escrow 0 (auctions s !! q))); [lia|].
    intros k q Hq. destruct (decide (k = (h, id))) as [->|Hne].
    + rewrite Hp in Hq. injection Hq as <-. by rewrite lookup_insert_eq.
    + rewrite lookup_insert_ne; [done|]. intros ->. apply Hne. exact (so_address _ _ Hs _ _ _ Hq Hp).
  - rewrite <- (insert_delete_id _ _ _ Hp) at 1 2. rewrite !msum_insert_new by apply lookup_delete_eq.
    rewrite decide_True by done. rewrite Ha. cbn [from_option].
    rewrite (msum_ext _ (fun _ q => from_option escrow 0 (auctions s !! q)) (delete _ _)); [lia|].
    intros k q [Hne _]%lookup_delete_Some. by rewrite decide_False.
Qed.

Lemma put_up_total h a pu s s' :
  sound known s -> put_up known h a pu s s' -> total s' = total s + (purses pu - purses (purse s)) + escrow a.
Proof.
  intros Hs H. unfold total. rewrite (pu_purse _ _ _ _ _ _ H), (pu_mail _ _ _ _ _ _ H). unfold in_houses.
  rewrite (pu_map _ _ _ _ _ _ H), (pu_auctions _ _ _ _ _ _ H). rewrite msum_insert_new.
  - rewrite lookup_insert_eq. cbn [from_option]. rewrite (msum_ext _ (fun _ q => from_option escrow 0 (auctions s !! q))); [lia|].
    intros k q Hq. rewrite lookup_insert_ne; [done|]. apply not_eq_sym. exact (proj1 (put_up_fresh _ _ _ _ _ _ Hs H _ _ Hq)).
  - destruct (AuctionsMap s !! (h, Id a)) as [q|] eqn:E; [|done]. by destruct (put_up_fresh _ _ _ _ _ _ Hs H _ _ E).
Qed.

(** ** Money that adds up *)

Record money_ok (s : AH) : Prop := {
  mo_purse : forall q m, purse s !! q = Some m -> 0 <= m <= MAX_MONEY_AMOUNT;
  mo_auction : forall p a, auctions s !! p = Some a ->
    0 <= bid a < 2 ^ 32 /\ 0 <= buyout a < 2 ^ 32 /\ 0 <= deposit a /\ 0 <= bidder a /\ (buyout a = 0 \/ bid a < buyout a)
}.

(** The cut of any auction, sold at its bid or at its buyout, is covered; deposits are
    small. *)
Definition fair_at (w : World) (s : AH) : Prop :=
  map_Forall (fun _ a => GetAuctionCut w a <= bid a + deposit a /\ GetAuctionCut w (with_bid 0 (buyout a) a) <= buyout a + deposit a /\
                         deposit a < 2 ^ 31) (auctions s).

Lemma cut_nonneg w a : 0 <= GetAuctionCut w a.
Proof. unfold GetAuctionCut. lia. Qed.

Lemma profit_le w a : GetAuctionCut w a <= bid a + deposit a -> profit w a <= bid a + deposit a.
Proof.
  intros H. unfold profit, wrap. pose proof (cut_nonneg w a). pose proof (Z.mod_le (bid a + deposit a - GetAuctionCut w a) (2 ^ 32) ltac:(lia) ltac:(lia)). lia.
Qed.

(** *** The money in the letters *)

Lemma success_money w a n : GetAuctionCut w a <= bid a + deposit a -> 0 <= bid a + deposit a -> letters_money (success_letters w a n) <= bid a + deposit a.
Proof. intros H H0. unfold success_letters. destruct (exists_ w (owner a)); [|done]. cbn. pose proof (profit_le w a H). lia. Qed.
Lemma won_money w a n : letters_money (won_letters w a n) = 0.
Proof. unfold won_letters. by destruct (online w (bidder a) || _). Qed.
Lemma pending_money w a n : letters_money (pending_letters w a n) = 0.
Proof. unfold pending_letters. by destruct (exists_ w (owner a)). Qed.
Lemma expired_money w a n : letters_money (expired_letters w a n) = 0.
Proof. unfold expired_letters. by destruct (exists_ w (owner a)). Qed.
Lemma outbid_money w a n : 0 <= bid a -> letters_money (outbid_letters w a n) <= bid a.
Proof. intros H. unfold outbid_letters. destruct (exists_ w (bidder a)); cbn; lia. Qed.
Lemma refund_money w a n : 0 <= bid a -> letters_money (refund_letters w a n) <= bid a.
Proof. intros H. unfold refund_letters. destruct (exists_ w (bidder a)); cbn; lia. Qed.

(** *** The changes *)

Lemma money_ended h id p a ls pu s s' :
  (forall q m, pu !! q = Some m -> 0 <= m <= MAX_MONEY_AMOUNT) -> ended h id p (itemGUIDLow a) ls pu s s' -> money_ok s -> money_ok s'.
Proof.
  intros Hpu He [H1 H2]. split; [by rewrite (en_purse _ _ _ _ _ _ _ _ He)|]. intros q x. rewrite (en_auctions _ _ _ _ _ _ _ _ He).
  intros [_ Hx]%lookup_delete_Some. exact (H2 _ _ Hx).
Qed.

Lemma closes_money w s s' : sound known s -> money_ok s -> fair_at w s -> closes w s s' -> total s' <= total s /\ money_ok s' /\ fair_at w s'.
Proof.
  intros Hs Hm Hf [h id p a Hp Ha He]. destruct (mo_auction _ Hm _ _ Ha) as (Hb & Hbo & Hd & Hbi & _). destruct (Hf _ _ Ha) as (Hcut & _ & _). split_and!.
  - rewrite (ended_total _ _ _ _ _ _ _ _ Hs Hp Ha He). unfold closing_letters, escrow. destruct (bidder a =? 0).
    + rewrite expired_money. lia.
    + rewrite letters_money_app, won_money. pose proof (success_money w a (next_mail s) Hcut ltac:(lia)). lia.
  - exact (money_ended _ _ _ _ _ _ _ _ (mo_purse _ Hm) He Hm).
  - unfold fair_at. rewrite (en_auctions _ _ _ _ _ _ _ _ He). by apply map_Forall_delete.
Qed.

(** Only real players send packets. *)
Definition sender_ok (c : ah_cmd) : Prop := match c with PlaceBid p _ _ _ => 0 < p | _ => True end.

Lemma raise_money w s s' h id p a player price :
  sound known s -> money_ok s -> 0 < player -> AuctionsMap s !! (h, id) = Some p -> auctions s !! p = Some a ->
  bid a < price -> price <= money s player -> (price <? buyout a) || (buyout a =? 0) = true ->
  raised id p (with_bid player (u32 price) a) (bid_letters w player a (next_mail s)) (bid_purse player price a (purse s)) s s' ->
  total s' <= total s /\ money_ok s'.
Proof.
  intros Hs Hm Hpl Hp Ha Hb Hpm Hbr Hr. destruct (mo_auction _ Hm _ _ Ha) as (Hb0 & Hbo & Hd & Hbi & _).
  assert (price <= MAX_MONEY_AMOUNT) as Hmax.
  { unfold money in Hpm. destruct (purse s !! player) eqn:E; cbn in Hpm; [pose proof (mo_purse _ Hm _ _ E); lia|unfold MAX_MONEY_AMOUNT; lia]. }
  unfold MAX_MONEY_AMOUNT in Hmax.
  set (d := if (0 <? bidder a) && (bidder a =? player) then price - bid a else price).
  assert (0 <= d <= price) as Hdr by (unfold d; destruct (_ && _); lia).
  assert (bid_purse player price a (purse s) = paid (purse s) player (- d)) as Epu.
  { unfold bid_purse. fold d. by rewrite swrap_small by lia. }
  unfold money in Hpm. destruct (purses_paid (purse s) player d (mo_purse _ Hm) ltac:(lia)) as [Hpaid Hpr].
  assert (0 <= u32 price <= price) as Hu.
  { split; [apply wrap_range; lia|]. apply Z.mod_le; lia. }
  split.
  - rewrite (raised_total _ _ _ _ _ _ _ _ _ Hs Hp Ha Hr), Epu, Hpaid. unfold escrow, bid_letters, d. cbn [bidder deposit bid with_bid].
    rewrite (proj2 (Z.eqb_neq player 0)) by lia. pose proof (outbid_money w a (next_mail s) ltac:(lia)).
    destruct (Z.ltb_spec 0 (bidder a)), (Z.eqb_spec (bidder a) player), (Z.eqb_spec (bidder a) 0); cbn [andb negb]; try lia; cbn; lia.
  - split; [rewrite (ra_purse _ _ _ _ _ _ _ Hr), Epu; exact Hpr|]. intros q x. rewrite (ra_auctions _ _ _ _ _ _ _ Hr).
    intros [[_ <-]|[_ Hx]]%lookup_insert_Some; [|exact (mo_auction _ Hm _ _ Hx)]. cbn.
    split; [apply wrap_range; lia|]. split_and!; lia.
Qed.

Lemma buyout_money w s s' h id p a player price :
  sound known s -> money_ok s -> fair_at w s -> 0 < player -> AuctionsMap s !! (h, id) = Some p -> auctions s !! p = Some a ->
  bid a < price -> price <= money s player -> (price <? buyout a) || (buyout a =? 0) = false ->
  ended h id p (itemGUIDLow a) (buyout_letters w player a (next_mail s)) (buyout_purse player a (purse s)) s s' ->
  total s' <= total s /\ money_ok s'.
Proof.
  intros Hs Hm Hf Hpl Hp Ha Hb Hpm Hbr He. destruct (mo_auction _ Hm _ _ Ha) as (Hb0 & Hbo & Hd & Hbi & Hbb). destruct (Hf _ _ Ha) as (_ & Hcut & _).
  apply orb_false_elim in Hbr as [Hpb%Z.ltb_ge Hbz%Z.eqb_neq]. destruct Hbb as [|Hbb]; [lia|]. unfold money in Hpm.
  set (d := if player =? bidder a then buyout a - bid a else buyout a).
  assert (buyout_purse player a (purse s) = paid (purse s) player (- d)) as Epu.
  { unfold buyout_purse, d. destruct (player =? bidder a); [|done]. by rewrite wrap_small by lia. }
  assert (0 <= d <= price) as Hdr by (unfold d; destruct (_ =? _); lia).
  destruct (purses_paid (purse s) player d (mo_purse _ Hm) ltac:(lia)) as [Hpaid Hpr]. split.
  - rewrite (ended_total _ _ _ _ _ _ _ _ Hs Hp Ha He), Epu, Hpaid. unfold escrow, buyout_letters. cbv zeta.
    rewrite !letters_money_app, won_money, pending_money.
    set (a' := with_bid player (buyout a) a). pose proof (outbid_money w a (next_mail s) ltac:(lia)) as Hout.
    match goal with |- context [letters_money (success_letters w a' ?n)] => pose proof (success_money w a' n) as Hsucc end. cbn in Hsucc.
    assert (GetAuctionCut w a' <= buyout a + deposit a) as Hcut' by exact Hcut. specialize (Hsucc Hcut' ltac:(lia)). unfold d.
    assert (letters_money (if (player =? bidder a) || (bidder a =? 0) then [] else outbid_letters w a (next_mail s)) <=
      if (player =? bidder a) || (bidder a =? 0) then 0 else bid a) as Hl0 by (destruct (_ || _); [done|exact Hout]).
    match type of Hl0 with ?x <= _ => generalize dependent x end. intros x Hl0.
    match goal with |- context [letters_money (success_letters w a' ?n)] => generalize dependent (letters_money (success_letters w a' n)) end. intros y Hy.
    destruct (Z.eqb_spec player (bidder a)), (Z.eqb_spec (bidder a) 0); cbn [orb] in Hl0; lia.
  - refine (money_ended h id p a _ _ s s' _ He Hm). by rewrite Epu.
Qed.

Lemma cancel_money w s s' h id p a player :
  sound known s -> money_ok s -> AuctionsMap s !! (h, id) = Some p -> auctions s !! p = Some a ->
  (0 <? bidder a) && negb (HasEnoughMoney s player (GetAuctionCut w a)) = false ->
  ended h id p (itemGUIDLow a) (cancel_letters w player a (next_mail s)) (cancel_purse w player a (purse s)) s s' ->
  total s' <= total s /\ money_ok s'.
Proof.
  intros Hs Hm Hp Ha Hen He. destruct (mo_auction _ Hm _ _ Ha) as (Hb0 & Hbo & Hd & Hbi & _). pose proof (cut_nonneg w a) as Hcut.
  assert (purses (cancel_purse w player a (purse s)) <= purses (purse s) /\
    forall q m, cancel_purse w player a (purse s) !! q = Some m -> 0 <= m <= MAX_MONEY_AMOUNT) as [Hpaid Hpr].
  { unfold cancel_purse. destruct (0 <? bidder a); [|split; [lia|exact (mo_purse _ Hm)]]. cbn [andb] in Hen. apply negb_false_iff in Hen.
    unfold HasEnoughMoney, money in Hen. apply Z.leb_le in Hen.
    destruct (purses_paid (purse s) player (GetAuctionCut w a) (mo_purse _ Hm) ltac:(lia)) as [E H]. split; [lia|exact H]. }
  split; [|exact (money_ended _ _ _ _ _ _ _ _ Hpr He Hm)].
  rewrite (ended_total _ _ _ _ _ _ _ _ Hs Hp Ha He). unfold cancel_letters, escrow. cbv zeta. rewrite letters_money_app.
  pose proof (refund_money w a (next_mail s) ltac:(lia)) as Href.
  assert (forall n, letters_money [letter_of w player (houseId (auctionHouseEntry a)) (cancel_draft a) 0 n] = 0) as Hz by done. rewrite Hz.
  assert (letters_money (if 0 <? bidder a then refund_letters w a (next_mail s) else []) <= if 0 <? bidder a then bid a else 0) as Hl0
    by (destruct (0 <? bidder a); [exact Href|done]).
  destruct (Z.ltb_spec 0 (bidder a)), (Z.eqb_spec (bidder a) 0); lia.
Qed.

Lemma sale_money w player packet s s' :
  sound known s -> money_ok s -> fair_at w s' -> sale known w player packet s s' -> total s' <= total s /\ money_ok s'.
Proof.
  intros Hs Hm Hf (_ & h & a & H & [Ho Hb Hbi Hd Hdr Hbo] & _).
  assert (auctions s' !! next_address s = Some a) as Ha by (rewrite (pu_auctions _ _ _ _ _ _ H); apply lookup_insert_eq).
  destruct (Hf _ _ Ha) as (_ & _ & Hd31). unfold money in Hd.
  assert (i32 (deposit a) = deposit a) as Ei by (apply swrap_small; [lia|change (32 - 1) with 31; lia]). rewrite Ei in H.
  destruct (purses_paid (purse s) player (deposit a) (mo_purse _ Hm) ltac:(lia)) as [Hpaid Hpr]. split.
  - rewrite (put_up_total _ _ _ _ _ Hs H), Hpaid. unfold escrow. rewrite Hbi. cbn. lia.
  - split; [by rewrite (pu_purse _ _ _ _ _ _ H)|]. intros q x. rewrite (pu_auctions _ _ _ _ _ _ H).
    intros [[_ <-]|[_ Hx]]%lookup_insert_Some; [|exact (mo_auction _ Hm _ _ Hx)]. rewrite Hb, Hbi. split_and!; try lia.
Qed.

(** *** One command *)

Lemma step_money w c s s' :
  sound known s -> money_ok s -> sender_ok c -> fair_at w s -> fair_at w s' -> step known w c s s' -> total s' <= total s /\ money_ok s'.
Proof.
  intros Hs Hm Hc Hf Hf' Hstep.
  assert (change known w c s s' -> total s' <= total s /\ money_ok s') as Hchange.
  { intros [(t & o & ->)|player cr au packet b bo t _ H|h id p a player cr price -> Hp Ha _ Hb Hpm Hbr H|h id p a player cr price -> Hp Ha _ Hb Hpm Hbr H
      |h id p a player cr _ Hp Ha _ Hen H].
    - split; [done|]. by destruct Hm.
    - exact (sale_money _ _ _ _ _ Hs Hm Hf' H).
    - exact (raise_money _ _ _ _ _ _ _ _ _ Hs Hm Hc Hp Ha Hb Hpm Hbr H).
    - exact (buyout_money _ _ _ _ _ _ _ _ _ Hs Hm Hf Hc Hp Ha Hb Hpm Hbr H).
    - exact (cancel_money _ _ _ _ _ _ _ _ Hs Hm Hp Ha Hen H). }
  destruct c; try exact (Hchange Hstep). cbn in Hstep. clear Hchange Hf'. induction Hstep as [s|s s1 s' H1 _ IH]; [by split|].
  destruct (closes_money _ _ _ Hs Hm Hf H1) as (T1 & M1 & F1). destruct (IH (closes_sound _ _ _ _ Hs H1) M1 F1) as [T2 M2]. split; [lia|done].
Qed.
End Money.
