(* ===== verification/AuctionRestart.v ===== *)
(** * AuctionRestart: stopping and starting the server

    The tables hold everything the houses need: a start on the tables of a sound state
    rebuilds the same auctions in the same houses.  What was over by then is closed before
    the items are loaded, and its item is in no table any more. *)

From S2P Require Import Prelude.
From S2P Require Import AuctionHouse AuctionHandler AuctionSpec AuctionEnd AuctionSafety AuctionBid AuctionSell AuctionItems.

Abbreviation full_row := (Z * AuctionRow * ItemRow)%type.

(** ** Ids *)

Lemma max_key_le {A} (m : gmap Z A) k : is_Some (m !! k) -> k <= max_key m.
Proof.
  intros [x Hx%elem_of_map_to_list]. unfold max_key. apply (list_elem_of_fmap_2 fst) in Hx. cbn in Hx.
  induction (map_to_list m).*1 as [|y l IH]; [by apply not_elem_of_nil in Hx|]. cbn. apply list_elem_of_In in Hx as [->|Hx]; [lia|].
  apply list_elem_of_In, IH in Hx. lia.
Qed.

Lemma elem_of_auction_rows d id r i :
  (id, r, i) ∈ auction_rows d <-> auctionhouse d !! id = Some r /\ item_instance d !! itemguid r = Some i.
Proof.
  unfold auction_rows. rewrite list_elem_of_omap. split.
  - intros ([id' r'] & Hx%elem_of_ordered & E). cbn in E. destruct (item_instance d !! itemguid r') eqn:Ei; [|done]. cbn in E. by injection E as <- <- <-.
  - intros [Hr Hi]. exists (id, r). rewrite elem_of_ordered. split; [done|]. cbn. by rewrite Hi.
Qed.

Lemma auction_rows_ids d : NoDup (auction_rows d).*1.*1.
Proof.
  unfold auction_rows. pose proof (NoDup_ordered (auctionhouse d)) as H. induction (ordered (auctionhouse d)) as [|[id r] l IH]; [constructor|].
  cbn [fmap list_fmap] in H. apply NoDup_cons in H as [Hn H]. cbn [omap list_omap snd]. destruct (item_instance d !! itemguid r) as [i|]; cbn; [|auto].
  apply NoDup_cons. split; [|auto]. intros Hin. apply Hn. cbn. apply list_elem_of_fmap in Hin as ([id' r'] & Eq & Hin). cbn in Eq. subst id'.
  apply list_elem_of_fmap in Hin as ([[id'' r''] i'] & Eq & Hin). injection Eq as <- <-. apply list_elem_of_omap in Hin as ([id0 r0] & Hin & E0).
  cbn in E0. destruct (item_instance d !! itemguid r0); [|done]. injection E0 as <- <- <-. exact (list_elem_of_fmap_2 fst _ _ Hin).
Qed.

(** ** What can be stored and read back *)

Definition storable (a : AuctionEntry) : Prop :=
  in_u 32 (Id a) /\ in_u 32 (auctioneer a) /\ in_u 32 (itemGUIDLow a) /\ in_u 32 (itemEntry a) /\ in_u 32 (itemCount a) /\ in_u 32 (owner a) /\
  in_u 32 (startbid a) /\ in_u 32 (bid a) /\ in_u 32 (buyout a) /\ in_u 32 (expire_time a) /\ in_u 32 (bidder a) /\ in_u 32 (deposit a).

(** The auctioneer still stands for the house. *)
Definition from_here (w : World) (h : house) (a : AuctionEntry) : Prop :=
  exists f, auctioneer_faction w (auctioneer a) = Some f /\ GetAuctionsMap w f = h /\ GetAuctionHouseEntry w f = Some (auctionHouseEntry a).

Lemma load_row w h id a i :
  Id a = id -> storable a -> from_here w h a -> r_entry i = itemEntry a -> r_count i = itemCount a ->
  exists f, LoadFromFieldList w id (row_of a) i = Some (a, f) /\ GetAuctionsMap w f = h.
Proof.
  intros <- (H1 & H2 & H3 & H4 & H5 & H6 & H7 & H8 & H9 & H10 & H11 & H12) (f & Hf & Hh & He) Ee Ec. exists f. split; [|done].
  unfold LoadFromFieldList, row_of. cbn [auctioneerguid itemguid itemowner buyoutprice time_ buyguid lastbid row_startbid row_deposit].
  rewrite Hf. cbn [mbind option_bind]. rewrite He. cbn [mbind option_bind]. rewrite !wrap_wrap, !u32_i32, Ee, Ec.
  rewrite !wrap_small by done. by destruct a.
Qed.

(** ** Loading the items *)

Definition item_body (w : World) (x : full_row) : T unit :=
  let '(_, r, i) := x in
  match item_template w (r_entry i) with
  | None => mret tt
  | Some _ => store_item (itemguid r) (mkItem (r_entry i) (r_count i) 0 ITEM_NEW None false) ;; AddAItem (itemguid r)
  end.

Definition guids (l : list full_row) : list Z := (fun x => itemguid x.1.2) <$> l.

Lemma load_items_loop w l s :
  NoDup (guids l) -> (forall x, x ∈ l -> is_Some (item_template w (r_entry x.2)) /\ itemguid x.1.2 ∉ mAitems s) ->
  runs (mapM_ (item_body w) l) s (fun _ s' => exists o m, s' = set_mAitems m (set_objects o (next_item s) s) /\
    (forall g, g ∈ m <-> g ∈ mAitems s \/ g ∈ guids l) /\
    (forall g, g ∉ guids l -> o !! g = objects s !! g) /\
    (forall x, x ∈ l -> o !! itemguid x.1.2 = Some (mkItem (r_entry x.2) (r_count x.2) 0 ITEM_NEW None false))).
Proof.
  revert s. induction l as [|[[id r] i] l IH]; intros s Hnd Hl.
  { apply runs_ret. exists (objects s), (mAitems s). split; [by destruct s|]. split; [|split; [done|]].
    - intros g. split; [by left|intros [|H]; [done|by apply not_elem_of_nil in H]].
    - intros x Hx. by apply not_elem_of_nil in Hx. }
  cbn [guids fmap list_fmap fst snd] in Hnd. apply NoDup_cons in Hnd as [Hn Hnd]. fold (guids l) in *.
  destruct (Hl (id, r, i) ltac:(constructor)) as [[t Ht] Hg]. cbn [fst snd] in *.
  cbn [mapM_]. apply runs_bind. unfold item_body at 1. rewrite Ht. unfold AddAItem. repeat ah_step. rewrite bool_decide_eq_false_2 by done. repeat ah_step.
  match goal with |- runs _ ?st _ => set (s1 := st) end.
  apply (runs_mono _ _ _ _ (IH s1 Hnd ltac:(intros x Hx; destruct (Hl x ltac:(by constructor)) as [H1 H2]; split; [done|];
    cbn; rewrite not_elem_of_union, not_elem_of_singleton; split; [|done]; intros E; apply Hn; rewrite <- E; by apply (list_elem_of_fmap_2 (fun x => itemguid x.1.2))))).
  intros _ s' (o & m & -> & Hm & Hoth & Hin). exists o, m. split; [done|]. cbn in Hm, Hoth.
  assert (guids ((id, r, i) :: l) = itemguid r :: guids l) as Eg by done. rewrite Eg. split_and!.
  - intros g. rewrite Hm, elem_of_union, elem_of_singleton, elem_of_cons. tauto.
  - intros g [H1 H2]%not_elem_of_cons. by rewrite Hoth, lookup_insert_ne.
  - intros x [->|Hx]%elem_of_cons; [cbn; by rewrite Hoth, lookup_insert_eq|by apply Hin].
Qed.

(** ** Loading the auctions *)

Record shelved (w : World) (l : list full_row) (s : AH) : Prop := {
  sh_map : forall h id p, AuctionsMap s !! (h, id) = Some p -> exists a, auctions s !! p = Some a /\ Id a = id;
  sh_address : forall k k' p, AuctionsMap s !! k = Some p -> AuctionsMap s !! k' = Some p -> k = k';
  sh_heap : forall p, is_Some (auctions s !! p) -> p < next_address s;
  sh_listed : forall h id a, listed_at s h id a <->
    exists x f, x ∈ l /\ LoadFromFieldList w x.1.1 x.1.2 x.2 = Some (a, f) /\ GetAuctionsMap w f = h /\ x.1.1 = id
}.

Definition auction_body (w : World) (x : full_row) : T unit :=
  let '(id, r, i) := x in
  s ← get;
  match LoadFromDB w s id r i with
  | None => PExecute (DeleteAuction (u32 id))
  | Some (a, faction) => p ← new_auction a; AddAuction (GetAuctionsMap w faction) p
  end.

(** Only the heap and the maps change. *)
Definition same_rest (s s' : AH) : Prop := exists au na mp, s' = set_map mp (set_auctions au na s).

Lemma load_auctions_loop w l0 l s :
  shelved w l0 s -> NoDup (l0 ++ l).*1.*1 ->
  (forall x, x ∈ l -> itemguid x.1.2 ∈ mAitems s /\ in_u 32 (itemguid x.1.2) /\
    exists a f, LoadFromFieldList w x.1.1 x.1.2 x.2 = Some (a, f) /\ Id a = x.1.1) ->
  runs (mapM_ (auction_body w) l) s (fun _ s' => shelved w (l0 ++ l) s' /\ same_rest s s').
Proof.
  revert l0 s. induction l as [|[[id r] i] l IH]; intros l0 s Hsh Hnd Hl.
  { apply runs_ret. rewrite app_nil_r. split; [done|]. exists (auctions s), (next_address s), (AuctionsMap s). by destruct s. }
  destruct (Hl (id, r, i) ltac:(constructor)) as (Hin & Hu & a & f & Hload & Hid). cbn [fst snd] in *.
  cbn [mapM_]. apply runs_bind. unfold auction_body at 1, LoadFromDB, GetAItem. repeat ah_step. rewrite Hload. cbn [mbind option_bind].
  rewrite wrap_small, bool_decide_eq_true_2 by done. cbn [mbind option_bind].
  repeat ah_step. unfold AddAuction. apply runs_bind. eapply runs_deref_auction; [apply lookup_insert_eq|]. repeat ah_step.
  match goal with |- runs _ ?st _ => set (s1 := st) end. set (h := GetAuctionsMap w f) in *.
  assert (AuctionsMap s1 = <[(h, id) := next_address s]> (AuctionsMap s)) as Em by (cbn; by rewrite Hid).
  assert (auctions s1 = <[next_address s := a]> (auctions s)) as Ea by done.
  assert (forall k p, AuctionsMap s !! k = Some p -> k <> (h, id) /\ p <> next_address s) as Hfresh.
  { intros [h' id'] p Hp. destruct (sh_map _ _ _ Hsh _ _ _ Hp) as (a' & Ha' & E). split.
    - intros [= -> ->]. destruct (proj1 (sh_listed _ _ _ Hsh h id a') (ex_intro _ p (conj Hp Ha'))) as (x & f' & Hx & _ & _ & Ex).
      rewrite !fmap_app in Hnd. apply NoDup_app in Hnd as (_ & Hnd & _). apply (Hnd id); [|constructor].
      rewrite <- Ex. by do 2 apply (list_elem_of_fmap_2 fst).
    - pose proof (sh_heap _ _ _ Hsh p ltac:(eauto)). lia. }
  assert (shelved w (l0 ++ [(id, r, i)]) s1) as Hsh1.
  { split.
    - intros h' id' p. rewrite Em, Ea. intros [[[= <- <-] <-]|[_ Hp]]%lookup_insert_Some; [exists a; by rewrite lookup_insert_eq|].
      rewrite lookup_insert_ne by (apply not_eq_sym, (proj2 (Hfresh _ _ Hp))). exact (sh_map _ _ _ Hsh _ _ _ Hp).
    - intros k k' p. rewrite Em. intros [[<- <-]|[_ H1]]%lookup_insert_Some [[<- E]|[_ H2]]%lookup_insert_Some; [done| | |exact (sh_address _ _ _ Hsh _ _ _ H1 H2)].
      + by destruct (Hfresh _ _ H2).
      + subst p. by destruct (Hfresh _ _ H1).
    - intros p. rewrite Ea. cbn. intros [->|H]%lookup_insert_is_Some'; [lia|]. pose proof (sh_heap _ _ _ Hsh p H). lia.
    - intros h' id' a'. unfold listed_at. rewrite Em, Ea. split.
      + intros (p & [[[= <- <-] <-]|[_ Hp]]%lookup_insert_Some & Ha').
        * rewrite lookup_insert_eq in Ha'. injection Ha' as <-. exists (id, r, i), f. split; [apply elem_of_app; right; constructor|done].
        * rewrite lookup_insert_ne in Ha' by (apply not_eq_sym, (proj2 (Hfresh _ _ Hp))).
          destruct (proj1 (sh_listed _ _ _ Hsh h' id' a') (ex_intro _ p (conj Hp Ha'))) as (x & f' & Hx & H). exists x, f'.
          split; [apply elem_of_app; by left|done].
      + intros (x & f' & [Hx| ->%list_elem_of_singleton]%elem_of_app & H).
        * destruct (proj2 (sh_listed _ _ _ Hsh h' id' a') (ex_intro _ x (ex_intro _ f' (conj Hx H)))) as (p & Hp & Ha').
          destruct (Hfresh _ _ Hp). exists p. by rewrite !lookup_insert_ne.
        * cbn [fst snd] in H. rewrite Hload in H. destruct H as ([= <- <-] & <- & <-). exists (next_address s). by rewrite !lookup_insert_eq. }
  refine (runs_mono _ _ _ _ (IH (l0 ++ [(id, r, i)]) s1 Hsh1 _ _) _); [by rewrite <- app_assoc|intros x Hx; apply Hl; by constructor|].
  intros _ s' [H1 (au & na & mp & ->)]. rewrite <- app_assoc in H1. split; [exact H1|]. by exists au, na, mp.
Qed.

(** ** The start *)

(** The tables after [SetHighestGuids]: references to items that cannot exist are gone. *)
Definition cleaned (d : DB) : DB :=
  let hi := max_key (item_instance d) + 1 in
  mkDB (filter (fun kx => itemguid kx.2 < hi) (auctionhouse d)) (item_instance d) (filter (fun kx => kx.1 < hi) (character_inventory d)) (mail d)
    (filter (fun kx => kx.1 < hi) (mail_items d)) (gold d).

Record started (d : DB) (s : AH) : Prop := {
  st_auctions : auctions s = ∅;
  st_next_address : next_address s = 0;
  st_next_auction : next_auction s = max_key (auctionhouse (cleaned d)) + 1;
  st_map : AuctionsMap s = ∅;
  st_objects : objects s = ∅;
  st_mAitems : mAitems s = ∅;
  st_next_item : next_item s = max_key (item_instance d) + 1;
  st_next_mail : next_mail s = max_key (mail d) + 1;
  st_db : db s = cleaned d
}.

Lemma SetHighestGuids_runs d : runs SetHighestGuids (booted d) (fun _ s' => started d s').
Proof.
  unfold SetHighestGuids. repeat ah_step. do 3 (eapply runs_exec; [reflexivity|]; repeat ah_step). by split.
Qed.

Section Restart.
Context (known : Z -> Prop) (w : World) (s : AH) (Hs : sound known s).

(** Nothing of an auction is cleaned away. *)
Lemma cleaned_auctions : auctionhouse (cleaned (db s)) = auctionhouse (db s).
Proof.
  apply map_filter_id. intros id r (h & a & Hl & ->)%(so_row _ _ Hs). cbn.
  destruct (so_item_row _ _ Hs _ _ _ Hl) as (i & Hi & _). pose proof (max_key_le (item_instance (db s)) (itemGUIDLow a) ltac:(eauto)). lia.
Qed.

Lemma cleaned_row id r i :
  (id, r, i) ∈ auction_rows (cleaned (db s)) <->
  exists h a, listed_at s h id a /\ r = row_of a /\ item_instance (db s) !! itemGUIDLow a = Some i /\ r_entry i = itemEntry a /\ r_count i = itemCount a.
Proof.
  rewrite elem_of_auction_rows, cleaned_auctions, (so_row _ _ Hs). split.
  - intros [(h & a & Hl & ->) Hi]. exists h, a. destruct (so_item_row _ _ Hs _ _ _ Hl) as (i' & Hi' & He & Hc). cbn in Hi.
    rewrite Hi' in Hi. by injection Hi as <-.
  - intros (h & a & Hl & -> & Hi & _). split; [by exists h, a|done].
Qed.

Lemma cleaned_guids : NoDup (guids (auction_rows (cleaned (db s)))).
Proof.
  pose proof (auction_rows_ids (cleaned (db s))) as Hnd. unfold guids.
  assert (forall x y, x ∈ auction_rows (cleaned (db s)) -> y ∈ auction_rows (cleaned (db s)) -> itemguid x.1.2 = itemguid y.1.2 -> x.1.1 = y.1.1) as Hinj.
  { intros [[id r] i] [[id' r'] i'] (h & a & Hla & -> & _)%cleaned_row (h' & a' & Hla' & -> & _)%cleaned_row E.
    exact (so_distinct _ _ Hs _ _ _ _ _ _ Hla Hla' E). }
  induction (auction_rows (cleaned (db s))) as [|x rows IH]; [constructor|]. cbn in *. apply NoDup_cons in Hnd as [Hx Hnd].
  apply NoDup_cons. split.
  - intros (y & E & Hy)%list_elem_of_fmap. apply Hx. rewrite (Hinj x y); [by do 2 apply (list_elem_of_fmap_2 fst)|constructor|by constructor|done].
  - apply IH; [done|]. intros y z Hy Hz. apply Hinj; by constructor.
Qed.

(** A world in which the tables can be read back. *)
Record readable : Prop := {
  rd_catalogue : forall e, known e -> is_Some (item_template w e);
  rd_auction : forall h id a, listed_at s h id a -> storable a /\ from_here w h a
}.

Section Load.
Context (Hr : readable) (s0 : AH) (H0 : started (db s) s0).

Lemma loaded_row id r i :
  (id, r, i) ∈ auction_rows (cleaned (db s)) ->
  exists h a f, listed_at s h id a /\ Id a = id /\ itemguid r = itemGUIDLow a /\ LoadFromFieldList w id r i = Some (a, f) /\ GetAuctionsMap w f = h /\
    r_entry i = itemEntry a /\ r_count i = itemCount a /\ item_instance (db s) !! itemGUIDLow a = Some i.
Proof.
  intros (h & a & Hl & -> & Hi & He & Hc)%cleaned_row. destruct (rd_auction Hr _ _ _ Hl) as [Hst Hfrom].
  pose proof (sound_listed _ _ _ _ _ Hs Hl) as Hid. destruct (load_row w h id a i Hid Hst Hfrom He Hc) as (f & Hload & Hh).
  exists h, a, f. done.
Qed.

Lemma loaded_known e id r i : (id, r, i) ∈ auction_rows (cleaned (db s)) -> r_entry i = e -> known e.
Proof.
  intros (h & a & f & Hl & _ & _ & _ & _ & He & _)%loaded_row <-. destruct (so_item _ _ Hs _ _ _ Hl) as [_ (x & Hx & Ex & _)].
  rewrite He, <- Ex. apply (so_known _ _ Hs _ _ Hx).
Qed.

(** What both loads leave behind. *)
Record reloaded (s' : AH) : Prop := {
  re_shelved : shelved w (auction_rows (cleaned (db s))) s';
  re_db : db s' = cleaned (db s);
  re_next_item : next_item s' = next_item s0;
  re_next_auction : next_auction s' = next_auction s0;
  re_next_mail : next_mail s' = next_mail s0;
  re_mAitems : forall g, g ∈ mAitems s' <-> g ∈ guids (auction_rows (cleaned (db s)));
  re_objects : forall g i, objects s' !! g = Some i <->
    exists x, x ∈ auction_rows (cleaned (db s)) /\ itemguid x.1.2 = g /\ i = mkItem (r_entry x.2) (r_count x.2) 0 ITEM_NEW None false
}.

Lemma load_runs : runs (LoadAuctionItems w ;; LoadAuctions w) s0 (fun _ s' => reloaded s').
Proof.
  set (rows := auction_rows (cleaned (db s))). pose proof cleaned_guids as Hnd. fold rows in Hnd. pose proof (st_db _ _ H0) as Edb.
  apply runs_bind. unfold LoadAuctionItems. repeat ah_step. rewrite (st_mAitems _ _ H0). rewrite elements_empty. cbn [mapM_]. repeat ah_step.
  change (db (set_mAitems ∅ s0)) with (db s0). rewrite Edb. fold rows. change (fun x : full_row => _) with (item_body w).
  refine (runs_mono _ _ _ _ (load_items_loop w rows (set_mAitems ∅ s0) Hnd _) _).
  { intros [[id r] i] Hx. split; [apply (rd_catalogue Hr); by apply (loaded_known _ _ _ _ Hx)|cbn; set_solver]. }
  intros _ s1 (o & m & -> & Hm & Hoth & Hobj). cbn in Hm, Hoth.
  unfold LoadAuctions. repeat ah_step. cbn [db set_mAitems set_objects]. rewrite Edb. fold rows. change (fun x : full_row => _) with (auction_body w).
  match goal with |- runs _ ?st _ => set (s2 := st) end.
  refine (runs_mono _ _ _ _ (load_auctions_loop w [] rows s2 _ _ _) _).
  - split; cbn; rewrite ?(st_map _ _ H0), ?(st_auctions _ _ H0).
    + intros h id p H. by rewrite lookup_empty in H.
    + intros k k' p H. by rewrite lookup_empty in H.
    + intros p H. rewrite lookup_empty in H. by destruct H.
    + intros h id a. split; [|intros (x & f & H & _); by apply not_elem_of_nil in H]. intros (p & H & _). cbn in H.
      by rewrite (st_map _ _ H0), lookup_empty in H.
  - apply auction_rows_ids.
  - intros [[id r] i] Hx. destruct (loaded_row _ _ _ Hx) as (h & a & f & Hl & Hid & Eg & Hload & _). cbn [fst snd]. split_and!.
    + cbn. apply Hm. right. by apply (list_elem_of_fmap_2 (fun x => itemguid x.1.2) rows (id, r, i)).
    + rewrite Eg. apply (rd_auction Hr _ _ _ Hl).
    + rewrite Eg. apply (rd_auction Hr _ _ _ Hl).
    + exists a, f. by rewrite Hid.
  - cbn [app]. intros _ s3 [Hsh (au & na & mp & ->)]. eapply runs_commit; [reflexivity|]. split; try done.
    + destruct Hsh. by split.
    + intros g. cbn. rewrite Hm. split; [intros [H|H]; [set_solver|done]|by right].
    + intros g i. cbn. split.
      * intros Hg. destruct (decide (g ∈ guids rows)) as [(x & -> & Hx)%list_elem_of_fmap|Hn].
        -- exists x. rewrite (Hobj x Hx) in Hg. by injection Hg as <-.
        -- rewrite (Hoth g Hn) in Hg. cbn in Hg. by rewrite (st_objects _ _ H0), lookup_empty in Hg.
      * intros (x & Hx & <- & ->). by apply Hobj.
Qed.

Lemma reloaded_listed s' h id a : reloaded s' -> listed_at s' h id a <-> listed_at s h id a.
Proof.
  intros H'. rewrite (sh_listed _ _ _ (re_shelved _ H')). split.
  - intros ([[id' r] i] & f & Hx & Hload & Hh & <-). cbn [fst snd] in *. destruct (loaded_row _ _ _ Hx) as (h0 & a0 & f0 & Hl & _ & _ & Hload0 & Hh0 & _).
    rewrite Hload in Hload0. injection Hload0 as -> ->. by subst.
  - intros Hl. destruct (so_item_row _ _ Hs _ _ _ Hl) as (i & Hi & He & Hc).
    assert ((id, row_of a, i) ∈ auction_rows (cleaned (db s))) as Hx by (apply cleaned_row; by exists h, a).
    destruct (loaded_row _ _ _ Hx) as (h0 & a0 & f & Hl0 & _ & _ & Hload & Hh & _).
    destruct (sound_listed_unique _ _ _ _ _ _ _ Hs Hl Hl0) as [-> ->]. by exists (id, row_of a, i), f.
Qed.

Lemma reloaded_store s' g : reloaded s' -> g ∈ mAitems s' <-> g ∈ mAitems s.
Proof.
  intros H'. rewrite (re_mAitems _ H'). split.
  - intros ([[id r] i] & -> & Hx)%list_elem_of_fmap. destruct (loaded_row _ _ _ Hx) as (h & a & f & Hl & _ & Eg & _). cbn. rewrite Eg.
    apply (so_item _ _ Hs _ _ _ Hl).
  - intros (h & id & a & Hl & <-)%(so_store _ _ Hs). destruct (so_item_row _ _ Hs _ _ _ Hl) as (i & Hi & He & Hc).
    apply (list_elem_of_fmap_2' (fun x : full_row => itemguid x.1.2) _ (id, row_of a, i)); [|done]. apply cleaned_row. by exists h, a.
Qed.

Lemma reloaded_sound s' : reloaded s' -> sound known s'.
Proof.
  intros H'. pose proof (reloaded_listed s') as HL. pose proof (fun h id a => HL h id a H') as HL'. clear HL.
  pose proof (fun g => reloaded_store s' g H') as HG. pose proof (re_shelved _ H') as [M1 M2 M3 _].
  assert (forall h id, is_Some (AuctionsMap s' !! (h, id)) -> exists a, listed_at s h id a) as Hmap.
  { intros h id [p Hp]. destruct (M1 _ _ _ Hp) as (a & Ha & _). exists a. apply HL'. by exists p. }
  assert (forall g, is_Some (item_instance (db s) !! g) -> g < next_item s') as Hlt.
  { intros g Hg. rewrite (re_next_item _ H'), (st_next_item _ _ H0). pose proof (max_key_le _ _ Hg). lia. }
  assert (forall h id a, listed_at s h id a -> row_says (db s') (itemGUIDLow a) (itemEntry a) (itemCount a)) as Hrow.
  { intros h id a Hl. rewrite (re_db _ H'). exact (so_item_row _ _ Hs _ _ _ Hl). }
  split.
  - exact M1.
  - exact M2.
  - intros h h' id [a Hl]%Hmap [a' Hl']%Hmap. by destruct (sound_listed_unique _ _ _ _ _ _ _ Hs Hl Hl').
  - intros h id [a Hl]%Hmap. rewrite (re_next_auction _ H'), (st_next_auction _ _ H0).
    assert (is_Some (auctionhouse (cleaned (db s)) !! id)) as Hi; [|pose proof (max_key_le _ _ Hi); lia].
    rewrite cleaned_auctions. exists (row_of a). apply (so_row _ _ Hs). by exists h, a.
  - exact M3.
  - intros h id a Hl%HL'. rewrite HG. destruct (so_item _ _ Hs _ _ _ Hl) as [H1 _]. split; [done|].
    destruct (so_item_row _ _ Hs _ _ _ Hl) as (i & Hi & He & Hc).
    exists (mkItem (r_entry i) (r_count i) 0 ITEM_NEW None false). split; [|done]. apply (re_objects _ H').
    exists (id, row_of a, i). split; [apply cleaned_row; by exists h, a|done].
  - intros g (h & id & a & Hl & E)%HG%(so_store _ _ Hs). exists h, id, a. by rewrite HL'.
  - intros h id a h' id' a' Hl%HL' Hl'%HL'. exact (so_distinct _ _ Hs _ _ _ _ _ _ Hl Hl').
  - intros g i ([[id r] ir] & Hx & <- & ->)%(re_objects _ H'). cbn. split; [exact (loaded_known _ _ _ _ Hx eq_refl)|]. apply Hlt.
    apply elem_of_auction_rows in Hx as [_ Hx]. cbn in Hx. eauto.
  - intros id r. rewrite (re_db _ H'), cleaned_auctions, (so_row _ _ Hs). split; intros (h & a & Hl & E); exists h, a; (split; [by apply HL'|done]).
  - intros h id a Hl%HL'. exact (Hrow _ _ _ Hl).
  - intros g i q ([[id r] ir] & _ & _ & ->)%(re_objects _ H') Hq. done.
  - intros g. rewrite (re_db _ H'). cbn. intros [x [Hx Hg]%map_lookup_filter_Some]. rewrite HG. destruct (so_inventory _ _ Hs g ltac:(eauto)) as (H1 & H2 & _).
    split_and!; [done| |]; [apply map_lookup_filter_None; by left|]. rewrite (re_next_item _ H'), (st_next_item _ _ H0). exact Hg.
  - intros g. rewrite (re_db _ H'). cbn. intros [x [Hx Hg]%map_lookup_filter_Some]. rewrite HG. destruct (so_mailed _ _ Hs g ltac:(eauto)) as (H1 & _).
    split; [done|]. rewrite (re_next_item _ H'), (st_next_item _ _ H0). exact Hg.
  - intros g. rewrite (re_db _ H'). apply Hlt.
  - intros id. rewrite (re_db _ H'), (re_next_mail _ H'), (st_next_mail _ _ H0). cbn. intros Hi. pose proof (max_key_le _ _ Hi). lia.
Qed.
End Load.

(** ** Nothing was over *)

Lemma startup_reloads :
  readable -> (forall h id a, listed_at s h id a -> deadline w < expire_time a) ->
  runs (startup w) (booted (db s)) (fun _ s' => (forall h id a, listed_at s' h id a <-> listed_at s h id a) /\
    (forall g, g ∈ mAitems s' <-> g ∈ mAitems s) /\ db s' = cleaned (db s) /\ sound known s').
Proof.
  intros Hr Htime. unfold startup. apply runs_bind, (runs_mono _ _ _ _ (SetHighestGuids_runs (db s))). intros _ s0 H0.
  apply runs_bind. unfold DeleteExpiredAuctionsAtStartup. repeat ah_step. rewrite (st_db _ _ H0).
  assert (filter (fun x : full_row => time_ x.1.2 <= deadline w) (auction_rows (cleaned (db s))) = []) as ->.
  { apply elem_of_nil_inv. intros [[id r] i] [Ht Hx]%list_elem_of_filter. apply cleaned_row in Hx as (h & a & Hl & -> & _). cbn in Ht.
    pose proof (Htime _ _ _ Hl). lia. }
  cbn [mapM_]. ah_step. apply (runs_mono _ _ _ _ (load_runs Hr s0 H0)). intros _ s' H'. split_and!.
  - intros h id a. exact (reloaded_listed Hr s0 s' h id a H').
  - intros g. exact (reloaded_store Hr s0 s' g H').
  - exact (re_db _ _ H').
  - exact (reloaded_sound Hr s0 H0 s' H').
Qed.
End Restart.

(** ** What was over *)

Definition close_body (w : World) (x : full_row) : T unit :=
  let '(id, r, i) := x in
  match LoadFromFieldList w id r i with
  | None => mret tt
  | Some (a, _) =>
    BeginTransaction ;;
    (if bidder a =? 0 then SendAuctionExpiredMail w a else SendAuctionSuccessfulMail w a ;; SendAuctionWonMail w a) ;;
    DeleteFromDB a ;;
    CommitTransaction
  end.

(** The items are not loaded yet: only the seller's money is sent. *)
Definition early_letters (w : World) (a : AuctionEntry) (n : Z) : list letter := if bidder a =? 0 then [] else success_letters w a n.

Lemma early_sent w a s :
  mAitems s = ∅ ->
  runs (if bidder a =? 0 then SendAuctionExpiredMail w a else SendAuctionSuccessfulMail w a ;; SendAuctionWonMail w a) s
    (fun _ s' => sent (early_letters w a (next_mail s)) s s').
Proof.
  intros He. unfold early_letters. destruct (bidder a =? 0).
  - unfold SendAuctionExpiredMail, GetAItem. repeat ah_step. rewrite He, bool_decide_eq_false_2 by set_solver. apply runs_ret, sent_refl.
  - apply runs_bind, (runs_mono _ _ _ _ (successful_sent w a s)). intros _ s1 H1.
    unfold SendAuctionWonMail, GetAItem. repeat ah_step. rewrite (se_mAitems _ _ _ H1), He, bool_decide_eq_false_2 by set_solver. by apply runs_ret.
Qed.

Record closing (w : World) (l : list full_row) (s s' : AH) : Prop := {
  co_store : mAitems s' = ∅;
  co_mail : forall id, is_Some (mail (db s') !! id) -> id < next_mail s';
  co_inventory : character_inventory (db s') = character_inventory (db s);
  co_mail_items : forall g, mail_items (db s') !! g = None <-> mail_items (db s) !! g = None;
  co_auctionhouse : forall id r, auctionhouse (db s') !! id = Some r -> auctionhouse (db s) !! id = Some r /\
    forall x, x ∈ l -> is_Some (LoadFromFieldList w x.1.1 x.1.2 x.2) -> u32 x.1.1 <> id
}.

Lemma LoadFromFieldList_Id w id r i a f : LoadFromFieldList w id r i = Some (a, f) -> Id a = u32 id.
Proof.
  unfold LoadFromFieldList. destruct (auctioneer_faction w (auctioneerguid r)) as [x|]; [|done]. cbn [mbind option_bind].
  destruct (GetAuctionHouseEntry w x); [|done]. by intros [= <- _].
Qed.

Lemma close_loop w l s :
  mAitems s = ∅ -> (forall id, is_Some (mail (db s) !! id) -> id < next_mail s) -> runs (mapM_ (close_body w) l) s (fun _ s' => closing w l s s').
Proof.
  revert s. induction l as [|[[id r] i] l IH]; intros s He Hmail.
  { apply runs_ret. split; try done. intros id r Hr. split; [done|]. intros x Hx. by apply not_elem_of_nil in Hx. }
  cbn [mapM_]. apply runs_bind. unfold close_body at 1. destruct (LoadFromFieldList w id r i) as [[a f]|] eqn:Hload.
  - repeat ah_step. apply (runs_mono _ _ _ _ (early_sent w a (set_trans [] s) He)). cbn [next_mail set_trans].
    set (ls := early_letters w a (next_mail s)). intros _ s1 H1.
    assert (omap snd ls = []) as Hc by (unfold ls, early_letters; destruct (_ =? _); [done|apply no_items_success]).
    apply runs_bind, runs_delete_row. rewrite (LoadFromFieldList_Id _ _ _ _ _ _ Hload). pose proof (se_db _ _ _ H1) as Hd. cbn [db set_trans] in Hd.
    apply (runs_commit _ (post ls (without_row (u32 id) (db s1)))).
    { cbn. rewrite (se_trans _ _ _ H1). cbn. rewrite <- (app_nil_r (flat_map _ _)). apply (post_accepted (next_mail s)).
      - exact (se_numbered _ _ _ H1).
      - intros j. cbn. rewrite (al_mail _ _ Hd). apply Hmail.
      - rewrite Hc. constructor.
      - rewrite Hc. intros g Hg. by apply not_elem_of_nil in Hg. }
    match goal with |- runs _ ?st _ => set (s2 := st) end. pose proof (post_frame ls (without_row (u32 id) (db s1))) as (F1 & F2 & F3 & _).
    refine (runs_mono _ _ _ _ (IH s2 _ _) _).
    + cbn. rewrite (se_mAitems _ _ _ H1). exact He.
    + intros j. cbn. rewrite (post_mail (next_mail s)) by exact (se_numbered _ _ _ H1). cbn. rewrite (al_mail _ _ Hd), (se_next_mail _ _ _ H1). cbn.
      intros [Hj|Hj]; [pose proof (Hmail j Hj)|]; lia.
    + intros _ s' [C1 C2 C3 C4 C5]. cbn in C3, C4, C5. split; [done|done| | |].
      * by rewrite C3, F3, <- (al_inventory _ _ Hd).
      * intros g. rewrite C4, post_item, Hc. cbn. rewrite (al_mail_items _ _ Hd). pose proof (not_elem_of_nil (A := Z) g). tauto.
      * intros j rj [Hj Hx]%C5. rewrite F1 in Hj. cbn in Hj. apply lookup_delete_Some in Hj as [Hne Hj]. rewrite (al_auctionhouse _ _ Hd) in Hj.
        split; [done|]. intros x [->|Hin]%elem_of_cons; [by cbn|by apply Hx].
  - apply runs_ret, (runs_mono _ _ _ _ (IH s He Hmail)). intros _ s' [C1 C2 C3 C4 C5]. split; try done.
    intros j rj [Hj Hx]%C5. split; [done|]. intros x [->|Hin]%elem_of_cons; [|by apply Hx]. cbn. rewrite Hload. by intros [].
Qed.

Section Over.
Context (known : Z -> Prop) (w : World) (s : AH) (Hs : sound known s).

Lemma startup_closes :
  (forall h id a, listed_at s h id a -> storable a /\ from_here w h a) ->
  runs (SetHighestGuids ;; DeleteExpiredAuctionsAtStartup w) (booted (db s)) (fun _ s' =>
    forall h id a, listed_at s h id a -> expire_time a <= deadline w -> located (db s') (itemGUIDLow a) = false).
Proof.
  intros Hr. apply runs_bind, (runs_mono _ _ _ _ (SetHighestGuids_runs (db s))). intros _ s0 H0.
  unfold DeleteExpiredAuctionsAtStartup. repeat ah_step. rewrite (st_db _ _ H0). change (fun x : full_row => let '(id, r, i) := x in _) with (close_body w).
  refine (runs_mono _ _ _ _ (close_loop w _ s0 (st_mAitems _ _ H0) _) _).
  { intros id. rewrite (st_db _ _ H0), (st_next_mail _ _ H0). cbn. intros Hi. pose proof (max_key_le _ _ Hi). lia. }
  intros _ s' [_ _ C3 C4 C5] h id a Hl Ht. rewrite (st_db _ _ H0) in C3, C4, C5.
  destruct (so_item _ _ Hs _ _ _ Hl) as [Hin _]. apply not_true_iff_false. rewrite located_spec. intros [Hi|[Hi|(j & r & Hj & Eg)]].
  - rewrite C3 in Hi. destruct Hi as [x [Hi _]%map_lookup_filter_Some]. by destruct (so_inventory _ _ Hs (itemGUIDLow a) ltac:(eauto)).
  - apply not_eq_None_Some in Hi. apply Hi, C4. destruct (mail_items (cleaned (db s)) !! itemGUIDLow a) as [x|] eqn:E; [|done].
    apply map_lookup_filter_Some in E as [E _]. by destruct (so_mailed _ _ Hs (itemGUIDLow a) ltac:(eauto)).
  - destruct (C5 _ _ Hj) as [Hj0 Hx]. rewrite (cleaned_auctions known s Hs) in Hj0. apply (so_row _ _ Hs) in Hj0 as (h' & a' & Hl' & ->).
    pose proof (so_distinct _ _ Hs _ _ _ _ _ _ Hl' Hl Eg) as ->. destruct (sound_listed_unique _ _ _ _ _ _ _ Hs Hl Hl') as [-> ->].
    destruct (so_item_row _ _ Hs _ _ _ Hl) as (i & Hi & He & Hc). destruct (Hr _ _ _ Hl) as [Hst Hfrom]. pose proof (sound_listed _ _ _ _ _ Hs Hl) as Hid.
    destruct (load_row w h id a i Hid Hst Hfrom He Hc) as (f & Hload & _). apply (Hx (id, row_of a, i)); cbn [fst snd].
    + apply list_elem_of_filter. split; [exact Ht|]. apply (cleaned_row known s Hs). by exists h, a.
    + rewrite Hload. eauto.
    + rewrite <- Hid. apply wrap_small, Hst.
Qed.
End Over.
