(* ===== verification/AuctionTick.v ===== *)
(** * AuctionTick: which auctions an update closes

    An update asks the table for the ids that are over and closes those it finds in the
    house.  Since the table and the houses agree, it closes exactly the auctions that are
    over. *)

From S2P Require Import Prelude.
From S2P Require Import AuctionHouse AuctionHandler AuctionSpec AuctionEnd AuctionSafety AuctionBid AuctionSell AuctionList AuctionHistory.

Lemma elem_of_expired_ids w d id :
  id ∈ expired_ids w d <-> exists r, auctionhouse d !! id = Some r /\ time_ r <= deadline w.
Proof.
  unfold expired_ids. rewrite list_elem_of_fmap. split.
  - intros ([id' r] & -> & Hx). rewrite merge_sort_Permutation in Hx. apply list_elem_of_filter in Hx as [Ht Hx%elem_of_ordered]. by exists r.
  - intros (r & Hr & Ht). exists (id, r). split; [done|]. rewrite merge_sort_Permutation. apply list_elem_of_filter. split; [done|]. by apply elem_of_ordered.
Qed.

Section Tick.
Context (known : Z -> Prop) (w : World) (Hw : benign known w).

(** The invariant, and the auctions of [s] except those of [over]. *)
Definition rid_of (over : house -> Z -> AuctionEntry -> Prop) (s s' : AH) : Prop :=
  sound known s' /\ forall h id a, listed_at s' h id a <-> listed_at s h id a /\ ~ over h id a.

Lemma rid_of_nothing over s : sound known s -> (forall h id a, listed_at s h id a -> ~ over h id a) -> rid_of over s s.
Proof. intros Hs H. split; [done|]. intros h id a. split; [|by intros []]. intros Hl. split; [done|by apply (H h id a)]. Qed.

Lemma rid_of_mono over over' s s' : rid_of over s s' -> (forall h id a, listed_at s h id a -> over h id a <-> over' h id a) -> rid_of over' s s'.
Proof.
  intros [Hs H] E. split; [done|]. intros h id a. rewrite H. split; intros [Hl Hn]; (split; [done|]); by rewrite ?(E h id a Hl) in *.
Qed.

Lemma rid_of_then o1 o2 s s1 s2 : rid_of o1 s s1 -> rid_of o2 s1 s2 -> rid_of (fun h id a => o1 h id a \/ o2 h id a) s s2.
Proof. intros [_ H1] [Hs H2]. split; [done|]. intros h id a. rewrite H2, H1. tauto. Qed.

Lemma UpdateOne_rid h id s : sound known s -> runs (UpdateOne w h id) s (fun _ s' => rid_of (fun h' id' _ => h' = h /\ id' = id) s s').
Proof.
  intros Hs. destruct (AuctionsMap s !! (h, id)) as [p|] eqn:Hp.
  - destruct (sound_find _ _ _ _ _ Hs Hp) as (a & Ha & Hla & _).
    apply (runs_mono _ _ _ _ (UpdateOne_ended known w s h id p a Hs (be_freed _ _ Hw) Hp Ha)). intros _ s0 He.
    split; [exact (ended_sound _ _ _ _ _ _ _ _ _ Hs Hp Ha (carries_closing _ _ _) He)|]. intros h' id' a'.
    rewrite (ended_listed known h id p a _ _ s s0 Hs Hp Ha He). split; intros [Hl Hn]; (split; [done|]); [tauto|].
    intros ->. apply Hn. split; [|done]. by destruct (sound_listed_unique _ _ _ _ _ _ _ Hs Hla Hl).
  - unfold UpdateOne. repeat ah_step. unfold GetAuction. rewrite Hp. apply runs_ret, rid_of_nothing; [done|].
    intros h' id' a (p & Hp' & _) [-> ->]. congruence.
Qed.

Lemma UpdateAll_rid h l s : sound known s -> runs (mapM_ (UpdateOne w h) l) s (fun _ s' => rid_of (fun h' id _ => h' = h /\ id ∈ l) s s').
Proof.
  revert s. induction l as [|i l IH]; intros s Hs.
  { apply runs_ret, rid_of_nothing; [done|]. intros h' id a _ [_ H]. by apply not_elem_of_nil in H. }
  cbn [mapM_]. apply runs_bind, (runs_mono _ _ _ _ (UpdateOne_rid h i s Hs)). intros _ s1 H1.
  apply (runs_mono _ _ _ _ (IH s1 (proj1 H1))). intros _ s2 H2. apply (rid_of_mono _ _ _ _ (rid_of_then _ _ _ _ _ H1 H2)).
  intros h' id a _. rewrite elem_of_cons. tauto.
Qed.

Lemma expired_listed s h id a : sound known s -> listed_at s h id a -> id ∈ expired_ids w (db s) <-> expire_time a <= deadline w.
Proof.
  intros Hs Hl. rewrite elem_of_expired_ids. split.
  - intros (r & (h' & a' & Hl' & ->)%(so_row _ _ Hs) & Ht). by destruct (sound_listed_unique _ _ _ _ _ _ _ Hs Hl Hl') as [_ ->].
  - intros Ht. exists (row_of a). split; [|done]. apply (so_row _ _ Hs). by exists h, a.
Qed.

Lemma UpdateHouse_rid h s : sound known s -> runs (UpdateHouse w h) s (fun _ s' => rid_of (fun h' _ a => h' = h /\ expire_time a <= deadline w) s s').
Proof.
  intros Hs. unfold UpdateHouse. repeat ah_step. destruct (bool_decide _) eqn:E.
  - apply bool_decide_eq_true in E. apply runs_ret, rid_of_nothing; [done|]. intros h' id a (p & Hp & _) [-> _]. by apply (E _ _ Hp).
  - apply (runs_mono _ _ _ _ (UpdateAll_rid h _ s Hs)). intros _ s' H. apply (rid_of_mono _ _ _ _ H). intros h' id a Hl.
    by rewrite (expired_listed _ _ _ _ Hs Hl).
Qed.

Lemma Update_rid s : sound known s -> runs (Update w) s (fun _ s' => rid_of (fun _ _ a => expire_time a <= deadline w) s s').
Proof.
  intros Hs. unfold Update. apply runs_bind, (runs_mono _ _ _ _ (UpdateHouse_rid Horde_house s Hs)). intros _ s1 H1.
  apply runs_bind, (runs_mono _ _ _ _ (UpdateHouse_rid Alliance_house s1 (proj1 H1))). intros _ s2 H2.
  apply (runs_mono _ _ _ _ (UpdateHouse_rid Neutral_house s2 (proj1 H2))). intros _ s3 H3.
  apply (rid_of_mono _ _ _ _ (rid_of_then _ _ _ _ _ (rid_of_then _ _ _ _ _ H1 H2) H3)). intros [] id a _; intuition congruence.
Qed.
End Tick.
