(* ===== verification/AuctionProps.v ===== *)
(** * AuctionProps: the properties of the auction house

    What any history of sales, bids, cancellations and updates keeps, what a restart
    brings back, and where items are lost, each with a run of the server on a small
    example. *)

From S2P Require Import Prelude Float32.
From S2P Require Import AuctionHouse AuctionHandler AuctionSpec AuctionEnd AuctionSafety AuctionBid AuctionSell AuctionList AuctionHistory AuctionItems AuctionSales AuctionMoney AuctionTick AuctionRestart.

(** ** An example

    Player 1 has a stack of ten of item 100, player 2 has money.  The auctioneer is of
    the alliance. *)

Definition stall (time : Z) (there : Z -> bool) (log_trade : bool) : World := {|
  now := time; game_time := time; online := there; account := fun _ => 7; mails_loaded := there;
  game_master := fun _ => false; gm_log_trade := log_trade; player_security := fun _ => false; two_side := false;
  faction_mask := fun f => if f =? 10 then Some FACTION_MASK_ALLIANCE else None;
  house_store := fun id => Some (mkHouse id 15 5);
  auctioneer_faction := fun _ => Some 10;
  item_template := fun e => if e =? 100 then Some (mkTemplate 40 20) else None;
  tradeable := fun _ => true;
  rate_deposit := f_one; rate_cut := f_one; rate_time := f_one; mail_delay := 3600;
  freed_intact := fun _ => true
|}.

Definition everybody (p : Z) : bool := true.
Definition seller_only (p : Z) : bool := p =? 1.

Definition only_100 (e : Z) : Prop := e = 100.

Definition bags_tables : DB := mkDB ∅ {[5 := mkItemRow 100 10 1]} {[5 := 1]} ∅ ∅ ∅.
Definition bags : AH :=
  mkAH ∅ 0 1 ∅ {[5 := mkItem 100 10 1 ITEM_UNCHANGED (Some 1) false]} ∅ 6 1 {[1 := 100000; 2 := 100000]} ∅ ∅ bags_tables [bags_tables] [] [].

Definition stack_5 : Z := MAKE_NEW_GUID 5 0 HIGHGUID_ITEM.
Definition opens : Z := 1000000.
Definition over : Z := opens + MIN_AUCTION_TIME.

Definition put_up_for_sale : ah_cmd := Sell 1 (Some 10) 77 [(stack_5, 10)] 500 2000 720.
Definition day : list (World * ah_cmd) :=
  [(stall opens everybody true, put_up_for_sale);
   (stall (opens + 60) everybody true, PlaceBid 2 (Some 10) 1 600)].
Definition evening : World * ah_cmd := (stall over seller_only true, Tick).

Lemma stall_benign time there log_trade : benign only_100 (stall time there log_trade).
Proof. split; [intros e ->; by eexists|done]. Qed.

Lemma day_benign : Forall (fun wc : World * ah_cmd => benign only_100 wc.1) (day ++ [evening]).
Proof. repeat constructor; apply stall_benign. Qed.

Lemma day_only_benign : Forall (fun wc : World * ah_cmd => benign only_100 wc.1) day.
Proof. apply (Forall_app _ day [evening]), day_benign. Qed.

Lemma bags_counts : counts_ok (db bags).
Proof. intros g r. cbn. by intros [<- <-]%lookup_singleton_Some. Qed.

Lemma bags_sound : sound only_100 bags.
Proof.
  assert (forall h id a, ~ listed_at bags h id a) as Hno by (intros h id a (p & H & _); discriminate H).
  split; cbn.
  all: try (intros; match goal with H : listed_at bags _ _ _ |- _ => destruct (Hno _ _ _ H) end).
  - intros h id p H. discriminate H.
  - intros k k' p H. discriminate H.
  - by intros h h' id [].
  - by intros h id [].
  - by intros p [].
  - intros g H. by apply not_elem_of_empty in H.
  - by intros g i [<- <-]%lookup_singleton_Some.
  - intros id r. split; [intros H; discriminate H|]. intros (h & a & H & _). by destruct (Hno _ _ _ H).
  - intros g i p [<- <-]%lookup_singleton_Some _. split; [by eexists|]. by exists (mkItemRow 100 10 1).
  - by intros g [x [<- _]%lookup_singleton_Some].
  - by intros g [].
  - by intros g [x [<- _]%lookup_singleton_Some].
  - by intros id [].
Qed.

Definition after (l : list (World * ah_cmd)) : AH := (history l bags).2.

(** The bid stands: 600 of player 2. *)
Example day_ends : (fun a => (itemGUIDLow a, itemCount a, bid a, bidder a, expire_time a)) <$> auctions (after day) !! 0 = Some (5, 10, 600, 2, over).
Proof. vm_compute. reflexivity. Qed.

(** ** Histories are sequences of steps *)

(** The states between the commands, each a [step] after the one before. *)
Fixpoint explained (known : Z -> Prop) (l : list (World * ah_cmd)) (s s' : AH) : Prop :=
  match l with [] => s' = s | (w, c) :: l' => exists s1, step known w c s s1 /\ explained known l' s1 s' end.

Lemma history_explained known l s :
  sound known s -> Forall (fun wc => benign known wc.1) l -> runs (history l) s (fun _ s' => explained known l s s' /\ sound known s').
Proof.
  revert s. induction l as [|[w c] l IH]; intros s Hs HF; [by apply runs_ret|]. apply Forall_cons in HF as [Hw HF].
  unfold history. cbn [mapM_ fst snd]. apply runs_bind, (runs_mono _ _ _ _ (perform_outcome known w Hw s c Hs)). intros _ s1 H1.
  apply (runs_mono _ _ _ _ (IH s1 (step_sound _ _ _ _ _ Hs H1) HF)). intros _ s' [H2 H3]. split; [by exists s1|done].
Qed.

Lemma history_sound known l s : sound known s -> Forall (fun wc => benign known wc.1) l -> sound known (history l s).2.
Proof. intros Hs HF. destruct (runs_inv _ _ _ (history_explained known l s Hs HF)) as (x & s' & E & _ & H). by rewrite E. Qed.

Lemma day_sound : sound only_100 (after day).
Proof. exact (history_sound only_100 day bags bags_sound day_only_benign). Qed.

(** C3: A sequence of sales, bids, cancellations and updates, by whomever, with whatever
    packets and whatever is true of the world at each moment, in which every item has its
    template, has one way to end in a fault: an update closes an auction and then reads
    it, after it was deleted, from memory that is not as it was.  No other freed or null
    pointer is followed and no assertion fails.  Without that fault every command is one
    of the steps of the specification - nothing happens, an auction is put up, its bid is
    raised, it is bought out or cancelled, or those that are over are closed - and the
    maps, the heap, the store of items and the tables agree afterwards: every auction is
    in one house, has the row and the item it should, no item is sold twice, and no item
    of the store is in somebody's bags or mail. *)
Theorem auction_history_refines known l s :
  sound known s -> Forall (fun wc => catalogued known wc.1) l ->
  match history l s with
  | (Ok _, s') => explained known l s s' /\ sound known s'
  | (Throw f, _) => f = UseAfterFree /\ Exists (fun wc => wc.2 = Tick /\ exists a, freed_intact wc.1 a = false) l
  end.
Proof.
  change (sound known s -> Forall (fun wc => catalogued known wc.1) l ->
    runs_unless (Exists (fun wc => wc.2 = Tick /\ spoils wc.1) l) (history l) s (fun s' => explained known l s s' /\ sound known s')).
  revert s. induction l as [|[w c] l IH]; intros s Hs HF; [by apply runs_unless_intro, runs_ret|]. apply Forall_cons in HF as [Hw HF].
  unfold history. cbn [mapM_ fst snd]. eapply runs_unless_then.
  - eapply runs_unless_mono; [exact (perform_anywhere known w s c Hw Hs)|intros H; apply Exists_cons; by left|intros s1 H1; exact H1].
  - intros s1 H1. cbn beta in H1. eapply runs_unless_mono; [exact (IH s1 (step_sound _ _ _ _ _ Hs H1) HF)|intros H; apply Exists_cons; by right|].
    intros s' [H2 H3]. split; [by exists s1|done].
Qed.

(** The same evening with the memory used again: the update faults. *)
Definition reused (wc : World * ah_cmd) : World * ah_cmd := let (w, c) := wc in ({| w with freed_intact := fun _ => false |}, c).

Lemma auction_history_refines_witness :
  fst (history (day ++ [evening]) bags) = Ok tt /\ fst (history (day ++ [reused evening]) bags) = Throw UseAfterFree /\
  (let l := day ++ [reused evening] in
   match history l bags with
   | (Ok _, s') => explained only_100 l bags s' /\ sound only_100 s'
   | (Throw f, _) => f = UseAfterFree /\ Exists (fun wc => wc.2 = Tick /\ exists a, freed_intact wc.1 a = false) l
   end).
Proof.
  split; [vm_compute; reflexivity|]. split; [vm_compute; reflexivity|]. apply (auction_history_refines only_100 (day ++ [reused evening]) bags bags_sound).
  repeat constructor; intros e ->; by eexists.
Defined.

(** ** Items *)

Lemma along_names_once (P : World -> Prop) l s :
  Forall (fun wc => names_once wc.2 /\ P wc.1) l -> along (fun w c _ _ => names_once c /\ P w) l s.
Proof. revert s. induction l as [|[w c] l IH]; intros s HF; [done|]. apply Forall_cons in HF as [H HF]. split; [done|]. by apply IH. Qed.

Definition never_made (e : Z) (s s' : AH) : Prop := counts_ok (db s) -> crash_safe e s s' /\ counts_ok (db s').

#[export] Instance never_made_refl e : Reflexive (never_made e).
Proof. intros s H. split; [reflexivity|done]. Qed.
#[export] Instance never_made_trans e : Transitive (never_made e).
Proof. intros s1 s2 s3 H1 H2 [A1 A2]%H1. destruct (H2 A2). split; [by etransitivity|done]. Qed.

Definition kept (e : Z) (s s' : AH) : Prop := counts_ok (db s) -> units (db s') e = units (db s) e /\ counts_ok (db s').

#[export] Instance kept_refl e : Reflexive (kept e).
Proof. by intros s H. Qed.
#[export] Instance kept_trans e : Transitive (kept e).
Proof. intros s1 s2 s3 H1 H2 [A1 A2]%H1. destruct (H2 A2). split; [congruence|done]. Qed.

(** C4: No history makes items: counted over everything that lies in a bag, in a mail or
    in an auction, there are never more units of an entry in the tables than at the
    start - not at the end, and not in any state the tables go through between two
    statements, so a crash at any moment does not duplicate anything either.  The packets
    of the sales must name every stack once, which the server does not check. *)
Theorem items_are_never_made known e l s :
  sound known s -> counts_ok (db s) -> Forall (fun wc => benign known wc.1) l -> Forall (fun wc => names_once wc.2) l ->
  runs (history l) s (fun _ s' => units (db s') e <= units (db s) e /\
    exists T, tables s' = tables s ++ T /\ Forall (fun d => units d e <= units (db s) e) T).
Proof.
  intros Hs Hok HF Hn. refine (runs_mono _ _ _ _ (history_runs known (never_made e) (fun w c _ _ => names_once c /\ True) l s _ Hs HF _) _).
  - intros w c s1 s2 Hs1 [Hc _] H Hok1. by destruct (step_items known w e c s1 s2 Hs1 Hc H Hok1) as (A & B & _).
  - apply (along_names_once (fun _ => True)). eapply Forall_impl; [exact Hn|]. by intros.
  - intros _ s' [H _]. by destruct (H Hok) as [[? ?] _].
Qed.

Lemma day_names_once : Forall (fun wc : World * ah_cmd => names_once wc.2) (day ++ [evening]).
Proof. repeat constructor; try (by intros ?%not_elem_of_nil). done. Qed.

Lemma items_are_never_made_witness :
  units (db bags) 100 = 10 /\
  runs (history (day ++ [evening])) bags (fun _ s' => units (db s') 100 <= units (db bags) 100 /\
    exists T, tables s' = tables bags ++ T /\ Forall (fun d => units d 100 <= units (db bags) 100) T).
Proof.
  split; [vm_compute; reflexivity|].
  apply (items_are_never_made only_100 100 (day ++ [evening]) bags bags_sound bags_counts day_benign day_names_once).
Defined.

(** C7: The units of an item in bags, mails and auctions are the same after any history as
    before, when everybody can be reached (trades are logged, so that the code looks up the
    account of a winner who is away, and everybody has an account), no packet names a stack
    twice, every item has its template, and the memory of an auction just deleted is left
    alone until it has been read. *)
Theorem items_are_kept known e l s :
  sound known s -> counts_ok (db s) -> Forall (fun wc => benign known wc.1) l -> Forall (fun wc => names_once wc.2 /\ everybody_reached wc.1) l ->
  runs (history l) s (fun _ s' => units (db s') e = units (db s) e).
Proof.
  intros Hs Hok HF Hn. refine (runs_mono _ _ _ _ (history_runs known (kept e) (fun w c _ _ => names_once c /\ everybody_reached w) l s _ Hs HF _) _).
  - intros w c s1 s2 Hs1 [Hc Hw] H Hok1. destruct (step_items known w e c s1 s2 Hs1 Hc H Hok1) as (_ & A & B). split; [by apply B|done].
  - by apply along_names_once.
  - intros _ s' [H _]. by destruct (H Hok).
Qed.

Lemma day_kept : Forall (fun wc : World * ah_cmd => names_once wc.2 /\ everybody_reached wc.1) (day ++ [evening]).
Proof. repeat constructor; try done; by intros ?%not_elem_of_nil. Qed.

Lemma items_are_kept_witness : units (db bags) 100 = 10 /\ runs (history (day ++ [evening])) bags (fun _ s' => units (db s') 100 = units (db bags) 100).
Proof.
  split; [vm_compute; reflexivity|]. apply (items_are_kept only_100 100 (day ++ [evening]) bags bags_sound bags_counts day_benign day_kept).
Defined.

(** ** Money *)

(** Packets come from players; the cuts are covered before and after the command. *)
Definition fair_command (w : World) (c : ah_cmd) (s s' : AH) : Prop := sender_ok c /\ fair_at w s /\ fair_at w s'.

Definition not_richer (s s' : AH) : Prop := money_ok s -> total s' <= total s /\ money_ok s'.

#[export] Instance not_richer_refl : Reflexive not_richer.
Proof. intros s H. split; [lia|done]. Qed.
#[export] Instance not_richer_trans : Transitive not_richer.
Proof. intros s1 s2 s3 H1 H2 [A1 A2]%H1. destruct (H2 A2). split; [lia|done]. Qed.

(** C5: No history makes money: what the players carry, what lies in the mails and what
    the houses hold for their auctions (the deposit, and the bid if there is one) is never
    more afterwards than before, and purses stay between nothing and the limit.  The
    hypothesis [along] asks before and after every command that no cut exceeds the price
    and the deposit together and that no deposit reaches 2^31, where the code would pay it
    to the seller. *)
Theorem money_is_never_made known l s :
  sound known s -> money_ok s -> Forall (fun wc => benign known wc.1) l -> along fair_command l s ->
  runs (history l) s (fun _ s' => total s' <= total s /\ money_ok s').
Proof.
  intros Hs Hok HF Hal. refine (runs_mono _ _ _ _ (history_runs known not_richer fair_command l s _ Hs HF Hal) _).
  - intros w c s1 s2 Hs1 (Hc & Hf1 & Hf2) H Hok1. exact (step_money known w c s1 s2 Hs1 Hok1 Hc Hf1 Hf2 H).
  - intros _ s' [H _]. exact (H Hok).
Qed.

Lemma bags_money : money_ok bags.
Proof.
  split; [|intros p a H; discriminate H]. intros q m H. cbn in H.
  apply lookup_insert_Some in H as [[_ <-]|[_ [_ <-]%lookup_singleton_Some]]; unfold MAX_MONEY_AMOUNT; lia.
Qed.
Ltac fair_now := unfold fair_at; match goal with |- ?P => apply (bool_decide_unpack P) end; vm_compute; exact I.

Lemma day_fair : along fair_command (day ++ [evening]) bags.
Proof. do 3 (refine (conj (conj _ (conj _ _)) _); [done|fair_now|fair_now|]). exact I. Qed.

Lemma money_is_never_made_witness :
  total bags = 200000 /\ runs (history (day ++ [evening])) bags (fun _ s' => total s' <= total bags /\ money_ok s').
Proof.
  split; [vm_compute; reflexivity|].
  apply (money_is_never_made only_100 (day ++ [evening]) bags bags_sound bags_money day_benign day_fair).
Defined.

(** ** Time *)

(** An update closes exactly the auctions that are over: those whose time is not after
    the current second plus sixty are gone from every house, every other is where it was,
    unchanged, and the invariant holds. *)
Theorem tick_closes_what_is_over known w s :
  sound known s -> benign known w ->
  runs (perform w Tick) s (fun _ s' => sound known s' /\
    forall h id a, listed_at s' h id a <-> listed_at s h id a /\ deadline w < expire_time a).
Proof.
  intros Hs Hw. apply (runs_mono _ _ _ _ (Update_rid known w Hw s Hs)). intros _ s' [H1 H2]. split; [done|].
  intros h id a. rewrite H2. intuition lia.
Qed.

Lemma tick_closes_what_is_over_witness :
  (exists a, listed_at (after day) Alliance_house 1 a /\ expire_time a <= deadline evening.1) /\
  runs (perform evening.1 Tick) (after day) (fun _ s' => sound only_100 s' /\
    forall h id a, listed_at s' h id a <-> listed_at (after day) h id a /\ deadline evening.1 < expire_time a).
Proof.
  split; [eexists; split; [exists 0; split; vm_compute; reflexivity|vm_compute; discriminate]|].
  apply (tick_closes_what_is_over only_100 evening.1 (after day) day_sound (stall_benign _ _ _)).
Defined.

(** ** Restart *)

(** The auction of the example, with the bid of player 2. *)
Definition lot : AuctionEntry := mkAuction 1 77 5 100 10 1 500 600 2000 over 2 180 (mkHouse 1 15 5).

Lemma day_lots h id a : listed_at (after day) h id a -> h = Alliance_house /\ id = 1 /\ a = lot.
Proof.
  intros (p & Hp & Ha). assert (AuctionsMap (after day) = {[(Alliance_house, 1) := 0]}) as E by (vm_compute; reflexivity). rewrite E in Hp.
  apply lookup_singleton_Some in Hp as [[= <- <-] _]. split_and!; [done..|].
  assert (auctions (after day) = {[0 := lot]}) as E' by (vm_compute; reflexivity). rewrite E' in Ha. by apply lookup_singleton_Some in Ha as [_ <-].
Qed.

Lemma day_lot : listed_at (after day) Alliance_house 1 lot.
Proof. exists 0. split; vm_compute; reflexivity. Qed.

Lemma day_stored time h id a : listed_at (after day) h id a -> storable a /\ from_here (stall time everybody true) h a.
Proof. intros (-> & -> & ->)%day_lots. split; [repeat split; vm_compute; congruence|by exists 10]. Qed.

(** C6: A restart brings the houses back: after any history the server can stop, and a
    start on its tables alone rebuilds the same auctions, with all their fields, in the
    same houses and the same items in the store, provided none is over by then, their
    numbers fit their 32-bit columns and their auctioneers still stand for the same
    house; in the history, and at the start, every item has its template, and in the history
    the memory of an auction just deleted is left alone until it has been read.  The tables are as they were, except for references to items with ids above
    every row of [item_instance]. *)
Theorem restart_restores_the_houses known l s w :
  sound known s -> Forall (fun wc => benign known wc.1) l ->
  let s1 := (history l s).2 in
  readable known w s1 -> (forall h id a, listed_at s1 h id a -> deadline w < expire_time a) ->
  runs (startup w) (booted (db s1)) (fun _ s2 =>
    (forall h id a, listed_at s2 h id a <-> listed_at s1 h id a) /\ (forall g, g ∈ mAitems s2 <-> g ∈ mAitems s1) /\
    db s2 = cleaned (db s1) /\ sound known s2).
Proof.
  intros Hs HF s1 Hr Ht. exact (startup_reloads known w s1 (history_sound known l s Hs HF) Hr Ht).
Qed.

Lemma restart_restores_the_houses_witness :
  (exists a, listed_at (after day) Alliance_house 1 a) /\
  runs (startup (stall (opens + 3600) everybody true)) (booted (db (after day))) (fun _ s2 =>
    (forall h id a, listed_at s2 h id a <-> listed_at (after day) h id a) /\ (forall g, g ∈ mAitems s2 <-> g ∈ mAitems (after day)) /\
    db s2 = cleaned (db (after day)) /\ sound only_100 s2).
Proof.
  split; [exists lot; exact day_lot|]. apply (restart_restores_the_houses only_100 day bags _ bags_sound day_only_benign).
  - split; [intros e ->; by eexists|exact (day_stored _)].
  - intros h id a (_ & _ & ->)%day_lots. vm_compute. reflexivity.
Defined.

(** An auction that is over when the server starts is closed before the items of the
    auctions are loaded: the mail that should carry the item finds none, the row is
    deleted, and the item is in no bag, no mail and no auction any more, sold or not. *)
Theorem over_at_startup_loses_the_item known l s w :
  sound known s -> Forall (fun wc => benign known wc.1) l ->
  let s1 := (history l s).2 in
  (forall h id a, listed_at s1 h id a -> storable a /\ from_here w h a) ->
  runs (SetHighestGuids ;; DeleteExpiredAuctionsAtStartup w) (booted (db s1)) (fun _ s2 =>
    forall h id a, listed_at s1 h id a -> expire_time a <= deadline w -> located (db s2) (itemGUIDLow a) = false).
Proof.
  intros Hs HF s1 Hr. exact (startup_closes known w s1 (history_sound known l s Hs HF) Hr).
Qed.

Lemma over_at_startup_loses_the_item_witness :
  (listed_at (after day) Alliance_house 1 lot /\ located (db (after day)) (itemGUIDLow lot) = true) /\
  runs (SetHighestGuids ;; DeleteExpiredAuctionsAtStartup (stall over everybody true)) (booted (db (after day))) (fun _ s2 =>
    forall h id a, listed_at (after day) h id a -> expire_time a <= deadline (stall over everybody true) -> located (db s2) (itemGUIDLow a) = false).
Proof.
  split; [split; [exact day_lot|vm_compute; reflexivity]|].
  apply (over_at_startup_loses_the_item only_100 day bags _ bags_sound day_only_benign). exact (day_stored _).
Defined.

(** ** A winner who is away *)

(** C39: Without the log of trades the account of the winner is not looked up: when his
    auction is over while he is not in the world, he gets no mail, the item is in no bag,
    no mail and no auction any more, and the seller is paid all the same. *)
Theorem winner_away_gets_nothing known w s h id a :
  sound known s -> benign known w -> listed_at s h id a -> bidder a <> 0 -> online w (bidder a) = false -> gm_log_trade w = false ->
  runs (UpdateOne w h id) s (fun _ s' =>
    located (db s') (itemGUIDLow a) = false /\
    (exists_ w (owner a) = true -> exists m, mail (db s') !! next_mail s = Some m /\ m_receiver m = owner a /\ m_money m = profit w a)).
Proof.
  intros Hs Hw (p & Hp & Ha) Hb Hon Hlog.
  apply (runs_mono _ _ _ _ (UpdateOne_ended known w s h id p a Hs (be_freed _ _ Hw) Hp Ha)). intros _ s' He.
  assert (closing_letters w a (next_mail s) = success_letters w a (next_mail s)) as E.
  { unfold closing_letters, won_letters. rewrite (proj2 (Z.eqb_neq _ _) Hb), Hon, Hlog. apply app_nil_r. }
  rewrite E in He. split.
  - apply (ended_lost known _ _ _ _ _ _ _ _ Hs Hp Ha He), no_items_success.
  - intros Hex. rewrite (al_mail _ _ (en_db _ _ _ _ _ _ _ _ He)). unfold success_letters. rewrite Hex.
    eexists. cbn. rewrite lookup_insert_eq. split; [reflexivity|done].
Qed.

Lemma winner_away_gets_nothing_witness :
  let w := stall over seller_only false in
  (located (db (after day)) (itemGUIDLow lot) = true /\ exists_ w (owner lot) = true) /\
  runs (UpdateOne w Alliance_house 1) (after day) (fun _ s' =>
    located (db s') (itemGUIDLow lot) = false /\
    (exists_ w (owner lot) = true -> exists m, mail (db s') !! next_mail (after day) = Some m /\ m_receiver m = owner lot /\ m_money m = profit w lot)).
Proof.
  split; [split; vm_compute; reflexivity|].
  apply (winner_away_gets_nothing only_100 _ (after day) Alliance_house 1 lot day_sound (stall_benign _ _ _) day_lot); [done|reflexivity|reflexivity].
Defined.

(** ** Searching *)

Lemma page_from found from l data count total :
  0 <= count <= 50 -> 0 <= total -> total + Z.of_nat (length l) < 2 ^ 32 ->
  let hits := filter (fun id => Is_true (found id)) l in
  let page := take (Z.to_nat (50 - count)) (drop (Z.to_nat (from - total)) hits) in
  BuildListAuctionItems found from l data count total = (data ++ page, count + Z.of_nat (length page), total + Z.of_nat (length hits)).
Proof.
  revert data count total. induction l as [|id l IH]; intros data count total Hc Ht Hl.
  { cbn. rewrite drop_nil, take_nil, app_nil_r. cbn. by rewrite !Z.add_0_r. }
  cbn [length] in Hl. change (2 ^ 32) with 4294967296 in *. cbn [BuildListAuctionItems]. destruct (found id) eqn:Ef; cbn [negb].
  2: { rewrite (filter_cons_False (fun id => Is_true (found id))); [apply IH; lia|]. rewrite Ef. tauto. }
  rewrite (filter_cons_True (fun id => Is_true (found id))); [|by rewrite Ef]. destruct ((count <? 50) && (from <=? total)) eqn:E.
  - apply andb_prop in E as [E1%Z.ltb_lt E2%Z.leb_le]. rewrite !wrap_small by (change (2 ^ 32) with 4294967296; lia).
    rewrite IH by lia. replace (Z.to_nat (from - total)) with 0%nat by lia. replace (Z.to_nat (from - (total + 1))) with 0%nat by lia.
    rewrite !drop_0. replace (Z.to_nat (50 - count)) with (S (Z.to_nat (50 - (count + 1)))) by lia. cbn [take length].
    rewrite <- app_assoc. cbn [app]. f_equal; [f_equal|]; lia.
  - rewrite (wrap_small 32 (total + 1)) by (change (2 ^ 32) with 4294967296; lia). rewrite IH by lia.
    apply andb_false_iff in E as [E%Z.ltb_ge|E%Z.leb_gt].
    + replace (Z.to_nat (50 - count)) with 0%nat by lia. cbn [take length]. f_equal. lia.
    + replace (Z.to_nat (from - total)) with (S (Z.to_nat (from - (total + 1)))) by lia. cbn [drop length]. f_equal. lia.
Qed.

(** A search sends one page: of the auctions that pass the filters, in the order of
    their ids, those from [listfrom] on, fifty at most, with their number and that of all
    that pass. *)
Theorem search_sends_one_page found from l :
  Z.of_nat (length l) < 2 ^ 32 ->
  let hits := filter (fun id => Is_true (found id)) l in
  let page := take 50 (drop (Z.to_nat from) hits) in
  BuildListAuctionItems found from l [] 0 0 = (page, Z.of_nat (length page), Z.of_nat (length hits)).
Proof. intros Hl hits page. rewrite page_from by lia. subst hits page. rewrite !Z.sub_0_r. reflexivity. Qed.

(** ** One stack sold twice

    Why [items_are_never_made] asks for packets that name every stack once: the handler
    checks every entry against the stack as it is before the sale.  A packet that names the
    stack of ten twice sells a clone of twenty; the second pass over the stack finds it
    gone already and changes nothing. *)
Example stack_sold_twice :
  let s' := (perform (stall opens everybody true) (Sell 1 (Some 10) 77 [(stack_5, 10); (stack_5, 10)] 500 2000 720) bags).2 in
  units (db bags) 100 = 10 /\ units (db s') 100 = 20 /\ itemCount <$> auctions s' !! 0 = Some 20.
Proof. vm_compute. done. Qed.

(** With less than all of it the second time, what is left of the stack wraps round. *)
Example stack_wraps_round :
  let s' := (perform (stall opens everybody true) (Sell 1 (Some 10) 77 [(stack_5, 5); (stack_5, 10)] 500 2000 720) bags).2 in
  i_count <$> objects s' !! 5 = Some (2 ^ 32 - 5) /\ itemCount <$> auctions s' !! 0 = Some 15.
Proof. vm_compute. done. Qed.
