(* ===== verification/Channel.v ===== *)
(** * Channel: the channels of the chat
      (src/src/server/game/Chat/Channels/Channel.cpp, Channel.h)

    A channel keeps its members by GUID, the banned, and the settings a moderator may
    change.  The methods below are functions of the channel, the channel lists of the
    players, the table [channels] and the packets sent so far ([Scene]); the heap of
    channels and what refers to it is in [ChannelMgr].

    A packet is its opcode and what is appended to it, field by field.  What the methods
    ask of the rest of the game (who is in the world, accounts, names, configuration, what
    the database makes of a string that is longer than its column) is the record [World]. *)

From S2P Require Import Prelude.

(** ** Strings *)

(** What a C string is of a [std::string]: up to the first null. *)
Fixpoint c_str (s : string) : string :=
  match s with
  | String.EmptyString => String.EmptyString
  | String.String c r => if Ascii.eqb c Ascii.zero then String.EmptyString else String.String c (c_str r)
  end.

Definition code (c : Ascii.ascii) : Z := Z.of_nat (Ascii.nat_of_ascii c).
Definition space : Ascii.ascii := Ascii.ascii_of_nat 32.

(** [stricmp] with the literal of the code. *)
Definition tolower (c : Ascii.ascii) : Ascii.ascii :=
  if (65 <=? code c) && (code c <=? 90) then Ascii.ascii_of_nat (Z.to_nat (code c + 32)) else c.
Fixpoint to_lower (s : string) : string :=
  match s with String.EmptyString => String.EmptyString | String.String c r => String.String (tolower c) (to_lower r) end.

(** An unsigned number as the stream prints it; twenty digits are enough for 64 bits. *)
Fixpoint decimal (digits : nat) (z : Z) (acc : string) : string :=
  let c d := Ascii.ascii_of_nat (Z.to_nat (48 + d)) in
  match digits with
  | O => acc
  | S n => if z <? 10 then String.String (c z) acc else decimal n (z / 10) (String.String (c (z mod 10)) acc)
  end.

Definition is_digit (c : Ascii.ascii) : bool := (48 <=? code c) && (code c <=? 57).
Definition is_space (c : Ascii.ascii) : bool := ((9 <=? code c) && (code c <=? 13)) || (code c =? 32).

Fixpoint number (s : string) (n : Z) : Z :=
  match s with
  | String.String c r => if is_digit c then number r (10 * n + (code c - 48)) else n
  | String.EmptyString => n
  end.
Fixpoint skip_spaces (s : string) : string :=
  match s with String.String c r => if is_space c then skip_spaces r else s | String.EmptyString => s end.

(** [atol]: a number out of range gives the nearest bound. *)
Definition atol (s : string) : Z :=
  let clamp n := Z.max (- 2 ^ 63) (Z.min (2 ^ 63 - 1) n) in
  match skip_spaces s with
  | String.String c r => if code c =? 45 then clamp (- number r 0) else if code c =? 43 then clamp (number r 0) else clamp (number (String.String c r) 0)
  | String.EmptyString => 0
  end.

(** The pieces between separators; the last only if it is not empty. *)
(* [shared/Utilities/Util.cpp:62-94] Tokenizer::Tokenizer *)
Fixpoint Tokenizer (sep : Ascii.ascii) (s cur : string) : list string :=
  let last := if String.eqb cur "" then [] else [cur] in
  match s with
  | String.EmptyString => last
  | String.String c r =>
    if Ascii.eqb c sep then cur :: Tokenizer sep r ""
    else if Ascii.eqb c Ascii.zero then last
    else Tokenizer sep r (String.append cur (String.String c ""))
  end.

(** ** Constants *)

Definition CHANNEL_FLAG_CUSTOM : Z := 0x01.
Definition CHANNEL_FLAG_TRADE : Z := 0x04.
Definition CHANNEL_FLAG_NOT_LFG : Z := 0x08.
Definition CHANNEL_FLAG_GENERAL : Z := 0x10.
Definition CHANNEL_FLAG_CITY : Z := 0x20.
Definition CHANNEL_FLAG_LFG : Z := 0x40.
Definition CHANNEL_DBC_FLAG_ZONE_DEP : Z := 0x2.
Definition CHANNEL_DBC_FLAG_GLOBAL : Z := 0x4.
Definition CHANNEL_DBC_FLAG_TRADE : Z := 0x8.
Definition CHANNEL_DBC_FLAG_CITY_ONLY : Z := 0x10.
Definition CHANNEL_DBC_FLAG_CITY_ONLY2 : Z := 0x20.
Definition CHANNEL_DBC_FLAG_GUILD_REQ : Z := 0x20000.
Definition CHANNEL_DBC_FLAG_LFG : Z := 0x40000.
Definition AREA_FLAG_SLAVE_CAPITAL : Z := 0x8.
Definition AREA_FLAG_ARENA_INSTANCE : Z := 0x10000.
Definition MEMBER_FLAG_OWNER : Z := 0x01.
Definition MEMBER_FLAG_MODERATOR : Z := 0x02.
Definition MEMBER_FLAG_MUTED : Z := 0x08.
Definition CHAT_MSG_CHANNEL : Z := 0x11.
Definition LANG_UNIVERSAL : Z := 0.
Definition ALLIANCE : Z := 469.
Definition HORDE : Z := 67.
Definition DAY : Z := 86400.

(* [game/Accounts/AccountMgr.cpp:254-257] AccountMgr::IsPlayerAccount *)
Definition IsPlayerAccount (gmlevel : Z) : bool := gmlevel =? 0.
(* [game/Accounts/AccountMgr.cpp:264-267] AccountMgr::IsGMAccount *)
Definition IsGMAccount (gmlevel : Z) : bool := (6 <=? gmlevel) && (gmlevel <=? 9).

(* [game/Chat/Channels/Channel.h:32-72] ChatNotify *)
Inductive ChatNotify :=
| CHAT_JOINED_NOTICE | CHAT_LEFT_NOTICE | CHAT_YOU_JOINED_NOTICE | CHAT_YOU_LEFT_NOTICE | CHAT_WRONG_PASSWORD_NOTICE | CHAT_NOT_MEMBER_NOTICE
| CHAT_NOT_MODERATOR_NOTICE | CHAT_PASSWORD_CHANGED_NOTICE | CHAT_OWNER_CHANGED_NOTICE | CHAT_PLAYER_NOT_FOUND_NOTICE | CHAT_NOT_OWNER_NOTICE
| CHAT_CHANNEL_OWNER_NOTICE | CHAT_MODE_CHANGE_NOTICE | CHAT_ANNOUNCEMENTS_ON_NOTICE | CHAT_ANNOUNCEMENTS_OFF_NOTICE | CHAT_MODERATION_ON_NOTICE
| CHAT_MODERATION_OFF_NOTICE | CHAT_MUTED_NOTICE | CHAT_PLAYER_KICKED_NOTICE | CHAT_BANNED_NOTICE | CHAT_PLAYER_BANNED_NOTICE
| CHAT_PLAYER_UNBANNED_NOTICE | CHAT_PLAYER_NOT_BANNED_NOTICE | CHAT_PLAYER_ALREADY_MEMBER_NOTICE | CHAT_INVITE_NOTICE
| CHAT_INVITE_WRONG_FACTION_NOTICE | CHAT_WRONG_FACTION_NOTICE | CHAT_INVALID_NAME_NOTICE | CHAT_NOT_MODERATED_NOTICE | CHAT_PLAYER_INVITED_NOTICE
| CHAT_PLAYER_INVITE_BANNED_NOTICE | CHAT_THROTTLED_NOTICE | CHAT_NOT_IN_AREA_NOTICE | CHAT_NOT_IN_LFG_NOTICE | CHAT_VOICE_ON_NOTICE
| CHAT_VOICE_OFF_NOTICE.

Definition notify_code (n : ChatNotify) : Z :=
  match n with
  | CHAT_JOINED_NOTICE => 0x00 | CHAT_LEFT_NOTICE => 0x01 | CHAT_YOU_JOINED_NOTICE => 0x02 | CHAT_YOU_LEFT_NOTICE => 0x03
  | CHAT_WRONG_PASSWORD_NOTICE => 0x04 | CHAT_NOT_MEMBER_NOTICE => 0x05 | CHAT_NOT_MODERATOR_NOTICE => 0x06 | CHAT_PASSWORD_CHANGED_NOTICE => 0x07
  | CHAT_OWNER_CHANGED_NOTICE => 0x08 | CHAT_PLAYER_NOT_FOUND_NOTICE => 0x09 | CHAT_NOT_OWNER_NOTICE => 0x0A | CHAT_CHANNEL_OWNER_NOTICE => 0x0B
  | CHAT_MODE_CHANGE_NOTICE => 0x0C | CHAT_ANNOUNCEMENTS_ON_NOTICE => 0x0D | CHAT_ANNOUNCEMENTS_OFF_NOTICE => 0x0E
  | CHAT_MODERATION_ON_NOTICE => 0x0F | CHAT_MODERATION_OFF_NOTICE => 0x10 | CHAT_MUTED_NOTICE => 0x11 | CHAT_PLAYER_KICKED_NOTICE => 0x12
  | CHAT_BANNED_NOTICE => 0x13 | CHAT_PLAYER_BANNED_NOTICE => 0x14 | CHAT_PLAYER_UNBANNED_NOTICE => 0x15 | CHAT_PLAYER_NOT_BANNED_NOTICE => 0x16
  | CHAT_PLAYER_ALREADY_MEMBER_NOTICE => 0x17 | CHAT_INVITE_NOTICE => 0x18 | CHAT_INVITE_WRONG_FACTION_NOTICE => 0x19
  | CHAT_WRONG_FACTION_NOTICE => 0x1A | CHAT_INVALID_NAME_NOTICE => 0x1B | CHAT_NOT_MODERATED_NOTICE => 0x1C | CHAT_PLAYER_INVITED_NOTICE => 0x1D
  | CHAT_PLAYER_INVITE_BANNED_NOTICE => 0x1E | CHAT_THROTTLED_NOTICE => 0x1F | CHAT_NOT_IN_AREA_NOTICE => 0x20 | CHAT_NOT_IN_LFG_NOTICE => 0x21
  | CHAT_VOICE_ON_NOTICE => 0x22 | CHAT_VOICE_OFF_NOTICE => 0x23
  end.

(** ** Data *)

(* [game/Chat/Channels/Channel.h:122-148] Channel::PlayerInfo *)
Record PlayerInfo := mkInfo { player : Z; flags : Z }.

Definition IsOwner (i : PlayerInfo) : bool := has_flag (flags i) MEMBER_FLAG_OWNER.
Definition IsModerator (i : PlayerInfo) : bool := has_flag (flags i) MEMBER_FLAG_MODERATOR.
Definition IsMuted (i : PlayerInfo) : bool := has_flag (flags i) MEMBER_FLAG_MUTED.
Definition put_flag (mask : Z) (state : bool) (i : PlayerInfo) : PlayerInfo :=
  mkInfo (player i) (if state then Z.lor (flags i) mask else Z.ldiff (flags i) mask).

(* [game/Chat/Channels/Channel.h:130-134] Channel::PlayerInfo::SetOwner *)
Definition info_SetOwner : bool -> PlayerInfo -> PlayerInfo := put_flag MEMBER_FLAG_OWNER.
(* [game/Chat/Channels/Channel.h:136-140] Channel::PlayerInfo::SetModerator *)
Definition info_SetModerator : bool -> PlayerInfo -> PlayerInfo := put_flag MEMBER_FLAG_MODERATOR.
(* [game/Chat/Channels/Channel.h:142-146] Channel::PlayerInfo::SetMuted *)
Definition info_SetMuted : bool -> PlayerInfo -> PlayerInfo := put_flag MEMBER_FLAG_MUTED.

(* [game/Chat/Channels/Channel.h:120-162] Channel *)
Record Channel := mkChannel {
  players : gmap Z PlayerInfo;
  banned : gset Z;
  m_announce : bool;
  m_special : bool;
  m_ownership : bool;
  m_name : string;
  m_password : string;
  m_flags : Z;
  m_channelId : Z;
  m_ownerGUID : Z;
  m_IsSaved : bool;
  m_Team : Z
}.

(* [game/DataStores/DBCStructure.h:788-795] ChatChannelsEntry *)
Record ChatChannelsEntry := mkEntry { ChannelID : Z; dbc_flags : Z; pattern : string }.

(** Table [channels], by name and team. *)
Record ChannelRow := mkRow { r_announce : bool; r_ownership : bool; r_password : option string; r_bannedList : option string; lastUsed : Z }.

Inductive Opcode :=
| SMSG_CHANNEL_NOTIFY | SMSG_CHANNEL_LIST | SMSG_MESSAGECHAT | SMSG_USERLIST_ADD | SMSG_USERLIST_UPDATE | SMSG_USERLIST_REMOVE
| SMSG_CHANNEL_MEMBER_COUNT.

(** What is appended to a packet. *)
Inductive Field := F8 (z : Z) | F32 (z : Z) | F64 (z : Z) | FStr (s : string).

Record Packet := mkPacket { opcode : Opcode; fields : list Field }.

(** What a method works on: its channel at [self], the channels each player has joined,
    the table, and the packets with their receivers. *)
Record Scene := mkScene {
  this : Channel;
  m_channels : gmap Z (list Z);
  table : gmap (string * Z) ChannelRow;
  sent : list (Z * Packet)
}.

Record World := mkWorld {
  now : Z;
  in_world : Z -> bool;
  security : Z -> Z;
  team : Z -> Z;
  level : Z -> Z;
  find_by_name : string -> option Z;
  name_by_guid : Z -> option string;
  player_name : Z -> string;
  has_ignore : Z -> Z -> bool;
  in_group : Z -> bool;
  in_guild : Z -> bool;
  gm_visible : Z -> bool;
  visible_for : Z -> Z -> bool;
  chat_tag : Z -> Z;
  zone : Z -> Z;
  two_side_channel : bool;
  silent_gm_join : bool;
  restricted_lfg : bool;
  preserve_channels : bool;
  preserve_duration : Z;
  gm_level_in_who_list : Z;
  channel_level_req : Z;
  channel_store : Z -> option ChatChannelsEntry;
  channel_rows : Z;
  area_store : Z -> option (Z * string);
  city_name : string;
  lower : string -> string;
  normalizePlayerName : string -> option string;
  bad_word : string -> bool;
  row_key : string -> string;
  fit : Z -> string -> option string
}.

(** ** Changing one part *)

Definition set_players (p : gmap Z PlayerInfo) (c : Channel) : Channel :=
  mkChannel p (banned c) (m_announce c) (m_special c) (m_ownership c) (m_name c) (m_password c) (m_flags c) (m_channelId c) (m_ownerGUID c)
    (m_IsSaved c) (m_Team c).
Definition set_banned (b : gset Z) (c : Channel) : Channel :=
  mkChannel (players c) b (m_announce c) (m_special c) (m_ownership c) (m_name c) (m_password c) (m_flags c) (m_channelId c) (m_ownerGUID c)
    (m_IsSaved c) (m_Team c).
Definition set_announce (a : bool) (c : Channel) : Channel :=
  mkChannel (players c) (banned c) a (m_special c) (m_ownership c) (m_name c) (m_password c) (m_flags c) (m_channelId c) (m_ownerGUID c)
    (m_IsSaved c) (m_Team c).
Definition set_password (p : string) (c : Channel) : Channel :=
  mkChannel (players c) (banned c) (m_announce c) (m_special c) (m_ownership c) (m_name c) p (m_flags c) (m_channelId c) (m_ownerGUID c)
    (m_IsSaved c) (m_Team c).
Definition set_ownerGUID (g : Z) (c : Channel) : Channel :=
  mkChannel (players c) (banned c) (m_announce c) (m_special c) (m_ownership c) (m_name c) (m_password c) (m_flags c) (m_channelId c) g
    (m_IsSaved c) (m_Team c).

Definition on_channel (f : Channel -> Channel) (s : Scene) : Scene := mkScene (f (this s)) (m_channels s) (table s) (sent s).
Definition set_lists (m : gmap Z (list Z)) (s : Scene) : Scene := mkScene (this s) m (table s) (sent s).
Definition set_table (t : gmap (string * Z) ChannelRow) (s : Scene) : Scene := mkScene (this s) (m_channels s) t (sent s).
Definition send (to : Z) (k : Packet) (s : Scene) : Scene := mkScene (this s) (m_channels s) (table s) (sent s ++ [(to, k)]).

(** ** Reading a channel *)

(* [game/Chat/Channels/Channel.h:204-204] Channel::IsOn *)
Definition IsOn (c : Channel) (who : Z) : bool := bool_decide (is_Some (players c !! who)).
(* [game/Chat/Channels/Channel.h:205-205] Channel::IsBanned *)
Definition IsBanned (c : Channel) (guid : Z) : bool := bool_decide (guid ∈ banned c).
(* [game/Chat/Channels/Channel.h:210-217] Channel::GetPlayerFlags *)
Definition GetPlayerFlags (c : Channel) (p : Z) : Z := match players c !! p with Some i => flags i | None => 0 end.
(* [game/Chat/Channels/Channel.h:250-250] Channel::IsConstant *)
Definition IsConstant (c : Channel) : bool := negb (m_channelId c =? 0) || m_special c.
(* [game/Chat/Channels/Channel.h:252-252] Channel::IsLFG *)
Definition IsLFG (c : Channel) : bool := has_flag (m_flags c) CHANNEL_FLAG_LFG.
(* [game/Chat/Channels/Channel.h:256-256] Channel::GetNumPlayers *)
Definition GetNumPlayers (c : Channel) : Z := u32 (Z.of_nat (size (players c))).

(** [players[p]]: a default entry is put in if there is none. *)
Definition at_ (p : Z) (m : gmap Z PlayerInfo) : PlayerInfo := default (mkInfo 0 0) (m !! p).
Definition upd (p : Z) (f : PlayerInfo -> PlayerInfo) (c : Channel) : Channel := set_players (<[p := f (at_ p (players c))]> (players c)) c.

(** ** Packets *)

(* [game/Chat/Channels/Channel.cpp:805-810] Channel::MakeNotifyPacket *)
Definition MakeNotifyPacket (c : Channel) (notify_type : ChatNotify) (more : list Field) : Packet :=
  mkPacket SMSG_CHANNEL_NOTIFY (F8 (notify_code notify_type) :: FStr (m_name c) :: more).

(* [game/Chat/Channels/Channel.cpp:813-817] Channel::MakeJoined *)
Definition MakeJoined (c : Channel) (guid : Z) : Packet := MakeNotifyPacket c CHAT_JOINED_NOTICE [F64 guid].
(* [game/Chat/Channels/Channel.cpp:820-824] Channel::MakeLeft *)
Definition MakeLeft (c : Channel) (guid : Z) : Packet := MakeNotifyPacket c CHAT_LEFT_NOTICE [F64 guid].
(* [game/Chat/Channels/Channel.cpp:827-833] Channel::MakeYouJoined *)
Definition MakeYouJoined (c : Channel) : Packet := MakeNotifyPacket c CHAT_YOU_JOINED_NOTICE [F8 (m_flags c); F32 (m_channelId c); F32 0].
(* [game/Chat/Channels/Channel.cpp:836-841] Channel::MakeYouLeft *)
Definition MakeYouLeft (c : Channel) : Packet := MakeNotifyPacket c CHAT_YOU_LEFT_NOTICE [F32 (m_channelId c); F8 (Z.b2z (IsConstant c))].
(* [game/Chat/Channels/Channel.cpp:844-847] Channel::MakeWrongPassword *)
Definition MakeWrongPassword (c : Channel) : Packet := MakeNotifyPacket c CHAT_WRONG_PASSWORD_NOTICE [].
(* [game/Chat/Channels/Channel.cpp:850-853] Channel::MakeNotMember *)
Definition MakeNotMember (c : Channel) : Packet := MakeNotifyPacket c CHAT_NOT_MEMBER_NOTICE [].
(* [game/Chat/Channels/Channel.cpp:856-859] Channel::MakeNotModerator *)
Definition MakeNotModerator (c : Channel) : Packet := MakeNotifyPacket c CHAT_NOT_MODERATOR_NOTICE [].
(* [game/Chat/Channels/Channel.cpp:862-866] Channel::MakePasswordChanged *)
Definition MakePasswordChanged (c : Channel) (guid : Z) : Packet := MakeNotifyPacket c CHAT_PASSWORD_CHANGED_NOTICE [F64 guid].
(* [game/Chat/Channels/Channel.cpp:869-873] Channel::MakeOwnerChanged *)
Definition MakeOwnerChanged (c : Channel) (guid : Z) : Packet := MakeNotifyPacket c CHAT_OWNER_CHANGED_NOTICE [F64 guid].
(* [game/Chat/Channels/Channel.cpp:876-880] Channel::MakePlayerNotFound *)
Definition MakePlayerNotFound (c : Channel) (name : string) : Packet := MakeNotifyPacket c CHAT_PLAYER_NOT_FOUND_NOTICE [FStr name].
(* [game/Chat/Channels/Channel.cpp:883-886] Channel::MakeNotOwner *)
Definition MakeNotOwner (c : Channel) : Packet := MakeNotifyPacket c CHAT_NOT_OWNER_NOTICE [].
(* [game/Chat/Channels/Channel.cpp:889-898] Channel::MakeChannelOwner *)
Definition MakeChannelOwner (w : World) (c : Channel) : Packet :=
  let name := match name_by_guid w (m_ownerGUID c) with
              | Some n => if String.eqb n "" then "PLAYER_NOT_FOUND"%string else n
              | None => "PLAYER_NOT_FOUND"%string
              end in
  MakeNotifyPacket c CHAT_CHANNEL_OWNER_NOTICE [FStr (if IsConstant c || (m_ownerGUID c =? 0) then "Nobody" else name)].
(* [game/Chat/Channels/Channel.cpp:901-907] Channel::MakeModeChange *)
Definition MakeModeChange (c : Channel) (guid oldflags : Z) : Packet :=
  MakeNotifyPacket c CHAT_MODE_CHANGE_NOTICE [F64 guid; F8 oldflags; F8 (GetPlayerFlags c guid)].
(* [game/Chat/Channels/Channel.cpp:910-914] Channel::MakeAnnouncementsOn *)
Definition MakeAnnouncementsOn (c : Channel) (guid : Z) : Packet := MakeNotifyPacket c CHAT_ANNOUNCEMENTS_ON_NOTICE [F64 guid].
(* [game/Chat/Channels/Channel.cpp:917-921] Channel::MakeAnnouncementsOff *)
Definition MakeAnnouncementsOff (c : Channel) (guid : Z) : Packet := MakeNotifyPacket c CHAT_ANNOUNCEMENTS_OFF_NOTICE [F64 guid].
(* [game/Chat/Channels/Channel.cpp:924-927] Channel::MakeMuted *)
Definition MakeMuted (c : Channel) : Packet := MakeNotifyPacket c CHAT_MUTED_NOTICE [].
(* [game/Chat/Channels/Channel.cpp:930-935] Channel::MakePlayerKicked *)
Definition MakePlayerKicked (c : Channel) (bad good : Z) : Packet := MakeNotifyPacket c CHAT_PLAYER_KICKED_NOTICE [F64 bad; F64 good].
(* [game/Chat/Channels/Channel.cpp:938-941] Channel::MakeBanned *)
Definition MakeBanned (c : Channel) : Packet := MakeNotifyPacket c CHAT_BANNED_NOTICE [].
(* [game/Chat/Channels/Channel.cpp:944-949] Channel::MakePlayerBanned *)
Definition MakePlayerBanned (c : Channel) (bad good : Z) : Packet := MakeNotifyPacket c CHAT_PLAYER_BANNED_NOTICE [F64 bad; F64 good].
(* [game/Chat/Channels/Channel.cpp:952-957] Channel::MakePlayerUnbanned *)
Definition MakePlayerUnbanned (c : Channel) (bad good : Z) : Packet := MakeNotifyPacket c CHAT_PLAYER_UNBANNED_NOTICE [F64 bad; F64 good].
(* [game/Chat/Channels/Channel.cpp:967-971] Channel::MakePlayerAlreadyMember *)
Definition MakePlayerAlreadyMember (c : Channel) (guid : Z) : Packet := MakeNotifyPacket c CHAT_PLAYER_ALREADY_MEMBER_NOTICE [F64 guid].
(* [game/Chat/Channels/Channel.cpp:974-978] Channel::MakeInvite *)
Definition MakeInvite (c : Channel) (guid : Z) : Packet := MakeNotifyPacket c CHAT_INVITE_NOTICE [F64 guid].
(* [game/Chat/Channels/Channel.cpp:981-984] Channel::MakeInviteWrongFaction *)
Definition MakeInviteWrongFaction (c : Channel) : Packet := MakeNotifyPacket c CHAT_INVITE_WRONG_FACTION_NOTICE [].
(* [game/Chat/Channels/Channel.cpp:1005-1009] Channel::MakePlayerInvited *)
Definition MakePlayerInvited (c : Channel) (name : string) : Packet := MakeNotifyPacket c CHAT_PLAYER_INVITED_NOTICE [FStr name].
(* [game/Chat/Channels/Channel.cpp:1012-1016] Channel::MakePlayerInviteBanned *)
Definition MakePlayerInviteBanned (c : Channel) (name : string) : Packet := MakeNotifyPacket c CHAT_PLAYER_INVITE_BANNED_NOTICE [FStr name].
(* [game/Chat/Channels/Channel.cpp:1031-1034] Channel::MakeNotInLfg *)
Definition MakeNotInLfg (c : Channel) : Packet := MakeNotifyPacket c CHAT_NOT_IN_LFG_NOTICE [].

(** ** Sending *)

(** To the members who are in the world, in the order of their GUIDs. *)
(* [game/Chat/Channels/Channel.cpp:758-769] Channel::SendToAll *)
Definition SendToAll (w : World) (data : Packet) (p : Z) (s : Scene) : Scene :=
  foldl (fun s i => if in_world w i.1 && ((p =? 0) || negb (has_ignore w i.1 (u32 p))) then send i.1 data s else s) s (ordered (players (this s))).

(* [game/Chat/Channels/Channel.cpp:771-785] Channel::SendToAllButOne *)
Definition SendToAllButOne (w : World) (data : Packet) (who : Z) (s : Scene) : Scene :=
  foldl (fun s i => if negb (i.1 =? who) && in_world w i.1 then send i.1 data s else s) s (ordered (players (this s))).

(* [game/Chat/Channels/Channel.cpp:787-792] Channel::SendToOne *)
Definition SendToOne (w : World) (data : Packet) (who : Z) (s : Scene) : Scene := if in_world w who then send who data s else s.

(* [game/Chat/Channels/Channel.cpp:1050-1064] Channel::JoinNotify *)
Definition JoinNotify (w : World) (guid : Z) (s : Scene) : Scene :=
  let c := this s in
  let data := mkPacket (if IsConstant c then SMSG_USERLIST_ADD else SMSG_USERLIST_UPDATE)
                [F64 guid; F8 (GetPlayerFlags c guid); F8 (m_flags c); F32 (GetNumPlayers c); FStr (m_name c)] in
  if IsConstant c then SendToAllButOne w data guid s else SendToAll w data 0 s.

(* [game/Chat/Channels/Channel.cpp:1066-1078] Channel::LeaveNotify *)
Definition LeaveNotify (w : World) (guid : Z) (s : Scene) : Scene :=
  let c := this s in
  let data := mkPacket SMSG_USERLIST_REMOVE [F64 guid; F8 (m_flags c); F32 (GetNumPlayers c); FStr (m_name c)] in
  if IsConstant c then SendToAllButOne w data guid s else SendToAll w data 0 s.

(** ** The channel's row *)

(** An update of the row of the channel, if there is one. *)
Definition update_row (w : World) (f : ChannelRow -> ChannelRow) (s : Scene) : Scene :=
  set_table (alter f (row_key w (m_name (this s)), m_Team (this s)) (table s)) s.

Definition banlist (b : gset Z) : string :=
  foldr (fun g r => String.append (decimal 20 g "") (String.String space r)) ""%string (merge_sort Z.le (elements b)).

(** The sizes of the columns: name, password and the text of the banned. *)
Definition NAME_COLUMN := 128.
Definition PASSWORD_COLUMN := 32.
Definition TEXT_COLUMN := 65535.

(** [fit]: what a column keeps of a string, unless the statement fails. *)
(* [game/Chat/Channels/Channel.cpp:106-129] Channel::UpdateChannelInDB *)
Definition UpdateChannelInDB (w : World) (s : Scene) : Scene :=
  let c := this s in
  if m_IsSaved c then
    match fit w PASSWORD_COLUMN (m_password c), fit w TEXT_COLUMN (banlist (banned c)) with
    | Some password, Some bans => update_row w (fun _ => mkRow (m_announce c) (m_ownership c) (Some password) (Some bans) (now w)) s
    | _, _ => s
    end
  else s.

(* [game/Chat/Channels/Channel.cpp:131-137] Channel::UpdateChannelUseageInDB *)
Definition UpdateChannelUseageInDB (w : World) (s : Scene) : Scene :=
  update_row w (fun r => mkRow (r_announce r) (r_ownership r) (r_password r) (r_bannedList r) (now w)) s.

(* [game/Chat/Channels/Channel.cpp:139-149] Channel::CleanOldChannelsInDB *)
Definition CleanOldChannelsInDB (w : World) (t : gmap (string * Z) ChannelRow) : gmap (string * Z) ChannelRow :=
  if 0 <? preserve_duration w then filter (fun x => ~ (r_ownership x.2 = true /\ lastUsed x.2 + u32 (preserve_duration w * DAY) < now w)) t else t.

(** A new channel, and its row if it is saved. *)
(* [game/Chat/Channels/Channel.cpp:28-104] Channel::Channel *)
Definition new_Channel (w : World) (name : string) (channel_id Team : Z) (t : gmap (string * Z) ChannelRow)
  : Channel * gmap (string * Z) ChannelRow :=
  match channel_store w channel_id with
  | Some ch =>
    let f := CHANNEL_FLAG_GENERAL in
    let f := if has_flag (dbc_flags ch) CHANNEL_DBC_FLAG_TRADE then Z.lor f CHANNEL_FLAG_TRADE else f in
    let f := if has_flag (dbc_flags ch) CHANNEL_DBC_FLAG_CITY_ONLY2 then Z.lor f CHANNEL_FLAG_CITY else f in
    let f := if has_flag (dbc_flags ch) CHANNEL_DBC_FLAG_LFG then Z.lor f CHANNEL_FLAG_LFG else Z.lor f CHANNEL_FLAG_NOT_LFG in
    (mkChannel ∅ ∅ false false false name "" f channel_id 0 false Team, t)
  | None =>
    if String.eqb (to_lower (c_str name)) "all" then (mkChannel ∅ ∅ false true true name "" 0 channel_id 0 false Team, t)
    else if preserve_channels w then
      match t !! (row_key w name, Team) with
      | Some r =>
        let guids := match r_bannedList r with Some l => filter (fun g => g <> 0) (map (fun x => u64 (atol x)) (Tokenizer space l "")) | None => [] end in
        (mkChannel ∅ (list_to_set guids) (r_announce r) false (r_ownership r) name (default ""%string (r_password r)) CHANNEL_FLAG_CUSTOM channel_id 0
           true Team, t)
      | None =>
        (mkChannel ∅ ∅ true false true name "" CHANNEL_FLAG_CUSTOM channel_id 0 true Team,
         match fit w NAME_COLUMN name with Some key => <[(row_key w key, Team) := mkRow true true None None (now w)]> t | None => t end)
      end
    else (mkChannel ∅ ∅ true false true name "" CHANNEL_FLAG_CUSTOM channel_id 0 false Team, t)
  end.

(** ** Lists of the players *)

Definition joined (s : gmap Z (list Z)) (p : Z) : list Z := default [] (s !! p).

(* [game/Entities/Player/Player.cpp:5630-5633] Player::JoinedChannel *)
Definition JoinedChannel (p c : Z) (s : Scene) : Scene := set_lists (<[p := joined (m_channels s) p ++ [c]]> (m_channels s)) s.

(** [std::list::remove]: every occurrence. *)
(* [game/Entities/Player/Player.cpp:5635-5638] Player::LeftChannel *)
Definition PlayerLeftChannel (p c : Z) (s : Scene) : Scene :=
  set_lists (<[p := filter (fun x => x <> c) (joined (m_channels s) p)]> (m_channels s)) s.

(** ** Owner and modes *)

(* [game/Chat/Channels/Channel.cpp:727-756] Channel::SetOwner *)
Definition SetOwner (w : World) (guid : Z) (exclaim : bool) (s : Scene) : Scene :=
  let s := if m_ownerGUID (this s) =? 0 then s
           else match players (this s) !! m_ownerGUID (this s) with
                | Some i => on_channel (fun c => set_players (<[m_ownerGUID c := info_SetOwner false i]> (players c)) c) s
                | None => s
                end in
  let s := on_channel (set_ownerGUID guid) s in
  if guid =? 0 then s
  else
    let oldFlag := GetPlayerFlags (this s) guid in
    let s := on_channel (upd guid (info_SetModerator true)) s in
    let s := on_channel (upd guid (info_SetOwner true)) s in
    let s := SendToAll w (MakeModeChange (this s) guid oldFlag) 0 s in
    let s := if exclaim then SendToAll w (MakeOwnerChanged (this s) guid) 0 s else s in
    UpdateChannelInDB w s.

(* [game/Chat/Channels/Channel.h:219-230] Channel::SetModerator *)
Definition SetModerator (w : World) (p : Z) (set : bool) (s : Scene) : Scene :=
  let i := at_ p (players (this s)) in
  let s := on_channel (upd p id) s in
  if eqb (IsModerator i) set then s
  else
    let oldFlag := GetPlayerFlags (this s) p in
    let s := on_channel (upd p (info_SetModerator set)) s in
    SendToAll w (MakeModeChange (this s) p oldFlag) 0 s.

(* [game/Chat/Channels/Channel.h:232-243] Channel::SetMute *)
Definition SetMute (w : World) (p : Z) (set : bool) (s : Scene) : Scene :=
  let i := at_ p (players (this s)) in
  let s := on_channel (upd p id) s in
  if eqb (IsMuted i) set then s
  else
    let oldFlag := GetPlayerFlags (this s) p in
    let s := on_channel (upd p (info_SetMuted set)) s in
    SendToAll w (MakeModeChange (this s) p oldFlag) 0 s.

(** ** Joining and leaving *)

(** Game masters may come and go unannounced. *)
Definition announced (w : World) (c : Channel) (p : Z) : bool :=
  m_announce c && (negb (in_world w p) || negb (IsGMAccount (security w p)) || negb (silent_gm_join w)).

(* [game/Chat/Channels/Channel.cpp:151-225] Channel::Join *)
Definition Join (w : World) (self p : Z) (pass : string) (s : Scene) : Scene :=
  let c := this s in
  if IsOn c p then (if negb (IsConstant c) then SendToOne w (MakePlayerAlreadyMember c p) p s else s)
  else if IsBanned c p then SendToOne w (MakeBanned c) p s
  else if (0 <? Z.of_nat (String.length (m_password c))) && negb (String.eqb (c_str pass) (c_str (m_password c))) then
    SendToOne w (MakeWrongPassword c) p s
  else if in_world w p && has_flag (m_flags c) CHANNEL_FLAG_LFG && restricted_lfg w && IsPlayerAccount (security w p) && in_group w p then
    SendToOne w (MakeNotInLfg c) p s
  else
    let s := if in_world w p then JoinedChannel p self s else s in
    let s := if announced w c p then SendToAll w (MakeJoined c p) 0 s else s in
    let s := on_channel (fun c => set_players (<[p := mkInfo p 0]> (players c)) c) s in
    let s := SendToOne w (MakeYouJoined (this s)) p s in
    let s := JoinNotify w p s in
    if IsConstant c then s
    else
      let s := if bool_decide (players (this s) = ∅) then s else UpdateChannelUseageInDB w s in
      if (m_ownerGUID (this s) =? 0) && m_ownership (this s) then
        on_channel (upd p (info_SetModerator true)) (SetOwner w p (1 <? Z.of_nat (size (players (this s)))) s)
      else s.

(** The first member in the order of the GUIDs, by its field [player]. *)
Definition first_player (m : gmap Z PlayerInfo) : option Z := match ordered m with [] => None | (_, i) :: _ => Some (player i) end.

(* [game/Chat/Channels/Channel.cpp:227-278] Channel::Leave *)
Definition Leave (w : World) (self p : Z) (send_ : bool) (s : Scene) : Scene :=
  let c := this s in
  if negb (IsOn c p) then (if send_ then SendToOne w (MakeNotMember c) p s else s)
  else
    let s := if send_ then
               let s := SendToOne w (MakeYouLeft c) p s in
               if in_world w p then PlayerLeftChannel p self s else s
             else s in
    let changeowner := IsOwner (at_ p (players c)) in
    let s := on_channel (fun c => set_players (delete p (players c)) c) s in
    let s := if announced w c p then SendToAll w (MakeLeft c p) 0 s else s in
    let s := LeaveNotify w p s in
    if IsConstant c then s
    else
      let s := UpdateChannelUseageInDB w s in
      match first_player (players (this s)) with
      | Some newowner =>
        if changeowner && m_ownership (this s) then SetOwner w newowner true (on_channel (upd newowner (info_SetModerator true)) s) else s
      | None => s
      end.

(** ** What moderators may do *)

(** The account of a player who is in the world; otherwise an ordinary one. *)
Definition rank (w : World) (p : Z) : Z := if in_world w p then security w p else 0.

(** Members only, and then moderators and game masters only. *)
Definition moderated (w : World) (p : Z) (k : Scene -> Scene) (s : Scene) : Scene :=
  let c := this s in
  if negb (IsOn c p) then SendToOne w (MakeNotMember c) p s
  else if negb (IsModerator (at_ p (players c))) && negb (IsGMAccount (rank w p)) then SendToOne w (MakeNotModerator c) p s
  else k s.

(* [game/Chat/Channels/Channel.cpp:280-346] Channel::KickOrBan *)
Definition KickOrBan (w : World) (self good : Z) (badname : string) (ban : bool) : Scene -> Scene :=
  moderated w good (fun s =>
    let c := this s in
    let sec := rank w good in
    match find_by_name w (c_str badname) with
    | Some bad =>
      if negb (IsOn c bad) then SendToOne w (MakePlayerNotFound c (c_str badname)) good s
      else if negb (IsGMAccount sec) && (bad =? m_ownerGUID c) && negb (good =? m_ownerGUID c) then SendToOne w (MakeNotOwner c) good s
      else
        let changeowner := m_ownerGUID c =? bad in
        let notify := negb (IsGMAccount sec && silent_gm_join w) in
        let new_ban := ban && negb (IsBanned c bad) in
        let s := if new_ban then UpdateChannelInDB w (on_channel (set_banned ({[bad]} ∪ banned c)) s) else s in
        let s := if notify then SendToAll w (if new_ban then MakePlayerBanned c bad good else MakePlayerKicked c bad good) 0 s else s in
        let s := on_channel (fun c => set_players (delete bad (players c)) c) s in
        let s := PlayerLeftChannel bad self s in
        if changeowner && m_ownership (this s) && negb (bool_decide (players (this s) = ∅)) then
          SetOwner w good true (on_channel (upd good (info_SetModerator true)) s)
        else s
    | None => SendToOne w (MakePlayerNotFound c (c_str badname)) good s
    end).

(* [game/Chat/Channels/Channel.cpp:348-387] Channel::UnBan *)
Definition UnBan (w : World) (good : Z) (badname : string) : Scene -> Scene :=
  moderated w good (fun s =>
    let c := this s in
    match find_by_name w (c_str badname) with
    | Some bad =>
      if negb (IsBanned c bad) then SendToOne w (MakePlayerNotFound c (c_str badname)) good s
      else
        let s := on_channel (set_banned (banned c ∖ {[bad]})) s in
        let s := SendToAll w (MakePlayerUnbanned c bad good) 0 s in
        UpdateChannelInDB w s
    | None => SendToOne w (MakePlayerNotFound c (c_str badname)) good s
    end).

(* [game/Chat/Channels/Channel.cpp:389-420] Channel::Password *)
Definition Password (w : World) (p : Z) (pass : string) : Scene -> Scene :=
  moderated w p (fun s =>
    let s := on_channel (set_password (c_str pass)) s in
    UpdateChannelInDB w (SendToAll w (MakePasswordChanged (this s) p) 0 s)).

(* [game/Chat/Channels/Channel.cpp:595-627] Channel::Announce *)
Definition Announce (w : World) (p : Z) : Scene -> Scene :=
  moderated w p (fun s =>
    let s := on_channel (fun c => set_announce (negb (m_announce c)) c) s in
    let c := this s in
    UpdateChannelInDB w (SendToAll w (if m_announce c then MakeAnnouncementsOn c p else MakeAnnouncementsOff c p) 0 s)).

(* [game/Chat/Channels/Channel.cpp:422-488] Channel::SetMode *)
Definition SetMode (w : World) (p : Z) (p2n : string) (mod_ set : bool) (s : Scene) : Scene :=
  if negb (in_world w p) then s
  else moderated w p (fun s =>
    let c := this s in
    let not_found := SendToOne w (MakePlayerNotFound c (c_str p2n)) p s in
    match find_by_name w (c_str p2n) with
    | None => not_found
    | Some newp =>
      if (p =? m_ownerGUID c) && (newp =? m_ownerGUID c) && mod_ then s
      else if negb (IsOn c newp) then not_found
      else if (negb (IsGMAccount (security w p)) || negb (IsGMAccount (security w newp))) && negb (team w p =? team w newp) && negb (two_side_channel w)
      then not_found
      else if (m_ownerGUID c =? newp) && negb (m_ownerGUID c =? p) then SendToOne w (MakeNotOwner c) p s
      else if mod_ then SetModerator w newp set s else SetMute w newp set s
    end) s.

(** [SetOwner] by name. *)
(* [game/Chat/Channels/Channel.cpp:490-533] Channel::SetOwner *)
Definition SetOwnerByName (w : World) (p : Z) (newname : string) (s : Scene) : Scene :=
  let c := this s in
  if negb (in_world w p) then s
  else if negb (IsOn c p) then SendToOne w (MakeNotMember c) p s
  else if negb (IsGMAccount (security w p)) && negb (p =? m_ownerGUID c) then SendToOne w (MakeNotOwner c) p s
  else
    let not_found := SendToOne w (MakePlayerNotFound c (c_str newname)) p s in
    match find_by_name w (c_str newname) with
    | None => not_found
    | Some newp =>
      if negb (IsOn c newp) then not_found
      else if negb (team w newp =? team w p) && negb (two_side_channel w) then not_found
      else SetOwner w newp true (on_channel (upd newp (info_SetModerator true)) s)
    end.

(** ** What members may do *)

(* [game/Chat/Channels/Channel.cpp:535-549] Channel::SendWhoOwner *)
Definition SendWhoOwner (w : World) (p : Z) (s : Scene) : Scene :=
  let c := this s in SendToOne w (if IsOn c p then MakeChannelOwner w c else MakeNotMember c) p s.

(* [game/Chat/Channels/Channel.cpp:551-593] Channel::List *)
Definition List_ (w : World) (p : Z) (s : Scene) : Scene :=
  let c := this s in
  if negb (IsOn c p) then SendToOne w (MakeNotMember c) p s
  else
    let shown := filter (fun x : Z * PlayerInfo => Is_true (in_world w x.1
      && (negb (IsPlayerAccount (security w p)) || (security w x.1 <=? gm_level_in_who_list w)) && visible_for w x.1 p)) (ordered (players c)) in
    SendToOne w (mkPacket SMSG_CHANNEL_LIST ([F8 1; FStr (m_name c); F8 (m_flags c); F32 (u32 (Z.of_nat (length shown)))]
      ++ flat_map (fun x => [F64 x.1; F8 (flags x.2)]) shown)) p s.

(* [game/Chat/Channels/Channel.cpp:629-667] Channel::Say *)
Definition Say (w : World) (p : Z) (what : string) (lang : Z) (s : Scene) : Scene :=
  let c := this s in
  let lang := if two_side_channel w then LANG_UNIVERSAL else lang in
  if negb (IsOn c p) then SendToOne w (MakeNotMember c) p s
  else if IsMuted (at_ p (players c)) then SendToOne w (MakeMuted c) p s
  else
    let what := c_str what in
    SendToAll w (mkPacket SMSG_MESSAGECHAT
      [F8 CHAT_MSG_CHANNEL; F32 lang; F64 p; F32 0; FStr (m_name c); F64 p; F32 (u32 (Z.of_nat (String.length what) + 1)); FStr what;
       F8 (if in_world w p then chat_tag w p else 0)]) (if IsModerator (at_ p (players c)) then 0 else p) s.

(* [game/Chat/Channels/Channel.cpp:669-725] Channel::Invite *)
Definition Invite (w : World) (p : Z) (newname : string) (s : Scene) : Scene :=
  let c := this s in
  let to_self k := SendToOne w k p s in
  if negb (IsOn c p) then to_self (MakeNotMember c)
  else match find_by_name w (c_str newname) with
  | None => to_self (MakePlayerNotFound c (c_str newname))
  | Some newp =>
    if negb (gm_visible w newp) then to_self (MakePlayerNotFound c (c_str newname))
    else if IsBanned c newp then to_self (MakePlayerInviteBanned c (c_str newname))
    else if negb (in_world w p) then s
    else if negb (team w newp =? team w p) && negb (two_side_channel w) then to_self (MakeInviteWrongFaction c)
    else if IsOn c newp then to_self (MakePlayerAlreadyMember c newp)
    else
      let s := if has_ignore w newp (u32 p) then s else SendToOne w (MakeInvite c p) newp s in
      SendToOne w (MakePlayerInvited c (player_name w newp)) p s
  end.
