(* ===== verification/ChannelMgr.v ===== *)
(** * ChannelMgr: who finds and deletes the channels
      (src/src/server/game/Chat/Channels/ChannelMgr.cpp, the channel lists of Player.cpp and
      the packets of Handlers/ChannelHandler.cpp)

    A channel is a heap object.  The manager of a team finds it by its name in lower case
    and deletes it when somebody leaves it empty; every player keeps the addresses of the
    channels joined.  Following the address of a deleted channel is a fault. *)

From S2P Require Import Prelude.
From S2P Require Import Channel.

(** Of the commands a player may give every five seconds. *)
Inductive command_kind := KPass | KSetOwner | KOwner | KModer | KUnmoder | KMute | KUnmute | KInvite | KKick | KBan | KUnban | KAnnounce.

#[export] Instance command_kind_eq_dec : EqDecision command_kind.
Proof. solve_decision. Defined.

Definition kind_code (k : command_kind) : Z :=
  match k with KPass => 0 | KSetOwner => 1 | KOwner => 2 | KModer => 3 | KUnmoder => 4 | KMute => 5 | KUnmute => 6 | KInvite => 7 | KKick => 8
             | KBan => 9 | KUnban => 10 | KAnnounce => 11 end.

(** The managers are told apart by a boolean: [true] is that of the horde. *)
Record Server := mkServer {
  chans : gmap Z Channel;
  next_chan : Z;
  channels : gmap (bool * string) Z;
  mgr_team : gmap bool Z;
  lists : gmap Z (list Z);
  rows : gmap (string * Z) ChannelRow;
  timeLast : gmap (Z * Z) Z;
  outbox : list (Z * Packet)
}.

Inductive fault := UseAfterFree.
Abbreviation T := (M Server fault).

Definition set_chans (m : gmap Z Channel) (s : Server) : Server :=
  mkServer m (next_chan s) (channels s) (mgr_team s) (lists s) (rows s) (timeLast s) (outbox s).
Definition set_channels (m : gmap (bool * string) Z) (s : Server) : Server :=
  mkServer (chans s) (next_chan s) m (mgr_team s) (lists s) (rows s) (timeLast s) (outbox s).
Definition set_mgr_team (m : gmap bool Z) (s : Server) : Server :=
  mkServer (chans s) (next_chan s) (channels s) m (lists s) (rows s) (timeLast s) (outbox s).
Definition set_player_lists (m : gmap Z (list Z)) (s : Server) : Server :=
  mkServer (chans s) (next_chan s) (channels s) (mgr_team s) m (rows s) (timeLast s) (outbox s).
Definition set_timeLast (m : gmap (Z * Z) Z) (s : Server) : Server :=
  mkServer (chans s) (next_chan s) (channels s) (mgr_team s) (lists s) (rows s) m (outbox s).
Definition post (p : Z) (k : Packet) (s : Server) : Server :=
  mkServer (chans s) (next_chan s) (channels s) (mgr_team s) (lists s) (rows s) (timeLast s) (outbox s ++ [(p, k)]).

Definition deref (c : Z) : T Channel :=
  s ← get; match chans s !! c with Some ch => mret ch | None => throw UseAfterFree end.

(** A call of a method of the channel at [c]. *)
Definition method (c : Z) (f : Scene -> Scene) : T unit :=
  ch ← deref c;
  modify (fun s =>
    let r := f (mkScene ch (lists s) (rows s) (outbox s)) in
    mkServer (<[c := this r]> (chans s)) (next_chan s) (channels s) (mgr_team s) (m_channels r) (table r) (timeLast s) (sent r)).

(** ** The manager *)

(* [game/Chat/Channels/ChannelMgr.cpp:24-35] channelMgr *)
Definition channelMgr (w : World) (team : Z) : option bool :=
  if two_side_channel w then Some false
  else if team =? ALLIANCE then Some false
  else if team =? HORDE then Some true
  else None.

(* [game/Chat/Channels/ChannelMgr.cpp:45-59] ChannelMgr::GetJoinChannel *)
Definition GetJoinChannel (w : World) (mgr : bool) (name : string) (channel_id : Z) : T Z :=
  s ← get;
  match channels s !! (mgr, lower w name) with
  | Some c => mret c
  | None =>
    let '(ch, t) := new_Channel w name channel_id (default 0 (mgr_team s !! mgr)) (rows s) in
    modify (fun s => mkServer (<[next_chan s := ch]> (chans s)) (next_chan s + 1) (<[(mgr, lower w name) := next_chan s]> (channels s)) (mgr_team s)
                       (lists s) t (timeLast s) (outbox s)) ;;
    mret (next_chan s)
  end.

(* [game/Chat/Channels/ChannelMgr.cpp:104-108] ChannelMgr::MakeNotOnPacket *)
Definition MakeNotOnPacket (name : string) : Packet := mkPacket SMSG_CHANNEL_NOTIFY [F8 0x05; FStr name].

(** The packet is sent to the player of the session that asks. *)
(* [game/Chat/Channels/ChannelMgr.cpp:61-82] ChannelMgr::GetChannel *)
Definition GetChannel (w : World) (mgr : bool) (name : string) (p : Z) : T (option Z) :=
  s ← get;
  match channels s !! (mgr, lower w name) with
  | Some c => mret (Some c)
  | None => modify (post p (MakeNotOnPacket name)) ;; mret None
  end.

(* [game/Chat/Channels/ChannelMgr.cpp:84-102] ChannelMgr::LeftChannel *)
Definition LeftChannel (w : World) (mgr : bool) (name : string) : T unit :=
  s ← get;
  match channels s !! (mgr, lower w name) with
  | None => mret tt
  | Some c =>
    channel ← deref c;
    if (GetNumPlayers channel =? 0) && negb (IsConstant channel) then
      modify (fun s => set_channels (delete (mgr, lower w name) (channels s)) s) ;;
      modify (fun s => set_chans (delete c (chans s)) s)
    else mret tt
  end.

(** ** The channels of a player *)

(* [game/Entities/Player/Player.cpp:5612-5628] Player::CanJoinConstantChannelInZone *)
Definition CanJoinConstantChannelInZone (w : World) (p : Z) (channel : ChatChannelsEntry) (zone_flags : Z) : bool :=
  if has_flag (dbc_flags channel) CHANNEL_DBC_FLAG_LFG then true
  else if has_flag (dbc_flags channel) CHANNEL_DBC_FLAG_ZONE_DEP && has_flag zone_flags AREA_FLAG_ARENA_INSTANCE then false
  else if has_flag (dbc_flags channel) CHANNEL_DBC_FLAG_CITY_ONLY && negb (has_flag zone_flags AREA_FLAG_SLAVE_CAPITAL) then false
  else if has_flag (dbc_flags channel) CHANNEL_DBC_FLAG_GUILD_REQ && in_guild w p then false
  else true.

(** One turn per channel of the list. *)
(* [game/Entities/Player/Player.cpp:5640-5650] Player::CleanupChannels *)
Fixpoint cleanup_loop (w : World) (p : Z) (turns : nat) : T unit :=
  s ← get;
  match joined (lists s) p, turns with
  | [], _ => mret tt
  | _ :: _, O => mret tt
  | ch :: rest, S n =>
    modify (fun s => set_player_lists (<[p := rest]> (lists s)) s) ;;
    method ch (Leave w ch p false) ;;
    match channelMgr w (team w p) with
    | Some mgr => c ← deref ch; LeftChannel w mgr (m_name c)
    | None => mret tt
    end ;;
    cleanup_loop w p n
  end.

Definition CleanupChannels (w : World) (p : Z) : T unit := s ← get; cleanup_loop w p (length (joined (lists s) p)).

(** [snprintf] with a pattern of the store: percent s is the argument; 99 characters fit. *)
Fixpoint format (pattern arg : string) : string :=
  match pattern with
  | String.EmptyString => ""
  | String.String c r =>
    if code c =? 37 then
      match r with
      | String.String d r' => if code d =? 115 then String.append arg (format r' arg) else String.String d (format r' arg)
      | String.EmptyString => ""
      end
    else String.String c (format r arg)
  end.
Definition snprintf_100 (pattern arg : string) : string := String.substring 0 99 (format pattern arg).

(* [game/Entities/Player/Player.cpp:5671-5680] Player::UpdateLocalChannels (the channel used) *)
Fixpoint find_used (l : list Z) (i : Z) : T (option Z) :=
  match l with
  | [] => mret None
  | c :: l' => ch ← deref c; if m_channelId ch =? i then mret (Some c) else find_used l' i
  end.

(** The channel to join, if it is another than the one used; the channel to leave and
    whether the client is told; nothing to do in a city channel. *)
(* [game/Entities/Player/Player.cpp:5682-5717] Player::UpdateLocalChannels (what to join and leave) *)
Definition choose_channels (w : World) (p : Z) (mgr : bool) (zone_flags : Z) (zone_name : string) (channel : ChatChannelsEntry) (usedChannel : option Z)
  : T (option (option Z * option Z * bool)) :=
  if CanJoinConstantChannelInZone w p channel zone_flags then
    if has_flag (dbc_flags channel) CHANNEL_DBC_FLAG_GLOBAL then
      c ← GetJoinChannel w mgr (c_str (pattern channel)) (ChannelID channel); mret (Some (Some c, None, true))
    else if has_flag (dbc_flags channel) CHANNEL_DBC_FLAG_CITY_ONLY && bool_decide (is_Some usedChannel) then mret None
    else
      let ext := if has_flag (dbc_flags channel) CHANNEL_DBC_FLAG_CITY_ONLY then city_name w else c_str zone_name in
      c ← GetJoinChannel w mgr (snprintf_100 (c_str (pattern channel)) ext) (ChannelID channel);
      mret (Some (match usedChannel with
                  | Some u => if c =? u then (None, None, true) else (Some c, Some u, false)
                  | None => (Some c, None, true)
                  end))
  else mret (Some (None, usedChannel, true)).

Definition local_channel (w : World) (p : Z) (mgr : bool) (zone_flags : Z) (zone_name : string) (i : Z) : T unit :=
  match channel_store w i with
  | None => mret tt
  | Some channel =>
    s ← get;
    usedChannel ← find_used (joined (lists s) p) i;
    x ← choose_channels w p mgr zone_flags zone_name channel usedChannel;
    match x with
    | None => mret tt
    | Some (joinChannel, removeChannel, sendRemove) =>
      match joinChannel with Some c => method c (Join w c p "") | None => mret tt end ;;
      match removeChannel with
      | Some c =>
        method c (Leave w c p sendRemove) ;;
        ch ← deref c;
        method c (PlayerLeftChannel p c) ;;
        LeftChannel w mgr (m_name ch)
      | None => mret tt
      end
    end
  end.

(** [skipped]: the player is loading and not on the way from another map. *)
(* [game/Entities/Player/Player.cpp:5652-5733] Player::UpdateLocalChannels *)
Definition UpdateLocalChannels (w : World) (p newZone : Z) (skipped : bool) : T unit :=
  if skipped then mret tt
  else match area_store w newZone with
  | None => mret tt
  | Some (zone_flags, zone_name) =>
    match channelMgr w (team w p) with
    | None => mret tt
    | Some mgr => mapM_ (local_channel w p mgr zone_flags zone_name) (seqZ 0 (channel_rows w))
    end
  end.

(** ** Packets *)

(** At most one of a kind every five seconds; [k] is what the command does. *)
Definition every_five_seconds (w : World) (p : Z) (kind : command_kind) (k : T unit) : T unit :=
  s ← get;
  if now w - default 0 (timeLast s !! (p, kind_code kind)) <? 5 then mret tt
  else modify (fun s => set_timeLast (<[(p, kind_code kind) := now w]> (timeLast s)) s) ;; k.

(** The channel of that name in the manager of the player's team. *)
Definition with_channel (w : World) (p : Z) (name : string) (f : Z -> T unit) : T unit :=
  match channelMgr w (team w p) with
  | Some mgr => o ← GetChannel w mgr name p; match o with Some c => f c | None => mret tt end
  | None => mret tt
  end.

(** A command that names a player. *)
Definition named (w : World) (p : Z) (kind : command_kind) (name other : string) (f : Z -> string -> Scene -> Scene) : T unit :=
  every_five_seconds w p kind
    (match normalizePlayerName w other with
     | Some n => with_channel w p name (fun c => method c (f c n))
     | None => mret tt
     end).

(* [game/Handlers/ChannelHandler.cpp:24-59] WorldSession::HandleJoinChannel *)
Definition HandleJoinChannel (w : World) (p channelId : Z) (channelName pass : string) : T unit :=
  let refused :=
    if channelId =? 0 then false
    else match channel_store w channelId with
         | None => true
         | Some channel =>
           match area_store w (zone w p) with
           | None => true
           | Some (zone_flags, _) => negb (CanJoinConstantChannelInZone w p channel zone_flags)
           end
         end in
  if refused then mret tt
  else if String.eqb channelName "" then mret tt
  else match channelMgr w (team w p) with
  | Some mgr =>
    modify (fun s => set_mgr_team (<[mgr := team w p]> (mgr_team s)) s) ;;
    c ← GetJoinChannel w mgr channelName channelId;
    method c (Join w c p (c_str pass))
  | None => mret tt
  end.

(* [game/Handlers/ChannelHandler.cpp:61-78] WorldSession::HandleLeaveChannel *)
Definition HandleLeaveChannel (w : World) (p : Z) (channelname : string) : T unit :=
  if String.eqb channelname "" then mret tt
  else match channelMgr w (team w p) with
  | Some mgr =>
    o ← GetChannel w mgr channelname p;
    match o with Some c => method c (Leave w c p true) | None => mret tt end ;;
    LeftChannel w mgr channelname
  | None => mret tt
  end.

(* [game/Handlers/ChannelHandler.cpp:80-89] WorldSession::HandleChannelList *)
Definition HandleChannelList (w : World) (p : Z) (name : string) : T unit := with_channel w p name (fun c => method c (List_ w p)).
(* [game/Handlers/ChannelHandler.cpp:91-111] WorldSession::HandleChannelPassword *)
Definition HandleChannelPassword (w : World) (p : Z) (name pass : string) : T unit :=
  every_five_seconds w p KPass (with_channel w p name (fun c => method c (Password w p pass))).
(* [game/Handlers/ChannelHandler.cpp:113-135] WorldSession::HandleChannelSetOwner *)
Definition HandleChannelSetOwner (w : World) (p : Z) (name newp : string) : T unit := named w p KSetOwner name newp (fun _ => SetOwnerByName w p).
(* [game/Handlers/ChannelHandler.cpp:137-152] WorldSession::HandleChannelOwner *)
Definition HandleChannelOwner (w : World) (p : Z) (name : string) : T unit :=
  every_five_seconds w p KOwner (with_channel w p name (fun c => method c (SendWhoOwner w p))).
(* [game/Handlers/ChannelHandler.cpp:154-176] WorldSession::HandleChannelModerator *)
Definition HandleChannelModerator (w : World) (p : Z) (name otp : string) : T unit := named w p KModer name otp (fun _ n => SetMode w p n true true).
(* [game/Handlers/ChannelHandler.cpp:178-201] WorldSession::HandleChannelUnmoderator *)
Definition HandleChannelUnmoderator (w : World) (p : Z) (name otp : string) : T unit :=
  named w p KUnmoder name otp (fun _ n => SetMode w p n true false).
(* [game/Handlers/ChannelHandler.cpp:203-225] WorldSession::HandleChannelMute *)
Definition HandleChannelMute (w : World) (p : Z) (name otp : string) : T unit := named w p KMute name otp (fun _ n => SetMode w p n false true).
(* [game/Handlers/ChannelHandler.cpp:227-249] WorldSession::HandleChannelUnmute *)
Definition HandleChannelUnmute (w : World) (p : Z) (name otp : string) : T unit := named w p KUnmute name otp (fun _ n => SetMode w p n false false).
(* [game/Handlers/ChannelHandler.cpp:251-282] WorldSession::HandleChannelInvite *)
Definition HandleChannelInvite (w : World) (p : Z) (name otp : string) : T unit :=
  every_five_seconds w p KInvite
    (match normalizePlayerName w otp with
     | Some n => if bad_word w name then mret tt else with_channel w p name (fun c => method c (Invite w p n))
     | None => mret tt
     end).
(* [game/Handlers/ChannelHandler.cpp:284-306] WorldSession::HandleChannelKick *)
Definition HandleChannelKick (w : World) (p : Z) (name otp : string) : T unit := named w p KKick name otp (fun c n => KickOrBan w c p n false).
(* [game/Handlers/ChannelHandler.cpp:308-330] WorldSession::HandleChannelBan *)
Definition HandleChannelBan (w : World) (p : Z) (name otp : string) : T unit := named w p KBan name otp (fun c n => KickOrBan w c p n true).
(* [game/Handlers/ChannelHandler.cpp:332-354] WorldSession::HandleChannelUnban *)
Definition HandleChannelUnban (w : World) (p : Z) (name otp : string) : T unit := named w p KUnban name otp (fun _ n => UnBan w p n).
(* [game/Handlers/ChannelHandler.cpp:356-371] WorldSession::HandleChannelAnnouncements *)
Definition HandleChannelAnnouncements (w : World) (p : Z) (name : string) : T unit :=
  every_five_seconds w p KAnnounce (with_channel w p name (fun c => method c (Announce w p))).
(* [game/Handlers/ChannelHandler.cpp:379-394] WorldSession::HandleGetChannelMemberCount *)
Definition HandleGetChannelMemberCount (w : World) (p : Z) (name : string) : T unit :=
  with_channel w p name (fun c => ch ← deref c;
    modify (post p (mkPacket SMSG_CHANNEL_MEMBER_COUNT [FStr (m_name ch); F8 (m_flags ch); F32 (GetNumPlayers ch)]))).

(** A message of at least one character, after the checks of chat messages. *)
(* [game/Handlers/ChatHandler.cpp:505-525] WorldSession::HandleMessagechatOpcode (channel) *)
Definition chat_channel (w : World) (p : Z) (name msg : string) (lang : Z) : T unit :=
  if IsPlayerAccount (security w p) && (level w p <? channel_level_req w) then mret tt
  else with_channel w p name (fun c => method c (Say w p msg lang)).

(** ** Histories *)

Inductive chat_cmd :=
| CJoin (p channelId : Z) (name pass : string)
| CLeave (p : Z) (name : string)
| CList (p : Z) (name : string)
| CPassword (p : Z) (name pass : string)
| CSetOwner (p : Z) (name other : string)
| COwner (p : Z) (name : string)
| CModerator (p : Z) (name other : string)
| CUnmoderator (p : Z) (name other : string)
| CMute (p : Z) (name other : string)
| CUnmute (p : Z) (name other : string)
| CInvite (p : Z) (name other : string)
| CKick (p : Z) (name other : string)
| CBan (p : Z) (name other : string)
| CUnban (p : Z) (name other : string)
| CAnnounce (p : Z) (name : string)
| CMemberCount (p : Z) (name : string)
| CSay (p : Z) (name msg : string) (lang : Z)
| CNewZone (p zone : Z) (skipped : bool)
| CLogout (p : Z).

Definition perform (w : World) (x : chat_cmd) : T unit :=
  match x with
  | CJoin p i n pw => HandleJoinChannel w p i n pw
  | CLeave p n => HandleLeaveChannel w p n
  | CList p n => HandleChannelList w p n
  | CPassword p n pw => HandleChannelPassword w p n pw
  | CSetOwner p n o => HandleChannelSetOwner w p n o
  | COwner p n => HandleChannelOwner w p n
  | CModerator p n o => HandleChannelModerator w p n o
  | CUnmoderator p n o => HandleChannelUnmoderator w p n o
  | CMute p n o => HandleChannelMute w p n o
  | CUnmute p n o => HandleChannelUnmute w p n o
  | CInvite p n o => HandleChannelInvite w p n o
  | CKick p n o => HandleChannelKick w p n o
  | CBan p n o => HandleChannelBan w p n o
  | CUnban p n o => HandleChannelUnban w p n o
  | CAnnounce p n => HandleChannelAnnouncements w p n
  | CMemberCount p n => HandleGetChannelMemberCount w p n
  | CSay p n m l => chat_channel w p n m l
  | CNewZone p z sk => UpdateLocalChannels w p z sk
  | CLogout p => CleanupChannels w p
  end.

Definition history (l : list (World * chat_cmd)) : T unit := mapM_ (fun wc => perform wc.1 wc.2) l.

(** A server without channels. *)
Definition no_channels (t : gmap (string * Z) ChannelRow) : Server := mkServer ∅ 0 ∅ ∅ ∅ t ∅ [].
