(* ===== verification/ChannelSpec.v ===== *)
(** * ChannelSpec: what the methods do to their channel

    Packets and rows aside, every method is an operation on the channel: [crowned],
    [entered], [departed], [removed], [regulated] below.  *)

From S2P Require Import Prelude.
From S2P Require Import Channel.

(** ** Flags *)

Lemma put_same k state i : 0 <= k -> has_flag (flags (put_flag (2 ^ k) state i)) (2 ^ k) = state.
Proof.
  intros Hk. rewrite has_flag_bit by done. unfold put_flag. cbn. destruct state.
  - rewrite Z.lor_spec, Z.pow2_bits_true by done. apply orb_true_r.
  - rewrite Z.ldiff_spec, Z.pow2_bits_true by done. apply andb_false_r.
Qed.

Lemma put_other k j state i : 0 <= k -> 0 <= j -> k <> j -> has_flag (flags (put_flag (2 ^ j) state i)) (2 ^ k) = has_flag (flags i) (2 ^ k).
Proof.
  intros Hk Hj Hne. rewrite !has_flag_bit by done. unfold put_flag. cbn. destruct state.
  - rewrite Z.lor_spec, Z.pow2_bits_false by lia. apply orb_false_r.
  - rewrite Z.ldiff_spec, Z.pow2_bits_false by lia. apply andb_true_r.
Qed.

Create Rewrite HintDb scene.

Lemma IsOwner_SetOwner b i : IsOwner (info_SetOwner b i) = b.
Proof. by apply (put_same 0). Qed.
Lemma IsOwner_SetModerator b i : IsOwner (info_SetModerator b i) = IsOwner i.
Proof. by apply (put_other 0 1). Qed.
Lemma IsOwner_SetMuted b i : IsOwner (info_SetMuted b i) = IsOwner i.
Proof. by apply (put_other 0 3). Qed.
Lemma IsModerator_SetOwner b i : IsModerator (info_SetOwner b i) = IsModerator i.
Proof. by apply (put_other 1 0). Qed.
Lemma IsModerator_SetModerator b i : IsModerator (info_SetModerator b i) = b.
Proof. by apply (put_same 1). Qed.
Lemma IsModerator_SetMuted b i : IsModerator (info_SetMuted b i) = IsModerator i.
Proof. by apply (put_other 1 3). Qed.
Lemma player_put m b i : player (put_flag m b i) = player i.
Proof. done. Qed.

#[export] Hint Rewrite IsOwner_SetOwner IsOwner_SetModerator IsOwner_SetMuted IsModerator_SetOwner IsModerator_SetModerator IsModerator_SetMuted : scene.

(** ** Packets and rows leave the channel alone *)

(** Nothing but packets. *)
Definition told (s s' : Scene) : Prop := exists l, s' = mkScene (this s) (m_channels s) (table s) l.

Lemma told_refl s : told s s.
Proof. exists (sent s). by destruct s. Qed.

Lemma told_fold {A} (f : Scene -> A -> Scene) l s : (forall s x, told s (f s x)) -> told s (foldl f s l).
Proof.
  intros Hf. revert s. induction l as [|x l IH]; intros s; [apply told_refl|]. cbn. destruct (Hf s x) as [l1 E]. destruct (IH (f s x)) as [l2 ->].
  rewrite E. by exists l2.
Qed.

Lemma told_SendToOne w d p s : told s (SendToOne w d p s).
Proof. unfold SendToOne. destruct (in_world w p); [by eexists|apply told_refl]. Qed.
Lemma told_SendToAll w d p s : told s (SendToAll w d p s).
Proof. apply told_fold. intros s' x. destruct (_ && _); [by eexists|apply told_refl]. Qed.
Lemma told_SendToAllButOne w d p s : told s (SendToAllButOne w d p s).
Proof. apply told_fold. intros s' x. destruct (_ && _); [by eexists|apply told_refl]. Qed.
Lemma told_JoinNotify w p s : told s (JoinNotify w p s).
Proof. unfold JoinNotify. destruct (IsConstant _); [apply told_SendToAllButOne|apply told_SendToAll]. Qed.
Lemma told_LeaveNotify w p s : told s (LeaveNotify w p s).
Proof. unfold LeaveNotify. destruct (IsConstant _); [apply told_SendToAllButOne|apply told_SendToAll]. Qed.

Section Reading.
Context (w : World) (d : Packet) (p : Z) (s : Scene).

Lemma this_SendToOne : this (SendToOne w d p s) = this s. Proof. by destruct (told_SendToOne w d p s) as [l ->]. Qed.
Lemma this_SendToAll : this (SendToAll w d p s) = this s. Proof. by destruct (told_SendToAll w d p s) as [l ->]. Qed.
Lemma this_JoinNotify : this (JoinNotify w p s) = this s. Proof. by destruct (told_JoinNotify w p s) as [l ->]. Qed.
Lemma this_LeaveNotify : this (LeaveNotify w p s) = this s. Proof. by destruct (told_LeaveNotify w p s) as [l ->]. Qed.
Lemma lists_SendToOne : m_channels (SendToOne w d p s) = m_channels s. Proof. by destruct (told_SendToOne w d p s) as [l ->]. Qed.
Lemma lists_SendToAll : m_channels (SendToAll w d p s) = m_channels s. Proof. by destruct (told_SendToAll w d p s) as [l ->]. Qed.
Lemma lists_JoinNotify : m_channels (JoinNotify w p s) = m_channels s. Proof. by destruct (told_JoinNotify w p s) as [l ->]. Qed.
Lemma lists_LeaveNotify : m_channels (LeaveNotify w p s) = m_channels s. Proof. by destruct (told_LeaveNotify w p s) as [l ->]. Qed.
Lemma table_SendToOne : table (SendToOne w d p s) = table s. Proof. by destruct (told_SendToOne w d p s) as [l ->]. Qed.
Lemma table_SendToAll : table (SendToAll w d p s) = table s. Proof. by destruct (told_SendToAll w d p s) as [l ->]. Qed.
Lemma table_JoinNotify : table (JoinNotify w p s) = table s. Proof. by destruct (told_JoinNotify w p s) as [l ->]. Qed.
Lemma table_LeaveNotify : table (LeaveNotify w p s) = table s. Proof. by destruct (told_LeaveNotify w p s) as [l ->]. Qed.
Lemma this_InDB : this (UpdateChannelInDB w s) = this s. Proof. unfold UpdateChannelInDB. by repeat case_match. Qed.
Lemma this_UseageInDB : this (UpdateChannelUseageInDB w s) = this s. Proof. done. Qed.
Lemma lists_InDB : m_channels (UpdateChannelInDB w s) = m_channels s. Proof. unfold UpdateChannelInDB. by repeat case_match. Qed.
Lemma lists_UseageInDB : m_channels (UpdateChannelUseageInDB w s) = m_channels s. Proof. done. Qed.
Lemma this_on f : this (on_channel f s) = f (this s). Proof. done. Qed.
Lemma lists_on f : m_channels (on_channel f s) = m_channels s. Proof. done. Qed.
Lemma this_JoinedChannel c : this (JoinedChannel p c s) = this s. Proof. done. Qed.
Lemma this_PlayerLeftChannel c : this (PlayerLeftChannel p c s) = this s. Proof. done. Qed.
End Reading.

#[export] Hint Rewrite this_SendToOne this_SendToAll this_JoinNotify this_LeaveNotify this_InDB this_UseageInDB this_on this_JoinedChannel
  this_PlayerLeftChannel lists_SendToOne lists_SendToAll lists_JoinNotify lists_LeaveNotify lists_InDB lists_UseageInDB lists_on : scene.
#[export] Hint Rewrite table_SendToOne table_SendToAll table_JoinNotify table_LeaveNotify : scene.

(** ** Operations on a channel *)

(** The old owner is none any more, [g] is owner and moderator. *)
Definition crowned (g : Z) (c : Channel) : Channel :=
  let c := if m_ownerGUID c =? 0 then c
           else match players c !! m_ownerGUID c with
                | Some i => set_players (<[m_ownerGUID c := info_SetOwner false i]> (players c)) c
                | None => c
                end in
  let c := set_ownerGUID g c in
  if g =? 0 then c else upd g (info_SetOwner true) (upd g (info_SetModerator true) c).

Definition entered (p : Z) (c : Channel) : Channel :=
  let c := set_players (<[p := mkInfo p 0]> (players c)) c in
  if negb (IsConstant c) && (m_ownerGUID c =? 0) && m_ownership c then upd p (info_SetModerator true) (crowned p c) else c.

Definition departed (p : Z) (c : Channel) : Channel :=
  let changeowner := IsOwner (at_ p (players c)) in
  let c := set_players (delete p (players c)) c in
  match first_player (players c) with
  | Some n => if negb (IsConstant c) && changeowner && m_ownership c then crowned n (upd n (info_SetModerator true) c) else c
  | None => c
  end.

Definition removed (good bad : Z) (ban : bool) (c : Channel) : Channel :=
  let changeowner := m_ownerGUID c =? bad in
  let c := if ban && negb (IsBanned c bad) then set_banned ({[bad]} ∪ banned c) c else c in
  let c := set_players (delete bad (players c)) c in
  if changeowner && m_ownership c && negb (bool_decide (players c = ∅)) then crowned good (upd good (info_SetModerator true) c) else c.

Lemma this_SetOwner w g e s : this (SetOwner w g e s) = crowned g (this s).
Proof.
  unfold SetOwner, crowned. destruct (m_ownerGUID (this s) =? 0); [|destruct (players (this s) !! m_ownerGUID (this s))];
    (destruct (g =? 0); [done|destruct e; by autorewrite with scene]).
Qed.

Lemma lists_SetOwner w g e s : m_channels (SetOwner w g e s) = m_channels s.
Proof.
  unfold SetOwner. destruct (m_ownerGUID (this s) =? 0); [|destruct (players (this s) !! m_ownerGUID (this s))];
    (destruct (g =? 0); [done|destruct e; by autorewrite with scene]).
Qed.

#[export] Hint Rewrite this_SetOwner lists_SetOwner : scene.

(** *** Joining *)

Definition may_join (w : World) (p : Z) (pass : string) (c : Channel) : bool :=
  negb (IsOn c p) && negb (IsBanned c p)
  && negb ((0 <? Z.of_nat (String.length (m_password c))) && negb (String.eqb (c_str pass) (c_str (m_password c))))
  && negb (in_world w p && has_flag (m_flags c) CHANNEL_FLAG_LFG && restricted_lfg w && IsPlayerAccount (security w p) && in_group w p).

Lemma this_Join w self p pass s :
  this (Join w self p pass s) = if may_join w p pass (this s) then entered p (this s) else this s.
Proof.
  unfold Join, may_join. destruct (IsOn (this s) p); [cbn [negb andb]; destruct (negb _); by autorewrite with scene|].
  destruct (IsBanned (this s) p); [cbn [negb andb]; by autorewrite with scene|]. cbn [negb andb].
  destruct ((0 <? _) && _); [cbn [negb andb]; by autorewrite with scene|]. cbn [negb andb].
  destruct (in_world w p && _ && _ && _ && _); [cbn [negb]; by autorewrite with scene|]. cbn [negb].
  unfold entered. change (IsConstant (set_players _ (this s))) with (IsConstant (this s)).
  assert (forall s0, this s0 = this s -> this (if announced w (this s) p then SendToAll w (MakeJoined (this s) p) 0 s0 else s0) = this s) as Han.
  { intros s0 E. destruct (announced _ _ _); autorewrite with scene; done. }
  set (s1 := if announced _ _ _ then _ else _). assert (this s1 = this s) as E1 by (apply Han; by destruct (in_world w p)). clearbody s1.
  destruct (IsConstant (this s)); [by autorewrite with scene; rewrite E1|]. cbn [negb andb].
  set (s2 := JoinNotify _ _ _). assert (this s2 = set_players (<[p := mkInfo p 0]> (players (this s))) (this s)) as E2 by (unfold s2; autorewrite with scene; by rewrite E1).
  clearbody s2. set (s3 := if bool_decide _ then _ else _).
  assert (this s3 = this s2) as E3 by (unfold s3; destruct (bool_decide _); by autorewrite with scene). clearbody s3. rewrite E3, E2.
  destruct (_ && _); [|by rewrite E3]. autorewrite with scene. by rewrite E3, E2.
Qed.

Lemma lists_Join w self p pass s :
  m_channels (Join w self p pass s) =
  if may_join w p pass (this s) && in_world w p then <[p := joined (m_channels s) p ++ [self]]> (m_channels s) else m_channels s.
Proof.
  unfold Join, may_join. destruct (IsOn (this s) p); [cbn [negb andb]; destruct (negb _); by autorewrite with scene|].
  destruct (IsBanned (this s) p); [cbn [negb andb]; by autorewrite with scene|]. cbn [negb andb].
  destruct ((0 <? _) && _); [cbn [negb andb]; by autorewrite with scene|]. cbn [negb andb].
  destruct (in_world w p && _ && _ && _ && _); [cbn [negb andb]; by autorewrite with scene|]. cbn [negb andb].
  set (s1 := if in_world w p then _ else _).
  assert (m_channels s1 = if in_world w p then <[p := joined (m_channels s) p ++ [self]]> (m_channels s) else m_channels s) as <-
    by (unfold s1; by destruct (in_world w p)). clearbody s1.
  set (s2 := if announced _ _ _ then _ else _).
  assert (m_channels s2 = m_channels s1) as <- by (unfold s2; destruct (announced _ _ _); by autorewrite with scene). clearbody s2.
  destruct (IsConstant (this s)); [by autorewrite with scene|].
  set (s3 := if bool_decide _ then _ else _).
  assert (m_channels s3 = m_channels s2) as <- by (unfold s3; destruct (bool_decide _); by autorewrite with scene). clearbody s3.
  destruct (_ && _); by autorewrite with scene.
Qed.

(** *** Leaving *)

Lemma this_Leave w self p b s : this (Leave w self p b s) = if IsOn (this s) p then departed p (this s) else this s.
Proof.
  unfold Leave. destruct (IsOn (this s) p); cbn [negb]; [|destruct b; by autorewrite with scene].
  set (s1 := if b then _ else s). assert (this s1 = this s) as E1 by (unfold s1; destruct b, (in_world w p); by autorewrite with scene). clearbody s1.
  set (s2 := if announced _ _ _ then _ else _).
  assert (this s2 = set_players (delete p (players (this s))) (this s)) as E2 by (unfold s2; destruct (announced _ _ _); autorewrite with scene; by rewrite E1).
  clearbody s2. unfold departed. change (IsConstant (set_players _ (this s))) with (IsConstant (this s)).
  destruct (IsConstant (this s)).
  - autorewrite with scene. rewrite E2. cbn [negb andb]. by destruct (first_player _).
  - cbn [negb andb]. autorewrite with scene. rewrite E2. destruct (first_player _) as [n|]; [|autorewrite with scene; by rewrite E2].
    destruct (_ && _); autorewrite with scene; by rewrite E2.
Qed.

Lemma lists_Leave w self p b s :
  m_channels (Leave w self p b s) =
  if IsOn (this s) p && b && in_world w p then m_channels (PlayerLeftChannel p self s) else m_channels s.
Proof.
  unfold Leave. destruct (IsOn (this s) p); cbn [negb andb]; [|destruct b; by autorewrite with scene].
  set (s1 := if b then _ else s).
  assert (m_channels s1 = if b && in_world w p then m_channels (PlayerLeftChannel p self s) else m_channels s) as <-.
  { unfold s1. destruct b, (in_world w p); autorewrite with scene; try done. unfold PlayerLeftChannel. cbn. by autorewrite with scene. }
  clearbody s1. set (s2 := if announced _ _ _ then _ else _).
  assert (m_channels s2 = m_channels s1) as <- by (unfold s2; destruct (announced _ _ _); by autorewrite with scene). clearbody s2.
  destruct (IsConstant (this s)); [by autorewrite with scene|]. destruct (first_player _) as [n|]; [|by autorewrite with scene].
  destruct (_ && _); by autorewrite with scene.
Qed.

(** *** What moderators do *)

Definition allowed (w : World) (p : Z) (c : Channel) : bool := IsOn c p && (IsModerator (at_ p (players c)) || IsGMAccount (rank w p)).

Lemma this_moderated w p k s : this (moderated w p k s) = if allowed w p (this s) then this (k s) else this s.
Proof.
  unfold moderated, allowed. destruct (IsOn (this s) p); cbn [negb andb]; [|by autorewrite with scene].
  destruct (IsModerator _), (IsGMAccount _); cbn [negb andb orb]; by autorewrite with scene.
Qed.

Lemma lists_moderated w p k s : m_channels (moderated w p k s) = if allowed w p (this s) then m_channels (k s) else m_channels s.
Proof.
  unfold moderated, allowed. destruct (IsOn (this s) p); cbn [negb andb]; [|by autorewrite with scene].
  destruct (IsModerator _), (IsGMAccount _); cbn [negb andb orb]; by autorewrite with scene.
Qed.

(** Whom a kick or a ban takes out of the channel. *)
Definition kick_target (w : World) (good : Z) (badname : string) (c : Channel) : option Z :=
  if allowed w good c then
    match find_by_name w (c_str badname) with
    | Some bad => if negb (IsOn c bad) || (negb (IsGMAccount (rank w good)) && (bad =? m_ownerGUID c) && negb (good =? m_ownerGUID c)) then None else Some bad
    | None => None
    end
  else None.

Lemma KickOrBan_effect w self good badname ban s :
  this (KickOrBan w self good badname ban s) =
    match kick_target w good badname (this s) with Some bad => removed good bad ban (this s) | None => this s end /\
  m_channels (KickOrBan w self good badname ban s) =
    match kick_target w good badname (this s) with Some bad => m_channels (PlayerLeftChannel bad self s) | None => m_channels s end.
Proof.
  unfold KickOrBan, kick_target. rewrite this_moderated, lists_moderated. destruct (allowed w good (this s)); [|done].
  destruct (find_by_name w _) as [bad|]; [|by autorewrite with scene].
  destruct (IsOn (this s) bad); cbn [negb orb]; [|by autorewrite with scene].
  destruct (negb _ && _ && _); [by autorewrite with scene|]. unfold removed.
  set (nb := ban && _). set (s1 := if nb then UpdateChannelInDB w _ else s).
  assert (this s1 = (if nb then set_banned ({[bad]} ∪ banned (this s)) (this s) else this s) /\ m_channels s1 = m_channels s) as [E1 L1]
    by (unfold s1; destruct nb; split; by autorewrite with scene). clearbody s1.
  set (s2 := if negb (_ && _) then _ else s1).
  assert (this s2 = this s1 /\ m_channels s2 = m_channels s1) as [E2 L2] by (unfold s2; destruct (negb (_ && _)); split; by autorewrite with scene).
  clearbody s2. rewrite E1 in E2. cbn [this on_channel PlayerLeftChannel set_lists]. rewrite E2.
  assert (m_ownership (if nb then set_banned ({[bad]} ∪ banned (this s)) (this s) else this s) = m_ownership (this s)) as Eo by by destruct nb.
  set (c1 := if nb then _ else this s) in *. cbn [m_ownership set_players players]. rewrite !Eo.
  destruct (_ && _ && _); autorewrite with scene; cbn [this m_channels PlayerLeftChannel set_lists on_channel]; by rewrite ?E2, ?L2, ?L1.
Qed.

Definition unban_target (w : World) (good : Z) (badname : string) (c : Channel) : option Z :=
  if allowed w good c then
    match find_by_name w (c_str badname) with Some bad => if IsBanned c bad then Some bad else None | None => None end
  else None.

Lemma UnBan_effect w good badname s :
  this (UnBan w good badname s) =
    match unban_target w good badname (this s) with Some bad => set_banned (banned (this s) ∖ {[bad]}) (this s) | None => this s end /\
  m_channels (UnBan w good badname s) = m_channels s.
Proof.
  unfold UnBan, unban_target. rewrite this_moderated, lists_moderated. destruct (allowed w good (this s)); [|done].
  destruct (find_by_name w _) as [bad|]; [|by autorewrite with scene]. destruct (IsBanned _ bad); cbn [negb]; by autorewrite with scene.
Qed.

Lemma Password_effect w p pass s :
  this (Password w p pass s) = (if allowed w p (this s) then set_password (c_str pass) (this s) else this s) /\ m_channels (Password w p pass s) = m_channels s.
Proof. unfold Password. rewrite this_moderated, lists_moderated. destruct (allowed w p (this s)); [|done]. by autorewrite with scene. Qed.

Lemma Announce_effect w p s :
  this (Announce w p s) = (if allowed w p (this s) then set_announce (negb (m_announce (this s))) (this s) else this s) /\
  m_channels (Announce w p s) = m_channels s.
Proof. unfold Announce. rewrite this_moderated, lists_moderated. destruct (allowed w p (this s)); [|done]. by autorewrite with scene. Qed.

(** A flag set or cleared, if it is not so yet. *)
Definition moded (tst : PlayerInfo -> bool) (put : bool -> PlayerInfo -> PlayerInfo) (set : bool) (i : PlayerInfo) : PlayerInfo :=
  if eqb (tst i) set then i else put set i.

Lemma upd_upd p f g c : upd p f (upd p g c) = upd p (fun i => f (g i)) c.
Proof. unfold upd, at_. destruct c. unfold set_players. cbn. rewrite lookup_insert_eq, insert_insert_eq. done. Qed.

Lemma SetModerator_effect w p set s : this (SetModerator w p set s) = upd p (moded IsModerator info_SetModerator set) (this s) /\
  m_channels (SetModerator w p set s) = m_channels s.
Proof.
  unfold SetModerator, moded. destruct (eqb (IsModerator _) set) eqn:E; autorewrite with scene; rewrite ?upd_upd; (split; [|done]);
    unfold upd; by rewrite E.
Qed.

Lemma SetMute_effect w p set s : this (SetMute w p set s) = upd p (moded IsMuted info_SetMuted set) (this s) /\
  m_channels (SetMute w p set s) = m_channels s.
Proof.
  unfold SetMute, moded. destruct (eqb (IsMuted _) set) eqn:E; autorewrite with scene; rewrite ?upd_upd; (split; [|done]);
    unfold upd; by rewrite E.
Qed.

Definition mode_target (w : World) (p : Z) (p2n : string) (mod_ : bool) (c : Channel) : option Z :=
  if in_world w p && allowed w p c then
    match find_by_name w (c_str p2n) with
    | Some q =>
      if ((p =? m_ownerGUID c) && (q =? m_ownerGUID c) && mod_) || negb (IsOn c q)
         || ((negb (IsGMAccount (security w p)) || negb (IsGMAccount (security w q))) && negb (team w p =? team w q) && negb (two_side_channel w))
         || ((m_ownerGUID c =? q) && negb (m_ownerGUID c =? p)) then None
      else Some q
    | None => None
    end
  else None.

Lemma SetMode_effect w p p2n mod_ set s :
  this (SetMode w p p2n mod_ set s) =
    match mode_target w p p2n mod_ (this s) with
    | Some q => upd q (if mod_ then moded IsModerator info_SetModerator set else moded IsMuted info_SetMuted set) (this s)
    | None => this s
    end /\
  m_channels (SetMode w p p2n mod_ set s) = m_channels s.
Proof.
  unfold SetMode, mode_target. destruct (in_world w p); [|done]. cbn [negb andb]. rewrite this_moderated, lists_moderated.
  destruct (allowed w p (this s)); [|done]. destruct (find_by_name w _) as [q|]; [|by autorewrite with scene].
  destruct ((p =? _) && _ && _); [done|]. cbn [orb]. destruct (IsOn (this s) q); cbn [negb orb]; [|by autorewrite with scene].
  destruct ((_ || _) && _ && _); [by autorewrite with scene|]. cbn [orb]. destruct ((_ =? q) && _); [by autorewrite with scene|].
  destruct mod_; [apply SetModerator_effect|apply SetMute_effect].
Qed.

Definition owner_target (w : World) (p : Z) (newname : string) (c : Channel) : option Z :=
  if in_world w p && IsOn c p && (IsGMAccount (security w p) || (p =? m_ownerGUID c)) then
    match find_by_name w (c_str newname) with
    | Some q => if negb (IsOn c q) || (negb (team w q =? team w p) && negb (two_side_channel w)) then None else Some q
    | None => None
    end
  else None.

Lemma SetOwnerByName_effect w p newname s :
  this (SetOwnerByName w p newname s) =
    match owner_target w p newname (this s) with Some q => crowned q (upd q (info_SetModerator true) (this s)) | None => this s end /\
  m_channels (SetOwnerByName w p newname s) = m_channels s.
Proof.
  unfold SetOwnerByName, owner_target. destruct (in_world w p); [|done]. cbn [negb andb].
  destruct (IsOn (this s) p); cbn [negb andb]; [|by autorewrite with scene].
  destruct (IsGMAccount _), (p =? m_ownerGUID (this s)); cbn [negb andb orb]; try (by autorewrite with scene);
    (destruct (find_by_name w _) as [q|]; [|by autorewrite with scene]; destruct (IsOn (this s) q); cbn [negb orb]; [|by autorewrite with scene];
     destruct (_ && _); by autorewrite with scene).
Qed.

(** *** The rest only sends packets *)

Lemma told_channel s s' : told s s' -> this s' = this s /\ m_channels s' = m_channels s /\ table s' = table s.
Proof. by intros [l ->]. Qed.

Lemma told_trans s1 s2 s3 : told s1 s2 -> told s2 s3 -> told s1 s3.
Proof. intros [l ->] [l' ->]. by exists l'. Qed.

Lemma told_SendWhoOwner w p s : told s (SendWhoOwner w p s).
Proof. apply told_SendToOne. Qed.
Lemma told_List w p s : told s (List_ w p s).
Proof. unfold List_. destruct (negb _); apply told_SendToOne. Qed.
Lemma told_Say w p what lang s : told s (Say w p what lang s).
Proof. unfold Say. destruct (negb _); [apply told_SendToOne|]. destruct (IsMuted _); [apply told_SendToOne|apply told_SendToAll]. Qed.
Lemma told_Invite w p n s : told s (Invite w p n s).
Proof.
  unfold Invite. destruct (negb _); [apply told_SendToOne|]. destruct (find_by_name w _) as [q|]; [|apply told_SendToOne].
  destruct (negb (gm_visible _ _)); [apply told_SendToOne|]. destruct (IsBanned _ _); [apply told_SendToOne|].
  destruct (negb (in_world _ _)); [apply told_refl|]. destruct (_ && _); [apply told_SendToOne|]. destruct (IsOn _ q); [apply told_SendToOne|].
  eapply told_trans; [|apply told_SendToOne]. destruct (has_ignore _ _ _); [apply told_refl|apply told_SendToOne].
Qed.
