(* ===== verification/ChannelSafety.v ===== *)
(** * ChannelSafety: no address of a deleted channel

    A channel is deleted when it is empty; a player who has its address is a member of it.
    Every method keeps that ([keeps]), so every command does ([linked]). *)

From S2P Require Import Prelude.
From S2P Require Import Channel ChannelMgr ChannelSpec.

(** ** Members *)

(** What a method never changes. *)
Definition static (c : Channel) := (m_special c, m_ownership c, m_name c, m_flags c, m_channelId c, m_IsSaved c, m_Team c).

Lemma IsOn_spec c p : IsOn c p = true <-> is_Some (players c !! p).
Proof. apply bool_decide_eq_true. Qed.

Lemma IsOn_upd p f c q : IsOn (upd p f c) q = (q =? p) || IsOn c q.
Proof.
  apply eq_true_iff_eq. rewrite orb_true_iff, Z.eqb_eq, !IsOn_spec. unfold upd. cbn. rewrite lookup_insert_is_Some'. intuition congruence.
Qed.

Lemma static_crowned g c : static (crowned g c) = static c.
Proof. unfold crowned. destruct (m_ownerGUID c =? 0); [|destruct (players c !! _)]; by destruct (g =? 0). Qed.

Lemma IsOn_crowned g c q : IsOn (crowned g c) q = (negb (g =? 0) && (q =? g)) || IsOn c q.
Proof.
  unfold crowned. set (c1 := if m_ownerGUID c =? 0 then c else _).
  assert (IsOn c1 q = IsOn c q) as E1.
  { unfold c1. destruct (m_ownerGUID c =? 0); [done|]. destruct (players c !! m_ownerGUID c) as [i|] eqn:Ei; [|done].
    apply eq_true_iff_eq. rewrite !IsOn_spec. cbn. rewrite lookup_insert_is_Some'. split; [intros [<-|]; eauto|tauto]. }
  clearbody c1. destruct (g =? 0); [exact E1|]. cbn [negb andb]. rewrite !IsOn_upd. change (IsOn (set_ownerGUID g c1) q) with (IsOn c1 q).
  rewrite E1. by destruct (q =? g).
Qed.

Lemma static_entered p c : static (entered p c) = static c.
Proof. unfold entered. destruct (_ && _ && _); [|done]. change (static (upd p _ ?c)) with (static c). by rewrite static_crowned. Qed.

Lemma IsOn_entered p c q : IsOn (entered p c) q = (q =? p) || IsOn c q.
Proof.
  unfold entered. set (c1 := set_players _ c).
  assert (IsOn c1 q = (q =? p) || IsOn c q) as E1.
  { apply eq_true_iff_eq. rewrite orb_true_iff, Z.eqb_eq, !IsOn_spec. unfold c1. cbn. rewrite lookup_insert_is_Some'. intuition congruence. }
  destruct (_ && _ && _); [|exact E1]. rewrite IsOn_upd, IsOn_crowned, E1. by destruct (q =? p), (negb _).
Qed.

Lemma IsOn_without p c q : IsOn (set_players (delete p (players c)) c) q = negb (q =? p) && IsOn c q.
Proof.
  apply eq_true_iff_eq. rewrite andb_true_iff, negb_true_iff, Z.eqb_neq, !IsOn_spec. cbn. rewrite lookup_delete_is_Some. intuition congruence.
Qed.

Lemma static_departed p c : static (departed p c) = static c.
Proof. unfold departed. destruct (first_player _) as [n|]; [|done]. destruct (_ && _ && _); [|done]. by rewrite static_crowned. Qed.

Lemma IsOn_departed p c q : q <> p -> IsOn c q = true -> IsOn (departed p c) q = true.
Proof.
  intros Hne Hq. unfold departed. pose proof (IsOn_without p c q) as E. rewrite Hq, (proj2 (Z.eqb_neq _ _) Hne) in E. cbn [negb andb] in E.
  destruct (first_player _) as [n|]; [|done]. destruct (_ && _ && _); [|done]. rewrite IsOn_crowned, IsOn_upd, E. by rewrite !orb_true_r.
Qed.

Lemma static_removed good bad ban c : static (removed good bad ban c) = static c.
Proof. unfold removed. destruct (ban && _); (destruct (_ && _ && _); [by rewrite static_crowned|done]). Qed.

Lemma IsOn_removed good bad ban c q : q <> bad -> IsOn c q = true -> IsOn (removed good bad ban c) q = true.
Proof.
  intros Hne Hq. unfold removed. set (c1 := if ban && _ then _ else c). assert (IsOn c1 q = true) as H1 by (unfold c1; by destruct (ban && _)).
  clearbody c1. pose proof (IsOn_without bad c1 q) as E. rewrite H1, (proj2 (Z.eqb_neq _ _) Hne) in E. cbn [negb andb] in E.
  destruct (_ && _ && _); [|done]. rewrite IsOn_crowned, IsOn_upd, E. by rewrite !orb_true_r.
Qed.

(** *** The GUIDs of the members

    The generator stops the server at 2^32 - 2, so a channel never has 2^32 members. *)

Definition guid_ok (p : Z) : Prop := 0 <= p < 2 ^ 32 - 1.
Definition guids_ok (c : Channel) : Prop := forall p i, players c !! p = Some i -> guid_ok p /\ guid_ok (player i).

Lemma guids_size c : guids_ok c -> Z.of_nat (size (players c)) < 2 ^ 32.
Proof.
  intros H. assert (dom (players c) ⊆ (list_to_set (seqZ 0 (2 ^ 32 - 1)) : gset Z)) as Hsub.
  { intros p [i Hi]%elem_of_dom. apply elem_of_list_to_set, elem_of_seqZ. destruct (H _ _ Hi) as [Hp _]. unfold guid_ok in Hp. lia. }
  apply subseteq_size in Hsub. rewrite size_dom, size_list_to_set, length_seqZ in Hsub by apply NoDup_seqZ. lia.
Qed.

Lemma guids_at c p : guids_ok c -> guid_ok (player (at_ p (players c))).
Proof. intros H. unfold at_. destruct (players c !! p) as [i|] eqn:E; [apply (H _ _ E)|done]. Qed.

Lemma guids_on c p : guids_ok c -> IsOn c p = true -> guid_ok p.
Proof. intros H [i Hi]%IsOn_spec. apply (H _ _ Hi). Qed.

Lemma guids_upd p f c : (forall i, player (f i) = player i) -> guid_ok p -> guids_ok c -> guids_ok (upd p f c).
Proof.
  intros Hf Hp H q i. cbn. intros [[<- <-]|[_ Hq]]%lookup_insert_Some; [|exact (H _ _ Hq)]. rewrite Hf. split; [done|by apply guids_at].
Qed.

Lemma guids_crowned g c : guid_ok g -> guids_ok c -> guids_ok (crowned g c).
Proof.
  intros Hg H. unfold crowned. set (c1 := if m_ownerGUID c =? 0 then c else _).
  assert (guids_ok c1) as H1.
  { unfold c1. destruct (m_ownerGUID c =? 0); [done|]. destruct (players c !! m_ownerGUID c) as [i|] eqn:Ei; [|done].
    intros q j. cbn. intros [[<- <-]|[_ Hq]]%lookup_insert_Some; [|exact (H _ _ Hq)]. exact (H _ _ Ei). }
  clearbody c1. destruct (g =? 0); [exact H1|]. do 2 (apply guids_upd; [done..|]). exact H1.
Qed.

Lemma guids_entered p c : guid_ok p -> guids_ok c -> guids_ok (entered p c).
Proof.
  intros Hp H. unfold entered. set (c1 := set_players _ c).
  assert (guids_ok c1) as H1 by (intros q i; cbn; intros [[<- <-]|[_ Hq]]%lookup_insert_Some; [done|exact (H _ _ Hq)]).
  destruct (_ && _ && _); [|done]. apply guids_upd; [done..|]. by apply guids_crowned.
Qed.

Lemma guids_without p c : guids_ok c -> guids_ok (set_players (delete p (players c)) c).
Proof. intros H q i. cbn. intros [_ Hq]%lookup_delete_Some. exact (H _ _ Hq). Qed.

Lemma guids_first c n : guids_ok c -> first_player (players c) = Some n -> guid_ok n.
Proof.
  intros H. unfold first_player. destruct (ordered (players c)) as [|[k i] l] eqn:E; [done|]. intros [= <-].
  assert ((k, i) ∈ ordered (players c)) as Hk by (rewrite E; constructor). apply elem_of_ordered in Hk. apply (H _ _ Hk).
Qed.

Lemma guids_departed p c : guids_ok c -> guids_ok (departed p c).
Proof.
  intros H%(guids_without p). unfold departed. destruct (first_player _) as [n|] eqn:En; [|done]. pose proof (guids_first _ _ H En) as Hn.
  destruct (_ && _ && _); [|done]. apply guids_crowned; [done|]. by apply guids_upd.
Qed.

Lemma guids_removed good bad ban c : guid_ok good -> guids_ok c -> guids_ok (removed good bad ban c).
Proof.
  intros Hg H. unfold removed. set (c1 := if ban && _ then _ else c). assert (guids_ok c1) as H1 by (unfold c1; by destruct (ban && _)). clearbody c1.
  destruct (_ && _ && _); [|by apply guids_without]. apply guids_crowned, guids_upd; [done..|]. by apply guids_without.
Qed.

(** ** Lists *)

Lemma joined_insert L p l q : joined (<[p := l]> L) q = if decide (q = p) then l else joined L q.
Proof. unfold joined. destruct (decide (q = p)) as [->|Hne]; [by rewrite lookup_insert_eq|by rewrite lookup_insert_ne]. Qed.

(** Whoever lists the channel is a member. *)
Definition listed_ok (c : Z) (ch : Channel) (L : gmap Z (list Z)) : Prop := forall p, c ∈ joined L p -> IsOn ch p = true.

Record keeps (c : Z) (s s' : Scene) : Prop := {
  kp_static : static (this s') = static (this s);
  kp_guids : guids_ok (this s) -> guids_ok (this s');
  kp_on : listed_ok c (this s') (m_channels s');
  kp_other : forall p c', c' <> c -> c' ∈ joined (m_channels s') p <-> c' ∈ joined (m_channels s) p;
  kp_nodup : (forall p, NoDup (joined (m_channels s) p)) -> forall p, NoDup (joined (m_channels s') p)
}.

(** A method of the channel at [c] that keeps the lists right. *)
Definition tame (c : Z) (f : Scene -> Scene) : Prop := forall s, listed_ok c (this s) (m_channels s) -> keeps c s (f s).

Lemma keeps_more c s s' :
  listed_ok c (this s) (m_channels s) -> m_channels s' = m_channels s -> static (this s') = static (this s) ->
  (guids_ok (this s) -> guids_ok (this s')) -> (forall q, IsOn (this s) q = true -> IsOn (this s') q = true) -> keeps c s s'.
Proof. intros Hok E Es Hg H. split; rewrite ?E; try done. intros p Hp. auto. Qed.

Lemma tame_told c f : (forall s, told s (f s)) -> tame c f.
Proof. intros H s Hok. destruct (told_channel _ _ (H s)) as (E & El & _). apply keeps_more; [done|done|by rewrite E..]. Qed.

(** Nothing more is listed, and the channel only by members. *)
Lemma keeps_less c s s' p :
  listed_ok c (this s) (m_channels s) -> static (this s') = static (this s) -> m_channels s' = m_channels (PlayerLeftChannel p c s) ->
  (guids_ok (this s) -> guids_ok (this s')) -> (forall q, q <> p -> IsOn (this s) q = true -> IsOn (this s') q = true) -> keeps c s s'.
Proof.
  intros Hok Es E Hg H. split; [done|done| | |]; rewrite E; cbn.
  - intros q. rewrite joined_insert. destruct (decide (q = p)) as [->|Hne]; [by intros [? _]%list_elem_of_filter|]. auto.
  - intros q c' Hc. rewrite joined_insert. destruct (decide (q = p)) as [->|Hne]; [|done]. rewrite list_elem_of_filter. tauto.
  - intros Hnd q. rewrite joined_insert. destruct (decide (q = p)); [by apply NoDup_filter|done].
Qed.

Lemma tame_Join w c p pass : guid_ok p -> tame c (Join w c p pass).
Proof.
  intros Hp s Hok. pose proof (this_Join w c p pass s) as E. pose proof (lists_Join w c p pass s) as El.
  destruct (may_join w p pass (this s)) eqn:Hm; [|apply keeps_more; [done|done|by rewrite E..]]. cbn [andb] in El.
  assert (c ∉ joined (m_channels s) p) as Hnot.
  { intros H%Hok. unfold may_join in Hm. by rewrite H in Hm. }
  destruct (in_world w p).
  - split; [by rewrite E, static_entered|rewrite E; by apply guids_entered| | |]; rewrite El.
    + intros q. rewrite E, IsOn_entered, joined_insert. destruct (decide (q = p)) as [->|Hne]; [by rewrite Z.eqb_refl|]. intros ->%Hok. apply orb_true_r.
    + intros q c' Hc. rewrite joined_insert. destruct (decide (q = p)) as [->|]; [|done]. rewrite elem_of_app, list_elem_of_singleton. intuition congruence.
    + intros Hnd q. rewrite joined_insert. destruct (decide (q = p)); [|done]. apply NoDup_app. split_and!; [apply Hnd| |apply NoDup_singleton].
      intros x Hx ->%list_elem_of_singleton. done.
  - apply keeps_more; [done|done|by rewrite E, static_entered|rewrite E; by apply guids_entered|]. intros q Hq. by rewrite E, IsOn_entered, Hq, orb_true_r.
Qed.

Lemma keeps_Leave w c p b s :
  listed_ok c (this s) (m_channels s) -> (b = true /\ in_world w p = true) \/ c ∉ joined (m_channels s) p -> keeps c s (Leave w c p b s).
Proof.
  intros Hok Hb. pose proof (this_Leave w c p b s) as E. pose proof (lists_Leave w c p b s) as El.
  destruct (IsOn (this s) p) eqn:Hon; cbn [andb] in El; [|apply keeps_more; [done|done|by rewrite E..]].
  destruct (b && in_world w p) eqn:Hbw.
  - apply (keeps_less c s _ p); [done|by rewrite E, static_departed|done|rewrite E; apply guids_departed|]. intros q Hq. rewrite E. by apply IsOn_departed.
  - destruct Hb as [[-> Hw]|Hn]; [by rewrite Hw in Hbw|]. split; [by rewrite E, static_departed|rewrite E; apply guids_departed| |by rewrite El|by rewrite El].
    intros q. rewrite El, E. intros Hq. apply IsOn_departed; [congruence|auto].
Qed.

Lemma filter_filter_same {A} (P : A -> Prop) `{!forall x, Decision (P x)} (l : list A) : filter P (filter P l) = filter P l.
Proof. induction l as [|x l IH]; [done|]. rewrite filter_cons. case_decide; [by rewrite filter_cons, decide_True, IH|exact IH]. Qed.

(** Leaving, and off the list of the player. *)
Lemma keeps_Leave_list w c p b s : listed_ok c (this s) (m_channels s) -> keeps c s (PlayerLeftChannel p c (Leave w c p b s)).
Proof.
  intros Hok. pose proof (this_Leave w c p b s) as E. pose proof (lists_Leave w c p b s) as El.
  apply (keeps_less c s _ p); [done| | | |]; rewrite ?this_PlayerLeftChannel.
  - rewrite E. destruct (IsOn _ _); [apply static_departed|done].
  - unfold PlayerLeftChannel. cbn. rewrite El. destruct (_ && _ && _); [|done]. cbn. rewrite insert_insert_eq. f_equal.
    rewrite joined_insert, decide_True by done. apply filter_filter_same.
  - rewrite E. destruct (IsOn _ _); [apply guids_departed|done].
  - intros q Hq H. rewrite E. destruct (IsOn (this s) p); [by apply IsOn_departed|done].
Qed.

Lemma kick_target_on w good badname c bad : kick_target w good badname c = Some bad -> IsOn c good = true /\ IsOn c bad = true.
Proof.
  unfold kick_target, allowed. destruct (IsOn c good); [|done]. cbn [andb]. destruct (_ || _); [|done]. destruct (find_by_name _ _) as [q|]; [|done].
  destruct (IsOn c q) eqn:E; [|done]. cbn [negb orb]. destruct (_ && _ && _); [done|]. by intros [= <-].
Qed.

Lemma mode_target_on w p n m c q : mode_target w p n m c = Some q -> IsOn c q = true.
Proof.
  unfold mode_target. destruct (_ && _); [|done]. destruct (find_by_name _ _) as [x|]; [|done].
  destruct (IsOn c x) eqn:E; [|by rewrite orb_true_r]. destruct (_ || _ || _ || _); [done|]. by intros [= <-].
Qed.

Lemma owner_target_on w p n c q : owner_target w p n c = Some q -> IsOn c q = true.
Proof.
  unfold owner_target. destruct (_ && _); [|done]. destruct (find_by_name _ _) as [x|]; [|done]. destruct (IsOn c x) eqn:E; [|done].
  cbn [negb orb]. destruct (_ && _); [done|]. by intros [= <-].
Qed.

Lemma tame_KickOrBan w c good badname ban : tame c (KickOrBan w c good badname ban).
Proof.
  intros s Hok. destruct (KickOrBan_effect w c good badname ban s) as [E El].
  destruct (kick_target w good badname (this s)) as [bad|] eqn:Hk; [|apply keeps_more; [done|done|by rewrite E..]].
  apply (keeps_less c s _ bad); [done|by rewrite E, static_removed|done|rewrite E; intros Hg|].
  { apply guids_removed; [|done]. apply (guids_on _ _ Hg). by destruct (kick_target_on _ _ _ _ _ Hk). }
  intros q Hq. rewrite E. by apply IsOn_removed.
Qed.

(** Methods that leave the lists and only add members. *)
Lemma tame_upd c f g :
  (forall s, this (f s) = g (this s) /\ m_channels (f s) = m_channels s) -> (forall ch, static (g ch) = static ch) ->
  (forall ch, guids_ok ch -> guids_ok (g ch)) -> (forall ch q, IsOn ch q = true -> IsOn (g ch) q = true) -> tame c f.
Proof.
  intros H Hs Hg Hon s Hok. destruct (H s) as [E El]. apply keeps_more; [done|done|by rewrite E|rewrite E; apply Hg|]. intros q. rewrite E. apply Hon.
Qed.

Lemma tame_UnBan w c good badname : tame c (UnBan w good badname).
Proof.
  apply (tame_upd _ _ (fun ch => match unban_target w good badname ch with Some bad => set_banned (banned ch ∖ {[bad]}) ch | None => ch end));
    [intros s; apply UnBan_effect|..]; intros ch; by destruct (unban_target _ _ _ _).
Qed.
Lemma tame_Password w c p pass : tame c (Password w p pass).
Proof.
  apply (tame_upd _ _ (fun ch => if allowed w p ch then set_password (c_str pass) ch else ch));
    [intros s; apply Password_effect|..]; intros ch; by destruct (allowed _ _ _).
Qed.
Lemma tame_Announce w c p : tame c (Announce w p).
Proof.
  apply (tame_upd _ _ (fun ch => if allowed w p ch then set_announce (negb (m_announce ch)) ch else ch));
    [intros s; apply Announce_effect|..]; intros ch; by destruct (allowed _ _ _).
Qed.
Lemma tame_SetMode w c p p2n mod_ set : tame c (SetMode w p p2n mod_ set).
Proof.
  apply (tame_upd _ _ (fun ch => match mode_target w p p2n mod_ ch with
    | Some q => upd q (if mod_ then moded IsModerator info_SetModerator set else moded IsMuted info_SetMuted set) ch | None => ch end));
    [intros s; apply SetMode_effect|..]; intros ch; destruct (mode_target _ _ _ _ _) as [q0|] eqn:Hq0; try done.
  { intros Hg. apply guids_upd; [intros i; unfold moded; destruct mod_; by destruct (eqb _ _)| |done]. exact (guids_on _ _ Hg (mode_target_on _ _ _ _ _ _ Hq0)). }
  intros q Hq. by rewrite IsOn_upd, Hq, orb_true_r.
Qed.
Lemma tame_SetOwnerByName w c p newname : tame c (SetOwnerByName w p newname).
Proof.
  apply (tame_upd _ _ (fun ch => match owner_target w p newname ch with Some q => crowned q (upd q (info_SetModerator true) ch) | None => ch end));
    [intros s; apply SetOwnerByName_effect|..]; intros ch; destruct (owner_target _ _ _ _) as [q0|] eqn:Hq0; try done; [by rewrite static_crowned| |].
  { intros Hg. pose proof (guids_on _ _ Hg (owner_target_on _ _ _ _ _ Hq0)). by apply guids_crowned, guids_upd. }
  intros q Hq. by rewrite IsOn_crowned, IsOn_upd, Hq, !orb_true_r.
Qed.

(** ** The server *)

Record linked (s : Server) : Prop := {
  li_registered : forall k c, channels s !! k = Some c -> is_Some (chans s !! c);
  li_unique : forall k k' c, channels s !! k = Some c -> channels s !! k' = Some c -> k = k';
  li_fresh : forall c, is_Some (chans s !! c) -> c < next_chan s;
  li_joined : forall c p, c ∈ joined (lists s) p -> exists ch, chans s !! c = Some ch /\ IsOn ch p = true;
  li_nodup : forall p, NoDup (joined (lists s) p);
  li_guids : forall c ch, chans s !! c = Some ch -> guids_ok ch
}.

Lemma linked_no_channels t : linked (no_channels t).
Proof.
  split; cbn.
  - intros k c H. by rewrite lookup_empty in H.
  - intros k k' c H. by rewrite lookup_empty in H.
  - intros c [x H]. by rewrite lookup_empty in H.
  - intros c p H. unfold joined in H. rewrite lookup_empty in H. by apply not_elem_of_nil in H.
  - intros p. unfold joined. rewrite lookup_empty. constructor.
  - intros c ch H. by rewrite lookup_empty in H.
Qed.

Lemma linked_listed s c ch : linked s -> chans s !! c = Some ch -> listed_ok c ch (lists s).
Proof. intros Hs Hc p Hp. destruct (li_joined _ Hs c p Hp) as (ch' & E & H). congruence. Qed.

Definition scene_of (s : Server) (ch : Channel) : Scene := mkScene ch (lists s) (rows s) (outbox s).
Definition put_scene (c : Z) (r : Scene) (s : Server) : Server :=
  mkServer (<[c := this r]> (chans s)) (next_chan s) (channels s) (mgr_team s) (m_channels r) (table r) (timeLast s) (sent r).

Lemma runs_channel c s ch (Q : Channel -> Server -> Prop) : chans s !! c = Some ch -> Q ch s -> runs (deref c) s Q.
Proof. intros E HQ. unfold deref. apply runs_bind, runs_get. by rewrite E. Qed.

Lemma runs_method c f s ch (Q : unit -> Server -> Prop) : chans s !! c = Some ch -> Q tt (put_scene c (f (scene_of s ch)) s) -> runs (method c f) s Q.
Proof. intros E HQ. unfold method. apply runs_bind, (runs_channel _ _ _ _ E), runs_modify, HQ. Qed.

Lemma linked_put s c ch r : linked s -> chans s !! c = Some ch -> keeps c (scene_of s ch) r -> linked (put_scene c r s).
Proof.
  intros Hs Hc [K1 K0 K2 K3 K4]. split; cbn.
  - intros k c' H. apply lookup_insert_is_Some'. right. exact (li_registered _ Hs _ _ H).
  - exact (li_unique _ Hs).
  - intros c' [<-|H]%lookup_insert_is_Some'; apply (li_fresh _ Hs); eauto.
  - intros c' p Hp. destruct (decide (c' = c)) as [->|Hne]; [exists (this r); rewrite lookup_insert_eq; auto|].
    rewrite lookup_insert_ne by done. apply (li_joined _ Hs). by apply (K3 p c' Hne).
  - apply K4, (li_nodup _ Hs).
  - intros c' ch' [[_ <-]|[_ H]]%lookup_insert_Some; [exact (K0 (li_guids _ Hs _ _ Hc))|exact (li_guids _ Hs _ _ H)].
Qed.

(** Only the mail box of packets, the times and the teams of the managers change. *)
Definition same_links (s s' : Server) : Prop :=
  chans s' = chans s /\ next_chan s' = next_chan s /\ channels s' = channels s /\ lists s' = lists s.

Lemma linked_same s s' : same_links s s' -> linked s -> linked s'.
Proof. intros (E1 & E2 & E3 & E4) []. split; rewrite ?E1, ?E2, ?E3, ?E4; done. Qed.

Lemma new_Channel_empty w name id t rows : players (new_Channel w name id t rows).1 = ∅.
Proof.
  unfold new_Channel. destruct (channel_store w id); [done|]. destruct (String.eqb _ _); [done|]. destruct (preserve_channels w); [|done].
  by destruct (rows !! _).
Qed.

(** What a command may do to the rest while the channel at [c] stays where it is. *)
Definition still (c : Z) (s s' : Server) : Prop := is_Some (chans s !! c) -> is_Some (chans s' !! c).

Lemma LeftChannel_linked w mgr name s : linked s -> runs (LeftChannel w mgr name) s (fun _ s' => linked s' /\ lists s' = lists s).
Proof.
  intros Hs. unfold LeftChannel. repeat plain_step. destruct (channels s !! (mgr, lower w name)) as [c|] eqn:Ec; [|by apply runs_ret].
  destruct (li_registered _ Hs _ _ Ec) as [ch Hc]. apply runs_bind, (runs_channel _ _ _ _ Hc).
  destruct ((GetNumPlayers ch =? 0) && negb (IsConstant ch)) eqn:E; [|by apply runs_ret]. repeat plain_step.
  apply andb_prop in E as [E%Z.eqb_eq _]. pose proof (guids_size _ (li_guids _ Hs _ _ Hc)) as Hsz.
  unfold GetNumPlayers in E. rewrite wrap_small in E by lia. assert (players ch = ∅) as Hem by (apply map_size_empty_inv; lia).
  split; [|done]. split; cbn.
  - intros k c' [Hk H]%lookup_delete_Some. apply lookup_delete_is_Some. split; [|exact (li_registered _ Hs _ _ H)].
    intros <-. apply Hk. exact (li_unique _ Hs _ _ _ Ec H).
  - intros k k' c' [_ H]%lookup_delete_Some [_ H']%lookup_delete_Some. exact (li_unique _ Hs _ _ _ H H').
  - intros c' [_ H]%lookup_delete_is_Some. exact (li_fresh _ Hs _ H).
  - intros c' p Hp. destruct (li_joined _ Hs _ _ Hp) as (ch' & Hc' & Hon). exists ch'. split; [|done]. apply lookup_delete_Some. split; [|done].
    intros <-. rewrite Hc in Hc'. injection Hc' as <-. apply IsOn_spec in Hon. rewrite Hem, lookup_empty in Hon. by destruct Hon.
  - exact (li_nodup _ Hs).
  - intros c' ch' [_ H]%lookup_delete_Some. exact (li_guids _ Hs _ _ H).
Qed.

Lemma GetJoinChannel_linked w mgr name id s :
  linked s -> runs (GetJoinChannel w mgr name id) s (fun c s' => linked s' /\ is_Some (chans s' !! c) /\ lists s' = lists s /\ (forall c', still c' s s')).
Proof.
  intros Hs. unfold GetJoinChannel. repeat plain_step. destruct (channels s !! (mgr, lower w name)) as [c|] eqn:Ec.
  { apply runs_ret. split_and!; [done|exact (li_registered _ Hs _ _ Ec)|done|by intros c' H]. }
  destruct (new_Channel _ _ _ _ _) as [ch t] eqn:En. pose proof (new_Channel_empty w name id (default 0 (mgr_team s !! mgr)) (rows s)) as Hem.
  rewrite En in Hem. cbn in Hem. repeat plain_step.
  assert (forall c, is_Some (chans s !! c) -> c <> next_chan s) as Hfresh by (intros c H; pose proof (li_fresh _ Hs c H); lia).
  split_and!; cbn; [| |done|intros c' H; cbn; apply lookup_insert_is_Some'; by right]; [|rewrite lookup_insert_eq; eauto]. split; cbn.
  - intros k c [[_ <-]|[_ H]]%lookup_insert_Some; [rewrite lookup_insert_eq; eauto|]. apply lookup_insert_is_Some'. right. exact (li_registered _ Hs _ _ H).
  - intros k k' c [[<- <-]|[_ H]]%lookup_insert_Some [[<- E]|[_ H']]%lookup_insert_Some; [done| | |exact (li_unique _ Hs _ _ _ H H')].
    + by destruct (Hfresh _ (li_registered _ Hs _ _ H')).
    + subst c. by destruct (Hfresh _ (li_registered _ Hs _ _ H)).
  - intros c [<-|H]%lookup_insert_is_Some'; [lia|]. pose proof (li_fresh _ Hs _ H). lia.
  - intros c p Hp. destruct (li_joined _ Hs _ _ Hp) as (x & Hx & Hon). exists x. split; [|done]. rewrite lookup_insert_ne; [done|].
    apply not_eq_sym, Hfresh. eauto.
  - exact (li_nodup _ Hs).
  - intros c x [[_ <-]|[_ H]]%lookup_insert_Some; [|exact (li_guids _ Hs _ _ H)]. intros p i. rewrite Hem, lookup_empty. done.
Qed.

Lemma method_linked c f s : linked s -> is_Some (chans s !! c) -> tame c f -> runs (method c f) s (fun _ s' => linked s' /\ forall c', still c' s s').
Proof.
  intros Hs [ch Hc] Hf. apply (runs_method _ _ _ _ _ Hc). split; [|intros c' H; apply lookup_insert_is_Some'; by right].
  apply (linked_put _ _ _ _ Hs Hc), Hf. exact (linked_listed _ _ _ Hs Hc).
Qed.

Lemma with_channel_linked w p name f s :
  linked s -> (forall c s0, linked s0 -> is_Some (chans s0 !! c) -> runs (f c) s0 (fun _ s' => linked s')) -> runs (with_channel w p name f) s (fun _ s' => linked s').
Proof.
  intros Hs Hf. unfold with_channel, GetChannel. destruct (channelMgr _ _) as [mgr|]; [|by apply runs_ret]. repeat plain_step.
  destruct (channels s !! (mgr, lower w name)) as [c|] eqn:Ec; repeat plain_step.
  - apply Hf; [done|]. exact (li_registered _ Hs _ _ Ec).
  - by apply (linked_same s).
Qed.

Lemma five_seconds_linked w p kind k s : linked s -> (forall s0, linked s0 -> runs k s0 (fun _ s' => linked s')) ->
  runs (every_five_seconds w p kind k) s (fun _ s' => linked s').
Proof. intros Hs Hk. unfold every_five_seconds. repeat plain_step. destruct (_ <? 5); repeat plain_step; [done|]. apply Hk. by apply (linked_same s). Qed.

Lemma tame_runs c f s : tame c f -> linked s -> is_Some (chans s !! c) -> runs (method c f) s (fun _ s' => linked s').
Proof. intros Hf Hs Hc. apply (runs_mono _ _ _ _ (method_linked _ _ _ Hs Hc Hf)). by intros _ s' []. Qed.

Lemma named_linked w p kind name other f s : linked s -> (forall c n, tame c (f c n)) -> runs (named w p kind name other f) s (fun _ s' => linked s').
Proof.
  intros Hs Hf. apply five_seconds_linked; [done|]. intros s0 H0. destruct (normalizePlayerName w other) as [n|]; [|by apply runs_ret].
  apply with_channel_linked; [done|]. intros c s1 H1 Hc. by apply tame_runs.
Qed.

(** *** Logging out *)

Lemma unlisted_linked s p ch rest : linked s -> joined (lists s) p = ch :: rest -> linked (set_player_lists (<[p := rest]> (lists s)) s).
Proof.
  intros Hs E. pose proof (li_nodup _ Hs p) as Hnd. rewrite E in Hnd. apply NoDup_cons in Hnd as [Hn Hnd].
  destruct Hs as [H1 H2 H3 H4 H5 H6]. split; cbn; try done.
  - intros c q. rewrite joined_insert. destruct (decide (q = p)) as [->|]; [|apply H4]. intros Hc. apply H4. rewrite E. by constructor.
  - intros q. rewrite joined_insert. destruct (decide (q = p)); [done|apply H5].
Qed.

Lemma cleanup_linked w p n s :
  linked s -> (length (joined (lists s) p) <= n)%nat -> runs (cleanup_loop w p n) s (fun _ s' => linked s' /\ joined (lists s') p = []).
Proof.
  revert s. induction n as [|n IH]; intros s Hs Hn; cbn [cleanup_loop]; repeat plain_step; (destruct (joined (lists s) p) as [|ch rest] eqn:E; [by apply runs_ret|]);
    cbn [length] in Hn; [lia|]. apply runs_bind, runs_modify.
  match goal with |- runs _ ?st _ => set (s1 := st) end. assert (linked s1) as H1 by by apply (unlisted_linked _ _ ch).
  pose proof (li_nodup _ Hs p) as Hnd. rewrite E in Hnd. apply NoDup_cons in Hnd as [Hnot _].
  destruct (li_joined _ Hs ch p) as (x & Hx & Hon); [rewrite E; constructor|].
  assert (joined (lists s1) p = rest) as E1 by (unfold s1; cbn; by rewrite joined_insert, decide_True).
  apply runs_bind, (runs_method _ _ _ x); [exact Hx|]. set (sc := scene_of s1 x).
  assert (keeps ch sc (Leave w ch p false sc)) as Hk.
  { apply keeps_Leave; [exact (linked_listed _ _ _ H1 Hx)|]. right. unfold sc. cbn [m_channels scene_of]. by rewrite E1. }
  pose proof (linked_put s1 ch x _ H1 Hx Hk) as H2. set (s2 := put_scene _ _ s1) in *.
  assert (lists s2 = lists s1) as E2 by (unfold s2; cbn [lists put_scene]; rewrite lists_Leave; by destruct (IsOn _ _)).
  apply runs_bind. assert (runs (match channelMgr w (team w p) with Some mgr => c ← deref ch; LeftChannel w mgr (m_name c) | None => mret tt end) s2
    (fun _ s' => linked s' /\ lists s' = lists s2)) as Hrun.
  { destruct (channelMgr _ _) as [mgr|]; [|by apply runs_ret]. eapply runs_bind, runs_channel; [apply lookup_insert_eq|]. by apply LeftChannel_linked. }
  apply (runs_mono _ _ _ _ Hrun). intros _ s3 [H3 E3]. apply IH; [done|]. rewrite E3, E2, E1. lia.
Qed.

(** *** A new zone *)

Lemma find_used_ok l i s : (forall c, c ∈ l -> is_Some (chans s !! c)) -> runs (find_used l i) s (fun o s' => s' = s /\ forall c, o = Some c -> c ∈ l).
Proof.
  induction l as [|c l IH]; intros Hl; [by apply runs_ret|]. cbn [find_used]. destruct (Hl c ltac:(constructor)) as [ch Hc].
  apply runs_bind, (runs_channel _ _ _ _ Hc). destruct (_ =? i).
  - apply runs_ret. split; [done|]. intros ? [= ->]. constructor.
  - eapply runs_mono; [apply IH; intros c' H; apply Hl; by constructor|]. intros o s' [-> H]. split; [done|]. intros c' E. constructor. by apply H.
Qed.

(** The addresses chosen are those of channels. *)
Definition chosen_ok (s : Server) (x : option (option Z * option Z * bool)) : Prop :=
  forall j r b, x = Some (j, r, b) -> (forall c, j = Some c -> is_Some (chans s !! c)) /\ (forall c, r = Some c -> is_Some (chans s !! c)).

Lemma choose_linked w p mgr zf zn channel used s :
  linked s -> (forall c, used = Some c -> is_Some (chans s !! c)) ->
  runs (choose_channels w p mgr zf zn channel used) s (fun x s' => linked s' /\ chosen_ok s' x).
Proof.
  intros Hs Hu. unfold choose_channels. destruct (CanJoinConstantChannelInZone _ _ _ _).
  2: { apply runs_ret. split; [done|]. intros j r b [= <- <- <-]. split; [done|exact Hu]. }
  destruct (has_flag _ CHANNEL_DBC_FLAG_GLOBAL).
  { apply runs_bind, (runs_mono _ _ _ _ (GetJoinChannel_linked _ _ _ _ _ Hs)). intros c s' (H1 & H2 & _). apply runs_ret. split; [done|].
    intros j r b [= <- <- <-]. split; [by intros ? [= <-]|done]. }
  destruct (_ && _); [by apply runs_ret|]. apply runs_bind, (runs_mono _ _ _ _ (GetJoinChannel_linked _ _ _ _ _ Hs)).
  intros c s' (H1 & H2 & _ & H3). apply runs_ret. split; [done|]. intros j r b E.
  destruct used as [u|]; [|injection E as <- <- <-; split; [by intros ? [= <-]|done]].
  destruct (c =? u); injection E as <- <- <-; (split; [|try done]); try done; [by intros ? [= <-]|]. intros ? [= <-]. by apply H3, Hu.
Qed.

Lemma leave_and_unlist w p c b mgr s :
  linked s -> is_Some (chans s !! c) ->
  runs (method c (Leave w c p b) ;; ch ← deref c; method c (PlayerLeftChannel p c) ;; LeftChannel w mgr (m_name ch)) s (fun _ s' => linked s').
Proof.
  intros Hs [ch Hc]. apply runs_bind, (runs_method _ _ _ _ _ Hc). set (r := Leave w c p b (scene_of s ch)).
  eapply runs_bind, runs_channel; [apply lookup_insert_eq|]. eapply runs_bind, runs_method; [apply lookup_insert_eq|].
  set (r' := PlayerLeftChannel p c r).
  assert (keeps c (scene_of s ch) r') as Hk by (apply keeps_Leave_list; exact (linked_listed _ _ _ Hs Hc)).
  pose proof (linked_put s c ch r' Hs Hc Hk) as H2.
  match goal with |- runs _ ?st _ => replace st with (put_scene c r' s) end.
  - apply (runs_mono _ _ _ _ (LeftChannel_linked _ _ _ _ H2)). by intros _ s' [].
  - unfold put_scene, r', PlayerLeftChannel. cbn. by rewrite insert_insert_eq.
Qed.

Lemma local_linked w p mgr zf zn i s : guid_ok p -> linked s -> runs (local_channel w p mgr zf zn i) s (fun _ s' => linked s').
Proof.
  intros Hp Hs. unfold local_channel. destruct (channel_store w i) as [channel|]; [|by apply runs_ret]. apply runs_bind, runs_get.
  assert (forall c, c ∈ joined (lists s) p -> is_Some (chans s !! c)) as Hl by (intros c Hc; destruct (li_joined _ Hs c p Hc) as (x & Hx & _); eauto).
  eapply runs_bind, runs_mono; [apply find_used_ok, Hl|]. intros used s0 [-> Hu].
  eapply runs_bind, runs_mono; [apply choose_linked; [done|intros c Hc; by apply Hl, Hu]|]. intros x s1 [H1 Hx].
  destruct x as [[[j r] b]|]; [|by apply runs_ret]. destruct (Hx j r b eq_refl) as [Hj Hr].
  eapply runs_bind. apply (runs_mono _ _ (fun _ s' => linked s' /\ forall c, still c s1 s')).
  { destruct j as [c|]; [|apply runs_ret; split; [done|by intros c H]]. apply method_linked; [done|by apply Hj|by apply tame_Join]. }
  intros _ s2 [H2 Hstill]. destruct r as [c|]; [|by apply runs_ret]. apply leave_and_unlist; [done|]. by apply Hstill, Hr.
Qed.

Lemma zones_linked w p mgr zf zn l s : guid_ok p -> linked s -> runs (mapM_ (local_channel w p mgr zf zn) l) s (fun _ s' => linked s').
Proof.
  intros Hp. revert s. induction l as [|i l IH]; intros s Hs; [by apply runs_ret|]. cbn [mapM_].
  apply runs_bind, (runs_mono _ _ _ _ (local_linked w p mgr zf zn i s Hp Hs)). intros _ s' H. by apply IH.
Qed.

(** ** Commands *)

(** Whoever leaves a channel is in the world, and players have GUIDs. *)
Definition present (w : World) (x : chat_cmd) : Prop :=
  match x with CJoin p _ _ _ | CNewZone p _ _ => guid_ok p | CLeave p _ => in_world w p = true | _ => True end.

Lemma perform_linked w x s : present w x -> linked s -> runs (perform w x) s (fun _ s' => linked s').
Proof.
  intros Hx Hs. destruct x as [p i n pw|p n|p n|p n pw|p n o|p n|p n o|p n o|p n o|p n o|p n o|p n o|p n o|p n o|p n|p n|p n m l|p z sk|p]; cbn [perform].
  - unfold HandleJoinChannel. destruct (if i =? 0 then _ else _); [by apply runs_ret|]. destruct (String.eqb n ""); [by apply runs_ret|].
    destruct (channelMgr _ _) as [mgr|]; [|by apply runs_ret]. apply runs_bind, runs_modify.
    eapply runs_bind, runs_mono; [apply GetJoinChannel_linked; by apply (linked_same s)|]. intros c s' (H1 & H2 & _). apply tame_runs; [by apply tame_Join|done|done].
  - unfold HandleLeaveChannel, GetChannel. destruct (String.eqb n ""); [by apply runs_ret|]. destruct (channelMgr _ _) as [mgr|]; [|by apply runs_ret].
    assert (forall s0, linked s0 -> runs (LeftChannel w mgr n) s0 (fun _ s' => linked s')) as Hleft
      by (intros s0 H0; apply (runs_mono _ _ _ _ (LeftChannel_linked _ _ _ _ H0)); by intros _ s' []).
    do 2 apply runs_bind. apply runs_get. destruct (channels s !! (mgr, lower w n)) as [c|] eqn:Ec.
    2: { apply runs_bind, runs_modify, runs_ret, runs_bind, runs_ret, Hleft. by apply (linked_same s). }
    apply runs_ret.
    destruct (li_registered _ Hs _ _ Ec) as [ch Hc]. eapply runs_bind, runs_method; [exact Hc|]. apply Hleft, (linked_put _ _ _ _ Hs Hc), keeps_Leave; [|by left].
    exact (linked_listed _ _ _ Hs Hc).
  - apply with_channel_linked; [done|]. intros c s1 H1 Hc. apply tame_runs; [apply tame_told; intros; apply told_List|done..].
  - apply five_seconds_linked; [done|]. intros s0 H0. apply with_channel_linked; [done|]. intros c s1 H1 Hc. apply tame_runs; [apply tame_Password|done..].
  - apply named_linked; [done|]. intros. apply tame_SetOwnerByName.
  - apply five_seconds_linked; [done|]. intros s0 H0. apply with_channel_linked; [done|]. intros c s1 H1 Hc.
    apply tame_runs; [apply tame_told; intros; apply told_SendWhoOwner|done..].
  - apply named_linked; [done|]. intros. apply tame_SetMode.
  - apply named_linked; [done|]. intros. apply tame_SetMode.
  - apply named_linked; [done|]. intros. apply tame_SetMode.
  - apply named_linked; [done|]. intros. apply tame_SetMode.
  - apply five_seconds_linked; [done|]. intros s0 H0. destruct (normalizePlayerName w o) as [x|]; [|by apply runs_ret].
    destruct (bad_word w n); [by apply runs_ret|]. apply with_channel_linked; [done|]. intros c s1 H1 Hc.
    apply tame_runs; [apply tame_told; intros; apply told_Invite|done..].
  - apply named_linked; [done|]. intros. apply tame_KickOrBan.
  - apply named_linked; [done|]. intros. apply tame_KickOrBan.
  - apply named_linked; [done|]. intros. apply tame_UnBan.
  - apply five_seconds_linked; [done|]. intros s0 H0. apply with_channel_linked; [done|]. intros c s1 H1 Hc. apply tame_runs; [apply tame_Announce|done..].
  - apply with_channel_linked; [done|]. intros c s1 H1 [ch Hc]. eapply runs_bind, runs_channel; [exact Hc|]. repeat plain_step. by apply (linked_same s1).
  - unfold chat_channel. destruct (_ && _); [by apply runs_ret|]. apply with_channel_linked; [done|]. intros c s1 H1 Hc.
    apply tame_runs; [apply tame_told; intros; apply told_Say|done..].
  - unfold UpdateLocalChannels. destruct sk; [by apply runs_ret|]. destruct (area_store w z) as [[zf zn]|]; [|by apply runs_ret].
    destruct (channelMgr _ _) as [mgr|]; [|by apply runs_ret]. by apply zones_linked.
  - unfold CleanupChannels. apply runs_bind, runs_get. eapply runs_mono; [by apply cleanup_linked|]. by intros _ s' [].
Qed.

Lemma history_linked l s : linked s -> Forall (fun wx => present wx.1 wx.2) l -> runs (history l) s (fun _ s' => linked s').
Proof.
  revert s. induction l as [|[w x] l IH]; intros s Hs HF; [by apply runs_ret|]. apply Forall_cons in HF as [Hx HF].
  unfold history. cbn [mapM_ fst snd]. apply runs_bind, (runs_mono _ _ _ _ (perform_linked w x s Hx Hs)). intros _ s1 H1. by apply IH.
Qed.
