(* ===== verification/ChannelOwner.v ===== *)
(** * ChannelOwner: who owns a channel

    A custom channel with members has one owner, a member and moderator: [governed].  The
    methods keep that as long as nobody kicks himself, and what is left without members is
    deleted. *)

From S2P Require Import Prelude.
From S2P Require Import Channel ChannelMgr ChannelSpec ChannelSafety.

(** Every entry is about its player, and only the owner has the flag of the owner. *)
Record lawful (c : Channel) : Prop := {
  la_self : forall p i, players c !! p = Some i -> player i = p /\ p <> 0;
  la_flag : forall p i, players c !! p = Some i -> IsOwner i = true -> p = m_ownerGUID c /\ IsModerator i = true
}.

Record governed (c : Channel) : Prop := {
  gv_lawful : lawful c;
  gv_owner : IsConstant c = false -> m_ownership c = true -> players c <> ∅ -> exists i, players c !! m_ownerGUID c = Some i /\ IsOwner i = true
}.

(** Nobody owns a custom channel without members. *)
Definition vacant_ok (c : Channel) : Prop := IsConstant c = false -> players c = ∅ -> m_ownerGUID c = 0.

Lemma static_constant c c' : static c = static c' -> IsConstant c = IsConstant c' /\ m_ownership c = m_ownership c' /\ m_name c = m_name c'.
Proof. unfold static, IsConstant. by intros [= -> -> -> _ -> _ _]. Qed.

(** ** Operations *)

Lemma crowned_lookup g c q :
  g <> 0 -> players (crowned g c) !! q =
    if decide (q = g) then Some (info_SetOwner true (info_SetModerator true (if decide (g = m_ownerGUID c /\ is_Some (players c !! g)) then info_SetOwner false (at_ g (players c)) else at_ g (players c))))
    else if decide (q = m_ownerGUID c /\ m_ownerGUID c <> 0) then info_SetOwner false <$> players c !! q else players c !! q.
Proof.
  intros Hg. unfold crowned. rewrite (proj2 (Z.eqb_neq _ _) Hg), upd_upd. unfold upd. cbn [players set_players set_ownerGUID].
  destruct (decide (q = g)) as [->|Hne].
  - rewrite lookup_insert_eq. do 3 f_equal. destruct (Z.eqb_spec (m_ownerGUID c) 0) as [E|E].
    + rewrite decide_False by (intros [-> _]; congruence). done.
    + destruct (players c !! m_ownerGUID c) as [i|] eqn:Ei; cbn.
      * unfold at_. destruct (decide (g = m_ownerGUID c)) as [->|Hn].
        -- rewrite lookup_insert_eq, decide_True by eauto. by rewrite Ei.
        -- rewrite lookup_insert_ne by done. rewrite decide_False by tauto. done.
      * rewrite decide_False; [done|]. intros [-> [x Hx]]. congruence.
  - rewrite lookup_insert_ne by done. destruct (Z.eqb_spec (m_ownerGUID c) 0) as [E|E]; [rewrite decide_False by tauto; done|].
    destruct (players c !! m_ownerGUID c) as [i|] eqn:Ei; cbn.
    + destruct (decide (q = m_ownerGUID c)) as [->|Hn]; [by rewrite lookup_insert_eq, decide_True, Ei|].
      rewrite lookup_insert_ne, decide_False by tauto || done. done.
    + destruct (decide (q = m_ownerGUID c /\ m_ownerGUID c <> 0)) as [[-> _]|Hn]; [by rewrite Ei|done].
Qed.

Lemma owner_crowned g c : m_ownerGUID (crowned g c) = g.
Proof. unfold crowned. destruct (m_ownerGUID c =? 0); [|destruct (players c !! _)]; (destruct (Z.eqb_spec g 0); [by subst|done]). Qed.

Lemma crowned_governed g c : lawful c -> IsOn c g = true -> governed (crowned g c).
Proof.
  intros [L1 L2] [i Hi]%IsOn_spec. destruct (L1 _ _ Hi) as [Hp Hg].
  assert (player (at_ g (players c)) = g) as Hat by (unfold at_; by rewrite Hi).
  split; [split|].
  - intros q j. rewrite crowned_lookup by done. destruct (decide (q = g)) as [->|Hne].
    + intros [= <-]. split; [|done]. destruct (decide _); done.
    + destruct (decide _); [|apply L1]. intros (j' & Hj & ->)%fmap_Some. exact (L1 _ _ Hj).
  - intros q j. rewrite crowned_lookup, owner_crowned by done. destruct (decide (q = g)) as [->|Hne].
    + intros [= <-] _. by autorewrite with scene.
    + destruct (decide _) as [_|Hn]; [intros (j' & _ & ->)%fmap_Some; by autorewrite with scene|]. intros Hq Ho. destruct (L2 _ _ Hq Ho) as [-> _].
      destruct (L1 _ _ Hq). tauto.
  - intros _ _ _. rewrite owner_crowned. eexists. rewrite crowned_lookup, decide_True by done. split; [reflexivity|]. by autorewrite with scene.
Qed.

(** A change of the flags of a member. *)
Lemma upd_lawful q f c :
  (forall i, player (f i) = player i) -> (forall i, IsOwner (f i) = IsOwner i) -> IsOn c q = true ->
  (forall i, players c !! q = Some i -> IsOwner i = true -> IsModerator (f i) = true) -> lawful c -> lawful (upd q f c).
Proof.
  intros F1 F2 [i Hi]%IsOn_spec Hm [L1 L2]. assert (at_ q (players c) = i) as Ei by (unfold at_; by rewrite Hi). split; cbn; rewrite Ei.
  - intros p j [[<- <-]|[_ Hp]]%lookup_insert_Some; [rewrite F1; exact (L1 _ _ Hi)|exact (L1 _ _ Hp)].
  - intros p j [[<- <-]|[_ Hp]]%lookup_insert_Some; [|exact (L2 _ _ Hp)]. rewrite F2. intros Ho. destruct (L2 _ _ Hi Ho). split; [done|]. by apply Hm.
Qed.

Lemma upd_governed q f c :
  (forall i, player (f i) = player i) -> (forall i, IsOwner (f i) = IsOwner i) -> IsOn c q = true ->
  (forall i, players c !! q = Some i -> IsOwner i = true -> IsModerator (f i) = true) -> governed c -> governed (upd q f c).
Proof.
  intros F1 F2 Hq Hm [HL HO]. split; [by apply upd_lawful|]. apply IsOn_spec in Hq as [j Hj].
  intros E1 E2 _. destruct (HO E1 E2) as (i & Hi & Ho); [intros E; rewrite E in Hj; by rewrite lookup_empty in Hj|]. cbn.
  destruct (decide (q = m_ownerGUID c)) as [->|Hne]; [|exists i; by rewrite lookup_insert_ne].
  eexists. rewrite lookup_insert_eq. split; [reflexivity|]. rewrite F2. unfold at_. by rewrite Hi.
Qed.

Lemma SetModerator_lawful q c : IsOn c q = true -> lawful c -> lawful (upd q (info_SetModerator true) c).
Proof. intros Hq HL. apply upd_lawful; try done; intros; by autorewrite with scene. Qed.

Lemma without_lawful p c : lawful c -> lawful (set_players (delete p (players c)) c).
Proof. intros [L1 L2]. split; cbn; intros q i [_ Hq]%lookup_delete_Some; [exact (L1 _ _ Hq)|exact (L2 _ _ Hq)]. Qed.

Lemma nonempty_on c p : IsOn c p = true -> players c <> ∅.
Proof. intros [i Hi]%IsOn_spec E. by rewrite E, lookup_empty in Hi. Qed.

Lemma entered_governed p c : p <> 0 -> IsOn c p = false -> governed c -> vacant_ok c -> governed (entered p c) /\ vacant_ok (entered p c).
Proof.
  intros Hp Hon [[L1 L2] HO] Hv.
  assert (players c !! p = None) as Hnone by (apply eq_None_not_Some; rewrite <- IsOn_spec; congruence).
  split; [|intros _ E; destruct (nonempty_on (entered p c) p); [by rewrite IsOn_entered, Z.eqb_refl|done]].
  unfold entered. set (c1 := set_players _ c).
  assert (lawful c1) as HL1.
  { split; cbn.
    - intros q i [[<- <-]|[_ Hq]]%lookup_insert_Some; [done|exact (L1 _ _ Hq)].
    - intros q i [[<- <-]|[_ Hq]]%lookup_insert_Some; [done|exact (L2 _ _ Hq)]. }
  assert (IsOn c1 p = true) as Hon1 by (apply IsOn_spec; cbn; rewrite lookup_insert_eq; eauto).
  destruct (negb (IsConstant c1) && _ && _) eqn:E.
  - apply upd_governed; try (intros; by autorewrite with scene); [by rewrite IsOn_crowned, Hon1, orb_true_r|]. by apply crowned_governed.
  - split; [done|]. intros E1 E2 _. rewrite E1, E2, andb_true_r in E. cbn [negb andb] in E. apply Z.eqb_neq in E.
    change (m_ownerGUID c1) with (m_ownerGUID c) in *.
    destruct (decide (players c = ∅)) as [Hem|Hne]; [by specialize (Hv E1 Hem)|]. destruct (HO E1 E2 Hne) as (i & Hi & Ho).
    exists i. cbn. rewrite lookup_insert_ne; [done|]. intros ->. congruence.
Qed.

Lemma first_on c n : lawful c -> first_player (players c) = Some n -> IsOn c n = true.
Proof.
  intros [L1 _]. unfold first_player. destruct (ordered (players c)) as [|[k i] l] eqn:E; [done|]. intros [= <-].
  assert ((k, i) ∈ ordered (players c)) as Hk by (rewrite E; constructor). apply elem_of_ordered in Hk. destruct (L1 _ _ Hk) as [-> _].
  apply IsOn_spec. eauto.
Qed.

Lemma first_none (m : gmap Z PlayerInfo) : first_player m = None -> m = ∅.
Proof.
  unfold first_player. destruct (ordered m) as [|[k i] l] eqn:E; [|done]. intros _. apply map_empty. intros q.
  destruct (m !! q) as [j|] eqn:Ej; [|done]. apply elem_of_ordered in Ej. rewrite E in Ej. by apply not_elem_of_nil in Ej.
Qed.

Lemma departed_governed p c : governed c -> governed (departed p c).
Proof.
  intros [HL HO]. unfold departed. set (c1 := set_players _ c). pose proof (without_lawful p c HL) as HL1. fold c1 in HL1.
  assert ((IsOwner (at_ p (players c)) && m_ownership c = false \/ IsConstant c = true \/ players c1 = ∅) -> governed c1) as Hstay.
  { intros Hc. split; [done|]. intros E1 E2 E3. change (IsConstant c = false) in E1. change (m_ownership c = true) in E2.
    destruct (HO E1 E2) as (i & Hi & Ho).
    { intros E. apply E3. unfold c1. cbn. rewrite E. by apply delete_id, lookup_empty. }
    exists i. split; [|done]. cbn. apply lookup_delete_Some. split; [|done]. intros ->. destruct Hc as [Hc|[Hc|Hc]]; [|congruence|done].
    unfold at_ in Hc. rewrite Hi in Hc. cbn in Hc. by rewrite Ho, E2 in Hc. }
  destruct (first_player (players c1)) as [n|] eqn:En; [|apply Hstay; right; right; by apply first_none].
  change (IsConstant c1) with (IsConstant c). change (m_ownership c1) with (m_ownership c).
  destruct (IsConstant c) eqn:Ec; cbn [negb andb]; [apply Hstay; tauto|]. destruct (_ && m_ownership c) eqn:Eo; [|apply Hstay; tauto].
  pose proof (first_on _ _ HL1 En) as Hn. apply crowned_governed; [by apply SetModerator_lawful|]. by rewrite IsOn_upd, Z.eqb_refl.
Qed.

Lemma removed_governed good bad ban c :
  good <> bad -> IsOn c good = true -> governed c -> governed (removed good bad ban c) /\ vacant_ok (removed good bad ban c).
Proof.
  intros Hne Hon Hg. split; [|intros _ E; destruct (nonempty_on (removed good bad ban c) good); [by apply IsOn_removed|done]].
  unfold removed. set (c0 := if ban && _ then _ else c).
  assert (governed c0 /\ IsOn c0 good = true /\ m_ownerGUID c0 = m_ownerGUID c) as ([HL HO] & Hon0 & Eo) by (unfold c0; destruct (ban && _); [|done]; destruct Hg as [[L1 L2] HO]; split_and!; [split; [split|]|..]; done).
  clearbody c0. set (c1 := set_players _ c0). pose proof (without_lawful bad c0 HL) as HL1. fold c1 in HL1.
  assert (IsOn c1 good = true) as Hon1 by (unfold c1; by rewrite IsOn_without, Hon0, (proj2 (Z.eqb_neq _ _) Hne)).
  change (m_ownership c1) with (m_ownership c0). rewrite (bool_decide_eq_false_2 (players c1 = ∅)) by by apply (nonempty_on _ good).
  cbn [negb]. rewrite andb_true_r. destruct (_ && _) eqn:E.
  - apply crowned_governed; [by apply SetModerator_lawful|]. by rewrite IsOn_upd, Z.eqb_refl.
  - split; [done|]. intros E1 E2 _. change (m_ownership c0 = true) in E2. rewrite E2, andb_true_r in E. apply Z.eqb_neq in E.
    destruct (HO E1 E2 (nonempty_on _ _ Hon0)) as (i & Hi & Ho). exists i. split; [|done]. cbn. apply lookup_delete_Some. split; [congruence|done].
Qed.

Lemma governed_same c c' :
  players c' = players c -> m_ownerGUID c' = m_ownerGUID c -> static c' = static c -> governed c /\ vacant_ok c -> governed c' /\ vacant_ok c'.
Proof.
  intros E1 E2 (E3 & E4 & _)%static_constant [[[L1 L2] HO] Hv]. unfold vacant_ok. split; [split; [split|]|]; rewrite ?E1, ?E2, ?E3, ?E4; done.
Qed.

(** Who is still there was there before. *)
Lemma IsOn_departed_inv p c q : lawful c -> IsOn (departed p c) q = true -> q <> p /\ IsOn c q = true.
Proof.
  intros HL. unfold departed. set (c1 := set_players _ c). pose proof (without_lawful p c HL) as HL1. fold c1 in HL1.
  assert (IsOn c1 q = true -> q <> p /\ IsOn c q = true) as H.
  { unfold c1. rewrite IsOn_without, andb_true_iff, negb_true_iff, Z.eqb_neq. done. }
  destruct (first_player (players c1)) as [n|] eqn:En; [|exact H]. destruct (_ && _ && _); [|exact H].
  rewrite IsOn_crowned, IsOn_upd. pose proof (first_on _ _ HL1 En) as Hn. destruct (Z.eqb_spec q n) as [->|]; [auto|]. by rewrite andb_false_r.
Qed.

Lemma IsOn_removed_inv good bad ban c q :
  good <> bad -> IsOn c good = true -> IsOn (removed good bad ban c) q = true -> q <> bad /\ IsOn c q = true.
Proof.
  intros Hne Hg. unfold removed. set (c0 := if ban && _ then _ else c).
  assert (forall x, IsOn c0 x = IsOn c x) as H0 by (intros x; unfold c0; by destruct (ban && _)). clearbody c0. set (c1 := set_players _ c0).
  assert (IsOn c1 q = true -> q <> bad /\ IsOn c q = true) as H.
  { unfold c1. rewrite IsOn_without, H0, andb_true_iff, negb_true_iff, Z.eqb_neq. done. }
  destruct (_ && _ && _); [|exact H].
  rewrite IsOn_crowned, IsOn_upd. destruct (Z.eqb_spec q good) as [->|]; [by intros _|]. by rewrite andb_false_r.
Qed.

(** ** Methods *)

(** The owner is there, nobody owns an empty channel, and members have the channel on
    their lists. *)
Definition rightful (c : Channel) : Prop := governed c /\ vacant_ok c.
Definition members (c : Z) (s : Scene) : Prop := forall p, IsOn (this s) p = true -> c ∈ joined (m_channels s) p.

(** A method that keeps that. *)
Definition loyal (c : Z) (f : Scene -> Scene) : Prop := forall s, rightful (this s) -> members c s -> rightful (this (f s)) /\ members c (f s).

Lemma loyal_same_members c f :
  (forall s, rightful (this s) -> rightful (this (f s))) -> (forall s p, IsOn (this (f s)) p = true -> IsOn (this s) p = true) ->
  (forall s, m_channels (f s) = m_channels s) -> loyal c f.
Proof. intros H1 H2 H3 s Hr Hm. split; [auto|]. intros p Hp. rewrite H3. by apply Hm, H2. Qed.

Lemma loyal_told c f : (forall s, told s (f s)) -> loyal c f.
Proof. intros H. apply loyal_same_members; intros s; destruct (told_channel _ _ (H s)) as (E1 & E2 & _); by rewrite ?E1, ?E2. Qed.

(** An operation on a member, who stays one. *)
Lemma member_left_ok q c' : governed c' -> IsOn c' q = true -> governed c' /\ vacant_ok c'.
Proof. intros Hg Hq. split; [done|]. intros _ E. by destruct (nonempty_on _ _ Hq). Qed.

Lemma loyal_Join w c p pass : in_world w p = true -> p <> 0 -> loyal c (Join w c p pass).
Proof.
  intros Hw Hp s [Hg Hv] Hm. unfold members. rewrite this_Join, lists_Join, Hw, andb_true_r.
  destruct (may_join w p pass (this s)) eqn:E; [|done]. split.
  - apply entered_governed; [done| |done|done]. unfold may_join in E. by destruct (IsOn (this s) p).
  - intros q. rewrite IsOn_entered, joined_insert. destruct (Z.eqb_spec q p) as [->|Hne].
    + intros _. rewrite decide_True by done. apply elem_of_app. right. by apply list_elem_of_singleton.
    + rewrite decide_False by done. apply Hm.
Qed.

Lemma loyal_KickOrBan w c good badname ban : find_by_name w (c_str badname) <> Some good -> loyal c (KickOrBan w c good badname ban).
Proof.
  intros Hne s Hs Hm. unfold members. destruct (KickOrBan_effect w c good badname ban s) as [-> ->].
  destruct (kick_target w good badname (this s)) as [bad|] eqn:E; [|done]. destruct (kick_target_on _ _ _ _ _ E) as [Hon _].
  assert (good <> bad) as Hgb.
  { intros ->. unfold kick_target in E. destruct (allowed _ _ _); [|done].
    destruct (find_by_name w _) as [q|]; [|done]. destruct (_ || _); [done|]. congruence. }
  split; [apply removed_governed; [done|done|by destruct Hs]|]. intros p [Hp Hq]%IsOn_removed_inv; [|done|done].
  unfold PlayerLeftChannel. cbn. rewrite joined_insert, decide_False by done. by apply Hm.
Qed.

Lemma loyal_UnBan w c good badname : loyal c (UnBan w good badname).
Proof.
  apply loyal_same_members; intros s; destruct (UnBan_effect w good badname s) as [E1 E2]; rewrite ?E1, ?E2; destruct (unban_target _ _ _ _); try done.
  by apply (governed_same (this s)).
Qed.
Lemma loyal_Password w c p pass : loyal c (Password w p pass).
Proof.
  apply loyal_same_members; intros s; destruct (Password_effect w p pass s) as [E1 E2]; rewrite ?E1, ?E2; destruct (allowed _ _ _); try done.
  by apply (governed_same (this s)).
Qed.
Lemma loyal_Announce w c p : loyal c (Announce w p).
Proof.
  apply loyal_same_members; intros s; destruct (Announce_effect w p s) as [E1 E2]; rewrite ?E1, ?E2; destruct (allowed _ _ _); try done.
  by apply (governed_same (this s)).
Qed.

Lemma mode_target_owner w p n c q : mode_target w p n true c = Some q -> q <> m_ownerGUID c.
Proof.
  unfold mode_target. destruct (_ && _); [|done]. destruct (find_by_name _ _) as [x|]; [|done]. intros H ->. revert H.
  destruct (Z.eqb_spec p (m_ownerGUID c)) as [->|Hne].
  - destruct (_ || _ || _ || _) eqn:E; [done|]. intros [= ->]. by rewrite Z.eqb_refl in E.
  - destruct (_ || _ || _ || _) eqn:E; [done|]. intros [= ->]. rewrite Z.eqb_refl, (proj2 (Z.eqb_neq _ _) (not_eq_sym Hne)) in E. cbn [negb andb] in E.
    by rewrite orb_true_r in E.
Qed.

Lemma moded_plain (tst : PlayerInfo -> bool) put set i {A} (f : PlayerInfo -> A) : (forall b i, f (put b i) = f i) -> f (moded tst put set i) = f i.
Proof. intros H. unfold moded. by destruct (eqb _ _). Qed.

Lemma loyal_SetMode w c p p2n mod_ set : loyal c (SetMode w p p2n mod_ set).
Proof.
  apply loyal_same_members; intros s; destruct (SetMode_effect w p p2n mod_ set s) as [E1 E2]; rewrite ?E1, ?E2; [| |done];
    (destruct (mode_target w p p2n mod_ (this s)) as [q|] eqn:E; [|done]); pose proof (mode_target_on _ _ _ _ _ _ E) as Hon.
  2: { intros x. rewrite IsOn_upd. by destruct (Z.eqb_spec x q) as [->|]. }
  intros [Hg Hv]. apply (member_left_ok q); [|by rewrite IsOn_upd, Z.eqb_refl].
  apply upd_governed; [| |done| |done].
  - intros i. destruct mod_; by apply moded_plain.
  - intros i. destruct mod_; apply moded_plain; intros; by autorewrite with scene.
  - intros i Hi Ho. destruct (la_flag _ (gv_lawful _ Hg) _ _ Hi Ho) as [-> Hm]. destruct mod_; [by apply mode_target_owner in E|].
    rewrite moded_plain; [done|]. intros. by autorewrite with scene.
Qed.

Lemma loyal_SetOwnerByName w c p newname : loyal c (SetOwnerByName w p newname).
Proof.
  apply loyal_same_members; intros s; destruct (SetOwnerByName_effect w p newname s) as [E1 E2]; rewrite ?E1, ?E2; [| |done];
    (destruct (owner_target w p newname (this s)) as [q|] eqn:E; [|done]); pose proof (owner_target_on _ _ _ _ _ E) as Hon.
  2: { intros x. rewrite IsOn_crowned, IsOn_upd. destruct (Z.eqb_spec x q) as [->|]; [done|by rewrite andb_false_r]. }
  intros [Hg Hv]. apply (member_left_ok q).
  - apply crowned_governed; [apply SetModerator_lawful; [done|by destruct Hg]|by rewrite IsOn_upd, Z.eqb_refl].
  - by rewrite IsOn_crowned, IsOn_upd, Z.eqb_refl, orb_true_r.
Qed.
