(* ===== verification/ChannelRule.v ===== *)
(** * ChannelRule: the owners of all the channels

    The manager and the name under which a player looks for a channel joined do not change
    ([settled]); so what somebody leaves empty is found again and deleted, and every command
    keeps every channel with its owner ([ruled]). *)

From S2P Require Import Prelude.
From S2P Require Import Channel ChannelMgr ChannelSpec ChannelSafety ChannelOwner.

Section Rule.
Context (key : string -> string) (home : Z -> option bool).

(** The name a channel is looked for by, and the manager of a player. *)
Record settled (w : World) : Prop := {
  se_key : forall n, lower w n = key n;
  se_home : forall p, channelMgr w (team w p) = home p
}.

(** [x] is the channel that may have been left empty. *)
Record ruled (x : option Z) (s : Server) : Prop := {
  ru_linked : linked s;
  ru_named : forall m k c ch, channels s !! (m, k) = Some c -> chans s !! c = Some ch -> k = key (m_name ch);
  ru_home : forall c p ch, c ∈ joined (lists s) p -> chans s !! c = Some ch ->
    exists m, home p = Some m /\ channels s !! (m, key (m_name ch)) = Some c;
  ru_members : forall c p ch, chans s !! c = Some ch -> IsOn ch p = true -> c ∈ joined (lists s) p;
  ru_governed : forall c ch, chans s !! c = Some ch -> governed ch /\ (x = Some c \/ vacant_ok ch)
}.

Lemma ruled_no_channels t : ruled None (no_channels t).
Proof.
  split; [apply linked_no_channels|..]; cbn.
  - intros m k c ch H. by rewrite lookup_empty in H.
  - intros c p ch _ H. by rewrite lookup_empty in H.
  - intros c p ch H. by rewrite lookup_empty in H.
  - intros c ch H. by rewrite lookup_empty in H.
Qed.

Lemma ruled_same x s s' : same_links s s' -> ruled x s -> ruled x s'.
Proof. intros H [R0 R1 R2 R2' R3]. pose proof (linked_same _ _ H R0). destruct H as (E1 & E2 & E3 & E4). split; rewrite ?E1, ?E3, ?E4; done. Qed.

Lemma ruled_put x s c ch r :
  ruled None s -> chans s !! c = Some ch -> keeps c (scene_of s ch) r ->
  (forall p, c ∈ joined (m_channels r) p -> c ∈ joined (lists s) p \/ exists m, home p = Some m /\ channels s !! (m, key (m_name ch)) = Some c) ->
  members c r -> governed (this r) -> x = Some c \/ vacant_ok (this r) -> ruled x (put_scene c r s).
Proof.
  intros [R0 R1 R2 R2' R3] Hc Hk Hl Hm Hg Hv. pose proof (linked_put _ _ _ _ R0 Hc Hk) as HL.
  assert (m_name (this r) = m_name ch) as En by (destruct Hk as [E _ _ _ _]; by apply static_constant in E as (_ & _ & ->)).
  split; [done|..]; cbn.
  - intros m k c' ch' H [[<- <-]|[_ H']]%lookup_insert_Some; [rewrite En|]; eauto.
  - intros c' p ch' H [[<- <-]|[Hne H']]%lookup_insert_Some; [rewrite En; destruct (Hl p H); eauto|]. apply R2; [|done]. by apply (kp_other _ _ _ Hk).
  - intros c' p ch' [[<- <-]|[Hne H]]%lookup_insert_Some Hon; [by apply Hm|]. apply (kp_other _ _ _ Hk); eauto.
  - intros c' ch' [[<- <-]|[_ H]]%lookup_insert_Some; [done|]. destruct (R3 _ _ H) as [? [?|?]]; auto. done.
Qed.

(** What was left empty is deleted by whoever looks for it. *)
Lemma LeftChannel_ruled x w mgr name s :
  settled w -> ruled x s -> (forall c, x = Some c -> channels s !! (mgr, key name) = Some c) ->
  runs (LeftChannel w mgr name) s (fun _ s' => ruled None s' /\ lists s' = lists s).
Proof.
  intros Hw Hr Hx. pose proof Hr as [R0 R1 R2 R2' R3].
  enough (runs (LeftChannel w mgr name) s (fun _ s' => linked s' -> ruled None s')) as H.
  { apply (runs_mono _ _ _ _ (runs_and _ _ _ _ H (LeftChannel_linked w mgr name s R0))). by intros _ s' [H1 [H2 E]]; auto. }
  unfold LeftChannel. repeat plain_step. rewrite (se_key _ Hw). destruct (channels s !! (mgr, key name)) as [c|] eqn:Ec.
  2: { apply runs_ret. intros _. split; try done. intros c ch H. destruct (R3 _ _ H) as [? [E|?]]; [by specialize (Hx _ E)|auto]. }
  assert (forall c' ch', c' <> c -> chans s !! c' = Some ch' -> governed ch' /\ vacant_ok ch') as Hrest.
  { intros c' ch' Hne H. destruct (R3 _ _ H) as [? [E|?]]; [specialize (Hx _ E); congruence|done]. }
  destruct (li_registered _ R0 _ _ Ec) as [ch Hc]. apply runs_bind, (runs_channel _ _ _ _ Hc).
  destruct ((GetNumPlayers ch =? 0) && negb (IsConstant ch)) eqn:E.
  2: { apply runs_ret. intros _. split; try done. intros c' ch' H. destruct (decide (c' = c)) as [->|Hne]; [|destruct (Hrest _ _ Hne H); auto].
       assert (ch' = ch) as -> by congruence. split; [by apply (R3 _ _ Hc)|]. right. intros Ek Em. unfold GetNumPlayers in E. by rewrite Em, Ek in E. }
  repeat plain_step. intros HL.
  apply andb_prop in E as [E%Z.eqb_eq _]. pose proof (guids_size _ (li_guids _ R0 _ _ Hc)) as Hsz.
  split; [exact HL|..]; cbn.
  - intros m k c' ch' [_ H]%lookup_delete_Some [_ H']%lookup_delete_Some. eauto.
  - intros c' p ch' H [Hne H']%lookup_delete_Some. destruct (R2 _ _ _ H H') as (m & Hm & Hk). exists m. split; [done|]. apply lookup_delete_Some.
    split; [|done]. intros Ek. rewrite <- Ek in Hk. congruence.
  - intros c' p ch' [_ H]%lookup_delete_Some. by apply R2'.
  - intros c' ch' [Hne H]%lookup_delete_Some. destruct (Hrest c' ch'); auto.
Qed.

Lemma GetJoinChannel_ruled w mgr name id s :
  settled w -> ruled None s ->
  runs (GetJoinChannel w mgr name id) s (fun c s' => ruled None s' /\ lists s' = lists s /\
    exists ch, chans s' !! c = Some ch /\ channels s' !! (mgr, key (m_name ch)) = Some c).
Proof.
  intros Hw [R0 R1 R2 R2' R3]. pose proof (GetJoinChannel_linked w mgr name id s R0) as HL.
  enough (runs (GetJoinChannel w mgr name id) s (fun c s' => linked s' -> ruled None s' /\ lists s' = lists s /\
    exists ch, chans s' !! c = Some ch /\ channels s' !! (mgr, key (m_name ch)) = Some c)) as H.
  { apply (runs_mono _ _ _ _ (runs_and _ _ _ _ H HL)). intros c s' [H1 (H2 & _)]. auto. }
  unfold GetJoinChannel. repeat plain_step. rewrite (se_key _ Hw). destruct (channels s !! (mgr, key name)) as [c|] eqn:Ec.
  { apply runs_ret. intros HL'. destruct (li_registered _ R0 _ _ Ec) as [ch Hc]. split_and!; [by split|done|]. exists ch.
    by rewrite <- (R1 _ _ _ _ Ec Hc). }
  destruct (new_Channel _ _ _ _ _) as [ch t] eqn:En. repeat plain_step. intros HL'.
  pose proof (new_Channel_empty w name id (default 0 (mgr_team s !! mgr)) (rows s)) as Hem. rewrite En in Hem. cbn in Hem.
  assert (m_name ch = name /\ m_ownerGUID ch = 0) as [Hn Ho].
  { clear -En. unfold new_Channel in En. destruct (channel_store w id); [by inversion En|]. destruct (String.eqb _ _); [by inversion En|].
    destruct (preserve_channels w); [|by inversion En]. destruct (rows s !! _); by inversion En. }
  assert (forall c, is_Some (chans s !! c) -> c <> next_chan s) as Hfresh by (intros c H; pose proof (li_fresh _ R0 c H); lia).
  split_and!; [|done|exists ch; cbn; by rewrite Hn, !lookup_insert_eq]. split; [exact HL'|..]; cbn.
  - intros m k c' ch' [[Ek <-]|[_ H]]%lookup_insert_Some [[Ec' <-]|[Hne H']]%lookup_insert_Some.
    + rewrite Hn. by injection Ek as _ <-.
    + done.
    + destruct (Hfresh c'); [exact (li_registered _ R0 _ _ H)|done].
    + eauto.
  - intros c' p ch' H [[<- <-]|[_ H']]%lookup_insert_Some.
    + destruct (li_joined _ R0 _ _ H) as (x & Hx & _). destruct (Hfresh (next_chan s)); [by exists x|done].
    + destruct (R2 _ _ _ H H') as (m & Hm & Hk). exists m. split; [done|]. rewrite lookup_insert_ne; [done|]. intros Ek. rewrite <- Ek in Hk. congruence.
  - intros c' p ch' [[<- <-]|[_ H]]%lookup_insert_Some; [|eauto]. rewrite IsOn_spec, Hem, lookup_empty. by intros [].
  - intros c' ch' [[<- <-]|[_ H]]%lookup_insert_Some; [|eauto]. split; [|right; by intros _ _]. split; [split; intros p i; by rewrite Hem, lookup_empty|].
    intros _ _ H. congruence.
Qed.

Lemma method_ruled c ch f s :
  ruled None s -> chans s !! c = Some ch -> tame c f -> loyal c f ->
  (forall p, c ∈ joined (m_channels (f (scene_of s ch))) p ->
     c ∈ joined (lists s) p \/ exists m, home p = Some m /\ channels s !! (m, key (m_name ch)) = Some c) ->
  runs (method c f) s (fun _ s' => ruled None s' /\ lists s' = m_channels (f (scene_of s ch)) /\ channels s' = channels s).
Proof.
  intros Hr Hc Ht Hl Hj. apply (runs_method _ _ _ _ _ Hc). split; [|done].
  pose proof (Hl (scene_of s ch)) as [[Hg Hv] Hm]; [destruct (ru_governed _ _ Hr _ _ Hc) as [? [|]]; done|intros p; by apply (ru_members _ _ Hr)|].
  apply (ruled_put _ _ _ ch); try done; [|by right]. apply Ht. exact (linked_listed _ _ _ (ru_linked _ _ Hr) Hc).
Qed.

(** A method that lists nothing. *)
Lemma plain_ruled c f s :
  ruled None s -> is_Some (chans s !! c) -> tame c f -> loyal c f ->
  (forall sc p, c ∈ joined (m_channels (f sc)) p -> c ∈ joined (m_channels sc) p) -> runs (method c f) s (fun _ s' => ruled None s').
Proof.
  intros Hr [ch Hc] Ht Hl Hj. eapply runs_mono; [apply (method_ruled _ ch); [done|done|done|done|]|by intros _ s' []].
  intros p H. left. exact (Hj (scene_of s ch) p H).
Qed.

Lemma Join_ruled w c ch p mgr pass s :
  guid_ok p -> p <> 0 -> in_world w p = true -> ruled None s -> chans s !! c = Some ch -> home p = Some mgr -> channels s !! (mgr, key (m_name ch)) = Some c ->
  runs (method c (Join w c p pass)) s (fun _ s' => ruled None s' /\ forall q c', c' ∈ joined (lists s) q -> c' ∈ joined (lists s') q).
Proof.
  intros Hp H0 Hin Hr Hc Hm Hk. eapply runs_mono; [apply (method_ruled _ ch); [done|done|by apply tame_Join|by apply loyal_Join|]|].
  - intros q. rewrite lists_Join. cbn [m_channels scene_of]. destruct (_ && _); [|auto]. rewrite joined_insert. destruct (decide (q = p)) as [->|]; eauto.
  - intros _ s' (H1 & E & _). split; [done|]. intros q c' H. rewrite E, lists_Join. cbn [m_channels scene_of]. destruct (_ && _); [|done].
    rewrite joined_insert. destruct (decide (q = p)) as [->|]; [|done]. apply elem_of_app. by left.
Qed.

Lemma Leave_lists w c p b sc q :
  (forall x, x ∈ joined (m_channels (Leave w c p b sc)) q -> x ∈ joined (m_channels sc) q) /\
  (q <> p -> joined (m_channels (Leave w c p b sc)) q = joined (m_channels sc) q).
Proof.
  rewrite lists_Leave. destruct (_ && _); [|done]. unfold PlayerLeftChannel. cbn. rewrite joined_insert.
  destruct (decide (q = p)) as [->|]; [|done]. split; [|done]. by intros x [_ ?]%list_elem_of_filter.
Qed.

(** Leaving may leave the channel empty. *)
Lemma Leave_ruled w c ch p b s r :
  ruled None s -> chans s !! c = Some ch -> this r = this (Leave w c p b (scene_of s ch)) ->
  (forall q, c ∈ joined (m_channels r) q -> c ∈ joined (lists s) q) -> (forall q, q <> p -> joined (m_channels r) q = joined (lists s) q) ->
  keeps c (scene_of s ch) r -> ruled (Some c) (put_scene c r s).
Proof.
  intros Hr Hc Er Hl Hq Hk. apply (ruled_put _ _ _ ch); [done|done|done| | | |by left].
  - intros q H. left. by apply Hl.
  - intros q. rewrite Er, this_Leave. cbn [this scene_of]. intros H. assert (q <> p /\ IsOn ch q = true) as [Hne Hon].
    { destruct (IsOn ch p) eqn:Ep; [|split; [congruence|done]]. apply IsOn_departed_inv; [|done]. apply (ru_governed _ _ Hr _ _ Hc). }
    rewrite (Hq _ Hne). exact (ru_members _ _ Hr _ _ _ Hc Hon).
  - rewrite Er, this_Leave. cbn [this scene_of]. destruct (ru_governed _ _ Hr _ _ Hc) as [Hg _]. destruct (IsOn ch p); [by apply departed_governed|done].
Qed.

(** ** A new zone and logging out *)

Definition chosen_ruled (p : Z) (mgr : bool) (s : Server) (x : option (option Z * option Z * bool)) : Prop :=
  forall j r b, x = Some (j, r, b) ->
    (forall c, j = Some c -> exists ch, chans s !! c = Some ch /\ channels s !! (mgr, key (m_name ch)) = Some c) /\
    (forall c, r = Some c -> c ∈ joined (lists s) p).

Lemma choose_ruled w p mgr zf zn channel used s :
  settled w -> ruled None s -> (forall c, used = Some c -> c ∈ joined (lists s) p) ->
  runs (choose_channels w p mgr zf zn channel used) s (fun x s' => ruled None s' /\ chosen_ruled p mgr s' x).
Proof.
  intros Hw Hs Hu. unfold choose_channels. destruct (CanJoinConstantChannelInZone _ _ _ _).
  2: { apply runs_ret. split; [done|]. intros j r b [= <- <- <-]. split; [done|exact Hu]. }
  destruct (has_flag _ CHANNEL_DBC_FLAG_GLOBAL).
  { apply runs_bind, (runs_mono _ _ _ _ (GetJoinChannel_ruled _ _ _ _ _ Hw Hs)). intros c s' (H1 & _ & H2). apply runs_ret. split; [done|].
    intros j r b [= <- <- <-]. split; [by intros ? [= <-]|done]. }
  destruct (_ && _); [by apply runs_ret|]. apply runs_bind, (runs_mono _ _ _ _ (GetJoinChannel_ruled _ _ _ _ _ Hw Hs)).
  intros c s' (H1 & El & H2). apply runs_ret. split; [done|]. intros j r b E.
  destruct used as [u|]; [|injection E as <- <- <-; split; [by intros ? [= <-]|done]].
  destruct (c =? u); injection E as <- <- <-; (split; [|try done]); try done; [by intros ? [= <-]|]. intros ? [= <-]. rewrite El. by apply Hu.
Qed.

Lemma leave_ruled w p c b mgr s :
  settled w -> ruled None s -> home p = Some mgr -> c ∈ joined (lists s) p ->
  runs (method c (Leave w c p b) ;; ch ← deref c; method c (PlayerLeftChannel p c) ;; LeftChannel w mgr (m_name ch)) s (fun _ s' => ruled None s').
Proof.
  intros Hw Hr Hm Hin. pose proof (ru_linked _ _ Hr) as R0. destruct (li_joined _ R0 _ _ Hin) as (ch & Hc & _).
  destruct (ru_home _ _ Hr _ _ _ Hin Hc) as (m & Em & Hk). assert (m = mgr) as -> by congruence.
  apply runs_bind, (runs_method _ _ _ _ _ Hc). set (r := Leave w c p b (scene_of s ch)).
  eapply runs_bind, runs_channel; [apply lookup_insert_eq|]. eapply runs_bind, runs_method; [apply lookup_insert_eq|].
  set (r' := PlayerLeftChannel p c r).
  assert (keeps c (scene_of s ch) r') as Hkeep by (apply keeps_Leave_list; exact (linked_listed _ _ _ R0 Hc)).
  assert (ruled (Some c) (put_scene c r' s)) as H2.
  { apply (Leave_ruled w c ch p b); [done|done|done| | |done]; intros q; unfold r', PlayerLeftChannel; cbn; rewrite joined_insert.
    - destruct (decide (q = p)) as [->|]; [intros [_ H]%list_elem_of_filter; by apply (Leave_lists w c p b (scene_of s ch))|].
      by apply (Leave_lists w c p b (scene_of s ch)).
    - intros Hne. rewrite decide_False by done. by apply (Leave_lists w c p b (scene_of s ch)). }
  match goal with |- runs _ ?st _ => replace st with (put_scene c r' s) end.
  - eapply runs_mono; [apply (LeftChannel_ruled (Some c)); [done|exact H2|]|by intros _ s' []]. intros c' [= <-]. cbn.
    destruct Hkeep as [E _ _ _ _]. apply static_constant in E as (_ & _ & E). change (m_name (this r)) with (m_name (this r')). by rewrite E.
  - unfold put_scene, r', PlayerLeftChannel. cbn. by rewrite insert_insert_eq.
Qed.

Lemma local_ruled w p mgr zf zn i s :
  settled w -> guid_ok p -> p <> 0 -> in_world w p = true -> home p = Some mgr -> ruled None s -> runs (local_channel w p mgr zf zn i) s (fun _ s' => ruled None s').
Proof.
  intros Hw Hp H0 Hin Hm Hs. unfold local_channel. destruct (channel_store w i) as [channel|]; [|by apply runs_ret]. apply runs_bind, runs_get.
  eapply runs_bind, runs_mono.
  { apply find_used_ok. intros c Hc. destruct (li_joined _ (ru_linked _ _ Hs) c p Hc) as (x & Hx & _). by exists x. }
  intros used s0 [-> Hu]. eapply runs_bind, runs_mono; [by apply (choose_ruled w p mgr)|]. intros x s1 [H1 Hx].
  destruct x as [[[j r] b]|]; [|by apply runs_ret]. destruct (Hx j r b eq_refl) as [Hj Hr].
  eapply runs_bind. apply (runs_mono _ _ (fun _ s' => ruled None s' /\ forall q c, c ∈ joined (lists s1) q -> c ∈ joined (lists s') q)).
  { destruct j as [c|]; [|by apply runs_ret]. destruct (Hj c eq_refl) as (ch & Hc & Hk). by apply (Join_ruled w c ch p mgr). }
  intros _ s2 [H2 Hstill]. destruct r as [c|]; [|by apply runs_ret]. apply leave_ruled; [done..|]. by apply Hstill, Hr.
Qed.

Lemma zones_ruled w p mgr zf zn l s :
  settled w -> guid_ok p -> p <> 0 -> in_world w p = true -> home p = Some mgr -> ruled None s -> runs (mapM_ (local_channel w p mgr zf zn) l) s (fun _ s' => ruled None s').
Proof.
  intros Hw Hp H0 Hin Hm. revert s. induction l as [|i l IH]; intros s Hs; [by apply runs_ret|]. cbn [mapM_].
  apply runs_bind, (runs_mono _ _ _ _ (local_ruled w p mgr zf zn i s Hw Hp H0 Hin Hm Hs)). intros _ s' H. by apply IH.
Qed.

Lemma filter_head (c : Z) l : NoDup (c :: l) -> filter (fun x => x <> c) (c :: l) = l.
Proof.
  intros [Hn _]%NoDup_cons. rewrite filter_cons, decide_False by auto. induction l as [|x l IH]; [done|]. apply not_elem_of_cons in Hn as [H1 H2].
  by rewrite filter_cons, decide_True, IH.
Qed.

Lemma cleanup_ruled w p n s : settled w -> ruled None s -> runs (cleanup_loop w p n) s (fun _ s' => ruled None s').
Proof.
  intros Hw. revert s. induction n as [|n IH]; intros s Hs; cbn [cleanup_loop]; repeat plain_step; (destruct (joined (lists s) p) as [|c rest] eqn:E; [by apply runs_ret|]).
  1: by apply runs_ret.
  apply runs_bind, runs_modify. match goal with |- runs _ ?st _ => set (s1 := st) end. pose proof (ru_linked _ _ Hs) as R0.
  assert (c ∈ joined (lists s) p) as Hin by (rewrite E; constructor). destruct (li_joined _ R0 c p Hin) as (ch & Hc & Hon).
  destruct (ru_home _ _ Hs _ _ _ Hin Hc) as (m & Em & Hk).
  eapply runs_bind, runs_method; [exact Hc|]. set (r := Leave w c p false (scene_of s1 ch)). change (put_scene c r s1) with (put_scene c r s).
  assert (m_channels r = m_channels (PlayerLeftChannel p c (scene_of s ch))) as El.
  { unfold r. rewrite lists_Leave, andb_false_r. unfold PlayerLeftChannel, s1. cbn. rewrite E. f_equal.
    pose proof (li_nodup _ R0 p) as Hnd. rewrite E in Hnd. symmetry. by apply filter_head. }
  assert (this r = if IsOn ch p then departed p ch else ch) as Er by (unfold r; by rewrite this_Leave).
  assert (keeps c (scene_of s ch) r) as Hkeep.
  { apply (keeps_less c (scene_of s ch) r p); [exact (linked_listed _ _ _ R0 Hc)| |done| |]; rewrite Er, Hon.
    - apply static_departed.
    - apply guids_departed.
    - intros q Hq. by apply IsOn_departed. }
  assert (ruled (Some c) (put_scene c r s)) as H2.
  { apply (Leave_ruled w c ch p false); [done|done|by rewrite Er, this_Leave| | |done]; intros q; rewrite El; unfold PlayerLeftChannel; cbn; rewrite joined_insert.
    - destruct (decide (q = p)) as [->|]; [|done]. by intros [_ ?]%list_elem_of_filter.
    - intros Hne. by rewrite decide_False. }
  rewrite (se_home _ Hw), Em. apply runs_bind. eapply runs_bind, runs_channel; [apply lookup_insert_eq|].
  eapply runs_mono; [apply (LeftChannel_ruled (Some c)); [done|exact H2|]|intros _ s' [H _]; by apply IH]. intros c' [= <-]. cbn.
  destruct Hkeep as [En _ _ _ _]. apply static_constant in En as (_ & _ & En). by rewrite En.
Qed.

(** ** Commands *)

Lemma with_channel_ruled w p name f s :
  ruled None s -> (forall c s0, ruled None s0 -> is_Some (chans s0 !! c) -> runs (f c) s0 (fun _ s' => ruled None s')) ->
  runs (with_channel w p name f) s (fun _ s' => ruled None s').
Proof.
  intros Hs Hf. unfold with_channel, GetChannel. destruct (channelMgr _ _) as [mgr|]; [|by apply runs_ret]. repeat plain_step.
  destruct (channels s !! (mgr, lower w name)) as [c|] eqn:Ec; repeat plain_step.
  - apply Hf; [done|]. exact (li_registered _ (ru_linked _ _ Hs) _ _ Ec).
  - by apply (ruled_same _ s).
Qed.

Lemma five_seconds_ruled w p kind k s : ruled None s -> (forall s0, ruled None s0 -> runs k s0 (fun _ s' => ruled None s')) ->
  runs (every_five_seconds w p kind k) s (fun _ s' => ruled None s').
Proof. intros Hs Hk. unfold every_five_seconds. repeat plain_step. destruct (_ <? 5); repeat plain_step; [done|]. apply Hk. by apply (ruled_same _ s). Qed.

(** A method that lists nobody and keeps the owner. *)
Definition quiet_method (c : Z) (f : Scene -> Scene) : Prop :=
  tame c f /\ loyal c f /\ forall sc p, c ∈ joined (m_channels (f sc)) p -> c ∈ joined (m_channels sc) p.

Lemma quiet_runs c f s : quiet_method c f -> ruled None s -> is_Some (chans s !! c) -> runs (method c f) s (fun _ s' => ruled None s').
Proof. intros (H1 & H2 & H3) Hs Hc. by apply plain_ruled. Qed.

Lemma named_ruled w p kind name other f s :
  ruled None s -> (forall c n, normalizePlayerName w other = Some n -> quiet_method c (f c n)) ->
  runs (named w p kind name other f) s (fun _ s' => ruled None s').
Proof.
  intros Hs Hf. apply five_seconds_ruled; [done|]. intros s0 H0. destruct (normalizePlayerName w other) as [n|]; [|by apply runs_ret].
  apply with_channel_ruled; [done|]. intros c s1 H1 Hc. apply quiet_runs; auto.
Qed.

Lemma quiet_told c f : (forall s, told s (f s)) -> quiet_method c f.
Proof.
  intros H. split_and!; [by apply tame_told|by apply loyal_told|]. intros sc p. destruct (told_channel _ _ (H sc)) as (_ & -> & _). done.
Qed.

Lemma quiet_same_lists c f : tame c f -> loyal c f -> (forall sc, m_channels (f sc) = m_channels sc) -> quiet_method c f.
Proof. intros H1 H2 H3. split_and!; [done..|]. intros sc p. by rewrite H3. Qed.

Lemma quiet_KickOrBan w c good badname ban : find_by_name w (c_str badname) <> Some good -> quiet_method c (KickOrBan w c good badname ban).
Proof.
  intros Hne. split_and!; [apply tame_KickOrBan|by apply loyal_KickOrBan|]. intros sc p. destruct (KickOrBan_effect w c good badname ban sc) as [_ ->].
  destruct (kick_target _ _ _ _) as [bad|]; [|done]. unfold PlayerLeftChannel. cbn. rewrite joined_insert.
  destruct (decide (p = bad)) as [->|]; [|done]. by intros [_ ?]%list_elem_of_filter.
Qed.
Lemma quiet_UnBan w c good badname : quiet_method c (UnBan w good badname).
Proof. apply quiet_same_lists; [apply tame_UnBan|apply loyal_UnBan|]. intros sc. apply UnBan_effect. Qed.
Lemma quiet_Password w c p pass : quiet_method c (Password w p pass).
Proof. apply quiet_same_lists; [apply tame_Password|apply loyal_Password|]. intros sc. apply Password_effect. Qed.
Lemma quiet_Announce w c p : quiet_method c (Announce w p).
Proof. apply quiet_same_lists; [apply tame_Announce|apply loyal_Announce|]. intros sc. apply Announce_effect. Qed.
Lemma quiet_SetMode w c p p2n mod_ set : quiet_method c (SetMode w p p2n mod_ set).
Proof. apply quiet_same_lists; [apply tame_SetMode|apply loyal_SetMode|]. intros sc. apply SetMode_effect. Qed.
Lemma quiet_SetOwnerByName w c p newname : quiet_method c (SetOwnerByName w p newname).
Proof. apply quiet_same_lists; [apply tame_SetOwnerByName|apply loyal_SetOwnerByName|]. intros sc. apply SetOwnerByName_effect. Qed.

(** Nobody kicks or bans himself. *)
Definition not_himself (w : World) (p : Z) (other : string) : Prop :=
  forall n, normalizePlayerName w other = Some n -> find_by_name w (c_str n) <> Some p.

Definition orderly (w : World) (x : chat_cmd) : Prop :=
  match x with
  | CJoin p _ _ _ | CNewZone p _ _ => guid_ok p /\ p <> 0 /\ in_world w p = true
  | CLeave p _ => in_world w p = true
  | CKick p _ o | CBan p _ o => not_himself w p o
  | _ => True
  end.

Lemma HandleJoinChannel_ruled w p i n pw s :
  settled w -> guid_ok p -> p <> 0 -> in_world w p = true -> ruled None s -> runs (HandleJoinChannel w p i n pw) s (fun _ s' => ruled None s').
Proof.
  intros Hw Hp H0 Hin Hs. unfold HandleJoinChannel. destruct (if i =? 0 then _ else _); [by apply runs_ret|]. destruct (String.eqb n ""); [by apply runs_ret|].
  destruct (channelMgr _ _) as [mgr|] eqn:Em; [|by apply runs_ret]. rewrite (se_home _ Hw) in Em. apply runs_bind, runs_modify.
  eapply runs_bind, runs_mono; [apply GetJoinChannel_ruled; [done|by apply (ruled_same _ s)]|]. intros c s' (H1 & _ & ch & Hc & Hk).
  eapply runs_mono; [by apply (Join_ruled w c ch p mgr)|]. by intros _ s'' [].
Qed.

Lemma HandleLeaveChannel_ruled w p n s :
  settled w -> in_world w p = true -> ruled None s -> runs (HandleLeaveChannel w p n) s (fun _ s' => ruled None s').
Proof.
  intros Hw Hp Hs. unfold HandleLeaveChannel, GetChannel. destruct (String.eqb n ""); [by apply runs_ret|]. destruct (channelMgr _ _) as [mgr|]; [|by apply runs_ret].
  do 2 apply runs_bind. apply runs_get. rewrite (se_key _ Hw). destruct (channels s !! (mgr, key n)) as [c|] eqn:Ec.
  2: { apply runs_bind, runs_modify, runs_ret, runs_bind, runs_ret. eapply runs_mono; [apply (LeftChannel_ruled None); [done|by apply (ruled_same _ s)|done]|].
       by intros _ s' []. }
  apply runs_ret. pose proof (ru_linked _ _ Hs) as R0. destruct (li_registered _ R0 _ _ Ec) as [ch Hc]. eapply runs_bind, runs_method; [exact Hc|].
  assert (keeps c (scene_of s ch) (Leave w c p true (scene_of s ch))) as Hk by (apply keeps_Leave; [exact (linked_listed _ _ _ R0 Hc)|by left]).
  eapply runs_mono; [apply (LeftChannel_ruled (Some c)); [done| |]|by intros _ s' []].
  - apply (Leave_ruled w c ch p true); [done|done|done| | |done]; intros q; by apply (Leave_lists w c p true (scene_of s ch)).
  - by intros c' [= <-].
Qed.

Lemma perform_ruled w x s : settled w -> orderly w x -> ruled None s -> runs (perform w x) s (fun _ s' => ruled None s').
Proof.
  intros Hw Hx Hs. destruct x as [p i n pw|p n|p n|p n pw|p n o|p n|p n o|p n o|p n o|p n o|p n o|p n o|p n o|p n o|p n|p n|p n m l|p z sk|p]; cbn [perform].
  - destruct Hx as (Hp & H0 & Hin). by apply HandleJoinChannel_ruled.
  - by apply HandleLeaveChannel_ruled.
  - apply with_channel_ruled; [done|]. intros c s1 H1 Hc. apply quiet_runs; [apply quiet_told; intros; apply told_List|done..].
  - apply five_seconds_ruled; [done|]. intros s0 H0. apply with_channel_ruled; [done|]. intros c s1 H1 Hc. apply quiet_runs; [apply quiet_Password|done..].
  - apply named_ruled; [done|]. intros. apply quiet_SetOwnerByName.
  - apply five_seconds_ruled; [done|]. intros s0 H0. apply with_channel_ruled; [done|]. intros c s1 H1 Hc.
    apply quiet_runs; [apply quiet_told; intros; apply told_SendWhoOwner|done..].
  - apply named_ruled; [done|]. intros. apply quiet_SetMode.
  - apply named_ruled; [done|]. intros. apply quiet_SetMode.
  - apply named_ruled; [done|]. intros. apply quiet_SetMode.
  - apply named_ruled; [done|]. intros. apply quiet_SetMode.
  - apply five_seconds_ruled; [done|]. intros s0 H0. destruct (normalizePlayerName w o) as [x|]; [|by apply runs_ret].
    destruct (bad_word w n); [by apply runs_ret|]. apply with_channel_ruled; [done|]. intros c s1 H1 Hc.
    apply quiet_runs; [apply quiet_told; intros; apply told_Invite|done..].
  - apply named_ruled; [done|]. intros c n0 En. by apply quiet_KickOrBan, Hx.
  - apply named_ruled; [done|]. intros c n0 En. by apply quiet_KickOrBan, Hx.
  - apply named_ruled; [done|]. intros. apply quiet_UnBan.
  - apply five_seconds_ruled; [done|]. intros s0 H0. apply with_channel_ruled; [done|]. intros c s1 H1 Hc. apply quiet_runs; [apply quiet_Announce|done..].
  - apply with_channel_ruled; [done|]. intros c s1 H1 [ch Hc]. eapply runs_bind, runs_channel; [exact Hc|]. repeat plain_step. by apply (ruled_same _ s1).
  - unfold chat_channel. destruct (_ && _); [by apply runs_ret|]. apply with_channel_ruled; [done|]. intros c s1 H1 Hc.
    apply quiet_runs; [apply quiet_told; intros; apply told_Say|done..].
  - unfold UpdateLocalChannels. destruct sk; [by apply runs_ret|]. destruct (area_store w z) as [[zf zn]|]; [|by apply runs_ret].
    destruct (channelMgr _ _) as [mgr|] eqn:Em; [|by apply runs_ret]. rewrite (se_home _ Hw) in Em. destruct Hx as (Hp & H0 & Hin). by apply zones_ruled.
  - unfold CleanupChannels. apply runs_bind, runs_get. by apply cleanup_ruled.
Qed.

Lemma history_ruled l s : ruled None s -> Forall (fun wx => settled wx.1 /\ orderly wx.1 wx.2) l -> runs (history l) s (fun _ s' => ruled None s').
Proof.
  revert s. induction l as [|[w x] l IH]; intros s Hs HF; [by apply runs_ret|]. apply Forall_cons in HF as [[Hw Hx] HF].
  unfold history. cbn [mapM_ fst snd]. apply runs_bind, (runs_mono _ _ _ _ (perform_ruled w x s Hw Hx Hs)). intros _ s1 H1. by apply IH.
Qed.

End Rule.
