(* ===== verification/ChannelSettings.v ===== *)
(** * ChannelSettings: what a saved channel leaves in the table

    A saved channel writes its row whenever a setting changes, and the row says what the
    settings are while they fit its columns ([says]); a new channel of that name reads it:
    the list of the banned goes through a string of numbers. *)

From S2P Require Import Prelude.
From S2P Require Import Channel ChannelSpec ChannelSafety.

(** ** The list of the banned as a string *)

Lemma code_digit d : 0 <= d < 10 -> code (Ascii.ascii_of_nat (Z.to_nat (48 + d))) = 48 + d.
Proof. intros H. unfold code. rewrite Ascii.nat_ascii_embedding by lia. lia. Qed.

Lemma is_digit_digit d : 0 <= d < 10 -> is_digit (Ascii.ascii_of_nat (Z.to_nat (48 + d))) = true.
Proof. intros H. unfold is_digit. rewrite code_digit by done. apply andb_true_intro. split; apply Z.leb_le; lia. Qed.

Fixpoint all_digits (s : string) : bool :=
  match s with String.EmptyString => true | String.String c r => is_digit c && all_digits r end.

Lemma decimal_digits n z acc : 0 <= z -> all_digits acc = true -> all_digits (decimal n z acc) = true.
Proof.
  revert z acc. induction n as [|n IH]; intros z acc Hz Ha; cbn [decimal]; [done|]. destruct (Z.ltb_spec z 10).
  - cbn [all_digits]. rewrite is_digit_digit by lia. exact Ha.
  - apply IH; [apply Z.div_pos; lia|]. cbn [all_digits]. rewrite is_digit_digit by (apply Z.mod_pos_bound; lia). exact Ha.
Qed.

Lemma number_digit d r n : 0 <= d < 10 -> number (String.String (Ascii.ascii_of_nat (Z.to_nat (48 + d))) r) n = number r (10 * n + d).
Proof. intros H. cbn [number]. rewrite is_digit_digit, code_digit by done. f_equal. lia. Qed.

Lemma number_decimal n z acc : 0 <= z < 10 ^ Z.of_nat n -> (0 < n)%nat -> number (decimal n z acc) 0 = number acc z.
Proof.
  revert z acc. induction n as [|n IH]; intros z acc Hz Hn; [lia|]. cbn [decimal]. destruct (Z.ltb_spec z 10).
  - rewrite number_digit by lia. done.
  - rewrite Nat2Z.inj_succ, Z.pow_succ_r in Hz by lia.
    assert (0 < z / 10) as Hpos by (apply Z.div_str_pos; lia).
    assert (z / 10 < 10 ^ Z.of_nat n) as Hlt by (apply Z.div_lt_upper_bound; lia).
    rewrite IH; [|lia|destruct n; [cbn in Hlt; lia|lia]].
    rewrite number_digit by (apply Z.mod_pos_bound; lia). f_equal. pose proof (Z.div_mod z 10). lia.
Qed.

Lemma decimal_head n z acc : 0 <= z -> (0 < n)%nat -> exists c r, decimal n z acc = String.String c r /\ (all_digits acc = true -> is_digit c = true).
Proof.
  revert z acc. induction n as [|n IH]; intros z acc Hz Hn; [lia|]. cbn [decimal]. destruct (Z.ltb_spec z 10).
  - eexists _, _. split; [done|]. intros _. apply is_digit_digit. lia.
  - assert (0 <= z mod 10 < 10) as Hm by (apply Z.mod_pos_bound; lia). destruct n as [|n].
    + eexists _, _. split; [done|]. intros _. by apply is_digit_digit.
    + destruct (IH (z / 10) (String.String (Ascii.ascii_of_nat (Z.to_nat (48 + z mod 10))) acc)) as (c & r & E & Hc); [apply Z.div_pos; lia|lia|].
      exists c, r. split; [exact E|]. intros Ha. apply Hc. cbn [all_digits]. by rewrite is_digit_digit.
Qed.

(** A number printed is read back. *)
Lemma atol_decimal z : 0 <= z < 2 ^ 63 -> atol (decimal 20 z "") = z.
Proof.
  intros Hz. destruct (decimal_head 20 z "" ltac:(lia) ltac:(lia)) as (c & r & E & Hc). specialize (Hc eq_refl).
  pose proof (number_decimal 20 z "" ltac:(lia) ltac:(lia)) as Hn. rewrite E in *. unfold is_digit in Hc. apply andb_prop in Hc as [H1%Z.leb_le H2%Z.leb_le].
  unfold atol. cbn [skip_spaces]. assert (is_space c = false) as ->.
  { unfold is_space. apply orb_false_intro; [apply andb_false_intro2, Z.leb_gt; lia|apply Z.eqb_neq; lia]. }
  rewrite (proj2 (Z.eqb_neq (code c) 45)), (proj2 (Z.eqb_neq (code c) 43)), Hn by lia. cbn [number]. lia.
Qed.

Lemma append_cons c s t : String.append (String.String c s) t = String.String c (String.append s t).
Proof. done. Qed.

Lemma append_empty s : String.append s "" = s.
Proof. induction s as [|x s IH]; [done|]. by rewrite append_cons, IH. Qed.

(** A piece without separators. *)
Lemma Tokenizer_piece w r cur : all_digits w = true -> Tokenizer space (String.append w (String.String space r)) cur = String.append cur w :: Tokenizer space r "".
Proof.
  revert cur. induction w as [|c w IH]; intros cur Hw.
  - rewrite append_empty. change (String.append "" (String.String space r)) with (String.String space r). cbn [Tokenizer].
    by change (Ascii.eqb space space) with true.
  - rewrite append_cons. cbn [Tokenizer]. cbn [all_digits] in Hw. apply andb_prop in Hw as [Hc Hw].
    assert (Ascii.eqb c space = false) as -> by (apply Ascii.eqb_neq; by intros ->).
    assert (Ascii.eqb c Ascii.zero = false) as -> by (apply Ascii.eqb_neq; by intros ->).
    rewrite IH by done. f_equal. clear. induction cur as [|x cur IHc]; [done|]. by rewrite !append_cons, IHc.
Qed.

Definition read_banned (s : string) : gset Z := list_to_set (filter (fun g => g <> 0) (map (fun x => u64 (atol x)) (Tokenizer space s ""))).

Lemma banlist_tokens l : Forall (fun g => 0 < g < 2 ^ 63) l ->
  map (fun x => u64 (atol x)) (Tokenizer space (foldr (fun g r => String.append (decimal 20 g "") (String.String space r)) ""%string l) "") = l.
Proof.
  induction l as [|g l IH]; intros Hl; [done|]. apply Forall_cons in Hl as [Hg Hl]. cbn [foldr].
  rewrite Tokenizer_piece by (apply decimal_digits; [lia|done]). cbn [map]. change (String.append "" ?x) with x. f_equal; [|by apply IH].
  rewrite atol_decimal by lia. unfold u64, wrap. apply Z.mod_small. lia.
Qed.

Definition bans_ok (b : gset Z) : Prop := forall g, g ∈ b -> 0 < g < 2 ^ 63.

Lemma read_banlist b : bans_ok b -> read_banned (banlist b) = b.
Proof.
  intros Hb. unfold read_banned, banlist. pose proof (merge_sort_Permutation Z.le (elements b)) as HP. rewrite banlist_tokens.
  - apply set_eq. intros g. rewrite elem_of_list_to_set, list_elem_of_filter, HP, elem_of_elements. split; [tauto|]. intros H. split; [|done].
    specialize (Hb g H). lia.
  - rewrite HP. apply Forall_forall. intros g Hg%elem_of_elements. by apply Hb.
Qed.

(** ** The row of a channel *)

Section Settings.
Context (rk : string -> string).

Definition row_of (s : Scene) : option ChannelRow := table s !! (rk (m_name (this s)), m_Team (this s)).

Record stored (s : Scene) : Prop := {
  st_saved : m_IsSaved (this s) = true;
  st_row : is_Some (row_of s);
  st_bans : bans_ok (banned (this s))
}.

(** What a row says of the settings. *)
Definition row_settings (r : ChannelRow) : bool * bool * string * gset Z :=
  (r_announce r, r_ownership r, default ""%string (r_password r), match r_bannedList r with Some l => read_banned l | None => ∅ end).
Definition settings (c : Channel) : bool * bool * string * gset Z := (m_announce c, m_ownership c, m_password c, banned c).

(** Password and banned fit their columns. *)
Definition fits (c : Channel) : Prop :=
  Z.of_nat (String.length (m_password c)) <= PASSWORD_COLUMN /\ Z.of_nat (String.length (banlist (banned c))) <= TEXT_COLUMN.

(** The row says what the settings are, whenever they fit. *)
Record says (s : Scene) : Prop := { sy_stored : stored s; sy_row : fits (this s) -> row_settings <$> row_of s = Some (settings (this s)) }.

Lemma stored_like s s' : this s' = this s -> table s' = table s -> stored s -> stored s'.
Proof. intros E1 E2 [H1 H2 H3]. unfold row_of in *. split; unfold row_of; by rewrite ?E1, ?E2. Qed.
Lemma says_like s s' : this s' = this s -> table s' = table s -> says s -> says s'.
Proof. intros E1 E2 [H1 H2]. split; [by apply (stored_like s)|]. unfold row_of in *. by rewrite E1, E2. Qed.

Lemma says_told s s' : told s s' -> says s -> says s'.
Proof. intros (E1 & _ & E2)%told_channel. by apply says_like. Qed.

Lemma says_ToOne w d p s : says s -> says (SendToOne w d p s).
Proof. apply says_told, told_SendToOne. Qed.
Lemma says_ToAll w d p s : says s -> says (SendToAll w d p s).
Proof. apply says_told, told_SendToAll. Qed.

Lemma says_left p c s : says s -> says (PlayerLeftChannel p c s).
Proof. by apply says_like. Qed.

Lemma stored_on f s : (forall c, static (f c) = static c) -> (bans_ok (banned (this s)) -> bans_ok (banned (f (this s)))) -> stored s -> stored (on_channel f s).
Proof.
  intros Hs Hb [H1 H2 H3]. specialize (Hs (this s)). unfold static in Hs. injection Hs as _ _ En _ _ Ei Et. unfold row_of in *.
  split; unfold row_of; cbn; [by rewrite Ei|by rewrite En, Et|auto].
Qed.

Lemma says_on f s : (forall c, static (f c) = static c) -> settings (f (this s)) = settings (this s) -> says s -> says (on_channel f s).
Proof.
  intros Hs He [H1 H2]. split.
  - apply stored_on; [done| |done]. unfold settings in He. injection He as _ _ _ ->. done.
  - specialize (Hs (this s)). unfold static in Hs. injection Hs as _ _ En _ _ _ Et. unfold row_of in *. cbn. rewrite En, Et, He.
    unfold settings in He. injection He as _ _ Ep Eb. unfold fits. by rewrite Ep, Eb.
Qed.

Lemma row_of_update w f s : row_key w (m_name (this s)) = rk (m_name (this s)) -> row_of (update_row w f s) = f <$> row_of s.
Proof. intros E. unfold row_of, update_row. cbn. by rewrite E, lookup_alter_eq. Qed.

Section World.
Context (w : World) (Hw : forall n, row_key w n = rk n) (Hfit : forall n x, Z.of_nat (String.length x) <= n -> fit w n x = Some x).

Lemma says_update s : stored s -> says (UpdateChannelInDB w s).
Proof.
  intros Hst. pose proof Hst as [H1 [r Hr] H3]. unfold UpdateChannelInDB. rewrite H1.
  destruct (fit w PASSWORD_COLUMN _) as [pw|] eqn:Ep; [destruct (fit w TEXT_COLUMN _) as [bl|] eqn:Eb|].
  2: { split; [done|]. intros [_ F2]. by rewrite (Hfit _ _ F2) in Eb. }
  2: { split; [done|]. intros [F1 _]. by rewrite (Hfit _ _ F1) in Ep. }
  set (f := fun _ : ChannelRow => _). pose proof (row_of_update w f s (Hw _)) as E. split; [split; [done|by rewrite E, Hr; eexists|done]|].
  intros [F1 F2]. cbn in F1, F2. rewrite (Hfit _ _ F1) in Ep. rewrite (Hfit _ _ F2) in Eb. injection Ep as <-. injection Eb as <-.
  rewrite E, Hr. cbn. unfold settings, row_settings. cbn. by rewrite read_banlist.
Qed.

Lemma says_usage s : says s -> says (UpdateChannelUseageInDB w s).
Proof.
  intros [[H1 [r Hr] H3] H2]. unfold UpdateChannelUseageInDB. set (f := fun _ : ChannelRow => _).
  pose proof (row_of_update w f s (Hw _)) as E. split; [split; [done|by rewrite E, Hr; eexists|done]|]. rewrite E, Hr. rewrite Hr in H2. exact H2.
Qed.

Lemma says_upd p f s : says s -> says (on_channel (upd p f) s).
Proof. by apply says_on. Qed.

Lemma says_SetOwner g e s : says s -> says (SetOwner w g e s).
Proof.
  intros H. unfold SetOwner. set (s1 := if m_ownerGUID (this s) =? 0 then s else _).
  assert (says s1) as H1.
  { unfold s1. destruct (_ =? 0); [done|]. destruct (players _ !! _); [|done]. by apply says_on. }
  clearbody s1. set (s2 := on_channel (set_ownerGUID g) s1). assert (says s2) as H2 by by apply says_on. clearbody s2.
  destruct (g =? 0); [done|]. apply says_update, sy_stored. destruct e; repeat apply says_ToAll; by apply says_upd, says_upd.
Qed.

Lemma says_Join self p pass s : says s -> says (Join w self p pass s).
Proof.
  intros H. unfold Join. destruct (IsOn _ _); [destruct (negb _); [by apply says_ToOne|done]|].
  destruct (IsBanned _ _); [by apply says_ToOne|]. destruct (_ && negb _); [by apply says_ToOne|].
  destruct (_ && in_group w p); [by apply says_ToOne|].
  set (s1 := if in_world w p then _ else s). assert (says s1) as H1 by (unfold s1; destruct (in_world w p); [by apply (says_like s)|done]). clearbody s1.
  set (s2 := if announced _ _ _ then _ else s1).
  assert (says s2) as H2 by (unfold s2; destruct (announced _ _ _); [by apply says_ToAll|done]). clearbody s2.
  set (s3 := JoinNotify w p _). assert (says s3) as H3.
  { unfold s3. eapply says_told; [apply told_JoinNotify|]. apply says_ToOne. by apply says_on. }
  clearbody s3. destruct (IsConstant _); [done|]. set (s4 := if bool_decide _ then _ else _).
  assert (says s4) as H4 by (unfold s4; destruct (bool_decide _); [done|by apply says_usage]). clearbody s4.
  destruct (_ && _); [|done]. by apply says_upd, says_SetOwner.
Qed.

Lemma says_Leave self p b s : says s -> says (Leave w self p b s).
Proof.
  intros H. unfold Leave. destruct (negb _); [destruct b; [by apply says_ToOne|done]|].
  set (s1 := if b then _ else s). assert (says s1) as H1.
  { unfold s1. destruct b; [|done]. assert (says (SendToOne w (MakeYouLeft (this s)) p s)) by by apply says_ToOne.
    destruct (in_world w p); [by apply says_left|done]. }
  clearbody s1. set (s2 := on_channel _ s1). assert (says s2) as H2 by by apply says_on. clearbody s2.
  set (s3 := LeaveNotify w p _). assert (says s3) as H3.
  { unfold s3. eapply says_told; [apply told_LeaveNotify|]. destruct (announced _ _ _); [|done]. by apply says_ToAll. }
  clearbody s3. destruct (IsConstant _); [done|]. assert (says (UpdateChannelUseageInDB w s3)) as H4 by by apply says_usage.
  set (s4 := UpdateChannelUseageInDB w s3) in *. clearbody s4. destruct (first_player _) as [n|]; [|done]. destruct (_ && _); [|done].
  by apply says_SetOwner, says_upd.
Qed.

Lemma says_moderated p k s : (says s -> says (k s)) -> says s -> says (moderated w p k s).
Proof.
  intros Hk H. unfold moderated. destruct (negb _); [by apply says_ToOne|].
  destruct (_ && _); [by apply says_ToOne|auto].
Qed.

(** A setting is changed, the members are told, the row is written. *)
Lemma says_changed f d p s :
  (forall c, static (f c) = static c) -> bans_ok (banned (f (this s))) -> says s -> says (UpdateChannelInDB w (SendToAll w d p (on_channel f s))).
Proof.
  intros Hs Hb H. apply says_update. destruct (told_channel _ _ (told_SendToAll w d p (on_channel f s))) as (E1 & _ & E2).
  apply (stored_like (on_channel f s)); [done|done|]. apply stored_on; [done|done|apply H].
Qed.

Context (Hfind : forall n q, find_by_name w n = Some q -> 0 < q < 2 ^ 63).

Lemma says_KickOrBan self good badname ban s : says s -> says (KickOrBan w self good badname ban s).
Proof.
  intros H. apply says_moderated; [|done]. intros _. cbv beta zeta. destruct (find_by_name w _) as [bad|] eqn:Ef; [|by apply says_ToOne].
  destruct (negb (IsOn _ _)); [by apply says_ToOne|]. destruct (_ && _ && negb _); [by apply says_ToOne|].
  set (nb := ban && _). set (s1 := if nb then _ else s). assert (says s1) as H1.
  { unfold s1. destruct nb; [|done]. apply says_update, stored_on; [done| |apply H]. intros Hb g. cbn. rewrite elem_of_union, elem_of_singleton.
    intros [->|Hg]; [exact (Hfind _ _ Ef)|by apply Hb]. }
  clearbody s1. clearbody nb. set (s2 := if negb _ then _ else s1).
  assert (says s2) as H2 by (unfold s2; destruct (negb _); [by apply says_ToAll|done]). clearbody s2.
  set (s3 := PlayerLeftChannel _ _ _). assert (says s3) as H3.
  { unfold s3. apply (says_like (on_channel (fun c => set_players (delete bad (players c)) c) s2)); [done|done|]. by apply says_on. }
  clearbody s3. destruct (_ && _); [|done]. by apply says_SetOwner, says_upd.
Qed.

Lemma says_UnBan good badname s : says s -> says (UnBan w good badname s).
Proof.
  intros H. apply says_moderated; [|done]. intros _. cbv beta zeta. destruct (find_by_name w _) as [bad|]; [|by apply says_ToOne].
  destruct (negb _); [by apply says_ToOne|]. apply (says_changed (set_banned _)); [done| |done]. intros g. cbn. rewrite elem_of_difference.
  intros [Hg _]. by apply (st_bans _ (sy_stored _ H)).
Qed.

Lemma says_Password p pass s : says s -> says (Password w p pass s).
Proof. intros H. apply says_moderated; [|done]. intros _. apply says_changed; [done|apply H|done]. Qed.

Lemma says_Announce p s : says s -> says (Announce w p s).
Proof.
  intros H. apply says_moderated; [|done]. intros _. cbv beta zeta. destruct (m_announce (this (on_channel _ s))); (apply says_changed; [done|apply H|done]).
Qed.

Lemma says_SetMode p p2n mod_ set s : says s -> says (SetMode w p p2n mod_ set s).
Proof.
  intros H. unfold SetMode. destruct (negb _); [done|]. apply says_moderated; [|done]. intros _. cbv beta zeta.
  destruct (find_by_name w _) as [q|]; [|by apply says_ToOne]. destruct (_ && mod_); [done|]. destruct (negb _); [by apply says_ToOne|].
  destruct (_ && negb (two_side_channel w)); [by apply says_ToOne|]. destruct (_ && _); [by apply says_ToOne|].
  destruct mod_; [unfold SetModerator|unfold SetMute]; (destruct (eqb _ _); [by apply says_upd|by apply says_ToAll, says_upd, says_upd]).
Qed.

Lemma says_SetOwnerByName p newname s : says s -> says (SetOwnerByName w p newname s).
Proof.
  intros H. unfold SetOwnerByName. destruct (negb (in_world w p)); [done|]. destruct (negb _); [by apply says_ToOne|]. destruct (_ && negb _); [by apply says_ToOne|].
  destruct (find_by_name w _) as [q|]; [|by apply says_ToOne]. destruct (negb (IsOn _ q)); [by apply says_ToOne|]. destruct (_ && _); [by apply says_ToOne|].
  by apply says_SetOwner, says_upd.
Qed.

End World.

(** ** Any calls *)

(** The methods that change a channel. *)
Inductive call :=
| MJoin (p : Z) (pass : string)
| MLeave (p : Z) (told_so : bool)
| MKickOrBan (good : Z) (bad : string) (ban : bool)
| MUnBan (good : Z) (bad : string)
| MPassword (p : Z) (pass : string)
| MAnnounce (p : Z)
| MSetMode (p : Z) (other : string) (mod_ set : bool)
| MSetOwner (p : Z) (other : string).

Definition do_call (self : Z) (s : Scene) (wx : World * call) : Scene :=
  let w := wx.1 in
  match wx.2 with
  | MJoin p pass => Join w self p pass s
  | MLeave p b => Leave w self p b s
  | MKickOrBan p o ban => KickOrBan w self p o ban s
  | MUnBan p o => UnBan w p o s
  | MPassword p pass => Password w p pass s
  | MAnnounce p => Announce w p s
  | MSetMode p o m set => SetMode w p o m set s
  | MSetOwner p o => SetOwnerByName w p o s
  end.

(** The table's key of a name is always the same, names are those of players, and a column
    keeps what fits into it. *)
Record same_names (w : World) : Prop := {
  sn_key : forall n, row_key w n = rk n;
  sn_find : forall n q, find_by_name w n = Some q -> 0 < q < 2 ^ 63;
  sn_fit : forall n x, Z.of_nat (String.length x) <= n -> fit w n x = Some x
}.

Lemma says_do_call self wx s : same_names wx.1 -> says s -> says (do_call self s wx).
Proof.
  intros [Hk Hf Hx] H. destruct wx as [w []]; cbn in *; [by apply says_Join|by apply says_Leave|by apply says_KickOrBan|by apply says_UnBan|by apply says_Password
    |by apply says_Announce|by apply says_SetMode|by apply says_SetOwnerByName].
Qed.

Lemma says_calls self l s : Forall (fun wx => same_names wx.1) l -> says s -> says (foldl (do_call self) s l).
Proof. intros Hl. revert s. induction Hl as [|wx l Hx _ IH]; intros s H; [done|]. by apply IH, says_do_call. Qed.

Lemma static_do_call self wx s : static (this (do_call self s wx)) = static (this s).
Proof.
  destruct wx as [w []]; cbn.
  - rewrite this_Join. destruct (may_join _ _ _ _); [apply static_entered|done].
  - rewrite this_Leave. destruct (IsOn _ _); [apply static_departed|done].
  - destruct (KickOrBan_effect w self good bad ban s) as [-> _]. destruct (kick_target _ _ _ _); [apply static_removed|done].
  - destruct (UnBan_effect w good bad s) as [-> _]. by destruct (unban_target _ _ _ _).
  - destruct (Password_effect w p pass s) as [-> _]. by destruct (allowed _ _ _).
  - destruct (Announce_effect w p s) as [-> _]. by destruct (allowed _ _ _).
  - destruct (SetMode_effect w p other mod_ set s) as [-> _]. by destruct (mode_target _ _ _ _ _).
  - destruct (SetOwnerByName_effect w p other s) as [-> _]. destruct (owner_target _ _ _ _); [by rewrite static_crowned|done].
Qed.

Lemma static_calls self l s : static (this (foldl (do_call self) s l)) = static (this s).
Proof. revert s. induction l as [|wx l IH]; intros s; [done|]. cbn. by rewrite IH, static_do_call. Qed.

(** ** A channel of the table *)

Definition custom (w : World) (name : string) (id : Z) : Prop :=
  channel_store w id = None /\ String.eqb (to_lower (c_str name)) "all" = false /\ preserve_channels w = true /\
  Z.of_nat (String.length name) <= NAME_COLUMN.

Lemma row_bans_ok r : (match r_bannedList r with Some l => bans_ok (read_banned l) | None => True end) -> bans_ok (row_settings r).2.
Proof. unfold row_settings. cbn. by destruct (r_bannedList r). Qed.

(** The rows of the table list players. *)
Definition rows_ok (t : gmap (string * Z) ChannelRow) : Prop := forall k r, t !! k = Some r -> bans_ok (row_settings r).2.

Lemma new_Channel_says w name id Team t L out :
  same_names w -> custom w name id -> rows_ok t ->
  let '(ch, t') := new_Channel w name id Team t in says (mkScene ch L t' out).
Proof.
  intros [Hk _ Hx] (E1 & E2 & E3 & E4) Ht. unfold new_Channel. rewrite E1, E2, E3, Hk, (Hx _ _ E4), Hk. destruct (t !! (rk name, Team)) as [r|] eqn:Er.
  - pose proof (Ht _ _ Er) as Hb. unfold row_settings in Hb. cbn [snd] in Hb. split.
    + split; [done|unfold row_of; cbn; eauto|]. cbn. unfold read_banned in Hb. by destruct (r_bannedList r).
    + intros _. unfold row_of. cbn. rewrite Er. cbn. unfold settings, row_settings, read_banned. cbn. by destruct (r_bannedList r).
  - split.
    + split; [done|unfold row_of; cbn; rewrite lookup_insert_eq; eauto|]. cbn. by intros g Hg%elem_of_empty.
    + intros _. unfold row_of. cbn. by rewrite lookup_insert_eq.
Qed.

(** A new channel on the table is as the row says. *)
Lemma new_Channel_reads w s id :
  same_names w -> custom w (m_name (this s)) id -> says s -> fits (this s) -> settings (new_Channel w (m_name (this s)) id (m_Team (this s)) (table s)).1 = settings (this s).
Proof.
  intros [Hk _ _] (E1 & E2 & E3 & _) [[_ [r Hr] _] H] Hf. specialize (H Hf). unfold new_Channel. rewrite E1, E2, E3, Hk. unfold row_of in *. rewrite Hr in *. cbn in H |- *.
  apply (inj Some) in H. rewrite <- H. unfold settings, row_settings, read_banned. cbn. by destruct (r_bannedList r).
Qed.

End Settings.
