(* ===== verification/ChannelAuthority.v ===== *)
(** * ChannelAuthority: who may change what

    Without being a moderator of a channel or a game master on it, nobody changes its
    settings or puts anybody else out of it ([may]). *)

From S2P Require Import Prelude.
From S2P Require Import Channel ChannelMgr ChannelSpec ChannelSafety ChannelSettings.

(** What [p] may do to a channel anyway. *)
Definition kept_by (p : Z) (ch ch' : Channel) : Prop :=
  settings ch' = settings ch /\ forall q, q <> p -> IsOn ch q = true -> IsOn ch' q = true.

Definition left_by (p : Z) (ch : Channel) (o : option Channel) : Prop :=
  match o with Some ch' => kept_by p ch ch' | None => forall q, IsOn ch q = true -> q = p end.

(** From [s] to [s'], where [ok] are the channels on which [p] has the say. *)
Record may (ok : Channel -> bool) (p : Z) (s s' : Server) : Prop := {
  my_next : next_chan s <= next_chan s';
  my_none : forall c, c < next_chan s -> chans s !! c = None -> chans s' !! c = None;
  my_kept : forall c ch, chans s !! c = Some ch -> ok ch = true \/ left_by p ch (chans s' !! c)
}.

(** Addresses are new when given out, and members have GUIDs. *)
Definition fresh (s : Server) : Prop := forall c ch, chans s !! c = Some ch -> c < next_chan s /\ guids_ok ch.
Definition harmless (p : Z) (s s' : Server) : Prop := fresh s -> fresh s' /\ may (fun _ => false) p s s'.

(** ** Channels *)

Lemma kept_refl p ch : kept_by p ch ch.
Proof. by split. Qed.

Lemma settings_crowned g c : settings (crowned g c) = settings c.
Proof. unfold crowned. destruct (m_ownerGUID c =? 0); [|destruct (players c !! _)]; by destruct (g =? 0). Qed.

Lemma kept_entered p q c : kept_by q c (entered p c).
Proof.
  split; [|intros x _ Hx; by rewrite IsOn_entered, Hx, orb_true_r]. unfold entered. destruct (_ && _ && _); [|done].
  change (settings (upd p _ ?c)) with (settings c). by rewrite settings_crowned.
Qed.

Lemma kept_departed p c : kept_by p c (departed p c).
Proof.
  split; [|intros x; apply IsOn_departed]. unfold departed. destruct (first_player _) as [n|]; [|done]. destruct (_ && _ && _); [|done].
  by rewrite settings_crowned.
Qed.

Lemma kept_crowned p g c : kept_by p c (crowned g (upd g (info_SetModerator true) c)).
Proof. split; [by rewrite settings_crowned|]. intros x _ Hx. by rewrite IsOn_crowned, IsOn_upd, Hx, !orb_true_r. Qed.

(** ** States *)

Lemma may_same ok p s s' : chans s' = chans s -> next_chan s' = next_chan s -> may ok p s s'.
Proof.
  intros E1 E2. split; [lia|intros c _ H; by rewrite E1|]. intros c ch H. right. rewrite E1, H. apply kept_refl.
Qed.

#[export] Instance harmless_refl p : Reflexive (harmless p).
Proof. intros s H. split; [done|by apply may_same]. Qed.

#[export] Instance harmless_trans p : Transitive (harmless p).
Proof.
  intros s1 s2 s3 H12 H23 F1. destruct (H12 F1) as [F2 [N1 M1 K1]]. destruct (H23 F2) as [F3 [N2 M2 K2]]. split; [done|]. split; [lia| |].
  - intros c Hc H. apply M2; [lia|]. by apply M1.
  - intros c ch H. right. destruct (K1 _ _ H) as [|HK1]; [done|]. destruct (chans s2 !! c) as [ch2|] eqn:E2; cbn in HK1.
    + destruct (K2 _ _ E2) as [|HK2]; [done|]. destruct HK1 as [S1 O1]. destruct (chans s3 !! c) as [ch3|]; cbn in *.
      * destruct HK2 as [S2 O2]. split; [congruence|auto].
      * intros q Hq. destruct (decide (q = p)) as [|Hne]; [done|]. apply HK2. by apply O1.
    + rewrite M2; [done| |done]. destruct (F1 _ _ H). lia.
Qed.

Lemma harmless_same p s s' : chans s' = chans s -> next_chan s' = next_chan s -> harmless p s s'.
Proof. intros E1 E2 F. split; [|by apply may_same]. intros c ch. rewrite E1, E2. apply F. Qed.

(** A call of a method. *)
Lemma method_may ok p c f s :
  (forall sc, ok (this sc) = true \/ kept_by p (this sc) (this (f sc))) -> may ok p s (method c f s).2.
Proof.
  intros Hf. unfold method, deref, mbind, M_bind, get, modify, throw. cbn. destruct (chans s !! c) as [ch|] eqn:Ec; cbn; [|by apply may_same].
  split; cbn; [lia| |].
  - intros x _ Hx. rewrite lookup_insert_ne; [done|]. intros ->. congruence.
  - intros x cx Hx. destruct (decide (x = c)) as [->|Hne].
    + rewrite lookup_insert_eq. assert (cx = ch) as -> by congruence. exact (Hf (mkScene ch (lists s) (rows s) (outbox s))).
    + right. rewrite lookup_insert_ne by done. rewrite Hx. apply kept_refl.
Qed.

Lemma method_fresh c f s : (forall sc, guids_ok (this sc) -> guids_ok (this (f sc))) -> fresh s -> fresh (method c f s).2.
Proof.
  intros Hg F. unfold method, deref, mbind, M_bind, get, modify, throw. cbn. destruct (chans s !! c) as [ch|] eqn:Ec; cbn; [|done].
  intros x cx. cbn. intros [[<- <-]|[_ Hx]]%lookup_insert_Some; [|exact (F _ _ Hx)]. destruct (F _ _ Ec). split; [done|]. by apply Hg.
Qed.

Lemma method_harmless p c f :
  (forall sc, kept_by p (this sc) (this (f sc))) -> (forall sc, guids_ok (this sc) -> guids_ok (this (f sc))) -> preserves (harmless p) (method c f).
Proof. intros Hf Hg s F. split; [by apply method_fresh|]. apply method_may. auto. Qed.

Lemma deref_harmless p c : preserves (harmless p) (deref c).
Proof. intros s. unfold deref, mbind, M_bind, get, throw. cbn. by destruct (chans s !! c). Qed.

Lemma Join_harmless w c p pass : guid_ok p -> preserves (harmless p) (method c (Join w c p pass)).
Proof.
  intros Hp. apply method_harmless; intros sc; rewrite this_Join; destruct (may_join _ _ _ _); [apply kept_entered|apply kept_refl|by apply guids_entered|done].
Qed.
Lemma Leave_harmless w c p b : preserves (harmless p) (method c (Leave w c p b)).
Proof.
  apply method_harmless; intros sc; rewrite this_Leave; destruct (IsOn _ _); [apply kept_departed|apply kept_refl|apply guids_departed|done].
Qed.
Lemma PlayerLeft_harmless c p : preserves (harmless p) (method c (PlayerLeftChannel p c)).
Proof. apply method_harmless; intros sc; [apply kept_refl|done]. Qed.

Lemma GetJoinChannel_harmless w p mgr name id : preserves (harmless p) (GetJoinChannel w mgr name id).
Proof.
  intros s. unfold GetJoinChannel, mbind, M_bind, get, modify. cbn. destruct (channels s !! _); [done|].
  pose proof (new_Channel_empty w name id (default 0 (mgr_team s !! mgr)) (rows s)) as Hem.
  destruct (new_Channel _ _ _ _ _) as [ch t]. cbn in *. intros F. split; [|split]; cbn.
  - intros c cx. cbn. intros [[<- <-]|[_ H]]%lookup_insert_Some; [|destruct (F _ _ H); split; [lia|done]]. split; [lia|]. intros q i.
    by rewrite Hem, lookup_empty.
  - lia.
  - intros c Hc H. rewrite lookup_insert_ne; [done|lia].
  - intros c cx H. right. rewrite lookup_insert_ne; [rewrite H; apply kept_refl|]. destruct (F _ _ H). lia.
Qed.

Lemma GetChannel_harmless w q mgr name p : preserves (harmless q) (GetChannel w mgr name p).
Proof. intros s. unfold GetChannel, mbind, M_bind, get, modify. cbn. destruct (channels s !! _); [done|]. by apply harmless_same. Qed.

(** A deleted channel was empty: the sizes are 32 bits, so this needs the GUIDs. *)
Lemma LeftChannel_harmless w p mgr name : preserves (harmless p) (LeftChannel w mgr name).
Proof.
  intros s. unfold LeftChannel, deref, mbind, M_bind, get, modify, throw. cbn. destruct (channels s !! _) as [c|]; [|done]. cbn.
  destruct (chans s !! c) as [ch|] eqn:Ec; [|done]. cbn. destruct (_ && _) eqn:E; [|done]. cbn.
  apply andb_prop in E as [E%Z.eqb_eq _]. intros F. destruct (F _ _ Ec) as [_ Hg]. pose proof (guids_size _ Hg) as Hsz.
  assert (players ch = ∅) as Hem by (apply map_size_empty_inv; unfold GetNumPlayers, u32, wrap in E; rewrite Z.mod_small in E; lia).
  split; [|split]; cbn.
  - intros x cx. cbn. intros [_ Hx]%lookup_delete_Some. exact (F _ _ Hx).
  - lia.
  - intros x _ Hx. apply lookup_delete_None. by right.
  - intros x cx Hx. right. destruct (decide (x = c)) as [->|Hne].
    + rewrite lookup_delete_eq. assert (cx = ch) as -> by congruence. cbn. intros q. rewrite IsOn_spec, Hem, lookup_empty. by intros [].
    + rewrite lookup_delete_ne by done. rewrite Hx. apply kept_refl.
Qed.

(** ** Commands *)

Lemma local_harmless w p mgr zf zn i : guid_ok p -> preserves (harmless p) (local_channel w p mgr zf zn i).
Proof.
  intros Hp. pose proof (GetJoinChannel_harmless w p mgr) as HG. pose proof (fun c => Join_harmless w c p "" Hp) as HJ.
  pose proof (fun c => Leave_harmless w c p) as HL. pose proof (fun c => PlayerLeft_harmless c p) as HP. pose proof (LeftChannel_harmless w p mgr) as HC.
  pose proof (deref_harmless p) as HD. unfold local_channel. destruct (channel_store w i) as [e|]; [|auto with preserves typeclass_instances].
  apply preserves_bind; [apply _|apply preserves_get, _|]. intros s. apply preserves_bind; [apply _| |].
  { induction (joined (lists s) p) as [|c l IH]; cbn [find_used]; [apply preserves_ret, _|]. apply preserves_bind; [apply _|done|]. intros ch.
    destruct (_ =? i); [apply preserves_ret, _|done]. }
  intros used. apply preserves_bind; [apply _| |].
  { unfold choose_channels. destruct (CanJoinConstantChannelInZone _ _ _ _); [|apply preserves_ret, _].
    destruct (has_flag _ _); [|destruct (_ && _); [apply preserves_ret, _|]]; (apply preserves_bind; [apply _|done|]; intros c; apply preserves_ret, _). }
  intros [[[j r] b]|]; [|apply preserves_ret, _]. apply preserves_bind; [apply _|destruct j; [done|apply preserves_ret, _]|]. intros _.
  destruct r as [c|]; [|apply preserves_ret, _]. do 3 (apply preserves_bind; [apply _|done|intros ?]). done.
Qed.

Lemma mapM_harmless {A} p (f : A -> T unit) l : (forall x, preserves (harmless p) (f x)) -> preserves (harmless p) (mapM_ f l).
Proof.
  intros Hf. induction l as [|x l IH]; [apply preserves_ret, _|]. cbn [mapM_]. apply preserves_bind; [apply _|done|]. by intros _.
Qed.

Lemma cleanup_harmless w p n : preserves (harmless p) (cleanup_loop w p n).
Proof.
  induction n as [|n IH]; cbn [cleanup_loop]; (apply preserves_bind; [apply _|apply preserves_get, _|]; intros s);
    (destruct (joined (lists s) p) as [|c l]; [apply preserves_ret, _|]); [apply preserves_ret, _|].
  apply preserves_bind; [apply _|apply preserves_modify; intros s'; by apply harmless_same|]. intros _.
  apply preserves_bind; [apply _|apply Leave_harmless|]. intros _. apply preserves_bind; [apply _| |by intros _].
  destruct (channelMgr _ _) as [mgr|]; [|apply preserves_ret, _]. apply preserves_bind; [apply _|apply deref_harmless|]. intros ch. apply LeftChannel_harmless.
Qed.

(** Who gives a command. *)
Definition sender (x : chat_cmd) : Z :=
  match x with
  | CJoin p _ _ _ | CLeave p _ | CList p _ | CPassword p _ _ | CSetOwner p _ _ | COwner p _ | CModerator p _ _ | CUnmoderator p _ _ | CMute p _ _
  | CUnmute p _ _ | CInvite p _ _ | CKick p _ _ | CBan p _ _ | CUnban p _ _ | CAnnounce p _ | CMemberCount p _ | CSay p _ _ _ | CNewZone p _ _
  | CLogout p => p
  end.

Lemma may_like ok p s s0 s' : chans s0 = chans s -> next_chan s0 = next_chan s -> may ok p s0 s' -> may ok p s s'.
Proof. intros E1 E2 [H1 H2 H3]. split; rewrite <- ?E1, <- ?E2; done. Qed.

Lemma harmless_may ok p s s' : fresh s -> harmless p s s' -> may ok p s s'.
Proof. intros F H. destruct (H F) as [_ [H1 H2 H3]]. split; [done|done|]. intros c ch Hc. destruct (H3 _ _ Hc); [done|by right]. Qed.

Lemma five_seconds_may ok w p kind k s : (forall s0, may ok p s0 (k s0).2) -> may ok p s (every_five_seconds w p kind k s).2.
Proof.
  intros Hk. unfold every_five_seconds, mbind, M_bind, get, modify. cbn. destruct (_ <? 5); [by apply may_same|].
  cbn. eapply may_like; [| |apply Hk]; done.
Qed.

Lemma with_channel_may ok w p name g s : (forall c s0, may ok p s0 (g c s0).2) -> may ok p s (with_channel w p name g s).2.
Proof.
  intros Hg. unfold with_channel, GetChannel, mbind, M_bind, get, modify. cbn. destruct (channelMgr _ _) as [mgr|]; [|by apply may_same].
  destruct (channels s !! _) as [c|]; [apply Hg|by apply may_same].
Qed.

Lemma named_may ok w p kind name other f s :
  (forall c n sc, ok (this sc) = true \/ kept_by p (this sc) (this (f c n sc))) -> may ok p s (named w p kind name other f s).2.
Proof.
  intros Hf. apply five_seconds_may. intros s0. destruct (normalizePlayerName w other) as [n|]; [|by apply may_same].
  apply with_channel_may. intros c s1. apply method_may. auto.
Qed.

(** What only tells the members something. *)
Lemma told_may ok w p name f s : (forall sc, told sc (f sc)) -> may ok p s (with_channel w p name (fun c => method c f) s).2.
Proof.
  intros Hf. apply with_channel_may. intros c s0. apply method_may. intros sc. right. destruct (told_channel _ _ (Hf sc)) as (-> & _). apply kept_refl.
Qed.

Section Moderators.
Context (w : World) (p : Z) (sc : Scene).

Lemma KickOrBan_may c n ban : allowed w p (this sc) = true \/ kept_by p (this sc) (this (KickOrBan w c p n ban sc)).
Proof.
  destruct (KickOrBan_effect w c p n ban sc) as [-> _]. unfold kick_target. destruct (allowed _ _ _); [by left|right; apply kept_refl].
Qed.
Lemma UnBan_may n : allowed w p (this sc) = true \/ kept_by p (this sc) (this (UnBan w p n sc)).
Proof. destruct (UnBan_effect w p n sc) as [-> _]. unfold unban_target. destruct (allowed _ _ _); [by left|right; apply kept_refl]. Qed.
Lemma Password_may pass : allowed w p (this sc) = true \/ kept_by p (this sc) (this (Password w p pass sc)).
Proof. destruct (Password_effect w p pass sc) as [-> _]. destruct (allowed _ _ _); [by left|right; apply kept_refl]. Qed.
Lemma Announce_may : allowed w p (this sc) = true \/ kept_by p (this sc) (this (Announce w p sc)).
Proof. destruct (Announce_effect w p sc) as [-> _]. destruct (allowed _ _ _); [by left|right; apply kept_refl]. Qed.
Lemma SetMode_may n m set : allowed w p (this sc) = true \/ kept_by p (this sc) (this (SetMode w p n m set sc)).
Proof.
  destruct (SetMode_effect w p n m set sc) as [-> _]. unfold mode_target. destruct (in_world w p); [|right; apply kept_refl].
  destruct (allowed _ _ _); [by left|right; apply kept_refl].
Qed.
Lemma SetOwnerByName_may n : allowed w p (this sc) = true \/ kept_by p (this sc) (this (SetOwnerByName w p n sc)).
Proof.
  right. destruct (SetOwnerByName_effect w p n sc) as [-> _]. destruct (owner_target _ _ _ _); [apply kept_crowned|apply kept_refl].
Qed.
End Moderators.

Lemma perform_may w x s :
  match x with CJoin p _ _ _ | CNewZone p _ _ => guid_ok p | _ => True end -> fresh s ->
  may (allowed w (sender x)) (sender x) s (perform w x s).2.
Proof.
  intros Hx F.
  destruct x as [p i n pw|p n|p n|p n pw|p n o|p n|p n o|p n o|p n o|p n o|p n o|p n o|p n o|p n o|p n|p n|p n m l|p z sk|p]; cbn [perform sender] in *.
  - apply harmless_may; [done|]. unfold HandleJoinChannel. destruct (if i =? 0 then _ else _); [done|]. destruct (String.eqb n ""); [done|].
    destruct (channelMgr _ _) as [mgr|]; [|done]. apply preserves_bind; [apply _|apply preserves_modify; intros; by apply harmless_same|].
    intros _. apply preserves_bind; [apply _|apply GetJoinChannel_harmless|]. intros c. by apply Join_harmless.
  - apply harmless_may; [done|]. unfold HandleLeaveChannel. destruct (String.eqb n ""); [done|]. destruct (channelMgr _ _) as [mgr|]; [|done].
    apply preserves_bind; [apply _|apply GetChannel_harmless|]. intros o. apply preserves_bind; [apply _| |intros _; apply LeftChannel_harmless].
    destruct o; [apply Leave_harmless|apply preserves_ret, _].
  - apply told_may. intros. apply told_List.
  - apply five_seconds_may. intros s0. apply with_channel_may. intros c s1. apply method_may. intros. apply Password_may.
  - apply named_may. intros. apply SetOwnerByName_may.
  - apply five_seconds_may. intros s0. apply told_may. intros. apply told_SendWhoOwner.
  - apply named_may. intros. apply SetMode_may.
  - apply named_may. intros. apply SetMode_may.
  - apply named_may. intros. apply SetMode_may.
  - apply named_may. intros. apply SetMode_may.
  - apply five_seconds_may. intros s0. destruct (normalizePlayerName w o) as [x|]; [|by apply may_same]. destruct (bad_word w n); [by apply may_same|].
    apply told_may. intros. apply told_Invite.
  - apply named_may. intros. apply KickOrBan_may.
  - apply named_may. intros. apply KickOrBan_may.
  - apply named_may. intros. apply UnBan_may.
  - apply five_seconds_may. intros s0. apply with_channel_may. intros c s1. apply method_may. intros. apply Announce_may.
  - apply with_channel_may. intros c s1. unfold deref, mbind, M_bind, get, modify, throw. cbn. destruct (chans s1 !! c); by apply may_same.
  - unfold chat_channel. destruct (_ && _); [by apply may_same|]. apply told_may. intros. apply told_Say.
  - apply harmless_may; [done|]. unfold UpdateLocalChannels. destruct sk; [done|]. destruct (area_store w z) as [[zf zn]|]; [|done].
    destruct (channelMgr _ _) as [mgr|]; [|done]. apply mapM_harmless. intros i. by apply local_harmless.
  - apply harmless_may; [done|]. unfold CleanupChannels. apply preserves_bind; [apply _|apply preserves_get, _|]. intros s0. apply cleanup_harmless.
Qed.

Lemma linked_fresh s : linked s -> fresh s.
Proof. intros [H1 H2 H3 H4 H5 H6] c ch Hc. split; [apply H3; eauto|by apply (H6 c)]. Qed.
