(* ===== verification/ChannelProps.v ===== *)
(** * ChannelProps: the properties of the chat channels *)

From S2P Require Import Prelude.
From S2P Require Import Channel ChannelMgr ChannelSpec ChannelSafety ChannelOwner ChannelRule ChannelSettings ChannelAuthority.

(** ** A small realm

    Three players of the alliance, who are always in the world; player 3 is a game master. *)

Definition realm_find (n : string) : option Z :=
  if String.eqb n "Ann" then Some 1 else if String.eqb n "Bob" then Some 2 else if String.eqb n "Eve" then Some 3 else None.

Definition realm (t : Z) : World :=
  mkWorld t (fun _ => true) (fun p => if p =? 3 then 6 else 0) (fun _ => ALLIANCE) (fun _ => 10) realm_find (fun _ => None) (fun _ => "somebody"%string)
    (fun _ _ => false) (fun _ => false) (fun _ => false) (fun _ => true) (fun _ _ => true) (fun _ => 0) (fun _ => 12)
    false false false true 0 3 1 (fun _ => None) 0 (fun _ => None) "City"%string to_lower (fun n => Some n) (fun _ => false) (fun n => n)
    (fun n x => if Z.of_nat (String.length x) <=? n then Some x else None).

Definition realm_home (p : Z) : option bool := Some false.

Lemma realm_settled t : settled to_lower realm_home (realm t).
Proof. by split. Qed.

Lemma realm_same_names t : same_names (fun n => n) (realm t).
Proof.
  split; [done| |intros n x H; cbn; by rewrite (proj2 (Z.leb_le _ _) H)]. intros n q. cbn. unfold realm_find. destruct (String.eqb n "Ann"); [intros [= <-]; lia|].
  destruct (String.eqb n "Bob"); [intros [= <-]; lia|]. destruct (String.eqb n "Eve"); [intros [= <-]; lia|done].
Qed.

(** Ann founds a channel, Bob joins it, Ann bans Eve and leaves. *)
Definition a_day : list (World * chat_cmd) :=
  [(realm 100, CJoin 1 0 "Trolls" ""); (realm 110, CJoin 3 0 "trolls" ""); (realm 120, CJoin 2 0 "TROLLS" ""); (realm 130, CBan 1 "trolls" "Eve");
   (realm 140, CSay 2 "trolls" "hi" 0); (realm 150, CPassword 1 "trolls" "secret"); (realm 160, CLeave 1 "trolls")].

(** ** Safety *)

(** C8: Whatever the players do, no command ends with a pointer to a deleted channel: every
    address a manager or a player's list keeps is that of a channel, a player on whose list
    a channel is is a member of it, and a channel is found under one name only. *)
Theorem channels_never_dangle t l :
  Forall (fun wx => present wx.1 wx.2) l ->
  exists s, history l (no_channels t) = (Ok tt, s) /\
    (forall k c, channels s !! k = Some c -> is_Some (chans s !! c)) /\
    (forall k k' c, channels s !! k = Some c -> channels s !! k' = Some c -> k = k') /\
    (forall p c, c ∈ joined (lists s) p -> exists ch, chans s !! c = Some ch /\ IsOn ch p = true) /\
    (forall p, NoDup (joined (lists s) p)).
Proof.
  intros Hl. destruct (runs_inv _ _ _ (history_linked l _ (linked_no_channels t) Hl)) as ([] & s & E & [H1 H2 H3 H4 H5 H6]).
  exists s. split_and!; [done|exact H1|exact H2| |exact H5]. intros p c. apply H4.
Qed.

Lemma channels_never_dangle_witness :
  exists s, history a_day (no_channels ∅) = (Ok tt, s) /\ (forall k c, channels s !! k = Some c -> is_Some (chans s !! c)).
Proof.
  destruct (channels_never_dangle ∅ a_day) as (s & E & H & _); [|exists s; exact (conj E H)].
  repeat (apply Forall_cons; split; [unfold present, guid_ok; cbn; first [done | lia]|]). by apply Forall_nil.
Defined.

(** ** Owners *)

(** C9: As long as nobody kicks himself, in every state a custom channel that hands out
    ownership and has members has exactly one owner, who is the one it names, a member and
    a moderator; a custom channel without members has none. *)
Theorem every_channel_has_its_owner key home t l :
  Forall (fun wx => settled key home wx.1 /\ orderly wx.1 wx.2) l ->
  exists s, history l (no_channels t) = (Ok tt, s) /\
    forall c ch, chans s !! c = Some ch -> IsConstant ch = false ->
      (players ch = ∅ -> m_ownerGUID ch = 0) /\
      (players ch <> ∅ -> m_ownership ch = true -> exists i, players ch !! m_ownerGUID ch = Some i /\ IsOwner i = true /\ IsModerator i = true) /\
      (forall p i, players ch !! p = Some i -> IsOwner i = true -> p = m_ownerGUID ch).
Proof.
  intros Hl. destruct (runs_inv _ _ _ (history_ruled key home l _ (ruled_no_channels key home t) Hl)) as ([] & s & E & Hr).
  exists s. split; [done|]. intros c ch Hc Hk. destruct (ru_governed _ _ _ _ Hr _ _ Hc) as [[HL HO] [?|Hv]]; [done|]. split_and!.
  - by apply Hv.
  - intros Hne Ho. destruct (HO Hk Ho Hne) as (i & Hi & Hown). exists i. split_and!; [done|done|]. by apply (la_flag _ HL _ _ Hi).
  - intros p i Hi Ho. by apply (la_flag _ HL _ _ Hi).
Qed.

Lemma a_day_orderly : Forall (fun wx => settled to_lower realm_home wx.1 /\ orderly wx.1 wx.2) a_day.
Proof.
  repeat (apply Forall_cons; split; [split; [apply realm_settled|]; unfold orderly, guid_ok; cbn; first [done | lia | idtac]|]); [|by apply Forall_nil].
  intros n [= <-]. vm_compute. congruence.
Qed.

Lemma every_channel_has_its_owner_witness :
  exists s, history a_day (no_channels ∅) = (Ok tt, s) /\ forall c ch, chans s !! c = Some ch -> IsConstant ch = false -> players ch = ∅ -> m_ownerGUID ch = 0.
Proof.
  destruct (every_channel_has_its_owner to_lower realm_home ∅ a_day a_day_orderly) as (s & E & H). exists s. split; [exact E|].
  intros c ch Hc Hk. exact (proj1 (H c ch Hc Hk)).
Defined.

(** C40: After any such history a player who logs out has no channel on his list and is a
    member of none: the lists miss no channel a player is in. *)
Theorem logout_leaves_every_channel key home t l w p :
  Forall (fun wx => settled key home wx.1 /\ orderly wx.1 wx.2) l -> settled key home w ->
  exists s, history (l ++ [(w, CLogout p)]) (no_channels t) = (Ok tt, s) /\ joined (lists s) p = [] /\
    forall c ch, chans s !! c = Some ch -> IsOn ch p = false.
Proof.
  intros Hl Hw. destruct (runs_inv _ _ _ (history_ruled key home l _ (ruled_no_channels key home t) Hl)) as ([] & s & E & Hr).
  assert (runs (CleanupChannels w p) s (fun _ s' => ruled key home None s' /\ joined (lists s') p = [])) as H.
  { unfold CleanupChannels. apply runs_bind, runs_get. eapply runs_mono.
    - apply runs_and; [apply (cleanup_ruled key home); [done|exact Hr]|]. apply cleanup_linked; [exact (ru_linked _ _ _ _ Hr)|done].
    - intros _ s' [H1 [_ H2]]. done. }
  destruct (runs_inv _ _ _ H) as ([] & s' & E' & Hr' & Hem). exists s'. split_and!; [|done|].
  - unfold history in *. rewrite mapM__app. rewrite (bind_ok _ _ _ _ _ E). cbn. by rewrite (bind_ok _ _ _ _ _ E').
  - intros c ch Hc. destruct (IsOn ch p) eqn:Ep; [|done]. pose proof (ru_members _ _ _ _ Hr' _ _ _ Hc Ep) as Hin. rewrite Hem in Hin.
    by apply not_elem_of_nil in Hin.
Qed.

Lemma logout_leaves_every_channel_witness :
  exists s, history (a_day ++ [(realm 200, CLogout 2)]) (no_channels ∅) = (Ok tt, s) /\ joined (lists s) 2 = [].
Proof.
  destruct (logout_leaves_every_channel to_lower realm_home ∅ a_day (realm 200) 2 a_day_orderly (realm_settled 200)) as (s & E & H & _). exists s. exact (conj E H).
Defined.

(** ** The owner who bans himself *)

Lemma LeftChannel_keeps w mgr name s c ch :
  linked s -> chans s !! c = Some ch -> players ch <> ∅ -> runs (LeftChannel w mgr name) s (fun _ s' => chans s' !! c = Some ch).
Proof.
  intros Hs Hc Hne. unfold LeftChannel. repeat plain_step. destruct (channels s !! (mgr, lower w name)) as [x|] eqn:Ex; [|by apply runs_ret].
  destruct (li_registered _ Hs _ _ Ex) as [cx Hx]. apply runs_bind, (runs_channel _ _ _ _ Hx).
  destruct ((GetNumPlayers cx =? 0) && negb (IsConstant cx)) eqn:E; [|by apply runs_ret]. repeat plain_step. cbn.
  apply andb_prop in E as [E%Z.eqb_eq _]. pose proof (guids_size _ (li_guids _ Hs _ _ Hx)) as Hsz.
  rewrite lookup_delete_ne; [done|]. intros ->. assert (cx = ch) as -> by congruence. apply Hne, map_size_empty_inv.
  unfold GetNumPlayers, u32, wrap in E. rewrite Z.mod_small in E; lia.
Qed.

(** Logging out leaves a channel alone that is not on the list. *)
Lemma cleanup_keeps w p n s c ch :
  linked s -> chans s !! c = Some ch -> players ch <> ∅ -> c ∉ joined (lists s) p -> (length (joined (lists s) p) <= n)%nat ->
  runs (cleanup_loop w p n) s (fun _ s' => chans s' !! c = Some ch).
Proof.
  revert s. induction n as [|n IH]; intros s Hs Hc Hne Hnot Hn; cbn [cleanup_loop]; repeat plain_step;
    (destruct (joined (lists s) p) as [|x rest] eqn:E; [by apply runs_ret|]); cbn [length] in Hn; [lia|].
  apply not_elem_of_cons in Hnot as [Hcx Hnot]. apply runs_bind, runs_modify.
  match goal with |- runs _ ?st _ => set (s1 := st) end. assert (linked s1) as H1 by by apply (unlisted_linked _ _ x).
  pose proof (li_nodup _ Hs p) as Hnd. rewrite E in Hnd. apply NoDup_cons in Hnd as [Hx Hnd].
  destruct (li_joined _ Hs x p) as (cx & Hcx' & Hon); [rewrite E; constructor|].
  assert (joined (lists s1) p = rest) as E1 by (unfold s1; cbn; by rewrite joined_insert, decide_True).
  eapply runs_bind, runs_method; [exact Hcx'|]. set (sc := scene_of s1 cx).
  assert (keeps x sc (Leave w x p false sc)) as Hk.
  { apply keeps_Leave; [exact (linked_listed _ _ _ H1 Hcx')|]. right. unfold sc. cbn [m_channels scene_of]. by rewrite E1. }
  pose proof (linked_put s1 x cx _ H1 Hcx' Hk) as H2. set (s2 := put_scene _ _ s1) in *.
  assert (lists s2 = lists s1) as E2 by (unfold s2; cbn [lists put_scene]; rewrite lists_Leave; by destruct (IsOn _ _)).
  assert (chans s2 !! c = Some ch) as Hc2 by (unfold s2; cbn; by rewrite lookup_insert_ne).
  assert (runs (match channelMgr w (team w p) with Some mgr => ch0 ← deref x; LeftChannel w mgr (m_name ch0) | None => mret tt end) s2
    (fun _ s' => chans s' !! c = Some ch /\ linked s' /\ lists s' = lists s2)) as Hrun.
  { destruct (channelMgr _ _) as [mgr|]; [|by apply runs_ret]. eapply runs_bind, runs_channel; [apply lookup_insert_eq|].
    apply runs_and; [by apply LeftChannel_keeps|by apply LeftChannel_linked]. }
  apply runs_bind, (runs_mono _ _ _ _ Hrun). intros _ s3 (Hc3 & H3 & E3). apply IH; [done..| |]; rewrite E3, E2, E1; [done|lia].
Qed.

(** An owner who bans himself is put out and, since he owned the channel, made its
    owner again: he stays a member without a GUID of his own in the entry, banned, and the
    channel is no longer on his list, so when he logs out he owns it still. *)
Theorem owner_who_bans_himself_stays w w' s c ch p q i name :
  linked s -> chans s !! c = Some ch -> players ch !! p = Some i -> IsModerator i = true -> m_ownerGUID ch = p -> m_ownership ch = true ->
  IsOn ch q = true -> q <> p -> p <> 0 -> find_by_name w (c_str name) = Some p ->
  runs (method c (KickOrBan w c p name true) ;; CleanupChannels w' p) s (fun _ s' =>
    exists ch', chans s' !! c = Some ch' /\ IsBanned ch' p = true /\ m_ownerGUID ch' = p /\ ~ c ∈ joined (lists s') p /\
      exists j, players ch' !! p = Some j /\ player j = 0 /\ IsOwner j = true).
Proof.
  intros Hs Hc Hp Him Ho Hown Hq Hne H0 Hf. assert (IsOn ch p = true) as Hon by (apply IsOn_spec; eauto).
  apply runs_bind, (runs_method _ _ _ _ _ Hc). set (r := KickOrBan w c p name true (scene_of s ch)).
  pose proof (linked_put s c ch r Hs Hc (tame_KickOrBan w c p name true (scene_of s ch) (linked_listed _ _ _ Hs Hc))) as H1.
  destruct (KickOrBan_effect w c p name true (scene_of s ch)) as [E El]. fold r in E, El. cbn [this scene_of] in E, El.
  assert (kick_target w p name ch = Some p) as Hk.
  { assert (at_ p (players ch) = i) as Eat by (unfold at_; by rewrite Hp). unfold kick_target, allowed. rewrite Hon, Eat, Him. cbn [andb orb]. rewrite Hf, Hon, Ho, Z.eqb_refl. cbn [negb orb andb].
    by rewrite andb_false_r. }
  rewrite Hk in E, El. set (ch' := removed p p true ch) in *.
  assert (c ∉ joined (m_channels r) p) as Hnot.
  { rewrite El. unfold PlayerLeftChannel. cbn. rewrite joined_insert, decide_True by done. by intros [? _]%list_elem_of_filter. }
  assert (IsOn ch' q = true) as Hq' by by apply IsOn_removed.
  assert (chans (put_scene c r s) !! c = Some ch') as Hc' by (cbn; by rewrite lookup_insert_eq, E).
  assert (runs (CleanupChannels w' p) (put_scene c r s) (fun _ s' => chans s' !! c = Some ch' /\ (linked s' /\ joined (lists s') p = []))) as Hrun.
  { unfold CleanupChannels. apply runs_bind, runs_get, runs_and; [|by apply cleanup_linked]. apply cleanup_keeps; [done|done| |done|done].
    by apply (nonempty_on _ q). }
  apply (runs_mono _ _ _ _ Hrun). intros _ s' (Hs' & _ & Hem). exists ch'. split; [done|]. rewrite Hem.
  assert (exists c1, ch' = crowned p (upd p (info_SetModerator true) c1) /\ players c1 !! p = None /\ p ∈ banned c1) as (c1 & -> & Hn1 & Hb1).
  { unfold ch', removed. rewrite Ho, Z.eqb_refl. set (c0 := if true && _ then _ else ch).
    assert (p ∈ banned c0) as Hb0.
    { unfold c0. destruct (IsBanned ch p) eqn:Eb; cbn; [by apply bool_decide_eq_true in Eb|]. set_solver. }
    assert (players c0 = players ch /\ m_ownership c0 = true) as [Ep0 Eo0] by (unfold c0; by destruct (true && _)). clearbody c0.
    exists (set_players (delete p (players c0)) c0). split_and!; [|cbn; apply lookup_delete_eq|done]. cbn [m_ownership set_players]. rewrite Eo0.
    rewrite bool_decide_eq_false_2; [done|]. rewrite Ep0. apply IsOn_spec in Hq as [j Hj]. intros Hd.
    assert (delete p (players ch) !! q = Some j) as Hj' by (by rewrite lookup_delete_ne). cbn in Hd. by rewrite Hd, lookup_empty in Hj'. }
  split_and!.
  - apply bool_decide_eq_true. pose proof (settings_crowned p (upd p (info_SetModerator true) c1)) as Es. unfold settings in Es. injection Es as _ _ _ ->. exact Hb1.
  - apply owner_crowned.
  - apply not_elem_of_nil.
  - assert (at_ p (players (upd p (info_SetModerator true) c1)) = info_SetModerator true (mkInfo 0 0)) as Eat.
    { unfold upd. cbn [players set_players]. unfold at_ at 1. rewrite lookup_insert_eq. unfold at_. by rewrite Hn1. }
    eexists. rewrite crowned_lookup, decide_True by done. split; [reflexivity|]. rewrite Eat, IsOwner_SetOwner. split; [|done]. by destruct (decide _).
Qed.

Definition two_trolls : Server := (history [(realm 100, CJoin 1 0 "Trolls" ""); (realm 120, CJoin 2 0 "TROLLS" "")] (no_channels ∅)).2.
Definition trolls : Channel := default (mkChannel ∅ ∅ false false false "" "" 0 0 0 false 0) (chans two_trolls !! 0).

Lemma two_trolls_linked : linked two_trolls.
Proof.
  unfold two_trolls. set (l := [_; _]).
  assert (Forall (fun wx => present wx.1 wx.2) l) as Hl
    by (repeat (apply Forall_cons; split; [unfold present, guid_ok; cbn; lia|]); by apply Forall_nil).
  destruct (runs_inv _ _ _ (history_linked l _ (linked_no_channels ∅) Hl)) as ([] & s & -> & H). exact H.
Qed.

Lemma owner_who_bans_himself_stays_witness :
  runs (method 0 (KickOrBan (realm 140) 0 1 "Ann" true) ;; CleanupChannels (realm 150) 1) two_trolls (fun _ s' =>
    exists ch', chans s' !! 0 = Some ch' /\ IsBanned ch' 1 = true /\ m_ownerGUID ch' = 1 /\ ~ 0 ∈ joined (lists s') 1 /\
      exists j, players ch' !! 1 = Some j /\ player j = 0 /\ IsOwner j = true).
Proof.
  apply (owner_who_bans_himself_stays (realm 140) (realm 150) two_trolls 0 trolls 1 2 (mkInfo 1 3) "Ann"); [apply two_trolls_linked|..].
  - vm_compute. reflexivity.
  - vm_compute. reflexivity.
  - vm_compute. reflexivity.
  - vm_compute. reflexivity.
  - vm_compute. reflexivity.
  - vm_compute. reflexivity.
  - discriminate.
  - discriminate.
  - vm_compute. reflexivity.
Defined.

(** ** Settings *)

(** C11: A saved channel survives the server: after it is created or loaded and its members
    join, leave, kick, ban, unban and change password, announcements, modes and owner any
    number of times, a channel created from the table has the same announcements,
    ownership, password and banned players, provided that its name has at most 128
    characters, and in the end its password at most 32 and its list of banned at most
    65535, the sizes of the columns.  It does not matter what the database makes of longer
    ones in between, whether it cuts them or fails. *)
Theorem settings_survive rk w0 w1 name id Team t self L out l :
  same_names rk w0 -> same_names rk w1 -> custom w0 name id -> custom w1 name id -> rows_ok t -> Forall (fun wx => same_names rk wx.1) l ->
  let '(ch, t') := new_Channel w0 name id Team t in
  let s := foldl (do_call self) (mkScene ch L t' out) l in
  fits (this s) -> settings (new_Channel w1 name id Team (table s)).1 = settings (this s).
Proof.
  intros H0 H1 C0 C1 Ht Hl. pose proof (new_Channel_says rk w0 name id Team t L out H0 C0 Ht) as Hs.
  assert (m_name (new_Channel w0 name id Team t).1 = name /\ m_Team (new_Channel w0 name id Team t).1 = Team) as [En Et].
  { unfold new_Channel. destruct (channel_store w0 id); [done|]. destruct (String.eqb _ _); [done|]. destruct (preserve_channels w0); [|done]. by destruct (t !! _). }
  destruct (new_Channel w0 name id Team t) as [ch t']. cbn [fst] in *. set (s := foldl _ _ l).
  pose proof (says_calls rk self l _ Hl Hs) as Hs'. fold s in Hs'. pose proof (static_calls self l (mkScene ch L t' out)) as Est. fold s in Est.
  unfold static in Est. cbn [this] in Est. injection Est as _ _ Ens _ _ _ Ets. rewrite En in Ens. rewrite Et in Ets.
  pose proof (new_Channel_reads rk w1 s id H1) as Hr. rewrite Ens, Ets in Hr. by apply Hr.
Qed.

Definition trolls_calls : list (World * call) :=
  [(realm 100, MJoin 1 ""); (realm 110, MJoin 3 ""); (realm 120, MKickOrBan 1 "Eve" true); (realm 125, MPassword 1 "a password of more than thirty-two characters");
   (realm 130, MPassword 1 "secret"); (realm 140, MAnnounce 1)].

Lemma settings_survive_witness :
  let '(ch, t') := new_Channel (realm 100) "Trolls" 0 ALLIANCE ∅ in
  let s := foldl (do_call 0) (mkScene ch ∅ t' []) trolls_calls in
  fits (this s) /\ settings (new_Channel (realm 900) "Trolls" 0 ALLIANCE (table s)).1 = settings (this s).
Proof.
  assert (rows_ok ∅) as Ht by (intros k r H; exfalso; rewrite lookup_empty in H; discriminate H).
  assert (Forall (fun wx : World * call => same_names (fun n => n) wx.1) trolls_calls) as Hl
    by (repeat (apply Forall_cons; split; [apply realm_same_names|]); by apply Forall_nil).
  assert (custom (realm 100) "Trolls" 0 /\ custom (realm 900) "Trolls" 0) as [C0 C1] by (split; by repeat split).
  assert (fits (this (foldl (do_call 0) (mkScene (new_Channel (realm 100) "Trolls" 0 ALLIANCE ∅).1 ∅ (new_Channel (realm 100) "Trolls" 0 ALLIANCE ∅).2 []) trolls_calls))) as Hf
    by (split; vm_compute; discriminate).
  exact (conj Hf (settings_survive (fun n => n) (realm 100) (realm 900) "Trolls" 0 ALLIANCE ∅ 0 ∅ [] trolls_calls
    (realm_same_names 100) (realm_same_names 900) C0 C1 Ht Hl Hf)).
Defined.

(** C10: After any history, a command given by a player who is not a moderator of a channel,
    nor a game master in it, leaves the channel's announcements, ownership, password and
    banned players as they are and puts nobody else out of it; if the channel is gone after
    it, nobody else was in it. *)
Theorem only_moderators_rule t l w x c ch :
  Forall (fun wx => present wx.1 wx.2) l -> present w x ->
  let s := (history l (no_channels t)).2 in
  chans s !! c = Some ch -> allowed w (sender x) ch = false ->
  match chans (perform w x s).2 !! c with
  | Some ch' => settings ch' = settings ch /\ forall q, q <> sender x -> IsOn ch q = true -> IsOn ch' q = true
  | None => forall q, IsOn ch q = true -> q = sender x
  end.
Proof.
  intros Hl Hx s Hc Ha. assert (linked s) as Hs.
  { destruct (runs_inv _ _ _ (history_linked l _ (linked_no_channels t) Hl)) as ([] & s' & E & H). unfold s. by rewrite E. }
  assert (match x with CJoin p _ _ _ | CNewZone p _ _ => guid_ok p | _ => True end) as Hp by (by destruct x).
  destruct (my_kept _ _ _ _ (perform_may w x s Hp (linked_fresh s Hs)) c ch Hc) as [H|H]; [congruence|exact H].
Qed.

Lemma only_moderators_rule_witness :
  match chans (perform (realm 200) (CKick 2 "trolls" "Ann") two_trolls).2 !! 0 with
  | Some ch' => settings ch' = settings trolls /\ forall q, q <> 2 -> IsOn trolls q = true -> IsOn ch' q = true
  | None => forall q, IsOn trolls q = true -> q = 2
  end.
Proof.
  apply (only_moderators_rule ∅ [(realm 100, CJoin 1 0 "Trolls" ""); (realm 120, CJoin 2 0 "TROLLS" "")] (realm 200) (CKick 2 "trolls" "Ann") 0 trolls).
  - repeat (apply Forall_cons; split; [unfold present, guid_ok; cbn; lia|]). by apply Forall_nil.
  - exact I.
  - vm_compute. reflexivity.
  - vm_compute. reflexivity.
Defined.
