(* ===== verification/Pool.v ===== *)
(** * Pool: spawns that take turns (src/src/server/game/Pools/PoolMgr.cpp, PoolMgr.h)

    A pool has creatures, game objects, quests and pools of its own, of which at most
    [MaxLimit] are active at a time; who is chosen is rolled.  Pools of pools make the
    manager call itself: a call deeper than the fuel is the fault [StackOverflow].

    The tables of the manager are [Tables], what is active [ActivePoolData].  Of the rest
    of the game there are the quests that creatures and game objects give, the table
    [pool_quest_save], and a log of what is done to grids and maps.  The rolls and what
    other stores know of an entry are the record [Env]. *)

From S2P Require Import Prelude Float32.
From Stdlib Require Import Floats.SpecFloat.

(** The template argument of the groups. *)
Inductive Kind := KCreature | KGameObject | KPool | KQuest.

#[export] Instance Kind_eq_dec : EqDecision Kind.
Proof. solve_decision. Defined.

(** ** What is active *)

(* [game/Pools/PoolMgr.h:47-67] ActivePoolData *)
Record ActivePoolData := mkActive {
  mSpawnedCreatures : gset Z;
  mSpawnedGameobjects : gset Z;
  mActiveQuests : gset Z;
  mSpawnedPools : gmap Z Z
}.

(* [game/Pools/PoolMgr.cpp:30-34] ActivePoolData::GetActiveObjectCount *)
Definition GetActiveObjectCount (pool_id : Z) (a : ActivePoolData) : Z := default 0 (mSpawnedPools a !! pool_id).

(* [game/Pools/PoolMgr.cpp:37-62] ActivePoolData::IsActiveObject *)
Definition IsActiveObject (k : Kind) (x : Z) (a : ActivePoolData) : bool :=
  match k with
  | KCreature => bool_decide (x ∈ mSpawnedCreatures a)
  | KGameObject => bool_decide (x ∈ mSpawnedGameobjects a)
  | KPool => bool_decide (is_Some (mSpawnedPools a !! x))
  | KQuest => bool_decide (x ∈ mActiveQuests a)
  end.

Definition set_pools (m : gmap Z Z) (a : ActivePoolData) : ActivePoolData :=
  mkActive (mSpawnedCreatures a) (mSpawnedGameobjects a) (mActiveQuests a) m.

(** [++mSpawnedPools[pool_id]], and down unless it is zero. *)
Definition count_up (pool_id : Z) (a : ActivePoolData) : ActivePoolData :=
  set_pools (<[pool_id := u32 (GetActiveObjectCount pool_id a + 1)]> (mSpawnedPools a)) a.
Definition count_down (pool_id : Z) (a : ActivePoolData) : ActivePoolData :=
  let val := GetActiveObjectCount pool_id a in
  set_pools (<[pool_id := if 0 <? val then val - 1 else val]> (mSpawnedPools a)) a.

(* [game/Pools/PoolMgr.cpp:64-90] ActivePoolData::ActivateObject *)
Definition ActivateObject (k : Kind) (x pool_id : Z) (a : ActivePoolData) : ActivePoolData :=
  count_up pool_id
    match k with
    | KCreature => mkActive ({[x]} ∪ mSpawnedCreatures a) (mSpawnedGameobjects a) (mActiveQuests a) (mSpawnedPools a)
    | KGameObject => mkActive (mSpawnedCreatures a) ({[x]} ∪ mSpawnedGameobjects a) (mActiveQuests a) (mSpawnedPools a)
    | KPool => set_pools (<[x := 0]> (mSpawnedPools a)) a
    | KQuest => mkActive (mSpawnedCreatures a) (mSpawnedGameobjects a) ({[x]} ∪ mActiveQuests a) (mSpawnedPools a)
    end.

(* [game/Pools/PoolMgr.cpp:92-126] ActivePoolData::RemoveObject *)
Definition RemoveObject (k : Kind) (x pool_id : Z) (a : ActivePoolData) : ActivePoolData :=
  count_down pool_id
    match k with
    | KCreature => mkActive (mSpawnedCreatures a ∖ {[x]}) (mSpawnedGameobjects a) (mActiveQuests a) (mSpawnedPools a)
    | KGameObject => mkActive (mSpawnedCreatures a) (mSpawnedGameobjects a ∖ {[x]}) (mActiveQuests a) (mSpawnedPools a)
    | KPool => set_pools (delete x (mSpawnedPools a)) a
    | KQuest => mkActive (mSpawnedCreatures a) (mSpawnedGameobjects a) (mActiveQuests a ∖ {[x]}) (mSpawnedPools a)
    end.

(** ** Groups *)

(* [game/Pools/PoolMgr.h:33-38] PoolObject *)
Record PoolObject := mkObject { guid : Z; chance : float32 }.
Definition new_PoolObject (g : Z) (c : float32) : PoolObject := mkObject g (SFabs c).

(* [game/Pools/PoolMgr.h:69-98] PoolGroup *)
Record PoolGroup := mkGroup { poolId : Z; ExplicitlyChanced : list PoolObject; EqualChanced : list PoolObject }.

(* [game/Pools/PoolMgr.h:77-77] PoolGroup::isEmpty *)
Definition isEmpty (g : PoolGroup) : bool := match ExplicitlyChanced g, EqualChanced g with [], [] => true | _, _ => false end.

(* [game/Pools/PoolMgr.h:88-93] PoolGroup::GetFirstEqualChancedObjectId *)
Definition GetFirstEqualChancedObjectId (g : PoolGroup) : Z := match EqualChanced g with [] => 0 | o :: _ => guid o end.

(* [game/Pools/PoolMgr.cpp:132-139] PoolGroup::AddEntry *)
Definition AddEntry (o : PoolObject) (maxentries : Z) (g : PoolGroup) : PoolGroup :=
  if negb (feq (chance o) f_zero) && (maxentries =? 1) then mkGroup (poolId g) (ExplicitlyChanced g ++ [o]) (EqualChanced g)
  else mkGroup (poolId g) (ExplicitlyChanced g) (EqualChanced g ++ [o]).

(* [game/Pools/PoolMgr.cpp:142-154] PoolGroup::CheckPool *)
Definition group_CheckPool (g : PoolGroup) : bool :=
  match EqualChanced g with
  | [] => let c := foldl (fun c o => fadd c (chance o)) f_zero (ExplicitlyChanced g) in negb (negb (feq c f_hundred) && negb (feq c f_zero))
  | _ => true
  end.

(** The first of that GUID is taken out. *)
Fixpoint erase_first (x : Z) (l : list PoolObject) : list PoolObject :=
  match l with [] => [] | o :: l' => if guid o =? x then l' else o :: erase_first x l' end.

(* [game/Pools/PoolMgr.cpp:294-313] PoolGroup::RemoveOneRelation *)
Definition RemoveOneRelation (x : Z) (g : PoolGroup) : PoolGroup :=
  mkGroup (poolId g) (erase_first x (ExplicitlyChanced g)) (erase_first x (EqualChanced g)).

(** ** The manager *)

(* [game/Pools/PoolMgr.h:141-163] PoolMgr (the tables) *)
Record Tables := mkTables {
  max_pool_id : Z;
  mPoolTemplate : list Z;
  mPoolCreatureGroups : list PoolGroup;
  mPoolGameobjectGroups : list PoolGroup;
  mPoolPoolGroups : list PoolGroup;
  mPoolQuestGroups : list PoolGroup;
  mCreatureSearchMap : gmap Z Z;
  mGameobjectSearchMap : gmap Z Z;
  mPoolSearchMap : gmap Z Z;
  mQuestSearchMap : gmap Z Z;
  mQuestCreatureRelation : gmap Z (list Z);
  mQuestGORelation : gmap Z (list Z)
}.

Definition groups (t : Tables) (k : Kind) : list PoolGroup :=
  match k with KCreature => mPoolCreatureGroups t | KGameObject => mPoolGameobjectGroups t | KPool => mPoolPoolGroups t | KQuest => mPoolQuestGroups t end.

Definition search_map (t : Tables) (k : Kind) : gmap Z Z :=
  match k with KCreature => mCreatureSearchMap t | KGameObject => mGameobjectSearchMap t | KPool => mPoolSearchMap t | KQuest => mQuestSearchMap t end.

(* [game/Pools/PoolMgr.h:169-211] PoolMgr::IsPartOfAPool *)
Definition IsPartOfAPool (t : Tables) (k : Kind) (x : Z) : Z := default 0 (search_map t k !! x).

(** What is done to the grids and maps of a creature or game object: its place in the grid,
    and, if the grid is loaded, the object itself. *)
Inductive Event := AddToGrid (k : Kind) (x : Z) | LoadFromDB_ (k : Kind) (x : Z) | RemoveFromGrid (k : Kind) (x : Z) | BackToMap (k : Kind) (x : Z).

Record Server := mkServer {
  mSpawnedData : ActivePoolData;
  creature_quests : gmap Z (list Z);
  go_quests : gmap Z (list Z);
  pool_quest_save : gset (Z * Z);
  turn : nat;
  log : list Event
}.

Record Env := mkEnv {
  rand_chance : nat -> float32;
  pick : nat -> Z -> Z;
  has_data : Kind -> Z -> bool;
  grid_loaded : Kind -> Z -> bool;
  go_lootable : Z -> bool;
  quest_type : Z -> option (bool * bool)
}.

Inductive fault := OutOfRange | StackOverflow.
Abbreviation T := (M Server fault).

Definition set_active (a : ActivePoolData) (s : Server) : Server :=
  mkServer a (creature_quests s) (go_quests s) (pool_quest_save s) (turn s) (log s).
Definition on_active (f : ActivePoolData -> ActivePoolData) : T unit := modify (fun s => set_active (f (mSpawnedData s)) s).
Definition note (e : Event) (s : Server) : Server :=
  mkServer (mSpawnedData s) (creature_quests s) (go_quests s) (pool_quest_save s) (turn s) (log s ++ [e]).
Definition set_quests (c g : gmap Z (list Z)) (s : Server) : Server := mkServer (mSpawnedData s) c g (pool_quest_save s) (turn s) (log s).
Definition set_saved (r : gset (Z * Z)) (s : Server) : Server := mkServer (mSpawnedData s) (creature_quests s) (go_quests s) r (turn s) (log s).

(** The next random number. *)
Definition draw {A} (f : nat -> A) : T A :=
  s ← get;
  modify (fun s => mkServer (mSpawnedData s) (creature_quests s) (go_quests s) (pool_quest_save s) (S (turn s)) (log s)) ;;
  mret (f (turn s)).

Section Rolling.
Context (e : Env) (t : Tables).

Definition group_at (k : Kind) (i : Z) : T PoolGroup := match znth (groups t k) i with Some g => mret g | None => throw OutOfRange end.
Definition limit_at (i : Z) : T Z := match znth (mPoolTemplate t) i with Some l => mret l | None => throw OutOfRange end.

Fixpoint roll_explicit (roll : float32) (free : Z -> bool) (l : list PoolObject) : option PoolObject :=
  match l with
  | [] => None
  | o :: l' => let roll := fsub roll (chance o) in if flt roll f_zero && free (guid o) then Some o else roll_explicit roll free l'
  end.

(* [game/Pools/PoolMgr.cpp:156-182] PoolGroup::RollOne *)
Definition RollOne (k : Kind) (g : PoolGroup) (triggerFrom : Z) : T (option PoolObject) :=
  s ← get;
  let free x := (x =? triggerFrom) || negb (IsActiveObject k x (mSpawnedData s)) in
  explicit ← match ExplicitlyChanced g with
             | [] => mret None
             | l => roll ← draw (rand_chance e); mret (roll_explicit roll free l)
             end;
  match explicit with
  | Some o => mret (Some o)
  | None =>
    match EqualChanced g with
    | [] => mret None
    | l =>
      index ← draw (fun n => pick e n (zlen l));
      match znth l index with
      | Some o => mret (if free (guid o) then Some o else None)
      | None => throw OutOfRange
      end
    end
  end.

(** *** One object *)

Definition at_key (x : Z) (m : gmap Z (list Z)) : list Z := default [] (m !! x).

(** The first quest of that number of a giver is taken off, and one is put at the end. *)
Fixpoint remove_one (x : Z) (l : list Z) : list Z := match l with [] => [] | y :: l' => if y =? x then l' else y :: remove_one x l' end.
Definition drop_quest (q : Z) (m : gmap Z (list Z)) (giver : Z) : gmap Z (list Z) :=
  match m !! giver with Some l => <[giver := remove_one q l]> m | None => m end.
Definition give_quest (q : Z) (m : gmap Z (list Z)) (giver : Z) : gmap Z (list Z) := <[giver := at_key giver m ++ [q]]> m.

(* [game/Pools/PoolMgr.cpp:250-291] PoolGroup<Quest>::Despawn1Object *)
Definition despawn_quest (q : Z) : T unit :=
  modify (fun s => set_quests (foldl (drop_quest q) (creature_quests s) (at_key q (mQuestCreatureRelation t)))
                     (foldl (drop_quest q) (go_quests s) (at_key q (mQuestGORelation t))) s).

(* [game/Pools/PoolMgr.cpp:415-436] PoolGroup<Quest>::Spawn1Object *)
Definition spawn_quest (q : Z) : T unit :=
  modify (fun s => set_quests (foldl (give_quest q) (creature_quests s) (at_key q (mQuestCreatureRelation t)))
                     (foldl (give_quest q) (go_quests s) (at_key q (mQuestGORelation t))) s).

(* [game/Pools/PoolMgr.cpp:504-532] PoolGroup::ReSpawn1Object *)
Definition ReSpawn1Object (k : Kind) (x : Z) : T unit :=
  match k with
  | KCreature | KGameObject => if has_data e k x then modify (note (BackToMap k x)) else mret tt
  | KPool | KQuest => mret tt
  end.

(** *** Groups and pools

    What a pool of pools calls for its pools is an argument. *)

Section Recursion.
Context (rec_DespawnPool rec_SpawnPool : Z -> T unit).

(* [game/Pools/PoolMgr.cpp:217-248] PoolGroup::Despawn1Object *)
Definition Despawn1Object (k : Kind) (x : Z) : T unit :=
  match k with
  | KCreature | KGameObject => if has_data e k x then modify (note (RemoveFromGrid k x)) else mret tt
  | KPool => rec_DespawnPool x
  | KQuest => despawn_quest x
  end.

(* [game/Pools/PoolMgr.cpp:355-413] PoolGroup::Spawn1Object *)
Definition Spawn1Object (k : Kind) (x : Z) : T unit :=
  match k with
  | KCreature | KGameObject =>
    if has_data e k x then modify (note (AddToGrid k x)) ;; if grid_loaded e k x then modify (note (LoadFromDB_ k x)) else mret tt else mret tt
  | KPool => rec_SpawnPool x
  | KQuest => spawn_quest x
  end.

(* [game/Pools/PoolMgr.cpp:193-201] PoolGroup::DespawnObject (one entry) *)
Definition despawn_one (k : Kind) (g : PoolGroup) (only : Z) (o : PoolObject) : T unit :=
  s ← get;
  if IsActiveObject k (guid o) (mSpawnedData s) && ((only =? 0) || (guid o =? only)) then
    Despawn1Object k (guid o) ;; on_active (RemoveObject k (guid o) (poolId g))
  else mret tt.

(* [game/Pools/PoolMgr.cpp:187-215] PoolGroup::DespawnObject *)
Definition DespawnObject (k : Kind) (g : PoolGroup) (only : Z) : T unit :=
  mapM_ (despawn_one k g only) (EqualChanced g) ;; mapM_ (despawn_one k g only) (ExplicitlyChanced g).

(** [n] turns of the loop. *)
(* [game/Pools/PoolMgr.cpp:326-352] PoolGroup::SpawnObject (the loop) *)
Fixpoint spawn_loop (n : nat) (k : Kind) (g : PoolGroup) (triggerFrom lastDespawned : Z) : T unit :=
  match n with
  | O => mret tt
  | S n =>
    o ← RollOne k g triggerFrom;
    match o with
    | None => spawn_loop n k g triggerFrom lastDespawned
    | Some obj =>
      let x := guid obj in
      if x =? lastDespawned then spawn_loop n k g triggerFrom lastDespawned
      else if x =? triggerFrom then ReSpawn1Object k x ;; spawn_loop n k g 0 lastDespawned
      else
        on_active (ActivateObject k x (poolId g)) ;;
        Spawn1Object k x ;;
        if negb (triggerFrom =? 0) then DespawnObject k g triggerFrom ;; spawn_loop n k g 0 triggerFrom
        else spawn_loop n k g triggerFrom lastDespawned
    end
  end.

(* [game/Pools/PoolMgr.cpp:315-353] PoolGroup::SpawnObject *)
Definition spawn_objects (k : Kind) (g : PoolGroup) (limit triggerFrom : Z) : T unit :=
  s ← get;
  let count := i32 (limit - GetActiveObjectCount (poolId g) (mSpawnedData s)) in
  let count := if negb (triggerFrom =? 0) then i32 (count + 1) else count in
  spawn_loop (Z.to_nat count) k g triggerFrom 0.

(** *** Quests *)

(* [game/Pools/PoolMgr.cpp:941-966] PoolMgr::SaveQuestsToDB *)
Definition SaveQuestsToDB : T unit :=
  modify (fun s =>
    let listed := map poolId (filter (fun g => isEmpty g = false) (mPoolQuestGroups t)) in
    let rows := filter (fun r : Z * Z => ~ r.1 ∈ listed) (pool_quest_save s) in
    let active := map (fun x : Z * Z => (x.2, x.1))
      (filter (fun x => IsActiveObject KQuest x.1 (mSpawnedData s) = true) (map_to_list (mQuestSearchMap t))) in
    set_saved (rows ∪ list_to_set active) s).

(** The rows of the pool, by quest; [limit] counts down to zero. *)
(* [game/Pools/PoolMgr.cpp:448-455] PoolGroup<Quest>::SpawnObject (saved quests) *)
Fixpoint load_quests (i : Z) (quests : list Z) (limit : Z) : T unit :=
  match quests with
  | [] => mret tt
  | q :: rest =>
    on_active (ActivateObject KQuest q i) ;; spawn_quest q ;;
    if u32 (limit - 1) =? 0 then mret tt else load_quests i rest (u32 (limit - 1))
  end.

(** A random element of a set, in the order of the set. *)
(* [shared/Containers.h:74-79] Trinity::Containers::SelectRandomContainerElement *)
Definition SelectRandomContainerElement (c : gset Z) : T Z :=
  let l := merge_sort Z.le (elements c) in
  index ← draw (fun n => pick e n (zlen l));
  match znth l index with Some q => mret q | None => throw OutOfRange end.

(** Quests that were active fill up the new ones; [n] turns at most. *)
(* [game/Pools/PoolMgr.cpp:477-482] PoolGroup<Quest>::SpawnObject (recycling) *)
Fixpoint recycle (n : nat) (limit : Z) (current new : gset Z) : T (gset Z) :=
  match n with
  | O => mret new
  | S n =>
    q ← SelectRandomContainerElement current;
    let new := {[q]} ∪ new in
    let current := current ∖ {[q]} in
    if (Z.of_nat (size new) <? limit) && negb (bool_decide (current = ∅)) then recycle n limit current new else mret new
  end.

(* [game/Pools/PoolMgr.cpp:489-497] PoolGroup<Quest>::SpawnObject (activation) *)
Fixpoint activate_quests (n : nat) (i limit : Z) (new : gset Z) : T unit :=
  match n with
  | O => mret tt
  | S n =>
    q ← SelectRandomContainerElement new;
    on_active (ActivateObject KQuest q i) ;; spawn_quest q ;;
    let new := new ∖ {[q]} in
    if negb (u32 (limit - 1) =? 0) && negb (bool_decide (new = ∅)) then activate_quests n i (u32 (limit - 1)) new else mret tt
  end.

(* [game/Pools/PoolMgr.cpp:438-502] PoolGroup<Quest>::SpawnObject *)
Definition spawn_quests (g : PoolGroup) (limit triggerFrom : Z) : T unit :=
  s ← get;
  let saved := merge_sort Z.le (map snd (filter (fun r : Z * Z => r.1 = poolId g) (elements (pool_quest_save s)))) in
  match triggerFrom =? 0, saved with
  | true, _ :: _ => load_quests (poolId g) saved limit
  | _, _ =>
    let current := mActiveQuests (mSpawnedData s) in
    let new : gset Z := list_to_set (filter (fun q => IsActiveObject KQuest q (mSpawnedData s) = false) (map guid (EqualChanced g))) in
    DespawnObject KQuest g 0 ;;
    new ← (if (Z.of_nat (size new) <? limit) && negb (bool_decide (current = ∅)) then recycle (size current) limit current new else mret new);
    if bool_decide (new = ∅) then mret tt
    else activate_quests (size new) (poolId g) limit new ;; if triggerFrom =? 0 then SaveQuestsToDB else mret tt
  end.

(* [game/Pools/PoolMgr.cpp:315-316] PoolGroup::SpawnObject *)
Definition SpawnObject (k : Kind) (g : PoolGroup) (limit triggerFrom : Z) : T unit :=
  match k with KQuest => spawn_quests g limit triggerFrom | _ => spawn_objects k g limit triggerFrom end.

(* [game/Pools/PoolMgr.cpp:1000-1033] PoolMgr::SpawnPool (of one kind) *)
Definition SpawnPool_kind (k : Kind) (pool_id db_guid : Z) : T unit :=
  g ← group_at k pool_id;
  if isEmpty g then mret tt else limit ← limit_at pool_id; SpawnObject k g limit db_guid.

(* [game/Pools/PoolMgr.cpp:1043-1057] PoolMgr::DespawnPool (one kind) *)
Definition despawn_kind (k : Kind) (pool_id : Z) : T unit :=
  g ← group_at k pool_id;
  if isEmpty g then mret tt else DespawnObject k g 0.

(* [game/Pools/PoolMgr.cpp:1035-1041] PoolMgr::SpawnPool *)
Definition SpawnPool_body (pool_id : Z) : T unit :=
  SpawnPool_kind KPool pool_id 0 ;; SpawnPool_kind KGameObject pool_id 0 ;; SpawnPool_kind KCreature pool_id 0 ;; SpawnPool_kind KQuest pool_id 0.

(* [game/Pools/PoolMgr.cpp:1043-1057] PoolMgr::DespawnPool *)
Definition DespawnPool_body (pool_id : Z) : T unit :=
  despawn_kind KCreature pool_id ;; despawn_kind KGameObject pool_id ;; despawn_kind KPool pool_id ;; despawn_kind KQuest pool_id.
End Recursion.

(* [game/Pools/PoolMgr.cpp:1043-1057] PoolMgr::DespawnPool *)
Fixpoint DespawnPool (depth : nat) (pool_id : Z) : T unit :=
  match depth with O => throw StackOverflow | S d => DespawnPool_body (DespawnPool d) pool_id end.

(* [game/Pools/PoolMgr.cpp:1035-1041] PoolMgr::SpawnPool *)
Fixpoint SpawnPool (depth : nat) (pool_id : Z) : T unit :=
  match depth with O => throw StackOverflow | S d => SpawnPool_body (DespawnPool d) (SpawnPool d) pool_id end.

(* [game/Pools/PoolMgr.cpp:1059-1067] PoolMgr::CheckPool *)
Definition CheckPool (pool_id : Z) : bool :=
  (pool_id <=? max_pool_id t)
  && forallb (fun k => match znth (groups t k) pool_id with Some g => group_CheckPool g | None => false end) [KGameObject; KCreature; KPool; KQuest].

(* [game/Pools/PoolMgr.cpp:1072-1084] PoolMgr::UpdatePool *)
Definition UpdatePool (depth : nat) (k : Kind) (pool_id x : Z) : T unit :=
  let motherpoolid := IsPartOfAPool t KPool pool_id in
  if negb (motherpoolid =? 0) then SpawnPool_kind (DespawnPool depth) (SpawnPool depth) KPool motherpoolid pool_id
  else SpawnPool_kind (DespawnPool depth) (SpawnPool depth) k pool_id x.

(** The quests of the groups whose first quest is not of the other type. *)
(* [game/Pools/PoolMgr.cpp:968-982] PoolMgr::ChangeDailyQuests (the loop) *)
Definition change_quests (depth : nat) (skip : bool * bool -> bool) : T unit :=
  mapM_ (fun g => match quest_type e (GetFirstEqualChancedObjectId g) with
                  | Some q => if skip q then mret tt else UpdatePool depth KQuest (poolId g) 1
                  | None => mret tt
                  end) (mPoolQuestGroups t) ;;
  SaveQuestsToDB.

(* [game/Pools/PoolMgr.cpp:968-982] PoolMgr::ChangeDailyQuests *)
Definition ChangeDailyQuests (depth : nat) : T unit := change_quests depth snd.
(* [game/Pools/PoolMgr.cpp:984-998] PoolMgr::ChangeWeeklyQuests *)
Definition ChangeWeeklyQuests (depth : nat) : T unit := change_quests depth fst.

(** A creature respawns, a game object is gone or respawns. *)
(* [game/Entities/Creature/Creature.cpp:1735-1737] Creature::Respawn (pool) *)
Definition respawned (depth : nat) (k : Kind) (x : Z) : T unit :=
  let poolid := if x =? 0 then 0 else IsPartOfAPool t k x in
  if poolid =? 0 then mret tt else UpdatePool depth k poolid x.
End Rolling.
