(* ===== verification/PoolLoad.v ===== *)
(** * PoolLoad: the tables of the pools from the database
      (src/src/server/game/Pools/PoolMgr.cpp, [Initialize] and [LoadFromDB])

    The rows are arguments; what is wrong with a row is only written to the log, and the
    row skipped. *)

From S2P Require Import Prelude Float32.
From S2P Require Import Pool.

Record Rows := mkRows {
  template_rows : list (Z * Z);
  creature_rows : list (Z * Z * float32);
  gameobject_rows : list (Z * Z * float32);
  pool_rows : list (Z * Z * float32);
  quest_rows : list (Z * Z);
  start_rows : list (Z * Z)
}.

Definition set_template (l : list Z) (t : Tables) : Tables :=
  mkTables (max_pool_id t) l (mPoolCreatureGroups t) (mPoolGameobjectGroups t) (mPoolPoolGroups t) (mPoolQuestGroups t) (mCreatureSearchMap t)
    (mGameobjectSearchMap t) (mPoolSearchMap t) (mQuestSearchMap t) (mQuestCreatureRelation t) (mQuestGORelation t).

Definition set_groups (k : Kind) (l : list PoolGroup) (t : Tables) : Tables :=
  let at_ k' old := if decide (k = k') then l else old in
  mkTables (max_pool_id t) (mPoolTemplate t) (at_ KCreature (mPoolCreatureGroups t)) (at_ KGameObject (mPoolGameobjectGroups t))
    (at_ KPool (mPoolPoolGroups t)) (at_ KQuest (mPoolQuestGroups t)) (mCreatureSearchMap t) (mGameobjectSearchMap t) (mPoolSearchMap t)
    (mQuestSearchMap t) (mQuestCreatureRelation t) (mQuestGORelation t).

Definition set_search (k : Kind) (m : gmap Z Z) (t : Tables) : Tables :=
  let at_ k' old := if decide (k = k') then m else old in
  mkTables (max_pool_id t) (mPoolTemplate t) (mPoolCreatureGroups t) (mPoolGameobjectGroups t) (mPoolPoolGroups t) (mPoolQuestGroups t)
    (at_ KCreature (mCreatureSearchMap t)) (at_ KGameObject (mGameobjectSearchMap t)) (at_ KPool (mPoolSearchMap t)) (at_ KQuest (mQuestSearchMap t))
    (mQuestCreatureRelation t) (mQuestGORelation t).

(** The relations of the quests are loaded before. *)
(* [game/Pools/PoolMgr.cpp:541-559] PoolMgr::Initialize *)
Definition Initialize (r : Rows) (creature_relation go_relation : gmap Z (list Z)) : Tables :=
  let max := foldr Z.max 0 (map fst (template_rows r)) in
  let n := Z.to_nat (max + 1) in
  let empty := replicate n (mkGroup 0 [] []) in
  mkTables max (replicate n 0) empty empty empty empty ∅ ∅ ∅ ∅ creature_relation go_relation.

(* [game/Pools/PoolMgr.cpp:576-587] PoolMgr::LoadFromDB (pool_template) *)
Definition load_template (t : Tables) (row : Z * Z) : Tables := set_template (<[Z.to_nat row.1 := row.2]> (mPoolTemplate t)) t.

(** An entry is put into its group, and into the search map unless it is there. *)
(* [game/Pools/PoolMgr.cpp:632-638] PoolMgr::LoadFromDB (the entry of a row) *)
Definition add_row (k : Kind) (t : Tables) (x i : Z) (c : float32) : Tables :=
  match znth (groups t k) i, znth (mPoolTemplate t) i with
  | Some g, Some l =>
    let g := AddEntry (new_PoolObject x c) l (mkGroup i (ExplicitlyChanced g) (EqualChanced g)) in
    let t := set_groups k (<[Z.to_nat i := g]> (groups t k)) t in
    match search_map t k !! x with Some _ => t | None => set_search k (<[x := i]> (search_map t k)) t end
  | _, _ => t
  end.

Definition bad_chance (c : float32) : bool := flt c f_zero || flt f_hundred c.

(* [game/Pools/PoolMgr.cpp:608-642] PoolMgr::LoadFromDB (pool_creature) *)
Definition load_creature (e : Env) (t : Tables) (row : Z * Z * float32) : Tables :=
  let '(x, i, c) := row in
  if negb (has_data e KCreature x) || (max_pool_id t <? i) || bad_chance c then t else add_row KCreature t x i c.

(* [game/Pools/PoolMgr.cpp:664-710] PoolMgr::LoadFromDB (pool_gameobject) *)
Definition load_gameobject (e : Env) (t : Tables) (row : Z * Z * float32) : Tables :=
  let '(x, i, c) := row in
  if negb (has_data e KGameObject x) || negb (go_lootable e x) || (max_pool_id t <? i) || bad_chance c then t else add_row KGameObject t x i c.

(* [game/Pools/PoolMgr.cpp:732-769] PoolMgr::LoadFromDB (pool_pool) *)
Definition load_pool (t : Tables) (row : Z * Z * float32) : Tables :=
  let '(child, mother, c) := row in
  if (max_pool_id t <? mother) || (max_pool_id t <? child) || (mother =? child) || bad_chance c then t else add_row KPool t child mother c.

(** From a pool up the search map; a link back to a pool passed is taken out. *)
(* [game/Pools/PoolMgr.cpp:771-794] PoolMgr::LoadFromDB (circular reference) *)
Fixpoint cut_cycle (fuel : nat) (t : Tables) (i : Z) (checkedPools : gset Z) : Tables :=
  match mPoolSearchMap t !! i, fuel with
  | None, _ => t
  | Some _, O => t
  | Some m, S fuel =>
    let checkedPools := {[i]} ∪ checkedPools in
    if bool_decide (m ∈ checkedPools) then
      match znth (mPoolPoolGroups t) m with
      | Some g => set_search KPool (delete i (mPoolSearchMap t)) (set_groups KPool (<[Z.to_nat m := RemoveOneRelation i g]> (mPoolPoolGroups t)) t)
      | None => t
      end
    else cut_cycle fuel t m checkedPools
  end.

Definition cut_cycles (t : Tables) : Tables :=
  foldl (fun t i => cut_cycle (S (size (mPoolSearchMap t))) t i ∅) t (seqZ 0 (max_pool_id t)).

(** No check when there is no row. *)
(* [game/Pools/PoolMgr.cpp:723-730] PoolMgr::LoadFromDB (pool_pool) *)
Definition load_pools (t : Tables) (rows : list (Z * Z * float32)) : Tables :=
  match rows with [] => t | _ => cut_cycles (foldl load_pool t rows) end.

(** [types]: what kind of quests each pool has so far, daily or not. *)
(* [game/Pools/PoolMgr.cpp:825-882] PoolMgr::LoadFromDB (pool_quest) *)
Definition load_quest (e : Env) (st : Tables * gmap Z bool) (row : Z * Z) : Tables * gmap Z bool :=
  let '(t, types) := st in
  let '(q, i) := row in
  match quest_type e q with
  | None => st
  | Some (daily, weekly) =>
    if (max_pool_id t <? i) || negb (daily || weekly) then st
    else
      let types := match types !! i with Some _ => types | None => <[i := daily]> types end in
      if negb (eqb (default daily (types !! i)) daily) then (t, types)
      else match at_key q (mQuestCreatureRelation t), at_key q (mQuestGORelation t) with
           | [], [] => (t, types)
           | _, _ => (add_row KQuest t q i f_zero, types)
           end
  end.

(** The tables, up to the pools spawned. *)
Definition load_tables (e : Env) (r : Rows) (t : Tables) : Tables :=
  let t := foldl load_template t (template_rows r) in
  let t := foldl (load_creature e) t (creature_rows r) in
  let t := foldl (load_gameobject e) t (gameobject_rows r) in
  let t := load_pools t (pool_rows r) in
  (foldl (load_quest e) (t, ∅) (quest_rows r)).1.

(** A pool of no event is spawned unless it is in another, which is the second number of a
    row, or zero. *)
(* [game/Pools/PoolMgr.cpp:905-928] PoolMgr::LoadFromDB (spawning) *)
Definition spawn_start (e : Env) (t : Tables) (depth : nat) (row : Z * Z) : T unit :=
  if negb (CheckPool t row.1) then mret tt else if row.2 =? 0 then SpawnPool e t depth row.1 else mret tt.

(* [game/Pools/PoolMgr.cpp:561-590] PoolMgr::LoadFromDB *)
Definition LoadFromDB (e : Env) (r : Rows) (t : Tables) (depth : nat) : Tables * T unit :=
  match template_rows r with
  | [] => (set_template [] t, mret tt)
  | _ => let t := load_tables e r t in (t, mapM_ (spawn_start e t depth) (start_rows r))
  end.
