(* ===== verification/PoolSpec.v ===== *)
(** * PoolSpec: the counters of the pools

    The counter of a pool is the number of its active members ([exact]), and spawning and
    despawning a pool touch only what is [below] it.  Pools that offer quests are left
    out: their counters are not kept. *)

From S2P Require Import Prelude Float32.
From S2P Require Import Pool.

Section Spec.
Context (e : Env) (t : Tables) (rank : Z -> nat).

Definition members (k : Kind) (i : Z) : list Z :=
  match znth (groups t k) i with Some g => map guid (EqualChanced g ++ ExplicitlyChanced g) | None => [] end.

(** Well-formed tables: every entry is in one pool and once, a pool with quests has nothing
    else, and pools do not contain themselves. *)
Record well_formed : Prop := {
  wf_max : 0 <= max_pool_id t;
  wf_groups : forall k, zlen (groups t k) = max_pool_id t + 1;
  wf_templates : zlen (mPoolTemplate t) = max_pool_id t + 1;
  wf_limit : forall i l, znth (mPoolTemplate t) i = Some l -> 0 <= l < 2 ^ 31 - 1;
  wf_id : forall k i g, znth (groups t k) i = Some g -> isEmpty g = false -> poolId g = i;
  wf_unique : forall k i j x, k <> KQuest -> x ∈ members k i -> x ∈ members k j -> i = j;
  wf_nodup : forall k i, k <> KQuest -> NoDup (members k i);
  wf_nonzero : forall k i x, x ∈ members k i -> x <> 0;
  wf_pools : forall i x, x ∈ members KPool i -> 0 <= x <= max_pool_id t;
  wf_quests : forall k i, members KQuest i <> [] -> k <> KQuest -> members k i = [];
  wf_rank : forall i x, x ∈ members KPool i -> (rank x < rank i)%nat
}.

Definition kid (i c : Z) : Prop := c ∈ members KPool i.
Definition below : Z -> Z -> Prop := rtc kid.

(** How many members of a kind are active, and of any kind but quests. *)
Definition actives (k : Kind) (i : Z) (a : ActivePoolData) : Z := zlen (filter (fun x => IsActiveObject k x a = true) (members k i)).
Definition total (i : Z) (a : ActivePoolData) : Z := actives KCreature i a + actives KGameObject i a + actives KPool i a.

Definition exact (a : ActivePoolData) : Prop := forall i, members KQuest i = [] -> GetActiveObjectCount i a = total i a.

(** Active, or in no other pool. *)
Definition placed (i : Z) (a : ActivePoolData) : Prop := is_Some (mSpawnedPools a !! i) \/ forall m, ~ i ∈ members KPool m.

(** *** Counting *)

Lemma filter_bool_ext (f f' : Z -> bool) (l : list Z) : (forall y, y ∈ l -> f' y = f y) -> filter (fun y => f' y = true) l = filter (fun y => f y = true) l.
Proof.
  intros H. induction l as [|y l IH]; [done|]. rewrite !filter_cons, IH by (intros z Hz; apply H; by constructor).
  rewrite (H y) by constructor. destruct (f y); [by rewrite !decide_True|by rewrite !decide_False].
Qed.

Lemma zlen_filter_flip (f f' : Z -> bool) (x : Z) (l : list Z) :
  NoDup l -> x ∈ l -> f x = false -> f' x = true -> (forall y, y ∈ l -> y <> x -> f' y = f y) ->
  zlen (filter (fun y => f' y = true) l) = zlen (filter (fun y => f y = true) l) + 1.
Proof.
  intros Hnd Hx Hf Hf' Hrest. induction l as [|y l IH]; [by apply not_elem_of_nil in Hx|]. apply NoDup_cons in Hnd as [Hn Hnd].
  rewrite !filter_cons. destruct (decide (y = x)) as [->|Hne].
  - rewrite Hf, Hf'. rewrite decide_True, decide_False by done. unfold zlen. cbn [length].
    assert (filter (fun y => f' y = true) l = filter (fun y => f y = true) l) as ->; [|lia].
    apply filter_bool_ext. intros y Hy. apply Hrest; [by constructor|]. by intros ->.
  - assert (x ∈ l) as Hxl by (apply elem_of_cons in Hx as [?|?]; [congruence|done]).
    assert (zlen (filter (fun y => f' y = true) l) = zlen (filter (fun y => f y = true) l) + 1) as IH'.
    { apply IH; [done|done|]. intros z Hz. apply Hrest. by constructor. }
    rewrite (Hrest y) by (done || by constructor). destruct (f y).
    + rewrite !decide_True by done. unfold zlen in *. cbn [length]. lia.
    + by rewrite !decide_False by done.
Qed.

(** [x] of the kind [k] becomes active, or inactive. *)
Definition flips (k : Kind) (x : Z) (b : bool) (a a' : ActivePoolData) : Prop :=
  forall k' j y, k' <> KQuest -> y ∈ members k' j -> IsActiveObject k' y a' = if bool_decide (k' = k /\ y = x) then b else IsActiveObject k' y a.

Definition still (a a' : ActivePoolData) : Prop := forall k j y, k <> KQuest -> y ∈ members k j -> IsActiveObject k y a' = IsActiveObject k y a.

Lemma actives_same k j a a' : (forall y, y ∈ members k j -> IsActiveObject k y a' = IsActiveObject k y a) -> actives k j a' = actives k j a.
Proof. intros H. unfold actives. by rewrite (filter_bool_ext (fun y => IsActiveObject k y a) (fun y => IsActiveObject k y a')). Qed.

Lemma total_same j a a' : (forall k y, k <> KQuest -> y ∈ members k j -> IsActiveObject k y a' = IsActiveObject k y a) -> total j a' = total j a.
Proof. intros H. unfold total. by rewrite !(actives_same _ j a a') by (intros y Hy; by apply H). Qed.

Context (Hwf : well_formed).

Lemma flips_actives k x i a a' :
  k <> KQuest -> x ∈ members k i -> IsActiveObject k x a = false -> flips k x true a a' ->
  forall k' j, k' <> KQuest -> actives k' j a' = actives k' j a + (if bool_decide (k' = k /\ j = i) then 1 else 0).
Proof.
  intros Hk Hx Hf H k' j Hk'. destruct (decide (k' = k /\ j = i)) as [[-> ->]|Hne].
  - rewrite bool_decide_true by done. apply (zlen_filter_flip (fun y => IsActiveObject k y a) (fun y => IsActiveObject k y a') x); try done.
    + by apply (wf_nodup Hwf).
    + by rewrite (H k i x), bool_decide_true.
    + intros y Hy Hyx. rewrite (H k i y) by done. rewrite bool_decide_false by tauto. done.
  - rewrite bool_decide_false, Z.add_0_r by done. apply actives_same. intros y Hy. rewrite (H k' j y) by done. rewrite bool_decide_false; [done|].
    intros [-> ->]. apply Hne. split; [done|]. by apply (wf_unique Hwf k j i x).
Qed.

Lemma flips_total k x i a a' :
  k <> KQuest -> x ∈ members k i -> IsActiveObject k x a = false -> flips k x true a a' -> forall j, total j a' = total j a + (if j =? i then 1 else 0).
Proof.
  intros Hk Hx Hf H j. unfold total. rewrite !(flips_actives k x i a a' Hk Hx Hf H) by done.
  destruct (Z.eqb_spec j i) as [->|Hne]; [|rewrite !bool_decide_false by tauto; lia].
  destruct k; [..|done]; repeat case_bool_decide; destruct_and?; try congruence; try lia; exfalso; tauto.
Qed.

Lemma flips_sym k x b a a' : IsActiveObject k x a = negb b -> flips k x b a a' -> flips k x (negb b) a' a.
Proof.
  intros Hx H k' j y Hk Hy. rewrite (H k' j y Hk Hy). case_bool_decide as E; [|done]. destruct E as [-> ->]. by rewrite Hx.
Qed.

Lemma actives_nonneg k j a : 0 <= actives k j a.
Proof. apply zlen_nonneg. Qed.

Lemma pool_total_nonneg j a : 0 <= total j a.
Proof.
  unfold total. pose proof (actives_nonneg KCreature j a). pose proof (actives_nonneg KGameObject j a). pose proof (actives_nonneg KPool j a). lia.
Qed.

Lemma pool_total_zero j a : total j a = 0 <-> forall k x, k <> KQuest -> x ∈ members k j -> IsActiveObject k x a = false.
Proof.
  assert (forall k, actives k j a = 0 <-> forall x, x ∈ members k j -> IsActiveObject k x a = false) as H.
  { intros k. unfold actives. split.
    - intros E x Hx. destruct (IsActiveObject k x a) eqn:Ex; [|done]. assert (x ∈ filter (fun x => IsActiveObject k x a = true) (members k j)) as Hin
        by by apply list_elem_of_filter. destruct (filter _ _); [by apply not_elem_of_nil in Hin|]. unfold zlen in E. cbn in E. lia.
    - intros Hall. destruct (filter _ _) as [|x l] eqn:E; [done|]. assert (x ∈ filter (fun x => IsActiveObject k x a = true) (members k j)) as Hin
        by (rewrite E; constructor). apply list_elem_of_filter in Hin as [Hx Hin]. by rewrite Hall in Hx. }
  unfold total. split.
  - intros E k x Hk. pose proof (actives_nonneg KCreature j a). pose proof (actives_nonneg KGameObject j a). pose proof (actives_nonneg KPool j a).
    destruct k; [apply H; lia..|done].
  - intros Hall. rewrite !(proj2 (H _)) by (intros x Hx; by apply Hall). done.
Qed.

(** *** Activating and removing *)

Lemma in_pools j x : kid j x -> 0 <= j <= max_pool_id t.
Proof.
  unfold kid, members, znth. destruct (j <? 0) eqn:E; [intros H; by apply not_elem_of_nil in H|].
  destruct (groups t KPool !! Z.to_nat j) as [g|] eqn:Eg; [|intros H; by apply not_elem_of_nil in H]. intros _. apply lookup_lt_Some in Eg.
  pose proof (wf_groups Hwf KPool) as H. unfold zlen in H. apply Z.ltb_ge in E. lia.
Qed.

Lemma kid_not_self i x : kid i x -> x <> i.
Proof. intros H%(wf_rank Hwf) ->. lia. Qed.

Lemma kids_not_above c i : kid i c -> ~ below c i.
Proof.
  intros H%(wf_rank Hwf) Hb. assert (rank i <= rank c)%nat; [|lia]. clear H. induction Hb as [|x y z Hxy _ IH]; [done|].
  apply (wf_rank Hwf) in Hxy. lia.
Qed.

Lemma siblings_apart i c y : kid i c -> kid i y -> y <> c -> ~ below c y.
Proof.
  intros Hc Hy Hne Hb. apply rtc_inv_r in Hb as [E|(z & Hz & Hzy)]; [congruence|].
  assert (z = i) as -> by by apply (wf_unique Hwf KPool z i y). by apply (kids_not_above c i).
Qed.

Lemma IsActive_pool x a : IsActiveObject KPool x a = true <-> is_Some (mSpawnedPools a !! x).
Proof. apply bool_decide_eq_true. Qed.

(** The entry of the pool itself is no news to anybody. *)
Lemma self_entry i a (m : gmap Z Z) j y :
  placed i a -> (forall z, z <> i -> m !! z = mSpawnedPools a !! z) -> is_Some (m !! i) -> y ∈ members KPool j ->
  bool_decide (is_Some (m !! y)) = bool_decide (is_Some (mSpawnedPools a !! y)).
Proof.
  intros Hp Hm Hi Hy. destruct (decide (y = i)) as [->|Hne]; [|by rewrite Hm]. destruct Hp as [Hp|Hp]; [|by destruct (Hp j)].
  by rewrite !bool_decide_eq_true_2.
Qed.

Lemma ActivateObject_flips k x i a :
  k <> KQuest -> x ∈ members k i -> x <> i \/ k <> KPool -> placed i a -> flips k x true a (ActivateObject k x i a).
Proof.
  intros Hk Hx Hxi Hp k' j y Hk' Hy. destruct k' as [| | |]; [| | |done].
  - destruct k; cbn; try (by rewrite (bool_decide_false (_ /\ _)) by (by intros [])). destruct (decide (y = x)) as [->|Hyx].
    + rewrite (bool_decide_true (_ /\ _)) by done. apply bool_decide_eq_true. set_solver.
    + rewrite (bool_decide_false (_ /\ _)) by (by intros []). apply bool_decide_ext. set_solver.
  - destruct k; cbn; try (by rewrite (bool_decide_false (_ /\ _)) by (by intros [])). destruct (decide (y = x)) as [->|Hyx].
    + rewrite (bool_decide_true (_ /\ _)) by done. apply bool_decide_eq_true. set_solver.
    + rewrite (bool_decide_false (_ /\ _)) by (by intros []). apply bool_decide_ext. set_solver.
  - unfold ActivateObject, count_up. destruct k; unfold IsActiveObject; cbn [set_pools mSpawnedPools]; try done.
    + rewrite (bool_decide_false (_ /\ _)) by (by intros []). apply (self_entry i a _ j y Hp); [intros z Hz; by rewrite lookup_insert_ne|rewrite lookup_insert_eq; eauto|done].
    + rewrite (bool_decide_false (_ /\ _)) by (by intros []). apply (self_entry i a _ j y Hp); [intros z Hz; by rewrite lookup_insert_ne|rewrite lookup_insert_eq; eauto|done].
    + destruct Hxi as [Hxi|]; [|done]. cbn. destruct (decide (y = x)) as [->|Hyx].
      * rewrite (bool_decide_true (_ /\ _)) by done. apply bool_decide_eq_true_2. rewrite lookup_insert_ne, lookup_insert_eq by done. eauto.
      * rewrite (bool_decide_false (_ /\ _)) by (by intros []). destruct (decide (y = i)) as [->|Hyi].
        -- rewrite lookup_insert_eq. destruct Hp as [Hp|Hp]; [|by destruct (Hp j)]. by rewrite !bool_decide_eq_true_2 by eauto.
        -- by rewrite !lookup_insert_ne by done.
Qed.

Lemma RemoveObject_flips k x i a :
  k <> KQuest -> x ∈ members k i -> x <> i \/ k <> KPool -> placed i a -> flips k x false a (RemoveObject k x i a).
Proof.
  intros Hk Hx Hxi Hp k' j y Hk' Hy. destruct k' as [| | |]; [| | |done].
  - destruct k; cbn; try (by rewrite (bool_decide_false (_ /\ _)) by (by intros [])). destruct (decide (y = x)) as [->|Hyx].
    + rewrite (bool_decide_true (_ /\ _)) by done. apply bool_decide_eq_false. set_solver.
    + rewrite (bool_decide_false (_ /\ _)) by (by intros []). apply bool_decide_ext. set_solver.
  - destruct k; cbn; try (by rewrite (bool_decide_false (_ /\ _)) by (by intros [])). destruct (decide (y = x)) as [->|Hyx].
    + rewrite (bool_decide_true (_ /\ _)) by done. apply bool_decide_eq_false. set_solver.
    + rewrite (bool_decide_false (_ /\ _)) by (by intros []). apply bool_decide_ext. set_solver.
  - unfold RemoveObject, count_down. destruct k; unfold IsActiveObject; cbn [set_pools mSpawnedPools]; try done.
    + rewrite (bool_decide_false (_ /\ _)) by (by intros []). apply (self_entry i a _ j y Hp); [intros z Hz; by rewrite lookup_insert_ne|rewrite lookup_insert_eq; eauto|done].
    + rewrite (bool_decide_false (_ /\ _)) by (by intros []). apply (self_entry i a _ j y Hp); [intros z Hz; by rewrite lookup_insert_ne|rewrite lookup_insert_eq; eauto|done].
    + destruct Hxi as [Hxi|]; [|done]. cbn. destruct (decide (y = x)) as [->|Hyx].
      * rewrite (bool_decide_true (_ /\ _)) by done. apply bool_decide_eq_false. rewrite lookup_insert_ne, lookup_delete_eq by done. by intros [].
      * rewrite (bool_decide_false (_ /\ _)) by (by intros []). destruct (decide (y = i)) as [->|Hyi].
        -- rewrite lookup_insert_eq. destruct Hp as [Hp|Hp]; [|by destruct (Hp j)]. by rewrite !bool_decide_eq_true_2 by eauto.
        -- by rewrite lookup_insert_ne, lookup_delete_ne by done.
Qed.

(** Entries of other pools, and creatures and game objects of other pools, stay. *)
Record within (i : Z) (a a' : ActivePoolData) : Prop := {
  wi_entry : forall j, ~ below i j -> mSpawnedPools a' !! j = mSpawnedPools a !! j;
  wi_self : is_Some (mSpawnedPools a !! i) -> is_Some (mSpawnedPools a' !! i);
  wi_spawns : forall k x, k = KCreature \/ k = KGameObject -> (forall j, below i j -> ~ x ∈ members k j) -> IsActiveObject k x a' = IsActiveObject k x a
}.

#[export] Instance within_refl i : Reflexive (within i).
Proof. intros a. by split. Qed.

#[export] Instance within_trans i : Transitive (within i).
Proof.
  intros a b c [A1 A2 A3] [B1 B2 B3]. split.
  - intros j H. by rewrite B1, A1.
  - auto.
  - intros k x Hk H. by rewrite B3, A3.
Qed.

Lemma within_kid i c a a' : kid i c -> within c a a' -> within i a a'.
Proof.
  intros Hc [A1 A2 A3]. split.
  - intros j H. apply A1. intros Hb. apply H. by apply (rtc_l _ _ c).
  - intros H. rewrite A1; [done|]. by apply kids_not_above.
  - intros k x Hk H. apply A3; [done|]. intros j Hj. apply H. by apply (rtc_l _ _ c).
Qed.

Lemma placed_within i a a' : placed i a -> within i a a' -> placed i a'.
Proof. intros [H|H] Hw; [left; by apply (wi_self _ _ _ Hw)|by right]. Qed.

Lemma below_self i : below i i.
Proof. apply rtc_refl. Qed.

Lemma Activate_entry k x i a j : j <> i -> j <> x \/ k <> KPool -> mSpawnedPools (ActivateObject k x i a) !! j = mSpawnedPools a !! j.
Proof.
  intros Hi Hx. unfold ActivateObject, count_up. cbn [set_pools mSpawnedPools]. rewrite lookup_insert_ne by done.
  destruct k; cbn; try done. destruct Hx; [by rewrite lookup_insert_ne|done].
Qed.

Lemma Remove_entry k x i a j : j <> i -> j <> x \/ k <> KPool -> mSpawnedPools (RemoveObject k x i a) !! j = mSpawnedPools a !! j.
Proof.
  intros Hi Hx. unfold RemoveObject, count_down. cbn [set_pools mSpawnedPools]. rewrite lookup_insert_ne by done.
  destruct k; cbn; try done. destruct Hx; [by rewrite lookup_delete_ne|done].
Qed.

Lemma within_step k x i a a' :
  x ∈ members k i -> (forall j, j <> i -> j <> x \/ k <> KPool -> mSpawnedPools a' !! j = mSpawnedPools a !! j) -> is_Some (mSpawnedPools a' !! i) ->
  (forall k' y, k' = KCreature \/ k' = KGameObject -> k' <> k \/ y <> x -> IsActiveObject k' y a' = IsActiveObject k' y a) -> within i a a'.
Proof.
  intros Hx He Hi Ha. split.
  - intros j Hj. apply He; [intros ->; by apply Hj, below_self|]. destruct (decide (k = KPool)) as [->|]; [|by right]. left. intros ->.
    apply Hj. by apply rtc_once.
  - done.
  - intros k' y Hk' Hy. apply Ha; [done|]. destruct (decide (k' = k)) as [->|]; [|by left]. right. intros ->. by apply (Hy i (below_self i)).
Qed.

Lemma Activate_within k x i a : x ∈ members k i -> within i a (ActivateObject k x i a).
Proof.
  intros Hx. apply (within_step k x); [done|apply Activate_entry| |].
  - unfold ActivateObject, count_up. cbn. rewrite lookup_insert_eq. eauto.
  - intros k' y Hk' Hne. destruct Hk' as [-> | ->], k; cbn; try done; apply bool_decide_ext; rewrite elem_of_union, elem_of_singleton; naive_solver.
Qed.

Lemma Remove_within k x i a : x ∈ members k i -> within i a (RemoveObject k x i a).
Proof.
  intros Hx. apply (within_step k x); [done|apply Remove_entry| |].
  - unfold RemoveObject, count_down. cbn. rewrite lookup_insert_eq. eauto.
  - intros k' y Hk' Hne. destruct Hk' as [-> | ->], k; cbn; try done; apply bool_decide_ext; rewrite elem_of_difference, elem_of_singleton; naive_solver.
Qed.

Lemma count_entry j a a' : mSpawnedPools a' !! j = mSpawnedPools a !! j -> GetActiveObjectCount j a' = GetActiveObjectCount j a.
Proof. unfold GetActiveObjectCount. by intros ->. Qed.

Lemma quest_free_total i : members KQuest i <> [] -> forall a, total i a = 0.
Proof. intros Hq a. apply pool_total_zero. intros k x Hk Hx. rewrite (wf_quests Hwf k i Hq Hk) in Hx. by apply not_elem_of_nil in Hx. Qed.

Lemma exact_inactive x a : exact a -> IsActiveObject KPool x a = false -> total x a = 0.
Proof.
  intros He Hx. destruct (decide (members KQuest x = [])) as [Hq|Hq]; [|by apply quest_free_total]. rewrite <- He by done.
  unfold GetActiveObjectCount. apply bool_decide_eq_false in Hx. by destruct (mSpawnedPools a !! x) as [v|]; [destruct Hx; eauto|].
Qed.

Lemma exact_Activate k x i a :
  k <> KQuest -> x ∈ members k i -> IsActiveObject k x a = false -> placed i a -> exact a -> total i a < 2 ^ 31 ->
  exact (ActivateObject k x i a) /\ forall j, total j (ActivateObject k x i a) = total j a + (if j =? i then 1 else 0).
Proof.
  intros Hk Hx Hf Hp He Hlt. assert (x <> i \/ k <> KPool) as Hxi.
  { destruct (decide (k = KPool)) as [->|]; [left; by apply (kid_not_self i)|by right]. }
  pose proof (ActivateObject_flips k x i a Hk Hx Hxi Hp) as Hfl. pose proof (flips_total k x i a _ Hk Hx Hf Hfl) as Ht. split; [|exact Ht].
  intros j Hq. rewrite Ht. destruct (Z.eqb_spec j i) as [->|Hne].
  - rewrite <- (He i Hq). unfold ActivateObject, count_up. unfold GetActiveObjectCount at 1. cbn. rewrite lookup_insert_eq. cbn.
    assert (forall a', mSpawnedPools a' !! i = mSpawnedPools a !! i -> GetActiveObjectCount i a' = GetActiveObjectCount i a) as Hc by (intros; by apply count_entry).
    rewrite Hc; [apply wrap_small; rewrite (He i Hq); pose proof (pool_total_nonneg i a); lia|]. destruct k; cbn; try done. destruct Hxi; [|done]. by rewrite lookup_insert_ne.
  - rewrite Z.add_0_r. destruct (decide (j = x /\ k = KPool)) as [[-> ->]|Hjx].
    + rewrite (exact_inactive x a He Hf). unfold GetActiveObjectCount, ActivateObject, count_up. cbn. by rewrite lookup_insert_ne, lookup_insert_eq.
    + rewrite <- (He j Hq). apply count_entry, Activate_entry; [done|]. destruct (decide (j = x)); [|by left]. right. tauto.
Qed.

Lemma exact_Remove k x i a :
  k <> KQuest -> x ∈ members k i -> IsActiveObject k x a = true -> placed i a -> exact a -> (k = KPool -> total x a = 0) ->
  exact (RemoveObject k x i a) /\ forall j, total j (RemoveObject k x i a) = total j a - (if j =? i then 1 else 0).
Proof.
  intros Hk Hx Hf Hp He H0. assert (x <> i \/ k <> KPool) as Hxi.
  { destruct (decide (k = KPool)) as [->|]; [left; by apply (kid_not_self i)|by right]. }
  pose proof (RemoveObject_flips k x i a Hk Hx Hxi Hp) as Hfl.
  assert (IsActiveObject k x (RemoveObject k x i a) = false) as Hf' by (rewrite (Hfl k i x) by done; by rewrite bool_decide_true).
  pose proof (flips_total k x i _ a Hk Hx Hf' (flips_sym k x false a _ Hf Hfl)) as Ht.
  assert (forall j, total j (RemoveObject k x i a) = total j a - (if j =? i then 1 else 0)) as Ht' by (intros j; specialize (Ht j); lia). split; [|exact Ht'].
  intros j Hq. rewrite Ht'. destruct (Z.eqb_spec j i) as [->|Hne].
  - rewrite <- (He i Hq). unfold RemoveObject, count_down. unfold GetActiveObjectCount at 1. cbn. rewrite lookup_insert_eq. cbn.
    assert (forall a', mSpawnedPools a' !! i = mSpawnedPools a !! i -> GetActiveObjectCount i a' = GetActiveObjectCount i a) as Hc by (intros; by apply count_entry).
    rewrite Hc; [|destruct k; cbn; try done; destruct Hxi; [|done]; by rewrite lookup_delete_ne].
    specialize (Ht i). rewrite Z.eqb_refl in Ht. pose proof (pool_total_nonneg i (RemoveObject k x i a)). rewrite (He i Hq). destruct (Z.ltb_spec 0 (total i a)); lia.
  - rewrite Z.sub_0_r. destruct (decide (j = x /\ k = KPool)) as [[-> ->]|Hjx].
    + rewrite H0 by done. unfold GetActiveObjectCount, RemoveObject, count_down. cbn. by rewrite lookup_insert_ne, lookup_delete_eq.
    + rewrite <- (He j Hq). apply count_entry, Remove_entry; [done|]. destruct (decide (j = x)); [|by left]. right. tauto.
Qed.

(** *** Quests *)

(** The counter of a pool with quests changes, and the quests. *)
Record quest_step (i : Z) (a a' : ActivePoolData) : Prop := {
  qs_creatures : mSpawnedCreatures a' = mSpawnedCreatures a;
  qs_gos : mSpawnedGameobjects a' = mSpawnedGameobjects a;
  qs_other : forall j, j <> i -> mSpawnedPools a' !! j = mSpawnedPools a !! j;
  qs_self : mSpawnedPools a' !! i = mSpawnedPools a !! i \/ is_Some (mSpawnedPools a' !! i)
}.

#[export] Instance quest_step_refl i : Reflexive (quest_step i).
Proof. intros a. split; auto. Qed.

#[export] Instance quest_step_trans i : Transitive (quest_step i).
Proof.
  intros a b c [A1 A2 A3 A4] [B1 B2 B3 B4]. split; [congruence|congruence|intros j Hj; by rewrite B3, A3|]. destruct B4 as [->|]; auto.
Qed.

Lemma quest_step_ok i a a' :
  members KQuest i <> [] -> placed i a -> exact a -> quest_step i a a' -> exact a' /\ (forall j, total j a' = total j a) /\ within i a a'.
Proof.
  intros Hq Hp He [Q1 Q2 Q3 Q4]. assert (forall j, total j a' = total j a) as Ht.
  { intros j. apply total_same. intros k y Hk Hy. destruct k; cbn; rewrite ?Q1, ?Q2; try done. destruct (decide (y = i)) as [->|Hne]; [|by rewrite Q3].
    destruct Hp as [Hp|Hp]; [|by destruct (Hp j)]. rewrite !bool_decide_eq_true_2; [done|done|]. by destruct Q4 as [->|]. }
  split_and!; [|exact Ht|].
  - intros j Hj. rewrite Ht, <- He by done. apply count_entry, Q3. by intros ->.
  - split.
    + intros j Hj. apply Q3. intros ->. by apply Hj, below_self.
    + intros H. by destruct Q4 as [->|].
    + intros k x [-> | ->] _; cbn; by rewrite ?Q1, ?Q2.
Qed.

Lemma quest_up i q a : quest_step i a (ActivateObject KQuest q i a).
Proof.
  split; [done|done| |].
  - intros j Hj. by apply Activate_entry; [|right].
  - right. unfold ActivateObject, count_up. cbn. rewrite lookup_insert_eq. eauto.
Qed.

Lemma quest_down i q a : quest_step i a (RemoveObject KQuest q i a).
Proof.
  split; [done|done| |].
  - intros j Hj. by apply Remove_entry; [|right].
  - right. unfold RemoveObject, count_down. cbn. rewrite lookup_insert_eq. eauto.
Qed.

(** The rolls are in range. *)
Definition fair : Prop := forall n k, 0 < k -> 0 <= pick e n k < k.

Context (Hfair : fair).

Lemma znth_in {A} (l : list A) i : 0 <= i < zlen l -> exists x, znth l i = Some x /\ x ∈ l.
Proof.
  intros Hi. unfold znth. destruct (Z.ltb_spec i 0); [lia|]. destruct (lookup_lt_is_Some_2 l (Z.to_nat i)) as [x Hx]; [unfold zlen in Hi; lia|].
  exists x. split; [done|]. by apply list_elem_of_lookup_2 in Hx.
Qed.

Lemma select_runs (c : gset Z) s (Q : Z -> Server -> Prop) :
  c <> ∅ -> (forall q s', q ∈ c -> mSpawnedData s' = mSpawnedData s -> pool_quest_save s' = pool_quest_save s -> Q q s') ->
  runs (SelectRandomContainerElement e c) s Q.
Proof.
  intros Hc HQ. unfold SelectRandomContainerElement, draw. set (l := merge_sort Z.le (elements c)).
  assert (forall q, q ∈ l <-> q ∈ c) as Hl by (intros q; unfold l; by rewrite merge_sort_Permutation, elem_of_elements).
  assert (0 < zlen l) as Hlen.
  { unfold zlen. destruct l as [|x l'] eqn:E; [|cbn; lia]. destruct Hc. apply set_eq. intros q. rewrite <- Hl. split; [by intros ?%not_elem_of_nil|set_solver]. }
  destruct (znth_in l (pick e (turn s) (zlen l)) (Hfair _ _ Hlen)) as (q & Hq & Hin).
  do 2 apply runs_bind. apply runs_get, runs_bind, runs_modify, runs_ret. rewrite Hq. apply runs_ret, HQ; [by apply Hl|done|done].
Qed.

Definition qruns {A} (i : Z) (m : T A) : Prop := forall s, runs m s (fun _ s' => quest_step i (mSpawnedData s) (mSpawnedData s')).

Lemma qruns_ret {A} i (x : A) : qruns i (mret x).
Proof. intros s. by apply runs_ret. Qed.

Lemma qruns_bind {A B} i (m : T A) (f : A -> T B) : qruns i m -> (forall x, qruns i (f x)) -> qruns i (m ≫= f).
Proof.
  intros Hm Hf s. apply runs_bind, (runs_mono _ _ _ _ (Hm s)). intros x s1 H1. apply (runs_mono _ _ _ _ (Hf x s1)). intros _ s2 H2. by etransitivity.
Qed.

Lemma qruns_get {A} i (f : Server -> T A) : (forall s0, qruns i (f s0)) -> qruns i (s0 ← get; f s0).
Proof. intros H s. apply runs_bind, runs_get, H. Qed.

Lemma qruns_quiet i (f : Server -> Server) : (forall s, mSpawnedData (f s) = mSpawnedData s) -> qruns i (modify f).
Proof. intros H s. apply runs_modify. by rewrite H. Qed.

Lemma qruns_up i q : qruns i (on_active (ActivateObject KQuest q i)).
Proof. intros s. apply runs_modify, quest_up. Qed.

Lemma qruns_mapM {A} i (f : A -> T unit) l : (forall x, qruns i (f x)) -> qruns i (mapM_ f l).
Proof. intros Hf. induction l as [|x l IH]; [apply qruns_ret|]. apply qruns_bind; [done|]. by intros _. Qed.

Lemma qruns_DespawnObject i recD only g : poolId g = i -> qruns i (DespawnObject e t recD KQuest g only).
Proof.
  intros Hg. assert (forall o, qruns i (despawn_one e t recD KQuest g only o)) as H.
  { intros o. apply qruns_get. intros s0. destruct (_ && _); [|apply qruns_ret]. apply qruns_bind; [by apply qruns_quiet|]. intros _ s. apply runs_modify.
    rewrite Hg. apply quest_down. }
  apply qruns_bind; [by apply qruns_mapM|]. intros _. by apply qruns_mapM.
Qed.

Lemma qruns_load i l limit : qruns i (load_quests t i l limit).
Proof.
  revert limit. induction l as [|q l IH]; intros limit; cbn [load_quests]; [apply qruns_ret|]. apply qruns_bind; [apply qruns_up|]. intros _.
  apply qruns_bind; [by apply qruns_quiet|]. intros _. destruct (_ =? 0); [apply qruns_ret|apply IH].
Qed.

Lemma qruns_activate i n limit new : new <> ∅ -> qruns i (activate_quests e t n i limit new).
Proof.
  revert limit new. induction n as [|n IH]; intros limit new Hn s; cbn [activate_quests]; [by apply runs_ret|].
  apply runs_bind, select_runs; [done|]. intros q s1 _ E _. rewrite <- E. clear E s. revert s1. apply qruns_bind; [apply qruns_up|]. intros _.
  apply qruns_bind; [by apply qruns_quiet|]. intros _. destruct (negb _ && _) eqn:Ec; [|apply qruns_ret]. apply IH.
  apply andb_prop in Ec as [_ Ec]. by apply negb_true_iff, bool_decide_eq_false in Ec.
Qed.

Lemma qruns_recycle i n limit current new : current <> ∅ -> qruns i (recycle e n limit current new).
Proof.
  revert current new. induction n as [|n IH]; intros current new Hn s; cbn [recycle]; [by apply runs_ret|].
  apply runs_bind, select_runs; [done|]. intros q s1 _ E _. rewrite <- E. destruct (_ && _) eqn:Ec; [|by apply runs_ret]. apply IH.
  apply andb_prop in Ec as [_ Ec]. by apply negb_true_iff, bool_decide_eq_false in Ec.
Qed.

Lemma qruns_spawn_quests i recD g limit trig : poolId g = i -> qruns i (spawn_quests e t recD g limit trig).
Proof.
  intros Hg. apply qruns_get. intros s0. set (saved := merge_sort _ _).
  assert (qruns i (
    let current := mActiveQuests (mSpawnedData s0) in
    let new : gset Z := list_to_set (filter (fun q => IsActiveObject KQuest q (mSpawnedData s0) = false) (map guid (EqualChanced g))) in
    DespawnObject e t recD KQuest g 0 ;;
    new ← (if (Z.of_nat (size new) <? limit) && negb (bool_decide (current = ∅)) then recycle e (size current) limit current new else mret new);
    if bool_decide (new = ∅) then mret tt
    else activate_quests e t (size new) (poolId g) limit new ;; if trig =? 0 then SaveQuestsToDB t else mret tt)) as H.
  { cbn zeta. apply qruns_bind; [by apply qruns_DespawnObject|]. intros _. apply qruns_bind.
    - destruct (_ && _) eqn:Ec; [|apply qruns_ret]. apply qruns_recycle. apply andb_prop in Ec as [_ Ec]. by apply negb_true_iff, bool_decide_eq_false in Ec.
    - intros new. destruct (bool_decide (new = ∅)) eqn:En; [apply qruns_ret|]. apply bool_decide_eq_false in En. rewrite Hg.
      apply qruns_bind; [by apply qruns_activate|]. intros _. destruct (trig =? 0); [by apply qruns_quiet|apply qruns_ret]. }
  destruct (trig =? 0), saved; try exact H. rewrite Hg. apply qruns_load.
Qed.

(** ** Despawning *)

Definition fewer (a a' : ActivePoolData) : Prop := forall j, total j a' <= total j a.

(** The members of [i] that [f] selects are inactive, the others as before. *)
Definition cleared (i : Z) (f : Kind -> Z -> bool) (a a' : ActivePoolData) : Prop :=
  forall k x, k <> KQuest -> x ∈ members k i -> IsActiveObject k x a' = IsActiveObject k x a && negb (f k x).

Record despawned (i : Z) (f : Kind -> Z -> bool) (a a' : ActivePoolData) : Prop := {
  ds_exact : exact a';
  ds_within : within i a a';
  ds_fewer : fewer a a';
  ds_cleared : cleared i f a a'
}.

Lemma despawned_refl i f a : exact a -> (forall k x, k <> KQuest -> x ∈ members k i -> IsActiveObject k x a = true -> f k x = false) -> despawned i f a a.
Proof.
  intros He Hf. split; [done|done|intros j; lia|]. intros k x Hk Hx. destruct (IsActiveObject k x a) eqn:E; [|done]. by rewrite Hf.
Qed.

Lemma despawned_trans i f g a b c : despawned i f a b -> despawned i g b c -> despawned i (fun k x => f k x || g k x) a c.
Proof.
  intros [A1 A2 A3 A4] [B1 B2 B3 B4]. split; [done|by etransitivity|intros j; specialize (A3 j); specialize (B3 j); lia|].
  intros k x Hk Hx. rewrite (B4 k x), (A4 k x) by done. rewrite negb_orb. by rewrite andb_assoc.
Qed.

Lemma despawned_ext i f g a a' : (forall k x, k <> KQuest -> x ∈ members k i -> f k x = g k x) -> despawned i f a a' -> despawned i g a a'.
Proof. intros Hfg [A1 A2 A3 A4]. split; [done..|]. intros k x Hk Hx. rewrite (A4 k x), Hfg; done. Qed.

Definition all_of (k : Kind) (x : Z) : bool := true.

Definition despawns (rec : Z -> T unit) (i : Z) : Prop :=
  forall s, exact (mSpawnedData s) -> placed i (mSpawnedData s) -> runs (rec i) s (fun _ s' => despawned i all_of (mSpawnedData s) (mSpawnedData s')).

Lemma total_entry j a a' : exact a -> exact a' -> mSpawnedPools a' !! j = mSpawnedPools a !! j -> total j a' = total j a.
Proof.
  intros H H' E. destruct (decide (members KQuest j = [])) as [Hq|Hq]; [|by rewrite !quest_free_total]. rewrite <- H, <- H' by done. by apply count_entry.
Qed.

(** What happens below a pool of [i] leaves the members of [i] alone. *)
Lemma kid_members i c a a' k x :
  kid i c -> within c a a' -> k <> KQuest -> x ∈ members k i -> k <> KPool \/ x <> c -> IsActiveObject k x a' = IsActiveObject k x a.
Proof.
  intros Hc Hw Hk Hx Hne.
  assert (forall j, k <> KPool -> below c j -> ~ x ∈ members k j) as Hno.
  { intros j _ Hj Hxj. assert (j = i) as -> by by apply (wf_unique Hwf k j i x). by apply (kids_not_above c i). }
  destruct k as [| | |]; [apply (wi_spawns _ _ _ Hw); [auto|intros j; by apply Hno]|apply (wi_spawns _ _ _ Hw); [auto|intros j; by apply Hno]| |done].
  cbn. rewrite (wi_entry _ _ _ Hw); [done|]. destruct Hne as [|Hne]; [done|]. by apply (siblings_apart i).
Qed.

Section Despawning.
Context (rec : Z -> T unit) (i : Z) (Hrec : forall c, kid i c -> despawns rec c).

Lemma Despawn1Object_ok k x s :
  k <> KQuest -> x ∈ members k i -> IsActiveObject k x (mSpawnedData s) = true -> exact (mSpawnedData s) ->
  runs (Despawn1Object e t rec k x) s (fun _ s' => despawned i (fun _ _ => false) (mSpawnedData s) (mSpawnedData s') /\
    (k = KPool -> total x (mSpawnedData s') = 0)).
Proof.
  intros Hk Hx Ha He. assert (despawned i (fun _ _ => false) (mSpawnedData s) (mSpawnedData s)) as Hrefl by by apply despawned_refl.
  destruct k; cbn; [destruct (has_data _ _ _); [by apply runs_modify|by apply runs_ret]|destruct (has_data _ _ _); [by apply runs_modify|by apply runs_ret]| |done].
  apply IsActive_pool in Ha. eapply runs_mono; [apply (Hrec x Hx); [done|by left]|]. intros _ s' [D1 D2 D3 D4]. split.
  - split; [done|by apply (within_kid i x)|done|]. intros k y Hk' Hy. rewrite andb_true_r. destruct (decide (k = KPool /\ y = x)) as [[-> ->]|Hne].
    + rewrite !(proj2 (IsActive_pool _ _)); [done|done|]. by apply (wi_self _ _ _ D2).
    + apply (kid_members i x); [done|done|done|done|]. destruct (decide (k = KPool)); [|by left]. right. tauto.
  - intros _. apply pool_total_zero. intros k y Hk' Hy. rewrite (D4 k y) by done. apply andb_false_r.
Qed.

Lemma despawn_one_ok k g only o s :
  k <> KQuest -> poolId g = i -> guid o ∈ members k i -> exact (mSpawnedData s) -> placed i (mSpawnedData s) ->
  runs (despawn_one e t rec k g only o) s (fun _ s' =>
    despawned i (fun k' x => bool_decide (k' = k) && (x =? guid o) && ((only =? 0) || (x =? only))) (mSpawnedData s) (mSpawnedData s')).
Proof.
  intros Hk Hg Ho He Hp. unfold despawn_one. apply runs_bind, runs_get. destruct (IsActiveObject k (guid o) (mSpawnedData s) && _) eqn:E.
  2: { apply runs_ret, despawned_refl; [done|]. intros k' x Hk' Hx Ha. case_bool_decide as Ek; [subst k'|done]. cbn. destruct (Z.eqb_spec x (guid o)) as [->|]; [|done].
       rewrite Ha in E. exact E. }
  apply andb_prop in E as [Ea Em]. eapply runs_bind, runs_mono; [by apply Despawn1Object_ok|]. intros _ s1 [D Dz]. apply runs_modify. cbn [set_active mSpawnedData].
  rewrite Hg. set (a := mSpawnedData s) in *. set (a1 := mSpawnedData s1) in *. pose proof D as [D1 D2 D3 D4].
  pose proof (placed_within _ _ _ Hp D2) as Hp1. assert (IsActiveObject k (guid o) a1 = true) as Ha1 by (rewrite (D4 k) by done; by rewrite Ea).
  assert (guid o <> i \/ k <> KPool) as Hoi by (destruct (decide (k = KPool)) as [->|]; [left; by apply (kid_not_self i)|by right]).
  destruct (exact_Remove k (guid o) i a1 Hk Ho Ha1 Hp1 D1 Dz) as [R1 R2]. split; [done| | |].
  - etransitivity; [exact D2|by apply Remove_within].
  - intros j. specialize (D3 j). rewrite R2. destruct (j =? i); lia.
  - intros k' x Hk' Hx. rewrite (RemoveObject_flips k (guid o) i a1 Hk Ho Hoi Hp1 k' i x Hk' Hx), (D4 k' x) by done. rewrite andb_true_r.
    destruct (decide (k' = k /\ x = guid o)) as [[-> ->]|Hne].
    + rewrite !bool_decide_eq_true_2, Z.eqb_refl by done. cbn [andb]. by rewrite Em, andb_false_r.
    + rewrite bool_decide_false by done. case_bool_decide; cbn [andb]; [|by rewrite andb_true_r]. destruct (Z.eqb_spec x (guid o)); [tauto|]. by rewrite andb_true_r.
Qed.

Lemma despawn_list_ok k g only l s :
  k <> KQuest -> poolId g = i -> (forall o, o ∈ l -> guid o ∈ members k i) -> exact (mSpawnedData s) -> placed i (mSpawnedData s) ->
  runs (mapM_ (despawn_one e t rec k g only) l) s (fun _ s' =>
    despawned i (fun k' x => bool_decide (k' = k) && bool_decide (x ∈ map guid l) && ((only =? 0) || (x =? only))) (mSpawnedData s) (mSpawnedData s')).
Proof.
  intros Hk Hg. revert s. induction l as [|o l IH]; intros s Hl He Hp; cbn [mapM_].
  { apply runs_ret, despawned_refl; [done|]. intros k' x _ _ _. cbn [map]. rewrite (bool_decide_false (x ∈ [])) by apply not_elem_of_nil. by rewrite andb_false_r. }
  eapply runs_bind, runs_mono; [apply despawn_one_ok; try done; apply Hl; constructor|]. intros [] s1 D1.
  eapply runs_mono; [apply IH|].
  - intros o' Ho'. apply Hl. by constructor.
  - by destruct D1.
  - apply (placed_within _ _ _ Hp). by destruct D1.
  - intros [] s2 D2. eapply despawned_ext; [|exact (despawned_trans _ _ _ _ _ _ D1 D2)]. intros k' x _ _. cbn beta. cbn [map]. case_bool_decide; cbn [andb orb]; [|done]. rewrite <- andb_orb_distrib_l. f_equal.
    rewrite (bool_decide_ext (x ∈ guid o :: map guid l) (x = guid o \/ x ∈ map guid l)) by apply elem_of_cons.
    rewrite bool_decide_or. f_equal. destruct (Z.eqb_spec x (guid o)); [by rewrite bool_decide_true|by rewrite bool_decide_false].
Qed.

Lemma group_members k g : znth (groups t k) i = Some g -> members k i = map guid (EqualChanced g) ++ map guid (ExplicitlyChanced g).
Proof. intros E. unfold members. by rewrite E, map_app. Qed.

Lemma DespawnObject_ok k g only s :
  k <> KQuest -> znth (groups t k) i = Some g -> poolId g = i -> exact (mSpawnedData s) -> placed i (mSpawnedData s) ->
  runs (DespawnObject e t rec k g only) s (fun _ s' =>
    despawned i (fun k' x => bool_decide (k' = k) && ((only =? 0) || (x =? only))) (mSpawnedData s) (mSpawnedData s')).
Proof.
  intros Hk Hg Hi He Hp. pose proof (group_members k g Hg) as Em. unfold DespawnObject.
  eapply runs_bind, runs_mono; [apply despawn_list_ok; try done|].
  { intros o Ho. rewrite Em. apply elem_of_app. left. by apply list_elem_of_fmap_2. }
  intros [] s1 D1. eapply runs_mono; [apply despawn_list_ok; try done|].
  - intros o Ho. rewrite Em. apply elem_of_app. right. by apply list_elem_of_fmap_2.
  - by destruct D1.
  - apply (placed_within _ _ _ Hp). by destruct D1.
  - intros [] s2 D2. eapply despawned_ext; [|exact (despawned_trans _ _ _ _ _ _ D1 D2)]. intros k' x Hk' Hx. cbn beta. case_bool_decide as Ek; cbn [andb orb]; [|done]. rewrite Ek, Em, elem_of_app in Hx.
    destruct Hx; [rewrite (bool_decide_true (_ ∈ map guid (EqualChanced g))) by done|rewrite (bool_decide_true (_ ∈ map guid (ExplicitlyChanced g))) by done];
      cbn [andb]; destruct ((only =? 0) || (x =? only)); rewrite ?andb_false_r, ?andb_true_r, ?orb_true_r; done.
Qed.

End Despawning.

Definition pool (i : Z) : Prop := 0 <= i <= max_pool_id t.

Lemma group_runs k i s (Q : PoolGroup -> Server -> Prop) :
  pool i -> (forall g, znth (groups t k) i = Some g -> Q g s) -> runs (group_at t k i) s Q.
Proof.
  intros Hi HQ. unfold group_at. destruct (znth_in (groups t k) i) as (g & Hg & _); [rewrite (wf_groups Hwf); unfold pool in Hi; lia|].
  rewrite Hg. by apply runs_ret, HQ.
Qed.

Lemma limit_runs i s (Q : Z -> Server -> Prop) : pool i -> (forall l, znth (mPoolTemplate t) i = Some l -> Q l s) -> runs (limit_at t i) s Q.
Proof.
  intros Hi HQ. unfold limit_at. destruct (znth_in (mPoolTemplate t) i) as (g & Hg & _); [rewrite (wf_templates Hwf); unfold pool in Hi; lia|].
  rewrite Hg. by apply runs_ret, HQ.
Qed.

Lemma empty_members k i g : znth (groups t k) i = Some g -> isEmpty g = true -> members k i = [].
Proof. intros Hg He. unfold members. rewrite Hg. unfold isEmpty in He. destruct g as [p [|] [|]]; done. Qed.

Lemma nonempty_members k i g : znth (groups t k) i = Some g -> isEmpty g = false -> members k i <> [].
Proof. intros Hg He. unfold members. rewrite Hg. unfold isEmpty in He. destruct g as [p [|] [|]]; done. Qed.

Lemma kid_pool i c : kid i c -> pool c.
Proof. apply (wf_pools Hwf). Qed.

Lemma despawn_kind_ok rec i k s :
  (forall c, kid i c -> despawns rec c) -> pool i -> exact (mSpawnedData s) -> placed i (mSpawnedData s) ->
  runs (despawn_kind e t rec k i) s (fun _ s' => despawned i (fun k' _ => bool_decide (k' = k)) (mSpawnedData s) (mSpawnedData s')).
Proof.
  intros Hrec Hi He Hp. unfold despawn_kind. apply runs_bind, group_runs; [done|]. intros g Hg. destruct (isEmpty g) eqn:Eg.
  { apply runs_ret, despawned_refl; [done|]. intros k' x Hk' Hx _. case_bool_decide as Ek; [|done]. subst k'. rewrite (empty_members k i g) in Hx by done.
    by apply not_elem_of_nil in Hx. }
  pose proof (wf_id Hwf _ _ _ Hg Eg) as Ei. destruct (decide (k = KQuest)) as [->|Hk].
  - apply (runs_mono _ _ _ _ (qruns_DespawnObject i rec 0 g Ei s)). intros [] s' Hq.
    destruct (quest_step_ok i _ _ (nonempty_members _ _ _ Hg Eg) Hp He Hq) as (H1 & H2 & H3). split; [done|done|intros j; rewrite H2; lia|].
    intros k' x Hk' Hx. rewrite (wf_quests Hwf k' i (nonempty_members _ _ _ Hg Eg) Hk') in Hx. by apply not_elem_of_nil in Hx.
  - eapply runs_mono; [by apply (DespawnObject_ok rec i Hrec)|]. intros [] s' D. eapply despawned_ext; [|exact D]. intros k' x _ _. cbn. by rewrite andb_true_r.
Qed.

Lemma DespawnPool_ok d i : (rank i < d)%nat -> pool i -> despawns (DespawnPool e t d) i.
Proof.
  revert i. induction d as [|d IH]; intros i Hd Hi s He Hp; [lia|]. cbn [DespawnPool].
  assert (forall c, kid i c -> despawns (DespawnPool e t d) c) as Hrec.
  { intros c Hc. apply IH; [|by apply (kid_pool i)]. pose proof (wf_rank Hwf _ _ Hc). lia. }
  unfold DespawnPool_body. eapply runs_bind, runs_mono; [by apply (despawn_kind_ok _ i)|]. intros [] s1 D1.
  assert (placed i (mSpawnedData s1)) as Hp1 by (apply (placed_within _ _ _ Hp); by destruct D1).
  eapply runs_bind, runs_mono; [apply (despawn_kind_ok _ i); try done; by destruct D1|]. intros [] s2 D2.
  assert (placed i (mSpawnedData s2)) as Hp2 by (apply (placed_within _ _ _ Hp1); by destruct D2).
  eapply runs_bind, runs_mono; [apply (despawn_kind_ok _ i); try done; by destruct D2|]. intros [] s3 D3.
  assert (placed i (mSpawnedData s3)) as Hp3 by (apply (placed_within _ _ _ Hp2); by destruct D3).
  eapply runs_mono; [apply (despawn_kind_ok _ i); try done; by destruct D3|]. intros [] s4 D4.
  pose proof (despawned_trans _ _ _ _ _ _ (despawned_trans _ _ _ _ _ _ (despawned_trans _ _ _ _ _ _ D1 D2) D3) D4) as D.
  eapply despawned_ext; [|exact D]. intros k x Hk Hx. by destruct k.
Qed.

(** ** Spawning *)

Definition limit (i : Z) : Z := default 0 (znth (mPoolTemplate t) i).

Definition within_limits (i : Z) (a : ActivePoolData) : Prop := forall j, below i j -> total j a <= limit j.

Record spawned (i : Z) (a a' : ActivePoolData) : Prop := {
  sp_exact : exact a';
  sp_within : within i a a';
  sp_limits : within_limits i a'
}.

Definition spawns (rec : Z -> T unit) (i : Z) : Prop :=
  forall s, exact (mSpawnedData s) -> placed i (mSpawnedData s) -> within_limits i (mSpawnedData s) ->
    runs (rec i) s (fun _ s' => spawned i (mSpawnedData s) (mSpawnedData s')).

Lemma RollOne_ok k g trig s :
  runs (RollOne e k g trig) s (fun o s' => mSpawnedData s' = mSpawnedData s /\
    forall obj, o = Some obj -> guid obj ∈ map guid (EqualChanced g ++ ExplicitlyChanced g) /\
      (guid obj = trig \/ IsActiveObject k (guid obj) (mSpawnedData s) = false)).
Proof.
  unfold RollOne. apply runs_bind, runs_get. set (free := fun x => (x =? trig) || negb (IsActiveObject k x (mSpawnedData s))).
  assert (forall x, free x = true -> x = trig \/ IsActiveObject k x (mSpawnedData s) = false) as Hfree.
  { intros x H. apply orb_prop in H as [H%Z.eqb_eq|H%negb_true_iff]; auto. }
  assert (forall l roll obj, roll_explicit roll free l = Some obj -> obj ∈ l /\ free (guid obj) = true) as Hexp.
  { induction l as [|o l IH]; intros roll obj; cbn; [done|]. destruct (_ && free (guid o)) eqn:E.
    - intros [= <-]. apply andb_prop in E as [_ E]. split; [constructor|done].
    - intros H. destruct (IH _ _ H). split; [by constructor|done]. }
  apply runs_bind. apply (runs_mono _ _ (fun o s' => mSpawnedData s' = mSpawnedData s /\ forall obj, o = Some obj -> obj ∈ ExplicitlyChanced g /\ free (guid obj) = true)).
  { destruct (ExplicitlyChanced g) as [|o l]; [by apply runs_ret|]. unfold draw. repeat plain_step. split; [done|]. apply Hexp. }
  intros o s1 [E1 H1]. destruct o as [obj|].
  { apply runs_ret. split; [done|]. intros obj' [= <-]. destruct (H1 obj eq_refl) as [H2 H3]. split; [|auto]. apply list_elem_of_fmap_2, elem_of_app. by right. }
  destruct (EqualChanced g) as [|o l] eqn:El; [by apply runs_ret|]. unfold draw. repeat plain_step.
  destruct (znth_in (o :: l) (pick e (turn s1) (zlen (o :: l)))) as (obj & Hobj & Hin); [apply Hfair; unfold zlen; cbn; lia|].
  rewrite Hobj. repeat plain_step. split; [done|]. intros obj'. change (_ || _) with (free (guid obj)). destruct (free (guid obj)) eqn:Ef; [|done]. intros [= <-]. split; [|auto].
  apply list_elem_of_fmap_2, elem_of_app. by left.
Qed.

Lemma limit_range i l : znth (mPoolTemplate t) i = Some l -> limit i = l /\ 0 <= l < 2 ^ 31 - 1.
Proof. intros H. unfold limit. rewrite H. split; [done|by apply (wf_limit Hwf i)]. Qed.

(** A member becomes active. *)
Lemma total_activated k x i a a' :
  k <> KQuest -> x ∈ members k i -> IsActiveObject k x a = false -> IsActiveObject k x a' = true ->
  (forall k' y, k' <> KQuest -> y ∈ members k' i -> k' <> k \/ y <> x -> IsActiveObject k' y a' = IsActiveObject k' y a) -> total i a' = total i a + 1.
Proof.
  intros Hk Hx Hf Hf' Hrest. assert (actives k i a' = actives k i a + 1) as Hact.
  { apply (zlen_filter_flip (fun y => IsActiveObject k y a) (fun y => IsActiveObject k y a') x); try done; [by apply (wf_nodup Hwf)|].
    intros y Hy Hne. apply Hrest; auto. }
  assert (forall k', k' <> KQuest -> k' <> k -> actives k' i a' = actives k' i a) as Hoth.
  { intros k' Hk' Hne. apply actives_same. intros y Hy. apply Hrest; auto. }
  unfold total. destruct k as [| | |]; [| | |done].
  - rewrite Hact, (Hoth KGameObject), (Hoth KPool) by done. lia.
  - rewrite Hact, (Hoth KCreature), (Hoth KPool) by done. lia.
  - rewrite Hact, (Hoth KCreature), (Hoth KGameObject) by done. lia.
Qed.

Section Spawning.
Context (recD recS : Z -> T unit) (i : Z).
Context (HrecD : forall c, kid i c -> despawns recD c) (HrecS : forall c, kid i c -> spawns recS c).

(** What one turn of the loop needs and keeps; [n] turns are left. *)
Record looping (k : Kind) (n : nat) (trig : Z) (a : ActivePoolData) : Prop := {
  lo_exact : exact a;
  lo_placed : placed i a;
  lo_limits : within_limits i a;
  lo_room : total i a + Z.of_nat n <= limit i + (if trig =? 0 then 0 else 1);
  lo_trigger : trig = 0 \/ (trig ∈ members k i /\ IsActiveObject k trig a = true)
}.

Lemma Spawn1Object_ok k x s a0 :
  k <> KQuest -> x ∈ members k i -> exact a0 -> placed i a0 -> within_limits i a0 -> total i a0 < 2 ^ 31 -> IsActiveObject k x a0 = false ->
  mSpawnedData s = ActivateObject k x i a0 ->
  runs (Spawn1Object e t recS k x) s (fun _ s' =>
    let a := mSpawnedData s' in
    exact a /\ within i a0 a /\ total i a = total i a0 + 1 /\ (forall j, below i j -> j <> i -> total j a <= limit j) /\
    (forall y, y ∈ members k i -> y <> x -> IsActiveObject k y a = IsActiveObject k y a0)).
Proof.
  intros Hk Hx He Hp Hl Ht Ha Es. destruct (exact_Activate k x i a0 Hk Hx Ha Hp He Ht) as [E1 T1]. pose proof (Activate_within k x i a0 Hx) as W1.
  assert (x <> i \/ k <> KPool) as Hxi by (destruct (decide (k = KPool)) as [->|]; [left; by apply (kid_not_self i)|by right]).
  pose proof (ActivateObject_flips k x i a0 Hk Hx Hxi Hp) as Hfl.
  assert (forall y, y ∈ members k i -> y <> x -> IsActiveObject k y (ActivateObject k x i a0) = IsActiveObject k y a0) as Hsame.
  { intros y Hy Hne. rewrite (Hfl k i y) by done. rewrite bool_decide_false; [done|]. tauto. }
  assert (forall s', mSpawnedData s' = ActivateObject k x i a0 ->
    let a := mSpawnedData s' in
    exact a /\ within i a0 a /\ total i a = total i a0 + 1 /\ (forall j, below i j -> j <> i -> total j a <= limit j) /\
    (forall y, y ∈ members k i -> y <> x -> IsActiveObject k y a = IsActiveObject k y a0)) as Hdone.
  { intros s' E. cbn zeta. rewrite E. split_and!; [done|done|by rewrite T1, Z.eqb_refl| |done]. intros j Hj Hne. rewrite T1, (proj2 (Z.eqb_neq _ _) Hne).
    specialize (Hl j Hj). lia. }
  destruct k as [| | |]; cbn [Spawn1Object]; [| | |done].
  - destruct (has_data _ _ _); [|by apply runs_ret, Hdone]. apply runs_bind, runs_modify. destruct (grid_loaded _ _ _); [by apply runs_modify, Hdone|by apply runs_ret, Hdone].
  - destruct (has_data _ _ _); [|by apply runs_ret, Hdone]. apply runs_bind, runs_modify. destruct (grid_loaded _ _ _); [by apply runs_modify, Hdone|by apply runs_ret, Hdone].
  - rewrite <- Es in *. eapply runs_mono.
    { apply (HrecS x Hx); [done| |].
      - left. apply IsActive_pool. rewrite (Hfl KPool i x) by done. by rewrite bool_decide_true.
      - intros j Hj. rewrite T1. assert (j <> i) as Hji by (intros ->; by apply (kids_not_above x i)). rewrite (proj2 (Z.eqb_neq _ _) Hji), Z.add_0_r.
        apply Hl. by apply (rtc_l _ _ x). }
    intros [] s' [S1 S2 S3]. cbn zeta.
    assert (forall j, ~ below x j -> total j (mSpawnedData s') = total j (mSpawnedData s)) as Hout by (intros j Hj; apply total_entry; [done|done|by apply (wi_entry _ _ _ S2)]).
    split_and!; [done|etransitivity; [exact W1|by apply (within_kid i x)]| | |].
    + rewrite Hout by by apply kids_not_above. by rewrite T1, Z.eqb_refl.
    + intros j Hj Hne. destruct (decide (total j (mSpawnedData s') = total j (mSpawnedData s))) as [->|Hch].
      * rewrite T1, (proj2 (Z.eqb_neq _ _) Hne). specialize (Hl j Hj). lia.
      * destruct (decide (total j (mSpawnedData s') <= limit j)) as [|Hno]; [done|]. exfalso.
        assert (~ ~ below x j) as Hnn by (intros Hnb; apply Hch; by apply Hout). apply Hnn. intros Hb. by apply Hno, S3.
    + intros y Hy Hne. rewrite <- (Hsame y Hy Hne). apply (kid_members i x); [done|done|done|done|by right].
Qed.

Lemma spawn_loop_ok n k g trig last s :
  k <> KQuest -> znth (groups t k) i = Some g -> poolId g = i -> limit i < 2 ^ 31 - 1 -> looping k n trig (mSpawnedData s) ->
  runs (spawn_loop e t recD recS n k g trig last) s (fun _ s' => spawned i (mSpawnedData s) (mSpawnedData s')).
Proof.
  intros Hk Hg Hi Hlim. revert trig last s. induction n as [|n IH]; intros trig last s Hlo; cbn [spawn_loop]; pose proof Hlo as [L1 L2 L3 L4 L5].
  { apply runs_ret. by split. }
  eapply runs_bind, runs_mono; [apply RollOne_ok|]. intros o s1 [E1 Ho]. rewrite <- E1 in *.
  assert (looping k n trig (mSpawnedData s1)) as Hskip by (split; try done; destruct (trig =? 0); lia).
  destruct o as [obj|]; [|by apply IH]. destruct (Ho obj eq_refl) as [Hin Hact].
  assert (guid obj ∈ members k i) as Hx by (unfold members; by rewrite Hg).
  destruct (guid obj =? last); [by apply IH|]. destruct (Z.eqb_spec (guid obj) trig) as [Et|Et].
  { assert (looping k n 0 (mSpawnedData s1)) as Hlo0.
    { split; try done; [|by left]. cbn. destruct (Z.eqb_spec trig 0) as [->|]; [|lia]. exfalso. apply (wf_nonzero Hwf k i (guid obj)); [done|]. congruence. }
    apply runs_bind. assert (forall s', mSpawnedData s' = mSpawnedData s1 ->
      runs (spawn_loop e t recD recS n k g 0 last) s' (fun _ s'0 => spawned i (mSpawnedData s1) (mSpawnedData s'0))) as Hgo
      by (intros s' E; rewrite <- E; apply IH; by rewrite E).
    destruct k; cbn [ReSpawn1Object]; [| |by apply runs_ret, Hgo|done]; (destruct (has_data _ _ _); [by apply runs_modify, Hgo|by apply runs_ret, Hgo]). }
  destruct Hact as [|Hact]; [done|]. apply runs_bind, runs_modify. rewrite Hi. specialize (L3 i (below_self i)) as Hti.
  eapply runs_bind, runs_mono; [apply (Spawn1Object_ok k (guid obj) _ (mSpawnedData s1)); try done; lia|].
  intros [] s2. cbn zeta. intros (S1 & S2 & S3 & S4 & S5). pose proof (placed_within _ _ _ L2 S2) as P2.
  destruct (Z.eqb_spec trig 0) as [->|Htr]; cbn [negb].
  - eapply runs_mono; [apply IH; split; try done; [|by cbn; lia|by left]|].
    + intros j Hj. destruct (decide (j = i)) as [->|Hne]; [lia|by apply S4].
    + intros [] s3 [H1 H2 H3]. split; [done|by etransitivity|done].
  - destruct L5 as [|[Htm Hta]]; [done|].
    eapply runs_bind, runs_mono; [by apply (DespawnObject_ok recD i HrecD)|]. intros [] s3 [D1 D2 D3 D4].
    assert (total i (mSpawnedData s2) = total i (mSpawnedData s3) + 1) as Hdown.
    { apply (total_activated k trig); [done|done| | |].
      - rewrite (D4 k trig) by done. rewrite bool_decide_true, Z.eqb_refl, orb_true_r by done. apply andb_false_r.
      - by rewrite S5.
      - intros k' y Hk' Hy Hne. rewrite (D4 k' y) by done. rewrite (proj2 (Z.eqb_neq trig 0) Htr). cbn [orb].
        case_bool_decide as Ek; cbn [andb]; [|by rewrite andb_true_r]. destruct (Z.eqb_spec y trig); [tauto|]. by rewrite andb_true_r. }
    eapply runs_mono; [apply IH; split; try done; [by apply (placed_within _ _ _ P2)| |cbn; lia|by left]|].
    + intros j Hj. destruct (decide (j = i)) as [->|Hne]; [lia|]. specialize (D3 j). specialize (S4 j Hj Hne). lia.
    + intros [] s4 [H1 H2 H3]. split; [done| |done]. etransitivity; [exact S2|]. by etransitivity.
Qed.

Lemma spawn_objects_ok k g trig s :
  k <> KQuest -> znth (groups t k) i = Some g -> poolId g = i -> pool i -> exact (mSpawnedData s) -> placed i (mSpawnedData s) ->
  within_limits i (mSpawnedData s) -> members KQuest i = [] -> trig = 0 \/ (trig ∈ members k i /\ IsActiveObject k trig (mSpawnedData s) = true) ->
  runs (spawn_objects e t recD recS k g (limit i) trig) s (fun _ s' => spawned i (mSpawnedData s) (mSpawnedData s')).
Proof.
  intros Hk Hg Hi Hpool He Hp Hl Hq Htr. unfold spawn_objects. apply runs_bind, runs_get. rewrite Hi, (He i Hq).
  pose proof (pool_total_nonneg i (mSpawnedData s)) as H0. pose proof (Hl i (below_self i)) as Hti.
  assert (0 <= limit i < 2 ^ 31 - 1) as Hlim.
  { destruct (znth_in (mPoolTemplate t) i) as (l & El & _); [rewrite (wf_templates Hwf); unfold pool in Hpool; lia|]. destruct (limit_range i l El) as [-> ?]. done. }
  rewrite (swrap_small 32 (limit i - total i (mSpawnedData s))) by lia. rewrite (swrap_small 32 (limit i - total i (mSpawnedData s) + 1)) by lia.
  apply spawn_loop_ok; [done|done|done|lia|]. split; [done|done|done| |done]. destruct (trig =? 0); cbn [negb]; lia.
Qed.

End Spawning.

Lemma spawned_refl i a : exact a -> within_limits i a -> spawned i a a.
Proof. by split. Qed.

Lemma spawned_trans i a b c : spawned i a b -> spawned i b c -> spawned i a c.
Proof. intros [A1 A2 A3] [B1 B2 B3]. split; [done|by etransitivity|done]. Qed.

Lemma limit_nonneg i : pool i -> 0 <= limit i.
Proof.
  intros Hi. destruct (znth_in (mPoolTemplate t) i) as (l & El & _); [rewrite (wf_templates Hwf); unfold pool in Hi; lia|].
  destruct (limit_range i l El) as [-> ?]. lia.
Qed.

Lemma SpawnPool_kind_ok recD recS i k trig s :
  (forall c, kid i c -> despawns recD c) -> (forall c, kid i c -> spawns recS c) -> pool i ->
  exact (mSpawnedData s) -> placed i (mSpawnedData s) -> within_limits i (mSpawnedData s) ->
  trig = 0 \/ k = KQuest \/ (trig ∈ members k i /\ IsActiveObject k trig (mSpawnedData s) = true) ->
  runs (SpawnPool_kind e t recD recS k i trig) s (fun _ s' => spawned i (mSpawnedData s) (mSpawnedData s')).
Proof.
  intros HD HS Hi He Hp Hl Htr. unfold SpawnPool_kind. apply runs_bind, group_runs; [done|]. intros g Hg.
  destruct (isEmpty g) eqn:Eg; [apply runs_ret; by apply spawned_refl|]. pose proof (wf_id Hwf _ _ _ Hg Eg) as Ei.
  pose proof (nonempty_members _ _ _ Hg Eg) as Hne. apply runs_bind, limit_runs; [done|]. intros l Hll. destruct (limit_range i l Hll) as [El _]. rewrite <- El.
  destruct (decide (k = KQuest)) as [->|Hk].
  - cbn [SpawnObject]. apply (runs_mono _ _ _ _ (qruns_spawn_quests i recD g (limit i) trig Ei s)). intros [] s' Hq.
    destruct (quest_step_ok i _ _ Hne Hp He Hq) as (H1 & H2 & H3). split; [done|done|]. intros j Hj. rewrite H2. by apply Hl.
  - assert (members KQuest i = []) as Hq.
    { destruct (members KQuest i) as [|q m] eqn:E; [done|]. destruct Hne. apply (wf_quests Hwf); [by rewrite E|done]. }
    assert (trig = 0 \/ (trig ∈ members k i /\ IsActiveObject k trig (mSpawnedData s) = true)) as Htr' by tauto.
    destruct k; [by apply (spawn_objects_ok recD recS i HD HS)..|done].
Qed.

Lemma SpawnPool_ok d i : (rank i < d)%nat -> pool i -> spawns (SpawnPool e t d) i.
Proof.
  revert i. induction d as [|d IH]; intros i Hd Hi s He Hp Hl; [lia|]. cbn [SpawnPool].
  assert (forall c, kid i c -> (rank c < d)%nat /\ pool c) as Hkid.
  { intros c Hc. pose proof (wf_rank Hwf _ _ Hc). split; [lia|by apply (kid_pool i)]. }
  assert (forall c, kid i c -> despawns (DespawnPool e t d) c) as HD by (intros c Hc; destruct (Hkid c Hc); by apply DespawnPool_ok).
  assert (forall c, kid i c -> spawns (SpawnPool e t d) c) as HS by (intros c Hc; destruct (Hkid c Hc); by apply IH).
  assert (forall k s0, spawned i (mSpawnedData s) (mSpawnedData s0) ->
    runs (SpawnPool_kind e t (DespawnPool e t d) (SpawnPool e t d) k i 0) s0 (fun _ s' => spawned i (mSpawnedData s) (mSpawnedData s'))) as Hk.
  { intros k s0 Hs0. pose proof Hs0 as [S1 S2 S3].
    eapply runs_mono; [apply (SpawnPool_kind_ok _ _ i); try done; [by apply (placed_within _ _ _ Hp)|by left]|]. intros [] s1 H1. by apply (spawned_trans _ _ _ _ Hs0). }
  unfold SpawnPool_body. eapply runs_bind, runs_mono; [apply Hk; by apply spawned_refl|]. intros [] s1 H1. cbn beta in H1.
  eapply runs_bind, runs_mono; [by apply Hk|]. intros [] s2 H2. cbn beta in H2.
  eapply runs_bind, runs_mono; [by apply Hk|]. intros [] s3 H3. cbn beta in H3. by apply Hk.
Qed.

(** ** Any history *)

(** The searches agree with the groups; quests are in pools of their own on top. *)
Record searchable : Prop := {
  se_pools : forall c m, mPoolSearchMap t !! c = Some m <-> kid m c;
  se_spawns : forall k x i, k = KCreature \/ k = KGameObject -> search_map t k !! x = Some i -> x ∈ members k i;
  se_nonzero : forall m c, kid m c -> m <> 0;
  se_quests : forall i m, members KQuest i <> [] -> ~ kid m i
}.

Definition root (i : Z) : Prop := forall m, ~ kid m i.

Definition good (a : ActivePoolData) : Prop := exact a /\ forall j, pool j -> total j a <= limit j.

Lemma total_outside j a : ~ pool j -> total j a = 0.
Proof.
  intros Hj. apply pool_total_zero. intros k x Hk Hx. exfalso. unfold members, znth in Hx. destruct (j <? 0) eqn:E; [by apply not_elem_of_nil in Hx|].
  destruct (groups t k !! Z.to_nat j) as [g|] eqn:Eg; [|by apply not_elem_of_nil in Hx]. apply lookup_lt_Some in Eg.
  pose proof (wf_groups Hwf k) as H. unfold zlen in H. apply Z.ltb_ge in E. apply Hj. unfold pool. lia.
Qed.

Lemma below_pool i j : below i j -> pool i -> pool j.
Proof. induction 1 as [|x y z Hxy _ IH]; [done|]. intros _. apply IH. by apply (kid_pool x). Qed.

Lemma good_limits i a : pool i -> good a -> within_limits i a.
Proof. intros Hi [_ H] j Hj. apply H. by apply (below_pool i). Qed.

Lemma good_spawned i a a' : good a -> spawned i a a' -> good a'.
Proof.
  intros [G1 G2] [S1 S2 S3]. split; [done|]. intros j Hj. destruct (decide (total j a' <= limit j)) as [|Hno]; [done|]. exfalso.
  assert (~ ~ below i j) as Hnn.
  { intros Hnb. apply Hno. rewrite (total_entry j a a' G1 S1); [by apply G2|by apply (wi_entry _ _ _ S2)]. }
  apply Hnn. intros Hb. by apply Hno, S3.
Qed.

Lemma good_despawned i f a a' : good a -> despawned i f a a' -> good a'.
Proof. intros [G1 G2] [D1 D2 D3 D4]. split; [done|]. intros j Hj. specialize (D3 j). specialize (G2 j Hj). lia. Qed.

Definition nothing : ActivePoolData := mkActive ∅ ∅ ∅ ∅.

Lemma total_nothing i : total i nothing = 0.
Proof.
  apply pool_total_zero. intros k x Hk Hx. destruct k; cbn; apply bool_decide_eq_false; rewrite ?lookup_empty; [apply not_elem_of_empty|apply not_elem_of_empty|by intros []|done].
Qed.

Lemma good_nothing : good nothing.
Proof.
  split; [|intros j Hj; rewrite total_nothing; by apply limit_nonneg]. intros i _. rewrite total_nothing. unfold GetActiveObjectCount. cbn. by rewrite lookup_empty.
Qed.

(** An active object's pool is active, or in no other. *)
Lemma active_pool k x i a : exact a -> k <> KQuest -> x ∈ members k i -> IsActiveObject k x a = true -> is_Some (mSpawnedPools a !! i).
Proof.
  intros He Hk Hx Ha. destruct (decide (members KQuest i = [])) as [Hq|Hq].
  2: { rewrite (wf_quests Hwf k i Hq Hk) in Hx. by apply not_elem_of_nil in Hx. }
  specialize (He i Hq). destruct (mSpawnedPools a !! i) as [v|] eqn:E; [by eexists|]. exfalso. unfold GetActiveObjectCount in He. rewrite E in He. cbn in He.
  pose proof (proj1 (pool_total_zero i a) (eq_sym He) k x Hk Hx). congruence.
Qed.

End Spec.
