(* ===== verification/PoolHistory.v ===== *)
(** * PoolHistory: whatever spawns and despawns *)

From S2P Require Import Prelude Float32.
From S2P Require Import Pool PoolSpec.

(** What the rest of the game asks of the manager: an event begins or ends, a creature or
    game object is due again, a new day or week. *)
Inductive pool_cmd := CSpawn (i : Z) | CDespawn (i : Z) | CRespawn (k : Kind) (x : Z) | CDaily | CWeekly.

Definition obey (e : Env) (t : Tables) (depth : nat) (c : pool_cmd) : T unit :=
  match c with
  | CSpawn i => SpawnPool e t depth i
  | CDespawn i => DespawnPool e t depth i
  | CRespawn k x => respawned e t depth k x
  | CDaily => ChangeDailyQuests e t depth
  | CWeekly => ChangeWeeklyQuests e t depth
  end.

Section History.
Context (e : Env) (t : Tables) (rank : Z -> nat) (depth : nat).
Context (Hwf : well_formed t rank) (Hse : searchable t) (Hfair : fair e) (Hdepth : forall i, pool t i -> (rank i < depth)%nat).
Context (Hzero : quest_type e 0 = None).

(** Events name pools that are in no other pool; what is due again is active. *)
Definition sensible (c : pool_cmd) (s : Server) : Prop :=
  match c with
  | CSpawn i | CDespawn i => pool t i /\ root t i
  | CRespawn k x => (k = KCreature \/ k = KGameObject) /\ IsActiveObject k x (mSpawnedData s) = true
  | CDaily | CWeekly => True
  end.

Definition fine (s : Server) : Prop := good t (mSpawnedData s).

Lemma despawn_fine i s : pool t i -> placed t i (mSpawnedData s) -> fine s -> runs (DespawnPool e t depth i) s (fun _ s' => fine s').
Proof.
  intros Hi Hp Hs. eapply runs_mono; [apply (DespawnPool_ok e t rank Hwf); [by apply Hdepth|done|by destruct Hs|done]|].
  intros [] s' D. by apply (good_despawned t i all_of _ _ Hs).
Qed.

Lemma spawn_kind_fine k i trig s :
  pool t i -> placed t i (mSpawnedData s) -> fine s ->
  trig = 0 \/ k = KQuest \/ (trig ∈ members t k i /\ IsActiveObject k trig (mSpawnedData s) = true) ->
  runs (SpawnPool_kind e t (DespawnPool e t depth) (SpawnPool e t depth) k i trig) s (fun _ s' => fine s').
Proof.
  intros Hi Hp Hs Htr. eapply runs_mono.
  - apply (SpawnPool_kind_ok e t rank Hwf Hfair); try done; [|..].
    + intros c Hc. apply (DespawnPool_ok e t rank Hwf); [apply Hdepth|]; by apply (kid_pool t rank Hwf i).
    + intros c Hc. apply (SpawnPool_ok e t rank Hwf Hfair); [apply Hdepth|]; by apply (kid_pool t rank Hwf i).
    + by destruct Hs.
    + by apply (good_limits t rank Hwf).
  - intros [] s' D. by apply (good_spawned t rank Hwf i _ _ Hs).
Qed.

Lemma spawn_fine i s : pool t i -> placed t i (mSpawnedData s) -> fine s -> runs (SpawnPool e t depth i) s (fun _ s' => fine s').
Proof.
  intros Hi Hp Hs. eapply runs_mono.
  - apply (SpawnPool_ok e t rank Hwf Hfair); [by apply Hdepth|done|by destruct Hs|done|by apply (good_limits t rank Hwf)].
  - intros [] s' D. by apply (good_spawned t rank Hwf i _ _ Hs).
Qed.

Lemma mother_spec i : IsPartOfAPool t KPool i = 0 /\ root t i \/ exists m, IsPartOfAPool t KPool i = m /\ m <> 0 /\ kid t m i.
Proof.
  unfold IsPartOfAPool. cbn [search_map]. destruct (mPoolSearchMap t !! i) as [m|] eqn:E.
  - right. exists m. apply (se_pools t Hse) in E. split; [done|]. split; [by apply (se_nonzero t Hse m i)|done].
  - left. split; [done|]. intros m Hm. apply (se_pools t Hse) in Hm. congruence.
Qed.

Lemma in_range k i x : x ∈ members t k i -> pool t i.
Proof.
  unfold members, znth, pool. destruct (Z.ltb_spec i 0); [intros H'; by apply not_elem_of_nil in H'|].
  destruct (groups t k !! Z.to_nat i) as [g|] eqn:Eg; [|intros H'; by apply not_elem_of_nil in H']. intros _. apply lookup_lt_Some in Eg.
  pose proof (wf_groups t rank Hwf k) as H'. unfold zlen in H'. lia.
Qed.

Lemma UpdatePool_fine k i x s :
  k = KCreature \/ k = KGameObject -> x ∈ members t k i -> IsActiveObject k x (mSpawnedData s) = true -> fine s ->
  runs (UpdatePool e t depth k i x) s (fun _ s' => fine s').
Proof.
  intros Hk Hx Ha Hs. assert (k <> KQuest) as Hkq by (by destruct Hk as [-> | ->]). destruct Hs as [He Hl].
  pose proof (active_pool t rank Hwf k x i _ He Hkq Hx Ha) as Hi. unfold UpdatePool. destruct (mother_spec i) as [[-> Hroot]|(m & -> & Hm & Hkid)].
  - cbn [negb]. apply spawn_kind_fine; [by apply (in_range k i x)|by left|by split|by right; right].
  - rewrite (proj2 (Z.eqb_neq _ _) Hm). cbn [negb]. assert (IsActiveObject KPool i (mSpawnedData s) = true) as Hia by by apply IsActive_pool.
    apply spawn_kind_fine; [by apply (in_range KPool m i)|left; by apply (active_pool t rank Hwf KPool i m)|by split|by right; right].
Qed.

Lemma quest_pool_root i : members t KQuest i <> [] -> IsPartOfAPool t KPool i = 0 /\ root t i.
Proof. intros Hq. destruct (mother_spec i) as [H|(m & _ & _ & Hm)]; [done|]. by destruct (se_quests t Hse i m Hq). Qed.

Lemma change_fine skip s : fine s -> runs (change_quests e t depth skip) s (fun _ s' => fine s').
Proof.
  intros Hs. unfold change_quests. eapply runs_bind. apply (runs_mono _ _ (fun _ s' => fine s')); [|by intros _ s' H; apply runs_modify].
  assert (forall g, g ∈ mPoolQuestGroups t -> exists i, znth (groups t KQuest) i = Some g) as Hall.
  { intros g (n & Hn)%list_elem_of_lookup. exists (Z.of_nat n). unfold znth. destruct (Z.ltb_spec (Z.of_nat n) 0); [lia|]. by rewrite Nat2Z.id. }
  revert s Hs Hall. generalize (mPoolQuestGroups t) as l. induction l as [|g l IH]; intros s Hs Hall; [by apply runs_ret|]. cbn [mapM_].
  apply runs_bind, (runs_mono _ _ (fun _ s' => fine s')); [|intros _ s' H; apply IH; [done|intros g' Hg'; apply Hall; by constructor]].
  destruct (quest_type e (GetFirstEqualChancedObjectId g)) as [q|] eqn:Eq; [|by apply runs_ret]. destruct (skip q); [by apply runs_ret|].
  destruct (Hall g ltac:(constructor)) as [i Hg]. assert (isEmpty g = false) as Hne.
  { destruct (isEmpty g) eqn:E; [|done]. unfold isEmpty in E. unfold GetFirstEqualChancedObjectId in Eq. destruct (ExplicitlyChanced g), (EqualChanced g); congruence. }
  rewrite (wf_id t rank Hwf _ _ _ Hg Hne). pose proof (nonempty_members t _ _ _ Hg Hne) as Hm. destruct (quest_pool_root i Hm) as [E0 Hroot].
  unfold UpdatePool. rewrite E0. cbn [negb]. apply spawn_kind_fine; [|by right|done|by right; left].
  destruct (members t KQuest i) as [|q0 qs] eqn:E; [done|]. apply (in_range KQuest i q0). rewrite E. constructor.
Qed.

Lemma obey_fine c s : sensible c s -> fine s -> runs (obey e t depth c) s (fun _ s' => fine s').
Proof.
  intros Hc Hs. destruct c as [i|i|k x| |]; cbn [obey].
  - destruct Hc as [Hi Hr]. apply spawn_fine; [done|by right|done].
  - destruct Hc as [Hi Hr]. apply despawn_fine; [done|by right|done].
  - destruct Hc as [Hk Ha]. unfold respawned. destruct (x =? 0); [by apply runs_ret|]. unfold IsPartOfAPool.
    destruct (search_map t k !! x) as [i|] eqn:E; [|by apply runs_ret]. cbn [default]. cbn.
    destruct (i =? 0); [by apply runs_ret|]. apply UpdatePool_fine; [done|by apply (se_spawns t Hse)|done|done].
  - by apply change_fine.
  - by apply change_fine.
Qed.

(** Every command makes sense when it is given. *)
Fixpoint all_sensible (l : list pool_cmd) (s : Server) : Prop :=
  match l with
  | [] => True
  | c :: l' => sensible c s /\ all_sensible l' (obey e t depth c s).2
  end.

Lemma history_fine l s : fine s -> all_sensible l s -> runs (mapM_ (obey e t depth) l) s (fun _ s' => fine s').
Proof.
  revert s. induction l as [|c l IH]; intros s Hs Hl; [by apply runs_ret|]. destruct Hl as [Hc Hl]. cbn [mapM_].
  apply runs_bind. destruct (runs_inv _ _ _ (obey_fine c s Hc Hs)) as ([] & s1 & E & H1). unfold runs. rewrite E in *. by apply IH.
Qed.
End History.
