(* ===== verification/PoolForest.v ===== *)
(** * PoolForest: what the loader makes of the rows

    Unique rows give groups and search maps that agree ([sorted]), and the check of the
    circular references leaves a forest: from every pool the search map leads up to a pool
    that is in no other. *)

From S2P Require Import Prelude Float32.
From S2P Require Import Pool PoolLoad PoolSpec.

(** ** Paths up the search map *)

Inductive path (m : gmap Z Z) : Z -> list Z -> Prop :=
| path_end i : m !! i = None -> path m i []
| path_up i j l : m !! i = Some j -> path m j l -> path m i (i :: l).

Definition ends (m : gmap Z Z) (i : Z) : Prop := exists l, path m i l.

Lemma path_unique m i l l' : path m i l -> path m i l' -> l = l'.
Proof.
  intros H. revert l'. induction H as [i E|i j l E _ IH]; intros l' H'; inversion H' as [? E'|? j' l0 E' H0]; subst; try congruence.
  assert (j' = j) as -> by congruence. f_equal. by apply IH.
Qed.

Lemma path_suffix m i l x : path m i l -> x ∈ l -> exists l', path m x l' /\ (length l' <= length l)%nat.
Proof.
  induction 1 as [i E|i j l E H IH]; [by intros ?%not_elem_of_nil|]. intros [->|Hx]%elem_of_cons.
  - exists (i :: l). split; [by apply (path_up m i j)|done].
  - destruct (IH Hx) as (l' & H' & Hlen). exists l'. split; [done|cbn; lia].
Qed.

Lemma path_nodup m i l : path m i l -> NoDup l.
Proof.
  induction 1 as [i E|i j l E H IH]; [constructor|]. constructor; [|done]. intros Hin. destruct (path_suffix _ _ _ _ H Hin) as (l' & H' & Hlen).
  rewrite (path_unique _ _ _ _ H' (path_up m i j l E H)) in Hlen. cbn in Hlen. lia.
Qed.

Lemma path_dom m i l x : path m i l -> x ∈ l -> is_Some (m !! x).
Proof. induction 1 as [i E|i j l E H IH]; [by intros ?%not_elem_of_nil|]. intros [->|Hx]%elem_of_cons; [by rewrite E|auto]. Qed.

Lemma path_length m i l : path m i l -> (length l <= size m)%nat.
Proof.
  intros H. rewrite <- (size_dom (D:=gset Z)), <- (size_list_to_set (C:=gset Z) l) by by apply (path_nodup m i). apply subseteq_size.
  intros x Hx%elem_of_list_to_set. apply elem_of_dom. by apply (path_dom m i l).
Qed.

Fixpoint height (fuel : nat) (m : gmap Z Z) (i : Z) : nat :=
  match fuel, m !! i with S f, Some j => S (height f m j) | _, _ => O end.

Lemma height_path m i l n : path m i l -> (length l <= n)%nat -> height n m i = length l.
Proof.
  intros H. revert n. induction H as [i E|i j l E H IH]; intros n Hn; [destruct n; cbn; by rewrite ?E|].
  destruct n as [|n]; cbn in *; [lia|]. rewrite E. f_equal. apply IH. lia.
Qed.

(** The depth that is left below a pool. *)
Definition rank_of (m : gmap Z Z) (i : Z) : nat := size m - height (size m) m i.

Lemma rank_of_up m c j : (forall i, ends m i) -> m !! c = Some j -> (rank_of m c < rank_of m j)%nat.
Proof.
  intros H E. destruct (H j) as [l Hl]. pose proof (path_up m c j l E Hl) as Hc. pose proof (path_length _ _ _ Hc) as Hlen.
  unfold rank_of. rewrite (height_path _ _ _ _ Hl), (height_path _ _ _ _ Hc) by (cbn in *; lia). cbn in *. lia.
Qed.

Lemma ends_submap m m' i : m' ⊆ m -> ends m i -> ends m' i.
Proof.
  intros Hs [l H]. induction H as [i E|i j l E _ [l' H']].
  - exists []. apply path_end. destruct (m' !! i) eqn:E'; [|done]. rewrite (lookup_weaken _ _ _ _ E' Hs) in E. done.
  - destruct (m' !! i) as [j'|] eqn:E'; [|by exists []; apply path_end]. rewrite (lookup_weaken _ _ _ _ E' Hs) in E. injection E as ->.
    exists (i :: l'). by apply (path_up m' i j).
Qed.

(** ** Groups and search map agree *)

Record sorted (k : Kind) (t : Tables) : Prop := {
  so_length : zlen (groups t k) = max_pool_id t + 1;
  so_id : forall i g, znth (groups t k) i = Some g -> isEmpty g = false -> poolId g = i;
  so_in : forall x i, x ∈ members t k i <-> search_map t k !! x = Some i;
  so_nodup : forall i, NoDup (members t k i)
}.

Lemma groups_set k k' l t : groups (set_groups k l t) k' = if decide (k = k') then l else groups t k'.
Proof. by destruct k'. Qed.
Lemma search_set_groups k k' l t : search_map (set_groups k l t) k' = search_map t k'.
Proof. by destruct k'. Qed.
Lemma search_set k k' m t : search_map (set_search k m t) k' = if decide (k = k') then m else search_map t k'.
Proof. by destruct k'. Qed.
Lemma groups_set_search k k' m t : groups (set_search k m t) k' = groups t k'.
Proof. by destruct k'. Qed.

Lemma znth_insert {A} (l : list A) i j x : 0 <= i < zlen l -> znth (<[Z.to_nat i := x]> l) j = if decide (j = i) then Some x else znth l j.
Proof.
  intros Hi. unfold znth, zlen in *. destruct (Z.ltb_spec j 0) as [Hj|Hj]; [by rewrite decide_False by lia|].
  destruct (decide (j = i)) as [->|Hne]; [apply list_lookup_insert_eq; lia|]. rewrite list_lookup_insert_ne; [done|lia].
Qed.

Lemma znth_range {A} (l : list A) i x : znth l i = Some x -> 0 <= i < zlen l.
Proof. unfold znth, zlen. destruct (Z.ltb_spec i 0); [done|]. intros H'%lookup_lt_Some. lia. Qed.

Lemma members_set k k' l t i : members (set_groups k l t) k' i = match znth (if decide (k = k') then l else groups t k') i with Some g => map guid (EqualChanced g ++ ExplicitlyChanced g) | None => [] end.
Proof. unfold members. by rewrite groups_set. Qed.

(** One group changes, and the search map with it. *)
Lemma sorted_change k i g' m t :
  sorted k t -> 0 <= i <= max_pool_id t -> (isEmpty g' = false -> poolId g' = i) -> NoDup (map guid (EqualChanced g' ++ ExplicitlyChanced g')) ->
  (forall x, x ∈ map guid (EqualChanced g' ++ ExplicitlyChanced g') <-> m !! x = Some i) ->
  (forall x j, j <> i -> m !! x = Some j <-> search_map t k !! x = Some j) ->
  sorted k (set_search k m (set_groups k (<[Z.to_nat i := g']> (groups t k)) t)).
Proof.
  intros [S1 S2 S3 S4] Hi Hid Hnd Hin Hoth. assert (0 <= i < zlen (groups t k)) as Hr by lia.
  assert (forall j, members (set_search k m (set_groups k (<[Z.to_nat i := g']> (groups t k)) t)) k j =
    if decide (j = i) then map guid (EqualChanced g' ++ ExplicitlyChanced g') else members t k j) as Hm.
  { intros j. unfold members. rewrite groups_set_search, groups_set, decide_True by done. rewrite znth_insert by done. by destruct (decide (j = i)). }
  split.
  - rewrite groups_set_search, groups_set, decide_True by done. unfold zlen in *. by rewrite length_insert.
  - intros j g. rewrite groups_set_search, groups_set, decide_True, znth_insert by done. destruct (decide (j = i)) as [->|]; [by intros [= <-]|apply S2].
  - intros x j. rewrite Hm, search_set, (decide_True (P:=(k = k))) by done. destruct (decide (j = i)) as [->|]; [done|]. rewrite S3. symmetry. by apply Hoth.
  - intros j. rewrite Hm. by destruct (decide (j = i)).
Qed.

Definition same_kind (k : Kind) (t t' : Tables) : Prop := groups t' k = groups t k /\ search_map t' k = search_map t k.

Lemma sorted_same k t t' : same_kind k t t' -> max_pool_id t' = max_pool_id t -> sorted k t -> sorted k t'.
Proof. intros [E1 E2] E3 [S1 S2 S3 S4]. unfold members in *. split; unfold members; rewrite ?E1, ?E2, ?E3; done. Qed.

Lemma AddEntry_members o l g :
  map guid (EqualChanced (AddEntry o l g) ++ ExplicitlyChanced (AddEntry o l g)) ≡ₚ guid o :: map guid (EqualChanced g ++ ExplicitlyChanced g).
Proof.
  unfold AddEntry. destruct (_ && _); cbn; rewrite !map_app; cbn; [by rewrite app_assoc, <- Permutation_cons_append|].
  rewrite <- app_assoc. cbn. by rewrite <- Permutation_middle.
Qed.

Lemma add_row_sorted k t x i c :
  sorted k t -> 0 <= i <= max_pool_id t -> zlen (mPoolTemplate t) = max_pool_id t + 1 -> search_map t k !! x = None ->
  sorted k (add_row k t x i c) /\ search_map (add_row k t x i c) k = <[x := i]> (search_map t k) /\ (forall k', k' <> k -> same_kind k' t (add_row k t x i c)) /\
  max_pool_id (add_row k t x i c) = max_pool_id t /\ mPoolTemplate (add_row k t x i c) = mPoolTemplate t.
Proof.
  intros Hs Hi Ht Hx. pose proof Hs as [S1 S2 S3 S4]. unfold add_row.
  destruct (znth_in (groups t k) i) as (g & Hg & _); [lia|]. destruct (znth_in (mPoolTemplate t) i) as (l & Hl & _); [lia|]. rewrite Hg, Hl.
  rewrite search_set_groups, Hx. set (o := new_PoolObject x c). set (g1 := mkGroup i _ _). pose proof (AddEntry_members o l g1) as HP.
  assert (members t k i = map guid (EqualChanced g1 ++ ExplicitlyChanced g1)) as Em by (unfold members; by rewrite Hg).
  rewrite <- Em in HP. change (guid o) with x in HP. split_and!.
  - apply sorted_change; [done|done| | | |].
    + intros _. unfold AddEntry. by destruct (_ && _).
    + rewrite HP. constructor; [|done]. rewrite S3. by rewrite Hx.
    + intros y. rewrite HP, elem_of_cons, S3, lookup_insert_Some. split; [|naive_solver]. intros [->|Hy]; [auto|]. right. split; [|done]. intros <-. congruence.
    + intros y j Hj. rewrite lookup_insert_Some. split; [naive_solver|]. intros Hy. right. split; [|done]. intros <-. congruence.
  - by rewrite search_set, decide_True.
  - intros k' Hk'. split; [by rewrite groups_set_search, groups_set, decide_False|]. rewrite search_set, decide_False by done. by rewrite search_set_groups.
  - done.
  - done.
Qed.

(** ** A table of rows

    The rows of a table have different keys, and pools that are not negative. *)

Lemma same_kind_trans k t1 t2 t3 : same_kind k t1 t2 -> same_kind k t2 t3 -> same_kind k t1 t3.
Proof. intros [E1 E2] [E3 E4]. split; congruence. Qed.

Section Rows.
Context {S R : Type} (k : Kind) (tab : S -> Tables) (step : S -> R -> S) (key in_pool : R -> Z) (P : Z -> R -> Prop).

(** A row is skipped or added. *)
Context (Hstep : forall st row, tab (step st row) = tab st \/
  in_pool row <= max_pool_id (tab st) /\ P (max_pool_id (tab st)) row /\ exists c, tab (step st row) = add_row k (tab st) (key row) (in_pool row) c).

Record phased (rows : list R) (t t' : Tables) : Prop := {
  ph_sorted : sorted k t';
  ph_other : forall k', k' <> k -> same_kind k' t t';
  ph_max : max_pool_id t' = max_pool_id t;
  ph_template : mPoolTemplate t' = mPoolTemplate t;
  ph_rows : forall x i, search_map t' k !! x = Some i -> search_map t k !! x = Some i \/ exists row, row ∈ rows /\ key row = x /\ in_pool row = i /\ P (max_pool_id t) row
}.

Lemma phase rows st :
  NoDup (map key rows) -> (forall row, row ∈ rows -> 0 <= in_pool row /\ search_map (tab st) k !! key row = None) ->
  zlen (mPoolTemplate (tab st)) = max_pool_id (tab st) + 1 -> sorted k (tab st) -> phased rows (tab st) (tab (foldl step st rows)).
Proof.
  revert st. induction rows as [|row rows IH]; intros st Hnd Hrows Ht Hs; [split; auto; by split|]. cbn [map] in Hnd. apply NoDup_cons in Hnd as [Hnew Hnd].
  cbn [foldl]. destruct (Hstep st row) as [E|(Hi & HP & c & E)].
  - destruct (IH (step st row)) as [I1 I2 I3 I4 I5]; rewrite ?E; try done; [intros r Hr; apply Hrows; by constructor|]. rewrite E in I2, I3, I4, I5. split; try done.
    intros x i Hx. destruct (I5 x i Hx) as [|(r & Hr & H')]; [by left|right]. exists r. split; [by constructor|done].
  - destruct (Hrows row) as [H0 Hfresh]; [by constructor|]. destruct (add_row_sorted k (tab st) (key row) (in_pool row) c) as (A1 & A2 & A3 & A4 & A5); [done|lia|done|done|].
    rewrite <- E in A1, A2, A3, A4, A5. destruct (IH (step st row)) as [I1 I2 I3 I4 I5]; [done| |by rewrite A4, A5|done|].
    { intros r Hr. destruct (Hrows r) as [H1 H2]; [by constructor|]. split; [done|]. rewrite A2. rewrite lookup_insert_ne; [done|]. intros Hk. apply Hnew. rewrite Hk. by apply list_elem_of_fmap_2. }
    split; [done| |congruence|congruence|].
    + intros k' Hk'. by apply (same_kind_trans k' _ (tab (step st row))); auto.
    + intros x i Hx. destruct (I5 x i Hx) as [Hx'|(r & Hr & Ek & Ei & HPr)].
      * rewrite A2 in Hx'. apply lookup_insert_Some in Hx' as [[<- <-]|[_ Hx']]; [|by left]. right. exists row. split; [by constructor|done].
      * right. exists r. split; [by constructor|]. by rewrite <- A4.
Qed.
End Rows.

(** ** The circular references *)

Lemma erase_first_incl x y l : y ∈ map guid (erase_first x l) -> y ∈ map guid l.
Proof.
  induction l as [|o l IH]; [done|]. cbn [erase_first map]. destruct (guid o =? x); [by constructor|]. cbn [map]. rewrite !elem_of_cons. naive_solver.
Qed.

Lemma erase_first_keeps x y l : y <> x -> y ∈ map guid l -> y ∈ map guid (erase_first x l).
Proof.
  intros Hne. induction l as [|o l IH]; [done|]. cbn [erase_first map]. rewrite elem_of_cons. destruct (Z.eqb_spec (guid o) x) as [E|E]; [naive_solver congruence|].
  cbn [map]. rewrite elem_of_cons. naive_solver.
Qed.

Lemma erase_first_nodup x l : NoDup (map guid l) -> NoDup (map guid (erase_first x l)) /\ x ∉ map guid (erase_first x l).
Proof.
  induction l as [|o l IH]; cbn [erase_first map]; [intros; split; [constructor|apply not_elem_of_nil]|]. intros [Ho Hl]%NoDup_cons.
  destruct (Z.eqb_spec (guid o) x) as [<-|E]; [done|]. destruct (IH Hl) as [H1 H2]. cbn [map]. split.
  - constructor; [|done]. intros H. apply Ho. by apply (erase_first_incl x).
  - rewrite not_elem_of_cons. split; [congruence|done].
Qed.

Definition guids (g : PoolGroup) : list Z := map guid (EqualChanced g ++ ExplicitlyChanced g).

Lemma RemoveOneRelation_guids x g : NoDup (guids g) -> NoDup (guids (RemoveOneRelation x g)) /\ (forall y, y ∈ guids (RemoveOneRelation x g) <-> y ∈ guids g /\ y <> x).
Proof.
  unfold guids. cbn [RemoveOneRelation EqualChanced ExplicitlyChanced]. rewrite !map_app. intros (H1 & H2 & H3)%NoDup_app.
  destruct (erase_first_nodup x _ H1) as [N1 X1], (erase_first_nodup x _ H3) as [N3 X3]. split.
  - apply NoDup_app. split; [done|]. split; [|done]. intros y Hy1%erase_first_incl Hy2%erase_first_incl. by apply (H2 y).
  - intros y. rewrite !elem_of_app. split.
    + intros [H|H]; (split; [|by intros ->]); [left|right]; by apply (erase_first_incl x).
    + intros [[H|H] Hne]; [left|right]; by apply erase_first_keeps.
Qed.

Lemma sorted_range k t x i : sorted k t -> search_map t k !! x = Some i -> exists g, znth (groups t k) i = Some g /\ x ∈ guids g /\ 0 <= i <= max_pool_id t.
Proof.
  intros [S1 S2 S3 S4] Hx. apply S3 in Hx. unfold members in Hx. destruct (znth (groups t k) i) as [g|] eqn:E; [|by apply not_elem_of_nil in Hx].
  exists g. pose proof (znth_range _ _ _ E). split; [done|]. split; [done|lia].
Qed.

(** What a cut leaves alone. *)
Record trimmed (t t' : Tables) : Prop := {
  tr_sorted : sorted KPool t';
  tr_fewer : mPoolSearchMap t' ⊆ mPoolSearchMap t;
  tr_other : forall k, k <> KPool -> same_kind k t t';
  tr_max : max_pool_id t' = max_pool_id t;
  tr_template : mPoolTemplate t' = mPoolTemplate t
}.

Lemma trimmed_refl t : sorted KPool t -> trimmed t t.
Proof. by split. Qed.

Lemma trimmed_trans t1 t2 t3 : trimmed t1 t2 -> trimmed t2 t3 -> trimmed t1 t3.
Proof.
  intros [A1 A2 A3 A4 A5] [B1 B2 B3 B4 B5]. split; [done|by etransitivity| |congruence|congruence]. intros k Hk. by apply (same_kind_trans k t1 t2 t3); auto.
Qed.

Lemma cut_link t i m g :
  sorted KPool t -> mPoolSearchMap t !! i = Some m -> znth (mPoolPoolGroups t) m = Some g ->
  trimmed t (set_search KPool (delete i (mPoolSearchMap t)) (set_groups KPool (<[Z.to_nat m := RemoveOneRelation i g]> (mPoolPoolGroups t)) t)).
Proof.
  intros Hs Hi Hg. destruct (sorted_range KPool t i m Hs Hi) as (g0 & Hg0 & _ & Hr). cbn [groups] in Hg0. rewrite Hg in Hg0. injection Hg0 as <-.
  pose proof Hs as [S1 S2 S3 S4]. assert (members t KPool m = guids g) as Em by (unfold members; cbn [groups]; by rewrite Hg).
  assert (NoDup (guids g)) as Hnd by (rewrite <- Em; apply S4). destruct (RemoveOneRelation_guids i g Hnd) as [N1 N2]. split.
  - apply (sorted_change KPool m (RemoveOneRelation i g)); [done|done| |done| |].
    + intros He. apply (S2 m g); [done|]. unfold isEmpty in *. cbn in He. by destruct (ExplicitlyChanced g), (EqualChanced g).
    + intros x. unfold guids in N2. rewrite N2. fold (guids g). rewrite <- Em, S3, lookup_delete_Some. cbn [search_map]. naive_solver.
    + intros x j Hj. rewrite lookup_delete_Some. cbn [search_map]. split; [naive_solver|]. intros Hx. split; [|done]. intros <-. congruence.
  - apply delete_subseteq.
  - intros k Hk. split; [by rewrite groups_set_search, groups_set, decide_False|]. rewrite search_set, decide_False by done. by rewrite search_set_groups.
  - done.
  - done.
Qed.

Lemma cut_cycle_ok fuel t i checked :
  sorted KPool t -> i ∉ checked -> (size (dom (mPoolSearchMap t) ∖ checked) < fuel)%nat ->
  trimmed t (cut_cycle fuel t i checked) /\ ends (mPoolSearchMap (cut_cycle fuel t i checked)) i /\
  (forall x, x ∈ checked -> mPoolSearchMap (cut_cycle fuel t i checked) !! x = mPoolSearchMap t !! x).
Proof.
  intros Hs. revert i checked. induction fuel as [|fuel IH]; intros i checked Hi Hf; [lia|]. cbn [cut_cycle].
  destruct (mPoolSearchMap t !! i) as [m|] eqn:E; [|split; [by apply trimmed_refl|split; [exists []; by apply path_end|done]]].
  case_bool_decide as Hm.
  - destruct (sorted_range KPool t i m Hs E) as (g & Hg & _ & Hr). cbn [groups] in Hg. rewrite Hg.
    split; [by apply cut_link|]. split; [exists []; apply path_end; apply lookup_delete_eq|]. intros x Hx. apply lookup_delete_ne. by intros ->.
  - destruct (IH m ({[i]} ∪ checked)) as (I1 & [l Hl] & I3); [done| |].
    + enough (size (dom (mPoolSearchMap t) ∖ ({[i]} ∪ checked)) < size (dom (mPoolSearchMap t) ∖ checked))%nat by lia.
      apply subset_size. split; [set_solver|]. intros H. assert (i ∈ dom (mPoolSearchMap t)) by (apply elem_of_dom; by eexists). set_solver.
    + split; [done|]. split; [|intros x Hx; apply I3; set_solver]. exists (i :: l). apply (path_up _ i m); [|done]. rewrite I3 by set_solver. done.
Qed.

Lemma cut_list_ok l t :
  sorted KPool t ->
  let t' := foldl (fun t i => cut_cycle (S (size (mPoolSearchMap t))) t i ∅) t l in
  trimmed t t' /\ forall i, i ∈ l -> ends (mPoolSearchMap t') i.
Proof.
  revert t. induction l as [|i l IH]; intros t Hs; cbn zeta; [split; [by apply trimmed_refl|by intros i ?%not_elem_of_nil]|]. cbn [foldl].
  destruct (cut_cycle_ok (S (size (mPoolSearchMap t))) t i ∅ Hs) as (C1 & C2 & _).
  { apply not_elem_of_empty. }
  { rewrite difference_empty_L, size_dom. lia. }
  destruct (IH _ (tr_sorted _ _ C1)) as [I1 I2]. split; [by apply (trimmed_trans _ _ _ C1)|]. intros j [->|Hj]%elem_of_cons; [|by apply I2].
  apply (ends_submap _ _ _ (tr_fewer _ _ I1) C2).
Qed.

(** Links are between pools, and a pool is not linked to itself. *)
Definition linked (t : Tables) : Prop := forall c m, mPoolSearchMap t !! c = Some m -> 0 <= c <= max_pool_id t /\ c <> m.

(** The last pool is not asked: the pool above it is. *)
Lemma cut_cycles_ok t : 0 <= max_pool_id t -> sorted KPool t -> linked t -> trimmed t (cut_cycles t) /\ forall i, ends (mPoolSearchMap (cut_cycles t)) i.
Proof.
  intros H0 Hs Hl. unfold cut_cycles. destruct (cut_list_ok (seqZ 0 (max_pool_id t)) t Hs) as [C1 C2]. split; [done|]. revert C1 C2. set (t' := foldl _ _ _).
  intros C1 C2. assert (forall c m, mPoolSearchMap t' !! c = Some m -> 0 <= c <= max_pool_id t /\ 0 <= m <= max_pool_id t /\ c <> m) as Hl'.
  { intros c m E. destruct (sorted_range KPool t' c m (tr_sorted _ _ C1) E) as (_ & _ & _ & Hr). rewrite (tr_max _ _ C1) in Hr.
    destruct (Hl c m (lookup_weaken _ _ _ _ E (tr_fewer _ _ C1))). lia. }
  intros i. destruct (mPoolSearchMap t' !! i) as [m|] eqn:E; [|exists []; by apply path_end]. destruct (Hl' i m E) as (Hi & Hm & Hne).
  destruct (decide (i < max_pool_id t)) as [Hlt|Hge]; [apply C2; apply elem_of_seqZ; lia|].
  destruct (C2 m) as [l Hp]; [apply elem_of_seqZ; lia|]. exists (i :: l). by apply (path_up _ i m).
Qed.

(** ** A forest is left alone *)

Definition link (m : gmap Z Z) (x y : Z) : Prop := m !! x = Some y.

Lemma path_link m x y l : path m x l -> tc (link m) x y -> exists l', path m y l' /\ (length l' < length l)%nat.
Proof.
  intros H Ht. revert l H. induction Ht as [x y E|x y z E _ IH]; intros l H; inversion H as [? E'|? j l' E' H']; subst; unfold link in E; try congruence;
    assert (j = y) as -> by congruence; [by exists l'; split; [|cbn; lia]|]. destruct (IH l' H') as (l2 & H2 & Hlen). exists l2. split; [done|cbn; lia].
Qed.

Lemma ends_no_cycle m x : ends m x -> ~ tc (link m) x x.
Proof. intros [l H] Ht. destruct (path_link _ _ _ _ H Ht) as (l' & H' & Hlen). rewrite (path_unique _ _ _ _ H' H) in Hlen. lia. Qed.

Lemma cut_cycle_forest fuel t i checked :
  (forall j, ends (mPoolSearchMap t) j) -> (forall x, x ∈ checked -> rtc (link (mPoolSearchMap t)) x i) -> cut_cycle fuel t i checked = t.
Proof.
  intros He. revert i checked. induction fuel as [|fuel IH]; intros i checked Hc; cbn [cut_cycle]; destruct (mPoolSearchMap t !! i) as [m|] eqn:E; try done.
  assert (forall x, x ∈ {[i]} ∪ checked -> rtc (link (mPoolSearchMap t)) x i) as Hc' by (intros x [->%elem_of_singleton|Hx]%elem_of_union; [done|by apply Hc]).
  case_bool_decide as Hm.
  - exfalso. apply (ends_no_cycle _ i (He i)). apply (tc_rtc_r _ m); [by apply tc_once|by apply Hc'].
  - apply IH. intros x Hx. apply (rtc_r _ i); [by apply Hc'|done].
Qed.

Lemma cut_cycles_forest t : (forall j, ends (mPoolSearchMap t) j) -> cut_cycles t = t.
Proof.
  intros He. unfold cut_cycles. generalize (seqZ 0 (max_pool_id t)) as l. induction l as [|i l IH]; [done|]. cbn [foldl].
  rewrite cut_cycle_forest; [done|done|by intros x ?%not_elem_of_empty].
Qed.
