(* ===== verification/PoolTables.v ===== *)
(** * PoolTables: the tables loaded from tidy rows are well-formed

    Rows are [keyed] when a spawn, quest or pool has one row (so a pool one mother, which
    the key of the table [pool_pool] does not ask for) and numbers are not zero; they are
    [tidy] when moreover a pool with quests has no other entries and is in no other pool.
    Circles of pools are allowed: the loader makes a forest of them itself. *)

From S2P Require Import Prelude Float32.
From S2P Require Import Pool PoolLoad PoolSpec PoolForest.

Definition guid_of (row : Z * Z * float32) : Z := row.1.1.
Definition pool_of (row : Z * Z * float32) : Z := row.1.2.

Record keyed (r : Rows) : Prop := {
  td_some : template_rows r <> [];
  td_template : forall row, row ∈ template_rows r -> 0 <= row.1 /\ 0 <= row.2 < 2 ^ 31 - 1;
  td_creatures : NoDup (map guid_of (creature_rows r));
  td_gameobjects : NoDup (map guid_of (gameobject_rows r));
  td_pools : NoDup (map guid_of (pool_rows r));
  td_quests : NoDup (map fst (quest_rows r));
  td_spawns : forall row, row ∈ creature_rows r ++ gameobject_rows r -> 0 < guid_of row /\ 0 <= pool_of row;
  td_links : forall row, row ∈ pool_rows r -> 0 < guid_of row /\ 0 < pool_of row;
  td_quest_ids : forall row, row ∈ quest_rows r -> 0 < row.1 /\ 0 <= row.2
}.

Record tidy (r : Rows) : Prop := {
  td_keyed :> keyed r;
  td_alone : forall row q, q ∈ quest_rows r -> row ∈ creature_rows r ++ gameobject_rows r ++ pool_rows r -> pool_of row <> q.2;
  td_on_top : forall row q, q ∈ quest_rows r -> row ∈ pool_rows r -> guid_of row <> q.2
}.

(** ** The empty tables *)

Record empty_tables (t : Tables) : Prop := {
  em_max : 0 <= max_pool_id t;
  em_template : zlen (mPoolTemplate t) = max_pool_id t + 1;
  em_limit : forall i l, znth (mPoolTemplate t) i = Some l -> 0 <= l < 2 ^ 31 - 1;
  em_sorted : forall k, sorted k t;
  em_search : forall k x, search_map t k !! x = None
}.

Lemma foldr_max_le l x : x ∈ l -> x <= foldr Z.max 0 l.
Proof. induction l as [|y l IH]; [by intros ?%not_elem_of_nil|]. intros [->|H]%elem_of_cons; cbn; [lia|]. specialize (IH H). lia. Qed.

Lemma foldr_max_nonneg l : 0 <= foldr Z.max 0 l.
Proof. induction l; cbn; lia. Qed.

Lemma znth_replicate {A} n (x y : A) i : znth (replicate n x) i = Some y -> y = x.
Proof. unfold znth. destruct (i <? 0); [done|]. intros [-> _]%lookup_replicate. done. Qed.

Lemma Initialize_empty r rc rg : empty_tables (Initialize r rc rg).
Proof.
  unfold Initialize. set (max := foldr Z.max 0 _). assert (0 <= max) as H0 by apply foldr_max_nonneg. clearbody max.
  split; cbn [max_pool_id mPoolTemplate]; [done| | | |by intros [] x].
  - unfold zlen. rewrite length_replicate. lia.
  - intros i l ->%znth_replicate. lia.
  - intros k. set (t := mkTables _ _ _ _ _ _ _ _ _ _ _ _). assert (groups t k = replicate (Z.to_nat (max + 1)) (mkGroup 0 [] [])) as Eg by by destruct k.
    assert (forall i, members t k i = []) as Em.
    { intros i. unfold members. rewrite Eg. destruct (znth _ i) as [g|] eqn:E; [|done]. by apply znth_replicate in E as ->. }
    split.
    + rewrite Eg. unfold zlen. rewrite length_replicate. cbn. lia.
    + intros i g. rewrite Eg. intros ->%znth_replicate. done.
    + intros x i. rewrite Em. destruct k; cbn; rewrite lookup_empty; (split; [by intros ?%not_elem_of_nil|done]).
    + intros i. rewrite Em. constructor.
Qed.

Lemma load_template_empty t row : empty_tables t -> 0 <= row.1 <= max_pool_id t -> 0 <= row.2 < 2 ^ 31 - 1 -> empty_tables (load_template t row).
Proof.
  intros [E1 E2 E3 E4 E5] Hi Hl. unfold load_template. split; cbn [set_template max_pool_id mPoolTemplate]; [done| | | |].
  - unfold zlen in *. by rewrite length_insert.
  - intros i l. rewrite znth_insert by lia. destruct (decide (i = row.1)); [by intros [= <-]|apply E3].
  - intros k. destruct (E4 k) as [S1 S2 S3 S4]. by destruct k.
  - intros k x. specialize (E5 k x). by destruct k.
Qed.

Lemma templates_empty r rc rg : keyed r -> empty_tables (foldl load_template (Initialize r rc rg) (template_rows r)).
Proof.
  intros Hr. assert (forall row, row ∈ template_rows r -> 0 <= row.1 <= max_pool_id (Initialize r rc rg) /\ 0 <= row.2 < 2 ^ 31 - 1) as Hrows.
  { intros row H. destruct (td_template r Hr row H) as [H1 H2]. split; [|done]. split; [done|]. apply foldr_max_le. by apply list_elem_of_fmap_2. }
  revert Hrows. generalize (template_rows r) as l. generalize (Initialize_empty r rc rg). generalize (Initialize r rc rg) as t.
  intros t Ht l. revert t Ht. induction l as [|row l IH]; intros t Ht Hrows; [done|]. cbn [foldl]. apply IH.
  - destruct (Hrows row) as [H1 H2]; [by constructor|]. by apply load_template_empty.
  - intros row' H. apply (Hrows row'). by constructor.
Qed.

(** ** The tables row by row *)

Lemma load_creature_step e t row :
  load_creature e t row = t \/ pool_of row <= max_pool_id t /\ True /\ exists c, load_creature e t row = add_row KCreature t (guid_of row) (pool_of row) c.
Proof.
  destruct row as [[x i] c]. unfold load_creature, pool_of, guid_of; cbn. destruct (negb _); [by left|]. destruct (Z.ltb_spec (max_pool_id t) i); [by left|].
  destruct (bad_chance c); [by left|]. cbn. right. split; [done|]. split; [done|by exists c].
Qed.

Lemma load_gameobject_step e t row :
  load_gameobject e t row = t \/ pool_of row <= max_pool_id t /\ True /\ exists c, load_gameobject e t row = add_row KGameObject t (guid_of row) (pool_of row) c.
Proof.
  destruct row as [[x i] c]. unfold load_gameobject, pool_of, guid_of; cbn. destruct (negb (has_data e _ x)); [by left|]. destruct (negb _); [by left|].
  destruct (Z.ltb_spec (max_pool_id t) i); [by left|]. destruct (bad_chance c); [by left|]. cbn. right. split; [done|]. split; [done|by exists c].
Qed.

Definition link_ok (max : Z) (row : Z * Z * float32) : Prop := guid_of row <= max /\ guid_of row <> pool_of row.

Lemma load_pool_step t row :
  load_pool t row = t \/ pool_of row <= max_pool_id t /\ link_ok (max_pool_id t) row /\ exists c, load_pool t row = add_row KPool t (guid_of row) (pool_of row) c.
Proof.
  destruct row as [[x i] c]. unfold load_pool, link_ok, pool_of, guid_of; cbn. destruct (Z.ltb_spec (max_pool_id t) i); [by left|].
  destruct (Z.ltb_spec (max_pool_id t) x); [by left|]. destruct (Z.eqb_spec i x); [by left|]. destruct (bad_chance c); [by left|]. cbn.
  right. split; [done|]. split; [by split|by exists c].
Qed.

Lemma load_quest_step e (st : Tables * gmap Z bool) row :
  (load_quest e st row).1 = st.1 \/ row.2 <= max_pool_id st.1 /\ True /\ exists c, (load_quest e st row).1 = add_row KQuest st.1 row.1 row.2 c.
Proof.
  destruct st as [t types], row as [q i]. unfold load_quest; cbn [fst snd]. destruct (quest_type e q) as [[daily weekly]|]; [|by left].
  destruct (Z.ltb_spec (max_pool_id t) i); [by left|]. cbn [orb]. destruct (negb (daily || weekly)); [by left|]. destruct (negb (eqb _ _)); [by left|].
  destruct (at_key q (mQuestCreatureRelation t)), (at_key q (mQuestGORelation t)); [by left|..]; right; (split; [done|]; split; [done|by eexists]).
Qed.

(** What the phases leave: an entry comes from its row. *)
Definition from {R} (rows : list R) (key in_pool : R -> Z) (m : gmap Z Z) : Prop :=
  forall x i, m !! x = Some i -> exists row, row ∈ rows /\ key row = x /\ in_pool row = i.

Record loaded (r : Rows) (t : Tables) : Prop := {
  lo_max : 0 <= max_pool_id t;
  lo_template : zlen (mPoolTemplate t) = max_pool_id t + 1;
  lo_limit : forall i l, znth (mPoolTemplate t) i = Some l -> 0 <= l < 2 ^ 31 - 1;
  lo_sorted : forall k, sorted k t;
  lo_creatures : from (creature_rows r) guid_of pool_of (mCreatureSearchMap t);
  lo_gameobjects : from (gameobject_rows r) guid_of pool_of (mGameobjectSearchMap t);
  lo_pools : from (pool_rows r) guid_of pool_of (mPoolSearchMap t);
  lo_quests : from (quest_rows r) fst snd (mQuestSearchMap t);
  lo_linked : linked t;
  lo_ends : forall i, ends (mPoolSearchMap t) i
}.

(** The pools: the rows, and the check for circular references. *)
Lemma pools_loaded rows t :
  NoDup (map guid_of rows) -> (forall row, row ∈ rows -> 0 < guid_of row /\ 0 < pool_of row) -> 0 <= max_pool_id t ->
  zlen (mPoolTemplate t) = max_pool_id t + 1 -> sorted KPool t -> (forall x, mPoolSearchMap t !! x = None) ->
  let t' := load_pools t rows in
  sorted KPool t' /\ (forall k, k <> KPool -> same_kind k t t') /\ max_pool_id t' = max_pool_id t /\ mPoolTemplate t' = mPoolTemplate t /\
  from rows guid_of pool_of (mPoolSearchMap t') /\ linked t' /\ forall i, ends (mPoolSearchMap t') i.
Proof.
  intros Hnd Hrows H0 Ht Hs Hempty. destruct rows as [|row0 rows0] eqn:Er.
  - cbn zeta. split_and!; try done; [intros x i; by rewrite Hempty|intros x i; by rewrite Hempty|]. intros i. exists []. by apply path_end.
  - rewrite <- Er in *. cbn zeta. assert (load_pools t rows = cut_cycles (foldl load_pool t rows)) as -> by by rewrite Er. destruct (phase KPool id load_pool guid_of pool_of link_ok load_pool_step rows t Hnd) as [P1 P2 P3 P4 P5]; [|done..|].
    { intros row H. split; [destruct (Hrows row H); lia|apply Hempty]. }
    unfold id in *. assert (forall x i, mPoolSearchMap (foldl load_pool t rows) !! x = Some i -> exists row, row ∈ rows /\ guid_of row = x /\ pool_of row = i /\ link_ok (max_pool_id t) row) as Hfrom.
    { intros x i E. destruct (P5 x i E) as [E'|E']; [|done]. cbn [search_map] in E'. congruence. }
    destruct (cut_cycles_ok (foldl load_pool t rows)) as [[C1 C2 C3 C4 C5] Hends]; [by rewrite P3|done| |].
    { intros c m E. destruct (Hfrom c m E) as (row & Hin & <- & <- & Hl1 & Hl2). rewrite P3. destruct (Hrows row Hin). split; [lia|done]. }
    split_and!; [done| |congruence|congruence| | |done].
    + intros k Hk. by apply (same_kind_trans k _ (foldl load_pool t rows)); auto.
    + intros x i E. destruct (Hfrom x i (lookup_weaken _ _ _ _ E C2)) as (row & Hin & Hx & Hi & _). by exists row.
    + intros x i E. destruct (Hfrom x i (lookup_weaken _ _ _ _ E C2)) as (row & Hin & Hx & Hi & Hl1 & Hl2). rewrite C4, P3. destruct (Hrows row Hin). subst. split; [lia|done].
Qed.

(** One phase, from an empty search map. *)
Lemma phase_from {S R} k (tab : S -> Tables) (step : S -> R -> S) key in_pool rows st :
  (forall st row, tab (step st row) = tab st \/ in_pool row <= max_pool_id (tab st) /\ True /\ exists c, tab (step st row) = add_row k (tab st) (key row) (in_pool row) c) ->
  NoDup (map key rows) -> (forall row, row ∈ rows -> 0 < key row /\ 0 <= in_pool row) -> (forall x, search_map (tab st) k !! x = None) ->
  zlen (mPoolTemplate (tab st)) = max_pool_id (tab st) + 1 -> sorted k (tab st) ->
  let t' := tab (foldl step st rows) in
  sorted k t' /\ from rows key in_pool (search_map t' k) /\ (forall k', k' <> k -> same_kind k' (tab st) t') /\
  max_pool_id t' = max_pool_id (tab st) /\ mPoolTemplate t' = mPoolTemplate (tab st).
Proof.
  intros Hstep Hnd Hrows Hempty Ht Hs. cbn zeta.
  destruct (phase k tab step key in_pool (fun _ _ => True) Hstep rows st Hnd) as [P1 P2 P3 P4 P5]; [|done..|].
  { intros row H. by destruct (Hrows row H). }
  split_and!; try done. intros x i E. destruct (P5 x i E) as [E'|(row & H1 & H2 & H3 & _)]; [by rewrite Hempty in E'|by exists row].
Qed.

Lemma load_tables_loaded e r rc rg : keyed r -> loaded r (load_tables e r (Initialize r rc rg)).
Proof.
  intros Hr. pose proof (templates_empty r rc rg Hr) as [E1 E2 E3 E4 E5]. unfold load_tables. set (t0 := foldl load_template _ _) in *. clearbody t0.
  destruct (phase_from KCreature id (load_creature e) guid_of pool_of (creature_rows r) t0 (load_creature_step e)) as (A1 & A2 & A3 & A4 & A5); [apply Hr| |auto..|].
  { intros row H. apply (td_spawns r Hr). apply elem_of_app. by left. }
  unfold id in A1, A2, A3, A4, A5. set (t1 := foldl (load_creature e) t0 _) in *. clearbody t1.
  destruct (phase_from KGameObject id (load_gameobject e) guid_of pool_of (gameobject_rows r) t1 (load_gameobject_step e)) as (B1 & B2 & B3 & B4 & B5); [apply Hr| | | | |].
  { intros row H. apply (td_spawns r Hr). apply elem_of_app. by right. }
  { intros x. unfold id. by rewrite (proj2 (A3 KGameObject ltac:(done))). }
  { unfold id. by rewrite A5, A4. }
  { unfold id. apply (sorted_same KGameObject t0); [by apply A3|done|done]. }
  unfold id in B1, B2, B3, B4, B5. set (t2 := foldl (load_gameobject e) t1 _) in *. clearbody t2.
  assert (forall k, k = KPool \/ k = KQuest -> same_kind k t0 t2) as AB by (intros k [-> | ->]; (eapply same_kind_trans; [by apply A3|by apply B3])).
  destruct (pools_loaded (pool_rows r) t2) as (C1 & C2 & C3 & C4 & C5 & C6 & C7); [apply Hr|apply Hr|congruence|congruence| | |].
  { apply (sorted_same KPool t0); [apply AB; by left|congruence|done]. }
  { intros x. pose proof (proj2 (AB KPool (or_introl eq_refl))) as E. cbn [search_map] in E. rewrite E. apply (E5 KPool). }
  set (t3 := load_pools t2 _) in *. clearbody t3.
  destruct (phase_from KQuest fst (load_quest e) fst snd (quest_rows r) (t3, ∅) (load_quest_step e)) as (D1 & D2 & D3 & D4 & D5); cbn [fst]; [apply Hr|apply Hr| |congruence| |].
  { intros x. rewrite (proj2 (C2 KQuest ltac:(done))), (proj2 (AB KQuest (or_intror eq_refl))). apply E5. }
  { apply (sorted_same KQuest t2); [by apply C2|done|]. apply (sorted_same KQuest t0); [apply AB; by right|congruence|done]. }
  cbn [fst] in D3, D4, D5. set (t4 := (foldl (load_quest e) (t3, ∅) _).1) in *. clearbody t4.
  assert (same_kind KCreature t1 t4) as SC by (eapply same_kind_trans; [by apply B3|eapply same_kind_trans; [by apply C2|by apply D3]]).
  assert (same_kind KGameObject t2 t4) as SG by (eapply same_kind_trans; [by apply C2|by apply D3]).
  assert (same_kind KPool t3 t4) as SP by by apply D3. destruct SP as [SP1 SP2] eqn:ESP. cbn [search_map] in SP2. split.
  - rewrite D4, C3, B4, A4. done.
  - congruence.
  - rewrite D5, C4, B5, A5. apply E3.
  - intros []; [apply (sorted_same _ t1)|apply (sorted_same _ t2)|apply (sorted_same _ t3)|]; (done || congruence).
  - pose proof (proj2 SC) as E. cbn [search_map] in E. by rewrite E.
  - pose proof (proj2 SG) as E. cbn [search_map] in E. by rewrite E.
  - by rewrite SP2.
  - done.
  - intros c m. rewrite SP2, D4. apply C6.
  - rewrite SP2. done.
Qed.

(** ** Well-formed *)

Section Loaded.
Context (r : Rows) (t : Tables) (Hr : keyed r) (Hl : loaded r t).

Lemma member_search k x i : x ∈ members t k i <-> search_map t k !! x = Some i.
Proof. apply (lo_sorted r t Hl k). Qed.

Lemma member_row k x i : k <> KQuest -> x ∈ members t k i ->
  exists row, row ∈ creature_rows r ++ gameobject_rows r ++ pool_rows r /\ guid_of row = x /\ pool_of row = i /\ 0 < x /\ (k = KPool -> row ∈ pool_rows r /\ 0 < i).
Proof.
  intros Hk. rewrite member_search. destruct k; [| | |done]; cbn [search_map]; intros H.
  - destruct (lo_creatures r t Hl x i H) as (row & Hin & <- & <-). exists row. rewrite !elem_of_app. split; [auto|]. split; [done|]. split; [done|].
    split; [|done]. apply (td_spawns r Hr). apply elem_of_app. by left.
  - destruct (lo_gameobjects r t Hl x i H) as (row & Hin & <- & <-). exists row. rewrite !elem_of_app. split; [auto|]. split; [done|]. split; [done|].
    split; [|done]. apply (td_spawns r Hr). apply elem_of_app. by right.
  - destruct (lo_pools r t Hl x i H) as (row & Hin & <- & <-). exists row. rewrite !elem_of_app. destruct (td_links r Hr row Hin). split_and!; auto.
Qed.

Lemma quest_row i : members t KQuest i <> [] -> exists q, q ∈ quest_rows r /\ q.2 = i.
Proof.
  destruct (members t KQuest i) as [|x l] eqn:E; [done|]. intros _. assert (x ∈ members t KQuest i) as H by (rewrite E; constructor).
  apply member_search in H. destruct (lo_quests r t Hl x i H) as (q & Hin & _ & H2). by exists q.
Qed.

(** As many calls as there are pools are enough. *)
Lemma loaded_size : (size (mPoolSearchMap t) <= Z.to_nat (max_pool_id t))%nat.
Proof.
  rewrite <- (size_dom (D:=gset Z)). rewrite <- (length_seqZ 1 (max_pool_id t)), <- (size_list_to_set (C:=gset Z) (seqZ 1 _)) by apply NoDup_seqZ.
  apply subseteq_size. intros c [m Hc]%elem_of_dom. apply elem_of_list_to_set, elem_of_seqZ. destruct (lo_linked r t Hl c m Hc) as [Hc1 _].
  apply (member_search KPool) in Hc. destruct (member_row KPool c m ltac:(done) Hc) as (row & _ & _ & _ & H0 & _). lia.
Qed.

Lemma loaded_depth i : (rank_of (mPoolSearchMap t) i <= Z.to_nat (max_pool_id t))%nat.
Proof. unfold rank_of. pose proof loaded_size. lia. Qed.

Lemma loaded_root i : ~ i ∈ map guid_of (pool_rows r) -> root t i.
Proof.
  intros H m Hm. destruct (member_row KPool i m ltac:(done) Hm) as (row & _ & <- & _ & _ & Hp). destruct (Hp eq_refl) as [Hin _]. apply H. by apply list_elem_of_fmap_2.
Qed.
End Loaded.

Section Tidy.
Context (r : Rows) (t : Tables) (Hr : tidy r) (Hl : loaded r t).

Lemma loaded_well_formed : well_formed t (rank_of (mPoolSearchMap t)).
Proof.
  destruct Hl as [L1 L2 L3 L4 L5 L6 L7 L8 L9 L10]. split.
  - done.
  - intros k. apply (L4 k).
  - done.
  - done.
  - intros k. apply (L4 k).
  - intros k i j x _. rewrite !(member_search r t Hl). congruence.
  - intros k i _. apply (L4 k).
  - intros k i x H. destruct (decide (k = KQuest)) as [->|Hk].
    + apply (member_search r t Hl) in H. destruct (L8 x i H) as (q & Hin & <- & _). destruct (td_quest_ids r Hr q Hin). lia.
    + destruct (member_row r t Hr Hl k x i Hk H) as (row & _ & _ & _ & H0 & _). lia.
  - intros i x H. apply (member_search r t Hl) in H. by destruct (L9 x i H).
  - intros k i Hq Hk. destruct (members t k i) as [|x l] eqn:E; [done|]. exfalso. assert (x ∈ members t k i) as H by (rewrite E; constructor).
    destruct (quest_row r t Hl i Hq) as (q & Hin & Hi). destruct (member_row r t Hr Hl k x i Hk H) as (row & Hrow & _ & Hp & _). apply (td_alone r Hr row q Hin Hrow). congruence.
  - intros i x H. apply (member_search r t Hl) in H. by apply rank_of_up.
Qed.

Lemma loaded_searchable : searchable t.
Proof.
  split.
  - intros c m. unfold kid. symmetry. apply (member_search r t Hl KPool).
  - intros k x i _ H. by apply (member_search r t Hl).
  - intros m c H. destruct (member_row r t Hr Hl KPool c m ltac:(done) H) as (row & _ & _ & _ & _ & Hp). destruct (Hp eq_refl). lia.
  - intros i m Hq H. destruct (quest_row r t Hl i Hq) as (q & Hin & Hi). destruct (member_row r t Hr Hl KPool i m ltac:(done) H) as (row & _ & Hx & _ & _ & Hp).
    destruct (Hp eq_refl) as [Hrow _]. apply (td_on_top r Hr row q Hin Hrow). congruence.
Qed.
End Tidy.
