(* ===== verification/PoolGrid.v ===== *)
(** * PoolGrid: the grids show what is active *)

From S2P Require Import Prelude Float32.
From S2P Require Import Pool PoolLoad PoolHistory.

(** The creatures or game objects in the grids after the calls of a log. *)
Fixpoint in_grid (k : Kind) (l : list Event) (g : gset Z) : gset Z :=
  match l with
  | [] => g
  | AddToGrid k' x :: l' => in_grid k l' (if decide (k' = k) then {[x]} ∪ g else g)
  | RemoveFromGrid k' x :: l' => in_grid k l' (if decide (k' = k) then g ∖ {[x]} else g)
  | _ :: l' => in_grid k l' g
  end.

Lemma in_grid_app k l1 l2 g : in_grid k (l1 ++ l2) g = in_grid k l2 (in_grid k l1 g).
Proof. revert g. induction l1 as [|[] l1 IH]; intros g; cbn; auto. Qed.

Section Grid.
Context (e : Env) (t : Tables).

(** In the grids is what is active and has data. *)
Definition shown (s : Server) : Prop :=
  forall k x, k = KCreature \/ k = KGameObject -> x ∈ in_grid k (log s) ∅ <-> IsActiveObject k x (mSpawnedData s) = true /\ has_data e k x = true.

Definition showing (s s' : Server) : Prop := shown s -> shown s'.
#[export] Instance showing_refl : Reflexive showing.
Proof. by intros s H. Qed.
#[export] Instance showing_trans : Transitive showing.
Proof. intros a b c H1 H2 H. auto. Qed.
Abbreviation shows := (preserves showing).

(** What touches neither the grids nor the active spawns. *)
Lemma shows_quiet (f : Server -> Server) :
  (forall s, log (f s) = log s /\ forall k x, k = KCreature \/ k = KGameObject -> IsActiveObject k x (mSpawnedData (f s)) = IsActiveObject k x (mSpawnedData s)) ->
  shows (modify f : T unit).
Proof. intros Hf. apply preserves_modify. intros s H k x Hk. destruct (Hf s) as [-> Ha]. rewrite Ha by done. by apply H. Qed.

Lemma shows_note ev : (forall k x, ev <> AddToGrid k x /\ ev <> RemoveFromGrid k x) -> shows (modify (note ev) : T unit).
Proof.
  intros Hev. apply preserves_modify. intros s H k x Hk. cbn [note log mSpawnedData]. rewrite in_grid_app.
  destruct ev as [k' y|k' y|k' y|k' y]; [by destruct (Hev k' y)|apply H; done|by destruct (Hev k' y)|apply H; done].
Qed.

Lemma IsActive_count_up k x i a : k = KCreature \/ k = KGameObject -> IsActiveObject k x (count_up i a) = IsActiveObject k x a.
Proof. by intros [-> | ->]. Qed.
Lemma IsActive_count_down k x i a : k = KCreature \/ k = KGameObject -> IsActiveObject k x (count_down i a) = IsActiveObject k x a.
Proof. by intros [-> | ->]. Qed.

(** Activated and put into its grid, taken out and no longer active. *)
Lemma shows_appear k y i :
  k = KCreature \/ k = KGameObject -> shows (on_active (ActivateObject k y i) ;; if has_data e k y then modify (note (AddToGrid k y)) else mret tt).
Proof.
  intros Hk s H. unfold on_active, mbind, M_bind, modify. destruct (has_data e k y) eqn:Ed; cbn [snd fst mret M_ret]; intros k' x Hk'; specialize (H k' x Hk'); cbn [note set_active log mSpawnedData];
    unfold ActivateObject; rewrite IsActive_count_up by done; rewrite ?in_grid_app; cbn [in_grid];
    destruct Hk as [-> | ->], Hk' as [-> | ->]; cbn [IsActiveObject mSpawnedCreatures mSpawnedGameobjects] in *; rewrite ?decide_True, ?decide_False by done;
    rewrite ?bool_decide_eq_true in *; try done; rewrite ?elem_of_union, ?elem_of_singleton; rewrite H; split; try naive_solver; intros [[->|?] ?]; naive_solver congruence.
Qed.

Lemma shows_vanish k y i :
  k = KCreature \/ k = KGameObject -> shows ((if has_data e k y then modify (note (RemoveFromGrid k y)) else mret tt) ;; on_active (RemoveObject k y i)).
Proof.
  intros Hk s H. unfold on_active, mbind, M_bind, modify. destruct (has_data e k y) eqn:Ed; cbn [snd fst mret M_ret]; intros k' x Hk'; specialize (H k' x Hk'); cbn [note set_active log mSpawnedData];
    unfold RemoveObject; rewrite IsActive_count_down by done; rewrite ?in_grid_app; cbn [in_grid];
    destruct Hk as [-> | ->], Hk' as [-> | ->]; cbn [IsActiveObject mSpawnedCreatures mSpawnedGameobjects] in *; rewrite ?decide_True, ?decide_False by done;
    rewrite ?bool_decide_eq_true in *; try done; rewrite ?elem_of_difference, ?elem_of_singleton; rewrite H; clear H; naive_solver congruence.
Qed.

Lemma shows_assoc {A} (m f : T unit) (g : T A) : shows ((m ;; f) ;; g) -> shows (m ;; (f ;; g)).
Proof. intros H s. specialize (H s). unfold mbind, M_bind in *. by destruct (m s) as [[[]|] s1]. Qed.

Lemma shows_mapM {A} (f : A -> T unit) l : (forall x, shows (f x)) -> shows (mapM_ f l).
Proof. intros Hf. induction l as [|x l IH]; cbn [mapM_]; [apply preserves_ret, _|]. apply preserves_bind; [apply _|done|by intros []]. Qed.

Lemma shows_draw {A} (f : nat -> A) : shows (draw f).
Proof.
  unfold draw. apply preserves_bind; [apply _|apply preserves_get, _|]. intros s0. apply preserves_bind; [apply _|by apply shows_quiet|]. intros _. apply preserves_ret, _.
Qed.

Lemma shows_group k i : shows (group_at t k i).
Proof. unfold group_at. destruct (znth _ i); [apply preserves_ret, _|apply preserves_throw, _]. Qed.

Lemma shows_limit i : shows (limit_at t i).
Proof. unfold limit_at. destruct (znth _ i); [apply preserves_ret, _|apply preserves_throw, _]. Qed.

Lemma shows_active k y i : k = KPool \/ k = KQuest -> shows (on_active (ActivateObject k y i)) /\ shows (on_active (RemoveObject k y i)).
Proof. intros Hk. split; apply shows_quiet; intros s; (split; [done|]); by destruct Hk as [-> | ->]; intros k' x [-> | ->]. Qed.
#[local] Ltac shows_step :=
  first [apply shows_draw | apply preserves_bind; [apply _|..] | apply preserves_ret, _ | apply preserves_throw, _ | apply preserves_get, _].

Lemma shows_RollOne k g trig : shows (RollOne e k g trig).
Proof.
  unfold RollOne. shows_step; [shows_step|]. intros s0. shows_step.
  - destruct (ExplicitlyChanced g); repeat (intros; shows_step).
  - intros [o|]; [shows_step|]. destruct (EqualChanced g) as [|o l]; [shows_step|]. shows_step; [shows_step|]. intros n. destruct (znth _ n); repeat (intros; shows_step).
Qed.

Lemma shows_select c : shows (SelectRandomContainerElement e c).
Proof. unfold SelectRandomContainerElement. shows_step; [shows_step|]. intros n. destruct (znth _ n); repeat (intros; shows_step). Qed.

Lemma shows_quest_active q i : shows (on_active (ActivateObject KQuest q i)).
Proof. apply shows_active. by right. Qed.

Lemma shows_load_quests i l limit : shows (load_quests t i l limit).
Proof.
  revert limit. induction l as [|q l IH]; intros limit; cbn [load_quests]; [shows_step|]. shows_step; [apply shows_quest_active|]. intros _.
  shows_step; [by apply shows_quiet|]. intros _. destruct (_ =? 0); [shows_step|apply IH].
Qed.

Lemma shows_recycle n limit c new : shows (recycle e n limit c new).
Proof.
  revert c new. induction n as [|n IH]; intros c new; cbn [recycle]; [shows_step|]. shows_step; [apply shows_select|]. intros q. destruct (_ && _); [apply IH|shows_step].
Qed.

Lemma shows_activate n i limit new : shows (activate_quests e t n i limit new).
Proof.
  revert limit new. induction n as [|n IH]; intros limit new; cbn [activate_quests]; [shows_step|]. shows_step; [apply shows_select|]. intros q.
  shows_step; [apply shows_quest_active|]. intros _. shows_step; [by apply shows_quiet|]. intros _. destruct (_ && _); [apply IH|shows_step].
Qed.

Section Recursion.
Context (recD recS : Z -> T unit) (HD : forall i, shows (recD i)) (HS : forall i, shows (recS i)).

Lemma shows_despawn_one k g only o : shows (despawn_one e t recD k g only o).
Proof.
  unfold despawn_one. shows_step; [shows_step|]. intros s0. destruct (_ && _); [|shows_step]. unfold Despawn1Object.
  destruct k; [apply shows_vanish; by left|apply shows_vanish; by right| |]; (shows_step; [|intros _; apply shows_active; auto]).
  - apply HD.
  - by apply shows_quiet.
Qed.

Lemma shows_DespawnObject k g only : shows (DespawnObject e t recD k g only).
Proof. unfold DespawnObject. shows_step; [|intros _]; apply shows_mapM; intros o; apply shows_despawn_one. Qed.

Lemma shows_spawn1 k x i : shows (on_active (ActivateObject k x i) ;; Spawn1Object e t recS k x).
Proof.
  assert (forall k, k = KCreature \/ k = KGameObject -> shows (on_active (ActivateObject k x i) ;;
    if has_data e k x then modify (note (AddToGrid k x)) ;; if grid_loaded e k x then modify (note (LoadFromDB_ k x)) else mret tt else mret tt)) as Hspawn.
  { intros k' Hk. pose proof (shows_appear k' x i Hk) as Ha. destruct (has_data e k' x); [|done]. apply shows_assoc. shows_step; [done|]. intros _.
    destruct (grid_loaded e k' x); [|shows_step]. apply shows_note. by intros. }
  destruct k; cbn [Spawn1Object]; [apply Hspawn; by left|apply Hspawn; by right| |]; (shows_step; [apply shows_active; auto|intros _]).
  - apply HS.
  - by apply shows_quiet.
Qed.

Lemma shows_loop n k g trig last : shows (spawn_loop e t recD recS n k g trig last).
Proof.
  revert trig last. induction n as [|n IH]; intros trig last; cbn [spawn_loop]; [shows_step|]. shows_step; [apply shows_RollOne|]. intros [o|]; [|apply IH].
  destruct (_ =? last); [apply IH|]. destruct (_ =? trig).
  - shows_step; [|intros _; apply IH]. unfold ReSpawn1Object. destruct k; try shows_step; (destruct (has_data e _ _); [apply shows_note; by intros|shows_step]).
  - apply shows_assoc. shows_step; [apply shows_spawn1|]. intros _. destruct (negb _); [|apply IH]. shows_step; [apply shows_DespawnObject|]. intros _. apply IH.
Qed.

Lemma shows_spawn_quests g limit trig : shows (spawn_quests e t recD g limit trig).
Proof.
  unfold spawn_quests. shows_step; [shows_step|]. intros s0.
  assert (forall new : gset Z, shows (DespawnObject e t recD KQuest g 0 ;;
    new ← (if (Z.of_nat (size new) <? limit) && negb (bool_decide (mActiveQuests (mSpawnedData s0) = ∅)) then recycle e (size (mActiveQuests (mSpawnedData s0))) limit (mActiveQuests (mSpawnedData s0)) new else mret new);
    if bool_decide (new = ∅) then mret tt
    else activate_quests e t (size new) (poolId g) limit new ;; if trig =? 0 then SaveQuestsToDB t else mret tt)) as H.
  { intros new. shows_step; [apply shows_DespawnObject|]. intros _. shows_step; [destruct (_ && _); [apply shows_recycle|shows_step]|]. intros new'. case_bool_decide; [shows_step|].
    shows_step; [apply shows_activate|]. intros _. destruct (trig =? 0); [by apply shows_quiet|shows_step]. }
  destruct (trig =? 0); [|apply H]. destruct (merge_sort _ _); [apply H|apply shows_load_quests].
Qed.

Lemma shows_SpawnPool_kind k i trig : shows (SpawnPool_kind e t recD recS k i trig).
Proof.
  unfold SpawnPool_kind. shows_step; [apply shows_group|]. intros g. destruct (isEmpty g); [shows_step|]. shows_step; [apply shows_limit|]. intros l.
  unfold SpawnObject. destruct k; try apply shows_spawn_quests; (unfold spawn_objects; shows_step; [shows_step|]; intros s0; apply shows_loop).
Qed.

Lemma shows_despawn_kind k i : shows (despawn_kind e t recD k i).
Proof. unfold despawn_kind. shows_step; [apply shows_group|]. intros g. destruct (isEmpty g); [shows_step|apply shows_DespawnObject]. Qed.
End Recursion.

Lemma shows_DespawnPool d i : shows (DespawnPool e t d i).
Proof.
  revert i. induction d as [|d IH]; intros i; cbn [DespawnPool]; [shows_step|]. unfold DespawnPool_body.
  do 3 (shows_step; [by apply shows_despawn_kind|intros _]). by apply shows_despawn_kind.
Qed.

Lemma shows_SpawnPool d i : shows (SpawnPool e t d i).
Proof.
  revert i. induction d as [|d IH]; intros i; cbn [SpawnPool]; [shows_step|]. unfold SpawnPool_body. pose proof (shows_DespawnPool d) as HD.
  do 3 (shows_step; [by apply shows_SpawnPool_kind|intros _]). by apply shows_SpawnPool_kind.
Qed.

Lemma shows_UpdatePool d k i x : shows (UpdatePool e t d k i x).
Proof. unfold UpdatePool. pose proof (shows_DespawnPool d). pose proof (shows_SpawnPool d). destruct (negb _); by apply shows_SpawnPool_kind. Qed.

Lemma shows_change d skip : shows (change_quests e t d skip).
Proof.
  unfold change_quests. shows_step; [|intros _; by apply shows_quiet]. apply shows_mapM. intros g. destruct (quest_type _ _) as [q|]; [|shows_step].
  destruct (skip q); [shows_step|apply shows_UpdatePool].
Qed.

Lemma shows_obey d c : shows (obey e t d c).
Proof.
  destruct c; cbn [obey]; [apply shows_SpawnPool|apply shows_DespawnPool| |apply shows_change..].
  unfold respawned. set (i := if x =? 0 then _ else _). destruct (i =? 0); [shows_step|apply shows_UpdatePool].
Qed.

Lemma shows_start d row : shows (spawn_start e t d row).
Proof. unfold spawn_start. destruct (negb _); [shows_step|]. destruct (_ =? 0); [apply shows_SpawnPool|shows_step]. Qed.
End Grid.
