(* ===== verification/PoolQuest.v ===== *)
(** * PoolQuest: the quests of a new day *)

From S2P Require Import Prelude Float32.
From S2P Require Import Pool PoolLoad PoolSpec PoolHistory PoolForest PoolTables.

Section Quests.
Context (e : Env) (t : Tables).

Definition quests_of (s : Server) : gset Z := mActiveQuests (mSpawnedData s).

Lemma despawn_quest_runs rec g o s :
  runs (despawn_one e t rec KQuest g 0 o) s (fun _ s' => quests_of s' = quests_of s ∖ {[guid o]}).
Proof.
  unfold despawn_one. apply runs_bind, runs_get. rewrite Z.eqb_refl. cbn [orb]. rewrite andb_true_r. cbn [IsActiveObject]. case_bool_decide as H.
  - apply runs_bind. unfold Despawn1Object, despawn_quest. apply runs_modify. by apply runs_modify.
  - apply runs_ret. unfold quests_of. set_solver.
Qed.

Lemma despawn_quests_runs rec g l s :
  runs (mapM_ (despawn_one e t rec KQuest g 0) l) s (fun _ s' => quests_of s' = quests_of s ∖ list_to_set (map guid l)).
Proof.
  revert s. induction l as [|o l IH]; intros s; cbn [mapM_ map list_to_set]; [apply runs_ret; set_solver|].
  eapply runs_bind, runs_mono; [apply despawn_quest_runs|]. intros [] s1 H1. eapply runs_mono; [apply IH|]. intros [] s2 H2. rewrite H2, H1. set_solver.
Qed.

Context (rank : Z -> nat) (Hwf : well_formed t rank) (Hfair : fair e).

(** As many new ones as the limit, each once. *)
Lemma activate_runs n i limit (new : gset Z) s :
  0 < limit < 2 ^ 32 -> limit <= Z.of_nat (size new) -> (size new <= n)%nat ->
  runs (activate_quests e t n i limit new) s (fun _ s' => exists N, quests_of s' = quests_of s ∪ N /\ N ⊆ new /\ Z.of_nat (size N) = limit).
Proof.
  revert limit new s. induction n as [|n IH]; intros limit new s Hlim Hsize Hn; [lia|]. cbn [activate_quests].
  assert (new <> ∅) as Hne by (intros ->; rewrite size_empty in Hsize; lia). apply runs_bind, (select_runs e t rank Hwf Hfair); [done|].
  intros q s1 Hq Hs1 _. apply runs_bind, runs_modify. apply runs_bind. unfold spawn_quest. apply runs_modify.
  assert (quests_of s1 = quests_of s) as Hs1' by (unfold quests_of; by rewrite Hs1). set (s2 := set_quests _ _ _). assert (quests_of s2 = quests_of s ∪ {[q]}) as E2 by (unfold quests_of; cbn; rewrite Hs1; set_solver).
  clearbody s2. assert (size (new ∖ {[q]}) = pred (size new)) as Esz by (rewrite size_difference, size_singleton by set_solver; lia).
  assert (u32 (limit - 1) = limit - 1) as -> by (unfold u32; apply Z.mod_small; lia).
  destruct (Z.eqb_spec (limit - 1) 0) as [E|E]; cbn [negb andb].
  - apply runs_ret. exists {[q]}. rewrite size_singleton. split; [by rewrite E2|]. split; [set_solver|lia].
  - assert (new ∖ {[q]} <> ∅) as Hne' by (intros E'; rewrite E', size_empty in Esz; lia). rewrite bool_decide_eq_false_2 by done. cbn [negb].
    eapply runs_mono; [apply IH; lia|]. intros [] s3 (N & H3 & HN & Hsz). exists ({[q]} ∪ N). split; [rewrite H3, E2; set_solver|]. split; [set_solver|].
    rewrite size_union, size_singleton by set_solver. lia.
Qed.

(** The quests of a group that are not active. *)
Definition idle (g : PoolGroup) (s : Server) : gset Z :=
  list_to_set (filter (fun q => IsActiveObject KQuest q (mSpawnedData s) = false) (map guid (EqualChanced g))).

Lemma spawn_quests_runs rec g limit trig s :
  trig <> 0 -> 0 < limit < 2 ^ 31 -> limit <= Z.of_nat (size (idle g s)) ->
  runs (spawn_quests e t rec g limit trig) s (fun _ s' =>
    exists N, quests_of s' = quests_of s ∖ list_to_set (guids g) ∪ N /\ N ⊆ idle g s /\ Z.of_nat (size N) = limit).
Proof.
  intros Htr Hlim Hsz. unfold spawn_quests. apply runs_bind, runs_get. rewrite (proj2 (Z.eqb_neq _ _) Htr).
  unfold DespawnObject. fold (idle g s). apply runs_bind, runs_bind. eapply runs_mono; [apply despawn_quests_runs|]. intros [] s1 H1. cbn beta.
  eapply runs_mono; [apply despawn_quests_runs|]. intros [] s2 H2. cbn beta. rewrite (proj2 (Z.ltb_ge _ _)) by done. cbn [andb]. apply runs_bind, runs_ret.
  rewrite bool_decide_eq_false_2 by (intros E; rewrite E, size_empty in Hsz; lia). apply runs_bind. eapply runs_mono; [apply activate_runs; lia|].
  intros [] s3 (N & H3 & HN & HsN). cbn beta. apply runs_ret. exists N. split; [|done]. rewrite H3, H2, H1. unfold guids. rewrite map_app, list_to_set_app_L. set_solver.
Qed.
End Quests.

(** ** Every quest has the same chance *)

Definition equal (t : Tables) : Prop := forall i g, znth (mPoolQuestGroups t) i = Some g -> ExplicitlyChanced g = [].

Lemma equal_same t t' : groups t' KQuest = groups t KQuest -> equal t -> equal t'.
Proof. intros E H i g. cbn [groups] in E. rewrite E. apply H. Qed.

Lemma empty_equal t : empty_tables t -> equal t.
Proof.
  intros [_ _ _ E4 E5] i g Hg. destruct (ExplicitlyChanced g) as [|o l] eqn:E; [done|]. exfalso. assert (guid o ∈ members t KQuest i) as H.
  { unfold members. cbn [groups]. rewrite Hg, E, map_app. apply elem_of_app. right. constructor. }
  apply (E4 KQuest) in H. by rewrite E5 in H.
Qed.

Lemma add_quest_equal t q i : equal t -> equal (add_row KQuest t q i f_zero).
Proof.
  intros H. unfold add_row. destruct (znth (groups t KQuest) i) as [g|] eqn:Eg; [|done]. destruct (znth (mPoolTemplate t) i) as [l|]; [|done].
  set (t1 := set_groups _ _ _). assert (equal t1) as H1.
  { intros j g' Hj. unfold t1 in Hj. cbn [set_groups mPoolQuestGroups] in Hj. rewrite decide_True in Hj by done. rewrite znth_insert in Hj by by apply (znth_range _ _ g).
    destruct (decide (j = i)); [|by apply (H j)]. injection Hj as <-. apply (H i g Eg). }
  destruct (search_map t1 KQuest !! q); [done|]. by apply (equal_same t1).
Qed.

Lemma load_quests_equal e rows st : equal st.1 -> equal (foldl (load_quest e) st rows).1.
Proof.
  revert st. induction rows as [|[q i] rows IH]; intros st H; [done|]. apply IH. destruct st as [t types]. unfold load_quest. cbn [fst] in H.
  destruct (quest_type e q) as [[d w]|]; [|done]. destruct (_ || _); [done|]. destruct (negb _); [done|].
  destruct (at_key q (mQuestCreatureRelation t)), (at_key q (mQuestGORelation t)); cbn [fst]; [done|by apply add_quest_equal..].
Qed.

(** The groups of quests while the other tables are loaded. *)
Lemma add_row_quests k t x i c : k <> KQuest -> mPoolQuestGroups (add_row k t x i c) = mPoolQuestGroups t.
Proof. intros Hk. unfold add_row. by destruct k; repeat case_match. Qed.

Lemma fold_quests {R} (step : Tables -> R -> Tables) rows t :
  (forall t row, mPoolQuestGroups (step t row) = mPoolQuestGroups t) -> mPoolQuestGroups (foldl step t rows) = mPoolQuestGroups t.
Proof. intros H. revert t. induction rows as [|row rows IH]; intros t; [done|]. cbn [foldl]. by rewrite IH, H. Qed.

Lemma cut_cycle_quests n t i checked : mPoolQuestGroups (cut_cycle n t i checked) = mPoolQuestGroups t.
Proof.
  revert i checked. induction n as [|n IH]; intros i checked; cbn [cut_cycle]; destruct (mPoolSearchMap t !! i); try done.
  case_bool_decide; [|apply IH]. by case_match.
Qed.

Lemma load_tables_equal e r rc rg : keyed r -> equal (load_tables e r (Initialize r rc rg)).
Proof.
  intros Hr. unfold load_tables. apply load_quests_equal. cbn [fst]. pose proof (empty_equal _ (templates_empty r rc rg Hr)) as H. revert H. apply equal_same. cbn [groups].
  transitivity (mPoolQuestGroups (foldl (load_gameobject e) (foldl (load_creature e) (foldl load_template (Initialize r rc rg) (template_rows r)) (creature_rows r)) (gameobject_rows r))).
  - unfold load_pools. destruct (pool_rows r) as [|row rows]; [done|]. unfold cut_cycles. rewrite (fold_quests (fun t i => cut_cycle _ t i ∅)) by (intros; apply cut_cycle_quests).
    apply fold_quests. intros t row'. destruct (load_pool_step t row') as [->|(_ & _ & c & ->)]; [done|by apply add_row_quests].
  - rewrite fold_quests; [apply fold_quests|]; intros t row.
    + destruct (load_creature_step e t row) as [->|(_ & _ & c & ->)]; [done|by apply add_row_quests].
    + destruct (load_gameobject_step e t row) as [->|(_ & _ & c & ->)]; [done|by apply add_row_quests].
Qed.

(** ** The quests of a pool that is despawned *)

(** What holds after a program, if it ends without a fault. *)
Definition if_ok {A} (m : T A) (s : Server) (Q : A -> Server -> Prop) : Prop := match m s with (Ok a, s') => Q a s' | (Throw _, _) => True end.

Lemma if_ok_bind {A B} (m : T A) (f : A -> T B) s Q : if_ok m s (fun a s' => if_ok (f a) s' Q) -> if_ok (m ≫= f) s Q.
Proof. unfold if_ok, mbind, M_bind. by destruct (m s) as [[a|x] s']. Qed.
Lemma if_ok_mono {A} (m : T A) s (P Q : A -> Server -> Prop) : if_ok m s P -> (forall a s', P a s' -> Q a s') -> if_ok m s Q.
Proof. unfold if_ok. destruct (m s) as [[a|x] s']; [eauto|done]. Qed.
Lemma if_ok_runs {A} (m : T A) s (P Q : A -> Server -> Prop) : runs m s P -> if_ok m s Q -> runs m s (fun a s' => P a s' /\ Q a s').
Proof. unfold runs, if_ok. by destruct (m s) as [[a|x] s']. Qed.
Lemma runs_if_ok {A} (m : T A) s (P : A -> Server -> Prop) : runs m s P -> if_ok m s P.
Proof. unfold runs, if_ok. by destruct (m s) as [[a|x] s']. Qed.

Section Despawn.
Context (e : Env) (t : Tables) (rank : Z -> nat) (Hwf : well_formed t rank) (Hse : searchable t).

(** [m] takes the quests in [gone] off. *)
Definition takes_off {A} (gone : gset Z) (m : T A) : Prop := forall s, if_ok m s (fun _ s' => quests_of s' = quests_of s ∖ gone).

Lemma takes_off_then {A B} gone gone' (m : T A) (f : A -> T B) : takes_off gone m -> (forall a, takes_off gone' (f a)) -> takes_off (gone ∪ gone') (m ≫= f).
Proof.
  intros Hm Hf s. eapply if_ok_bind, if_ok_mono; [apply Hm|]. intros a s1 H1. eapply if_ok_mono; [apply Hf|]. intros b s2 H2. cbn in *. rewrite H2, H1. set_solver.
Qed.

Lemma takes_off_mapM {A} (f : A -> T unit) l : (forall x, x ∈ l -> takes_off ∅ (f x)) -> takes_off ∅ (mapM_ f l).
Proof.
  intros Hf. induction l as [|x l IH]; [intros s; unfold if_ok; cbn; set_solver|]. cbn [mapM_]. rewrite <- (union_empty_l_L ∅).
  apply takes_off_then; [apply Hf; constructor|intros _; apply IH; intros y Hy; apply Hf; by constructor].
Qed.

Lemma despawn_one_keeps rec k g only o : k <> KQuest -> (k = KPool -> takes_off ∅ (rec (guid o))) -> takes_off ∅ (despawn_one e t rec k g only o).
Proof.
  intros Hk Hrec s. unfold despawn_one. apply if_ok_bind. unfold if_ok at 1. cbn [get]. destruct (_ && _); [|unfold if_ok; cbn; set_solver].
  apply if_ok_bind. apply (if_ok_mono _ _ (fun _ s' => quests_of s' = quests_of s)).
  - destruct k; cbn [Despawn1Object]; [by destruct (has_data e _ _)..| |done]. eapply if_ok_mono; [by apply Hrec|]. intros ? s1 H1. cbn in H1. rewrite H1. set_solver.
  - intros [] s1 H1. unfold if_ok. cbn. unfold quests_of in *. cbn. destruct k; cbn; [set_solver..|done].
Qed.

Lemma despawn_kind_takes rec k i :
  (forall c, kid t i c -> takes_off ∅ (rec c)) -> takes_off (if decide (k = KQuest) then list_to_set (members t KQuest i) else ∅) (despawn_kind e t rec k i).
Proof.
  intros Hrec s. unfold despawn_kind, group_at, members. destruct (decide (k = KQuest)) as [->|Hk].
  - destruct (znth (groups t KQuest) i) as [g|]; [|done]. apply if_ok_bind. unfold if_ok at 1. cbn [mret M_ret]. destruct (isEmpty g) eqn:Eg.
    + unfold if_ok. cbn. unfold isEmpty in Eg. destruct g as [p [|] [|]]; [cbn; set_solver|done..].
    + apply runs_if_ok. unfold DespawnObject. eapply runs_bind, runs_mono; [apply despawn_quests_runs|]. intros [] s1 H1. eapply runs_mono; [apply despawn_quests_runs|].
      intros [] s2 H2. cbn in *. rewrite H2, H1, map_app, list_to_set_app_L. set_solver.
  - destruct (znth (groups t k) i) as [g|] eqn:Hg; [|done]. apply if_ok_bind. unfold if_ok at 1. cbn [mret M_ret]. destruct (isEmpty g); [unfold if_ok; cbn; set_solver|].
    assert (forall o, o ∈ EqualChanced g \/ o ∈ ExplicitlyChanced g -> k = KPool -> takes_off ∅ (rec (guid o))) as Hin.
    { intros o Ho ->. apply Hrec. unfold kid, members. rewrite Hg, map_app, elem_of_app. destruct Ho; [left|right]; by apply list_elem_of_fmap_2. }
    revert s. unfold DespawnObject. change (takes_off ∅ (mapM_ (despawn_one e t rec k g 0) (EqualChanced g) ;; mapM_ (despawn_one e t rec k g 0) (ExplicitlyChanced g))).
    rewrite <- (union_empty_l_L ∅). apply takes_off_then; [|intros _]; (apply takes_off_mapM; intros o Ho; apply despawn_one_keeps; [done|apply Hin; auto]).
Qed.

(** The quests of the pool itself: below it are none. *)
Lemma DespawnPool_takes d i : takes_off (list_to_set (members t KQuest i)) (DespawnPool e t d i).
Proof.
  revert i. induction d as [|d IH]; intros i; [by intros s|]. cbn [DespawnPool]. unfold DespawnPool_body.
  assert (forall c, kid t i c -> takes_off ∅ (DespawnPool e t d c)) as Hrec.
  { intros c Hc. specialize (IH c). destruct (decide (members t KQuest c = [])) as [E|E]; [by rewrite E in IH|]. by destruct (se_quests t Hse c i E). }
  assert (forall gone : gset Z, gone = ∅ ∪ (∅ ∪ (∅ ∪ gone))) as E by set_solver. rewrite (E (list_to_set _)).
  pose proof (fun k => despawn_kind_takes (DespawnPool e t d) k i Hrec) as H.
  apply takes_off_then; [apply (H KCreature)|intros _]. apply takes_off_then; [apply (H KGameObject)|intros _].
  apply takes_off_then; [apply (H KPool)|intros _]. apply (H KQuest).
Qed.
End Despawn.

(** ** A new day *)

Section Change.
Context (e : Env) (r : Rows) (t : Tables) (depth : nat).
Context (Hr : tidy r) (Hl : loaded r t) (Heq : equal t) (Hfair : fair e) (Hzero : quest_type e 0 = None).

(** The quests of a pool, and those that are not active. *)
Definition quests_in (i : Z) : gset Z := list_to_set (members t KQuest i).
Definition idle_in (i : Z) (s : Server) : gset Z := quests_in i ∖ quests_of s.

(** A pool whose first quest is not of the type to [skip]. *)
Definition first_quest (i : Z) : Z := match members t KQuest i with q :: _ => q | [] => 0 end.
Definition due (skip : bool * bool -> bool) (i : Z) : bool := match quest_type e (first_quest i) with Some q => negb (skip q) | None => false end.

(** Only new quests of a pool that is due, as many as its limit; the others as before. *)
Definition turned (b : bool) (i : Z) (s s' : Server) : Prop :=
  if b then Z.of_nat (size (quests_of s' ∩ quests_in i)) = limit t i /\ (quests_of s' ∩ quests_in i) ## quests_of s
  else quests_of s' ∩ quests_in i = quests_of s ∩ quests_in i.

Definition enough (i : Z) (s : Server) : Prop := 0 < limit t i <= Z.of_nat (size (idle_in i s)).

Lemma quests_apart i j : i <> j -> quests_in i ## quests_in j.
Proof.
  intros Hij q. unfold quests_in. rewrite !elem_of_list_to_set, !(member_search r t Hl). congruence.
Qed.

Lemma quest_group i g : znth (mPoolQuestGroups t) i = Some g -> members t KQuest i = map guid (EqualChanced g) /\ quests_in i = list_to_set (guids g).
Proof. intros Hg. unfold quests_in, members, guids. cbn [groups]. rewrite Hg, (Heq i g Hg), app_nil_r. by split. Qed.

Lemma UpdatePool_quests i s : pool t i -> enough i s ->
  runs (UpdatePool e t depth KQuest i 1) s (fun _ s' => exists new, quests_of s' = quests_of s ∖ quests_in i ∪ new /\ new ⊆ idle_in i s /\ Z.of_nat (size new) = limit t i).
Proof.
  intros Hi [H0 Hlim]. pose proof (loaded_well_formed r t Hr Hl) as Hwf. assert (members t KQuest i <> []) as Hm.
  { intros E. unfold idle_in, quests_in in Hlim. rewrite E in Hlim. cbn in Hlim. rewrite difference_empty_l_L in Hlim || rewrite (subseteq_empty_difference_L ∅) in Hlim by set_solver.
    rewrite size_empty in Hlim. lia. }
  unfold UpdatePool. rewrite (proj1 (quest_pool_root t (loaded_searchable r t Hr Hl) i Hm)). cbn [negb]. unfold SpawnPool_kind. rewrite Z.eqb_refl. cbn [negb].
  apply runs_bind, (group_runs t _ Hwf); [done|]. intros g Hg. destruct (isEmpty g) eqn:Eg; [by destruct (Hm (empty_members t _ _ _ Hg Eg))|].
  apply runs_bind, (limit_runs t _ Hwf); [done|]. intros l Hll. destruct (limit_range t _ Hwf i l Hll) as [E Hr1]. rewrite E in *.
  destruct (quest_group i g Hg) as [Em Eq]. assert (idle g s = idle_in i s) as Ei.
  { unfold idle, idle_in, quests_in. rewrite Em. apply set_eq. intros q. rewrite elem_of_difference, !elem_of_list_to_set, list_elem_of_filter. cbn [IsActiveObject].
    rewrite bool_decide_eq_false. unfold quests_of. tauto. }
  eapply runs_mono; [apply (spawn_quests_runs e t _ Hwf Hfair); [done|lia|by rewrite Ei]|].
  intros [] s' (N & H1 & H2 & H3). exists N. by rewrite Eq, <- Ei.
Qed.

Lemma UpdatePool_turns i s : pool t i -> enough i s ->
  runs (UpdatePool e t depth KQuest i 1) s (fun _ s' => forall j, turned (bool_decide (j = i)) j s s').
Proof.
  intros Hi He. eapply runs_mono; [by apply UpdatePool_quests|]. intros [] s' (N & H1 & H2 & H3) j. unfold turned, idle_in in *. case_bool_decide as Hj.
  - subst j. assert (quests_of s' ∩ quests_in i = N) as -> by (rewrite H1; set_solver). split; [done|set_solver].
  - pose proof (quests_apart j i Hj) as Ha. rewrite H1. set_solver.
Qed.

Lemma first_quest_group i g : znth (mPoolQuestGroups t) i = Some g -> GetFirstEqualChancedObjectId g = first_quest i.
Proof. intros Hg. unfold first_quest, GetFirstEqualChancedObjectId. rewrite (proj1 (quest_group i g Hg)). by destruct (EqualChanced g). Qed.

Lemma change_loop skip l k s :
  0 <= k -> (forall n g, l !! n = Some g -> znth (mPoolQuestGroups t) (k + Z.of_nat n) = Some g) ->
  (forall i, k <= i < k + zlen l -> due skip i = true -> enough i s) ->
  runs (mapM_ (fun g => match quest_type e (GetFirstEqualChancedObjectId g) with
                  | Some q => if skip q then mret tt else UpdatePool e t depth KQuest (poolId g) 1
                  | None => mret tt
                  end) l) s
    (fun _ s' => forall i, turned (bool_decide (k <= i < k + zlen l) && due skip i) i s s').
Proof.
  revert k s. induction l as [|g l IH]; intros k s Hk Hg He; cbn [mapM_].
  { apply runs_ret. intros i. by rewrite bool_decide_eq_false_2 by (unfold zlen; cbn; lia). }
  assert (zlen (g :: l) = zlen l + 1) as Ez by (unfold zlen; cbn; lia). assert (0 <= zlen l) as Hz by (unfold zlen; lia).
  pose proof (Hg O g eq_refl) as Hgk. rewrite Z.add_0_r in Hgk.
  apply runs_bind, (runs_mono _ _ (fun _ s1 => forall i, turned (bool_decide (i = k) && due skip i) i s s1)).
  - assert (due skip k = match quest_type e (GetFirstEqualChancedObjectId g) with Some q => negb (skip q) | None => false end) as Ed
      by (unfold due; by rewrite (first_quest_group k g Hgk)).
    assert (due skip k = false -> runs (mret tt : T unit) s (fun _ s1 => forall i, turned (bool_decide (i = k) && due skip i) i s s1)) as Hno.
    { intros E. apply runs_ret. intros i. case_bool_decide as Hi; [subst i; by rewrite E|done]. }
    destruct (quest_type e (GetFirstEqualChancedObjectId g)) as [q|] eqn:Eq; [|by apply Hno]. destruct (skip q); [by apply Hno|].
    assert (isEmpty g = false) as Hne.
    { destruct (isEmpty g) eqn:E; [|done]. unfold isEmpty in E. unfold GetFirstEqualChancedObjectId in Eq. destruct (ExplicitlyChanced g), (EqualChanced g); congruence. }
    rewrite (so_id _ _ (lo_sorted r t Hl KQuest) k g Hgk Hne).
    assert (pool t k) as Hp by (pose proof (znth_range _ _ _ Hgk); pose proof (so_length _ _ (lo_sorted r t Hl KQuest)); cbn [groups] in *; unfold pool; lia).
    eapply runs_mono; [apply UpdatePool_turns; [done|by apply He; [lia|]]|]. intros [] s1 H1 i. specialize (H1 i). case_bool_decide as Hi; [subst i; by rewrite Ed|done].
  - intros [] s1 H1. eapply runs_mono; [apply (IH (k + 1) s1); [lia| |]|].
    + intros n g' Hn. specialize (Hg (S n) g' Hn). by replace (k + 1 + Z.of_nat n) with (k + Z.of_nat (S n)) by lia.
    + intros i Hi Hd. specialize (H1 i). rewrite bool_decide_eq_false_2 in H1 by lia. cbn in H1. specialize (He i ltac:(lia) Hd). unfold enough, idle_in in *.
      assert (quests_in i ∖ quests_of s1 = quests_in i ∖ quests_of s) as -> by set_solver. done.
    + intros [] s2 H2 i. specialize (H1 i). specialize (H2 i). destruct (decide (i = k)) as [->|Hi].
      * rewrite bool_decide_eq_false_2 in H2 by lia. rewrite bool_decide_eq_true_2 in H1 by done. rewrite bool_decide_eq_true_2 by lia. cbn in H1, H2 |- *.
        unfold turned in *. destruct (due skip k); by rewrite H2.
      * rewrite (bool_decide_eq_false_2 (i = k)) in H1 by done. cbn in H1.
        rewrite (bool_decide_ext (k + 1 <= i < k + 1 + zlen l) (k <= i < k + zlen (g :: l))) in H2 by lia.
        unfold turned in *. destruct (_ && _); [|by rewrite H2]. destruct H2 as [H2 H3]. split; [done|]. set_solver.
Qed.

(** The table of the saved quests says what is active. *)
Lemma SaveQuestsToDB_saves s : runs (SaveQuestsToDB t) s (fun _ s' =>
  quests_of s' = quests_of s /\ forall i q, q ∈ quests_in i -> (i, q) ∈ pool_quest_save s' <-> q ∈ quests_of s').
Proof.
  unfold SaveQuestsToDB. apply runs_modify. split; [done|]. intros i q Hq. cbn [set_saved pool_quest_save mSpawnedData quests_of].
  apply elem_of_list_to_set in Hq. pose proof (proj1 (member_search r t Hl KQuest q i) Hq) as Hs. cbn [search_map] in Hs.
  rewrite elem_of_union, elem_of_filter, elem_of_list_to_set. split.
  - intros [[Hno _]|Hin].
    + destruct Hno. cbn [fst]. unfold members in Hq. cbn [groups] in Hq. destruct (znth (mPoolQuestGroups t) i) as [g|] eqn:Hg; [|by apply not_elem_of_nil in Hq].
      assert (isEmpty g = false) as Hne by (unfold isEmpty; destruct g as [p [|] [|]]; [by apply not_elem_of_nil in Hq|done..]).
      apply list_elem_of_fmap. exists g. split; [symmetry; by apply (so_id _ _ (lo_sorted r t Hl KQuest))|]. apply list_elem_of_filter. split; [done|].
      unfold znth in Hg. destruct (i <? 0); [done|]. by apply list_elem_of_lookup_2 in Hg.
    + apply list_elem_of_fmap in Hin as ([q' i'] & [= -> ->] & Hin). apply list_elem_of_filter in Hin as [Ha _]. by apply bool_decide_eq_true in Ha.
  - intros Ha. right. apply list_elem_of_fmap. exists (q, i). split; [done|]. apply list_elem_of_filter. split; [by apply bool_decide_eq_true|].
    by apply elem_of_map_to_list.
Qed.

Lemma change_turns skip s : (forall i, pool t i -> due skip i = true -> enough i s) ->
  runs (change_quests e t depth skip) s (fun _ s' =>
    (forall i, pool t i -> turned (due skip i) i s s') /\ forall i q, q ∈ quests_in i -> (i, q) ∈ pool_quest_save s' <-> q ∈ quests_of s').
Proof.
  intros He. unfold change_quests. pose proof (so_length _ _ (lo_sorted r t Hl KQuest)) as Hlen. cbn [groups] in Hlen.
  eapply runs_bind, runs_mono; [apply (change_loop skip (mPoolQuestGroups t) 0 s); [lia| |]|].
  - intros n g Hn. unfold znth. rewrite (proj2 (Z.ltb_ge _ _)) by lia. by rewrite Z.add_0_l, Nat2Z.id.
  - intros i Hi Hd. apply He; [unfold pool; lia|done].
  - intros [] s1 H1. eapply runs_mono; [apply SaveQuestsToDB_saves|]. intros [] s2 [E H2]. split; [|done]. intros i Hi. specialize (H1 i).
    rewrite bool_decide_eq_true_2 in H1 by (unfold pool in Hi; lia). unfold turned in *. by rewrite E.
Qed.
End Change.
