(* ===== verification/PoolProps.v ===== *)
(** * PoolProps: the properties of the pools

    From tidy rows of the database on: the loader makes a forest of the pools, so that
    spawning and despawning end; no pool has more active members than its limit; a
    pool that is despawned leaves nothing behind; and a new day brings new quests. *)

From S2P Require Import Prelude Float32.
From S2P Require Import Pool PoolLoad PoolSpec PoolHistory PoolForest PoolTables PoolGrid PoolQuest.

(** The pools to start with are named once by a row of the query: those without a mother
    are no child of any row. *)
Definition startable (r : Rows) : Prop :=
  forall row, row ∈ start_rows r -> 0 <= row.1 /\ (row.2 = 0 -> ~ row.1 ∈ map guid_of (pool_rows r)).

Section Loaded.
Context (e : Env) (r : Rows) (t : Tables) (depth : nat).
Context (Hr : tidy r) (Hl : loaded r t) (Hst : startable r) (Hfair : fair e) (Hzero : quest_type e 0 = None).
Context (Hdepth : (Z.to_nat (max_pool_id t) < depth)%nat).

Lemma deep_enough i : pool t i -> (rank_of (mPoolSearchMap t) i < depth)%nat.
Proof. intros _. pose proof (loaded_depth r t Hr Hl i). lia. Qed.

Lemma start_fine s : fine t s -> runs (mapM_ (spawn_start e t depth) (start_rows r)) s (fun _ s' => fine t s').
Proof.
  assert (forall row, row ∈ start_rows r -> 0 <= row.1 /\ (row.2 = 0 -> ~ row.1 ∈ map guid_of (pool_rows r))) as Hrows by apply Hst.
  revert s Hrows. induction (start_rows r) as [|row rows IH]; intros s Hrows Hs; [by apply runs_ret|]. cbn [mapM_]. apply runs_bind.
  apply (runs_mono _ _ (fun _ s' => fine t s')); [|intros [] s' H; apply IH; [intros row' Hin; apply Hrows; by constructor|done]].
  unfold spawn_start. destruct (negb (CheckPool t row.1)) eqn:Ec; [by apply runs_ret|]. destruct (Z.eqb_spec row.2 0) as [E|E]; [|by apply runs_ret].
  destruct (Hrows row) as [H0 Hroot]; [constructor|]. apply (spawn_fine e t _ depth (loaded_well_formed r t Hr Hl) Hfair deep_enough); [|right; by apply (loaded_root r t Hr Hl), Hroot|done].
  unfold pool. apply negb_false_iff in Ec. unfold CheckPool in Ec. apply andb_prop in Ec as [Ec%Z.leb_le _]. lia.
Qed.

Lemma server_fine l s :
  mSpawnedData s = nothing -> all_sensible e t depth l (mapM_ (spawn_start e t depth) (start_rows r) s).2 ->
  runs (mapM_ (spawn_start e t depth) (start_rows r) ;; mapM_ (obey e t depth) l) s (fun _ s' => fine t s').
Proof.
  intros H0 Hall. assert (fine t s) as Hs by (unfold fine; rewrite H0; apply (good_nothing t _ (loaded_well_formed r t Hr Hl))). apply runs_bind.
  destruct (runs_inv _ _ _ (start_fine s Hs)) as ([] & s1 & E & H1). unfold runs. rewrite E in *.
  apply (history_fine e t _ depth (loaded_well_formed r t Hr Hl) (loaded_searchable r t Hr Hl) Hfair deep_enough Hzero); done.
Qed.
End Loaded.

Lemma LoadFromDB_start e r t0 depth : tidy r -> (LoadFromDB e r t0 depth).2 = mapM_ (spawn_start e (load_tables e r t0) depth) (start_rows r).
Proof. intros Hr. unfold LoadFromDB. pose proof (td_some r Hr). by destruct (template_rows r). Qed.

(** C12: From tidy rows of the database (a spawn, quest or pool has one row, so a pool has
    one mother; a pool with quests has nothing else and is in no other pool), for every roll
    of the dice: the server starts, and runs any history of events beginning and ending for
    pools that are in no other pool, of respawns of creatures and game objects that are
    active, and of new days and weeks, without a bad index and without calls deeper than
    there are pools; and afterwards every pool without quests counts exactly its active
    members, and they are at most its limit. *)
Theorem pools_keep_their_limits e r rc rg depth s l :
  tidy r -> startable r -> fair e -> quest_type e 0 = None -> mSpawnedData s = nothing ->
  let t := load_tables e r (Initialize r rc rg) in
  let start := (LoadFromDB e r (Initialize r rc rg) depth).2 in
  (Z.to_nat (max_pool_id t) < depth)%nat -> all_sensible e t depth l (start s).2 ->
  runs (start ;; mapM_ (obey e t depth) l) s (fun _ s' =>
    forall i, pool t i -> members t KQuest i = [] ->
      GetActiveObjectCount i (mSpawnedData s') = total t i (mSpawnedData s') /\ total t i (mSpawnedData s') <= limit t i).
Proof.
  intros Hr Hst Hfair Hzero H0 t start Hd Hall. pose proof (LoadFromDB_start e r (Initialize r rc rg) depth Hr) as Es.
  fold start t in Es. rewrite Es in *. eapply runs_mono; [apply (server_fine e r t depth Hr (load_tables_loaded e r rc rg Hr) Hst Hfair Hzero Hd); done|].
  intros _ s' [He Hlim] i Hi Hq. split; [by apply He|by apply Hlim].
Qed.

(** C13: From tidy rows, a pool in no other pool that is despawned leaves nothing behind: no
    creature, game object, quest or pool of it, or of a pool below it at any depth, is
    active; the counters of all other pools, the creatures and game objects of other pools,
    and all other quests are as before. *)
Theorem despawned_pool_is_empty e r rc rg depth s i :
  tidy r -> let t := load_tables e r (Initialize r rc rg) in
  (Z.to_nat (max_pool_id t) < depth)%nat -> fine t s -> pool t i -> root t i ->
  runs (DespawnPool e t depth i) s (fun _ s' =>
    (forall j k x, below t i j -> x ∈ members t k j -> IsActiveObject k x (mSpawnedData s') = false) /\
    (forall j, ~ below t i j -> mSpawnedPools (mSpawnedData s') !! j = mSpawnedPools (mSpawnedData s) !! j) /\
    (forall k x, k = KCreature \/ k = KGameObject -> (forall j, below t i j -> ~ x ∈ members t k j) ->
       IsActiveObject k x (mSpawnedData s') = IsActiveObject k x (mSpawnedData s)) /\
    mActiveQuests (mSpawnedData s') = mActiveQuests (mSpawnedData s) ∖ list_to_set (members t KQuest i)).
Proof.
  intros Hr t Hd [He _] Hi Hroot. pose proof (load_tables_loaded e r rc rg Hr) as Hl. fold t in Hl. pose proof (loaded_well_formed r t Hr Hl) as Hwf.
  pose proof (loaded_searchable r t Hr Hl) as Hse. eapply runs_mono.
  - apply if_ok_runs; [|apply (DespawnPool_takes e t _ Hwf Hse)]. apply (DespawnPool_ok e t _ Hwf); [pose proof (loaded_depth r t Hr Hl i); lia|done|done|by right].
  - cbn beta. intros [] s' [[De [Dw _ Ds] _ Dc] Hq]. split; [|split; [exact Dw|split; [exact Ds|exact Hq]]].
    assert (forall j, below t i j -> forall k x, k <> KQuest -> x ∈ members t k j -> IsActiveObject k x (mSpawnedData s') = false) as H.
    { apply (rtc_ind_r (fun j => forall k x, k <> KQuest -> x ∈ members t k j -> IsActiveObject k x (mSpawnedData s') = false)).
      - intros k x Hk Hx. rewrite (Dc k x Hk Hx). apply andb_false_r.
      - intros j c _ Hc IH. apply (proj1 (pool_total_zero t c _)). apply (exact_inactive t _ Hwf); [done|]. by apply (IH KPool). }
    intros j k x Hj Hx. destruct (decide (k = KQuest)) as [->|Hk]; [|by apply (H j)].
    apply rtc_inv_r in Hj as [<-|(m & _ & Hm)]; [|destruct (se_quests t Hse j m); [intros E; rewrite E in Hx; by apply not_elem_of_nil in Hx|done]].
    apply bool_decide_eq_false. unfold quests_of in Hq. rewrite Hq. rewrite elem_of_difference, elem_of_list_to_set. tauto.
Qed.

(** C14: Where every spawn, quest and pool has at most one row that puts it into a pool,
    there is a template, ids are positive and limits fit an [int], then, whatever circles the
    rows of pools in pools make, the check for circular references leaves a forest: from every pool the
    search map leads up, in fewer steps than there are pools, to a pool that is in no other,
    and the groups agree with it; and where the rows are a forest already it changes
    nothing. *)
Theorem loaded_pools_are_a_forest e r rc rg :
  keyed r -> let t := load_tables e r (Initialize r rc rg) in
  (forall i, exists l, path (mPoolSearchMap t) i l /\ zlen l <= max_pool_id t) /\
  (forall m c, c ∈ members t KPool m <-> mPoolSearchMap t !! c = Some m) /\
  (forall t0 rows, (forall i, ends (mPoolSearchMap (foldl load_pool t0 rows)) i) -> load_pools t0 rows = foldl load_pool t0 rows).
Proof.
  intros Hr t. pose proof (load_tables_loaded e r rc rg Hr) as Hl. fold t in Hl. split; [|split].
  - intros i. destruct (lo_ends r t Hl i) as [l H]. exists l. split; [done|]. pose proof (path_length _ _ _ H) as H1.
    pose proof (loaded_size r t Hr Hl). pose proof (lo_max r t Hl). unfold zlen. lia.
  - intros m c. apply (so_in _ _ (lo_sorted r t Hl KPool)).
  - intros t0 rows H. unfold load_pools. destruct rows as [|row rows]; [done|]. by apply cut_cycles_forest.
Qed.

(** A server before its start. *)
Definition unstarted (cq gq : gmap Z (list Z)) (saved : gset (Z * Z)) : Server := mkServer nothing cq gq saved 0 [].

(** C15: Whatever the rows, the rolls and the commands, and even when a call fails: the
    creatures and game objects in the grids are at every moment between commands exactly
    those that are active and have data. *)
Theorem grids_show_what_is_active e r rc rg depth cq gq saved l x :
  let t := load_tables e r (Initialize r rc rg) in
  let s := (((LoadFromDB e r (Initialize r rc rg) depth).2 ;; mapM_ (obey e t depth) l) (unstarted cq gq saved)).2 in
  (x ∈ in_grid KCreature (log s) ∅ <-> x ∈ mSpawnedCreatures (mSpawnedData s) /\ has_data e KCreature x = true) /\
  (x ∈ in_grid KGameObject (log s) ∅ <-> x ∈ mSpawnedGameobjects (mSpawnedData s) /\ has_data e KGameObject x = true).
Proof.
  intros t s. assert (preserves (showing e) ((LoadFromDB e r (Initialize r rc rg) depth).2 ;; mapM_ (obey e t depth) l)) as H.
  { apply preserves_bind; [apply _| |intros _; apply shows_mapM; intros c; apply shows_obey].
    unfold LoadFromDB. destruct (template_rows r); [apply preserves_ret, _|]. apply shows_mapM. intros row. apply shows_start. }
  assert (shown e s) as Hs.
  { apply (H (unstarted cq gq saved)). intros k y Hk. cbn. split; [by intros ?%not_elem_of_empty|].
    destruct Hk as [-> | ->]; intros [H' _]; apply bool_decide_eq_true in H'; by apply not_elem_of_empty in H'. }
  pose proof (Hs KCreature x (or_introl eq_refl)) as H1. pose proof (Hs KGameObject x (or_intror eq_refl)) as H2. cbn [IsActiveObject] in H1, H2.
  rewrite bool_decide_eq_true in H1, H2. by split.
Qed.

(** C16: A new day or week, from tidy rows, when every pool of quests that is due (its first
    quest is not of the other type) has a limit above zero and as many quests that are not
    active: in each such pool exactly [MaxLimit] quests are active afterwards, and none of
    them was before; the quests of every other pool are as they were; and the table of the
    saved quests says of every quest of a pool whether it is active. *)
Theorem new_day_brings_new_quests e r rc rg depth s (weekly : bool) :
  tidy r -> fair e -> quest_type e 0 = None -> let t := load_tables e r (Initialize r rc rg) in
  let skip := if weekly then fst else snd in
  let change := if weekly then ChangeWeeklyQuests e t depth else ChangeDailyQuests e t depth in
  (forall i, pool t i -> due e t skip i = true -> 0 < limit t i <= Z.of_nat (size (quests_in t i ∖ mActiveQuests (mSpawnedData s)))) ->
  runs change s (fun _ s' =>
    let before := mActiveQuests (mSpawnedData s) in
    let after := mActiveQuests (mSpawnedData s') in
    (forall i, pool t i ->
       if due e t skip i then Z.of_nat (size (after ∩ quests_in t i)) = limit t i /\ (after ∩ quests_in t i) ## before
       else after ∩ quests_in t i = before ∩ quests_in t i) /\
    (forall i q, q ∈ quests_in t i -> (i, q) ∈ pool_quest_save s' <-> q ∈ after)).
Proof.
  intros Hr Hfair Hzero t skip change Henough. pose proof (load_tables_loaded e r rc rg Hr) as Hl. pose proof (load_tables_equal e r rc rg Hr) as Heq. fold t in Hl, Heq.
  pose proof (change_turns e r t depth Hr Hl Heq Hfair Hzero skip s Henough) as H. unfold change, ChangeDailyQuests, ChangeWeeklyQuests. unfold skip in *. by destruct weekly.
Qed.

(** ** A small database

    Pool 1 has the pools 2 and 3 and spawns one of them; pool 2 has two creatures of three,
    pool 3 one; pool 4 has a daily quest of two. *)
Definition ex_env : Env := mkEnv (fun _ => f_zero) (fun n k => Z.of_nat n mod k) (fun _ _ => true) (fun _ _ => true) (fun _ => true) (fun q => if q =? 0 then None else Some (true, false)).
Definition ex_rows (links : list (Z * Z * float32)) : Rows :=
  mkRows [(1, 1); (2, 2); (3, 1); (4, 1)] [(10, 2, f_zero); (11, 2, f_zero); (12, 2, f_zero); (13, 3, f_zero)] [] links [(100, 4); (101, 4)] [(1, 0); (2, 2); (3, 3); (4, 0)].
Definition ex_givers : gmap Z (list Z) := {[ 100 := [7]; 101 := [7] ]}.
Definition ex_tree : Rows := ex_rows [(2, 1, f_zero); (3, 1, f_zero)].
(** Three pools in a circle. *)
Definition ex_circle : Rows := ex_rows [(2, 1, f_zero); (3, 2, f_zero); (1, 3, f_zero)].
Abbreviation ex_tables := (load_tables ex_env ex_tree (Initialize ex_tree ex_givers ∅)).
Definition ex_server : Server := unstarted ∅ ∅ ∅.
Definition ex_history : list pool_cmd := [CRespawn KCreature 11; CDaily; CDespawn 1; CSpawn 1; CWeekly].

#[local] Ltac small := repeat (apply Forall_cons; split; [unfold guid_of, pool_of; cbn [fst snd]; intuition lia|]); apply Forall_nil; exact I.

Lemma ex_tidy links : NoDup (map guid_of links) -> (forall row, row ∈ links -> 0 < guid_of row < 4 /\ 0 < pool_of row < 4) -> tidy (ex_rows links).
Proof.
  intros Hnd Hl. split; [split|..]; cbn [ex_rows template_rows creature_rows gameobject_rows pool_rows quest_rows].
  - done.
  - apply Forall_forall. small.
  - by apply (bool_decide_unpack _).
  - constructor.
  - done.
  - by apply (bool_decide_unpack _).
  - apply Forall_forall. small.
  - intros row H. destruct (Hl row H). lia.
  - apply Forall_forall. small.
  - intros row q Hq. assert (q.2 = 4) as -> by (revert q Hq; apply Forall_forall; small). rewrite app_nil_l, elem_of_app. intros [H|H].
    + revert row H. apply Forall_forall. small.
    + destruct (Hl row H). lia.
  - intros row q Hq H. assert (q.2 = 4) as -> by (revert q Hq; apply Forall_forall; small). destruct (Hl row H). lia.
Qed.

Lemma ex_tree_tidy : tidy ex_tree.
Proof. apply ex_tidy; [by apply (bool_decide_unpack _)|apply Forall_forall; small]. Qed.

Lemma ex_startable : startable ex_tree.
Proof.
  refine (proj1 (Forall_forall _ _) _). cbn [ex_tree ex_rows start_rows]. repeat (apply Forall_cons; split; [split; [cbn; lia|]|]); [..|by apply Forall_nil];
    intros E; try discriminate E; intros H; by apply (bool_decide_pack _) in H.
Qed.

Lemma ex_fair : fair ex_env.
Proof. intros n k Hk. cbn. by apply Z.mod_pos_bound. Qed.

Lemma ex_root : pool ex_tables 1 /\ root ex_tables 1.
Proof.
  split; [unfold pool; vm_compute; by split|]. apply (loaded_root ex_tree _ ex_tree_tidy (load_tables_loaded _ _ _ _ ex_tree_tidy)).
  intros H. by apply (bool_decide_pack _) in H.
Qed.

Abbreviation ex_start := ((LoadFromDB ex_env ex_tree (Initialize ex_tree ex_givers ∅) 5).2).

Lemma ex_sensible : all_sensible ex_env ex_tables 5 ex_history (ex_start ex_server).2.
Proof.
  unfold ex_history. cbn [all_sensible sensible]. split; [split; [by left|by vm_compute]|]. split; [exact I|]. split; [apply ex_root|]. split; [apply ex_root|by split].
Qed.

Lemma ex_counts : map (fun i => GetActiveObjectCount i (mSpawnedData ((ex_start ;; mapM_ (obey ex_env ex_tables 5) ex_history) ex_server).2)) [1; 2; 3] = [1; 2; 0].
Proof. by vm_compute. Qed.

Lemma pools_keep_their_limits_witness :
  tidy ex_tree /\ startable ex_tree /\
  runs (ex_start ;; mapM_ (obey ex_env ex_tables 5) ex_history) ex_server (fun _ s' =>
    forall i, pool ex_tables i -> members ex_tables KQuest i = [] ->
      GetActiveObjectCount i (mSpawnedData s') = total ex_tables i (mSpawnedData s') /\ total ex_tables i (mSpawnedData s') <= limit ex_tables i).
Proof.
  split; [exact ex_tree_tidy|]. split; [exact ex_startable|].
  apply (pools_keep_their_limits ex_env ex_tree ex_givers ∅ 5 ex_server ex_history ex_tree_tidy ex_startable ex_fair eq_refl eq_refl); [vm_compute; lia|exact ex_sensible].
Defined.

Lemma ex_started : fine ex_tables (ex_start ex_server).2.
Proof.
  assert (runs ex_start ex_server (fun _ s' => fine ex_tables s')) as H.
  { rewrite (LoadFromDB_start ex_env ex_tree _ 5 ex_tree_tidy). apply (start_fine ex_env ex_tree ex_tables 5 ex_tree_tidy (load_tables_loaded _ _ _ _ ex_tree_tidy) ex_startable ex_fair); [vm_compute; lia|].
    apply (good_nothing ex_tables _ (loaded_well_formed ex_tree _ ex_tree_tidy (load_tables_loaded _ _ _ _ ex_tree_tidy))). }
  destruct (runs_inv _ _ _ H) as ([] & s1 & E & H1). by rewrite E.
Qed.

Lemma despawned_pool_is_empty_witness :
  IsActiveObject KCreature 11 (mSpawnedData (ex_start ex_server).2) = true /\
  runs (DespawnPool ex_env ex_tables 5 1) (ex_start ex_server).2 (fun _ s' =>
    (forall j k x, below ex_tables 1 j -> x ∈ members ex_tables k j -> IsActiveObject k x (mSpawnedData s') = false) /\
    (forall j, ~ below ex_tables 1 j -> mSpawnedPools (mSpawnedData s') !! j = mSpawnedPools (mSpawnedData (ex_start ex_server).2) !! j) /\
    (forall k x, k = KCreature \/ k = KGameObject -> (forall j, below ex_tables 1 j -> ~ x ∈ members ex_tables k j) ->
       IsActiveObject k x (mSpawnedData s') = IsActiveObject k x (mSpawnedData (ex_start ex_server).2)) /\
    mActiveQuests (mSpawnedData s') = mActiveQuests (mSpawnedData (ex_start ex_server).2) ∖ list_to_set (members ex_tables KQuest 1)).
Proof.
  split; [by vm_compute|].
  apply (despawned_pool_is_empty ex_env ex_tree ex_givers ∅ 5 (ex_start ex_server).2 1 ex_tree_tidy); [vm_compute; lia|exact ex_started|apply ex_root|apply ex_root].
Defined.

Lemma ex_circle_tidy : tidy ex_circle.
Proof. apply ex_tidy; [by apply (bool_decide_unpack _)|apply Forall_forall; small]. Qed.

(** The circle is cut where it closes: the link of pool 2 to pool 1 is taken out. *)
Lemma loaded_pools_are_a_forest_witness :
  let t := load_tables ex_env ex_circle (Initialize ex_circle ex_givers ∅) in
  map (fun i => mPoolSearchMap t !! i) [1; 2; 3] = [Some 3; None; Some 2] /\
  (forall i, exists l, path (mPoolSearchMap t) i l /\ zlen l <= max_pool_id t) /\
  (forall m c, c ∈ members t KPool m <-> mPoolSearchMap t !! c = Some m) /\
  (forall t0 rows, (forall i, ends (mPoolSearchMap (foldl load_pool t0 rows)) i) -> load_pools t0 rows = foldl load_pool t0 rows).
Proof.
  split; [by vm_compute|]. apply (loaded_pools_are_a_forest ex_env ex_circle ex_givers ∅ ex_circle_tidy).
Defined.

Lemma ex_enough i : pool ex_tables i -> due ex_env ex_tables snd i = true ->
  0 < limit ex_tables i <= Z.of_nat (size (quests_in ex_tables i ∖ mActiveQuests (mSpawnedData (ex_start ex_server).2))).
Proof.
  intros Hi. assert (max_pool_id ex_tables = 4) as Em by (by vm_compute). unfold pool in Hi. rewrite Em in Hi.
  assert (i = 0 \/ i = 1 \/ i = 2 \/ i = 3 \/ i = 4) as [->|[->|[->|[->| ->]]]] by lia; [by vm_compute..|]. intros _. split; vm_compute; done.
Qed.

Lemma new_day_brings_new_quests_witness :
  (elements (quests_of (ex_start ex_server).2), elements (quests_of (ChangeDailyQuests ex_env ex_tables 5 (ex_start ex_server).2).2)) = ([101], [100]) /\
  runs (ChangeDailyQuests ex_env ex_tables 5) (ex_start ex_server).2 (fun _ s' =>
    let before := mActiveQuests (mSpawnedData (ex_start ex_server).2) in
    let after := mActiveQuests (mSpawnedData s') in
    (forall i, pool ex_tables i ->
       if due ex_env ex_tables snd i then Z.of_nat (size (after ∩ quests_in ex_tables i)) = limit ex_tables i /\ (after ∩ quests_in ex_tables i) ## before
       else after ∩ quests_in ex_tables i = before ∩ quests_in ex_tables i) /\
    (forall i q, q ∈ quests_in ex_tables i -> (i, q) ∈ pool_quest_save s' <-> q ∈ after)).
Proof.
  split; [by vm_compute|].
  exact (new_day_brings_new_quests ex_env ex_tree ex_givers ∅ 5 (ex_start ex_server).2 false ex_tree_tidy ex_fair eq_refl ex_enough).
Defined.
